(* ===== verification/_CoqProject ===== *)
-Q . S2P
Prelude.v
Bytes.v
MathInt.v
LegacyDec.v
DecString.v
Coin.v
CoinFacts.v
CoinProps.v
DecCoin.v
KeyCodec.v
Collections.v
Account.v
Vesting.v
VestingProps.v
AuthKeeper.v
AuthProps.v
Bank.v
BankFacts.v
BankProps.v
BankDelegation.v
BankGenesis.v
KVStore.v
PrefixStore.v
CollMap.v
CollMapProps.v
CollDerived.v
CacheIter.v
CacheKV.v
CacheKVProps.v
Gas.v
Validator.v
Staking.v
StakingBank.v
StakingFacts.v
StakingOps.v
StakingSlash.v
StakingPayout.v
StakingBlock.v
StakingMsg.v
StakingProps.v
StakingTheorems.v
Slashing.v
Hoare.v
SlashingStaking.v
SlashingFacts.v
SlashingProps.v
SlashingWindow.v
SlashingTheorems.v
Evidence.v
EvidenceProps.v
DecCoinOk.v
Distribution.v
DistrFacts.v
DistrSolvency.v
DistrRefs.v
DistrHistory.v
DistrF1.v
DistrStaking.v
DistrExample.v
DistrTheorems.v
Gov.v
GovTally.v
GovBlock.v
GovFacts.v
GovOps.v
GovProps.v
GovTallyProps.v
GovStaking.v
GovExample.v
Feegrant.v
FeegrantProps.v
SdkContext.v
BaseApp.v
ABCI.v
Proposals.v
BaseAppExample.v
BaseAppProps.v
ABCIProps.v
ABCIGas.v
ProposalProps.v
