(* ===== verification/Prelude.v ===== *)
(** * Verification of the Cosmos SDK core

    The Cosmos SDK (Go) is a framework for blockchain applications.  A
    transaction carries messages; each is executed by a module's message server,
    whose keeper reads and writes collections, which live in a stack of key-value
    stores: a store that charges gas, over a cache that makes the transaction
    atomic, over the committed store.  The modules count coins, and coins are
    built on bounded integers and fixed-point decimals.  This development models
    these layers from the arithmetic up: coins, accounts, the bank, and the
    modules that call it (staking, slashing and evidence, distribution, governance,
    fee allowances); from the store up: prefix and cache stores, gas, key codecs and
    the collections the keepers use; and [baseapp], which executes the
    transactions and the blocks of an application.

    ** Files and the code they model

    - [Prelude]: results and effects of Go code, generic lemmas, automation.
      [outcome] keeps a value, a returned error and a panic apart; [GoM] is the
      state monad whose failing computations keep the writes made before the
      failure.  Also strings: bytes, UTF-8 decoding, comparison.
    - [Bytes]: byte slices, big-endian integers, the end of a prefix range
      (store/types/utils.go).
    - [MathInt]: math/int.go, math/uint.go, math/max_min.go.  [Int] and [Uint] as
      [Z] with every range check of the source; [RelativePow].
    - [LegacyDec]: math/legacy_dec.go.  The 18-digit decimal: rounding, products,
      quotients, powers, roots.
    - [DecString]: the decimals of math/legacy_dec.go as strings and as float64:
      [LegacyNewDecFromStr], [Dec_String] and the round trip of the two.
    - [Coin], [CoinFacts], [CoinProps]: types/coin.go, types/mapcoins.go.  Coin
      sets, their theory as functions from denominations to amounts, and the
      contracts of the source comments.
    - [DecCoin]: types/dec_coin.go.  Decimal coin sets.
    - [Collections]: collections/indexed_map.go, indexes/unique.go and
      indexes/reverse_pair.go.  Indexed maps over finite maps.
    - [Account]: x/auth/types/account.go, permissions.go.
    - [Vesting], [VestingProps]: x/auth/vesting/types.  The four vesting account
      types ([Continuous_], [Periodic_], [Delayed_], [PermanentLocked_]
      definitions, dispatched by the exported interface).
    - [AuthKeeper], [AuthProps]: x/auth/keeper/keeper.go, account.go and the
      account number sequence of x/accounts/keeper.go.
    - [Bank], [BankFacts], [BankProps], [BankDelegation], [BankGenesis]: x/bank/keeper
      (view.go, send.go, keeper.go, msg_server.go, genesis.go) and x/bank/types.
      A keeper method is a computation on [BankState], the stores of the bank
      module together with those of the account keeper it calls.
    - [KeyCodec]: collections/codec and collections/pair.go.  Codecs of keys
      (class [KeyCodec]) with their contract [KeyCodecLaws] and the order of the
      encodings [OrderedKey].
    - [CollMap], [CollMapProps], [CollDerived]: collections/map.go, iter.go,
      item.go, sequence.go, keyset.go, vec.go over any [KVStore].
    - [Validator]: x/staking/types/validator.go, commission.go.
    - [Staking], [StakingBlock], [StakingMsg]: x/staking/keeper.  The keeper
      (delegation.go, validator.go, slash.go, pool.go, params.go), the end of a
      block with the updates of the validator set and the rotation of keys
      (val_state_change.go, cons_pubkey.go, abci.go), and the message server.  A
      method is a computation on [StakingState], the collections of the module
      and the [BankState] of the bank it calls.
    - [StakingBank], [StakingFacts], [StakingOps], [StakingSlash],
      [StakingPayout], [StakingProps], [StakingTheorems]: the invariant of the
      staking module, operation by operation.
    - [Hoare]: what a computation keeps ([frame]) and what it establishes
      ([wlp] for the runs that succeed, [wp] with success), with tactics that follow
      the structure of a program.
    - [Slashing]: x/slashing, the keeper with its bitmap of missed blocks over the
      interface [SlashingStakingKeeper].  [SlashingStaking] puts the staking keeper
      behind that interface and proves its laws, [SlashingFacts], [SlashingProps],
      [SlashingWindow], [SlashingTheorems] hold the invariant of the bitmap and the
      decisions on downtime.
    - [Evidence], [EvidenceProps]: x/evidence, the router and the handling of
      equivocations, on top of [Slashing].
    - [Distribution]: x/distribution over the interface [DistrKeepers]; its state
      [DistrState] is the nine collections of the module and the state behind the
      interface.  [DecCoinOk] says what decimal coin operations that succeed return;
      [DistrFacts] states the laws of the interface ([DistrLaws]), [DistrSolvency]
      what the module owes and holds along the steps [di_step], [DistrRefs] its
      reference counts, [DistrHistory] and [DistrF1] the rewards of a delegation; [DistrStaking] puts the keepers of [Staking],
      [Bank] and [AuthKeeper] behind the interface and proves the laws,
      [DistrExample] runs a chain with them, [DistrTheorems] has the main theorems.
    - [Gov], [GovTally], [GovBlock]: x/gov.  The data, deposits, votes and
      proposals of the keeper; the tally; the end of a block, the message servers
      and genesis.  A method is a computation on [GovState], the collections of the
      module and the state behind the interface [GovKeepers]; the messages and
      what executes them belong to the application ([GovMessages], [GovApp]).
      [GovFacts] has the invariant [gov_inv], [GovOps] that every
      operation keeps it, [GovProps] the end of a block and the runs [gov_step], [GovTallyProps] the count
      of the votes; [GovStaking] puts the keepers of [Staking], [Bank] and
      [AuthKeeper] behind the interface, [GovExample] runs an application.
    - [Feegrant], [FeegrantProps]: x/feegrant, its keeper, message server and end
      blocker.
    - [KVStore]: the interfaces of store/types and the checks of validity.go; the
      contract [KVStoreLaws] a store gives to the store above it.
    - [CacheIter], [CacheKV], [CacheKVProps]: store/cachekv.  The iterators, the
      cache store with its lazily sorted dirty keys, and the instance of
      [KVStoreLaws] for a cache over any lawful store.
    - [PrefixStore]: store/prefix/store.go, again an instance of [KVStoreLaws].
    - [Gas]: store/types/gas.go, store/gaskv/store.go.
    - [SdkContext]: types/context.go, types/events.go.  The context of a
      handler, without the multistore and the gas meter, which are the state of
      the computation ([Exec]).
    - [BaseApp]: baseapp/baseapp.go, recovery.go, msg_service_router.go.  The
      stages of [runTx] are computations on its variables ([TxRun]); the deferred
      functions are applied to the outcome of the body in the order in which Go
      runs them.
    - [ABCI]: baseapp/abci.go, state.go.  The calls of the consensus engine as
      computations on an application: the branches of the modes, the root
      multistore with its working contents and its committed versions, the mempool.
    - [Proposals]: baseapp/abci_utils.go, the default proposal handlers.
    - [BaseAppExample]: a small application on these, which the witnesses run.
      [BaseAppProps] is about one transaction, [ABCIProps] about nodes and
      heights, [ABCIGas] about the block gas limit, [ProposalProps] about
      proposals.

    Keepers are modelled on finite maps ([gmap]).  What justifies it is below
    them: [KeyCodec] shows that the codecs are injective and ordered (strings
    that are not the last part of a key need one-byte code points, see
    [string_nonterminal_exact]), [CollMapProps] that a collection over a lawful
    store is a finite map with iteration in key order.  An iteration of a keeper
    sees the store as it was when the iteration began.

    ** What the theorems show

    - Bank: in every state reachable by keeper calls and messages the supply is
      the sum of the balances, balances are positive and the denomination index
      is exact ([bank_supply_invariant], by induction on [bank_step]); importing
      a valid genesis establishes this ([InitGenesis_establishes_invariant]);
      transfers, minting and burning do exactly what they should and locked coins
      stay ([SendCoins_exact], [SendCoins_insufficient], [mint_burn_exact],
      [Msg_Send_guards]); delegation always succeeds on covered coins and is undone
      by undelegation, up to how a vesting delegator's two counters share their sum
      ([delegate_undelegate_roundtrip], [roundtrip_moves_counters]).
    - Store: a cache over any lawful store refines a finite map under reads,
      writes, deletions and iteration in both directions, and [Write] commits
      exactly the buffered operations ([cache_store_refines_map],
      [cache_transaction]); iteration merges cache and parent without a gap
      ([cacheMergeIterator_overlay], [dirty_window_complete]); the gas store
      charges exactly the configured cost before it writes.
    - Staking: in every state reachable by messages, slashes, jailings and ends
      of blocks a validator's shares are those of its delegations and the two
      pools hold exactly the tokens the module owes, up to a constant surplus
      ([staking_invariant], by induction on [stk_step]); completing an unbonding
      always succeeds if the delegators that wait have stored accounts ([payable]),
      pays exactly the matured entries and keeps the others
      ([complete_unbonding_pays]), and the payouts of a block leave no matured
      entry ([payouts_complete]); a validator stays well formed, delegating and
      undelegating makes no profit, and the exchange rate moves only as stated
      ([validator_invariant], [delegate_undelegate_no_profit],
      [exchange_rate_moves], [unbond_shares_exact]).
    - Slashing: the counter of missed blocks is the number of set bits of the
      bitmap, also after rotations that overwrite the record of a removed validator
      ([missed_counter_exact]); who is punished for downtime and when
      ([downtime_decision]); a tombstone is final ([tombstone_permanent]) and an
      equivocation is slashed, jailed and tombstoned, once
      ([equivocation_slashes_once]), unless a rotation overwrites the tombstone.
      What keys that are used again do otherwise: [rotation_revives_tombstone],
      [rotation_orphans_bitmap], [bonded_on_misses].
    - Distribution: the module account covers what is owed along every run
      ([module_account_solvent]); the reference counts of the historical records are
      exact ([historical_records_exact]); the calculation from cumulative records
      equals a loop over the periods ([f1_rewards_exact]), and the delegators whose
      calculation does not stop at the check of the stake together never get more than
      the validator earned ([delegators_never_overpaid]).
    - Governance: the queues, total deposits, deposits and votes stay consistent
      along every run, also through the messages that proposals execute
      ([gov_state_invariant]); a proposal only moves forward and executes what was
      submitted ([proposal_lifecycle]); the outcome of a vote does not depend on the
      order in which a map is visited ([tally_order_irrelevant]) and no stake counts
      twice ([turnout_bounded]).
    - Fee allowances: the fees accepted never exceed the limit, the queue of
      expirations is exact, pruning removes all that expired
      ([fee_spending_bounded], [feegrant_queue_invariant],
      [prune_removes_all_expired]); where the limit of a period holds and where
      it does not ([periodic_limits], [period_limits_not_kept]).
    - Transactions and blocks: delivering a transaction agrees with a staged
      reference on which nothing, the ante handler or everything is written, through
      every error and panic ([deliver_tx_all_or_nothing]); a block never stops at a
      transaction and what commits is within the block gas limit
      ([block_gas_limit_kept]); nodes with the same blocks commit the same versions
      whatever they check and propose in between ([nodes_commit_the_same], by an
      equivalence of nodes that every call respects); the heights are consecutive,
      each version holds what its block left, and the announced hash is the committed
      one ([committed_heights_consecutive]); an honest proposal is accepted
      ([honest_proposal_accepted]).
    - Collections: codecs round-trip and sort ([key_codecs_correct],
      [pair_codec_correct]), a map, a vector and a sequence refine a finite map, a
      list and a counter ([map_refines_finite_map], [vec_refines_list],
      [sequence_consecutive]), prefix ranges select what they should
      ([pair_prefix_iteration]).
    - Vesting: for schedules shorter than 2^63 seconds vested coins never decrease and
      never exceed the original (longer ones overflow, [long_schedule_overflows]);
      vested and vesting coins partition it; locked coins and delegation tracking follow
      the documented formulas.
    - Accounts: numbers are fresh, the number index is exact, module accounts are
      created once.
    - Coins and decimal coins: addition and subtraction are pointwise on valid
      sets, independent of map iteration order, and overflow is the only panic;
      validation accepts exactly the canonical sets; binary search is linear
      search; truncation and scaling are exact up to the stated rounding.
    - Arithmetic: every operation is exact or panics at the documented bounds; the
      rounding of products, quotients and powers is characterised, with the
      inputs on which [QuoRoundUp] goes past the ceiling.

    ** Bounds and fuel

    Machine integers are [Z] with the wrap-around written out where the source
    can reach it (uint64 gas costs, int64 block times, 256-bit [Int] and [Uint]).
    Loops that are not structural take fuel, and theorems show it is enough:
    256 turns for [RelativePow], 64 for [PowerMut] (one per exponent bit), 300 for
    [ApproxRoot] (the bound in the source), the length of the list plus one for
    the binary searches.  Iterators take a fuel argument because the length of
    the parent's iteration is not known to them; the theorems hold for every fuel
    above the number of items, so the loops of the code terminate.

    ** Parameters

    Code outside the repository or chosen by the application is an argument: the
    denomination rule and the Unicode letter and digit tables ([CoinConfig],
    [UnicodeTables], with the shipped rule as an instance), bech32 and module
    address hashing ([AddressConfig], [ValAddressConfig], with the round trip of the
    encoding for addresses of 1 to 255 bytes in [AddressRoundtrip] and
    [bech32_roundtrip]), the staking hooks of other modules
    ([StakingHooks], assumed by [QuietHooks] to leave the staking stores and the
    pools alone, by [HooksKeepIds] to keep the map of consensus keys), the bitset of
    bits-and-blooms ([BitSet] with [BitSetLaws]), the codec of consensus addresses
    ([ConsAddressConfig]), net/url ([uri_ok]), the B-tree of tidwall/btree ([BTreeG] with
    the documented behaviour in [BTreeLaws], instantiated by a finite map), the
    parent store ([KVStore], [KVStoreLaws]), and send and mint restrictions,
    which are assumed not to write to the bank and account stores
    ([QuietRestrictions]) where a theorem needs it.  Of an application on
    [baseapp]: its types ([AppTypes]), its codec and handlers ([AppConfig],
    [BlockConfig], [ProposalConfig]), its mempool ([MempoolOps]) and the hash of a
    version, which IAVL computes.  What the theorems rely on are laws of these:
    removing from the mempool fails for no local reason ([MempoolLaws]), handlers
    keep gas meters in range ([MeterLaws]), the ante handler does not tell the two
    modes of proposals apart and the post handler refuses nothing in them
    ([VerifyLaws]), transactions decode to what was encoded
    ([ProposalLaws]); the example application satisfies all of them.  Of an application
    with governance: its messages ([GovMessages]), router, hooks and legacy handlers
    ([GovApp]), whose writes to the state of governance are its own operations
    ([GovAppLaws], shown for [ex_app]).  Go maps are enumerated in the order of
    [map_to_list], or in any order ([ga_range]); where the order could matter, that it
    does not is a theorem.

    ** Not modelled

    Text and wire formats (JSON, protobuf, the parsing and printing of coins), gRPC
    queries and pagination, the events of the modules, the mutex of the cache store, tracing, signatures and the ante handlers of x/auth, and
    the disk side of the commitment stores.  Of baseapp: simulation with nested
    messages, optimistic execution (goroutines), vote extensions (signatures),
    snapshots, streaming and a custom CheckTx handler.  Of staking: genesis,
    queries and historical info; of distribution: queries and the export of a
    genesis state; of governance: stored proposals that no longer decode, a custom
    calculation of the votes, and gas, of which only running out while a proposal
    executes is seen ([ga_out_of_gas]).  The hooks of slashing and distribution are operations of their
    modules; in the staking keeper they are the parameter [StakingHooks].  The
    remaining modules (x/mint, x/authz, x/group and the others the manifest lists) are
    outside the scope of this library, which is funds, staking, governance and the
    execution of blocks; their handlers are arguments of [BaseApp]. *)
From stdpp Require Export base gmap sets list strings sorting fin_maps.
From Stdlib Require Export ZArith Lia.

#[global] Open Scope Z_scope.

(** ** Go results

    A Go function can return a value, return a non-nil error, or panic.  The
    three outcomes are kept apart: an error is handled by the caller, a panic
    unwinds to the recovery handler of baseapp.  Errors are identified by
    their sentinel (for registered errors) or message. *)

Inductive outcome (A : Type) : Type :=
| Ok (a : A)
| Err (e : string)
| Panic (p : string).
Arguments Ok {A} a.
Arguments Err {A} e.
Arguments Panic {A} p.

#[global] Instance outcome_ret : MRet outcome := @Ok.
#[global] Instance outcome_bind : MBind outcome :=
  λ A B f m, match m with Ok a => f a | Err e => Err e | Panic p => Panic p end.
#[global] Instance outcome_fmap : FMap outcome :=
  λ A B f m, match m with Ok a => Ok (f a) | Err e => Err e | Panic p => Panic p end.
#[global] Instance outcome_eq_dec {A} `{EqDecision A} : EqDecision (outcome A).
Proof. solve_decision. Defined.

(** [panic(err)] when a call returned an error, the "Must" idiom. *)
Definition must {A} (m : outcome A) : outcome A :=
  match m with Err e => Panic e | _ => m end.

(** [err == nil] *)
Definition is_ok {A} (m : outcome A) : bool :=
  match m with Ok _ => true | _ => false end.

Definition guard_err (b : bool) (e : string) : outcome unit :=
  if b then Err e else Ok tt.
Definition guard_panic (b : bool) (p : string) : outcome unit :=
  if b then Panic p else Ok tt.

(** ** Stateful Go code

    Writes made before an error stay in the store: undoing them is the job of
    the cache context around a transaction, so a failing computation also
    returns the state it reached. *)

Definition GoM (S A : Type) : Type := S → outcome A * S.

#[global] Instance GoM_ret {S} : MRet (GoM S) := λ A a s, (Ok a, s).
#[global] Instance GoM_bind {S} : MBind (GoM S) :=
  λ A B f m s, match m s with
               | (Ok a, s1) => f a s1
               | (Err e, s1) => (Err e, s1)
               | (Panic p, s1) => (Panic p, s1)
               end.

Definition liftM {S A} (m : outcome A) : GoM S A := λ s, (m, s).
Definition getM {S} : GoM S S := λ s, (Ok s, s).
Definition readM {S A} (f : S → A) : GoM S A := λ s, (Ok (f s), s).
Definition modifyM {S} (f : S → S) : GoM S unit := λ s, (Ok tt, f s).
Definition errM {S A} (e : string) : GoM S A := λ s, (Err e, s).
Definition panicM {S A} (p : string) : GoM S A := λ s, (Panic p, s).

(** [for _, x := range l { acc = f(acc, x) }] with early exit on failure. *)
Section FoldM.
Context {M : Type → Type} {HR : MRet M} {HB : MBind M} {A B : Type}.
Variable f : B → A → M B.

Fixpoint foldM (b : B) (l : list A) : M B :=
  match l with
  | [] => mret b
  | x :: l' => b' ← f b x; foldM b' l'
  end.
End FoldM.

(** [for _, x := range l { if err := f(x); err != nil { return err } }] *)
Section ForM.
Context {M : Type → Type} {HR : MRet M} {HB : MBind M} {A : Type}.
Variable f : A → M unit.

Fixpoint forM_ (l : list A) : M unit :=
  match l with
  | [] => mret tt
  | x :: l' => _ ← f x; forM_ l'
  end.
End ForM.

(** [for i, x := range l { res[i] = f(x) }] with early exit on failure. *)
Section MapM.
Context {M : Type → Type} {HR : MRet M} {HB : MBind M} {A B : Type}.
Variable f : A → M B.

Fixpoint traverse (l : list A) : M (list B) :=
  match l with
  | [] => mret []
  | x :: l' => y ← f x; ys ← traverse l'; mret (y :: ys)
  end.
End MapM.

(** [for _, x := range l { if !f(x) { return false } } return true] and its
    dual, where evaluating the test may fail. *)
Section TestLoops.
Context {A : Type}.
Variable f : A → outcome bool.

Fixpoint forallM (l : list A) : outcome bool :=
  match l with
  | [] => Ok true
  | x :: l' => b ← f x; if b : bool then forallM l' else Ok false
  end.
Fixpoint existsM (l : list A) : outcome bool :=
  match l with
  | [] => Ok false
  | x :: l' => b ← f x; if b : bool then Ok true else existsM l'
  end.
End TestLoops.

(** ** Machine integers *)

Definition wrap_uint64 (z : Z) : Z := z mod 2 ^ 64.
Definition wrap_int64 (z : Z) : Z := (z + 2 ^ 63) mod 2 ^ 64 - 2 ^ 63.

(** ** Strings

    Go compares strings bytewise; [range] decodes UTF-8 and yields U+FFFD for
    each invalid byte. *)

Definition str_lt (s1 s2 : string) : bool := String.ltb s1 s2.
Definition str_eq (s1 s2 : string) : bool := String.eqb s1 s2.

Fixpoint string_bytes (s : string) : list Z :=
  match s with
  | EmptyString => []
  | String c s' => Z.of_N (Ascii.N_of_ascii c) :: string_bytes s'
  end.

Definition in_range (lo hi b : Z) : bool := (lo <=? b) && (b <=? hi).
Definition RuneError : Z := 0xFFFD.

(** The second byte allowed after a first byte, as in unicode/utf8. *)
Definition utf8_second (b0 b1 : Z) : bool :=
  if b0 =? 0xE0 then in_range 0xA0 0xBF b1
  else if b0 =? 0xED then in_range 0x80 0x9F b1
  else if b0 =? 0xF0 then in_range 0x90 0xBF b1
  else if b0 =? 0xF4 then in_range 0x80 0x8F b1
  else in_range 0x80 0xBF b1.
Definition utf8_cont (b : Z) : bool := in_range 0x80 0xBF b.

Fixpoint utf8_runes (l : list Z) : list Z :=
  match l with
  | [] => []
  | b0 :: l1 =>
      if b0 <? 0x80 then b0 :: utf8_runes l1
      else match l1 with
      | b1 :: l2 =>
          if in_range 0xC2 0xDF b0 && utf8_cont b1
          then ((b0 mod 32) * 64 + b1 mod 64) :: utf8_runes l2
          else match l2 with
          | b2 :: l3 =>
              if in_range 0xE0 0xEF b0 && utf8_second b0 b1 && utf8_cont b2
              then ((b0 mod 16) * 4096 + (b1 mod 64) * 64 + b2 mod 64) :: utf8_runes l3
              else match l3 with
              | b3 :: l4 =>
                  if in_range 0xF0 0xF4 b0 && utf8_second b0 b1 && utf8_cont b2 && utf8_cont b3
                  then ((b0 mod 8) * 262144 + (b1 mod 64) * 4096 + (b2 mod 64) * 64 + b3 mod 64)
                       :: utf8_runes l4
                  else RuneError :: utf8_runes l1
              | [] => RuneError :: utf8_runes l1
              end
          | [] => RuneError :: utf8_runes l1
          end
      | [] => RuneError :: utf8_runes l1
      end
  end.

(** The unicode predicates: package unicode answers from a Latin-1 property
    table below U+0100 and from range tables above, which are a parameter. *)
Class UnicodeTables := {
  table_letter : Z → bool;
  table_digit : Z → bool;
}.

Section Unicode.
Context {U : UnicodeTables}.

Definition unicode_IsLetter (r : Z) : bool :=
  if r <=? 0xFF then
    in_range 0x41 0x5A r || in_range 0x61 0x7A r || (r =? 0xAA) || (r =? 0xB5) || (r =? 0xBA)
    || in_range 0xC0 0xD6 r || in_range 0xD8 0xF6 r || in_range 0xF8 0xFF r
  else table_letter r.
Definition unicode_IsDigit (r : Z) : bool :=
  if r <=? 0xFF then in_range 0x30 0x39 r else table_digit r.
End Unicode.

(** [unicode.IsSpace]: the characters with the White_Space property. *)
Definition unicode_IsSpace (r : Z) : bool :=
  in_range 0x09 0x0D r || (r =? 0x20) || (r =? 0x85) || (r =? 0xA0) || (r =? 0x1680)
  || in_range 0x2000 0x200A r || (r =? 0x2028) || (r =? 0x2029) || (r =? 0x202F) || (r =? 0x205F)
  || (r =? 0x3000).

(** ** Inverting successful runs *)

Lemma outcome_bind_Ok {A B} (f : A → outcome B) (m : outcome A) b :
  m ≫= f = Ok b ↔ ∃ a, m = Ok a ∧ f a = Ok b.
Proof. destruct m; cbn; naive_solver. Qed.

Lemma must_Ok {A} (m : outcome A) a : must m = Ok a ↔ m = Ok a.
Proof. destruct m; naive_solver. Qed.

Lemma guard_err_Ok b e u : guard_err b e = Ok u ↔ b = false.
Proof. destruct b, u; cbn; naive_solver. Qed.

Lemma guard_panic_Ok b e u : guard_panic b e = Ok u ↔ b = false.
Proof. destruct b, u; cbn; naive_solver. Qed.

Lemma GoM_bind_Ok {S A B} (f : A → GoM S B) (m : GoM S A) b s s' :
  (m ≫= f) s = (Ok b, s') ↔ ∃ a s1, m s = (Ok a, s1) ∧ f a s1 = (Ok b, s').
Proof.
  unfold mbind, GoM_bind. destruct (m s) as [[a|e|p] s1]; naive_solver.
Qed.

(** Running one bind forward, and past a failure. *)
Lemma GoM_bind_run {S A B} (f : A → GoM S B) (m : GoM S A) a s s1 :
  m s = (Ok a, s1) → (m ≫= f) s = f a s1.
Proof. intros H. unfold mbind, GoM_bind. by rewrite H. Qed.
Lemma liftM_bind_run {S A B} (f : A → GoM S B) (m : outcome A) a s :
  m = Ok a → (liftM m ≫= f) s = f a s.
Proof. intros ->. reflexivity. Qed.
Lemma GoM_bind_err {S A B} (f : A → GoM S B) (m : GoM S A) e s s1 :
  m s = (Err e, s1) → (m ≫= f) s = (Err e, s1).
Proof. intros H. unfold mbind, GoM_bind. by rewrite H. Qed.

Lemma GoM_bind_panic {S A B} (f : A → GoM S B) (m : GoM S A) e s s1 :
  m s = (Panic e, s1) → (m ≫= f) s = (Panic e, s1).
Proof. intros H. unfold mbind, GoM_bind. by rewrite H. Qed.

Lemma liftM_Ok {S A} (m : outcome A) a (s s' : S) :
  liftM m s = (Ok a, s') ↔ m = Ok a ∧ s' = s.
Proof. unfold liftM. naive_solver. Qed.

Lemma traverse_Ok {A B} (f : A → outcome B) (g : A → B) l :
  (∀ x, x ∈ l → f x = Ok (g x)) → traverse f l = Ok (map g l).
Proof.
  induction l as [|x l IH]; intros H; [done|]. cbn. rewrite (H x) by (by left). cbn.
  rewrite IH; [done|]. intros y Hy. apply H. by right.
Qed.

(** Decompose every hypothesis saying that a monadic computation succeeded. *)
Ltac go_inv_step :=
  match goal with
  | H : mbind _ _ = Ok _ |- _ => apply outcome_bind_Ok in H as (? & ? & H)
  | H : must _ = Ok _ |- _ => apply (proj1 (must_Ok _ _)) in H
  | H : guard_err _ _ = Ok _ |- _ => apply (proj1 (guard_err_Ok _ _ _)) in H
  | H : guard_panic _ _ = Ok _ |- _ => apply (proj1 (guard_panic_Ok _ _ _)) in H
  | H : mret _ = Ok _ |- _ => injection H as H
  | H : Ok _ = Ok _ |- _ => injection H as H
  | H : Err _ = Ok _ |- _ => discriminate H
  | H : Panic _ = Ok _ |- _ => discriminate H
  | H : mbind _ _ _ = (Ok _, _) |- _ => apply GoM_bind_Ok in H as (? & ? & ? & H)
  | H : liftM _ _ = (Ok _, _) |- _ => apply (proj1 (liftM_Ok _ _ _ _)) in H as [? ?]
  | H : mret _ _ = (Ok _, _) |- _ => injection H as ? ?
  | H : getM _ = (Ok _, _) |- _ => injection H as ? ?
  | H : readM _ _ = (Ok _, _) |- _ => injection H as ? ?
  | H : modifyM _ _ = (Ok _, _) |- _ => injection H as ? ?
  | H : errM _ _ = (Ok _, _) |- _ => discriminate H
  | H : panicM _ _ = (Ok _, _) |- _ => discriminate H
  end.
Ltac go_inv := repeat (go_inv_step; simplify_eq).

(** Case-split on the boolean tests of a definition, with their meaning. *)
Ltac case_bool :=
  match goal with
  | |- context [if ?b then _ else _] => destruct b eqn:?
  | H : context [if ?b then _ else _] |- _ => destruct b eqn:?
  end.

(** ** The bytewise order on strings *)

Definition slt (s1 s2 : string) : Prop := str_lt s1 s2 = true.

Lemma slt_le s1 s2 : slt s1 s2 ↔ String.le s1 s2 ∧ s1 ≠ s2.
Proof.
  unfold slt, str_lt, String.ltb, String.le, String.leb.
  destruct (String.compare s1 s2) eqn:E.
  - apply String.compare_eq_iff in E. naive_solver.
  - split; [|done]. intros _. split; [done|]. intros ->.
    pose proof (String.compare_antisym s2 s2) as H. rewrite E in H. done.
  - naive_solver.
Qed.

#[global] Instance slt_strict : StrictOrder slt.
Proof.
  split.
  - intros s [_ ?]%slt_le. done.
  - intros s1 s2 s3 [H1 N1]%slt_le [H2 N2]%slt_le. apply slt_le. split; [by etransitivity|].
    intros ->. apply N1. by apply (anti_symm String.le).
Qed.

Lemma str_compare_spec s1 s2 :
  CompareSpec (s1 = s2) (slt s1 s2) (slt s2 s1) (String.compare s1 s2).
Proof.
  destruct (String.compare s1 s2) eqn:E; constructor.
  - by apply String.compare_eq_iff.
  - unfold slt, str_lt, String.ltb. by rewrite E.
  - unfold slt, str_lt, String.ltb. by rewrite String.compare_antisym, E.
Qed.

Lemma str_eq_spec s1 s2 : str_eq s1 s2 = bool_decide (s1 = s2).
Proof.
  unfold str_eq. destruct (String.eqb_spec s1 s2); case_bool_decide; congruence.
Qed.

Lemma str_lt_false s1 s2 : str_lt s1 s2 = false ↔ String.le s2 s1.
Proof.
  destruct (str_lt s1 s2) eqn:E.
  - apply slt_le in E as [? ?]. split; [done|]. intros ?. exfalso.
    by apply (anti_symm String.le) in H as ->.
  - split; [intros _|done]. destruct (total String.le s1 s2) as [H|H]; [|done].
    destruct (decide (s1 = s2)) as [->|]; [done|]. exfalso.
    assert (slt s1 s2) as Hc by (by apply slt_le). unfold slt in Hc. congruence.
Qed.

(** ** Wrap-around *)

Lemma wrap_int64_id z : - 2 ^ 63 <= z < 2 ^ 63 → wrap_int64 z = z.
Proof. intros Hz. unfold wrap_int64. rewrite Z.mod_small; lia. Qed.
Lemma wrap_uint64_id z : 0 <= z < 2 ^ 64 → wrap_uint64 z = z.
Proof. intros Hz. unfold wrap_uint64. by rewrite Z.mod_small. Qed.

Lemma slt_irrefl s : ¬ slt s s.
Proof. apply irreflexivity, _. Qed.
Lemma slt_ne s1 s2 : slt s1 s2 → s1 ≠ s2.
Proof. intros [_ ?]%slt_le. done. Qed.
#[global] Instance slt_dec s1 s2 : Decision (slt s1 s2).
Proof. unfold slt. apply _. Defined.

(** ** Lists *)

Section ListFilter.
Context {A : Type} (P : A → Prop) `{∀ x, Decision (P x)}.

Lemma filter_none l : Forall (λ x, ¬ P x) l → filter P l = [].
Proof. induction 1 as [|x l Hx _ IH]; [done|]. by rewrite filter_cons_False. Qed.
Lemma filter_all l : Forall P l → filter P l = l.
Proof. induction 1 as [|x l Hx _ IH]; [done|]. by rewrite filter_cons_True, IH. Qed.
End ListFilter.
