(* ===== verification/Bytes.v ===== *)
(** * Byte strings

    The operations on byte slices the stores and the key codecs share: bytes as
    integers, prefixes, slices of a buffer, big-endian integers
    (encoding/binary), and the end of a prefix range (store/types/utils.go).  A
    byte slice is a [string]. *)
From S2P Require Import Prelude.

(** ** Bytes *)

Definition code (c : Ascii.ascii) : Z := Z.of_N (Ascii.N_of_ascii c).
(** [byte(z)]: the low eight bits. *)
Definition byte (z : Z) : Ascii.ascii := Ascii.ascii_of_N (Z.to_N (z mod 256)).

Lemma code_range c : 0 <= code c < 256.
Proof. unfold code. pose proof (Ascii.N_ascii_bounded c). lia. Qed.
Lemma code_byte z : code (byte z) = z mod 256.
Proof.
  unfold code, byte. pose proof (Z.mod_pos_bound z 256 ltac:(lia)).
  rewrite Ascii.N_ascii_embedding by lia. lia.
Qed.
Lemma byte_code c : byte (code c) = c.
Proof.
  unfold byte. rewrite Z.mod_small by apply code_range. unfold code. rewrite N2Z.id.
  apply Ascii.ascii_N_embedding.
Qed.
Lemma code_inj c1 c2 : code c1 = code c2 → c1 = c2.
Proof. intros H. by rewrite <- (byte_code c1), H, byte_code. Qed.

(** ** The order *)

Lemma slt_nil_r s : ¬ slt s "".
Proof. by destruct s. Qed.
Lemma slt_nil_cons c s : slt "" (String c s).
Proof. done. Qed.
Lemma slt_cons a s b t : slt (String a s) (String b t) ↔ code a < code b ∨ a = b ∧ slt s t.
Proof.
  unfold slt, str_lt, String.ltb. cbn. unfold Ascii.compare, code.
  destruct (N.compare_spec (Ascii.N_of_ascii a) (Ascii.N_of_ascii b)) as [E|E|E].
  - assert (a = b) as -> by (apply code_inj; unfold code; by rewrite E).
    split; [intros H; by right|intros [H|[_ H]]; [lia|done]].
  - split; [intros _; left; lia|done].
  - split; [done|]. intros [H|[-> _]]; lia.
Qed.
Lemma slt_app p a b : slt (p +:+ a) (p +:+ b) ↔ slt a b.
Proof.
  induction p as [|c p IH]; [done|]. change (String c p +:+ a) with (String c (p +:+ a)).
  change (String c p +:+ b) with (String c (p +:+ b)). rewrite slt_cons, IH. split; [intros [?|[_ ?]]; [lia|done]|by right].
Qed.
Lemma str_lt_app p a b : str_lt (p +:+ a) (p +:+ b) = str_lt a b.
Proof. apply eq_true_iff_eq. apply slt_app. Qed.
(** Different bytes decide the comparison, whatever follows. *)
Lemma slt_app_diff p a b s t : code a < code b → slt (p +:+ String a s) (p +:+ String b t).
Proof. intros H. rewrite slt_app, slt_cons. by left. Qed.

(** ** Slices *)

(** [buf[:n]] and [buf[n:]], for [n] within the length. *)
Fixpoint str_take (n : nat) (s : string) : string :=
  match n, s with
  | S n, String c s => String c (str_take n s)
  | _, _ => ""
  end.
Fixpoint str_drop (n : nat) (s : string) : string :=
  match n, s with
  | S n, String _ s => str_drop n s
  | _, _ => s
  end.

Lemma str_app_cons c a b : String c a +:+ b = String c (a +:+ b).
Proof. done. Qed.
Lemma str_length_app a b : String.length (a +:+ b) = (String.length a + String.length b)%nat.
Proof. induction a as [|c a IH]; [done|]. rewrite str_app_cons. cbn. by rewrite IH. Qed.
Lemma str_app_assoc a b c : a +:+ b +:+ c = (a +:+ b) +:+ c.
Proof. induction a as [|x a IH]; [done|]. by rewrite !str_app_cons, IH. Qed.
Lemma str_app_nil_r a : a +:+ "" = a.
Proof. induction a as [|x a IH]; [done|]. by rewrite !str_app_cons, IH. Qed.
Lemma str_take_app a b : str_take (String.length a) (a +:+ b) = a.
Proof. induction a as [|c a IH]; [by destruct b|]. rewrite str_app_cons. cbn. by rewrite IH. Qed.
Lemma str_take_exact n a b : String.length a = n → str_take n (a +:+ b) = a.
Proof. intros <-. apply str_take_app. Qed.
Lemma str_drop_app a b : str_drop (String.length a) (a +:+ b) = b.
Proof. induction a as [|c a IH]; [by destruct b|]. exact IH. Qed.
Lemma str_take_app_le n a b : (n <= String.length a)%nat → str_take n (a +:+ b) = str_take n a.
Proof.
  revert a. induction n as [|n IH]; intros a Hn; [by destruct a, b|]. destruct a as [|c a]; cbn in *; [lia|].
  rewrite str_app_cons. f_equal. apply IH. lia.
Qed.
Lemma str_take_drop n s : str_take n s +:+ str_drop n s = s.
Proof. revert s. induction n as [|n IH]; intros [|c s]; try done. cbn [str_take str_drop]. by rewrite str_app_cons, IH. Qed.
Lemma str_take_length n s : (n <= String.length s)%nat → String.length (str_take n s) = n.
Proof. revert s. induction n as [|n IH]; intros [|c s] H; cbn in *; try lia. rewrite IH; lia. Qed.

(** ** Prefixes *)

(** [bytes.HasPrefix(s, p)] *)
Definition HasPrefix (s p : string) : bool := String.prefix p s.
Arguments HasPrefix : simpl never.

Lemma HasPrefix_spec s p : HasPrefix s p = true ↔ ∃ t, s = p +:+ t.
Proof.
  unfold HasPrefix. revert s. induction p as [|c p IH]; intros s; cbn.
  - split; [intros _; by exists s|by destruct s].
  - destruct s as [|c' s]; [split; [done|intros [t [=]]]|]. cbn. destruct (Ascii.ascii_dec c c') as [->|Hne].
    + etransitivity; [apply IH|]. split; intros [t Ht]; exists t; [by rewrite Ht|]. by injection Ht.
    + split; [done|]. intros [t [= E _]]. by rewrite E in Hne.
Qed.
Lemma HasPrefix_app p t : HasPrefix (p +:+ t) p = true.
Proof. apply HasPrefix_spec. by exists t. Qed.
Lemma HasPrefix_cons c s d p : HasPrefix (String c s) (String d p) = bool_decide (c = d) && HasPrefix s p.
Proof. unfold HasPrefix. cbn. destruct (Ascii.ascii_dec d c); case_bool_decide; cbn; congruence. Qed.

(** A key has at most one of two prefixes unless one extends the other. *)
Lemma prefixes_disjoint p q k : HasPrefix q p = false → HasPrefix p q = false → HasPrefix (q +:+ k) p = false.
Proof.
  intros H1 H2. destruct (HasPrefix (q +:+ k) p) eqn:E; [|done]. exfalso. revert q k H1 H2 E.
  induction p as [|c p IH]; intros q k H1 H2 E; [by destruct q|]. destruct q as [|d q]; [done|].
  rewrite str_app_cons, HasPrefix_cons in E. rewrite HasPrefix_cons in H1, H2. apply andb_prop in E as [Ed E].
  apply bool_decide_eq_true in Ed as ->. rewrite bool_decide_true in H1, H2 by done. by eapply IH.
Qed.

(** The loop of [PrefixEndBytes] on the reversed bytes: drop trailing 0xFF
    bytes, increment the last one that remains. *)
Fixpoint prefix_end_rev (l : list Ascii.ascii) : option (list Ascii.ascii) :=
  match l with
  | [] => None
  | c :: l => if code c =? 255 then prefix_end_rev l else Some (byte (code c + 1) :: l)
  end.
Definition PrefixEndBytes (p : string) : option string :=
  match p with
  | EmptyString => None
  | _ => (λ l, String.string_of_list_ascii (reverse l)) <$> prefix_end_rev (reverse (String.list_ascii_of_string p))
  end.

(** The same from the front. *)
Fixpoint prefix_end (p : string) : option string :=
  match p with
  | EmptyString => None
  | String c p =>
      match prefix_end p with
      | Some e => Some (String c e)
      | None => if code c =? 255 then None else Some (String (byte (code c + 1)) "")
      end
  end.
Lemma prefix_end_rev_app l c :
  prefix_end_rev (l ++ [c]) =
  match prefix_end_rev l with
  | Some r => Some (r ++ [c])
  | None => if code c =? 255 then None else Some [byte (code c + 1)]
  end.
Proof. induction l as [|d l IH]; cbn; [done|]. by destruct (code d =? 255). Qed.
Lemma PrefixEndBytes_front p : PrefixEndBytes p = prefix_end p.
Proof.
  assert (∀ p, (λ l, String.string_of_list_ascii (reverse l)) <$> prefix_end_rev (reverse (String.list_ascii_of_string p)) = prefix_end p) as H.
  { clear p. induction p as [|c p IH]; [done|]. cbn [String.list_ascii_of_string prefix_end].
    rewrite reverse_cons, prefix_end_rev_app, <- IH.
    destruct (prefix_end_rev (reverse (String.list_ascii_of_string p))) as [r|]; cbn.
    - by rewrite reverse_app.
    - by destruct (code c =? 255). }
  destruct p; [done|apply H].
Qed.

(** A key has the prefix exactly if it lies between the prefix and its end. *)
Lemma prefix_end_range p k :
  HasPrefix k p = negb (str_lt k p) && match prefix_end p with Some e => str_lt k e | None => true end.
Proof.
  revert k. induction p as [|c p IH]; intros k; [by destruct k|].
  destruct k as [|d k]; [done|]. rewrite HasPrefix_cons, IH. cbn [prefix_end].
  assert (str_lt (String d k) (String c p) = (code d <? code c) || bool_decide (d = c) && str_lt k p) as ->.
  { apply eq_true_iff_eq. rewrite orb_true_iff, andb_true_iff, bool_decide_eq_true, Z.ltb_lt. apply slt_cons. }
  pose proof (code_range c) as Hc. pose proof (code_range d) as Hd.
  destruct (prefix_end p) as [e|].
  - assert (str_lt (String d k) (String c e) = (code d <? code c) || bool_decide (d = c) && str_lt k e) as ->.
    { apply eq_true_iff_eq. rewrite orb_true_iff, andb_true_iff, bool_decide_eq_true, Z.ltb_lt. apply slt_cons. }
    case_bool_decide as E; [subst d; rewrite Z.ltb_irrefl; cbn; done|]. cbn. rewrite orb_false_r.
    destruct (code d <? code c); done.
  - destruct (Z.eqb_spec (code c) 255) as [E255|E255].
    + rewrite andb_true_r. case_bool_decide as E; [subst d; by rewrite Z.ltb_irrefl, andb_true_r|]. cbn.
      assert (code d ≠ code c) by (intros ?; by apply E, code_inj). rewrite orb_false_r.
      by rewrite (proj2 (Z.ltb_lt _ _)) by lia.
    + assert (str_lt (String d k) (String (byte (code c + 1)) "") = (code d <? code c + 1)) as ->.
      { apply eq_true_iff_eq. rewrite Z.ltb_lt. change (slt (String d k) (String (byte (code c + 1)) "") ↔ code d < code c + 1).
        rewrite slt_cons, code_byte, Z.mod_small by lia. split; [|by left].
        intros [?|[_ ?%slt_nil_r]]; [lia|done]. }
      case_bool_decide as E; [subst d; rewrite Z.ltb_irrefl; cbn; rewrite andb_true_r; symmetry; rewrite (proj2 (Z.ltb_lt _ _)) by lia; by rewrite andb_true_r|].
      cbn. rewrite orb_false_r. assert (code d ≠ code c) by (intros ?; by apply E, code_inj).
      destruct (Z.ltb_spec (code d) (code c)); [done|]. by rewrite (proj2 (Z.ltb_ge _ _)) by lia.
Qed.

(** ** Buffers *)

(** [make([]byte, n)] *)
Fixpoint zeros (n : nat) : string :=
  match n with O => "" | S n => String (byte 0) (zeros n) end.
(** [copy(dst, src)]: overwrite as many bytes as both have. *)
Fixpoint copy_into (dst src : string) : string :=
  match dst, src with
  | String _ dst, String c src => String c (copy_into dst src)
  | _, _ => dst
  end.
Lemma zeros_length n : String.length (zeros n) = n.
Proof. induction n as [|n IH]; [done|]. cbn. by rewrite IH. Qed.
Lemma zeros_app n m : zeros (n + m) = zeros n +:+ zeros m.
Proof. induction n as [|n IH]; [done|]. cbn [zeros Nat.add]. by rewrite str_app_cons, IH. Qed.
Lemma copy_into_app a b c : String.length a = String.length b → copy_into (a +:+ c) b = b +:+ c.
Proof.
  revert b. induction a as [|x a IH]; intros [|y b] H; try done; [by destruct c|].
  rewrite !str_app_cons. cbn [copy_into]. rewrite IH; [done|]. cbn in H. lia.
Qed.

(** ** Big-endian integers: encoding/binary *)

(** The [n] low bytes of [z], most significant first. *)
Fixpoint be_put (n : nat) (z : Z) : string :=
  match n with
  | O => ""
  | S n => String (byte (Z.shiftr z (8 * Z.of_nat n))) (be_put n z)
  end.
(** [uint64(b[7]) | uint64(b[6])<<8 | ...] *)
Fixpoint be_get (s : string) : Z :=
  match s with
  | EmptyString => 0
  | String c s => Z.lor (Z.shiftl (code c) (8 * Z.of_nat (String.length s))) (be_get s)
  end.

Lemma be_put_length n z : String.length (be_put n z) = n.
Proof. induction n as [|n IH]; [done|]. cbn. by rewrite IH. Qed.
Lemma testbit_high b n i : 0 <= b < 2 ^ n → n <= i → Z.testbit b i = false.
Proof.
  intros Hb Hi. destruct (Z.lt_ge_cases n 0) as [Hn|Hn]; [rewrite Z.pow_neg_r in Hb by done; lia|].
  rewrite <- (Z.mod_small b (2 ^ n)) by done. apply Z.mod_pow2_bits_high. lia.
Qed.
Lemma lor_shiftl_add a b n : 0 <= n → 0 <= b < 2 ^ n → Z.lor (Z.shiftl a n) b = a * 2 ^ n + b.
Proof.
  intros Hn Hb. rewrite <- Z.shiftl_mul_pow2 by done. symmetry. rewrite Z.add_nocarry_lxor.
  - apply Z.bits_inj'. intros i Hi. rewrite Z.lxor_spec, Z.lor_spec.
    destruct (Z.lt_ge_cases i n) as [Hlt|Hge].
    + rewrite Z.shiftl_spec_low by done. by destruct (Z.testbit b i).
    + rewrite (testbit_high b n i) by done. by rewrite xorb_false_r, orb_false_r.
  - apply Z.bits_inj'. intros i Hi. rewrite Z.land_spec, Z.bits_0.
    destruct (Z.lt_ge_cases i n) as [Hlt|Hge].
    + by rewrite Z.shiftl_spec_low.
    + rewrite (testbit_high b n i) by done. by rewrite andb_false_r.
Qed.

(** The value as a sum. *)
Lemma be_get_cons c s : be_get (String c s) = code c * 2 ^ (8 * Z.of_nat (String.length s)) + be_get s.
Proof.
  assert (∀ s, 0 <= be_get s < 2 ^ (8 * Z.of_nat (String.length s))) as Hr.
  { clear. induction s as [|c s IH]; [cbn; lia|]. cbn [be_get String.length].
    rewrite lor_shiftl_add by (done || lia). pose proof (code_range c).
    replace (8 * Z.of_nat (S (String.length s))) with (8 * Z.of_nat (String.length s) + 8) by lia.
    rewrite Z.pow_add_r by lia. change (2 ^ 8) with 256. nia. }
  cbn [be_get]. apply lor_shiftl_add; [lia|apply Hr].
Qed.
Lemma be_get_range s : 0 <= be_get s < 2 ^ (8 * Z.of_nat (String.length s)).
Proof.
  induction s as [|c s IH]; [cbn; lia|]. rewrite be_get_cons. pose proof (code_range c). cbn [String.length].
  replace (8 * Z.of_nat (S (String.length s))) with (8 * Z.of_nat (String.length s) + 8) by lia.
  rewrite Z.pow_add_r by lia. change (2 ^ 8) with 256. nia.
Qed.
Lemma be_get_put n z : be_get (be_put n z) = z mod 2 ^ (8 * Z.of_nat n).
Proof.
  induction n as [|n IH]; [cbn; by rewrite Z.mod_1_r|]. cbn [be_put]. rewrite be_get_cons, IH, be_put_length, code_byte.
  rewrite Z.shiftr_div_pow2 by lia. replace (8 * Z.of_nat (S n)) with (8 * Z.of_nat n + 8) by lia.
  rewrite Z.pow_add_r by lia. change (2 ^ 8) with 256. rewrite (Z.rem_mul_r z) by lia. ring.
Qed.
Lemma be_put_get s : be_put (String.length s) (be_get s) = s.
Proof.
  assert (∀ n z z', z mod 2 ^ (8 * Z.of_nat n) = z' mod 2 ^ (8 * Z.of_nat n) → be_put n z = be_put n z') as Hext.
  { induction n as [|n IH]; intros z z' H; [done|]. cbn [be_put].
    replace (8 * Z.of_nat (S n)) with (8 * Z.of_nat n + 8) in H by lia. rewrite Z.pow_add_r in H by lia.
    change (2 ^ 8) with 256 in H. rewrite !Z.rem_mul_r in H by lia.
    pose proof (Z.mod_pos_bound z (2 ^ (8 * Z.of_nat n)) ltac:(lia)).
    pose proof (Z.mod_pos_bound z' (2 ^ (8 * Z.of_nat n)) ltac:(lia)).
    destruct (Z.div_mod_unique (2 ^ (8 * Z.of_nat n)) ((z / 2 ^ (8 * Z.of_nat n)) mod 256)
      ((z' / 2 ^ (8 * Z.of_nat n)) mod 256) (z mod 2 ^ (8 * Z.of_nat n)) (z' mod 2 ^ (8 * Z.of_nat n)))
      as [Eq Er]; [lia..|]. f_equal; [|by apply IH].
    apply code_inj. by rewrite !code_byte, !Z.shiftr_div_pow2 by lia. }
  induction s as [|c s IH]; [done|]. cbn [String.length be_put]. pose proof (be_get_range s).
  rewrite be_get_cons. f_equal.
  - apply code_inj. rewrite code_byte, Z.shiftr_div_pow2, Z.div_add_l, Z.div_small, Z.add_0_r by lia.
    apply Z.mod_small, code_range.
  - etransitivity; [|exact IH]. apply Hext. by rewrite Z.add_comm, Z.mod_add by lia.
Qed.

(** Big-endian encodings of the same length compare like the integers. *)
Lemma be_get_lt s t : String.length s = String.length t → slt s t ↔ be_get s < be_get t.
Proof.
  revert t. induction s as [|c s IH]; intros [|d t] H; try done.
  cbn in H. injection H as H. rewrite slt_cons, !be_get_cons, IH by done. rewrite H.
  pose proof (be_get_range s) as Hs. pose proof (be_get_range t) as Ht. rewrite H in Hs.
  pose proof (code_range c). pose proof (code_range d).
  split; [intros [?|[-> ?]]; nia|]. intros Hlt. destruct (Z.lt_trichotomy (code c) (code d)) as [?|[E|?]]; [by left| |nia].
  right. split; [by apply code_inj|]. rewrite E in Hlt. lia.
Qed.
Lemma be_put_lt n a b : 0 <= a < 2 ^ (8 * Z.of_nat n) → 0 <= b < 2 ^ (8 * Z.of_nat n) →
  slt (be_put n a) (be_put n b) ↔ a < b.
Proof.
  intros Ha Hb. rewrite be_get_lt by (by rewrite !be_put_length). rewrite !be_get_put.
  by rewrite !Z.mod_small by done.
Qed.
(** A decided comparison stays decided whatever follows. *)
Lemma slt_app_r s t r1 r2 : String.length s = String.length t → slt s t → slt (s +:+ r1) (t +:+ r2).
Proof.
  revert t. induction s as [|c s IH]; intros [|d t] H Hlt; try done.
  rewrite !str_app_cons. apply slt_cons. apply slt_cons in Hlt as [?|[-> ?]]; [by left|]. right. split; [done|].
    apply IH; [|done]. cbn in H. lia.
Qed.
