(* ===== verification/MathInt.v ===== *)
(** * cosmossdk.io/math: the bounded integers [Int] and [Uint]

    Models math/int.go, math/uint.go and math/max_min.go.  A [*big.Int] is a
    [Z]; an [Int] or [Uint] is the [Z] it wraps (an initialised value: the nil
    pointer of the zero struct is not represented).  Every operation that can
    leave the 256-bit range reports it as the source does, with an error for
    the Safe variants and a panic for the others. *)
From S2P Require Import Prelude.

(** ** math/big primitives the package uses *)

(** [big.Int.BitLen] and the number of 64-bit words of [big.Int.Bits]. *)
Definition big_BitLen (i : Z) : Z :=
  if i =? 0 then 0 else Z.log2 (Z.abs i) + 1.
Definition big_Words (i : Z) : Z := (big_BitLen i + 63) / 64.

(** [big.Int.Mod] is the Euclidean modulus. *)
Definition big_Mod (i i2 : Z) : Z := i mod (Z.abs i2).
Definition big_IsInt64 (i : Z) : bool := (- 2 ^ 63 <=? i) && (i <? 2 ^ 63).
Definition big_IsUint64 (i : Z) : bool := (0 <=? i) && (i <? 2 ^ 64).

(** ** math/int.go: unexported helpers *)

Definition MaxBitLen : Z := 256.
Definition maxWordLen : Z := MaxBitLen / 64.

Definition ErrIntOverflow : string := "integer overflow".
Definition ErrDivideByZero : string := "divide by zero".

Definition int_equal (i i2 : Z) : bool := match i ?= i2 with Eq => true | _ => false end.
Definition int_gt (i i2 : Z) : bool := match i ?= i2 with Gt => true | _ => false end.
Definition int_gte (i i2 : Z) : bool := match i ?= i2 with Lt => false | _ => true end.
Definition int_lt (i i2 : Z) : bool := match i ?= i2 with Lt => true | _ => false end.
Definition int_lte (i i2 : Z) : bool := match i ?= i2 with Gt => false | _ => true end.
Definition int_div (i i2 : Z) : Z := Z.quot i i2.
Definition int_mod (i i2 : Z) : Z := big_Mod i i2.
Definition int_min (i i2 : Z) : Z := match i ?= i2 with Gt => i2 | _ => i end.
Definition int_max (i i2 : Z) : Z := match i ?= i2 with Lt => i2 | _ => i end.

(** The fast word-length test followed by the exact bit-length test. *)
Definition bigIntOverflows (i : Z) : bool :=
  if maxWordLen <? big_Words i then MaxBitLen <? big_BitLen i else false.

(** ** Int: constructors and conversions *)

Definition NewIntFromBigInt (i : Z) : outcome Z :=
  _ ← guard_panic (bigIntOverflows i) "NewIntFromBigInt() out of bound"; Ok i.

Definition NewIntWithDecimal (n dec : Z) : outcome Z :=
  _ ← guard_panic (dec <? 0) "NewIntWithDecimal() decimal is negative";
  let i := n * 10 ^ dec in
  _ ← guard_panic (bigIntOverflows i) "NewIntWithDecimal() out of bound";
  Ok i.

Definition ZeroInt : Z := 0.
Definition OneInt : Z := 1.

Definition Int_Int64 (i : Z) : outcome Z :=
  _ ← guard_panic (negb (big_IsInt64 i)) "Int64() out of bound"; Ok i.
Definition Int_IsInt64 (i : Z) : bool := big_IsInt64 i.
Definition Int_Uint64 (i : Z) : outcome Z :=
  _ ← guard_panic (negb (big_IsUint64 i)) "Uint64() out of bounds"; Ok i.
Definition Int_IsUint64 (i : Z) : bool := big_IsUint64 i.

(** ** Int: predicates *)

Definition Int_Sign (i : Z) : Z := Z.sgn i.
Definition Int_IsZero (i : Z) : bool := Int_Sign i =? 0.
Definition Int_IsNegative (i : Z) : bool := Int_Sign i =? -1.
Definition Int_IsPositive (i : Z) : bool := Int_Sign i =? 1.
Definition Int_Equal (i i2 : Z) : bool := int_equal i i2.
Definition Int_GT (i i2 : Z) : bool := int_gt i i2.
Definition Int_GTE (i i2 : Z) : bool := int_gte i i2.
Definition Int_LT (i i2 : Z) : bool := int_lt i i2.
Definition Int_LTE (i i2 : Z) : bool := int_lte i i2.

(** ** Int: arithmetic *)

Definition Int_SafeAdd (i i2 : Z) : outcome Z :=
  let res := i + i2 in
  if bigIntOverflows res then Err ErrIntOverflow else Ok res.
Definition Int_Add (i i2 : Z) : outcome Z := must (Int_SafeAdd i i2).
Definition Int_AddRaw (i i2 : Z) : outcome Z := Int_Add i i2.

Definition Int_SafeSub (i i2 : Z) : outcome Z :=
  let res := i - i2 in
  if bigIntOverflows res then Err ErrIntOverflow else Ok res.
Definition Int_Sub (i i2 : Z) : outcome Z := must (Int_SafeSub i i2).
Definition Int_SubRaw (i i2 : Z) : outcome Z := Int_Sub i i2.

Definition Int_SafeMul (i i2 : Z) : outcome Z :=
  let res := i * i2 in
  if bigIntOverflows res then Err ErrIntOverflow else Ok res.
Definition Int_Mul (i i2 : Z) : outcome Z := must (Int_SafeMul i i2).
Definition Int_MulRaw (i i2 : Z) : outcome Z := Int_Mul i i2.

Definition Int_SafeQuo (i i2 : Z) : outcome Z :=
  if Z.sgn i2 =? 0 then Err ErrDivideByZero else Ok (int_div i i2).
Definition Int_Quo (i i2 : Z) : outcome Z :=
  match Int_SafeQuo i i2 with
  | Err _ => Panic "Division by zero"
  | r => r
  end.
Definition Int_QuoRaw (i i2 : Z) : outcome Z := Int_Quo i i2.

Definition Int_SafeMod (i i2 : Z) : outcome Z :=
  if Int_Sign i2 =? 0 then Err ErrDivideByZero else Ok (int_mod i i2).
Definition Int_Mod (i i2 : Z) : outcome Z := must (Int_SafeMod i i2).
Definition Int_ModRaw (i i2 : Z) : outcome Z := Int_Mod i i2.

Definition Int_Neg (i : Z) : Z := - i.
Definition Int_Abs (i : Z) : Z := Z.abs i.
Definition MinInt (i1 i2 : Z) : Z := int_min i1 i2.
Definition MaxInt (i1 i2 : Z) : Z := int_max i1 i2.

(** ** math/max_min.go on the integer types *)

Definition go_Max (a b : Z) (rest : list Z) : Z :=
  foldl (λ mx v, if mx <? v then v else mx) (if a <? b then b else a) rest.
Definition go_Min (a b : Z) (rest : list Z) : Z :=
  foldl (λ mn v, if v <? mn then v else mn) (if b <? a then b else a) rest.

(** ** math/uint.go *)

Definition UintOverflow (i : Z) : outcome unit :=
  if Z.sgn i <? 0 then Err "non-positive integer"
  else if MaxBitLen <? big_BitLen i then Err "integer out of range"
  else Ok tt.

Definition checkNewUint (i : Z) : outcome Z := _ ← UintOverflow i; Ok i.
Definition NewUintFromBigInt (i : Z) : outcome Z := must (checkNewUint i).
Definition NewUint (n : Z) : outcome Z := NewUintFromBigInt n.
Definition ZeroUint : Z := 0.
Definition OneUint : Z := 1.

Definition Uint_Uint64 (u : Z) : outcome Z :=
  _ ← guard_panic (negb (big_IsUint64 u)) "Uint64() out of bound"; Ok u.
Definition Uint_Equal (u u2 : Z) : bool := int_equal u u2.
Definition Uint_IsZero (u : Z) : bool := Uint_Equal u ZeroUint.
Definition Uint_GT (u u2 : Z) : bool := int_gt u u2.
Definition Uint_GTE (u u2 : Z) : bool := Uint_GT u u2 || Uint_Equal u u2.
Definition Uint_LT (u u2 : Z) : bool := int_lt u u2.
Definition Uint_LTE (u u2 : Z) : bool := negb (Uint_GT u u2).

Definition Uint_Add (u u2 : Z) : outcome Z := NewUintFromBigInt (u + u2).
Definition Uint_AddUint64 (u u2 : Z) : outcome Z := v ← NewUint u2; Uint_Add u v.
Definition Uint_Sub (u u2 : Z) : outcome Z := NewUintFromBigInt (u - u2).
Definition Uint_SubUint64 (u u2 : Z) : outcome Z := v ← NewUint u2; Uint_Sub u v.
Definition Uint_Mul (u u2 : Z) : outcome Z := NewUintFromBigInt (u * u2).
Definition Uint_MulUint64 (u u2 : Z) : outcome Z := v ← NewUint u2; Uint_Mul u v.
(** [big.Int.Quo] panics on a zero divisor. *)
Definition Uint_Quo (u u2 : Z) : outcome Z :=
  _ ← guard_panic (u2 =? 0) "division by zero"; NewUintFromBigInt (int_div u u2).
Definition Uint_QuoUint64 (u u2 : Z) : outcome Z := v ← NewUint u2; Uint_Quo u v.
Definition Uint_Mod (u u2 : Z) : outcome Z :=
  _ ← guard_panic (Uint_IsZero u2) "division-by-zero"; Ok (int_mod u u2).
Definition Uint_Incr (u : Z) : outcome Z := Uint_Add u OneUint.
Definition Uint_Decr (u : Z) : outcome Z := Uint_Sub u OneUint.
Definition MinUint (u1 u2 : Z) : outcome Z := NewUintFromBigInt (int_min u1 u2).
Definition MaxUint (u1 u2 : Z) : outcome Z := NewUintFromBigInt (int_max u1 u2).

(** The squaring loop of [RelativePow]; [n] halves at each turn, so 256 turns
    are enough for every 256-bit exponent ([RelativePow_loop_fuel]). *)
Fixpoint RelativePow_loop (fuel : nat) (x z n halfOfB b : Z) : outcome Z :=
  if Uint_GT n ZeroUint then
    match fuel with
    | O => Panic "out of fuel"
    | S fuel' =>
        xSquared ← Uint_Mul x x;
        xSquaredRounded ← Uint_Add xSquared halfOfB;
        x' ← Uint_Quo xSquaredRounded b;
        two ← NewUint 2;
        r ← Uint_Mod n two;
        z' ← (if Uint_Equal r OneUint
              then zx ← Uint_Mul z x';
                   zxRounded ← Uint_Add zx halfOfB;
                   Uint_Quo zxRounded b
              else Ok z);
        n' ← Uint_Quo n two;
        RelativePow_loop fuel' x' z' n' halfOfB b
    end
  else Ok z.

Definition RelativePow (x n b : Z) : outcome Z :=
  if Uint_IsZero x then
    if Uint_IsZero n then Ok OneUint else Ok ZeroUint
  else
    two ← NewUint 2;
    r ← Uint_Mod n two;
    let z := if Uint_Equal r ZeroUint then b else x in
    halfOfB ← Uint_Quo b two;
    n' ← Uint_Quo n two;
    RelativePow_loop 256 x z n' halfOfB b.

#[global] Arguments Uint_Add : simpl never.
#[global] Arguments Uint_Sub : simpl never.
#[global] Arguments Uint_Mul : simpl never.
#[global] Arguments Uint_Quo : simpl never.
#[global] Arguments Uint_Mod : simpl never.
#[global] Arguments Int_Add : simpl never.
#[global] Arguments Int_Sub : simpl never.
#[global] Arguments Int_Mul : simpl never.
#[global] Arguments Int_Quo : simpl never.
#[global] Arguments RelativePow_loop : simpl never.

(** ** The representable ranges *)

(** "Exists in range from -(2^256 - 1) to 2^256 - 1". *)
Definition int_range (i : Z) : Prop := - (2 ^ 256 - 1) <= i <= 2 ^ 256 - 1.
(** "Exists in range from 0 to 2^256-1". *)
Definition uint_range (u : Z) : Prop := 0 <= u <= 2 ^ 256 - 1.

#[global] Instance int_range_dec i : Decision (int_range i).
Proof. unfold int_range. apply _. Defined.
#[global] Instance uint_range_dec i : Decision (uint_range i).
Proof. unfold uint_range. apply _. Defined.

Lemma big_BitLen_le (i k : Z) : 0 <= k → (big_BitLen i <= k ↔ Z.abs i < 2 ^ k).
Proof.
  intros Hk. unfold big_BitLen. destruct (Z.eqb_spec i 0) as [->|Hi].
  - cbn. split; [intros _; lia|lia].
  - pose proof (Z.log2_lt_pow2 (Z.abs i) k). lia.
Qed.

(** The word-length fast path never changes the answer. *)
Lemma bigIntOverflows_spec i : bigIntOverflows i = negb (bool_decide (int_range i)).
Proof.
  assert (big_BitLen i <= 256 ↔ int_range i) as Hle.
  { rewrite big_BitLen_le by lia. unfold int_range. lia. }
  unfold bigIntOverflows, maxWordLen, big_Words, MaxBitLen.
  change (256 / 64) with 4.
  destruct (Z.ltb_spec 4 ((big_BitLen i + 63) / 64)) as [Hw|Hw].
  - destruct (Z.ltb_spec 256 (big_BitLen i)); case_bool_decide; naive_solver lia.
  - assert (big_BitLen i + 63 < 320).
    { apply Z.nle_gt. intros ?.
      assert (320 / 64 <= (big_BitLen i + 63) / 64) by (apply Z.div_le_mono; lia).
      change (320 / 64) with 5 in *. lia. }
    case_bool_decide; naive_solver lia.
Qed.

Lemma bigIntOverflows_false i : bigIntOverflows i = false ↔ int_range i.
Proof. rewrite bigIntOverflows_spec. case_bool_decide; naive_solver. Qed.
Lemma bigIntOverflows_true i : bigIntOverflows i = true ↔ ¬ int_range i.
Proof. rewrite bigIntOverflows_spec. case_bool_decide; naive_solver. Qed.

Lemma UintOverflow_Ok u r : UintOverflow u = Ok r ↔ uint_range u.
Proof.
  unfold UintOverflow, MaxBitLen. destruct r.
  assert (Hb := big_BitLen_le u 256 ltac:(lia)). unfold uint_range.
  destruct (Z.ltb_spec (Z.sgn u) 0).
  - split; [done|lia].
  - destruct (Z.ltb_spec 256 (big_BitLen u)); naive_solver lia.
Qed.

(** ** Specifications of the operations *)

Create Rewrite HintDb math_int.

Lemma Int_Add_Ok i i2 r : Int_Add i i2 = Ok r ↔ r = i + i2 ∧ int_range r.
Proof.
  unfold Int_Add, Int_SafeAdd. rewrite must_Ok.
  destruct (bigIntOverflows (i + i2)) eqn:E.
  - apply bigIntOverflows_true in E. naive_solver.
  - apply bigIntOverflows_false in E. naive_solver.
Qed.
Lemma Int_Sub_Ok i i2 r : Int_Sub i i2 = Ok r ↔ r = i - i2 ∧ int_range r.
Proof.
  unfold Int_Sub, Int_SafeSub. rewrite must_Ok.
  destruct (bigIntOverflows (i - i2)) eqn:E.
  - apply bigIntOverflows_true in E. naive_solver.
  - apply bigIntOverflows_false in E. naive_solver.
Qed.
Lemma Int_Sub_run i i2 : int_range (i - i2) → Int_Sub i i2 = Ok (i - i2).
Proof. intros H. by apply Int_Sub_Ok. Qed.
Lemma Int_Mul_Ok i i2 r : Int_Mul i i2 = Ok r ↔ r = i * i2 ∧ int_range r.
Proof.
  unfold Int_Mul, Int_SafeMul. rewrite must_Ok.
  destruct (bigIntOverflows (i * i2)) eqn:E.
  - apply bigIntOverflows_true in E. naive_solver.
  - apply bigIntOverflows_false in E. naive_solver.
Qed.
Lemma Int_Quo_Ok i i2 r : Int_Quo i i2 = Ok r ↔ r = Z.quot i i2 ∧ i2 ≠ 0.
Proof.
  unfold Int_Quo, Int_SafeQuo, int_div.
  destruct (Z.eqb_spec (Z.sgn i2) 0) as [E|E]; rewrite Z.sgn_null_iff in E; naive_solver.
Qed.
Lemma Int_Mod_Ok i i2 r : Int_Mod i i2 = Ok r ↔ r = i mod (Z.abs i2) ∧ i2 ≠ 0.
Proof.
  unfold Int_Mod, Int_SafeMod, int_mod, big_Mod, Int_Sign. rewrite must_Ok.
  destruct (Z.eqb_spec (Z.sgn i2) 0) as [E|E]; rewrite Z.sgn_null_iff in E; naive_solver.
Qed.

Lemma NewUintFromBigInt_Ok u r : NewUintFromBigInt u = Ok r ↔ r = u ∧ uint_range u.
Proof.
  unfold NewUintFromBigInt, checkNewUint. rewrite must_Ok, outcome_bind_Ok.
  setoid_rewrite UintOverflow_Ok. split; [naive_solver|]. intros [-> ?]. by exists tt.
Qed.
Lemma Uint_Add_Ok u u2 r : Uint_Add u u2 = Ok r ↔ r = u + u2 ∧ uint_range r.
Proof. unfold Uint_Add. rewrite NewUintFromBigInt_Ok. naive_solver. Qed.
Lemma Uint_Sub_Ok u u2 r : Uint_Sub u u2 = Ok r ↔ r = u - u2 ∧ uint_range r.
Proof. unfold Uint_Sub. rewrite NewUintFromBigInt_Ok. naive_solver. Qed.
Lemma Uint_Mul_Ok u u2 r : Uint_Mul u u2 = Ok r ↔ r = u * u2 ∧ uint_range r.
Proof. unfold Uint_Mul. rewrite NewUintFromBigInt_Ok. naive_solver. Qed.
Lemma Uint_Quo_Ok u u2 r :
  Uint_Quo u u2 = Ok r ↔ r = Z.quot u u2 ∧ u2 ≠ 0 ∧ uint_range r.
Proof.
  unfold Uint_Quo, int_div. destruct (Z.eqb_spec u2 0) as [->|Hne]; cbn.
  - naive_solver.
  - rewrite NewUintFromBigInt_Ok. naive_solver.
Qed.

(** The comparisons of both types are the ones of [Z]. *)
Lemma int_equal_eqb i i2 : int_equal i i2 = (i =? i2).
Proof. unfold int_equal. destruct (Z.compare_spec i i2); lia. Qed.
Lemma int_gt_ltb i i2 : int_gt i i2 = (i2 <? i).
Proof. unfold int_gt. destruct (Z.compare_spec i i2); lia. Qed.
Lemma int_gte_leb i i2 : int_gte i i2 = (i2 <=? i).
Proof. unfold int_gte. destruct (Z.compare_spec i i2); lia. Qed.
Lemma int_lt_ltb i i2 : int_lt i i2 = (i <? i2).
Proof. unfold int_lt. destruct (Z.compare_spec i i2); lia. Qed.
Lemma int_lte_leb i i2 : int_lte i i2 = (i <=? i2).
Proof. unfold int_lte. destruct (Z.compare_spec i i2); lia. Qed.
Lemma MinInt_min i i2 : MinInt i i2 = Z.min i i2.
Proof. unfold MinInt, int_min. destruct (Z.compare_spec i i2); lia. Qed.
Lemma MaxInt_max i i2 : MaxInt i i2 = Z.max i i2.
Proof. unfold MaxInt, int_max. destruct (Z.compare_spec i i2); lia. Qed.
Lemma Int_IsZero_eqb i : Int_IsZero i = (i =? 0).
Proof. unfold Int_IsZero, Int_Sign. destruct i; done. Qed.
Lemma Int_IsNegative_ltb i : Int_IsNegative i = (i <? 0).
Proof. unfold Int_IsNegative, Int_Sign. destruct i; done. Qed.
Lemma Int_IsPositive_ltb i : Int_IsPositive i = (0 <? i).
Proof. unfold Int_IsPositive, Int_Sign. destruct i; done. Qed.
Lemma Int_GT_ltb i i2 : Int_GT i i2 = (i2 <? i).
Proof. apply int_gt_ltb. Qed.
Lemma Int_GTE_leb i i2 : Int_GTE i i2 = (i2 <=? i).
Proof. apply int_gte_leb. Qed.
Lemma Int_LT_ltb i i2 : Int_LT i i2 = (i <? i2).
Proof. apply int_lt_ltb. Qed.
Lemma Int_LTE_leb i i2 : Int_LTE i i2 = (i <=? i2).
Proof. apply int_lte_leb. Qed.
Lemma Int_Equal_eqb i i2 : Int_Equal i i2 = (i =? i2).
Proof. apply int_equal_eqb. Qed.

#[export] Hint Rewrite int_equal_eqb int_gt_ltb int_gte_leb int_lt_ltb int_lte_leb
  MinInt_min MaxInt_max Int_IsZero_eqb Int_IsNegative_ltb Int_IsPositive_ltb
  Int_GT_ltb Int_GTE_leb Int_LT_ltb Int_LTE_leb Int_Equal_eqb : math_int.

(** Rewrite the [Int] predicates to the decidable order of [Z]. *)
Ltac int_simpl := autorewrite with math_int in *.

Lemma Int_Add_range i i2 : int_range (i + i2) → Int_Add i i2 = Ok (i + i2).
Proof. intros. by apply Int_Add_Ok. Qed.
Lemma Int_Sub_range i i2 : int_range (i - i2) → Int_Sub i i2 = Ok (i - i2).
Proof. intros. by apply Int_Sub_Ok. Qed.
Lemma Int_Mul_range i i2 : int_range (i * i2) → Int_Mul i i2 = Ok (i * i2).
Proof. intros. by apply Int_Mul_Ok. Qed.

Lemma int_range_sub i i2 : 0 <= i → 0 <= i2 → int_range i → int_range i2 → int_range (i - i2).
Proof. unfold int_range. lia. Qed.

Ltac int_op_inv :=
  repeat match goal with
  | H : Int_Add _ _ = Ok _ |- _ => apply (proj1 (Int_Add_Ok _ _ _)) in H as [? ?]
  | H : Int_Sub _ _ = Ok _ |- _ => apply (proj1 (Int_Sub_Ok _ _ _)) in H as [? ?]
  | H : Int_Mul _ _ = Ok _ |- _ => apply (proj1 (Int_Mul_Ok _ _ _)) in H as [? ?]
  | H : Int_Quo _ _ = Ok _ |- _ => apply (proj1 (Int_Quo_Ok _ _ _)) in H as [? ?]
  | H : Int_Mod _ _ = Ok _ |- _ => apply (proj1 (Int_Mod_Ok _ _ _)) in H as [? ?]
  end.

(** ** Properties *)

(** On representable operands every [Int] operation is exact or panics:
    addition, subtraction and multiplication return the mathematical result
    when it fits in 256 bits plus sign and panic with the overflow error
    otherwise; quotient and modulus panic exactly on a zero divisor and their
    results are always representable. *)
Theorem Int_ops_exact_or_panic i i2 :
  int_range i → int_range i2 →
  (Int_Add i i2 = if bool_decide (int_range (i + i2)) then Ok (i + i2) else Panic ErrIntOverflow) ∧
  (Int_Sub i i2 = if bool_decide (int_range (i - i2)) then Ok (i - i2) else Panic ErrIntOverflow) ∧
  (Int_Mul i i2 = if bool_decide (int_range (i * i2)) then Ok (i * i2) else Panic ErrIntOverflow) ∧
  (if bool_decide (i2 = 0)
   then Int_Quo i i2 = Panic "Division by zero" ∧ Int_Mod i i2 = Panic ErrDivideByZero
   else ∃ q m, Int_Quo i i2 = Ok q ∧ q = Z.quot i i2 ∧ int_range q ∧
               Int_Mod i i2 = Ok m ∧ 0 <= m < Z.abs i2 ∧ (i2 | i - m) ∧ int_range m).
Proof.
  intros Hi Hi2. unfold Int_Add, Int_SafeAdd, Int_Sub, Int_SafeSub, Int_Mul, Int_SafeMul.
  rewrite !bigIntOverflows_spec.
  split; [by case_bool_decide|]. split; [by case_bool_decide|]. split; [by case_bool_decide|].
  case_bool_decide as Hz.
  - subst. done.
  - exists (Z.quot i i2), (i mod Z.abs i2).
    split; [by apply Int_Quo_Ok|]. split; [done|].
    assert (Z.abs (Z.quot i i2) <= Z.abs i).
    { rewrite <- Z.quot_abs by done. apply Z.quot_le_upper_bound; nia. }
    assert (0 <= i mod Z.abs i2 < Z.abs i2) by (apply Z.mod_pos_bound; lia).
    split; [unfold int_range in *; lia|].
    split; [by apply Int_Mod_Ok|]. split; [done|].
    split; [|unfold int_range in *; lia].
    apply Z.divide_abs_l. exists (i / Z.abs i2).
    pose proof (Z.div_mod i (Z.abs i2)). lia.
Qed.

(** Instance of C1 at the upper end of the range, where addition overflows. *)
Lemma Int_ops_exact_or_panic_witness :
  Int_Add (2 ^ 256 - 1) 1 = Panic ErrIntOverflow ∧ Int_Sub (2 ^ 256 - 1) 1 = Ok (2 ^ 256 - 2).
Proof.
  destruct (Int_ops_exact_or_panic (2 ^ 256 - 1) 1) as (H1 & H2 & _).
  - vm_compute. by split.
  - vm_compute. by split.
  - split; [rewrite H1|rewrite H2]; reflexivity.
Defined.

Lemma Uint_Mod_Ok u u2 r : Uint_Mod u u2 = Ok r ↔ r = u mod (Z.abs u2) ∧ u2 ≠ 0.
Proof.
  unfold Uint_Mod, Uint_IsZero, Uint_Equal, ZeroUint. rewrite int_equal_eqb.
  destruct (Z.eqb_spec u2 0); cbn; naive_solver.
Qed.
Lemma NewUint_two : NewUint 2 = Ok 2.
Proof. reflexivity. Qed.

Lemma uint_mod2 n : Uint_Mod n 2 = Ok (n mod 2).
Proof. by apply Uint_Mod_Ok. Qed.
Lemma uint_quo2 n : uint_range n → Uint_Quo n 2 = Ok (n / 2).
Proof.
  intros [Hn1 Hn2]. apply Uint_Quo_Ok. rewrite Z.quot_div_nonneg by lia.
  split; [done|]. split; [done|].
  unfold uint_range. pose proof (Z.div_mod n 2). pose proof (Z.mod_pos_bound n 2). lia.
Qed.

(** With 256 turns of fuel the squaring loop always leaves by its own
    condition, whatever the scale [b]. *)
Lemma RelativePow_loop_fuel fuel : ∀ x z n halfOfB b,
  0 <= n < 2 ^ Z.of_nat fuel → n <= 2 ^ 256 - 1 →
  RelativePow_loop fuel x z n halfOfB b ≠ Panic "out of fuel".
Proof.
  induction fuel as [|fuel IH]; intros x z n h b Hn Hn';
    unfold RelativePow_loop; fold RelativePow_loop; unfold Uint_GT; rewrite int_gt_ltb.
  - destruct (Z.ltb_spec ZeroUint n); [unfold ZeroUint in *; lia|done].
  - destruct (Z.ltb_spec ZeroUint n) as [Hpos|]; [|done].
    rewrite NewUint_two.
    assert (∀ m, NewUintFromBigInt m ≠ Panic "out of fuel") as Hnu.
    { intros m. unfold NewUintFromBigInt, checkNewUint, UintOverflow. repeat case_match; done. }
    assert (∀ u v, Uint_Quo u v ≠ Panic "out of fuel") as Hq.
    { intros u v. unfold Uint_Quo, guard_panic. case_match; cbn; [done|apply Hnu]. }
    unfold Uint_Mul, Uint_Add in *.
    destruct (NewUintFromBigInt (x * x)) as [x1|e|p] eqn:E1; cbn; [|done|by rewrite <- E1].
    destruct (NewUintFromBigInt (x1 + h)) as [x2|e|p] eqn:E2; cbn; [|done|by rewrite <- E2].
    destruct (Uint_Quo x2 b) as [x'|e|p] eqn:E3; cbn; [|done|by rewrite <- E3].
    rewrite uint_mod2. cbn. rewrite uint_quo2 by (unfold uint_range; lia).
    assert (0 <= n / 2 < 2 ^ Z.of_nat fuel ∧ n / 2 <= 2 ^ 256 - 1) as [Hh1 Hh2].
    { rewrite Nat2Z.inj_succ, Z.pow_succ_r in Hn by lia.
      pose proof (Z.div_mod n 2). pose proof (Z.mod_pos_bound n 2). lia. }
    destruct (Uint_Equal (n mod 2) OneUint); cbn; [|by apply IH].
    destruct (NewUintFromBigInt (z * x')) as [z1|e|p] eqn:E4; cbn; [|done|by rewrite <- E4].
    destruct (NewUintFromBigInt (z1 + h)) as [z2|e|p] eqn:E5; cbn; [|done|by rewrite <- E5].
    destruct (Uint_Quo z2 b) as [z'|e|p] eqn:E6; cbn; [|done|by rewrite <- E6].
    by apply IH.
Qed.

(** For any 256-bit exponent and any base and scale the loop ends by its own
    test, never by exhausting the bound of 256 turns. *)
Lemma RelativePow_terminates x n b :
  uint_range n → RelativePow x n b ≠ Panic "out of fuel".
Proof.
  intros Hn. unfold RelativePow.
  destruct (Uint_IsZero x); [by destruct (Uint_IsZero n)|].
  rewrite NewUint_two. cbn. rewrite uint_mod2. cbn.
  destruct (Uint_Quo b 2) as [h|e|p] eqn:E; cbn; [|done|].
  - rewrite uint_quo2 by done. cbn. apply RelativePow_loop_fuel; unfold uint_range in Hn;
      pose proof (Z.div_mod n 2); pose proof (Z.mod_pos_bound n 2); [|lia].
    change (2 ^ Z.of_nat 256) with (2 * 2 ^ 255). lia.
  - rewrite <- E. unfold Uint_Quo, guard_panic, NewUintFromBigInt, checkNewUint, UintOverflow.
    repeat (case_match; try done).
Qed.

Lemma Uint_Mul_range u u2 : uint_range (u * u2) → Uint_Mul u u2 = Ok (u * u2).
Proof. intros. by apply Uint_Mul_Ok. Qed.
Lemma Uint_Add0_range u : uint_range u → Uint_Add u 0 = Ok u.
Proof. intros. apply Uint_Add_Ok. split; [lia|done]. Qed.
Lemma Uint_Quo1_range u : uint_range u → Uint_Quo u 1 = Ok u.
Proof. intros. apply Uint_Quo_Ok. rewrite Z.quot_1_r. done. Qed.

(** At scale 1 the loop multiplies its accumulator by [x ^ (2 * n)]. *)
Lemma RelativePow_loop_pow fuel : ∀ x z n,
  0 < x → 0 < z → 0 <= n < 2 ^ Z.of_nat fuel → n <= 2 ^ 256 - 1 →
  z * x ^ (2 * n) <= 2 ^ 256 - 1 →
  RelativePow_loop fuel x z n 0 1 = Ok (z * x ^ (2 * n)).
Proof.
  induction fuel as [|fuel IH]; intros x z n Hx Hz Hn Hn' Hb;
    unfold RelativePow_loop; fold RelativePow_loop; unfold Uint_GT; rewrite int_gt_ltb;
    destruct (Z.ltb_spec ZeroUint n) as [Hpos|Hz0]; unfold ZeroUint in *.
  - cbn in Hn. lia.
  - replace n with 0 by lia. by rewrite Z.mul_0_r, Z.pow_0_r, Z.mul_1_r.
  - rewrite NewUint_two.
    assert (x ^ (2 * n) = (x * x) ^ n) as Hsq by (rewrite Z.pow_mul_r, Z.pow_2_r; lia).
    assert (x * x <= (x * x) ^ n).
    { rewrite <- (Z.pow_1_r (x * x)) at 1. apply Z.pow_le_mono_r; nia. }
    assert (uint_range (x * x)) by (unfold uint_range; nia).
    rewrite Uint_Mul_range by done. cbn. rewrite Uint_Add0_range by done. cbn.
    rewrite Uint_Quo1_range by done. cbn. rewrite uint_mod2. cbn.
    rewrite uint_quo2 by (unfold uint_range; lia). rewrite Hsq in *.
    set (y := x * x) in *. set (h := n / 2) in *.
    assert (n = 2 * h + n mod 2) as Hnm by (apply Z.div_mod; lia).
    pose proof (Z.mod_pos_bound n 2 ltac:(lia)).
    rewrite Nat2Z.inj_succ, Z.pow_succ_r in Hn by lia.
    unfold Uint_Equal, OneUint. rewrite int_equal_eqb.
    assert (0 < y ^ (2 * h)) by (apply Z.pow_pos_nonneg; nia).
    destruct (Z.eqb_spec (n mod 2) 1) as [Hodd|Heven].
    + assert (y ^ n = y * y ^ (2 * h)) as E.
      { rewrite Hnm, Hodd, Z.add_comm, Z.pow_add_r by lia. by rewrite Z.pow_1_r. }
      rewrite E in *.
      assert (uint_range (z * y)) by (unfold uint_range; nia).
      rewrite Uint_Mul_range by done. cbn. rewrite Uint_Add0_range by done. cbn.
      rewrite Uint_Quo1_range by done. cbn. rewrite IH by nia. f_equal. ring.
    + assert (y ^ n = y ^ (2 * h)) as E by (f_equal; lia).
      rewrite E in *. cbn. rewrite IH by nia. done.
  - replace n with 0 by lia. by rewrite Z.mul_0_r, Z.pow_0_r, Z.mul_1_r.
Qed.

(** At scale 1 and for a positive base no intermediate square overflows when
    the power itself fits. *)
Lemma RelativePow_pow x n :
  0 < x → uint_range n → x ^ n <= 2 ^ 256 - 1 →
  RelativePow x n 1 = Ok (x ^ n).
Proof.
  intros Hx Hn Hb. unfold RelativePow, Uint_IsZero, Uint_Equal, ZeroUint, OneUint.
  rewrite int_equal_eqb. destruct (Z.eqb_spec x 0); [lia|].
  rewrite NewUint_two. cbn. rewrite uint_mod2. cbn. change (Uint_Quo 1 2) with (Ok 0). cbn.
  rewrite uint_quo2 by done. cbn.
  set (h := n / 2). unfold uint_range in Hn.
  assert (n = 2 * h + n mod 2) as Hnm by (apply Z.div_mod; lia).
  pose proof (Z.mod_pos_bound n 2 ltac:(lia)).
  assert (0 <= h < 2 ^ Z.of_nat 256) by (change (2 ^ Z.of_nat 256) with (2 * 2 ^ 255); lia).
  rewrite int_equal_eqb. destruct (Z.eqb_spec (n mod 2) 0) as [E|E].
  - replace n with (2 * h) in * by lia. rewrite RelativePow_loop_pow by lia. f_equal; lia.
  - assert (x ^ n = x * x ^ (2 * h)) as E'.
    { rewrite Hnm, Z.add_comm, Z.pow_add_r by lia.
      replace (n mod 2) with 1 by lia. by rewrite Z.pow_1_r. }
    rewrite E' in *. rewrite RelativePow_loop_pow by lia. done.
Qed.

(** [RelativePow] always terminates, for any 256-bit exponent and any base
    and scale: its loop ends by its own test, never by exhausting the bound of
    256 turns. At scale 1 it is exponentiation: for a positive base
    [RelativePow x n 1] is [x ^ n] whenever that power fits in 256 bits. *)
Theorem RelativePow_exact x n b :
  uint_range n →
  RelativePow x n b ≠ Panic "out of fuel" ∧
  (0 < x → x ^ n <= 2 ^ 256 - 1 → RelativePow x n 1 = Ok (x ^ n)).
Proof. split; [by apply RelativePow_terminates|intros; by apply RelativePow_pow]. Qed.

Lemma RelativePow_exact_witness :
  RelativePow 10 2 100 ≠ Panic "out of fuel" ∧
  (0 < 10 → 10 ^ 2 <= 2 ^ 256 - 1 → RelativePow 10 2 1 = Ok (10 ^ 2)).
Proof. apply RelativePow_exact. vm_compute. by split. Defined.

(** The scale is ignored by the special case [0 ^ 0]: the result is 1, not the
    representation of 1 at scale [b]. *)
Lemma RelativePow_zero_zero_unscaled b : RelativePow 0 0 b = Ok 1.
Proof. reflexivity. Qed.
