(* ===== verification/LegacyDec.v ===== *)
(** * cosmossdk.io/math: the 18-digit fixed-point decimal [LegacyDec]

    Models the arithmetic of math/legacy_dec.go.  A [LegacyDec] is the [Z] in
    its [*big.Int], the decimal times [10 ^ 18].  The [...Mut] methods store
    their result in the receiver and return it; the model gives the stored
    value, and the non-mutating methods apply the same function to a clone. *)
From S2P Require Import Prelude MathInt.

(** ** Constants *)

Definition LegacyPrecision : Z := 18.
Definition maxApproxRootIterations : nat := 300.
Definition precisionReuse : Z := 10 ^ LegacyPrecision.
Definition fivePrecision : Z := Z.quot precisionReuse 2.
Definition squaredPrecisionReuse : Z := precisionReuse * precisionReuse.

Definition LegacyZeroDec : Z := 0.
Definition LegacyOneDec : Z := precisionReuse.
Definition LegacySmallestDec : Z := 1.

Definition calcPrecisionMultiplier (prec : Z) : outcome Z :=
  _ ← guard_panic (prec <? 0) "negative precision";
  _ ← guard_panic (LegacyPrecision <? prec) "too much precision";
  Ok (10 ^ (LegacyPrecision - prec)).

(** The table filled by [init]. *)
Definition precisionMultipliers : list (outcome Z) :=
  map (λ i, calcPrecisionMultiplier (Z.of_nat i)) (seq 0 (Z.to_nat LegacyPrecision + 1)).

Definition precisionMultiplier (prec : Z) : outcome Z :=
  _ ← guard_panic (prec <? 0) "negative precision";
  _ ← guard_panic (LegacyPrecision <? prec) "too much precision";
  match precisionMultipliers !! Z.to_nat prec with
  | Some m => m
  | None => Panic "index out of range"
  end.

(** ** Constructors *)

Definition LegacyNewDecFromBigIntWithPrec (i prec : Z) : outcome Z :=
  m ← precisionMultiplier prec; Ok (i * m).
Definition LegacyNewDecFromBigInt (i : Z) : outcome Z := LegacyNewDecFromBigIntWithPrec i 0.
Definition LegacyNewDecWithPrec (i prec : Z) : outcome Z :=
  m ← precisionMultiplier prec; Ok (i * m).
Definition LegacyNewDec (i : Z) : outcome Z := LegacyNewDecWithPrec i 0.
Definition LegacyNewDecFromIntWithPrec (i prec : Z) : outcome Z :=
  m ← precisionMultiplier prec; Ok (i * m).
Definition LegacyNewDecFromInt (i : Z) : outcome Z := LegacyNewDecFromIntWithPrec i 0.

Definition upperLimit : Z := 2 ^ 256 * precisionReuse - 1.
Definition lowerLimit : Z := - upperLimit.

(** ** Predicates *)

Definition Dec_IsZero (d : Z) : bool := Z.sgn d =? 0.
Definition Dec_IsNegative (d : Z) : bool := Z.sgn d =? -1.
Definition Dec_IsPositive (d : Z) : bool := Z.sgn d =? 1.
Definition Dec_Equal (d d2 : Z) : bool := match d ?= d2 with Eq => true | _ => false end.
Definition Dec_GT (d d2 : Z) : bool := match d ?= d2 with Gt => true | _ => false end.
Definition Dec_GTE (d d2 : Z) : bool := match d ?= d2 with Lt => false | _ => true end.
Definition Dec_LT (d d2 : Z) : bool := match d ?= d2 with Lt => true | _ => false end.
Definition Dec_LTE (d d2 : Z) : bool := match d ?= d2 with Gt => false | _ => true end.
Definition Dec_Neg (d : Z) : Z := - d.
Definition Dec_Abs (d : Z) : Z := Z.abs d.

Definition Dec_IsInValidRange (d : Z) : bool :=
  negb (Dec_GT d upperLimit || Dec_LT d lowerLimit).
Definition Dec_assertInValidRange (d : Z) : outcome unit :=
  guard_panic (negb (Dec_IsInValidRange d)) "Int overflow".

(** ** Chopping the extra precision *)

(** The non-negative branch: truncated quotient, then banker's rounding. *)
Definition chopPrecisionAndRound_nonneg (d : Z) : Z :=
  let quo := Z.quot d precisionReuse in
  let rem := Z.rem d precisionReuse in
  if Z.sgn rem =? 0 then quo
  else match rem ?= fivePrecision with
       | Lt => quo
       | Gt => quo + 1
       | Eq => if Z.testbit quo 0 then quo + 1 else quo
       end.

Definition chopPrecisionAndRound (d : Z) : Z :=
  if Z.sgn d =? -1 then - chopPrecisionAndRound_nonneg (- d)
  else chopPrecisionAndRound_nonneg d.

Definition chopPrecisionAndTruncate (d : Z) : Z := Z.quot d precisionReuse.

Definition chopPrecisionAndRoundUp (d : Z) : Z :=
  if Z.sgn d =? -1 then - chopPrecisionAndTruncate (- d)
  else
    let quo := Z.quot d precisionReuse in
    let rem := Z.rem d precisionReuse in
    if Z.sgn rem =? 0 then quo else quo + 1.

(** ** Arithmetic *)

(** Store [r] in the receiver, check its range, return it. *)
Definition in_valid_range (r : Z) : outcome Z := _ ← Dec_assertInValidRange r; Ok r.

Definition Dec_SetInt64 (i : Z) : Z := i * precisionReuse.
Definition Dec_AddMut (d d2 : Z) : outcome Z := in_valid_range (d + d2).
Definition Dec_Add (d d2 : Z) : outcome Z := Dec_AddMut d d2.
Definition Dec_SubMut (d d2 : Z) : outcome Z := in_valid_range (d - d2).
Definition Dec_Sub (d d2 : Z) : outcome Z := Dec_SubMut d d2.

Definition Dec_MulMut (d d2 : Z) : outcome Z := in_valid_range (chopPrecisionAndRound (d * d2)).
Definition Dec_Mul (d d2 : Z) : outcome Z := Dec_MulMut d d2.
Definition Dec_MulTruncateMut (d d2 : Z) : outcome Z :=
  in_valid_range (chopPrecisionAndTruncate (d * d2)).
Definition Dec_MulTruncate (d d2 : Z) : outcome Z := Dec_MulTruncateMut d d2.
Definition Dec_MulRoundUpMut (d d2 : Z) : outcome Z :=
  in_valid_range (chopPrecisionAndRoundUp (d * d2)).
Definition Dec_MulRoundUp (d d2 : Z) : outcome Z := Dec_MulRoundUpMut d d2.
Definition Dec_MulIntMut (d i : Z) : outcome Z := in_valid_range (d * i).
Definition Dec_MulInt (d i : Z) : outcome Z := Dec_MulIntMut d i.
Definition Dec_MulInt64Mut (d i : Z) : outcome Z := in_valid_range (d * i).
Definition Dec_MulInt64 (d i : Z) : outcome Z := Dec_MulInt64Mut d i.

(** [big.Int.Quo] and [QuoRem] panic on a zero divisor. *)
Definition big_Quo (d d2 : Z) : outcome Z :=
  _ ← guard_panic (d2 =? 0) "division by zero"; Ok (Z.quot d d2).
Definition big_QuoRem (d d2 : Z) : outcome (Z * Z) :=
  _ ← guard_panic (d2 =? 0) "division by zero"; Ok (Z.quot d d2, Z.rem d d2).

Definition Dec_QuoMut (d d2 : Z) : outcome Z :=
  q ← big_Quo (d * squaredPrecisionReuse) d2;
  in_valid_range (chopPrecisionAndRound q).
Definition Dec_Quo (d d2 : Z) : outcome Z := Dec_QuoMut d d2.
Definition Dec_QuoTruncateMut (d d2 : Z) : outcome Z :=
  q ← big_Quo (d * precisionReuse) d2; in_valid_range q.
Definition Dec_QuoTruncate (d d2 : Z) : outcome Z := Dec_QuoTruncateMut d d2.
(** The sign test reads the receiver after it was overwritten by the quotient. *)
Definition Dec_QuoRoundupMut (d d2 : Z) : outcome Z :=
  '(q, rem) ← big_QuoRem (d * precisionReuse) d2;
  let q' :=
    if (0 <? Z.sgn rem) && Bool.eqb (Dec_IsNegative q) (Dec_IsNegative d2)
       || (Z.sgn rem <? 0) && negb (Bool.eqb (Dec_IsNegative q) (Dec_IsNegative d2))
    then q + 1 else q in
  in_valid_range q'.
Definition Dec_QuoRoundUp (d d2 : Z) : outcome Z := Dec_QuoRoundupMut d d2.
Definition Dec_QuoIntMut (d i : Z) : outcome Z := big_Quo d i.
Definition Dec_QuoInt (d i : Z) : outcome Z := Dec_QuoIntMut d i.
Definition Dec_QuoInt64Mut (d i : Z) : outcome Z := big_Quo d i.
Definition Dec_QuoInt64 (d i : Z) : outcome Z := Dec_QuoInt64Mut d i.

(** ** Powers and roots *)

(** The squaring loop of [PowerMut]: it runs while [i > 1] and halves [i], so
    64 turns are enough for a [uint64] exponent. *)
Fixpoint PowerMut_loop (fuel : nat) (d tmp i : Z) : outcome Z :=
  if 1 <? i then
    match fuel with
    | O => Panic "out of fuel"
    | S fuel' =>
        tmp' ← (if negb (i mod 2 =? 0) then Dec_MulMut tmp d else Ok tmp);
        d' ← Dec_MulMut d d;
        PowerMut_loop fuel' d' tmp' (i / 2)
    end
  else Dec_MulMut d tmp.

Definition Dec_PowerMut (d power : Z) : outcome Z :=
  if power =? 0 then Ok precisionReuse
  else PowerMut_loop 64 d LegacyOneDec power.
Definition Dec_Power (d power : Z) : outcome Z := Dec_PowerMut d power.

(** [int64(root)] of a [uint64]. *)
Definition uint64_to_int64 (u : Z) : Z := if u <? 2 ^ 63 then u else u - 2 ^ 64.

(** Newton iteration; at most [iters] turns, as in the source. *)
Fixpoint ApproxRoot_loop (iters : nat) (d root guess : Z) : outcome Z :=
  match iters with
  | O => Ok guess
  | S iters' =>
      prev ← Dec_Power guess (root - 1);
      let prev := if Dec_IsZero prev then LegacySmallestDec else prev in
      delta ← Dec_QuoMut d prev;
      delta ← Dec_SubMut delta guess;
      delta ← Dec_QuoInt64Mut delta (uint64_to_int64 root);
      guess ← Dec_AddMut guess delta;
      if Dec_LTE (Dec_Abs delta) LegacySmallestDec then Ok guess
      else ApproxRoot_loop iters' d root guess
  end.

(** The deferred [recover] turns a panic into an error. *)
Definition recover_bounds (m : outcome Z) : outcome Z :=
  match m with Panic _ => Err "out of bounds" | r => r end.

Definition ApproxRoot_nonneg (d root : Z) : outcome Z :=
  recover_bounds (
    if (root =? 1) || Dec_IsZero d || Dec_Equal d LegacyOneDec then Ok d
    else ApproxRoot_loop maxApproxRootIterations d root LegacyOneDec).

Definition Dec_ApproxRoot (d root : Z) : outcome Z :=
  if root =? 0 then Ok LegacyOneDec
  else if Dec_IsNegative d
       then absRoot ← ApproxRoot_nonneg (Dec_Neg d) root; Ok (Dec_Neg absRoot)
       else ApproxRoot_nonneg d root.
Definition Dec_ApproxSqrt (d : Z) : outcome Z := Dec_ApproxRoot d 2.

(** ** Rounding to integers *)

Definition Dec_IsInteger (d : Z) : bool := Z.sgn (Z.rem d precisionReuse) =? 0.
Definition Dec_RoundInt64 (d : Z) : outcome Z :=
  let chopped := chopPrecisionAndRound d in
  _ ← guard_panic (negb (big_IsInt64 chopped)) "Int64() out of bound"; Ok chopped.
Definition Dec_RoundInt (d : Z) : outcome Z := NewIntFromBigInt (chopPrecisionAndRound d).
Definition Dec_TruncateInt64 (d : Z) : outcome Z :=
  let chopped := chopPrecisionAndTruncate d in
  _ ← guard_panic (negb (big_IsInt64 chopped)) "Int64() out of bound"; Ok chopped.
Definition Dec_TruncateInt (d : Z) : outcome Z := NewIntFromBigInt (chopPrecisionAndTruncate d).
Definition Dec_TruncateDec (d : Z) : outcome Z :=
  LegacyNewDecFromBigInt (chopPrecisionAndTruncate d).
Definition Dec_Ceil (d : Z) : outcome Z :=
  let quo := Z.quot d precisionReuse in
  let rem := Z.rem d precisionReuse in
  r ← (if Z.sgn rem =? 0 then LegacyNewDecFromBigInt quo
       else if Z.sgn rem =? -1 then LegacyNewDecFromBigInt quo
       else LegacyNewDecFromBigInt (quo + 1));
  in_valid_range r.

(** ** Helpers *)

Fixpoint LegacyDecsEqual_loop (d1s d2s : list Z) : bool :=
  match d1s, d2s with
  | d1 :: d1s', d2 :: d2s' => if negb (Dec_Equal d1 d2) then false else LegacyDecsEqual_loop d1s' d2s'
  | _, _ => true
  end.
Definition LegacyDecsEqual (d1s d2s : list Z) : bool :=
  if negb (length d1s =? length d2s)%nat then false else LegacyDecsEqual_loop d1s d2s.
Definition LegacyMinDec (d1 d2 : Z) : Z := if Dec_LT d1 d2 then d1 else d2.
Definition LegacyMaxDec (d1 d2 : Z) : Z := if Dec_LT d1 d2 then d2 else d1.

#[global] Arguments Dec_AddMut : simpl never.
#[global] Arguments Dec_Add : simpl never.
#[global] Arguments Dec_SubMut : simpl never.
#[global] Arguments Dec_Sub : simpl never.
#[global] Arguments Dec_MulMut : simpl never.
#[global] Arguments Dec_Mul : simpl never.
#[global] Arguments Dec_MulTruncate : simpl never.
#[global] Arguments Dec_MulInt : simpl never.
#[global] Arguments Dec_Quo : simpl never.
#[global] Arguments Dec_QuoTruncate : simpl never.
#[global] Arguments Dec_RoundInt : simpl never.
#[global] Arguments Dec_TruncateInt : simpl never.
#[global] Arguments PowerMut_loop : simpl never.
#[global] Arguments in_valid_range : simpl never.
#[global] Arguments LegacyNewDecFromInt : simpl never.
#[global] Arguments LegacyNewDec : simpl never.

(** ** Shared facts *)

(** The range checked by [assertInValidRange]. *)
Definition dec_range (d : Z) : Prop := lowerLimit <= d <= upperLimit.
#[global] Instance dec_range_dec d : Decision (dec_range d).
Proof. unfold dec_range. apply _. Defined.

Lemma precisionReuse_val : precisionReuse = 10 ^ 18.
Proof. reflexivity. Qed.
Lemma precisionReuse_pos : 0 < precisionReuse.
Proof. reflexivity. Qed.
Lemma fivePrecision_double : 2 * fivePrecision = precisionReuse.
Proof. reflexivity. Qed.
#[global] Opaque precisionReuse.

Create Rewrite HintDb math_dec.
Lemma Dec_IsZero_eqb d : Dec_IsZero d = (d =? 0).
Proof. by destruct d. Qed.
Lemma Dec_IsNegative_ltb d : Dec_IsNegative d = (d <? 0).
Proof. by destruct d. Qed.
Lemma Dec_IsPositive_ltb d : Dec_IsPositive d = (0 <? d).
Proof. by destruct d. Qed.
Lemma Dec_Equal_eqb d d2 : Dec_Equal d d2 = (d =? d2).
Proof. apply int_equal_eqb. Qed.
Lemma Dec_GT_ltb d d2 : Dec_GT d d2 = (d2 <? d).
Proof. apply int_gt_ltb. Qed.
Lemma Dec_GTE_leb d d2 : Dec_GTE d d2 = (d2 <=? d).
Proof. apply int_gte_leb. Qed.
Lemma Dec_LT_ltb d d2 : Dec_LT d d2 = (d <? d2).
Proof. apply int_lt_ltb. Qed.
Lemma Dec_LTE_leb d d2 : Dec_LTE d d2 = (d <=? d2).
Proof. apply int_lte_leb. Qed.
Lemma LegacyMinDec_min d d2 : LegacyMinDec d d2 = Z.min d d2.
Proof. unfold LegacyMinDec. rewrite Dec_LT_ltb. destruct (Z.ltb_spec d d2); lia. Qed.
Lemma LegacyMaxDec_max d d2 : LegacyMaxDec d d2 = Z.max d d2.
Proof. unfold LegacyMaxDec. rewrite Dec_LT_ltb. destruct (Z.ltb_spec d d2); lia. Qed.
#[export] Hint Rewrite Dec_IsZero_eqb Dec_IsNegative_ltb Dec_IsPositive_ltb Dec_Equal_eqb
  Dec_GT_ltb Dec_GTE_leb Dec_LT_ltb Dec_LTE_leb LegacyMinDec_min LegacyMaxDec_max : math_dec.
Ltac dec_simpl := autorewrite with math_dec in *.

Lemma in_valid_range_spec r :
  in_valid_range r = if bool_decide (dec_range r) then Ok r else Panic "Int overflow".
Proof.
  unfold in_valid_range, Dec_assertInValidRange, Dec_IsInValidRange, dec_range. dec_simpl.
  destruct (Z.ltb_spec upperLimit r), (Z.ltb_spec r lowerLimit); cbn;
    case_bool_decide; (done || lia).
Qed.
Lemma in_valid_range_Ok r x : in_valid_range r = Ok x ↔ x = r ∧ dec_range r.
Proof. rewrite in_valid_range_spec. case_bool_decide; naive_solver. Qed.

Lemma Dec_Add_Ok d d2 r : Dec_Add d d2 = Ok r ↔ r = d + d2 ∧ dec_range r.
Proof. unfold Dec_Add, Dec_AddMut. rewrite in_valid_range_Ok. naive_solver. Qed.
Lemma Dec_Sub_Ok d d2 r : Dec_Sub d d2 = Ok r ↔ r = d - d2 ∧ dec_range r.
Proof. unfold Dec_Sub, Dec_SubMut. rewrite in_valid_range_Ok. naive_solver. Qed.
Lemma Dec_MulInt_Ok d i r : Dec_MulInt d i = Ok r ↔ r = d * i ∧ dec_range r.
Proof. unfold Dec_MulInt, Dec_MulIntMut. rewrite in_valid_range_Ok. naive_solver. Qed.
Lemma Dec_Mul_Ok d d2 r :
  Dec_Mul d d2 = Ok r ↔ r = chopPrecisionAndRound (d * d2) ∧ dec_range r.
Proof. unfold Dec_Mul, Dec_MulMut. rewrite in_valid_range_Ok. naive_solver. Qed.
Lemma Dec_MulTruncate_Ok d d2 r :
  Dec_MulTruncate d d2 = Ok r ↔ r = Z.quot (d * d2) precisionReuse ∧ dec_range r.
Proof. unfold Dec_MulTruncate, Dec_MulTruncateMut. rewrite in_valid_range_Ok. naive_solver. Qed.
Lemma big_Quo_Ok d d2 r : big_Quo d d2 = Ok r ↔ r = Z.quot d d2 ∧ d2 ≠ 0.
Proof. unfold big_Quo. destruct (Z.eqb_spec d2 0); cbn; naive_solver. Qed.
Lemma Dec_Quo_Ok d d2 r :
  Dec_Quo d d2 = Ok r ↔
  r = chopPrecisionAndRound (Z.quot (d * squaredPrecisionReuse) d2) ∧ d2 ≠ 0 ∧ dec_range r.
Proof.
  unfold Dec_Quo, Dec_QuoMut. rewrite outcome_bind_Ok. setoid_rewrite big_Quo_Ok.
  setoid_rewrite in_valid_range_Ok. naive_solver.
Qed.
Lemma Dec_QuoTruncate_Ok d d2 r :
  Dec_QuoTruncate d d2 = Ok r ↔ r = Z.quot (d * precisionReuse) d2 ∧ d2 ≠ 0 ∧ dec_range r.
Proof.
  unfold Dec_QuoTruncate, Dec_QuoTruncateMut. rewrite outcome_bind_Ok. setoid_rewrite big_Quo_Ok.
  setoid_rewrite in_valid_range_Ok. naive_solver.
Qed.
Lemma NewIntFromBigInt_Ok i r : NewIntFromBigInt i = Ok r ↔ r = i ∧ int_range i.
Proof.
  unfold NewIntFromBigInt. destruct (bigIntOverflows i) eqn:E; cbn.
  - apply bigIntOverflows_true in E. naive_solver.
  - apply bigIntOverflows_false in E. naive_solver.
Qed.

(** [LegacyNewDec] and friends at precision 0 never panic. *)
Lemma precisionMultiplier_0 : precisionMultiplier 0 = Ok precisionReuse.
Proof. reflexivity. Qed.
Lemma LegacyNewDecFromInt_Ok i : LegacyNewDecFromInt i = Ok (i * precisionReuse).
Proof. reflexivity. Qed.
Lemma LegacyNewDec_Ok i : LegacyNewDec i = Ok (i * precisionReuse).
Proof. reflexivity. Qed.
Lemma LegacyNewDecFromBigInt_Ok i : LegacyNewDecFromBigInt i = Ok (i * precisionReuse).
Proof. reflexivity. Qed.

(** ** Banker's rounding *)

(** [r] is the integer nearest to [d / 10^18], the even one on a tie. *)
Definition nearest_even (d r : Z) : Prop :=
  2 * Z.abs (d - r * precisionReuse) <= precisionReuse ∧
  (2 * Z.abs (d - r * precisionReuse) = precisionReuse → Z.even r = true).

Lemma chop_nonneg_nearest d : 0 <= d → nearest_even d (chopPrecisionAndRound_nonneg d).
Proof.
  intros Hd. pose proof precisionReuse_pos as Hp. pose proof fivePrecision_double as Hf.
  unfold chopPrecisionAndRound_nonneg, nearest_even.
  pose proof (Z.quot_rem' d precisionReuse) as Hqr.
  pose proof (Z.rem_bound_pos d precisionReuse Hd Hp) as Hr.
  set (q := Z.quot d precisionReuse) in *. set (m := Z.rem d precisionReuse) in *.
  destruct (Z.eqb_spec (Z.sgn m) 0) as [E|E]; rewrite Z.sgn_null_iff in E; [lia|].
  destruct (Z.compare_spec m fivePrecision) as [Hc|Hc|Hc]; [|lia|lia].
  rewrite <- Z.negb_odd, <- Z.bit0_odd. destruct (Z.testbit q 0) eqn:Hb; [|rewrite Hb; lia].
  split; [lia|]. intros _. rewrite Z.bit0_odd, Z.odd_add, <- Z.bit0_odd, Hb. done.
Qed.

Lemma nearest_even_opp d r : nearest_even d r → nearest_even (- d) (- r).
Proof.
  unfold nearest_even. rewrite Z.even_opp.
  replace (- d - - r * precisionReuse) with (- (d - r * precisionReuse)) by lia.
  by rewrite Z.abs_opp.
Qed.

Lemma chopPrecisionAndRound_nearest d : nearest_even d (chopPrecisionAndRound d).
Proof.
  unfold chopPrecisionAndRound. destruct (Z.eqb_spec (Z.sgn d) (-1)) as [E|E].
  - rewrite <- (Z.opp_involutive d) at 1. apply nearest_even_opp, chop_nonneg_nearest. lia.
  - apply chop_nonneg_nearest. destruct d; cbn in *; lia.
Qed.

Lemma nearest_even_mono d1 d2 r1 r2 :
  d1 <= d2 → nearest_even d1 r1 → nearest_even d2 r2 → r1 <= r2.
Proof.
  intros Hd [H1 H1'] [H2 H2']. pose proof precisionReuse_pos as Hp.
  apply Z.nlt_ge. intros Hlt. assert (r1 = r2 + 1) as -> by nia.
  assert (d1 = d2) as -> by nia.
  assert (Z.even (r2 + 1) = true) as He1 by (apply H1'; nia).
  assert (Z.even r2 = true) as He2 by (apply H2'; nia).
  rewrite Z.even_add, He2 in He1. done.
Qed.

Lemma nearest_even_unique d r1 r2 : nearest_even d r1 → nearest_even d r2 → r1 = r2.
Proof. intros. apply Z.le_antisymm; by eapply (nearest_even_mono d d). Qed.

Lemma chopPrecisionAndRound_mono d1 d2 :
  d1 <= d2 → chopPrecisionAndRound d1 <= chopPrecisionAndRound d2.
Proof. intros. eapply nearest_even_mono; eauto using chopPrecisionAndRound_nearest. Qed.

Lemma chopPrecisionAndRound_exact r : chopPrecisionAndRound (r * precisionReuse) = r.
Proof.
  eapply nearest_even_unique; [apply chopPrecisionAndRound_nearest|].
  pose proof precisionReuse_pos. unfold nearest_even. rewrite Z.sub_diag. lia.
Qed.

Lemma chopPrecisionAndRound_nonneg_ge d : 0 <= d → 0 <= chopPrecisionAndRound d.
Proof.
  intros. rewrite <- (chopPrecisionAndRound_exact 0). by apply chopPrecisionAndRound_mono.
Qed.

(** ** Properties *)

(** [Mul] is correctly rounded: its result is the decimal nearest to the
    exact product, the even one when the product lies halfway, and it panics
    exactly when that decimal is outside the valid range. *)
Theorem Dec_Mul_correctly_rounded d d2 :
  ∃ r, nearest_even (d * d2) r ∧
       (∀ r', nearest_even (d * d2) r' → r' = r) ∧
       Dec_Mul d d2 = (if bool_decide (dec_range r) then Ok r else Panic "Int overflow").
Proof.
  exists (chopPrecisionAndRound (d * d2)).
  split; [apply chopPrecisionAndRound_nearest|].
  split; [intros; by eapply nearest_even_unique, chopPrecisionAndRound_nearest|].
  unfold Dec_Mul, Dec_MulMut. apply in_valid_range_spec.
Qed.

(** [Z.quot] truncates: the error is below one unit and points to zero. *)
Lemma quot_toward_zero n m :
  m ≠ 0 → Z.abs (n - Z.quot n m * m) < Z.abs m ∧ Z.abs (Z.quot n m * m) <= Z.abs n.
Proof.
  intros Hm. pose proof (Z.quot_rem' n m). pose proof (Z.rem_bound_abs n m Hm).
  pose proof (Z.mul_quot_le (Z.abs n) (Z.abs m) ltac:(lia) ltac:(lia)) as Hle.
  rewrite Z.quot_abs, <- Z.abs_mul in Hle by done. split; [nia|].
  rewrite Z.mul_comm. lia.
Qed.

(** [Quo] is within [1/2 + 10^-18] units of the last place of the exact
    quotient: writing [P] for [10^18], [|r * d2 - d * P|] is at most
    [|d2| * (1/2 + 1/P)], stated here without fractions. *)
Lemma Dec_Quo_error_bound d d2 r :
  Dec_Quo d d2 = Ok r →
  2 * precisionReuse * Z.abs (r * d2 - d * precisionReuse) <= Z.abs d2 * (precisionReuse + 2).
Proof.
  intros (-> & Hd2 & _)%Dec_Quo_Ok. pose proof precisionReuse_pos as Hp.
  unfold squaredPrecisionReuse.
  pose proof (quot_toward_zero (d * (precisionReuse * precisionReuse)) d2 Hd2) as [Hq _].
  set (q := Z.quot _ d2) in *. set (P := precisionReuse) in *.
  destruct (chopPrecisionAndRound_nearest q) as [Hr _]. fold P in Hr.
  set (r := chopPrecisionAndRound q) in *.
  assert (P * Z.abs (r * d2 - d * P) <= Z.abs (q - r * P) * Z.abs d2 + Z.abs (d * (P * P) - q * d2)) as Ht.
  { pose proof (Z.abs_triangle (- ((q - r * P) * d2)) (- (d * (P * P) - q * d2))) as Ht.
    rewrite !Z.abs_opp, Z.abs_mul in Ht. rewrite <- (Z.abs_eq P) at 1 by lia.
    rewrite <- Z.abs_mul. etransitivity; [|exact Ht]. apply Z.eq_le_incl. f_equal. ring. }
  nia.
Qed.

(** [r] is the ceiling of [n / m]. *)
Definition is_ceiling (n m r : Z) : Prop := n <= r * m < n + m.

Lemma chopPrecisionAndRoundUp_ceiling d : is_ceiling d precisionReuse (chopPrecisionAndRoundUp d).
Proof.
  pose proof precisionReuse_pos as Hp. unfold chopPrecisionAndRoundUp, chopPrecisionAndTruncate, is_ceiling.
  destruct (Z.eqb_spec (Z.sgn d) (-1)) as [E|E].
  - pose proof (Z.quot_rem' (- d) precisionReuse).
    pose proof (Z.rem_bound_pos (- d) precisionReuse ltac:(lia) Hp). nia.
  - pose proof (Z.quot_rem' d precisionReuse).
    pose proof (Z.rem_bound_pos d precisionReuse ltac:(destruct d; cbn in *; lia) Hp).
    destruct (Z.eqb_spec (Z.sgn (Z.rem d precisionReuse)) 0) as [E'|E'];
      rewrite Z.sgn_null_iff in E'; nia.
Qed.

(** The truncating and rounding-up products: [MulTruncate] never exceeds
    the exact product in magnitude and is less than one unit away from it;
    [MulRoundUp] is its ceiling whatever the signs. *)
Theorem Dec_Mul_directed_rounding d d2 :
  (∀ r, Dec_MulTruncate d d2 = Ok r →
     Z.abs (d * d2 - r * precisionReuse) < precisionReuse ∧
     Z.abs (r * precisionReuse) <= Z.abs (d * d2)) ∧
  (∀ r, Dec_MulRoundUp d d2 = Ok r → is_ceiling (d * d2) precisionReuse r).
Proof.
  pose proof precisionReuse_pos. split; intros r Hr.
  - apply Dec_MulTruncate_Ok in Hr as [-> _].
    pose proof (quot_toward_zero (d * d2) precisionReuse ltac:(lia)). lia.
  - unfold Dec_MulRoundUp, Dec_MulRoundUpMut in Hr. apply in_valid_range_Ok in Hr as [-> _].
    apply chopPrecisionAndRoundUp_ceiling.
Qed.

(** [QuoRoundUp] by a positive divisor: the result is the ceiling of the
    exact quotient when that ceiling is not negative or the division is exact,
    and one unit past the ceiling otherwise; it is returned exactly when it is in
    the valid range. So non-negative decimals are rounded up, while [-1 / 3]
    gives [-0.333333333333333332] although [-0.333333333333333333] is the
    smallest decimal above it. *)
Theorem Dec_QuoRoundUp_rounding d d2 :
  0 < d2 →
  ∃ c, is_ceiling (d * precisionReuse) d2 c ∧
       (0 <= d → 0 <= c) ∧
       ∀ r, Dec_QuoRoundUp d d2 = Ok r ↔
            dec_range r ∧
            r = c + (if (c <? 0) && negb (Z.rem (d * precisionReuse) d2 =? 0) then 1 else 0).
Proof.
  intros Hd2. pose proof precisionReuse_pos as Hp.
  set (n := d * precisionReuse).
  pose proof (Z.quot_rem' n d2) as Hqr. pose proof (Z.rem_bound_abs n d2 ltac:(lia)) as Hb.
  pose proof (Z.rem_sign_nz n d2 ltac:(lia)) as Hsg.
  exists (if 0 <? Z.rem n d2 then Z.quot n d2 + 1 else Z.quot n d2).
  assert (0 <= d → 0 <= Z.quot n d2) as Hq by (intros; apply Z.quot_pos; unfold n; nia).
  split; [unfold is_ceiling; case_match eqn:E; [apply Z.ltb_lt in E|apply Z.ltb_ge in E]; nia|].
  split; [case_match; lia|]. intros r.
  unfold Dec_QuoRoundUp, Dec_QuoRoundupMut, big_QuoRem.
  destruct (Z.eqb_spec d2 0) as [->|_]; [lia|]. cbn.
  rewrite in_valid_range_Ok. dec_simpl. fold n. rewrite (proj2 (Z.ltb_ge d2 0)) by lia.
  set (q := Z.quot n d2) in *. set (m := Z.rem n d2) in *.
  assert (0 < m → 0 <= q) by nia. assert (m < 0 → q <= 0) by nia.
  destruct (Z.ltb_spec q 0), (Z.ltb_spec 0 (Z.sgn m)), (Z.ltb_spec (Z.sgn m) 0),
    (Z.ltb_spec 0 m), (Z.eqb_spec m 0); cbn; try lia;
    repeat match goal with |- context [?x <? 0] => destruct (Z.ltb_spec x 0) end; cbn; try lia;
    rewrite ?Z.add_0_r; split; intros Hr; destruct Hr; subst; split; done.
Qed.

Lemma Dec_QuoRoundUp_rounding_witness :
  ∃ c, is_ceiling (- precisionReuse * precisionReuse) (3 * precisionReuse) c ∧
       (0 <= - precisionReuse → 0 <= c) ∧
       ∀ r, Dec_QuoRoundUp (- precisionReuse) (3 * precisionReuse) = Ok r ↔
            dec_range r ∧
            r = c + (if (c <? 0) && negb (Z.rem (- precisionReuse * precisionReuse)
                                                (3 * precisionReuse) =? 0) then 1 else 0).
Proof. apply Dec_QuoRoundUp_rounding. vm_compute. done. Defined.

Lemma Dec_TruncateInt_range d : dec_range d → Dec_TruncateInt d = Ok (Z.quot d precisionReuse).
Proof.
  intros [Hl Hu]. pose proof precisionReuse_pos as Hp.
  unfold Dec_TruncateInt, chopPrecisionAndTruncate. apply NewIntFromBigInt_Ok. split; [done|].
  pose proof (quot_toward_zero d precisionReuse ltac:(lia)) as [_ Hq].
  unfold lowerLimit, upperLimit, int_range in *. nia.
Qed.

Lemma Dec_RoundInt_Ok d r : Dec_RoundInt d = Ok r ↔ r = chopPrecisionAndRound d ∧ int_range r.
Proof. unfold Dec_RoundInt. rewrite NewIntFromBigInt_Ok. naive_solver. Qed.

Lemma Dec_Ceil_Ok d c :
  Dec_Ceil d = Ok c → ∃ k, c = k * precisionReuse ∧ is_ceiling d precisionReuse k.
Proof.
  pose proof precisionReuse_pos as Hp. unfold Dec_Ceil. rewrite !LegacyNewDecFromBigInt_Ok.
  pose proof (Z.quot_rem' d precisionReuse) as Hqr.
  pose proof (Z.rem_bound_abs d precisionReuse ltac:(lia)) as Hb.
  set (q := Z.quot d precisionReuse) in *. set (m := Z.rem d precisionReuse) in *.
  assert (0 < m ∨ m <= 0) as [Hm|Hm] by lia; intros H.
  - rewrite Z.sgn_pos in H by lia. cbn in H. go_inv. apply in_valid_range_Ok in H as [-> _].
    exists (q + 1). unfold is_ceiling. lia.
  - assert (in_valid_range (q * precisionReuse) = Ok c) as Hc.
    { destruct (Z.eqb_spec (Z.sgn m) 0) as [E|E]; [done|].
      rewrite Z.sgn_null_iff in E. rewrite Z.sgn_neg in H by lia. done. }
    apply in_valid_range_Ok in Hc as [-> _]. exists q. unfold is_ceiling. lia.
Qed.

(** Conversions to integers of a valid decimal: [TruncateInt] never panics
    and drops the fraction, [RoundInt] is the nearest integer with ties to
    even, [Ceil] is the least integral decimal above. *)
Theorem Dec_integer_roundings d :
  dec_range d →
  Dec_TruncateInt d = Ok (Z.quot d precisionReuse) ∧
  (∀ r, Dec_RoundInt d = Ok r → nearest_even d r) ∧
  (∀ c, Dec_Ceil d = Ok c → ∃ k, c = k * precisionReuse ∧ is_ceiling d precisionReuse k).
Proof.
  intros Hd. split; [by apply Dec_TruncateInt_range|]. split.
  - intros r [-> _]%Dec_RoundInt_Ok. apply chopPrecisionAndRound_nearest.
  - apply Dec_Ceil_Ok.
Qed.

Lemma Dec_integer_roundings_witness :
  Dec_TruncateInt (-1500000000000000000) = Ok (-1) ∧
  nearest_even (-1500000000000000000) (-2) ∧
  ∃ k, - precisionReuse = k * precisionReuse ∧ is_ceiling (-1500000000000000000) precisionReuse k.
Proof.
  destruct (Dec_integer_roundings (-1500000000000000000)) as (H1 & H2 & H3).
  - split; vm_compute; done.
  - split; [exact H1|]. split; [apply H2|apply H3]; vm_compute; reflexivity.
Defined.

Lemma Dec_MulMut_integer a b :
  dec_range (a * b * precisionReuse) →
  Dec_MulMut (a * precisionReuse) (b * precisionReuse) = Ok (a * b * precisionReuse).
Proof.
  intros Hr. change Dec_MulMut with Dec_Mul. apply Dec_Mul_Ok. split; [|done].
  replace (a * precisionReuse * (b * precisionReuse))
    with ((a * b * precisionReuse) * precisionReuse) by ring.
  by rewrite chopPrecisionAndRound_exact.
Qed.

Lemma dec_range_pos_mono a b : 0 <= a <= b → dec_range b → dec_range a.
Proof. pose proof precisionReuse_pos. unfold dec_range, lowerLimit, upperLimit. lia. Qed.

Lemma dec_range_scale a b :
  0 <= a <= b → dec_range (b * precisionReuse) → dec_range (a * precisionReuse).
Proof. intros. eapply dec_range_pos_mono; [|done]. pose proof precisionReuse_pos. nia. Qed.
Lemma mul_ge_l a b : 0 <= a → 1 <= b → a <= a * b.
Proof. nia. Qed.

Lemma PowerMut_loop_integer fuel : ∀ k t i,
  0 < k → 0 < t → 1 <= i < 2 ^ (Z.of_nat fuel + 1) →
  dec_range (k ^ i * t * precisionReuse) →
  PowerMut_loop fuel (k * precisionReuse) (t * precisionReuse) i = Ok (k ^ i * t * precisionReuse).
Proof.
  pose proof precisionReuse_pos as Hp.
  induction fuel as [|fuel IH]; intros k t i Hk Ht Hi Hr;
    unfold PowerMut_loop; fold PowerMut_loop; destruct (Z.ltb_spec 1 i) as [Hgt|Hle].
  - cbn in Hi. lia.
  - replace i with 1 in * by lia. rewrite Z.pow_1_r in *. by apply Dec_MulMut_integer.
  - set (h := i / 2). assert (i = 2 * h + i mod 2) as Him by (apply Z.div_mod; lia).
    pose proof (Z.mod_pos_bound i 2 ltac:(lia)) as Hm.
    rewrite Nat2Z.inj_succ, Z.add_succ_l, Z.pow_succ_r in Hi by lia.
    assert (k * k <= (k * k) ^ h) as Hsq.
    { rewrite <- (Z.pow_1_r (k * k)) at 1. apply Z.pow_le_mono_r; nia. }
    assert (k ^ i = (k * k) ^ h * k ^ (i mod 2)) as Hki.
    { rewrite Him at 1. rewrite Z.pow_add_r, Z.pow_mul_r, Z.pow_2_r by lia. done. }
    assert (0 < k ^ (i mod 2)) by (apply Z.pow_pos_nonneg; lia).
    rewrite Hki in *.
    assert (Dec_MulMut (k * precisionReuse) (k * precisionReuse) = Ok (k * k * precisionReuse)) as Hkk.
    { apply Dec_MulMut_integer. eapply dec_range_scale, Hr. split; [nia|].
      etransitivity; [exact Hsq|]. rewrite <- Z.mul_assoc. apply mul_ge_l; nia. }
    destruct (Z.eqb_spec (i mod 2) 0) as [E|E]; cbn [negb].
    + rewrite E in *. rewrite Z.pow_0_r, Z.mul_1_r in *. cbn. rewrite Hkk. cbn.
      apply IH; [nia|lia|lia|done].
    + replace (i mod 2) with 1 in * by lia. rewrite Z.pow_1_r in *.
      assert (dec_range ((k * k) ^ h * (t * k) * precisionReuse)) as Hr'.
      { replace ((k * k) ^ h * (t * k)) with ((k * k) ^ h * k * t) by ring. done. }
      rewrite (Dec_MulMut_integer t k).
      * cbn. rewrite Hkk. cbn. rewrite IH; [f_equal; ring|nia|nia|lia|done].
      * eapply dec_range_scale, Hr'. split; [nia|]. rewrite (Z.mul_comm ((k * k) ^ h)). apply mul_ge_l; nia.
  - replace i with 1 in * by lia. rewrite Z.pow_1_r in *. by apply Dec_MulMut_integer.
Qed.

(** The loop ends by its own test for every [uint64] exponent. *)
Lemma PowerMut_loop_fuel fuel : ∀ d tmp i,
  i < 2 ^ (Z.of_nat fuel + 1) → PowerMut_loop fuel d tmp i ≠ Panic "out of fuel".
Proof.
  assert (∀ x y, Dec_MulMut x y ≠ Panic "out of fuel") as Hm.
  { intros x y. unfold Dec_MulMut. rewrite in_valid_range_spec. by case_bool_decide. }
  induction fuel as [|fuel IH]; intros d tmp i Hi; unfold PowerMut_loop; fold PowerMut_loop;
    destruct (Z.ltb_spec 1 i) as [Hgt|Hle]; try apply Hm; [cbn in Hi; lia|].
  destruct (if negb (i mod 2 =? 0) then Dec_MulMut tmp d else Ok tmp) as [tmp'|e|p] eqn:E1; cbn; [|done|].
  - destruct (Dec_MulMut d d) as [d'|e|p] eqn:E2; cbn; [|done|by rewrite <- E2].
    apply IH. apply Z.div_lt_upper_bound; [lia|]. by rewrite Nat2Z.inj_succ, Z.add_succ_l, Z.pow_succ_r in Hi by lia.
  - case_match; [by rewrite <- E1|done].
Qed.
Lemma Dec_Power_int k n :
  0 < k → 0 <= n < 2 ^ 64 → dec_range (k ^ n * precisionReuse) →
  Dec_Power (k * precisionReuse) n = Ok (k ^ n * precisionReuse).
Proof.
  intros Hk Hn Hr. unfold Dec_Power, Dec_PowerMut, LegacyOneDec.
  destruct (Z.eqb_spec n 0) as [->|Hn0]; [by rewrite Z.pow_0_r, Z.mul_1_l|].
  rewrite <- (Z.mul_1_l precisionReuse) at 2.
  rewrite PowerMut_loop_integer; [by rewrite Z.mul_1_r|lia|lia| |by rewrite Z.mul_1_r].
  change (2 ^ (Z.of_nat 64 + 1)) with (2 * 2 ^ 64). lia.
Qed.

(** [Power] terminates within its 64 turns for every [uint64] exponent, and
    is exact for a positive integral decimal whenever the result is in range: the
    squaring loop introduces neither rounding nor a premature overflow. *)
Theorem Dec_Power_integer n :
  0 <= n < 2 ^ 64 →
  (∀ d, Dec_Power d n ≠ Panic "out of fuel") ∧
  ∀ k, 0 < k → dec_range (k ^ n * precisionReuse) →
       Dec_Power (k * precisionReuse) n = Ok (k ^ n * precisionReuse).
Proof.
  intros Hn. split; [|intros; by apply Dec_Power_int]. intros d. unfold Dec_Power, Dec_PowerMut.
  case_match; [done|]. apply PowerMut_loop_fuel. change (2 ^ (Z.of_nat 64 + 1)) with (2 * 2 ^ 64). lia.
Qed.

Lemma Dec_Power_integer_witness :
  Dec_Power (3 * precisionReuse) 5 = Ok (3 ^ 5 * precisionReuse).
Proof. apply Dec_Power_integer; [lia|lia|]. split; vm_compute; done. Defined.

(** A panic inside the Newton iteration surfaces as an error, so [ApproxRoot]
    never panics; [x ^ (1/0)] is 1 by convention. *)
Lemma Dec_ApproxRoot_no_panic d root p : Dec_ApproxRoot d root ≠ Panic p.
Proof.
  assert (∀ m q, recover_bounds m ≠ Panic q) as Hr by (intros [] ?; done).
  unfold Dec_ApproxRoot. destruct (root =? 0); [done|].
  destruct (Dec_IsNegative d); [|apply Hr].
  destruct (ApproxRoot_nonneg (Dec_Neg d) root) eqn:E; cbn; [done|done|].
  exfalso. by eapply Hr.
Qed.
