(* ===== verification/DecString.v ===== *)
(** * Decimal strings: parsing and printing of math/legacy_dec.go

    Parameters of modules are stored as strings that [LegacyNewDecFromStr] parses
    and [String] prints.  A string is a sequence of bytes; [big.Int] parses
    and prints base 10 with an optional sign.  [Float64] is the binary64 number
    nearest to a decimal, by the specification floats of the Standard Library. *)
From S2P Require Import Prelude MathInt LegacyDec.
From Stdlib Require Import Ascii SpecFloat.

Definition ErrLegacyEmptyDecimalStr : string := "decimal string cannot be empty".
Definition ErrLegacyInvalidDecimalLength : string := "invalid decimal length".
Definition ErrLegacyInvalidDecimalStr : string := "invalid decimal string".

(** ** Base 10 *)

Definition digit_value (c : ascii) : option Z :=
  let n := Z.of_N (N_of_ascii c) in
  if (48 <=? n) && (n <=? 57) then Some (n - 48) else None.
Definition digit_char (d : Z) : ascii := ascii_of_N (Z.to_N (48 + d)).
(** The digits of [s] after those that gave [acc]. *)
Fixpoint parse_digits (acc : Z) (s : string) : option Z :=
  match s with
  | EmptyString => Some acc
  | String c s' => d ← digit_value c; parse_digits (acc * 10 + d) s'
  end.
(** [big.Int.SetString(s, 10)]: an optional sign and at least one digit. *)
Definition SetString (s : string) : option Z :=
  match s with
  | EmptyString => None
  | String c s' =>
      if Ascii.eqb c "-" || Ascii.eqb c "+" then
        match s' with
        | EmptyString => None
        | _ => (if Ascii.eqb c "-" then Z.opp else id) <$> parse_digits 0 s'
        end
      else parse_digits 0 s
  end.
(** [big.Int.MarshalText] of a number that is not negative. *)
Fixpoint print_digits (fuel : nat) (n : Z) (acc : string) : string :=
  match fuel with
  | O => acc
  | S fuel =>
      let acc := String (digit_char (n mod 10)) acc in
      if n <? 10 then acc else print_digits fuel (n / 10) acc
  end.
Definition MarshalText (n : Z) : string := print_digits (Z.to_nat (Z.log2 n + 1)) n "".

Fixpoint repeat_char (n : nat) (c : ascii) : string :=
  match n with O => "" | S n => String c (repeat_char n c) end.
(** [strings.Split(s, ".")]: at least one part. *)
Fixpoint split_point (s : string) : list string :=
  match s with
  | EmptyString => [EmptyString]
  | String c s' =>
      if Ascii.eqb c "." then EmptyString :: split_point s'
      else match split_point s' with
           | [] => [String c EmptyString]
           | p :: ps => String c p :: ps
           end
  end.

(** ** legacy_dec.go *)

(** After the decimal point was removed, with the number of decimals. *)
Definition dec_of_digits (neg : bool) (combinedStr : string) (lenDecs : nat) : outcome Z :=
  if LegacyPrecision <? Z.of_nat lenDecs then Err "value exceeds max precision"
  else
    match SetString (combinedStr +:+ repeat_char (Z.to_nat LegacyPrecision - lenDecs) "0") with
    | None => Err "failed to set decimal string with base 10"
    | Some combined =>
        let result := if neg then - combined else combined in
        if Dec_IsInValidRange result then Ok result else Err ErrLegacyInvalidDecimalStr
    end.
(** After the negative sign was removed. *)
Definition dec_of_unsigned (neg : bool) (str : string) : outcome Z :=
  if str_eq str "" then Err ErrLegacyEmptyDecimalStr
  else
    match split_point str with
    | [whole; decimals] =>
        if (String.length decimals =? 0)%nat || (String.length whole =? 0)%nat then Err ErrLegacyInvalidDecimalLength
        else dec_of_digits neg (whole +:+ decimals) (String.length decimals)
    | [whole] => dec_of_digits neg whole 0
    | _ => Err ErrLegacyInvalidDecimalStr
    end.
Definition LegacyNewDecFromStr (str : string) : outcome Z :=
  match str with
  | String c s' => if Ascii.eqb c "-" then dec_of_unsigned true s' else dec_of_unsigned false str
  | EmptyString => dec_of_unsigned false str
  end.
Definition LegacyMustNewDecFromStr (s : string) : outcome Z := must (LegacyNewDecFromStr s).

Definition Dec_String (d : Z) : string :=
  let isNeg := Dec_IsNegative d in
  let d := if isNeg then Dec_Neg d else d in
  let bzInt := MarshalText d in
  let inputSize := String.length bzInt in
  let prec := Z.to_nat LegacyPrecision in
  let bzStr :=
    if (inputSize <=? prec)%nat then ("0." +:+ repeat_char (prec - inputSize) "0" +:+ bzInt)%string
    else
      let decPointPlace := (inputSize - prec)%nat in
      (String.substring 0 decPointPlace bzInt +:+ "." +:+ String.substring decPointPlace prec bzInt)%string in
  if isNeg then ("-" +:+ bzStr)%string else bzStr.

(** ** float64 *)

Definition float64 := spec_float.
(** [float64(z)] of an integer, and the quotient of two integers rounded once. *)
Definition float_of_Z (z : Z) : float64 := binary_normalize 53 1024 z 0 false.
Definition float_of_ratio (p q : positive) : float64 :=
  let '(m, e, l) := SFdiv_core_binary 53 1024 (Z.pos p) 0 (Z.pos q) 0 in
  binary_round_aux 53 1024 false m e l.
Definition float_mul : float64 → float64 → float64 := SFmul 53 1024.
(** Conversion to an integer truncates. *)
Definition float_trunc (f : float64) : Z :=
  match f with
  | S754_finite s m e =>
      let v := if 0 <=? e then Z.pos m * 2 ^ e else Z.pos m / 2 ^ (- e) in
      if s then - v else v
  | _ => 0
  end.
(** Parsing the printed decimal rounds to the nearest float64. *)
Definition Dec_MustFloat64 (d : Z) : float64 :=
  match d with
  | Zpos p => float_of_ratio p (Z.to_pos precisionReuse)
  | Zneg p => SFopp (float_of_ratio p (Z.to_pos precisionReuse))
  | Z0 => S754_zero false
  end.

Example parse_quorum : LegacyNewDecFromStr "0.334" = Ok (334 * 10 ^ 15).
Proof. reflexivity. Qed.
Example parse_negative : LegacyNewDecFromStr "-123.456" = Ok (- 123456 * 10 ^ 15).
Proof. reflexivity. Qed.
Example print_fraction : Dec_String (- 5 * 10 ^ 15) = "-0.005000000000000000".
Proof. vm_compute. reflexivity. Qed.
Example print_whole : Dec_String (12345 * 10 ^ 17) = "1234.500000000000000000".
Proof. vm_compute. reflexivity. Qed.
Example half_float : float_trunc (float_mul (float_of_Z (172800 * 10 ^ 9)) (Dec_MustFloat64 (5 * 10 ^ 17))) = 86400 * 10 ^ 9.
Proof. vm_compute. reflexivity. Qed.
Example third_float : float_trunc (float_mul (float_of_Z (10 ^ 18)) (Dec_MustFloat64 333333333333333333)) = 333333333333333312.
Proof. vm_compute. reflexivity. Qed.
(** The sign is looked for twice, so a second one is taken for part of the digits. *)
Example two_signs : LegacyNewDecFromStr "--5" = Ok (5 * 10 ^ 18) ∧ LegacyNewDecFromStr "-+5" = Ok (- 5 * 10 ^ 18).
Proof. by split; vm_compute. Qed.

(** ** Printing and parsing back *)

Fixpoint digits (s : string) : bool :=
  match s with EmptyString => true | String c s' => bool_decide (is_Some (digit_value c)) && digits s' end.

Lemma digit_value_char d : 0 <= d < 10 → digit_value (digit_char d) = Some d.
Proof.
  intros Hd. assert (d ∈ [0; 1; 2; 3; 4; 5; 6; 7; 8; 9]) as H by (rewrite !elem_of_cons; lia). clear Hd.
  repeat (apply elem_of_cons in H as [->|H]; [reflexivity|]). by apply not_elem_of_nil in H.
Qed.
Lemma digit_not c : is_Some (digit_value c) → Ascii.eqb c "." = false ∧ Ascii.eqb c "-" = false ∧ Ascii.eqb c "+" = false.
Proof. intros [d H]. repeat split; apply Ascii.eqb_neq; intros ->; done. Qed.
Lemma digits_cons c s : digits (String c s) = true ↔ is_Some (digit_value c) ∧ digits s = true.
Proof. cbn [digits]. by rewrite andb_true_iff, bool_decide_eq_true. Qed.
Lemma digits_app s1 s2 : digits (s1 +:+ s2) = true ↔ digits s1 = true ∧ digits s2 = true.
Proof.
  induction s1 as [|c s1 IH]; [naive_solver|]. change (String c s1 +:+ s2)%string with (String c (s1 +:+ s2)).
  rewrite !digits_cons, IH. tauto.
Qed.
Lemma digits_zeros n : digits (repeat_char n "0") = true.
Proof. induction n as [|n IH]; [done|]. by apply digits_cons. Qed.
Lemma parse_digits_app s1 : ∀ a s2, parse_digits a (s1 +:+ s2) = parse_digits a s1 ≫= λ a, parse_digits a s2.
Proof.
  induction s1 as [|c s1 IH]; intros a s2; [done|]. change (String c s1 +:+ s2)%string with (String c (s1 +:+ s2)).
  cbn [parse_digits]. destruct (digit_value c); [|done]. cbn. apply IH.
Qed.
Lemma parse_zeros n s : parse_digits 0 (repeat_char n "0" +:+ s) = parse_digits 0 s.
Proof. induction n as [|n IH]; [done|]. exact IH. Qed.
Lemma print_digits_parse fuel : ∀ n acc, 0 <= n < 10 ^ Z.of_nat fuel → parse_digits 0 (print_digits fuel n acc) = parse_digits n acc.
Proof.
  induction fuel as [|fuel IH]; intros n acc Hn; cbn [print_digits]; [by replace n with 0 by (cbn in Hn; lia)|].
  rewrite Nat2Z.inj_succ, Z.pow_succ_r in Hn by lia. pose proof (Z.mod_pos_bound n 10). pose proof (Z.div_mod n 10).
  destruct (Z.ltb_spec n 10).
  - cbn [parse_digits]. rewrite digit_value_char by lia. cbn. by rewrite Z.mod_small by lia.
  - rewrite IH by (split; [apply Z.div_pos|apply Z.div_lt_upper_bound]; lia). cbn [parse_digits]. rewrite digit_value_char by lia.
    cbn [mbind option_bind]. f_equal. lia.
Qed.
Lemma print_digits_digits fuel : ∀ n acc, 0 <= n → digits acc = true → digits (print_digits fuel n acc) = true.
Proof.
  induction fuel as [|fuel IH]; intros n acc Hn Hacc; cbn [print_digits]; [done|].
  assert (digits (String (digit_char (n mod 10)) acc) = true) as Hd.
  { apply digits_cons. split; [|done]. rewrite digit_value_char by (apply Z.mod_pos_bound; lia). by eexists. }
  destruct (n <? 10); [done|]. apply IH; [apply Z.div_pos; lia|done].
Qed.
Lemma MarshalText_digits n : 0 <= n → digits (MarshalText n) = true.
Proof. intros Hn. by apply print_digits_digits. Qed.
Lemma MarshalText_parse n : 0 <= n → parse_digits 0 (MarshalText n) = Some n.
Proof.
  intros Hn. unfold MarshalText. rewrite print_digits_parse; [done|]. split; [done|]. pose proof (Z.log2_nonneg n).
  rewrite Z2Nat.id by lia. apply Z.lt_le_trans with (2 ^ (Z.log2 n + 1)); [|apply Z.pow_le_mono_l; lia].
  destruct (decide (n = 0)) as [->|]; [done|]. apply Z.log2_spec. lia.
Qed.

Lemma SetString_digits s : digits s = true → s ≠ EmptyString → SetString s = parse_digits 0 s.
Proof. destruct s as [|c s]; [done|]. intros [Hc _]%digits_cons _. apply digit_not in Hc as (_ & H1 & H2). cbn [SetString]. by rewrite H1, H2. Qed.
Lemma split_point_digits s : digits s = true → split_point s = [s].
Proof.
  induction s as [|c s IH]; [done|]. intros [Hc Hs]%digits_cons. apply digit_not in Hc as (H & _). cbn [split_point]. rewrite H.
  by rewrite IH.
Qed.
Lemma split_point_two s1 s2 : digits s1 = true → digits s2 = true → split_point (s1 +:+ "." +:+ s2) = [s1; s2].
Proof.
  intros H1 H2. induction s1 as [|c s1 IH].
  { change (EmptyString +:+ "." +:+ s2)%string with (String "." s2). cbn [split_point]. rewrite Ascii.eqb_refl. by rewrite split_point_digits. }
  change (String c s1 +:+ "." +:+ s2)%string with (String c (s1 +:+ "." +:+ s2)). apply digits_cons in H1 as [Hc H1].
  apply digit_not in Hc as (H & _). cbn [split_point]. by rewrite H, IH.
Qed.
Lemma length_zeros n : String.length (repeat_char n "0") = n.
Proof. induction n as [|n IH]; [done|]. cbn. by rewrite IH. Qed.
Lemma string_length_app (s1 s2 : string) : String.length (s1 +:+ s2) = (String.length s1 + String.length s2)%nat.
Proof. induction s1 as [|c s1 IH]; [done|]. exact (f_equal S IH). Qed.
Lemma substring_all s : ∀ m, String.length s = m → String.substring 0 m s = s.
Proof. induction s as [|c s IH]; intros m <-; [done|]. cbn. f_equal. by apply IH. Qed.
Lemma substring_split s : ∀ n m, String.length s = (n + m)%nat →
  (String.substring 0 n s +:+ String.substring n m s)%string = s ∧ String.length (String.substring 0 n s) = n ∧ String.length (String.substring n m s) = m.
Proof.
  induction s as [|c s IH]; intros n m Hl.
  - destruct n, m; done.
  - destruct n as [|n].
    + cbn [plus] in Hl. rewrite (substring_all _ m Hl). by destruct m.
    + injection Hl as Hl. destruct (IH n m Hl) as (H1 & H2 & H3). split; [exact (f_equal (String c) H1)|]. split; [exact (f_equal S H2)|done].
Qed.
Lemma string_app_nil (s : string) : (s +:+ "")%string = s.
Proof. induction s as [|c s IH]; [done|]. exact (f_equal (String c) IH). Qed.

(** What is printed for a number that is not negative: the two parts. *)
Lemma Dec_String_parts n : 0 <= n → ∃ whole decimals, Dec_String n = (whole +:+ "." +:+ decimals)%string ∧
  digits whole = true ∧ digits decimals = true ∧ String.length decimals = 18%nat ∧ whole ≠ EmptyString ∧ parse_digits 0 (whole +:+ decimals) = Some n.
Proof.
  intros Hn. unfold Dec_String, Dec_IsNegative. assert ((Z.sgn n =? -1) = false) as -> by (apply Z.eqb_neq; lia).
  pose proof (MarshalText_digits n Hn) as Hd. pose proof (MarshalText_parse n Hn) as Hp.
  change (Z.to_nat LegacyPrecision) with 18%nat. destruct (Nat.leb_spec (String.length (MarshalText n)) 18) as [Hle|Hlt].
  - exists "0", (repeat_char (18 - String.length (MarshalText n)) "0" +:+ MarshalText n)%string. split; [done|]. split; [done|].
    split; [apply digits_app; split; [apply digits_zeros|done]|]. split; [rewrite string_length_app, length_zeros; lia|]. split; [done|].
    exact (eq_trans (parse_zeros (S (18 - String.length (MarshalText n))) (MarshalText n)) Hp).
  - set (p := (String.length (MarshalText n) - 18)%nat).
    destruct (substring_split (MarshalText n) p 18) as (E & L1 & L2); [lia|].
    exists (String.substring 0 p (MarshalText n)), (String.substring p 18 (MarshalText n)). split; [done|].
    rewrite <- E in Hd. apply digits_app in Hd as [Hd1 Hd2]. rewrite E. do 3 (split; [done|]). split; [|done].
    intros E0. rewrite E0 in L1. cbn in L1. lia.
Qed.
Lemma Dec_String_neg d : d < 0 → Dec_String d = ("-" +:+ Dec_String (- d))%string.
Proof.
  intros Hd. unfold Dec_String, Dec_IsNegative. assert ((Z.sgn d =? -1) = true) as -> by (apply Z.eqb_eq; lia).
  assert ((Z.sgn (- d) =? -1) = false) as -> by (apply Z.eqb_neq; lia). done.
Qed.
Lemma dec_of_unsigned_parts neg c whole decimals n : digits (String c whole) = true → digits decimals = true →
  String.length decimals = 18%nat → parse_digits 0 (String c whole +:+ decimals) = Some n →
  dec_of_unsigned neg (String c (whole +:+ "." +:+ decimals)) =
    if Dec_IsInValidRange (if neg then - n else n) then Ok (if neg then - n else n) else Err ErrLegacyInvalidDecimalStr.
Proof.
  intros Hw Hd Hl Hp. unfold dec_of_unsigned. change (str_eq (String c (whole +:+ "." +:+ decimals)) "") with false.
  change (String c (whole +:+ "." +:+ decimals)) with (String c whole +:+ "." +:+ decimals)%string.
  rewrite split_point_two by done. rewrite Hl. change (if (18 =? 0)%nat || (String.length (String c whole) =? 0)%nat then ?a else ?b) with b.
  unfold dec_of_digits. change (LegacyPrecision <? Z.of_nat 18) with false. cbv beta iota.
  change (repeat_char (Z.to_nat LegacyPrecision - 18) "0") with ""%string. rewrite string_app_nil, SetString_digits, Hp by (done || by apply digits_app).
  done.
Qed.

(** C40. Parsing what [String] prints of a decimal in the valid range gives the
    decimal back. *)
Theorem Dec_String_roundtrip d : Dec_IsInValidRange d = true → LegacyNewDecFromStr (Dec_String d) = Ok d.
Proof.
  intros Hr. destruct (Dec_String_parts (Z.abs d)) as (whole & decimals & E & Hw & Hd & Hl & Hne & Hp); [lia|].
  destruct whole as [|c whole]; [done|]. pose proof (dec_of_unsigned_parts (d <? 0) c whole decimals _ Hw Hd Hl Hp) as Hparse.
  apply digits_cons in Hw as [Hc _]. apply digit_not in Hc as (_ & Hminus & _).
  change (String c whole +:+ "." +:+ decimals)%string with (String c (whole +:+ "." +:+ decimals)) in E. destruct (Z.ltb_spec d 0) as [Hneg|Hpos].
  - rewrite Z.abs_neq, Z.opp_involutive, Hr in Hparse by lia. rewrite Dec_String_neg by done. rewrite <- (Z.abs_neq d), E by lia. exact Hparse.
  - rewrite Z.abs_eq, Hr in Hparse by lia. rewrite Z.abs_eq in E by lia. rewrite E. unfold LegacyNewDecFromStr. by rewrite Hminus.
Qed.
Lemma Dec_String_roundtrip_witness :
  LegacyNewDecFromStr "-0.005000000000000000" = Ok (- 5 * 10 ^ 15).
Proof. exact (Dec_String_roundtrip (- 5 * 10 ^ 15) eq_refl). Defined.
