(* ===== verification/Coin.v ===== *)
(** * Coins: types/coin.go and types/mapcoins.go

    A [Coin] is a denomination with an integer amount; [Coins] is a slice of
    them, meant to be sorted by denomination without duplicates or zeros.  The
    denomination rule can be replaced by the application
    ([SetCoinDenomRegex]), so it is a parameter with the shipped rule as its
    default. *)
From S2P Require Import Prelude MathInt.

(** The package state of types/coin.go: the custom denomination regexp, nil
    unless [SetCoinDenomRegex] was called. *)
Class CoinConfig := {
  coin_unicode :: UnicodeTables;
  reDnm : option (string → bool);
}.

Record Coin := mkCoin { Denom : string; Amount : Z }.
Abbreviation Coins := (list Coin).

#[global] Instance Coin_eq_dec : EqDecision Coin.
Proof. solve_decision. Defined.

Section CoinOps.
Context {cfg : CoinConfig}.

(** ** Denominations *)

Definition isValidRune (r : Z) : bool :=
  unicode_IsLetter r || unicode_IsDigit r
  || (r =? 0x2F) || (r =? 0x3A) || (r =? 0x2E) || (r =? 0x5F) || (r =? 0x2D).

Definition MatchDenom (s : string) : bool :=
  let bytes := string_bytes s in
  let length := Z.of_nat (length bytes) in
  if (length <? 3) || (128 <? length) then false
  else match bytes with
       | [] => false
       | b0 :: rest =>
           if negb (unicode_IsLetter b0) then false
           else forallb isValidRune (utf8_runes rest)
       end.

Definition denom_valid (denom : string) : bool :=
  match reDnm with
  | None => MatchDenom denom
  | Some re => re denom
  end.
Definition ValidateDenom (denom : string) : outcome unit :=
  if negb (denom_valid denom) then Err "invalid denom" else Ok tt.
Definition mustValidateDenom (denom : string) : outcome unit := must (ValidateDenom denom).

(** ** Coin *)

Definition Coin_IsZero (coin : Coin) : bool := Int_IsZero (Amount coin).
Definition Coin_IsPositive (coin : Coin) : bool := Int_Sign (Amount coin) =? 1.
Definition Coin_IsNegative (coin : Coin) : bool := Int_Sign (Amount coin) =? -1.

(** Amounts of the model are initialised, so the nil test of the source
    cannot succeed and has no counterpart. *)
Definition Coin_Validate (coin : Coin) : outcome unit :=
  _ ← ValidateDenom (Denom coin);
  guard_err (Int_IsNegative (Amount coin)) "negative coin amount".
Definition Coin_IsValid (coin : Coin) : bool := is_ok (Coin_Validate coin).

Definition NewCoin (denom : string) (amount : Z) : outcome Coin :=
  let coin := mkCoin denom amount in
  _ ← must (Coin_Validate coin); Ok coin.
Definition NewInt64Coin (denom : string) (amount : Z) : outcome Coin := NewCoin denom amount.

Definition same_denom (coin other : Coin) : outcome unit :=
  guard_panic (negb (str_eq (Denom coin) (Denom other))) "invalid coin denominations".
Definition Coin_IsGT (coin other : Coin) : outcome bool :=
  _ ← same_denom coin other; Ok (Int_GT (Amount coin) (Amount other)).
Definition Coin_IsGTE (coin other : Coin) : outcome bool :=
  _ ← same_denom coin other; Ok (negb (Int_LT (Amount coin) (Amount other))).
Definition Coin_IsLT (coin other : Coin) : outcome bool :=
  _ ← same_denom coin other; Ok (Int_LT (Amount coin) (Amount other)).
Definition Coin_IsLTE (coin other : Coin) : outcome bool :=
  _ ← same_denom coin other; Ok (negb (Int_GT (Amount coin) (Amount other))).
Definition Coin_Equal (coin other : Coin) : bool :=
  if negb (str_eq (Denom coin) (Denom other)) then false
  else if negb (Int_Equal (Amount coin) (Amount other)) then false else true.

Definition Coin_Add (coin coinB : Coin) : outcome Coin :=
  _ ← same_denom coin coinB;
  amt ← Int_Add (Amount coin) (Amount coinB); Ok (mkCoin (Denom coin) amt).
Definition Coin_AddAmount (coin : Coin) (amount : Z) : outcome Coin :=
  amt ← Int_Add (Amount coin) amount; Ok (mkCoin (Denom coin) amt).
Definition Coin_SafeSub (coin coinB : Coin) : outcome Coin :=
  _ ← guard_err (negb (str_eq (Denom coin) (Denom coinB))) "invalid coin denoms";
  amt ← Int_Sub (Amount coin) (Amount coinB);
  let res := mkCoin (Denom coin) amt in
  _ ← guard_err (Coin_IsNegative res) "negative coin amount"; Ok res.
Definition Coin_Sub (coin coinB : Coin) : outcome Coin := must (Coin_SafeSub coin coinB).
Definition Coin_SubAmount (coin : Coin) (amount : Z) : outcome Coin :=
  amt ← Int_Sub (Amount coin) amount;
  let res := mkCoin (Denom coin) amt in
  _ ← guard_panic (Coin_IsNegative res) "negative coin amount"; Ok res.

(** ** Coins: sorting and validation *)

(** [sort.Sort] by denomination. *)
Definition denom_le (c1 c2 : Coin) : Prop := String.le (Denom c1) (Denom c2).
#[global] Instance denom_le_dec c1 c2 : Decision (denom_le c1 c2).
Proof. unfold denom_le. apply _. Defined.

Definition Coins_Sort (coins : Coins) : Coins :=
  if (1 <? length coins)%nat then merge_sort denom_le coins else coins.

Definition removeZeroCoins (coins : Coins) : Coins :=
  List.filter (λ coin, negb (Coin_IsZero coin)) coins.
Definition sanitizeCoins (coins : Coins) : Coins :=
  let newCoins := removeZeroCoins coins in
  if (length newCoins =? 0)%nat then [] else Coins_Sort newCoins.

Definition validate_single (coin : Coin) : outcome unit :=
  _ ← ValidateDenom (Denom coin);
  guard_err (negb (Coin_IsPositive coin)) "coin amount is not positive".

Fixpoint Coins_Validate_loop (lowDenom : string) (coins : Coins) : outcome unit :=
  match coins with
  | [] => Ok tt
  | coin :: coins' =>
      _ ← ValidateDenom (Denom coin);
      _ ← guard_err (str_lt (Denom coin) lowDenom) "denomination is not sorted";
      _ ← guard_err (str_eq (Denom coin) lowDenom) "duplicate denomination";
      _ ← guard_err (negb (Coin_IsPositive coin)) "coin amount is not positive";
      Coins_Validate_loop (Denom coin) coins'
  end.

Definition Coins_Validate (coins : Coins) : outcome unit :=
  match coins with
  | [] => Ok tt
  | [coin] => validate_single coin
  | coin :: coins' =>
      _ ← validate_single coin;
      Coins_Validate_loop (Denom coin) coins'
  end.
Definition Coins_IsValid (coins : Coins) : bool := is_ok (Coins_Validate coins).

Definition NewCoins (coins : Coins) : outcome Coins :=
  let newCoins := sanitizeCoins coins in
  _ ← must (Coins_Validate newCoins); Ok newCoins.

Fixpoint Coins_IsSorted (coins : Coins) : bool :=
  match coins with
  | c1 :: ((c2 :: _) as coins') =>
      if str_lt (Denom c2) (Denom c1) then false else Coins_IsSorted coins'
  | _ => true
  end.

Definition Coins_Denoms (coins : Coins) : list string := map Denom coins.

(** ** Coins: addition and subtraction *)

(** The [uniqCoins] map after one more coin. *)
Definition uniq_add (uniqCoins : gmap string Coin) (c : Coin) : outcome (gmap string Coin) :=
  match uniqCoins !! Denom c with
  | Some uc => uc' ← Coin_Add uc c; Ok (<[Denom c := uc']> uniqCoins)
  | None => Ok (<[Denom c := c]> uniqCoins)
  end.

(** The loop over [uniqCoins], in the order the runtime happens to iterate. *)
Definition coalesce (entries : list (string * Coin)) : Coins :=
  flat_map (λ '(denom, c), if Coin_IsZero c then [] else [mkCoin denom (Amount c)]) entries.

Definition Coins_safeAdd (coins coinsB : Coins) : outcome Coins :=
  _ ← guard_panic (negb (Coins_IsSorted coins)) "Coins (self) must be sorted";
  _ ← guard_panic (negb (Coins_IsSorted coinsB)) "Wrong argument: coins must be sorted";
  uniqCoins ← foldM uniq_add ∅ coins;
  uniqCoins ← foldM uniq_add uniqCoins coinsB;
  Ok (Coins_Sort (coalesce (map_to_list uniqCoins))).

Definition Coins_Add (coins coinsB : Coins) : outcome Coins := Coins_safeAdd coins coinsB.

Definition Coins_negative (coins : Coins) : Coins :=
  map (λ coin, mkCoin (Denom coin) (Int_Neg (Amount coin))) coins.
Definition Coins_IsAnyNegative (coins : Coins) : bool := existsb Coin_IsNegative coins.

Definition Coins_SafeSub (coins coinsB : Coins) : outcome (Coins * bool) :=
  newB ← NewCoins coinsB;
  diff ← Coins_safeAdd coins (Coins_negative newB);
  Ok (diff, Coins_IsAnyNegative diff).
Definition Coins_Sub (coins coinsB : Coins) : outcome Coins :=
  '(diff, hasNeg) ← Coins_SafeSub coins coinsB;
  _ ← guard_panic hasNeg "negative coin amount"; Ok diff.

Definition Coins_SafeMulInt (coins : Coins) (x : Z) : outcome (Coins * bool) :=
  if Int_IsZero x then Ok ([], false)
  else res ← traverse (λ coin, amt ← Int_Mul (Amount coin) x; NewCoin (Denom coin) amt) coins;
       Ok (res, true).
Definition Coins_MulInt (coins : Coins) (x : Z) : outcome Coins :=
  '(res, ok) ← Coins_SafeMulInt coins x;
  _ ← guard_panic (negb ok) "multiplying by zero is an invalid operation on coins"; Ok res.
Definition Coins_SafeQuoInt (coins : Coins) (x : Z) : outcome (Coins * bool) :=
  if Int_IsZero x then Ok ([], false)
  else res ← traverse (λ coin, amt ← Int_Quo (Amount coin) x; NewCoin (Denom coin) amt) coins;
       Ok (res, true).
Definition Coins_QuoInt (coins : Coins) (x : Z) : outcome Coins :=
  '(res, ok) ← Coins_SafeQuoInt coins x;
  _ ← guard_panic (negb ok) "dividing by zero is an invalid operation on coins"; Ok res.

(** ** Coins: pointwise maximum and minimum *)

(** The two-index merge of [Max], with the two loops that drain the rest. *)
Fixpoint Max_loop (coins : Coins) : Coins → Coins :=
  fix go (coinsB : Coins) : Coins :=
    match coins, coinsB with
    | [], _ => coinsB
    | _, [] => coins
    | coinA :: coins', coinB :: coinsB' =>
        match String.compare (Denom coinA) (Denom coinB) with
        | Lt => coinA :: Max_loop coins' coinsB
        | Eq => (if Int_GT (Amount coinB) (Amount coinA) then coinB else coinA)
                :: Max_loop coins' coinsB'
        | Gt => coinB :: go coinsB'
        end
    end.
Definition Coins_Max (coins coinsB : Coins) : outcome Coins := NewCoins (Max_loop coins coinsB).

Fixpoint Min_loop (coins : Coins) : Coins → Coins :=
  fix go (coinsB : Coins) : Coins :=
    match coins, coinsB with
    | [], _ => []
    | _, [] => []
    | coinA :: coins', coinB :: coinsB' =>
        match String.compare (Denom coinA) (Denom coinB) with
        | Lt => Min_loop coins' coinsB
        | Eq => let minCoin := if Int_LT (Amount coinB) (Amount coinA) then coinB else coinA in
                if negb (Coin_IsZero minCoin) then minCoin :: Min_loop coins' coinsB'
                else Min_loop coins' coinsB'
        | Gt => go coinsB'
        end
    end.
Definition Coins_Min (coins coinsB : Coins) : outcome Coins := NewCoins (Min_loop coins coinsB).

(** ** Coins: lookup *)

(** Binary search; each call is on a shorter slice, so the length is enough
    fuel ([Find_fuel_enough]). *)
Fixpoint Find_fuel (fuel : nat) (coins : Coins) (denom : string) : option Coin :=
  match fuel with
  | O => None
  | S fuel' =>
      match coins with
      | [] => None
      | [coin] => if str_eq (Denom coin) denom then Some coin else None
      | _ =>
          let midIdx := (length coins / 2)%nat in
          match coins !! midIdx with
          | None => None
          | Some coin =>
              match String.compare denom (Denom coin) with
              | Lt => Find_fuel fuel' (take midIdx coins) denom
              | Eq => Some coin
              | Gt => Find_fuel fuel' (drop (midIdx + 1) coins) denom
              end
          end
      end
  end.
Definition Coins_Find (coins : Coins) (denom : string) : option Coin :=
  Find_fuel (length coins) coins denom.

Definition Coins_AmountOfNoDenomValidation (coins : Coins) (denom : string) : Z :=
  match Coins_Find coins denom with Some c => Amount c | None => ZeroInt end.
Definition Coins_AmountOf (coins : Coins) (denom : string) : outcome Z :=
  _ ← mustValidateDenom denom; Ok (Coins_AmountOfNoDenomValidation coins denom).

(** ** Coins: comparisons *)

Definition Coins_DenomsSubsetOf (coins coinsB : Coins) : outcome bool :=
  if (length coinsB <? length coins)%nat then Ok false
  else forallM (λ coin, amt ← Coins_AmountOf coinsB (Denom coin); Ok (negb (Int_IsZero amt))) coins.

Definition Coins_IsAllGT (coins coinsB : Coins) : outcome bool :=
  if (length coins =? 0)%nat then Ok false
  else if (length coinsB =? 0)%nat then Ok true
  else sub ← Coins_DenomsSubsetOf coinsB coins;
       if negb sub then Ok false
       else forallM (λ coinB, amountA ← Coins_AmountOf coins (Denom coinB);
                              Ok (Int_GT amountA (Amount coinB))) coinsB.
Definition Coins_IsAllGTE (coins coinsB : Coins) : outcome bool :=
  if (length coinsB =? 0)%nat then Ok true
  else if (length coins =? 0)%nat then Ok false
  else forallM (λ coinB, amt ← Coins_AmountOf coins (Denom coinB);
                         Ok (negb (Int_GT (Amount coinB) amt))) coinsB.
Definition Coins_IsAllLT (coins coinsB : Coins) : outcome bool := Coins_IsAllGT coinsB coins.
Definition Coins_IsAllLTE (coins coinsB : Coins) : outcome bool := Coins_IsAllGTE coinsB coins.

Definition Coins_IsAnyGT (coins coinsB : Coins) : outcome bool :=
  if (length coinsB =? 0)%nat then Ok false
  else existsM (λ coin, amt ← Coins_AmountOf coinsB (Denom coin);
                        Ok (Int_GT (Amount coin) amt && negb (Int_IsZero amt))) coins.
Definition Coins_IsAnyGTE (coins coinsB : Coins) : outcome bool :=
  if (length coinsB =? 0)%nat then Ok false
  else existsM (λ coin, amt ← Coins_AmountOf coinsB (Denom coin);
                        Ok (Int_GTE (Amount coin) amt && negb (Int_IsZero amt))) coins.

Definition Coins_IsZero (coins : Coins) : bool := forallb Coin_IsZero coins.
Definition Coins_Empty (coins : Coins) : bool := (length coins =? 0)%nat.
Definition Coins_IsAllPositive (coins : Coins) : bool :=
  if (length coins =? 0)%nat then false else forallb Coin_IsPositive coins.

Fixpoint Equal_loop (coins coinsB : Coins) : bool :=
  match coins, coinsB with
  | c :: coins', cB :: coinsB' => if negb (Coin_Equal c cB) then false else Equal_loop coins' coinsB'
  | _, _ => true
  end.
Definition Coins_Equal (coins coinsB : Coins) : bool :=
  if negb (length coins =? length coinsB)%nat then false
  else Equal_loop (Coins_Sort coins) (Coins_Sort coinsB).

(** ** types/mapcoins.go *)

Definition MapCoins_add1 (m : gmap string Z) (coin : Coin) : outcome (gmap string Z) :=
  match m !! Denom coin with
  | Some existAmt => amt ← Int_Add existAmt (Amount coin); Ok (<[Denom coin := amt]> m)
  | None => Ok (<[Denom coin := Amount coin]> m)
  end.
Definition MapCoins_Add (m : gmap string Z) (coins : Coins) : outcome (gmap string Z) :=
  foldM MapCoins_add1 m coins.
Definition NewMapCoins (coins : Coins) : outcome (gmap string Z) := MapCoins_Add ∅ coins.

Definition MapCoins_ToCoins (m : gmap string Z) : outcome Coins :=
  if (size m =? 0)%nat then Ok []
  else coins ← foldM (λ acc '(denom, amount),
                        if Int_IsZero amount then Ok acc
                        else c ← NewCoin denom amount; Ok (acc ++ [c])) [] (map_to_list m);
       if (length coins =? 0)%nat then Ok [] else Ok (Coins_Sort coins).
End CoinOps.

(** The configuration of a program that never calls [SetCoinDenomRegex], with
    empty range tables above Latin-1. *)
Definition default_tables : UnicodeTables :=
  {| table_letter := λ _, false; table_digit := λ _, false |}.
Definition default_config : CoinConfig := {| coin_unicode := default_tables; reDnm := None |}.

#[global] Arguments removeZeroCoins : simpl never.
