(* ===== verification/CoinFacts.v ===== *)
(** * Theory of coin sets

    Reads a coin set as a function from denominations to amounts and proves
    that the operations of Coin.v act pointwise on it, that sets accepted by
    [Validate] are canonical for that reading, and that none of this depends
    on the iteration order of Go maps. *)
From S2P Require Import Prelude MathInt Coin.

Section CoinFacts.
Context {cfg : CoinConfig}.

(** ** The denotation of a coin set *)

Fixpoint amount (cs : Coins) (d : string) : Z :=
  match cs with
  | [] => 0
  | c :: cs' => (if decide (Denom c = d) then Amount c else 0) + amount cs' d
  end.

Definition denoms_sorted (cs : Coins) : Prop := StronglySorted slt (map Denom cs).
Definition no_zeros (cs : Coins) : Prop := Forall (λ c, Amount c ≠ 0) cs.
Definition in_int_range (cs : Coins) : Prop := Forall (λ c, int_range (Amount c)) cs.
Definition valid_coin (c : Coin) : Prop := denom_valid (Denom c) = true ∧ 0 < Amount c.

(** What [Coins.Validate] promises: valid denominations in strictly increasing
    order, all amounts positive. *)
Definition valid_coins (cs : Coins) : Prop := Forall valid_coin cs ∧ denoms_sorted cs.

Lemma amount_app cs1 cs2 d : amount (cs1 ++ cs2) d = amount cs1 d + amount cs2 d.
Proof. induction cs1 as [|c cs1 IH]; cbn; [done|]. rewrite IH. lia. Qed.

#[global] Instance amount_perm d : Proper ((≡ₚ) ==> eq) (λ cs, amount cs d).
Proof. intros cs1 cs2 H. induction H; cbn in *; lia. Qed.

Lemma amount_perm_eq cs1 cs2 d : cs1 ≡ₚ cs2 → amount cs1 d = amount cs2 d.
Proof. apply amount_perm. Qed.

Lemma amount_not_in cs d : d ∉ map Denom cs → amount cs d = 0.
Proof.
  induction cs as [|c cs IH]; cbn; [done|]. rewrite not_elem_of_cons. intros [Hne Hni].
  rewrite decide_False by done. rewrite IH by done. done.
Qed.

Lemma amount_elem cs c : NoDup (map Denom cs) → c ∈ cs → amount cs (Denom c) = Amount c.
Proof.
  induction cs as [|c0 cs IH]; cbn; [by intros _ ?%not_elem_of_nil|].
  rewrite NoDup_cons, elem_of_cons. intros [Hni Hnd] [->|Hin].
  - rewrite decide_True, amount_not_in by done. lia.
  - rewrite decide_False, IH; [lia|done|done|].
    intros Heq. apply Hni. rewrite Heq. apply list_elem_of_fmap. eauto.
Qed.

Lemma amount_nonneg cs d : Forall (λ c, 0 <= Amount c) cs → 0 <= amount cs d.
Proof. induction 1; cbn; [done|]. case_decide; lia. Qed.

Lemma amount_elem_le cs c :
  Forall (λ c, 0 <= Amount c) cs → c ∈ cs → Amount c <= amount cs (Denom c).
Proof.
  induction 1 as [|c0 cs Hc Hcs IH]; cbn; [by intros ?%not_elem_of_nil|].
  rewrite elem_of_cons. intros [->|Hin].
  - rewrite decide_True by done. pose proof (amount_nonneg cs (Denom c0) Hcs). lia.
  - specialize (IH Hin). case_decide; lia.
Qed.

Lemma denoms_sorted_nodup cs : denoms_sorted cs → NoDup (map Denom cs).
Proof.
  unfold denoms_sorted. induction (map Denom cs) as [|d ds IH]; intros Hs; [constructor|].
  apply StronglySorted_cons in Hs as [Hall Hs]. constructor; [|auto].
  intros Hin. rewrite Forall_forall in Hall. by apply (slt_irrefl d), Hall.
Qed.

Lemma valid_coins_nonneg cs : valid_coins cs → Forall (λ c, 0 <= Amount c) cs.
Proof. intros [H _]. eapply Forall_impl; [exact H|]. intros ? [_ ?]. cbn. lia. Qed.
Lemma valid_coins_no_zeros cs : valid_coins cs → no_zeros cs.
Proof. intros [H _]. eapply Forall_impl; [exact H|]. intros ? [_ ?]. cbn. lia. Qed.
Lemma valid_coins_amount_nonneg cs d : valid_coins cs → 0 <= amount cs d.
Proof. intros. by apply amount_nonneg, valid_coins_nonneg. Qed.
Lemma valid_coins_cons c cs :
  valid_coins (c :: cs) ↔ valid_coin c ∧ Forall (slt (Denom c)) (map Denom cs) ∧ valid_coins cs.
Proof.
  unfold valid_coins, denoms_sorted. cbn. rewrite Forall_cons, StronglySorted_cons. naive_solver.
Qed.
Lemma valid_coins_nil : valid_coins [].
Proof. split; constructor. Qed.

(** Sets in canonical form are determined by their amounts. *)
Lemma canonical_elem cs c :
  NoDup (map Denom cs) → no_zeros cs →
  c ∈ cs ↔ Amount c ≠ 0 ∧ amount cs (Denom c) = Amount c.
Proof.
  intros Hnd Hnz. split.
  - intros Hin. split; [|by apply amount_elem]. by eapply Forall_forall in Hin; [|exact Hnz].
  - intros [Hc Ha]. destruct (decide (Denom c ∈ map Denom cs)) as [Hin|Hni].
    + apply list_elem_of_fmap in Hin as (c' & Hd & Hin).
      assert (c = c') as ->; [|done].
      pose proof (amount_elem cs c' Hnd Hin) as Ha'. rewrite <- Hd, Ha in Ha'.
      destruct c, c'; cbn in *; congruence.
    + rewrite amount_not_in in Ha by done. congruence.
Qed.

Lemma denoms_sorted_coins cs : denoms_sorted cs ↔ StronglySorted (λ c1 c2, slt (Denom c1) (Denom c2)) cs.
Proof.
  unfold denoms_sorted. induction cs as [|c cs IH]; cbn.
  - split; constructor.
  - rewrite !StronglySorted_cons, Forall_map, IH. done.
Qed.

Lemma canonical_ext cs1 cs2 :
  denoms_sorted cs1 → no_zeros cs1 → denoms_sorted cs2 → no_zeros cs2 →
  (∀ d, amount cs1 d = amount cs2 d) → cs1 = cs2.
Proof.
  intros Hs1 Hz1 Hs2 Hz2 Heq.
  pose proof (denoms_sorted_nodup _ Hs1) as Hn1. pose proof (denoms_sorted_nodup _ Hs2) as Hn2.
  assert (cs1 ≡ₚ cs2) as Hp.
  { apply NoDup_Permutation; [by eapply NoDup_fmap_1|by eapply NoDup_fmap_1|].
    intros c. rewrite !canonical_elem by done. by rewrite Heq. }
  apply denoms_sorted_coins in Hs1, Hs2.
  eapply StronglySorted_unique_strong; [|exact Hs1|exact Hs2|exact Hp].
  intros c1 c2 _ _ H1 H2. exfalso. apply (slt_irrefl (Denom c1)). etransitivity; [exact H1|exact H2].
Qed.

(** ** Validation *)

Lemma ValidateDenom_Ok d r : ValidateDenom d = Ok r ↔ denom_valid d = true.
Proof. unfold ValidateDenom. destruct r, (denom_valid d); cbn; naive_solver. Qed.

Lemma Coin_IsPositive_ltb c : Coin_IsPositive c = (0 <? Amount c).
Proof. apply Int_IsPositive_ltb. Qed.
Lemma Coin_IsNegative_ltb c : Coin_IsNegative c = (Amount c <? 0).
Proof. apply Int_IsNegative_ltb. Qed.
Lemma Coin_IsZero_eqb c : Coin_IsZero c = (Amount c =? 0).
Proof. apply Int_IsZero_eqb. Qed.

Lemma validate_single_Ok c r : validate_single c = Ok r ↔ valid_coin c.
Proof.
  unfold validate_single, valid_coin. rewrite outcome_bind_Ok. setoid_rewrite ValidateDenom_Ok.
  setoid_rewrite guard_err_Ok. rewrite Coin_IsPositive_ltb.
  destruct (Z.ltb_spec 0 (Amount c)); cbn; naive_solver lia.
Qed.

Lemma Validate_loop_Ok cs : ∀ low r,
  Coins_Validate_loop low cs = Ok r ↔ Forall valid_coin cs ∧ StronglySorted slt (low :: map Denom cs).
Proof.
  induction cs as [|c cs IH]; intros low r; cbn [Coins_Validate_loop map].
  - destruct r. split; [|done]. intros _. repeat constructor.
  - split.
    + intros H. go_inv. apply IH in H as [Hv Hs].
      match goal with H : ValidateDenom _ = Ok _ |- _ => apply ValidateDenom_Ok in H end.
      rewrite Coin_IsPositive_ltb, str_eq_spec, str_lt_false in *.
      assert (slt low (Denom c)) as Hlt.
      { apply slt_le. split; [done|]. intros Heq. rewrite bool_decide_eq_false in *. congruence. }
      split; [constructor; [split; [done|lia]|done]|].
      apply StronglySorted_cons. split; [|done]. constructor; [done|].
      apply StronglySorted_cons in Hs as [Hs _]. eapply Forall_impl; [exact Hs|].
      intros d Hd. etransitivity; [exact Hlt|exact Hd].
    + intros [[[Hd Ha] Hv]%Forall_cons Hs].
      apply StronglySorted_cons in Hs as [[Hlt _]%Forall_cons Hs].
      unfold ValidateDenom. rewrite Hd. cbn.
      rewrite (proj2 (str_lt_false _ _)) by (by apply slt_le in Hlt as [? ?]). cbn.
      rewrite str_eq_spec, bool_decide_false by (by apply not_eq_sym, slt_ne). cbn.
      rewrite Coin_IsPositive_ltb, (proj2 (Z.ltb_lt _ _)) by done. cbn. by apply IH.
Qed.

Lemma Coins_Validate_Ok cs r : Coins_Validate cs = Ok r ↔ valid_coins cs.
Proof.
  unfold valid_coins, denoms_sorted. destruct cs as [|c [|c' cs]].
  - cbn. destruct r. naive_solver constructor.
  - cbn [Coins_Validate map]. rewrite validate_single_Ok.
    split; [intros ?; split; repeat constructor; apply H|by intros [[? _]%Forall_cons _]].
  - cbn [Coins_Validate]. rewrite outcome_bind_Ok, Forall_cons. split.
    + intros (u & ?%validate_single_Ok & [? ?]%Validate_loop_Ok). done.
    + intros [[? ?] ?]. exists tt. split; [by apply validate_single_Ok|by apply Validate_loop_Ok].
Qed.

Lemma Coins_IsValid_spec cs : Coins_IsValid cs = true ↔ valid_coins cs.
Proof.
  unfold Coins_IsValid, is_ok. rewrite <- (Coins_Validate_Ok cs tt).
  destruct (Coins_Validate cs) as [[]|e|p]; naive_solver.
Qed.

(** ** Sorting *)

#[global] Instance denom_le_trans : Transitive denom_le.
Proof. intros c1 c2 c3. unfold denom_le. apply transitivity. Qed.
#[global] Instance denom_le_total : Total denom_le.
Proof. intros c1 c2. unfold denom_le. apply (total String.le). Qed.

Lemma Coins_Sort_perm cs : Coins_Sort cs ≡ₚ cs.
Proof. unfold Coins_Sort. case_match; [apply merge_sort_Permutation|done]. Qed.

Lemma Coins_Sort_le cs : StronglySorted denom_le (Coins_Sort cs).
Proof.
  unfold Coins_Sort. destruct (Nat.ltb_spec 1 (length cs)) as [H|H].
  - apply StronglySorted_merge_sort; apply _.
  - destruct cs as [|c [|c' cs]]; [constructor|repeat constructor|cbn in H; lia].
Qed.

Lemma le_sorted_nodup cs :
  StronglySorted denom_le cs → NoDup (map Denom cs) → denoms_sorted cs.
Proof.
  intros Hs Hn. apply denoms_sorted_coins. induction cs as [|c cs IH]; [constructor|].
  apply StronglySorted_cons in Hs as [Hall Hs]. cbn in Hn. apply NoDup_cons in Hn as [Hni Hn].
  apply StronglySorted_cons. split; [|auto]. rewrite Forall_forall in *.
  intros c' Hc'. apply slt_le. split; [by apply Hall|]. intros Heq. apply Hni. rewrite Heq.
  apply list_elem_of_fmap. eauto.
Qed.

Lemma denom_le_sorted_le cs : denoms_sorted cs → StronglySorted denom_le cs.
Proof.
  intros Hs%denoms_sorted_coins. induction Hs as [|c cs Hs IH Hall]; constructor; [done|].
  eapply Forall_impl; [exact Hall|]. intros c' H. by apply slt_le in H as [? ?].
Qed.

(** Sorting a set of distinct denominations yields the one sorted list with
    these coins, whatever the input order. *)
Lemma Coins_Sort_nodup cs : NoDup (map Denom cs) → denoms_sorted (Coins_Sort cs).
Proof.
  intros Hn. apply le_sorted_nodup; [apply Coins_Sort_le|].
  by rewrite (fmap_Permutation Denom _ _ (Coins_Sort_perm cs)).
Qed.

Lemma Coins_Sort_unique cs1 cs2 :
  cs1 ≡ₚ cs2 → NoDup (map Denom cs1) → Coins_Sort cs1 = Coins_Sort cs2.
Proof.
  intros Hp Hn. assert (NoDup (map Denom cs2)) as Hn2.
  { by rewrite <- (fmap_Permutation Denom _ _ Hp). }
  pose proof (proj1 (denoms_sorted_coins _) (Coins_Sort_nodup _ Hn)) as H1.
  pose proof (proj1 (denoms_sorted_coins _) (Coins_Sort_nodup _ Hn2)) as H2.
  eapply StronglySorted_unique_strong; [|exact H1|exact H2|by rewrite !Coins_Sort_perm].
  intros c1 c2 _ _ L1 L2. exfalso. apply (slt_irrefl (Denom c1)). etransitivity; [exact L1|exact L2].
Qed.

Lemma Coins_Sort_id cs : denoms_sorted cs → Coins_Sort cs = cs.
Proof.
  intros Hs. pose proof (denoms_sorted_nodup _ Hs) as Hn.
  pose proof (proj1 (denoms_sorted_coins _) (Coins_Sort_nodup _ Hn)) as H1.
  apply denoms_sorted_coins in Hs.
  eapply StronglySorted_unique_strong; [|exact H1|exact Hs|apply Coins_Sort_perm].
  intros c1 c2 _ _ L1 L2. exfalso. apply (slt_irrefl (Denom c1)). etransitivity; [exact L1|exact L2].
Qed.

Lemma Coins_IsSorted_sorted cs : denoms_sorted cs → Coins_IsSorted cs = true.
Proof.
  induction cs as [|c [|c' cs] IH]; intros Hs; [done|done|].
  unfold denoms_sorted in Hs. cbn in Hs. apply StronglySorted_cons in Hs as [[H _]%Forall_cons Hs].
  cbn [Coins_IsSorted]. rewrite (proj2 (str_lt_false _ _)) by (by apply slt_le in H as [? ?]).
  by apply IH.
Qed.

(** ** Addition *)

(** The amount a map of coins holds for a denomination. *)
Definition map_amount (m : gmap string Coin) (d : string) : Z := from_option Amount 0 (m !! d).
(** Every coin is stored under its own denomination. *)
Definition keys_ok (m : gmap string Coin) : Prop := map_Forall (λ d c, Denom c = d) m.

Lemma Coin_Add_Ok c1 c2 r :
  Coin_Add c1 c2 = Ok r ↔
  Denom c1 = Denom c2 ∧ int_range (Amount c1 + Amount c2) ∧ r = mkCoin (Denom c1) (Amount c1 + Amount c2).
Proof.
  unfold Coin_Add, same_denom. rewrite str_eq_spec.
  case_bool_decide; cbn; [|naive_solver]. rewrite outcome_bind_Ok.
  setoid_rewrite Int_Add_Ok. naive_solver.
Qed.

Lemma uniq_add_Ok m c m' :
  keys_ok m → uniq_add m c = Ok m' →
  keys_ok m' ∧ ∀ d, map_amount m' d = map_amount m d + amount [c] d.
Proof.
  intros Hk H. unfold uniq_add in H. unfold map_amount. destruct (m !! Denom c) as [uc|] eqn:E.
  - go_inv. apply Coin_Add_Ok in H0 as (Hd & _ & ->). split.
    + apply map_Forall_insert_2; [|done]. cbn. done.
    + intros d. rewrite lookup_insert. cbn. case_decide as Hd'; [|lia].
      subst. rewrite E. cbn. lia.
  - go_inv. split.
    + by apply map_Forall_insert_2.
    + intros d. rewrite lookup_insert. cbn. case_decide as Hd'; [|lia].
      subst. rewrite E. cbn. lia.
Qed.

Lemma fold_uniq_Ok cs : ∀ m m',
  keys_ok m → foldM uniq_add m cs = Ok m' →
  keys_ok m' ∧ ∀ d, map_amount m' d = map_amount m d + amount cs d.
Proof.
  induction cs as [|c cs IH]; intros m m' Hk H; cbn [foldM] in H.
  - go_inv. split; [done|]. intros. cbn. lia.
  - go_inv. apply uniq_add_Ok in H0 as [Hk1 Ha1]; [|done].
    apply IH in H as [Hk2 Ha2]; [|done]. split; [done|].
    intros d. rewrite Ha2, Ha1. cbn. lia.
Qed.

Lemma fold_uniq_total cs : ∀ m,
  keys_ok m → NoDup (map Denom cs) →
  (∀ c, c ∈ cs → int_range (map_amount m (Denom c) + Amount c)) →
  ∃ m', foldM uniq_add m cs = Ok m'.
Proof.
  induction cs as [|c cs IH]; intros m Hk Hn Hr; cbn [foldM]; [eauto|].
  cbn in Hn. apply NoDup_cons in Hn as [Hni Hn].
  assert (∃ m1, uniq_add m c = Ok m1) as [m1 Hm1].
  { unfold uniq_add. destruct (m !! Denom c) as [uc|] eqn:E; [|eauto].
    specialize (Hr c ltac:(set_solver)). unfold map_amount in Hr. rewrite E in Hr. cbn in Hr.
    rewrite (proj2 (Coin_Add_Ok uc c (mkCoin (Denom uc) (Amount uc + Amount c)))); [cbn; eauto|].
    split; [by apply Hk in E|]. split; [exact Hr|reflexivity]. }
  rewrite Hm1. cbn. apply uniq_add_Ok in Hm1 as [Hk1 Ha1]; [|done]. apply IH; [done|done|].
  intros c' Hc'. rewrite Ha1. cbn. rewrite decide_False.
  - rewrite Z.add_0_r. apply Hr. set_solver.
  - intros Heq. apply Hni. rewrite Heq. apply list_elem_of_fmap. eauto.
Qed.

Lemma coalesce_cons d c entries :
  coalesce ((d, c) :: entries) =
  (if Coin_IsZero c then [] else [mkCoin d (Amount c)]) ++ coalesce entries.
Proof. reflexivity. Qed.

(** What is collected from the map: one non-zero coin per non-zero entry. *)
Lemma coalesce_denoms entries :
  map Denom (coalesce entries) = map fst (List.filter (λ '(d, c), negb (Coin_IsZero c)) entries).
Proof.
  induction entries as [|[d c] entries IH]; [done|]. cbn.
  destruct (Coin_IsZero c); cbn; [exact IH|f_equal; exact IH].
Qed.

Lemma coalesce_nodup entries : NoDup (map fst entries) → NoDup (map Denom (coalesce entries)).
Proof.
  rewrite coalesce_denoms. induction entries as [|[d c] entries IH]; [done|]. cbn.
  rewrite NoDup_cons. intros [Hni Hn]. destruct (negb (Coin_IsZero c)); cbn; [|auto].
  constructor; [|auto]. intros Hin. apply Hni.
  apply list_elem_of_fmap in Hin as ([d' c'] & Heq & Hin). cbn in Heq. subst.
  apply list_elem_of_In, filter_In in Hin as [Hin _].
  apply list_elem_of_fmap. exists (d', c'). by rewrite list_elem_of_In.
Qed.

Lemma coalesce_no_zeros entries : no_zeros (coalesce entries).
Proof.
  induction entries as [|[d c] entries IH]; [constructor|]. rewrite coalesce_cons, Coin_IsZero_eqb.
  destruct (Z.eqb_spec (Amount c) 0); [done|]. by constructor.
Qed.

Lemma coalesce_amount entries d :
  amount (coalesce entries) d = amount (map (λ '(k, c), mkCoin k (Amount c)) entries) d.
Proof.
  induction entries as [|[k c] entries IH]; [done|]. rewrite coalesce_cons, amount_app, IH. cbn.
  rewrite Coin_IsZero_eqb. destruct (Z.eqb_spec (Amount c) 0); cbn; case_decide; lia.
Qed.

Lemma coalesce_map_amount m d : amount (coalesce (map_to_list m)) d = map_amount m d.
Proof.
  rewrite coalesce_amount. unfold map_amount. pose proof (NoDup_fst_map_to_list m) as Hn.
  set (l := map (λ '(k, c), mkCoin k (Amount c)) (map_to_list m)).
  assert (map Denom l = map fst (map_to_list m)) as Hl.
  { unfold l. rewrite map_map. apply map_ext. by intros [? ?]. }
  destruct (m !! d) as [c|] eqn:E; cbn.
  - change d with (Denom (mkCoin d (Amount c))) at 1. change (Amount c) with (Amount (mkCoin d (Amount c))) at 2.
    apply amount_elem; [by rewrite Hl|]. unfold l. apply list_elem_of_fmap. exists (d, c).
    split; [done|]. by apply elem_of_map_to_list.
  - apply amount_not_in. rewrite Hl. intros Hin. apply list_elem_of_fmap in Hin as ([k c] & -> & Hin).
    apply elem_of_map_to_list in Hin. cbn in E. congruence.
Qed.

#[local] Instance coalesce_perm : Proper ((≡ₚ) ==> (≡ₚ)) coalesce.
Proof.
  intros l1 l2 H. induction H as [|[d c] l1 l2 H IH|[d1 c1] [d2 c2] l|l1 l2 l3 H1 IH1 H2 IH2];
    rewrite ?coalesce_cons.
  - done.
  - by rewrite IH.
  - rewrite !app_assoc. f_equiv. apply Permutation_app_comm.
  - by etransitivity.
Qed.

(** Strictly sorted and free of zero coins. *)
Definition canonical (cs : Coins) : Prop := denoms_sorted cs ∧ no_zeros cs.
(** Accepted by [Validate], with amounts an [Int] can hold. *)
Definition good_coins (cs : Coins) : Prop := valid_coins cs ∧ in_int_range cs.

Lemma canonical_eq cs1 cs2 :
  canonical cs1 → canonical cs2 → (∀ d, amount cs1 d = amount cs2 d) → cs1 = cs2.
Proof. intros [? ?] [? ?]. by apply canonical_ext. Qed.
Lemma valid_coins_canonical cs : valid_coins cs → canonical cs.
Proof. intros H. split; [apply H|by apply valid_coins_no_zeros]. Qed.
Lemma valid_coins_eq cs1 cs2 :
  valid_coins cs1 → valid_coins cs2 → (∀ d, amount cs1 d = amount cs2 d) → cs1 = cs2.
Proof. eauto using canonical_eq, valid_coins_canonical. Qed.

Lemma map_sort_canonical m : canonical (Coins_Sort (coalesce (map_to_list m))).
Proof.
  split.
  - apply Coins_Sort_nodup, coalesce_nodup, NoDup_fst_map_to_list.
  - unfold no_zeros. rewrite Coins_Sort_perm. apply coalesce_no_zeros.
Qed.

(** The result of collecting [uniqCoins] is the same for every order in which
    the runtime may walk the map. *)
Lemma coalesce_order_irrelevant m entries :
  entries ≡ₚ map_to_list m → Coins_Sort (coalesce entries) = Coins_Sort (coalesce (map_to_list m)).
Proof.
  intros Hp. symmetry. apply Coins_Sort_unique; [by rewrite Hp|].
  apply coalesce_nodup, NoDup_fst_map_to_list.
Qed.

Lemma keys_ok_empty : keys_ok ∅.
Proof. apply map_Forall_empty. Qed.

Lemma safeAdd_Ok a b r :
  Coins_safeAdd a b = Ok r → canonical r ∧ ∀ d, amount r d = amount a d + amount b d.
Proof.
  intros H. unfold Coins_safeAdd in H. go_inv.
  match goal with H : foldM _ ∅ _ = Ok _ |- _ => apply fold_uniq_Ok in H as [Hk1 Ha1]; [|apply keys_ok_empty] end.
  match goal with H : foldM _ _ _ = Ok _ |- _ => apply fold_uniq_Ok in H as [Hk2 Ha2]; [|done] end.
  split; [apply map_sort_canonical|]. intros d.
  rewrite (amount_perm_eq _ _ d (Coins_Sort_perm _)), coalesce_map_amount, Ha2, Ha1.
  unfold map_amount. rewrite lookup_empty. cbn. lia.
Qed.

Lemma safeAdd_total a b :
  denoms_sorted a → denoms_sorted b → in_int_range a →
  (∀ c, c ∈ b → int_range (amount a (Denom c) + Amount c)) →
  ∃ r, Coins_safeAdd a b = Ok r.
Proof.
  intros Ha Hb Hr1 Hr2. unfold Coins_safeAdd.
  rewrite !Coins_IsSorted_sorted by done. cbn.
  destruct (fold_uniq_total a ∅) as [m1 Hm1].
  - apply keys_ok_empty.
  - by apply denoms_sorted_nodup.
  - intros c Hc. unfold map_amount. rewrite lookup_empty. cbn. unfold in_int_range in Hr1.
    rewrite Forall_forall in Hr1. by apply Hr1.
  - rewrite Hm1. cbn. apply fold_uniq_Ok in Hm1 as [Hk1 Ha1]; [|apply keys_ok_empty].
    destruct (fold_uniq_total b m1) as [m2 Hm2]; [done|by apply denoms_sorted_nodup| |].
    + intros c Hc. rewrite Ha1. unfold map_amount. rewrite lookup_empty. by apply Hr2.
    + rewrite Hm2. cbn. eauto.
Qed.

(** Amounts of a canonical set are amounts of its coins. *)
Lemma canonical_range cs : canonical cs → (∀ d, int_range (amount cs d)) → in_int_range cs.
Proof.
  intros [Hs _] Hr. apply Forall_forall. intros c Hc.
  rewrite <- (amount_elem cs c) by (by try apply denoms_sorted_nodup). apply Hr.
Qed.

Lemma amount_in_range cs d : denoms_sorted cs → in_int_range cs → int_range (amount cs d).
Proof.
  intros Hs Hr. destruct (decide (d ∈ map Denom cs)) as [Hin|Hni].
  - apply list_elem_of_fmap in Hin as (c & -> & Hc).
    rewrite amount_elem by (by try apply denoms_sorted_nodup).
    unfold in_int_range in Hr. rewrite Forall_forall in Hr. by apply Hr.
  - rewrite amount_not_in by done. unfold int_range. lia.
Qed.

Lemma valid_denom_of_amount cs d :
  Forall valid_coin cs → amount cs d ≠ 0 → denom_valid d = true.
Proof.
  intros Hv Ha. destruct (decide (d ∈ map Denom cs)) as [Hin|Hni].
  - apply list_elem_of_fmap in Hin as (c & -> & Hc). rewrite Forall_forall in Hv.
    by destruct (Hv c Hc).
  - by rewrite amount_not_in in Ha.
Qed.

(** A canonical set with non-negative amounts over valid denominations is valid. *)
Lemma canonical_valid cs :
  canonical cs → (∀ d, 0 <= amount cs d) → (∀ d, amount cs d ≠ 0 → denom_valid d = true) →
  valid_coins cs.
Proof.
  intros [Hs Hz] Hp Hd. split; [|done]. apply Forall_forall. intros c Hc.
  apply canonical_elem in Hc as [Hnz Ha]; [|by apply denoms_sorted_nodup|done].
  specialize (Hp (Denom c)). split; [apply Hd; lia|lia].
Qed.

Lemma Coins_Add_good a b :
  good_coins a → good_coins b → (∀ d, int_range (amount a d + amount b d)) →
  ∃ r, Coins_Add a b = Ok r ∧ good_coins r ∧ ∀ d, amount r d = amount a d + amount b d.
Proof.
  intros [Ha Hra] [Hb Hrb] Hr. destruct (safeAdd_total a b) as [r H].
  - apply Ha.
  - apply Hb.
  - done.
  - intros c Hc. rewrite <- (amount_elem b c) at 1 by (by try apply denoms_sorted_nodup, Hb). apply Hr.
  - exists r. split; [done|]. apply safeAdd_Ok in H as [Hcan Hamt]. split; [|done]. split.
    + apply canonical_valid; [done| |].
      * intros d. rewrite Hamt. pose proof (valid_coins_amount_nonneg a d Ha).
        pose proof (valid_coins_amount_nonneg b d Hb). lia.
      * intros d. rewrite Hamt. intros Hne.
        destruct (Z.eq_dec (amount a d) 0); [|by eapply valid_denom_of_amount, n; apply Ha].
        eapply valid_denom_of_amount; [apply Hb|lia].
    + apply canonical_range; [done|]. intros d. rewrite Hamt. apply Hr.
Qed.

(** ** NewCoins *)

Lemma removeZeroCoins_amount cs d : amount (removeZeroCoins cs) d = amount cs d.
Proof.
  unfold removeZeroCoins. induction cs as [|c cs IH]; [done|]. cbn. rewrite Coin_IsZero_eqb.
  destruct (Z.eqb_spec (Amount c) 0); cbn; rewrite IH; case_decide; lia.
Qed.

Lemma removeZero_Forall (P : Coin → Prop) cs : Forall P cs → Forall P (removeZeroCoins cs).
Proof.
  rewrite !Forall_forall. intros H c Hc. apply H. unfold removeZeroCoins in Hc.
  rewrite list_elem_of_In, filter_In in Hc. rewrite list_elem_of_In. apply Hc.
Qed.
Lemma removeZero_canonical cs : denoms_sorted cs → canonical (removeZeroCoins cs).
Proof.
  intros Hs%denoms_sorted_coins. split; [apply denoms_sorted_coins|].
  - unfold removeZeroCoins. induction Hs as [|c cs Hs IH Hall]; cbn; [constructor|].
    case_match; [|done]. constructor; [done|]. by apply (removeZero_Forall _ cs).
  - apply Forall_forall. intros c Hc. unfold removeZeroCoins in Hc.
    rewrite list_elem_of_In, filter_In, Coin_IsZero_eqb in Hc. destruct Hc as [_ Hc].
    by destruct (Z.eqb_spec (Amount c) 0).
Qed.

Lemma sanitizeCoins_sort cs : sanitizeCoins cs = Coins_Sort (removeZeroCoins cs).
Proof. unfold sanitizeCoins. destruct (removeZeroCoins cs); done. Qed.

Lemma sanitizeCoins_amount cs d : amount (sanitizeCoins cs) d = amount cs d.
Proof.
  rewrite sanitizeCoins_sort, (amount_perm_eq _ _ d (Coins_Sort_perm _)).
  apply removeZeroCoins_amount.
Qed.

Lemma removeZeroCoins_id cs : no_zeros cs → removeZeroCoins cs = cs.
Proof.
  unfold removeZeroCoins. induction 1 as [|c cs Hc Hcs IH]; [done|]. cbn. rewrite Coin_IsZero_eqb.
  destruct (Z.eqb_spec (Amount c) 0); [done|]. cbn. by rewrite IH.
Qed.

Lemma sanitizeCoins_id cs : canonical cs → sanitizeCoins cs = cs.
Proof. intros [Hs Hz]. rewrite sanitizeCoins_sort, removeZeroCoins_id by done. by apply Coins_Sort_id. Qed.

Lemma NewCoins_Ok cs r :
  NewCoins cs = Ok r ↔ r = sanitizeCoins cs ∧ valid_coins r.
Proof.
  unfold NewCoins. split.
  - intros H. go_inv. split; [done|]. by eapply Coins_Validate_Ok.
  - intros [-> Hv]. rewrite (proj2 (Coins_Validate_Ok _ tt)) by done. done.
Qed.

Lemma NewCoins_amount cs r d : NewCoins cs = Ok r → amount r d = amount cs d.
Proof. intros [-> _]%NewCoins_Ok. apply sanitizeCoins_amount. Qed.

Lemma NewCoins_valid cs : valid_coins cs → NewCoins cs = Ok cs.
Proof.
  intros Hv. apply NewCoins_Ok. rewrite sanitizeCoins_id by (by apply valid_coins_canonical). done.
Qed.

(** ** Subtraction *)

Lemma negative_amount cs d : amount (Coins_negative cs) d = - amount cs d.
Proof.
  unfold Coins_negative, Int_Neg. induction cs as [|c cs IH]; cbn; [done|].
  rewrite IH. case_decide; lia.
Qed.

Lemma negative_denoms cs : map Denom (Coins_negative cs) = map Denom cs.
Proof. unfold Coins_negative. by rewrite map_map. Qed.

Lemma IsAnyNegative_false cs :
  canonical cs → Coins_IsAnyNegative cs = false ↔ ∀ d, 0 <= amount cs d.
Proof.
  intros [Hs Hz]. pose proof (denoms_sorted_nodup _ Hs) as Hn. unfold Coins_IsAnyNegative. split.
  - intros H d. apply amount_nonneg, Forall_forall. intros c Hc.
    assert (Coin_IsNegative c = false) as Hc'.
    { apply Bool.not_true_is_false. intros Ht. rewrite <- Bool.not_true_iff_false in H. apply H.
      apply existsb_exists. exists c. by rewrite <- list_elem_of_In. }
    rewrite Coin_IsNegative_ltb in Hc'. lia.
  - intros H. apply Bool.not_true_is_false. intros (c & Hc & Hneg)%existsb_exists.
    rewrite <- list_elem_of_In in Hc. rewrite Coin_IsNegative_ltb in Hneg.
    specialize (H (Denom c)). rewrite amount_elem in H by done. lia.
Qed.

Lemma Coins_SafeSub_Ok a b diff neg :
  Coins_SafeSub a b = Ok (diff, neg) →
  canonical diff ∧ (∀ d, amount diff d = amount a d - amount b d) ∧
  (neg = false ↔ ∀ d, amount b d <= amount a d).
Proof.
  intros H. unfold Coins_SafeSub in H. go_inv.
  match goal with H : Coins_safeAdd _ _ = Ok _ |- _ => apply safeAdd_Ok in H as [Hc Ha] end.
  match goal with H : NewCoins _ = Ok _ |- _ => rename H into Hnew end.
  assert (∀ d, amount diff d = amount a d - amount b d) as Hd.
  { intros d. rewrite Ha, negative_amount, (NewCoins_amount _ _ d Hnew). lia. }
  split; [done|]. split; [done|]. rewrite IsAnyNegative_false by done.
  split; intros Hx d; specialize (Hx d); specialize (Hd d); lia.
Qed.

Lemma Coins_SafeSub_total a b b' :
  denoms_sorted a → NewCoins b = Ok b' → Forall (λ c, 0 <= Amount c) a → in_int_range a → in_int_range b' →
  ∃ diff neg, Coins_SafeSub a b = Ok (diff, neg).
Proof.
  intros Ha Hb Hpa Hra Hrb. unfold Coins_SafeSub. rewrite Hb. cbn.
  apply NewCoins_Ok in Hb as [_ Hv].
  destruct (safeAdd_total a (Coins_negative b')) as [r Hr]; [done| |done| |].
  - unfold denoms_sorted. rewrite negative_denoms. apply Hv.
  - intros c Hc. apply list_elem_of_fmap in Hc as (c' & -> & Hc'). cbn.
    destruct Hv as [Hv _]. unfold in_int_range in Hrb. rewrite Forall_forall in Hv, Hrb.
    destruct (Hv c' Hc') as [_ Hpos]. specialize (Hrb c' Hc').
    pose proof (amount_nonneg a (Denom c') Hpa). pose proof (amount_in_range a (Denom c') Ha Hra).
    unfold int_range, Int_Neg in *. lia.
  - rewrite Hr. cbn. eauto.
Qed.

Lemma Coins_Sub_Ok a b r :
  Coins_Sub a b = Ok r →
  canonical r ∧ (∀ d, amount r d = amount a d - amount b d) ∧ (∀ d, amount b d <= amount a d).
Proof.
  intros H. unfold Coins_Sub in H. apply outcome_bind_Ok in H as ([diff neg] & H1 & H2).
  go_inv. apply Coins_SafeSub_Ok in H1 as (Hc & Ha & Hn). split; [done|]. split; [done|].
  by apply Hn.
Qed.

Lemma sub_valid a r f :
  valid_coins a → canonical r → (∀ d, amount r d = amount a d - f d) →
  (∀ d, 0 <= f d <= amount a d) → valid_coins r.
Proof.
  intros Ha Hc Hr Hf. apply canonical_valid; [done| |].
  - intros d. rewrite Hr. specialize (Hf d). lia.
  - intros d. rewrite Hr. intros Hne. specialize (Hf d).
    apply (valid_denom_of_amount a d); [apply Ha|lia].
Qed.

Lemma Coins_Sub_good a b :
  good_coins a → good_coins b → (∀ d, amount b d <= amount a d) →
  ∃ r, Coins_Sub a b = Ok r ∧ good_coins r ∧ ∀ d, amount r d = amount a d - amount b d.
Proof.
  intros [Ha Hra] [Hb Hrb] Hle.
  destruct (Coins_SafeSub_total a b b) as (diff & neg & H); [apply Ha|by apply NewCoins_valid| |done|done|].
  - by apply valid_coins_nonneg.
  - unfold Coins_Sub. rewrite H. cbn. apply Coins_SafeSub_Ok in H as (Hc & Hd & Hn).
    rewrite (proj2 Hn Hle). cbn. exists diff. split; [done|]. split; [|done].
    assert (∀ d, 0 <= amount b d <= amount a d) as Hb'.
    { intros d. split; [by apply valid_coins_amount_nonneg|done]. }
    split; [by apply (sub_valid a diff (amount b))|].
    apply canonical_range; [done|]. intros d. rewrite Hd.
    pose proof (amount_in_range a d (proj2 Ha) Hra). pose proof (Hb' d).
    unfold int_range in *. lia.
Qed.

(** ** Lookup by binary search *)

Lemma str_eq_true s1 s2 : str_eq s1 s2 = true ↔ s1 = s2.
Proof. rewrite str_eq_spec. by rewrite bool_decide_eq_true. Qed.

Lemma Find_fuel_spec fuel : ∀ cs d c,
  (length cs <= fuel)%nat → denoms_sorted cs →
  Find_fuel fuel cs d = Some c ↔ c ∈ cs ∧ Denom c = d.
Proof.
  induction fuel as [|fuel IH]; intros cs d c Hlen Hs.
  { destruct cs; [|cbn in Hlen; lia]. cbn. rewrite elem_of_nil. naive_solver. }
  destruct cs as [|c0 [|c1 cs]].
  - cbn. rewrite elem_of_nil. naive_solver.
  - cbn. rewrite list_elem_of_singleton. destruct (str_eq (Denom c0) d) eqn:E.
    + apply str_eq_true in E. naive_solver.
    + rewrite <- Bool.not_true_iff_false, str_eq_true in E. naive_solver.
  - set (l := c0 :: c1 :: cs) in *.
    assert (Find_fuel (S fuel) l d =
      match l !! (length l / 2)%nat with
      | None => None
      | Some coin =>
          match String.compare d (Denom coin) with
          | Lt => Find_fuel fuel (take (length l / 2) l) d
          | Eq => Some coin
          | Gt => Find_fuel fuel (drop (length l / 2 + 1) l) d
          end
      end) as -> by reflexivity.
    assert (2 <= length l)%nat as Hl by (cbn; lia). clearbody l. clear c0 c1 cs.
    set (mid := (length l / 2)%nat).
    assert (mid < length l)%nat as Hmid by (apply Nat.div_lt; lia).
    destruct (lookup_lt_is_Some_2 l mid Hmid) as [cm Hcm]. rewrite Hcm.
    pose proof (take_drop_middle l mid cm Hcm) as Hsplit.
    apply denoms_sorted_coins in Hs. rewrite <- Hsplit in Hs.
    pose proof Hs as Hs'. apply StronglySorted_app in Hs' as (Hcross & Hsl & Hsr).
    apply StronglySorted_cons in Hsr as [Hcm_lt Hsr]. rewrite Forall_forall in Hcm_lt.
    assert (∀ x, x ∈ l ↔ x ∈ take mid l ∨ x = cm ∨ x ∈ drop (mid + 1) l) as Hin.
    { intros x. rewrite <- Hsplit at 1. rewrite elem_of_app, elem_of_cons.
      by replace (S mid) with (mid + 1)%nat by lia. }
    replace (S mid) with (mid + 1)%nat in * by lia.
    assert (∀ x, x ∈ take mid l → slt (Denom x) (Denom cm)) as Hlow.
    { intros x Hx. apply Hcross; [done|by left]. }
    destruct (str_compare_spec d (Denom cm)) as [->|Hlt|Hgt].
    + split; [intros [= ->]; split; [apply Hin; auto|done]|].
      intros [[Hx|[->|Hx]]%Hin Hd]; [|done|].
      * apply Hlow in Hx. rewrite Hd in Hx. by apply slt_irrefl in Hx.
      * apply Hcm_lt in Hx. rewrite Hd in Hx. by apply slt_irrefl in Hx.
    + rewrite IH; [|rewrite length_take; lia|by apply denoms_sorted_coins].
      split; [intros [? ?]; split; [apply Hin; auto|done]|].
      intros [[Hx|[->|Hx]]%Hin Hd]; [done| |]; exfalso; subst d.
      * by apply slt_irrefl in Hlt.
      * apply Hcm_lt in Hx. apply (slt_irrefl (Denom c)). etransitivity; [exact Hlt|exact Hx].
    + rewrite IH; [|rewrite length_drop; lia|by apply denoms_sorted_coins].
      split; [intros [? ?]; split; [apply Hin; auto|done]|].
      intros [[Hx|[->|Hx]]%Hin Hd]; [| |done]; exfalso; subst d.
      * apply Hlow in Hx. apply (slt_irrefl (Denom c)). etransitivity; [exact Hx|exact Hgt].
      * by apply slt_irrefl in Hgt.
Qed.

Lemma Coins_Find_spec cs d c :
  denoms_sorted cs → Coins_Find cs d = Some c ↔ c ∈ cs ∧ Denom c = d.
Proof. intros. by apply Find_fuel_spec. Qed.

Lemma AmountOfNoDenomValidation_amount cs d :
  denoms_sorted cs → Coins_AmountOfNoDenomValidation cs d = amount cs d.
Proof.
  intros Hs. unfold Coins_AmountOfNoDenomValidation. destruct (Coins_Find cs d) as [c|] eqn:E.
  - apply Coins_Find_spec in E as [Hc <-]; [|done]. symmetry. apply amount_elem; [|done].
    by apply denoms_sorted_nodup.
  - symmetry. apply amount_not_in. intros (c & Hd & Hc)%list_elem_of_fmap.
    assert (Coins_Find cs d = Some c) by (apply Coins_Find_spec; done). congruence.
Qed.

Lemma Coins_AmountOf_amount cs d :
  denoms_sorted cs → denom_valid d = true → Coins_AmountOf cs d = Ok (amount cs d).
Proof.
  intros Hs Hd. unfold Coins_AmountOf, mustValidateDenom, ValidateDenom. rewrite Hd. cbn.
  by rewrite AmountOfNoDenomValidation_amount.
Qed.

(** ** Comparisons *)

Lemma forallM_Ok {A} (f : A → outcome bool) (g : A → bool) l :
  (∀ x, x ∈ l → f x = Ok (g x)) → forallM f l = Ok (forallb g l).
Proof.
  induction l as [|x l IH]; intros H; cbn; [done|].
  rewrite H by (by left). cbn. destruct (g x); [|done]. apply IH. intros y Hy. apply H. by right.
Qed.
Lemma existsM_Ok {A} (f : A → outcome bool) (g : A → bool) l :
  (∀ x, x ∈ l → f x = Ok (g x)) → existsM f l = Ok (existsb g l).
Proof.
  induction l as [|x l IH]; intros H; cbn; [done|].
  rewrite H by (by left). cbn. destruct (g x); [done|]. apply IH. intros y Hy. apply H. by right.
Qed.
Lemma forallb_elem {A} (g : A → bool) (l : list A) :
  forallb g l = true ↔ ∀ x, x ∈ l → g x = true.
Proof. rewrite forallb_forall. by setoid_rewrite list_elem_of_In. Qed.

Lemma valid_coins_elem cs c :
  valid_coins cs → c ∈ cs → denom_valid (Denom c) = true ∧ 0 < Amount c ∧ amount cs (Denom c) = Amount c.
Proof.
  intros [Hv Hs] Hc. rewrite Forall_forall in Hv. destruct (Hv c Hc). split; [done|]. split; [done|].
  apply amount_elem; [by apply denoms_sorted_nodup|done].
Qed.

Lemma le_pointwise a b :
  valid_coins a → valid_coins b →
  (∀ c, c ∈ b → Amount c <= amount a (Denom c)) ↔ ∀ d, amount b d <= amount a d.
Proof.
  intros Ha Hb. split; intros H.
  - intros d. destruct (decide (d ∈ map Denom b)) as [Hin|Hni].
    + apply list_elem_of_fmap in Hin as (c & -> & Hc).
      destruct (valid_coins_elem b c Hb Hc) as (_ & _ & ->). by apply H.
    + rewrite amount_not_in by done. by apply valid_coins_amount_nonneg.
  - intros c Hc. destruct (valid_coins_elem b c Hb Hc) as (_ & _ & <-). apply H.
Qed.

Lemma Coins_IsAllGTE_spec a b :
  valid_coins a → valid_coins b →
  ∃ r, Coins_IsAllGTE a b = Ok r ∧ (r = true ↔ ∀ d, amount b d <= amount a d).
Proof.
  intros Ha Hb. unfold Coins_IsAllGTE. destruct b as [|b0 b'].
  { exists true. split; [done|]. split; [|done]. intros _ d. by apply valid_coins_amount_nonneg. }
  destruct a as [|a0 a'].
  { exists false. split; [done|]. split; [done|]. intros H. exfalso.
    destruct (valid_coins_elem _ b0 Hb ltac:(left)) as (_ & Hp & Hm).
    specialize (H (Denom b0)). rewrite Hm in H. cbn in H. lia. }
  set (a := a0 :: a') in *. set (b := b0 :: b') in *. cbn [length Nat.eqb].
  replace (length b =? 0)%nat with false by done. replace (length a =? 0)%nat with false by done.
  eexists. split.
  - apply (forallM_Ok _ (λ coinB, Amount coinB <=? amount a (Denom coinB))).
    intros c Hc. destruct (valid_coins_elem b c Hb Hc) as (Hd & _).
    rewrite Coins_AmountOf_amount by (done || apply Ha). cbn. rewrite Int_GT_ltb.
    f_equal. destruct (Z.ltb_spec (amount a (Denom c)) (Amount c)); lia.
  - rewrite forallb_elem, <- le_pointwise by done. setoid_rewrite Z.leb_le. done.
Qed.

(** ** Pointwise maximum and minimum *)

Lemma amount_below x cs : Forall (slt x) (map Denom cs) → amount cs x = 0.
Proof.
  intros H. apply amount_not_in. intros Hin. rewrite Forall_forall in H.
  by apply (slt_irrefl x), H.
Qed.
Lemma Forall_slt_trans x y (ds : list string) : slt x y → Forall (slt y) ds → Forall (slt x) ds.
Proof. intros Hxy H. eapply Forall_impl; [exact H|]. intros z Hz. etransitivity; [exact Hxy|exact Hz]. Qed.

Lemma Max_loop_cons ca a cb b :
  Max_loop (ca :: a) (cb :: b) =
  match String.compare (Denom ca) (Denom cb) with
  | Lt => ca :: Max_loop a (cb :: b)
  | Eq => (if Int_GT (Amount cb) (Amount ca) then cb else ca) :: Max_loop a b
  | Gt => cb :: Max_loop (ca :: a) b
  end.
Proof. reflexivity. Qed.
Lemma Min_loop_cons ca a cb b :
  Min_loop (ca :: a) (cb :: b) =
  match String.compare (Denom ca) (Denom cb) with
  | Lt => Min_loop a (cb :: b)
  | Eq => let minCoin := if Int_LT (Amount cb) (Amount ca) then cb else ca in
          if negb (Coin_IsZero minCoin) then minCoin :: Min_loop a b else Min_loop a b
  | Gt => Min_loop (ca :: a) b
  end.
Proof. reflexivity. Qed.
Lemma Min_loop_nil_r a : Min_loop a [] = [].
Proof. by destruct a. Qed.

Lemma Max_loop_Forall (P : Coin → Prop) a : ∀ b, Forall P a → Forall P b → Forall P (Max_loop a b).
Proof.
  induction a as [|ca a IHa]; intros b Ha Hb; [by destruct b|].
  induction b as [|cb b IHb]; [done|]. rewrite Max_loop_cons.
  pose proof Ha as [Hca Ha']%Forall_cons. pose proof Hb as [Hcb Hb']%Forall_cons.
  destruct (String.compare (Denom ca) (Denom cb)); constructor; try case_match; auto.
Qed.
Lemma Min_loop_Forall (P : Coin → Prop) a : ∀ b, Forall P a → Forall P b → Forall P (Min_loop a b).
Proof.
  induction a as [|ca a IHa]; intros b Ha Hb; [by destruct b|].
  induction b as [|cb b IHb]; [constructor|]. rewrite Min_loop_cons.
  pose proof Ha as [Hca Ha']%Forall_cons. pose proof Hb as [Hcb Hb']%Forall_cons.
  destruct (String.compare (Denom ca) (Denom cb)); [|auto|auto].
  cbn zeta. case_match; [|auto]. constructor; [case_match|]; auto.
Qed.

Lemma Max_loop_spec a : ∀ b,
  valid_coins a → valid_coins b →
  denoms_sorted (Max_loop a b) ∧ ∀ d, amount (Max_loop a b) d = Z.max (amount a d) (amount b d).
Proof.
  induction a as [|ca a IHa]; intros b Ha Hb.
  { replace (Max_loop [] b) with b by (by destruct b). split; [apply Hb|].
    intros d. cbn. pose proof (valid_coins_amount_nonneg b d Hb). lia. }
  induction b as [|cb b IHb].
  { split; [apply Ha|]. intros d. cbn [Max_loop].
    pose proof (valid_coins_amount_nonneg _ d Ha). cbn in *. lia. }
  rewrite Max_loop_cons.
  pose proof Ha as ([_ Hpa] & Hla & Ha')%valid_coins_cons.
  pose proof Hb as ([_ Hpb] & Hlb & Hb')%valid_coins_cons.
  assert (∀ d, 0 <= amount a d) by (intros; by apply valid_coins_amount_nonneg).
  assert (∀ d, 0 <= amount b d) by (intros; by apply valid_coins_amount_nonneg).
  pose proof (amount_below _ _ Hla) as Za. pose proof (amount_below _ _ Hlb) as Zb.
  unfold denoms_sorted. destruct (str_compare_spec (Denom ca) (Denom cb)) as [Heq|Hlt|Hgt];
    cbn [map amount]; rewrite StronglySorted_cons.
  - specialize (IHa b Ha' Hb') as [Hs Hm]. assert (Denom (if Int_GT (Amount cb) (Amount ca) then cb else ca) = Denom ca) as ->.
    { by case_match. }
    split; [split; [|done]|].
    + rewrite Forall_map in *. rewrite Heq in Hla |- *. by apply Max_loop_Forall.
    + intros d. rewrite Hm, <- Heq, Int_GT_ltb. case_decide as Hd; [|lia]. subst d.
      assert (amount b (Denom ca) = 0) as -> by (by rewrite Heq).
      rewrite Za. destruct (Z.ltb_spec (Amount ca) (Amount cb)); cbn; lia.
  - specialize (IHa (cb :: b) Ha' Hb) as [Hs Hm]. split; [split; [|done]|].
    + rewrite Forall_map in *. apply Max_loop_Forall; [done|]. constructor; [done|].
      rewrite <- Forall_map in *. by eapply Forall_slt_trans.
    + intros d. rewrite Hm. cbn [amount]. case_decide as Hd; [|lia]. subst d.
      rewrite Za, (decide_False (P := Denom cb = Denom ca)) by (by apply not_eq_sym, slt_ne).
      rewrite (amount_below (Denom ca) b) by (by eapply Forall_slt_trans). lia.
  - specialize (IHb Hb') as [Hs Hm]. split; [split; [|done]|].
    + rewrite Forall_map in *. apply Max_loop_Forall; [|done]. constructor; [done|].
      rewrite <- Forall_map in *. by eapply Forall_slt_trans.
    + intros d. rewrite Hm. cbn [amount]. case_decide as Hd; [|case_decide; lia].
      subst d. rewrite Zb, (decide_False (P := Denom ca = Denom cb)) by (by apply not_eq_sym, slt_ne).
      rewrite (amount_below (Denom cb) a) by (by eapply Forall_slt_trans). lia.
Qed.

Lemma Min_loop_spec a : ∀ b,
  valid_coins a → valid_coins b →
  denoms_sorted (Min_loop a b) ∧ ∀ d, amount (Min_loop a b) d = Z.min (amount a d) (amount b d).
Proof.
  induction a as [|ca a IHa]; intros b Ha Hb.
  { replace (Min_loop [] b) with (@nil Coin) by (by destruct b). split; [constructor|].
    intros d. cbn. pose proof (valid_coins_amount_nonneg b d Hb). lia. }
  induction b as [|cb b IHb].
  { split; [constructor|]. intros d. pose proof (valid_coins_amount_nonneg _ d Ha). cbn in *. lia. }
  rewrite Min_loop_cons.
  pose proof Ha as ([_ Hpa] & Hla & Ha')%valid_coins_cons.
  pose proof Hb as ([_ Hpb] & Hlb & Hb')%valid_coins_cons.
  assert (∀ d, 0 <= amount a d) by (intros; by apply valid_coins_amount_nonneg).
  assert (∀ d, 0 <= amount b d) by (intros; by apply valid_coins_amount_nonneg).
  pose proof (amount_below _ _ Hla) as Za. pose proof (amount_below _ _ Hlb) as Zb.
  destruct (str_compare_spec (Denom ca) (Denom cb)) as [Heq|Hlt|Hgt].
  - specialize (IHa b Ha' Hb') as [Hs Hm]. cbn zeta.
    set (mc := if Int_LT (Amount cb) (Amount ca) then cb else ca).
    assert (Denom mc = Denom ca ∧ Amount mc = Z.min (Amount ca) (Amount cb)) as [Hmd Hma].
    { unfold mc. rewrite Int_LT_ltb. destruct (Z.ltb_spec (Amount cb) (Amount ca)); split; (done || lia). }
    rewrite Coin_IsZero_eqb. destruct (Z.eqb_spec (Amount mc) 0); [lia|]. cbn [negb].
    unfold denoms_sorted. cbn [map amount]. rewrite StronglySorted_cons, Hmd, Hma.
    split; [split; [|done]|].
    + rewrite Forall_map in *. rewrite Heq in Hla |- *. by apply Min_loop_Forall.
    + intros d. rewrite Hm, <- Heq. case_decide as Hd; [|lia]. subst d.
      assert (amount b (Denom ca) = 0) as -> by (by rewrite Heq).
      rewrite Za. lia.
  - specialize (IHa (cb :: b) Ha' Hb) as [Hs Hm]. split; [done|].
    intros d. rewrite Hm. cbn [amount]. destruct (decide (Denom ca = d)) as [<-|Hd]; [|lia].
    rewrite Za, (decide_False (P := Denom cb = Denom ca)) by (by apply not_eq_sym, slt_ne).
    rewrite (amount_below (Denom ca) b) by (by eapply Forall_slt_trans). lia.
  - specialize (IHb Hb') as [Hs Hm]. split; [done|].
    intros d. rewrite Hm. cbn [amount]. destruct (decide (Denom cb = d)) as [<-|Hd]; [|lia].
    rewrite Zb, (decide_False (P := Denom ca = Denom cb)) by (by apply not_eq_sym, slt_ne).
    rewrite (amount_below (Denom cb) a) by (by eapply Forall_slt_trans). lia.
Qed.

Lemma loop_valid (l a b : Coins) :
  (∀ P : Coin → Prop, Forall P a → Forall P b → Forall P l) →
  valid_coins a → valid_coins b → denoms_sorted l → valid_coins l.
Proof. intros HP [Ha _] [Hb _] Hs. split; [by apply HP|done]. Qed.

Lemma Coins_Max_good a b :
  good_coins a → good_coins b →
  ∃ r, Coins_Max a b = Ok r ∧ good_coins r ∧ ∀ d, amount r d = Z.max (amount a d) (amount b d).
Proof.
  intros [Ha Hra] [Hb Hrb]. destruct (Max_loop_spec a b Ha Hb) as [Hs Hm].
  assert (valid_coins (Max_loop a b)) as Hv.
  { eapply loop_valid; [|exact Ha|exact Hb|done]. intros P ? ?. by apply Max_loop_Forall. }
  exists (Max_loop a b). split; [by apply NewCoins_valid|]. split; [|done].
  split; [done|]. by apply Max_loop_Forall.
Qed.
Lemma Coins_Min_good a b :
  good_coins a → good_coins b →
  ∃ r, Coins_Min a b = Ok r ∧ good_coins r ∧ ∀ d, amount r d = Z.min (amount a d) (amount b d).
Proof.
  intros [Ha Hra] [Hb Hrb]. destruct (Min_loop_spec a b Ha Hb) as [Hs Hm].
  assert (valid_coins (Min_loop a b)) as Hv.
  { eapply loop_valid; [|exact Ha|exact Hb|done]. intros P ? ?. by apply Min_loop_Forall. }
  exists (Min_loop a b). split; [by apply NewCoins_valid|]. split; [|done].
  split; [done|]. by apply Min_loop_Forall.
Qed.

(** A set with every amount replaced by [g] of it. *)
Definition map_amounts (g : Z → Z) (cs : Coins) : Coins :=
  map (λ c, mkCoin (Denom c) (g (Amount c))) cs.

Lemma amount_map_amounts g cs d :
  NoDup (map Denom cs) → g 0 = 0 → amount (map_amounts g cs) d = g (amount cs d).
Proof.
  intros Hn Hg. unfold map_amounts. induction cs as [|c cs IH]; cbn; [done|].
  cbn in Hn. apply NoDup_cons in Hn as [Hni Hn]. rewrite IH by done.
  case_decide as Hd; [|done]. subst d. rewrite (amount_not_in cs) by done. rewrite Hg.
  by rewrite !Z.add_0_r.
Qed.

(** ** Overflow *)

Lemma fold_uniq_range cs : ∀ m m',
  map_Forall (λ _ c, int_range (Amount c)) m → in_int_range cs →
  foldM uniq_add m cs = Ok m' → map_Forall (λ _ c, int_range (Amount c)) m'.
Proof.
  induction cs as [|c cs IH]; intros m m' Hm Hc H; cbn [foldM] in H; [by go_inv|].
  apply Forall_cons in Hc as [Hc Hcs]. go_inv. eapply IH; [|done|exact H].
  unfold uniq_add in *. destruct (m !! Denom c) as [uc|]; go_inv.
  - match goal with H : Coin_Add _ _ = Ok _ |- _ => apply Coin_Add_Ok in H as (_ & ? & ->) end.
    by apply map_Forall_insert_2.
  - by apply map_Forall_insert_2.
Qed.

Lemma fold_uniq_no_err cs : ∀ m e, foldM uniq_add m cs ≠ Err e.
Proof.
  induction cs as [|c cs IH]; intros m e; cbn [foldM]; [done|].
  destruct (uniq_add m c) as [m1|e1|p1] eqn:E; cbn; [apply IH| |done].
  exfalso. revert E. unfold uniq_add, Coin_Add, same_denom, Int_Add, Int_SafeAdd, guard_panic.
  repeat (case_match; cbn; try done).
Qed.

Lemma Coins_Add_range a b r d :
  in_int_range a → in_int_range b → Coins_Add a b = Ok r → int_range (amount r d).
Proof.
  intros Ha Hb H. unfold Coins_Add, Coins_safeAdd in H. go_inv.
  rewrite (amount_perm_eq _ _ d (Coins_Sort_perm _)), coalesce_map_amount.
  match goal with H : foldM _ ∅ _ = Ok _ |- _ => apply fold_uniq_range in H; [|apply map_Forall_empty|done] end.
  match goal with H : foldM _ _ _ = Ok _ |- _ => apply fold_uniq_range in H as Hm; [|done|done] end.
  unfold map_amount. match goal with |- int_range (from_option _ _ ?o) => destruct o as [c|] eqn:E end.
  - by apply Hm in E.
  - unfold int_range. cbn. lia.
Qed.

Lemma Coins_Add_overflow a b d :
  good_coins a → good_coins b → ¬ int_range (amount a d + amount b d) → ∃ p, Coins_Add a b = Panic p.
Proof.
  intros [_ Ha] [_ Hb] Hr. destruct (Coins_Add a b) as [r|e|p] eqn:E; [| |eauto]; exfalso.
  - apply Hr. pose proof (Coins_Add_range a b r d Ha Hb E) as Hrr.
    apply safeAdd_Ok in E as [_ Hm]. by rewrite <- Hm.
  - unfold Coins_Add, Coins_safeAdd, guard_panic in E. repeat case_match; try done; cbn in E.
    destruct (foldM uniq_add ∅ a) as [m1|e1|p1] eqn:E1; cbn in E; [|by apply fold_uniq_no_err in E1|done].
    destruct (foldM uniq_add m1 b) as [m2|e2|p2] eqn:E2; cbn in E; [done|by apply fold_uniq_no_err in E2|done].
Qed.

(** ** Equality *)

Lemma Equal_loop_eq a : ∀ b, length a = length b → Equal_loop a b = true ↔ a = b.
Proof.
  induction a as [|ca a IH]; intros [|cb b] Hl; try done. cbn.
  assert (Coin_Equal ca cb = true ↔ ca = cb) as Hc.
  { unfold Coin_Equal. rewrite str_eq_spec, Int_Equal_eqb. destruct ca as [da xa], cb as [db xb]. cbn.
    case_bool_decide; cbn; [|naive_solver]. destruct (Z.eqb_spec xa xb); naive_solver. }
  destruct (Coin_Equal ca cb); cbn.
  - rewrite IH by (by injection Hl). split; [intros ->; f_equal; by apply Hc|naive_solver].
  - split; [done|]. intros [= -> ->]. by apply Hc.
Qed.
Lemma Coins_Equal_amount a b d : Coins_Equal a b = true → amount a d = amount b d.
Proof.
  unfold Coins_Equal. destruct (Nat.eqb_spec (length a) (length b)) as [Hl|]; [|done]. cbn.
  rewrite Equal_loop_eq by (by rewrite !(Permutation_length (Coins_Sort_perm _))).
  intros H. rewrite <- (amount_perm_eq _ _ d (Coins_Sort_perm a)), H.
  apply amount_perm_eq, Coins_Sort_perm.
Qed.
Lemma Coins_Equal_refl a : Coins_Equal a a = true.
Proof. unfold Coins_Equal. rewrite Nat.eqb_refl. cbn. by apply Equal_loop_eq. Qed.
End CoinFacts.
