(* ===== verification/CoinProps.v ===== *)
(** * Properties of coin sets

    The contracts stated in the comments of types/coin.go, proved from the
    theory of CoinFacts.v, with instances at concrete coin sets. *)
From S2P Require Import Prelude MathInt Coin CoinFacts.

(** Concrete coin sets used by the instances. *)
Definition denom_a : string := "aaa".
Definition denom_b : string := "bbb".
Definition coins_ab : Coins := [mkCoin denom_a 5; mkCoin denom_b 7].
Definition coins_b : Coins := [mkCoin denom_b 3].

Section Instances.
#[local] Existing Instance default_config.
Lemma coins_ab_good : good_coins coins_ab.
Proof. split; [by apply (Coins_Validate_Ok coins_ab tt)|repeat constructor; vm_compute; done]. Qed.
Lemma coins_b_good : good_coins coins_b.
Proof. split; [by apply (Coins_Validate_Ok coins_b tt)|repeat constructor; vm_compute; done]. Qed.
Lemma coins_ab_b_range d : int_range (amount coins_ab d + amount coins_b d).
Proof. cbn. unfold int_range. repeat case_decide; lia. Qed.
End Instances.

(** [Validate] accepts exactly the canonical coin sets: every
    denomination is valid, denominations are strictly increasing (so there are
    no duplicates) and every amount is positive. *)
Theorem Coins_Validate_correct {cfg : CoinConfig} cs :
  Coins_Validate cs = Ok tt ↔
  Forall (λ c, denom_valid (Denom c) = true ∧ 0 < Amount c) cs ∧ StronglySorted slt (map Denom cs).
Proof. apply Coins_Validate_Ok. Qed.

(** [Add] of two valid coin sets is pointwise addition: if no denomination
    overflows it returns a valid set holding the sum of the amounts of each
    denomination, and if one does it panics. *)
Theorem Coins_Add_pointwise {cfg : CoinConfig} a b :
  good_coins a → good_coins b →
  ((∀ d, int_range (amount a d + amount b d)) →
   ∃ r, Coins_Add a b = Ok r ∧ good_coins r ∧ ∀ d, amount r d = amount a d + amount b d) ∧
  ((∃ d, ¬ int_range (amount a d + amount b d)) → ∃ p, Coins_Add a b = Panic p).
Proof.
  intros Ha Hb. split; [by apply Coins_Add_good|]. intros [d Hd]. by eapply Coins_Add_overflow.
Qed.

Lemma Coins_Add_pointwise_witness :
  ∃ r, Coins_Add coins_ab coins_b = Ok r ∧ amount r denom_b = 10.
Proof.
  destruct (Coins_Add_pointwise (cfg := default_config) coins_ab coins_b coins_ab_good coins_b_good)
    as [H _].
  destruct (H coins_ab_b_range) as (r & Hr & _ & Hamt). exists r. split; [exact Hr|].
  rewrite Hamt. reflexivity.
Defined.

(** Subtraction undoes addition: if [a + b] does not overflow then
    [(a + b) - b] is [a] itself, as a slice and not only up to amounts. *)
Theorem Coins_Add_Sub_roundtrip {cfg : CoinConfig} a b s :
  good_coins a → good_coins b → (∀ d, int_range (amount a d + amount b d)) →
  Coins_Add a b = Ok s → Coins_Sub s b = Ok a.
Proof.
  intros Ha Hb Hr Hs. destruct (Coins_Add_good a b Ha Hb Hr) as (s' & Hs' & Hgood & Hamt).
  assert (s' = s) as -> by congruence.
  destruct (Coins_Sub_good s b Hgood Hb) as (r & Hr' & [Hrv _] & Hamt').
  - intros d. rewrite Hamt. pose proof (valid_coins_amount_nonneg a d (proj1 Ha)). lia.
  - rewrite Hr'. f_equal. apply valid_coins_eq; [done|apply Ha|].
    intros d. rewrite Hamt', Hamt. lia.
Qed.

Lemma Coins_Add_Sub_roundtrip_witness :
  Coins_Sub (cfg := default_config) [mkCoin denom_a 5; mkCoin denom_b 10] coins_b = Ok coins_ab.
Proof.
  apply (Coins_Add_Sub_roundtrip (cfg := default_config) coins_ab coins_b
           [mkCoin denom_a 5; mkCoin denom_b 10] coins_ab_good coins_b_good coins_ab_b_range).
  vm_compute. reflexivity.
Defined.

(** Addition is deterministic although it walks a Go map: for every order
    [entries] in which the runtime may enumerate the accumulated map, the
    sorted result is the same list. *)
Theorem Coins_safeAdd_order_irrelevant a b m1 m2 r entries :
  foldM uniq_add ∅ a = Ok m1 → foldM uniq_add m1 b = Ok m2 →
  entries ≡ₚ map_to_list m2 → Coins_safeAdd a b = Ok r →
  Coins_Sort (coalesce entries) = r.
Proof.
  intros H1 H2 Hp H. unfold Coins_safeAdd in H. rewrite H1 in H. cbn in H. rewrite H2 in H.
  go_inv. by apply coalesce_order_irrelevant.
Qed.

Lemma Coins_safeAdd_order_irrelevant_witness :
  Coins_Sort (coalesce [(denom_b, mkCoin denom_b 3); (denom_a, mkCoin denom_a 5)]) =
  [mkCoin denom_a 5; mkCoin denom_b 3].
Proof.
  apply (Coins_safeAdd_order_irrelevant [mkCoin denom_a 5] coins_b
    {[ denom_a := mkCoin denom_a 5 ]} (<[ denom_b := mkCoin denom_b 3 ]> {[ denom_a := mkCoin denom_a 5 ]})).
  - vm_compute. reflexivity.
  - vm_compute. reflexivity.
  - change (map_to_list (<[denom_b:=mkCoin denom_b 3]> {[denom_a := mkCoin denom_a 5]}))
      with [(denom_a, mkCoin denom_a 5); (denom_b, mkCoin denom_b 3)] ||
    change (map_to_list (<[denom_b:=mkCoin denom_b 3]> {[denom_a := mkCoin denom_a 5]}))
      with [(denom_b, mkCoin denom_b 3); (denom_a, mkCoin denom_a 5)].
    apply perm_swap || reflexivity.
  - vm_compute. reflexivity.
Defined.

(** On a sorted set the binary search of [Find] is the linear search: it
    returns the coin of the denomination if there is one and reports absence
    otherwise, so [AmountOfNoDenomValidation] is the amount of the set. *)
Theorem Coins_Find_binary_search cs d :
  StronglySorted slt (map Denom cs) →
  Coins_Find cs d = List.find (λ c, str_eq (Denom c) d) cs ∧
  Coins_AmountOfNoDenomValidation cs d = amount cs d.
Proof.
  intros Hs. split; [|by apply AmountOfNoDenomValidation_amount].
  destruct (List.find _ cs) as [c|] eqn:E.
  - apply List.find_some in E as [Hc Hd]. apply str_eq_true in Hd.
    apply Coins_Find_spec; [done|]. by rewrite list_elem_of_In.
  - destruct (Coins_Find cs d) as [c|] eqn:E'; [|done]. exfalso.
    apply Coins_Find_spec in E' as [Hc Hd]; [|done]. rewrite list_elem_of_In in Hc.
    pose proof (List.find_none _ _ E c Hc) as Hn. cbn in Hn.
    rewrite (proj2 (str_eq_true _ _) Hd) in Hn. done.
Qed.

Lemma Coins_Find_binary_search_witness :
  Coins_Find coins_ab denom_b = Some (mkCoin denom_b 7) ∧
  Coins_AmountOfNoDenomValidation coins_ab denom_b = 7.
Proof.
  apply (Coins_Find_binary_search coins_ab denom_b).
  apply coins_ab_good.
Defined.

(** The laws the comments give for [Max] and [Min] of valid sets:
    [a.IsAllLTE(a.Max(b))], [a.Min(b).IsAllLTE(a)], and
    [a.Add(b...).Equal(a.Min(b).Add(a.Max(b)...))], the last one as equality of
    slices. *)
Theorem Coins_Max_Min_laws {cfg : CoinConfig} a b :
  good_coins a → good_coins b → (∀ d, int_range (amount a d + amount b d)) →
  ∃ mx mn s,
    Coins_Max a b = Ok mx ∧ Coins_Min a b = Ok mn ∧
    Coins_IsAllLTE a mx = Ok true ∧ Coins_IsAllLTE mn a = Ok true ∧
    Coins_Add a b = Ok s ∧ Coins_Add mn mx = Ok s.
Proof.
  intros Ha Hb Hr.
  destruct (Coins_Max_good a b Ha Hb) as (mx & Hmx & Gmx & Amx).
  destruct (Coins_Min_good a b Ha Hb) as (mn & Hmn & Gmn & Amn).
  destruct (Coins_Add_good a b Ha Hb Hr) as (s & Hs & Gs & As).
  destruct (Coins_Add_good mn mx Gmn Gmx) as (s' & Hs' & Gs' & As').
  { intros d. rewrite Amn, Amx. replace (_ + _) with (amount a d + amount b d) by lia. apply Hr. }
  exists mx, mn, s. split; [done|]. split; [done|].
  assert (∀ x y, valid_coins x → valid_coins y → (∀ d, amount x d <= amount y d) →
                 Coins_IsAllLTE x y = Ok true) as Hle.
  { intros x y Hx Hy Hxy. destruct (Coins_IsAllGTE_spec y x Hy Hx) as (r & Hrr & Hiff).
    unfold Coins_IsAllLTE. by rewrite Hrr, (proj2 Hiff Hxy). }
  split; [apply Hle; [apply Ha|apply Gmx|intros d; rewrite Amx; lia]|].
  split; [apply Hle; [apply Gmn|apply Ha|intros d; rewrite Amn; lia]|].
  split; [done|]. rewrite Hs'. f_equal. apply valid_coins_eq; [apply Gs'|apply Gs|].
  intros d. rewrite As', Amn, Amx, As. lia.
Qed.

Lemma Coins_Max_Min_laws_witness :
  ∃ mx mn s, Coins_Max (cfg := default_config) coins_ab coins_b = Ok mx ∧
             Coins_Min (cfg := default_config) coins_ab coins_b = Ok mn ∧
             Coins_Add mn mx = Ok s.
Proof.
  destruct (Coins_Max_Min_laws (cfg := default_config) coins_ab coins_b coins_ab_good coins_b_good
              coins_ab_b_range) as (mx & mn & s & H1 & H2 & _ & _ & _ & H3).
  exists mx, mn, s. split; [exact H1|]. split; [exact H2|exact H3].
Defined.

(** ** The denomination rule *)

Lemma utf8_runes_ascii l : Forall (λ b, b < 0x80) l → utf8_runes l = l.
Proof.
  induction 1 as [|b l Hb Hl IH]; [done|]. cbn [utf8_runes].
  rewrite (proj2 (Z.ltb_lt b 0x80) Hb). by rewrite IH.
Qed.

Definition ascii_letter (b : Z) : Prop := 0x41 <= b <= 0x5A ∨ 0x61 <= b <= 0x7A.
Definition ascii_denom_char (b : Z) : Prop :=
  ascii_letter b ∨ 0x30 <= b <= 0x39 ∨ b = 0x2F ∨ b = 0x3A ∨ b = 0x2E ∨ b = 0x5F ∨ b = 0x2D.

Lemma IsLetter_ascii {U : UnicodeTables} b : 0 <= b < 0x80 → unicode_IsLetter b = true ↔ ascii_letter b.
Proof. intros Hb. unfold unicode_IsLetter, ascii_letter, in_range. destruct (Z.leb_spec b 0xFF); lia. Qed.
Lemma isValidRune_ascii {cfg : CoinConfig} b : 0 <= b < 0x80 → isValidRune b = true ↔ ascii_denom_char b.
Proof.
  intros Hb. unfold isValidRune, ascii_denom_char, ascii_letter, unicode_IsLetter, unicode_IsDigit, in_range.
  destruct (Z.leb_spec b 0xFF); lia.
Qed.

Lemma string_bytes_nonneg s : Forall (λ b, 0 <= b) (string_bytes s).
Proof. induction s as [|c s IH]; constructor; [lia|done]. Qed.

(** On ASCII strings [MatchDenom] is the documented expression
    [[a-zA-Z][a-zA-Z0-9/:._-]{2,127}]: three to 128 characters, a letter first,
    then letters, digits or one of the five separators. *)
Theorem MatchDenom_ascii {cfg : CoinConfig} s :
  Forall (λ b, b < 0x80) (string_bytes s) →
  MatchDenom s = true ↔
  ∃ b0 rest, string_bytes s = b0 :: rest ∧ ascii_letter b0 ∧ Forall ascii_denom_char rest ∧
             (2 <= length rest <= 127)%nat.
Proof.
  intros Ha. pose proof (string_bytes_nonneg s) as Hn. unfold MatchDenom.
  destruct (string_bytes s) as [|b0 rest]; cbn zeta.
  { cbn. split; [done|]. intros (? & ? & ? & _). done. }
  apply Forall_cons in Ha as [Ha0 Ha]. apply Forall_cons in Hn as [Hn0 Hn].
  cbn [length]. rewrite utf8_runes_ascii by done.
  assert (forallb isValidRune rest = true ↔ Forall ascii_denom_char rest) as Hrest.
  { rewrite forallb_elem, Forall_forall. rewrite Forall_forall in Ha, Hn.
    split; intros H x Hx; apply isValidRune_ascii; auto. }
  assert (negb (unicode_IsLetter b0) = false ↔ ascii_letter b0) as Hb0.
  { rewrite Bool.negb_false_iff. by apply IsLetter_ascii. }
  destruct (Z.ltb_spec (Z.of_nat (S (length rest))) 3) as [Hl|Hl]; cbn [orb].
  { split; [done|]. intros (? & ? & [= <- <-] & _ & _ & ?). lia. }
  destruct (Z.ltb_spec 128 (Z.of_nat (S (length rest)))) as [Hu|Hu].
  { split; [done|]. intros (? & ? & [= <- <-] & _ & _ & ?). lia. }
  destruct (negb (unicode_IsLetter b0)).
  - split; [done|]. intros (? & ? & [= <- <-] & Hc & _). by apply Hb0 in Hc.
  - rewrite Hrest. split.
    + intros ?. exists b0, rest. split; [done|]. split; [by apply Hb0|]. split; [done|lia].
    + intros (? & ? & [= <- <-] & _ & ? & _). done.
Qed.

Lemma MatchDenom_ascii_witness :
  ∃ b0 rest, string_bytes "uatom" = b0 :: rest ∧ ascii_letter b0 ∧ Forall ascii_denom_char rest ∧
             (2 <= length rest <= 127)%nat.
Proof.
  apply (MatchDenom_ascii (cfg := default_config) "uatom").
  - repeat constructor.
  - reflexivity.
Defined.

(** The first byte is classified as if it were a Latin-1 character, so strings
    that are not valid UTF-8 are accepted: byte 0xC3 followed by "ab". *)
Lemma MatchDenom_accepts_invalid_utf8 {cfg : CoinConfig} :
  MatchDenom (String (Ascii.ascii_of_nat 0xC3) "ab") = true ∧
  utf8_runes (string_bytes (String (Ascii.ascii_of_nat 0xC3) "ab")) = [RuneError; 0x61; 0x62].
Proof. split; reflexivity. Qed.

(** [IsAnyGT] compares in the direction of its examples, opposite to the first
    sentence of its comment: with 5 held and 3 given it answers true. *)
Lemma Coins_IsAnyGT_direction :
  Coins_IsAnyGT (cfg := default_config) [mkCoin denom_b 5] coins_b = Ok true ∧
  Coins_IsAnyGT (cfg := default_config) coins_b [mkCoin denom_b 5] = Ok false.
Proof. split; reflexivity. Qed.
