(* ===== verification/DecCoin.v ===== *)
(** * Decimal coins: types/dec_coin.go

    A [DecCoin] has the two fields of [Coin] with the amount a [LegacyDec]; as
    both amounts are modelled by their [Z], the record is shared and only the
    operations differ: they use the decimal arithmetic of [LegacyDec], and
    addition is a merge of two sorted slices.  The last part proves the
    pointwise laws, the exactness of [TruncateDecimal] and the rounding of the
    scaling operations. *)
From S2P Require Import Prelude MathInt LegacyDec Coin CoinFacts.

Abbreviation DecCoin := Coin.
Abbreviation DecCoins := (list Coin).
Abbreviation mkDecCoin := mkCoin.

Section DecCoinOps.
Context {cfg : CoinConfig}.

(** ** DecCoin *)

Definition NewDecCoin (denom : string) (amount : Z) : outcome DecCoin :=
  coin ← NewCoin denom amount;
  amt ← LegacyNewDecFromInt (Amount coin); Ok (mkDecCoin (Denom coin) amt).
Definition NewDecCoinFromDec (denom : string) (amount : Z) : outcome DecCoin :=
  _ ← mustValidateDenom denom;
  _ ← guard_panic (Dec_IsNegative amount) "negative decimal coin amount";
  Ok (mkDecCoin denom amount).
Definition NewDecCoinFromCoin (coin : Coin) : outcome DecCoin :=
  _ ← must (Coin_Validate coin);
  amt ← LegacyNewDecFromInt (Amount coin); Ok (mkDecCoin (Denom coin) amt).
Definition NewInt64DecCoin (denom : string) (amount : Z) : outcome DecCoin := NewDecCoin denom amount.

Definition DecCoin_IsZero (coin : DecCoin) : bool := Dec_IsZero (Amount coin).
Definition DecCoin_IsPositive (coin : DecCoin) : bool := Dec_IsPositive (Amount coin).
Definition DecCoin_IsNegative (coin : DecCoin) : bool := Dec_IsNegative (Amount coin).
Definition DecCoin_IsGTE (coin other : DecCoin) : outcome bool :=
  _ ← same_denom coin other; Ok (negb (Dec_LT (Amount coin) (Amount other))).
Definition DecCoin_IsLT (coin other : DecCoin) : outcome bool :=
  _ ← same_denom coin other; Ok (Dec_LT (Amount coin) (Amount other)).
Definition DecCoin_Equal (coin other : DecCoin) : bool :=
  str_eq (Denom coin) (Denom other) && Dec_Equal (Amount coin) (Amount other).

Definition DecCoin_Add (coin coinB : DecCoin) : outcome DecCoin :=
  _ ← guard_panic (negb (str_eq (Denom coin) (Denom coinB))) "coin denom different";
  amt ← Dec_Add (Amount coin) (Amount coinB); Ok (mkDecCoin (Denom coin) amt).
Definition DecCoin_Sub (coin coinB : DecCoin) : outcome DecCoin :=
  _ ← guard_panic (negb (str_eq (Denom coin) (Denom coinB))) "coin denom different";
  amt ← Dec_Sub (Amount coin) (Amount coinB);
  let res := mkDecCoin (Denom coin) amt in
  _ ← guard_panic (DecCoin_IsNegative res) "negative decimal coin amount"; Ok res.

Definition DecCoin_TruncateDecimal (coin : DecCoin) : outcome (Coin * DecCoin) :=
  truncated ← Dec_TruncateInt (Amount coin);
  t ← LegacyNewDecFromInt truncated;
  change ← Dec_Sub (Amount coin) t;
  c1 ← NewCoin (Denom coin) truncated;
  c2 ← NewDecCoinFromDec (Denom coin) change;
  Ok (c1, c2).

Definition DecCoin_Validate (coin : DecCoin) : outcome unit :=
  _ ← ValidateDenom (Denom coin);
  guard_err (DecCoin_IsNegative coin) "decimal coin amount cannot be negative".
Definition DecCoin_IsValid (coin : DecCoin) : bool := is_ok (DecCoin_Validate coin).

(** ** DecCoins: construction and validation *)

Definition removeZeroDecCoins (coins : DecCoins) : DecCoins :=
  List.filter (λ coin, negb (DecCoin_IsZero coin)) coins.
Definition DecCoins_Sort (coins : DecCoins) : DecCoins :=
  if (1 <? length coins)%nat then merge_sort denom_le coins else coins.
Definition sanitizeDecCoins (decCoins : DecCoins) : DecCoins :=
  let newDecCoins := removeZeroDecCoins decCoins in
  if (length newDecCoins =? 0)%nat then [] else DecCoins_Sort newDecCoins.

Definition dec_validate_single (coin : DecCoin) : outcome unit :=
  _ ← ValidateDenom (Denom coin);
  guard_err (negb (DecCoin_IsPositive coin)) "coin amount is not positive".

Fixpoint DecCoins_Validate_loop (lowDenom : string) (seenDenoms : gset string) (coins : DecCoins)
    : outcome unit :=
  match coins with
  | [] => Ok tt
  | coin :: coins' =>
      _ ← guard_err (bool_decide (Denom coin ∈ seenDenoms)) "duplicate denomination";
      _ ← ValidateDenom (Denom coin);
      _ ← guard_err (negb (str_lt lowDenom (Denom coin))) "denomination is not sorted";
      _ ← guard_err (negb (DecCoin_IsPositive coin)) "coin amount is not positive";
      DecCoins_Validate_loop (Denom coin) ({[Denom coin]} ∪ seenDenoms) coins'
  end.
Definition DecCoins_Validate (coins : DecCoins) : outcome unit :=
  match coins with
  | [] => Ok tt
  | [coin] => dec_validate_single coin
  | coin :: coins' =>
      _ ← dec_validate_single coin;
      DecCoins_Validate_loop (Denom coin) {[Denom coin]} coins'
  end.
Definition DecCoins_IsValid (coins : DecCoins) : bool := is_ok (DecCoins_Validate coins).

Definition NewDecCoins (decCoins : DecCoins) : outcome DecCoins :=
  let newDecCoins := sanitizeDecCoins decCoins in
  _ ← must (DecCoins_Validate newDecCoins); Ok newDecCoins.
Definition NewDecCoinsFromCoins (coins : Coins) : outcome DecCoins :=
  if (length coins =? 0)%nat then Ok []
  else newCoins ← NewCoins coins; traverse NewDecCoinFromCoin newCoins.

(** ** DecCoins: arithmetic *)

(** The loop of [safeAdd] over the two slices from their current indices. *)
Fixpoint DecCoins_safeAdd (coins : DecCoins) : DecCoins → outcome DecCoins :=
  fix go (coinsB : DecCoins) : outcome DecCoins :=
    match coins, coinsB with
    | [], [] => Ok []
    | [], _ => Ok (removeZeroDecCoins coinsB)
    | _, [] => Ok (removeZeroDecCoins coins)
    | coinA :: coins', coinB :: coinsB' =>
        match String.compare (Denom coinA) (Denom coinB) with
        | Lt => rest ← DecCoins_safeAdd coins' coinsB;
                Ok (if negb (DecCoin_IsZero coinA) then coinA :: rest else rest)
        | Eq => res ← DecCoin_Add coinA coinB;
                rest ← DecCoins_safeAdd coins' coinsB';
                Ok (if negb (DecCoin_IsZero res) then res :: rest else rest)
        | Gt => rest ← go coinsB';
                Ok (if negb (DecCoin_IsZero coinB) then coinB :: rest else rest)
        end
    end.
Definition DecCoins_Add (coins coinsB : DecCoins) : outcome DecCoins := DecCoins_safeAdd coins coinsB.

Definition DecCoins_negative (coins : DecCoins) : DecCoins :=
  map (λ coin, mkDecCoin (Denom coin) (Dec_Neg (Amount coin))) coins.
Definition DecCoins_IsAnyNegative (coins : DecCoins) : bool := existsb DecCoin_IsNegative coins.
Definition DecCoins_SafeSub (coins coinsB : DecCoins) : outcome (DecCoins * bool) :=
  diff ← DecCoins_safeAdd coins (DecCoins_negative coinsB);
  Ok (diff, DecCoins_IsAnyNegative diff).
Definition DecCoins_Sub (coins coinsB : DecCoins) : outcome DecCoins :=
  '(diff, hasNeg) ← DecCoins_SafeSub coins coinsB;
  _ ← guard_panic hasNeg "negative coin amount"; Ok diff.

(** The body of the loop of [DecCoins.TruncateDecimal]. *)
Definition truncate_step (acc : Coins * DecCoins) (coin : DecCoin) : outcome (Coins * DecCoins) :=
  let '(truncatedCoins, changeCoins) := acc in
  '(truncated, change) ← DecCoin_TruncateDecimal coin;
  truncatedCoins ← (if negb (Coin_IsZero truncated)
                    then Coins_Add truncatedCoins [truncated] else Ok truncatedCoins);
  changeCoins ← (if negb (DecCoin_IsZero change)
                 then DecCoins_Add changeCoins [change] else Ok changeCoins);
  Ok (truncatedCoins, changeCoins).
Definition DecCoins_TruncateDecimal (coins : DecCoins) : outcome (Coins * DecCoins) :=
  foldM truncate_step ([], []) coins.

(** The loop shared by [MulDec], [MulDecTruncate], [QuoDec] and
    [QuoDecTruncate], which differ in the operation on the amount. *)
Definition scale_step (op : Z → outcome Z) (res : DecCoins) (coin : DecCoin) : outcome DecCoins :=
  amt ← op (Amount coin);
  let product := mkDecCoin (Denom coin) amt in
  if negb (DecCoin_IsZero product) then DecCoins_Add res [product] else Ok res.
Definition scale_loop (op : Z → outcome Z) (coins : DecCoins) : outcome DecCoins :=
  foldM (scale_step op) [] coins.
Definition DecCoins_MulDec (coins : DecCoins) (d : Z) : outcome DecCoins :=
  scale_loop (λ a, Dec_Mul a d) coins.
Definition DecCoins_MulDecTruncate (coins : DecCoins) (d : Z) : outcome DecCoins :=
  if Dec_IsZero d then Ok [] else scale_loop (λ a, Dec_MulTruncate a d) coins.
Definition DecCoins_QuoDec (coins : DecCoins) (d : Z) : outcome DecCoins :=
  _ ← guard_panic (Dec_IsZero d) "invalid zero decimal"; scale_loop (λ a, Dec_Quo a d) coins.
Definition DecCoins_QuoDecTruncate (coins : DecCoins) (d : Z) : outcome DecCoins :=
  _ ← guard_panic (Dec_IsZero d) "invalid zero decimal"; scale_loop (λ a, Dec_QuoTruncate a d) coins.

(** ** DecCoins: lookup and comparison *)

Fixpoint DecAmountOf_fuel (fuel : nat) (coins : DecCoins) (denom : string) : Z :=
  match fuel with
  | O => LegacyZeroDec
  | S fuel' =>
      match coins with
      | [] => LegacyZeroDec
      | [coin] => if str_eq (Denom coin) denom then Amount coin else LegacyZeroDec
      | _ =>
          let midIdx := (length coins / 2)%nat in
          match coins !! midIdx with
          | None => LegacyZeroDec
          | Some coin =>
              if str_lt denom (Denom coin) then DecAmountOf_fuel fuel' (take midIdx coins) denom
              else if str_eq denom (Denom coin) then Amount coin
              else DecAmountOf_fuel fuel' (drop (midIdx + 1) coins) denom
          end
      end
  end.
Definition DecCoins_AmountOfNoValidation (coins : DecCoins) (denom : string) : Z :=
  DecAmountOf_fuel (length coins) coins denom.
Definition DecCoins_AmountOf (coins : DecCoins) (denom : string) : outcome Z :=
  _ ← mustValidateDenom denom; Ok (DecCoins_AmountOfNoValidation coins denom).

Definition DecCoins_Intersect (coins coinsB : DecCoins) : outcome DecCoins :=
  res ← traverse (λ coin, amtB ← DecCoins_AmountOf coinsB (Denom coin);
                          Ok (mkDecCoin (Denom coin) (LegacyMinDec (Amount coin) amtB))) coins;
  Ok (removeZeroDecCoins res).

Definition DecCoins_Empty (coins : DecCoins) : bool := (length coins =? 0)%nat.
Definition DecCoins_IsZero (coins : DecCoins) : bool := forallb (λ coin, Dec_IsZero (Amount coin)) coins.
Definition DecCoins_IsAllPositive (coins : DecCoins) : bool :=
  if (length coins =? 0)%nat then false else forallb DecCoin_IsPositive coins.
Fixpoint DecCoins_Equal_loop (coins coinsB : DecCoins) : bool :=
  match coins, coinsB with
  | c :: coins', cB :: coinsB' =>
      if negb (DecCoin_Equal c cB) then false else DecCoins_Equal_loop coins' coinsB'
  | _, _ => true
  end.
Definition DecCoins_Equal (coins coinsB : DecCoins) : bool :=
  if negb (length coins =? length coinsB)%nat then false
  else DecCoins_Equal_loop (DecCoins_Sort coins) (DecCoins_Sort coinsB).
End DecCoinOps.

#[global] Arguments DecCoins_safeAdd : simpl never.
#[global] Arguments DecCoins_Add : simpl never.

(** ** Facts *)

Section DecCoinFacts.
Context {cfg : CoinConfig}.

Definition dec_ranged (cs : DecCoins) : Prop := Forall (λ c, dec_range (Amount c)) cs.
(** Accepted by [Validate], with amounts a [LegacyDec] result can have. *)
Definition good_dec_coins (cs : DecCoins) : Prop := valid_coins cs ∧ dec_ranged cs.

Lemma dec_range_0 : dec_range 0.
Proof. split; vm_compute; discriminate. Qed.
Lemma dec_range_between a b : 0 <= a <= b → dec_range b → dec_range a.
Proof. unfold dec_range, lowerLimit. lia. Qed.

(** Removing zeros and sorting are the functions of types/coin.go. *)
Lemma removeZeroDecCoins_eq cs : removeZeroDecCoins cs = removeZeroCoins cs.
Proof. reflexivity. Qed.
Lemma sanitizeDecCoins_eq cs : sanitizeDecCoins cs = sanitizeCoins cs.
Proof. reflexivity. Qed.
Lemma DecCoin_IsZero_eqb c : DecCoin_IsZero c = (Amount c =? 0).
Proof. apply Dec_IsZero_eqb. Qed.

(** *** Validation *)

Lemma dec_validate_single_Ok c r : dec_validate_single c = Ok r ↔ valid_coin c.
Proof. apply validate_single_Ok. Qed.

Lemma DecCoins_Validate_loop_Ok cs : ∀ low (seen : gset string) r,
  (∀ d, d ∈ seen → String.le d low) →
  DecCoins_Validate_loop low seen cs = Ok r ↔
  Forall valid_coin cs ∧ StronglySorted slt (low :: map Denom cs).
Proof.
  induction cs as [|c cs IH]; intros low seen r Hseen; cbn [DecCoins_Validate_loop map].
  - destruct r. split; [|done]. intros _. repeat constructor.
  - rewrite StronglySorted_cons, !Forall_cons.
    assert (∀ d, slt low (Denom c) → d ∈ ({[Denom c]} ∪ seen : gset string) → String.le d (Denom c)) as Hnext.
    { intros d [Hl _]%slt_le [->%elem_of_singleton|Hd]%elem_of_union; [done|].
      transitivity low; [by apply Hseen|done]. }
    rewrite outcome_bind_Ok. split.
    + intros (? & H1 & H2). go_inv. apply ValidateDenom_Ok in H.
      destruct (str_lt low (Denom c)) eqn:Elt; [|done].
      apply (IH _ _ _ (λ d, Hnext d Elt)) in H2 as [Hv Hs].
      split; [split; [split; [done|]|done]|].
      * unfold DecCoin_IsPositive in *. dec_simpl. lia.
      * split; [|done]. split; [exact Elt|]. apply StronglySorted_cons in Hs as [Hall _].
        by eapply Forall_slt_trans.
    + intros [[[Hd Hp] Hv] [[Hlt Hall] Hs]]. exists tt. split.
      * apply guard_err_Ok. rewrite bool_decide_eq_false. intros Hin%Hseen.
        apply slt_le in Hlt as [Hle Hne]. apply Hne. by apply (anti_symm String.le).
      * unfold ValidateDenom. rewrite Hd, Hlt. cbn. unfold DecCoin_IsPositive. dec_simpl.
        rewrite (proj2 (Z.ltb_lt _ _) Hp). cbn. by apply (IH _ _ _ (λ d, Hnext d Hlt)).
Qed.

Lemma DecCoins_Validate_Ok cs r : DecCoins_Validate cs = Ok r ↔ valid_coins cs.
Proof.
  unfold valid_coins, denoms_sorted. destruct cs as [|c [|c' cs]].
  - cbn. destruct r. naive_solver constructor.
  - cbn [DecCoins_Validate map]. rewrite dec_validate_single_Ok.
    rewrite Forall_singleton. split; [|by intros [? _]]. intros ?. split; [done|repeat constructor].
  - cbn [DecCoins_Validate]. rewrite outcome_bind_Ok, Forall_cons.
    assert (∀ d, d ∈ ({[Denom c]} : gset string) → String.le d (Denom c)) as Hs.
    { intros d ->%elem_of_singleton. done. }
    split.
    + intros ([] & H1 & H2). apply dec_validate_single_Ok in H1.
      apply DecCoins_Validate_loop_Ok in H2 as [Hv Hsr]; [|done]. done.
    + intros [[H1 Hv] Hsr]. exists tt. split; [by apply dec_validate_single_Ok|].
      by apply DecCoins_Validate_loop_Ok.
Qed.

(** *** Addition *)

Lemma safeAdd_nil_l b : DecCoins_safeAdd [] b = Ok (removeZeroCoins b).
Proof. by destruct b. Qed.
Lemma safeAdd_nil_r a : DecCoins_safeAdd a [] = Ok (removeZeroCoins a).
Proof. by destruct a. Qed.
Lemma safeAdd_cons ca a cb b :
  DecCoins_safeAdd (ca :: a) (cb :: b) =
  match String.compare (Denom ca) (Denom cb) with
  | Lt => rest ← DecCoins_safeAdd a (cb :: b);
          Ok (if negb (DecCoin_IsZero ca) then ca :: rest else rest)
  | Eq => res ← DecCoin_Add ca cb; rest ← DecCoins_safeAdd a b;
          Ok (if negb (DecCoin_IsZero res) then res :: rest else rest)
  | Gt => rest ← DecCoins_safeAdd (ca :: a) b;
          Ok (if negb (DecCoin_IsZero cb) then cb :: rest else rest)
  end.
Proof. reflexivity. Qed.

Lemma DecCoin_Add_Ok ca cb r :
  DecCoin_Add ca cb = Ok r ↔
  Denom ca = Denom cb ∧ dec_range (Amount ca + Amount cb) ∧ r = mkDecCoin (Denom ca) (Amount ca + Amount cb).
Proof.
  unfold DecCoin_Add. rewrite str_eq_spec. destruct (decide (Denom ca = Denom cb)) as [Hd|Hd].
  - rewrite bool_decide_true by done. cbn. rewrite outcome_bind_Ok. split.
    + intros (x & [-> Hr]%Dec_Add_Ok & [= <-]). done.
    + intros (_ & Hr & ->). exists (Amount ca + Amount cb). split; [|done]. by apply Dec_Add_Ok.
  - rewrite bool_decide_false by done. cbn. naive_solver.
Qed.

(** Adding a coin in front of a canonical set with larger denominations. *)
Lemma canonical_cons_opt c cs :
  Forall (slt (Denom c)) (map Denom cs) → canonical cs →
  canonical (if negb (DecCoin_IsZero c) then c :: cs else cs) ∧
  ∀ d, amount (if negb (DecCoin_IsZero c) then c :: cs else cs) d = amount (c :: cs) d.
Proof.
  intros Hl [Hs Hz]. rewrite DecCoin_IsZero_eqb. destruct (Z.eqb_spec (Amount c) 0) as [E|E]; cbn.
  - split; [done|]. intros d. rewrite E. by case_decide.
  - split; [|done]. split; [by constructor|by constructor].
Qed.
Lemma Forall_cons_opt (P : Coin → Prop) (b : bool) c cs :
  P c → Forall P cs → Forall P (if b then c :: cs else cs).
Proof. destruct b; auto. Qed.

Lemma safeAdd_Forall (P : string → Prop) a : ∀ b r,
  Forall P (map Denom a) → Forall P (map Denom b) → DecCoins_safeAdd a b = Ok r →
  Forall P (map Denom r).
Proof.
  setoid_rewrite Forall_map. induction a as [|ca a IHa]; intros b r Ha Hb H.
  { rewrite safeAdd_nil_l in H. injection H as <-. by apply removeZero_Forall. }
  revert r H. induction b as [|cb b IHb]; intros r H.
  { rewrite safeAdd_nil_r in H. injection H as <-. by apply removeZero_Forall. }
  rewrite safeAdd_cons in H.
  pose proof Ha as [Hca Ha']%Forall_cons. pose proof Hb as [Hcb Hb']%Forall_cons.
  destruct (String.compare (Denom ca) (Denom cb)); go_inv.
  - match goal with E : DecCoin_Add _ _ = Ok _ |- _ => apply DecCoin_Add_Ok in E as (_ & _ & ->) end.
    apply Forall_cons_opt; [done|]. eapply IHa; [done|exact Hb'|done].
  - apply Forall_cons_opt; [done|]. eapply IHa; [done|exact Hb|done].
  - apply Forall_cons_opt; [done|]. by apply IHb.
Qed.

Lemma denoms_sorted_cons c cs :
  denoms_sorted (c :: cs) ↔ Forall (slt (Denom c)) (map Denom cs) ∧ denoms_sorted cs.
Proof. unfold denoms_sorted. cbn. by rewrite StronglySorted_cons. Qed.

Lemma dec_safeAdd_Ok a : ∀ b r,
  denoms_sorted a → denoms_sorted b → DecCoins_safeAdd a b = Ok r →
  canonical r ∧ ∀ d, amount r d = amount a d + amount b d.
Proof.
  induction a as [|ca a IHa]; intros b r Ha Hb H.
  { rewrite safeAdd_nil_l in H. injection H as <-. split; [by apply removeZero_canonical|].
    apply removeZeroCoins_amount. }
  revert r H. induction b as [|cb b IHb]; intros r H.
  { rewrite safeAdd_nil_r in H. injection H as <-. split; [by apply removeZero_canonical|].
    intros d. rewrite removeZeroCoins_amount. cbn. lia. }
  rewrite safeAdd_cons in H.
  pose proof Ha as [Hla Ha']%denoms_sorted_cons. pose proof Hb as [Hlb Hb']%denoms_sorted_cons.
  destruct (str_compare_spec (Denom ca) (Denom cb)) as [Heq|Hlt|Hgt].
  - apply outcome_bind_Ok in H as (res & (_ & _ & ->)%DecCoin_Add_Ok & H).
    apply outcome_bind_Ok in H as (rest & Hrest & [= <-]).
    destruct (IHa _ _ Ha' Hb' Hrest) as [Hc Hm]. rewrite <- Heq in Hlb.
    destruct (canonical_cons_opt (mkDecCoin (Denom ca) (Amount ca + Amount cb)) rest) as [Hc' Hm'];
      [by eapply (safeAdd_Forall _ a b)|done|].
    split; [done|]. intros d. rewrite Hm'. cbn [amount Denom Amount]. rewrite Hm, <- Heq. case_decide; lia.
  - apply outcome_bind_Ok in H as (rest & Hrest & [= <-]).
    destruct (IHa _ _ Ha' Hb Hrest) as [Hc Hm].
    destruct (canonical_cons_opt ca rest) as [Hc' Hm'];
      [eapply (safeAdd_Forall _ a (cb :: b)); [done| |done]|done|].
    { constructor; [done|]. by eapply Forall_slt_trans. }
    split; [done|]. intros d. rewrite Hm'. cbn [amount]. rewrite Hm. cbn [amount]. lia.
  - apply outcome_bind_Ok in H as (rest & Hrest & [= <-]).
    destruct (IHb Hb' _ Hrest) as [Hc Hm].
    destruct (canonical_cons_opt cb rest) as [Hc' Hm'];
      [eapply (safeAdd_Forall _ (ca :: a) b); [|done|done]|done|].
    { constructor; [done|]. by eapply Forall_slt_trans. }
    split; [done|]. intros d. rewrite Hm'. cbn [amount]. rewrite Hm. cbn [amount]. lia.
Qed.

Lemma dec_safeAdd_total a : ∀ b,
  denoms_sorted a → denoms_sorted b → (∀ d, dec_range (amount a d + amount b d)) →
  ∃ r, DecCoins_safeAdd a b = Ok r.
Proof.
  induction a as [|ca a IHa]; intros b Ha Hb Hr.
  { rewrite safeAdd_nil_l. eauto. }
  induction b as [|cb b IHb].
  { rewrite safeAdd_nil_r. eauto. }
  rewrite safeAdd_cons.
  pose proof Ha as [Hla Ha']%denoms_sorted_cons. pose proof Hb as [Hlb Hb']%denoms_sorted_cons.
  pose proof (amount_below _ _ Hla) as Za. pose proof (amount_below _ _ Hlb) as Zb.
  destruct (str_compare_spec (Denom ca) (Denom cb)) as [Heq|Hlt|Hgt].
  - assert (DecCoin_Add ca cb = Ok (mkDecCoin (Denom ca) (Amount ca + Amount cb))) as ->.
    { apply DecCoin_Add_Ok. split; [done|]. split; [|done]. specialize (Hr (Denom ca)).
      cbn in Hr. rewrite <- Heq, !decide_True in Hr by done. rewrite <- Heq in Zb.
      replace (Amount ca + Amount cb) with (Amount ca + amount a (Denom ca) + (Amount cb + amount b (Denom ca))) by lia.
      done. }
    destruct (IHa b Ha' Hb') as [r ->]; [|cbn; eauto].
    intros d. specialize (Hr d). cbn in Hr. rewrite <- Heq in *. case_decide as Hd; [|done].
    subst d. rewrite Za, Zb. apply dec_range_0.
  - destruct (IHa (cb :: b) Ha' Hb) as [r ->]; [|cbn; eauto].
    intros d. specialize (Hr d). cbn in *. destruct (decide (Denom ca = d)) as [<-|Hd]; [|done].
    rewrite Za, (decide_False (P := Denom cb = Denom ca)) by (by apply not_eq_sym, slt_ne).
    rewrite (amount_below (Denom ca) b) by (by eapply Forall_slt_trans). apply dec_range_0.
  - destruct IHb as [r ->]; [done| |cbn; eauto].
    intros d. specialize (Hr d). cbn in *. destruct (decide (Denom cb = d)) as [<-|Hd]; [|done].
    rewrite Zb, (decide_False (P := Denom ca = Denom cb)) by (by apply not_eq_sym, slt_ne).
    rewrite (amount_below (Denom cb) a) by (by eapply Forall_slt_trans). apply dec_range_0.
Qed.

Lemma dec_canonical_ranged cs : canonical cs → (∀ d, dec_range (amount cs d)) → dec_ranged cs.
Proof.
  intros [Hs _] Hr. apply Forall_forall. intros c Hc.
  rewrite <- (amount_elem cs c) by (by try apply denoms_sorted_nodup). apply Hr.
Qed.

Lemma good_dec_coins_nil : good_dec_coins [].
Proof. split; [apply valid_coins_nil|constructor]. Qed.
Lemma good_dec_coins_single d a :
  denom_valid d = true → 0 < a → dec_range a → good_dec_coins [mkDecCoin d a].
Proof.
  intros Hd Ha Hr. split; [apply valid_coins_cons|by constructor].
  split; [done|]. split; [constructor|apply valid_coins_nil].
Qed.

Lemma DecCoins_Add_good a b :
  good_dec_coins a → good_dec_coins b → (∀ d, dec_range (amount a d + amount b d)) →
  ∃ r, DecCoins_Add a b = Ok r ∧ good_dec_coins r ∧ ∀ d, amount r d = amount a d + amount b d.
Proof.
  intros [Ha _] [Hb _] Hr.
  destruct (dec_safeAdd_total a b (proj2 Ha) (proj2 Hb) Hr) as [r H].
  destruct (dec_safeAdd_Ok a b r (proj2 Ha) (proj2 Hb) H) as [Hc Hm].
  exists r. split; [exact H|]. split; [split|done].
  - apply canonical_valid; [done| |]; intros d; rewrite Hm.
    + pose proof (valid_coins_amount_nonneg a d Ha). pose proof (valid_coins_amount_nonneg b d Hb). lia.
    + intros Hne. destruct (decide (amount a d = 0)) as [Hz|Hz].
      * apply (valid_denom_of_amount b); [apply Hb|lia].
      * by apply (valid_denom_of_amount a); [apply Ha|].
  - apply dec_canonical_ranged; [done|]. intros d. by rewrite Hm.
Qed.

(** *** Scaling *)

Section Scale.
Context (op : Z → outcome Z) (g : Z → Z).
Hypothesis op_g : ∀ a, op a = in_valid_range (g a).
Hypothesis g_nonneg : ∀ a, 0 <= a → 0 <= g a.

Lemma scale_step_good res c :
  good_dec_coins res → valid_coin c → amount res (Denom c) = 0 → dec_range (g (Amount c)) →
  ∃ r, scale_step op res c = Ok r ∧ good_dec_coins r ∧
       ∀ d, amount r d = amount res d + amount (map_amounts g [c]) d.
Proof.
  intros Hres [Hd Hp] Hz Hr. unfold scale_step. rewrite op_g.
  rewrite (proj2 (in_valid_range_Ok _ _) (conj eq_refl Hr)). cbn -[amount map_amounts].
  rewrite DecCoin_IsZero_eqb. cbn [Amount]. destruct (Z.eqb_spec (g (Amount c)) 0) as [E|E]; cbn [negb].
  - exists res. split; [done|]. split; [done|]. intros d. cbn. rewrite E. case_decide; lia.
  - assert (0 < g (Amount c)) as Hg by (pose proof (g_nonneg (Amount c)); lia).
    destruct (DecCoins_Add_good res [mkDecCoin (Denom c) (g (Amount c))]) as (r & Hadd & Hgood & Hm);
      [done|by apply good_dec_coins_single| |by exists r].
    intros d. cbn. case_decide as Hdd; [subst d|].
    + rewrite Hz. by rewrite Z.add_0_l, Z.add_0_r.
    + rewrite Z.add_0_r. destruct Hres as [Hv Hrr]. destruct (decide (d ∈ map Denom res)) as [Hin|Hni].
      * apply list_elem_of_fmap in Hin as (c' & -> & Hc').
        rewrite amount_elem by (done || apply denoms_sorted_nodup, Hv).
        unfold dec_ranged in Hrr. rewrite Forall_forall in Hrr. by apply Hrr.
      * rewrite amount_not_in by done. apply dec_range_0.
Qed.

Lemma scale_fold_good cs : ∀ res,
  good_dec_coins res → Forall valid_coin cs → NoDup (map Denom cs) →
  (∀ c, c ∈ cs → amount res (Denom c) = 0 ∧ dec_range (g (Amount c))) →
  ∃ r, foldM (scale_step op) res cs = Ok r ∧ good_dec_coins r ∧
       ∀ d, amount r d = amount res d + amount (map_amounts g cs) d.
Proof.
  induction cs as [|c cs IH]; intros res Hres Hv Hn Hc.
  { exists res. split; [done|]. split; [done|]. intros d. cbn. lia. }
  apply Forall_cons in Hv as [Hvc Hv]. cbn in Hn. apply NoDup_cons in Hn as [Hni Hn].
  destruct (Hc c ltac:(left)) as [Hz Hr].
  destruct (scale_step_good res c Hres Hvc Hz Hr) as (res' & Hs & Hres' & Hm').
  destruct (IH res' Hres' Hv Hn) as (r & Hf & Hr' & Hm).
  { intros c' Hc'. destruct (Hc c' ltac:(by right)) as [Hz' Hrc']. split; [|done].
    rewrite Hm', Hz'. cbn. rewrite decide_False; [done|].
    intros Heq. apply Hni. rewrite Heq. by apply list_elem_of_fmap_2. }
  exists r. cbn [foldM]. rewrite Hs. split; [exact Hf|]. split; [done|].
  intros d. change (map_amounts g (c :: cs)) with (map_amounts g [c] ++ map_amounts g cs).
  rewrite Hm, Hm', amount_app. lia.
Qed.

Lemma scale_loop_good cs :
  good_dec_coins cs → g 0 = 0 → (∀ d, dec_range (g (amount cs d))) →
  ∃ r, scale_loop op cs = Ok r ∧ good_dec_coins r ∧ ∀ d, amount r d = g (amount cs d).
Proof.
  intros [[Hv Hs] Hr] Hg0 Hg. pose proof (denoms_sorted_nodup _ Hs) as Hn.
  destruct (scale_fold_good cs [] good_dec_coins_nil Hv Hn) as (r & Hf & Hgood & Hm).
  { intros c Hc. split; [done|]. rewrite <- (amount_elem cs c) by done. apply Hg. }
  exists r. split; [done|]. split; [done|].
  intros d. rewrite Hm. cbn. by apply amount_map_amounts.
Qed.

Lemma scale_good_valid cs :
  g 0 = 0 → good_dec_coins cs → (∀ d, dec_range (g (amount cs d))) →
  ∃ r, scale_loop op cs = Ok r ∧ valid_coins r ∧ ∀ d, amount r d = g (amount cs d).
Proof.
  intros Hg Hcs Hr. destruct (scale_loop_good cs Hcs Hg Hr) as (r & H & [Hv _] & M).
  by exists r.
Qed.
End Scale.

(** Truncation is at most the rounded value. *)
Lemma truncate_le_round a : 0 <= a → Z.quot a precisionReuse <= chopPrecisionAndRound a.
Proof.
  intros Ha. unfold chopPrecisionAndRound, chopPrecisionAndRound_nonneg.
  rewrite (proj2 (Z.eqb_neq (Z.sgn a) (-1))) by (destruct a; cbn; lia).
  cbn zeta. repeat case_match; lia.
Qed.
End DecCoinFacts.

(** ** Properties *)

(** [DecCoins.Validate] accepts exactly the sets [Coins.Validate] describes
    (valid denominations, strictly increasing, all positive): the [seenDenoms]
    set adds nothing to the comparison with the previous denomination, it only
    changes which error is reported. *)
Theorem DecCoins_Validate_correct {cfg : CoinConfig} cs :
  DecCoins_IsValid cs = true ↔ valid_coins cs.
Proof.
  unfold DecCoins_IsValid, is_ok. rewrite <- (DecCoins_Validate_Ok cs tt).
  destruct (DecCoins_Validate cs) as [[]|e|p]; naive_solver.
Qed.

(** [DecCoins.Add] of two valid sets whose sums are in range succeeds,
    returns a valid set and adds every denomination; the merge of the sorted
    slices loses no coin.  [Sub] inverts it. *)
Theorem DecCoins_Add_Sub_pointwise {cfg : CoinConfig} a b :
  good_dec_coins a → good_dec_coins b → (∀ d, dec_range (amount a d + amount b d)) →
  ∃ s, DecCoins_Add a b = Ok s ∧ good_dec_coins s ∧ (∀ d, amount s d = amount a d + amount b d) ∧
       DecCoins_Sub s b = Ok a.
Proof.
  intros Ha Hb Hr. destruct (DecCoins_Add_good a b Ha Hb Hr) as (s & Hs & Gs & Ms).
  exists s. split; [done|]. split; [done|]. split; [done|].
  assert (∀ d, amount s d + amount (DecCoins_negative b) d = amount a d) as Hdiff.
  { intros d. rewrite Ms. change (DecCoins_negative b) with (Coins_negative b).
    rewrite negative_amount. lia. }
  assert (denoms_sorted (DecCoins_negative b)) as Hnb.
  { unfold denoms_sorted. change (DecCoins_negative b) with (Coins_negative b).
    rewrite negative_denoms. apply Hb. }
  destruct (dec_safeAdd_total s (DecCoins_negative b)) as [r Hadd]; [apply Gs|done| |].
  { intros d. rewrite Hdiff. destruct (Hr d) as [_ Hu].
    pose proof (valid_coins_amount_nonneg a d (proj1 Ha)).
    pose proof (valid_coins_amount_nonneg b d (proj1 Hb)). unfold dec_range, lowerLimit. lia. }
  destruct (dec_safeAdd_Ok _ _ _ (proj2 (proj1 Gs)) Hnb Hadd) as [Hc Hm].
  assert (r = a) as ->.
  { apply canonical_eq; [done|apply valid_coins_canonical, Ha|]. intros d. by rewrite Hm, Hdiff. }
  unfold DecCoins_Sub, DecCoins_SafeSub. rewrite Hadd. cbn.
  assert (DecCoins_IsAnyNegative a = false) as ->; [|done].
  apply (proj2 (IsAnyNegative_false a Hc)). intros d. apply valid_coins_amount_nonneg, Ha.
Qed.

Definition dec_coins_x : DecCoins := [mkDecCoin "atom" 1500000000000000000; mkDecCoin "uosmo" 250000000000000000].
Definition dec_coins_y : DecCoins := [mkDecCoin "uosmo" 5].
Lemma dec_range_small a : 0 <= a < 2 ^ 200 → dec_range a.
Proof.
  intros Ha. apply (dec_range_between a (2 ^ 200)); [lia|]. split; vm_compute; discriminate.
Qed.
Lemma dec_coins_x_good : good_dec_coins (cfg := default_config) dec_coins_x.
Proof.
  split; [by apply Coins_IsValid_spec|]. repeat constructor; cbn; apply dec_range_small; lia.
Qed.
Lemma dec_coins_y_good : good_dec_coins (cfg := default_config) dec_coins_y.
Proof.
  split; [by apply Coins_IsValid_spec|]. repeat constructor; cbn; apply dec_range_small; lia.
Qed.

Lemma DecCoins_Add_Sub_pointwise_witness :
  ∃ s, DecCoins_Add dec_coins_x dec_coins_y = Ok s ∧ DecCoins_Sub s dec_coins_y = Ok dec_coins_x.
Proof.
  destruct (DecCoins_Add_Sub_pointwise (cfg := default_config) dec_coins_x dec_coins_y
              dec_coins_x_good dec_coins_y_good) as (s & H1 & _ & _ & H2).
  - intros d. cbn. repeat case_decide; apply dec_range_small; lia.
  - exists s. split; [exact H1|exact H2].
Defined.

(** *** Truncation *)

Section Truncate.
Context {cfg : CoinConfig}.

Definition trunc_part (a : Z) : Z := Z.quot a precisionReuse.
Definition change_part (a : Z) : Z := a - Z.quot a precisionReuse * precisionReuse.

Lemma trunc_change_range a :
  0 <= a → 0 <= trunc_part a ∧ 0 <= change_part a < precisionReuse ∧
           a = trunc_part a * precisionReuse + change_part a ∧ change_part a <= a.
Proof.
  intros Ha. unfold trunc_part, change_part. rewrite Z.quot_div_nonneg by (done || apply precisionReuse_pos).
  pose proof precisionReuse_pos as Hp. pose proof (Z.div_mod a precisionReuse). 
  pose proof (Z.mod_pos_bound a precisionReuse Hp). pose proof (Z.div_pos a precisionReuse Ha Hp). nia.
Qed.

Lemma DecCoin_TruncateDecimal_good c :
  valid_coin c → dec_range (Amount c) →
  DecCoin_TruncateDecimal c =
    Ok (mkCoin (Denom c) (trunc_part (Amount c)), mkDecCoin (Denom c) (change_part (Amount c))) ∧
  int_range (trunc_part (Amount c)).
Proof.
  intros [Hd Hp] Hr. destruct (trunc_change_range (Amount c)) as (Ht & Hc & Hsum & Hle); [lia|].
  pose proof (Dec_TruncateInt_range _ Hr) as HT.
  split; [|unfold Dec_TruncateInt in HT; apply NewIntFromBigInt_Ok in HT as [_ HT]; exact HT].
  unfold DecCoin_TruncateDecimal. rewrite HT. cbn. rewrite LegacyNewDecFromInt_Ok. cbn.
  assert (Dec_Sub (Amount c) (Z.quot (Amount c) precisionReuse * precisionReuse)
          = Ok (change_part (Amount c))) as ->.
  { apply Dec_Sub_Ok. split; [done|]. apply (dec_range_between _ (Amount c)); [lia|done]. }
  unfold NewCoin, Coin_Validate, NewDecCoinFromDec, mustValidateDenom, ValidateDenom. cbn.
  rewrite Hd, Int_IsNegative_ltb, Dec_IsNegative_ltb. cbn.
  fold (trunc_part (Amount c)). rewrite !(proj2 (Z.ltb_ge _ _)) by lia. done.
Qed.


Lemma good_coins_single d a : denom_valid d = true → 0 < a → int_range a → good_coins [mkCoin d a].
Proof.
  intros Hd Ha Hr. split; [apply valid_coins_cons|by constructor].
  split; [done|]. split; [constructor|apply valid_coins_nil].
Qed.

(** Adding one coin of a new denomination to a set, unless it is zero. *)
Lemma add_fresh_coin t d a :
  good_coins t → denom_valid d = true → 0 <= a → int_range a → amount t d = 0 →
  ∃ t', (if negb (Coin_IsZero (mkCoin d a)) then Coins_Add t [mkCoin d a] else Ok t) = Ok t' ∧
        good_coins t' ∧ ∀ d', amount t' d' = amount t d' + amount [mkCoin d a] d'.
Proof.
  intros Ht Hd Ha Hr Hz. rewrite Coin_IsZero_eqb. cbn [Amount].
  destruct (Z.eqb_spec a 0) as [->|Hne]; cbn [negb].
  - exists t. split; [done|]. split; [done|]. intros d'. cbn. case_decide; lia.
  - apply Coins_Add_good; [done|apply good_coins_single; [done|lia|done]|].
    intros d'. cbn. case_decide; [subst d'; by rewrite Hz, Z.add_0_r|].
    rewrite Z.add_0_r. apply amount_in_range; [apply Ht|apply Ht].
Qed.
Lemma good_dec_amount_range t d : good_dec_coins t → dec_range (amount t d).
Proof.
  intros [[_ Hs] Hr]. destruct (decide (d ∈ map Denom t)) as [Hin|Hni].
  - apply list_elem_of_fmap in Hin as (c & -> & Hc).
    rewrite amount_elem by (done || by apply denoms_sorted_nodup).
    unfold dec_ranged in Hr. rewrite Forall_forall in Hr. by apply Hr.
  - rewrite amount_not_in by done. apply dec_range_0.
Qed.
Lemma add_fresh_dec_coin t d a :
  good_dec_coins t → denom_valid d = true → 0 <= a → dec_range a → amount t d = 0 →
  ∃ t', (if negb (DecCoin_IsZero (mkDecCoin d a)) then DecCoins_Add t [mkDecCoin d a] else Ok t) = Ok t' ∧
        good_dec_coins t' ∧ ∀ d', amount t' d' = amount t d' + amount [mkDecCoin d a] d'.
Proof.
  intros Ht Hd Ha Hr Hz. rewrite DecCoin_IsZero_eqb. cbn [Amount].
  destruct (Z.eqb_spec a 0) as [->|Hne]; cbn [negb].
  - exists t. split; [done|]. split; [done|]. intros d'. cbn. case_decide; lia.
  - apply DecCoins_Add_good; [done|apply good_dec_coins_single; [done|lia|done]|].
    intros d'. cbn. case_decide; [subst d'; by rewrite Hz, Z.add_0_r|].
    rewrite Z.add_0_r. by apply good_dec_amount_range.
Qed.

Lemma truncate_fold_good cs : ∀ t c,
  good_coins t → good_dec_coins c → Forall valid_coin cs → dec_ranged cs → NoDup (map Denom cs) →
  (∀ x, x ∈ cs → amount t (Denom x) = 0 ∧ amount c (Denom x) = 0) →
  ∃ t' c', foldM truncate_step (t, c) cs = Ok (t', c') ∧ good_coins t' ∧ good_dec_coins c' ∧
    ∀ d, amount t' d = amount t d + amount (map_amounts trunc_part cs) d ∧
         amount c' d = amount c d + amount (map_amounts change_part cs) d.
Proof.
  induction cs as [|x cs IH]; intros t c Ht Hc Hv Hr Hn Hfresh.
  { exists t, c. split; [done|]. split; [done|]. split; [done|]. intros d. cbn. lia. }
  apply Forall_cons in Hv as [Hvx Hv]. apply Forall_cons in Hr as [Hrx Hr].
  cbn in Hn. apply NoDup_cons in Hn as [Hni Hn].
  destruct (Hfresh x ltac:(left)) as [Hzt Hzc].
  destruct (DecCoin_TruncateDecimal_good x Hvx Hrx) as [Htr Hti].
  destruct (trunc_change_range (Amount x)) as (Hp1 & Hp2 & _ & Hp3); [destruct Hvx; lia|].
  destruct (add_fresh_coin t (Denom x) (trunc_part (Amount x))) as (t1 & Ht1 & Gt1 & Mt1);
    [done|apply Hvx|done|done|done|].
  destruct (add_fresh_dec_coin c (Denom x) (change_part (Amount x))) as (c1 & Hc1 & Gc1 & Mc1);
    [done|apply Hvx|lia|apply (dec_range_between _ (Amount x)); [lia|done]|done|].
  assert (truncate_step (t, c) x = Ok (t1, c1)) as Hstep.
  { unfold truncate_step. rewrite Htr. cbn -[Coins_Add Coin_IsZero DecCoin_IsZero].
    rewrite Ht1. cbn -[DecCoin_IsZero]. by rewrite Hc1. }
  destruct (IH t1 c1 Gt1 Gc1 Hv Hr Hn) as (t' & c' & Hf & Gt' & Gc' & M').
  { intros y Hy. destruct (Hfresh y ltac:(by right)) as [Hy1 Hy2].
    assert (Denom x ≠ Denom y) by (intros Heq; apply Hni; rewrite Heq; by apply list_elem_of_fmap_2).
    rewrite Mt1, Mc1, Hy1, Hy2. cbn. by rewrite !decide_False by done. }
  exists t', c'. cbn [foldM]. rewrite Hstep. split; [exact Hf|]. split; [done|]. split; [done|].
  intros d. destruct (M' d) as [-> ->]. rewrite Mt1, Mc1.
  change (map_amounts ?g (x :: cs)) with (map_amounts g [x] ++ map_amounts g cs).
  rewrite !amount_app. cbn. lia.
Qed.
End Truncate.

(** [TruncateDecimal] splits a valid set of decimal coins exactly: it
    succeeds, both parts are valid sets, for every denomination the integer
    part and the change add up to the original amount, and the change is less
    than one. *)
Theorem DecCoins_TruncateDecimal_exact {cfg : CoinConfig} cs :
  good_dec_coins cs →
  ∃ t c, DecCoins_TruncateDecimal cs = Ok (t, c) ∧ valid_coins t ∧ valid_coins c ∧
    ∀ d, amount cs d = amount t d * precisionReuse + amount c d ∧
         0 <= amount c d < precisionReuse.
Proof.
  intros [[Hv Hs] Hr]. pose proof (denoms_sorted_nodup _ Hs) as Hn.
  destruct (truncate_fold_good cs [] []) as (t & c & Hf & [Gt _] & [Gc _] & M);
    [split; [apply valid_coins_nil|constructor]|apply good_dec_coins_nil|done|done|done|done|].
  exists t, c. split; [done|]. split; [done|]. split; [done|].
  intros d. destruct (M d) as [-> ->]. rewrite !amount_map_amounts by done. cbn [amount].
  destruct (trunc_change_range (amount cs d)) as (H1 & H2 & H3 & _); [|lia].
  apply valid_coins_amount_nonneg. by split.
Qed.

Lemma DecCoins_TruncateDecimal_exact_witness :
  ∃ t c, DecCoins_TruncateDecimal (cfg := default_config) dec_coins_x = Ok (t, c) ∧
    ∀ d, amount dec_coins_x d = amount t d * precisionReuse + amount c d ∧
         0 <= amount c d < precisionReuse.
Proof.
  destruct (DecCoins_TruncateDecimal_exact (cfg := default_config) dec_coins_x dec_coins_x_good)
    as (t & c & H & _ & _ & M).
  exists t, c. split; [exact H|exact M].
Defined.

(** Scaling a valid set by a positive decimal acts on every denomination
    separately with the rounding of the decimal operation it is built on, drops
    what rounds to zero, and returns a valid set whenever the scaled amounts are
    in range: truncation for [MulDecTruncate] and [QuoDecTruncate], banker's
    rounding for [MulDec] and [QuoDec]. *)
Theorem DecCoins_scaling_pointwise {cfg : CoinConfig} cs k :
  good_dec_coins cs → 0 < k →
  (∀ d, dec_range (chopPrecisionAndRound (amount cs d * k))) →
  (∀ d, dec_range (chopPrecisionAndRound (Z.quot (amount cs d * squaredPrecisionReuse) k))) →
  (∀ d, dec_range (Z.quot (amount cs d * precisionReuse) k)) →
  (∃ r, DecCoins_MulDec cs k = Ok r ∧ valid_coins r ∧
        ∀ d, amount r d = chopPrecisionAndRound (amount cs d * k)) ∧
  (∃ r, DecCoins_MulDecTruncate cs k = Ok r ∧ valid_coins r ∧
        ∀ d, amount r d = Z.quot (amount cs d * k) precisionReuse) ∧
  (∃ r, DecCoins_QuoDec cs k = Ok r ∧ valid_coins r ∧
        ∀ d, amount r d = chopPrecisionAndRound (Z.quot (amount cs d * squaredPrecisionReuse) k)) ∧
  (∃ r, DecCoins_QuoDecTruncate cs k = Ok r ∧ valid_coins r ∧
        ∀ d, amount r d = Z.quot (amount cs d * precisionReuse) k).
Proof.
  intros Hcs Hk Hmul Hquo Hquot. pose proof precisionReuse_pos as Hp.
  assert (∀ a, dec_range (chopPrecisionAndRound a) → 0 <= a → dec_range (Z.quot a precisionReuse)) as Htr.
  { intros a Ha Hn. eapply dec_range_between; [|exact Ha]. split; [by apply Z.quot_pos; lia|].
    by apply truncate_le_round. }
  split; [|split; [|split]].
  - apply (scale_good_valid _ (λ a, chopPrecisionAndRound (a * k))); try done.
    intros a Ha. apply chopPrecisionAndRound_nonneg_ge. nia.
  - unfold DecCoins_MulDecTruncate. rewrite Dec_IsZero_eqb, (proj2 (Z.eqb_neq k 0)) by lia.
    apply (scale_good_valid _ (λ a, Z.quot (a * k) precisionReuse)); try done.
    + intros a Ha. apply Z.quot_pos; nia.
    + intros d. apply Htr; [apply Hmul|]. pose proof (valid_coins_amount_nonneg cs d (proj1 Hcs)). nia.
  - unfold DecCoins_QuoDec. rewrite Dec_IsZero_eqb, (proj2 (Z.eqb_neq k 0)) by lia. cbn [guard_panic mbind outcome_bind].
    apply (scale_good_valid _ (λ a, chopPrecisionAndRound (Z.quot (a * squaredPrecisionReuse) k))); try done.
    + intros a. unfold Dec_Quo, Dec_QuoMut, big_Quo. by rewrite (proj2 (Z.eqb_neq k 0)) by lia.
    + intros a Ha. apply chopPrecisionAndRound_nonneg_ge, Z.quot_pos; [|lia]. unfold squaredPrecisionReuse. nia.
  - unfold DecCoins_QuoDecTruncate. rewrite Dec_IsZero_eqb, (proj2 (Z.eqb_neq k 0)) by lia. cbn [guard_panic mbind outcome_bind].
    apply (scale_good_valid _ (λ a, Z.quot (a * precisionReuse) k)); try done.
    + intros a. unfold Dec_QuoTruncate, Dec_QuoTruncateMut, big_Quo. by rewrite (proj2 (Z.eqb_neq k 0)) by lia.
    + intros a Ha. apply Z.quot_pos; nia.
Qed.

Lemma DecCoins_scaling_pointwise_witness :
  ∃ r, DecCoins_MulDecTruncate dec_coins_x 333333333333333333 = Ok r ∧
       ∀ d, amount r d = Z.quot (amount dec_coins_x d * 333333333333333333) precisionReuse.
Proof.
  destruct (DecCoins_scaling_pointwise (cfg := default_config) dec_coins_x 333333333333333333 dec_coins_x_good)
    as (_ & (r & H & _ & M) & _).
  - lia.
  - intros d. cbn [dec_coins_x amount Denom Amount]. repeat case_decide; split; vm_compute; discriminate.
  - intros d. cbn [dec_coins_x amount Denom Amount]. repeat case_decide; split; vm_compute; discriminate.
  - intros d. cbn [dec_coins_x amount Denom Amount]. repeat case_decide; split; vm_compute; discriminate.
  - exists r. split; [exact H|exact M].
Defined.
