(* ===== verification/KeyCodec.v ===== *)
(** * Key codecs: collections/codec and collections/pair.go

    A collection stores an object under the bytes of its key.  A codec writes a
    key into a buffer and reads it back; the non-terminal variants are for the
    parts of a composite key that are not the last.  The interface [KeyCodec] is
    a class, its contract [KeyCodecLaws] says which keys are encoded to which
    bytes and that they are read back, and [OrderedKey] that the bytes sort like
    the keys.  Buffers are byte strings; an encoder returns the number of bytes
    written and the buffer. *)
From S2P Require Import Prelude Bytes.

Definition ErrEncoding : string := "collections: encoding error".

(** [KeyCodec] of codec.go, without the JSON and display methods. *)
Class KeyCodec (K : Type) := {
  Encode : string → K → outcome (nat * string);
  Decode : string → outcome (nat * K);
  Size : K → nat;
  EncodeNonTerminal : string → K → outcome (nat * string);
  DecodeNonTerminal : string → outcome (nat * K);
  SizeNonTerminal : K → nat
}.

(** ** Unsigned integers: uint.go *)

(** [binary.BigEndian.PutUintN(buffer, v)]; the buffer is indexed at its last byte first. *)
Definition PutUint (n : nat) (buffer : string) (v : Z) : outcome string :=
  if (String.length buffer <? n)%nat then Panic "index out of range" else Ok (copy_into buffer (be_put n v)).

Definition uint64Key_Encode (buffer : string) (key : Z) : outcome (nat * string) :=
  buffer ← PutUint 8 buffer key; Ok (8%nat, buffer).
Definition uint64Key_Decode (buffer : string) : outcome (nat * Z) :=
  if (String.length buffer <? 8)%nat then Err ErrEncoding else Ok (8%nat, be_get (str_take 8 buffer)).
Definition uint32Key_Encode (buffer : string) (key : Z) : outcome (nat * string) :=
  buffer ← PutUint 4 buffer key; Ok (4%nat, buffer).
Definition uint32Key_Decode (buffer : string) : outcome (nat * Z) :=
  if (String.length buffer <? 4)%nat then Err ErrEncoding else Ok (4%nat, be_get (str_take 4 buffer)).
Definition uint16Key_Encode (buffer : string) (key : Z) : outcome (nat * string) :=
  buffer ← PutUint 2 buffer key; Ok (2%nat, buffer).
Definition uint16Key_Decode (buffer : string) : outcome (nat * Z) :=
  if (String.length buffer <? 2)%nat then Err ErrEncoding else Ok (2%nat, be_get (str_take 2 buffer)).

(** A codec whose non-terminal form is the terminal one, of a fixed size. *)
Definition fixed_codec {K} (encode : string → K → outcome (nat * string)) (decode : string → outcome (nat * K))
    (size : nat) : KeyCodec K := {|
  Encode := encode; Decode := decode; Size _ := size;
  EncodeNonTerminal := encode; DecodeNonTerminal := decode; SizeNonTerminal _ := size
|}.
Definition Uint64Key : KeyCodec Z := fixed_codec uint64Key_Encode uint64Key_Decode 8.
Definition Uint32Key : KeyCodec Z := fixed_codec uint32Key_Encode uint32Key_Decode 4.
Definition Uint16Key : KeyCodec Z := fixed_codec uint16Key_Encode uint16Key_Decode 2.

(** ** Signed integers: int.go *)

(** [buffer[0] ^= 0x80] *)
Definition toggle_msb (buffer : string) : outcome string :=
  match buffer with
  | EmptyString => Panic "index out of range"
  | String c rest => Ok (String (byte (Z.lxor (code c) 0x80)) rest)
  end.
(** [(int64)(u)] and [(int32)(u)] *)
Definition to_signed (bits z : Z) : Z := if z <? 2 ^ (bits - 1) then z else z - 2 ^ bits.

Definition int64Key_Encode (buffer : string) (key : Z) : outcome (nat * string) :=
  buffer ← PutUint 8 buffer (key mod 2 ^ 64);
  buffer ← toggle_msb buffer;
  Ok (8%nat, buffer).
Definition int64Key_Decode (buffer : string) : outcome (nat * Z) :=
  if (String.length buffer <? 8)%nat then Err ErrEncoding
  else buffer ← toggle_msb (str_take 8 buffer); Ok (8%nat, to_signed 64 (be_get buffer)).
Definition int32Key_Encode (buffer : string) (key : Z) : outcome (nat * string) :=
  buffer ← PutUint 4 buffer (key mod 2 ^ 32);
  buffer ← toggle_msb buffer;
  Ok (4%nat, buffer).
Definition int32Key_Decode (buffer : string) : outcome (nat * Z) :=
  if (String.length buffer <? 4)%nat then Err ErrEncoding
  else buffer ← toggle_msb (str_take 4 buffer); Ok (4%nat, to_signed 32 (be_get buffer)).
Definition Int64Key : KeyCodec Z := fixed_codec int64Key_Encode int64Key_Decode 8.
Definition Int32Key : KeyCodec Z := fixed_codec int32Key_Encode int32Key_Decode 4.

(** ** Booleans: bool.go *)

Definition boolKey_Encode (buffer : string) (key : bool) : outcome (nat * string) :=
  match buffer with
  | EmptyString => Panic "index out of range"
  | String _ rest => Ok (1%nat, String (byte (if key then 1 else 0)) rest)
  end.
Definition boolKey_Decode (buffer : string) : outcome (nat * bool) :=
  match buffer with
  | EmptyString => Err ErrEncoding
  | String c _ =>
      if code c =? 0 then Ok (1%nat, false) else if code c =? 1 then Ok (1%nat, true) else Err ErrEncoding
  end.
Definition BoolKey : KeyCodec bool := fixed_codec boolKey_Encode boolKey_Decode 1.

(** ** Bytes: bytes.go *)

Definition MaxBytesKeyNonTerminalSize : nat := 255.
Definition bytesKey_Encode (buffer key : string) : outcome (nat * string) :=
  Ok (String.length buffer `min` String.length key, copy_into buffer key)%nat.
Definition bytesKey_Decode (buffer : string) : outcome (nat * string) := Ok (String.length buffer, buffer).
Definition bytesKey_EncodeNonTerminal (buffer key : string) : outcome (nat * string) :=
  if (MaxBytesKeyNonTerminalSize <? String.length key)%nat then Err ErrEncoding
  else match buffer with
       | EmptyString => Panic "index out of range"
       | String _ rest =>
           Ok ((String.length rest `min` String.length key + 1)%nat,
               String (byte (Z.of_nat (String.length key))) (copy_into rest key))
       end.
Definition bytesKey_DecodeNonTerminal (buffer : string) : outcome (nat * string) :=
  match buffer with
  | EmptyString => Err ErrEncoding
  | String c rest =>
      let keyLength := Z.to_nat (code c) in
      if (String.length rest <? keyLength)%nat then Err ErrEncoding
      else Ok ((1 + keyLength)%nat, str_take keyLength rest)
  end.
Definition BytesKey : KeyCodec string := {|
  Encode := bytesKey_Encode; Decode := bytesKey_Decode; Size key := String.length key;
  EncodeNonTerminal := bytesKey_EncodeNonTerminal; DecodeNonTerminal := bytesKey_DecodeNonTerminal;
  SizeNonTerminal key := (String.length key + 1)%nat
|}.

(** ** Strings: string.go *)

Definition StringDelimiter : Z := 0.

(** The bytes [range] advances over at the start of a string. *)
Definition rune_width (l : list Z) : nat :=
  match l with
  | b0 :: b1 :: l2 =>
      if b0 <? 0x80 then 1%nat
      else if in_range 0xC2 0xDF b0 && utf8_cont b1 then 2%nat
      else match l2 with
           | b2 :: l3 =>
               if in_range 0xE0 0xEF b0 && utf8_second b0 b1 && utf8_cont b2 then 3%nat
               else match l3 with
                    | b3 :: _ =>
                        if in_range 0xF0 0xF4 b0 && utf8_second b0 b1 && utf8_cont b2 && utf8_cont b3 then 4%nat else 1%nat
                    | [] => 1%nat
                    end
           | [] => 1%nat
           end
  | _ => 1%nat
  end.
(** The loop [for i := range key { buffer[i] = key[i] }]: [range] over a string
    visits the first byte of every code point; [skip] counts the continuation
    bytes it passes over. *)
Fixpoint encode_runes (skip : nat) (key buffer : string) : outcome string :=
  match key with
  | EmptyString => Ok buffer
  | String c key' =>
      match skip, buffer with
      | S skip, EmptyString => encode_runes skip key' ""
      | S skip, String b buffer => rest ← encode_runes skip key' buffer; Ok (String b rest)
      | O, _ =>
          if code c =? StringDelimiter then Err ErrEncoding
          else match buffer with
               | EmptyString => Panic "index out of range"
               | String _ buffer =>
                   rest ← encode_runes (rune_width (string_bytes key) - 1) key' buffer; Ok (String c rest)
               end
      end
  end.
Definition stringKey_Encode (buffer key : string) : outcome (nat * string) :=
  Ok (String.length buffer `min` String.length key, copy_into buffer key)%nat.
Definition stringKey_Decode (buffer : string) : outcome (nat * string) := Ok (String.length buffer, buffer).
Definition stringKey_EncodeNonTerminal (buffer key : string) : outcome (nat * string) :=
  buffer ← encode_runes 0 key buffer; Ok ((String.length key + 1)%nat, buffer).
(** [bytes.IndexByte(buffer, StringDelimiter)] *)
Fixpoint index_delimiter (buffer : string) : option nat :=
  match buffer with
  | EmptyString => None
  | String c rest => if code c =? StringDelimiter then Some O else S <$> index_delimiter rest
  end.
Definition stringKey_DecodeNonTerminal (buffer : string) : outcome (nat * string) :=
  match index_delimiter buffer with
  | None => Err ErrEncoding
  | Some i => Ok ((i + 1)%nat, str_take i buffer)
  end.
Definition StringKey : KeyCodec string := {|
  Encode := stringKey_Encode; Decode := stringKey_Decode; Size key := String.length key;
  EncodeNonTerminal := stringKey_EncodeNonTerminal; DecodeNonTerminal := stringKey_DecodeNonTerminal;
  SizeNonTerminal key := (String.length key + 1)%nat
|}.

(** ** Pairs: collections/pair.go *)

Record Pair (K1 K2 : Type) := mkPair { key1 : option K1; key2 : option K2 }.
Arguments mkPair {K1 K2} key1 key2.
Arguments key1 {K1 K2} p.
Arguments key2 {K1 K2} p.
Definition Join {K1 K2} (k1 : K1) (k2 : K2) : Pair K1 K2 := mkPair (Some k1) (Some k2).
Definition PairPrefix {K1 K2} (k : K1) : Pair K1 K2 := mkPair (Some k) None.

(** [buffer[n:]] *)
Definition slice_from (n : nat) (buffer : string) : outcome string :=
  if (String.length buffer <? n)%nat then Panic "slice bounds out of range" else Ok (str_drop n buffer).

Section PairCodec.
Context {K1 K2 : Type} (keyCodec1 : KeyCodec K1) (keyCodec2 : KeyCodec K2).

(** Write a part with [encode] after the first [written] bytes of the buffer. *)
Definition encode_part {K} (encode : string → K → outcome (nat * string)) (written : nat) (buffer : string) (key : option K)
    : outcome (nat * string) :=
  match key with
  | None => Ok (written, buffer)
  | Some key =>
      tail ← slice_from written buffer;
      '(w, tail) ← encode tail key;
      Ok ((written + w)%nat, str_take written buffer +:+ tail)
  end.
Definition pair_Encode (buffer : string) (pair : Pair K1 K2) : outcome (nat * string) :=
  '(writtenTotal, buffer) ← encode_part EncodeNonTerminal 0 buffer (key1 pair);
  encode_part Encode writtenTotal buffer (key2 pair).
Definition pair_EncodeNonTerminal (buffer : string) (pair : Pair K1 K2) : outcome (nat * string) :=
  '(writtenTotal, buffer) ← encode_part EncodeNonTerminal 0 buffer (key1 pair);
  encode_part EncodeNonTerminal writtenTotal buffer (key2 pair).
Definition pair_Decode (buffer : string) : outcome (nat * Pair K1 K2) :=
  '(read1, k1) ← DecodeNonTerminal buffer;
  rest ← slice_from read1 buffer;
  '(read2, k2) ← Decode rest;
  Ok ((read1 + read2)%nat, Join k1 k2).
Definition pair_DecodeNonTerminal (buffer : string) : outcome (nat * Pair K1 K2) :=
  '(read1, k1) ← DecodeNonTerminal buffer;
  rest ← slice_from read1 buffer;
  '(read2, k2) ← DecodeNonTerminal rest;
  Ok ((read1 + read2)%nat, Join k1 k2).
Definition pair_Size (key : Pair K1 K2) : nat :=
  from_option SizeNonTerminal 0%nat (key1 key) + from_option Size 0%nat (key2 key).
Definition pair_SizeNonTerminal (key : Pair K1 K2) : nat :=
  from_option SizeNonTerminal 0%nat (key1 key) + from_option SizeNonTerminal 0%nat (key2 key).
Definition PairKeyCodec : KeyCodec (Pair K1 K2) := {|
  Encode := pair_Encode; Decode := pair_Decode; Size := pair_Size;
  EncodeNonTerminal := pair_EncodeNonTerminal; DecodeNonTerminal := pair_DecodeNonTerminal;
  SizeNonTerminal := pair_SizeNonTerminal
|}.
End PairCodec.

(** ** The contract of a codec *)

Class KeyCodecLaws {K} (KC : KeyCodec K) := {
  kc_dom : K → Prop;
  kc_ndom : K → Prop;
  kc_bytes : K → string;
  kc_nbytes : K → string;
  Size_bytes k : kc_dom k → Size k = String.length (kc_bytes k);
  Encode_bytes k rest : kc_dom k → Encode (zeros (Size k) +:+ rest) k = Ok (Size k, kc_bytes k +:+ rest);
  Decode_bytes k : kc_dom k → Decode (kc_bytes k) = Ok (String.length (kc_bytes k), k);
  Size_nbytes k : kc_ndom k → SizeNonTerminal k = String.length (kc_nbytes k);
  Encode_nbytes k rest : kc_ndom k →
    EncodeNonTerminal (zeros (SizeNonTerminal k) +:+ rest) k = Ok (SizeNonTerminal k, kc_nbytes k +:+ rest);
  Decode_nbytes k rest : kc_ndom k →
    DecodeNonTerminal (kc_nbytes k +:+ rest) = Ok (String.length (kc_nbytes k), k)
}.
#[global] Hint Mode KeyCodecLaws ! ! : typeclass_instances.

(** Keys sort like their bytes, also as a part of a composite key. *)
Class OrderedKey {K} {KC : KeyCodec K} (KL : KeyCodecLaws KC) (lt : K → K → Prop) : Prop := {
  ndom_dom k : kc_ndom k → kc_dom k;
  lt_trichotomy k1 k2 : kc_dom k1 → kc_dom k2 → lt k1 k2 ∨ k1 = k2 ∨ lt k2 k1;
  bytes_lt k1 k2 : kc_dom k1 → kc_dom k2 → lt k1 k2 → slt (kc_bytes k1) (kc_bytes k2);
  nbytes_lt k1 k2 r1 r2 : kc_ndom k1 → kc_ndom k2 → lt k1 k2 → slt (kc_nbytes k1 +:+ r1) (kc_nbytes k2 +:+ r2)
}.

Section CodecFacts.
Context {K} {KC : KeyCodec K} {KL : KeyCodecLaws KC}.

(** Keys are determined by their bytes, and no non-terminal encoding is the
    start of another one. *)
Lemma kc_bytes_inj k1 k2 : kc_dom k1 → kc_dom k2 → kc_bytes k1 = kc_bytes k2 → k1 = k2.
Proof. intros H1 H2 E. pose proof (Decode_bytes k1 H1) as D1. rewrite E, (Decode_bytes k2 H2) in D1. by injection D1. Qed.
Lemma kc_nbytes_inj k1 k2 r1 r2 :
  kc_ndom k1 → kc_ndom k2 → kc_nbytes k1 +:+ r1 = kc_nbytes k2 +:+ r2 → k1 = k2 ∧ r1 = r2.
Proof.
  intros H1 H2 E. pose proof (Decode_nbytes k1 r1 H1) as D1. rewrite E, (Decode_nbytes k2 r2 H2) in D1.
  injection D1 as _ ->. split; [done|]. by apply (inj (String.app (kc_nbytes k1))).
Qed.
Lemma bytes_lt_iff {lt} `{!OrderedKey KL lt} k1 k2 : kc_dom k1 → kc_dom k2 →
  lt k1 k2 ↔ slt (kc_bytes k1) (kc_bytes k2).
Proof.
  intros H1 H2. split; [by apply bytes_lt|]. intros Hlt. destruct (lt_trichotomy k1 k2 H1 H2) as [?|[->|H]]; [done| |].
  - by apply slt_irrefl in Hlt.
  - apply bytes_lt in H; [|done..]. exfalso. eapply slt_irrefl. by etransitivity.
Qed.
End CodecFacts.

(** ** Laws of the fixed-size codecs *)

Lemma PutUint_zeros n v rest : PutUint n (zeros n +:+ rest) v = Ok (be_put n v +:+ rest).
Proof.
  unfold PutUint. rewrite str_length_app, zeros_length, (proj2 (Nat.ltb_ge _ _)) by lia.
  rewrite copy_into_app; [done|]. by rewrite zeros_length, be_put_length.
Qed.

Definition uint_encode (n : nat) (buffer : string) (key : Z) : outcome (nat * string) :=
  buffer ← PutUint n buffer key; Ok (n, buffer).
Definition uint_decode (n : nat) (buffer : string) : outcome (nat * Z) :=
  if (String.length buffer <? n)%nat then Err ErrEncoding else Ok (n, be_get (str_take n buffer)).
Lemma uint_decode_bytes n k rest : 0 <= k < 2 ^ (8 * Z.of_nat n) → uint_decode n (be_put n k +:+ rest) = Ok (n, k).
Proof.
  intros Hk. unfold uint_decode. rewrite str_length_app, be_put_length, (proj2 (Nat.ltb_ge _ _)) by lia.
  rewrite str_take_exact by apply be_put_length. by rewrite be_get_put, Z.mod_small.
Qed.
Lemma uint_encode_bytes n k rest : uint_encode n (zeros n +:+ rest) k = Ok (n, be_put n k +:+ rest).
Proof. unfold uint_encode. by rewrite PutUint_zeros. Qed.

Definition uint_laws (n : nat) : KeyCodecLaws (fixed_codec (uint_encode n) (uint_decode n) n).
Proof.
  refine {| kc_dom k := 0 <= k < 2 ^ (8 * Z.of_nat n); kc_ndom k := 0 <= k < 2 ^ (8 * Z.of_nat n);
            kc_bytes k := be_put n k; kc_nbytes k := be_put n k |}; cbn; intros k; rewrite ?be_put_length.
  - done.
  - intros. apply uint_encode_bytes.
  - intros Hk. rewrite <- (str_app_nil_r (be_put n k)). by apply uint_decode_bytes.
  - done.
  - intros. apply uint_encode_bytes.
  - intros. by apply uint_decode_bytes.
Defined.
#[global] Instance uint_ordered n : OrderedKey (uint_laws n) Z.lt.
Proof.
  split; [done|..]; cbn; intros k1 k2.
  - lia.
  - intros. by apply be_put_lt.
  - intros. apply slt_app_r; [by rewrite !be_put_length|]. by apply be_put_lt.
Qed.
#[global] Instance Uint64Key_laws : KeyCodecLaws Uint64Key := uint_laws 8.
#[global] Instance Uint32Key_laws : KeyCodecLaws Uint32Key := uint_laws 4.
#[global] Instance Uint16Key_laws : KeyCodecLaws Uint16Key := uint_laws 2.
#[global] Instance Uint64Key_ordered : OrderedKey Uint64Key_laws Z.lt := uint_ordered 8.
#[global] Instance Uint32Key_ordered : OrderedKey Uint32Key_laws Z.lt := uint_ordered 4.
#[global] Instance Uint16Key_ordered : OrderedKey Uint16Key_laws Z.lt := uint_ordered 2.

(** Toggling the top bit of a signed integer shifts its range to start at 0. *)
Lemma lxor_128 x : 0 <= x < 256 → Z.lxor x 128 = (x + 128) mod 256.
Proof.
  intros Hx. assert (forallb (λ x, Z.lxor x 128 =? (x + 128) mod 256) (seqZ 0 256) = true) as H by (vm_compute; done).
  rewrite forallb_forall in H. apply Z.eqb_eq, H. apply list_elem_of_In, elem_of_seqZ. lia.
Qed.
(** The low bytes do not see a multiple of the range. *)
Lemma be_put_add n m z q : (n <= m)%nat → be_put n (z + q * 2 ^ (8 * Z.of_nat m)) = be_put n z.
Proof.
  intros Hm. induction n as [|n IH]; [done|]. cbn [be_put]. rewrite IH by lia. f_equal.
  apply code_inj. rewrite !code_byte, !Z.shiftr_div_pow2 by lia.
  replace (8 * Z.of_nat m) with (8 * Z.of_nat n + 8 + 8 * (Z.of_nat m - Z.of_nat n - 1)) by lia.
  rewrite !Z.pow_add_r by lia. change (2 ^ 8) with 256.
  replace (q * (2 ^ (8 * Z.of_nat n) * 256 * 2 ^ (8 * (Z.of_nat m - Z.of_nat n - 1))))
    with (q * 2 ^ (8 * (Z.of_nat m - Z.of_nat n - 1)) * 256 * 2 ^ (8 * Z.of_nat n)) by ring.
  rewrite Z.div_add by lia. by rewrite Z.mod_add by lia.
Qed.
Lemma toggle_msb_be n z rest :
  toggle_msb (be_put (S n) z +:+ rest) = Ok (be_put (S n) (z + 2 ^ (8 * Z.of_nat (S n) - 1)) +:+ rest).
Proof.
  replace (8 * Z.of_nat (S n) - 1) with (8 * Z.of_nat n + 7) by lia. rewrite Z.pow_add_r, Z.mul_comm by lia.
  cbn [be_put]. rewrite be_put_add, !str_app_cons by done. cbn [toggle_msb]. do 2 f_equal. apply code_inj.
  rewrite !code_byte, lxor_128 by (apply Z.mod_pos_bound; lia). rewrite Z.mod_mod by lia.
  rewrite Z.add_mod_idemp_l, !Z.shiftr_div_pow2, Z.div_add by lia. done.
Qed.

(** The [8 n]-bit signed integers. *)
Definition int_encode (n : nat) (buffer : string) (key : Z) : outcome (nat * string) :=
  buffer ← PutUint n buffer (key mod 2 ^ (8 * Z.of_nat n));
  buffer ← toggle_msb buffer;
  Ok (n, buffer).
Definition int_decode (n : nat) (buffer : string) : outcome (nat * Z) :=
  if (String.length buffer <? n)%nat then Err ErrEncoding
  else buffer ← toggle_msb (str_take n buffer); Ok (n, to_signed (8 * Z.of_nat n) (be_get buffer)).
Definition signed_range (n : nat) (k : Z) : Prop :=
  - 2 ^ (8 * Z.of_nat n - 1) <= k < 2 ^ (8 * Z.of_nat n - 1).
Definition int_bytes (n : nat) (k : Z) : string := be_put n (k + 2 ^ (8 * Z.of_nat n - 1)).

Lemma be_put_mod n z : be_put n (z mod 2 ^ (8 * Z.of_nat n)) = be_put n z.
Proof.
  rewrite (Z.mod_eq z) by lia. replace (z - 2 ^ (8 * Z.of_nat n) * (z / 2 ^ (8 * Z.of_nat n)))
    with (z + - (z / 2 ^ (8 * Z.of_nat n)) * 2 ^ (8 * Z.of_nat n)) by ring. by apply be_put_add.
Qed.
Lemma int_encode_bytes n k rest : int_encode (S n) (zeros (S n) +:+ rest) k = Ok (S n, int_bytes (S n) k +:+ rest).
Proof.
  unfold int_encode. rewrite PutUint_zeros. cbn [mbind outcome_bind]. rewrite be_put_mod, toggle_msb_be. done.
Qed.
Lemma int_decode_bytes n k rest : signed_range (S n) k → int_decode (S n) (int_bytes (S n) k +:+ rest) = Ok (S n, k).
Proof.
  intros Hk. unfold int_decode, int_bytes. rewrite str_length_app, be_put_length, (proj2 (Nat.ltb_ge _ _)) by lia.
  set (B := 2 ^ (8 * Z.of_nat (S n) - 1)). rewrite str_take_exact by apply be_put_length.
  rewrite <- (str_app_nil_r (be_put (S n) (k + B))). unfold B. rewrite toggle_msb_be, str_app_nil_r. cbn [mbind outcome_bind].
  fold B. rewrite be_get_put. unfold signed_range in Hk. fold B in Hk. unfold to_signed.
  assert (2 ^ (8 * Z.of_nat (S n)) = 2 * B) as E by (unfold B; rewrite <- Z.pow_succ_r by lia; f_equal; lia).
  rewrite E. fold B. replace (k + B + B) with (k + 1 * (2 * B)) by ring. rewrite Z.mod_add by lia.
  destruct (Z.lt_ge_cases k 0).
  - assert (k mod (2 * B) = k + 2 * B) as -> by (symmetry; apply (Z.mod_unique _ _ (-1)); lia).
    rewrite (proj2 (Z.ltb_ge _ _)) by lia. do 2 f_equal. lia.
  - rewrite Z.mod_small by lia. by rewrite (proj2 (Z.ltb_lt _ _)) by lia.
Qed.
Lemma int_shift_range n k : signed_range (S n) k → 0 <= k + 2 ^ (8 * Z.of_nat (S n) - 1) < 2 ^ (8 * Z.of_nat (S n)).
Proof.
  unfold signed_range. intros Hk.
  assert (2 ^ (8 * Z.of_nat (S n)) = 2 * 2 ^ (8 * Z.of_nat (S n) - 1)) by (rewrite <- Z.pow_succ_r by lia; f_equal; lia).
  lia.
Qed.

Definition int_laws (n : nat) : KeyCodecLaws (fixed_codec (int_encode (S n)) (int_decode (S n)) (S n)).
Proof.
  refine {| kc_dom := signed_range (S n); kc_ndom := signed_range (S n);
            kc_bytes := int_bytes (S n); kc_nbytes := int_bytes (S n) |}; cbn [Encode Decode Size EncodeNonTerminal
    DecodeNonTerminal SizeNonTerminal fixed_codec]; intros k; unfold int_bytes; rewrite ?be_put_length.
  - done.
  - intros. apply int_encode_bytes.
  - intros Hk. rewrite <- (str_app_nil_r (be_put _ _)). by apply int_decode_bytes.
  - done.
  - intros. apply int_encode_bytes.
  - intros. by apply int_decode_bytes.
Defined.
#[global] Instance int_ordered n : OrderedKey (int_laws n) Z.lt.
Proof.
  split; [done|..]; cbn [kc_dom kc_ndom kc_bytes kc_nbytes int_laws]; unfold int_bytes; intros k1 k2.
  - lia.
  - intros H1 H2 Hlt. apply be_put_lt; [by apply int_shift_range..|lia].
  - intros r1 r2 H1 H2 Hlt. apply slt_app_r; [by rewrite !be_put_length|]. apply be_put_lt; [by apply int_shift_range..|lia].
Qed.
#[global] Instance Int64Key_laws : KeyCodecLaws Int64Key := int_laws 7.
#[global] Instance Int32Key_laws : KeyCodecLaws Int32Key := int_laws 3.
#[global] Instance Int64Key_ordered : OrderedKey Int64Key_laws Z.lt := int_ordered 7.
#[global] Instance Int32Key_ordered : OrderedKey Int32Key_laws Z.lt := int_ordered 3.

(** ** Laws of the other codecs *)

Definition bool_lt (a b : bool) : Prop := a = false ∧ b = true.
#[global] Instance BoolKey_laws : KeyCodecLaws BoolKey.
Proof.
  refine {| kc_dom _ := True; kc_ndom _ := True;
            kc_bytes b := String (byte (if b : bool then 1 else 0)) ""; kc_nbytes b := String (byte (if b : bool then 1 else 0)) "" |};
    by intros [].
Defined.
#[global] Instance BoolKey_ordered : OrderedKey BoolKey_laws bool_lt.
Proof.
  split; [done|..]; cbn; unfold bool_lt.
  - intros [] []; tauto.
  - by intros ? ? _ _ [-> ->].
  - intros ? ? r1 r2 _ _ [-> ->]. apply slt_cons. left. vm_compute. done.
Qed.

Lemma copy_zeros k rest : copy_into (zeros (String.length k) +:+ rest) k = k +:+ rest.
Proof. apply copy_into_app. apply zeros_length. Qed.
Lemma bytesKey_Encode_zeros k rest :
  bytesKey_Encode (zeros (String.length k) +:+ rest) k = Ok (String.length k, k +:+ rest).
Proof.
  unfold bytesKey_Encode. rewrite copy_zeros, str_length_app, zeros_length. do 2 f_equal. lia.
Qed.
#[global] Instance BytesKey_laws : KeyCodecLaws BytesKey.
Proof.
  refine {| kc_dom _ := True; kc_ndom k := (String.length k <= 255)%nat;
            kc_bytes k := k; kc_nbytes k := String (byte (Z.of_nat (String.length k))) k |}.
  - done.
  - intros k rest _. apply bytesKey_Encode_zeros.
  - done.
  - intros k _. cbn. lia.
  - intros k rest Hk. cbn [EncodeNonTerminal SizeNonTerminal BytesKey]. unfold bytesKey_EncodeNonTerminal.
    unfold MaxBytesKeyNonTerminalSize. rewrite (proj2 (Nat.ltb_ge _ _)) by lia. rewrite Nat.add_comm. cbn [zeros Nat.add].
    rewrite str_app_cons, copy_zeros, str_length_app, zeros_length. do 2 f_equal. lia.
  - intros k rest Hk. cbn [DecodeNonTerminal BytesKey]. rewrite str_app_cons. unfold bytesKey_DecodeNonTerminal.
    rewrite code_byte, Z.mod_small, Nat2Z.id, str_length_app, (proj2 (Nat.ltb_ge _ _)), str_take_app by lia. done.
Defined.

(** A string without the delimiter in which every code point takes one byte, such
    as an ASCII string. *)
Fixpoint plain (k : string) : bool :=
  match k with
  | EmptyString => true
  | String c k' => negb (code c =? StringDelimiter) && (rune_width (string_bytes k) =? 1)%nat && plain k'
  end.
Lemma plain_cons c k : plain (String c k) = true ↔
  code c ≠ 0 ∧ rune_width (string_bytes (String c k)) = 1%nat ∧ plain k = true.
Proof.
  cbn [plain]. unfold StringDelimiter. rewrite !andb_true_iff, negb_true_iff, Z.eqb_neq, Nat.eqb_eq. tauto.
Qed.
Definition is_ascii (k : string) : Prop := Forall (λ b, 0 < b < 0x80) (string_bytes k).
Lemma ascii_plain k : is_ascii k → plain k = true.
Proof.
  unfold is_ascii. induction k as [|c k IH]; [done|]. cbn [string_bytes]. intros [Hc Hk]%Forall_cons.
  apply plain_cons. change (Z.of_N (Ascii.N_of_ascii c)) with (code c) in Hc. split; [lia|]. split; [|by apply IH].
  cbn [string_bytes]. change (Z.of_N (Ascii.N_of_ascii c)) with (code c). unfold rune_width.
  destruct (string_bytes k); [done|]. by rewrite (proj2 (Z.ltb_lt _ _)) by lia.
Qed.

Lemma encode_runes_plain k : plain k = true → ∀ rest,
  encode_runes 0 k (zeros (String.length k) +:+ rest) = Ok (k +:+ rest).
Proof.
  induction k as [|c k IH]; intros Hp rest; [by destruct rest|]. apply plain_cons in Hp as (Hc & Hw & Hp).
  cbn [encode_runes String.length zeros]. rewrite str_app_cons. unfold StringDelimiter.
  rewrite (proj2 (Z.eqb_neq _ _)) by done. rewrite Hw. cbn [Nat.sub]. by rewrite IH.
Qed.
Lemma index_delimiter_plain k rest : plain k = true →
  index_delimiter (k +:+ zeros 1 +:+ rest) = Some (String.length k).
Proof.
  induction k as [|c k IH]; intros Hp; [done|]. apply plain_cons in Hp as (Hc & _ & Hp).
  rewrite str_app_cons. cbn [index_delimiter String.length]. unfold StringDelimiter.
  rewrite (proj2 (Z.eqb_neq _ _)) by done. by rewrite IH.
Qed.

#[global] Instance StringKey_laws : KeyCodecLaws StringKey.
Proof.
  refine {| kc_dom _ := True; kc_ndom k := plain k = true; kc_bytes k := k; kc_nbytes k := k +:+ zeros 1 |}.
  - done.
  - intros k rest _. apply bytesKey_Encode_zeros.
  - done.
  - intros k _. rewrite str_length_app. done.
  - intros k rest Hk. cbn [EncodeNonTerminal SizeNonTerminal StringKey]. unfold stringKey_EncodeNonTerminal.
    rewrite zeros_app, <- str_app_assoc, encode_runes_plain by done. cbn [mbind outcome_bind].
    by rewrite <- str_app_assoc.
  - intros k rest Hk. cbn [DecodeNonTerminal StringKey]. unfold stringKey_DecodeNonTerminal.
    rewrite <- str_app_assoc, index_delimiter_plain, str_take_app by done. by rewrite str_length_app.
Defined.
#[global] Instance StringKey_ordered : OrderedKey StringKey_laws slt.
Proof.
  split; [done|..]; cbn [kc_dom kc_ndom kc_bytes kc_nbytes StringKey_laws].
  - intros k1 k2 _ _. destruct (str_compare_spec k1 k2); auto.
  - done.
  - intros k1. induction k1 as [|c k1 IH]; intros [|d k2] r1 r2 H1 H2 Hlt; try (by apply slt_nil_r in Hlt).
    + apply plain_cons in H2 as (Hd & _). pose proof (code_range d). apply slt_cons. left. rewrite code_byte, Z.mod_0_l; lia.
    + apply plain_cons in H1 as (_ & _ & H1), H2 as (_ & _ & H2). rewrite !str_app_cons. apply slt_cons.
      apply slt_cons in Hlt as [?|[-> Hlt]]; [by left|right]. split; [done|]. by apply IH.
Qed.

(** ** Laws of pairs *)

Lemma slice_from_app a b : slice_from (String.length a) (a +:+ b) = Ok b.
Proof. unfold slice_from. rewrite str_length_app, (proj2 (Nat.ltb_ge _ _)) by lia. by rewrite str_drop_app. Qed.

Section PairLaws.
Context {K1 K2} {KC1 : KeyCodec K1} {KC2 : KeyCodec K2} (KL1 : KeyCodecLaws KC1) (KL2 : KeyCodecLaws KC2).

Definition pair_dom (dom2 : K2 → Prop) (p : Pair K1 K2) : Prop :=
  ∃ k1 k2, p = Join k1 k2 ∧ kc_ndom k1 ∧ dom2 k2.
Definition pair_bytes (bytes2 : K2 → string) (p : Pair K1 K2) : string :=
  from_option kc_nbytes "" (key1 p) +:+ from_option bytes2 "" (key2 p).

Lemma encode_part1 (k1 : K1) rest : kc_ndom k1 →
  encode_part EncodeNonTerminal 0 (zeros (SizeNonTerminal k1) +:+ rest) (Some k1) =
  Ok (String.length (kc_nbytes k1), kc_nbytes k1 +:+ rest).
Proof.
  intros Hk. cbn [encode_part]. change (slice_from 0 ?b) with (Ok b). cbn [mbind outcome_bind].
  rewrite Encode_nbytes by done. cbn [mbind outcome_bind]. by rewrite Size_nbytes.
Qed.
Lemma encode_part2 {K} (encode : string → K → outcome (nat * string)) size bytes a k rest :
  encode (zeros size +:+ rest) k = Ok (size, bytes +:+ rest) →
  encode_part encode (String.length a) (a +:+ zeros size +:+ rest) (Some k) =
  Ok ((String.length a + size)%nat, a +:+ bytes +:+ rest).
Proof.
  intros H. cbn [encode_part]. rewrite slice_from_app. cbn [mbind outcome_bind]. rewrite H. cbn [mbind outcome_bind].
  by rewrite str_take_app.
Qed.

#[global] Instance PairKeyCodec_laws : KeyCodecLaws (PairKeyCodec KC1 KC2).
Proof.
  refine {| kc_dom := pair_dom kc_dom; kc_ndom := pair_dom kc_ndom;
            kc_bytes := pair_bytes kc_bytes; kc_nbytes := pair_bytes kc_nbytes |};
    intros p; [| intros rest | | | intros rest | intros rest]; intros (k1 & k2 & -> & H1 & H2);
    unfold pair_bytes; cbn [Join key1 key2 from_option Encode Decode Size EncodeNonTerminal DecodeNonTerminal
      SizeNonTerminal PairKeyCodec]; rewrite ?str_length_app.
  - unfold pair_Size. cbn. by rewrite Size_nbytes, Size_bytes.
  - unfold pair_Size, pair_Encode. cbn [Join key1 key2 from_option]. rewrite zeros_app, <- !str_app_assoc, encode_part1 by done.
    cbn [mbind outcome_bind]. rewrite (encode_part2 _ _ (kc_bytes k2)) by (by apply Encode_bytes). by rewrite Size_nbytes.
  - unfold pair_Decode. rewrite Decode_nbytes by done. cbn [mbind outcome_bind]. rewrite slice_from_app. cbn [mbind outcome_bind].
    by rewrite Decode_bytes.
  - unfold pair_SizeNonTerminal. cbn. by rewrite !Size_nbytes.
  - unfold pair_SizeNonTerminal, pair_EncodeNonTerminal. cbn [Join key1 key2 from_option].
    rewrite zeros_app, <- !str_app_assoc, encode_part1 by done.
    cbn [mbind outcome_bind]. rewrite (encode_part2 _ _ (kc_nbytes k2)) by (by apply Encode_nbytes). by rewrite !Size_nbytes.
  - unfold pair_DecodeNonTerminal. rewrite <- str_app_assoc, Decode_nbytes by done. cbn [mbind outcome_bind].
    rewrite slice_from_app. cbn [mbind outcome_bind]. by rewrite Decode_nbytes.
Defined.

(** Lexicographic order of pairs. *)
Definition pair_lt (lt1 : K1 → K1 → Prop) (lt2 : K2 → K2 → Prop) (p q : Pair K1 K2) : Prop :=
  match p, q with
  | mkPair (Some a1) (Some a2), mkPair (Some b1) (Some b2) => lt1 a1 b1 ∨ a1 = b1 ∧ lt2 a2 b2
  | _, _ => False
  end.
#[global] Instance PairKeyCodec_ordered lt1 lt2 `{!OrderedKey KL1 lt1} `{!OrderedKey KL2 lt2} :
  OrderedKey PairKeyCodec_laws (pair_lt lt1 lt2).
Proof.
  split.
  - intros p (k1 & k2 & -> & H1 & H2). exists k1, k2. split; [done|]. split; [done|]. by apply ndom_dom.
  - intros p q (a1 & a2 & -> & A1 & A2) (b1 & b2 & -> & B1 & B2). cbn.
    destruct (lt_trichotomy a1 b1 (ndom_dom _ A1) (ndom_dom _ B1)) as [?|[->|?]]; [by left; left| |by right; right; left].
    destruct (lt_trichotomy a2 b2 A2 B2) as [?|[->|?]]; [by left; right|by right; left|by right; right; right].
  - intros p q (a1 & a2 & -> & A1 & A2) (b1 & b2 & -> & B1 & B2) [Hlt|[-> Hlt]]; cbn; unfold pair_bytes; cbn.
    + by apply nbytes_lt.
    + apply slt_app. by apply bytes_lt.
  - intros p q r1 r2 (a1 & a2 & -> & A1 & A2) (b1 & b2 & -> & B1 & B2) [Hlt|[-> Hlt]]; cbn; unfold pair_bytes; cbn;
      rewrite <- !str_app_assoc.
    + by apply nbytes_lt.
    + apply slt_app. by apply nbytes_lt.
Qed.
End PairLaws.

(** ** Properties *)

(** Every key of the domain is written within its declared size and read back,
    alone and in front of other bytes. *)
Definition codec_correct {K} (KC : KeyCodec K) (dom ndom : K → Prop) : Prop :=
  (∀ k, dom k → ∃ b, Encode (zeros (Size k)) k = Ok (Size k, b) ∧ Decode b = Ok (Size k, k)) ∧
  (∀ k rest, ndom k → ∃ b, EncodeNonTerminal (zeros (SizeNonTerminal k)) k = Ok (SizeNonTerminal k, b) ∧
                           DecodeNonTerminal (b +:+ rest) = Ok (SizeNonTerminal k, k)).
(** The bytes written for two keys compare like the keys. *)
Definition codec_ordered {K} (KC : KeyCodec K) (dom : K → Prop) (lt : K → K → Prop) : Prop :=
  ∀ k1 k2 n1 n2 b1 b2, dom k1 → dom k2 → Encode (zeros (Size k1)) k1 = Ok (n1, b1) →
    Encode (zeros (Size k2)) k2 = Ok (n2, b2) → lt k1 k2 ↔ slt b1 b2.

Section LawsCorrect.
Context {K} {KC : KeyCodec K} {KL : KeyCodecLaws KC}.

Lemma Encode_zeros k : kc_dom k → Encode (zeros (Size k)) k = Ok (Size k, kc_bytes k).
Proof. intros Hk. rewrite <- (str_app_nil_r (zeros _)), Encode_bytes by done. by rewrite str_app_nil_r. Qed.
Lemma laws_correct : codec_correct KC kc_dom kc_ndom.
Proof.
  split.
  - intros k Hk. exists (kc_bytes k). rewrite Encode_zeros by done. split; [done|]. by rewrite Decode_bytes, Size_bytes.
  - intros k rest Hk. exists (kc_nbytes k). rewrite <- (str_app_nil_r (zeros _)), Encode_nbytes by done.
    rewrite str_app_nil_r. split; [done|]. by rewrite Decode_nbytes, Size_nbytes.
Qed.
Lemma laws_ordered {lt} `{!OrderedKey KL lt} : codec_ordered KC kc_dom lt.
Proof.
  intros k1 k2 n1 n2 b1 b2 H1 H2. rewrite !Encode_zeros by done. intros [= _ <-] [= _ <-]. by apply bytes_lt_iff.
Qed.
End LawsCorrect.

(** C35. The basic key codecs read back what they wrote.  As a whole key (or the last
    part of a composite one) this holds for all keys: unsigned and signed
    integers, booleans, bytes and strings.  As a part before the last it holds for
    all integers and booleans, for at most 255 bytes, and for strings of one-byte
    code points without the delimiter; other strings are not read back, see
    [string_nonterminal_exact].  The encodings of integers, booleans and strings
    as whole keys sort like the keys. *)
Theorem key_codecs_correct :
  codec_correct Uint64Key (λ k, 0 <= k < 2 ^ 64) (λ k, 0 <= k < 2 ^ 64) ∧
  codec_correct Uint32Key (λ k, 0 <= k < 2 ^ 32) (λ k, 0 <= k < 2 ^ 32) ∧
  codec_correct Uint16Key (λ k, 0 <= k < 2 ^ 16) (λ k, 0 <= k < 2 ^ 16) ∧
  codec_correct Int64Key (λ k, - 2 ^ 63 <= k < 2 ^ 63) (λ k, - 2 ^ 63 <= k < 2 ^ 63) ∧
  codec_correct Int32Key (λ k, - 2 ^ 31 <= k < 2 ^ 31) (λ k, - 2 ^ 31 <= k < 2 ^ 31) ∧
  codec_correct BoolKey (λ _, True) (λ _, True) ∧
  codec_correct BytesKey (λ _, True) (λ k, (String.length k <= 255)%nat) ∧
  codec_correct StringKey (λ _, True) (λ k, plain k = true) ∧
  codec_ordered Uint64Key (λ k, 0 <= k < 2 ^ 64) Z.lt ∧
  codec_ordered Uint32Key (λ k, 0 <= k < 2 ^ 32) Z.lt ∧
  codec_ordered Uint16Key (λ k, 0 <= k < 2 ^ 16) Z.lt ∧
  codec_ordered Int64Key (λ k, - 2 ^ 63 <= k < 2 ^ 63) Z.lt ∧
  codec_ordered Int32Key (λ k, - 2 ^ 31 <= k < 2 ^ 31) Z.lt ∧
  codec_ordered BoolKey (λ _, True) bool_lt ∧
  codec_ordered StringKey (λ _, True) slt.
Proof.
  repeat split_and; [apply (laws_correct (KL := Uint64Key_laws))|apply (laws_correct (KL := Uint32Key_laws))
  |apply (laws_correct (KL := Uint16Key_laws))|apply (laws_correct (KL := Int64Key_laws))
  |apply (laws_correct (KL := Int32Key_laws))|apply (laws_correct (KL := BoolKey_laws))
  |apply (laws_correct (KL := BytesKey_laws))|apply (laws_correct (KL := StringKey_laws))
  |apply (laws_ordered (KL := Uint64Key_laws))|apply (laws_ordered (KL := Uint32Key_laws))
  |apply (laws_ordered (KL := Uint16Key_laws))|apply (laws_ordered (KL := Int64Key_laws))
  |apply (laws_ordered (KL := Int32Key_laws))|apply (laws_ordered (KL := BoolKey_laws))
  |apply (laws_ordered (KL := StringKey_laws))].
Qed.

(** A negative integer, and a string as the first part of a pair. *)
Lemma key_codecs_correct_witness :
  (∃ b, Encode (KeyCodec := Int64Key) (zeros 8) (-5) = Ok (8%nat, b) ∧ Decode (KeyCodec := Int64Key) b = Ok (8%nat, -5)) ∧
  (∃ b, EncodeNonTerminal (KeyCodec := StringKey) (zeros 6) "stake" = Ok (6%nat, b) ∧
        DecodeNonTerminal (KeyCodec := StringKey) (b +:+ "rest") = Ok (6%nat, "stake")) ∧
  slt "a" "b".
Proof.
  destruct key_codecs_correct as (_ & _ & _ & [Hi _] & _ & _ & _ & [_ Hs] & _ & _ & _ & _ & _ & _ & Ho).
  split; [apply (Hi (-5)); lia|]. split; [apply (Hs "stake" "rest"); reflexivity|].
  refine (proj1 (Ho "a" "b" 1%nat 1%nat "a" "b" I I eq_refl eq_refl) _). vm_compute. reflexivity.
Defined.

(** Composite keys: if both codecs keep their contract, so does the codec
    of pairs of them, pairs of pairs included; a pair is stored as the
    non-terminal bytes of its first part followed by the bytes of the second,
    determined by them, and the bytes sort lexicographically by part. *)
Theorem pair_codec_correct {K1 K2} {KC1 : KeyCodec K1} {KC2 : KeyCodec K2}
    {KL1 : KeyCodecLaws KC1} {KL2 : KeyCodecLaws KC2} lt1 lt2 (a1 b1 : K1) (a2 b2 : K2) :
  OrderedKey KL1 lt1 → OrderedKey KL2 lt2 → kc_ndom a1 → kc_ndom b1 → kc_dom a2 → kc_dom b2 →
  let codec := PairKeyCodec KC1 KC2 in
  let bytes k1 k2 := kc_nbytes k1 +:+ kc_bytes k2 in
  codec_correct codec (pair_dom KL1 kc_dom) (pair_dom KL1 kc_ndom) ∧
  Encode (zeros (Size (Join a1 a2))) (Join a1 a2) = Ok (Size (Join a1 a2), bytes a1 a2) ∧
  Decode (bytes a1 a2) = Ok (Size (Join a1 a2), Join a1 a2) ∧
  (bytes a1 a2 = bytes b1 b2 → a1 = b1 ∧ a2 = b2) ∧
  (lt1 a1 b1 ∨ a1 = b1 ∧ lt2 a2 b2 ↔ slt (bytes a1 a2) (bytes b1 b2)).
Proof.
  intros O1 O2 A1 B1 A2 B2 codec bytes.
  assert (kc_dom (KeyCodecLaws := PairKeyCodec_laws KL1 KL2) (Join a1 a2)) as HA by (by exists a1, a2).
  assert (kc_dom (KeyCodecLaws := PairKeyCodec_laws KL1 KL2) (Join b1 b2)) as HB by (by exists b1, b2).
  split; [apply (laws_correct (KL := PairKeyCodec_laws KL1 KL2))|]. split; [exact (Encode_zeros (KL := PairKeyCodec_laws KL1 KL2) (Join a1 a2) HA)|].
  split.
  { pose proof (Decode_bytes (KeyCodecLaws := PairKeyCodec_laws KL1 KL2) (Join a1 a2) HA) as HD.
    rewrite <- (Size_bytes (KeyCodecLaws := PairKeyCodec_laws KL1 KL2) (Join a1 a2) HA) in HD. exact HD. }
  split.
  - intros E. pose proof (kc_bytes_inj (KL := PairKeyCodec_laws KL1 KL2) (Join a1 a2) (Join b1 b2) HA HB E) as E'. by injection E'.
  - exact (bytes_lt_iff (KL := PairKeyCodec_laws KL1 KL2) (lt := pair_lt lt1 lt2) (Join a1 a2) (Join b1 b2) HA HB).
Qed.
Lemma pair_codec_correct_witness :
  Encode (KeyCodec := PairKeyCodec StringKey Uint64Key) (zeros 12) (Join "usd" 258) =
  Ok (12%nat, "usd" +:+ zeros 7 +:+ String (byte 1) (String (byte 2) "")).
Proof.
  destruct (pair_codec_correct (KC1 := StringKey) (KC2 := Uint64Key) slt Z.lt "usd" "usd" 258 258) as (_ & H & _);
    [apply _|apply _|reflexivity|reflexivity|vm_compute; by split|vm_compute; by split|]. exact H.
Defined.

(** ** Strings inside composite keys

    What the codec of strings does outside its contract. *)

Lemma rune_width_pos l : (1 <= rune_width l)%nat.
Proof. destruct l as [|b0 [|b1 [|b2 [|b3 l]]]]; cbn; repeat case_match; lia. Qed.
Lemma encode_runes_skip n c k buffer rest : encode_runes (S n) (String c k) (String (byte 0) buffer) = Ok rest →
  index_delimiter rest = Some O.
Proof. cbn. destruct (encode_runes n k buffer); by inversion_clear 1. Qed.

Lemma decoded_plain k : ∀ rest buf i, encode_runes 0 k (zeros (String.length k) +:+ rest) = Ok buf →
  index_delimiter buf = Some i → str_take i buf = k → plain k = true.
Proof.
  induction k as [|c k IH]; intros rest buf i; [done|]. cbn [encode_runes String.length zeros]. rewrite str_app_cons.
  unfold StringDelimiter at 1. destruct (Z.eqb_spec (code c) 0) as [|Hc]; [done|].
  destruct (encode_runes _ k _) as [buf'| |] eqn:E; [|done|done]. cbn [mbind outcome_bind index_delimiter].
  intros [= <-]. cbn [index_delimiter]. unfold StringDelimiter. rewrite (proj2 (Z.eqb_neq _ _) Hc).
  destruct (index_delimiter buf') as [i'|] eqn:Hi; [|done]. cbn [fmap option_fmap option_map].
  intros [= <-]. cbn [str_take]. intros [= Hk].
  pose proof (rune_width_pos (string_bytes (String c k))) as Hw.
  destruct (rune_width (string_bytes (String c k))) as [|[|n]] eqn:Ew; [lia| |]; cbn [Nat.sub] in E.
  - apply plain_cons. eauto.
  - destruct k as [|c' k]; [by injection Ew|]. cbn [String.length zeros] in E.
    rewrite str_app_cons in E. apply encode_runes_skip in E. rewrite Hi in E. injection E as ->. done.
Qed.

(** A string survives as a non-terminal part of a composite key exactly if
    it has no zero byte and all its code points are single bytes (ASCII text):
    then, and only then, is what was written read back.  Other text is not
    rejected: the bytes after the first of a code point are written as zeros, so
    that different strings get the same key. *)
Theorem string_nonterminal_exact k :
  ((∃ n m buffer, EncodeNonTerminal (KeyCodec := StringKey) (zeros (SizeNonTerminal (KeyCodec := StringKey) k)) k = Ok (n, buffer) ∧
    DecodeNonTerminal (KeyCodec := StringKey) buffer = Ok (m, k)) ↔ plain k = true) ∧
  let a_acute := String (byte 0xC3) (String (byte 0xA1) "") in
  let a_grave := String (byte 0xC3) (String (byte 0xA0) "") in
  stringKey_EncodeNonTerminal (zeros 3) a_acute = stringKey_EncodeNonTerminal (zeros 3) a_grave.
Proof.
  split; [|done]. split.
  - intros (n & m & buffer & HE & HD). cbn [EncodeNonTerminal SizeNonTerminal StringKey] in HE.
    unfold stringKey_EncodeNonTerminal in HE. rewrite zeros_app in HE.
    destruct (encode_runes 0 k _) as [buf| |] eqn:E; [|done..]. injection HE as _ <-.
    cbn [DecodeNonTerminal StringKey] in HD. unfold stringKey_DecodeNonTerminal in HD.
    destruct (index_delimiter buf) as [i|] eqn:Hi; [|done]. injection HD as _ HD. by eapply decoded_plain.
  - intros Hp. pose proof (Encode_nbytes (KC := StringKey) (KeyCodecLaws := StringKey_laws) k "" Hp) as HE.
    pose proof (Decode_nbytes (KC := StringKey) (KeyCodecLaws := StringKey_laws) k "" Hp) as HD.
    rewrite !str_app_nil_r in HE. rewrite str_app_nil_r in HD. eexists _, _, _. split; [exact HE|exact HD].
Qed.
