(* ===== verification/Collections.v ===== *)
(** * Indexed maps: collections/indexed_map.go, collections/indexes

    A keeper stores its objects in collections.  An [IndexedMap] is a primary
    map with a list of indexes, which it updates around each write.  The two
    kinds of index the modelled keepers use are here: [Unique] (one reference
    key per object, conflicts refused) for the accounts, and [ReversePair] (the
    pair key reversed) for the balances.  Key and value codecs are abstracted:
    a collection is a finite map. *)
From S2P Require Import Prelude.

Definition ErrConflict : string := "collections: conflict".
Definition ErrNotFound : string := "collections: not found".

(** ** A map with a unique index *)

Section Unique.
Context {K V R : Type} `{Countable K, Countable R}.
(** The reference key of an object. *)
Variable getRefKey : K → V → R.

Record UniqueMap := mkUniqueMap { um_map : gmap K V; um_refKeys : gmap R K }.

Definition Unique_unreference (pk : K) (value : V) : GoM UniqueMap unit :=
  modifyM (λ m, mkUniqueMap (um_map m) (delete (getRefKey pk value) (um_refKeys m))).
Definition Unique_Reference (pk : K) (newValue : V) : GoM UniqueMap unit :=
  oldValue ← readM (λ m, um_map m !! pk);
  _ ← match oldValue with
      | Some v => Unique_unreference pk v
      | None => mret tt
      end;
  let refKey := getRefKey pk newValue in
  has ← readM (λ m, bool_decide (is_Some (um_refKeys m !! refKey)));
  if has : bool then errM ErrConflict
  else modifyM (λ m, mkUniqueMap (um_map m) (<[refKey := pk]> (um_refKeys m))).
Definition Unique_Unreference (pk : K) : GoM UniqueMap unit :=
  value ← readM (λ m, um_map m !! pk);
  match value with
  | Some v => Unique_unreference pk v
  | None => errM ErrNotFound
  end.

Definition UniqueMap_Set (pk : K) (value : V) : GoM UniqueMap unit :=
  _ ← Unique_Reference pk value;
  modifyM (λ m, mkUniqueMap (<[pk := value]> (um_map m)) (um_refKeys m)).
Definition UniqueMap_Remove (pk : K) : GoM UniqueMap unit :=
  _ ← Unique_Unreference pk;
  modifyM (λ m, mkUniqueMap (delete pk (um_map m)) (um_refKeys m)).

(** The index holds exactly the reference keys of the stored objects. *)
Definition unique_index_ok (m : UniqueMap) : Prop :=
  ∀ r pk, um_refKeys m !! r = Some pk ↔ ∃ v, um_map m !! pk = Some v ∧ getRefKey pk v = r.

(** The index after the old reference of [pk] is gone. *)
Lemma unreferenced_index pk m :
  unique_index_ok m →
  let rk := match um_map m !! pk with
            | Some v => delete (getRefKey pk v) (um_refKeys m)
            | None => um_refKeys m
            end in
  ∀ r p, rk !! r = Some p ↔ p ≠ pk ∧ ∃ v, um_map m !! p = Some v ∧ getRefKey p v = r.
Proof.
  intros Hok rk r p. subst rk. destruct (um_map m !! pk) as [v|] eqn:Ev.
  - rewrite lookup_delete_Some, (Hok r p). split.
    + intros [Hne (v' & Hv' & Hr)]. split; [|by exists v']. intros ->.
      rewrite Ev in Hv'. by simplify_eq.
    + intros [Hne (v' & Hv' & Hr)]. split; [|by exists v']. intros Heq.
      assert (um_refKeys m !! r = Some p) as Hp by (apply Hok; by exists v').
      assert (um_refKeys m !! getRefKey pk v = Some pk) as Hpk by (apply Hok; by exists v).
      rewrite Heq, Hp in Hpk. by simplify_eq.
  - rewrite (Hok r p). split; [|by intros [_ ?]]. intros (v & Hv & Hr).
    split; [|by exists v]. intros ->. congruence.
Qed.

(** One equation for the whole write. *)
Lemma UniqueMap_Set_eq pk value m :
  let rk := match um_map m !! pk with
            | Some v => delete (getRefKey pk v) (um_refKeys m)
            | None => um_refKeys m
            end in
  UniqueMap_Set pk value m =
  if bool_decide (is_Some (rk !! getRefKey pk value)) then (Err ErrConflict, mkUniqueMap (um_map m) rk)
  else (Ok tt, mkUniqueMap (<[pk := value]> (um_map m)) (<[getRefKey pk value := pk]> rk)).
Proof.
  unfold UniqueMap_Set, Unique_Reference, Unique_unreference, mbind, GoM_bind. cbn.
  destruct m as [mm rk]. cbn. destruct (mm !! pk); cbn; by case_bool_decide.
Qed.

Lemma UniqueMap_Set_ok pk value m r m' :
  unique_index_ok m → UniqueMap_Set pk value m = (Ok r, m') →
  unique_index_ok m' ∧ um_map m' = <[pk := value]> (um_map m).
Proof.
  intros Hok Hs. pose proof (unreferenced_index pk m Hok) as I0. rewrite UniqueMap_Set_eq in Hs.
  cbn zeta in *. set (rk := match um_map m !! pk with Some _ => _ | None => _ end) in *.
  case_bool_decide as Hhas; simplify_eq. split; [|done].
  intros r p. cbn. rewrite lookup_insert_Some, (I0 r p). setoid_rewrite lookup_insert_Some. split.
  - intros [[<- <-]|[Hr [Hp (v & Hv & Hr')]]]; [exists value; naive_solver|exists v; naive_solver].
  - intros (v & [[<- <-]|[Hp Hv]] & Hr); [by left|]. right. split; [|naive_solver].
    intros Heq. apply Hhas. exists p. apply I0. split; [done|]. exists v. naive_solver.
Qed.

Lemma UniqueMap_Remove_ok pk m r m' :
  unique_index_ok m → UniqueMap_Remove pk m = (Ok r, m') →
  unique_index_ok m' ∧ um_map m' = delete pk (um_map m).
Proof.
  intros Hok Hs. pose proof (unreferenced_index pk m Hok) as I0.
  unfold UniqueMap_Remove, Unique_Unreference, Unique_unreference, mbind, GoM_bind, modifyM in Hs. cbn in Hs, I0.
  destruct (um_map m !! pk) as [v|] eqn:Ev; cbn in Hs; simplify_eq. split; [|done].
  intros r p. cbn. rewrite (I0 r p). setoid_rewrite lookup_delete_Some. naive_solver.
Qed.

(** A write is refused only when another object has the reference key. *)
Lemma UniqueMap_Set_conflict pk value m :
  unique_index_ok m →
  (∃ pk' v', pk' ≠ pk ∧ um_map m !! pk' = Some v' ∧ getRefKey pk' v' = getRefKey pk value) ↔
  fst (UniqueMap_Set pk value m) = Err ErrConflict.
Proof.
  intros Hok. pose proof (unreferenced_index pk m Hok) as I0. rewrite UniqueMap_Set_eq. cbn zeta in *.
  set (rk := match um_map m !! pk with Some _ => _ | None => _ end) in *.
  transitivity (is_Some (rk !! getRefKey pk value)); [|case_bool_decide; naive_solver].
  split.
  - intros (pk' & v' & Hne & Hv' & Hr). exists pk'. apply I0. naive_solver.
  - intros [p Hp]. apply I0 in Hp as [Hne (v' & Hv' & Hr)]. naive_solver.
Qed.
End Unique.
Arguments UniqueMap K V R {_ _ _ _}.

(** ** A map keyed by pairs with a reversed index *)

Section ReversePair.
Context {K1 K2 V : Type} `{Countable K1, Countable K2}.

Record ReversePairMap := mkReversePairMap {
  rp_map : gmap (K1 * K2) V;
  rp_refKeys : gset (K2 * K1);
}.

Definition ReversePair_Reference (pk : K1 * K2) (m : ReversePairMap) : ReversePairMap :=
  mkReversePairMap (rp_map m) ({[(pk.2, pk.1)]} ∪ rp_refKeys m).
Definition ReversePair_Unreference (pk : K1 * K2) (m : ReversePairMap) : ReversePairMap :=
  mkReversePairMap (rp_map m) (rp_refKeys m ∖ {[(pk.2, pk.1)]}).
Definition ReversePairMap_Set (pk : K1 * K2) (value : V) (m : ReversePairMap) : ReversePairMap :=
  let m := ReversePair_Reference pk m in mkReversePairMap (<[pk := value]> (rp_map m)) (rp_refKeys m).
Definition ReversePairMap_Remove (pk : K1 * K2) (m : ReversePairMap) : ReversePairMap :=
  let m := ReversePair_Unreference pk m in mkReversePairMap (delete pk (rp_map m)) (rp_refKeys m).

Definition reverse_index_ok (m : ReversePairMap) : Prop :=
  ∀ k1 k2, (k2, k1) ∈ rp_refKeys m ↔ is_Some (rp_map m !! (k1, k2)).

Lemma ReversePairMap_Set_ok pk v m :
  reverse_index_ok m → reverse_index_ok (ReversePairMap_Set pk v m).
Proof.
  intros Hok k1 k2. cbn. rewrite elem_of_union, elem_of_singleton, lookup_insert_is_Some, (Hok k1 k2).
  destruct pk as [p1 p2]. cbn. destruct (decide ((p1, p2) = (k1, k2))); naive_solver.
Qed.
Lemma ReversePairMap_Remove_ok pk m :
  reverse_index_ok m → reverse_index_ok (ReversePairMap_Remove pk m).
Proof.
  intros Hok k1 k2. cbn. rewrite elem_of_difference, elem_of_singleton, lookup_delete_is_Some, (Hok k1 k2).
  destruct pk as [p1 p2]. cbn. naive_solver.
Qed.
End ReversePair.
Arguments ReversePairMap K1 K2 V {_ _ _ _}.
