(* ===== verification/Account.v ===== *)
(** * Accounts: x/auth/types

    The account types of account.go and the permissions of permissions.go.
    Addresses ([sdk.AccAddress], a byte slice) are strings of bytes; their
    bech32 form and the hash behind module addresses are parameters. *)
From S2P Require Import Prelude.

(** The functions on addresses that depend on the bech32 configuration or on a
    hash: the package-level codec of types/address.go, the codec injected in the
    keepers, and the address of a module name. *)
Class AddressConfig := {
  AccAddressFromBech32 : string → outcome string;
  AccAddress_String : string → string;
  address_Module : string → string;
  StringToBytes : string → outcome string;
  BytesToString : string → outcome string;
}.

(** A public key is known to the accounts only by the address derived from it. *)
Record BaseAccount := mkBaseAccount {
  Address : string;
  PubKey : option string;
  AccountNumber : Z;
  Sequence : Z;
}.

Record ModuleAccount := mkModuleAccount {
  ma_BaseAccount : BaseAccount;
  Name : string;
  Permissions : list string;
}.

Definition Minter : string := "minter".
Definition Burner : string := "burner".
Definition Staking : string := "staking".

(** [strings.TrimSpace] returns the empty string: every character is white space. *)
Definition is_blank (s : string) : bool := forallb unicode_IsSpace (utf8_runes (string_bytes s)).

Definition validatePermissions (permissions : list string) : outcome unit :=
  forM_ (λ perm, guard_err (is_blank perm) "module permission is empty") permissions.

Record PermissionsForAddress := mkPermissionsForAddress {
  pa_permissions : list string;
  pa_address : string;
}.

Section AccountOps.
Context {acfg : AddressConfig}.

Definition NewBaseAccount (address : string) (pubKey : option string) (accountNumber sequence : Z) : BaseAccount :=
  mkBaseAccount (AccAddress_String address) pubKey accountNumber sequence.
Definition ProtoBaseAccount : BaseAccount := mkBaseAccount "" None 0 0.
Definition NewBaseAccountWithAddress (addr : string) : BaseAccount :=
  mkBaseAccount (AccAddress_String addr) None 0 0.
(** The decoding error is dropped: the address is then empty. *)
Definition BaseAccount_GetAddress (acc : BaseAccount) : string :=
  match AccAddressFromBech32 (Address acc) with Ok addr => addr | _ => "" end.
Definition BaseAccount_SetAddress (acc : BaseAccount) (addr : string) : outcome BaseAccount :=
  _ ← guard_err (negb (str_eq (Address acc) "")) "cannot override BaseAccount address";
  Ok (mkBaseAccount (AccAddress_String addr) (PubKey acc) (AccountNumber acc) (Sequence acc)).
Definition BaseAccount_SetAccountNumber (acc : BaseAccount) (accNumber : Z) : BaseAccount :=
  mkBaseAccount (Address acc) (PubKey acc) accNumber (Sequence acc).
Definition BaseAccount_SetSequence (acc : BaseAccount) (seq : Z) : BaseAccount :=
  mkBaseAccount (Address acc) (PubKey acc) (AccountNumber acc) seq.

Definition BaseAccount_Validate (acc : BaseAccount) : outcome unit :=
  match PubKey acc with
  | None => Ok tt
  | Some pk =>
      if str_eq (Address acc) "" then Ok tt
      else accAddr ← AccAddressFromBech32 (Address acc);
           guard_err (negb (str_eq pk accAddr)) "account address and pubkey address do not match"
  end.

Definition NewModuleAddress (name : string) : string := address_Module name.
Definition NewModuleAddressOrBech32Address (input : string) : string :=
  match AccAddressFromBech32 input with Ok addr => addr | _ => NewModuleAddress input end.
Definition NewEmptyModuleAccount (name : string) (permissions : list string) : outcome ModuleAccount :=
  let baseAcc := NewBaseAccountWithAddress (NewModuleAddress name) in
  _ ← must (validatePermissions permissions);
  Ok (mkModuleAccount baseAcc name permissions).
Definition NewModuleAccount (ba : BaseAccount) (name : string) (permissions : list string) : outcome ModuleAccount :=
  _ ← must (validatePermissions permissions);
  Ok (mkModuleAccount ba name permissions).
Definition ModuleAccount_HasPermission (ma : ModuleAccount) (permission : string) : bool :=
  existsb (λ perm, str_eq perm permission) (Permissions ma).
Definition ModuleAccount_Validate (ma : ModuleAccount) : outcome unit :=
  _ ← guard_err (is_blank (Name ma)) "module account name cannot be blank";
  _ ← guard_err (negb (str_eq (Address (ma_BaseAccount ma)) (AccAddress_String (address_Module (Name ma)))))
        "address cannot be derived from the module name";
  BaseAccount_Validate (ma_BaseAccount ma).

Definition NewPermissionsForAddress (name : string) (permissions : list string) : PermissionsForAddress :=
  mkPermissionsForAddress permissions (NewModuleAddress name).
Definition PermissionsForAddress_HasPermission (pa : PermissionsForAddress) (permission : string) : bool :=
  existsb (λ perm, str_eq perm permission) (pa_permissions pa).
End AccountOps.

(** A configuration to run examples with: addresses are their own text. *)
Definition acfg_id : AddressConfig := {|
  AccAddressFromBech32 := Ok;
  AccAddress_String := λ a, a;
  address_Module := λ name, String.append "module/" name;
  StringToBytes := Ok;
  BytesToString := Ok;
|}.
