(* ===== verification/Vesting.v ===== *)
(** * Vesting accounts: x/auth/vesting/types

    The four vesting schedules of vesting_account.go and the period sums of
    period.go.  Block times are the [int64] of [blockTime.Unix()]; differences
    and sums of times wrap around.  A vesting account holds
    its schedule and two counters, [DelegatedFree] and [DelegatedVesting], which
    [TrackDelegation] and [TrackUndelegation] keep in step with the delegations
    made from the account. *)
From S2P Require Import Prelude MathInt LegacyDec Coin CoinFacts Account.

Record Period := mkPeriod { Length : Z; PeriodAmount : Coins }.

Record BaseVestingAccount := mkBaseVestingAccount {
  bva_BaseAccount : BaseAccount;
  OriginalVesting : Coins;
  DelegatedFree : Coins;
  DelegatedVesting : Coins;
  EndTime : Z;
}.
Record ContinuousVestingAccount := mkContinuous { cva_bva : BaseVestingAccount; cva_StartTime : Z }.
Record PeriodicVestingAccount := mkPeriodic {
  pva_bva : BaseVestingAccount;
  pva_StartTime : Z;
  VestingPeriods : list Period;
}.
Record DelayedVestingAccount := mkDelayed { dva_bva : BaseVestingAccount }.
Record PermanentLockedAccount := mkPermanentLocked { plva_bva : BaseVestingAccount }.

(** The implementations of the interface [exported.VestingAccount]. *)
Inductive VestingAccount :=
| ContinuousVA (cva : ContinuousVestingAccount)
| PeriodicVA (pva : PeriodicVestingAccount)
| DelayedVA (dva : DelayedVestingAccount)
| PermanentLockedVA (plva : PermanentLockedAccount).

Section VestingOps.
Context {cfg : CoinConfig} {acfg : AddressConfig}.

(** ** BaseVestingAccount *)

Definition set_DelegatedFree (bva : BaseVestingAccount) (c : Coins) : BaseVestingAccount :=
  mkBaseVestingAccount (bva_BaseAccount bva) (OriginalVesting bva) c (DelegatedVesting bva) (EndTime bva).
Definition set_DelegatedVesting (bva : BaseVestingAccount) (c : Coins) : BaseVestingAccount :=
  mkBaseVestingAccount (bva_BaseAccount bva) (OriginalVesting bva) (DelegatedFree bva) c (EndTime bva).

Definition BaseVesting_Validate (bva : BaseVestingAccount) : outcome unit :=
  _ ← guard_err (EndTime bva <? 0) "end time cannot be negative";
  _ ← guard_err (negb (Coins_IsValid (OriginalVesting bva)) || negb (Coins_IsAllPositive (OriginalVesting bva)))
        "invalid coins";
  le ← Coins_IsAllLTE (DelegatedVesting bva) (OriginalVesting bva);
  _ ← guard_err (negb le) "delegated vesting amount cannot be greater than original vesting amount";
  BaseAccount_Validate (bva_BaseAccount bva).

Definition NewBaseVestingAccount (baseAccount : BaseAccount) (originalVesting : Coins) (endTime : Z)
    : outcome BaseVestingAccount :=
  delegatedFree ← NewCoins [];
  delegatedVesting ← NewCoins [];
  let bva := mkBaseVestingAccount baseAccount originalVesting delegatedFree delegatedVesting endTime in
  _ ← BaseVesting_Validate bva; Ok bva.

Definition LockedCoinsFromVesting (bva : BaseVestingAccount) (vestingCoins : Coins) : outcome Coins :=
  m ← Coins_Min vestingCoins (DelegatedVesting bva);
  Coins_Sub vestingCoins m.

(** One turn of the loop of [TrackDelegation]. *)
Definition track_delegation_coin (balance vestingCoins : Coins) (bva : BaseVestingAccount) (coin : Coin)
    : outcome BaseVestingAccount :=
  baseAmt ← Coins_AmountOf balance (Denom coin);
  vestingAmt ← Coins_AmountOf vestingCoins (Denom coin);
  delVestingAmt ← Coins_AmountOf (DelegatedVesting bva) (Denom coin);
  _ ← guard_panic (Int_IsZero (Amount coin) || Int_LT baseAmt (Amount coin))
        "delegation attempt with zero coins or insufficient funds";
  diff ← Int_Sub vestingAmt delVestingAmt;
  let x := MinInt (MaxInt diff ZeroInt) (Amount coin) in
  y ← Int_Sub (Amount coin) x;
  bva ← (if negb (Int_IsZero x)
         then xCoin ← NewCoin (Denom coin) x;
              dv ← Coins_Add (DelegatedVesting bva) [xCoin];
              Ok (set_DelegatedVesting bva dv)
         else Ok bva);
  if negb (Int_IsZero y)
  then yCoin ← NewCoin (Denom coin) y;
       df ← Coins_Add (DelegatedFree bva) [yCoin];
       Ok (set_DelegatedFree bva df)
  else Ok bva.
Definition BaseVesting_TrackDelegation (bva : BaseVestingAccount) (balance vestingCoins amount : Coins)
    : outcome BaseVestingAccount :=
  foldM (track_delegation_coin balance vestingCoins) bva amount.

(** One turn of the loop of [TrackUndelegation]. *)
Definition track_undelegation_coin (bva : BaseVestingAccount) (coin : Coin) : outcome BaseVestingAccount :=
  _ ← guard_panic (Int_IsZero (Amount coin)) "undelegation attempt with zero coins";
  delegatedFree ← Coins_AmountOf (DelegatedFree bva) (Denom coin);
  delegatedVesting ← Coins_AmountOf (DelegatedVesting bva) (Denom coin);
  let x := MinInt delegatedFree (Amount coin) in
  rest ← Int_Sub (Amount coin) x;
  let y := MinInt delegatedVesting rest in
  bva ← (if negb (Int_IsZero x)
         then xCoin ← NewCoin (Denom coin) x;
              df ← Coins_Sub (DelegatedFree bva) [xCoin];
              Ok (set_DelegatedFree bva df)
         else Ok bva);
  if negb (Int_IsZero y)
  then yCoin ← NewCoin (Denom coin) y;
       dv ← Coins_Sub (DelegatedVesting bva) [yCoin];
       Ok (set_DelegatedVesting bva dv)
  else Ok bva.
Definition BaseVesting_TrackUndelegation (bva : BaseVestingAccount) (amount : Coins)
    : outcome BaseVestingAccount :=
  foldM track_undelegation_coin bva amount.

(** ** ContinuousVestingAccount *)

Definition Continuous_Validate (cva : ContinuousVestingAccount) : outcome unit :=
  _ ← guard_err (EndTime (cva_bva cva) <=? cva_StartTime cva) "vesting start-time cannot be before end-time";
  BaseVesting_Validate (cva_bva cva).
Definition NewContinuousVestingAccountRaw (bva : BaseVestingAccount) (startTime : Z)
    : ContinuousVestingAccount := mkContinuous bva startTime.
Definition NewContinuousVestingAccount (baseAcc : BaseAccount) (originalVesting : Coins) (startTime endTime : Z)
    : outcome ContinuousVestingAccount :=
  let cva := mkContinuous (mkBaseVestingAccount baseAcc originalVesting [] [] endTime) startTime in
  _ ← Continuous_Validate cva; Ok cva.

(** The vested part of one coin under the vesting scalar [s]. *)
Definition vested_coin (s : Z) (ovc : Coin) : outcome Coin :=
  d ← LegacyNewDecFromInt (Amount ovc);
  m ← Dec_Mul d s;
  vestedAmt ← Dec_RoundInt m;
  NewCoin (Denom ovc) vestedAmt.
Definition Continuous_GetVestedCoins (cva : ContinuousVestingAccount) (blockTime : Z) : outcome Coins :=
  let bva := cva_bva cva in
  if blockTime <=? cva_StartTime cva then Ok []
  else if EndTime bva <=? blockTime then Ok (OriginalVesting bva)
  else
    let x := wrap_int64 (blockTime - cva_StartTime cva) in
    let y := wrap_int64 (EndTime bva - cva_StartTime cva) in
    dx ← LegacyNewDec x;
    dy ← LegacyNewDec y;
    s ← Dec_Quo dx dy;
    traverse (vested_coin s) (OriginalVesting bva).
Definition Continuous_GetVestingCoins (cva : ContinuousVestingAccount) (blockTime : Z) : outcome Coins :=
  vested ← Continuous_GetVestedCoins cva blockTime; Coins_Sub (OriginalVesting (cva_bva cva)) vested.
Definition Continuous_LockedCoins (cva : ContinuousVestingAccount) (blockTime : Z) : outcome Coins :=
  vesting ← Continuous_GetVestingCoins cva blockTime; LockedCoinsFromVesting (cva_bva cva) vesting.
Definition Continuous_TrackDelegation (cva : ContinuousVestingAccount) (blockTime : Z) (balance amount : Coins)
    : outcome ContinuousVestingAccount :=
  vesting ← Continuous_GetVestingCoins cva blockTime;
  bva ← BaseVesting_TrackDelegation (cva_bva cva) balance vesting amount;
  Ok (mkContinuous bva (cva_StartTime cva)).

(** ** PeriodicVestingAccount *)

Definition Periods_TotalLength (p : list Period) : Z :=
  fold_left (λ total period, wrap_int64 (total + Length period)) p 0.
Definition Periods_TotalAmount (p : list Period) : outcome Coins :=
  foldM (λ total period, Coins_Add total (PeriodAmount period)) [] p.

(** The loop of [Validate] over the periods: the running end time and sum. *)
Fixpoint validate_periods (endTime : Z) (originalVesting : Coins) (periods : list Period)
    : outcome (Z * Coins) :=
  match periods with
  | [] => Ok (endTime, originalVesting)
  | p :: periods' =>
      _ ← guard_err (Length p <? 0) "period has a negative length";
      _ ← guard_err (negb (Coins_IsValid (PeriodAmount p)) || negb (Coins_IsAllPositive (PeriodAmount p)))
            "period has invalid coins";
      originalVesting' ← Coins_Add originalVesting (PeriodAmount p);
      validate_periods (wrap_int64 (endTime + Length p)) originalVesting' periods'
  end.
Definition Periodic_Validate (pva : PeriodicVestingAccount) : outcome unit :=
  let bva := pva_bva pva in
  _ ← guard_err (EndTime bva <=? pva_StartTime pva) "vesting start-time cannot be before end-time";
  originalVesting0 ← NewCoins [];
  '(endTime, originalVesting) ← validate_periods (pva_StartTime pva) originalVesting0 (VestingPeriods pva);
  _ ← guard_err (negb (endTime =? EndTime bva)) "vesting end time does not match length of all vesting periods";
  _ ← guard_err (endTime <? pva_StartTime pva) "cumulative endTime overflowed, and/or is less than startTime";
  _ ← guard_err (negb (Coins_Equal originalVesting (OriginalVesting bva)))
        "original vesting coins does not match the sum of all coins in vesting periods";
  BaseVesting_Validate bva.
Definition NewPeriodicVestingAccountRaw (bva : BaseVestingAccount) (startTime : Z) (periods : list Period)
    : PeriodicVestingAccount := mkPeriodic bva startTime periods.
Definition NewPeriodicVestingAccount (baseAcc : BaseAccount) (originalVesting : Coins) (startTime : Z)
    (periods : list Period) : outcome PeriodicVestingAccount :=
  let endTime := fold_left (λ e p, wrap_int64 (e + Length p)) periods startTime in
  let pva := mkPeriodic (mkBaseVestingAccount baseAcc originalVesting [] [] endTime) startTime periods in
  _ ← Periodic_Validate pva; Ok pva.

Fixpoint vested_periods (blockTime currentPeriodStartTime : Z) (vestedCoins : Coins) (periods : list Period)
    : outcome Coins :=
  match periods with
  | [] => Ok vestedCoins
  | period :: periods' =>
      let x := wrap_int64 (blockTime - currentPeriodStartTime) in
      if x <? Length period then Ok vestedCoins
      else vestedCoins' ← Coins_Add vestedCoins (PeriodAmount period);
           vested_periods blockTime (wrap_int64 (currentPeriodStartTime + Length period)) vestedCoins' periods'
  end.
Definition Periodic_GetVestedCoins (pva : PeriodicVestingAccount) (blockTime : Z) : outcome Coins :=
  let bva := pva_bva pva in
  if blockTime <=? pva_StartTime pva then Ok []
  else if EndTime bva <=? blockTime then Ok (OriginalVesting bva)
  else vested_periods blockTime (pva_StartTime pva) [] (VestingPeriods pva).
Definition Periodic_GetVestingCoins (pva : PeriodicVestingAccount) (blockTime : Z) : outcome Coins :=
  vested ← Periodic_GetVestedCoins pva blockTime; Coins_Sub (OriginalVesting (pva_bva pva)) vested.
Definition Periodic_LockedCoins (pva : PeriodicVestingAccount) (blockTime : Z) : outcome Coins :=
  vesting ← Periodic_GetVestingCoins pva blockTime; LockedCoinsFromVesting (pva_bva pva) vesting.
Definition Periodic_TrackDelegation (pva : PeriodicVestingAccount) (blockTime : Z) (balance amount : Coins)
    : outcome PeriodicVestingAccount :=
  vesting ← Periodic_GetVestingCoins pva blockTime;
  bva ← BaseVesting_TrackDelegation (pva_bva pva) balance vesting amount;
  Ok (mkPeriodic bva (pva_StartTime pva) (VestingPeriods pva)).

(** ** DelayedVestingAccount and PermanentLockedAccount *)

Definition Delayed_Validate (dva : DelayedVestingAccount) : outcome unit := BaseVesting_Validate (dva_bva dva).
Definition NewDelayedVestingAccountRaw (bva : BaseVestingAccount) : DelayedVestingAccount := mkDelayed bva.
Definition NewDelayedVestingAccount (baseAcc : BaseAccount) (originalVesting : Coins) (endTime : Z)
    : outcome DelayedVestingAccount :=
  let dva := mkDelayed (mkBaseVestingAccount baseAcc originalVesting [] [] endTime) in
  _ ← Delayed_Validate dva; Ok dva.
Definition Delayed_GetVestedCoins (dva : DelayedVestingAccount) (blockTime : Z) : Coins :=
  if EndTime (dva_bva dva) <=? blockTime then OriginalVesting (dva_bva dva) else [].
Definition Delayed_GetVestingCoins (dva : DelayedVestingAccount) (blockTime : Z) : outcome Coins :=
  Coins_Sub (OriginalVesting (dva_bva dva)) (Delayed_GetVestedCoins dva blockTime).
Definition Delayed_LockedCoins (dva : DelayedVestingAccount) (blockTime : Z) : outcome Coins :=
  vesting ← Delayed_GetVestingCoins dva blockTime; LockedCoinsFromVesting (dva_bva dva) vesting.
Definition Delayed_TrackDelegation (dva : DelayedVestingAccount) (blockTime : Z) (balance amount : Coins)
    : outcome DelayedVestingAccount :=
  vesting ← Delayed_GetVestingCoins dva blockTime;
  bva ← BaseVesting_TrackDelegation (dva_bva dva) balance vesting amount;
  Ok (mkDelayed bva).

Definition PermanentLocked_Validate (plva : PermanentLockedAccount) : outcome unit :=
  _ ← guard_err (0 <? EndTime (plva_bva plva)) "permanently vested accounts cannot have an end-time";
  BaseVesting_Validate (plva_bva plva).
Definition NewPermanentLockedAccount (baseAcc : BaseAccount) (coins : Coins) : outcome PermanentLockedAccount :=
  let plva := mkPermanentLocked (mkBaseVestingAccount baseAcc coins [] [] 0) in
  _ ← PermanentLocked_Validate plva; Ok plva.
Definition PermanentLocked_GetVestedCoins (plva : PermanentLockedAccount) (blockTime : Z) : Coins := [].
Definition PermanentLocked_GetVestingCoins (plva : PermanentLockedAccount) (blockTime : Z) : Coins :=
  OriginalVesting (plva_bva plva).
Definition PermanentLocked_LockedCoins (plva : PermanentLockedAccount) (blockTime : Z) : outcome Coins :=
  LockedCoinsFromVesting (plva_bva plva) (OriginalVesting (plva_bva plva)).
Definition PermanentLocked_TrackDelegation (plva : PermanentLockedAccount) (blockTime : Z) (balance amount : Coins)
    : outcome PermanentLockedAccount :=
  bva ← BaseVesting_TrackDelegation (plva_bva plva) balance (OriginalVesting (plva_bva plva)) amount;
  Ok (mkPermanentLocked bva).

(** ** The interface [exported.VestingAccount] *)

Definition va_bva (va : VestingAccount) : BaseVestingAccount :=
  match va with
  | ContinuousVA cva => cva_bva cva
  | PeriodicVA pva => pva_bva pva
  | DelayedVA dva => dva_bva dva
  | PermanentLockedVA plva => plva_bva plva
  end.
(** Store the embedded account back after a method with a pointer receiver. *)
Definition set_bva (va : VestingAccount) (bva : BaseVestingAccount) : VestingAccount :=
  match va with
  | ContinuousVA cva => ContinuousVA (mkContinuous bva (cva_StartTime cva))
  | PeriodicVA pva => PeriodicVA (mkPeriodic bva (pva_StartTime pva) (VestingPeriods pva))
  | DelayedVA _ => DelayedVA (mkDelayed bva)
  | PermanentLockedVA _ => PermanentLockedVA (mkPermanentLocked bva)
  end.

Definition VestingAccount_Validate (va : VestingAccount) : outcome unit :=
  match va with
  | ContinuousVA cva => Continuous_Validate cva
  | PeriodicVA pva => Periodic_Validate pva
  | DelayedVA dva => Delayed_Validate dva
  | PermanentLockedVA plva => PermanentLocked_Validate plva
  end.
Definition GetVestedCoins (va : VestingAccount) (blockTime : Z) : outcome Coins :=
  match va with
  | ContinuousVA cva => Continuous_GetVestedCoins cva blockTime
  | PeriodicVA pva => Periodic_GetVestedCoins pva blockTime
  | DelayedVA dva => Ok (Delayed_GetVestedCoins dva blockTime)
  | PermanentLockedVA plva => Ok (PermanentLocked_GetVestedCoins plva blockTime)
  end.
Definition GetVestingCoins (va : VestingAccount) (blockTime : Z) : outcome Coins :=
  match va with
  | ContinuousVA cva => Continuous_GetVestingCoins cva blockTime
  | PeriodicVA pva => Periodic_GetVestingCoins pva blockTime
  | DelayedVA dva => Delayed_GetVestingCoins dva blockTime
  | PermanentLockedVA plva => Ok (PermanentLocked_GetVestingCoins plva blockTime)
  end.
Definition LockedCoins (va : VestingAccount) (blockTime : Z) : outcome Coins :=
  match va with
  | ContinuousVA cva => Continuous_LockedCoins cva blockTime
  | PeriodicVA pva => Periodic_LockedCoins pva blockTime
  | DelayedVA dva => Delayed_LockedCoins dva blockTime
  | PermanentLockedVA plva => PermanentLocked_LockedCoins plva blockTime
  end.
Definition TrackDelegation (va : VestingAccount) (blockTime : Z) (balance amount : Coins)
    : outcome VestingAccount :=
  match va with
  | ContinuousVA cva => ContinuousVA <$> Continuous_TrackDelegation cva blockTime balance amount
  | PeriodicVA pva => PeriodicVA <$> Periodic_TrackDelegation pva blockTime balance amount
  | DelayedVA dva => DelayedVA <$> Delayed_TrackDelegation dva blockTime balance amount
  | PermanentLockedVA plva => PermanentLockedVA <$> PermanentLocked_TrackDelegation plva blockTime balance amount
  end.
Definition TrackUndelegation (va : VestingAccount) (amount : Coins) : outcome VestingAccount :=
  bva ← BaseVesting_TrackUndelegation (va_bva va) amount;
  Ok (set_bva va bva).
Definition GetStartTime (va : VestingAccount) : Z :=
  match va with
  | ContinuousVA cva => cva_StartTime cva
  | PeriodicVA pva => pva_StartTime pva
  | DelayedVA _ => 0
  | PermanentLockedVA _ => 0
  end.
Definition GetEndTime (va : VestingAccount) : Z :=
  match va with
  | PermanentLockedVA _ => 0
  | _ => EndTime (va_bva va)
  end.

(** The four kinds of account share these equations: each method reads the
    vesting coins of its schedule and works on the embedded base account. *)
Lemma GetVestingCoins_eq va blockTime :
  GetVestingCoins va blockTime =
    match va with
    | PermanentLockedVA plva => Ok (OriginalVesting (plva_bva plva))
    | _ => vested ← GetVestedCoins va blockTime; Coins_Sub (OriginalVesting (va_bva va)) vested
    end.
Proof. by destruct va. Qed.
Lemma LockedCoins_eq va blockTime :
  LockedCoins va blockTime = vesting ← GetVestingCoins va blockTime; LockedCoinsFromVesting (va_bva va) vesting.
Proof. by destruct va. Qed.
Lemma TrackDelegation_eq va blockTime balance amount :
  TrackDelegation va blockTime balance amount =
    vesting ← GetVestingCoins va blockTime;
    bva ← BaseVesting_TrackDelegation (va_bva va) balance vesting amount;
    Ok (set_bva va bva).
Proof.
  destruct va; cbn [TrackDelegation GetVestingCoins va_bva set_bva];
    unfold Continuous_TrackDelegation, Periodic_TrackDelegation, Delayed_TrackDelegation,
      PermanentLocked_TrackDelegation, PermanentLocked_GetVestingCoins.
  1-3: match goal with |- context [@mbind outcome _ _ _ _ ?m] => destruct m as [vesting| |]; [|done..] end.
  all: cbn; by destruct (BaseVesting_TrackDelegation _ _ _ _).
Qed.
End VestingOps.
