(* ===== verification/VestingProps.v ===== *)
(** * Correctness of the vesting accounts

    Totality, bounds and monotonicity of the vesting schedules; the partition of
    the original vesting into vested and vesting coins; the locked coins; the
    effect of tracking delegations, pointwise in the denomination. *)
From S2P Require Import Prelude MathInt LegacyDec Coin CoinFacts Account Vesting.

Lemma int_range_between a b : 0 <= a <= b → int_range b → int_range a.
Proof. unfold int_range. lia. Qed.

Section VestingFacts.
Context {cfg : CoinConfig} {acfg : AddressConfig}.

(** ** The continuous schedule *)

(** The scalar [x / y] computed by [LegacyNewDec(x).Quo(LegacyNewDec(y))]. *)
Definition scalar (x y : Z) : Z :=
  chopPrecisionAndRound (Z.quot (x * precisionReuse * squaredPrecisionReuse) (y * precisionReuse)).

Lemma quot_mono_l a b c : 0 <= a <= b → 0 < c → 0 <= Z.quot a c <= Z.quot b c.
Proof.
  intros Hab Hc. rewrite !Z.quot_div_nonneg by lia. split; [by apply Z.div_pos; lia|].
  apply Z.div_le_mono; lia.
Qed.

Lemma scalar_mono x1 x2 y : 0 <= x1 <= x2 → 0 < y → 0 <= scalar x1 y <= scalar x2 y.
Proof.
  intros Hx Hy. pose proof precisionReuse_pos as Hp.
  assert (0 < squaredPrecisionReuse) as Hsq by (unfold squaredPrecisionReuse; lia).
  assert (0 <= Z.quot (x1 * precisionReuse * squaredPrecisionReuse) (y * precisionReuse) <=
          Z.quot (x2 * precisionReuse * squaredPrecisionReuse) (y * precisionReuse)) as [H1 H2].
  { apply quot_mono_l; [|nia]. split; [nia|]. apply Z.mul_le_mono_nonneg_r; [lia|]. nia. }
  unfold scalar. split; [by apply chopPrecisionAndRound_nonneg_ge|by apply chopPrecisionAndRound_mono].
Qed.
Lemma scalar_one y : 0 < y → scalar y y = precisionReuse.
Proof.
  intros Hy. pose proof precisionReuse_pos as Hp. unfold scalar.
  rewrite (Z.mul_comm (y * precisionReuse)), Z.quot_mul by nia.
  unfold squaredPrecisionReuse. apply chopPrecisionAndRound_exact.
Qed.

Lemma dec_range_frac a s :
  0 <= a → int_range a → 0 <= s <= precisionReuse → dec_range (a * s).
Proof.
  intros Ha Hr Hs. pose proof precisionReuse_pos as Hp.
  assert (0 <= a * s <= a * precisionReuse) by (split; [nia|apply Z.mul_le_mono_nonneg_l; lia]).
  unfold dec_range, lowerLimit, upperLimit, int_range in *.
  assert (a * precisionReuse <= (2 ^ 256 - 1) * precisionReuse) by (apply Z.mul_le_mono_nonneg_r; lia).
  lia.
Qed.

Lemma scalar_Ok x y :
  0 <= x <= y → 0 < y → Dec_Quo (x * precisionReuse) (y * precisionReuse) = Ok (scalar x y).
Proof.
  intros Hx Hy. pose proof precisionReuse_pos as Hp. apply Dec_Quo_Ok. split; [done|]. split; [nia|].
  pose proof (scalar_mono x y y Hx Hy) as Hs. rewrite scalar_one in Hs by done.
  rewrite <- (Z.mul_1_l (scalar x y)).
  apply dec_range_frac; [done|unfold int_range; lia|lia].
Qed.

Lemma chop_frac_bound a s :
  0 <= a → 0 <= s <= precisionReuse → 0 <= chopPrecisionAndRound (a * s) <= a.
Proof.
  intros Ha Hs. split; [apply chopPrecisionAndRound_nonneg_ge; nia|].
  rewrite <- (chopPrecisionAndRound_exact a) at 2. apply chopPrecisionAndRound_mono. nia.
Qed.

Lemma NewCoin_Ok d a : denom_valid d = true → 0 <= a → NewCoin d a = Ok (mkCoin d a).
Proof.
  intros Hd Ha. unfold NewCoin, Coin_Validate, ValidateDenom. cbn. rewrite Hd. cbn.
  rewrite Int_IsNegative_ltb. by rewrite (proj2 (Z.ltb_ge a 0)) by lia.
Qed.

Lemma vested_coin_Ok s c :
  valid_coin c → int_range (Amount c) → 0 <= s <= precisionReuse →
  vested_coin s c = Ok (mkCoin (Denom c) (chopPrecisionAndRound (Amount c * s))).
Proof.
  intros [Hd Hp] Hr Hs. unfold vested_coin. rewrite LegacyNewDecFromInt_Ok. cbn.
  assert (Dec_Mul (Amount c * precisionReuse) s = Ok (Amount c * s)) as ->.
  { apply Dec_Mul_Ok. rewrite <- Z.mul_assoc, (Z.mul_comm precisionReuse), Z.mul_assoc.
    rewrite chopPrecisionAndRound_exact. split; [done|]. apply dec_range_frac; [lia|done|done]. }
  pose proof (chop_frac_bound (Amount c) s ltac:(lia) Hs) as Hb. cbn.
  assert (Dec_RoundInt (Amount c * s) = Ok (chopPrecisionAndRound (Amount c * s))) as ->.
  { apply Dec_RoundInt_Ok. split; [done|]. by eapply int_range_between. }
  cbn. apply NewCoin_Ok; [done|lia].
Qed.

Lemma good_coins_elem cs c : good_coins cs → c ∈ cs → valid_coin c ∧ int_range (Amount c).
Proof.
  intros [[Hv _] Hr] Hc. unfold in_int_range in Hr. rewrite Forall_forall in Hv, Hr. auto.
Qed.

Lemma vested_coins_Ok s cs :
  good_coins cs → 0 <= s <= precisionReuse →
  traverse (vested_coin s) cs = Ok (map_amounts (λ a, chopPrecisionAndRound (a * s)) cs).
Proof.
  intros Hg Hs. apply traverse_Ok. intros c Hc.
  destruct (good_coins_elem cs c Hg Hc). by apply vested_coin_Ok.
Qed.

(** Coins that are vested: bounded by the original vesting, and a legal argument
    of [Sub] (possibly with zero amounts). *)
Definition vested_of (ov v : Coins) : Prop :=
  (∃ v', NewCoins v = Ok v' ∧ good_coins v') ∧ ∀ d, 0 <= amount v d <= amount ov d.

Lemma vested_of_good ov v :
  good_coins v → (∀ d, amount v d <= amount ov d) → vested_of ov v.
Proof.
  intros Hg Hle. split; [exists v; split; [apply NewCoins_valid, Hg|done]|].
  intros d. split; [apply valid_coins_amount_nonneg, Hg|done].
Qed.

Lemma good_coins_nil : good_coins [].
Proof. split; [apply valid_coins_nil|constructor]. Qed.

Lemma vested_of_frac ov s :
  good_coins ov → 0 <= s <= precisionReuse →
  vested_of ov (map_amounts (λ a, chopPrecisionAndRound (a * s)) ov).
Proof.
  intros Hg Hs. pose proof Hg as [[Hv Hso] Hr]. set (g := λ a, chopPrecisionAndRound (a * s)).
  assert (map Denom (map_amounts g ov) = map Denom ov) as Hden by (unfold map_amounts; by rewrite map_map).
  assert (denoms_sorted (map_amounts g ov)) as Hds by (unfold denoms_sorted; by rewrite Hden).
  assert (∀ d, amount (map_amounts g ov) d = g (amount ov d)) as Ham.
  { intros d. apply amount_map_amounts; [by apply denoms_sorted_nodup|]. reflexivity. }
  assert (∀ d, 0 <= g (amount ov d) <= amount ov d) as Hb.
  { intros d. apply chop_frac_bound; [by apply valid_coins_amount_nonneg|done]. }
  assert (canonical (removeZeroCoins (map_amounts g ov))) as Hc by (by apply removeZero_canonical).
  assert (good_coins (removeZeroCoins (map_amounts g ov))) as Hgood.
  { split.
    - apply canonical_valid; [done| |]; intros d; rewrite removeZeroCoins_amount, Ham; [apply Hb|].
      intros Hne. apply (valid_denom_of_amount ov); [done|]. specialize (Hb d). lia.
    - apply canonical_range; [done|]. intros d. rewrite removeZeroCoins_amount, Ham.
      eapply int_range_between; [apply Hb|]. by apply amount_in_range. }
  split; [|intros d; rewrite Ham; apply Hb].
  exists (removeZeroCoins (map_amounts g ov)). split; [|done].
  apply NewCoins_Ok. split; [|apply Hgood].
  rewrite sanitizeCoins_sort, Coins_Sort_id; [done|apply Hc].
Qed.

(** ** The periodic schedule *)

Fixpoint periods_amount (ps : list Period) (d : string) : Z :=
  match ps with
  | [] => 0
  | p :: ps' => amount (PeriodAmount p) d + periods_amount ps' d
  end.
Definition valid_period (p : Period) : Prop := 0 <= Length p ∧ valid_coins (PeriodAmount p).

Lemma periods_amount_nonneg ps d : Forall valid_period ps → 0 <= periods_amount ps d.
Proof.
  induction 1 as [|p ps [_ Hp] Hps IH]; cbn; [done|].
  pose proof (valid_coins_amount_nonneg _ d Hp). lia.
Qed.

Lemma valid_in_range cs : valid_coins cs → (∀ d, int_range (amount cs d)) → good_coins cs.
Proof. intros Hv Hr. split; [done|]. apply canonical_range; [by apply valid_coins_canonical|done]. Qed.

(** Adding a period's coins when the grand total is in range. *)
Lemma add_period v cs (rest : string → Z) :
  good_coins v → valid_coins cs → (∀ d, 0 <= rest d) →
  (∀ d, int_range (amount v d + (amount cs d + rest d))) →
  ∃ v', Coins_Add v cs = Ok v' ∧ good_coins v' ∧ ∀ d, amount v' d = amount v d + amount cs d.
Proof.
  intros Hv Hcs Hn Hr.
  assert (∀ d, 0 <= amount cs d <= amount v d + (amount cs d + rest d) ∧
               0 <= amount v d + amount cs d <= amount v d + (amount cs d + rest d)) as Hb.
  { intros d. pose proof (valid_coins_amount_nonneg cs d Hcs).
    pose proof (valid_coins_amount_nonneg v d (proj1 Hv)). specialize (Hn d). lia. }
  apply Coins_Add_good; [done|apply valid_in_range; [done|]|]; intros d;
    (eapply int_range_between; [apply Hb|apply Hr]).
Qed.

Lemma vested_periods_good t ps : ∀ cur v,
  good_coins v → Forall valid_period ps → (∀ d, int_range (amount v d + periods_amount ps d)) →
  ∃ r, vested_periods t cur v ps = Ok r ∧ good_coins r ∧
       ∀ d, amount v d <= amount r d <= amount v d + periods_amount ps d.
Proof.
  induction ps as [|p ps IH]; intros cur v Hv Hps Hr; cbn [vested_periods periods_amount] in *.
  { exists v. split; [done|]. split; [done|]. intros d. lia. }
  apply Forall_cons in Hps as [[Hl Hp] Hps].
  assert (∀ d, 0 <= periods_amount ps d) as Hn by (intros; by apply periods_amount_nonneg).
  assert (∀ d, 0 <= amount (PeriodAmount p) d) as Hnp by (intros; by apply valid_coins_amount_nonneg).
  destruct (_ <? Length p).
  { exists v. split; [done|]. split; [done|]. intros d. specialize (Hn d). specialize (Hnp d). lia. }
  destruct (add_period v (PeriodAmount p) (periods_amount ps)) as (v' & -> & Hv' & Mv'); [done..|].
  cbn. destruct (IH (wrap_int64 (cur + Length p)) v' Hv' Hps) as (r & -> & Hgr & Mr).
  { intros d. rewrite Mv', <- Z.add_assoc. apply Hr. }
  exists r. split; [done|]. split; [done|]. intros d. specialize (Mr d). rewrite Mv' in Mr.
  specialize (Hnp d). lia.
Qed.

Lemma vested_periods_mono t1 t2 ps : ∀ cur v r1 r2,
  - 2 ^ 63 <= cur <= t1 → t1 <= t2 < 2 ^ 63 → t2 - cur < 2 ^ 63 →
  good_coins v → Forall valid_period ps → (∀ d, int_range (amount v d + periods_amount ps d)) →
  vested_periods t1 cur v ps = Ok r1 → vested_periods t2 cur v ps = Ok r2 →
  ∀ d, amount r1 d <= amount r2 d.
Proof.
  induction ps as [|p ps IH]; intros cur v r1 r2 Hc Ht Hspan Hv Hps Hr H1 H2 d.
  { cbn in *. go_inv. lia. }
  pose proof Hps as [[Hl Hp] Hps']%Forall_cons.
  cbn [vested_periods] in H1. rewrite wrap_int64_id in H1 by lia.
  destruct (Z.ltb_spec (t1 - cur) (Length p)) as [Hlt|Hge].
  { destruct (vested_periods_good t2 (p :: ps) cur v Hv Hps Hr) as (r2' & H2' & _ & M).
    rewrite H2' in H2. go_inv. apply M. }
  cbn [vested_periods] in H2. rewrite wrap_int64_id in H2 by lia.
  destruct (Z.ltb_spec (t2 - cur) (Length p)) as [Hlt2|_]; [lia|].
  apply outcome_bind_Ok in H1 as (v1 & Hv1 & H1). apply outcome_bind_Ok in H2 as (v2 & Hv2 & H2).
  rewrite Hv1 in Hv2. injection Hv2 as <-. rewrite wrap_int64_id in H1, H2 by lia.
  destruct (add_period v (PeriodAmount p) (periods_amount ps)) as (v' & Hadd & Hv' & Mv');
    [done|done|intros; by apply periods_amount_nonneg|exact Hr|].
  rewrite Hadd in Hv1. injection Hv1 as ->.
  eapply (IH (cur + Length p) v1); [lia|lia|lia|done|done| |done|done].
  intros d'. rewrite Mv', <- Z.add_assoc. apply Hr.
Qed.

Lemma validate_periods_Ok ps : ∀ e ov e' ov',
  validate_periods e ov ps = Ok (e', ov') →
  Forall valid_period ps ∧ ∀ d, amount ov' d = amount ov d + periods_amount ps d.
Proof.
  induction ps as [|p ps IH]; intros e ov e' ov' H; cbn [validate_periods] in H.
  { go_inv. split; [constructor|]. intros d. cbn. lia. }
  go_inv. apply IH in H as [Hps Hm].
  match goal with E : Coins_Add _ _ = Ok _ |- _ => apply safeAdd_Ok in E as [_ Ha] end.
  match goal with E : (_ || _) = false |- _ => apply Bool.orb_false_iff in E as [Ev _] end.
  apply Bool.negb_false_iff, Coins_IsValid_spec in Ev.
  split; [constructor; [split; [lia|done]|done]|].
  intros d. rewrite Hm, Ha. cbn. lia.
Qed.

(** ** All schedules *)

(** A vesting account as the modules keep it: accepted by [Validate], amounts
    an [Int] can hold, times of an [int64] whose span does not wrap. *)
Record vesting_wf (va : VestingAccount) : Prop := {
  wf_valid : VestingAccount_Validate va = Ok tt;
  wf_start : - 2 ^ 63 <= GetStartTime va;
  wf_end : GetEndTime va < 2 ^ 63;
  wf_span : GetEndTime va - GetStartTime va < 2 ^ 63;
  wf_original : good_coins (OriginalVesting (va_bva va));
  wf_free : good_coins (DelegatedFree (va_bva va));
  wf_vesting : good_coins (DelegatedVesting (va_bva va));
}.

Lemma Continuous_vested cva t :
  vesting_wf (ContinuousVA cva) →
  let ov := OriginalVesting (cva_bva cva) in
  let y := EndTime (cva_bva cva) - cva_StartTime cva in
  let x := Z.max 0 (Z.min y (t - cva_StartTime cva)) in
  0 < y ∧
  ∃ v, Continuous_GetVestedCoins cva t = Ok v ∧ vested_of ov v ∧
       ∀ d, amount v d = chopPrecisionAndRound (amount ov d * scalar x y).
Proof.
  intros Hwf ov y x. pose proof (wf_valid _ Hwf) as Hv. cbn in Hv. unfold Continuous_Validate in Hv. go_inv.
  pose proof (wf_original _ Hwf) as Hg. pose proof (wf_span _ Hwf) as Hsp. cbn in Hg, Hsp. fold ov in Hg.
  assert (0 < y) as Hy by lia. split; [done|].
  unfold Continuous_GetVestedCoins. cbn zeta. fold ov.
  destruct (Z.leb_spec t (cva_StartTime cva)) as [Hle|Hgt].
  { exists []. split; [done|]. split; [apply vested_of_good; [apply good_coins_nil|]|].
    - intros d. cbn. apply valid_coins_amount_nonneg, Hg.
    - intros d. replace x with 0 by lia. unfold scalar. rewrite !Z.mul_0_l, Z.quot_0_l.
      + by rewrite (chopPrecisionAndRound_exact 0 : chopPrecisionAndRound 0 = 0), Z.mul_0_r.
      + pose proof precisionReuse_pos. nia. }
  destruct (Z.leb_spec (EndTime (cva_bva cva)) t) as [Hle|Hlt].
  { exists ov. split; [done|]. split; [by apply vested_of_good|].
    intros d. replace x with y by lia. by rewrite scalar_one, chopPrecisionAndRound_exact. }
  rewrite !wrap_int64_id by lia. rewrite !LegacyNewDec_Ok. cbn.
  replace (t - cva_StartTime cva) with x by lia. fold y.
  rewrite scalar_Ok by lia. cbn.
  assert (0 <= scalar x y <= precisionReuse) as Hs.
  { rewrite <- (scalar_one y) by done. split; [apply (scalar_mono x x)|apply (scalar_mono x y)]; lia. }
  rewrite vested_coins_Ok by done. eexists. split; [reflexivity|].
  split; [by apply vested_of_frac|]. intros d. apply amount_map_amounts; [|done].
  apply denoms_sorted_nodup, Hg.
Qed.

(** What [Validate] gives for a periodic account. *)
Lemma Periodic_valid pva :
  vesting_wf (PeriodicVA pva) →
  pva_StartTime pva < EndTime (pva_bva pva) ∧
  Forall valid_period (VestingPeriods pva) ∧
  ∀ d, periods_amount (VestingPeriods pva) d = amount (OriginalVesting (pva_bva pva)) d.
Proof.
  intros Hwf. pose proof (wf_valid _ Hwf) as Hv. cbn in Hv. unfold Periodic_Validate in Hv.
  apply outcome_bind_Ok in Hv as (? & Ht & Hv). apply guard_err_Ok in Ht.
  apply outcome_bind_Ok in Hv as (ov0 & H0 & Hv). apply outcome_bind_Ok in Hv as ([e ov] & Hp & Hv).
  go_inv. apply NewCoins_Ok in H0 as [-> _].
  apply validate_periods_Ok in Hp as [Hps Hm]. split; [lia|]. split; [done|].
  intros d. match goal with E : negb (Coins_Equal _ _) = false |- _ =>
    apply Bool.negb_false_iff, (Coins_Equal_amount _ _ d) in E; rewrite <- E end.
  rewrite Hm. done.
Qed.

Lemma Periodic_vested pva t :
  vesting_wf (PeriodicVA pva) →
  ∃ v, Periodic_GetVestedCoins pva t = Ok v ∧ vested_of (OriginalVesting (pva_bva pva)) v.
Proof.
  intros Hwf. destruct (Periodic_valid pva Hwf) as (Ht & Hps & Hm).
  pose proof (wf_original _ Hwf) as Hg. cbn in Hg. unfold Periodic_GetVestedCoins. cbn zeta.
  destruct (t <=? pva_StartTime pva).
  { exists []. split; [done|]. apply vested_of_good; [apply good_coins_nil|].
    intros d. cbn. apply valid_coins_amount_nonneg, Hg. }
  destruct (EndTime (pva_bva pva) <=? t); [exists (OriginalVesting (pva_bva pva)); split; [done|by apply vested_of_good]|].
  destruct (vested_periods_good t (VestingPeriods pva) (pva_StartTime pva) []) as (r & -> & Hgr & M).
  - apply good_coins_nil.
  - done.
  - intros d. cbn. rewrite Hm. apply amount_in_range; apply Hg.
  - exists r. split; [done|]. apply vested_of_good; [done|]. intros d. rewrite <- Hm. apply M.
Qed.

Lemma Periodic_vested_mono pva t1 t2 v1 v2 d :
  vesting_wf (PeriodicVA pva) → t1 <= t2 →
  Periodic_GetVestedCoins pva t1 = Ok v1 → Periodic_GetVestedCoins pva t2 = Ok v2 →
  amount v1 d <= amount v2 d.
Proof.
  intros Hwf Ht H1 H2. destruct (Periodic_valid pva Hwf) as (Hse & Hps & Hm).
  destruct (Periodic_vested pva t1 Hwf) as (v1' & H1' & [_ B1]). rewrite H1 in H1'. injection H1' as <-.
  destruct (Periodic_vested pva t2 Hwf) as (v2' & H2' & [_ B2]). rewrite H2 in H2'. injection H2' as <-.
  pose proof (wf_original _ Hwf) as Hg. pose proof (wf_start _ Hwf). pose proof (wf_end _ Hwf).
  pose proof (wf_span _ Hwf). cbn in *. specialize (B1 d). specialize (B2 d).
  unfold Periodic_GetVestedCoins in H1, H2. cbn zeta in *.
  destruct (Z.leb_spec t1 (pva_StartTime pva)); [go_inv; cbn; lia|].
  destruct (Z.leb_spec t2 (pva_StartTime pva)); [lia|].
  destruct (Z.leb_spec (EndTime (pva_bva pva)) t2) as [He2|He2]; [go_inv; lia|].
  destruct (Z.leb_spec (EndTime (pva_bva pva)) t1) as [He1|He1]; [lia|].
  eapply (vested_periods_mono t1 t2); [| | | | | |exact H1|exact H2]; try lia; try done.
  - apply good_coins_nil.
  - intros d'. cbn. rewrite Hm. apply amount_in_range; apply Hg.
Qed.

Lemma GetVestedCoins_total va t :
  vesting_wf va → ∃ v, GetVestedCoins va t = Ok v ∧ vested_of (OriginalVesting (va_bva va)) v.
Proof.
  intros Hwf. pose proof (wf_original _ Hwf) as Hg. destruct va as [cva|pva|dva|plva]; cbn [GetVestedCoins va_bva] in *.
  - destruct (Continuous_vested cva t Hwf) as (_ & v & H1 & H2 & _). by exists v.
  - by apply Periodic_vested.
  - exists (Delayed_GetVestedCoins dva t). split; [done|]. unfold Delayed_GetVestedCoins.
    case_match; [by apply vested_of_good|]. apply vested_of_good; [apply good_coins_nil|].
    intros d. apply valid_coins_amount_nonneg, Hg.
  - exists []. split; [done|]. apply vested_of_good; [apply good_coins_nil|].
    intros d. apply valid_coins_amount_nonneg, Hg.
Qed.

Lemma GetVestedCoins_mono va t1 t2 v1 v2 d :
  vesting_wf va → t1 <= t2 → GetVestedCoins va t1 = Ok v1 → GetVestedCoins va t2 = Ok v2 →
  amount v1 d <= amount v2 d.
Proof.
  intros Hwf Ht H1 H2. pose proof (wf_original _ Hwf) as Hg.
  destruct va as [cva|pva|dva|plva]; cbn [GetVestedCoins va_bva] in *.
  - destruct (Continuous_vested cva t1 Hwf) as (Hy & v1' & H1' & _ & M1).
    destruct (Continuous_vested cva t2 Hwf) as (_ & v2' & H2' & _ & M2).
    rewrite H1 in H1'. rewrite H2 in H2'. go_inv. rewrite M1, M2. apply chopPrecisionAndRound_mono.
    apply Z.mul_le_mono_nonneg_l; [apply valid_coins_amount_nonneg, Hg|]. apply scalar_mono; lia.
  - by eapply Periodic_vested_mono.
  - go_inv. unfold Delayed_GetVestedCoins. pose proof (valid_coins_amount_nonneg _ d (proj1 Hg)).
    destruct (Z.leb_spec (EndTime (dva_bva dva)) t1), (Z.leb_spec (EndTime (dva_bva dva)) t2); cbn; lia.
  - go_inv. done.
Qed.

Lemma Coins_Sub_vested ov v :
  good_coins ov → vested_of ov v →
  ∃ r, Coins_Sub ov v = Ok r ∧ good_coins r ∧ ∀ d, amount r d = amount ov d - amount v d.
Proof.
  intros Hov [(v' & Hv' & Gv') Hb].
  destruct (Coins_SafeSub_total ov v v') as (diff & neg & Hs);
    [apply Hov|done|apply valid_coins_nonneg, Hov|apply Hov|apply Gv'|].
  pose proof (Coins_SafeSub_Ok _ _ _ _ Hs) as (Hc & Hm & Hn).
  assert (neg = false) as -> by (apply Hn; intros d; apply Hb).
  exists diff. split; [unfold Coins_Sub; by rewrite Hs|]. split; [|done]. apply valid_in_range.
  - eapply sub_valid; [apply Hov|done|exact Hm|exact Hb].
  - intros d. rewrite Hm. specialize (Hb d). eapply int_range_between; [|apply (amount_in_range ov d); apply Hov]. lia.
Qed.

Lemma GetVestingCoins_total va t :
  vesting_wf va →
  ∃ v vg, GetVestedCoins va t = Ok v ∧ GetVestingCoins va t = Ok vg ∧ good_coins vg ∧
          (∀ d, 0 <= amount v d) ∧
          ∀ d, amount v d + amount vg d = amount (OriginalVesting (va_bva va)) d.
Proof.
  intros Hwf. pose proof (wf_original _ Hwf) as Hg.
  destruct (GetVestedCoins_total va t Hwf) as (v & Hv & Hvo).
  assert (∀ d, 0 <= amount v d) as Hn by (intros; apply Hvo).
  destruct (Coins_Sub_vested _ _ Hg Hvo) as (vg & Hsub & Gvg & Mvg). exists v.
  rewrite GetVestingCoins_eq. destruct va; (eexists; split; [exact Hv|]).
  4: { split; [reflexivity|]. split; [done|]. split; [done|]. cbn in Hv. go_inv. done. }
  all: rewrite Hv; cbn [mbind outcome_bind]; split; [exact Hsub|]; split; [done|]; split; [done|];
    intros d; rewrite Mvg; lia.
Qed.

Lemma LockedCoinsFromVesting_total bva vg :
  good_coins vg → good_coins (DelegatedVesting bva) →
  ∃ l, LockedCoinsFromVesting bva vg = Ok l ∧ good_coins l ∧
       ∀ d, amount l d = Z.max 0 (amount vg d - amount (DelegatedVesting bva) d).
Proof.
  intros Hvg Hdv. unfold LockedCoinsFromVesting.
  destruct (Coins_Min_good vg (DelegatedVesting bva) Hvg Hdv) as (m & -> & Gm & Mm). cbn.
  destruct (Coins_Sub_good vg m Hvg Gm) as (l & -> & Gl & Ml).
  - intros d. rewrite Mm. lia.
  - exists l. split; [done|]. split; [done|]. intros d. rewrite Ml, Mm. lia.
Qed.

(** ** Tracking delegations *)

(** A field of the account updated by adding a coin unless it is zero. *)
Lemma add_if_nonzero {B} (set : Coins → B) (old : B) cs d x :
  set cs = old → good_coins cs → denom_valid d = true → 0 <= x → int_range (amount cs d + x) →
  ∃ cs', (if negb (Int_IsZero x)
          then xCoin ← NewCoin d x; cs1 ← Coins_Add cs [xCoin]; Ok (set cs1) else Ok old) = Ok (set cs') ∧
         good_coins cs' ∧ ∀ d', amount cs' d' = amount cs d' + (if decide (d = d') then x else 0).
Proof.
  intros <- Hcs Hd Hx Hr. rewrite Int_IsZero_eqb. destruct (Z.eqb_spec x 0) as [->|Hne]; cbn [negb].
  { exists cs. split; [done|]. split; [done|]. intros d'. case_decide; lia. }
  rewrite NewCoin_Ok by done. cbn.
  pose proof (valid_coins_amount_nonneg cs d (proj1 Hcs)) as Hn.
  assert (good_coins [mkCoin d x]) as Hx1.
  { split; [apply valid_coins_cons; split; [split; [done|cbn; lia]|split; [constructor|apply valid_coins_nil]]|].
    constructor; [|constructor]. cbn. eapply int_range_between; [|exact Hr]. lia. }
  destruct (Coins_Add_good cs [mkCoin d x] Hcs Hx1) as (cs' & -> & G & M).
  - intros d'. cbn. case_decide; [subst; by rewrite Z.add_0_r|].
    rewrite Z.add_0_r. apply amount_in_range; apply Hcs.
  - exists cs'. split; [done|]. split; [done|]. intros d'. rewrite M. cbn. case_decide; lia.
Qed.
Lemma sub_if_nonzero {B} (set : Coins → B) (old : B) cs d x :
  set cs = old → good_coins cs → denom_valid d = true → 0 <= x <= amount cs d →
  ∃ cs', (if negb (Int_IsZero x)
          then xCoin ← NewCoin d x; cs1 ← Coins_Sub cs [xCoin]; Ok (set cs1) else Ok old) = Ok (set cs') ∧
         good_coins cs' ∧ ∀ d', amount cs' d' = amount cs d' - (if decide (d = d') then x else 0).
Proof.
  intros <- Hcs Hd Hx. rewrite Int_IsZero_eqb. destruct (Z.eqb_spec x 0) as [->|Hne]; cbn [negb].
  { exists cs. split; [done|]. split; [done|]. intros d'. case_decide; lia. }
  rewrite NewCoin_Ok by (done || lia). cbn.
  assert (good_coins [mkCoin d x]) as Hx1.
  { split; [apply valid_coins_cons; split; [split; [done|cbn; lia]|split; [constructor|apply valid_coins_nil]]|].
    constructor; [|constructor]. cbn. eapply int_range_between; [exact Hx|]. apply amount_in_range; apply Hcs. }
  destruct (Coins_Sub_good cs [mkCoin d x] Hcs Hx1) as (cs' & -> & G & M).
  - intros d'. cbn. case_decide; [subst; lia|]. apply valid_coins_amount_nonneg, Hcs.
  - exists cs'. split; [done|]. split; [done|]. intros d'. rewrite M. cbn. case_decide; lia.
Qed.

Definition same_schedule (b1 b2 : BaseVestingAccount) : Prop :=
  bva_BaseAccount b1 = bva_BaseAccount b2 ∧ OriginalVesting b1 = OriginalVesting b2 ∧ EndTime b1 = EndTime b2.
Definition good_bva (b : BaseVestingAccount) : Prop :=
  good_coins (DelegatedFree b) ∧ good_coins (DelegatedVesting b).

(** How much of a delegation of [D] is charged to the vesting coins. *)
Definition deleg_vesting (V DV D : Z) : Z := Z.min (Z.max (V - DV) 0) D.

Lemma track_delegation_coin_good bal vg bva c :
  good_coins vg → denoms_sorted bal → good_bva bva → valid_coin c →
  Amount c <= amount bal (Denom c) → int_range (amount (DelegatedFree bva) (Denom c) + Amount c) →
  ∃ bva', track_delegation_coin bal vg bva c = Ok bva' ∧ same_schedule bva bva' ∧ good_bva bva' ∧
    ∀ d, let D := if decide (Denom c = d) then Amount c else 0 in
         let x := deleg_vesting (amount vg d) (amount (DelegatedVesting bva) d) D in
         amount (DelegatedVesting bva') d = amount (DelegatedVesting bva) d + x ∧
         amount (DelegatedFree bva') d = amount (DelegatedFree bva) d + (D - x).
Proof.
  intros Hvg Hbal [Hdf Hdv] [Hd Hp] Hle Hr. unfold track_delegation_coin.
  rewrite !Coins_AmountOf_amount by (done || apply Hvg || apply Hdv). cbn.
  autorewrite with math_int. rewrite (proj2 (Z.eqb_neq _ _)) by lia. rewrite (proj2 (Z.ltb_ge _ _)) by lia. cbn.
  pose proof (valid_coins_amount_nonneg vg (Denom c) (proj1 Hvg)) as Hn1.
  pose proof (valid_coins_amount_nonneg _ (Denom c) (proj1 Hdv)) as Hn2.
  pose proof (valid_coins_amount_nonneg _ (Denom c) (proj1 Hdf)) as Hn3.
  pose proof (amount_in_range vg (Denom c) (proj2 (proj1 Hvg)) (proj2 Hvg)) as Hi1.
  pose proof (amount_in_range _ (Denom c) (proj2 (proj1 Hdv)) (proj2 Hdv)) as Hi2.
  rewrite Int_Sub_range by (unfold int_range in *; lia). cbn -[Coins_Add NewCoin].
  rewrite MinInt_min, MaxInt_max. unfold ZeroInt.
  fold (deleg_vesting (amount vg (Denom c)) (amount (DelegatedVesting bva) (Denom c)) (Amount c)).
  set (x := deleg_vesting _ _ _). assert (0 <= x <= Amount c) as Hx by (unfold x, deleg_vesting; lia).
  rewrite Int_Sub_range by (unfold int_range in *; lia). cbn -[Coins_Add NewCoin].
  destruct (add_if_nonzero (set_DelegatedVesting bva) bva (DelegatedVesting bva) (Denom c) x)
    as (dv' & -> & Gdv & Mdv); [by destruct bva|done|done|lia|unfold x, deleg_vesting, int_range in *; lia|].
  cbn -[Coins_Add NewCoin].
  destruct (add_if_nonzero (set_DelegatedFree (set_DelegatedVesting bva dv')) (set_DelegatedVesting bva dv')
              (DelegatedFree bva) (Denom c) (Amount c - x)) as (df' & -> & Gdf & Mdf);
    [by destruct bva|done|done|lia|unfold int_range in *; lia|].
  eexists. split; [reflexivity|]. split; [done|]. split; [done|]. cbn. intros d. rewrite Mdv, Mdf.
  case_decide as E; [by subst d|]. unfold deleg_vesting. lia.
Qed.

(** How much of an undelegation of [D] is taken from the free delegations, then
    from the vesting ones. *)
Definition undeleg_free (DF D : Z) : Z := Z.min DF D.
Definition undeleg_vesting (DF DV D : Z) : Z := Z.min DV (D - undeleg_free DF D).

Lemma track_undelegation_coin_good bva c :
  good_bva bva → valid_coin c → int_range (Amount c) →
  ∃ bva', track_undelegation_coin bva c = Ok bva' ∧ same_schedule bva bva' ∧ good_bva bva' ∧
    ∀ d, let D := if decide (Denom c = d) then Amount c else 0 in
         let DF := amount (DelegatedFree bva) d in let DV := amount (DelegatedVesting bva) d in
         amount (DelegatedFree bva') d = DF - undeleg_free DF D ∧
         amount (DelegatedVesting bva') d = DV - undeleg_vesting DF DV D.
Proof.
  intros [Hdf Hdv] [Hd Hp] Hr. unfold track_undelegation_coin. autorewrite with math_int.
  rewrite (proj2 (Z.eqb_neq _ _)) by lia. cbn.
  rewrite !Coins_AmountOf_amount by (done || apply Hdf || apply Hdv). cbn -[Coins_Sub NewCoin]. rewrite MinInt_min.
  pose proof (valid_coins_amount_nonneg _ (Denom c) (proj1 Hdv)) as Hn2.
  pose proof (valid_coins_amount_nonneg _ (Denom c) (proj1 Hdf)) as Hn3.
  fold (undeleg_free (amount (DelegatedFree bva) (Denom c)) (Amount c)).
  set (x := undeleg_free _ _). assert (0 <= x <= Amount c ∧ x <= amount (DelegatedFree bva) (Denom c)) as Hx
    by (unfold x, undeleg_free; lia).
  rewrite Int_Sub_range by (unfold int_range in *; lia). cbn -[Coins_Sub NewCoin]. rewrite MinInt_min.
  destruct (sub_if_nonzero (set_DelegatedFree bva) bva (DelegatedFree bva) (Denom c) x)
    as (df' & -> & Gdf & Mdf); [by destruct bva|done|done|lia|]. cbn -[Coins_Sub NewCoin].
  destruct (sub_if_nonzero (set_DelegatedVesting (set_DelegatedFree bva df')) (set_DelegatedFree bva df')
              (DelegatedVesting bva) (Denom c) (Z.min (amount (DelegatedVesting bva) (Denom c)) (Amount c - x)))
    as (dv' & -> & Gdv & Mdv); [by destruct bva|done|done|lia|].
  eexists. split; [reflexivity|]. split; [done|]. split; [done|]. cbn. intros d. rewrite Mdv, Mdf.
  assert (∀ d, 0 <= amount (DelegatedFree bva) d) by (intros; apply valid_coins_amount_nonneg, Hdf).
  assert (∀ d, 0 <= amount (DelegatedVesting bva) d) by (intros; apply valid_coins_amount_nonneg, Hdv).
  case_decide as E; [by subst d|]. unfold undeleg_vesting, undeleg_free. specialize (H d). specialize (H0 d). lia.
Qed.

Lemma BaseVesting_TrackDelegation_good bal vg amt : ∀ bva,
  good_coins vg → denoms_sorted bal → good_bva bva → Forall valid_coin amt → NoDup (map Denom amt) →
  (∀ c, c ∈ amt → Amount c <= amount bal (Denom c) ∧
                  int_range (amount (DelegatedFree bva) (Denom c) + Amount c)) →
  ∃ bva', BaseVesting_TrackDelegation bva bal vg amt = Ok bva' ∧ same_schedule bva bva' ∧ good_bva bva' ∧
    ∀ d, let x := deleg_vesting (amount vg d) (amount (DelegatedVesting bva) d) (amount amt d) in
         amount (DelegatedVesting bva') d = amount (DelegatedVesting bva) d + x ∧
         amount (DelegatedFree bva') d = amount (DelegatedFree bva) d + (amount amt d - x).
Proof.
  unfold BaseVesting_TrackDelegation. induction amt as [|c amt IH]; intros bva Hvg Hbal Hb Hv Hn Hc.
  { exists bva. split; [done|]. split; [done|]. split; [done|]. intros d. cbn. unfold deleg_vesting. lia. }
  apply Forall_cons in Hv as [Hvc Hv]. cbn in Hn. apply NoDup_cons in Hn as [Hni Hn].
  destruct (Hc c ltac:(left)) as [Hle Hr].
  destruct (track_delegation_coin_good bal vg bva c) as (b1 & Hs1 & (E1 & E2 & E3) & G1 & M1); [done..|].
  destruct (IH b1 Hvg Hbal G1 Hv Hn) as (b2 & Hs2 & (F1 & F2 & F3) & G2 & M2).
  { intros c' Hc'. destruct (Hc c' ltac:(by right)) as [Hle' Hr']. split; [done|].
    assert (Denom c ≠ Denom c') as Hne by (intros E; apply Hni; rewrite E; by apply list_elem_of_fmap_2).
    destruct (M1 (Denom c')) as [_ ->]. rewrite decide_False by done. unfold deleg_vesting.
    replace (_ + _ + _) with (amount (DelegatedFree bva) (Denom c') + Amount c') by lia. done. }
  exists b2. cbn [foldM]. rewrite Hs1. split; [exact Hs2|]. split; [unfold same_schedule; by rewrite E1, E2, E3|].
  split; [done|]. intros d. destruct (M2 d) as [-> ->]. destruct (M1 d) as [-> ->]. cbn [amount].
  case_decide as Hd; [|unfold deleg_vesting; lia]. subst d. rewrite (amount_not_in amt) by done.
  unfold deleg_vesting. lia.
Qed.

Lemma BaseVesting_TrackUndelegation_good amt : ∀ bva,
  good_bva bva → good_coins amt →
  ∃ bva', BaseVesting_TrackUndelegation bva amt = Ok bva' ∧ same_schedule bva bva' ∧ good_bva bva' ∧
    ∀ d, let DF := amount (DelegatedFree bva) d in let DV := amount (DelegatedVesting bva) d in
         amount (DelegatedFree bva') d = DF - undeleg_free DF (amount amt d) ∧
         amount (DelegatedVesting bva') d = DV - undeleg_vesting DF DV (amount amt d).
Proof.
  unfold BaseVesting_TrackUndelegation. induction amt as [|c amt IH]; intros bva Hb Hg.
  { exists bva. split; [done|]. split; [done|]. split; [done|]. intros d. cbn. destruct Hb as [Hdf Hdv].
    pose proof (valid_coins_amount_nonneg _ d (proj1 Hdf)). pose proof (valid_coins_amount_nonneg _ d (proj1 Hdv)).
    unfold undeleg_vesting, undeleg_free. lia. }
  destruct Hg as [(Hvc & Hlt & Hv)%valid_coins_cons [Hrc Hr]%Forall_cons].
  destruct (track_undelegation_coin_good bva c) as (b1 & Hs1 & (E1 & E2 & E3) & G1 & M1); [done..|].
  destruct (IH b1 G1 (conj Hv Hr)) as (b2 & Hs2 & (F1 & F2 & F3) & G2 & M2).
  exists b2. cbn [foldM]. rewrite Hs1. split; [exact Hs2|]. split; [unfold same_schedule; by rewrite E1, E2, E3|].
  split; [done|]. intros d. destruct (M2 d) as [-> ->]. destruct (M1 d) as [-> ->]. cbn [amount].
  destruct Hb as [Hdf Hdv].
  pose proof (valid_coins_amount_nonneg _ d (proj1 Hdf)). pose proof (valid_coins_amount_nonneg _ d (proj1 Hdv)).
  pose proof (valid_coins_amount_nonneg _ d Hv). destruct Hvc as [_ Hp].
  case_decide as Hd; [|unfold undeleg_vesting, undeleg_free; lia]. subst d. rewrite (amount_below _ _ Hlt).
  unfold undeleg_vesting, undeleg_free. lia.
Qed.

(** ** Well-formedness is preserved *)

Lemma BaseVesting_Validate_le b :
  good_bva b → BaseVesting_Validate b = Ok tt →
  ∀ d, amount (DelegatedVesting b) d <= amount (OriginalVesting b) d.
Proof.
  intros [_ Hdv] H. unfold BaseVesting_Validate in H. go_inv.
  match goal with E : (_ || _) = false |- _ => apply Bool.orb_false_iff in E as [Ev _] end.
  apply Bool.negb_false_iff, Coins_IsValid_spec in Ev. unfold Coins_IsAllLTE in *.
  destruct (Coins_IsAllGTE_spec (OriginalVesting b) (DelegatedVesting b) Ev (proj1 Hdv)) as (r & Hr & Hiff).
  match goal with E : Coins_IsAllGTE _ _ = Ok _ |- _ => rewrite Hr in E; injection E as <- end.
  match goal with E : negb _ = false |- _ => apply Bool.negb_false_iff in E as -> end. by apply Hiff.
Qed.

Lemma BaseVesting_Validate_same b b' :
  same_schedule b b' → good_bva b' →
  (∀ d, amount (DelegatedVesting b') d <= amount (OriginalVesting b') d) →
  BaseVesting_Validate b = Ok tt → BaseVesting_Validate b' = Ok tt.
Proof.
  intros (E1 & E2 & E3) [_ Hdv] Hle H. unfold BaseVesting_Validate in *. rewrite E1, E2, E3 in H. go_inv.
  match goal with E : (_ <? 0) = false |- _ => rewrite E; cbn [guard_err mbind outcome_bind] end.
  match goal with E : (_ || _) = false |- _ => rewrite E; cbn [guard_err mbind outcome_bind];
    apply Bool.orb_false_iff in E as [Ev _] end.
  apply Bool.negb_false_iff, Coins_IsValid_spec in Ev. unfold Coins_IsAllLTE.
  destruct (Coins_IsAllGTE_spec (OriginalVesting b') (DelegatedVesting b') Ev (proj1 Hdv)) as (r & -> & Hiff).
  rewrite (proj2 Hiff Hle). done.
Qed.

Lemma set_bva_wf va bva' :
  vesting_wf va → same_schedule (va_bva va) bva' → good_bva bva' →
  (∀ d, amount (DelegatedVesting bva') d <= amount (OriginalVesting bva') d) →
  vesting_wf (set_bva va bva').
Proof.
  intros [Hv Hs He Hsp Ho Hf Hdv] Hss Hg Hle. pose proof Hss as (_ & EO & EE).
  assert (va_bva (set_bva va bva') = bva') as Hb by (by destruct va).
  assert (GetStartTime (set_bva va bva') = GetStartTime va) as E1 by (by destruct va).
  assert (GetEndTime (set_bva va bva') = GetEndTime va) as E2 by (by destruct va; cbn in *; congruence).
  split; rewrite ?Hb, ?E1, ?E2; try done; [|by rewrite <- EO|apply Hg|apply Hg].
  pose proof (BaseVesting_Validate_same _ _ Hss Hg Hle) as HV.
  destruct va; cbn [VestingAccount_Validate set_bva va_bva] in *;
    unfold Continuous_Validate, Periodic_Validate, Delayed_Validate, PermanentLocked_Validate in *;
    cbn [cva_bva pva_bva dva_bva plva_bva cva_StartTime pva_StartTime VestingPeriods] in *;
    rewrite <- ?EO, <- ?EE;
    repeat match type of Hv with mbind ?k ?m = Ok tt =>
      destruct m as [[]| |] eqn:?; cbn [mbind outcome_bind] in Hv |- *; [|done..] end; auto.
Qed.

Lemma Validate_base va : VestingAccount_Validate va = Ok tt → BaseVesting_Validate (va_bva va) = Ok tt.
Proof.
  intros HV. destruct va; cbn in HV |- *;
    unfold Continuous_Validate, Periodic_Validate, Delayed_Validate, PermanentLocked_Validate in HV;
    repeat match type of HV with
           | mbind _ _ = Ok _ => apply outcome_bind_Ok in HV as (? & _ & HV)
           | (let '(_, _) := ?x in _) = Ok _ => destruct x
           end; done.
Qed.
Lemma wf_good_bva va : vesting_wf va → good_bva (va_bva va).
Proof. intros Hwf. split; [apply (wf_free _ Hwf)|apply (wf_vesting _ Hwf)]. Qed.
Lemma wf_delegated_le va d :
  vesting_wf va → amount (DelegatedVesting (va_bva va)) d <= amount (OriginalVesting (va_bva va)) d.
Proof.
  intros Hwf. apply BaseVesting_Validate_le; [by apply wf_good_bva|]. apply Validate_base, Hwf.
Qed.

(** The schedule does not read the delegation counters. *)
Lemma GetVestingCoins_set_bva va bva' t :
  same_schedule (va_bva va) bva' → GetVestingCoins (set_bva va bva') t = GetVestingCoins va t.
Proof.
  intros (_ & EO & EE). rewrite !GetVestingCoins_eq. destruct va; cbn [set_bva va_bva GetVestedCoins] in *;
    unfold Continuous_GetVestedCoins, Periodic_GetVestedCoins, Delayed_GetVestedCoins; cbn in *;
    by rewrite ?EO, ?EE.
Qed.
Lemma va_bva_set_bva va b : va_bva (set_bva va b) = b.
Proof. by destruct va. Qed.

(** Tracking a covered delegation only changes the counters: the vesting coins
    not delegated yet are charged first. *)
Lemma TrackDelegation_total va t bal amt :
  vesting_wf va → good_coins bal → good_coins amt → (∀ d, amount amt d <= amount bal d) →
  (∀ d, int_range (amount (DelegatedFree (va_bva va)) d + amount amt d)) →
  ∃ vg b', GetVestingCoins va t = Ok vg ∧ good_coins vg ∧ TrackDelegation va t bal amt = Ok (set_bva va b') ∧
    same_schedule (va_bva va) b' ∧ good_bva b' ∧ vesting_wf (set_bva va b') ∧
    ∀ d, let x := deleg_vesting (amount vg d) (amount (DelegatedVesting (va_bva va)) d) (amount amt d) in
         amount (DelegatedVesting b') d = amount (DelegatedVesting (va_bva va)) d + x ∧
         amount (DelegatedFree b') d = amount (DelegatedFree (va_bva va)) d + (amount amt d - x).
Proof.
  intros Hwf Hbal Hamt Hle Hr.
  destruct (GetVestingCoins_total va t Hwf) as (v & vg & Hv & Hvg & Gvg & Nv & M).
  destruct (BaseVesting_TrackDelegation_good bal vg amt (va_bva va)) as (b' & Hb' & Hss & Gb' & Mb').
  1-5: done || apply Hbal || apply Hamt || by apply wf_good_bva || apply denoms_sorted_nodup, Hamt.
  { intros c Hc. destruct (valid_coins_elem amt c (proj1 Hamt) Hc) as (_ & _ & <-). split; [apply Hle|apply Hr]. }
  exists vg, b'. rewrite TrackDelegation_eq, Hvg. cbn. rewrite Hb'. do 5 (split; [done|]). split; [|done].
  apply set_bva_wf; [done..|]. intros d. destruct Hss as (_ & <- & _). destruct (Mb' d) as [-> _].
  pose proof (wf_delegated_le va d Hwf). specialize (M d). specialize (Nv d). unfold deleg_vesting. lia.
Qed.
Lemma TrackUndelegation_total va amt :
  good_bva (va_bva va) → good_coins amt →
  ∃ b', TrackUndelegation va amt = Ok (set_bva va b') ∧ same_schedule (va_bva va) b' ∧ good_bva b' ∧
    ∀ d, let DF := amount (DelegatedFree (va_bva va)) d in let DV := amount (DelegatedVesting (va_bva va)) d in
         amount (DelegatedFree b') d = DF - undeleg_free DF (amount amt d) ∧
         amount (DelegatedVesting b') d = DV - undeleg_vesting DF DV (amount amt d).
Proof.
  intros Hg Hamt. destruct (BaseVesting_TrackUndelegation_good amt (va_bva va) Hg Hamt) as (b2 & Hb2 & Hss & Hg2 & M2).
  exists b2. unfold TrackUndelegation. by rewrite Hb2.
Qed.
End VestingFacts.

(** ** Properties *)

(** C36. For every kind of vesting account that passes [Validate] and whose schedule
    is shorter than 2^63 seconds ([wf_span], which [Validate] does not check), the
    vested coins are computed without panic at every block time, never exceed the
    original vesting, and never decrease as time passes.  This includes the
    rounding of the continuous schedule and the early exit of the periodic one.
    [long_schedule_overflows] shows that a longer schedule vests too much. *)
Theorem vested_coins_monotone {cfg : CoinConfig} {acfg : AddressConfig} va t1 t2 :
  vesting_wf va → t1 <= t2 →
  ∃ v1 v2, GetVestedCoins va t1 = Ok v1 ∧ GetVestedCoins va t2 = Ok v2 ∧
    ∀ d, 0 <= amount v1 d <= amount v2 d ∧ amount v2 d <= amount (OriginalVesting (va_bva va)) d.
Proof.
  intros Hwf Ht. destruct (GetVestedCoins_total va t1 Hwf) as (v1 & H1 & [_ B1]).
  destruct (GetVestedCoins_total va t2 Hwf) as (v2 & H2 & [_ B2]).
  exists v1, v2. split; [done|]. split; [done|]. intros d.
  pose proof (GetVestedCoins_mono va t1 t2 v1 v2 d Hwf Ht H1 H2). specialize (B1 d). specialize (B2 d). lia.
Qed.

Definition base_account0 : BaseAccount := mkBaseAccount "cosmos1" None 7 3.
Definition vesting_coins0 : Coins := [mkCoin "stake" 1000; mkCoin "uatom" 7].
Definition continuous0 : VestingAccount :=
  ContinuousVA (mkContinuous (mkBaseVestingAccount base_account0 vesting_coins0
                                [mkCoin "stake" 5] [mkCoin "stake" 200] 2000) 1000).
Lemma int_range_small a : 0 <= a < 2 ^ 200 → int_range a.
Proof. intros Ha. apply (int_range_between a (2 ^ 200)); [lia|]. unfold int_range. lia. Qed.
Lemma good_coins_small cs :
  Coins_IsValid (cfg := default_config) cs = true → Forall (λ c, 0 <= Amount c < 2 ^ 200) cs →
  good_coins (cfg := default_config) cs.
Proof.
  intros Hv Hf. split; [by apply Coins_IsValid_spec|]. eapply Forall_impl; [exact Hf|].
  intros c. apply int_range_small.
Qed.
Lemma continuous0_wf : vesting_wf (cfg := default_config) (acfg := acfg_id) continuous0.
Proof. split; try (apply good_coins_small; [done|repeat constructor; cbn; lia]); cbn; try lia. reflexivity. Qed.

Lemma vested_coins_monotone_witness :
  ∃ v1 v2, GetVestedCoins (cfg := default_config) continuous0 1333 = Ok v1 ∧
           GetVestedCoins (cfg := default_config) continuous0 1667 = Ok v2.
Proof.
  destruct (vested_coins_monotone (cfg := default_config) (acfg := acfg_id) continuous0 1333 1667
              continuous0_wf ltac:(lia)) as (v1 & v2 & H1 & H2 & _).
  exists v1, v2. split; [exact H1|exact H2].
Defined.

(** A delegation and its undelegation may move the counters: with 10 vesting coins and
    5 delegated free ones, delegating 5 counts as vesting, and undelegating 5 is
    taken from the free ones. *)
Definition delayed0 (free vesting : Coins) : VestingAccount :=
  DelayedVA (mkDelayed (mkBaseVestingAccount base_account0 [mkCoin "stake" 10] free vesting 2000)).
Theorem roundtrip_moves_counters :
  TrackDelegation (cfg := default_config) (delayed0 [mkCoin "stake" 5] []) 1000 [mkCoin "stake" 5] [mkCoin "stake" 5]
    = Ok (delayed0 [mkCoin "stake" 5] [mkCoin "stake" 5]) ∧
  TrackUndelegation (cfg := default_config) (delayed0 [mkCoin "stake" 5] [mkCoin "stake" 5]) [mkCoin "stake" 5]
    = Ok (delayed0 [] [mkCoin "stake" 5]).
Proof. split; vm_compute; reflexivity. Qed.

(** A schedule longer than an [int64]: the differences of the times wrap around, and
    a valid account has vested twice its original vesting; the vesting coins cannot
    be computed. *)
Definition long_schedule : VestingAccount :=
  ContinuousVA (mkContinuous (mkBaseVestingAccount base_account0 [mkCoin "stake" 1000] [] [] (2 ^ 62)) (- 2 ^ 63)).
Theorem long_schedule_overflows :
  VestingAccount_Validate (cfg := default_config) (acfg := acfg_id) long_schedule = Ok tt ∧
  GetVestedCoins (cfg := default_config) long_schedule 0 = Ok [mkCoin "stake" 2000] ∧
  is_ok (GetVestingCoins (cfg := default_config) long_schedule 0) = false.
Proof. vm_compute. done. Qed.

(** At every block time the original vesting is partitioned into vested and
    vesting coins, both valid sets, and the locked coins are the vesting coins
    not delegated: [max(V - DV, 0)] in every denomination. *)
Theorem vesting_partition_and_locked {cfg : CoinConfig} {acfg : AddressConfig} va t :
  vesting_wf va →
  ∃ v vg l, GetVestedCoins va t = Ok v ∧ GetVestingCoins va t = Ok vg ∧ LockedCoins va t = Ok l ∧
    valid_coins vg ∧ valid_coins l ∧
    ∀ d, amount v d + amount vg d = amount (OriginalVesting (va_bva va)) d ∧
         amount l d = Z.max 0 (amount vg d - amount (DelegatedVesting (va_bva va)) d).
Proof.
  intros Hwf. destruct (GetVestingCoins_total va t Hwf) as (v & vg & Hv & Hvg & Gvg & _ & M).
  destruct (LockedCoinsFromVesting_total (va_bva va) vg Gvg (wf_vesting _ Hwf)) as (l & Hl & Gl & Ml).
  exists v, vg, l. split; [done|]. split; [done|].
  split; [by rewrite LockedCoins_eq, Hvg|]. split; [apply Gvg|]. split; [apply Gl|]. auto.
Qed.

Lemma vesting_partition_and_locked_witness :
  ∃ v vg l, GetVestedCoins (cfg := default_config) continuous0 1500 = Ok v ∧
            GetVestingCoins (cfg := default_config) continuous0 1500 = Ok vg ∧
            LockedCoins (cfg := default_config) continuous0 1500 = Ok l.
Proof.
  destruct (vesting_partition_and_locked (cfg := default_config) (acfg := acfg_id) continuous0 1500
              continuous0_wf) as (v & vg & l & H1 & H2 & H3 & _).
  exists v, vg, l. split; [exact H1|]. split; [exact H2|exact H3].
Defined.

(** Tracking a delegation the balance covers succeeds, keeps the account
    well formed (delegated vesting stays below the original vesting), adds
    exactly the delegated amount to the two counters, charges the vesting coins
    first, and so unlocks: the locked coins become [max(0, L - D)]. *)
Theorem TrackDelegation_correct {cfg : CoinConfig} {acfg : AddressConfig} va t bal amt :
  vesting_wf va → good_coins bal → good_coins amt → (∀ d, amount amt d <= amount bal d) →
  (∀ d, int_range (amount (DelegatedFree (va_bva va)) d + amount amt d)) →
  ∃ va' l l', TrackDelegation va t bal amt = Ok va' ∧ vesting_wf va' ∧
    LockedCoins va t = Ok l ∧ LockedCoins va' t = Ok l' ∧
    ∀ d, amount (DelegatedFree (va_bva va')) d + amount (DelegatedVesting (va_bva va')) d =
         amount (DelegatedFree (va_bva va)) d + amount (DelegatedVesting (va_bva va)) d + amount amt d ∧
         amount (DelegatedVesting (va_bva va)) d <= amount (DelegatedVesting (va_bva va')) d ∧
         amount l' d = Z.max 0 (amount l d - amount amt d).
Proof.
  intros Hwf Hbal Hamt Hle Hr.
  destruct (TrackDelegation_total va t bal amt) as (vg & b' & Hvg & Gvg & HT & Hss & Gb' & Hwf' & Mb'); [done..|].
  destruct (LockedCoinsFromVesting_total (va_bva va) vg Gvg (wf_vesting _ Hwf)) as (l & Hl & Gl & Ml).
  destruct (LockedCoinsFromVesting_total b' vg Gvg (proj2 Gb')) as (l' & Hl' & Gl' & Ml').
  exists (set_bva va b'), l, l'. rewrite !LockedCoins_eq, GetVestingCoins_set_bva, Hvg, va_bva_set_bva by done.
  do 4 (split; [done|]). intros d. destruct (Mb' d) as [-> ->]. rewrite Ml', Ml. destruct (Mb' d) as [-> _].
  pose proof (valid_coins_amount_nonneg amt d (proj1 Hamt)). unfold deleg_vesting. lia.
Qed.

Definition delegation0 : Coins := [mkCoin "stake" 650; mkCoin "uatom" 9].
Lemma delegation0_good : good_coins (cfg := default_config) delegation0.
Proof. apply good_coins_small; [done|repeat constructor; cbn; lia]. Qed.
Lemma delegation0_range :
  ∀ d, int_range (amount (DelegatedFree (va_bva continuous0)) d + amount delegation0 d).
Proof. intros d. cbn. apply int_range_small. repeat case_decide; lia. Qed.

Lemma TrackDelegation_correct_witness :
  ∃ va', TrackDelegation (cfg := default_config) continuous0 1500 delegation0 delegation0 = Ok va' ∧
         amount (DelegatedFree (va_bva va')) "stake" + amount (DelegatedVesting (va_bva va')) "stake" = 855.
Proof.
  destruct (TrackDelegation_correct (cfg := default_config) (acfg := acfg_id) continuous0 1500
              delegation0 delegation0 continuous0_wf delegation0_good delegation0_good
              ltac:(intros; apply Z.le_refl) delegation0_range) as (va' & l & l' & H & _ & _ & _ & M).
  exists va'. split; [exact H|]. exact (proj1 (M "stake")).
Defined.

(** Undelegating what was delegated restores the total of the two counters;
    where nothing was delegated freely before, it restores both exactly (the
    free coins are returned first, so the vesting ones are not undercounted). *)
Theorem Track_delegation_roundtrip {cfg : CoinConfig} {acfg : AddressConfig} va t bal amt :
  vesting_wf va → good_coins bal → good_coins amt → (∀ d, amount amt d <= amount bal d) →
  (∀ d, int_range (amount (DelegatedFree (va_bva va)) d + amount amt d)) →
  ∃ va1 va2, TrackDelegation va t bal amt = Ok va1 ∧ TrackUndelegation va1 amt = Ok va2 ∧
    ∀ d, amount (DelegatedFree (va_bva va2)) d + amount (DelegatedVesting (va_bva va2)) d =
         amount (DelegatedFree (va_bva va)) d + amount (DelegatedVesting (va_bva va)) d ∧
         (amount (DelegatedFree (va_bva va)) d = 0 →
          amount (DelegatedFree (va_bva va2)) d = 0 ∧
          amount (DelegatedVesting (va_bva va2)) d = amount (DelegatedVesting (va_bva va)) d).
Proof.
  intros Hwf Hbal Hamt Hle Hr.
  destruct (TrackDelegation_total va t bal amt) as (vg & b' & _ & Gvg & HT & _ & Gb' & _ & Mb'); [done..|].
  destruct (TrackUndelegation_total (set_bva va b') amt) as (b2 & HU & _ & _ & M2); [by rewrite va_bva_set_bva|done|].
  rewrite va_bva_set_bva in M2. exists (set_bva va b'), (set_bva (set_bva va b') b2). do 2 (split; [done|]).
  intros d. rewrite va_bva_set_bva. destruct (M2 d) as [-> ->]. destruct (Mb' d) as [-> ->].
  pose proof (valid_coins_amount_nonneg amt d (proj1 Hamt)).
  pose proof (valid_coins_amount_nonneg _ d (proj1 (wf_free _ Hwf))).
  pose proof (valid_coins_amount_nonneg _ d (proj1 (wf_vesting _ Hwf))).
  unfold undeleg_vesting, undeleg_free, deleg_vesting. lia.
Qed.

Lemma Track_delegation_roundtrip_witness :
  ∃ va1 va2, TrackDelegation (cfg := default_config) continuous0 1500 delegation0 delegation0 = Ok va1 ∧
             TrackUndelegation (cfg := default_config) va1 delegation0 = Ok va2 ∧
             amount (DelegatedVesting (va_bva va2)) "uatom" = 0.
Proof.
  destruct (Track_delegation_roundtrip (cfg := default_config) (acfg := acfg_id) continuous0 1500
              delegation0 delegation0 continuous0_wf delegation0_good delegation0_good
              ltac:(intros; apply Z.le_refl) delegation0_range) as (va1 & va2 & H1 & H2 & M).
  exists va1, va2. split; [exact H1|]. split; [exact H2|]. exact (proj2 (proj2 (M "uatom") eq_refl)).
Defined.
