(* ===== verification/AuthKeeper.v ===== *)
(** * The account keeper: x/auth/keeper

    The part of keeper.go and account.go the bank module calls: the accounts by
    address with their unique index by account number, the counter of account
    numbers (x/accounts), and module accounts with their permissions. *)
From S2P Require Import Prelude Coin CoinFacts Collections Account Vesting.

(** The implementations of [sdk.AccountI]. *)
Inductive AccountI :=
| BaseAcc (acc : BaseAccount)
| ModuleAcc (macc : ModuleAccount)
| VestingAcc (vacc : VestingAccount).

Definition base_of (acc : AccountI) : BaseAccount :=
  match acc with
  | BaseAcc b => b
  | ModuleAcc m => ma_BaseAccount m
  | VestingAcc v => bva_BaseAccount (va_bva v)
  end.
Definition AccountI_GetAccountNumber (acc : AccountI) : Z := AccountNumber (base_of acc).

(** What the account keeper stores: the accounts, and the account number
    sequence of x/accounts with the legacy counter it is initialised from. *)
Record AuthState := mkAuthState {
  Accounts : UniqueMap string AccountI Z;
  AccountNumberSeq : option Z;
  LegacyAccountNumber : Z;
}.

(** The keeper's configuration: the permissions of the module accounts, and the
    accounts of x/accounts, which are not stored here. *)
Record AccountKeeper := mkAccountKeeper {
  permAddrs : gmap string PermissionsForAddress;
  IsAccountsModuleAccount : string → bool;
}.

Section AuthOps.
Context {acfg : AddressConfig}.
Variable ak : AccountKeeper.

Definition AccountI_GetAddress (acc : AccountI) : string := BaseAccount_GetAddress (base_of acc).

Definition set_base (acc : AccountI) (b : BaseAccount) : AccountI :=
  match acc with
  | BaseAcc _ => BaseAcc b
  | ModuleAcc m => ModuleAcc (mkModuleAccount b (Name m) (Permissions m))
  | VestingAcc v =>
      let bva := va_bva v in
      VestingAcc (set_bva v (mkBaseVestingAccount b (OriginalVesting bva) (DelegatedFree bva)
                               (DelegatedVesting bva) (EndTime bva)))
  end.
Definition AccountI_SetAccountNumber (acc : AccountI) (n : Z) : AccountI :=
  set_base acc (BaseAccount_SetAccountNumber (base_of acc) n).

Definition account_ref_key (_ : string) (acc : AccountI) : Z := AccountI_GetAccountNumber acc.

(** Run an operation on the accounts collection. *)
Definition on_accounts {A} (m : GoM (UniqueMap string AccountI Z) A) : GoM AuthState A :=
  λ s, let '(r, accts) := m (Accounts s) in
       (r, mkAuthState accts (AccountNumberSeq s) (LegacyAccountNumber s)).

(** [if err != nil { panic(err) }] *)
Definition mustM {S A} (m : GoM S A) : GoM S A := λ s, let '(r, s') := m s in (must r, s').

(** x/accounts: the next account number, a [uint64]. *)
Definition NextAccountNumber : GoM AuthState Z :=
  accNum ← readM (λ s, from_option id (LegacyAccountNumber s) (AccountNumberSeq s));
  _ ← modifyM (λ s, mkAuthState (Accounts s) (Some (wrap_uint64 (accNum + 1))) (LegacyAccountNumber s));
  mret accNum.

Definition NewAccount (acc : AccountI) : GoM AuthState AccountI :=
  accNum ← mustM NextAccountNumber;
  mret (AccountI_SetAccountNumber acc accNum).
Definition NewAccountWithAddress (addr : string) : GoM AuthState AccountI :=
  acc ← liftM (must (BaseAccount_SetAddress ProtoBaseAccount addr));
  NewAccount (BaseAcc acc).

Definition HasAccount (addr : string) : GoM AuthState bool :=
  readM (λ s, bool_decide (is_Some (um_map (Accounts s) !! addr)) || IsAccountsModuleAccount ak addr).
Definition GetAccount (addr : string) : GoM AuthState (option AccountI) :=
  readM (λ s, um_map (Accounts s) !! addr).
Definition SetAccount (acc : AccountI) : GoM AuthState unit :=
  mustM (on_accounts (UniqueMap_Set account_ref_key (AccountI_GetAddress acc) acc)).
Definition RemoveAccount (acc : AccountI) : GoM AuthState unit :=
  mustM (on_accounts (UniqueMap_Remove account_ref_key (AccountI_GetAddress acc))).

Definition ValidatePermissions (macc : ModuleAccount) : outcome unit :=
  let perms := from_option pa_permissions [] (permAddrs ak !! Name macc) in
  forM_ (λ perm, guard_err (negb (existsb (λ p, str_eq p perm) perms)) "invalid module permission")
        (Permissions macc).
Definition GetModuleAddress (moduleName : string) : option string := pa_address <$> permAddrs ak !! moduleName.
Definition GetModuleAddressAndPermissions (moduleName : string) : option (string * list string) :=
  (λ pa, (pa_address pa, pa_permissions pa)) <$> permAddrs ak !! moduleName.

(** A module account that does not exist yet is created. *)
Definition GetModuleAccountAndPermissions (moduleName : string)
    : GoM AuthState (option ModuleAccount * list string) :=
  match GetModuleAddressAndPermissions moduleName with
  | None => mret (None, [])
  | Some (addr, perms) =>
      acc ← GetAccount addr;
      match acc with
      | Some (ModuleAcc macc) => mret (Some macc, perms)
      | Some _ => panicM "account is not a module account"
      | None =>
          macc ← liftM (NewEmptyModuleAccount moduleName perms);
          accNum ← mustM NextAccountNumber;
          let macc := mkModuleAccount (BaseAccount_SetAccountNumber (ma_BaseAccount macc) accNum)
                                      (Name macc) (Permissions macc) in
          _ ← SetAccount (ModuleAcc macc);
          mret (Some macc, perms)
      end
  end.
Definition GetModuleAccount (moduleName : string) : GoM AuthState (option ModuleAccount) :=
  '(acc, _) ← GetModuleAccountAndPermissions moduleName; mret acc.
End AuthOps.
