(* ===== verification/AuthProps.v ===== *)
(** * The account keeper keeps its indexes *)
From S2P Require Import Prelude Coin CoinFacts Collections Account Vesting AuthKeeper.

(** The number the next account gets. *)
Definition next_number (s : AuthState) : Z := from_option id (LegacyAccountNumber s) (AccountNumberSeq s).

Section AuthFacts.
Context {acfg : AddressConfig}.

(** The number index is exact, every account is stored under its own address,
    and the numbers in use are below the counter. *)
Record auth_inv (s : AuthState) : Prop := {
  ai_index : unique_index_ok account_ref_key (Accounts s);
  ai_address a acc : um_map (Accounts s) !! a = Some acc → AccountI_GetAddress acc = a;
  ai_number a acc : um_map (Accounts s) !! a = Some acc → 0 <= AccountI_GetAccountNumber acc < next_number s
}.
(** What the codec of src/codec/address/bech32_codec.go does with an address: its
    bech32 form decodes to it, if it has between 1 and [MaxAddrLen] = 255 bytes.
    The empty address is written as the empty string, which does not decode, and
    longer addresses are refused. *)
Definition valid_address (a : string) : Prop := (1 <= String.length a <= 255)%nat.
#[global] Instance valid_address_dec a : Decision (valid_address a).
Proof. unfold valid_address. apply _. Defined.
Definition bech32_roundtrip : Prop := ∀ a, valid_address a → AccAddressFromBech32 (AccAddress_String a) = Ok a.

Lemma NextAccountNumber_run s : 0 <= next_number s < 2 ^ 64 - 1 →
  mustM NextAccountNumber s =
    (Ok (next_number s), mkAuthState (Accounts s) (Some (next_number s + 1)) (LegacyAccountNumber s)).
Proof.
  intros Hn. unfold mustM, NextAccountNumber, mbind, GoM_bind, readM, modifyM. cbn -[next_number wrap_uint64].
  change (from_option id (LegacyAccountNumber s) (AccountNumberSeq s)) with (next_number s).
  by rewrite wrap_uint64_id by lia.
Qed.

(** A write whose number no other account has goes through. *)
Lemma SetAccount_run acc s :
  unique_index_ok account_ref_key (Accounts s) →
  (∀ a old, um_map (Accounts s) !! a = Some old → a ≠ AccountI_GetAddress acc →
     AccountI_GetAccountNumber old ≠ AccountI_GetAccountNumber acc) →
  ∃ s', SetAccount acc s = (Ok tt, s') ∧ unique_index_ok account_ref_key (Accounts s') ∧
    um_map (Accounts s') = <[AccountI_GetAddress acc := acc]> (um_map (Accounts s)) ∧ next_number s' = next_number s.
Proof.
  intros Hok Hfree. unfold SetAccount, mustM, on_accounts.
  destruct (UniqueMap_Set account_ref_key (AccountI_GetAddress acc) acc (Accounts s)) as [r m] eqn:E.
  pose proof (UniqueMap_Set_conflict account_ref_key (AccountI_GetAddress acc) acc (Accounts s) Hok) as Hc.
  rewrite E in Hc. cbn [fst] in Hc. destruct r as [[]|e|e].
  - destruct (UniqueMap_Set_ok _ _ _ _ _ _ Hok E) as [Hok' Hm]. eexists. split; [reflexivity|]. done.
  - exfalso. rewrite UniqueMap_Set_eq in E. cbn zeta in E. case_bool_decide; [|done]. injection E as <- _.
    destruct Hc as [_ Hc]. destruct (Hc eq_refl) as (a & old & Hne & Hold & Heq). by eapply Hfree.
  - exfalso. rewrite UniqueMap_Set_eq in E. cbn zeta in E. by case_bool_decide.
Qed.
Lemma SetAccount_inv acc s :
  auth_inv s → 0 <= AccountI_GetAccountNumber acc < next_number s →
  (∀ a old, um_map (Accounts s) !! a = Some old → a ≠ AccountI_GetAddress acc →
     AccountI_GetAccountNumber old ≠ AccountI_GetAccountNumber acc) →
  ∃ s', SetAccount acc s = (Ok tt, s') ∧ auth_inv s' ∧
    um_map (Accounts s') = <[AccountI_GetAddress acc := acc]> (um_map (Accounts s)) ∧ next_number s' = next_number s.
Proof.
  intros [Hi Ha Hn] Hr Hfree. destruct (SetAccount_run acc s Hi Hfree) as (s' & Hs & Hi' & Hm & Hnx).
  exists s'. split; [done|]. split; [|done]. split; [done| |]; rewrite Hm.
  - intros a acc' [[<- <-]|[_ ?]]%lookup_insert_Some; [done|eauto].
  - rewrite Hnx. intros a acc' [[<- <-]|[_ ?]]%lookup_insert_Some; [done|eauto].
Qed.

(** An account stored again under its number replaces the old one. *)
Lemma SetAccount_replace acc old s :
  auth_inv s → um_map (Accounts s) !! AccountI_GetAddress acc = Some old →
  AccountI_GetAccountNumber acc = AccountI_GetAccountNumber old →
  ∃ s', SetAccount acc s = (Ok tt, s') ∧ auth_inv s' ∧
    um_map (Accounts s') = <[AccountI_GetAddress acc := acc]> (um_map (Accounts s)).
Proof.
  intros Hi Hold Heq. destruct (SetAccount_inv acc s Hi) as (s' & ? & ? & ? & _); [| |by exists s'].
  - rewrite Heq. by eapply ai_number.
  - intros a acc' Ha Hne Hc. apply Hne. pose proof (ai_index _ Hi) as Hix.
    assert (um_refKeys (Accounts s) !! AccountI_GetAccountNumber acc' = Some a) as E1 by (apply Hix; eauto).
    assert (um_refKeys (Accounts s) !! AccountI_GetAccountNumber old = Some (AccountI_GetAddress acc)) as E2
      by (apply Hix; eauto). congruence.
Qed.

(** Taking the next number keeps the invariant, and no account has it. *)
Lemma next_number_fresh s :
  auth_inv s → let s1 := mkAuthState (Accounts s) (Some (next_number s + 1)) (LegacyAccountNumber s) in
  auth_inv s1 ∧ next_number s1 = next_number s + 1 ∧
  ∀ a old, um_map (Accounts s) !! a = Some old → AccountI_GetAccountNumber old ≠ next_number s.
Proof.
  intros [Hi Ha Hn] s1. split; [|split; [done|]].
  - split; [done|done|]. intros a acc Hacc. specialize (Hn a acc Hacc). change (next_number s1) with (next_number s + 1). lia.
  - intros a old Hold. specialize (Hn a old Hold). lia.
Qed.

(** Creating an account: [NewAccountWithAddress] followed by [SetAccount]. *)
Definition create_account (addr : string) : GoM AuthState unit :=
  acc ← NewAccountWithAddress addr;
  SetAccount acc.
Lemma create_account_spec addr s :
  bech32_roundtrip → valid_address addr → auth_inv s → 0 <= next_number s < 2 ^ 64 - 1 → um_map (Accounts s) !! addr = None →
  ∃ s', create_account addr s = (Ok tt, s') ∧ auth_inv s' ∧ next_number s' = next_number s + 1 ∧
    um_map (Accounts s') =
      <[addr := BaseAcc (mkBaseAccount (AccAddress_String addr) None (next_number s) 0)]> (um_map (Accounts s)).
Proof.
  intros Hrt Hva Hi Hn Hnone. destruct (next_number_fresh s Hi) as (Hi1 & Hn1 & Hfresh).
  set (acc := BaseAcc (mkBaseAccount (AccAddress_String addr) None (next_number s) 0)).
  assert (AccountI_GetAddress acc = addr) as Ea.
  { unfold AccountI_GetAddress, BaseAccount_GetAddress. cbn. by rewrite Hrt by done. }
  destruct (SetAccount_inv acc _ Hi1) as (s' & Hs & Hi' & Hm & Hn').
  { rewrite Hn1. cbn. lia. }
  { intros a old Hold _. by apply (Hfresh a). }
  rewrite Ea in Hm. exists s'. split; [|split; [done|split; [lia|done]]]. unfold create_account, NewAccountWithAddress.
  erewrite GoM_bind_run; [exact Hs|]. erewrite liftM_bind_run; [|reflexivity].
  unfold NewAccount. by rewrite (GoM_bind_run _ _ _ _ _ (NextAccountNumber_run s Hn)).
Qed.

Lemma RemoveAccount_spec acc old s :
  auth_inv s → um_map (Accounts s) !! AccountI_GetAddress acc = Some old →
  ∃ s', RemoveAccount acc s = (Ok tt, s') ∧ auth_inv s' ∧ next_number s' = next_number s ∧
    um_map (Accounts s') = delete (AccountI_GetAddress acc) (um_map (Accounts s)).
Proof.
  intros [Hi Ha Hn] Hold. unfold RemoveAccount, mustM, on_accounts.
  destruct (UniqueMap_Remove account_ref_key (AccountI_GetAddress acc) (Accounts s)) as [r m] eqn:E.
  assert (r = Ok tt) as ->.
  { unfold UniqueMap_Remove, Unique_Unreference, Unique_unreference, mbind, GoM_bind, modifyM, readM in E. cbn in E.
    rewrite Hold in E. cbn in E. by injection E. }
  destruct (UniqueMap_Remove_ok _ _ _ _ _ Hi E) as [Hi' Hm]. eexists. split; [reflexivity|]. split; [|done].
  split; cbn; [done| |]; rewrite Hm; intros a acc' [_ ?]%lookup_delete_Some; [eauto|by eapply Hn].
Qed.

(** A registered module: its address is derived from its name, a hash of 20 bytes,
    and its permissions are not blank. *)
Definition registered (ak : AccountKeeper) (name : string) (perms : list string) : Prop :=
  permAddrs ak !! name = Some (NewPermissionsForAddress name perms) ∧ validatePermissions perms = Ok tt ∧ valid_address (address_Module name).

Lemma GetModuleAccount_stored ak name perms macc s :
  registered ak name perms → um_map (Accounts s) !! address_Module name = Some (ModuleAcc macc) →
  GetModuleAccount ak name s = (Ok (Some macc), s).
Proof.
  intros [Hp _] Hm. unfold GetModuleAccount, GetModuleAccountAndPermissions, GetModuleAddressAndPermissions. rewrite Hp.
  cbn [fmap option_fmap option_map]. unfold mbind, GoM_bind, GetAccount, readM. cbn. unfold NewModuleAddress. by rewrite Hm.
Qed.
Lemma GetModuleAccount_creates ak name perms s :
  bech32_roundtrip → auth_inv s → 0 <= next_number s < 2 ^ 64 - 1 → registered ak name perms →
  um_map (Accounts s) !! address_Module name = None →
  let macc := mkModuleAccount (mkBaseAccount (AccAddress_String (address_Module name)) None (next_number s) 0) name perms in
  ∃ s', GetModuleAccount ak name s = (Ok (Some macc), s') ∧ auth_inv s' ∧ next_number s' = next_number s + 1 ∧
    um_map (Accounts s') = <[address_Module name := ModuleAcc macc]> (um_map (Accounts s)).
Proof.
  intros Hrt Hi Hn (Hp & Hv & Hva) Hnone macc. destruct (next_number_fresh s Hi) as (Hi1 & Hn1 & Hfresh).
  assert (AccountI_GetAddress (ModuleAcc macc) = address_Module name) as Ea.
  { unfold AccountI_GetAddress, BaseAccount_GetAddress. cbn. by rewrite Hrt by done. }
  destruct (SetAccount_inv (ModuleAcc macc) _ Hi1) as (s' & Hs & Hi' & Hm & Hn').
  { rewrite Hn1. cbn. lia. }
  { intros a old Hold _. by apply (Hfresh a). }
  rewrite Ea in Hm. exists s'. split; [|split; [done|split; [lia|done]]].
  assert (GetModuleAccountAndPermissions ak name s = (Ok (Some macc, perms), s')) as E.
  { unfold GetModuleAccountAndPermissions, GetModuleAddressAndPermissions. rewrite Hp. cbn [fmap option_fmap option_map].
    rewrite (GoM_bind_run _ _ (um_map (Accounts s) !! address_Module name) s s) by done. rewrite Hnone.
    rewrite (liftM_bind_run _ _ (mkModuleAccount (NewBaseAccountWithAddress (NewModuleAddress name)) name perms))
      by (unfold NewEmptyModuleAccount; cbn [NewPermissionsForAddress pa_permissions]; by rewrite Hv).
    rewrite (GoM_bind_run _ _ _ _ _ (NextAccountNumber_run s Hn)). by rewrite (GoM_bind_run _ _ _ _ _ Hs). }
  unfold GetModuleAccount. by rewrite (GoM_bind_run _ _ _ _ _ E).
Qed.
End AuthFacts.
Ltac solve_address := unfold valid_address; vm_compute; lia.

(** C37. The account keeper in a consistent state, with account numbers left, and
    an address codec that reads back the addresses of 1 to 255 bytes: creating an
    account at a free address of that length always succeeds, under the next account
    number, which no other account has; an account stored again under its number is
    replaced; removing a stored account succeeds; the module account of a
    registered module is the stored one, or is created once with the registered
    permissions, so that asking again returns the same account and changes nothing.
    Each operation changes one entry and keeps the invariant: the number index is
    exact, so no two accounts share a number. *)
Theorem account_keeper_correct {acfg : AddressConfig} ak s :
  bech32_roundtrip → auth_inv s → 0 <= next_number s < 2 ^ 64 - 1 →
  (∀ a1 a2 acc1 acc2, um_map (Accounts s) !! a1 = Some acc1 → um_map (Accounts s) !! a2 = Some acc2 →
     AccountI_GetAccountNumber acc1 = AccountI_GetAccountNumber acc2 → a1 = a2) ∧
  (∀ addr, valid_address addr → um_map (Accounts s) !! addr = None →
     ∃ s', create_account addr s = (Ok tt, s') ∧ auth_inv s' ∧ next_number s' = next_number s + 1 ∧
       um_map (Accounts s') =
         <[addr := BaseAcc (mkBaseAccount (AccAddress_String addr) None (next_number s) 0)]> (um_map (Accounts s))) ∧
  (∀ acc old, um_map (Accounts s) !! AccountI_GetAddress acc = Some old →
     AccountI_GetAccountNumber acc = AccountI_GetAccountNumber old →
     ∃ s', SetAccount acc s = (Ok tt, s') ∧ auth_inv s' ∧
       um_map (Accounts s') = <[AccountI_GetAddress acc := acc]> (um_map (Accounts s))) ∧
  (∀ acc old, um_map (Accounts s) !! AccountI_GetAddress acc = Some old →
     ∃ s', RemoveAccount acc s = (Ok tt, s') ∧ auth_inv s' ∧
       um_map (Accounts s') = delete (AccountI_GetAddress acc) (um_map (Accounts s))) ∧
  (∀ name perms, registered ak name perms →
     (∀ acc, um_map (Accounts s) !! address_Module name = Some acc → ∃ macc, acc = ModuleAcc macc) →
     ∃ macc s', GetModuleAccount ak name s = (Ok (Some macc), s') ∧ auth_inv s' ∧
       um_map (Accounts s') !! address_Module name = Some (ModuleAcc macc) ∧
       (∀ a, a ≠ address_Module name → um_map (Accounts s') !! a = um_map (Accounts s) !! a) ∧
       (um_map (Accounts s) !! address_Module name = None → Permissions macc = perms) ∧
       GetModuleAccount ak name s' = (Ok (Some macc), s')).
Proof.
  intros Hrt Hi Hn. split; [|split; [|split; [|split]]].
  - intros a1 a2 acc1 acc2 H1 H2 Heq. pose proof (ai_index _ Hi) as Hix.
    assert (um_refKeys (Accounts s) !! AccountI_GetAccountNumber acc1 = Some a1) as E1 by (apply Hix; eauto).
    assert (um_refKeys (Accounts s) !! AccountI_GetAccountNumber acc1 = Some a2) as E2 by (apply Hix; eauto).
    congruence.
  - intros addr Hva Hnone. by apply create_account_spec.
  - intros acc old Hold Heq. by eapply SetAccount_replace.
  - intros acc old Hold. destruct (RemoveAccount_spec acc old s Hi Hold) as (s' & ? & ? & _ & ?). by exists s'.
  - intros name perms Hreg Hmod. destruct (um_map (Accounts s) !! address_Module name) as [acc|] eqn:E.
    + destruct (Hmod acc eq_refl) as [macc ->]. exists macc, s.
      rewrite (GetModuleAccount_stored ak name perms macc s Hreg E). done.
    + destruct (GetModuleAccount_creates ak name perms s Hrt Hi Hn Hreg E) as (s' & Hg & Hi' & _ & Hm).
      eexists _, s'. split; [exact Hg|]. split; [done|].
      split; [by rewrite Hm, lookup_insert_eq|]. split; [intros a Ha; by rewrite Hm, lookup_insert_ne|]. split; [done|].
      apply (GetModuleAccount_stored ak name perms _ s' Hreg). by rewrite Hm, lookup_insert_eq.
Qed.

Definition auth_sample : AuthState :=
  mkAuthState (mkUniqueMap {["alice" := BaseAcc (mkBaseAccount "alice" None 0 0)]} {[0 := "alice"]}) (Some 1) 0.
Lemma auth_sample_inv : auth_inv (acfg := acfg_id) auth_sample.
Proof.
  split; cbn.
  - intros r pk. cbn. setoid_rewrite lookup_singleton_Some. split.
    + intros [<- <-]. eexists. done.
    + by intros (v & [<- <-] & <-).
  - intros a acc [<- <-]%lookup_singleton_Some. done.
  - intros a acc [<- <-]%lookup_singleton_Some. done.
Qed.
Lemma account_keeper_correct_witness :
  ∃ s', create_account (acfg := acfg_id) "bob" auth_sample = (Ok tt, s') ∧ next_number s' = 2.
Proof.
  destruct (account_keeper_correct (acfg := acfg_id) (mkAccountKeeper ∅ (λ _, false)) auth_sample) as (_ & Hc & _).
  - intros a _. reflexivity.
  - exact auth_sample_inv.
  - split; [vm_compute; discriminate|vm_compute; reflexivity].
  - destruct (Hc "bob" ltac:(solve_address) eq_refl) as (s' & H1 & _ & H2 & _). exists s'. split; [exact H1|exact H2].
Defined.
