(* ===== verification/Bank.v ===== *)
(** * The bank module: x/bank

    The view, send and base keepers (keeper/view.go, send.go, keeper.go), their
    restrictions (types/restrictions.go), the message server (msg_server.go) and
    the data of types/{params,inputs_outputs}.go.
    A keeper method is a computation on [BankState], the stores of the bank module
    and of the account keeper it calls; writes made before an error remain, as in
    the source.  The block time is the [int64] of the header. *)
From S2P Require Import Prelude MathInt Coin CoinFacts Collections Account Vesting AuthKeeper.

(** ** State *)

Record SendEnabledEntry := mkSendEnabled { se_Denom : string; se_Enabled : bool }.
Record BankParams := mkBankParams { p_SendEnabled : list SendEnabledEntry; DefaultSendEnabled : bool }.
Record DenomUnit := mkDenomUnit { du_Denom : string; Exponent : Z; Aliases : list string }.
Record Metadata := mkMetadata {
  Description : string;
  DenomUnits : list DenomUnit;
  md_Base : string;
  Display : string;
  md_Name : string;
  Symbol : string;
  URI : string;
  URIHash : string;
}.

(** An event, with coins instead of their text. *)
Record Event := mkEvent { ev_Type : string; ev_Attributes : list (string * string); ev_Amount : Coins }.

Record BankState := mkBankState {
  Supply : gmap string Z;
  DenomMetadata : gmap string Metadata;
  SendEnabled : gmap string bool;
  Balances : ReversePairMap string string Z;
  Params : option BankParams;
  auth : AuthState;
  events : list Event;
}.

Definition ErrInvalidCoins : string := "invalid coins".
Definition ErrInsufficientFunds : string := "insufficient funds".
Definition ErrUnknownAddress : string := "unknown address".
Definition ErrUnauthorized : string := "unauthorized".
Definition ErrInvalidAddress : string := "invalid address".
Definition ErrInvalidRequest : string := "invalid request".
Definition ErrNoInputs : string := "no inputs to send transaction".
Definition ErrNoOutputs : string := "no outputs to send transaction".
Definition ErrInputOutputMismatch : string := "sum inputs != sum outputs".
Definition ErrSendDisabled : string := "send transactions are disabled".
Definition ErrMultipleSenders : string := "multiple senders not allowed".
Definition ErrInvalidSigner : string := "expected authority account as only signer for proposal message".

(** *** Field updates *)

Definition with_Supply (f : gmap string Z → gmap string Z) (s : BankState) : BankState :=
  mkBankState (f (Supply s)) (DenomMetadata s) (SendEnabled s) (Balances s) (Params s) (auth s) (events s).
Definition with_DenomMetadata (f : gmap string Metadata → gmap string Metadata) (s : BankState) : BankState :=
  mkBankState (Supply s) (f (DenomMetadata s)) (SendEnabled s) (Balances s) (Params s) (auth s) (events s).
Definition with_SendEnabled (f : gmap string bool → gmap string bool) (s : BankState) : BankState :=
  mkBankState (Supply s) (DenomMetadata s) (f (SendEnabled s)) (Balances s) (Params s) (auth s) (events s).
Definition with_Balances (f : ReversePairMap string string Z → ReversePairMap string string Z)
    (s : BankState) : BankState :=
  mkBankState (Supply s) (DenomMetadata s) (SendEnabled s) (f (Balances s)) (Params s) (auth s) (events s).
Definition with_Params (p : BankParams) (s : BankState) : BankState :=
  mkBankState (Supply s) (DenomMetadata s) (SendEnabled s) (Balances s) (Some p) (auth s) (events s).
Definition with_event (e : Event) (s : BankState) : BankState :=
  mkBankState (Supply s) (DenomMetadata s) (SendEnabled s) (Balances s) (Params s) (auth s) (events s ++ [e]).

(** A call to the account keeper. *)
Definition on_auth {A} (m : GoM AuthState A) : GoM BankState A :=
  λ s, let '(r, a) := m (auth s) in
       (r, mkBankState (Supply s) (DenomMetadata s) (SendEnabled s) (Balances s) (Params s) a (events s)).

Definition EmitKV (ty : string) (attrs : list (string * string)) (amt : Coins) : GoM BankState unit :=
  modifyM (with_event (mkEvent ty attrs amt)).

(** ** Restrictions: types/restrictions.go *)

(** A restriction is given the context, so it may read and write the state. *)
Definition MintingRestrictionFn : Type := Coins → GoM BankState unit.
Definition SendRestrictionFn : Type := string → string → Coins → GoM BankState string.

Definition NoOpMintingRestrictionFn : MintingRestrictionFn := λ _, mret tt.
Definition NoOpSendRestrictionFn : SendRestrictionFn := λ _ toAddr _, mret toAddr.

(** Run the restrictions in order until one fails. *)
Definition run_minting (toRun : list MintingRestrictionFn) : MintingRestrictionFn :=
  λ coins, forM_ (λ r : MintingRestrictionFn, r coins) toRun.
Definition ComposeMintingRestrictions (restrictions : list (option MintingRestrictionFn))
    : option MintingRestrictionFn :=
  match omap id restrictions with
  | [] => None
  | [r] => Some r
  | toRun => Some (run_minting toRun)
  end.
Definition MintingRestriction_Then (r second : option MintingRestrictionFn) : option MintingRestrictionFn :=
  ComposeMintingRestrictions [r; second].

(** The receiver returned by one restriction is the argument of the next. *)
Definition run_send (toRun : list SendRestrictionFn) : SendRestrictionFn :=
  λ fromAddr toAddr amt, foldM (λ to (r : SendRestrictionFn), r fromAddr to amt) toAddr toRun.
Definition ComposeSendRestrictions (restrictions : list (option SendRestrictionFn)) : option SendRestrictionFn :=
  match omap id restrictions with
  | [] => None
  | [r] => Some r
  | toRun => Some (run_send toRun)
  end.
Definition SendRestriction_Then (r second : option SendRestrictionFn) : option SendRestrictionFn :=
  ComposeSendRestrictions [r; second].

(** ** The keeper *)

Record BaseKeeper := mkBaseKeeper {
  k_ak : AccountKeeper;
  blockedAddrs : gset string;
  authority : string;
  sendRestriction : option SendRestrictionFn;
  mintCoinsRestrictionFn : option MintingRestrictionFn;
}.

Definition with_sendRestriction (k : BaseKeeper) (fn : option SendRestrictionFn) : BaseKeeper :=
  mkBaseKeeper (k_ak k) (blockedAddrs k) (authority k) fn (mintCoinsRestrictionFn k).
Definition AppendSendRestriction (k : BaseKeeper) (restriction : option SendRestrictionFn) : BaseKeeper :=
  with_sendRestriction k (SendRestriction_Then (sendRestriction k) restriction).
Definition PrependSendRestriction (k : BaseKeeper) (restriction : option SendRestrictionFn) : BaseKeeper :=
  with_sendRestriction k (SendRestriction_Then restriction (sendRestriction k)).
Definition ClearSendRestriction (k : BaseKeeper) : BaseKeeper := with_sendRestriction k None.
Definition WithMintCoinsRestriction (k : BaseKeeper) (check : option MintingRestrictionFn) : BaseKeeper :=
  mkBaseKeeper (k_ak k) (blockedAddrs k) (authority k) (sendRestriction k)
    (MintingRestriction_Then check (mintCoinsRestrictionFn k)).

Definition sendRestriction_apply (k : BaseKeeper) : SendRestrictionFn :=
  match sendRestriction k with
  | None => NoOpSendRestrictionFn
  | Some fn => fn
  end.
(** Calling a nil function panics. *)
Definition mint_restriction (k : BaseKeeper) : MintingRestrictionFn :=
  match mintCoinsRestrictionFn k with
  | None => λ _, panicM "invalid memory address or nil pointer dereference"
  | Some fn => fn
  end.

Section BankOps.
Context {cfg : CoinConfig} {acfg : AddressConfig}.
Variable k : BaseKeeper.
Variable blockTime : Z.

Definition NewBaseKeeper (ak : AccountKeeper) (blocked : gset string) (auth : string) : outcome BaseKeeper :=
  _ ← must (StringToBytes auth);
  Ok (mkBaseKeeper ak blocked auth None (Some NoOpMintingRestrictionFn)).

(** ** View: keeper/view.go *)

Definition GetBalance (addr denom : string) : GoM BankState Coin :=
  amt ← readM (λ s, rp_map (Balances s) !! (addr, denom));
  liftM (match amt with
         | None => NewCoin denom ZeroInt
         | Some a => NewCoin denom a
         end).
Definition HasBalance (addr : string) (amt : Coin) : GoM BankState bool :=
  b ← GetBalance addr (Denom amt); liftM (Coin_IsGTE b amt).

(** The balances of one account, in key order; the callback never stops. *)
Definition account_balances (s : BankState) (addr : string) : list (string * Z) :=
  merge_sort (λ x y : string * Z, String.le (fst x) (fst y))
    (omap (λ '((a, d), v), if decide (a = addr) then Some (d, v) else None) (map_to_list (rp_map (Balances s)))).
Definition GetAllBalances (addr : string) : GoM BankState Coins :=
  entries ← readM (λ s, account_balances s addr);
  balances0 ← liftM (NewCoins []);
  balances ← liftM (foldM (λ balances '(d, v), c ← NewCoin d v; Coins_Add balances [c]) balances0 entries);
  mret (Coins_Sort balances).

Definition LockedCoins_of (addr : string) : GoM BankState Coins :=
  acc ← on_auth (GetAccount addr);
  match acc with
  | Some (VestingAcc vacc) => liftM (LockedCoins vacc blockTime)
  | _ => liftM (NewCoins [])
  end.
Definition SpendableCoins (addr : string) : GoM BankState Coins :=
  total ← GetAllBalances addr;
  allLocked ← LockedCoins_of addr;
  if Coins_IsZero allLocked then mret total
  else '(unlocked, hasNeg) ← liftM (Coins_SafeSub total allLocked);
       if negb hasNeg then mret unlocked
       else mret (List.filter Coin_IsPositive unlocked).
Definition SpendableCoin (addr denom : string) : GoM BankState Coin :=
  balance ← GetBalance addr denom;
  locked ← LockedCoins_of addr;
  lockedAmt ← liftM (Coins_AmountOf locked denom);
  liftM (if negb (Int_IsPositive lockedAmt) then Ok balance
         else if Int_LT lockedAmt (Amount balance) then Coin_SubAmount balance lockedAmt
         else NewCoin denom ZeroInt).
Definition ValidateBalance (addr : string) : GoM BankState unit :=
  acc ← on_auth (GetAccount addr);
  match acc with
  | None => errM ErrUnknownAddress
  | Some acc =>
      balances ← GetAllBalances addr;
      _ ← liftM (guard_err (negb (Coins_IsValid balances)) "account balance is invalid");
      match acc with
      | VestingAcc vacc =>
          gt ← liftM (Coins_IsAnyGT (OriginalVesting (va_bva vacc)) balances);
          liftM (guard_err gt "vesting amount cannot be greater than total amount")
      | _ => mret tt
      end
  end.

(** ** Sending: keeper/send.go *)

Definition GetParams : GoM BankState BankParams :=
  readM (λ s, from_option id (mkBankParams [] false) (Params s)).
Definition SetSendEnabled (denom : string) (value : bool) : GoM BankState unit :=
  modifyM (with_SendEnabled <[denom := value]>).
Definition SetAllSendEnabled (entries : list SendEnabledEntry) : GoM BankState unit :=
  forM_ (λ e, SetSendEnabled (se_Denom e) (se_Enabled e)) entries.
Definition DeleteSendEnabled (denoms : list string) : GoM BankState unit :=
  forM_ (λ denom, modifyM (with_SendEnabled (delete denom))) denoms.
Definition NewParams (defaultSendEnabled : bool) : BankParams := mkBankParams [] defaultSendEnabled.
Definition DefaultParams : BankParams := mkBankParams [] true.
Definition SetParams (params : BankParams) : GoM BankState unit :=
  if (0 <? length (p_SendEnabled params))%nat
  then _ ← SetAllSendEnabled (p_SendEnabled params);
       modifyM (with_Params (NewParams (DefaultSendEnabled params)))
  else modifyM (with_Params params).

Definition getSendEnabled (denom : string) : GoM BankState (bool * bool) :=
  readM (λ s, match SendEnabled s !! denom with Some v => (v, true) | None => (false, false) end).
Definition getSendEnabledOrDefault (denom : string) (defaultVal : bool) : GoM BankState bool :=
  '(sendEnabled, found) ← getSendEnabled denom;
  mret (if found : bool then sendEnabled else defaultVal).
Definition GetSendEnabledEntry (denom : string) : GoM BankState (SendEnabledEntry * bool) :=
  '(sendEnabled, found) ← getSendEnabled denom;
  mret (if negb found then (mkSendEnabled "" false, false) else (mkSendEnabled denom sendEnabled, true)).
Definition IsSendEnabledDenom (denom : string) : GoM BankState bool :=
  params ← GetParams; getSendEnabledOrDefault denom (DefaultSendEnabled params).
Definition IsSendEnabledCoin (coin : Coin) : GoM BankState bool := IsSendEnabledDenom (Denom coin).
Definition IsSendEnabledCoins (coins : Coins) : GoM BankState unit :=
  if (length coins =? 0)%nat then mret tt
  else params ← GetParams;
       let defaultVal := DefaultSendEnabled params in
       forM_ (λ coin, ok ← getSendEnabledOrDefault (Denom coin) defaultVal;
                      liftM (guard_err (negb ok) ErrSendDisabled)) coins.

Definition BlockedAddr (addr : string) : outcome bool :=
  addrStr ← must (BytesToString addr); Ok (bool_decide (addrStr ∈ blockedAddrs k)).

Definition setBalance (addr : string) (balance : Coin) : GoM BankState unit :=
  _ ← liftM (guard_err (negb (Coin_IsValid balance)) ErrInvalidCoins);
  if Coin_IsZero balance
  then modifyM (with_Balances (ReversePairMap_Remove (addr, Denom balance)))
  else modifyM (with_Balances (ReversePairMap_Set (addr, Denom balance) (Amount balance))).

(** One turn of the loop of [subUnlockedCoins]. *)
Definition sub_unlocked_coin (addr : string) (lockedCoins : Coins) (coin : Coin) : GoM BankState unit :=
  balance ← GetBalance addr (Denom coin);
  let locked := match Coins_Find lockedCoins (Denom coin) with
                | Some c => c
                | None => mkCoin (Denom coin) ZeroInt
                end in
  '(spendable, hasNeg) ← liftM (Coins_SafeSub [balance] [locked]);
  _ ← liftM (guard_err hasNeg ErrInsufficientFunds);
  '(_, hasNeg) ← liftM (Coins_SafeSub spendable [coin]);
  _ ← liftM (guard_err hasNeg ErrInsufficientFunds);
  newBalance ← liftM (Coin_Sub balance coin);
  setBalance addr newBalance.
Definition subUnlockedCoins (addr : string) (amt : Coins) : GoM BankState unit :=
  lockedCoins ← LockedCoins_of addr;
  _ ← forM_ (sub_unlocked_coin addr lockedCoins) amt;
  addrStr ← liftM (BytesToString addr);
  EmitKV "coin_spent" [("spender", addrStr)] amt.

(** One turn of the loop of [addCoins]. *)
Definition add_coin (addr : string) (coin : Coin) : GoM BankState unit :=
  balance ← GetBalance addr (Denom coin);
  newBalance ← liftM (Coin_Add balance coin);
  setBalance addr newBalance.
Definition addCoins (addr : string) (amt : Coins) : GoM BankState unit :=
  _ ← forM_ (add_coin addr) amt;
  addrStr ← liftM (BytesToString addr);
  EmitKV "coin_received" [("receiver", addrStr)] amt.

Definition SendCoins (fromAddr toAddr : string) (amt : Coins) : GoM BankState unit :=
  _ ← liftM (guard_err (negb (Coins_IsValid amt)) ErrInvalidCoins);
  toAddr ← sendRestriction_apply k fromAddr toAddr amt;
  _ ← subUnlockedCoins fromAddr amt;
  _ ← addCoins toAddr amt;
  fromAddrString ← liftM (BytesToString fromAddr);
  toAddrString ← liftM (BytesToString toAddr);
  EmitKV "transfer" [("recipient", toAddrString); ("sender", fromAddrString)] amt.

(** *** Multi-send: types/inputs_outputs.go and [InputOutputCoins] *)

Record Input := mkInput { in_Address : string; in_Coins : Coins }.
Record Output := mkOutput { out_Address : string; out_Coins : Coins }.

Definition coins_basic (coins : Coins) : outcome unit :=
  _ ← guard_err (negb (Coins_IsValid coins)) ErrInvalidCoins;
  guard_err (negb (Coins_IsAllPositive coins)) ErrInvalidCoins.
Definition Input_ValidateBasic (inp : Input) : outcome unit :=
  _ ← match AccAddressFromBech32 (in_Address inp) with Err _ => Err ErrInvalidAddress | r => r end;
  coins_basic (in_Coins inp).
Definition Output_ValidateBasic (out : Output) : outcome unit :=
  _ ← match AccAddressFromBech32 (out_Address out) with Err _ => Err ErrInvalidAddress | r => r end;
  coins_basic (out_Coins out).
Definition ValidateInputOutputs (input : Input) (outputs : list Output) : outcome unit :=
  _ ← Input_ValidateBasic input;
  totalOut ← foldM (λ totalOut out, _ ← Output_ValidateBasic out; Coins_Add totalOut (out_Coins out)) [] outputs;
  guard_err (negb (Coins_Equal (in_Coins input) totalOut)) ErrInputOutputMismatch.

(** The first loop: the receivers after the restrictions. *)
Definition resolve_output (inAddress : string) (out : Output) : GoM BankState (string * Output) :=
  outAddress ← liftM (StringToBytes (out_Address out));
  outAddress ← sendRestriction_apply k inAddress outAddress (out_Coins out);
  mret (outAddress, out).
Definition InputOutputCoins (input : Input) (outputs : list Output) : GoM BankState unit :=
  _ ← liftM (ValidateInputOutputs input outputs);
  inAddress ← liftM (StringToBytes (in_Address input));
  sending ← traverse (resolve_output inAddress) outputs;
  _ ← subUnlockedCoins inAddress (in_Coins input);
  forM_ (λ '(address, out),
           _ ← addCoins address (out_Coins out);
           EmitKV "transfer" [("recipient", out_Address out); ("sender", in_Address input)] (out_Coins out))
        sending.

(** ** Supply, minting and delegation: keeper/keeper.go *)

Definition GetSupply (denom : string) : GoM BankState Coin :=
  amt ← readM (λ s, Supply s !! denom);
  liftM (match amt with
         | None => NewCoin denom ZeroInt
         | Some a => NewCoin denom a
         end).
Definition HasSupply (denom : string) : GoM BankState bool :=
  readM (λ s, bool_decide (is_Some (Supply s !! denom))).
Definition setSupply (coin : Coin) : GoM BankState unit :=
  if Coin_IsZero coin then modifyM (with_Supply (delete (Denom coin)))
  else modifyM (with_Supply <[Denom coin := Amount coin]>).

Definition SetDenomMetaData (m : Metadata) : GoM BankState unit :=
  modifyM (with_DenomMetadata <[md_Base m := m]>).
Definition GetDenomMetaData (denom : string) : GoM BankState (option Metadata) :=
  readM (λ s, DenomMetadata s !! denom).
Definition HasDenomMetaData (denom : string) : GoM BankState bool :=
  readM (λ s, bool_decide (is_Some (DenomMetadata s !! denom))).

(** The shared part of [trackDelegation] and [trackUndelegation]. *)
Definition track_account (addr : string) (track : VestingAccount → outcome VestingAccount) : GoM BankState unit :=
  acc ← on_auth (GetAccount addr);
  match acc with
  | None =>
      has ← on_auth (HasAccount (k_ak k) addr);
      if has : bool then mret tt else errM ErrUnknownAddress
  | Some (VestingAcc vacc) =>
      vacc ← liftM (track vacc);
      on_auth (SetAccount (VestingAcc vacc))
  | Some _ => mret tt
  end.
Definition trackDelegation (addr : string) (balance amt : Coins) : GoM BankState unit :=
  track_account addr (λ vacc, TrackDelegation vacc blockTime balance amt).
Definition trackUndelegation (addr : string) (amt : Coins) : GoM BankState unit :=
  track_account addr (λ vacc, TrackUndelegation vacc amt).

(** One turn of the loop of [DelegateCoins]. *)
Definition delegate_coin (delegatorAddr : string) (balances : Coins) (coin : Coin) : GoM BankState Coins :=
  balance ← GetBalance delegatorAddr (Denom coin);
  lt ← liftM (Coin_IsLT balance coin);
  _ ← liftM (guard_err lt ErrInsufficientFunds);
  balances ← liftM (Coins_Add balances [balance]);
  newBalance ← liftM (Coin_Sub balance coin);
  _ ← setBalance delegatorAddr newBalance;
  mret balances.
Definition DelegateCoins (delegatorAddr moduleAccAddr : string) (amt : Coins) : GoM BankState unit :=
  moduleAcc ← on_auth (GetAccount moduleAccAddr);
  _ ← liftM (guard_err (negb (bool_decide (is_Some moduleAcc))) ErrUnknownAddress);
  _ ← liftM (guard_err (negb (Coins_IsValid amt)) ErrInvalidCoins);
  balances ← liftM (NewCoins []);
  balances ← foldM (delegate_coin delegatorAddr) balances amt;
  _ ← trackDelegation delegatorAddr balances amt;
  delAddrStr ← liftM (BytesToString delegatorAddr);
  _ ← EmitKV "coin_spent" [("spender", delAddrStr)] amt;
  addCoins moduleAccAddr amt.
Definition UndelegateCoins (moduleAccAddr delegatorAddr : string) (amt : Coins) : GoM BankState unit :=
  moduleAcc ← on_auth (GetAccount moduleAccAddr);
  _ ← liftM (guard_err (negb (bool_decide (is_Some moduleAcc))) ErrUnknownAddress);
  _ ← liftM (guard_err (negb (Coins_IsValid amt)) ErrInvalidCoins);
  _ ← subUnlockedCoins moduleAccAddr amt;
  _ ← trackUndelegation delegatorAddr amt;
  addCoins delegatorAddr amt.

(** A module account, created when missing; an unknown module is an error. *)
Definition module_account (name : string) : GoM BankState ModuleAccount :=
  acc ← on_auth (GetModuleAccount (k_ak k) name);
  match acc with Some m => mret m | None => errM ErrUnknownAddress end.
Definition macc_address (m : ModuleAccount) : string := BaseAccount_GetAddress (ma_BaseAccount m).

Definition SendCoinsFromModuleToAccount (senderModule recipientAddr : string) (amt : Coins) : GoM BankState unit :=
  match GetModuleAddress (k_ak k) senderModule with
  | None => errM ErrUnknownAddress
  | Some senderAddr =>
      blocked ← liftM (BlockedAddr recipientAddr);
      _ ← liftM (guard_err blocked ErrUnauthorized);
      SendCoins senderAddr recipientAddr amt
  end.
Definition SendCoinsFromModuleToModule (senderModule recipientModule : string) (amt : Coins) : GoM BankState unit :=
  match GetModuleAddress (k_ak k) senderModule with
  | None => errM ErrUnknownAddress
  | Some senderAddr =>
      recipientAcc ← module_account recipientModule;
      SendCoins senderAddr (macc_address recipientAcc) amt
  end.
Definition SendCoinsFromAccountToModule (senderAddr recipientModule : string) (amt : Coins) : GoM BankState unit :=
  recipientAcc ← module_account recipientModule;
  SendCoins senderAddr (macc_address recipientAcc) amt.
Definition DelegateCoinsFromAccountToModule (senderAddr recipientModule : string) (amt : Coins)
    : GoM BankState unit :=
  recipientAcc ← module_account recipientModule;
  _ ← liftM (guard_err (negb (ModuleAccount_HasPermission recipientAcc Staking)) ErrUnauthorized);
  DelegateCoins senderAddr (macc_address recipientAcc) amt.
Definition UndelegateCoinsFromModuleToAccount (senderModule recipientAddr : string) (amt : Coins)
    : GoM BankState unit :=
  acc ← module_account senderModule;
  _ ← liftM (guard_err (negb (ModuleAccount_HasPermission acc Staking)) ErrUnauthorized);
  UndelegateCoins (macc_address acc) recipientAddr amt.

Definition mint_supply (amount : Coin) : GoM BankState unit :=
  supply ← GetSupply (Denom amount);
  supply ← liftM (Coin_Add supply amount);
  setSupply supply.
Definition MintCoins (moduleName : string) (amounts : Coins) : GoM BankState unit :=
  _ ← mint_restriction k amounts;
  acc ← module_account moduleName;
  _ ← liftM (guard_err (negb (ModuleAccount_HasPermission acc Minter)) ErrUnauthorized);
  _ ← liftM (guard_err (negb (Coins_IsValid amounts)) ErrInvalidCoins);
  _ ← addCoins (macc_address acc) amounts;
  _ ← forM_ mint_supply amounts;
  addrStr ← liftM (BytesToString (macc_address acc));
  EmitKV "coinbase" [("minter", addrStr)] amounts.

Definition burn_supply (amount : Coin) : GoM BankState unit :=
  supply ← GetSupply (Denom amount);
  supply ← liftM (Coin_Sub supply amount);
  setSupply supply.
Definition BurnCoins (address : string) (amounts : Coins) : GoM BankState unit :=
  acc ← on_auth (GetAccount address);
  match acc with
  | None => errM ErrUnknownAddress
  | Some acc =>
      _ ← liftM (match acc with
                 | ModuleAcc macc => guard_err (negb (ModuleAccount_HasPermission macc Burner)) ErrUnauthorized
                 | _ => Ok tt
                 end);
      _ ← liftM (guard_err (negb (Coins_IsValid amounts)) ErrInvalidCoins);
      let addr := AccountI_GetAddress acc in
      _ ← subUnlockedCoins addr amounts;
      _ ← forM_ burn_supply amounts;
      addrStr ← liftM (BytesToString addr);
      EmitKV "burn" [("burner", addrStr)] amounts
  end.

(** ** The message server: keeper/msg_server.go *)

Definition decode_address (a : string) : outcome string :=
  match StringToBytes a with Err _ => Err ErrInvalidAddress | r => r end.

Definition Msg_Send (fromAddress toAddress : string) (amount : Coins) : GoM BankState unit :=
  from ← liftM (decode_address fromAddress);
  to ← liftM (decode_address toAddress);
  _ ← liftM (coins_basic amount);
  _ ← IsSendEnabledCoins amount;
  blocked ← liftM (BlockedAddr to);
  _ ← liftM (guard_err blocked ErrUnauthorized);
  SendCoins from to amount.

Definition Msg_MultiSend (inputs : list Input) (outputs : list Output) : GoM BankState unit :=
  match inputs with
  | [] => errM ErrNoInputs
  | [input] =>
      _ ← liftM (guard_err (length outputs =? 0)%nat ErrNoOutputs);
      _ ← liftM (ValidateInputOutputs input outputs);
      _ ← forM_ (λ inp, IsSendEnabledCoins (in_Coins inp)) inputs;
      _ ← forM_ (λ out, accAddr ← liftM (StringToBytes (out_Address out));
                        blocked ← liftM (BlockedAddr accAddr);
                        liftM (guard_err blocked ErrUnauthorized)) outputs;
      InputOutputCoins input outputs
  | _ => errM ErrMultipleSenders
  end.

Definition Params_Validate (p : BankParams) : outcome unit :=
  guard_err (0 <? length (p_SendEnabled p))%nat "use of send_enabled in params is no longer supported".
Definition Msg_UpdateParams (msgAuthority : string) (params : BankParams) : GoM BankState unit :=
  _ ← liftM (guard_err (negb (str_eq (authority k) msgAuthority)) ErrInvalidSigner);
  _ ← liftM (Params_Validate params);
  SetParams params.

Definition check_send_enabled (seen : gset string) (se : SendEnabledEntry) : outcome (gset string) :=
  _ ← guard_err (bool_decide (se_Denom se ∈ seen)) ErrInvalidRequest;
  _ ← match ValidateDenom (se_Denom se) with Err _ => Err ErrInvalidRequest | r => r end;
  Ok ({[se_Denom se]} ∪ seen).
Definition Msg_SetSendEnabled (msgAuthority : string) (sendEnabled : list SendEnabledEntry)
    (useDefaultFor : list string) : GoM BankState unit :=
  _ ← liftM (guard_err (negb (str_eq (authority k) msgAuthority)) ErrInvalidSigner);
  _ ← liftM (foldM check_send_enabled ∅ sendEnabled);
  _ ← liftM (forM_ (λ denom, match ValidateDenom denom with Err _ => Err ErrInvalidRequest | r => r end)
                   useDefaultFor);
  _ ← (if (0 <? length sendEnabled)%nat then SetAllSendEnabled sendEnabled else mret tt);
  if (0 <? length useDefaultFor)%nat then DeleteSendEnabled useDefaultFor else mret tt.

Definition Msg_Burn (fromAddress : string) (amount : Coins) : GoM BankState unit :=
  coins ← liftM (foldM (λ coins coin, c ← NewCoin (Denom coin) (Amount coin); Coins_Add coins [c]) [] amount);
  from ← liftM (decode_address fromAddress);
  _ ← liftM (coins_basic coins);
  BurnCoins from coins.
End BankOps.
