(* ===== verification/BankFacts.v ===== *)
(** * Facts on the bank stores

    Balances as a function of account and denomination, the total over all
    accounts, the well-formedness of the store, and how a successful primitive
    of the send keeper shifts them. *)
From S2P Require Import Prelude MathInt Coin CoinFacts Collections Account Vesting AuthKeeper Bank.

(** ** Balances and totals *)

Definition bal (s : BankState) (a d : string) : Z := default 0 (rp_map (Balances s) !! (a, d)).
Definition supply_of (s : BankState) (d : string) : Z := default 0 (Supply s !! d).

(** The sum over all accounts of the balances in one denomination. *)
Definition weight (d : string) (k : string * string) (v : Z) : Z := if decide (k.2 = d) then v else 0.
Definition total_map (m : gmap (string * string) Z) (d : string) : Z :=
  map_fold (λ k v acc, weight d k v + acc) 0 m.
Definition total (s : BankState) (d : string) : Z := total_map (rp_map (Balances s)) d.

Lemma total_map_empty d : total_map ∅ d = 0.
Proof. apply map_fold_empty. Qed.
Lemma total_map_insert m k v d :
  m !! k = None → total_map (<[k := v]> m) d = weight d k v + total_map m d.
Proof. intros Hk. unfold total_map. rewrite map_fold_insert_L; [done| |done]. intros. lia. Qed.
Lemma total_map_delete m k v d :
  m !! k = Some v → total_map m d = weight d k v + total_map (delete k m) d.
Proof.
  intros Hk. rewrite <- (insert_delete_id m k v Hk) at 1. apply total_map_insert, lookup_delete_eq.
Qed.
Lemma weight_default d k (o : option Z) : weight d k (default 0 o) = if decide (k.2 = d) then default 0 o else 0.
Proof. reflexivity. Qed.
Lemma total_map_delete_default m k d :
  total_map (delete k m) d = total_map m d - weight d k (default 0 (m !! k)).
Proof.
  destruct (m !! k) as [v|] eqn:E; cbn.
  - rewrite (total_map_delete m k v d E). lia.
  - rewrite delete_id by done. unfold weight. case_decide; lia.
Qed.
Lemma total_map_update m k v d :
  total_map (<[k := v]> m) d = total_map m d + weight d k (v - default 0 (m !! k)).
Proof.
  rewrite <- (insert_delete_eq m k v), total_map_insert by apply lookup_delete_eq.
  rewrite total_map_delete_default. unfold weight. case_decide; lia.
Qed.

Lemma total_map_nonneg m d : map_Forall (λ _ v, 0 <= v) m → 0 <= total_map m d.
Proof.
  induction m as [|k v m Hk IH] using map_ind; [by rewrite total_map_empty|].
  intros [Hv Hm]%map_Forall_insert; [|done]. rewrite total_map_insert by done.
  specialize (IH Hm). unfold weight. case_decide; lia.
Qed.
(** One balance, and two balances of different accounts, are part of the total. *)
Lemma total_map_lookup_le m a d :
  map_Forall (λ _ v, 0 <= v) m → default 0 (m !! (a, d)) <= total_map m d.
Proof.
  intros Hm. pose proof (total_map_delete_default m (a, d) d) as H. unfold weight in H. cbn in H.
  rewrite decide_True in H by done.
  pose proof (total_map_nonneg (delete (a, d) m) d (map_Forall_delete _ _ _ Hm)). lia.
Qed.
Lemma total_map_two_le m a b d :
  map_Forall (λ _ v, 0 <= v) m → a ≠ b → default 0 (m !! (a, d)) + default 0 (m !! (b, d)) <= total_map m d.
Proof.
  intros Hm Hab. pose proof (total_map_delete_default m (a, d) d) as H. unfold weight in H. cbn in H.
  rewrite decide_True in H by done.
  pose proof (total_map_lookup_le (delete (a, d) m) b d (map_Forall_delete _ _ _ Hm)) as H2.
  rewrite lookup_delete_ne in H2 by congruence. lia.
Qed.

Section BankFacts.
Context {cfg : CoinConfig} {acfg : AddressConfig}.

(** ** Well-formed stores *)

(** Only positive amounts that fit an [Int] are stored, under valid
    denominations, and the index by denomination is exact. *)
Record store_ok (s : BankState) : Prop := {
  ok_entries : map_Forall (λ k v, 0 < v ∧ int_range v ∧ denom_valid k.2 = true) (rp_map (Balances s));
  ok_index : reverse_index_ok (Balances s);
}.

(** The supply invariant: for every denomination the recorded supply is the sum
    of the balances; zero supplies are not stored and supplies fit an [Int]. *)
Record bank_inv (s : BankState) : Prop := {
  inv_store : store_ok s;
  inv_total : ∀ d, total s d = supply_of s d;
  inv_supply : map_Forall (λ d v, 0 < v ∧ int_range v ∧ denom_valid d = true) (Supply s);
}.

Lemma store_ok_nonneg s : store_ok s → map_Forall (λ _ v, 0 <= v) (rp_map (Balances s)).
Proof. intros [H _]. eapply map_Forall_impl; [exact H|]. cbn. intros k v [? _]. lia. Qed.
Lemma bal_nonneg s a d : store_ok s → 0 <= bal s a d.
Proof.
  intros [H _]. unfold bal. destruct (rp_map (Balances s) !! (a, d)) as [v|] eqn:E; cbn; [|done].
  apply H in E as [? _]. lia.
Qed.
Lemma bal_range s a d : store_ok s → int_range (bal s a d).
Proof.
  intros [H _]. unfold bal. destruct (rp_map (Balances s) !! (a, d)) as [v|] eqn:E; cbn.
  - apply H in E as (_ & ? & _). done.
  - unfold int_range. lia.
Qed.
Lemma bal_le_total s a d : store_ok s → bal s a d <= total s d.
Proof. intros H. apply total_map_lookup_le. by apply store_ok_nonneg. Qed.
Lemma bal_two_le_total s a b d : store_ok s → a ≠ b → bal s a d + bal s b d <= total s d.
Proof. intros H Hab. apply total_map_two_le; [by apply store_ok_nonneg|done]. Qed.

(** ** Shifts *)

(** From [s] to [s'] every balance changed by [f], every total by [g], the
    supply records did not change, and the store stayed well formed. *)
Record shift (f : string → string → Z) (g : string → Z) (s s' : BankState) : Prop := {
  sh_bal : ∀ a d, bal s' a d = bal s a d + f a d;
  sh_total : ∀ d, total s' d = total s d + g d;
  sh_supply : Supply s' = Supply s;
  sh_ok : store_ok s → store_ok s';
}.

Lemma shift_ext f1 g1 f2 g2 s s' :
  (∀ a d, f1 a d = f2 a d) → (∀ d, g1 d = g2 d) → shift f1 g1 s s' → shift f2 g2 s s'.
Proof.
  intros Hf Hg [H1 H2 H3 H4]. split; try done.
  - intros a d. by rewrite H1, Hf.
  - intros d. by rewrite H2, Hg.
Qed.
Lemma shift_trans f1 g1 f2 g2 s s1 s2 :
  shift f1 g1 s s1 → shift f2 g2 s1 s2 → shift (λ a d, f1 a d + f2 a d) (λ d, g1 d + g2 d) s s2.
Proof.
  intros [A1 A2 A3 A4] [B1 B2 B3 B4]. split.
  - intros a d. rewrite B1, A1. lia.
  - intros d. rewrite B2, A2. lia.
  - by rewrite B3.
  - auto.
Qed.

(** A change outside the balances and the supply. *)
Definition quiet (s s' : BankState) : Prop := Balances s' = Balances s ∧ Supply s' = Supply s.
#[global] Instance quiet_preorder : PreOrder quiet.
Proof. split; [done|]. intros x y z [? ?] [? ?]. split; congruence. Qed.
Lemma quiet_shift s s' : quiet s s' → shift (λ _ _, 0) (λ _, 0) s s'.
Proof.
  intros [HB HS]. split; unfold bal, total; rewrite ?HB; try done; try (intros; lia).
  intros [H1 H2]. split; by rewrite HB.
Qed.
Lemma shift_quiet_r f g s s1 s2 : shift f g s s1 → quiet s1 s2 → shift f g s s2.
Proof.
  intros H Hq%quiet_shift. eapply shift_ext; [| |exact (shift_trans _ _ _ _ _ _ _ H Hq)]; intros; cbn; lia.
Qed.
Lemma shift_quiet_l f g s s1 s2 : quiet s s1 → shift f g s1 s2 → shift f g s s2.
Proof.
  intros Hq%quiet_shift H. eapply shift_ext; [| |exact (shift_trans _ _ _ _ _ _ _ Hq H)]; intros; cbn; lia.
Qed.

Lemma on_auth_quiet {A} (m : GoM AuthState A) s r s' : on_auth m s = (r, s') → quiet s s'.
Proof. unfold on_auth. destruct (m (auth s)). intros [= <- <-]. done. Qed.
Lemma EmitKV_quiet ty attrs amt s r s' : EmitKV ty attrs amt s = (r, s') → quiet s s'.
Proof. intros [= <- <-]. done. Qed.

(** ** setBalance *)

(** The store after [setBalance]. *)
Definition put_bal (a d : string) (v : Z) (s : BankState) : BankState :=
  if v =? 0 then with_Balances (ReversePairMap_Remove (a, d)) s
  else with_Balances (ReversePairMap_Set (a, d) v) s.
(** [x] at one account and denomination, zero elsewhere. *)
Definition at_key (a d : string) (x : Z) (a' d' : string) : Z := if decide ((a, d) = (a', d')) then x else 0.
Definition at_denom (d : string) (x : Z) (d' : string) : Z := if decide (d = d') then x else 0.

Lemma put_bal_shift a d v s :
  0 <= v → int_range v → denom_valid d = true →
  shift (at_key a d (v - bal s a d)) (at_denom d (v - bal s a d)) s (put_bal a d v s).
Proof.
  intros Hv Hr Hd. unfold put_bal, at_key, at_denom. destruct (Z.eqb_spec v 0) as [->|Hne].
  - split; cbn; try done.
    + intros a' d'. unfold bal. cbn. case_decide as E; [injection E as <- <-|].
      * rewrite lookup_delete_eq. cbn. lia.
      * rewrite lookup_delete_ne by done. lia.
    + intros d'. unfold total. cbn. rewrite total_map_delete_default. unfold weight, bal. cbn. repeat case_decide; (congruence || lia).
    + intros [H1 H2]. split; cbn; [by apply map_Forall_delete|]. by apply ReversePairMap_Remove_ok.
  - split; cbn; try done.
    + intros a' d'. unfold bal. cbn. case_decide as E; [injection E as <- <-|].
      * rewrite lookup_insert_eq. cbn. lia.
      * rewrite lookup_insert_ne by done. lia.
    + intros d'. unfold total. cbn. rewrite total_map_update. unfold weight, bal. cbn. repeat case_decide; (congruence || lia).
    + intros [H1 H2]. split; cbn; [|by apply ReversePairMap_Set_ok].
      apply map_Forall_insert_2; [|done]. cbn. split; [lia|done].
Qed.

Lemma Coin_IsValid_true c : Coin_IsValid c = true ↔ denom_valid (Denom c) = true ∧ 0 <= Amount c.
Proof.
  unfold Coin_IsValid, Coin_Validate, ValidateDenom. destruct (denom_valid (Denom c)); cbn; [|naive_solver].
  rewrite Int_IsNegative_ltb. destruct (Z.ltb_spec (Amount c) 0); cbn; naive_solver lia.
Qed.
Lemma setBalance_eq a c s :
  setBalance a c s = if Coin_IsValid c then (Ok tt, put_bal a (Denom c) (Amount c) s) else (Err ErrInvalidCoins, s).
Proof.
  unfold setBalance, put_bal, liftM, modifyM. unfold mbind, GoM_bind.
  rewrite Coin_IsZero_eqb. destruct (Coin_IsValid c); cbn; [|done]. by destruct (Amount c =? 0).
Qed.

Lemma GetBalance_eq a d s :
  store_ok s → denom_valid d = true → GetBalance a d s = (Ok (mkCoin d (bal s a d)), s).
Proof.
  intros Hok Hd. pose proof (bal_nonneg s a d Hok) as Hb. unfold GetBalance, readM, liftM, mbind, GoM_bind, bal in *. cbn.
  destruct (rp_map (Balances s) !! (a, d)); cbn in *; unfold NewCoin, Coin_Validate, ValidateDenom; cbn;
    rewrite Hd; cbn; [|done]. rewrite Int_IsNegative_ltb. by rewrite (proj2 (Z.ltb_ge _ _)) by lia.
Qed.
Lemma NewCoin_inv d a c : NewCoin d a = Ok c → c = mkCoin d a ∧ denom_valid d = true ∧ 0 <= a.
Proof.
  unfold NewCoin, Coin_Validate, ValidateDenom. cbn. destruct (denom_valid d); cbn; [|done].
  rewrite Int_IsNegative_ltb. destruct (Z.ltb_spec a 0); cbn; [done|]. intros [= <-]. done.
Qed.
Lemma GetBalance_inv a d s c s' :
  GetBalance a d s = (Ok c, s') → s' = s ∧ c = mkCoin d (bal s a d) ∧ denom_valid d = true ∧ 0 <= bal s a d.
Proof.
  unfold GetBalance, readM, liftM, mbind, GoM_bind, bal. cbn.
  destruct (rp_map (Balances s) !! (a, d)) as [v|]; intros [= H <-]; apply NewCoin_inv in H as (-> & ? & ?); done.
Qed.

(** ** Crediting and debiting one account *)

Definition on_addr (a : string) (f : string → Z) (a' d : string) : Z := if decide (a = a') then f d else 0.

Lemma add_coin_inv a c s r s' :
  add_coin a c s = (Ok r, s') →
  shift (at_key a (Denom c) (Amount c)) (at_denom (Denom c) (Amount c)) s s'.
Proof.
  intros H. unfold add_coin in H. go_inv.
  match goal with H : GetBalance _ _ _ = _ |- _ => apply GetBalance_inv in H as (-> & -> & Hd & Hb) end.
  match goal with H : Coin_Add _ _ = _ |- _ => apply Coin_Add_Ok in H as (_ & Hr & ->) end.
  rewrite setBalance_eq in H. destruct (Coin_IsValid _) eqn:Ev in H; [|done]. injection H as <- <-.
  apply Coin_IsValid_true in Ev as [_ Hn]. cbn in *.
  pose proof (put_bal_shift a (Denom c) _ s Hn Hr Hd) as Hsh.
  by rewrite Z.add_simpl_l in Hsh.
Qed.

Lemma Coin_Sub_Ok b c r :
  Coin_Sub b c = Ok r ↔
  Denom b = Denom c ∧ 0 <= Amount b - Amount c ∧ int_range (Amount b - Amount c) ∧
  r = mkCoin (Denom b) (Amount b - Amount c).
Proof.
  unfold Coin_Sub, Coin_SafeSub. rewrite must_Ok, str_eq_spec.
  destruct (decide (Denom b = Denom c)) as [Hd|Hd]; [|rewrite bool_decide_false by done; cbn; naive_solver].
  rewrite bool_decide_true by done. cbn. rewrite outcome_bind_Ok. split.
  - intros (x & [-> Hr]%Int_Sub_Ok & H). rewrite Coin_IsNegative_ltb in H. cbn in H.
    destruct (Z.ltb_spec (Amount b - Amount c) 0); cbn in H; [done|]. injection H as <-. done.
  - intros (_ & Hn & Hr & ->). exists (Amount b - Amount c). split; [by apply Int_Sub_Ok|].
    rewrite Coin_IsNegative_ltb. cbn. by rewrite (proj2 (Z.ltb_ge _ _)) by lia.
Qed.

(** The bind of a function on pairs. *)
Lemma GoM_bind_pair {S A B C} (f : A → B → GoM S C) (m : GoM S (A * B)) c s s' :
  (m ≫= (λ '(a, b), f a b)) s = (Ok c, s') → ∃ a b s1, m s = (Ok (a, b), s1) ∧ f a b s1 = (Ok c, s').
Proof. intros ([a b] & s1 & H1 & H2)%GoM_bind_Ok. by exists a, b, s1. Qed.

(** What remains after the checks on the spendable balance. *)
Lemma debit_inv a c s r s' :
  (newBalance ← liftM (Coin_Sub (mkCoin (Denom c) (bal s a (Denom c))) c); setBalance a newBalance) s = (Ok r, s') →
  denom_valid (Denom c) = true →
  shift (at_key a (Denom c) (- Amount c)) (at_denom (Denom c) (- Amount c)) s s' ∧
  Amount c <= bal s a (Denom c).
Proof.
  intros H Hd. go_inv.
  match goal with H : Coin_Sub _ _ = _ |- _ => apply Coin_Sub_Ok in H as (_ & Hn & Hr & ->) end. cbn in *.
  rewrite setBalance_eq in H. destruct (Coin_IsValid _); [|done]. injection H as <- <-. cbn. split; [|lia].
  pose proof (put_bal_shift a (Denom c) _ s Hn Hr Hd) as Hsh.
  by replace (bal s a (Denom c) - Amount c - bal s a (Denom c)) with (- Amount c) in Hsh by lia.
Qed.

Lemma sub_unlocked_coin_inv a locked c s r s' :
  sub_unlocked_coin a locked c s = (Ok r, s') →
  shift (at_key a (Denom c) (- Amount c)) (at_denom (Denom c) (- Amount c)) s s' ∧
  Amount c <= bal s a (Denom c).
Proof.
  intros H. unfold sub_unlocked_coin in H.
  apply GoM_bind_Ok in H as (b & s1 & (-> & -> & Hd & Hb)%GetBalance_inv & H). cbn zeta in H.
  apply GoM_bind_pair in H as (sp & n1 & s1 & [_ ->]%liftM_Ok & H).
  apply GoM_bind_Ok in H as (? & s1 & [_ ->]%liftM_Ok & H).
  apply GoM_bind_pair in H as (sp2 & n2 & s1 & [_ ->]%liftM_Ok & H).
  apply GoM_bind_Ok in H as (? & s1 & [_ ->]%liftM_Ok & H).
  by apply debit_inv in H.
Qed.

Lemma shift_coin_cons a sgn c amt s s1 s2 :
  shift (at_key a (Denom c) (sgn * Amount c)) (at_denom (Denom c) (sgn * Amount c)) s s1 →
  shift (on_addr a (λ d, sgn * amount amt d)) (λ d, sgn * amount amt d) s1 s2 →
  shift (on_addr a (λ d, sgn * amount (c :: amt) d)) (λ d, sgn * amount (c :: amt) d) s s2.
Proof.
  intros H1 H2. eapply shift_ext; [| |exact (shift_trans _ _ _ _ _ _ _ H1 H2)].
  - intros a' d. unfold at_key, on_addr. cbn. repeat case_decide; simplify_eq; lia.
  - intros d. unfold at_denom. cbn. case_decide; lia.
Qed.

Lemma forM_shift a sgn (body : Coin → GoM BankState unit) :
  (∀ c s r s', body c s = (Ok r, s') →
     shift (at_key a (Denom c) (sgn * Amount c)) (at_denom (Denom c) (sgn * Amount c)) s s') →
  ∀ amt s r s', forM_ body amt s = (Ok r, s') →
    shift (on_addr a (λ d, sgn * amount amt d)) (λ d, sgn * amount amt d) s s'.
Proof.
  intros Hbody. induction amt as [|c amt IH]; intros s r s' H; cbn [forM_] in H.
  - injection H as <- <-. eapply shift_ext; [| |apply quiet_shift; reflexivity]; intros; cbn; unfold on_addr;
      try case_decide; cbn; lia.
  - apply GoM_bind_Ok in H as (u & s1 & H1 & H2). eapply shift_coin_cons; [by eapply Hbody|by eapply IH].
Qed.

Lemma addCoins_inv a amt s r s' :
  addCoins a amt s = (Ok r, s') → shift (on_addr a (amount amt)) (amount amt) s s'.
Proof.
  intros H. unfold addCoins in H. apply GoM_bind_Ok in H as (u & s1 & H1 & H).
  apply GoM_bind_Ok in H as (str & s2 & [_ ->]%liftM_Ok & H). apply EmitKV_quiet in H.
  eapply shift_quiet_r; [|exact H]. eapply shift_ext; [| |eapply (forM_shift a 1); [|exact H1]].
  - intros a' d. unfold on_addr. case_decide; lia.
  - intros d. cbn. lia.
  - intros c s0 r0 s0' Hc%add_coin_inv. by rewrite Z.mul_1_l.
Qed.

Lemma LockedCoins_of_quiet t a s r s' : LockedCoins_of t a s = (r, s') → quiet s s'.
Proof.
  unfold LockedCoins_of, mbind, GoM_bind. destruct (on_auth (GetAccount a) s) as [o s1] eqn:E.
  pose proof (on_auth_quiet _ _ _ _ E) as Hq. destruct o as [acc|e|p]; [|by intros [= <- <-]|by intros [= <- <-]].
  destruct acc as [[| |]|]; by intros [= <- <-].
Qed.

Lemma subUnlockedCoins_inv t a amt s r s' :
  subUnlockedCoins t a amt s = (Ok r, s') →
  shift (on_addr a (λ d, - amount amt d)) (λ d, - amount amt d) s s'.
Proof.
  intros H. unfold subUnlockedCoins in H. apply GoM_bind_Ok in H as (locked & s0 & H0%LockedCoins_of_quiet & H).
  apply GoM_bind_Ok in H as (u & s1 & H1 & H).
  apply GoM_bind_Ok in H as (str & s2 & [_ ->]%liftM_Ok & H). apply EmitKV_quiet in H.
  eapply shift_quiet_l; [exact H0|]. eapply shift_quiet_r; [|exact H].
  eapply shift_ext; [| |eapply (forM_shift a (-1)); [|exact H1]].
  - intros a' d. unfold on_addr. case_decide; lia.
  - intros d. cbn. lia.
  - intros c s3 r3 s3' [Hc _]%sub_unlocked_coin_inv. by replace (-1 * Amount c) with (- Amount c) by lia.
Qed.

(** ** Totality of a debit and a credit *)

Lemma singleton_sorted c : denoms_sorted [c].
Proof. repeat constructor. Qed.
Lemma NewCoins_singleton d x :
  denom_valid d = true → 0 <= x → int_range x →
  ∃ cs, NewCoins [mkCoin d x] = Ok cs ∧ in_int_range cs.
Proof.
  intros Hd Hx Hr. destruct (decide (x = 0)) as [->|Hne].
  - exists []. split; [reflexivity|constructor].
  - exists [mkCoin d x]. split; [apply NewCoins_valid|by constructor].
    apply valid_coins_cons. split; [split; [done|cbn; lia]|]. split; [constructor|apply valid_coins_nil].
Qed.

(** Subtracting one coin from a set with at most that denomination. *)
Lemma SafeSub_singleton cs d x :
  denoms_sorted cs → Forall (λ c, 0 <= Amount c) cs → in_int_range cs → denom_valid d = true →
  0 <= x → int_range x →
  ∃ diff neg, Coins_SafeSub cs [mkCoin d x] = Ok (diff, neg) ∧ canonical diff ∧
    (∀ d', amount diff d' = amount cs d' - at_denom d x d') ∧ (neg = false ↔ x <= amount cs d).
Proof.
  intros Hs Hp Hr Hd Hx Hxr. destruct (NewCoins_singleton d x Hd Hx Hxr) as (b & Hb & Hbr).
  destruct (Coins_SafeSub_total cs [mkCoin d x] b Hs Hb Hp Hr Hbr) as (diff & neg & H).
  pose proof (Coins_SafeSub_Ok _ _ _ _ H) as (Hc & Hm & Hn). exists diff, neg.
  split; [done|]. split; [done|]. split.
  - intros d'. rewrite Hm. unfold at_denom. cbn. case_decide; lia.
  - rewrite Hn. cbn. split; [intros Hle; specialize (Hle d); rewrite decide_True in Hle by done; lia|].
    intros Hle d'. case_decide; [subst; lia|]. by apply amount_nonneg.
Qed.

Lemma locked_coin_spec locked d :
  good_coins locked →
  let c := match Coins_Find locked d with Some c => c | None => mkCoin d ZeroInt end in
  c = mkCoin d (amount locked d).
Proof.
  intros [[_ Hs] _]. cbn. pose proof (AmountOfNoDenomValidation_amount locked d Hs) as Ha.
  unfold Coins_AmountOfNoDenomValidation in Ha. destruct (Coins_Find locked d) as [c|] eqn:E.
  - apply Coins_Find_spec in E as [_ <-]; [|done]. rewrite <- Ha. by destruct c.
  - by rewrite <- Ha.
Qed.

Lemma sub_unlocked_coin_eq a locked c s :
  store_ok s → good_coins locked → valid_coin c → int_range (Amount c) →
  let b := bal s a (Denom c) in
  sub_unlocked_coin a locked c s =
  if decide (Amount c + amount locked (Denom c) <= b) then (Ok tt, put_bal a (Denom c) (b - Amount c) s)
  else (Err ErrInsufficientFunds, s).
Proof.
  intros Hok Hl [Hd Hp] Hr b. pose proof (bal_nonneg s a (Denom c) Hok) as Hb. fold b in Hb.
  pose proof (bal_range s a (Denom c) Hok) as Hbr. fold b in Hbr.
  pose proof (valid_coins_amount_nonneg locked (Denom c) (proj1 Hl)) as Hln.
  pose proof (amount_in_range locked (Denom c) (proj2 (proj1 Hl)) (proj2 Hl)) as Hlr.
  unfold sub_unlocked_coin. unfold mbind at 1, GoM_bind at 1. rewrite GetBalance_eq by done. fold b. cbn zeta.
  rewrite (locked_coin_spec locked (Denom c) Hl).
  destruct (SafeSub_singleton [mkCoin (Denom c) b] (Denom c) (amount locked (Denom c)))
    as (sp & n1 & E1 & Hc1 & M1 & N1); [apply singleton_sorted|by apply Forall_singleton|by apply Forall_singleton|done..|].
  unfold mbind, GoM_bind, liftM. rewrite E1. cbn [amount Denom Amount] in M1, N1. rewrite decide_True in N1 by done.
  destruct n1; cbn [guard_err]; [rewrite decide_False; [done|]|].
  { intros Hle. assert (true = false); [apply N1; lia|done]. }
  assert (amount locked (Denom c) <= b) as Hlb by (pose proof (proj1 N1 eq_refl); lia). clear N1.
  assert (∀ d, 0 <= amount sp d <= b) as Hsp.
  { intros d. rewrite M1. unfold at_denom. case_decide; lia. }
  assert (amount sp (Denom c) = b - amount locked (Denom c)) as Msp.
  { rewrite M1. unfold at_denom. rewrite !decide_True by done. lia. }
  destruct c as [dc xc]. cbn [Denom Amount] in *.
  destruct (SafeSub_singleton sp dc xc) as (df & n2 & E2 & _ & _ & N2); [apply Hc1| | |done|lia|done|].
  { apply Forall_forall. intros x Hx. rewrite <- (amount_elem sp x) by
      (done || apply denoms_sorted_nodup, Hc1). apply Hsp. }
  { apply canonical_range; [done|]. intros d. specialize (Hsp d). unfold int_range in *. lia. }
  rewrite E2. rewrite Msp in N2. destruct n2; cbn [guard_err].
  { rewrite decide_False; [done|]. intros Hle. assert (true = false); [apply N2; lia|done]. }
  pose proof (proj1 N2 eq_refl) as Hle. rewrite decide_True by lia.
  assert (Coin_Sub (mkCoin dc b) (mkCoin dc xc) = Ok (mkCoin dc (b - xc))) as ->.
  { apply Coin_Sub_Ok. cbn. split; [done|]. split; [lia|]. split; [unfold int_range in *; lia|done]. }
  rewrite setBalance_eq, (proj2 (Coin_IsValid_true _)); [done|]. cbn. split; [done|lia].
Qed.

Lemma add_coin_eq a c s :
  store_ok s → valid_coin c → int_range (bal s a (Denom c) + Amount c) →
  add_coin a c s = (Ok tt, put_bal a (Denom c) (bal s a (Denom c) + Amount c) s).
Proof.
  intros Hok [Hd Hp] Hr. pose proof (bal_nonneg s a (Denom c) Hok) as Hb.
  unfold add_coin. unfold mbind, GoM_bind, liftM. rewrite GetBalance_eq by done.
  assert (Coin_Add (mkCoin (Denom c) (bal s a (Denom c))) c = Ok (mkCoin (Denom c) (bal s a (Denom c) + Amount c))) as ->.
  { apply Coin_Add_Ok. done. }
  rewrite setBalance_eq, (proj2 (Coin_IsValid_true _)); [done|]. cbn. split; [done|lia].
Qed.

(** The loops succeed when every coin is covered, respectively fits. *)
Lemma sub_unlocked_loop_total a locked amt : ∀ s,
  store_ok s → good_coins locked → good_coins amt →
  (∀ c, c ∈ amt → Amount c + amount locked (Denom c) <= bal s a (Denom c)) →
  ∃ s', forM_ (sub_unlocked_coin a locked) amt s = (Ok tt, s').
Proof.
  induction amt as [|c amt IH]; intros s Hok Hl Hg Hc; [by exists s|].
  destruct Hg as [(Hvc & Hlt & Hv)%valid_coins_cons [Hrc Hr]%Forall_cons].
  pose proof (sub_unlocked_coin_eq a locked c s Hok Hl Hvc Hrc) as Heq. cbn zeta in Heq.
  rewrite decide_True in Heq by (apply Hc; by left).
  pose proof (sub_unlocked_coin_inv _ _ _ _ _ _ Heq) as [Hsh _].
  destruct (IH _ (sh_ok _ _ _ _ Hsh Hok) Hl (conj Hv Hr)) as [s' Hs'].
  { intros c' Hc'. rewrite (sh_bal _ _ _ _ Hsh). unfold at_key.
    assert (Denom c ≠ Denom c').
    { rewrite Forall_map, Forall_forall in Hlt. by apply slt_ne, Hlt. }
    rewrite decide_False by congruence. rewrite Z.add_0_r. apply Hc. by right. }
  exists s'. cbn [forM_]. unfold mbind, GoM_bind. rewrite Heq. exact Hs'.
Qed.
Lemma sub_unlocked_loop_fail a locked amt : ∀ s,
  store_ok s → good_coins locked → good_coins amt →
  (∃ c, c ∈ amt ∧ bal s a (Denom c) < Amount c + amount locked (Denom c)) →
  ∃ s', forM_ (sub_unlocked_coin a locked) amt s = (Err ErrInsufficientFunds, s').
Proof.
  induction amt as [|c amt IH]; intros s Hok Hl Hg (c0 & Hc0 & Hlt0); [by apply not_elem_of_nil in Hc0|].
  destruct Hg as [(Hvc & Hlt & Hv)%valid_coins_cons [Hrc Hr]%Forall_cons].
  pose proof (sub_unlocked_coin_eq a locked c s Hok Hl Hvc Hrc) as Heq. cbn zeta in Heq.
  cbn [forM_]. unfold mbind, GoM_bind. case_decide as Hd; rewrite Heq; [|eauto].
  pose proof (sub_unlocked_coin_inv _ _ _ _ _ _ Heq) as [Hsh _].
  apply IH; [by apply (sh_ok _ _ _ _ Hsh)|done|done|].
  apply elem_of_cons in Hc0 as [->|Hc0]; [lia|]. exists c0. split; [done|].
  rewrite (sh_bal _ _ _ _ Hsh). unfold at_key.
  assert (Denom c ≠ Denom c0).
  { rewrite Forall_map, Forall_forall in Hlt. by apply slt_ne, Hlt. }
  rewrite decide_False by congruence. by rewrite Z.add_0_r.
Qed.
Lemma add_loop_total a amt : ∀ s,
  store_ok s → good_coins amt → (∀ d, int_range (bal s a d + amount amt d)) →
  ∃ s', forM_ (add_coin a) amt s = (Ok tt, s').
Proof.
  induction amt as [|c amt IH]; intros s Hok Hg Hr; [by exists s|].
  destruct Hg as [(Hvc & Hlt & Hv)%valid_coins_cons [Hrc Hrr]%Forall_cons].
  pose proof (amount_below _ _ Hlt) as Hz.
  assert (add_coin a c s = (Ok tt, put_bal a (Denom c) (bal s a (Denom c) + Amount c) s)) as Heq.
  { apply add_coin_eq; [done..|]. specialize (Hr (Denom c)). cbn in Hr. rewrite decide_True, Hz in Hr by done.
    by rewrite Z.add_0_r in Hr. }
  pose proof (add_coin_inv _ _ _ _ _ Heq) as Hsh.
  destruct (IH _ (sh_ok _ _ _ _ Hsh Hok) (conj Hv Hrr)) as [s' Hs'].
  { intros d. rewrite (sh_bal _ _ _ _ Hsh). unfold at_key. specialize (Hr d). cbn in Hr.
    destruct (decide (Denom c = d)) as [<-|Hne].
    - rewrite decide_True by done. by rewrite <- Z.add_assoc.
    - rewrite decide_False by congruence. by rewrite Z.add_0_r. }
  exists s'. cbn [forM_]. unfold mbind, GoM_bind. rewrite Heq. exact Hs'.
Qed.

(** ** Supply records *)

Definition supply_ok (s : BankState) : Prop :=
  map_Forall (λ d v, 0 < v ∧ int_range v ∧ denom_valid d = true) (Supply s).

Record supply_shift (g : string → Z) (s s' : BankState) : Prop := {
  ss_bal : Balances s' = Balances s;
  ss_supply : ∀ d, supply_of s' d = supply_of s d + g d;
  ss_ok : supply_ok s → supply_ok s';
}.

Lemma GetSupply_inv d s c s' :
  GetSupply d s = (Ok c, s') → s' = s ∧ c = mkCoin d (supply_of s d) ∧ denom_valid d = true.
Proof.
  unfold GetSupply, readM, liftM, mbind, GoM_bind, supply_of. cbn.
  destruct (Supply s !! d) as [v|]; intros [= H <-]; apply NewCoin_inv in H as (-> & ? & ?); done.
Qed.

Lemma setSupply_shift d v s r s' :
  setSupply (mkCoin d v) s = (Ok r, s') → 0 <= v → int_range v → denom_valid d = true →
  supply_shift (at_denom d (v - supply_of s d)) s s'.
Proof.
  intros H Hv Hr Hd. unfold setSupply in H. rewrite Coin_IsZero_eqb in H. cbn in H. unfold at_denom.
  destruct (Z.eqb_spec v 0) as [->|Hne]; injection H as <- <-; split; cbn; try done.
  - intros d'. unfold supply_of. cbn. case_decide as E; [subst d'; rewrite lookup_delete_eq; cbn; lia|].
    rewrite lookup_delete_ne by done. lia.
  - intros Hok. by apply map_Forall_delete.
  - intros d'. unfold supply_of. cbn. case_decide as E; [subst d'; rewrite lookup_insert_eq; cbn; lia|].
    rewrite lookup_insert_ne by done. lia.
  - intros Hok. apply map_Forall_insert_2; [|done]. split; [lia|done].
Qed.

Lemma mint_supply_inv c s r s' :
  valid_coin c → supply_ok s →
  mint_supply c s = (Ok r, s') → supply_shift (at_denom (Denom c) (Amount c)) s s'.
Proof.
  intros [_ Hp] Hok H. unfold mint_supply in H.
  apply GoM_bind_Ok in H as (b & s1 & (-> & -> & Hd)%GetSupply_inv & H).
  apply GoM_bind_Ok in H as (b & s1 & [(_ & Hr & ->)%Coin_Add_Ok ->]%liftM_Ok & H). cbn in *.
  assert (0 <= supply_of s (Denom c)) as Hn.
  { unfold supply_of. destruct (Supply s !! Denom c) eqn:E; cbn; [|done]. apply Hok in E as [? _]. lia. }
  apply setSupply_shift in H; [|lia|done|done]. by rewrite Z.add_simpl_l in H.
Qed.
Lemma burn_supply_inv c s r s' :
  burn_supply c s = (Ok r, s') → supply_shift (at_denom (Denom c) (- Amount c)) s s'.
Proof.
  intros H. unfold burn_supply in H.
  apply GoM_bind_Ok in H as (b & s1 & (-> & -> & Hd)%GetSupply_inv & H).
  apply GoM_bind_Ok in H as (b & s1 & [(_ & Hn & Hr & ->)%Coin_Sub_Ok ->]%liftM_Ok & H). cbn in *.
  apply setSupply_shift in H; [|lia|done|done].
  by replace (supply_of s (Denom c) - Amount c - supply_of s (Denom c)) with (- Amount c) in H by lia.
Qed.

Lemma forM_supply sgn (body : Coin → GoM BankState unit) amt :
  (∀ c s r s', c ∈ amt → supply_ok s → body c s = (Ok r, s') →
     supply_shift (at_denom (Denom c) (sgn * Amount c)) s s') →
  ∀ s r s', supply_ok s → forM_ body amt s = (Ok r, s') → supply_shift (λ d, sgn * amount amt d) s s'.
Proof.
  induction amt as [|c amt IH]; intros Hbody s r s' Hok H; cbn [forM_] in H.
  - injection H as <- <-. split; try done. intros d. cbn. lia.
  - apply GoM_bind_Ok in H as (u & s1 & H1 & H2).
    apply Hbody in H1 as [A1 A2 A3]; [|by left|done].
    apply IH in H2 as [B1 B2 B3]; [|intros; eapply Hbody; [by right|done|done]|by apply A3].
    split; [congruence| |auto]. intros d. rewrite B2, A2. unfold at_denom. cbn. case_decide; lia.
Qed.

Lemma supply_shift_quiet_r g g' s s1 s2 :
  (∀ d, g d = g' d) → supply_shift g s s1 → quiet s1 s2 → supply_shift g' s s2.
Proof.
  intros Hg [A1 A2 A3] [HB HS]. split; [congruence| |unfold supply_ok; by rewrite HS].
  intros d. rewrite <- Hg, <- A2. unfold supply_of. by rewrite HS.
Qed.

(** ** Keeping the supply invariant *)

Lemma bank_inv_shift f s s' : shift f (λ _, 0) s s' → bank_inv s → bank_inv s'.
Proof.
  intros [H1 H2 H3 H4] [I1 I2 I3]. split; [by apply H4| |by rewrite H3].
  intros d. rewrite H2, I2. unfold supply_of. rewrite H3. lia.
Qed.
Lemma bank_inv_quiet s s' : quiet s s' → bank_inv s → bank_inv s'.
Proof. intros H. eapply bank_inv_shift. by apply quiet_shift. Qed.
Lemma bank_inv_issue f g s s1 s2 : shift f g s s1 → supply_shift g s1 s2 → bank_inv s → bank_inv s2.
Proof.
  intros [H1 H2 H3 H4] [S1 S2 S3] [[I1a I1b] I2 I3].
  destruct (H4 (Build_store_ok _ I1a I1b)) as [K1 K2]. split.
  - split; by rewrite S1.
  - intros d. rewrite S2. unfold total, supply_of. rewrite S1, H3. fold (total s1 d). rewrite H2.
    rewrite I2. done.
  - apply S3. unfold supply_ok. by rewrite H3.
Qed.
Lemma shift_zero_sum f g s s' : (∀ d, g d = 0) → shift f g s s' → shift f (λ _, 0) s s'.
Proof. intros Hg H. by eapply shift_ext; [| |exact H]. Qed.

(** Restrictions supplied by the application leave balances and supply alone. *)
Class QuietRestrictions (k : BaseKeeper) : Prop := {
  quiet_send : ∀ from to amt s r s', sendRestriction_apply k from to amt s = (r, s') → quiet s s';
  quiet_mint : ∀ amt s r s', mint_restriction k amt s = (r, s') → quiet s s';
}.
End BankFacts.
