(* ===== verification/BankProps.v ===== *)
(** * Correctness of the bank module

    Conservation (the supply invariant over every sequence of operations), the
    exact behaviour of transfers including the insufficient-funds branch,
    locked coins, restrictions, and the send-enabled switch. *)
From S2P Require Import Prelude MathInt Coin CoinFacts Collections Account Vesting AuthKeeper Bank BankFacts.

Section Conservation.
Context {cfg : CoinConfig} {acfg : AddressConfig}.
Variable k : BaseKeeper.
Variable t : Z.
Context {HQ : QuietRestrictions k}.

(** ** The effect of each operation *)

(** The shift of a transfer. *)
Definition transfer_shift (from to : string) (amt : Coins) (a d : string) : Z :=
  on_addr from (λ d, - amount amt d) a d + on_addr to (amount amt) a d.

Lemma shift_transfer from to amt s s1 s2 :
  shift (on_addr from (λ d, - amount amt d)) (λ d, - amount amt d) s s1 →
  shift (on_addr to (amount amt)) (amount amt) s1 s2 →
  shift (transfer_shift from to amt) (λ _, 0) s s2.
Proof.
  intros H1 H2. eapply shift_ext; [| |exact (shift_trans _ _ _ _ _ _ _ H1 H2)]; intros; cbn; [done|lia].
Qed.

Lemma SendCoins_inv from to amt s r s' :
  SendCoins k t from to amt s = (Ok r, s') → ∃ to', shift (transfer_shift from to' amt) (λ _, 0) s s'.
Proof.
  intros H. unfold SendCoins in H.
  apply GoM_bind_Ok in H as (? & s0 & [_ ->]%liftM_Ok & H).
  apply GoM_bind_Ok in H as (to' & s1 & H1%quiet_send & H).
  apply GoM_bind_Ok in H as (? & s2 & H2%subUnlockedCoins_inv & H).
  apply GoM_bind_Ok in H as (? & s3 & H3%addCoins_inv & H).
  apply GoM_bind_Ok in H as (? & s4 & [_ ->]%liftM_Ok & H).
  apply GoM_bind_Ok in H as (? & s4 & [_ ->]%liftM_Ok & H%EmitKV_quiet).
  exists to'. eapply shift_quiet_l; [exact H1|]. eapply shift_quiet_r; [|exact H].
  by eapply shift_transfer.
Qed.

Lemma track_account_quiet a f s r s' : track_account k a f s = (r, s') → quiet s s'.
Proof.
  unfold track_account, mbind, GoM_bind. destruct (on_auth (GetAccount a) s) as [o s1] eqn:E.
  apply on_auth_quiet in E. destruct o as [acc|e|p]; [|by intros [= <- <-]..].
  destruct acc as [[b|m|v]|].
  - by intros [= <- <-].
  - by intros [= <- <-].
  - unfold liftM. destruct (f v); [|by intros [= <- <-]..]. intros H%on_auth_quiet. by etransitivity.
  - destruct (on_auth (HasAccount (k_ak k) a) s1) as [o s2] eqn:E2. apply on_auth_quiet in E2.
    destruct o as [[]|e|p]; intros [= <- <-]; by etransitivity.
Qed.

Lemma delegate_coin_inv a bals c s r s' :
  delegate_coin a bals c s = (Ok r, s') →
  shift (at_key a (Denom c) (- Amount c)) (at_denom (Denom c) (- Amount c)) s s'.
Proof.
  intros H. unfold delegate_coin in H.
  apply GoM_bind_Ok in H as (b & s1 & (-> & -> & Hd & Hb)%GetBalance_inv & H).
  apply GoM_bind_Ok in H as (lt & s1 & [_ ->]%liftM_Ok & H).
  apply GoM_bind_Ok in H as (? & s1 & [_ ->]%liftM_Ok & H).
  apply GoM_bind_Ok in H as (bs & s1 & [_ ->]%liftM_Ok & H).
  apply GoM_bind_Ok in H as (nb & s1 & Hnb & H). apply GoM_bind_Ok in H as (u & s2 & Hset & H).
  injection H as <- <-. eapply (debit_inv a c s u s2); [|done].
  apply GoM_bind_Ok. by exists nb, s1.
Qed.
Lemma delegate_loop_inv a amt : ∀ bals s r s',
  foldM (delegate_coin a) bals amt s = (Ok r, s') →
  shift (on_addr a (λ d, - amount amt d)) (λ d, - amount amt d) s s'.
Proof.
  induction amt as [|c amt IH]; intros bals s r s' H; cbn [foldM] in H.
  - injection H as <- <-. eapply shift_ext; [| |apply quiet_shift; reflexivity]; intros; cbn; unfold on_addr;
      try case_decide; cbn; lia.
  - apply GoM_bind_Ok in H as (b1 & s1 & H1%delegate_coin_inv & H2%IH).
    replace (- Amount c) with (-1 * Amount c) in H1 by lia.
    eapply shift_ext; [| |eapply (shift_coin_cons a (-1) c amt s s1 s'); [exact H1|]].
    + intros a' d. unfold on_addr. case_decide; lia.
    + intros d. cbn. lia.
    + eapply shift_ext; [| |exact H2]; [intros a' d; unfold on_addr; case_decide; lia|intros d; cbn; lia].
Qed.

Lemma DelegateCoins_inv from m amt s r s' :
  DelegateCoins k t from m amt s = (Ok r, s') → shift (transfer_shift from m amt) (λ _, 0) s s'.
Proof.
  intros H. unfold DelegateCoins in H.
  apply GoM_bind_Ok in H as (? & s0 & H0%on_auth_quiet & H).
  apply GoM_bind_Ok in H as (? & s1 & [_ ->]%liftM_Ok & H).
  apply GoM_bind_Ok in H as (? & s1 & [_ ->]%liftM_Ok & H).
  apply GoM_bind_Ok in H as (? & s1 & [_ ->]%liftM_Ok & H).
  apply GoM_bind_Ok in H as (? & s1 & H1%delegate_loop_inv & H).
  apply GoM_bind_Ok in H as (? & s2 & H2%track_account_quiet & H).
  apply GoM_bind_Ok in H as (? & s3 & [_ ->]%liftM_Ok & H).
  apply GoM_bind_Ok in H as (? & s3 & H3%EmitKV_quiet & H%addCoins_inv).
  eapply shift_quiet_l; [exact H0|]. eapply shift_transfer; [|exact H].
  eapply shift_quiet_r; [|exact H3]. by eapply shift_quiet_r.
Qed.
Lemma UndelegateCoins_inv m to amt s r s' :
  UndelegateCoins k t m to amt s = (Ok r, s') → shift (transfer_shift m to amt) (λ _, 0) s s'.
Proof.
  intros H. unfold UndelegateCoins in H.
  apply GoM_bind_Ok in H as (? & s0 & H0%on_auth_quiet & H).
  apply GoM_bind_Ok in H as (? & s1 & [_ ->]%liftM_Ok & H).
  apply GoM_bind_Ok in H as (? & s1 & [_ ->]%liftM_Ok & H).
  apply GoM_bind_Ok in H as (? & s1 & H1%subUnlockedCoins_inv & H).
  apply GoM_bind_Ok in H as (? & s2 & H2%track_account_quiet & H%addCoins_inv).
  eapply shift_quiet_l; [exact H0|]. eapply shift_transfer; [|exact H]. by eapply shift_quiet_r.
Qed.

Lemma module_account_quiet name s r s' : module_account k name s = (r, s') → quiet s s'.
Proof.
  unfold module_account, mbind, GoM_bind. destruct (on_auth (GetModuleAccount (k_ak k) name) s) as [o s1] eqn:E.
  apply on_auth_quiet in E. destruct o as [[m|]|e|p]; by intros [= <- <-].
Qed.

Lemma MintCoins_inv name amt s r s' :
  supply_ok s → MintCoins k name amt s = (Ok r, s') →
  ∃ sr macc sm s1, mint_restriction k amt s = (Ok tt, sr) ∧ module_account k name sr = (Ok macc, sm) ∧
    ModuleAccount_HasPermission macc Minter = true ∧ valid_coins amt ∧
    shift (on_addr (macc_address macc) (amount amt)) (amount amt) s s1 ∧ supply_shift (amount amt) s1 s'.
Proof.
  intros Hok H. unfold MintCoins in H.
  apply GoM_bind_Ok in H as ([] & s0 & E0 & H). pose proof (quiet_mint _ _ _ _ E0) as H0.
  apply GoM_bind_Ok in H as (acc & s1 & E1 & H). pose proof (module_account_quiet _ _ _ _ E1) as H1.
  apply GoM_bind_Ok in H as (? & s2 & [Hp%guard_err_Ok ->]%liftM_Ok & H).
  apply GoM_bind_Ok in H as (? & s2 & [Hv%guard_err_Ok ->]%liftM_Ok & H).
  apply GoM_bind_Ok in H as (? & s2 & H2%addCoins_inv & H).
  apply GoM_bind_Ok in H as (? & s3 & H3 & H).
  apply GoM_bind_Ok in H as (? & s4 & [_ ->]%liftM_Ok & H%EmitKV_quiet).
  apply Bool.negb_false_iff, Coins_IsValid_spec in Hv.
  assert (shift (on_addr (macc_address acc) (amount amt)) (amount amt) s s2) as Hsh.
  { eapply shift_quiet_l; [|exact H2]. by etransitivity. }
  exists s0, acc, s1, s2. split; [done|]. split; [done|]. split; [by apply Bool.negb_false_iff|].
  split; [done|]. split; [done|].
  assert (supply_ok s2) as Hok2 by (unfold supply_ok; by rewrite (sh_supply _ _ _ _ Hsh)).
  apply (forM_supply 1) in H3; [|..|done].
  - eapply supply_shift_quiet_r; [|exact H3|exact H]. intros d. cbn beta. lia.
  - intros c s5 r5 s5' Hc Hok5 H5%mint_supply_inv; [by rewrite Z.mul_1_l| |done].
    destruct Hv as [Hv _]. rewrite Forall_forall in Hv. by apply Hv.
Qed.
Lemma BurnCoins_inv a amt s r s' :
  supply_ok s → BurnCoins t a amt s = (Ok r, s') →
  ∃ acc s0 s1, on_auth (GetAccount a) s = (Ok (Some acc), s0) ∧
    (∀ macc, acc = ModuleAcc macc → ModuleAccount_HasPermission macc Burner = true) ∧ valid_coins amt ∧
    shift (on_addr (AccountI_GetAddress acc) (λ d, - amount amt d)) (λ d, - amount amt d) s s1 ∧
    supply_shift (λ d, - amount amt d) s1 s'.
Proof.
  intros Hok H. unfold BurnCoins in H.
  apply GoM_bind_Ok in H as (acc & s0 & E0 & H). destruct acc as [acc|]; [|done].
  pose proof (on_auth_quiet _ _ _ _ E0) as H0.
  apply GoM_bind_Ok in H as (? & s1 & [Hp ->]%liftM_Ok & H).
  apply GoM_bind_Ok in H as (? & s1 & [Hv%guard_err_Ok ->]%liftM_Ok & H). cbn zeta in H.
  apply GoM_bind_Ok in H as (? & s1 & H1%subUnlockedCoins_inv & H).
  apply GoM_bind_Ok in H as (? & s2 & H2 & H).
  apply GoM_bind_Ok in H as (? & s3 & [_ ->]%liftM_Ok & H%EmitKV_quiet).
  assert (shift (on_addr (AccountI_GetAddress acc) (λ d, - amount amt d)) (λ d, - amount amt d) s s1) as Hsh.
  { by eapply shift_quiet_l. }
  exists acc, s0, s1. split; [done|].
  split; [by intros macc ->; apply Bool.negb_false_iff; apply guard_err_Ok in Hp|].
  split; [by apply Coins_IsValid_spec, Bool.negb_false_iff|]. split; [done|].
  assert (supply_ok s1) as Hok1 by (unfold supply_ok; by rewrite (sh_supply _ _ _ _ Hsh)).
  apply (forM_supply (-1)) in H2; [|..|done].
  - eapply supply_shift_quiet_r; [|exact H2|exact H]. intros d. cbn beta. lia.
  - intros c s5 r5 s5' _ _ H5%burn_supply_inv. by replace (-1 * Amount c) with (- Amount c) by lia.
Qed.

(** *** Multi-send *)

Fixpoint outs_amount (outs : list Output) (d : string) : Z :=
  match outs with
  | [] => 0
  | o :: outs' => amount (out_Coins o) d + outs_amount outs' d
  end.

Lemma total_out_amount outs : ∀ acc tot d,
  foldM (λ totalOut out, _ ← Output_ValidateBasic out; Coins_Add totalOut (out_Coins out)) acc outs = Ok tot →
  amount tot d = amount acc d + outs_amount outs d.
Proof.
  induction outs as [|o outs IH]; intros acc tot d H; cbn [foldM] in H.
  - injection H as <-. cbn. lia.
  - apply outcome_bind_Ok in H as (acc' & H1 & H2). apply outcome_bind_Ok in H1 as (? & _ & [_ Ha]%safeAdd_Ok).
    rewrite (IH _ _ d H2), Ha. cbn. lia.
Qed.
Lemma ValidateInputOutputs_balanced inp outs r :
  ValidateInputOutputs inp outs = Ok r → ∀ d, amount (in_Coins inp) d = outs_amount outs d.
Proof.
  intros H d. unfold ValidateInputOutputs in H.
  apply outcome_bind_Ok in H as (? & _ & H). apply outcome_bind_Ok in H as (tot & Ht & H%guard_err_Ok).
  apply Bool.negb_false_iff, (Coins_Equal_amount _ _ d) in H. rewrite H.
  rewrite (total_out_amount _ _ _ d Ht). done.
Qed.

Lemma resolve_outputs_inv a outs : ∀ s sending s',
  traverse (resolve_output k a) outs s = (Ok sending, s') → quiet s s' ∧ map snd sending = outs.
Proof.
  induction outs as [|o outs IH]; intros s sending s' H; cbn [traverse] in H.
  - injection H as <- <-. done.
  - apply GoM_bind_Ok in H as (y & s1 & H1 & H). apply GoM_bind_Ok in H as (ys & s2 & [Hq Hys]%IH & H).
    injection H as <- <-. unfold resolve_output in H1.
    apply GoM_bind_Ok in H1 as (? & s3 & [_ ->]%liftM_Ok & H1).
    apply GoM_bind_Ok in H1 as (? & s3 & H3%quiet_send & H1). injection H1 as <- <-.
    split; [by etransitivity|]. cbn. by rewrite Hys.
Qed.

(** The credits of a list of resolved outputs. *)
Fixpoint credits (sending : list (string * Output)) (a d : string) : Z :=
  match sending with
  | [] => 0
  | (to, o) :: rest => on_addr to (amount (out_Coins o)) a d + credits rest a d
  end.
Lemma credit_outputs_inv sender sending : ∀ s r s',
  forM_ (λ '(address, out),
           _ ← addCoins address (out_Coins out);
           EmitKV "transfer" [("recipient", out_Address out); ("sender", sender)] (out_Coins out)) sending s
    = (Ok r, s') →
  shift (credits sending) (outs_amount (map snd sending)) s s'.
Proof.
  induction sending as [|[to o] rest IH]; intros s r s' H; cbn [forM_] in H.
  - injection H as <- <-. apply quiet_shift. reflexivity.
  - apply GoM_bind_Ok in H as (? & s1 & H1 & H2%IH).
    apply GoM_bind_Ok in H1 as (? & s2 & H1%addCoins_inv & H3%EmitKV_quiet).
    eapply shift_ext; [| |eapply shift_trans; [eapply shift_quiet_r; [exact H1|exact H3]|exact H2]]; done.
Qed.

Lemma InputOutputCoins_inv inp outs s r s' :
  InputOutputCoins k t inp outs s = (Ok r, s') →
  ∃ a sending, map snd sending = outs ∧
    shift (λ b d, on_addr a (λ d, - amount (in_Coins inp) d) b d + credits sending b d) (λ _, 0) s s'.
Proof.
  intros H. unfold InputOutputCoins in H.
  apply GoM_bind_Ok in H as (? & s0 & [Hv ->]%liftM_Ok & H).
  apply GoM_bind_Ok in H as (a & s0 & [_ ->]%liftM_Ok & H).
  apply GoM_bind_Ok in H as (sending & s1 & [H1 Hs]%resolve_outputs_inv & H).
  apply GoM_bind_Ok in H as (? & s2 & H2%subUnlockedCoins_inv & H3%credit_outputs_inv).
  exists a, sending. split; [done|]. eapply shift_quiet_l; [exact H1|].
  eapply shift_ext; [| |exact (shift_trans _ _ _ _ _ _ _ H2 H3)]; [done|].
  intros d. cbn beta. rewrite Hs, (ValidateInputOutputs_balanced _ _ _ Hv). lia.
Qed.
End Conservation.

(** ** Computations that keep the invariant *)

Create HintDb bank discriminated.

Section Keeping.
Context {cfg : CoinConfig} {acfg : AddressConfig}.

(** [m] changes neither balances nor supply, whatever its outcome. *)
Definition quietM {A} (m : GoM BankState A) : Prop := ∀ s r s', m s = (r, s') → quiet s s'.
(** A successful run of [m] keeps the supply invariant. *)
Definition keeps {A} (m : GoM BankState A) : Prop :=
  ∀ s u s', m s = (Ok u, s') → bank_inv s → bank_inv s'.

Lemma quietM_bind {A B} (m : GoM BankState A) (f : A → GoM BankState B) :
  quietM m → (∀ a, quietM (f a)) → quietM (m ≫= f).
Proof.
  intros Hm Hf s r s'. unfold mbind, GoM_bind. destruct (m s) as [o s1] eqn:E. apply Hm in E.
  destruct o as [a|e|p]; [|by intros [= <- <-]..]. intros H%Hf. by etransitivity.
Qed.
Lemma quietM_ret {A} (a : A) : quietM (mret a).
Proof. intros s r s' [= <- <-]. done. Qed.
Lemma quietM_liftM {A} (m : outcome A) : quietM (liftM m).
Proof. intros s r s' [= <- <-]. done. Qed.
Lemma quietM_readM {A} (f : BankState → A) : quietM (readM f).
Proof. intros s r s' [= <- <-]. done. Qed.
Lemma quietM_errM {A} e : quietM (errM (A := A) e).
Proof. intros s r s' [= <- <-]. done. Qed.
Lemma quietM_on_auth {A} (m : GoM AuthState A) : quietM (on_auth m).
Proof. intros s r s'. apply on_auth_quiet. Qed.
Lemma quietM_with_SendEnabled f : quietM (modifyM (with_SendEnabled f)).
Proof. intros s r s' [= <- <-]. done. Qed.
Lemma quietM_with_Params p : quietM (modifyM (with_Params p)).
Proof. intros s r s' [= <- <-]. done. Qed.
Lemma quietM_with_DenomMetadata f : quietM (modifyM (with_DenomMetadata f)).
Proof. intros s r s' [= <- <-]. done. Qed.
Lemma quietM_if {A} (b : bool) (m1 m2 : GoM BankState A) :
  quietM m1 → quietM m2 → quietM (if b then m1 else m2).
Proof. by destruct b. Qed.
Lemma quietM_forM {A} (f : A → GoM BankState unit) l : (∀ x, quietM (f x)) → quietM (forM_ f l).
Proof.
  intros Hf. induction l as [|x l IH]; cbn [forM_]; [apply quietM_ret|]. by apply quietM_bind.
Qed.
Lemma quietM_module_account k name : quietM (module_account k name).
Proof. intros s r s'. apply module_account_quiet. Qed.

Lemma keeps_quiet {A} (m : GoM BankState A) : quietM m → keeps m.
Proof. intros Hm s u s' H. eapply bank_inv_quiet. by eapply Hm. Qed.
Lemma keeps_bind {A B} (m : GoM BankState A) (f : A → GoM BankState B) :
  quietM m → (∀ a, keeps (f a)) → keeps (m ≫= f).
Proof.
  intros Hm Hf s u s' H Hi. apply GoM_bind_Ok in H as (a & s1 & H1 & H2).
  eapply Hf; [exact H2|]. eapply bank_inv_quiet; [by eapply Hm|done].
Qed.
End Keeping.
#[export] Hint Resolve quietM_bind quietM_ret quietM_liftM quietM_readM quietM_errM quietM_on_auth
  quietM_with_SendEnabled quietM_with_Params quietM_with_DenomMetadata quietM_if quietM_forM
  quietM_module_account : bank.

(** Prove that a computation is quiet by its structure. *)
Ltac quiet_solve :=
  repeat (progress intros || (progress auto with bank) || apply quietM_bind || apply quietM_if
          || apply quietM_forM || case_match).

Section Keeping.
Context {cfg : CoinConfig} {acfg : AddressConfig}.

Lemma quietM_SetSendEnabled d v : quietM (SetSendEnabled d v).
Proof. apply quietM_with_SendEnabled. Qed.
Lemma quietM_SetAllSendEnabled es : quietM (SetAllSendEnabled es).
Proof. unfold SetAllSendEnabled, SetSendEnabled. quiet_solve. Qed.
Lemma quietM_DeleteSendEnabled ds : quietM (DeleteSendEnabled ds).
Proof. unfold DeleteSendEnabled. quiet_solve. Qed.
Lemma quietM_IsSendEnabledCoins cs : quietM (IsSendEnabledCoins cs).
Proof.
  unfold IsSendEnabledCoins, GetParams, getSendEnabledOrDefault, getSendEnabled. quiet_solve.
Qed.

Lemma IsSendEnabledCoins_inv amt s u s' :
  IsSendEnabledCoins amt s = (Ok u, s') →
  ∀ c, c ∈ amt → default (DefaultSendEnabled (default (mkBankParams [] false) (Params s)))
                         (SendEnabled s !! Denom c) = true.
Proof.
  unfold IsSendEnabledCoins. destruct amt as [|c0 amt0]; [by intros _ c ?%not_elem_of_nil|].
  set (amt := c0 :: amt0). intros H. cbn [length Nat.eqb amt] in H. fold amt in H.
  apply GoM_bind_Ok in H as (p & s1 & [= <- <-] & H). revert H.
  induction amt as [|c l IH]; intros H c1 Hc1; [by apply not_elem_of_nil in Hc1|]. cbn [forM_] in H.
  apply GoM_bind_Ok in H as (v & s1 & H1 & H2).
  apply GoM_bind_Ok in H1 as (ok & s2 & H1 & [Hok%guard_err_Ok ->]%liftM_Ok).
  unfold getSendEnabledOrDefault, getSendEnabled, mbind, GoM_bind, readM, mret, GoM_ret in H1.
  apply Bool.negb_false_iff in Hok. subst ok.
  assert (s2 = s ∧ default (DefaultSendEnabled (default (mkBankParams [] false) (Params s)))
                           (SendEnabled s !! Denom c) = true) as [-> Hc].
  { destruct (SendEnabled s !! Denom c); cbn in *; by injection H1 as -> ->. }
  apply elem_of_cons in Hc1 as [->|Hc1]; [done|]. by apply IH.
Qed.

Context (k : BaseKeeper) {HQ : QuietRestrictions k}.
Variable t : Z.

Lemma keeps_SendCoins from to amt : keeps (SendCoins k t from to amt).
Proof. intros s u s' (to' & H)%SendCoins_inv; [|done]. by eapply bank_inv_shift. Qed.
Lemma keeps_InputOutputCoins inp outs : keeps (InputOutputCoins k t inp outs).
Proof. intros s u s' (a & sd & _ & H)%InputOutputCoins_inv; [|done]. by eapply bank_inv_shift. Qed.
Lemma keeps_DelegateCoins from m amt : keeps (DelegateCoins k t from m amt).
Proof. intros s u s' H%DelegateCoins_inv. by eapply bank_inv_shift. Qed.
Lemma keeps_UndelegateCoins m to amt : keeps (UndelegateCoins k t m to amt).
Proof. intros s u s' H%UndelegateCoins_inv. by eapply bank_inv_shift. Qed.
Lemma keeps_MintCoins m amt : keeps (MintCoins k m amt).
Proof.
  intros s u s' H Hi. apply MintCoins_inv in H as (sr & macc & sm & s1 & _ & _ & _ & _ & H1 & H2); [|done|apply Hi].
  by eapply bank_inv_issue.
Qed.
Lemma keeps_BurnCoins a amt : keeps (BurnCoins t a amt).
Proof.
  intros s u s' H Hi. apply BurnCoins_inv in H as (acc & s0 & s1 & _ & _ & _ & H1 & H2); [|apply Hi].
  by eapply bank_inv_issue.
Qed.
End Keeping.
#[export] Hint Resolve quietM_SetSendEnabled quietM_SetAllSendEnabled quietM_DeleteSendEnabled quietM_IsSendEnabledCoins
  keeps_SendCoins keeps_InputOutputCoins keeps_DelegateCoins keeps_UndelegateCoins keeps_MintCoins
  keeps_BurnCoins : bank.

(** ** Sequences of operations *)

(** The state-changing entry points of the keeper and of the message server. *)
Inductive bank_op :=
| OpSend (from to : string) (amt : Coins)
| OpInputOutput (inp : Input) (outs : list Output)
| OpModuleToAccount (m to : string) (amt : Coins)
| OpModuleToModule (m1 m2 : string) (amt : Coins)
| OpAccountToModule (from m : string) (amt : Coins)
| OpDelegate (from m : string) (amt : Coins)
| OpUndelegate (m to : string) (amt : Coins)
| OpDelegateToModule (from m : string) (amt : Coins)
| OpUndelegateFromModule (m to : string) (amt : Coins)
| OpMint (m : string) (amt : Coins)
| OpBurn (a : string) (amt : Coins)
| OpSetParams (p : BankParams)
| OpSetSendEnabled (d : string) (v : bool)
| OpDeleteSendEnabled (ds : list string)
| OpSetDenomMetaData (m : Metadata)
| OpMsgSend (from to : string) (amt : Coins)
| OpMsgMultiSend (inps : list Input) (outs : list Output)
| OpMsgUpdateParams (a : string) (p : BankParams)
| OpMsgSetSendEnabled (a : string) (ses : list SendEnabledEntry) (ds : list string)
| OpMsgBurn (from : string) (amt : Coins).

Section Sequences.
Context {cfg : CoinConfig} {acfg : AddressConfig}.
Variable k : BaseKeeper.

Definition run_op (t : Z) (op : bank_op) : GoM BankState unit :=
  match op with
  | OpSend from to amt => SendCoins k t from to amt
  | OpInputOutput inp outs => InputOutputCoins k t inp outs
  | OpModuleToAccount m to amt => SendCoinsFromModuleToAccount k t m to amt
  | OpModuleToModule m1 m2 amt => SendCoinsFromModuleToModule k t m1 m2 amt
  | OpAccountToModule from m amt => SendCoinsFromAccountToModule k t from m amt
  | OpDelegate from m amt => DelegateCoins k t from m amt
  | OpUndelegate m to amt => UndelegateCoins k t m to amt
  | OpDelegateToModule from m amt => DelegateCoinsFromAccountToModule k t from m amt
  | OpUndelegateFromModule m to amt => UndelegateCoinsFromModuleToAccount k t m to amt
  | OpMint m amt => MintCoins k m amt
  | OpBurn a amt => BurnCoins t a amt
  | OpSetParams p => SetParams p
  | OpSetSendEnabled d v => SetSendEnabled d v
  | OpDeleteSendEnabled ds => DeleteSendEnabled ds
  | OpSetDenomMetaData m => SetDenomMetaData m
  | OpMsgSend from to amt => Msg_Send k t from to amt
  | OpMsgMultiSend inps outs => Msg_MultiSend k t inps outs
  | OpMsgUpdateParams a p => Msg_UpdateParams k a p
  | OpMsgSetSendEnabled a ses ds => Msg_SetSendEnabled k a ses ds
  | OpMsgBurn from amt => Msg_Burn t from amt
  end.

(** One operation at a block time, in a context that is written back only on
    success (the cache context of a transaction). *)
Inductive bank_step : BankState → BankState → Prop :=
| step_ok t op s u s' : run_op t op s = (Ok u, s') → bank_step s s'
| step_rollback t op s o s' : run_op t op s = (o, s') → is_ok o = false → bank_step s s.

Definition reachable : BankState → BankState → Prop := rtc bank_step.
End Sequences.

Section Invariant.
Context {cfg : CoinConfig} {acfg : AddressConfig}.
Context (k : BaseKeeper) {HQ : QuietRestrictions k}.

Lemma keeps_SetParams p : keeps (SetParams p).
Proof. apply keeps_quiet. unfold SetParams. quiet_solve. Qed.

Lemma keeps_run_op t op : keeps (run_op k t op).
Proof.
  destruct op; cbn [run_op]; auto with bank;
    unfold SendCoinsFromModuleToAccount, SendCoinsFromModuleToModule, SendCoinsFromAccountToModule,
      DelegateCoinsFromAccountToModule, UndelegateCoinsFromModuleToAccount, SetSendEnabled, SetDenomMetaData,
      Msg_Send, Msg_MultiSend, Msg_UpdateParams, Msg_SetSendEnabled, Msg_Burn.
  all: try (apply keeps_quiet; quiet_solve; fail).
  all: repeat ((progress auto with bank) || (apply keeps_quiet; quiet_solve; fail) || apply keeps_SetParams
               || (apply keeps_bind; [quiet_solve|intros]) || case_match).
Qed.
End Invariant.

(** ** Properties *)

(** C1. The supply invariant: in every state reachable from a consistent one by
    any sequence of keeper calls and messages (failing ones being rolled back),
    the recorded supply of each denomination equals the sum of all balances, no
    zero or negative balance is stored, and the index of the balances by
    denomination is exact.  Restrictions installed by the application are
    assumed not to write balances or supply themselves. *)
Theorem bank_supply_invariant {cfg : CoinConfig} {acfg : AddressConfig} (k : BaseKeeper)
    {HQ : QuietRestrictions k} s s' :
  bank_inv s → reachable k s s' → bank_inv s'.
Proof.
  intros Hi H. induction H as [s|s s1 s2 Hstep _ IH]; [done|]. apply IH.
  destruct Hstep as [t op s u s1 Hrun|]; [|done]. by eapply keeps_run_op.
Qed.

(** A small bank to run the theorems on. *)
Definition auth0 : AuthState := mkAuthState (mkUniqueMap ∅ ∅) (Some 10) 0.
Definition keeper0 : BaseKeeper :=
  mkBaseKeeper (mkAccountKeeper {["mint" := mkPermissionsForAddress [Minter] "module/mint"]} (λ _, false))
    {["blocked"]} "gov" None (Some NoOpMintingRestrictionFn).
Definition bank0 : BankState :=
  mkBankState {["stake" := 50]} ∅ ∅
    (mkReversePairMap {[("alice", "stake") := 50]} {[("stake", "alice")]}) (Some DefaultParams) auth0 [].
#[global] Instance keeper0_quiet : QuietRestrictions keeper0.
Proof. split; [intros from to amt s r s' [= <- <-]|intros amt s r s' [= <- <-]]; done. Qed.
(** A bank with one balance. *)
Lemma bank_inv_sample s a d x :
  Supply s = {[d := x]} → Balances s = mkReversePairMap {[(a, d) := x]} {[(d, a)]} →
  0 < x → int_range x → denom_valid (cfg := default_config) d = true →
  bank_inv (cfg := default_config) s.
Proof.
  intros HS HB Hx Hr Hd. split; [split|..]; rewrite ?HS, ?HB; cbn.
  - by apply map_Forall_singleton.
  - intros k1 k2. cbn. rewrite elem_of_singleton, lookup_singleton_is_Some. naive_solver.
  - intros d'. unfold total, supply_of. rewrite HS, HB. cbn [rp_map].
    rewrite <- insert_empty, total_map_insert, total_map_empty by done. unfold weight. cbn.
    destruct (decide (d = d')) as [<-|Hne]; [rewrite lookup_singleton_eq; cbn; lia|by rewrite lookup_singleton_ne].
  - by apply map_Forall_singleton.
Qed.
Lemma bank0_inv : bank_inv (cfg := default_config) bank0.
Proof. apply (bank_inv_sample bank0 "alice" "stake" 50); done || (unfold int_range; lia). Qed.
Definition coins20 : Coins := [mkCoin "stake" 20].
Lemma coins20_good : good_coins (cfg := default_config) coins20.
Proof. split; [by apply Coins_IsValid_spec|]. constructor; [unfold int_range; cbn; lia|constructor]. Qed.

Lemma bank_supply_invariant_witness :
  bank_inv (cfg := default_config)
    (snd (SendCoins (cfg := default_config) (acfg := acfg_id) keeper0 0 "alice" "bob" coins20 bank0)).
Proof.
  apply (bank_supply_invariant (cfg := default_config) (acfg := acfg_id) keeper0 bank0); [exact bank0_inv|].
  apply rtc_once. apply (step_ok _ 0 (OpSend "alice" "bob" coins20) bank0 tt). reflexivity.
Defined.

Section SendSpec.
Context {cfg : CoinConfig} {acfg : AddressConfig}.

Lemma supply_range s d : bank_inv s → int_range (supply_of s d).
Proof.
  intros Hi. unfold supply_of. destruct (Supply s !! d) as [v|] eqn:E; cbn.
  - by apply (inv_supply _ Hi) in E as (_ & ? & _).
  - unfold int_range. lia.
Qed.

Lemma subUnlockedCoins_total t a amt locked str s :
  store_ok s → good_coins locked → good_coins amt → LockedCoins_of t a s = (Ok locked, s) →
  BytesToString a = Ok str →
  (∀ d, 0 < amount amt d → amount amt d + amount locked d <= bal s a d) →
  ∃ s', subUnlockedCoins t a amt s = (Ok tt, s').
Proof.
  intros Hok Hl Hg HL Hstr Hc.
  destruct (sub_unlocked_loop_total a locked amt s Hok Hl Hg) as [s1 Hs1].
  { intros c Hin. destruct (valid_coins_elem amt c (proj1 Hg) Hin) as (_ & Hp & <-). apply Hc.
    destruct (valid_coins_elem amt c (proj1 Hg) Hin) as (_ & _ & ->). done. }
  eexists. unfold subUnlockedCoins. rewrite (GoM_bind_run _ _ _ _ _ HL), (GoM_bind_run _ _ _ _ _ Hs1).
  by rewrite (liftM_bind_run _ _ _ _ Hstr).
Qed.
Lemma addCoins_total a amt str s :
  store_ok s → good_coins amt → BytesToString a = Ok str →
  (∀ d, int_range (bal s a d + amount amt d)) → ∃ s', addCoins a amt s = (Ok tt, s').
Proof.
  intros Hok Hg Hstr Hr. destruct (add_loop_total a amt s Hok Hg Hr) as [s1 Hs1].
  eexists. unfold addCoins. rewrite (GoM_bind_run _ _ _ _ _ Hs1). by rewrite (liftM_bind_run _ _ _ _ Hstr).
Qed.

Lemma covered_everywhere s a amt (locked : Coins) :
  store_ok s → valid_coins amt → valid_coins locked →
  (∀ d, 0 < amount amt d → amount amt d + amount locked d <= bal s a d) → ∀ d, amount amt d <= bal s a d.
Proof.
  intros Hok Ha Hl Hc d. pose proof (valid_coins_amount_nonneg amt d Ha).
  pose proof (valid_coins_amount_nonneg locked d Hl). pose proof (bal_nonneg s a d Hok).
  destruct (decide (amount amt d = 0)) as [->|Hne]; [done|]. specialize (Hc d ltac:(lia)). lia.
Qed.
End SendSpec.

(** C3. A transfer of valid coins the sender can spend (balance minus locked
    coins) always succeeds in a consistent bank: it cannot overflow the receiver.
    It moves exactly the amount to the receiver chosen by the restrictions,
    touches no other account, also when sender and receiver coincide, and keeps
    the supply invariant. *)
Theorem SendCoins_exact {cfg : CoinConfig} {acfg : AddressConfig} (k : BaseKeeper) {HQ : QuietRestrictions k}
    t s from to to' amt locked sf st :
  bank_inv s → good_coins amt → good_coins locked →
  LockedCoins_of t from s = (Ok locked, s) →
  sendRestriction_apply k from to amt s = (Ok to', s) →
  BytesToString from = Ok sf → BytesToString to' = Ok st →
  (∀ d, 0 < amount amt d → amount amt d + amount locked d <= bal s from d) →
  ∃ s', SendCoins k t from to amt s = (Ok tt, s') ∧ bank_inv s' ∧
    ∀ a d, bal s' a d = bal s a d - (if decide (a = from) then amount amt d else 0)
                                  + (if decide (a = to') then amount amt d else 0).
Proof.
  intros Hi Hg Hl HL Hre Hsf Hst Hc. pose proof (inv_store _ Hi) as Hok.
  destruct (subUnlockedCoins_total t from amt locked sf s) as [s1 H1]; [done..|].
  pose proof (subUnlockedCoins_inv _ _ _ _ _ _ H1) as Hsh1.
  destruct (addCoins_total to' amt st s1) as [s2 H2]; [by apply (sh_ok _ _ _ _ Hsh1)|done|done| |].
  { intros d. rewrite (sh_bal _ _ _ _ Hsh1). unfold on_addr.
    pose proof (covered_everywhere s from amt locked Hok (proj1 Hg) (proj1 Hl) Hc d) as Hle.
    pose proof (valid_coins_amount_nonneg amt d (proj1 Hg)) as Hn.
    pose proof (bal_nonneg s to' d Hok) as Hb. pose proof (bal_range s from d Hok) as Hbr.
    pose proof (supply_range s d Hi) as Hsr. rewrite <- (inv_total _ Hi) in Hsr.
    case_decide as Hft; [subst; unfold int_range in *; lia|].
    pose proof (bal_two_le_total s from to' d Hok Hft). unfold int_range in *. lia. }
  pose proof (addCoins_inv _ _ _ _ _ H2) as Hsh2.
  assert (SendCoins k t from to amt s =
          (Ok tt, with_event (mkEvent "transfer" [("recipient", st); ("sender", sf)] amt) s2)) as HS.
  { unfold SendCoins. rewrite (proj2 (Coins_IsValid_spec amt) (proj1 Hg)), (liftM_bind_run _ _ tt) by done.
    rewrite (GoM_bind_run _ _ _ _ _ Hre), (GoM_bind_run _ _ _ _ _ H1), (GoM_bind_run _ _ _ _ _ H2).
    by rewrite (liftM_bind_run _ _ _ _ Hsf), (liftM_bind_run _ _ _ _ Hst). }
  eexists. split; [exact HS|]. split; [by eapply keeps_SendCoins|].
  intros a d. change (bal (with_event _ s2) a d) with (bal s2 a d).
  rewrite (sh_bal _ _ _ _ Hsh2), (sh_bal _ _ _ _ Hsh1). unfold on_addr.
  repeat case_decide; congruence || lia.
Qed.

Lemma SendCoins_exact_witness :
  ∃ s', SendCoins (cfg := default_config) (acfg := acfg_id) keeper0 0 "alice" "bob" coins20 bank0 = (Ok tt, s') ∧
        bal s' "alice" "stake" = 30 ∧ bal s' "bob" "stake" = 20.
Proof.
  destruct (SendCoins_exact (cfg := default_config) (acfg := acfg_id) keeper0 0 bank0 "alice" "bob" "bob" coins20 []
              "alice" "bob" bank0_inv coins20_good (conj valid_coins_nil (Forall_nil_2 _))) as (s' & H & _ & M);
    [reflexivity..| |].
  - intros d. cbn. case_decide as E; [subst d; vm_compute; discriminate|]. cbn. lia.
  - exists s'. split; [exact H|]. split; [exact (M "alice" "stake")|exact (M "bob" "stake")].
Defined.

(** C28. A transfer is refused with [ErrInsufficientFunds] as soon as one of its
    denominations exceeds the sender's spendable balance: locked vesting coins
    are never moved. *)
Theorem SendCoins_insufficient {cfg : CoinConfig} {acfg : AddressConfig} (k : BaseKeeper)
    t s from to to' amt locked d :
  store_ok s → good_coins amt → good_coins locked →
  LockedCoins_of t from s = (Ok locked, s) →
  sendRestriction_apply k from to amt s = (Ok to', s) →
  0 < amount amt d → bal s from d < amount amt d + amount locked d →
  ∃ s', SendCoins k t from to amt s = (Err ErrInsufficientFunds, s').
Proof.
  intros Hok Hg Hl HL Hre Hp Hlt.
  destruct (sub_unlocked_loop_fail from locked amt s Hok Hl Hg) as [s1 H1].
  { destruct (decide (d ∈ map Denom amt)) as [Hin|Hni]; [|rewrite amount_not_in in Hp by done; lia].
    apply list_elem_of_fmap in Hin as (c & -> & Hc). exists c. split; [done|].
    by destruct (valid_coins_elem amt c (proj1 Hg) Hc) as (_ & _ & <-). }
  exists s1. unfold SendCoins.
  rewrite (proj2 (Coins_IsValid_spec amt) (proj1 Hg)), (liftM_bind_run _ _ tt) by done.
  rewrite (GoM_bind_run _ _ _ _ _ Hre). apply GoM_bind_err. unfold subUnlockedCoins.
  rewrite (GoM_bind_run _ _ _ _ _ HL). by apply GoM_bind_err.
Qed.

Definition coins70 : Coins := [mkCoin "stake" 70].
Lemma SendCoins_insufficient_witness :
  ∃ s', SendCoins (cfg := default_config) (acfg := acfg_id) keeper0 0 "alice" "bob" coins70 bank0
        = (Err ErrInsufficientFunds, s').
Proof.
  apply (SendCoins_insufficient (cfg := default_config) (acfg := acfg_id) keeper0 0 bank0 "alice" "bob" "bob"
           coins70 [] "stake" (inv_store _ bank0_inv)).
  - split; [by apply Coins_IsValid_spec|]. constructor; [unfold int_range; cbn; lia|constructor].
  - split; [apply valid_coins_nil|constructor].
  - reflexivity.
  - reflexivity.
  - reflexivity.
  - reflexivity.
Defined.

(** Restrictions compose in order: appending runs the new restriction after
    the existing ones on the receiver they returned, prepending runs it before,
    a nil restriction changes nothing, and the first error stops the chain. *)
Theorem send_restrictions_compose (k : BaseKeeper) (r : SendRestrictionFn) from to amt s :
  sendRestriction_apply (AppendSendRestriction k (Some r)) from to amt s =
    (to' ← sendRestriction_apply k from to amt; r from to' amt) s ∧
  sendRestriction_apply (PrependSendRestriction k (Some r)) from to amt s =
    (to' ← r from to amt; sendRestriction_apply k from to' amt) s ∧
  sendRestriction_apply (AppendSendRestriction k None) from to amt s = sendRestriction_apply k from to amt s ∧
  sendRestriction_apply (PrependSendRestriction k None) from to amt s = sendRestriction_apply k from to amt s ∧
  sendRestriction_apply (ClearSendRestriction k) from to amt s = (Ok to, s).
Proof.
  assert (∀ (m : GoM BankState string), (x ← m; mret x) s = m s) as Hret.
  { intros m. unfold mbind, GoM_bind. by destruct (m s) as [[] ?]. }
  unfold sendRestriction_apply, AppendSendRestriction, PrependSendRestriction, ClearSendRestriction,
    SendRestriction_Then, ComposeSendRestrictions. cbn [sendRestriction with_sendRestriction omap list_omap id].
  destruct (sendRestriction k) as [fn|]; cbn; unfold run_send; cbn [foldM].
  - split; [|split; [|done]]; unfold mbind, GoM_bind.
    + destruct (fn from to amt s) as [[to'| |] s1]; [|done..]. by destruct (r from to' amt s1) as [[] ?].
    + destruct (r from to amt s) as [[to'| |] s1]; [|done..]. by destruct (fn from to' amt s1) as [[] ?].
  - split; [done|]. split; [|done]. by rewrite Hret.
Qed.

(** C29. A mint that succeeds needed the minter permission of the module account,
    and credits exactly the minted coins to that account and to the supply.  A
    burn that succeeds needed the burner permission, if the account is a module
    account, and takes exactly the burned coins from that account and from the
    supply.  Minting without the permission is refused with [ErrUnauthorized]. *)
Theorem mint_burn_exact {cfg : CoinConfig} {acfg : AddressConfig} (k : BaseKeeper) {HQ : QuietRestrictions k} s :
  bank_inv s →
  (∀ m amt u s', MintCoins k m amt s = (Ok u, s') →
     ∃ sr macc sm, mint_restriction k amt s = (Ok tt, sr) ∧ module_account k m sr = (Ok macc, sm) ∧
       ModuleAccount_HasPermission macc Minter = true ∧ valid_coins amt ∧
       (∀ b d, bal s' b d = bal s b d + (if decide (macc_address macc = b) then amount amt d else 0)) ∧
       ∀ d, supply_of s' d = supply_of s d + amount amt d) ∧
  (∀ t a amt u s', BurnCoins t a amt s = (Ok u, s') →
     ∃ acc s0, on_auth (GetAccount a) s = (Ok (Some acc), s0) ∧
       (∀ macc, acc = ModuleAcc macc → ModuleAccount_HasPermission macc Burner = true) ∧ valid_coins amt ∧
       (∀ b d, bal s' b d = bal s b d - (if decide (AccountI_GetAddress acc = b) then amount amt d else 0)) ∧
       ∀ d, supply_of s' d = supply_of s d - amount amt d) ∧
  (∀ m amt macc s1 s2, mint_restriction k amt s = (Ok tt, s1) → module_account k m s1 = (Ok macc, s2) →
     ModuleAccount_HasPermission macc Minter = false → fst (MintCoins k m amt s) = Err ErrUnauthorized).
Proof.
  intros Hi. split; [|split].
  - intros m amt u s' H.
    apply MintCoins_inv in H as (sr & macc & sm & s1 & Er & Em & Hp & Hv & H1 & [B2 S2 _]); [|done|apply Hi].
    exists sr, macc, sm. do 4 (split; [done|]). split.
    + intros b d. unfold bal. rewrite B2. exact (sh_bal _ _ _ _ H1 b d).
    + intros d. rewrite S2. unfold supply_of. by rewrite (sh_supply _ _ _ _ H1).
  - intros t a amt u s' H.
    apply BurnCoins_inv in H as (acc & s0 & s1 & Ea & Hp & Hv & H1 & [B2 S2 _]); [|apply Hi].
    exists acc, s0. do 3 (split; [done|]). split.
    + intros b d. unfold bal. rewrite B2. pose proof (sh_bal _ _ _ _ H1 b d) as Hb.
      unfold bal, on_addr in Hb. rewrite Hb. case_decide; lia.
    + intros d. rewrite S2. unfold supply_of. rewrite (sh_supply _ _ _ _ H1). lia.
  - intros m amt macc s1 s2 H1 H2 Hp. unfold MintCoins.
    by rewrite (GoM_bind_run _ _ _ _ _ H1), (GoM_bind_run _ _ _ _ _ H2), Hp.
Qed.

Lemma mint_burn_exact_witness :
  supply_of (snd (MintCoins (cfg := default_config) (acfg := acfg_id) keeper0 "mint" coins20 bank0)) "stake"
  = supply_of bank0 "stake" + 20.
Proof.
  destruct (mint_burn_exact (cfg := default_config) (acfg := acfg_id) keeper0 bank0 bank0_inv) as [Hm _].
  destruct (Hm "mint" coins20 tt (snd (MintCoins (cfg := default_config) (acfg := acfg_id) keeper0 "mint" coins20 bank0)))
    as (sr & macc & sm & _ & _ & _ & _ & _ & Hs); [vm_compute; reflexivity|].
  exact (Hs "stake").
Defined.

(** The send message goes through only if every coin is positive and send
    enabled (its own flag, or the default parameter) and the receiver is not a
    blocked address. *)
Theorem Msg_Send_guards {cfg : CoinConfig} {acfg : AddressConfig} (k : BaseKeeper) {HQ : QuietRestrictions k}
    t fromStr toStr amt s u s' :
  Msg_Send k t fromStr toStr amt s = (Ok u, s') →
  ∃ from to toText, StringToBytes fromStr = Ok from ∧ StringToBytes toStr = Ok to ∧
    valid_coins amt ∧ amt ≠ [] ∧
    BytesToString to = Ok toText ∧ (toText ∉ blockedAddrs k) ∧
    (∀ c, c ∈ amt → default (DefaultSendEnabled (default (mkBankParams [] false) (Params s)))
                            (SendEnabled s !! Denom c) = true).
Proof.
  intros H. unfold Msg_Send in H.
  apply GoM_bind_Ok in H as (from & s0 & [Hf ->]%liftM_Ok & H).
  apply GoM_bind_Ok in H as (to & s0 & [Ht ->]%liftM_Ok & H).
  apply GoM_bind_Ok in H as (? & s0 & [Hb ->]%liftM_Ok & H).
  apply GoM_bind_Ok in H as (? & s0 & He & H).
  apply GoM_bind_Ok in H as (bl & s1 & [Hbl ->]%liftM_Ok & H).
  apply GoM_bind_Ok in H as (? & s1 & [Hg%guard_err_Ok ->]%liftM_Ok & H). subst bl.
  unfold BlockedAddr in Hbl. apply outcome_bind_Ok in Hbl as (toText & Htt & [= Hnb%bool_decide_eq_false]).
  apply (proj1 (must_Ok _ _)) in Htt.
  unfold coins_basic in Hb. apply outcome_bind_Ok in Hb as (? & Hv%guard_err_Ok & Hp%guard_err_Ok).
  apply Bool.negb_false_iff in Hv, Hp. apply Coins_IsValid_spec in Hv.
  exists from, to, toText. unfold decode_address in Hf, Ht.
  split; [by destruct (StringToBytes fromStr)|]. split; [by destruct (StringToBytes toStr)|].
  split; [exact Hv|]. split; [intros ->; discriminate Hp|]. split; [exact Htt|]. split; [exact Hnb|].
  by eapply IsSendEnabledCoins_inv.
Qed.

Lemma Msg_Send_guards_witness :
  ∃ from to toText, StringToBytes (AddressConfig := acfg_id) "alice" = Ok from ∧
    StringToBytes (AddressConfig := acfg_id) "bob" = Ok to ∧
    BytesToString (AddressConfig := acfg_id) to = Ok toText ∧ (toText ∉ blockedAddrs keeper0).
Proof.
  destruct (Msg_Send_guards (cfg := default_config) (acfg := acfg_id) keeper0 0 "alice" "bob" coins20 bank0 tt
    (snd (Msg_Send (cfg := default_config) (acfg := acfg_id) keeper0 0 "alice" "bob" coins20 bank0)))
    as (from & to & tx & H1 & H2 & _ & _ & H3 & H4 & _).
  - vm_compute. reflexivity.
  - exists from, to, tx. split; [exact H1|]. split; [exact H2|]. split; [exact H3|exact H4].
Defined.
