(* ===== verification/BankDelegation.v ===== *)
(** * Delegation through the bank: DelegateCoins and UndelegateCoins

    Both always succeed on covered amounts, and undo each other: balances, supply
    and the sum of the two delegation counters of a vesting delegator. *)
From S2P Require Import Prelude MathInt Coin CoinFacts Collections Account Vesting VestingProps AuthKeeper AuthProps Bank BankFacts BankProps.

(** ** Operations on balances leave the accounts alone *)

Definition keeps_auth {A} (m : GoM BankState A) : Prop := ∀ s r s', m s = (r, s') → auth s' = auth s.
Section KeepsAuth.
Context {cfg : CoinConfig} {acfg : AddressConfig}.

Lemma keeps_auth_bind {A B} (m : GoM BankState A) (f : A → GoM BankState B) :
  keeps_auth m → (∀ a, keeps_auth (f a)) → keeps_auth (m ≫= f).
Proof.
  intros Hm Hf s r s'. unfold mbind, GoM_bind. destruct (m s) as [o s1] eqn:E. apply Hm in E.
  destruct o as [a|e|p]; [|by intros [= <- <-]..]. intros H%Hf. congruence.
Qed.
Lemma keeps_auth_ret {A} (a : A) : keeps_auth (mret a).
Proof. by intros s r s' [= <- <-]. Qed.
Lemma keeps_auth_liftM {A} (m : outcome A) : keeps_auth (liftM m).
Proof. by intros s r s' [= <- <-]. Qed.
Lemma keeps_auth_GetAccount a : keeps_auth (on_auth (GetAccount a)).
Proof. intros [] r s' [= <- <-]. done. Qed.
Lemma keeps_auth_EmitKV ty attrs amt : keeps_auth (EmitKV ty attrs amt).
Proof. by intros s r s' [= <- <-]. Qed.
Lemma keeps_auth_GetBalance a d : keeps_auth (GetBalance a d).
Proof. unfold GetBalance. apply keeps_auth_bind; [by intros s r s' [= <- <-]|intros; apply keeps_auth_liftM]. Qed.
Lemma keeps_auth_setBalance a c : keeps_auth (setBalance a c).
Proof.
  intros s r s'. rewrite setBalance_eq. unfold put_bal. repeat case_match; intros [= <- <-]; done.
Qed.
Lemma keeps_auth_forM {A} (f : A → GoM BankState unit) l : (∀ x, keeps_auth (f x)) → keeps_auth (forM_ f l).
Proof. intros Hf. induction l; cbn [forM_]; [apply keeps_auth_ret|by apply keeps_auth_bind]. Qed.
Lemma keeps_auth_foldM {A B} (f : B → A → GoM BankState B) l :
  (∀ b x, keeps_auth (f b x)) → ∀ b, keeps_auth (foldM f b l).
Proof. intros Hf. induction l; intros b; cbn [foldM]; [apply keeps_auth_ret|by apply keeps_auth_bind]. Qed.
End KeepsAuth.
#[export] Hint Resolve keeps_auth_bind keeps_auth_ret keeps_auth_liftM keeps_auth_GetAccount keeps_auth_EmitKV
  keeps_auth_GetBalance keeps_auth_setBalance keeps_auth_forM keeps_auth_foldM : bank.
Ltac keeps_auth_solve :=
  repeat (progress intros || (progress auto with bank) || apply keeps_auth_bind || apply keeps_auth_forM
          || case_match).

Section Delegation.
Context {cfg : CoinConfig} {acfg : AddressConfig}.

Lemma keeps_auth_addCoins a amt : keeps_auth (addCoins a amt).
Proof. unfold addCoins, add_coin. keeps_auth_solve. Qed.
Lemma keeps_auth_subUnlockedCoins t a amt : keeps_auth (subUnlockedCoins t a amt).
Proof. unfold subUnlockedCoins, LockedCoins_of, sub_unlocked_coin. keeps_auth_solve. Qed.
Lemma keeps_auth_delegate_loop a amt b : keeps_auth (foldM (delegate_coin a) b amt).
Proof. apply keeps_auth_foldM. intros. unfold delegate_coin. keeps_auth_solve. Qed.

(** ** The loop of [DelegateCoins] *)

Lemma delegate_coin_eq a bals c s :
  store_ok s → good_coins bals → valid_coin c → int_range (Amount c) → amount bals (Denom c) = 0 →
  Amount c <= bal s a (Denom c) →
  ∃ bals', delegate_coin a bals c s = (Ok bals', put_bal a (Denom c) (bal s a (Denom c) - Amount c) s) ∧
    good_coins bals' ∧ ∀ d, amount bals' d = amount bals d + at_denom (Denom c) (bal s a (Denom c)) d.
Proof.
  intros Hok Hb [Hd Hp] Hr H0 Hle. set (b := bal s a (Denom c)) in *.
  pose proof (bal_range s a (Denom c) Hok) as Hbr. fold b in Hbr.
  assert (good_coins [mkCoin (Denom c) b]) as Hg1.
  { split; [split; [apply Forall_singleton; split; cbn; [done|lia]|apply singleton_sorted]|by apply Forall_singleton]. }
  destruct (Coins_Add_good bals [mkCoin (Denom c) b] Hb Hg1) as (bals' & HA & Hg & M).
  { intros d. cbn. case_decide as E; [subst d; rewrite H0; by rewrite Z.add_0_r|].
    rewrite Z.add_0_r. apply amount_in_range; apply Hb. }
  exists bals'. split; [|split; [done|]].
  - unfold delegate_coin. rewrite (GoM_bind_run _ _ _ _ _ (GetBalance_eq a (Denom c) s Hok Hd)). fold b.
    rewrite (liftM_bind_run _ _ false).
    2:{ unfold Coin_IsLT, same_denom. rewrite str_eq_spec, bool_decide_true by done. cbn. autorewrite with math_int.
        by rewrite (proj2 (Z.ltb_ge _ _)) by lia. }
    rewrite (liftM_bind_run _ _ tt) by done. rewrite (liftM_bind_run _ _ _ _ HA).
    rewrite (liftM_bind_run _ _ (mkCoin (Denom c) (b - Amount c))).
    2:{ apply Coin_Sub_Ok. cbn. split; [done|]. split; [lia|]. split; [unfold int_range in *; lia|done]. }
    rewrite (GoM_bind_run _ _ tt s (put_bal a (Denom c) (b - Amount c) s)); [done|].
    rewrite setBalance_eq, (proj2 (Coin_IsValid_true _)); [done|]. cbn. split; [done|lia].
  - intros d. rewrite M. unfold at_denom. cbn. case_decide; lia.
Qed.

(** The loop succeeds on covered coins and collects the balances of their
    denominations. *)
Lemma delegate_loop_total a amt : ∀ bals s,
  store_ok s → good_coins bals → good_coins amt →
  (∀ c, c ∈ amt → amount bals (Denom c) = 0 ∧ Amount c <= bal s a (Denom c)) →
  ∃ r s', foldM (delegate_coin a) bals amt s = (Ok r, s') ∧ good_coins r ∧
    (∀ d, amount bals d <= amount r d) ∧ ∀ c, c ∈ amt → Amount c <= amount r (Denom c).
Proof.
  induction amt as [|c amt IH]; intros bals s Hok Hb Hg Hc.
  { exists bals, s. split; [done|]. split; [done|]. split; [done|]. by intros c ?%not_elem_of_nil. }
  destruct Hg as [(Hvc & Hlt & Hv)%valid_coins_cons [Hrc Hr]%Forall_cons].
  destruct (Hc c ltac:(left)) as [H0 Hle].
  destruct (delegate_coin_eq a bals c s) as (b1 & H1 & Hg1 & M1); [done..|].
  pose proof (delegate_coin_inv _ _ _ _ _ _ H1) as Hsh.
  assert (∀ c', c' ∈ amt → Denom c ≠ Denom c') as Hne.
  { intros c' Hc'. rewrite Forall_map, Forall_forall in Hlt. by apply slt_ne, Hlt. }
  destruct (IH b1 _ (sh_ok _ _ _ _ Hsh Hok) Hg1 (conj Hv Hr)) as (r & s' & H2 & Hgr & Hmono & Hcov).
  { intros c' Hc'. destruct (Hc c' ltac:(by right)) as [H0' Hle'].
    rewrite M1, (sh_bal _ _ _ _ Hsh). unfold at_denom, at_key.
    specialize (Hne c' Hc'). rewrite decide_False by done. rewrite decide_False by congruence. lia. }
  exists r, s'. cbn [foldM]. rewrite (GoM_bind_run _ _ _ _ _ H1). split; [done|]. split; [done|].
  assert (∀ d, amount bals d <= amount b1 d) as Hm1.
  { intros d. rewrite M1. unfold at_denom. pose proof (bal_nonneg s a (Denom c) Hok). case_decide; lia. }
  split; [intros d; etransitivity; [apply Hm1|apply Hmono]|]. intros c' [->|Hin]%elem_of_cons; [|by apply Hcov].
  etransitivity; [|apply Hmono]. rewrite M1. unfold at_denom. rewrite decide_True by done. lia.
Qed.

(** ** Tracking *)

Definition accounts (s : BankState) : gmap string AccountI := um_map (Accounts (auth s)).
(** A vesting delegator is well formed and its counter has room. *)
Definition delegator_ok (acc : AccountI) (amt : Coins) : Prop :=
  match acc with
  | VestingAcc va => vesting_wf va ∧ ∀ d, int_range (amount (DelegatedFree (va_bva va)) d + amount amt d)
  | _ => True
  end.
(** What the account records as delegated. *)
Definition delegated_by (acc : AccountI) (d : string) : Z :=
  match acc with
  | VestingAcc va => amount (DelegatedFree (va_bva va)) d + amount (DelegatedVesting (va_bva va)) d
  | _ => 0
  end.
Definition is_vesting (acc : AccountI) : Prop := ∃ va, acc = VestingAcc va.

(** [track_account] with a function that succeeds and only changes counters. *)
Lemma track_account_run k a acc f va' s :
  auth_inv (auth s) → accounts s !! a = Some acc →
  (∀ va, acc = VestingAcc va → ∃ b', f va = Ok (set_bva va b') ∧ same_schedule (va_bva va) b' ∧
                                     va' = VestingAcc (set_bva va b')) →
  (¬ is_vesting acc → va' = acc) →
  ∃ s', track_account k a f s = (Ok tt, s') ∧ auth_inv (auth s') ∧ accounts s' = <[a := va']> (accounts s).
Proof.
  intros Hi Ha Hf Hnv. unfold track_account.
  assert (on_auth (GetAccount a) s = (Ok (Some acc), s)) as HG.
  { unfold accounts in Ha. destruct s. unfold on_auth, GetAccount, readM. cbn in *. by rewrite Ha. }
  rewrite (GoM_bind_run _ _ _ _ _ HG).
  assert (¬ is_vesting acc → auth_inv (auth s) ∧ accounts s = <[a := va']> (accounts s)) as Hid.
  { intros H. split; [done|]. rewrite (Hnv H). by rewrite insert_id. }
  destruct acc as [b|mm|va].
  1,2: exists s; split; [done|]; apply Hid; by intros [? ?].
  destruct (Hf va eq_refl) as (b' & Hfv & (Eb & _ & _) & ->).
  rewrite (liftM_bind_run _ _ _ _ Hfv).
  assert (base_of (VestingAcc (set_bva va b')) = base_of (VestingAcc va)) as Ebase.
  { cbn. by rewrite va_bva_set_bva. }
  assert (AccountI_GetAddress (VestingAcc (set_bva va b')) = a) as Eaddr.
  { unfold AccountI_GetAddress. rewrite Ebase. by apply (ai_address _ Hi). }
  assert (AccountI_GetAccountNumber (VestingAcc (set_bva va b')) = AccountI_GetAccountNumber (VestingAcc va)) as En.
  { unfold AccountI_GetAccountNumber. by rewrite Ebase. }
  destruct (SetAccount_replace (VestingAcc (set_bva va b')) (VestingAcc va) (auth s) Hi) as (s' & HS & Hi' & Hm);
    [by rewrite Eaddr|done|].
  unfold on_auth. rewrite HS. eexists. split; [reflexivity|]. split; [done|]. unfold accounts. cbn. by rewrite Hm, Eaddr.
Qed.

(** The amount a delegation adds to the counters. *)
Definition tracked (acc : AccountI) (amt : Coins) (d : string) : Z :=
  match acc with VestingAcc _ => amount amt d | _ => 0 end.
(** The counters of a vesting account are sets of coins. *)
Definition counters_ok (acc : AccountI) : Prop :=
  match acc with VestingAcc va => good_bva (va_bva va) | _ => True end.
(** The counters can give back [amt]. *)
Definition undelegator_ok (acc : AccountI) (amt : Coins) : Prop :=
  match acc with
  | VestingAcc va => good_bva (va_bva va) ∧ ∀ d, amount amt d <= delegated_by acc d
  | _ => True
  end.

Lemma trackDelegation_run k t a acc bals amt s :
  auth_inv (auth s) → accounts s !! a = Some acc → delegator_ok acc amt → good_coins bals → good_coins amt →
  (∀ d, amount amt d <= amount bals d) →
  ∃ acc' s', trackDelegation k t a bals amt s = (Ok tt, s') ∧ auth_inv (auth s') ∧
    accounts s' = <[a := acc']> (accounts s) ∧ undelegator_ok acc' amt ∧
    (is_vesting acc' → is_vesting acc) ∧ (∀ d, tracked acc' amt d = tracked acc amt d) ∧
    ∀ d, delegated_by acc' d = delegated_by acc d + tracked acc amt d.
Proof.
  intros Hi Ha Hd Hb Hg Hle. unfold trackDelegation. destruct acc as [b|mm|va].
  1,2: edestruct track_account_run as (s' & ? & ? & ?); [exact Hi|exact Ha|intros ? [=]|intros _; reflexivity|];
       eexists _, s'; do 6 (split; [done|]); intros d; cbn; lia.
  destruct Hd as [Hwf Hr].
  destruct (TrackDelegation_total va t bals amt) as (vg & b' & _ & _ & HT & Hss & Gb' & _ & Mb'); [done..|].
  destruct (track_account_run k a (VestingAcc va) (λ vacc, TrackDelegation vacc t bals amt)
              (VestingAcc (set_bva va b')) s) as (s' & ? & ? & ?); [done|done| | |].
  { intros va0 [= <-]. by exists b'. }
  { intros []. by exists va. }
  assert (∀ d, delegated_by (VestingAcc (set_bva va b')) d = delegated_by (VestingAcc va) d + amount amt d) as HD.
  { intros d. cbn. rewrite va_bva_set_bva. destruct (Mb' d) as [-> ->]. lia. }
  eexists _, s'. do 3 (split; [done|]). split; [|split; [by eexists|by split]]. split; [by rewrite va_bva_set_bva|].
  intros d. rewrite HD. cbn. pose proof (valid_coins_amount_nonneg _ d (proj1 (wf_free _ Hwf))).
  pose proof (valid_coins_amount_nonneg _ d (proj1 (wf_vesting _ Hwf))). lia.
Qed.
Lemma trackUndelegation_run k a acc amt s :
  auth_inv (auth s) → accounts s !! a = Some acc → counters_ok acc → good_coins amt →
  ∃ acc' s', trackUndelegation k a amt s = (Ok tt, s') ∧ auth_inv (auth s') ∧
    accounts s' = <[a := acc']> (accounts s) ∧ counters_ok acc' ∧
    (undelegator_ok acc amt → ∀ d, delegated_by acc' d = delegated_by acc d - tracked acc amt d).
Proof.
  intros Hi Ha Hd Hg. unfold trackUndelegation. destruct acc as [b|mm|va].
  1,2: edestruct track_account_run as (s' & ? & ? & ?); [exact Hi|exact Ha|intros ? [=]|intros _; reflexivity|];
       eexists _, s'; do 4 (split; [done|]); intros _ d; cbn; lia.
  rename Hd into Gb. destruct (TrackUndelegation_total va amt Gb Hg) as (b' & HT & Hss & Gb' & M).
  destruct (track_account_run k a (VestingAcc va) (λ vacc, TrackUndelegation vacc amt)
              (VestingAcc (set_bva va b')) s) as (s' & ? & ? & ?); [done|done| | |].
  { intros va0 [= <-]. by exists b'. }
  { intros []. by exists va. }
  eexists _, s'. do 3 (split; [done|]). split; [cbn; by rewrite va_bva_set_bva|].
  intros [_ Hle] d. specialize (Hle d). cbn in *. rewrite va_bva_set_bva. destruct (M d) as [-> ->]. destruct Gb as [Gf Gv]. pose proof (valid_coins_amount_nonneg _ d (proj1 Gf)).
  pose proof (valid_coins_amount_nonneg _ d (proj1 Gv)). pose proof (valid_coins_amount_nonneg amt d (proj1 Hg)).
  unfold undeleg_vesting, undeleg_free. lia.
Qed.

(** ** Totality *)

Lemma GetAccount_run a s : on_auth (GetAccount a) s = (Ok (accounts s !! a), s).
Proof. by destruct s. Qed.
(** In a consistent bank an account can always receive what another one gives. *)
Lemma credit_range s a b d x :
  bank_inv s → 0 <= x <= bal s a d → int_range (bal s b d + on_addr a (λ _, - x) b d + x).
Proof.
  intros Hi Hx. pose proof (inv_store _ Hi) as Hok. pose proof (supply_range s d Hi) as Hsr.
  rewrite <- (inv_total _ Hi) in Hsr. pose proof (bal_nonneg s b d Hok). unfold on_addr.
  case_decide as E; [subst b; pose proof (bal_range s a d Hok); unfold int_range in *; lia|].
  pose proof (bal_two_le_total s a b d Hok E). unfold int_range in *. lia.
Qed.

Lemma DelegateCoins_total k t del m amt s acc macc sd sm :
  bank_inv s → auth_inv (auth s) → good_coins amt →
  accounts s !! del = Some acc → delegator_ok acc amt → accounts s !! m = Some macc →
  BytesToString del = Ok sd → BytesToString m = Ok sm → (∀ d, amount amt d <= bal s del d) →
  ∃ s' acc', DelegateCoins k t del m amt s = (Ok tt, s') ∧ auth_inv (auth s') ∧
    accounts s' = <[del := acc']> (accounts s) ∧ undelegator_ok acc' amt ∧
    (is_vesting acc' → is_vesting acc) ∧ (∀ d, tracked acc' amt d = tracked acc amt d) ∧
    ∀ d, delegated_by acc' d = delegated_by acc d + tracked acc amt d.
Proof.
  intros Hi Hai Hg Hacc Hdok Hm Hsd Hsm Hle. pose proof (inv_store _ Hi) as Hok.
  destruct (delegate_loop_total del amt [] s Hok (conj valid_coins_nil (Forall_nil_2 _)) Hg)
    as (bals & s1 & H1 & Gb & _ & Hcov).
  { intros c Hc. split; [done|]. destruct (valid_coins_elem amt c (proj1 Hg) Hc) as (_ & _ & <-). apply Hle. }
  pose proof (delegate_loop_inv _ _ _ _ _ _ H1) as Hsh. pose proof (keeps_auth_delegate_loop _ _ _ _ _ _ H1) as Ha1.
  destruct (trackDelegation_run k t del acc bals amt s1) as (acc' & s2 & H2 & Hai2 & Hacc2 & Hu & Hiv & Ht & HD);
    [by rewrite Ha1|by unfold accounts; rewrite Ha1|done..| |].
  { intros d. destruct (decide (d ∈ map Denom amt)) as [(c & -> & Hc)%list_elem_of_fmap|Hni].
    - destruct (valid_coins_elem amt c (proj1 Hg) Hc) as (_ & _ & ->). by apply Hcov.
    - rewrite amount_not_in by done. apply valid_coins_amount_nonneg, Gb. }
  pose proof (track_account_quiet _ _ _ _ _ _ H2) as Hq.
  set (s3 := with_event (mkEvent "coin_spent" [("spender", sd)] amt) s2).
  assert (shift (on_addr del (λ d, - amount amt d)) (λ d, - amount amt d) s s3) as Hsh3.
  { eapply shift_quiet_r; [exact Hsh|]. exact Hq. }
  destruct (addCoins_total m amt sm s3) as [s4 H4]; [by apply (sh_ok _ _ _ _ Hsh3)|done|done| |].
  { intros d. rewrite (sh_bal _ _ _ _ Hsh3). apply (credit_range s del m d (amount amt d) Hi).
    split; [apply valid_coins_amount_nonneg, Hg|apply Hle]. }
  exists s4, acc'. pose proof (keeps_auth_addCoins _ _ _ _ _ H4) as Ha4. unfold accounts in *. rewrite Ha4.
  change (auth s3) with (auth s2). split; [|by rewrite Hacc2, Ha1]. unfold DelegateCoins. rewrite (GoM_bind_run _ _ _ _ _ (GetAccount_run m s)).
  rewrite (liftM_bind_run _ _ tt) by (unfold accounts; by rewrite Hm).
  rewrite (liftM_bind_run _ _ tt) by (by rewrite (proj2 (Coins_IsValid_spec amt) (proj1 Hg))).
  rewrite (liftM_bind_run _ _ []) by done. rewrite (GoM_bind_run _ _ _ _ _ H1), (GoM_bind_run _ _ _ _ _ H2).
  by rewrite (liftM_bind_run _ _ _ _ Hsd), (GoM_bind_run _ _ tt s2 s3).
Qed.

Lemma UndelegateCoins_total k t m del amt s acc macc sd sm :
  bank_inv s → auth_inv (auth s) → good_coins amt →
  accounts s !! del = Some acc → counters_ok acc → accounts s !! m = Some macc → ¬ is_vesting macc →
  BytesToString del = Ok sd → BytesToString m = Ok sm → (∀ d, amount amt d <= bal s m d) →
  ∃ s' acc', UndelegateCoins k t m del amt s = (Ok tt, s') ∧ auth_inv (auth s') ∧
    accounts s' = <[del := acc']> (accounts s) ∧ counters_ok acc' ∧
    (undelegator_ok acc amt → ∀ d, delegated_by acc' d = delegated_by acc d - tracked acc amt d).
Proof.
  intros Hi Hai Hg Hacc Hdok Hm Hnv Hsd Hsm Hle. pose proof (inv_store _ Hi) as Hok.
  destruct (subUnlockedCoins_total t m amt [] sm s Hok) as [s1 H1]; [exact (conj valid_coins_nil (Forall_nil_2 _))|done| |done| |].
  { unfold LockedCoins_of. rewrite (GoM_bind_run _ _ _ _ _ (GetAccount_run m s)), Hm.
    destruct macc; [done|done|]. exfalso. apply Hnv. by eexists. }
  { intros d _. cbn. rewrite Z.add_0_r. apply Hle. }
  pose proof (subUnlockedCoins_inv _ _ _ _ _ _ H1) as Hsh. pose proof (keeps_auth_subUnlockedCoins _ _ _ _ _ _ H1) as Ha1.
  destruct (trackUndelegation_run k del acc amt s1) as (acc' & s2 & H2 & Hai2 & Hacc2 & Hc2 & HD);
    [by rewrite Ha1|by unfold accounts; rewrite Ha1|done..|].
  pose proof (track_account_quiet _ _ _ _ _ _ H2) as Hq. pose proof (shift_quiet_r _ _ _ _ _ Hsh Hq) as Hsh2.
  destruct (addCoins_total del amt sd s2) as [s4 H4]; [by apply (sh_ok _ _ _ _ Hsh2)|done|done| |].
  { intros d. rewrite (sh_bal _ _ _ _ Hsh2). apply (credit_range s m del d (amount amt d) Hi).
    split; [apply valid_coins_amount_nonneg, Hg|apply Hle]. }
  exists s4, acc'. pose proof (keeps_auth_addCoins _ _ _ _ _ H4) as Ha4. unfold accounts in *. rewrite Ha4.
  split; [|by rewrite Hacc2, Ha1]. unfold UndelegateCoins. rewrite (GoM_bind_run _ _ _ _ _ (GetAccount_run m s)).
  rewrite (liftM_bind_run _ _ tt) by (unfold accounts; by rewrite Hm).
  rewrite (liftM_bind_run _ _ tt) by (by rewrite (proj2 (Coins_IsValid_spec amt) (proj1 Hg))).
  by rewrite (GoM_bind_run _ _ _ _ _ H1), (GoM_bind_run _ _ _ _ _ H2).
Qed.
End Delegation.

(** ** Properties *)

(** C27. Delegating covered coins to an account that is not a vesting account
    always succeeds, also with coins that are still locked, moves exactly the
    amount, and adds it to the sum of the two counters [DelegatedFree] and
    [DelegatedVesting] of a vesting delegator (one that passes [Validate], with
    a schedule shorter than 2^63 seconds and room in its counter).  Undelegating
    it again at any later time always succeeds, gives back every balance and the
    sum of the two counters, and leaves the supply untouched; the split of the sum
    between the counters may differ, see [roundtrip_moves_counters].  Both keep
    the invariants of the bank and of the account keeper. *)
Theorem delegate_undelegate_roundtrip {cfg : CoinConfig} {acfg : AddressConfig} (k : BaseKeeper)
    t1 t2 del m amt s acc macc sd sm :
  bank_inv s → auth_inv (auth s) → good_coins amt →
  accounts s !! del = Some acc → delegator_ok acc amt → accounts s !! m = Some macc → ¬ is_vesting macc →
  BytesToString del = Ok sd → BytesToString m = Ok sm → (∀ d, amount amt d <= bal s del d) →
  ∃ s1 s2 acc1 acc2,
    DelegateCoins k t1 del m amt s = (Ok tt, s1) ∧ UndelegateCoins k t2 m del amt s1 = (Ok tt, s2) ∧
    (bank_inv s1 ∧ auth_inv (auth s1) ∧ bank_inv s2 ∧ auth_inv (auth s2)) ∧
    (∀ a d, bal s1 a d = bal s a d - (if decide (a = del) then amount amt d else 0)
                                   + (if decide (a = m) then amount amt d else 0)) ∧
    (∀ a d, bal s2 a d = bal s a d) ∧ Supply s2 = Supply s ∧
    accounts s1 = <[del := acc1]> (accounts s) ∧ accounts s2 = <[del := acc2]> (accounts s) ∧
    ∀ d, delegated_by acc1 d = delegated_by acc d + tracked acc amt d ∧ delegated_by acc2 d = delegated_by acc d.
Proof.
  intros Hi Hai Hg Hacc Hdok Hm Hnv Hsd Hsm Hle.
  destruct (DelegateCoins_total k t1 del m amt s acc macc sd sm)
    as (s1 & acc1 & H1 & Hai1 & Hacc1 & Hu & Hiv & Ht & HD1); [done..|].
  pose proof (DelegateCoins_inv _ _ _ _ _ _ _ _ H1) as Hsh1. pose proof (bank_inv_shift _ _ _ Hsh1 Hi) as Hi1.
  assert (∀ a d, bal s1 a d = bal s a d - (if decide (a = del) then amount amt d else 0)
                                        + (if decide (a = m) then amount amt d else 0)) as HB1.
  { intros a d. rewrite (sh_bal _ _ _ _ Hsh1). unfold transfer_shift, on_addr. repeat case_decide; congruence || lia. }
  destruct (UndelegateCoins_total k t2 m del amt s1 acc1 (if decide (del = m) then acc1 else macc) sd sm)
    as (s2 & acc2 & H2 & Hai2 & Hacc2 & _ & HD2); [done|done|done|by rewrite Hacc1, lookup_insert_eq|by destruct acc1; [..|apply Hu]|..].
  { rewrite Hacc1. case_decide as E; [by rewrite <- E, lookup_insert_eq|by rewrite lookup_insert_ne]. }
  { case_decide as E; [|done]. subst m. assert (acc = macc) as -> by congruence.
    auto. }
  { done. }
  { done. }
  { intros d. rewrite HB1. specialize (Hle d). pose proof (bal_nonneg s m d (inv_store _ Hi)).
    repeat case_decide; subst; congruence || lia. }
  pose proof (UndelegateCoins_inv _ _ _ _ _ _ _ _ H2) as Hsh2. pose proof (bank_inv_shift _ _ _ Hsh2 Hi1) as Hi2.
  exists s1, s2, acc1, acc2. do 4 (split; [done|]). split; [|split; [|split; [done|split]]].
  - intros a d. rewrite (sh_bal _ _ _ _ Hsh2), HB1. unfold transfer_shift, on_addr. repeat case_decide; congruence || lia.
  - by rewrite (sh_supply _ _ _ _ Hsh2), (sh_supply _ _ _ _ Hsh1).
  - by rewrite Hacc2, Hacc1, insert_insert_eq.
  - intros d. rewrite HD2, HD1, Ht by done. split; [done|lia].
Qed.

(** A vesting delegator with 50 coins, and the staking pool. *)
Definition pool0 : AccountI := ModuleAcc (mkModuleAccount (mkBaseAccount "bonded" None 8 0) "bonded" [Burner; Staking]).
Definition auth1 : AuthState :=
  mkAuthState (mkUniqueMap {["cosmos1" := VestingAcc continuous0; "bonded" := pool0]}
                           {[7 := "cosmos1"; 8 := "bonded"]}) (Some 10) 0.
Definition bank1 : BankState :=
  mkBankState {["stake" := 50]} ∅ ∅
    (mkReversePairMap {[("cosmos1", "stake") := 50]} {[("stake", "cosmos1")]}) (Some DefaultParams) auth1 [].
Lemma auth1_accounts a acc :
  um_map (Accounts auth1) !! a = Some acc ↔
  a = "cosmos1" ∧ acc = VestingAcc continuous0 ∨ a = "bonded" ∧ acc = pool0.
Proof.
  cbn. rewrite lookup_insert_Some, lookup_singleton_Some. split; [naive_solver|].
  intros [[-> ->]|[-> ->]]; [by left|right; done].
Qed.
Lemma auth1_inv : auth_inv (acfg := acfg_id) auth1.
Proof.
  split.
  - intros r pk. setoid_rewrite auth1_accounts. cbn. rewrite lookup_insert_Some, lookup_singleton_Some. split.
    + intros [[<- <-]|[_ [<- <-]]]; eexists; (split; [by auto|reflexivity]).
    + intros (v & [[-> ->]|[-> ->]] & <-); [by left|right; done].
  - intros a acc [[-> ->]|[-> ->]]%auth1_accounts; reflexivity.
  - intros a acc [[-> ->]|[-> ->]]%auth1_accounts; vm_compute; split; congruence.
Qed.
Lemma bank1_inv : bank_inv (cfg := default_config) bank1.
Proof.
  apply (bank_inv_sample bank1 "cosmos1" "stake" 50); done || (unfold int_range; lia).
Qed.
Lemma delegate_undelegate_roundtrip_witness :
  ∃ s1 s2, DelegateCoins (cfg := default_config) (acfg := acfg_id) keeper0 1500 "cosmos1" "bonded" coins20 bank1 = (Ok tt, s1) ∧
    UndelegateCoins (cfg := default_config) (acfg := acfg_id) keeper0 1800 "bonded" "cosmos1" coins20 s1 = (Ok tt, s2) ∧
    bal s1 "bonded" "stake" = 20 ∧ bal s2 "cosmos1" "stake" = 50.
Proof.
  destruct (delegate_undelegate_roundtrip (cfg := default_config) (acfg := acfg_id) keeper0 1500 1800 "cosmos1" "bonded"
              coins20 bank1 (VestingAcc continuous0) pool0 "cosmos1" "bonded" bank1_inv auth1_inv coins20_good)
    as (s1 & s2 & _ & _ & H1 & H2 & _ & B1 & B2 & _).
  - reflexivity.
  - split; [exact continuous0_wf|]. intros d. apply int_range_small. cbn. repeat case_decide; lia.
  - reflexivity.
  - intros [va [=]].
  - reflexivity.
  - reflexivity.
  - intros d. cbn. case_decide as E; [subst d; vm_compute; discriminate|].
    apply (bal_nonneg (cfg := default_config)). exact (inv_store _ bank1_inv).
  - exists s1, s2. split; [exact H1|]. split; [exact H2|]. split; [exact (B1 "bonded" "stake")|exact (B2 "cosmos1" "stake")].
Defined.
