(* ===== verification/BankGenesis.v ===== *)
(** * Bank genesis: x/bank/keeper/genesis.go, x/bank/types/{genesis,balance,metadata}.go

    Validation of a genesis state, of balances and of denomination metadata; the
    import of a genesis state, and the theorem that importing a valid one
    establishes the supply invariant. *)
From S2P Require Import Prelude MathInt Coin CoinFacts Collections Account Vesting AuthKeeper Bank BankFacts BankProps.

Record Balance := mkBalance { b_Address : string; b_Coins : Coins }.

Record GenesisState := mkGenesisState {
  gs_Params : BankParams;
  gs_Balances : list Balance;
  gs_Supply : Coins;
  gs_DenomMetadata : list Metadata;
  gs_SendEnabled : list SendEnabledEntry;
}.

Section GenesisOps.
Context {cfg : CoinConfig} {acfg : AddressConfig}.

Definition GetAllSendEnabled (gs : GenesisState) : list SendEnabledEntry :=
  if (length (p_SendEnabled (gs_Params gs)) =? 0)%nat then gs_SendEnabled gs
  else let known : gset string := list_to_set (map se_Denom (gs_SendEnabled gs)) in
       gs_SendEnabled gs ++
       List.filter (λ se, negb (bool_decide (se_Denom se ∈ known))) (p_SendEnabled (gs_Params gs)).
Definition MigrateSendEnabled (gs : GenesisState) : GenesisState :=
  mkGenesisState (mkBankParams [] (DefaultSendEnabled (gs_Params gs))) (gs_Balances gs) (gs_Supply gs)
    (gs_DenomMetadata gs) (GetAllSendEnabled gs).
Definition NewGenesisState (params : BankParams) (balances : list Balance) (supply : Coins)
    (denomMetaData : list Metadata) (sendEnabled : list SendEnabledEntry) : GenesisState :=
  MigrateSendEnabled (mkGenesisState params balances supply denomMetaData sendEnabled).
Definition DefaultGenesisState : GenesisState := NewGenesisState DefaultParams [] [] [] [].

Definition Balance_Validate (b : Balance) : outcome unit :=
  _ ← AccAddressFromBech32 (b_Address b);
  Coins_Validate (b_Coins b).

(** The loops of [Validate]: entries seen so far, and the running supply. *)
Definition check_genesis_send_enabled (seen : gset string) (p : SendEnabledEntry) : outcome (gset string) :=
  _ ← guard_err (bool_decide (se_Denom p ∈ seen)) "duplicate send enabled found";
  _ ← ValidateDenom (se_Denom p);
  Ok ({[se_Denom p]} ∪ seen).
Definition check_genesis_balance (acc : gset string * Coins) (balance : Balance) : outcome (gset string * Coins) :=
  let '(seen, totalSupply) := acc in
  _ ← guard_err (bool_decide (b_Address balance ∈ seen)) "duplicate balance for address";
  _ ← Balance_Validate balance;
  totalSupply ← Coins_Add totalSupply (b_Coins balance);
  Ok ({[b_Address balance]} ∪ seen, totalSupply).
(** *** Metadata: types/metadata.go *)

Definition check_alias (seenAliases : gset string) (alias : string) : outcome (gset string) :=
  _ ← guard_err (bool_decide (alias ∈ seenAliases)) "duplicate denomination unit alias";
  _ ← guard_err (is_blank alias) "alias for denom unit cannot be blank";
  Ok ({[alias]} ∪ seenAliases).
Definition DenomUnit_Validate (du : DenomUnit) : outcome unit :=
  _ ← ValidateDenom (du_Denom du);
  _ ← foldM check_alias ∅ (Aliases du);
  Ok tt.

(** The loop over the units from the second one on; the result tells whether the
    display denomination was among them. *)
Fixpoint check_units (m : Metadata) (currentExponent : Z) (seenUnits : gset string) (hasDisplay : bool)
    (units : list DenomUnit) : outcome bool :=
  match units with
  | [] => Ok hasDisplay
  | denomUnit :: units' =>
      _ ← guard_err (Exponent denomUnit <=? currentExponent) "denom units should be sorted asc by exponent";
      _ ← guard_err (bool_decide (du_Denom denomUnit ∈ seenUnits)) "duplicate denomination unit";
      let hasDisplay := hasDisplay || str_eq (du_Denom denomUnit) (Display m) in
      _ ← DenomUnit_Validate denomUnit;
      check_units m (Exponent denomUnit) ({[du_Denom denomUnit]} ∪ seenUnits) hasDisplay units'
  end.
Definition Metadata_Validate (m : Metadata) : outcome unit :=
  _ ← guard_err (is_blank (md_Name m)) "name field cannot be blank";
  _ ← guard_err (is_blank (Symbol m)) "symbol field cannot be blank";
  _ ← ValidateDenom (md_Base m);
  _ ← ValidateDenom (Display m);
  hasDisplay ← match DenomUnits m with
               | [] => Ok false
               | denomUnit :: units =>
                   _ ← guard_err (negb (str_eq (du_Denom denomUnit) (md_Base m)))
                         "metadata's first denomination unit must be the one with base denom";
                   _ ← guard_err (negb (Exponent denomUnit =? 0)) "the exponent for base denomination unit must be 0";
                   let hasDisplay := str_eq (du_Denom denomUnit) (Display m) in
                   _ ← DenomUnit_Validate denomUnit;
                   check_units m (Exponent denomUnit) {[du_Denom denomUnit]} hasDisplay units
               end;
  guard_err (negb hasDisplay) "metadata must contain a denomination unit with display denom".

Definition check_genesis_metadata (seen : gset string) (m : Metadata) : outcome (gset string) :=
  _ ← guard_err (bool_decide (md_Base m ∈ seen)) "duplicate client metadata for denom";
  _ ← Metadata_Validate m;
  Ok ({[md_Base m]} ∪ seen).

Definition GenesisState_Validate (gs : GenesisState) : outcome unit :=
  _ ← guard_err ((0 <? length (p_SendEnabled (gs_Params gs)))%nat && (0 <? length (gs_SendEnabled gs))%nat)
        "send_enabled defined in both the send_enabled field and in params (deprecated)";
  _ ← Params_Validate (gs_Params gs);
  _ ← foldM check_genesis_send_enabled ∅ (GetAllSendEnabled gs);
  '(_, totalSupply) ← foldM check_genesis_balance (∅, []) (gs_Balances gs);
  _ ← foldM check_genesis_metadata ∅ (gs_DenomMetadata gs);
  if negb (Coins_Empty (gs_Supply gs))
  then _ ← Coins_Validate (gs_Supply gs);
       guard_err (negb (Coins_Equal (gs_Supply gs) totalSupply)) "genesis supply is incorrect"
  else Ok tt.

(** ** SanitizeGenesisBalances *)

Definition decode_balance (acc : gset string * list (string * Balance)) (b : Balance)
    : outcome (gset string * list (string * Balance)) :=
  let '(seen, decoded) := acc in
  addr ← StringToBytes (b_Address b);
  _ ← guard_panic (bool_decide (addr ∈ seen)) "genesis state has a duplicate account";
  Ok ({[addr]} ∪ seen, decoded ++ [(addr, b)]).
Definition addr_le (x y : string * Balance) : Prop := String.le (fst x) (fst y).
#[global] Instance addr_le_dec x y : Decision (addr_le x y).
Proof. unfold addr_le. apply _. Defined.
Definition SanitizeGenesisBalances (balances : list Balance) : outcome (list Balance) :=
  '(_, decoded) ← foldM decode_balance (∅, []) balances;
  Ok (map snd (merge_sort addr_le decoded)).

(** ** InitGenesis *)

Definition init_coin (addr : string) (coin : Coin) : GoM BankState unit :=
  modifyM (with_Balances (ReversePairMap_Set (addr, Denom coin) (Amount coin))).
Definition init_balance (totalSupplyMap : gmap string Z) (balance : Balance) : GoM BankState (gmap string Z) :=
  bz ← liftM (StringToBytes (b_Address balance));
  _ ← forM_ (init_coin bz) (b_Coins balance);
  liftM (MapCoins_Add totalSupplyMap (b_Coins balance)).
Definition InitGenesis (gs : GenesisState) : GoM BankState unit :=
  _ ← SetParams (gs_Params gs);
  _ ← forM_ (λ se, SetSendEnabled (se_Denom se) (se_Enabled se)) (GetAllSendEnabled gs);
  totalSupplyMap ← liftM (NewMapCoins []);
  balances ← liftM (SanitizeGenesisBalances (gs_Balances gs));
  totalSupplyMap ← foldM init_balance totalSupplyMap balances;
  totalSupply ← liftM (MapCoins_ToCoins totalSupplyMap);
  _ ← liftM (guard_err (negb (Coins_Empty (gs_Supply gs)) && negb (Coins_Equal (gs_Supply gs) totalSupply))
               "genesis supply is incorrect");
  _ ← forM_ setSupply totalSupply;
  forM_ SetDenomMetaData (gs_DenomMetadata gs).
End GenesisOps.

(** ** Metadata validation *)

Section MetadataFacts.
Context {cfg : CoinConfig}.

Definition valid_unit (du : DenomUnit) : Prop :=
  denom_valid (du_Denom du) = true ∧ NoDup (Aliases du) ∧ Forall (λ a, is_blank a = false) (Aliases du).

(** The documented conditions on metadata. *)
Definition valid_metadata (m : Metadata) : Prop :=
  is_blank (md_Name m) = false ∧ is_blank (Symbol m) = false ∧
  denom_valid (md_Base m) = true ∧ denom_valid (Display m) = true ∧
  Forall valid_unit (DenomUnits m) ∧
  head (map du_Denom (DenomUnits m)) = Some (md_Base m) ∧
  head (map Exponent (DenomUnits m)) = Some 0 ∧
  StronglySorted Z.lt (map Exponent (DenomUnits m)) ∧
  NoDup (map du_Denom (DenomUnits m)) ∧ Display m ∈ map du_Denom (DenomUnits m).

Lemma check_aliases_Ok l : ∀ (seen seen' : gset string),
  foldM check_alias seen l = Ok seen' →
  NoDup l ∧ Forall (λ a, is_blank a = false) l ∧ ∀ x, x ∈ l → x ∉ seen.
Proof.
  induction l as [|a l IH]; intros seen seen' H; cbn [foldM] in H.
  - split; [constructor|]. split; [constructor|]. by intros x ?%not_elem_of_nil.
  - apply outcome_bind_Ok in H as (s1 & H1 & (Hn & Hb & Hx)%IH). unfold check_alias in H1. go_inv.
    match goal with E : bool_decide _ = false |- _ => apply bool_decide_eq_false in E as Ha end.
    split; [constructor; [|done]|split; [by constructor|]].
    + intros Hin. apply (Hx a Hin). set_solver.
    + intros y [->|Hin]%elem_of_cons; [done|]. specialize (Hx y Hin). set_solver.
Qed.
Lemma check_aliases_total l : ∀ (seen : gset string),
  NoDup l → Forall (λ a, is_blank a = false) l → (∀ x, x ∈ l → x ∉ seen) →
  ∃ seen', foldM check_alias seen l = Ok seen'.
Proof.
  induction l as [|a l IH]; intros seen Hn Hb Hx; [by eexists|].
  apply NoDup_cons in Hn as [Hni Hn]. apply Forall_cons in Hb as [Hba Hb].
  destruct (IH ({[a]} ∪ seen) Hn Hb) as [seen' Hs].
  { intros x Hin. assert (x ≠ a) by (intros ->; done). pose proof (Hx x ltac:(by right)). set_solver. }
  exists seen'. cbn [foldM]. assert (check_alias seen a = Ok ({[a]} ∪ seen)) as ->; [|done].
  unfold check_alias. rewrite bool_decide_false by (apply Hx; by left). cbn. by rewrite Hba.
Qed.
Lemma DenomUnit_Validate_Ok du : DenomUnit_Validate du = Ok tt ↔ valid_unit du.
Proof.
  unfold DenomUnit_Validate, valid_unit. split.
  - intros H. apply outcome_bind_Ok in H as ([] & Hd%ValidateDenom_Ok & H).
    apply outcome_bind_Ok in H as (seen' & (Hn & Hb & _)%check_aliases_Ok & _). done.
  - intros (Hd & Hn & Hb). unfold ValidateDenom. rewrite Hd. cbn.
    destruct (check_aliases_total (Aliases du) ∅ Hn Hb) as [seen' ->]; [set_solver|done].
Qed.

Lemma bool_decide_elem_cons (x y : string) l :
  bool_decide (x ∈ y :: l) = bool_decide (y = x) || bool_decide (x ∈ l).
Proof.
  apply Bool.eq_iff_eq_true. rewrite Bool.orb_true_iff, !bool_decide_eq_true, elem_of_cons. naive_solver.
Qed.

Lemma check_units_Ok m us : ∀ e (seen : gset string) h r,
  check_units m e seen h us = Ok r ↔
  (Forall valid_unit us ∧ StronglySorted Z.lt (e :: map Exponent us) ∧ NoDup (map du_Denom us) ∧
   (∀ u, u ∈ us → du_Denom u ∉ seen)) ∧ r = h || bool_decide (Display m ∈ map du_Denom us).
Proof.
  induction us as [|u us IH]; intros e seen h r; cbn [check_units map].
  - rewrite Bool.orb_false_r. split; [intros [= <-]|intros [_ ->]; done].
    split; [|done]. split; [constructor|]. split; [repeat constructor|]. split; [constructor|].
    by intros u ?%not_elem_of_nil.
  - rewrite Forall_cons, NoDup_cons, StronglySorted_cons, Forall_cons. split.
    + intros H. apply outcome_bind_Ok in H as (? & He%guard_err_Ok & H).
      apply outcome_bind_Ok in H as (? & Hs%guard_err_Ok & H). cbn zeta in H.
      apply outcome_bind_Ok in H as ([] & Hu%DenomUnit_Validate_Ok & H).
      apply IH in H as [(Hus & Hso & Hnd & Hseen) ->]. apply bool_decide_eq_false in Hs.
      split; [split; [done|]|].
      * split; [split; [|done]|].
        { split; [lia|]. apply StronglySorted_cons in Hso as [Hall _]. eapply Forall_impl; [exact Hall|].
          intros y Hy. cbn in Hy. lia. }
        split; [split; [|done]|].
        { intros (u' & Hd & Hin)%list_elem_of_fmap. apply (Hseen u' Hin). rewrite <- Hd. set_solver. }
        intros u' [->|Hin]%elem_of_cons; [done|]. specialize (Hseen u' Hin). set_solver.
      * by rewrite str_eq_spec, <- Bool.orb_assoc, bool_decide_elem_cons.
    + intros [((Hu & Hus) & [[He _] Hso] & [Hni Hnd] & Hseen) ->].
      rewrite (proj2 (Z.leb_gt _ _)) by lia. cbn.
      rewrite bool_decide_false by (apply Hseen; by left). cbn.
      rewrite (proj2 (DenomUnit_Validate_Ok u) Hu). cbn. apply IH. split; [split; [done|]|].
      * split; [done|]. split; [done|]. intros u' Hin. pose proof (Hseen u' ltac:(by right)).
        assert (du_Denom u' ≠ du_Denom u).
        { intros E. apply Hni. rewrite <- E. by apply list_elem_of_fmap_2. }
        set_solver.
      * by rewrite str_eq_spec, <- Bool.orb_assoc, bool_decide_elem_cons.
Qed.

Lemma Metadata_Validate_iff m : Metadata_Validate m = Ok tt ↔ valid_metadata m.
Proof.
  unfold Metadata_Validate, valid_metadata, ValidateDenom.
  destruct (is_blank (md_Name m)); [split; [done|intros; destruct_and!; done]|]. cbn. destruct (is_blank (Symbol m)); [split; [done|intros; destruct_and!; done]|]. cbn.
  destruct (denom_valid (md_Base m)); [|split; [done|intros; destruct_and!; done]]. cbn. destruct (denom_valid (Display m)); [|split; [done|intros; destruct_and!; done]]. cbn.
  destruct (DenomUnits m) as [|u us]; cbn; [split; [done|intros; destruct_and!; congruence]|].
  rewrite (str_eq_spec (du_Denom u) (md_Base m)). case_bool_decide as Hb; cbn; [|split; [done|intros; destruct_and!; congruence]].
  destruct (Z.eqb_spec (Exponent u) 0) as [He|He]; cbn; [|split; [done|intros; destruct_and!; congruence]].
  rewrite outcome_bind_Ok, NoDup_cons, Forall_cons. split.
  - intros (h & H & Hh%guard_err_Ok). apply outcome_bind_Ok in H as ([] & Hu%DenomUnit_Validate_Ok & H).
    apply check_units_Ok in H as [(Hus & Hso & Hnd & Hseen) ->]. rewrite str_eq_spec in Hh.
    do 4 (split; [done|]). split; [done|]. split; [by rewrite Hb|]. split; [by rewrite He|]. split; [done|].
    split; [split; [|done]|].
    + intros (u' & Hd & Hin)%list_elem_of_fmap. apply (Hseen u' Hin). rewrite <- Hd. set_solver.
    + apply elem_of_cons. apply Bool.negb_false_iff, Bool.orb_true_iff in Hh as [Hh|Hh]; apply bool_decide_eq_true in Hh; auto.
  - intros (_ & _ & _ & _ & [Hu Hus] & _ & _ & Hso & [Hni Hnd] & Hdisp).
    eexists. split.
    + rewrite (proj2 (DenomUnit_Validate_Ok u) Hu). cbn. apply check_units_Ok. split; [split; [done|]|reflexivity].
      split; [done|]. split; [done|]. intros u' Hin Hd%elem_of_singleton. apply Hni. rewrite <- Hd.
      by apply list_elem_of_fmap_2.
    + apply guard_err_Ok, Bool.negb_false_iff. rewrite str_eq_spec. apply Bool.orb_true_iff.
      apply elem_of_cons in Hdisp as [Hd|Hd]; [left|right]; by apply bool_decide_eq_true.
Qed.
End MetadataFacts.

(** ** Importing a genesis state *)

Section InitFacts.
Context {cfg : CoinConfig} {acfg : AddressConfig}.

Definition map_amt (m : gmap string Z) (d : string) : Z := default 0 (m !! d).
Definition supply_map_ok (m : gmap string Z) : Prop :=
  map_Forall (λ d v, 0 < v ∧ int_range v ∧ denom_valid d = true) m.

Lemma MapCoins_Add_Ok cs : ∀ m m',
  supply_map_ok m → Forall valid_coin cs → in_int_range cs → MapCoins_Add m cs = Ok m' →
  supply_map_ok m' ∧ ∀ d, map_amt m' d = map_amt m d + amount cs d.
Proof.
  unfold MapCoins_Add. induction cs as [|c cs IH]; intros m m' Hm Hv Hr H; cbn [foldM] in H.
  { injection H as <-. split; [done|]. intros d. cbn. lia. }
  apply Forall_cons in Hv as [[Hd Hp] Hv]. apply Forall_cons in Hr as [Hrc Hr].
  apply outcome_bind_Ok in H as (m1 & H1 & H).
  assert (supply_map_ok m1 ∧ ∀ d, map_amt m1 d = map_amt m d + at_denom (Denom c) (Amount c) d) as [Hm1 M1].
  { unfold MapCoins_add1 in H1. unfold map_amt, at_denom. destruct (m !! Denom c) as [v|] eqn:E.
    - apply outcome_bind_Ok in H1 as (a & [-> Ha]%Int_Add_Ok & [= <-]). apply Hm in E as Hv'. destruct Hv' as [Hv0 _].
      split; [apply map_Forall_insert_2; [split; [lia|done]|done]|]. intros d. case_decide as Hdd.
      + subst d. rewrite lookup_insert_eq, E. done.
      + rewrite lookup_insert_ne by done. lia.
    - injection H1 as <-. split; [by apply map_Forall_insert_2|]. intros d. case_decide as Hdd.
      + subst d. rewrite lookup_insert_eq, E. done.
      + rewrite lookup_insert_ne by done. lia. }
  destruct (IH m1 m' Hm1 Hv Hr H) as [Hm' M']. split; [done|].
  intros d. rewrite M', M1. unfold at_denom. cbn. case_decide; lia.
Qed.

Lemma ToCoins_fold_Ok l : ∀ acc r,
  foldM (λ acc '(denom, amount), if Int_IsZero amount then Ok acc
                                 else c ← NewCoin denom amount; Ok (acc ++ [c])) acc l = Ok r →
  Forall (λ x, 0 < x.2) l → r = acc ++ map (λ x, mkCoin x.1 x.2) l.
Proof.
  induction l as [|[d a] l IH]; intros acc r H Hp; cbn [foldM] in H.
  { injection H as <-. by rewrite app_nil_r. }
  apply Forall_cons in Hp as [Ha Hp]. cbn in Ha. rewrite Int_IsZero_eqb in H.
  rewrite (proj2 (Z.eqb_neq a 0)) in H by lia.
  apply outcome_bind_Ok in H as (acc' & H1 & H). apply outcome_bind_Ok in H1 as (c & (-> & _)%NewCoin_inv & [= <-]).
  apply IH in H; [|done]. rewrite H. cbn. by rewrite <- app_assoc.
Qed.

Lemma amount_map_entries (m : gmap string Z) d :
  amount (map (λ x, mkCoin x.1 x.2) (map_to_list m)) d = map_amt m d.
Proof.
  set (l := map (λ x, mkCoin x.1 x.2) (map_to_list m)).
  assert (NoDup (map Denom l)) as Hn by (unfold l; rewrite map_map; apply NoDup_fst_map_to_list).
  unfold map_amt. destruct (m !! d) as [v|] eqn:E; cbn.
  - change d with (Denom (mkCoin d v)). apply amount_elem; [done|]. unfold l.
    apply list_elem_of_fmap. exists (d, v). split; [done|]. by apply elem_of_map_to_list.
  - apply amount_not_in. unfold l. rewrite map_map. intros (x & -> & Hx)%list_elem_of_fmap.
    destruct x as [d' v']. apply elem_of_map_to_list in Hx. cbn in *. congruence.
Qed.

Lemma MapCoins_ToCoins_Ok m r :
  supply_map_ok m → MapCoins_ToCoins m = Ok r →
  (∀ d, amount r d = map_amt m d) ∧ NoDup (map Denom r) ∧
  Forall (λ c, 0 < Amount c ∧ int_range (Amount c) ∧ denom_valid (Denom c) = true) r.
Proof.
  intros Hm H. unfold MapCoins_ToCoins in H.
  assert (r ≡ₚ map (λ x, mkCoin x.1 x.2) (map_to_list m)) as Hp.
  { destruct (Nat.eqb_spec (size m) 0) as [Hz|Hz].
    - injection H as <-. apply map_size_empty_inv in Hz as ->. by rewrite map_to_list_empty.
    - apply outcome_bind_Ok in H as (cs & Hcs & H). apply ToCoins_fold_Ok in Hcs.
      + cbn in Hcs. subst cs. case_match; injection H as <-; [|apply Coins_Sort_perm].
        match goal with E : (_ =? _)%nat = true |- _ => apply Nat.eqb_eq, nil_length_inv in E; by rewrite E end.
      + apply Forall_forall. intros [d v] Hin%elem_of_map_to_list. cbn. by apply Hm in Hin as [? _]. }
  split; [|split].
  - intros d. rewrite (amount_perm_eq _ _ d Hp). apply amount_map_entries.
  - rewrite (fmap_Permutation Denom _ _ Hp). rewrite map_map. apply NoDup_fst_map_to_list.
  - rewrite Hp, Forall_map. apply Forall_forall. intros [d v] Hin%elem_of_map_to_list. cbn. by apply Hm in Hin.
Qed.

Lemma init_coins_shift a cs : ∀ s r s',
  Forall valid_coin cs → in_int_range cs → NoDup (map Denom cs) → (∀ c, c ∈ cs → bal s a (Denom c) = 0) →
  forM_ (init_coin a) cs s = (Ok r, s') →
  shift (on_addr a (amount cs)) (amount cs) s s'.
Proof.
  induction cs as [|c cs IH]; intros s r s' Hv Hr Hn Hz H; cbn [forM_] in H.
  - injection H as <- <-. eapply shift_ext; [| |apply quiet_shift; reflexivity]; intros; cbn; unfold on_addr;
      try case_decide; done.
  - apply Forall_cons in Hv as [[Hd Hp] Hv]. apply Forall_cons in Hr as [Hrc Hr].
    cbn in Hn. apply NoDup_cons in Hn as [Hni Hn].
    apply GoM_bind_Ok in H as (u & s1 & [= <- <-] & H).
    pose proof (put_bal_shift a (Denom c) (Amount c) s ltac:(lia) Hrc Hd) as Hsh.
    unfold put_bal in Hsh. rewrite (proj2 (Z.eqb_neq _ _)) in Hsh by lia.
    rewrite (Hz c) in Hsh by (by left). rewrite Z.sub_0_r in Hsh.
    apply IH in H; [|done..|].
    + eapply shift_ext; [| |exact (shift_trans _ _ _ _ _ _ _ Hsh H)]; intros; cbn; unfold at_key, at_denom, on_addr;
        repeat case_decide; simplify_eq; lia.
    + intros c' Hc'. rewrite (sh_bal _ _ _ _ Hsh), (Hz c') by (by right). unfold at_key.
      rewrite decide_False; [done|]. intros [= E]. apply Hni. rewrite E. by apply list_elem_of_fmap_2.
Qed.

(** Decoding the addresses: same balances, distinct addresses. *)
Lemma decode_balances_Ok bs : ∀ (seen seen' : gset string) acc acc',
  foldM decode_balance (seen, acc) bs = Ok (seen', acc') →
  ∃ new, acc' = acc ++ new ∧ map snd new = bs ∧ NoDup (map fst new) ∧
    (∀ a, a ∈ map fst new → a ∉ seen) ∧ Forall (λ x, StringToBytes (b_Address x.2) = Ok x.1) new.
Proof.
  induction bs as [|b bs IH]; intros seen seen' acc acc' H; cbn [foldM] in H.
  { injection H as <- <-. exists []. rewrite app_nil_r. split; [done|]. split; [done|]. split; [constructor|].
    split; [by intros a ?%not_elem_of_nil|constructor]. }
  apply outcome_bind_Ok in H as ([seen1 acc1] & H1 & H). cbn [decode_balance] in H1.
  apply outcome_bind_Ok in H1 as (addr & Ha & H1). apply outcome_bind_Ok in H1 as (? & Hs%guard_panic_Ok & [= <- <-]).
  apply bool_decide_eq_false in Hs.
  apply IH in H as (new & -> & Hsnd & Hnd & Hni & Hall). exists ((addr, b) :: new).
  split; [by rewrite <- app_assoc|]. cbn. split; [by rewrite Hsnd|].
  split; [constructor; [|done]|split; [|by constructor]].
  - intros Hin. apply (Hni addr Hin). set_solver.
  - intros a [->|Hin]%elem_of_cons; [done|]. specialize (Hni a Hin). set_solver.
Qed.
Lemma SanitizeGenesisBalances_Ok bs bs' :
  SanitizeGenesisBalances bs = Ok bs' →
  bs' ≡ₚ bs ∧ ∃ l, bs' = map snd l ∧ NoDup (map fst l) ∧
    Forall (λ x, StringToBytes (b_Address x.2) = Ok x.1) l.
Proof.
  intros H. unfold SanitizeGenesisBalances in H. apply outcome_bind_Ok in H as ([seen dec] & H1 & [= <-]).
  apply decode_balances_Ok in H1 as (new & -> & <- & Hnd & _ & Hall). cbn [app].
  pose proof (merge_sort_Permutation addr_le new) as Hp.
  split; [by rewrite Hp|]. exists (merge_sort addr_le new). split; [done|].
  split; [by rewrite (fmap_Permutation fst _ _ Hp)|by rewrite Hp].
Qed.

Lemma init_balances_Ok l : ∀ m m' s s',
  NoDup (map fst l) → Forall (λ x, StringToBytes (b_Address x.2) = Ok x.1) l →
  Forall (λ x, good_coins (b_Coins x.2)) l → supply_map_ok m → store_ok s →
  (∀ a d, a ∈ map fst l → bal s a d = 0) → (∀ d, total s d = map_amt m d) →
  foldM init_balance m (map snd l) s = (Ok m', s') →
  supply_map_ok m' ∧ store_ok s' ∧ (∀ d, total s' d = map_amt m' d) ∧ Supply s' = Supply s.
Proof.
  induction l as [|[a b] l IH]; intros m m' s s' Hn Hdec Hg Hm Hok Hz Ht H; cbn [foldM map] in H.
  { injection H as <- <-. done. }
  cbn in Hn. apply NoDup_cons in Hn as [Hni Hn].
  apply Forall_cons in Hdec as [Ha Hdec]. apply Forall_cons in Hg as [Hgb Hg]. cbn in Ha, Hgb.
  apply GoM_bind_Ok in H as (m1 & s1 & H1 & H). unfold init_balance in H1. cbn [snd] in H1.
  apply GoM_bind_Ok in H1 as (bz & s0 & [Hbz ->]%liftM_Ok & H1). rewrite Ha in Hbz. injection Hbz as <-.
  apply GoM_bind_Ok in H1 as (? & s0 & Hin & [Hadd ->]%liftM_Ok).
  apply init_coins_shift in Hin as Hsh; [|apply Hgb|apply Hgb|apply denoms_sorted_nodup, Hgb|].
  2: { intros c _. apply Hz. by left. }
  apply MapCoins_Add_Ok in Hadd as [Hm1 M1]; [|done|apply Hgb|apply Hgb].
  destruct (IH m1 m' s0 s' Hn Hdec Hg Hm1) as (Hm' & Hok' & Ht' & HS); [by apply (sh_ok _ _ _ _ Hsh)| | |done|].
  - intros a' d Ha'. rewrite (sh_bal _ _ _ _ Hsh), Hz by (by right). unfold on_addr.
    rewrite decide_False; [done|]. by intros ->.
  - intros d. by rewrite (sh_total _ _ _ _ Hsh), Ht, M1.
  - split; [done|]. split; [done|]. split; [done|]. by rewrite HS, (sh_supply _ _ _ _ Hsh).
Qed.

(** Recording the supply from scratch. *)
Lemma set_supplies_Ok cs : ∀ s r s',
  Forall (λ c, 0 < Amount c ∧ int_range (Amount c) ∧ denom_valid (Denom c) = true) cs → NoDup (map Denom cs) →
  supply_ok s → (∀ c, c ∈ cs → supply_of s (Denom c) = 0) →
  forM_ setSupply cs s = (Ok r, s') →
  Balances s' = Balances s ∧ supply_ok s' ∧ ∀ d, supply_of s' d = supply_of s d + amount cs d.
Proof.
  induction cs as [|c cs IH]; intros s r s' Hv Hn Hok Hz H; cbn [forM_] in H.
  { injection H as <- <-. split; [done|]. split; [done|]. intros d. cbn. lia. }
  apply Forall_cons in Hv as [(Hp & Hr & Hd) Hv]. cbn in Hn. apply NoDup_cons in Hn as [Hni Hn].
  apply GoM_bind_Ok in H as (u & s1 & H1 & H). destruct c as [d x]. cbn [Denom Amount] in *.
  apply setSupply_shift in H1 as [B1 S1 O1]; [|lia|done|done].
  pose proof (Hz (mkCoin d x) ltac:(by left)) as Hzd. cbn in Hzd. rewrite Hzd, Z.sub_0_r in S1.
  apply IH in H as (B2 & O2 & S2); [|done|done|by apply O1|].
  - split; [congruence|]. split; [done|]. intros d'. rewrite S2, S1. unfold at_denom. cbn. case_decide; lia.
  - intros c' Hc'. rewrite S1, (Hz c') by (by right). unfold at_denom. rewrite decide_False; [done|].
    intros ->. apply Hni. by apply list_elem_of_fmap_2.
Qed.
End InitFacts.

Section Genesis.
Context {cfg : CoinConfig} {acfg : AddressConfig}.

Lemma check_balances_valid bs : ∀ acc acc',
  foldM check_genesis_balance acc bs = Ok acc' → Forall (λ b, valid_coins (b_Coins b)) bs.
Proof.
  induction bs as [|b bs IH]; intros acc acc' H; cbn [foldM] in H; [constructor|].
  apply outcome_bind_Ok in H as (acc1 & H1 & H). constructor; [|by eapply IH].
  destruct acc as [seen tot]. cbn [check_genesis_balance] in H1.
  apply outcome_bind_Ok in H1 as (? & _ & H1). apply outcome_bind_Ok in H1 as (? & Hb & _).
  unfold Balance_Validate in Hb. apply outcome_bind_Ok in Hb as (? & _ & Hb). by apply Coins_Validate_Ok in Hb.
Qed.

Lemma GenesisState_balances_valid gs u :
  GenesisState_Validate gs = Ok u → Forall (λ b, valid_coins (b_Coins b)) (gs_Balances gs).
Proof.
  intros H. unfold GenesisState_Validate in H. apply outcome_bind_Ok in H as (? & _ & H).
  apply outcome_bind_Ok in H as (? & _ & H). apply outcome_bind_Ok in H as (? & _ & H).
  apply outcome_bind_Ok in H as (acc & Hb & _). by eapply check_balances_valid.
Qed.

Definition empty_bank (s : BankState) : Prop := Balances s = mkReversePairMap ∅ ∅ ∧ Supply s = ∅.
Lemma empty_bank_ok s : empty_bank s → store_ok s ∧ supply_ok s ∧ (∀ d, total s d = 0) ∧
  (∀ a d, bal s a d = 0) ∧ ∀ d, supply_of s d = 0.
Proof.
  intros [HB HS]. unfold total, bal, supply_of, supply_ok. rewrite HB, HS. split; [|split; [|split; [|done]]].
  - split; rewrite HB; [apply map_Forall_empty|]. intros k1 k2. cbn. rewrite lookup_empty. split; [set_solver|].
    by intros [? ?].
  - apply map_Forall_empty.
  - intros d. apply total_map_empty.
Qed.
End Genesis.

(** C33. Importing a valid genesis state into an empty bank establishes the
    supply invariant: the supply recorded for each denomination is the sum of
    the imported balances, and it is the supply the genesis file states, when it
    states one. *)
Theorem InitGenesis_establishes_invariant {cfg : CoinConfig} {acfg : AddressConfig} gs s u s' :
  GenesisState_Validate gs = Ok tt → Forall (λ b, in_int_range (b_Coins b)) (gs_Balances gs) →
  empty_bank s → InitGenesis gs s = (Ok u, s') →
  bank_inv s' ∧ (gs_Supply gs ≠ [] → ∀ d, supply_of s' d = amount (gs_Supply gs) d).
Proof.
  intros Hval Hr [Hok0 [Hsok0 [Ht0 [Hb0 Hs0]]]]%empty_bank_ok H. unfold InitGenesis in H.
  apply GoM_bind_Ok in H as (? & s1 & H1 & H).
  apply GoM_bind_Ok in H as (? & s2 & H2 & H).
  assert (quiet s s2) as Hq.
  { transitivity s1; [eapply (ltac:(unfold SetParams; quiet_solve) : quietM (SetParams (gs_Params gs))); exact H1|].
    eapply (quietM_forM (λ se, SetSendEnabled (se_Denom se) (se_Enabled se))); [|exact H2].
    intros se. apply quietM_SetSendEnabled. }
  apply GoM_bind_Ok in H as (m0 & s3 & [[= <-] ->]%liftM_Ok & H).
  apply GoM_bind_Ok in H as (bs & s3 & [(Hperm & l & -> & Hnd & Hdec)%SanitizeGenesisBalances_Ok ->]%liftM_Ok & H).
  apply GoM_bind_Ok in H as (m & s3 & H3 & H).
  pose proof (quiet_shift _ _ Hq) as [Qb Qt QS Qok].
  apply init_balances_Ok in H3 as (Hm & Hok3 & Ht3 & HS3); [|done|done| | |by apply Qok| |].
  2: { apply GenesisState_balances_valid in Hval. rewrite <- Hperm in Hval, Hr. rewrite Forall_map in Hval, Hr.
       apply Forall_forall. intros y Hy. rewrite Forall_forall in Hval, Hr. split; [by apply Hval|by apply Hr]. }
  2: apply map_Forall_empty.
  2: { intros a d _. rewrite Qb, Hb0. done. }
  2: { intros d. rewrite Qt, Ht0. done. }
  apply GoM_bind_Ok in H as (tot & s4 & [Htot ->]%liftM_Ok & H).
  apply MapCoins_ToCoins_Ok in Htot as (Mt & Nt & Vt); [|done].
  apply GoM_bind_Ok in H as (? & s4 & [Hsup%guard_err_Ok ->]%liftM_Ok & H).
  apply GoM_bind_Ok in H as (? & s4 & H4 & H).
  apply set_supplies_Ok in H4 as (B4 & O4 & S4); [|done|done| |].
  2: { unfold supply_ok. by rewrite HS3, QS. }
  2: { intros c _. unfold supply_of. rewrite HS3, QS. apply Hs0. }
  assert (∀ d, supply_of s4 d = amount tot d) as Hs4.
  { intros d. rewrite S4. unfold supply_of. rewrite HS3, QS. fold (supply_of s (d)). by rewrite Hs0. }
  apply (quietM_forM SetDenomMetaData) in H; [|intros md; apply quietM_with_DenomMetadata].
  assert (bank_inv s4) as Hi4.
  { split; [destruct Hok3 as [K1 K2]; split; by rewrite B4| |done].
    intros d. unfold total. rewrite B4. fold (total s3 d). by rewrite Ht3, Hs4, Mt. }
  split; [by eapply bank_inv_quiet|]. intros Hne d. destruct H as [_ HS].
  unfold supply_of. rewrite HS. fold (supply_of s4 d). rewrite Hs4.
  destruct (gs_Supply gs) as [|c cs] eqn:Es; [done|]. cbn [Coins_Empty length Nat.eqb negb andb] in Hsup.
  apply Bool.negb_false_iff, (Coins_Equal_amount _ _ d) in Hsup. by rewrite Hsup.
Qed.

Definition genesis0 : GenesisState :=
  mkGenesisState DefaultParams
    [mkBalance "bob" [mkCoin "stake" 5; mkCoin "uatom" 8]; mkBalance "alice" [mkCoin "stake" 37]]
    [mkCoin "stake" 42; mkCoin "uatom" 8] [] [].
Definition bank_empty : BankState :=
  mkBankState ∅ ∅ ∅ (mkReversePairMap ∅ ∅) None (mkAuthState (mkUniqueMap ∅ ∅) None 0) [].
Lemma InitGenesis_establishes_invariant_witness :
  bank_inv (cfg := default_config) (snd (InitGenesis (cfg := default_config) (acfg := acfg_id) genesis0 bank_empty)).
Proof.
  apply (InitGenesis_establishes_invariant (cfg := default_config) (acfg := acfg_id) genesis0 bank_empty tt).
  - vm_compute. reflexivity.
  - repeat constructor; unfold int_range; cbn; lia.
  - split; reflexivity.
  - vm_compute. reflexivity.
Defined.

(** [Metadata.Validate] accepts exactly the metadata its comment describes:
    name and symbol not blank, valid base and display denominations, the base as
    first unit with exponent zero, units strictly ascending and not duplicated,
    the display denomination among them, and every unit with a valid denomination
    and distinct aliases that are not blank. *)
Theorem Metadata_Validate_correct {cfg : CoinConfig} m : Metadata_Validate m = Ok tt ↔ valid_metadata m.
Proof. apply Metadata_Validate_iff. Qed.
