(* ===== verification/KVStore.v ===== *)
(** * The key-value store interface: store/types, store/db/utils.go

    The stores of the SDK are stacked: a gas-metering store over a cache over a
    committed store.  They meet at the interfaces [KVStore] and [Iterator].  The
    interfaces are classes here; [KVStoreLaws] states what a store promises to
    the store above it in terms of the finite map it represents.  A byte slice
    that may be nil is an [option string]. *)
From S2P Require Import Prelude.

(** ** Validity of keys and values: types/validity.go *)

Definition MaxKeyLength : Z := Z.shiftl 1 17 - 1.
Definition MaxValueLength : Z := Z.shiftl 1 31 - 1.
Definition str_len (s : string) : Z := Z.of_nat (String.length s).

(** A nil key and an empty one are treated alike. *)
Definition AssertValidKey (key : string) : outcome unit :=
  _ ← guard_panic (str_len key =? 0) "key is nil or empty";
  guard_panic (MaxKeyLength <? str_len key) "key is too large".
Definition AssertValidValue (value : option string) : outcome unit :=
  match value with
  | None => Panic "value is nil"
  | Some v => guard_panic (MaxValueLength <? str_len v) "value is too large"
  end.

(** ** Domains: db/utils.go *)

Definition IsKeyInDomain (key : string) (start end_ : option string) : bool :=
  if str_lt key (default "" start) then false
  else match end_ with Some e => str_lt key e | None => true end.

(** ** Iterators

    An item with a nil value is a deletion; only the iterator over a cache
    yields such items. *)

Abbreviation item := (string * option string)%type.

Class Iterator (I : Type) := {
  it_Valid : I → bool;
  it_Next : I → outcome I;
  it_Key : I → outcome string;
  it_Value : I → outcome (option string)
}.

(** The loop [for ; it.Valid(); it.Next() { ... it.Key(), it.Value() ... }]
    terminates and visits these items. *)
Inductive yields {I} `{Iterator I} : I → list item → Prop :=
| yields_nil it : it_Valid it = false → yields it []
| yields_cons it it' k v l :
    it_Valid it = true → it_Key it = Ok k → it_Value it = Ok v → it_Next it = Ok it' → yields it' l →
    yields it ((k, v) :: l).

(** ** Stores

    The loops inside an iterator are bounded by the fuel given when it is
    created. *)
Class KVStore (S I : Type) := {
  kv_Get : string → GoM S (option string);
  kv_Has : string → GoM S bool;
  kv_Set : string → option string → GoM S unit;
  kv_Delete : string → GoM S unit;
  kv_Iterator : nat → option string → option string → GoM S I;
  kv_ReverseIterator : nat → option string → option string → GoM S I
}.

(** [bytes.Compare], reversed for descending iteration. *)
Definition compare_keys (ascending : bool) (a b : string) : comparison :=
  if ascending then String.compare a b else CompOpp (String.compare a b).
Definition klt (asc : bool) (a b : string) : Prop := if asc then slt a b else slt b a.
Definition sorted (asc : bool) : list item → Prop := StronglySorted (λ x y, klt asc x.1 y.1).

Definition key_le (x y : item) : Prop := String.le x.1 y.1.
#[global] Instance key_le_dec x y : Decision (key_le x y).
Proof. unfold key_le. apply _. Defined.

(** The items of a map in a domain, in iteration order. *)
Definition range (asc : bool) (start end_ : option string) (m : gmap string (option string)) : list item :=
  let l := merge_sort key_le (filter (λ x, IsKeyInDomain x.1 start end_ = true) (map_to_list m)) in
  if asc then l else reverse l.

Definition valid_key (k : string) : Prop := AssertValidKey k = Ok tt.
Definition valid_value (v : string) : Prop := AssertValidValue (Some v) = Ok tt.
(** Bounds are nil or not empty. *)
Definition valid_bounds (start end_ : option string) : Prop := start ≠ Some "" ∧ end_ ≠ Some "".

(** What a store promises: in a state that satisfies its invariant every
    operation on arguments it accepts ([kv_key]: valid keys, and short enough for
    the stores below it) succeeds, keeps the invariant and acts on the
    represented map like the operation of finite maps; with enough fuel, the
    iterators yield the items of the domain in order. *)
Class KVStoreLaws (S I : Type) `{KVStore S I, Iterator I} := {
  kv_ok : S → Prop;
  kv_key : string → Prop;
  kv_view : S → gmap string string;
  kv_key_valid k : kv_key k → valid_key k;
  kv_Get_spec k s : kv_ok s → kv_key k →
    ∃ s', kv_Get k s = (Ok (kv_view s !! k), s') ∧ kv_ok s' ∧ kv_view s' = kv_view s;
  kv_Has_spec k s : kv_ok s → kv_key k →
    ∃ s', kv_Has k s = (Ok (bool_decide (is_Some (kv_view s !! k))), s') ∧ kv_ok s' ∧ kv_view s' = kv_view s;
  kv_Set_spec k v s : kv_ok s → kv_key k → valid_value v →
    ∃ s', kv_Set k (Some v) s = (Ok tt, s') ∧ kv_ok s' ∧ kv_view s' = <[k := v]> (kv_view s);
  kv_Delete_spec k s : kv_ok s → kv_key k →
    ∃ s', kv_Delete k s = (Ok tt, s') ∧ kv_ok s' ∧ kv_view s' = delete k (kv_view s);
  kv_Iterator_spec start end_ s : kv_ok s → valid_bounds start end_ →
    ∃ n s', kv_ok s' ∧ kv_view s' = kv_view s ∧ ∀ fuel, (n <= fuel)%nat →
      ∃ it, kv_Iterator fuel start end_ s = (Ok it, s') ∧ yields it (range true start end_ (Some <$> kv_view s));
  kv_ReverseIterator_spec start end_ s : kv_ok s → valid_bounds start end_ →
    ∃ n s', kv_ok s' ∧ kv_view s' = kv_view s ∧ ∀ fuel, (n <= fuel)%nat →
      ∃ it, kv_ReverseIterator fuel start end_ s = (Ok it, s') ∧ yields it (range false start end_ (Some <$> kv_view s))
}.

(** ** The orders *)

#[global] Instance klt_strict asc : StrictOrder (klt asc).
Proof.
  unfold klt. destruct asc; [apply _|]. split; [intros x; apply slt_irrefl|].
  intros x y z Hxy Hyz. by etransitivity.
Qed.
Lemma klt_irrefl asc k : ¬ klt asc k k.
Proof. apply irreflexivity, _. Qed.

Lemma compare_keys_spec asc a b : CompareSpec (a = b) (klt asc a b) (klt asc b a) (compare_keys asc a b).
Proof. unfold compare_keys, klt. destruct asc; [apply str_compare_spec|]. by destruct (str_compare_spec a b); constructor. Qed.

Lemma compare_keys_antisym asc a b : compare_keys asc b a = CompOpp (compare_keys asc a b).
Proof. unfold compare_keys. rewrite (String.compare_antisym b a). by destruct asc. Qed.

Lemma sorted_cons asc x l : sorted asc (x :: l) ↔ sorted asc l ∧ Forall (λ y, klt asc x.1 y.1) l.
Proof. split; [by inversion_clear 1|intros [? ?]; by constructor]. Qed.
Lemma sorted_head asc x l y : sorted asc (x :: l) → y ∈ l → klt asc x.1 y.1.
Proof. intros [_ H]%sorted_cons. rewrite Forall_forall in H. apply H. Qed.
Lemma sorted_NoDup asc l : sorted asc l → NoDup (l.*1).
Proof.
  induction l as [|x l IH]; cbn; [constructor|]. intros H. pose proof H as [Hs _]%sorted_cons.
  constructor; [|auto]. intros (y & Hy & Hin)%list_elem_of_fmap. pose proof (sorted_head _ _ _ _ H Hin) as Hlt.
  rewrite Hy in Hlt. by apply klt_irrefl in Hlt.
Qed.

(** A sorted list is determined by its items. *)
Lemma sorted_unique asc l1 l2 : sorted asc l1 → sorted asc l2 → (∀ x, x ∈ l1 ↔ x ∈ l2) → l1 = l2.
Proof.
  intros H1 H2 H. eapply StronglySorted_unique_strong; [|exact H1|exact H2|].
  - intros x y _ _ Hxy Hyx. exfalso. apply (klt_irrefl asc x.1). cbn in Hxy, Hyx. by etransitivity.
  - apply NoDup_Permutation; [| |done].
    + by eapply (NoDup_fmap_1 fst), sorted_NoDup.
    + by eapply (NoDup_fmap_1 fst), sorted_NoDup.
Qed.
Lemma sorted_reverse asc l : sorted asc l → sorted (negb asc) (reverse l).
Proof.
  induction l as [|x l IH]; intros H; [constructor|]. pose proof H as [Hs Hf]%sorted_cons.
  rewrite reverse_cons. apply StronglySorted_app. split; [|split; [by apply IH|repeat constructor]].
  intros y z Hy ->%list_elem_of_singleton. apply (proj1 (elem_of_reverse _ _)) in Hy. rewrite Forall_forall in Hf. specialize (Hf y Hy).
  by destruct asc.
Qed.

#[global] Instance key_le_trans : Transitive key_le.
Proof. intros x y z. unfold key_le. apply transitivity. Qed.
#[global] Instance key_le_total : Total key_le.
Proof. intros x y. unfold key_le. apply total, _. Qed.

Lemma sorted_of_le l : NoDup (l.*1) → StronglySorted key_le l → sorted true l.
Proof.
  induction l as [|x l IH]; intros Hn Hs; [constructor|]. cbn in Hn. apply NoDup_cons in Hn as [Hni Hn].
  inversion_clear Hs as [|? ? Hs' Hf]. apply sorted_cons. split; [by apply IH|].
  rewrite Forall_forall in Hf |- *. intros y Hy. apply slt_le. split; [by apply Hf|].
  intros Heq. apply Hni. rewrite Heq. by apply list_elem_of_fmap_2.
Qed.

(** ** The items of a map in a domain *)

Lemma elem_of_range asc start end_ m k v :
  (k, v) ∈ range asc start end_ m ↔ m !! k = Some v ∧ IsKeyInDomain k start end_ = true.
Proof.
  unfold range. transitivity ((k, v) ∈ filter (λ x : item, IsKeyInDomain x.1 start end_ = true) (map_to_list m)).
  - set (l := filter _ _). transitivity ((k, v) ∈ merge_sort key_le l).
    + destruct asc; [done|]. by rewrite elem_of_reverse.
    + by rewrite (merge_sort_Permutation key_le l).
  - rewrite list_elem_of_filter, elem_of_map_to_list. naive_solver.
Qed.
Lemma range_sorted asc start end_ m : sorted asc (range asc start end_ m).
Proof.
  unfold range. set (l := filter _ _).
  assert (sorted true (merge_sort key_le l)) as H.
  { apply sorted_of_le; [|apply StronglySorted_merge_sort; apply _].
    rewrite (merge_sort_Permutation key_le l). subst l. eapply (sublist_NoDup _ ((map_to_list m).*1)).
    - apply NoDup_fst_map_to_list.
    - apply fmap_sublist, sublist_filter. }
  destruct asc; [done|]. by apply (sorted_reverse true).
Qed.
(** [range] is the only sorted enumeration of the items in the domain. *)
Lemma range_unique asc start end_ m l :
  sorted asc l → (∀ k v, (k, v) ∈ l ↔ m !! k = Some v ∧ IsKeyInDomain k start end_ = true) →
  l = range asc start end_ m.
Proof.
  intros Hs H. apply (sorted_unique asc); [done|apply range_sorted|]. intros [k v]. by rewrite elem_of_range.
Qed.

(** ** The reference store: a finite map with iterators over its items *)

Section ListIterator.
#[global] Instance list_Iterator : Iterator (list item) := {
  it_Valid l := match l with [] => false | _ => true end;
  it_Next l := match l with [] => Panic "iterator is invalid" | _ :: l' => Ok l' end;
  it_Key l := match l with [] => Panic "iterator is invalid" | x :: _ => Ok x.1 end;
  it_Value l := match l with [] => Panic "iterator is invalid" | x :: _ => Ok x.2 end
}.
Lemma list_yields (l : list item) : yields l l.
Proof. induction l as [|[k v] l IH]; [by constructor|]. by eapply yields_cons. Qed.
End ListIterator.

#[global] Instance map_KVStore : KVStore (gmap string string) (list item) := {
  kv_Get k := _ ← liftM (AssertValidKey k); readM (λ m, m !! k);
  kv_Has k := _ ← liftM (AssertValidKey k); readM (λ m, bool_decide (is_Some (m !! k)));
  kv_Set k v :=
    _ ← liftM (AssertValidKey k); _ ← liftM (AssertValidValue v);
    match v with Some v => modifyM (<[k := v]>) | None => mret tt end;
  kv_Delete k := _ ← liftM (AssertValidKey k); modifyM (delete k);
  kv_Iterator _ start end_ := readM (λ m, range true start end_ (Some <$> m));
  kv_ReverseIterator _ start end_ := readM (λ m, range false start end_ (Some <$> m))
}.

#[global] Instance map_KVStoreLaws : KVStoreLaws (gmap string string) (list item).
Proof.
  refine {| kv_ok _ := True; kv_key := valid_key; kv_view m := m |}.
  - done.
  - intros k s _ Hk. exists s. cbn [kv_Get map_KVStore]. by rewrite (liftM_bind_run _ _ _ _ Hk).
  - intros k s _ Hk. exists s. cbn [kv_Has map_KVStore]. by rewrite (liftM_bind_run _ _ _ _ Hk).
  - intros k v s _ Hk Hv. eexists. cbn [kv_Set map_KVStore].
    by rewrite (liftM_bind_run _ _ _ _ Hk), (liftM_bind_run _ _ _ _ Hv).
  - intros k s _ Hk. eexists. cbn [kv_Delete map_KVStore]. by rewrite (liftM_bind_run _ _ _ _ Hk).
  - intros start end_ s _ _. exists 0%nat, s. do 2 (split; [done|]). intros fuel _. eexists. split; [reflexivity|]. apply list_yields.
  - intros start end_ s _ _. exists 0%nat, s. do 2 (split; [done|]). intros fuel _. eexists. split; [reflexivity|]. apply list_yields.
Defined.

(** ** Running a sequence of operations *)

Section Drain.
Context {I : Type} {HI : Iterator I}.

Fixpoint drain (fuel : nat) (it : I) : outcome (list item) :=
  match fuel with
  | O => Panic "out of fuel"
  | S fuel =>
      if it_Valid it then
        k ← it_Key it; v ← it_Value it; it ← it_Next it; l ← drain fuel it; Ok ((k, v) :: l)
      else Ok []
  end.
Lemma drain_yields it l fuel : yields it l → (length l < fuel)%nat → drain fuel it = Ok l.
Proof.
  intros Hy. revert fuel. induction Hy as [it Hv|it it' k v l Hv Hk Hvl Hn _ IH]; intros [|fuel] Hf; cbn in *; [lia| |lia|].
  - by rewrite Hv.
  - rewrite Hv, Hk, Hvl, Hn. cbn. rewrite IH by lia. done.
Qed.
End Drain.

Inductive kv_op :=
| OpGet (k : string)
| OpHas (k : string)
| OpSet (k v : string)
| OpDelete (k : string)
| OpRange (asc : bool) (start end_ : option string).
Inductive kv_res :=
| RValue (v : option string)
| RBool (b : bool)
| RUnit
| RItems (l : list item).

Definition valid_op (key : string → Prop) (op : kv_op) : Prop :=
  match op with
  | OpGet k | OpHas k | OpDelete k => key k
  | OpSet k v => key k ∧ valid_value v
  | OpRange _ start end_ => valid_bounds start end_
  end.

Definition run_kv_op {S I} `{KVStore S I, Iterator I} (fuel : nat) (op : kv_op) : GoM S kv_res :=
  match op with
  | OpGet k => v ← kv_Get k; mret (RValue v)
  | OpHas k => b ← kv_Has k; mret (RBool b)
  | OpSet k v => _ ← kv_Set k (Some v); mret RUnit
  | OpDelete k => _ ← kv_Delete k; mret RUnit
  | OpRange asc start end_ =>
      it ← (if asc then kv_Iterator fuel start end_ else kv_ReverseIterator fuel start end_);
      l ← liftM (drain fuel it);
      mret (RItems l)
  end.

(** The abstract store: a finite map. *)
Definition spec_kv_op (op : kv_op) (m : gmap string string) : kv_res * gmap string string :=
  match op with
  | OpGet k => (RValue (m !! k), m)
  | OpHas k => (RBool (bool_decide (is_Some (m !! k))), m)
  | OpSet k v => (RUnit, <[k := v]> m)
  | OpDelete k => (RUnit, delete k m)
  | OpRange asc start end_ => (RItems (range asc start end_ (Some <$> m)), m)
  end.
Fixpoint spec_kv_ops (ops : list kv_op) (m : gmap string string) : list kv_res * gmap string string :=
  match ops with
  | [] => ([], m)
  | op :: ops => let '(r, m) := spec_kv_op op m in let '(rs, m) := spec_kv_ops ops m in (r :: rs, m)
  end.

(** A lawful store refines the abstract one. *)
Section LawfulOps.
Context {S I : Type} {HKV : KVStore S I} {HI : Iterator I} {HL : KVStoreLaws S I}.

Lemma lawful_op op s : kv_ok s → valid_op (kv_key (S := S)) op →
  ∃ n s', kv_ok s' ∧ kv_view s' = (spec_kv_op op (kv_view s)).2 ∧
    ∀ fuel, (n <= fuel)%nat → run_kv_op fuel op s = (Ok (spec_kv_op op (kv_view s)).1, s').
Proof.
  intros Hi Hop. destruct op as [k|k|k v|k|asc start end_]; cbn [valid_op] in Hop.
  - destruct (kv_Get_spec k s Hi Hop) as (s' & Hg & ? & ?). exists 0%nat, s'. do 2 (split; [done|]). intros fuel _.
    cbn [run_kv_op]. by rewrite (GoM_bind_run _ _ _ _ _ Hg).
  - destruct (kv_Has_spec k s Hi Hop) as (s' & Hg & ? & ?). exists 0%nat, s'. do 2 (split; [done|]). intros fuel _.
    cbn [run_kv_op]. by rewrite (GoM_bind_run _ _ _ _ _ Hg).
  - destruct Hop as [Hk Hv]. destruct (kv_Set_spec k v s Hi Hk Hv) as (s' & Hg & ? & ?).
    exists 0%nat, s'. do 2 (split; [done|]). intros fuel _. cbn [run_kv_op]. by rewrite (GoM_bind_run _ _ _ _ _ Hg).
  - destruct (kv_Delete_spec k s Hi Hop) as (s' & Hg & ? & ?). exists 0%nat, s'. do 2 (split; [done|]). intros fuel _.
    cbn [run_kv_op]. by rewrite (GoM_bind_run _ _ _ _ _ Hg).
  - set (l := range asc start end_ (Some <$> kv_view s)).
    assert (∃ n s', kv_ok s' ∧ kv_view s' = kv_view s ∧ ∀ fuel, (n <= fuel)%nat → ∃ it,
      (if asc then kv_Iterator fuel start end_ else kv_ReverseIterator fuel start end_) s = (Ok it, s') ∧ yields it l)
      as (n & s' & H1 & H2 & H) by (subst l; destruct asc; [by apply kv_Iterator_spec|by apply kv_ReverseIterator_spec]).
    exists (n `max` Datatypes.S (length l))%nat, s'. do 2 (split; [done|]). intros fuel Hf.
    destruct (H fuel ltac:(lia)) as (it & Hit & Hy). cbn [run_kv_op].
    rewrite (GoM_bind_run _ _ _ _ _ Hit). by rewrite (liftM_bind_run _ _ l) by (apply drain_yields; [done|lia]).
Qed.
End LawfulOps.
