(* ===== verification/PrefixStore.v ===== *)
(** * The prefix store: store/prefix/store.go

    A view of the keys of a parent store that begin with a prefix, without it.
    The store keeps no state of its own: its operations are computations on the
    state of the parent.  Keys are never nil here.  The last part shows that a
    prefix store over a lawful store is lawful, and that stores with prefixes
    none of which extends the other do not interfere. *)
From S2P Require Import Prelude Bytes KVStore.

Section PrefixStore.
Context {S I : Type} {HKV : KVStore S I} {HI : Iterator I}.
Variable prefix : string.

Definition cloneAppend (bz tail : string) : string := bz +:+ tail.
Definition prefix_key (key : string) : string := cloneAppend prefix key.
(** [types.PrefixEndBytes] *)
Definition cpIncr (bz : string) : option string := PrefixEndBytes bz.

Definition Prefix_Get (key : string) : GoM S (option string) := kv_Get (prefix_key key).
Definition Prefix_Has (key : string) : GoM S bool := kv_Has (prefix_key key).
Definition Prefix_Set (key : string) (value : option string) : GoM S unit :=
  _ ← liftM (AssertValidKey key);
  _ ← liftM (AssertValidValue value);
  kv_Set (prefix_key key) value.
Definition Prefix_Delete (key : string) : GoM S unit := kv_Delete (prefix_key key).

Record prefixIterator := mkPrefixIterator {
  pi_start : option string;
  pi_end : option string;
  pi_iter : I;
  pi_valid : bool;
}.
Definition stripPrefix (key : string) : outcome string :=
  if (String.length key <? String.length prefix)%nat
     || negb (str_eq (str_take (String.length prefix) key) prefix)
  then Panic "should not happen"
  else Ok (str_drop (String.length prefix) key).
(** [it.Valid() && bytes.HasPrefix(it.Key(), prefix)] *)
Definition at_prefix (parent : I) : outcome bool :=
  if it_Valid parent then key ← it_Key parent; Ok (HasPrefix key prefix) else Ok false.
Definition newPrefixIterator (start end_ : option string) (parent : I) : outcome prefixIterator :=
  valid ← at_prefix parent;
  Ok (mkPrefixIterator start end_ parent valid).
Definition pi_Next (pi : prefixIterator) : outcome prefixIterator :=
  _ ← guard_panic (negb (pi_valid pi)) "prefixIterator invalid, cannot call Next()";
  iter ← it_Next (pi_iter pi);
  valid ← at_prefix iter;
  Ok (mkPrefixIterator (pi_start pi) (pi_end pi) iter (if valid : bool then pi_valid pi else false)).
Definition pi_Key (pi : prefixIterator) : outcome string :=
  _ ← guard_panic (negb (pi_valid pi)) "prefixIterator invalid, cannot call Key()";
  key ← it_Key (pi_iter pi);
  stripPrefix key.
Definition pi_Value (pi : prefixIterator) : outcome (option string) :=
  _ ← guard_panic (negb (pi_valid pi)) "prefixIterator invalid, cannot call Value()";
  it_Value (pi_iter pi).
#[global] Instance prefix_Iterator : Iterator prefixIterator := {
  it_Valid pi := pi_valid pi && it_Valid (pi_iter pi);
  it_Next := pi_Next;
  it_Key := pi_Key;
  it_Value := pi_Value
}.

(** The bounds of the parent's iteration. *)
Definition newstart (start : option string) : option string := Some (cloneAppend prefix (default "" start)).
Definition newend (end_ : option string) : option string :=
  match end_ with
  | None => cpIncr prefix
  | Some e => Some (cloneAppend prefix e)
  end.
Definition Prefix_Iterator (fuel : nat) (start end_ : option string) : GoM S prefixIterator :=
  iter ← kv_Iterator fuel (newstart start) (newend end_);
  liftM (newPrefixIterator start end_ iter).
Definition Prefix_ReverseIterator (fuel : nat) (start end_ : option string) : GoM S prefixIterator :=
  iter ← kv_ReverseIterator fuel (newstart start) (newend end_);
  liftM (newPrefixIterator start end_ iter).

Definition prefix_KVStore : KVStore S prefixIterator := {|
  kv_Get := Prefix_Get;
  kv_Has := Prefix_Has;
  kv_Set := Prefix_Set;
  kv_Delete := Prefix_Delete;
  kv_Iterator := Prefix_Iterator;
  kv_ReverseIterator := Prefix_ReverseIterator
|}.
End PrefixStore.

(** ** The keys under a prefix *)

Section PrefixView.
Variable p : string.

Definition strip_entry {A} (x : string * A) : option (string * A) :=
  if HasPrefix x.1 p then Some (str_drop (String.length p) x.1, x.2) else None.
Definition prefix_view {A} (m : gmap string A) : gmap string A := list_to_map (omap strip_entry (map_to_list m)).

Lemma strip_entry_Some {A} k (v : A) y :
  strip_entry (k, v) = Some y ↔ k = p +:+ y.1 ∧ v = y.2.
Proof.
  unfold strip_entry. cbn. destruct (HasPrefix k p) eqn:E.
  - apply HasPrefix_spec in E as [t ->]. rewrite str_drop_app. destruct y as [y1 y2]. cbn. split.
    + by intros [= -> ->].
    + intros [E ->]. by apply (inj (String.app p)) in E as ->.
  - split; [done|]. intros [-> _]. by rewrite HasPrefix_app in E.
Qed.
Lemma lookup_prefix_view {A} (m : gmap string A) k : prefix_view m !! k = m !! (p +:+ k).
Proof.
  apply option_eq. intros v. unfold prefix_view. rewrite <- elem_of_list_to_map.
  - rewrite list_elem_of_omap. split.
    + intros ([k' v'] & Hin%elem_of_map_to_list & [-> ->]%strip_entry_Some). done.
    + intros H. exists (p +:+ k, v). rewrite elem_of_map_to_list, strip_entry_Some. done.
  - assert (NoDup ((map_to_list m).*1)) as Hn by apply NoDup_fst_map_to_list.
    induction (map_to_list m) as [|[k' v'] l IH]; [constructor|]. cbn in Hn |- *. apply NoDup_cons in Hn as [Hni Hn].
    destruct (strip_entry (k', v')) as [[k1 v1]|] eqn:E; cbn; [|auto]. constructor; [|auto].
    apply strip_entry_Some in E as [-> ->]. cbn in *. intros ([k2 v2] & Hk & ([k3 v3] & Hin & E)%list_elem_of_omap)%list_elem_of_fmap.
    apply strip_entry_Some in E as [-> ->]. cbn in *. subst k2. apply Hni. exact (list_elem_of_fmap_2 fst _ _ Hin).
Qed.
Lemma prefix_view_insert {A} (m : gmap string A) k v : prefix_view (<[p +:+ k := v]> m) = <[k := v]> (prefix_view m).
Proof.
  apply map_eq. intros k'. rewrite lookup_prefix_view. destruct (decide (k = k')) as [<-|Hne].
  - by rewrite !lookup_insert_eq.
  - rewrite !lookup_insert_ne by (done || intros E; by apply (inj (String.app p)) in E). by rewrite lookup_prefix_view.
Qed.
Lemma prefix_view_delete {A} (m : gmap string A) k : prefix_view (delete (p +:+ k) m) = delete k (prefix_view m).
Proof.
  apply map_eq. intros k'. rewrite lookup_prefix_view. destruct (decide (k = k')) as [<-|Hne].
  - by rewrite !lookup_delete_eq.
  - rewrite !lookup_delete_ne by (done || intros E; by apply (inj (String.app p)) in E). by rewrite lookup_prefix_view.
Qed.
End PrefixView.

(** ** A prefix store over a lawful store is lawful *)

Section PrefixLaws.
Context {S I : Type} {HKV : KVStore S I} {HI : Iterator I} {HL : KVStoreLaws S I}.
Variable p : string.
Hypothesis Hp : p ≠ "".

Lemma stripPrefix_app k : stripPrefix p (p +:+ k) = Ok k.
Proof.
  unfold stripPrefix. rewrite str_length_app, str_take_app, str_drop_app, str_eq_spec, bool_decide_true by done.
  by rewrite (proj2 (Nat.ltb_ge _ _)) by lia.
Qed.

Lemma le_app_l k : String.le p (p +:+ k).
Proof.
  apply str_lt_false. rewrite <- (str_app_nil_r p) at 2. rewrite str_lt_app. by destruct k.
Qed.

(** The bounds of the parent's iteration enclose exactly the keys under the
    prefix whose rest is in the domain. *)
Lemma prefix_domain k start end_ :
  IsKeyInDomain k (newstart p start) (newend p end_) = true ↔
  ∃ t, k = p +:+ t ∧ IsKeyInDomain t start end_ = true.
Proof.
  unfold newstart, newend, cloneAppend, cpIncr. split.
  - intros H. assert (HasPrefix k p = true) as [t ->]%HasPrefix_spec.
    { rewrite prefix_end_range. unfold IsKeyInDomain in H. cbn [default from_option id] in H.
      destruct (str_lt k (p +:+ default "" start)) eqn:E; [done|]. apply str_lt_false in E.
      assert (str_lt k p = false) as -> by (apply str_lt_false; etransitivity; [apply le_app_l|exact E]). cbn.
      destruct end_ as [e|]; [|by rewrite PrefixEndBytes_front in H].
      pose proof (HasPrefix_app p e) as He. rewrite prefix_end_range in He.
      destruct (prefix_end p) as [pe|]; [|done]. apply andb_prop in He as [_ He].
      change (slt k pe). by etransitivity. }
    exists t. split; [done|]. unfold IsKeyInDomain in *. cbn [default from_option id] in *.
    rewrite str_lt_app in H. destruct (str_lt t _); [done|]. destruct end_ as [e|]; [by rewrite str_lt_app in H|done].
  - intros (t & -> & H). unfold IsKeyInDomain in *. cbn [default from_option id] in *. rewrite str_lt_app.
    destruct (str_lt t _); [done|]. destruct end_ as [e|]; [by rewrite str_lt_app|].
    rewrite PrefixEndBytes_front. pose proof (HasPrefix_app p t) as He. rewrite prefix_end_range in He.
    by apply andb_prop in He as [_ He].
Qed.

Definition strip_item (x : item) : item := (str_drop (String.length p) x.1, x.2).
Lemma prefix_yields (it : I) l start end_ :
  yields it l → Forall (λ x, ∃ t, x.1 = p +:+ t) l →
  ∃ pi, newPrefixIterator p start end_ it = Ok pi ∧ @yields _ (prefix_Iterator p) pi (map strip_item l).
Proof.
  intros Hy. revert start end_. induction Hy as [it Hv|it it' k v l Hv Hk Hvl Hn Hy IH]; intros start end_ Hf.
  - unfold newPrefixIterator, at_prefix. rewrite Hv. eexists. split; [reflexivity|]. constructor. done.
  - apply Forall_cons in Hf as [[t Et] Hf]. cbn in Et. subst k.
    destruct (IH start end_ Hf) as (pi' & Hpi' & Hy').
    replace (map strip_item ((p +:+ t, v) :: l)) with ((t, v) :: map strip_item l)
      by (cbn; unfold strip_item; cbn; by rewrite str_drop_app).
    unfold newPrefixIterator, at_prefix in Hpi' |- *. rewrite Hv, Hk. cbn. rewrite HasPrefix_app.
    eexists. split; [reflexivity|].
    apply (@yields_cons _ (prefix_Iterator p) _ pi').
    + cbn. by rewrite Hv.
    + cbn. unfold pi_Key. cbn. rewrite Hk. cbn. apply stripPrefix_app.
    + cbn. unfold pi_Value. cbn. done.
    + cbn. unfold pi_Next. cbn. rewrite Hn. cbn. destruct (at_prefix p it') as [b|e|q] eqn:E; unfold at_prefix in E; rewrite E in Hpi'; cbn in *.
      * injection Hpi' as <-. by destruct b.
      * done.
      * done.
    + done.
Qed.

Lemma range_strip asc start end_ (m : gmap string (option string)) :
  Forall (λ x : item, ∃ t, x.1 = p +:+ t) (range asc (newstart p start) (newend p end_) m) ∧
  map strip_item (range asc (newstart p start) (newend p end_) m) = range asc start end_ (prefix_view p m).
Proof.
  set (l := range _ _ _ m).
  assert (Forall (λ x : item, ∃ t, x.1 = p +:+ t) l) as Hf.
  { apply Forall_forall. intros [k v] [_ (t & -> & _)%prefix_domain]%elem_of_range. by exists t. }
  split; [done|]. apply range_unique.
  - assert (sorted asc l) as Hs by apply range_sorted. induction Hs as [|[k v] l' Hs IH Hlt]; [constructor|].
    apply Forall_cons in Hf as [[t Et] Hf]. cbn in Et. subst k. cbn [map]. apply sorted_cons. split; [auto|].
    apply Forall_fmap. rewrite !Forall_forall in *. intros [k' v'] Hin. specialize (Hlt _ Hin). cbn in *.
    destruct (Hf _ Hin) as [t' Et']. cbn in Et'. subst k'. rewrite !str_drop_app. unfold klt in *.
    destruct asc; by apply slt_app in Hlt.
  - intros k v. rewrite lookup_prefix_view. split.
    + intros ([k' v'] & E & [Hm (t & -> & Hd)%prefix_domain]%elem_of_range)%list_elem_of_fmap.
      unfold strip_item in E. cbn in E. rewrite str_drop_app in E. by injection E as -> ->.
    + intros [Hm Hd]. apply list_elem_of_fmap. exists (p +:+ k, v). unfold strip_item. cbn. rewrite str_drop_app.
      split; [done|]. apply elem_of_range. split; [done|]. apply prefix_domain. by exists k.
Qed.
Lemma prefix_view_fmap (m : gmap string string) : prefix_view p (Some <$> m) = Some <$> prefix_view p m.
Proof. apply map_eq. intros k. by rewrite lookup_prefix_view, !lookup_fmap, lookup_prefix_view. Qed.
Lemma prefix_bounds start end_ : valid_bounds (newstart p start) (newend p end_).
Proof.
  unfold newstart, newend, cloneAppend. split; [by intros [= H]; destruct p|].
  destruct end_ as [e|]; [by intros [= H]; destruct p|]. unfold cpIncr. rewrite PrefixEndBytes_front.
  destruct p as [|c q]; [done|]. cbn. by destruct (prefix_end q), (code c =? 255).
Qed.

Definition prefix_KVStoreLaws : @KVStoreLaws S (prefixIterator (I := I)) (prefix_KVStore p) (prefix_Iterator p).
Proof.
  refine (@Build_KVStoreLaws S prefixIterator (prefix_KVStore p) (prefix_Iterator p)
    kv_ok (λ k, valid_key k ∧ kv_key (S := S) (p +:+ k)) (λ s, prefix_view p (kv_view s)) _ _ _ _ _ _ _).
  - by intros k [? _].
  - intros k s Hok [_ Hk]. destruct (kv_Get_spec _ s Hok Hk) as (s' & H1 & H2 & H3). exists s'.
    rewrite H3, lookup_prefix_view. done.
  - intros k s Hok [_ Hk]. destruct (kv_Has_spec _ s Hok Hk) as (s' & H1 & H2 & H3). exists s'.
    rewrite H3, lookup_prefix_view. done.
  - intros k v s Hok [Hv Hk] Hval. destruct (kv_Set_spec _ v s Hok Hk Hval) as (s' & H1 & H2 & H3). exists s'.
    rewrite H3, prefix_view_insert. split; [|done]. cbn. unfold Prefix_Set.
    by rewrite (liftM_bind_run _ _ _ _ Hv), (liftM_bind_run _ _ _ _ Hval).
  - intros k s Hok [_ Hk]. destruct (kv_Delete_spec _ s Hok Hk) as (s' & H1 & H2 & H3). exists s'.
    by rewrite H3, prefix_view_delete.
  - intros start end_ s Hok _. destruct (kv_Iterator_spec _ _ s Hok (prefix_bounds start end_)) as (n & s' & H1 & H2 & H).
    exists n, s'. split; [done|]. split; [by rewrite H2|]. intros fuel Hf. destruct (H fuel Hf) as (it & Hit & Hy).
    destruct (range_strip true start end_ (Some <$> kv_view s)) as [HF HR].
    destruct (prefix_yields it _ start end_ Hy HF) as (pi & Hpi & Hyp). exists pi. rewrite HR, prefix_view_fmap in Hyp.
    split; [|done]. cbn. unfold Prefix_Iterator. rewrite (GoM_bind_run _ _ _ _ _ Hit). unfold liftM. by rewrite Hpi.
  - intros start end_ s Hok _. destruct (kv_ReverseIterator_spec _ _ s Hok (prefix_bounds start end_)) as (n & s' & H1 & H2 & H).
    exists n, s'. split; [done|]. split; [by rewrite H2|]. intros fuel Hf. destruct (H fuel Hf) as (it & Hit & Hy).
    destruct (range_strip false start end_ (Some <$> kv_view s)) as [HF HR].
    destruct (prefix_yields it _ start end_ Hy HF) as (pi & Hpi & Hyp). exists pi. rewrite HR, prefix_view_fmap in Hyp.
    split; [|done]. cbn. unfold Prefix_ReverseIterator. rewrite (GoM_bind_run _ _ _ _ _ Hit). unfold liftM. by rewrite Hpi.
Defined.
End PrefixLaws.

(** ** Sequences of operations on a prefix store *)

Section PrefixOps.
Context {S I : Type} {HKV : KVStore S I} {HI : Iterator I} {HL : KVStoreLaws S I}.
Variable p : string.
Hypothesis Hp : p ≠ "".

(** Keys the prefix store accepts. *)
Definition prefix_key_ok (k : string) : Prop := valid_key k ∧ kv_key (S := S) (p +:+ k).
Definition prefix_run (fuel : nat) (op : kv_op) : GoM S kv_res :=
  @run_kv_op S _ (prefix_KVStore p) (prefix_Iterator (I := I) p) fuel op.

(** One operation acts on the keys under the prefix and leaves the others. *)
Lemma prefix_op op s : kv_ok s → valid_op prefix_key_ok op →
  ∃ n s', kv_ok s' ∧ prefix_view p (kv_view s') = (spec_kv_op op (prefix_view p (kv_view s))).2 ∧
    (∀ k, HasPrefix k p = false → kv_view s' !! k = kv_view s !! k) ∧
    ∀ fuel, (n <= fuel)%nat → prefix_run fuel op s = (Ok (spec_kv_op op (prefix_view p (kv_view s))).1, s').
Proof.
  intros Hok Hop.
  destruct (@lawful_op S _ _ _ (prefix_KVStoreLaws p Hp) op s Hok Hop) as (n & s' & Hok' & Hv & Hrun).
  exists n, s'. split; [done|]. split; [done|]. split; [|done]. intros k Hk.
  assert (∀ t, k ≠ p +:+ t) as Hne by (intros t ->; by rewrite HasPrefix_app in Hk).
  pose proof (Hrun n (le_n n)) as Hn. destruct op as [j|j|j v|j|asc start end_]; cbn [valid_op run_kv_op] in *.
  - destruct (kv_Get_spec _ s Hok (proj2 Hop)) as (s1 & H1 & _ & <-).
    apply GoM_bind_Ok in Hn as (a & s2 & H2 & [= _ <-]). cbn in H2. unfold Prefix_Get in H2. unfold prefix_key, cloneAppend in H2. congruence.
  - destruct (kv_Has_spec _ s Hok (proj2 Hop)) as (s1 & H1 & _ & <-).
    apply GoM_bind_Ok in Hn as (a & s2 & H2 & [= _ <-]). cbn in H2. unfold Prefix_Has, prefix_key, cloneAppend in H2. congruence.
  - destruct Hop as [[Hj1 Hj2] Hjv]. destruct (kv_Set_spec _ v s Hok Hj2 Hjv) as (s1 & H1 & _ & E).
    apply GoM_bind_Ok in Hn as (a & s2 & H2 & [= <-]). cbn in H2. unfold Prefix_Set in H2.
    rewrite (liftM_bind_run _ _ _ _ Hj1), (liftM_bind_run _ _ _ _ Hjv) in H2. unfold prefix_key, cloneAppend in H2.
    assert (s2 = s1) as -> by congruence. rewrite E. by rewrite lookup_insert_ne.
  - destruct (kv_Delete_spec _ s Hok (proj2 Hop)) as (s1 & H1 & _ & E).
    apply GoM_bind_Ok in Hn as (a & s2 & H2 & [= <-]). cbn in H2. unfold Prefix_Delete, prefix_key, cloneAppend in H2.
    assert (s2 = s1) as -> by congruence. rewrite E. by rewrite lookup_delete_ne.
  - assert (∃ n', ∀ fuel s1 it, (n' <= fuel)%nat →
      (if asc then Prefix_Iterator p fuel start end_ else Prefix_ReverseIterator p fuel start end_) s = (Ok it, s1) →
      kv_view s1 = kv_view s) as [n' Hn'].
    { destruct asc.
      - destruct (kv_Iterator_spec _ _ s Hok (prefix_bounds p Hp start end_)) as (n' & s4 & _ & E & H4). exists n'.
        intros fuel s1 it Hf H1. destruct (H4 fuel Hf) as (it' & H5 & _). unfold Prefix_Iterator in H1.
        rewrite (GoM_bind_run _ _ _ _ _ H5) in H1. apply liftM_Ok in H1 as [_ ->]. done.
      - destruct (kv_ReverseIterator_spec _ _ s Hok (prefix_bounds p Hp start end_)) as (n' & s4 & _ & E & H4). exists n'.
        intros fuel s1 it Hf H1. destruct (H4 fuel Hf) as (it' & H5 & _). unfold Prefix_ReverseIterator in H1.
        rewrite (GoM_bind_run _ _ _ _ _ H5) in H1. apply liftM_Ok in H1 as [_ ->]. done. }
    specialize (Hrun (n `max` n')%nat ltac:(lia)).
    apply GoM_bind_Ok in Hrun as (it & s1 & H1 & H2). apply GoM_bind_Ok in H2 as (l & s2 & [_ ->]%liftM_Ok & [= _ <-]).
    cbn [kv_Iterator kv_ReverseIterator prefix_KVStore] in H1. f_equal. by eapply (Hn' (n `max` n')%nat); [lia|].
Qed.

Lemma prefix_ops ops : ∀ s, kv_ok s → Forall (valid_op prefix_key_ok) ops →
  ∃ n s', kv_ok s' ∧ prefix_view p (kv_view s') = (spec_kv_ops ops (prefix_view p (kv_view s))).2 ∧
    (∀ k, HasPrefix k p = false → kv_view s' !! k = kv_view s !! k) ∧
    ∀ fuel, (n <= fuel)%nat → traverse (prefix_run fuel) ops s = (Ok (spec_kv_ops ops (prefix_view p (kv_view s))).1, s').
Proof.
  induction ops as [|op ops IH]; intros s Hi Hops; [by exists 0%nat, s|]. apply Forall_cons in Hops as [Hop Hops].
  destruct (prefix_op op s Hi Hop) as (n1 & s1 & Hi1 & Hv1 & Hf1 & H1).
  destruct (IH s1 Hi1 Hops) as (n2 & s2 & Hi2 & Hv2 & Hf2 & H2).
  exists (n1 `max` n2)%nat, s2. rewrite Hv1 in Hv2, H2. cbn [spec_kv_ops].
  destruct (spec_kv_op op _) as [r m]. cbn [fst snd] in *.
  destruct (spec_kv_ops ops m) as [rs m']. cbn [fst snd] in *. split; [done|]. split; [done|].
  split; [intros k Hk; by rewrite Hf2, Hf1|]. intros fuel Hf. cbn [traverse].
  rewrite (GoM_bind_run _ _ _ _ _ (H1 fuel ltac:(lia))). by rewrite (GoM_bind_run _ _ _ _ _ (H2 fuel ltac:(lia))).
Qed.
End PrefixOps.

(** C34. A prefix store over a lawful store is the finite map of the keys under
    its prefix: every sequence of reads, writes, deletions and iterations
    succeeds with the results of that map, in order and without the prefix, and
    no key outside the prefix changes.  So stores with different prefixes are
    isolated when neither prefix extends the other. *)
Theorem prefix_store_isolated {S I} {HKV : KVStore S I} {HI : Iterator I} {HL : KVStoreLaws S I}
    (p : string) (ops : list kv_op) (s : S) :
  p ≠ "" → kv_ok s → Forall (valid_op (prefix_key_ok (S := S) (I := I) p)) ops →
  ∃ n s', (∀ fuel, (n <= fuel)%nat →
             traverse (prefix_run (I := I) p fuel) ops s = (Ok (spec_kv_ops ops (prefix_view p (kv_view s))).1, s')) ∧
    kv_ok s' ∧ prefix_view p (kv_view s') = (spec_kv_ops ops (prefix_view p (kv_view s))).2 ∧
    (∀ k, HasPrefix k p = false → kv_view s' !! k = kv_view s !! k) ∧
    ∀ q, HasPrefix q p = false → HasPrefix p q = false → prefix_view q (kv_view s') = prefix_view q (kv_view s).
Proof.
  intros Hp Hok Hops. destruct (prefix_ops p Hp ops s Hok Hops) as (n & s' & Hok' & Hv & Hf & H).
  exists n, s'. do 4 (split; [done|]). intros q H1 H2. apply map_eq. intros k. rewrite !lookup_prefix_view. apply Hf.
  by apply prefixes_disjoint.
Qed.

Definition prefix_ops0 : list kv_op := [OpSet "b" "2"; OpDelete "a"; OpRange false None None; OpHas "c"].
Definition prefix_base0 : gmap string string := {["xa" := "1"; "xc" := "3"; "y" := "9"]}.
Lemma prefix_store_isolated_witness :
  ∃ n s', ∀ fuel, (n <= fuel)%nat →
    traverse (prefix_run (S := gmap string string) (I := list item) "x" fuel) prefix_ops0 prefix_base0 =
    (Ok [RUnit; RUnit; RItems [("c", Some "3"); ("b", Some "2")]; RBool true], s').
Proof.
  destruct (prefix_store_isolated (S := gmap string string) (I := list item) "x" prefix_ops0 prefix_base0) as (n & s' & H & _).
  - discriminate.
  - exact Logic.I.
  - repeat (apply Forall_cons; split; [repeat split; done|]). apply Forall_nil_2.
  - exists n, s'. intros fuel Hf. rewrite (H fuel Hf). vm_compute. reflexivity.
Defined.
