(* ===== verification/CollMap.v ===== *)
(** * Collections over a byte store: map.go, iter.go, item.go, sequence.go,
    keyset.go, vec.go

    A [Map] stores typed values under typed keys: the key is the collection's
    prefix followed by the key's bytes, the value its encoded bytes.  Items,
    sequences, key sets and vectors are maps with special keys or values.  The
    store is any implementation of the class [KVStore]: runtime/store.go wraps it
    into the error-returning interface collections use, with nil errors.  A
    collection is given by its prefix and its codecs. *)
From S2P Require Import Prelude Bytes KVStore KeyCodec Collections.

(** ** Value codecs: codec/codec.go *)

(** [ValueCodec] without the JSON and display methods; a nil slice is [None]. *)
Class ValueCodec (V : Type) := {
  vc_Encode : V → outcome (option string);
  vc_Decode : string → outcome V
}.

(** [keyToValueCodec]: values stored like keys. *)
Definition keyToValue_Encode {K} (kc : KeyCodec K) (value : K) : outcome (option string) :=
  '(_, buf) ← Encode (zeros (Size value)) value; Ok (Some buf).
Definition keyToValue_Decode {K} (kc : KeyCodec K) (b : string) : outcome K :=
  '(r, key) ← Decode b;
  if (r =? String.length b)%nat then Ok key else Err ErrEncoding.
Definition KeyToValueCodec {K} (kc : KeyCodec K) : ValueCodec K := {|
  vc_Encode := keyToValue_Encode kc; vc_Decode := keyToValue_Decode kc
|}.
Definition Uint64Value : ValueCodec Z := KeyToValueCodec Uint64Key.

(** [AltValueCodec]: a second decoder for values of an older format. *)
Definition AltValue_Decode {V} (canonical : ValueCodec V) (alternativeDecoder : string → outcome V) (b : string) : outcome V :=
  match vc_Decode b with
  | Err _ => alternativeDecoder b
  | r => r
  end.
Definition AltValueCodec {V} (canonical : ValueCodec V) (alternativeDecoder : string → outcome V) : ValueCodec V := {|
  vc_Encode := vc_Encode; vc_Decode := AltValue_Decode canonical alternativeDecoder
|}.

(** ** Ranges: iter.go *)

Definition ErrInvalidIterator : string := "collections: invalid iterator".
Definition errOrder : string := "collections: invalid order".
(** [Order] is a uint8. *)
Definition OrderAscending : Z := 0.
Definition OrderDescending : Z := 1.

Inductive rangeKeyKind := rangeKeyExact | rangeKeyNext | rangeKeyPrefixEnd.
Record RangeKey (K : Type) := mkRangeKey { rk_kind : rangeKeyKind; rk_key : K }.
Arguments mkRangeKey {K} rk_kind rk_key.
Arguments rk_kind {K} r.
Arguments rk_key {K} r.
Definition RangeKeyNext {K} (key : K) : RangeKey K := mkRangeKey rangeKeyNext key.
Definition RangeKeyPrefixEnd {K} (key : K) : RangeKey K := mkRangeKey rangeKeyPrefixEnd key.
Definition RangeKeyExact {K} (key : K) : RangeKey K := mkRangeKey rangeKeyExact key.

(** What [RangeValues] of the interface [Ranger] returns. *)
Definition Ranger (K : Type) : Type := outcome (option (RangeKey K) * option (RangeKey K) * Z).

Record Range (K : Type) := mkRange {
  r_start : option (RangeKey K);
  r_end : option (RangeKey K);
  r_order : Z
}.
Arguments mkRange {K} r_start r_end r_order.
Arguments r_start {K} r.
Arguments r_end {K} r.
Arguments r_order {K} r.

Section Range.
Context {K : Type}.
Implicit Types r : Range K.

(** [new(Range[K])] *)
Definition new_Range : Range K := mkRange None None OrderAscending.
Definition Range_Prefix (key : K) r : Range K :=
  mkRange (Some (RangeKeyExact key)) (Some (RangeKeyPrefixEnd key)) (r_order r).
Definition StartInclusive (start : K) r : Range K := mkRange (Some (RangeKeyExact start)) (r_end r) (r_order r).
Definition StartExclusive (start : K) r : Range K := mkRange (Some (RangeKeyNext start)) (r_end r) (r_order r).
Definition EndInclusive (end_ : K) r : Range K := mkRange (r_start r) (Some (RangeKeyNext end_)) (r_order r).
Definition EndExclusive (end_ : K) r : Range K := mkRange (r_start r) (Some (RangeKeyExact end_)) (r_order r).
Definition Descending r : Range K := mkRange (r_start r) (r_end r) OrderDescending.
Definition RangeValues r : Ranger K := Ok (r_start r, r_end r, r_order r).
End Range.

(** [PairRange] of pair.go: a range within the pairs that share a first part.
    A refinement reads the first part through [*p.start.key.key1]. *)
Record PairRange (K1 K2 : Type) := mkPairRange {
  pr_start : option (RangeKey (Pair K1 K2));
  pr_end : option (RangeKey (Pair K1 K2));
  pr_order : Z;
  pr_err : option string
}.
Arguments mkPairRange {K1 K2} pr_start pr_end pr_order pr_err.
Arguments pr_start {K1 K2} p.
Arguments pr_end {K1 K2} p.
Arguments pr_order {K1 K2} p.
Arguments pr_err {K1 K2} p.

Section PairRange.
Context {K1 K2 : Type}.
Implicit Types p : PairRange K1 K2.

Definition NewPrefixUntilPairRange (prefix : K1) : PairRange K1 K2 :=
  mkPairRange None (Some (RangeKeyPrefixEnd (PairPrefix prefix))) OrderAscending None.
Definition NewPrefixedPairRange (prefix : K1) : PairRange K1 K2 :=
  mkPairRange (Some (RangeKeyExact (PairPrefix prefix))) (Some (RangeKeyPrefixEnd (PairPrefix prefix))) OrderAscending None.
(** [*bound.key.key1] *)
Definition deref_key1 (bound : option (RangeKey (Pair K1 K2))) : outcome K1 :=
  match bound with
  | Some (mkRangeKey _ (mkPair (Some k1) _)) => Ok k1
  | _ => Panic "nil pointer dereference"
  end.
Definition pair_StartInclusive (k2 : K2) p : outcome (PairRange K1 K2) :=
  k1 ← deref_key1 (pr_start p);
  Ok (mkPairRange (Some (RangeKeyExact (Join k1 k2))) (pr_end p) (pr_order p) (pr_err p)).
Definition pair_StartExclusive (k2 : K2) p : outcome (PairRange K1 K2) :=
  k1 ← deref_key1 (pr_start p);
  Ok (mkPairRange (Some (RangeKeyNext (Join k1 k2))) (pr_end p) (pr_order p) (pr_err p)).
Definition pair_EndInclusive (k2 : K2) p : outcome (PairRange K1 K2) :=
  k1 ← deref_key1 (pr_end p);
  Ok (mkPairRange (pr_start p) (Some (RangeKeyNext (Join k1 k2))) (pr_order p) (pr_err p)).
Definition pair_EndExclusive (k2 : K2) p : outcome (PairRange K1 K2) :=
  k1 ← deref_key1 (pr_end p);
  Ok (mkPairRange (pr_start p) (Some (RangeKeyExact (Join k1 k2))) (pr_order p) (pr_err p)).
Definition pair_Descending p : PairRange K1 K2 := mkPairRange (pr_start p) (pr_end p) OrderDescending (pr_err p).
(** With [p.err] set, the code returns its own [err], which is still nil. *)
Definition pair_RangeValues p : Ranger (Pair K1 K2) :=
  match pr_err p with
  | Some _ => Ok (None, None, 0)
  | None => Ok (pr_start p, pr_end p, pr_order p)
  end.
End PairRange.

(** [nextBytesKey] and [nextBytesPrefixKey], which is [PrefixEndBytes] again. *)
Definition nextBytesKey (b : string) : string := b +:+ zeros 1.
Definition nextBytesPrefixKey (prefix : string) : option string := PrefixEndBytes prefix.

(** ** Keys with a prefix: map.go *)

(** [fmt.Errorf("%w: ...", ErrEncoding, err)] *)
Definition wrap_encoding {A} (m : outcome A) : outcome A :=
  match m with Err _ => Err ErrEncoding | _ => m end.

Section Bounds.
Context {K : Type} (kc : KeyCodec K).
Variable prefix : string.

Definition EncodeKeyWithPrefix (key : K) : outcome string :=
  let keyBytes := copy_into (zeros (String.length prefix + Size key)) prefix in
  tail ← slice_from (String.length prefix) keyBytes;
  '(_, tail) ← wrap_encoding (Encode tail key);
  Ok (str_take (String.length prefix) keyBytes +:+ tail).

(** [None] is the nil slice, an end after every key. *)
Definition encodeRangeBound (bound : RangeKey K) : outcome (option string) :=
  key ← EncodeKeyWithPrefix (rk_key bound);
  match rk_kind bound with
  | rangeKeyExact => Ok (Some key)
  | rangeKeyNext => Ok (Some (nextBytesKey key))
  | rangeKeyPrefixEnd => Ok (nextBytesPrefixKey key)
  end.

(** [bytes.Compare(a, b) == 1], where a nil slice is an empty one. *)
Definition bytes_after (a b : option string) : bool := str_lt (default "" b) (default "" a).

Definition parseRangeInstruction (r : option (Ranger K)) : outcome (option string * option string * Z) :=
  '(start, end_, order) ← match r with Some ranger => ranger | None => Ok (None, None, OrderAscending) end;
  startBytes ← match start with Some start => encodeRangeBound start | None => Ok (Some prefix) end;
  endBytes ← match end_ with Some end_ => encodeRangeBound end_ | None => Ok (nextBytesPrefixKey prefix) end;
  if bytes_after startBytes endBytes then Err ErrInvalidIterator else Ok (startBytes, endBytes, order).
End Bounds.

(** ** Maps and their iterators *)

Section Map.
Context {K V : Type} (kc : KeyCodec K) (vc : ValueCodec V) {S I : Type} {HKV : KVStore S I} {HI : Iterator I}.
Variable prefix : string.

Definition Map_Set (key : K) (value : V) : GoM S unit :=
  bytesKey ← liftM (EncodeKeyWithPrefix kc prefix key);
  valueBytes ← liftM (wrap_encoding (vc_Encode value));
  kv_Set bytesKey valueBytes.
Definition Map_Get (key : K) : GoM S V :=
  bytesKey ← liftM (EncodeKeyWithPrefix kc prefix key);
  valueBytes ← kv_Get bytesKey;
  match valueBytes with
  | None => errM ErrNotFound
  | Some valueBytes => liftM (wrap_encoding (vc_Decode valueBytes))
  end.
Definition Map_Has (key : K) : GoM S bool :=
  bytesKey ← liftM (EncodeKeyWithPrefix kc prefix key);
  kv_Has bytesKey.
Definition Map_Remove (key : K) : GoM S unit :=
  bytesKey ← liftM (EncodeKeyWithPrefix kc prefix key);
  kv_Delete bytesKey.

(** [collections.Iterator] *)
Record CollIterator := mkCollIterator { iter : I; prefixLength : nat }.

Definition iter_Valid (i : CollIterator) : bool := it_Valid (iter i).
Definition iter_Next (i : CollIterator) : outcome CollIterator :=
  it ← it_Next (iter i); Ok (mkCollIterator it (prefixLength i)).
Definition iter_Key (i : CollIterator) : outcome K :=
  key ← it_Key (iter i);
  bytesKey ← slice_from (prefixLength i) key;
  '(read, key) ← Decode bytesKey;
  if (read =? String.length bytesKey)%nat then Ok key else Err ErrEncoding.
Definition iter_Value (i : CollIterator) : outcome V := v ← it_Value (iter i); vc_Decode (default "" v).
Definition iter_KeyValue (i : CollIterator) : outcome (K * V) :=
  key ← iter_Key i; value ← iter_Value i; Ok (key, value).

(** The loop [for ; i.Valid(); i.Next() { append(l, get(i)) }]. *)
Fixpoint iter_collect {A} (get : CollIterator → outcome A) (fuel : nat) (i : CollIterator) : outcome (list A) :=
  match fuel with
  | O => Panic "out of fuel"
  | Datatypes.S fuel =>
      if iter_Valid i then x ← get i; i ← iter_Next i; l ← iter_collect get fuel i; Ok (x :: l)
      else Ok []
  end.
Definition iter_Values : nat → CollIterator → outcome (list V) := iter_collect iter_Value.
Definition iter_Keys : nat → CollIterator → outcome (list K) := iter_collect iter_Key.
Definition iter_KeyValues : nat → CollIterator → outcome (list (K * V)) := iter_collect iter_KeyValue.

Definition newIterator (fuel : nat) (start end_ : option string) (order : Z) : GoM S CollIterator :=
  if order =? OrderAscending then
    it ← kv_Iterator fuel start end_; mret (mkCollIterator it (String.length prefix))
  else if order =? OrderDescending then
    it ← kv_ReverseIterator fuel start end_; mret (mkCollIterator it (String.length prefix))
  else errM errOrder.
Definition iteratorFromRanger (fuel : nat) (r : option (Ranger K)) : GoM S CollIterator :=
  '(startBytes, endBytes, order) ← liftM (parseRangeInstruction kc prefix r);
  newIterator fuel startBytes endBytes order.
Definition Map_Iterate (fuel : nat) (ranger : option (Ranger K)) : GoM S CollIterator := iteratorFromRanger fuel ranger.

(** [Walk]: the callback works on the variables it captures, of type [A], and
    does not write to the store it iterates over. *)
Fixpoint walk_loop {A} (walkFunc : K → V → A → outcome (bool * A)) (fuel : nat) (i : CollIterator) (vars : A) : outcome A :=
  match fuel with
  | O => Panic "out of fuel"
  | Datatypes.S fuel =>
      if iter_Valid i then
        '(key, value) ← iter_KeyValue i;
        '(stop, vars) ← walkFunc key value vars;
        if stop : bool then Ok vars else i ← iter_Next i; walk_loop walkFunc fuel i vars
      else Ok vars
  end.
Definition Map_Walk {A} (fuel : nat) (ranger : option (Ranger K)) (walkFunc : K → V → A → outcome (bool * A)) (vars : A)
    : GoM S A :=
  i ← Map_Iterate fuel ranger;
  liftM (walk_loop walkFunc fuel i vars).

(** [Clear] deletes in batches. *)
Definition clearBatchSize : nat := Z.to_nat 10000.
Fixpoint read_batch (fuel : nat) (it : I) (keys : list string) : outcome (list string) :=
  match fuel with
  | O => Panic "out of fuel"
  | Datatypes.S fuel =>
      if it_Valid it && (length keys <? clearBatchSize)%nat then
        key ← it_Key it; it ← it_Next it; read_batch fuel it (keys ++ [key])
      else Ok keys
  end.
Fixpoint deleteDomain (fuel : nat) (start end_ : option string) : GoM S unit :=
  match fuel with
  | O => panicM "out of fuel"
  | Datatypes.S fuel' =>
      it ← kv_Iterator fuel start end_;
      keys ← liftM (read_batch fuel it []);
      _ ← forM_ kv_Delete keys;
      if (length keys <? clearBatchSize)%nat then mret tt else deleteDomain fuel' start end_
  end.
Definition Map_Clear (fuel : nat) (ranger : option (Ranger K)) : GoM S unit :=
  '(startBytes, endBytes, _) ← liftM (parseRangeInstruction kc prefix ranger);
  deleteDomain fuel startBytes endBytes.

(** [IterateRaw]: both bounds are appended to the same slice [m.prefix].  When
    its array has [spare] bytes of capacity after the prefix and both appended
    parts fit into them, the second append overwrites the bytes of the first. *)
Definition IterateRaw (spare fuel : nat) (start end_ : option string) (order : Z) : GoM S CollIterator :=
  let start := default "" start in
  let fits b := (String.length b <=? spare)%nat in
  let '(prefixedStart, prefixedEnd) :=
    match end_ with
    | None => (prefix +:+ start, nextBytesPrefixKey prefix)
    | Some end_ =>
        (prefix +:+ (if fits start && fits end_ then copy_into start end_ else start), Some (prefix +:+ end_))
    end in
  if bytes_after (Some prefixedStart) prefixedEnd then errM ErrInvalidIterator
  else newIterator fuel (Some prefixedStart) prefixedEnd order.
End Map.
Arguments CollIterator I : clear implicits.

(** ** Items: item.go *)

Abbreviation noKey := unit.
Definition noKeyCodec : KeyCodec noKey := {|
  Encode buffer _ := Ok (0%nat, buffer);
  Decode _ := Ok (0%nat, tt);
  Size _ := 0%nat;
  EncodeNonTerminal _ _ := Panic "must not be called";
  DecodeNonTerminal _ := Panic "must not be called";
  SizeNonTerminal _ := 0%nat
|}.

Section Item.
Context {V : Type} (vc : ValueCodec V) {S I : Type} {HKV : KVStore S I}.
Variable prefix : string.

Definition Item_Get : GoM S V := Map_Get noKeyCodec vc prefix tt.
Definition Item_Set (value : V) : GoM S unit := Map_Set noKeyCodec vc prefix tt value.
Definition Item_Has : GoM S bool := Map_Has noKeyCodec prefix tt.
Definition Item_Remove : GoM S unit := Map_Remove noKeyCodec prefix tt.

(** [v, err := item.Get(ctx)] where a missing item is not an error. *)
Definition get_or (def : V) : GoM S V := λ s,
  match Item_Get s with
  | (Err e, s') => if str_eq e ErrNotFound then (Ok def, s') else (Err e, s')
  | r => r
  end.
End Item.

(** ** Sequences: sequence.go *)

Section Sequence.
Context {S I : Type} {HKV : KVStore S I}.
Variable prefix : string.

Definition DefaultSequenceStart : Z := 0.
Definition Sequence_Peek : GoM S Z := get_or Uint64Value prefix DefaultSequenceStart.
Definition Sequence_Set (value : Z) : GoM S unit := Item_Set Uint64Value prefix value.
Definition Sequence_Next : GoM S Z :=
  seq ← Sequence_Peek;
  _ ← Sequence_Set (wrap_uint64 (seq + 1));
  mret seq.
End Sequence.

(** ** Key sets: keyset.go *)

Definition noValue_Decode (b : string) : outcome unit := if str_eq b "" then Ok tt else Err ErrEncoding.
Definition noValueCodec : ValueCodec unit := {| vc_Encode _ := Ok (Some ""); vc_Decode := noValue_Decode |}.
(** [WithKeySetUncheckedValue]: keep reading sets written with another value. *)
Definition uncheckedValueCodec : ValueCodec unit := AltValueCodec noValueCodec (λ _, Ok tt).

Section KeySet.
Context {K : Type} (kc : KeyCodec K) (vc : ValueCodec unit) {S I : Type} {HKV : KVStore S I} {HI : Iterator I}.
Variable prefix : string.

Definition KeySet_Set (key : K) : GoM S unit := Map_Set kc vc prefix key tt.
Definition KeySet_Has (key : K) : GoM S bool := Map_Has kc prefix key.
Definition KeySet_Remove (key : K) : GoM S unit := Map_Remove kc prefix key.
Definition KeySet_Iterate (fuel : nat) (ranger : option (Ranger K)) : GoM S (CollIterator I) := Map_Iterate kc prefix fuel ranger.
Definition KeySet_Walk {A} (fuel : nat) (ranger : option (Ranger K)) (walkFunc : K → A → outcome (bool * A)) (vars : A) : GoM S A :=
  Map_Walk kc vc prefix fuel ranger (λ key _, walkFunc key) vars.
Definition KeySet_Clear (fuel : nat) (ranger : option (Ranger K)) : GoM S unit := Map_Clear kc prefix fuel ranger.
End KeySet.

(** ** Vectors: vec.go *)

Definition ErrEmptyVec : string := "vec is empty".
Definition ErrOutOfBounds : string := "vec index is out of bounds".

(** The prefixes of the two collections [NewVec] creates, both appended to the
    same slice: with spare capacity in its array they are one prefix. *)
Definition vec_prefixes (prefix : string) (spare : nat) : string * string :=
  let elementsPrefix := prefix +:+ String (byte 0) "" in
  let lengthPrefix := if (1 <=? spare)%nat then elementsPrefix else prefix +:+ String (byte 1) "" in
  (lengthPrefix, elementsPrefix).

Section Vec.
Context {T : Type} (vc : ValueCodec T) {S I : Type} {HKV : KVStore S I}.
Variables lengthPrefix elementsPrefix : string.

(** [length, err := v.length.Get(ctx)]: zero when there is no length yet. *)
Definition vec_length : GoM S Z := get_or Uint64Value lengthPrefix 0.
Definition Vec_Push (elem : T) : GoM S unit :=
  length ← vec_length;
  _ ← Map_Set Uint64Key vc elementsPrefix length elem;
  Item_Set Uint64Value lengthPrefix (wrap_uint64 (length + 1)).
Definition Vec_Pop : GoM S T :=
  length ← vec_length;
  if length =? 0 then errM ErrEmptyVec
  else let length := length - 1 in
       elem ← Map_Get Uint64Key vc elementsPrefix length;
       _ ← Map_Remove Uint64Key elementsPrefix length;
       _ ← Item_Set Uint64Value lengthPrefix length;
       mret elem.
Definition Vec_Replace (index : Z) (elem : T) : GoM S unit :=
  length ← vec_length;
  if length <=? index then errM ErrOutOfBounds
  else Map_Set Uint64Key vc elementsPrefix index elem.
Definition Vec_Get (index : Z) : GoM S T := λ s,
  match Map_Get Uint64Key vc elementsPrefix index s with
  | (Err e, s') => (Err (if str_eq e ErrNotFound then ErrOutOfBounds else e), s')
  | r => r
  end.
Definition Vec_Len : GoM S Z := vec_length.
End Vec.
