(* ===== verification/CollMapProps.v ===== *)
(** * Collections refine finite maps

    The contract of a value codec, the relation between a typed finite map and
    the bytes of a lawful store that represent it, and the theorems that a
    [Map] acts like a finite map: point operations, iteration in key order over
    ranges, and clearing, without touching keys outside its prefix; that a
    sequence hands out consecutive numbers; and that a vector is a list. *)
From S2P Require Import Prelude Bytes KVStore PrefixStore KeyCodec Collections CollMap.

(** ** The contract of a value codec *)

Class ValueCodecLaws {V} (vc : ValueCodec V) := {
  vc_dom : V → Prop;
  vc_bytes : V → string;
  vc_Encode_bytes v : vc_dom v → vc_Encode v = Ok (Some (vc_bytes v));
  vc_bytes_valid v : vc_dom v → valid_value (vc_bytes v);
  vc_Decode_bytes v : vc_dom v → vc_Decode (vc_bytes v) = Ok v
}.
#[global] Hint Mode ValueCodecLaws ! ! : typeclass_instances.

#[global] Instance KeyToValueCodec_laws {K} {kc : KeyCodec K} (KL : KeyCodecLaws kc) : ValueCodecLaws (KeyToValueCodec kc).
Proof.
  refine {| vc_dom (k : K) := kc_dom k ∧ valid_value (kc_bytes k); vc_bytes := kc_bytes |}; intros k [Hk Hv].
  - cbn. unfold keyToValue_Encode. by rewrite Encode_zeros.
  - done.
  - cbn. unfold keyToValue_Decode. rewrite Decode_bytes by done. cbn. by rewrite Nat.eqb_refl.
Defined.
#[global] Instance Uint64Value_laws : ValueCodecLaws Uint64Value := KeyToValueCodec_laws Uint64Key_laws.
#[global] Instance noValueCodec_laws : ValueCodecLaws noValueCodec.
Proof. by refine {| vc_dom (_ : unit) := True; vc_bytes (_ : unit) := "" |}; intros []. Defined.
(** An alternative decoder does not change what the canonical one can read. *)
#[global] Instance AltValueCodec_laws {V} {vc : ValueCodec V} (VL : ValueCodecLaws vc) alt : ValueCodecLaws (AltValueCodec vc alt).
Proof.
  refine {| vc_dom := vc_dom (vc := vc); vc_bytes := vc_bytes (vc := vc) |}; intros v Hv;
    [exact (vc_Encode_bytes v Hv)|exact (vc_bytes_valid v Hv)|].
  cbn. unfold AltValue_Decode. by rewrite (vc_Decode_bytes v Hv).
Defined.
#[global] Instance noKeyCodec_laws : KeyCodecLaws noKeyCodec.
Proof. by refine {| kc_dom (_ : unit) := True; kc_ndom (_ : unit) := False; kc_bytes (_ : unit) := ""; kc_nbytes (_ : unit) := "" |}; intros []. Defined.
#[global] Instance noKeyCodec_ordered : OrderedKey noKeyCodec_laws (λ _ _, False).
Proof. split; try done. intros [] []. auto. Qed.

Lemma EncodeKeyWithPrefix_bytes {K} (kc : KeyCodec K) prefix key n b :
  Encode (zeros (Size key)) key = Ok (n, b) → EncodeKeyWithPrefix kc prefix key = Ok (prefix +:+ b).
Proof.
  intros H. unfold EncodeKeyWithPrefix.
  rewrite zeros_app, copy_into_app by apply zeros_length. rewrite slice_from_app. cbn [mbind outcome_bind].
  rewrite H. cbn. by rewrite str_take_app.
Qed.

(** The byte string after [a] is the least one above it. *)
Lemma slt_next a k : slt k (nextBytesKey a) ↔ ¬ slt a k.
Proof.
  unfold nextBytesKey. revert k. induction a as [|c a IH]; intros k.
  - destruct k as [|d k]; [split; [intros _ ?%slt_irrefl; done|done]|]. cbn [zeros]. change ("" +:+ ?s) with s. rewrite slt_cons. split.
    + intros [Hd|[_ ?%slt_nil_r]]; [|done]. pose proof (code_range d). rewrite code_byte, Z.mod_0_l in Hd; lia.
    + intros []. apply slt_nil_cons.
  - rewrite str_app_cons. destruct k as [|d k]; [split; [intros _ ?%slt_nil_r; done|intros _; apply slt_nil_cons]|].
    rewrite !slt_cons, IH. destruct (decide (d = c)) as [->|Hne]; [naive_solver lia|].
    assert (code c ≠ code d) by (intros ?%code_inj; congruence). naive_solver lia.
Qed.

Lemma prefix_end_app p q : prefix_end (p +:+ q) = match prefix_end q with Some e => Some (p +:+ e) | None => prefix_end p end.
Proof.
  induction p as [|c p IH]; [change ("" +:+ q) with q; by destruct (prefix_end q)|]. rewrite str_app_cons. cbn [prefix_end]. rewrite IH.
  destruct (prefix_end q); done.
Qed.

Lemma Forall_image {A B} (f : A → B) (P : A → Prop) L : Forall (λ y, ∃ x, y = f x ∧ P x) L → ∃ l, L = map f l ∧ Forall P l.
Proof.
  induction 1 as [|y L (x & -> & Hx) _ (l & -> & Hl)]; [by exists []|]. exists (x :: l). split; [done|]. by constructor.
Qed.

(** ** What the store holds for a collection *)

Section Represents.
Context {K V : Type} `{Countable K} {kc : KeyCodec K} {KL : KeyCodecLaws kc} {vc : ValueCodec V} {VL : ValueCodecLaws vc}.
Context {S I : Type} {HKV : KVStore S I} {HI : Iterator I} {HL : KVStoreLaws S I}.
Variable prefix : string.

(** Keys the codec can encode and the store accepts. *)
Definition coll_key (k : K) : Prop := kc_dom k ∧ kv_key (S := S) (prefix +:+ kc_bytes k).
(** The store holds exactly the encoded entries of [m] under the prefix. *)
Definition represents (m : gmap K V) (s : S) : Prop :=
  kv_ok s ∧ (∀ k v, m !! k = Some v → coll_key k ∧ vc_dom v) ∧
  ∀ b x, kv_view s !! (prefix +:+ b) = Some x ↔ ∃ k v, m !! k = Some v ∧ b = kc_bytes k ∧ x = vc_bytes v.
(** Nothing changed outside the prefix. *)
Definition framed (s s' : S) : Prop := ∀ b, HasPrefix b prefix = false → kv_view s' !! b = kv_view s !! b.

#[local] Instance framed_trans : Transitive framed.
Proof. intros s1 s2 s3 H1 H2 b Hb. by rewrite H2, H1. Qed.
Lemma framed_eq s s' : kv_view s' = kv_view s → framed s s'.
Proof. by intros E b _; rewrite E. Qed.
Lemma represents_eq m s s' : represents m s → kv_ok s' → kv_view s' = kv_view s → represents m s'.
Proof. intros (_ & Hm & Hv) Hok E. split; [done|]. split; [done|]. by rewrite E. Qed.

Lemma represents_lookup m s k : represents m s → kc_dom k → kv_view s !! (prefix +:+ kc_bytes k) = vc_bytes <$> m !! k.
Proof.
  intros (_ & Hm & Hv) Hk. apply option_eq. intros x. rewrite Hv, fmap_Some. split.
  - intros (k' & v & Hl & E & ->). apply kc_bytes_inj in E as <-; [by eauto|done|by apply (Hm k' v)].
  - intros (v & Hl & ->). eauto.
Qed.
Lemma represents_insert m s s' k v : represents m s → coll_key k → vc_dom v → kv_ok s' →
  kv_view s' = <[prefix +:+ kc_bytes k := vc_bytes v]> (kv_view s) → represents (<[k := v]> m) s' ∧ framed s s'.
Proof.
  intros (_ & Hm & Hv) Hk Hd Hok E. split; [split; [done|split]|].
  - intros k' v' [[<- <-]|[_ ?]]%lookup_insert_Some; [done|by apply Hm].
  - intros b x. rewrite E, lookup_insert_Some. destruct (decide (b = kc_bytes k)) as [->|Hb].
    + split.
      * intros [[_ <-]|[? _]]; [|done]. exists k, v. by rewrite lookup_insert_eq.
      * intros (k' & v' & Hl & Eb & ->). left. split; [done|].
        apply lookup_insert_Some in Hl as [[_ <-]|[Hne Hl]]; [done|].
        destruct Hne. apply kc_bytes_inj; [by apply Hk|by apply (Hm _ _ Hl)|done].
    + assert (prefix +:+ kc_bytes k ≠ prefix +:+ b) as Hp by (intros Ep; by apply (inj (String.app prefix)) in Ep).
      transitivity (kv_view s !! (prefix +:+ b) = Some x); [naive_solver|]. rewrite Hv.
      split; intros (k' & v' & Hl & -> & ->); exists k', v'; (split; [|done]).
      * rewrite lookup_insert_ne; [done|]. by intros <-.
      * rewrite lookup_insert_ne in Hl; [done|]. by intros <-.
  - intros b Hb. rewrite E, lookup_insert_ne; [done|]. intros <-. by rewrite HasPrefix_app in Hb.
Qed.
Lemma represents_delete m s s' k : represents m s → kc_dom k → kv_ok s' →
  kv_view s' = delete (prefix +:+ kc_bytes k) (kv_view s) → represents (delete k m) s' ∧ framed s s'.
Proof.
  intros (_ & Hm & Hv) Hk Hok E. split; [split; [done|split]|].
  - intros k' v' [_ ?]%lookup_delete_Some. by apply Hm.
  - intros b x. rewrite E, lookup_delete_Some, Hv. split.
    + intros [Hne (k' & v' & Hl & -> & ->)]. exists k', v'. rewrite lookup_delete_ne; [done|]. by intros <-.
    + intros (k' & v' & [Hne Hl]%lookup_delete_Some & -> & ->). split; [|by eauto].
      intros Ep%(inj (String.app prefix)). apply Hne. apply kc_bytes_inj; [done|by apply (Hm _ _ Hl)|done].
  - intros b Hb. rewrite E, lookup_delete_ne; [done|]. intros <-. by rewrite HasPrefix_app in Hb.
Qed.

(** *** Point operations *)

Lemma encoded_key k : kc_dom k → EncodeKeyWithPrefix kc prefix k = Ok (prefix +:+ kc_bytes k).
Proof. intros Hk. by eapply EncodeKeyWithPrefix_bytes, Encode_zeros. Qed.

Lemma Map_Get_spec m s k : represents m s → coll_key k → ∃ s',
  Map_Get kc vc prefix k s = (from_option Ok (Err ErrNotFound) (m !! k), s') ∧ represents m s' ∧ framed s s'.
Proof.
  intros Hr [Hd Hk]. destruct (kv_Get_spec _ s (proj1 Hr) Hk) as (s' & Hg & Hok & Hv). exists s'.
  split; [|by split; [eapply represents_eq|apply framed_eq]].
  unfold Map_Get. rewrite (liftM_bind_run _ _ _ _ (encoded_key k Hd)), (GoM_bind_run _ _ _ _ _ Hg).
  rewrite (represents_lookup m) by done. destruct (m !! k) as [v|] eqn:E; cbn; [|done].
  unfold liftM. by rewrite vc_Decode_bytes by (by apply (proj1 (proj2 Hr) k)).
Qed.
Lemma Map_Has_spec m s k : represents m s → coll_key k → ∃ s',
  Map_Has kc prefix k s = (Ok (bool_decide (is_Some (m !! k))), s') ∧ represents m s' ∧ framed s s'.
Proof.
  intros Hr [Hd Hk]. destruct (kv_Has_spec _ s (proj1 Hr) Hk) as (s' & Hg & Hok & Hv). exists s'.
  split; [|by split; [eapply represents_eq|apply framed_eq]].
  unfold Map_Has. rewrite (liftM_bind_run _ _ _ _ (encoded_key k Hd)), Hg, (represents_lookup m) by done.
  f_equal. f_equal. apply bool_decide_ext. by rewrite fmap_is_Some.
Qed.
Lemma Map_Set_spec m s k v : represents m s → coll_key k → vc_dom v → ∃ s',
  Map_Set kc vc prefix k v s = (Ok tt, s') ∧ represents (<[k := v]> m) s' ∧ framed s s'.
Proof.
  intros Hr [Hd Hk] Hv. destruct (kv_Set_spec _ _ s (proj1 Hr) Hk (vc_bytes_valid v Hv)) as (s' & Hs & Hok & E). exists s'.
  split; [|by eapply represents_insert]. unfold Map_Set. rewrite (liftM_bind_run _ _ _ _ (encoded_key k Hd)).
  rewrite (liftM_bind_run _ _ (Some (vc_bytes v))); [done|]. by rewrite vc_Encode_bytes.
Qed.
Lemma Map_Remove_spec m s k : represents m s → coll_key k → ∃ s',
  Map_Remove kc prefix k s = (Ok tt, s') ∧ represents (delete k m) s' ∧ framed s s'.
Proof.
  intros Hr [Hd Hk]. destruct (kv_Delete_spec _ s (proj1 Hr) Hk) as (s' & Hs & Hok & E). exists s'.
  split; [|by eapply represents_delete]. unfold Map_Remove. by rewrite (liftM_bind_run _ _ _ _ (encoded_key k Hd)).
Qed.
End Represents.

(** ** Iteration *)

Section Iterate.
Context {K V : Type} `{Countable K} {kc : KeyCodec K} {KL : KeyCodecLaws kc} {vc : ValueCodec V} {VL : ValueCodecLaws vc}.
Context {S I : Type} {HKV : KVStore S I} {HI : Iterator I} {HL : KVStoreLaws S I}.
Variable prefix : string.
Hypothesis prefix_nonempty : prefix ≠ "".
Implicit Types m : gmap K V.

(** The store's item for an entry. *)
Definition raw_item (x : K * V) : item := (prefix +:+ kc_bytes x.1, Some (vc_bytes x.2)).
(** The entries of a map whose key bytes are in a domain, in byte order. *)
Definition entries_in (asc : bool) (start end_ : option string) m (l : list (K * V)) : Prop :=
  StronglySorted (λ x y, klt asc (kc_bytes x.1) (kc_bytes y.1)) l ∧
  ∀ k v, (k, v) ∈ l ↔ m !! k = Some v ∧ IsKeyInDomain (kc_bytes k) start end_ = true.

Lemma raw_sorted asc l : sorted asc (map raw_item l) → StronglySorted (λ x y, klt asc (kc_bytes x.1) (kc_bytes y.1)) l.
Proof.
  induction l as [|x l IH]; [constructor|]. cbn [map]. intros [Hs Hf]%sorted_cons. constructor; [auto|].
  apply Forall_forall. intros y Hy. rewrite Forall_forall in Hf. specialize (Hf (raw_item y) (list_elem_of_fmap_2 raw_item l y Hy)).
  cbn in Hf |- *. unfold klt in *. destruct asc; by apply slt_app in Hf.
Qed.
Lemma range_entries asc start end_ m s : represents prefix m s → ∃ l,
  range asc (newstart prefix start) (newend prefix end_) (Some <$> kv_view s) = map raw_item l ∧
  Forall (λ x, m !! x.1 = Some x.2) l ∧ entries_in asc start end_ m l.
Proof.
  intros (Hok & Hm & Hv). set (L := range _ _ _ _).
  destruct (Forall_image raw_item (λ x, m !! x.1 = Some x.2) L) as (l & HL' & Hl).
  { apply Forall_forall. intros [b x] [Hb (t & -> & Hd)%prefix_domain]%elem_of_range.
    apply lookup_fmap_Some in Hb as (x' & <- & (k & v & Hk & -> & ->)%Hv). by exists (k, v). }
  exists l. split; [done|]. split; [done|]. split.
  - apply raw_sorted. rewrite <- HL'. apply range_sorted.
  - intros k v. split.
    + intros Hin. pose proof (proj1 (Forall_forall _ _) Hl _ Hin) as Hk. cbn in Hk. split; [done|].
      assert (raw_item (k, v) ∈ L) as HinL by (rewrite HL'; by apply list_elem_of_fmap_2).
      apply elem_of_range in HinL as [_ (t & E & Hd)%prefix_domain]. cbn in E. by apply (inj (String.app prefix)) in E as ->.
    + intros [Hk Hd]. assert (raw_item (k, v) ∈ L) as HinL.
      { apply elem_of_range. split; [|apply prefix_domain; by eauto].
        cbn. rewrite lookup_fmap, (represents_lookup prefix m) by (done || by apply (Hm k v)). by rewrite Hk. }
      rewrite HL' in HinL. apply list_elem_of_fmap in HinL as ([k' v'] & [= E Ev] & Hin).
      pose proof (proj1 (Forall_forall _ _) Hl _ Hin) as Hk'. cbn in Hk'. apply (inj (String.app prefix)) in E.
      apply kc_bytes_inj in E as <-; [|by apply (Hm k v)|by apply (Hm k' v')]. congruence.
Qed.

(** The typed iterator decodes what the store's iterator yields. *)
Lemma collect_yields {A} (get : CollIterator I → outcome A) (f : K * V → A) l : ∀ i fuel,
  (∀ x i', x ∈ l → it_Key (iter i') = Ok (raw_item x).1 → it_Value (iter i') = Ok (raw_item x).2 →
     prefixLength i' = String.length prefix → get i' = Ok (f x)) →
  prefixLength i = String.length prefix → yields (iter i) (map raw_item l) → (length l < fuel)%nat →
  iter_collect get fuel i = Ok (map f l).
Proof.
  induction l as [|x l IH]; intros [it n] [|fuel] Hg Hn Hy Hf; cbn in Hn, Hf, Hy; try lia; subst n; inversion Hy; subst;
    cbn [iter_collect]; unfold iter_Valid; cbn [iter].
  - by match goal with E : it_Valid _ = false |- _ => rewrite E end.
  - match goal with E : it_Valid _ = true |- _ => rewrite E end.
    rewrite (Hg x) by (done || by left). cbn [mbind outcome_bind]. unfold iter_Next. cbn [iter].
    match goal with E : it_Next _ = Ok _ |- _ => rewrite E end. cbn [mbind outcome_bind prefixLength].
    rewrite IH; [done| |done|done|lia]. intros y i' Hy'. apply Hg. by right.
Qed.
Lemma iter_Key_raw x (i : CollIterator I) : kc_dom x.1 → it_Key (iter i) = Ok (raw_item x).1 →
  prefixLength i = String.length prefix → iter_Key kc i = Ok x.1.
Proof.
  intros Hd Hk Hn. unfold iter_Key. rewrite Hk, Hn. cbn. rewrite slice_from_app. cbn. rewrite Decode_bytes by done. cbn.
  by rewrite Nat.eqb_refl.
Qed.
Lemma iter_KeyValue_raw x (i : CollIterator I) : kc_dom x.1 → vc_dom x.2 → it_Key (iter i) = Ok (raw_item x).1 →
  it_Value (iter i) = Ok (raw_item x).2 → prefixLength i = String.length prefix → iter_KeyValue kc vc i = Ok x.
Proof.
  intros Hd Hv Hk Hx Hn. unfold iter_KeyValue. rewrite (iter_Key_raw x) by done. cbn. unfold iter_Value. rewrite Hx. cbn.
  rewrite vc_Decode_bytes by done. cbn. by destruct x.
Qed.

(** An iterator over the entries [l] of a collection. *)
Definition iterates (i : CollIterator I) (l : list (K * V)) : Prop :=
  prefixLength i = String.length prefix ∧ yields (iter i) (map raw_item l) ∧ Forall (λ x, kc_dom x.1 ∧ vc_dom x.2) l.
Lemma iterates_KeyValues i l fuel : iterates i l → (length l < fuel)%nat → iter_KeyValues kc vc fuel i = Ok l.
Proof.
  intros (Hn & Hy & Hl) Hf. unfold iter_KeyValues. rewrite <- (map_id l) at 1. apply collect_yields; [|done..].
  intros x i' Hx. rewrite Forall_forall in Hl. destruct (Hl x Hx). intros. by apply iter_KeyValue_raw.
Qed.
Lemma iterates_Keys i l fuel : iterates i l → (length l < fuel)%nat → iter_Keys kc fuel i = Ok (map fst l).
Proof.
  intros (Hn & Hy & Hl) Hf. apply collect_yields; [|done..].
  intros x i' Hx. rewrite Forall_forall in Hl. destruct (Hl x Hx). intros. by apply iter_Key_raw.
Qed.
(** [Walk] folds its callback over the entries until it asks to stop. *)
Fixpoint walk_list {A} (walkFunc : K → V → A → outcome (bool * A)) (l : list (K * V)) (vars : A) : outcome A :=
  match l with
  | [] => Ok vars
  | (k, v) :: l => '(stop, vars) ← walkFunc k v vars; if stop : bool then Ok vars else walk_list walkFunc l vars
  end.
Lemma iterates_walk {A} (walkFunc : K → V → A → outcome (bool * A)) l : ∀ i vars fuel,
  iterates i l → (length l < fuel)%nat → walk_loop kc vc walkFunc fuel i vars = walk_list walkFunc l vars.
Proof.
  induction l as [|x l IH]; intros [it n] vars [|fuel] (Hn & Hy & Hl) Hf; cbn in Hn, Hf, Hy; try lia; subst n; inversion Hy; subst;
    cbn [walk_loop walk_list]; unfold iter_Valid; cbn [iter].
  - by match goal with E : it_Valid _ = false |- _ => rewrite E end.
  - apply Forall_cons in Hl as [[Hk Hv] Hl]. match goal with E : it_Valid _ = true |- _ => rewrite E end.
    rewrite (iter_KeyValue_raw x) by done. destruct x as [k v]. cbn [mbind outcome_bind].
    destruct (walkFunc k v vars) as [[[] vars']| |]; cbn [mbind outcome_bind]; [done| |done|done].
    unfold iter_Next. cbn [iter]. match goal with E : it_Next _ = Ok _ |- _ => rewrite E end. cbn [mbind outcome_bind prefixLength].
    apply IH; [done|lia].
Qed.

Definition order_of (asc : bool) : Z := if asc then OrderAscending else OrderDescending.
Lemma newIterator_spec asc start end_ m s : represents prefix m s → ∃ n s' l,
  represents prefix m s' ∧ kv_view s' = kv_view s ∧ entries_in asc start end_ m l ∧
  ∀ fuel, (n <= fuel)%nat → (length l < fuel)%nat ∧ ∃ i,
    newIterator prefix fuel (newstart prefix start) (newend prefix end_) (order_of asc) s = (Ok i, s') ∧ iterates i l.
Proof.
  intros Hr. destruct (range_entries asc start end_ m s Hr) as (l & HL' & Hl & Hen).
  pose proof (prefix_bounds prefix prefix_nonempty start end_) as Hb.
  assert (∃ n s', kv_ok s' ∧ kv_view s' = kv_view s ∧ ∀ fuel, (n <= fuel)%nat → ∃ it,
    (if asc then kv_Iterator fuel (newstart prefix start) (newend prefix end_)
     else kv_ReverseIterator fuel (newstart prefix start) (newend prefix end_)) s = (Ok it, s') ∧ yields it (map raw_item l))
    as (n & s' & H1 & H2 & Hit) by (rewrite <- HL'; destruct asc; [apply kv_Iterator_spec|apply kv_ReverseIterator_spec];
      try done; apply Hr).
  exists (n `max` Datatypes.S (length l))%nat, s', l. split; [by eapply represents_eq|]. split; [done|]. split; [done|].
  intros fuel Hf. split; [lia|]. destruct (Hit fuel) as (it & Hi & Hy); [lia|].
  exists (mkCollIterator it (String.length prefix)). unfold newIterator, order_of. split.
  - destruct asc; [change (OrderAscending =? OrderAscending) with true
      |change (OrderDescending =? OrderAscending) with false; change (OrderDescending =? OrderDescending) with true];
      cbn match; by rewrite (GoM_bind_run _ _ _ _ _ Hi).
  - split; [done|]. split; [done|]. eapply Forall_impl; [exact Hl|]. intros x Hx.
    destruct (proj1 (proj2 Hr) _ _ Hx) as [[??]?]. done.
Qed.
End Iterate.

(** ** Clearing *)

Section Clear.
Context {K V : Type} `{Countable K} {kc : KeyCodec K} {KL : KeyCodecLaws kc} {vc : ValueCodec V} {VL : ValueCodecLaws vc}.
Context {S I : Type} {HKV : KVStore S I} {HI : Iterator I} {HL : KVStoreLaws S I}.
Variable prefix : string.
Hypothesis prefix_nonempty : prefix ≠ "".
Implicit Types m : gmap K V.
#[local] Existing Instance framed_trans.

Lemma clearBatchSize_pos : (1 <= clearBatchSize)%nat.
Proof. unfold clearBatchSize. lia. Qed.
#[local] Opaque clearBatchSize.

(** A batch is the first [clearBatchSize] keys of the iteration. *)
Lemma read_batch_yields (it : I) L : yields it L → ∀ fuel keys, (length L < fuel)%nat →
  read_batch fuel it keys = Ok (keys ++ take (clearBatchSize - length keys) (L.*1)).
Proof.
  induction 1 as [it Hv|it it' k v l Hv Hk _ Hn _ IH]; intros [|fuel] keys Hf; cbn in Hf; try lia; cbn [read_batch]; rewrite Hv.
  - cbn. by rewrite take_nil, app_nil_r.
  - cbn [andb]. destruct (Nat.ltb_spec (length keys) clearBatchSize) as [Hlt|Hge].
    + rewrite Hk, Hn. cbn [mbind outcome_bind]. rewrite IH by lia. rewrite length_app. cbn [length].
      replace (clearBatchSize - length keys)%nat with (Datatypes.S (clearBatchSize - (length keys + 1))) by lia.
      by rewrite <- app_assoc.
    + replace (clearBatchSize - length keys)%nat with O by lia. by rewrite app_nil_r.
Qed.

Definition delete_entries m (l : list (K * V)) : gmap K V := foldl (λ m x, delete x.1 m) m l.
Lemma lookup_delete_entries l : ∀ m k v, delete_entries m l !! k = Some v ↔ m !! k = Some v ∧ k ∉ l.*1.
Proof.
  induction l as [|x l IH]; intros m k v; cbn.
  - split; [|by intros [? _]]. intros. split; [done|]. apply not_elem_of_nil.
  - rewrite (IH (delete x.1 m)), lookup_delete_Some, not_elem_of_cons. naive_solver.
Qed.
Lemma delete_entries_size l : ∀ m, (size (delete_entries m l) <= size m)%nat.
Proof.
  induction l as [|x l IH]; intros m; cbn; [done|]. etransitivity; [apply IH|].
  rewrite map_size_delete. destruct (m !! x.1); unfold id; lia.
Qed.
Lemma delete_batch l : ∀ m s, represents prefix m s → Forall (λ x, coll_key (S := S) prefix x.1) l → ∃ s',
  forM_ kv_Delete (map (raw_item prefix) l).*1 s = (Ok tt, s') ∧ represents prefix (delete_entries m l) s' ∧ framed prefix s s'.
Proof.
  induction l as [|x l IH]; intros m s Hr Hl; [by exists s|]. apply Forall_cons in Hl as [[Hd Hk] Hl].
  destruct (kv_Delete_spec _ s (proj1 Hr) Hk) as (s1 & Hs & Hok & E).
  destruct (represents_delete prefix m s s1 x.1 Hr Hd Hok E) as [Hr1 Hf1].
  destruct (IH _ _ Hr1 Hl) as (s' & Hrun & Hr' & Hf'). exists s'. split; [|split; [done|by etransitivity]].
  cbn [map fmap list_fmap forM_]. cbn [raw_item fst]. by rewrite (GoM_bind_run _ _ _ _ _ Hs).
Qed.

(** The map without the entries in a domain. *)
Definition cleared (start end_ : option string) m : gmap K V :=
  filter (λ x, IsKeyInDomain (kc_bytes x.1) start end_ = false) m.

(** One round of the loop deletes the first batch of entries in the domain. *)
Lemma delete_round start end_ m s : represents prefix m s → ∃ n s' l keys,
  entries_in true start end_ m l ∧ Forall (λ x, m !! x.1 = Some x.2) l ∧ length keys = length (take clearBatchSize l) ∧
  represents prefix (delete_entries m (take clearBatchSize l)) s' ∧ framed prefix s s' ∧
  ∀ fuel (f : list string → GoM S unit), (n <= fuel)%nat →
    (it ← kv_Iterator fuel (newstart prefix start) (newend prefix end_);
     keys ← liftM (read_batch fuel it []); _ ← forM_ kv_Delete keys; f keys) s = f keys s'.
Proof.
  intros Hr. destruct (range_entries prefix true start end_ m s Hr) as (l & HL' & Hl & Hin).
  destruct (kv_Iterator_spec _ _ s (proj1 Hr) (prefix_bounds prefix prefix_nonempty start end_)) as (n & s1 & Hok1 & E1 & Hit).
  rewrite HL' in Hit. pose proof (represents_eq prefix m s s1 Hr Hok1 E1) as Hr1. set (batch := take clearBatchSize l).
  assert (Forall (λ x, coll_key (S := S) prefix x.1) batch) as Hb.
  { apply Forall_take. eapply Forall_impl; [exact Hl|]. intros x Hx. apply (proj1 (proj2 Hr) _ _ Hx). }
  destruct (delete_batch batch m s1 Hr1 Hb) as (s2 & Hd & Hr2 & Hf2).
  exists (n `max` Datatypes.S (length l))%nat, s2, l, ((map (raw_item prefix) batch).*1).
  split; [done|]. split; [done|]. split; [by rewrite length_fmap, length_map|]. split; [done|].
  split; [etransitivity; [by apply framed_eq|done]|].
  intros fuel f Hn. destruct (Hit fuel ltac:(lia)) as (it & Hi & Hy). rewrite (GoM_bind_run _ _ _ _ _ Hi).
  rewrite (liftM_bind_run _ _ ((map (raw_item prefix) batch).*1)); [by rewrite (GoM_bind_run _ _ _ _ _ Hd)|].
  rewrite (read_batch_yields _ _ Hy) by (rewrite length_map; lia). cbn [length app]. rewrite Nat.sub_0_r.
  unfold batch. by rewrite <- !fmap_take.
Qed.

(** A full batch makes the map smaller; when the last batch is not full, or
    before it, deleting it is a step towards the cleared map. *)
Lemma delete_batch_size m l : Forall (λ x, m !! x.1 = Some x.2) l → (clearBatchSize <= length l)%nat →
  (size (delete_entries m (take clearBatchSize l)) < size m)%nat.
Proof.
  intros Hl Hlen. pose proof clearBatchSize_pos. destruct l as [|x l']; [cbn in Hlen; lia|].
  destruct clearBatchSize as [|B]; [lia|]. cbn. apply Forall_cons in Hl as [Hx _].
  pose proof (delete_entries_size (take B l') (delete x.1 m)) as Hle. unfold delete_entries in Hle. rewrite map_size_delete, Hx in Hle.
  assert (size m ≠ 0%nat) by (intros ->%map_size_empty_inv; by rewrite lookup_empty in Hx). lia.
Qed.
Lemma cleared_delete start end_ m l n : entries_in true start end_ m l →
  cleared start end_ (delete_entries m (take n l)) = cleared start end_ m.
Proof.
  intros [_ Hin]. apply map_eq. intros k. apply option_eq. intros v. unfold cleared.
  rewrite !map_lookup_filter_Some, lookup_delete_entries. cbn. split; [naive_solver|].
  intros [Hk Hk2]. split; [|done]. split; [done|].
  intros ([k' v'] & -> & Hk')%list_elem_of_fmap. apply (subseteq_take n l), Hin in Hk' as [Hk' Hd']. cbn in Hk2. congruence.
Qed.
Lemma cleared_all start end_ m l : entries_in true start end_ m l → delete_entries m l = cleared start end_ m.
Proof.
  intros [_ Hin]. apply map_eq. intros k. apply option_eq. intros v.
  unfold cleared. rewrite lookup_delete_entries, map_lookup_filter_Some. cbn. split; intros [Hk Hk2]; (split; [done|]).
  - apply not_true_is_false. intros Hdom. apply Hk2. apply (list_elem_of_fmap_2 fst l (k, v)). by apply Hin.
  - intros ([k' v'] & -> & [Hk' Hd']%Hin)%list_elem_of_fmap. cbn in Hk2. congruence.
Qed.

Lemma deleteDomain_spec start end_ : ∀ N m s, (size m <= N)%nat → represents prefix m s → ∃ n s',
  represents prefix (cleared start end_ m) s' ∧ framed prefix s s' ∧
  ∀ fuel, (n <= fuel)%nat → deleteDomain fuel (newstart prefix start) (newend prefix end_) s = (Ok tt, s').
Proof.
  induction N as [N IH] using lt_wf_ind. intros m s HN Hr.
  destruct (delete_round start end_ m s Hr) as (n & s2 & l & keys & Hin & Hl & Hlen & Hr2 & Hf & Hround).
  destruct (decide (length keys < clearBatchSize)%nat) as [Hlt|Hge].
  - rewrite length_take in Hlen. rewrite take_ge, (cleared_all start end_) in Hr2 by (done || lia).
    exists (Datatypes.S n), s2. split; [done|]. split; [done|].
    intros [|fuel] Hfu; [lia|]. cbn [deleteDomain]. rewrite Hround by lia. by rewrite (proj2 (Nat.ltb_lt _ _)).
  - pose proof Hlen as Hlen'. rewrite length_take in Hlen'. pose proof (delete_batch_size m l Hl ltac:(lia)) as Hsz.
    destruct (IH _ (Nat.lt_le_trans _ _ _ Hsz HN) _ s2 (Nat.le_refl _) Hr2) as (n' & s' & Hr' & Hf' & Hrun).
    rewrite cleared_delete in Hr' by done. exists (Datatypes.S (n + n'))%nat, s'. split; [done|]. split; [by etransitivity|].
    intros [|fuel] Hfu; [lia|]. cbn [deleteDomain]. rewrite Hround by lia.
    rewrite (proj2 (Nat.ltb_ge _ _)) by lia. apply Hrun. lia.
Qed.
End Clear.

(** ** Ranges of keys *)

Section Ranges.
Context {K : Type} {kc : KeyCodec K}.
Variable prefix : string.

(** A bound relative to the prefix, given the bytes of its key; no bound is the
    start or the end of the collection. *)
Definition bound_bytes (kind : rangeKeyKind) (b : string) : option string :=
  match kind with
  | rangeKeyExact => Some b
  | rangeKeyNext => Some (nextBytesKey b)
  | rangeKeyPrefixEnd => prefix_end b
  end.
Definition rel_bound (b : option (RangeKey K)) (bb : option string) : Prop :=
  match b with
  | None => bb = None
  | Some b => ∃ n ba, Encode (zeros (Size (rk_key b))) (rk_key b) = Ok (n, ba) ∧ bb = bound_bytes (rk_kind b) ba
  end.
Definition inverted (start end_ : option string) : bool :=
  match end_ with Some e => str_lt e (default "" start) | None => false end.

Lemma encodeRangeBound_end b n ba : Encode (zeros (Size (rk_key b))) (rk_key b) = Ok (n, ba) →
  encodeRangeBound kc prefix b = Ok (newend prefix (bound_bytes (rk_kind b) ba)).
Proof.
  intros H. unfold encodeRangeBound. rewrite (EncodeKeyWithPrefix_bytes kc prefix _ n ba H). cbn.
  destruct (rk_kind b); cbn; unfold cloneAppend; [done|by unfold nextBytesKey; rewrite str_app_assoc|].
  unfold nextBytesPrefixKey. rewrite PrefixEndBytes_front, prefix_end_app. destruct (prefix_end ba); [done|].
  cbn. unfold cpIncr. by rewrite PrefixEndBytes_front.
Qed.
(** The parsed range: the bounds shifted under the prefix, or an error. *)
Lemma parse_spec start end_ order sb eb :
  rel_bound start sb → rel_bound end_ eb → match start with Some b => rk_kind b ≠ rangeKeyPrefixEnd | None => True end →
  parseRangeInstruction kc prefix (Some (Ok (start, end_, order))) =
  if bytes_after (newstart prefix sb) (newend prefix eb) then Err ErrInvalidIterator
  else Ok (newstart prefix sb, newend prefix eb, order).
Proof.
  intros Hs He Hk. unfold parseRangeInstruction. cbn [mbind outcome_bind].
  assert (match start with Some b => encodeRangeBound kc prefix b | None => Ok (Some prefix) end = Ok (newstart prefix sb)) as ->.
  { destruct start as [b|]; cbn in Hs.
    - destruct Hs as (n & ba & HE & ->). rewrite (encodeRangeBound_end b n ba HE). by destruct (rk_kind b).
    - subst sb. unfold newstart, cloneAppend. cbn. by rewrite str_app_nil_r. }
  cbn [mbind outcome_bind].
  assert (match end_ with Some b => encodeRangeBound kc prefix b | None => Ok (nextBytesPrefixKey prefix) end = Ok (newend prefix eb)) as ->.
  { destruct end_ as [b|]; cbn in He; [|by subst eb]. destruct He as (n & ba & HE & ->). by apply (encodeRangeBound_end b n ba). }
  done.
Qed.
Lemma bytes_after_rel sb eb : PrefixEndBytes prefix ≠ None →
  bytes_after (newstart prefix sb) (newend prefix eb) = inverted sb eb.
Proof.
  intros Hp. unfold bytes_after, newstart, newend, cloneAppend, inverted. destruct eb as [e|]; cbn [default from_option id].
  - apply str_lt_app.
  - unfold cpIncr. pose proof (HasPrefix_app prefix (default "" sb)) as Hx. rewrite prefix_end_range, <- PrefixEndBytes_front in Hx.
    destruct (PrefixEndBytes prefix) as [e|]; [|done]. apply andb_prop in Hx as [_ Hx]. cbn.
    apply str_lt_false. apply slt_le in Hx as [Hx _]. exact Hx.
Qed.
(** A collection whose prefix consists of bytes 0xFF can be neither iterated
    nor cleared: the end of its range is the nil slice, which compares below
    every start. *)
Lemma parse_unbounded_prefix start order sb : PrefixEndBytes prefix = None → prefix ≠ "" →
  rel_bound start sb → match start with Some b => rk_kind b ≠ rangeKeyPrefixEnd | None => True end →
  parseRangeInstruction kc prefix (Some (Ok (start, None, order))) = Err ErrInvalidIterator.
Proof.
  intros Hp Hne Hs Hk. rewrite (parse_spec start None order sb None) by done. cbn. unfold cpIncr. rewrite Hp. by destruct prefix.
Qed.
End Ranges.

Section KeyRanges.
Context {K : Type} {kc : KeyCodec K} {KL : KeyCodecLaws kc} {lt : K → K → Prop} {HO : OrderedKey KL lt}.

Definition bound_ok (b : option (RangeKey K)) : Prop :=
  match b with Some b => kc_dom (rk_key b) ∧ rk_kind b ≠ rangeKeyPrefixEnd | None => True end.
Definition range_ok (r : Range K) : Prop :=
  bound_ok (r_start r) ∧ bound_ok (r_end r) ∧ (r_order r = OrderAscending ∨ r_order r = OrderDescending).
(** The keys a range contains. *)
Definition key_in_range (r : Range K) (k : K) : Prop :=
  match r_start r with
  | None => True
  | Some (mkRangeKey rangeKeyNext a) => lt a k
  | Some (mkRangeKey _ a) => ¬ lt k a
  end ∧
  match r_end r with
  | None => True
  | Some (mkRangeKey rangeKeyNext a) => ¬ lt a k
  | Some (mkRangeKey _ a) => lt k a
  end.
Definition key_bound (b : option (RangeKey K)) : option string :=
  b ← b; bound_bytes (rk_kind b) (kc_bytes (rk_key b)).
(** The start of the range lies after its end. *)
Definition inverted_range (r : Range K) : bool := inverted (key_bound (r_start r)) (key_bound (r_end r)).

Lemma key_bound_rel b : bound_ok b → rel_bound b (key_bound b).
Proof. destruct b as [b|]; [|done]. intros [Hd _]. cbn. eexists _, _. by rewrite Encode_zeros. Qed.
Lemma key_in_range_bytes r k : range_ok r → kc_dom k →
  IsKeyInDomain (kc_bytes k) (key_bound (r_start r)) (key_bound (r_end r)) = true ↔ key_in_range r k.
Proof.
  intros (Hs & He & _) Hk. unfold key_in_range, IsKeyInDomain.
  assert (∀ b x : bool, (if b then false else x) = true ↔ b = false ∧ x = true) as Hif by (intros [] []; naive_solver).
  rewrite Hif. f_equiv.
  - destruct (r_start r) as [[[] a]|]; cbn in Hs |- *; [| |naive_solver|by destruct (kc_bytes k)].
    + rewrite (bytes_lt_iff k a) by naive_solver. unfold slt. by destruct (str_lt _ _).
    + rewrite (bytes_lt_iff a k) by naive_solver. pose proof (slt_next (kc_bytes a) (kc_bytes k)) as Hn. unfold slt in *.
      destruct (str_lt (kc_bytes k) _), (str_lt (kc_bytes a) _); naive_solver.
  - destruct (r_end r) as [[[] a]|]; cbn in He |- *; [| |naive_solver|done].
    + by rewrite (bytes_lt_iff k a) by naive_solver.
    + rewrite (bytes_lt_iff a k) by naive_solver. apply slt_next.
Qed.
(** Nothing is lost when an inverted range is refused. *)
Lemma inverted_empty r k : range_ok r → kc_dom k → inverted_range r = true → ¬ key_in_range r k.
Proof.
  intros Hr Hk Hi H. apply key_in_range_bytes in H; [|done..]. unfold inverted_range, inverted, IsKeyInDomain in *.
  destruct (key_bound (r_end r)) as [e|]; [|done]. destruct (str_lt (kc_bytes k) _) eqn:E; [done|].
  apply str_lt_false in E. assert (slt (kc_bytes k) (default "" (key_bound (r_start r)))) as Hlt by (etransitivity; [exact H|exact Hi]).
  apply slt_le in Hlt as [Hle Hne]. by apply Hne, (anti_symm String.le).
Qed.
End KeyRanges.

(** ** Sequences of operations *)

Inductive map_op (K V : Type) :=
| MSet (k : K) (v : V)
| MGet (k : K)
| MHas (k : K)
| MRemove (k : K)
| MIterate (r : Range K)
| MClear (r : Range K).
Arguments MSet {K V} k v.
Arguments MGet {K V} k.
Arguments MHas {K V} k.
Arguments MRemove {K V} k.
Arguments MIterate {K V} r.
Arguments MClear {K V} r.
Inductive map_res (K V : Type) :=
| RMUnit
| RMValue (v : V)
| RMBool (b : bool)
| RMEntries (l : list (K * V)).
Arguments RMUnit {K V}.
Arguments RMValue {K V} v.
Arguments RMBool {K V} b.
Arguments RMEntries {K V} l.

(** A returned error is a result: the caller decides. *)
Definition attempt {S A} (m : GoM S A) : GoM S (outcome A) := λ s,
  match m s with
  | (Panic p, s') => (Panic p, s')
  | (r, s') => (Ok r, s')
  end.

Section Ops.
Context {K V : Type} `{Countable K} {kc : KeyCodec K} {KL : KeyCodecLaws kc} {lt : K → K → Prop} {HO : OrderedKey KL lt}.
Context {vc : ValueCodec V} {VL : ValueCodecLaws vc}.
Context {S I : Type} {HKV : KVStore S I} {HI : Iterator I} {HL : KVStoreLaws S I}.
Variable prefix : string.
Implicit Types m : gmap K V.

Definition run_map_op (fuel : nat) (op : map_op K V) : GoM S (outcome (map_res K V)) :=
  attempt match op with
  | MSet k v => _ ← Map_Set kc vc prefix k v; mret RMUnit
  | MGet k => v ← Map_Get kc vc prefix k; mret (RMValue v)
  | MHas k => b ← Map_Has kc prefix k; mret (RMBool b)
  | MRemove k => _ ← Map_Remove kc prefix k; mret RMUnit
  | MIterate r =>
      i ← Map_Iterate kc prefix fuel (Some (RangeValues r));
      l ← liftM (iter_KeyValues kc vc fuel i);
      mret (RMEntries l)
  | MClear r => _ ← Map_Clear kc prefix fuel (Some (RangeValues r)); mret RMUnit
  end.
Definition run_map_ops (fuel : nat) (ops : list (map_op K V)) : GoM S (list (outcome (map_res K V))) :=
  traverse (run_map_op fuel) ops.

Definition map_op_ok (op : map_op K V) : Prop :=
  match op with
  | MSet k v => coll_key (S := S) prefix k ∧ vc_dom v
  | MGet k | MHas k | MRemove k => coll_key (S := S) prefix k
  | MIterate r | MClear r => range_ok r
  end.

(** The abstract collection: a finite map. *)
Definition map_step (op : map_op K V) m (r : outcome (map_res K V)) (m' : gmap K V) : Prop :=
  match op with
  | MSet k v => r = Ok RMUnit ∧ m' = <[k := v]> m
  | MGet k => r = from_option (Ok ∘ RMValue) (Err ErrNotFound) (m !! k) ∧ m' = m
  | MHas k => r = Ok (RMBool (bool_decide (is_Some (m !! k)))) ∧ m' = m
  | MRemove k => r = Ok RMUnit ∧ m' = delete k m
  | MIterate rng =>
      m' = m ∧
      if inverted_range rng then r = Err ErrInvalidIterator
      else ∃ l, r = Ok (RMEntries l) ∧
        StronglySorted (λ x y, if r_order rng =? OrderAscending then lt x.1 y.1 else lt y.1 x.1) l ∧
        ∀ k v, (k, v) ∈ l ↔ m !! k = Some v ∧ key_in_range (lt := lt) rng k
  | MClear rng =>
      if inverted_range rng then r = Err ErrInvalidIterator ∧ m' = m
      else r = Ok RMUnit ∧ ∀ k v, m' !! k = Some v ↔ m !! k = Some v ∧ ¬ key_in_range (lt := lt) rng k
  end.
Fixpoint map_steps (ops : list (map_op K V)) m (rs : list (outcome (map_res K V))) (m' : gmap K V) : Prop :=
  match ops, rs with
  | [], [] => m' = m
  | op :: ops, r :: rs => ∃ m1, map_step op m r m1 ∧ map_steps ops m1 rs m'
  | _, _ => False
  end.

Hypothesis bounded_prefix : PrefixEndBytes prefix ≠ None.

Lemma prefix_ne : prefix ≠ "".
Proof. by intros ->. Qed.
Lemma attempt_run {A B} (f : A → GoM S B) (g : A → B) (c : GoM S A) a s s' :
  c s = (Ok a, s') → (∀ s, f a s = (Ok (g a), s)) → attempt (c ≫= f) s = (Ok (Ok (g a)), s').
Proof. intros Hc Hf. unfold attempt. by rewrite (GoM_bind_run _ _ _ _ _ Hc), Hf. Qed.
Lemma attempt_err {A B} (f : A → GoM S B) (c : GoM S A) e s s' :
  c s = (Err e, s') → attempt (c ≫= f) s = (Ok (Err e), s').
Proof. intros Hc. unfold attempt. by rewrite (GoM_bind_err _ _ _ _ _ Hc). Qed.

Lemma parse_range r : range_ok r →
  parseRangeInstruction kc prefix (Some (RangeValues r)) =
  if inverted_range r then Err ErrInvalidIterator
  else Ok (newstart prefix (key_bound (r_start r)), newend prefix (key_bound (r_end r)), r_order r).
Proof.
  intros (Hs & He & _). etransitivity.
  - apply (parse_spec prefix _ _ (r_order r) _ _ (key_bound_rel _ Hs) (key_bound_rel _ He)).
    destruct (r_start r); [|done]. by destruct Hs.
  - by rewrite bytes_after_rel.
Qed.
Lemma entries_ordered rng m l : range_ok rng → (∀ k v, m !! k = Some v → kc_dom k) →
  entries_in (r_order rng =? OrderAscending) (key_bound (r_start rng)) (key_bound (r_end rng)) m l →
  StronglySorted (λ x y, if r_order rng =? OrderAscending then lt x.1 y.1 else lt y.1 x.1) l ∧
  ∀ k v, (k, v) ∈ l ↔ m !! k = Some v ∧ key_in_range (lt := lt) rng k.
Proof.
  intros Hrng Hm [Hs Hin]. split.
  - assert (Forall (λ x, kc_dom x.1) l) as Hd
      by (apply Forall_forall; intros [k v] [? _]%Hin; by apply (Hm k v)).
    clear Hin. induction Hs as [|x l Hs IH Hf]; [constructor|]. apply Forall_cons in Hd as [Hx Hd]. constructor; [auto|].
    rewrite Forall_forall in *. intros y Hy. specialize (Hf y Hy). unfold klt in Hf.
    destruct (r_order rng =? OrderAscending); by apply bytes_lt_iff; auto.
  - intros k v. rewrite Hin. split; intros [Hk Hd]; (split; [done|]); apply key_in_range_bytes; eauto.
Qed.

Lemma run_iterate rng m s : represents prefix m s → range_ok rng → ∃ n r s',
  map_step (MIterate rng) m r m ∧ represents prefix m s' ∧ framed prefix s s' ∧
  ∀ fuel, (n <= fuel)%nat → run_map_op fuel (MIterate rng) s = (Ok r, s').
Proof.
  intros Hr Hrng. unfold run_map_op. cbn [map_step]. unfold Map_Iterate, iteratorFromRanger. rewrite (parse_range rng Hrng).
  destruct (inverted_range rng); [by exists 0%nat, (Err ErrInvalidIterator), s|].
  destruct (newIterator_spec prefix prefix_ne (r_order rng =? OrderAscending) (key_bound (r_start rng)) (key_bound (r_end rng)) m s Hr)
    as (n & s' & l & Hr' & Hv & Hen & Hrun).
  assert (order_of (r_order rng =? OrderAscending) = r_order rng) as Eo.
  { destruct Hrng as (_ & _ & [-> | ->]); done. }
  rewrite Eo in Hrun. exists n, (Ok (RMEntries l)), s'. split; [split; [done|]; exists l; split; [done|]|].
  { apply entries_ordered; [done| |done]. intros k v Hk. apply (proj1 (proj2 Hr) k v Hk). }
  split; [done|]. split; [by apply framed_eq|]. intros fuel Hf. destruct (Hrun fuel Hf) as (Hlen & i & Hi & Hit).
  apply (attempt_run _ (λ _, RMEntries l) _ i); [exact Hi|]. intros s0.
  by rewrite (liftM_bind_run _ _ l) by (by eapply iterates_KeyValues).
Qed.
Lemma run_clear rng m s : represents prefix m s → range_ok rng → ∃ n r m' s',
  map_step (MClear rng) m r m' ∧ represents prefix m' s' ∧ framed prefix s s' ∧
  ∀ fuel, (n <= fuel)%nat → run_map_op fuel (MClear rng) s = (Ok r, s').
Proof.
  intros Hr Hrng. unfold run_map_op. cbn [map_step]. unfold Map_Clear. rewrite (parse_range rng Hrng).
  destruct (inverted_range rng); [by exists 0%nat, (Err ErrInvalidIterator), m, s|].
  destruct (deleteDomain_spec prefix prefix_ne (key_bound (r_start rng)) (key_bound (r_end rng)) _ m s (Nat.le_refl _) Hr)
    as (n & s' & Hr' & Hf & Hrun).
  exists n, (Ok RMUnit), (cleared (key_bound (r_start rng)) (key_bound (r_end rng)) m), s'. split; [|split; [done|split; [done|]]].
  - split; [done|]. intros k v. unfold cleared. rewrite map_lookup_filter_Some. cbn.
    split; intros [Hk Hd]; (split; [done|]); pose proof (proj1 (proj1 (proj1 (proj2 Hr) k v Hk))) as Hdom.
    + intros Hin%key_in_range_bytes; [|done..]. congruence.
    + apply not_true_is_false. intros Hin. by apply Hd, key_in_range_bytes.
  - intros fuel Hfu. by apply (attempt_run _ (λ _, RMUnit) _ tt); [exact (Hrun fuel Hfu)|].
Qed.

Lemma run_op op m s : represents prefix m s → map_op_ok op → ∃ n r m' s',
  map_step op m r m' ∧ represents prefix m' s' ∧ framed prefix s s' ∧
  ∀ fuel, (n <= fuel)%nat → run_map_op fuel op s = (Ok r, s').
Proof.
  intros Hr Hop. destruct op as [k v|k|k|k|rng|rng]; cbn [map_op_ok] in Hop.
  - destruct Hop as [Hk Hv]. destruct (Map_Set_spec prefix m s k v Hr Hk Hv) as (s' & Hs & Hr' & Hf).
    exists 0%nat, (Ok RMUnit), (<[k := v]> m), s'. repeat (split; [done|]). intros fuel _. by apply (attempt_run _ (λ _, RMUnit) _ tt).
  - destruct (Map_Get_spec prefix m s k Hr Hop) as (s' & Hs & Hr' & Hf).
    exists 0%nat, (from_option (Ok ∘ RMValue) (Err ErrNotFound) (m !! k)), m, s'. repeat (split; [done|]). intros fuel _.
    unfold run_map_op. destruct (m !! k) as [v|]; cbn in Hs; [by apply (attempt_run _ RMValue _ v)|by apply attempt_err].
  - destruct (Map_Has_spec prefix m s k Hr Hop) as (s' & Hs & Hr' & Hf).
    eexists 0%nat, _, m, s'. split; [done|]. repeat (split; [done|]). intros fuel _. by apply (attempt_run _ RMBool _ _).
  - destruct (Map_Remove_spec prefix m s k Hr Hop) as (s' & Hs & Hr' & Hf).
    exists 0%nat, (Ok RMUnit), (delete k m), s'. repeat (split; [done|]). intros fuel _. by apply (attempt_run _ (λ _, RMUnit) _ tt).
  - destruct (run_iterate rng m s Hr Hop) as (n & r & s' & Hst & Hr' & Hf & Hrun). by exists n, r, m, s'.
  - by apply run_clear.
Qed.
Lemma run_ops ops : ∀ m s, represents prefix m s → Forall map_op_ok ops → ∃ n rs m' s',
  map_steps ops m rs m' ∧ represents prefix m' s' ∧ framed prefix s s' ∧
  ∀ fuel, (n <= fuel)%nat → run_map_ops fuel ops s = (Ok rs, s').
Proof.
  induction ops as [|op ops IH]; intros m s Hr Hops; [by exists 0%nat, [], m, s|]. apply Forall_cons in Hops as [Hop Hops].
  destruct (run_op op m s Hr Hop) as (n1 & r & m1 & s1 & Hst & Hr1 & Hf1 & Hrun1).
  destruct (IH m1 s1 Hr1 Hops) as (n2 & rs & m' & s' & Hsts & Hr' & Hf' & Hrun2).
  exists (n1 + n2)%nat, (r :: rs), m', s'. split; [by exists m1|]. split; [done|]. split; [by eapply framed_trans|].
  intros fuel Hfu. unfold run_map_ops in *. cbn [traverse].
  rewrite (GoM_bind_run _ _ _ _ _ (Hrun1 fuel ltac:(lia))), (GoM_bind_run _ _ _ _ _ (Hrun2 fuel ltac:(lia))). done.
Qed.
End Ops.

(** ** Ranges of pairs *)

#[global] Instance Pair_eq_dec {K1 K2} `{EqDecision K1, EqDecision K2} : EqDecision (Pair K1 K2).
Proof. solve_decision. Defined.
#[global] Instance Pair_countable {K1 K2} `{Countable K1, Countable K2} : Countable (Pair K1 K2).
Proof. by apply (inj_countable' (λ p : Pair K1 K2, (key1 p, key2 p)) (λ x, mkPair x.1 x.2)); intros []. Defined.

Section PairRanges.
Context {K1 K2 V : Type} `{Countable (Pair K1 K2)}.
Context {KC1 : KeyCodec K1} {KC2 : KeyCodec K2} {KL1 : KeyCodecLaws KC1} {KL2 : KeyCodecLaws KC2}.
Context {lt1 : K1 → K1 → Prop} {lt2 : K2 → K2 → Prop} {HO1 : OrderedKey KL1 lt1} {HO2 : OrderedKey KL2 lt2}.

(** A partial key is written as the bytes of its first part. *)
Lemma PairPrefix_bytes (k1 : K1) : kc_ndom k1 → let k := PairPrefix (K2 := K2) k1 in
  Encode (KeyCodec := PairKeyCodec KC1 KC2) (zeros (Size (KeyCodec := PairKeyCodec KC1 KC2) k)) k =
  Ok (String.length (kc_nbytes k1), kc_nbytes k1).
Proof.
  intros Hk. cbn [Encode Size PairKeyCodec]. unfold pair_Encode, pair_Size. cbn [PairPrefix key1 key2 from_option].
  rewrite Nat.add_0_r, <- (str_app_nil_r (zeros _)), (encode_part1 KL1) by done. cbn. by rewrite str_app_nil_r.
Qed.
Lemma prefix_domain_pair (k1 a : K1) (b : K2) : kc_ndom k1 → kc_ndom a →
  IsKeyInDomain (kc_bytes (KC := PairKeyCodec KC1 KC2) (Join a b)) (Some (kc_nbytes k1)) (prefix_end (kc_nbytes k1)) = true ↔ a = k1.
Proof.
  intros Hk Ha. unfold IsKeyInDomain. cbn [default from_option id].
  transitivity (HasPrefix (kc_bytes (KC := PairKeyCodec KC1 KC2) (Join a b)) (kc_nbytes k1) = true).
  { rewrite prefix_end_range. destruct (str_lt _ _); done. }
  rewrite HasPrefix_spec. cbn. unfold pair_bytes. cbn. split; [|by intros ->; eauto].
  intros [t E]. by apply (kc_nbytes_inj a k1) in E as [? _].
Qed.
Lemma not_inverted_prefix q : inverted (Some q) (prefix_end q) = false.
Proof.
  unfold inverted. pose proof (HasPrefix_app q "") as Hq. rewrite str_app_nil_r, prefix_end_range in Hq.
  destruct (prefix_end q) as [e|]; [|done]. apply andb_prop in Hq as [_ Hq]. apply slt_le in Hq as [Hq _]. cbn. by apply str_lt_false.
Qed.
(** The entries in the domain of a first part are those with that first part,
    ordered by the second. *)
Lemma pair_entries asc (k1 : K1) (m : gmap (Pair K1 K2) V) l : kc_ndom k1 →
  (∀ k v, m !! k = Some v → kc_dom (KC := PairKeyCodec KC1 KC2) k) →
  entries_in (kc := PairKeyCodec KC1 KC2) asc (Some (kc_nbytes k1)) (prefix_end (kc_nbytes k1)) m l →
  (∀ k v, (k, v) ∈ l ↔ m !! k = Some v ∧ key1 k = Some k1) ∧
  StronglySorted (λ x y, ∃ a b, x.1 = Join k1 a ∧ y.1 = Join k1 b ∧ if asc then lt2 a b else lt2 b a) l.
Proof.
  intros Hk1 Hm [Hs Hin]. assert (∀ k v, (k, v) ∈ l ↔ m !! k = Some v ∧ key1 k = Some k1) as Hmem.
  { intros k v. rewrite Hin. split; intros [Hl Hd]; (split; [done|]); destruct (Hm k v Hl) as (a & b & -> & Ha & Hb).
    - apply prefix_domain_pair in Hd; [|done..]. by subst a.
    - apply prefix_domain_pair; [done..|]. by injection Hd. }
  split; [done|]. assert (Forall (λ x, ∃ a, x.1 = Join k1 a ∧ kc_dom a) l) as Hd.
  { apply Forall_forall. intros [k v] [Hl Hk]%Hmem. destruct (Hm k v Hl) as (a & b & -> & Ha & Hb). injection Hk as ->. by exists b. }
  clear Hin Hmem. induction Hs as [|x l Hs IH Hf]; [constructor|]. apply Forall_cons in Hd as [(a & Ea & Ha) Hd].
  constructor; [auto|]. rewrite Forall_forall in *. intros y Hy. destruct (Hd y Hy) as (b & Eb & Hb). specialize (Hf y Hy).
  rewrite Ea, Eb in Hf. exists a, b. split; [done|]. split; [done|]. unfold klt in Hf. cbn in Hf. unfold pair_bytes in Hf. cbn in Hf.
  destruct asc; apply slt_app in Hf; by apply bytes_lt_iff.
Qed.
End PairRanges.

(** ** Properties *)

(** C4. A [Map] over a lawful store is a finite map with ordered iteration.
    Whatever sequence of reads, writes, removals, iterations over ranges and
    range deletions is run on a store that holds the encoding of a map, every
    result (errors included) is the one the finite map gives, iterations yield
    exactly the entries of the range in key order, the loops (batched deletion
    included) end, the store finally holds the encoding of the resulting map, and
    no key outside the collection's prefix has changed. *)
Theorem map_refines_finite_map {K V} `{Countable K} {kc : KeyCodec K} {KL : KeyCodecLaws kc} {lt} {HO : OrderedKey KL lt}
    {vc : ValueCodec V} {VL : ValueCodecLaws vc} {S I} {HKV : KVStore S I} {HI : Iterator I} {HL : KVStoreLaws S I}
    (prefix : string) (ops : list (map_op K V)) (m : gmap K V) (s : S) :
  PrefixEndBytes prefix ≠ None → represents prefix m s → Forall (map_op_ok (S := S) prefix) ops →
  ∃ n rs m' s', map_steps (lt := lt) ops m rs m' ∧ represents prefix m' s' ∧ framed prefix s s' ∧
    ∀ fuel, (n <= fuel)%nat → run_map_ops (kc := kc) (vc := vc) (I := I) prefix fuel ops s = (Ok rs, s').
Proof. intros Hp Hr Hops. by apply run_ops. Qed.

Definition coll_ops0 : list (map_op string Z) :=
  [MSet "b" 2; MSet "a" 1; MGet "c"; MIterate (StartExclusive "a" new_Range); MClear (EndExclusive "b" new_Range); MHas "a"].
Definition coll_base0 : gmap string string := {["zz" := "other"]}.
Lemma represents_base0 : represents (K := string) (V := Z) (kc := StringKey) (vc := Uint64Value) "k" ∅ coll_base0.
Proof.
  split; [done|]. split; [intros k v Hk; by rewrite lookup_empty in Hk|]. intros b x. split.
  - intros Hb. change (({["zz" := "other"]} : gmap string string) !! ("k" +:+ b) = Some x) in Hb.
    apply lookup_singleton_Some in Hb as [Hb _]. discriminate Hb.
  - intros (k & v & Hk & _). by rewrite lookup_empty in Hk.
Qed.
Lemma coll_ops0_ok : Forall (map_op_ok (kc := StringKey) (vc := Uint64Value) (S := gmap string string) (I := list item) "k") coll_ops0.
Proof. repeat constructor; done. Qed.
Lemma map_refines_finite_map_witness :
  ∃ n rs m' s', map_steps (kc := StringKey) (lt := slt) coll_ops0 ∅ rs m' ∧
    represents (kc := StringKey) (vc := Uint64Value) (I := list item) "k" m' s' ∧ framed (I := list item) "k" coll_base0 s' ∧
    ∀ fuel, (n <= fuel)%nat → run_map_ops (kc := StringKey) (vc := Uint64Value) (I := list item) "k" fuel coll_ops0 coll_base0 = (Ok rs, s').
Proof. apply map_refines_finite_map; [done|apply represents_base0|apply coll_ops0_ok]. Defined.

(** Iterating a collection keyed by pairs over the prefix of a first part
    (how the bank reads one account's balances) yields exactly the entries with
    that first part, in the order of the second part or its reverse. *)
Theorem pair_prefix_iteration {K1 K2 V} `{Countable (Pair K1 K2)} {KC1 : KeyCodec K1} {KC2 : KeyCodec K2}
    {KL1 : KeyCodecLaws KC1} {KL2 : KeyCodecLaws KC2} {lt1 lt2} {HO1 : OrderedKey KL1 lt1} {HO2 : OrderedKey KL2 lt2}
    {vc : ValueCodec V} {VL : ValueCodecLaws vc} {S I} {HKV : KVStore S I} {HI : Iterator I} {HL : KVStoreLaws S I}
    (prefix : string) (k1 : K1) (asc : bool) (m : gmap (Pair K1 K2) V) (s : S) :
  PrefixEndBytes prefix ≠ None → represents (kc := PairKeyCodec KC1 KC2) prefix m s → kc_ndom k1 →
  let r := if asc then NewPrefixedPairRange k1 else pair_Descending (NewPrefixedPairRange k1) in
  ∃ n l s',
    (∀ fuel, (n <= fuel)%nat →
       (i ← Map_Iterate (PairKeyCodec KC1 KC2) prefix fuel (Some (pair_RangeValues r));
        liftM (iter_KeyValues (PairKeyCodec KC1 KC2) vc fuel i)) s = (Ok l, s')) ∧
    (∀ k v, (k, v) ∈ l ↔ m !! k = Some v ∧ key1 k = Some k1) ∧
    StronglySorted (λ x y, ∃ a b, x.1 = Join k1 a ∧ y.1 = Join k1 b ∧ if asc then lt2 a b else lt2 b a) l ∧
    represents (kc := PairKeyCodec KC1 KC2) prefix m s' ∧ framed prefix s s'.
Proof.
  intros Hp Hr Hk r. set (nb := kc_nbytes k1).
  destruct (newIterator_spec prefix (prefix_ne prefix Hp) asc (Some nb) (prefix_end nb) m s Hr)
    as (n & s' & l & Hr' & Hv & Hen & Hrun).
  destruct (pair_entries asc k1 m l Hk (λ k v Hkv, proj1 (proj1 (proj1 (proj2 Hr) k v Hkv))) Hen) as [Hmem Hsort].
  exists n, l, s'. split; [|split; [done|split; [done|split; [done|by apply framed_eq]]]].
  intros fuel Hf. destruct (Hrun fuel Hf) as (Hlen & i & Hi & Hit). unfold Map_Iterate, iteratorFromRanger.
  assert (parseRangeInstruction (PairKeyCodec KC1 KC2) prefix (Some (pair_RangeValues r)) =
          Ok (newstart prefix (Some nb), newend prefix (prefix_end nb), order_of asc)) as Epar.
  { pose proof (PairPrefix_bytes (KC2 := KC2) k1 Hk) as Hb.
    destruct asc; (etransitivity; [apply (parse_spec (kc := PairKeyCodec KC1 KC2) prefix _ _ _ (Some nb) (prefix_end nb));
      [by eexists _, _|by eexists _, _|done]|by rewrite bytes_after_rel, not_inverted_prefix]). }
  rewrite Epar. rewrite (GoM_bind_run _ _ i s s'); [|exact Hi].
  unfold liftM. by rewrite (iterates_KeyValues prefix i l fuel Hit Hlen).
Qed.
(** The empty store holds every empty collection. *)
Lemma represents_empty {K V} `{Countable K} (kc : KeyCodec K) {KL : KeyCodecLaws kc} (vc : ValueCodec V) {VL : ValueCodecLaws vc} prefix :
  represents (kc := kc) (vc := vc) (I := list item) prefix ∅ (∅ : gmap string string).
Proof.
  split; [done|]. split; [intros k v Hk; by rewrite lookup_empty in Hk|]. intros b x. split.
  - intros Hb. change ((∅ : gmap string string) !! (prefix +:+ b) = Some x) in Hb. by rewrite lookup_empty in Hb.
  - intros (k & v & Hk & _). by rewrite lookup_empty in Hk.
Qed.
Lemma pair_prefix_iteration_witness :
  ∃ m s, let kc := PairKeyCodec StringKey Uint64Key in
    m !! Join "usd" 7 = Some 5 ∧ represents (kc := kc) (vc := Uint64Value) (I := list item) "k" m s ∧
    ∃ n l s', (∀ fuel, (n <= fuel)%nat →
      (i ← Map_Iterate kc "k" fuel (Some (pair_RangeValues (pair_Descending (NewPrefixedPairRange "usd"))));
       liftM (iter_KeyValues kc Uint64Value fuel i)) s = (Ok l, s')) ∧ (Join "usd" 7, 5) ∈ l.
Proof.
  destruct (Map_Set_spec (kc := PairKeyCodec StringKey Uint64Key) (vc := Uint64Value) "k" ∅ ∅ (Join "usd" 7) 5 (represents_empty _ _ _))
    as (s & _ & Hr & _); [split; [by eexists _, _|done]|done|]. exists (<[Join "usd" 7 := 5]> ∅), s.
  split; [apply lookup_insert_eq|]. split; [exact Hr|].
  destruct (pair_prefix_iteration (KC1 := StringKey) (KC2 := Uint64Key) (vc := Uint64Value) "k" "usd" false (<[Join "usd" 7 := 5]> ∅) s)
    as (n & l & s' & Hrun & Hmem & _); [done|exact Hr|done|]. exists n, l, s'. split; [exact Hrun|].
  apply Hmem. split; [apply lookup_insert_eq|done].
Defined.
