(* ===== verification/CollDerived.v ===== *)
(** * Items, sequences and vectors: what they promise

    Each is built from [Map]s: a sequence hands out consecutive numbers, a vector
    is a list, and operations of one collection leave the others alone. *)
From S2P Require Import Prelude Bytes KVStore PrefixStore KeyCodec Collections CollMap CollMapProps.

Section Derived.
Context {S I : Type} {HKV : KVStore S I} {HI : Iterator I} {HL : KVStoreLaws S I}.

(** A write to one collection leaves another with a different prefix as it was. *)
Lemma represents_framed {K V} `{Countable K} {kc : KeyCodec K} {KL : KeyCodecLaws kc} {vc : ValueCodec V} {VL : ValueCodecLaws vc}
    p q (m : gmap K V) s s' :
  HasPrefix q p = false → HasPrefix p q = false → represents (kc := kc) q m s → framed p s s' → kv_ok s' →
  represents (kc := kc) q m s'.
Proof.
  intros H1 H2 (_ & Hm & Hv) Hf Hok. split; [done|]. split; [done|]. intros b x. rewrite Hf; [apply Hv|]. by apply prefixes_disjoint.
Qed.

Lemma uint64_dom z : 0 <= z < 2 ^ 64 → vc_dom (vc := Uint64Value) z.
Proof.
  intros Hz. split; [done|]. unfold valid_value, AssertValidValue, str_len. cbn [kc_bytes Uint64Key_laws uint_laws].
  rewrite be_put_length. done.
Qed.

Section Item.
Variable prefix : string.
Hypothesis item_key : coll_key (kc := noKeyCodec) (S := S) prefix tt.

Lemma get_or_spec def (m : gmap unit Z) s : represents (kc := noKeyCodec) (vc := Uint64Value) prefix m s → ∃ s',
  get_or Uint64Value prefix def s = (Ok (default def (m !! tt)), s') ∧
  represents (kc := noKeyCodec) (vc := Uint64Value) prefix m s' ∧ framed prefix s s'.
Proof.
  intros Hr. destruct (Map_Get_spec prefix m s tt Hr item_key) as (s' & Hg & Hr' & Hf). exists s'. split; [|done].
  unfold get_or, Item_Get. rewrite Hg. by destruct (m !! tt).
Qed.

(** One number of a sequence. *)
Lemma Sequence_Next_spec (m : gmap unit Z) s : represents (kc := noKeyCodec) (vc := Uint64Value) prefix m s → ∃ s',
  let n := default DefaultSequenceStart (m !! tt) in
  Sequence_Next prefix s = (Ok n, s') ∧
  represents (kc := noKeyCodec) (vc := Uint64Value) prefix (<[tt := wrap_uint64 (n + 1)]> m) s' ∧ framed prefix s s'.
Proof.
  intros Hr. destruct (get_or_spec DefaultSequenceStart m s Hr) as (s1 & Hg & Hr1 & Hf1).
  set (n := default DefaultSequenceStart (m !! tt)) in *.
  destruct (Map_Set_spec prefix m s1 tt (wrap_uint64 (n + 1)) Hr1 item_key) as (s2 & Hs & Hr2 & Hf2).
  { apply uint64_dom. unfold wrap_uint64. apply Z.mod_pos_bound. lia. }
  exists s2. split; [|split; [done|by eapply framed_trans]]. unfold Sequence_Next, Sequence_Peek.
  rewrite (GoM_bind_run _ _ _ _ _ Hg). unfold Sequence_Set, Item_Set. by rewrite (GoM_bind_run _ _ _ _ _ Hs).
Qed.
Lemma Sequence_run : ∀ (calls : list unit) (m : gmap unit Z) s,
  represents (kc := noKeyCodec) (vc := Uint64Value) prefix m s → 0 <= default DefaultSequenceStart (m !! tt) < 2 ^ 64 → ∃ s',
  let n := default DefaultSequenceStart (m !! tt) in
  traverse (λ _, Sequence_Next prefix) calls s = (Ok (map (λ i, wrap_uint64 (n + Z.of_nat i)) (seq 0 (length calls))), s') ∧
  framed prefix s s'.
Proof.
  induction calls as [|[] calls IH]; intros m s Hr Hn; [by exists s|].
  destruct (Sequence_Next_spec m s Hr) as (s1 & Hs & Hr1 & Hf1). set (n := default DefaultSequenceStart (m !! tt)) in *.
  destruct (IH _ _ Hr1) as (s2 & Hrun & Hf2). { rewrite lookup_insert_eq. cbn. apply Z.mod_pos_bound. lia. }
  exists s2. split; [|by eapply framed_trans]. cbn [traverse]. rewrite (GoM_bind_run _ _ _ _ _ Hs), (GoM_bind_run _ _ _ _ _ Hrun).
  rewrite lookup_insert_eq. cbn. unfold mret, GoM_ret. do 3 f_equal.
  - rewrite Z.add_0_r. unfold wrap_uint64. by rewrite Z.mod_small.
  - rewrite <- seq_shift, map_map. apply map_ext. intros i. unfold wrap_uint64. rewrite Zplus_mod_idemp_l. f_equal. lia.
Qed.
End Item.

(** ** Vectors *)

Inductive vec_op (T : Type) :=
| VPush (x : T)
| VPop
| VReplace (i : Z) (x : T)
| VGet (i : Z)
| VLen.
Inductive vec_res (T : Type) :=
| RVUnit
| RVElem (x : T)
| RVLen (n : Z).

Section Vec.
Context {T : Type} {vc : ValueCodec T} {VL : ValueCodecLaws vc}.
Variables lp ep : string.
Hypothesis disjoint1 : HasPrefix lp ep = false.
Hypothesis disjoint2 : HasPrefix ep lp = false.
Hypothesis length_key : coll_key (kc := noKeyCodec) (S := S) lp tt.
Hypothesis element_key : ∀ i, 0 <= i < 2 ^ 64 → coll_key (kc := Uint64Key) (S := S) ep i.

Definition run_vec_op (op : vec_op T) : GoM S (outcome (vec_res T)) :=
  attempt match op with
  | VPush _ x => _ ← Vec_Push vc lp ep x; mret (RVUnit T)
  | VPop _ => x ← Vec_Pop vc lp ep; mret (RVElem T x)
  | VReplace _ i x => _ ← Vec_Replace vc lp ep i x; mret (RVUnit T)
  | VGet _ i => x ← Vec_Get vc ep i; mret (RVElem T x)
  | VLen _ => n ← Vec_Len lp; mret (RVLen T n)
  end.
(** The abstract vector: a list. *)
Definition spec_vec_op (op : vec_op T) (l : list T) : outcome (vec_res T) * list T :=
  match op with
  | VPush _ x => (Ok (RVUnit T), l ++ [x])
  | VPop _ => match last l with
              | Some x => (Ok (RVElem T x), take (length l - 1) l)
              | None => (Err ErrEmptyVec, l)
              end
  | VReplace _ i x => if Z.of_nat (length l) <=? i then (Err ErrOutOfBounds, l)
                      else (Ok (RVUnit T), <[Z.to_nat i := x]> l)
  | VGet _ i => (from_option (Ok ∘ RVElem T) (Err ErrOutOfBounds) (l !! Z.to_nat i), l)
  | VLen _ => (Ok (RVLen T (Z.of_nat (length l))), l)
  end.
Fixpoint spec_vec_ops (ops : list (vec_op T)) (l : list T) : list (outcome (vec_res T)) * list T :=
  match ops with
  | [] => ([], l)
  | op :: ops => let '(r, l) := spec_vec_op op l in let '(rs, l) := spec_vec_ops ops l in (r :: rs, l)
  end.
Definition vec_op_ok (op : vec_op T) : Prop :=
  match op with
  | VPush _ x => vc_dom x
  | VReplace _ i x => 0 <= i < 2 ^ 64 ∧ vc_dom x
  | VGet _ i => 0 <= i < 2 ^ 64
  | _ => True
  end.

(** The store holds the length and the elements of the list. *)
Definition vec_rel (l : list T) (s : S) : Prop :=
  ∃ (ml : gmap unit Z) (me : gmap Z T),
    represents (kc := noKeyCodec) (vc := Uint64Value) lp ml s ∧ default 0 (ml !! tt) = Z.of_nat (length l) ∧
    represents (kc := Uint64Key) ep me s ∧ ∀ i x, me !! i = Some x ↔ 0 <= i ∧ l !! Z.to_nat i = Some x.

Lemma elements_insert (l : list T) (me : gmap Z T) i x : 0 <= i <= Z.of_nat (length l) →
  (∀ i x, me !! i = Some x ↔ 0 <= i ∧ l !! Z.to_nat i = Some x) →
  ∀ j y, <[i := x]> me !! j = Some y ↔
    0 <= j ∧ (if i =? Z.of_nat (length l) then l ++ [x] else <[Z.to_nat i := x]> l) !! Z.to_nat j = Some y.
Proof.
  intros Hi He j y. rewrite lookup_insert_Some, He. destruct (Z.eqb_spec i (Z.of_nat (length l))) as [->|Hne].
  - rewrite lookup_app_Some, list_lookup_singleton_Some. split.
    + intros [[<- <-]|[Hj [? Hl]]]; split; try lia; [right; split; [lia|]; split; [lia|done]|by left].
    + intros [Hj [Hl|(Hge & Hz & <-)]]; [right|left; split; [lia|done]].
      apply lookup_lt_Some in Hl as Hlt. split; [lia|done].
  - rewrite list_lookup_insert_Some. split.
    + intros [[<- <-]|[Hj [? Hl]]]; split; try lia; [left; split; [done|]; split; [done|lia]|right]. split; [lia|done].
    + intros [Hj [(Hz & <- & Hlt)|[Hz Hl]]]; [left; split; [lia|done]|right]. split; [|done]. by intros <-.
Qed.

(** Writing an element keeps the length, writing the length keeps the elements. *)
Lemma set_element (ml : gmap unit Z) (me : gmap Z T) s i x :
  represents (kc := noKeyCodec) (vc := Uint64Value) lp ml s → represents (kc := Uint64Key) ep me s →
  0 <= i < 2 ^ 64 → vc_dom x → ∃ s', Map_Set Uint64Key vc ep i x s = (Ok tt, s') ∧
  represents (kc := noKeyCodec) (vc := Uint64Value) lp ml s' ∧ represents (kc := Uint64Key) ep (<[i := x]> me) s'.
Proof.
  intros Hl He Hi Hx. destruct (Map_Set_spec ep me s i x He (element_key i Hi) Hx) as (s' & Hs & He' & Hf). exists s'.
  split; [done|]. split; [|done]. eapply represents_framed; [| |exact Hl|exact Hf|apply He']; done.
Qed.
Lemma set_length (ml : gmap unit Z) (me : gmap Z T) s n :
  represents (kc := noKeyCodec) (vc := Uint64Value) lp ml s → represents (kc := Uint64Key) ep me s →
  0 <= n < 2 ^ 64 → ∃ s', Item_Set Uint64Value lp n s = (Ok tt, s') ∧
  represents (kc := noKeyCodec) (vc := Uint64Value) lp (<[tt := n]> ml) s' ∧ represents (kc := Uint64Key) ep me s'.
Proof.
  intros Hl He Hn. destruct (Map_Set_spec lp ml s tt n Hl length_key (uint64_dom n Hn)) as (s' & Hs & Hl' & Hf). exists s'.
  split; [done|]. split; [done|]. eapply represents_framed; [| |exact He|exact Hf|apply Hl']; done.
Qed.
Lemma read_length (l : list T) (ml : gmap unit Z) (me : gmap Z T) s :
  represents (kc := noKeyCodec) (vc := Uint64Value) lp ml s → represents (kc := Uint64Key) ep me s →
  default 0 (ml !! tt) = Z.of_nat (length l) → ∃ s', vec_length lp s = (Ok (Z.of_nat (length l)), s') ∧
  represents (kc := noKeyCodec) (vc := Uint64Value) lp ml s' ∧ represents (kc := Uint64Key) ep me s'.
Proof.
  intros Hl He Hn. destruct (get_or_spec lp length_key 0 ml s Hl) as (s' & Hg & Hl' & Hf). exists s'. rewrite Hn in Hg.
  split; [done|]. split; [done|]. eapply represents_framed; [| |exact He|exact Hf|apply Hl']; done.
Qed.

Lemma run_push x l s : vec_rel l s → vc_dom x → Z.of_nat (length l) < 2 ^ 64 - 1 → ∃ s',
  run_vec_op (VPush T x) s = (Ok (Ok (RVUnit T)), s') ∧ vec_rel (l ++ [x]) s'.
Proof.
  intros (ml & me & Hl & Hn & He & Hel) Hx Hb. destruct (read_length l ml me s Hl He Hn) as (s1 & H1 & Hl1 & He1).
  destruct (set_element ml me s1 (Z.of_nat (length l)) x Hl1 He1) as (s2 & H2 & Hl2 & He2); [lia|done|].
  destruct (set_length ml _ s2 (wrap_uint64 (Z.of_nat (length l) + 1)) Hl2 He2) as (s3 & H3 & Hl3 & He3);
    [unfold wrap_uint64; apply Z.mod_pos_bound; lia|].
  exists s3. split.
  - unfold run_vec_op. apply (attempt_run _ (λ _, RVUnit T) _ tt); [|done].
    unfold Vec_Push. by rewrite (GoM_bind_run _ _ _ _ _ H1), (GoM_bind_run _ _ _ _ _ H2).
  - eexists _, _. split; [exact Hl3|]. split; [|split; [exact He3|]].
    + rewrite lookup_insert_eq. cbn. rewrite length_app. cbn. rewrite wrap_uint64_id; lia.
    + intros i y. rewrite (elements_insert l me) by (done || lia). by rewrite Z.eqb_refl.
Qed.
Lemma run_replace i x l s : vec_rel l s → 0 <= i < 2 ^ 64 → vc_dom x → ∃ s',
  run_vec_op (VReplace T i x) s = (Ok (spec_vec_op (VReplace T i x) l).1, s') ∧ vec_rel (spec_vec_op (VReplace T i x) l).2 s'.
Proof.
  intros (ml & me & Hl & Hn & He & Hel) Hi Hx. destruct (read_length l ml me s Hl He Hn) as (s1 & H1 & Hl1 & He1).
  cbn [spec_vec_op]. unfold run_vec_op, Vec_Replace. destruct (Z.leb_spec (Z.of_nat (length l)) i) as [Hge|Hlt].
  - exists s1. split; [|by exists ml, me]. apply attempt_err. rewrite (GoM_bind_run _ _ _ _ _ H1).
    by rewrite (proj2 (Z.leb_le _ _)).
  - destruct (set_element ml me s1 i x Hl1 He1 Hi Hx) as (s2 & H2 & Hl2 & He2). exists s2. split.
    + apply (attempt_run _ (λ _, RVUnit T) _ tt); [|done]. rewrite (GoM_bind_run _ _ _ _ _ H1).
      by rewrite (proj2 (Z.leb_gt _ _)).
    + cbn [snd]. eexists ml, _. split; [exact Hl2|]. split; [by rewrite length_insert|]. split; [exact He2|].
      intros j y. rewrite (elements_insert l me) by (done || lia). by rewrite (proj2 (Z.eqb_neq _ _)) by lia.
Qed.
Lemma run_pop l s : vec_rel l s → Z.of_nat (length l) < 2 ^ 64 → ∃ s',
  run_vec_op (VPop T) s = (Ok (spec_vec_op (VPop T) l).1, s') ∧ vec_rel (spec_vec_op (VPop T) l).2 s'.
Proof.
  intros (ml & me & Hl & Hn & He & Hel) Hb. destruct (read_length l ml me s Hl He Hn) as (s1 & H1 & Hl1 & He1).
  cbn [spec_vec_op]. unfold run_vec_op, Vec_Pop. rewrite last_lookup. destruct (l !! pred (length l)) as [x|] eqn:Ex.
  - apply lookup_lt_Some in Ex as Hlt. set (i := Z.of_nat (length l) - 1).
    assert (me !! i = Some x) as Hx by (apply Hel; split; [lia|]; rewrite <- Ex; f_equal; lia).
    destruct (Map_Get_spec ep me s1 i He1 (element_key i ltac:(lia))) as (s2 & H2 & He2 & Hf2). rewrite Hx in H2.
    assert (represents (kc := noKeyCodec) (vc := Uint64Value) lp ml s2) as Hl2
      by (eapply represents_framed; [| |exact Hl1|exact Hf2|apply He2]; done).
    destruct (Map_Remove_spec ep me s2 i He2 (element_key i ltac:(lia))) as (s3 & H3 & He3 & Hf3).
    assert (represents (kc := noKeyCodec) (vc := Uint64Value) lp ml s3) as Hl3
      by (eapply represents_framed; [| |exact Hl2|exact Hf3|apply He3]; done).
    destruct (set_length ml _ s3 i Hl3 He3 ltac:(lia)) as (s4 & H4 & Hl4 & He4). exists s4. split.
    + apply (attempt_run _ (RVElem T) _ x); [|done]. rewrite (GoM_bind_run _ _ _ _ _ H1).
      rewrite (proj2 (Z.eqb_neq _ _)) by lia. fold i.
      rewrite (GoM_bind_run _ _ _ _ _ H2), (GoM_bind_run _ _ _ _ _ H3). by rewrite (GoM_bind_run _ _ _ _ _ H4).
    + cbn [snd]. eexists _, _. split; [exact Hl4|]. split; [|split; [exact He4|]].
      * rewrite lookup_insert_eq. cbn. rewrite length_take. lia.
      * intros j y. rewrite lookup_delete_Some, Hel, lookup_take_Some. split.
        -- intros (Hne & Hj & Hy). apply lookup_lt_Some in Hy as Hlt'. split; [done|]. split; [done|lia].
        -- intros (Hj & Hy & Hlt'). split; [lia|done].
  - apply lookup_ge_None in Ex. assert (length l = 0%nat) as E0 by lia. exists s1. split; [|by exists ml, me].
    apply attempt_err. by rewrite (GoM_bind_run _ _ _ _ _ H1), E0.
Qed.
Lemma run_get i l s : vec_rel l s → 0 <= i < 2 ^ 64 → ∃ s',
  run_vec_op (VGet T i) s = (Ok (spec_vec_op (VGet T i) l).1, s') ∧ vec_rel l s'.
Proof.
  intros (ml & me & Hl & Hn & He & Hel) Hi.
  destruct (Map_Get_spec ep me s i He (element_key i Hi)) as (s' & Hg & He' & Hf). exists s'. split.
  - cbn [spec_vec_op fst]. unfold run_vec_op. assert (me !! i = l !! Z.to_nat i) as E.
    { apply option_eq. intros x. rewrite Hel. naive_solver lia. }
    rewrite E in Hg. destruct (l !! Z.to_nat i) as [x|].
    + apply (attempt_run _ (RVElem T) _ x); [|done]. unfold Vec_Get. by rewrite Hg.
    + apply attempt_err. unfold Vec_Get. by rewrite Hg.
  - exists ml, me. split; [eapply represents_framed; [| |exact Hl|exact Hf|apply He']; done|]. done.
Qed.
Lemma run_vec op l s : vec_rel l s → vec_op_ok op → Z.of_nat (length l) < 2 ^ 64 - 1 → ∃ s',
  run_vec_op op s = (Ok (spec_vec_op op l).1, s') ∧ vec_rel (spec_vec_op op l).2 s'.
Proof.
  intros Hv Hok Hb. destruct op as [x| |i x|i|]; cbn [vec_op_ok] in Hok.
  - by apply run_push.
  - apply run_pop; [done|lia].
  - apply run_replace; tauto.
  - by apply run_get.
  - destruct Hv as (ml & me & Hl & Hn & He & Hel). destruct (read_length l ml me s Hl He Hn) as (s1 & H1 & Hl1 & He1).
    exists s1. split; [|by exists ml, me]. by apply (attempt_run _ (RVLen T) _ (Z.of_nat (length l))).
Qed.
Lemma spec_vec_length op l : (length (spec_vec_op op l).2 <= Datatypes.S (length l))%nat.
Proof.
  destruct op; cbn; [rewrite length_app; cbn; lia|destruct (last l); cbn; rewrite ?length_take; lia| |lia|lia].
  destruct (_ <=? _); cbn; rewrite ?length_insert; lia.
Qed.
Lemma run_vec_ops ops : ∀ l s, vec_rel l s → Forall vec_op_ok ops → Z.of_nat (length l + length ops) < 2 ^ 64 → ∃ s',
  traverse run_vec_op ops s = (Ok (spec_vec_ops ops l).1, s') ∧ vec_rel (spec_vec_ops ops l).2 s'.
Proof.
  induction ops as [|op ops IH]; intros l s Hv Hok Hb; [by exists s|]. apply Forall_cons in Hok as [Hop Hok].
  cbn [length] in Hb. destruct (run_vec op l s Hv Hop) as (s1 & H1 & Hv1); [lia|]. pose proof (spec_vec_length op l) as Hlen.
  destruct (IH _ _ Hv1 Hok) as (s2 & H2 & Hv2); [lia|]. exists s2. cbn [traverse spec_vec_ops].
  destruct (spec_vec_op op l) as [r l']. cbn [fst snd] in *. destruct (spec_vec_ops ops l') as [rs l2]. cbn [fst snd] in *.
  split; [|done]. by rewrite (GoM_bind_run _ _ _ _ _ H1), (GoM_bind_run _ _ _ _ _ H2).
Qed.
End Vec.
End Derived.

(** ** Properties *)

(** Successive calls of [Sequence.Next] return consecutive numbers, from
    the stored one or from 0, wrapping around only at 2^64, and change nothing
    outside the sequence: so ids handed out (account numbers) are not reused. *)
Theorem sequence_consecutive {S I} {HKV : KVStore S I} {HI : Iterator I} {HL : KVStoreLaws S I}
    (prefix : string) (calls : list unit) (m : gmap unit Z) (s : S) :
  coll_key (kc := noKeyCodec) (S := S) prefix tt →
  represents (kc := noKeyCodec) (vc := Uint64Value) prefix m s →
  let n := default DefaultSequenceStart (m !! tt) in
  ∃ s' numbers, traverse (λ _, Sequence_Next prefix) calls s = (Ok numbers, s') ∧ framed prefix s s' ∧
    numbers = map (λ i, wrap_uint64 (n + Z.of_nat i)) (seq 0 (length calls)) ∧
    (n + Z.of_nat (length calls) <= 2 ^ 64 → NoDup numbers).
Proof.
  intros Hk Hr n. assert (0 <= n < 2 ^ 64) as Hn.
  { subst n. destruct (m !! tt) as [x|] eqn:E; cbn; [|done]. destruct (proj1 (proj2 Hr) _ _ E) as [_ [Hd _]]. exact Hd. }
  destruct (Sequence_run prefix Hk calls m s Hr Hn) as (s' & Hrun & Hf). eexists s', _. split; [exact Hrun|]. split; [done|].
  split; [done|]. intros Hb. apply NoDup_fmap_2_strong; [|apply NoDup_seq].
  intros i j Hi Hj. apply elem_of_seq in Hi, Hj. fold n. rewrite !wrap_uint64_id by lia. lia.
Qed.
Lemma sequence_consecutive_witness :
  ∃ s', traverse (λ _, Sequence_Next (S := gmap string string) (I := list item) "q") [tt; tt; tt] ∅ = (Ok [0; 1; 2], s').
Proof.
  destruct (sequence_consecutive (I := list item) "q" [tt; tt; tt] ∅ (∅ : gmap string string)) as (s' & numbers & Hrun & _ & -> & _);
    [done|apply represents_empty|by exists s'].
Defined.

Lemma suffixes_differ p a b : byte a ≠ byte b → HasPrefix (p +:+ String (byte a) "") (p +:+ String (byte b) "") = false.
Proof.
  intros Hab. induction p as [|c p IH].
  - change ("" +:+ ?x) with x. by rewrite HasPrefix_cons, bool_decide_false.
  - rewrite !str_app_cons, HasPrefix_cons. by rewrite bool_decide_true.
Qed.

(** A [Vec] whose two prefixes are distinct is a list: pushing, popping,
    replacing, reading and measuring in any sequence give the results of the
    list, errors on an empty vector and out-of-range indexes included.  The
    prefixes are distinct exactly if the slice given to [NewVec] has no spare
    capacity; otherwise the length is stored among the elements, and listing the
    indexes of a vector of one element fails. *)
Theorem vec_refines_list {T} {vc : ValueCodec T} {VL : ValueCodecLaws vc}
    {S I} {HKV : KVStore S I} {HI : Iterator I} {HL : KVStoreLaws S I}
    (prefix : string) (ops : list (vec_op T)) (l : list T) (s : S) :
  let '(lp, ep) := vec_prefixes prefix 0 in
  coll_key (kc := noKeyCodec) (S := S) lp tt →
  (∀ i, 0 <= i < 2 ^ 64 → coll_key (kc := Uint64Key) (S := S) ep i) →
  vec_rel (vc := vc) lp ep l s → Forall (vec_op_ok (vc := vc)) ops → Z.of_nat (length l + length ops) < 2 ^ 64 →
  (∃ s', traverse (run_vec_op (vc := vc) lp ep) ops s = (Ok (spec_vec_ops ops l).1, s') ∧
         vec_rel (vc := vc) lp ep (spec_vec_ops ops l).2 s') ∧
  (∀ spare, (vec_prefixes prefix spare).1 ≠ (vec_prefixes prefix spare).2 ↔ spare = 0%nat) ∧
  let '(lp, ep) := vec_prefixes "v" 1 in
  fst ((_ ← Vec_Push Uint64Value lp ep 7;
        i ← Map_Iterate (S := gmap string string) Uint64Key ep 10 None;
        liftM (iter_Keys Uint64Key 10 i)) ∅) = Err ErrEncoding.
Proof.
  intros Hl He Hv Hops Hb.
  split; [|split; [|by vm_compute]].
  - apply run_vec_ops; try done; by apply suffixes_differ.
  - intros spare. unfold vec_prefixes. cbn [fst snd]. destruct spare as [|spare]; cbn; [|naive_solver].
    split; [done|]. intros _ E%(inj (String.app prefix)). done.
Qed.
Lemma vec_rel_empty lp ep : vec_rel (vc := Uint64Value) (S := gmap string string) (I := list item) lp ep [] ∅.
Proof.
  exists ∅, ∅. split; [apply represents_empty|]. split; [done|]. split; [apply represents_empty|].
  intros i x. rewrite lookup_empty. naive_solver.
Qed.
Lemma vec_refines_list_witness :
  ∃ s', traverse (run_vec_op (vc := Uint64Value) (S := gmap string string) (I := list item)
      (vec_prefixes "v" 0).1 (vec_prefixes "v" 0).2)
    [VPush Z 5; VPush Z 6; VReplace Z 0 8; VPop Z; VGet Z 0; VLen Z; VGet Z 1] ∅ =
    (Ok [Ok (RVUnit Z); Ok (RVUnit Z); Ok (RVUnit Z); Ok (RVElem Z 6); Ok (RVElem Z 8); Ok (RVLen Z 1); Err ErrOutOfBounds], s').
Proof.
  destruct (vec_refines_list (vc := Uint64Value) (I := list item) "v"
    [VPush Z 5; VPush Z 6; VReplace Z 0 8; VPop Z; VGet Z 0; VLen Z; VGet Z 1] [] (∅ : gmap string string))
    as [(s' & Hrun & _) _].
  - done.
  - intros i Hi. split; [done|]. change (valid_key ((vec_prefixes "v" 0).2 +:+ be_put 8 i)).
    unfold valid_key, AssertValidKey, str_len. by rewrite str_length_app, be_put_length.
  - apply vec_rel_empty.
  - repeat constructor; try done; by apply uint64_dom.
  - done.
  - exists s'. exact Hrun.
Defined.
