(* ===== verification/CacheIter.v ===== *)
(** * Iterators of the cache store: store/cachekv/internal

    [memIterator] walks the sorted cache, [cacheMergeIterator] merges it with
    the iterator of the parent store.  The sorted cache is a B-tree of an
    external library; it enters as the class [BTreeG] of the calls the source
    makes, with the documented behaviour of those calls in [BTreeLaws]. *)
From S2P Require Import Prelude KVStore.

(** ** The B-tree library *)

Class BTreeG (T IT : Type) := {
  bt_New : T;
  bt_Set : item → T → T;
  bt_Copy : T → T;
  bt_Iter : T → IT;
  bi_Seek : string → IT → bool * IT;
  bi_First : IT → bool * IT;
  bi_Last : IT → bool * IT;
  bi_Next : IT → bool * IT;
  bi_Prev : IT → bool * IT;
  bi_Item : IT → item
}.

(** An iterator ranges over the items of the tree it was created from;
    [bi_at it l1 x l2] says that it stands on [x], after [l1] and before [l2].
    A move reports whether it reached an item. *)
Class BTreeLaws (T IT : Type) `{BTreeG T IT} := {
  bt_items : T → list item;
  bi_over : IT → list item → Prop;
  bi_at : IT → list item → item → list item → Prop;
  bt_items_sorted t : sorted true (bt_items t);
  bt_items_New : bt_items bt_New = [];
  elem_of_bt_Set k v t k' v' :
    (k', v') ∈ bt_items (bt_Set (k, v) t) ↔ (k' = k ∧ v' = v) ∨ (k' ≠ k ∧ (k', v') ∈ bt_items t);
  bt_items_Copy t : bt_items (bt_Copy t) = bt_items t;
  bt_Iter_over t : bi_over (bt_Iter t) (bt_items t);
  bi_Seek_spec it k l1 l2 :
    bi_over it (l1 ++ l2) → Forall (λ y, slt y.1 k) l1 → Forall (λ y, ¬ slt y.1 k) l2 →
    match l2 with
    | [] => (bi_Seek k it).1 = false ∧ bi_over (bi_Seek k it).2 l1
    | x :: l2' => (bi_Seek k it).1 = true ∧ bi_at (bi_Seek k it).2 l1 x l2'
    end;
  bi_First_spec it l : bi_over it l →
    match l with
    | [] => (bi_First it).1 = false
    | x :: l' => (bi_First it).1 = true ∧ bi_at (bi_First it).2 [] x l'
    end;
  bi_Last_spec_nil it : bi_over it [] → (bi_Last it).1 = false;
  bi_Last_spec it l x : bi_over it (l ++ [x]) → (bi_Last it).1 = true ∧ bi_at (bi_Last it).2 l x [];
  bi_Next_spec it l1 x l2 : bi_at it l1 x l2 →
    match l2 with
    | [] => (bi_Next it).1 = false
    | y :: l2' => (bi_Next it).1 = true ∧ bi_at (bi_Next it).2 (l1 ++ [x]) y l2'
    end;
  bi_Prev_spec_nil it x l2 : bi_at it [] x l2 → (bi_Prev it).1 = false;
  bi_Prev_spec it l1 y x l2 : bi_at it (l1 ++ [y]) x l2 →
    (bi_Prev it).1 = true ∧ bi_at (bi_Prev it).2 l1 y (x :: l2);
  bi_Item_spec it l1 x l2 : bi_at it l1 x l2 → bi_Item it = x
}.

(** ** internal/btree.go and internal/memiterator.go *)

Section MemIterator.
Context {T IT : Type} {BT : BTreeG T IT}.

Record memIterator := mkMemIterator {
  mi_iter : IT;
  mi_start : option string;
  mi_end : option string;
  mi_ascending : bool;
  mi_valid : bool
}.

Definition keyInRange (start end_ : option string) (ascending : bool) (key : string) : bool :=
  if ascending && match end_ with Some e => negb (str_lt key e) | None => false end then false
  else if negb ascending && match start with Some s => str_lt key s | None => false end then false
  else true.

(** The first position, before the range check. *)
Definition mem_first (start end_ : option string) (items : T) (ascending : bool) : bool * IT :=
  let iter := bt_Iter items in
  if ascending then
    match start with
    | Some s => bi_Seek s iter
    | None => bi_First iter
    end
  else
    match end_ with
    | Some e =>
        let '(valid, iter) := bi_Seek e iter in
        if valid : bool then bi_Prev iter else bi_Last iter
    | None => bi_Last iter
    end.
(** The valid flag after a move: [mi.valid = mi.keyInRange(mi.Key())]. *)
Definition mem_move (start end_ : option string) (ascending : bool) (moved : bool * IT) : memIterator :=
  mkMemIterator moved.2 start end_ ascending
    (if moved.1 then keyInRange start end_ ascending (bi_Item moved.2).1 else false).
Definition newMemIterator (start end_ : option string) (items : T) (ascending : bool) : memIterator :=
  mem_move start end_ ascending (mem_first start end_ items ascending).

Definition mem_Next (mi : memIterator) : outcome memIterator :=
  _ ← guard_panic (negb (mi_valid mi)) "invalid memIterator";
  Ok (mem_move (mi_start mi) (mi_end mi) (mi_ascending mi)
        (if mi_ascending mi then bi_Next (mi_iter mi) else bi_Prev (mi_iter mi))).

#[global] Instance mem_Iterator : Iterator memIterator := {
  it_Valid mi := mi_valid mi;
  it_Next := mem_Next;
  it_Key mi := Ok (bi_Item (mi_iter mi)).1;
  it_Value mi := Ok (bi_Item (mi_iter mi)).2
}.

Definition errKeyEmpty : string := "key cannot be empty".
(** [BTree.Iterator] and [BTree.ReverseIterator]. *)
Definition BTree_iterator (start end_ : option string) (ascending : bool) (items : T) : outcome memIterator :=
  _ ← guard_err (bool_decide (start = Some "") || bool_decide (end_ = Some "")) errKeyEmpty;
  Ok (newMemIterator start end_ items ascending).
End MemIterator.
Arguments memIterator : clear implicits.

(** ** internal/mergeiterator.go *)

Section MergeIterator.
Context {P C : Type} {HP : Iterator P} {HC : Iterator C}.

Record cacheMergeIterator := mkMergeIterator {
  cm_parent : P;
  cm_cache : C;
  cm_ascending : bool;
  cm_valid : bool;
  cm_fuel : nat
}.

(** [for iter.cache.Valid() && iter.cache.Value() == nil && (until == nil ||
    iter.compare(iter.cache.Key(), until) < 0) { iter.cache.Next() }] *)
Fixpoint skipCacheDeletes (fuel : nat) (ascending : bool) (until : option string) (cache : C) : outcome C :=
  match fuel with
  | O => Panic "out of fuel"
  | S fuel =>
      if it_Valid cache then
        value ← it_Value cache;
        match value with
        | Some _ => Ok cache
        | None =>
            key ← it_Key cache;
            if match until with
               | None => true
               | Some u => match compare_keys ascending key u with Lt => true | _ => false end
               end
            then cache ← it_Next cache; skipCacheDeletes fuel ascending until cache
            else Ok cache
        end
      else Ok cache
  end.

Fixpoint skipUntilExistsOrInvalid (fuel : nat) (ascending : bool) (parent : P) (cache : C)
    : outcome (P * C * bool) :=
  match fuel with
  | O => Panic "out of fuel"
  | S fuel' =>
      if negb (it_Valid parent) then
        cache ← skipCacheDeletes fuel ascending None cache;
        Ok (parent, cache, it_Valid cache)
      else if negb (it_Valid cache) then Ok (parent, cache, true)
      else
        keyP ← it_Key parent;
        keyC ← it_Key cache;
        match compare_keys ascending keyP keyC with
        | Lt => Ok (parent, cache, true)
        | Eq =>
            valueC ← it_Value cache;
            match valueC with
            | None =>
                parent ← it_Next parent;
                cache ← it_Next cache;
                skipUntilExistsOrInvalid fuel' ascending parent cache
            | Some _ => Ok (parent, cache, true)
            end
        | Gt =>
            valueC ← it_Value cache;
            match valueC with
            | None =>
                cache ← skipCacheDeletes fuel ascending (Some keyP) cache;
                skipUntilExistsOrInvalid fuel' ascending parent cache
            | Some _ => Ok (parent, cache, true)
            end
        end
  end.

Definition merge_settle (fuel : nat) (ascending : bool) (parent : P) (cache : C) : outcome cacheMergeIterator :=
  '(parent, cache, valid) ← skipUntilExistsOrInvalid fuel ascending parent cache;
  Ok (mkMergeIterator parent cache ascending valid fuel).
Definition NewCacheMergeIterator (fuel : nat) (parent : P) (cache : C) (ascending : bool)
    : outcome cacheMergeIterator :=
  merge_settle fuel ascending parent cache.

Definition merge_assertValid (iter : cacheMergeIterator) : outcome unit :=
  guard_panic (negb (cm_valid iter)) "invalid cacheMergeIterator".

Definition merge_Next (iter : cacheMergeIterator) : outcome cacheMergeIterator :=
  _ ← merge_assertValid iter;
  '(parent, cache) ←
    (if negb (it_Valid (cm_parent iter)) then cache ← it_Next (cm_cache iter); Ok (cm_parent iter, cache)
     else if negb (it_Valid (cm_cache iter)) then parent ← it_Next (cm_parent iter); Ok (parent, cm_cache iter)
     else
       keyP ← it_Key (cm_parent iter);
       keyC ← it_Key (cm_cache iter);
       match compare_keys (cm_ascending iter) keyP keyC with
       | Lt => parent ← it_Next (cm_parent iter); Ok (parent, cm_cache iter)
       | Eq => parent ← it_Next (cm_parent iter); cache ← it_Next (cm_cache iter); Ok (parent, cache)
       | Gt => cache ← it_Next (cm_cache iter); Ok (cm_parent iter, cache)
       end);
  merge_settle (cm_fuel iter) (cm_ascending iter) parent cache.

Definition merge_Key (iter : cacheMergeIterator) : outcome string :=
  _ ← merge_assertValid iter;
  if negb (it_Valid (cm_parent iter)) then it_Key (cm_cache iter)
  else if negb (it_Valid (cm_cache iter)) then it_Key (cm_parent iter)
  else
    keyP ← it_Key (cm_parent iter);
    keyC ← it_Key (cm_cache iter);
    match compare_keys (cm_ascending iter) keyP keyC with
    | Lt | Eq => Ok keyP
    | Gt => Ok keyC
    end.
Definition merge_Value (iter : cacheMergeIterator) : outcome (option string) :=
  _ ← merge_assertValid iter;
  if negb (it_Valid (cm_parent iter)) then it_Value (cm_cache iter)
  else if negb (it_Valid (cm_cache iter)) then it_Value (cm_parent iter)
  else
    keyP ← it_Key (cm_parent iter);
    keyC ← it_Key (cm_cache iter);
    match compare_keys (cm_ascending iter) keyP keyC with
    | Lt => it_Value (cm_parent iter)
    | Eq | Gt => it_Value (cm_cache iter)
    end.

#[global] Instance merge_Iterator : Iterator cacheMergeIterator := {
  it_Valid := cm_valid;
  it_Next := merge_Next;
  it_Key := merge_Key;
  it_Value := merge_Value
}.
End MergeIterator.
Arguments cacheMergeIterator : clear implicits.

(** ** What the cache iterator yields *)

Definition before_end (end_ : option string) (k : string) : bool :=
  match end_ with Some e => str_lt k e | None => true end.
Definition after_start (start : option string) (k : string) : bool :=
  match start with Some s => negb (str_lt k s) | None => true end.

Lemma IsKeyInDomain_split k start end_ : IsKeyInDomain k start end_ = after_start start k && before_end end_ k.
Proof.
  unfold IsKeyInDomain, after_start, before_end. destruct start as [s|]; cbn [default from_option id].
  - by destruct (str_lt k s).
  - assert (str_lt k "" = false) as -> by (by destruct k). done.
Qed.
Lemma keyInRange_asc start end_ k : keyInRange start end_ true k = before_end end_ k.
Proof. unfold keyInRange, before_end. destruct end_ as [e|]; [|done]. by destruct (str_lt k e). Qed.
Lemma keyInRange_desc start end_ k : keyInRange start end_ false k = after_start start k.
Proof. unfold keyInRange, after_start. destruct start as [s|]; [|done]. cbn. by destruct (str_lt k s). Qed.

Lemma before_end_mono end_ k k' : slt k k' → before_end end_ k' = true → before_end end_ k = true.
Proof. destruct end_ as [e|]; [|done]. intros H1 H2. change (slt k e). by etransitivity. Qed.
Lemma after_start_mono start k k' : slt k' k → after_start start k' = true → after_start start k = true.
Proof.
  destruct start as [s|]; [|done]. cbn. rewrite !Bool.negb_true_iff. intros H1 H2.
  destruct (str_lt k s) eqn:E; [|done]. assert (slt k' s) as Hc by (by transitivity k). unfold slt in Hc. congruence.
Qed.

(** Filtering a sorted list by a test that stays false cuts its tail. *)
Lemma filter_tail asc (f : string → bool) x l :
  (∀ k k', klt asc k k' → f k' = true → f k = true) → sorted asc (x :: l) → f x.1 = false →
  filter (λ y : item, f y.1 = true) (x :: l) = [].
Proof.
  intros Hf Hs Hx. apply filter_none. constructor; [congruence|]. apply Forall_forall. intros y Hy Hc.
  rewrite (Hf x.1 y.1) in Hx; [done| |done]. by eapply sorted_head.
Qed.

(** A sorted list splits at every key. *)
Lemma sorted_split k l : sorted true l →
  l = filter (λ y, slt y.1 k) l ++ filter (λ y, ¬ slt y.1 k) l.
Proof.
  induction l as [|x l IH]; intros Hs; [done|]. pose proof Hs as [Hs' Hf]%sorted_cons. rewrite !filter_cons.
  destruct (decide (slt x.1 k)) as [Hx|Hx].
  - rewrite decide_False by tauto. cbn. f_equal. by apply IH.
  - rewrite decide_True by done.
    assert (Forall (λ y : item, ¬ slt y.1 k) l) as H.
    { eapply Forall_impl; [exact Hf|]. cbn. intros y Hy Hc. apply Hx. by transitivity y.1. }
    by rewrite (filter_none _ l H), (filter_all _ l H).
Qed.

Lemma sorted_filter asc (Q : item → Prop) `{∀ x, Decision (Q x)} l : sorted asc l → sorted asc (filter Q l).
Proof.
  induction 1 as [|x l Hs IH Hf]; [constructor|]. rewrite filter_cons. destruct (decide (Q x)); [|done].
  constructor; [done|]. rewrite Forall_forall in Hf |- *. intros y [_ Hy]%list_elem_of_filter. by apply Hf.
Qed.

Section MemFacts.
Context {T IT : Type} {BT : BTreeG T IT} {BL : BTreeLaws T IT}.
Variables start end_ : option string.

Lemma mem_stop asc it l1 x l2 :
  bi_at it l1 x l2 → keyInRange start end_ asc x.1 = false → yields (mem_move start end_ asc (true, it)) [].
Proof.
  intros Hat Hk. constructor. change (keyInRange start end_ asc (bi_Item it).1 = false).
  by rewrite (bi_Item_spec _ _ _ _ Hat).
Qed.
Lemma mem_step asc it l1 x l2 l :
  bi_at it l1 x l2 → keyInRange start end_ asc x.1 = true →
  yields (mem_move start end_ asc (if asc then bi_Next it else bi_Prev it)) l →
  yields (mem_move start end_ asc (true, it)) (x :: l).
Proof.
  intros Hat Hk Hy. destruct x as [k v].
  assert (mi_valid (mem_move start end_ asc (true, it)) = true) as Hv.
  { change (keyInRange start end_ asc (bi_Item it).1 = true). by rewrite (bi_Item_spec _ _ _ _ Hat). }
  eapply yields_cons; [exact Hv| | | |exact Hy].
  - change (Ok (bi_Item it).1 = Ok k). by rewrite (bi_Item_spec _ _ _ _ Hat).
  - change (Ok (bi_Item it).2 = Ok v). by rewrite (bi_Item_spec _ _ _ _ Hat).
  - change (mem_Next (mem_move start end_ asc (true, it)) =
            Ok (mem_move start end_ asc (if asc then bi_Next it else bi_Prev it))). unfold mem_Next. by rewrite Hv.
Qed.

Lemma mem_yields_asc l2 : ∀ l1 x it,
  bi_at it l1 x l2 → sorted true (x :: l2) →
  yields (mem_move start end_ true (true, it)) (filter (λ y, before_end end_ y.1 = true) (x :: l2)).
Proof.
  induction l2 as [|y l2 IH]; intros l1 x it Hat Hs; (destruct (before_end end_ x.1) eqn:Hx;
    [rewrite filter_cons_True by done; eapply mem_step; [done|by rewrite keyInRange_asc|]
    |rewrite (filter_tail true) by (done || apply before_end_mono); eapply mem_stop; [done|by rewrite keyInRange_asc]]);
    pose proof (bi_Next_spec _ _ _ _ Hat) as Hn.
  - constructor. cbn. by rewrite Hn.
  - destruct Hn as [Hn1 Hn2]. destruct (bi_Next it) as [b it']. cbn in Hn1, Hn2. subst b.
    eapply IH; [done|]. by apply sorted_cons in Hs as [? _].
Qed.
Lemma mem_yields_desc l1 : ∀ x l2 it,
  bi_at it l1 x l2 → sorted true (l1 ++ [x]) →
  yields (mem_move start end_ false (true, it)) (filter (λ y, after_start start y.1 = true) (x :: reverse l1)).
Proof.
  induction l1 as [|y l1 IH] using rev_ind; intros x l2 it Hat Hs;
    (apply sorted_reverse in Hs as Hr; rewrite reverse_app in Hr; cbn in Hr);
    (destruct (after_start start x.1) eqn:Hx;
    [rewrite filter_cons_True by done; eapply mem_step; [done|by rewrite keyInRange_desc|]
    |rewrite (filter_tail false) by (done || apply after_start_mono); eapply mem_stop; [done|by rewrite keyInRange_desc]]).
  - constructor. cbn. by rewrite (bi_Prev_spec_nil _ _ _ Hat).
  - destruct (bi_Prev_spec _ _ _ _ _ Hat) as [Hp1 Hp2]. destruct (bi_Prev it) as [b it']. cbn in Hp1, Hp2. subst b.
    rewrite reverse_app. cbn. eapply IH; [done|]. by apply StronglySorted_app_1_l in Hs.
Qed.

Lemma mem_yields_Last it l :
  bi_over it l → sorted true l →
  yields (mem_move start end_ false (bi_Last it)) (filter (λ y, after_start start y.1 = true) (reverse l)).
Proof.
  intros Ho Hs. destruct l as [|x l _] using rev_ind.
  - constructor. cbn. by rewrite (bi_Last_spec_nil _ Ho).
  - destruct (bi_Last_spec _ _ _ Ho) as [H1 H2]. destruct (bi_Last it) as [b it']. cbn in H1, H2. subst b.
    rewrite reverse_app. by eapply mem_yields_desc.
Qed.

Lemma newMem_yields_asc t :
  yields (newMemIterator start end_ t true)
    (filter (λ y, before_end end_ y.1 = true) (filter (λ y, after_start start y.1 = true) (bt_items t))).
Proof.
  pose proof (bt_items_sorted t) as Hs. pose proof (bt_Iter_over t) as Ho. unfold newMemIterator, mem_first.
  destruct start as [s|] eqn:Es.
  - assert (filter (λ y : item, after_start (Some s) y.1 = true) (bt_items t)
            = filter (λ y : item, ¬ slt y.1 s) (bt_items t)) as ->.
    { apply list_filter_iff. intros x. unfold slt. cbn. rewrite Bool.negb_true_iff. by destruct (str_lt x.1 s). }
    rewrite (sorted_split s _ Hs) in Ho.
    pose proof (sorted_filter _ (λ y : item, ¬ slt y.1 s) _ Hs) as Hs2.
    pose proof (bi_Seek_spec (bt_Iter t) s _ _ Ho) as Hk.
    do 2 (match type of Hk with ?A → _ => assert A as HF by (apply Forall_forall; intros x [? _]%list_elem_of_filter; done);
           specialize (Hk HF); clear HF end).
    destruct (filter (λ y : item, ¬ slt y.1 s) (bt_items t)) as [|x l2]; destruct (bi_Seek s (bt_Iter t)) as [b it'];
      cbn in Hk; destruct Hk as [-> Hk].
    + by constructor.
    + rewrite <- Es. by eapply mem_yields_asc.
  - rewrite (filter_all _ (bt_items t)) by (by apply Forall_true).
    pose proof (bi_First_spec _ _ Ho) as Hf. destruct (bt_items t) as [|x l].
    + constructor. cbn. by rewrite Hf.
    + destruct Hf as [H1 H2]. destruct (bi_First (bt_Iter t)) as [b it']. cbn in H1, H2. subst b.
      rewrite <- Es. by eapply mem_yields_asc.
Qed.
Lemma newMem_yields_desc t :
  yields (newMemIterator start end_ t false)
    (filter (λ y, after_start start y.1 = true) (reverse (filter (λ y, before_end end_ y.1 = true) (bt_items t)))).
Proof.
  pose proof (bt_items_sorted t) as Hs. pose proof (bt_Iter_over t) as Ho. unfold newMemIterator, mem_first.
  destruct end_ as [e|] eqn:Ee.
  - change (filter (λ y : item, before_end (Some e) y.1 = true) (bt_items t))
      with (filter (λ y : item, slt y.1 e) (bt_items t)).
    rewrite (sorted_split e _ Hs) in Ho.
    pose proof (sorted_filter _ (λ y : item, slt y.1 e) _ Hs) as Hs1.
    pose proof (bi_Seek_spec (bt_Iter t) e _ _ Ho) as Hk.
    do 2 (match type of Hk with ?A → _ => assert A as HF by (apply Forall_forall; intros x [? _]%list_elem_of_filter; done);
           specialize (Hk HF); clear HF end).
    destruct (filter (λ y : item, ¬ slt y.1 e) (bt_items t)) as [|x l2]; destruct (bi_Seek e (bt_Iter t)) as [b it'];
      cbn in Hk; destruct Hk as [-> Hk].
    + rewrite <- Ee. by apply mem_yields_Last.
    + destruct (filter (λ y : item, slt y.1 e) (bt_items t)) as [|y l1 _] using rev_ind.
      * constructor. cbn. by rewrite (bi_Prev_spec_nil _ _ _ Hk).
      * destruct (bi_Prev_spec _ _ _ _ _ Hk) as [H1 H2]. destruct (bi_Prev it') as [b it2]. cbn in H1, H2. subst b.
        rewrite reverse_app, <- Ee. by eapply mem_yields_desc.
  - rewrite (filter_all _ (bt_items t)) by (by apply Forall_true). rewrite <- Ee. by apply mem_yields_Last.
Qed.

(** The iterator over the sorted cache yields its items in the domain. *)
Lemma newMem_yields t asc :
  ∃ l, yields (newMemIterator start end_ t asc) l ∧ sorted asc l ∧
       ∀ k v, (k, v) ∈ l ↔ (k, v) ∈ bt_items t ∧ IsKeyInDomain k start end_ = true.
Proof.
  pose proof (bt_items_sorted t) as Hs. destruct asc.
  - eexists. split; [apply newMem_yields_asc|]. split; [by do 2 apply sorted_filter|].
    intros k v. rewrite !list_elem_of_filter, IsKeyInDomain_split. cbn. rewrite Bool.andb_true_iff. tauto.
  - eexists. split; [apply newMem_yields_desc|]. split; [by apply sorted_filter, (sorted_reverse true), sorted_filter|].
    intros k v. rewrite list_elem_of_filter, elem_of_reverse, list_elem_of_filter, IsKeyInDomain_split. cbn.
    rewrite Bool.andb_true_iff. tauto.
Qed.
End MemFacts.

(** ** The laws of the B-tree can hold: a finite map with zippers as iterators *)

#[global] Instance map_BTreeG : BTreeG (gmap string (option string)) (list item * list item) := {
  bt_New := ∅;
  bt_Set x m := <[x.1 := x.2]> m;
  bt_Copy m := m;
  bt_Iter m := ([], range true None None m);
  bi_Seek k it :=
    let l2 := filter (λ y, ¬ slt y.1 k) (it.1 ++ it.2) in
    (match l2 with [] => false | _ => true end, (filter (λ y, slt y.1 k) (it.1 ++ it.2), l2));
  bi_First it := (match it.1 ++ it.2 with [] => false | _ => true end, ([], it.1 ++ it.2));
  bi_Last it :=
    match reverse (it.1 ++ it.2) with
    | [] => (false, it)
    | x :: r => (true, (reverse r, [x]))
    end;
  bi_Next it :=
    match it.2 with
    | x :: y :: l2 => (true, (it.1 ++ [x], y :: l2))
    | _ => (false, it)
    end;
  bi_Prev it :=
    match reverse it.1 with
    | [] => (false, it)
    | y :: r => (true, (reverse r, y :: it.2))
    end;
  bi_Item it := match it.2 with [] => ("", None) | x :: _ => x end
}.

#[global] Instance map_BTreeLaws : BTreeLaws (gmap string (option string)) (list item * list item).
Proof.
  refine {| bt_items m := range true None None m; bi_over it l := it.1 ++ it.2 = l;
            bi_at it l1 x l2 := it = (l1, x :: l2) |}.
  - intros m. apply range_sorted.
  - reflexivity.
  - intros k v m k' v'. rewrite !elem_of_range. cbn. rewrite lookup_insert_Some, !IsKeyInDomain_split. naive_solver.
  - done.
  - done.
  - intros it k l1 l2 Ho F1 F2. cbn. rewrite Ho, !filter_app.
    rewrite (filter_all (λ y : item, slt y.1 k) l1 F1), (filter_none (λ y : item, slt y.1 k) l2 F2).
    rewrite (filter_all (λ y : item, ¬ slt y.1 k) l2 F2), (filter_none (λ y : item, ¬ slt y.1 k) l1).
    + rewrite app_nil_r. cbn. destruct l2; [|done]. by rewrite app_nil_r.
    + eapply Forall_impl; [exact F1|]. cbn. tauto.
  - intros it l Ho. cbn. rewrite Ho. by destruct l.
  - intros it Ho. cbn. by rewrite Ho.
  - intros it l x Ho. cbn [bi_Last map_BTreeG]. by rewrite Ho, reverse_snoc, reverse_involutive.
  - intros it l1 x l2 ->. cbn. by destruct l2.
  - intros it x l2 ->. done.
  - intros it l1 y x l2 ->. cbn [bi_Prev map_BTreeG fst snd]. by rewrite reverse_snoc, reverse_involutive.
  - intros it l1 x l2 ->. done.
Defined.

(** ** What the merged iterator yields *)

Section Overlay.
Variable asc : bool.

Definition live (x : item) : list item := match x.2 with None => [] | Some _ => [x] end.

(** The items of the parent overridden by those of the cache, deletions
    dropped. *)
Fixpoint overlay (lp : list item) : list item → list item :=
  fix go (lc : list item) : list item :=
    match lc with
    | [] => lp
    | c :: lc' =>
        match lp with
        | [] => live c ++ go lc'
        | p :: lp' =>
            match compare_keys asc p.1 c.1 with
            | Lt => p :: overlay lp' lc
            | Eq => live c ++ overlay lp' lc'
            | Gt => live c ++ go lc'
            end
        end
    end.
Lemma overlay_nil_r lp : overlay lp [] = lp.
Proof. by destruct lp. Qed.
Lemma overlay_nil_l c lc : overlay [] (c :: lc) = live c ++ overlay [] lc.
Proof. done. Qed.
Lemma overlay_cons p lp c lc :
  overlay (p :: lp) (c :: lc) =
    match compare_keys asc p.1 c.1 with
    | Lt => p :: overlay lp (c :: lc)
    | Eq => live c ++ overlay lp lc
    | Gt => live c ++ overlay (p :: lp) lc
    end.
Proof. done. Qed.
Lemma elem_of_live k v c : (k, v) ∈ live c ↔ (k, v) = c ∧ v ≠ None.
Proof. unfold live. destruct c as [kc [vc|]]; cbn; rewrite ?list_elem_of_singleton, ?elem_of_nil; naive_solver. Qed.

(** A key below the head of a sorted list is not in the list. *)
Lemma below_not_in k x l : sorted asc (x :: l) → klt asc k x.1 → k ∉ (x :: l).*1.
Proof.
  intros Hs Hk (y & -> & Hy)%list_elem_of_fmap. apply elem_of_cons in Hy as [->|Hy].
  - by apply klt_irrefl in Hk.
  - apply (klt_irrefl asc y.1). transitivity x.1; [done|]. by eapply sorted_head.
Qed.
Lemma head_not_in x l : sorted asc (x :: l) → x.1 ∉ l.*1.
Proof. intros H%sorted_NoDup. by apply NoDup_cons in H as [? _]. Qed.
Lemma elem_key k v (l : list item) : (k, v) ∈ l → k ∈ l.*1.
Proof. apply (list_elem_of_fmap_2 fst l (k, v)). Qed.

Lemma elem_of_overlay k v lp : ∀ lc,
  sorted asc lp → sorted asc lc →
  (k, v) ∈ overlay lp lc ↔ (v ≠ None ∧ (k, v) ∈ lc) ∨ ((k, v) ∈ lp ∧ k ∉ lc.*1).
Proof.
  induction lp as [|p lp IHp]; intros lc; induction lc as [|c lc IHc]; intros Hp Hc;
    rewrite ?overlay_nil_r; [set_solver|..|set_solver|].
  - pose proof Hc as [Hc' _]%sorted_cons. rewrite overlay_nil_l, elem_of_app, elem_of_live, IHc by done. set_solver.
  - pose proof Hc as [Hc' _]%sorted_cons. pose proof Hp as [Hp' _]%sorted_cons.
    rewrite overlay_cons. cbn [fmap list_fmap]. destruct (compare_keys_spec asc p.1 c.1) as [Heq|Hlt|Hgt].
    + assert ((k, v) = p → k = c.1) by (intros <-; done).
      assert ((k, v) ∈ lp → k ≠ c.1).
      { intros Hk%elem_key ->. rewrite <- Heq in Hk. by apply head_not_in in Hp. }
      rewrite elem_of_app, elem_of_live, IHp, !elem_of_cons by done. tauto.
    + assert ((k, v) = p → k ≠ c.1 ∧ k ∉ lc.*1).
      { intros <-. pose proof (below_not_in _ _ _ Hc Hlt) as Hn. cbn in Hn. rewrite elem_of_cons in Hn. tauto. }
      rewrite elem_of_cons, IHp, !elem_of_cons by done. cbn [fmap list_fmap]. rewrite elem_of_cons. tauto.
    + assert ((k, v) ∈ p :: lp → k ≠ c.1).
      { intros Hk%elem_key ->. by apply (below_not_in _ _ _ Hp Hgt). }
      rewrite elem_of_app, elem_of_live, IHc, !elem_of_cons by done. rewrite elem_of_cons in H. tauto.
Qed.

Lemma overlay_below (x : item) lp lc :
  sorted asc lp → sorted asc lc → Forall (λ y, klt asc x.1 y.1) lp → Forall (λ y, klt asc x.1 y.1) lc →
  Forall (λ y : item, klt asc x.1 y.1) (overlay lp lc).
Proof.
  rewrite !Forall_forall. intros Hp Hc Fp Fc [k v] [[_ H]|[H _]]%elem_of_overlay; [by apply (Fc (k, v))| |done|done].
  by apply (Fp (k, v)).
Qed.
Lemma live_app_sorted c l : sorted asc l → Forall (λ y, klt asc c.1 y.1) l → sorted asc (live c ++ l).
Proof. intros Hs Hf. unfold live. destruct c.2; [|done]. by apply sorted_cons. Qed.
Lemma Forall_klt_trans x y (l : list item) :
  klt asc x y → Forall (λ z, klt asc y z.1) l → Forall (λ z : item, klt asc x z.1) l.
Proof. intros Hxy Hf. eapply Forall_impl; [exact Hf|]. cbn. intros z Hz. by transitivity y. Qed.

Lemma overlay_sorted lp : ∀ lc, sorted asc lp → sorted asc lc → sorted asc (overlay lp lc).
Proof.
  induction lp as [|p lp IHp]; intros lc; induction lc as [|c lc IHc]; intros Hp Hc; rewrite ?overlay_nil_r; [done|..|done|].
  - pose proof Hc as [Hc' Fc]%sorted_cons. rewrite overlay_nil_l. apply live_app_sorted; [by apply IHc|].
    apply overlay_below; done.
  - pose proof Hc as [Hc' Fc]%sorted_cons. pose proof Hp as [Hp' Fp]%sorted_cons. rewrite overlay_cons.
    destruct (compare_keys_spec asc p.1 c.1) as [Heq|Hlt|Hgt].
    + apply live_app_sorted; [by apply IHp|]. apply overlay_below; [done..| |done]. by rewrite <- Heq.
    + apply sorted_cons. split; [by apply IHp|]. apply overlay_below; [done..|]. constructor; [done|].
      by eapply Forall_klt_trans.
    + apply live_app_sorted; [by apply IHc|]. apply overlay_below; [done..| |done]. constructor; [done|].
      by eapply Forall_klt_trans.
Qed.
End Overlay.

Section MergeFacts.
Context {P C : Type} {HP : Iterator P} {HC : Iterator C}.

Lemma yields_invalid {I} `{Iterator I} (it : I) l : yields it l → it_Valid it = false → l = [].
Proof. destruct 1; congruence. Qed.
Lemma yields_valid {I} `{Iterator I} (it : I) l : yields it l → it_Valid it = negb (bool_decide (l = [])).
Proof. by destruct 1. Qed.
Lemma yields_cons_inv {I} `{Iterator I} (it : I) k v l :
  yields it ((k, v) :: l) →
  it_Valid it = true ∧ it_Key it = Ok k ∧ it_Value it = Ok v ∧ ∃ it', it_Next it = Ok it' ∧ yields it' l.
Proof. inversion 1; subst. eauto 10. Qed.

Variable asc : bool.

(** The items left after [skipCacheDeletes]. *)
Fixpoint drop_deletes (until : option string) (lc : list item) : list item :=
  match lc with
  | (k, None) :: lc' =>
      if match until with
         | None => true
         | Some u => match compare_keys asc k u with Lt => true | _ => false end
         end
      then drop_deletes until lc' else lc
  | _ => lc
  end.
Lemma skipCacheDeletes_yields until fuel : ∀ lc (cache : C),
  yields cache lc → (length lc < fuel)%nat →
  ∃ cache', skipCacheDeletes fuel asc until cache = Ok cache' ∧ yields cache' (drop_deletes until lc).
Proof.
  induction fuel as [|fuel IH]; intros lc cache Hy Hl; [lia|]. cbn [skipCacheDeletes].
  destruct lc as [|[k v] lc].
  - rewrite (yields_valid _ _ Hy). cbn. eauto.
  - destruct (yields_cons_inv _ _ _ _ Hy) as (-> & Hk & -> & it' & Hn & Hy').
    cbn [mbind outcome_bind]. destruct v as [v|]; [by eexists|]. rewrite Hk. cbn [mbind outcome_bind drop_deletes].
    case_match; [|by eexists]. rewrite Hn. cbn [mbind outcome_bind]. apply IH; [done|]. cbn in Hl. lia.
Qed.
Lemma drop_deletes_length until lc : (length (drop_deletes until lc) <= length lc)%nat.
Proof. induction lc as [|[k [v|]] lc IH]; cbn; [done..|]. case_match; cbn; lia. Qed.

(** Dropping deletions does not change the overlay. *)
Lemma overlay_drop_nil lc : overlay asc [] (drop_deletes None lc) = overlay asc [] lc.
Proof. induction lc as [|[k [v|]] lc IH]; [done..|]. cbn [drop_deletes]. by rewrite IH, overlay_nil_l. Qed.
Lemma overlay_drop_until p lp lc :
  overlay asc (p :: lp) (drop_deletes (Some p.1) lc) = overlay asc (p :: lp) lc.
Proof.
  induction lc as [|[k [v|]] lc IH]; [done..|]. cbn [drop_deletes].
  destruct (compare_keys_spec asc k p.1) as [Heq|H|H]; [done| |done].
  rewrite IH, overlay_cons. cbn [fst]. destruct (compare_keys_spec asc p.1 k) as [Heq|H'|H'].
  - rewrite Heq in H. by apply klt_irrefl in H.
  - exfalso. apply (klt_irrefl asc k). by transitivity p.1.
  - done.
Qed.

(** A settled pair: the head of the overlay is the item the iterator shows. *)
Definition settled (lp lc : list item) : Prop :=
  match lp, lc with
  | [], (_, None) :: _ => False
  | p :: _, (k, None) :: _ => compare_keys asc p.1 k = Lt
  | _, _ => True
  end.

Lemma settled_nil lp lc : settled lp lc → overlay asc lp lc = [] → lp = [] ∧ lc = [].
Proof.
  destruct lp as [|p lp], lc as [|[k [v|]] lc]; cbn [settled]; rewrite ?overlay_nil_r, ?overlay_nil_l, ?overlay_cons; try done.
  - by destruct (compare_keys asc p.1 _).
  - intros E. cbn [fst]. by rewrite E.
Qed.
Lemma drop_deletes_settled lc : settled [] (drop_deletes None lc).
Proof. by induction lc as [|[k [v|]] lc IH]. Qed.

Lemma settled_true lp lc : settled lp lc → lp ≠ [] ∨ lc ≠ [] → true = negb (bool_decide (overlay asc lp lc = [])).
Proof. intros Hs Hne. rewrite bool_decide_false; [done|]. intros [-> ->]%settled_nil; naive_solver. Qed.

Lemma skipUntil_yields fuel : ∀ lp lc (parent : P) (cache : C),
  yields parent lp → yields cache lc → (length lp + length lc < fuel)%nat →
  ∃ parent' cache' lp' lc',
    skipUntilExistsOrInvalid fuel asc parent cache = Ok (parent', cache', negb (bool_decide (overlay asc lp lc = []))) ∧
    yields parent' lp' ∧ yields cache' lc' ∧ settled lp' lc' ∧ (length lp' + length lc' <= length lp + length lc)%nat ∧
    overlay asc lp' lc' = overlay asc lp lc.
Proof.
  induction fuel as [|fuel IH]; intros lp lc parent cache Hp Hc Hl; [lia|]. cbn [skipUntilExistsOrInvalid].
  destruct lp as [|[kp vp] lp].
  { rewrite (yields_valid _ _ Hp). cbn [negb bool_decide decide_rel].
    destruct (skipCacheDeletes_yields None (S fuel) lc cache Hc) as (cache' & -> & Hc'); [cbn in Hl; lia|].
    exists parent, cache', [], (drop_deletes None lc). rewrite <- overlay_drop_nil.
    pose proof (drop_deletes_settled lc) as Hst. split; [|split; [done|split; [done|split; [done|split; [|done]]]]].
    - cbn [mbind outcome_bind]. rewrite (yields_valid _ _ Hc'). do 4 f_equal. apply bool_decide_ext.
      split; [by intros ->|by intros [_ ?]%settled_nil].
    - pose proof (drop_deletes_length None lc). cbn. lia. }
  destruct (yields_cons_inv _ _ _ _ Hp) as (-> & Kp & _ & p' & Np & Hp'). cbn [negb].
  destruct lc as [|[kc vc] lc].
  { rewrite (yields_valid _ _ Hc). exists parent, cache, ((kp, vp) :: lp), []. by rewrite overlay_nil_r. }
  destruct (yields_cons_inv _ _ _ _ Hc) as (-> & Kc & Vc & c' & Nc & Hc'). cbn [negb]. rewrite Kp, Kc, Vc.
  assert (settled ((kp, vp) :: lp) ((kc, vc) :: lc) →
    ∃ parent' cache' lp' lc', Ok (parent, cache, true) =
      Ok (parent', cache', negb (bool_decide (overlay asc ((kp, vp) :: lp) ((kc, vc) :: lc) = []))) ∧
    yields parent' lp' ∧ yields cache' lc' ∧ settled lp' lc' ∧
    (length lp' + length lc' <= length ((kp, vp) :: lp) + length ((kc, vc) :: lc))%nat ∧
    overlay asc lp' lc' = overlay asc ((kp, vp) :: lp) ((kc, vc) :: lc)) as Hstop.
  { intros Hst. exists parent, cache, ((kp, vp) :: lp), ((kc, vc) :: lc). rewrite <- settled_true by naive_solver. done. }
  cbn [mbind outcome_bind]. rewrite overlay_cons in *. cbn [fst settled length] in *.
  destruct (compare_keys asc kp kc) eqn:Ec; cbn [mbind outcome_bind].
  - destruct vc as [vc|]; [by apply Hstop|]. rewrite Np, Nc. cbn [mbind outcome_bind live snd app].
    destruct (IH lp lc p' c' Hp' Hc') as (pr & ca & lp' & lc' & -> & ? & ? & ? & ? & ?); [lia|].
    exists pr, ca, lp', lc'. do 4 (split; [done|]). split; [lia|done].
  - by apply Hstop; destruct vc.
  - destruct vc as [vc|]; [by apply Hstop|].
    destruct (skipCacheDeletes_yields (Some kp) (S fuel) _ cache Hc) as (cache' & Hsk & Hd); [cbn; lia|].
    cbn [drop_deletes] in Hd. rewrite compare_keys_antisym, Ec in Hd. cbn [CompOpp] in Hd.
    rewrite Hsk. cbn [mbind outcome_bind live snd app]. pose proof (drop_deletes_length (Some kp) lc) as Hdl.
    destruct (IH ((kp, vp) :: lp) _ parent cache' Hp Hd) as (pr & ca & lp' & lc' & -> & ? & ? & ? & ? & E); [cbn; lia|].
    pose proof (overlay_drop_until (kp, vp) lp lc) as Hov. cbn [fst] in Hov. rewrite Hov in *.
    exists pr, ca, lp', lc'. do 4 (split; [done|]). split; [cbn in *; lia|done].
Qed.

Definition merged (fuel : nat) (it : cacheMergeIterator P C) (lp lc : list item) : Prop :=
  yields (cm_parent it) lp ∧ yields (cm_cache it) lc ∧ settled lp lc ∧ cm_ascending it = asc ∧
  cm_valid it = negb (bool_decide (overlay asc lp lc = [])) ∧ cm_fuel it = fuel.

Lemma merge_settle_merged fuel (parent : P) (cache : C) lp lc :
  yields parent lp → yields cache lc → (length lp + length lc < fuel)%nat →
  ∃ it lp' lc', merge_settle fuel asc parent cache = Ok it ∧ merged fuel it lp' lc' ∧
    (length lp' + length lc' <= length lp + length lc)%nat ∧ overlay asc lp' lc' = overlay asc lp lc.
Proof.
  intros Hp Hc Hl. destruct (skipUntil_yields fuel lp lc parent cache Hp Hc Hl) as (p & c & lp' & lc' & E & Hp' & Hc' & Hs & Hle & Ho).
  unfold merge_settle. rewrite E. eexists _, lp', lc'. split; [reflexivity|]. split; [|done].
  unfold merged. cbn. by rewrite Ho.
Qed.

(** The head of a settled pair is what [Key] and [Value] return, and [Next]
    drops it. *)
Lemma merged_step fuel it lp lc x l :
  merged fuel it lp lc → overlay asc lp lc = x :: l →
  merge_Key it = Ok x.1 ∧ merge_Value it = Ok x.2 ∧
  ∃ p c lp' lc', merge_Next it = merge_settle fuel asc p c ∧ yields p lp' ∧ yields c lc' ∧
    (length lp' + length lc' < length lp + length lc)%nat ∧ overlay asc lp' lc' = l.
Proof.
  intros (Hp & Hc & Hs & Ha & Hv & Hf) Ho. rewrite Ho, bool_decide_false in Hv by done. cbn in Hv.
  unfold merge_Key, merge_Value, merge_Next, merge_assertValid. rewrite Hv, Ha, Hf. cbn [negb guard_panic mbind outcome_bind].
  destruct lp as [|[kp vp] lp].
  - rewrite (yields_valid _ _ Hp). cbn [negb bool_decide decide_rel]. destruct lc as [|[kc [vc|]] lc]; [done| |done].
    rewrite overlay_nil_l in Ho. injection Ho as <- <-.
    destruct (yields_cons_inv _ _ _ _ Hc) as (_ & -> & -> & c' & -> & Hc'). do 2 (split; [done|]).
    exists (cm_parent it), c', [], lc. cbn. split; [done|]. split; [done|]. split; [done|]. split; [lia|done].
  - destruct (yields_cons_inv _ _ _ _ Hp) as (-> & -> & -> & p' & -> & Hp'). cbn [negb].
    destruct lc as [|[kc vc] lc].
    + rewrite overlay_nil_r in Ho. injection Ho as <- <-. rewrite (yields_valid _ _ Hc). do 2 (split; [done|]).
      exists p', (cm_cache it), lp, []. cbn. rewrite overlay_nil_r. do 3 (split; [done|]). split; [lia|done].
    + destruct (yields_cons_inv _ _ _ _ Hc) as (-> & -> & -> & c' & -> & Hc'). cbn [negb mbind outcome_bind].
      rewrite overlay_cons in Ho. cbn [fst] in Ho. destruct (compare_keys_spec asc kp kc) as [->|Hlt|Hgt];
        cbn [mbind outcome_bind].
      * destruct vc as [vc|]; [|cbn in Hs; destruct (compare_keys_spec asc kc kc) as [| H |]; [done|by apply klt_irrefl in H|done]].
        injection Ho as <- <-. do 2 (split; [done|]). exists p', c', lp, lc. do 3 (split; [done|]). cbn. split; [lia|done].
      * injection Ho as <- <-. do 2 (split; [done|]). exists p', (cm_cache it), lp, ((kc, vc) :: lc).
        do 3 (split; [done|]). cbn. split; [lia|done].
      * destruct vc as [vc|].
        -- injection Ho as <- <-. do 2 (split; [done|]). exists (cm_parent it), c', ((kp, vp) :: lp), lc.
           do 3 (split; [done|]). cbn. split; [lia|done].
        -- exfalso. cbn in Hs. destruct (compare_keys_spec asc kp kc) as [|H|]; [done| |done].
           apply (klt_irrefl asc kp). by transitivity kc.
Qed.

Lemma merged_yields fuel n : ∀ it lp lc,
  merged fuel it lp lc → (length lp + length lc <= n)%nat → (n < fuel)%nat → yields it (overlay asc lp lc).
Proof.
  induction n as [n IH] using lt_wf_ind. intros it lp lc Hm Hn Hf.
  pose proof Hm as (_ & _ & _ & _ & Hv & _). destruct (overlay asc lp lc) as [|x l] eqn:Ho.
  - constructor. cbn. by rewrite Hv.
  - destruct (merged_step _ _ _ _ _ _ Hm Ho) as (Hk & Hvl & p & c & lp' & lc' & Hn' & Hp & Hc & Hlt & <-).
    destruct (merge_settle_merged fuel p c lp' lc' Hp Hc) as (it' & lp2 & lc2 & Hst & Hm2 & Hle & Ho2); [lia|].
    destruct x as [k v]. eapply yields_cons; [cbn; by rewrite Hv|exact Hk|exact Hvl|cbn; by rewrite Hn', Hst|].
    rewrite <- Ho2. eapply (IH (length lp2 + length lc2)%nat); [lia|done|done|lia].
Qed.

Lemma NewCacheMergeIterator_yields fuel (parent : P) (cache : C) lp lc :
  yields parent lp → yields cache lc → (length lp + length lc < fuel)%nat →
  ∃ it, NewCacheMergeIterator fuel parent cache asc = Ok it ∧ yields it (overlay asc lp lc).
Proof.
  intros Hp Hc Hl. destruct (merge_settle_merged fuel parent cache lp lc Hp Hc Hl) as (it & lp' & lc' & E & Hm & Hle & Ho).
  exists it. split; [done|]. rewrite <- Ho. eapply merged_yields; [done|reflexivity|lia].
Qed.
End MergeFacts.

(** C39. The merge iterator is the sorted overlay of its two sources: given
    iterators over sorted items, it can be created and walked to the end, with
    fuel for the items of both; it visits, in order and once each, the live
    items of the cache and the items of the parent whose key the cache does not
    hold, and no deleted key. *)
Theorem cacheMergeIterator_overlay {P C} {HP : Iterator P} {HC : Iterator C} asc fuel (parent : P) (cache : C) lp lc :
  yields parent lp → yields cache lc → sorted asc lp → sorted asc lc → (length lp + length lc < fuel)%nat →
  ∃ it l, NewCacheMergeIterator fuel parent cache asc = Ok it ∧ yields it l ∧ sorted asc l ∧
    ∀ k v, (k, v) ∈ l ↔ (v ≠ None ∧ (k, v) ∈ lc) ∨ ((k, v) ∈ lp ∧ k ∉ lc.*1).
Proof.
  intros Hp Hc Sp Sc Hl. destruct (NewCacheMergeIterator_yields asc fuel parent cache lp lc Hp Hc Hl) as (it & Hit & Hy).
  exists it, (overlay asc lp lc). split; [done|]. split; [done|]. split; [by apply overlay_sorted|].
  intros k v. by apply elem_of_overlay.
Qed.

Definition parent_items : list item := [("a", Some "1"); ("b", Some "2"); ("d", Some "4")].
Definition cache_items : list item := [("a", None); ("b", Some "20"); ("c", Some "30")].
Lemma cacheMergeIterator_overlay_witness :
  ∃ it l, NewCacheMergeIterator 7 parent_items cache_items true = Ok it ∧ yields it l ∧ sorted true l ∧
    ∀ k v, (k, v) ∈ l ↔ (v ≠ None ∧ (k, v) ∈ cache_items) ∨ ((k, v) ∈ parent_items ∧ k ∉ cache_items.*1).
Proof.
  apply (cacheMergeIterator_overlay true 7 parent_items cache_items parent_items cache_items).
  - apply list_yields.
  - apply list_yields.
  - repeat constructor.
  - repeat constructor.
  - cbn. lia.
Defined.
