(* ===== verification/CacheKV.v ===== *)
(** * The cache store: store/cachekv/store.go

    [Store] buffers writes over a parent store.  Dirty entries wait in
    [unsortedCache] and move to the sorted cache when an iterator needs them;
    [Write] flushes them to the parent.  The mutex is not modelled: an operation
    is a step of its own. *)
From S2P Require Import Prelude KVStore CacheIter.

Record cValue := mkCValue { cv_value : option string; cv_dirty : bool }.
#[global] Instance cValue_eq_dec : EqDecision cValue.
Proof. solve_decision. Defined.

(** ** Binary search over the sorted keys *)

Definition str_at (strL : list string) (i : Z) : outcome string :=
  match (if i <? 0 then None else strL !! Z.to_nat i) with
  | Some s => Ok s
  | None => Panic "index out of range"
  end.

(** [for i := n - 1; i >= 0; i-- { if test(strL[i]) { return i + 1 } } return 0] *)
Fixpoint scan_back (test : string → bool) (strL : list string) (n : nat) : outcome Z :=
  match n with
  | O => Ok 0
  | S n' =>
      s ← str_at strL (Z.of_nat n');
      if test s then Ok (Z.of_nat n' + 1) else scan_back test strL n'
  end.

Fixpoint findStartIndex_loop (fuel : nat) (strL : list string) (startQ : string) (left right : Z) : outcome Z :=
  match fuel with
  | O => Panic "out of fuel"
  | S fuel =>
      if left <=? right then
        let mid := Z.shiftr (left + right) 1 in
        midStr ← str_at strL mid;
        if str_eq midStr startQ then scan_back (λ s, negb (str_eq s midStr)) strL (Z.to_nat mid)
        else if str_lt midStr startQ then findStartIndex_loop fuel strL startQ (mid + 1) right
        else findStartIndex_loop fuel strL startQ left (mid - 1)
      else if (0 <=? left) && (left <? Z.of_nat (length strL)) then
        s ← str_at strL left;
        Ok (if negb (str_lt s startQ) then left else -1)
      else Ok (-1)
  end.
Definition findStartIndex (strL : list string) (startQ : string) : outcome Z :=
  if (length strL =? 0)%nat then Ok (-1)
  else findStartIndex_loop (S (length strL)) strL startQ 0 (Z.of_nat (length strL) - 1).

(** [for i := n - 1; i >= 0; i-- { if strL[i] < endQ { return i } } return -1] *)
Fixpoint scan_less (strL : list string) (endQ : string) (n : nat) : outcome Z :=
  match n with
  | O => Ok (-1)
  | S n' =>
      s ← str_at strL (Z.of_nat n');
      if str_lt s endQ then Ok (Z.of_nat n') else scan_less strL endQ n'
  end.
Fixpoint findEndIndex_loop (fuel : nat) (strL : list string) (endQ : string) (left right : Z) : outcome Z :=
  match fuel with
  | O => Panic "out of fuel"
  | S fuel =>
      if left <=? right then
        let mid := Z.shiftr (left + right) 1 in
        midStr ← str_at strL mid;
        if str_eq midStr endQ then scan_back (λ s, str_lt s midStr) strL (Z.to_nat mid)
        else if str_lt midStr endQ then findEndIndex_loop fuel strL endQ (mid + 1) right
        else findEndIndex_loop fuel strL endQ left (mid - 1)
      else scan_less strL endQ (Z.to_nat (right + 1))
  end.
Definition findEndIndex (strL : list string) (endQ : string) : outcome Z :=
  if (length strL =? 0)%nat then Ok (-1)
  else findEndIndex_loop (S (length strL)) strL endQ 0 (Z.of_nat (length strL) - 1).

Inductive sortState := stateUnsorted | stateAlreadySorted.
Definition minSortSize : Z := 1024.

(** The part of the sorted keys to move: the domain, extended to at least
    [minSortSize] keys. *)
Definition dirty_window (strL : list string) (start end_ : option string) : outcome (Z * Z) :=
  let len := Z.of_nat (length strL) in
  startIndex ← findStartIndex strL (default "" start);
  let startIndex := if startIndex <? 0 then 0 else startIndex in
  endIndex ← match end_ with None => Ok (len - 1) | Some e => findEndIndex strL e end;
  let endIndex := if endIndex <? 0 then len - 1 else endIndex in
  Ok (if endIndex - startIndex <? minSortSize then
        let endIndex := Z.min (startIndex + minSortSize) (len - 1) in
        if endIndex - startIndex <? minSortSize then (Z.max (endIndex - minSortSize) 0, endIndex)
        else (startIndex, endIndex)
      else (startIndex, endIndex)).

Section CacheKV.
Context {S I T IT : Type} {HKV : KVStore S I} {HI : Iterator I} {HB : BTreeG T IT}.

Record Store := mkStore {
  cache : gmap string cValue;
  unsortedCache : gset string;
  sortedCache : T;
  parent : S
}.

Definition NewStore (parent : S) : Store := mkStore ∅ ∅ bt_New parent.

Definition on_parent {A} (m : GoM S A) : GoM Store A :=
  λ s, let '(r, p) := m (parent s) in (r, mkStore (cache s) (unsortedCache s) (sortedCache s) p).

Definition setCacheValue (key : string) (value : option string) (dirty : bool) : GoM Store unit :=
  modifyM (λ s, mkStore (<[key := mkCValue value dirty]> (cache s))
                  (if dirty then {[key]} ∪ unsortedCache s else unsortedCache s) (sortedCache s) (parent s)).

Definition Store_Get (key : string) : GoM Store (option string) :=
  _ ← liftM (AssertValidKey key);
  s ← getM;
  match cache s !! key with
  | None => value ← on_parent (kv_Get key); _ ← setCacheValue key value false; mret value
  | Some cacheValue => mret (cv_value cacheValue)
  end.
Definition Store_Set (key : string) (value : option string) : GoM Store unit :=
  _ ← liftM (AssertValidKey key);
  _ ← liftM (AssertValidValue value);
  setCacheValue key value true.
Definition Store_Has (key : string) : GoM Store bool :=
  value ← Store_Get key;
  mret (bool_decide (is_Some value)).
Definition Store_Delete (key : string) : GoM Store unit :=
  _ ← liftM (AssertValidKey key);
  setCacheValue key None true.

(** Reallocating the maps and clearing them are the same. *)
Definition resetCaches : GoM Store unit := modifyM (λ s, mkStore ∅ ∅ bt_New (parent s)).

Definition entry_le (x y : string * cValue) : Prop := String.le x.1 y.1.
#[local] Instance entry_le_dec x y : Decision (entry_le x y).
Proof. unfold entry_le. apply _. Defined.

Definition write_entry (obj : string * cValue) : GoM Store unit :=
  match cv_value obj.2 with
  | Some v => on_parent (kv_Set obj.1 (Some v))
  | None => on_parent (kv_Delete obj.1)
  end.
Definition Write : GoM Store unit :=
  s ← getM;
  if (size (cache s) =? 0)%nat && (size (unsortedCache s) =? 0)%nat then
    modifyM (λ s, mkStore (cache s) (unsortedCache s) bt_New (parent s))
  else
    let entries := filter (λ x, cv_dirty x.2 = true) (map_to_list (cache s)) in
    _ ← resetCaches;
    forM_ write_entry (merge_sort entry_le entries).

Definition clearUnsortedCacheSubset (unsorted : list item) (state : sortState) : GoM Store unit :=
  modifyM (λ s,
    let unsortedCache' :=
      if (length unsorted =? size (unsortedCache s))%nat then ∅
      else foldl (λ u kv, u ∖ {[kv.1]}) (unsortedCache s) unsorted in
    let sorted_items := match state with stateUnsorted => merge_sort key_le unsorted | stateAlreadySorted => unsorted end in
    mkStore (cache s) unsortedCache' (foldl (λ t kv, bt_Set kv t) (sortedCache s) sorted_items) (parent s)).

(** [&kv.Pair{Key: []byte(key), Value: store.cache[key].value}] *)
Definition dirty_pair (c : gmap string cValue) (key : string) : outcome item :=
  match c !! key with
  | Some cacheValue => Ok (key, cv_value cacheValue)
  | None => Panic "nil pointer dereference"
  end.

Definition dirtyItems (start end_ : option string) : GoM Store unit :=
  if bool_decide (is_Some end_) && str_lt (default "" end_) (default "" start) then mret tt
  else
    s ← getM;
    if Z.of_nat (size (unsortedCache s)) <? minSortSize then
      unsorted ← liftM (traverse (dirty_pair (cache s))
                          (filter (λ key, IsKeyInDomain key start end_ = true) (elements (unsortedCache s))));
      clearUnsortedCacheSubset unsorted stateUnsorted
    else
      let strL := merge_sort String.le (elements (unsortedCache s)) in
      '(startIndex, endIndex) ← liftM (dirty_window strL start end_);
      _ ← liftM (guard_panic (1 + endIndex - startIndex <? 0) "makeslice: cap out of range");
      kvL ← liftM (traverse (λ i, key ← str_at strL i; dirty_pair (cache s) key)
                     (seqZ startIndex (1 + endIndex - startIndex)));
      clearUnsortedCacheSubset kvL stateAlreadySorted.

Definition Store_iterator (fuel : nat) (start end_ : option string) (ascending : bool)
    : GoM Store (cacheMergeIterator I (memIterator IT)) :=
  _ ← dirtyItems start end_;
  s ← getM;
  let isoSortedCache := bt_Copy (sortedCache s) in
  parent ← on_parent (if ascending then kv_Iterator fuel start end_ else kv_ReverseIterator fuel start end_);
  cache ← liftM (must (BTree_iterator start end_ ascending isoSortedCache));
  liftM (NewCacheMergeIterator fuel parent cache ascending).

#[global] Instance Store_KVStore : KVStore Store (cacheMergeIterator I (memIterator IT)) := {
  kv_Get := Store_Get;
  kv_Has := Store_Has;
  kv_Set := Store_Set;
  kv_Delete := Store_Delete;
  kv_Iterator fuel start end_ := Store_iterator fuel start end_ true;
  kv_ReverseIterator fuel start end_ := Store_iterator fuel start end_ false
}.
End CacheKV.
Arguments Store : clear implicits.
(** [CacheWrap] stacks another cache on this one. *)
Definition CacheWrap {S T IT T' IT'} {_ : BTreeG T IT} {_ : BTreeG T' IT'} (store : Store S T) : Store (Store S T) T' :=
  NewStore store.

(** ** The binary searches *)

Section Search.
Variable strL : list string.
Hypothesis Hsorted : StronglySorted String.le strL.

Lemma strL_le i j s t : (i <= j)%nat → strL !! i = Some s → strL !! j = Some t → String.le s t.
Proof.
  intros Hij Hi Hj. revert i j Hij Hi Hj. induction Hsorted as [|x l Hs IH Hf]; intros i j Hij Hi Hj; [done|].
  destruct i as [|i], j as [|j]; cbn in *; simplify_eq; [done| |lia|by eapply (IH Hs); [|done..]; lia].
  rewrite Forall_forall in Hf. apply Hf. by eapply list_elem_of_lookup_2.
Qed.
Lemma str_at_lookup i s : 0 <= i → strL !! Z.to_nat i = Some s → str_at strL i = Ok s.
Proof. intros Hi H. unfold str_at. destruct (Z.ltb_spec i 0); [lia|]. by rewrite H. Qed.
Lemma str_at_lt i : 0 <= i < Z.of_nat (length strL) →
  ∃ s, str_at strL i = Ok s ∧ strL !! Z.to_nat i = Some s.
Proof.
  intros Hi. destruct (lookup_lt_is_Some_2 strL (Z.to_nat i)) as [s Hs]; [lia|]. exists s.
  split; [|done]. apply str_at_lookup; [lia|done].
Qed.

Lemma scan_back_spec test n : (n <= length strL)%nat →
  ∃ r : nat, scan_back test strL n = Ok (Z.of_nat r) ∧ (r <= n)%nat ∧
    (∀ i s, (r <= i < n)%nat → strL !! i = Some s → test s = false) ∧
    (∀ i s, r = Datatypes.S i → strL !! i = Some s → test s = true).
Proof.
  induction n as [|n IH]; intros Hn; cbn [scan_back].
  - exists 0%nat. split; [done|]. split; [lia|]. split; [intros; lia|intros; lia].
  - destruct (str_at_lt (Z.of_nat n)) as (s & -> & Hs); [lia|]. rewrite Nat2Z.id in Hs. cbn [mbind outcome_bind].
    destruct (test s) eqn:Ht.
    + exists (Datatypes.S n). split; [f_equal; lia|]. split; [lia|]. split; [intros; lia|].
      intros i s' [= <-] Hs'. congruence.
    + destruct IH as (r & -> & Hr & H1 & H2); [lia|]. exists r. split; [done|]. split; [lia|]. split; [|done].
      intros i s' Hi Hs'. destruct (decide (i = n)) as [->|]; [congruence|]. eapply H1; [|done]. lia.
Qed.

Lemma mid_bounds left right : left <= right → left <= Z.shiftr (left + right) 1 <= right.
Proof. intros H. rewrite Z.shiftr_div_pow2 by lia. change (2 ^ 1) with 2. Z.to_euclidean_division_equations. lia. Qed.

(** The index of the first key that is not below [q]. *)
Definition start_index (q : string) (r : Z) : Prop :=
  (r = -1 ∧ ∀ i s, strL !! i = Some s → slt s q) ∨
  (0 <= r < Z.of_nat (length strL) ∧ ∀ i s, strL !! i = Some s → (slt s q ↔ Z.of_nat i < r)).
Definition below_left (q : string) (left : Z) : Prop := ∀ i s, Z.of_nat i < left → strL !! i = Some s → slt s q.
Definition above_right (q : string) (right : Z) : Prop := ∀ i s, right < Z.of_nat i → strL !! i = Some s → slt q s.

Lemma slt_le_trans s t u : slt s t → String.le t u → slt s u.
Proof. intros [H1 H2]%slt_le H. apply slt_le. split; [by etransitivity|]. intros ->. apply H2. by apply (anti_symm String.le). Qed.
Lemma le_slt_trans s t u : String.le s t → slt t u → slt s u.
Proof. intros H [H1 H2]%slt_le. apply slt_le. split; [by etransitivity|]. intros ->. apply H2. by apply (anti_symm String.le). Qed.
Lemma slt_not_le s t : slt s t → ¬ String.le t s.
Proof. intros H1 H2. apply (slt_irrefl s). by eapply slt_le_trans. Qed.
Lemma not_slt_le s t : ¬ slt s t → String.le t s.
Proof. intros H. apply str_lt_false. unfold slt in H. by destruct (str_lt s t). Qed.

Lemma below_left_step q mid s : 0 <= mid → strL !! Z.to_nat mid = Some s → slt s q → below_left q (mid + 1).
Proof. intros Hm Hs Hq i t Hi Ht. eapply le_slt_trans; [|exact Hq]. eapply strL_le; [|exact Ht|exact Hs]. lia. Qed.
Lemma above_right_step q mid s : 0 <= mid → strL !! Z.to_nat mid = Some s → slt q s → above_right q (mid - 1).
Proof. intros Hm Hs Hq i t Hi Ht. eapply slt_le_trans; [exact Hq|]. eapply strL_le; [|exact Hs|exact Ht]. lia. Qed.

Lemma findStartIndex_loop_spec q fuel : ∀ left right,
  0 <= left → right < Z.of_nat (length strL) → left <= right + 1 → below_left q left → above_right q right →
  right - left + 1 < Z.of_nat fuel →
  ∃ r, findStartIndex_loop fuel strL q left right = Ok r ∧ start_index q r.
Proof.
  induction fuel as [|fuel IH]; intros left right Hl Hr Hlr Hb Ha Hf; [lia|]. cbn [findStartIndex_loop].
  destruct (Z.leb_spec left right) as [Hle|Hgt].
  - set (mid := Z.shiftr (left + right) 1).
    pose proof (mid_bounds left right Hle) as Hmid. fold mid in Hmid.
    destruct (str_at_lt mid) as (s & -> & Hs); [lia|]. cbn [mbind outcome_bind].
    rewrite str_eq_spec. case_bool_decide as Heq; [subst s|].
    + destruct (scan_back_spec (λ s, negb (str_eq s q)) (Z.to_nat mid)) as (r & -> & Hrm & H1 & H2); [lia|].
      exists (Z.of_nat r). split; [done|]. right. split; [lia|]. intros i t Ht. split.
      * intros Hlt. destruct (decide (i < r)%nat); [lia|]. exfalso. destruct (decide (i < Z.to_nat mid)%nat).
        -- specialize (H1 i t ltac:(lia) Ht). apply Bool.negb_false_iff in H1. rewrite str_eq_spec in H1.
           apply bool_decide_eq_true in H1 as ->. by apply slt_irrefl in Hlt.
        -- apply slt_not_le in Hlt. apply Hlt. eapply strL_le; [|exact Hs|exact Ht]. lia.
      * intros Hi. destruct r as [|r]; [lia|]. destruct (lookup_lt_is_Some_2 strL r) as [u Hu]; [lia|].
        specialize (H2 r u eq_refl Hu). rewrite str_eq_spec in H2.
        apply Bool.negb_true_iff, bool_decide_eq_false in H2. eapply (le_slt_trans _ u).
        -- eapply strL_le; [|exact Ht|exact Hu]. lia.
        -- apply slt_le. split; [|done]. eapply strL_le; [|exact Hu|exact Hs]. lia.
    + destruct (str_lt s q) eqn:Hlt.
      * apply IH; [lia..| |done|lia]. by eapply below_left_step; [lia|..].
      * apply IH; [lia..|done| |lia]. eapply above_right_step; [lia|exact Hs|]. apply slt_le. split; [|congruence].
        by apply str_lt_false.
  - assert (left = right + 1) as -> by lia. destruct (Z.leb_spec 0 (right + 1)); [|lia]. cbn [andb].
    destruct (Z.ltb_spec (right + 1) (Z.of_nat (length strL))) as [Hlen|Hlen].
    + destruct (str_at_lt (right + 1)) as (s & -> & Hs); [lia|]. cbn [mbind outcome_bind].
      assert (slt q s) as Hqs by (eapply Ha; [|exact Hs]; lia).
      assert (str_lt s q = false) as -> by (apply str_lt_false, slt_le, Hqs). exists (right + 1). split; [done|].
      right. split; [lia|]. intros i t Ht. split; [|intros; by eapply Hb].
      intros Hlt. destruct (Z.lt_ge_cases (Z.of_nat i) (right + 1)); [done|]. exfalso.
      apply (slt_irrefl t). transitivity q; [done|]. eapply Ha; [|exact Ht]. lia.
    + exists (-1). split; [done|]. left. split; [done|]. intros i t Ht. eapply Hb; [|exact Ht].
      apply lookup_lt_Some in Ht. lia.
Qed.
Lemma findStartIndex_spec q : ∃ r, findStartIndex strL q = Ok r ∧ start_index q r.
Proof.
  unfold findStartIndex. destruct (Nat.eqb_spec (length strL) 0) as [E|E].
  - exists (-1). split; [done|]. left. split; [done|]. intros i s Hs%lookup_lt_Some. lia.
  - apply findStartIndex_loop_spec; [lia..| | |lia].
    + intros i s Hi. lia.
    + intros i s Hi Hs%lookup_lt_Some. lia.
Qed.

(** No key below [q] lies after the index found. *)
Definition end_index (q : string) (r : Z) : Prop :=
  -1 <= r < Z.of_nat (length strL) ∧ ∀ i s, strL !! i = Some s → slt s q → Z.of_nat i <= r.

Lemma scan_less_spec q n : (n <= length strL)%nat →
  ∃ r, scan_less strL q n = Ok r ∧ -1 <= r < Z.of_nat n ∧
    ∀ i s, (i < n)%nat → strL !! i = Some s → slt s q → Z.of_nat i <= r.
Proof.
  induction n as [|n IH]; intros Hn; cbn [scan_less].
  - exists (-1). split; [done|]. split; [lia|]. intros; lia.
  - destruct (str_at_lt (Z.of_nat n)) as (s & -> & Hs); [lia|]. rewrite Nat2Z.id in Hs. cbn [mbind outcome_bind].
    destruct (str_lt s q) eqn:Hlt.
    + exists (Z.of_nat n). split; [done|]. split; [lia|]. intros; lia.
    + destruct IH as (r & -> & Hr & H); [lia|]. exists r. split; [done|]. split; [lia|]. intros i t Hi Ht Htq.
      destruct (decide (i = n)) as [->|]; [|eapply H; [lia|done..]]. unfold slt in Htq. congruence.
Qed.
Lemma findEndIndex_loop_spec q fuel : ∀ left right,
  0 <= left → right < Z.of_nat (length strL) → left <= right + 1 → above_right q right →
  right - left + 1 < Z.of_nat fuel →
  ∃ r, findEndIndex_loop fuel strL q left right = Ok r ∧ end_index q r.
Proof.
  induction fuel as [|fuel IH]; intros left right Hl Hr Hlr Ha Hf; [lia|]. cbn [findEndIndex_loop].
  destruct (Z.leb_spec left right) as [Hle|Hgt].
  - set (mid := Z.shiftr (left + right) 1).
    pose proof (mid_bounds left right Hle) as Hmid. fold mid in Hmid.
    destruct (str_at_lt mid) as (s & -> & Hs); [lia|]. cbn [mbind outcome_bind].
    rewrite str_eq_spec. case_bool_decide as Heq; [subst s|].
    + destruct (scan_back_spec (λ s, str_lt s q) (Z.to_nat mid)) as (r & -> & Hrm & H1 & _); [lia|].
      exists (Z.of_nat r). split; [done|]. split; [lia|]. intros i t Ht Hlt. destruct (decide (i < r)%nat); [lia|]. exfalso.
      destruct (decide (i < Z.to_nat mid)%nat).
      * specialize (H1 i t ltac:(lia) Ht). unfold slt in Hlt. congruence.
      * apply slt_not_le in Hlt. apply Hlt. eapply strL_le; [|exact Hs|exact Ht]. lia.
    + destruct (str_lt s q) eqn:Hlt.
      * apply IH; [lia..|done|lia].
      * apply IH; [lia..| |lia]. eapply above_right_step; [lia|exact Hs|]. apply slt_le. split; [|congruence].
        by apply str_lt_false.
  - destruct (scan_less_spec q (Z.to_nat (right + 1))) as (r & -> & Hrr & H); [lia|]. exists r. split; [done|].
    split; [lia|]. intros i t Ht Hlt. destruct (Z.lt_ge_cases right (Z.of_nat i)) as [Hi|Hi]; [|eapply H; [lia|done..]].
    exfalso. apply (slt_irrefl t). transitivity q; [done|]. by eapply Ha.
Qed.
Lemma findEndIndex_spec q : ∃ r, findEndIndex strL q = Ok r ∧ end_index q r.
Proof.
  unfold findEndIndex. destruct (Nat.eqb_spec (length strL) 0) as [E|E].
  - exists (-1). split; [done|]. split; [lia|]. intros i s Hs%lookup_lt_Some. lia.
  - apply findEndIndex_loop_spec; [lia..| |lia]. intros i s Hi Hs%lookup_lt_Some. lia.
Qed.

(** The window contains every key of the domain, and is not empty. *)
Lemma dirty_window_spec start end_ : strL ≠ [] →
  ∃ a b, dirty_window strL start end_ = Ok (a, b) ∧ 0 <= a <= b ∧ b < Z.of_nat (length strL) ∧
    ∀ i s, strL !! i = Some s → IsKeyInDomain s start end_ = true → a <= Z.of_nat i <= b.
Proof.
  intros Hne. assert (0 < Z.of_nat (length strL)) as Hlen by (destruct strL; [done|cbn; lia]).
  unfold dirty_window. set (len := Z.of_nat (length strL)) in *.
  destruct (findStartIndex_spec (default "" start)) as (a & -> & Ha). cbn [mbind outcome_bind].
  set (a' := if a <? 0 then 0 else a).
  assert (0 <= a' < len ∧ ∀ i s, strL !! i = Some s → IsKeyInDomain s start end_ = true → a' <= Z.of_nat i) as [Ha' Hd].
  { destruct Ha as [[-> Ha]|[Hr Ha]].
    - cbn in a'. split; [lia|]. intros; lia.
    - subst a'. destruct (Z.ltb_spec a 0); [lia|]. split; [lia|]. intros i s Hs Hk.
      destruct (Z.lt_ge_cases (Z.of_nat i) a) as [Hi|]; [|done]. exfalso. apply (Ha i s Hs) in Hi.
      unfold IsKeyInDomain in Hk. unfold slt in Hi. by rewrite Hi in Hk. }
  assert (∃ b, match end_ with None => Ok (len - 1) | Some e => findEndIndex strL e end = Ok b ∧ -1 <= b < len ∧
            ∀ i s, strL !! i = Some s → IsKeyInDomain s start end_ = true → Z.of_nat i <= b) as (b & -> & Hb & He).
  { destruct end_ as [e|].
    - destruct (findEndIndex_spec e) as (b & -> & Hb & H). exists b. split; [done|]. split; [done|].
      intros i s Hs Hk. apply (H i s Hs). rewrite IsKeyInDomain_split in Hk. by apply andb_prop in Hk as [_ ?].
    - exists (len - 1). split; [done|]. split; [lia|]. intros i s Hs%lookup_lt_Some _. lia. }
  cbn [mbind outcome_bind]. set (b' := if b <? 0 then len - 1 else b).
  assert (0 <= b' < len ∧ b <= b') as [Hb' Hbb] by (subst b'; destruct (Z.ltb_spec b 0); lia).
  unfold minSortSize. destruct (Z.ltb_spec (b' - a') 1024).
  - destruct (Z.ltb_spec (Z.min (a' + 1024) (len - 1) - a') 1024); eexists _, _; (split; [reflexivity|]);
      (split; [lia|]); (split; [lia|]); intros i s Hs Hk; specialize (Hd i s Hs Hk); specialize (He i s Hs Hk);
      apply lookup_lt_Some in Hs; lia.
  - eexists _, _. split; [reflexivity|]. split; [lia|]. split; [lia|]. intros i s Hs Hk.
    specialize (Hd i s Hs Hk). specialize (He i s Hs Hk). lia.
Qed.
End Search.

(** On the sorted keys the modified binary searches terminate without an
    index out of range; [findStartIndex] returns the first key that is not below
    its argument, -1 if there is none; no key below the argument of
    [findEndIndex] lies after the index it returns; and the window computed from
    them and widened to [minSortSize] is in bounds, not empty and contains every
    key of the iteration domain. *)
Theorem dirty_window_complete strL : StronglySorted String.le strL →
  (∀ q, ∃ r, findStartIndex strL q = Ok r ∧ start_index strL q r) ∧
  (∀ q, ∃ r, findEndIndex strL q = Ok r ∧ end_index strL q r) ∧
  (strL ≠ [] → ∀ start end_, ∃ a b, dirty_window strL start end_ = Ok (a, b) ∧
     0 <= a <= b ∧ b < Z.of_nat (length strL) ∧
     ∀ i s, strL !! i = Some s → IsKeyInDomain s start end_ = true → a <= Z.of_nat i <= b).
Proof.
  intros Hs. split; [by apply findStartIndex_spec|]. split; [by apply findEndIndex_spec|].
  intros Hne start end_. by apply dirty_window_spec.
Qed.
Lemma dirty_window_complete_witness :
  ∃ r, findStartIndex ["a"; "b"; "b"; "d"] "b" = Ok r ∧ start_index ["a"; "b"; "b"; "d"] "b" r.
Proof. apply (dirty_window_complete ["a"; "b"; "b"; "d"]). repeat constructor; vm_compute; done. Defined.
