(* ===== verification/CacheKVProps.v ===== *)
(** * The cache store refines a map over its parent

    The invariant that ties the three caches to the parent, its preservation
    by every operation, and the theorems: a cache over a lawful store is a
    lawful store again, and [Write] moves its contents to the parent. *)
From S2P Require Import Prelude KVStore CacheIter CacheKV.

Section CacheKVFacts.
Context {S I T IT : Type} {HKV : KVStore S I} {HI : Iterator I} {HL : KVStoreLaws S I}.
Context {HB : BTreeG T IT} {HBL : BTreeLaws T IT}.

(** The map a cache represents: its entries over those of the parent. *)
Definition store_view (s : Store S T) : gmap string string :=
  merge (λ c p, match c with Some cv => cv_value cv | None => p end) (cache s) (kv_view (parent s)).

(** Clean entries repeat the parent; dirty entries are in the sorted cache
    unless they wait in [unsortedCache]; the sorted cache holds nothing else. *)
Record store_inv (s : Store S T) : Prop := {
  si_parent : kv_ok (parent s);
  si_key k cv : cache s !! k = Some cv → kv_key k;
  si_value k v : cache s !! k = Some (mkCValue (Some v) true) → valid_value v;
  si_clean k v : cache s !! k = Some (mkCValue v false) → v = kv_view (parent s) !! k;
  si_unsorted k : k ∈ unsortedCache s → ∃ v, cache s !! k = Some (mkCValue v true);
  si_sorted k v :
    cache s !! k = Some (mkCValue v true) → k ∉ unsortedCache s → (k, v) ∈ bt_items (sortedCache s);
  si_items k v : (k, v) ∈ bt_items (sortedCache s) → ∃ v', cache s !! k = Some (mkCValue v' true)
}.

Lemma lookup_store_view s k :
  store_view s !! k = match cache s !! k with Some cv => cv_value cv | None => kv_view (parent s) !! k end.
Proof. unfold store_view. rewrite lookup_merge. by destruct (cache s !! k), (kv_view (parent s) !! k). Qed.

Lemma NewStore_inv p : kv_ok p → store_inv (NewStore p) ∧ store_view (NewStore p) = kv_view p.
Proof.
  intros Hp. split.
  - split; cbn; try done. intros k v. by rewrite bt_items_New, elem_of_nil.
  - apply map_eq. intros k. by rewrite lookup_store_view.
Qed.

(** Replacing the parent by one with the same contents. *)
Definition with_parent (p : S) (s : Store S T) : Store S T :=
  mkStore (cache s) (unsortedCache s) (sortedCache s) p.
Lemma on_parent_run {A} (m : GoM S A) s r p : m (parent s) = (r, p) → on_parent m s = (r, with_parent p s).
Proof. intros E. unfold on_parent. by rewrite E. Qed.
Lemma with_parent_inv p s :
  store_inv s → kv_ok p → kv_view p = kv_view (parent s) →
  store_inv (with_parent p s) ∧ store_view (with_parent p s) = store_view s.
Proof.
  intros [] Hp Hv. split; [split; cbn; [done..| |done|done|done]; by rewrite Hv|].
  unfold store_view. cbn. by rewrite Hv.
Qed.

Definition put (k : string) (v : option string) (dirty : bool) (s : Store S T) : Store S T :=
  mkStore (<[k := mkCValue v dirty]> (cache s)) (if dirty then {[k]} ∪ unsortedCache s else unsortedCache s)
    (sortedCache s) (parent s).
Lemma lookup_store_view_put k v dirty s k' :
  store_view (put k v dirty s) !! k' = if decide (k = k') then v else store_view s !! k'.
Proof.
  rewrite !lookup_store_view. cbn. case_decide as E; [subst; by rewrite lookup_insert_eq|]. by rewrite lookup_insert_ne.
Qed.

Lemma put_dirty_inv k v s :
  store_inv s → kv_key k → (∀ w, v = Some w → valid_value w) → store_inv (put k v true s).
Proof.
  intros [] Hk Hv. split; cbn; [done|..].
  - intros k' cv [[<- _]|[_ ?]]%lookup_insert_Some; [done|eauto].
  - intros k' w [[<- [= ->]]|[_ ?]]%lookup_insert_Some; [auto|eauto].
  - intros k' w [[_ [=]]|[_ ?]]%lookup_insert_Some. eauto.
  - intros k' Hin. destruct (decide (k = k')) as [<-|]; [rewrite lookup_insert_eq; eauto|].
    rewrite lookup_insert_ne by done. apply si_unsorted0. set_solver.
  - intros k' w [[<- _]|[Hne ?]]%lookup_insert_Some Hn; [set_solver|]. apply si_sorted0; set_solver.
  - intros k' w Hin. destruct (decide (k = k')) as [<-|]; [rewrite lookup_insert_eq; eauto|].
    rewrite lookup_insert_ne by done. eauto.
Qed.
Lemma put_clean_inv k s :
  store_inv s → kv_key k → cache s !! k = None → store_inv (put k (kv_view (parent s) !! k) false s).
Proof.
  intros [] Hk Hnone. split; cbn; [done|..].
  - intros k' cv [[<- _]|[_ ?]]%lookup_insert_Some; [done|eauto].
  - intros k' w [[_ [=]]|[_ ?]]%lookup_insert_Some. eauto.
  - intros k' w [[<- [= ->]]|[_ ?]]%lookup_insert_Some; [done|eauto].
  - intros k' Hin. destruct (si_unsorted0 _ Hin) as [w Hw]. exists w. rewrite lookup_insert_ne; [done|]. by intros ->; congruence.
  - intros k' w [[_ [=]]|[_ ?]]%lookup_insert_Some Hn. eauto.
  - intros k' w Hin. destruct (si_items0 _ _ Hin) as [w' Hw]. exists w'. rewrite lookup_insert_ne; [done|]. by intros ->; congruence.
Qed.

(** ** Reading and writing

    Before [Write] the contents of the parent do not change. *)

Definition evolves (s s' : Store S T) : Prop := store_inv s' ∧ kv_view (parent s') = kv_view (parent s).

Lemma Store_Get_spec k s : store_inv s → kv_key k →
  ∃ s', Store_Get k s = (Ok (store_view s !! k), s') ∧ evolves s s' ∧ store_view s' = store_view s.
Proof.
  intros Hi Hk. unfold Store_Get. rewrite (liftM_bind_run _ _ _ _ (kv_key_valid _ Hk)), lookup_store_view.
  change ((getM ≫= ?f) s) with (f s s). cbn beta. destruct (cache s !! k) as [cv|] eqn:E; [by exists s|].
  destruct (kv_Get_spec k (parent s) (si_parent _ Hi) Hk) as (p & Hg & Hok & Hv).
  destruct (with_parent_inv p s Hi Hok Hv) as [Hi' Hv'].
  rewrite (GoM_bind_run _ _ _ _ _ (on_parent_run _ _ _ _ Hg)).
  eexists. split; [reflexivity|]. change (parent s) with (parent s). rewrite <- Hv.
  split; [split; [by apply put_clean_inv|done]|]. apply map_eq. intros k'.
  etransitivity; [apply lookup_store_view_put|]. rewrite Hv'. case_decide; [subst k'|done].
  by rewrite lookup_store_view, E, Hv.
Qed.
Lemma Store_Set_spec k v s : store_inv s → kv_key k → valid_value v →
  ∃ s', Store_Set k (Some v) s = (Ok tt, s') ∧ evolves s s' ∧ store_view s' = <[k := v]> (store_view s).
Proof.
  intros Hi Hk Hv. unfold Store_Set. rewrite (liftM_bind_run _ _ _ _ (kv_key_valid _ Hk)), (liftM_bind_run _ _ _ _ Hv).
  exists (put k (Some v) true s). split; [done|]. split; [split; [apply put_dirty_inv; naive_solver|done]|]. apply map_eq. intros k'.
  rewrite lookup_store_view_put. case_decide as E; [subst; by rewrite lookup_insert_eq|]. by rewrite lookup_insert_ne.
Qed.
Lemma Store_Delete_spec k s : store_inv s → kv_key k →
  ∃ s', Store_Delete k s = (Ok tt, s') ∧ evolves s s' ∧ store_view s' = delete k (store_view s).
Proof.
  intros Hi Hk. unfold Store_Delete. rewrite (liftM_bind_run _ _ _ _ (kv_key_valid _ Hk)).
  exists (put k None true s). split; [done|]. split; [split; [by apply put_dirty_inv|done]|]. apply map_eq. intros k'.
  rewrite lookup_store_view_put. case_decide as E; [subst; by rewrite lookup_delete_eq|]. by rewrite lookup_delete_ne.
Qed.
Lemma Store_Has_spec k s : store_inv s → kv_key k →
  ∃ s', Store_Has k s = (Ok (bool_decide (is_Some (store_view s !! k))), s') ∧ evolves s s' ∧
        store_view s' = store_view s.
Proof.
  intros Hi Hk. destruct (Store_Get_spec k s Hi Hk) as (s' & Hg & Hs). unfold Store_Has.
  rewrite (GoM_bind_run _ _ _ _ _ Hg). by exists s'.
Qed.

(** ** Moving dirty items to the sorted cache *)

Lemma elem_of_foldl_Set ul : ∀ t k v, NoDup (ul.*1) →
  (k, v) ∈ bt_items (foldl (λ t kv, bt_Set kv t) t ul) ↔ (k, v) ∈ ul ∨ ((k ∉ ul.*1) ∧ (k, v) ∈ bt_items t).
Proof.
  induction ul as [|[k0 v0] ul IH]; intros t k v Hn; cbn in *; [set_solver|]. apply NoDup_cons in Hn as [Hni Hn].
  rewrite IH, elem_of_bt_Set, !elem_of_cons by done. split.
  - intros [?|[Hk [[-> ->]|[? ?]]]]; [tauto..|]. right. tauto.
  - intros [[[= -> ->]|?]|[Hk ?]]; tauto.
Qed.
Lemma foldl_remove (ul : list item) : ∀ u : gset string,
  foldl (λ u kv, u ∖ {[kv.1]}) u ul = u ∖ list_to_set ul.*1.
Proof. induction ul as [|[k v] ul IH]; intros u; cbn; [set_solver|]. rewrite IH. set_solver. Qed.

Lemma clearUnsorted_spec ul st s :
  store_inv s → NoDup (ul.*1) →
  (∀ k v, (k, v) ∈ ul → k ∈ unsortedCache s ∧ cache s !! k = Some (mkCValue v true)) →
  ∃ s', clearUnsortedCacheSubset ul st s = (Ok tt, s') ∧ store_inv s' ∧ cache s' = cache s ∧ parent s' = parent s ∧
        unsortedCache s' = unsortedCache s ∖ list_to_set ul.*1.
Proof.
  intros Hi Hn Hul. eexists. split; [reflexivity|].
  set (u' := if (length ul =? size (unsortedCache s))%nat then ∅ else foldl _ (unsortedCache s) ul).
  assert (u' = unsortedCache s ∖ list_to_set ul.*1) as Eu.
  { subst u'. rewrite foldl_remove. destruct (Nat.eqb_spec (length ul) (size (unsortedCache s))) as [E|]; [|done].
    assert (list_to_set ul.*1 ⊆ unsortedCache s) as Hsub.
    { intros k Hk. apply elem_of_list_to_set, list_elem_of_fmap in Hk as ([k' v] & -> & Hin). by apply Hul in Hin as [? _]. }
    apply set_eq. intros k. apply set_subseteq_size_equiv in Hsub; [set_solver|].
    rewrite size_list_to_set by done. rewrite length_fmap. lia. }
  set (l' := match st with stateUnsorted => merge_sort key_le ul | stateAlreadySorted => ul end).
  assert (l' ≡ₚ ul) as Hp by (subst l'; destruct st; [apply merge_sort_Permutation|done]).
  assert (∀ k v, (k, v) ∈ bt_items (foldl (λ t kv, bt_Set kv t) (sortedCache s) l') ↔
                 (k, v) ∈ ul ∨ ((k ∉ ul.*1) ∧ (k, v) ∈ bt_items (sortedCache s))) as Hit.
  { intros k v. rewrite elem_of_foldl_Set by (by rewrite Hp). by rewrite Hp. }
  split; [|done]. destruct Hi. split; cbn; [done..| | |]; fold u' l'; rewrite ?Eu.
  - intros k Hk. apply si_unsorted0. set_solver.
  - intros k v Hk Hn'. rewrite Hit. destruct (decide (k ∈ ul.*1)) as [Hin|Hin].
    + left. apply list_elem_of_fmap in Hin as ([k' w] & -> & Hin). pose proof (Hul _ _ Hin) as [_ Hw].
      cbn in *. rewrite Hk in Hw. by injection Hw as ->.
    + right. split; [done|]. apply si_sorted0; [done|]. set_solver.
  - intros k v [Hin|[_ Hin]]%Hit; [|by eapply si_items0]. exists v. by apply Hul.
Qed.

(** The keys are moved with their cached values. *)
Definition cached (s : Store S T) (k : string) : option string := default None (cv_value <$> cache s !! k).
Lemma dirty_pair_spec s k : store_inv s → k ∈ unsortedCache s →
  dirty_pair (cache s) k = Ok (k, cached s k) ∧ cache s !! k = Some (mkCValue (cached s k) true).
Proof.
  intros Hi Hk. destruct (si_unsorted _ Hi k Hk) as [v Hv]. unfold dirty_pair, cached. by rewrite Hv.
Qed.
Lemma move_keys_spec s keys st :
  store_inv s → NoDup keys → (∀ k, k ∈ keys → k ∈ unsortedCache s) →
  ∃ s', clearUnsortedCacheSubset (map (λ k, (k, cached s k)) keys) st s = (Ok tt, s') ∧ store_inv s' ∧
        cache s' = cache s ∧ parent s' = parent s ∧ unsortedCache s' = unsortedCache s ∖ list_to_set keys.
Proof.
  intros Hi Hn Hk. assert ((map (λ k, (k, cached s k)) keys).*1 = keys) as E.
  { rewrite <- list_fmap_compose. apply list_fmap_id. }
  pose proof (clearUnsorted_spec (map (λ k, (k, cached s k)) keys) st s Hi) as H. rewrite E in H. apply H; [done|].
  intros k v (k' & [= -> ->] & Hin)%list_elem_of_fmap. split; [by apply Hk|]. by apply dirty_pair_spec, Hk.
Qed.

Lemma empty_domain start e k : str_lt e (default "" start) = true → IsKeyInDomain k start (Some e) = false.
Proof.
  intros H. unfold IsKeyInDomain. destruct (str_lt k (default "" start)) eqn:Hk; [done|].
  apply str_lt_false in Hk. apply str_lt_false. transitivity (default "" start); [|done]. by apply slt_le in H as [? _].
Qed.

(** The sorted keys of the window. *)
Lemma window_keys s strL a b :
  store_inv s → strL ≡ₚ elements (unsortedCache s) → 0 <= a <= b → b < Z.of_nat (length strL) →
  ∃ keys, traverse (λ i, key ← str_at strL i; dirty_pair (cache s) key) (seqZ a (1 + b - a))
            = Ok (map (λ k, (k, cached s k)) keys) ∧
          NoDup keys ∧ (∀ k, k ∈ keys → k ∈ unsortedCache s) ∧
          ∀ i k, strL !! i = Some k → a <= Z.of_nat i <= b → k ∈ keys.
Proof.
  intros Hi Hp Hab Hb. set (key i := default "" (strL !! Z.to_nat i)). exists (map key (seqZ a (1 + b - a))).
  assert (∀ i, i ∈ seqZ a (1 + b - a) → strL !! Z.to_nat i = Some (key i) ∧ key i ∈ unsortedCache s) as Hkey.
  { intros i Hin%elem_of_seqZ. destruct (lookup_lt_is_Some_2 strL (Z.to_nat i)) as [k Hk]; [lia|]. unfold key. rewrite Hk.
    split; [done|]. apply elem_of_elements. rewrite <- Hp. by eapply list_elem_of_lookup_2. }
  split; [|split; [|split]].
  - rewrite map_map. apply traverse_Ok. intros i Hin. pose proof (proj1 (elem_of_seqZ _ _ _) Hin) as Hr.
    destruct (Hkey i Hin) as [Hl Hu]. rewrite (str_at_lookup strL i (key i)) by (done || lia). cbn [mbind outcome_bind].
    by apply dirty_pair_spec.
  - apply NoDup_fmap_2_strong; [|apply NoDup_seqZ]. intros i j Hin Hjn Heq.
    pose proof (proj1 (elem_of_seqZ _ _ _) Hin). pose proof (proj1 (elem_of_seqZ _ _ _) Hjn).
    destruct (Hkey i Hin) as [Hli _], (Hkey j Hjn) as [Hlj _]. rewrite Heq in Hli.
    assert (NoDup strL) as Hnd by (rewrite Hp; apply NoDup_elements).
    pose proof (NoDup_lookup _ _ _ _ Hnd Hli Hlj). lia.
  - intros k (i & -> & Hin)%list_elem_of_fmap. by apply Hkey.
  - intros i k Hk Hr. apply list_elem_of_fmap. exists (Z.of_nat i). unfold key. rewrite Nat2Z.id, Hk. split; [done|].
    apply elem_of_seqZ. lia.
Qed.

(** After [dirtyItems] no key of the domain waits in [unsortedCache]. *)
Lemma dirtyItems_spec start end_ s : store_inv s →
  ∃ s', dirtyItems start end_ s = (Ok tt, s') ∧ store_inv s' ∧ cache s' = cache s ∧ parent s' = parent s ∧
        ∀ k, k ∈ unsortedCache s' → IsKeyInDomain k start end_ = false.
Proof.
  intros Hi. unfold dirtyItems.
  destruct (bool_decide (is_Some end_) && str_lt (default "" end_) (default "" start)) eqn:E.
  { exists s. do 4 (split; [done|]). apply andb_prop in E as [[e ->]%bool_decide_eq_true E]. intros k _. by apply empty_domain. }
  change ((getM ≫= ?f) s) with (f s s). cbn beta.
  destruct (Z.ltb_spec (Z.of_nat (size (unsortedCache s))) minSortSize) as [Hsz|Hsz].
  - set (keys := filter (λ key, IsKeyInDomain key start end_ = true) (elements (unsortedCache s))).
    assert (∀ k, k ∈ keys ↔ IsKeyInDomain k start end_ = true ∧ k ∈ unsortedCache s) as Hkeys.
    { intros k. subst keys. by rewrite list_elem_of_filter, elem_of_elements. }
    rewrite (liftM_bind_run _ _ (map (λ k, (k, cached s k)) keys)).
    + destruct (move_keys_spec s keys stateUnsorted Hi) as (s' & Hc & Hi' & Hca & Hpa & Hu).
      * apply NoDup_filter, NoDup_elements.
      * intros k Hk. by apply Hkeys.
      * exists s'. do 4 (split; [done|]). intros k. rewrite Hu, elem_of_difference, elem_of_list_to_set, Hkeys.
        destruct (IsKeyInDomain k start end_); naive_solver.
    + apply traverse_Ok. intros k [_ Hk]%Hkeys. by apply dirty_pair_spec.
  - set (strL := merge_sort String.le (elements (unsortedCache s))).
    assert (strL ≡ₚ elements (unsortedCache s)) as Hp by apply merge_sort_Permutation.
    assert (length strL = size (unsortedCache s)) as Hlen by (by rewrite Hp).
    destruct (dirty_window_spec strL ltac:(apply StronglySorted_merge_sort; apply _) start end_) as (a & b & Hw & Hab & Hb & Hd).
    { intros E0. rewrite E0 in Hlen. unfold minSortSize in Hsz. cbn in Hlen. lia. }
    destruct (window_keys s strL a b Hi Hp Hab Hb) as (keys & Htr & Hnd & Hun & Hall).
    rewrite (liftM_bind_run _ _ _ _ Hw). cbv beta iota.
    rewrite (liftM_bind_run _ _ tt) by (destruct (Z.ltb_spec (1 + b - a) 0); [lia|done]).
    rewrite (liftM_bind_run _ _ _ _ Htr).
    destruct (move_keys_spec s keys stateAlreadySorted Hi Hnd Hun) as (s' & Hc & Hi' & Hca & Hpa & Hu).
    exists s'. do 4 (split; [done|]). intros k. rewrite Hu, elem_of_difference, elem_of_list_to_set. intros [Hk Hn].
    destruct (IsKeyInDomain k start end_) eqn:Ek; [|done]. exfalso. apply Hn.
    apply elem_of_elements in Hk. rewrite <- Hp in Hk. apply list_elem_of_lookup in Hk as [j Hj]. eapply Hall; [exact Hj|].
    by eapply Hd.
Qed.

(** ** Iterating *)

Lemma bt_items_key_unique t k v v' : (k, v) ∈ bt_items t → (k, v') ∈ bt_items t → v = v'.
Proof.
  intros H1 H2. pose proof (sorted_NoDup _ _ (bt_items_sorted t)) as Hn.
  apply list_elem_of_lookup in H1 as [i Hi], H2 as [j Hj].
  assert ((bt_items t).*1 !! i = Some k) as Ki by (by rewrite list_lookup_fmap, Hi).
  assert ((bt_items t).*1 !! j = Some k) as Kj by (by rewrite list_lookup_fmap, Hj).
  pose proof (NoDup_lookup _ _ _ _ Hn Ki Kj) as ->. rewrite Hi in Hj. by injection Hj.
Qed.
(** In a domain without waiting keys the sorted cache is the dirty part of the
    cache. *)
Lemma settled_items s start end_ k v :
  store_inv s → (∀ k, k ∈ unsortedCache s → IsKeyInDomain k start end_ = false) → IsKeyInDomain k start end_ = true →
  (k, v) ∈ bt_items (sortedCache s) ↔ cache s !! k = Some (mkCValue v true).
Proof.
  intros Hi Hd Hk. assert (k ∉ unsortedCache s) as Hn by (intros H%Hd; congruence). split.
  - intros Hin. destruct (si_items _ Hi _ _ Hin) as [v' Hv']. rewrite Hv'. do 2 f_equal.
    eapply bt_items_key_unique; [by eapply si_sorted|done].
  - intros Hc. by eapply si_sorted.
Qed.

Lemma overlay_is_view s asc start end_ lc k v :
  store_inv s →
  (∀ k v, (k, v) ∈ lc ↔ cache s !! k = Some (mkCValue v true) ∧ IsKeyInDomain k start end_ = true) →
  (v ≠ None ∧ (k, v) ∈ lc) ∨
    ((k, v) ∈ range asc start end_ (Some <$> kv_view (parent s)) ∧ k ∉ lc.*1) ↔
  (Some <$> store_view s) !! k = Some v ∧ IsKeyInDomain k start end_ = true.
Proof.
  intros Hi Hlc. rewrite elem_of_range, Hlc, !lookup_fmap, !fmap_Some, lookup_store_view.
  assert (k ∉ lc.*1 ↔ ¬ ((∃ w, cache s !! k = Some (mkCValue w true)) ∧ IsKeyInDomain k start end_ = true)) as ->.
  { split.
    - intros Hn [[w Hw] Hd]. apply Hn, (elem_key k w), Hlc. done.
    - intros Hn ([k' w] & -> & [Hw Hd]%Hlc)%list_elem_of_fmap. apply Hn. eauto. }
  destruct (cache s !! k) as [[w d]|] eqn:Ec; [destruct d|]; cbn [cv_value].
  - destruct v as [v|]; naive_solver.
  - rewrite (si_clean _ Hi _ _ Ec). destruct v as [v|]; naive_solver.
  - destruct v as [v|]; naive_solver.
Qed.

Lemma parent_iterator_spec (asc : bool) start end_ p : kv_ok p → valid_bounds start end_ →
  ∃ n p', kv_ok p' ∧ kv_view p' = kv_view p ∧ ∀ fuel, (n <= fuel)%nat → ∃ it,
    (if asc then kv_Iterator fuel start end_ else kv_ReverseIterator fuel start end_) p = (Ok it, p') ∧
    yields it (range asc start end_ (Some <$> kv_view p)).
Proof. destruct asc; [apply kv_Iterator_spec|apply kv_ReverseIterator_spec]. Qed.

Lemma Store_iterator_spec asc start end_ s : store_inv s → valid_bounds start end_ →
  ∃ n s', evolves s s' ∧ store_view s' = store_view s ∧ ∀ fuel, (n <= fuel)%nat →
    ∃ it, Store_iterator fuel start end_ asc s = (Ok it, s') ∧ yields it (range asc start end_ (Some <$> store_view s)).
Proof.
  intros Hi Hb. destruct (dirtyItems_spec start end_ s Hi) as (s1 & Hd & Hi1 & Hc1 & Hp1 & Hu1).
  assert (store_view s1 = store_view s) as Hv1 by (unfold store_view; by rewrite Hc1, Hp1).
  destruct (parent_iterator_spec asc start end_ (parent s1) (si_parent _ Hi1) Hb) as (n & p' & Hok' & Hvp & Hn).
  destruct (newMem_yields start end_ (bt_Copy (sortedCache s1)) asc) as (lc & Hyc & Hsc & Hmc).
  set (lp := range asc start end_ (Some <$> kv_view (parent s1))).
  destruct (with_parent_inv p' s1 Hi1 Hok' Hvp) as [Hi2 Hv2].
  exists (n `max` Datatypes.S (length lp + length lc))%nat, (with_parent p' s1).
  split; [split; [done|]; cbn; by rewrite Hvp, Hp1|]. split; [congruence|]. intros fuel Hf.
  destruct (Hn fuel ltac:(lia)) as (itp & Hit & Hyp).
  destruct (NewCacheMergeIterator_yields asc fuel itp (newMemIterator start end_ (bt_Copy (sortedCache s1)) asc) lp lc)
    as (it & Hnew & Hy); [done..|lia|].
  exists it. unfold Store_iterator. rewrite (GoM_bind_run _ _ _ _ _ Hd).
  change ((getM ≫= ?f) s1) with (f s1 s1). cbn beta zeta. rewrite (GoM_bind_run _ _ _ _ _ (on_parent_run _ _ _ _ Hit)).
  destruct Hb as [Hb1 Hb2]. unfold BTree_iterator. rewrite !bool_decide_false by done. cbn [orb guard_err].
  rewrite (liftM_bind_run _ _ (newMemIterator start end_ (bt_Copy (sortedCache s1)) asc)) by done.
  unfold liftM. rewrite Hnew. split; [done|].
  replace (range asc start end_ (Some <$> store_view s)) with (overlay asc lp lc); [done|].
  apply range_unique; [apply overlay_sorted; [apply range_sorted|done]|]. intros k v.
  rewrite elem_of_overlay, <- Hv1 by (done || apply range_sorted). apply overlay_is_view; [done|].
  intros k' v'. rewrite Hmc, bt_items_Copy. destruct (IsKeyInDomain k' start end_) eqn:Ek.
  - by rewrite (settled_items s1 start end_ k' v').
  - split; by intros [_ ?].
Qed.

(** A cache over a lawful store is a lawful store. *)
#[global] Instance Store_KVStoreLaws : KVStoreLaws (Store S T) (cacheMergeIterator I (memIterator IT)).
Proof.
  refine {| kv_ok := store_inv; kv_key := kv_key (S := S); kv_view := store_view |}.
  - apply kv_key_valid.
  - intros k s Hi Hk. destruct (Store_Get_spec k s Hi Hk) as (s' & ? & [? _] & ?). eauto.
  - intros k s Hi Hk. destruct (Store_Has_spec k s Hi Hk) as (s' & ? & [? _] & ?). eauto.
  - intros k v s Hi Hk Hv. destruct (Store_Set_spec k v s Hi Hk Hv) as (s' & ? & [? _] & ?). eauto.
  - intros k s Hi Hk. destruct (Store_Delete_spec k s Hi Hk) as (s' & ? & [? _] & ?). eauto.
  - intros start end_ s Hi Hb. destruct (Store_iterator_spec true start end_ s Hi Hb) as (n & s' & [? _] & ? & ?). by exists n, s'.
  - intros start end_ s Hi Hb. destruct (Store_iterator_spec false start end_ s Hi Hb) as (n & s' & [? _] & ? & ?). by exists n, s'.
Defined.

(** ** Flushing *)

Lemma write_entry_spec k cv s :
  kv_ok (parent s) → kv_key k → (∀ v, cv_value cv = Some v → valid_value v) →
  ∃ p', write_entry (k, cv) s = (Ok tt, with_parent p' s) ∧ kv_ok p' ∧
        kv_view p' !! k = cv_value cv ∧ ∀ k', k' ≠ k → kv_view p' !! k' = kv_view (parent s) !! k'.
Proof.
  intros Hok Hk Hv. unfold write_entry. cbn [fst snd]. destruct (cv_value cv) as [v|].
  - destruct (kv_Set_spec k v _ Hok Hk (Hv v eq_refl)) as (p' & Hs & Hok' & Hview). exists p'.
    rewrite (on_parent_run _ _ _ _ Hs), Hview. split; [done|]. split; [done|]. split; [by rewrite lookup_insert_eq|].
    intros k' Hne. by rewrite lookup_insert_ne.
  - destruct (kv_Delete_spec k _ Hok Hk) as (p' & Hs & Hok' & Hview). exists p'.
    rewrite (on_parent_run _ _ _ _ Hs), Hview. split; [done|]. split; [done|]. split; [by rewrite lookup_delete_eq|].
    intros k' Hne. by rewrite lookup_delete_ne.
Qed.
Lemma write_entries_spec l : ∀ s,
  kv_ok (parent s) → NoDup (l.*1) →
  (∀ k cv, (k, cv) ∈ l → kv_key k ∧ ∀ v, cv_value cv = Some v → valid_value v) →
  ∃ p', forM_ write_entry l s = (Ok tt, with_parent p' s) ∧ kv_ok p' ∧
        (∀ k cv, (k, cv) ∈ l → kv_view p' !! k = cv_value cv) ∧
        ∀ k, k ∉ l.*1 → kv_view p' !! k = kv_view (parent s) !! k.
Proof.
  induction l as [|[k cv] l IH]; intros s Hok Hn Hl; cbn [forM_].
  { exists (parent s). destruct s. split; [done|]. split; [done|]. split; [|done]. intros ? ? []%elem_of_nil. }
  cbn in Hn. apply NoDup_cons in Hn as [Hni Hn]. destruct (Hl k cv) as [Hk Hv]; [by left|].
  destruct (write_entry_spec k cv s Hok Hk Hv) as (p1 & Hw & Hok1 & Hv1 & Hv1').
  rewrite (GoM_bind_run _ _ _ _ _ Hw). destruct (IH (with_parent p1 s)) as (p' & -> & Hok' & Ha & Hb); [done..| |].
  { intros k' cv' Hin. apply Hl. by right. }
  exists p'. split; [done|]. split; [done|]. split.
  - intros k' cv' [[= -> ->]|Hin]%elem_of_cons; [|by apply Ha]. rewrite Hb by done. exact Hv1.
  - intros k' Hk'. cbn in Hk'. apply not_elem_of_cons in Hk' as [Hne Hk']. rewrite Hb by done. by apply Hv1'.
Qed.

Lemma Write_spec s : store_inv s →
  ∃ s', Write s = (Ok tt, s') ∧ store_inv s' ∧ kv_view (parent s') = store_view s ∧ cache s' = ∅ ∧ unsortedCache s' = ∅.
Proof.
  intros Hi. unfold Write. change ((getM ≫= ?f) s) with (f s s). cbn beta.
  destruct ((size (cache s) =? 0)%nat && (size (unsortedCache s) =? 0)%nat) eqn:E.
  { apply andb_prop in E as [Ec%Nat.eqb_eq%map_size_empty_inv Eu%Nat.eqb_eq%size_empty_iff].
    apply leibniz_equiv in Eu. eexists. split; [reflexivity|]. destruct (NewStore_inv (parent s) (si_parent _ Hi)) as [HN HV].
    rewrite Ec, Eu. split; [done|]. split; [|done].
    apply map_eq. intros k. by rewrite lookup_store_view, Ec. }
  set (l := filter (λ x, cv_dirty x.2 = true) (map_to_list (cache s))).
  set (l' := merge_sort entry_le l).
  assert (l' ≡ₚ l) as Hp by apply merge_sort_Permutation.
  assert (∀ k cv, (k, cv) ∈ l' ↔ cache s !! k = Some cv ∧ cv_dirty cv = true) as Hl.
  { intros k cv. rewrite Hp. subst l. rewrite list_elem_of_filter, elem_of_map_to_list. cbn. tauto. }
  assert (NoDup (l'.*1)) as Hnd.
  { rewrite Hp. subst l. eapply (sublist_NoDup _ ((map_to_list (cache s)).*1)); [apply NoDup_fst_map_to_list|].
    apply fmap_sublist, sublist_filter. }
  change ((resetCaches ≫= ?f) s) with (f tt (NewStore (parent s))). cbn beta.
  destruct (write_entries_spec l' (NewStore (parent s)) (si_parent _ Hi) Hnd) as (p' & Hw & Hok' & Ha & Hb).
  { intros k cv [Hc Hd]%Hl. split; [by eapply si_key|]. intros v Hv. destruct cv as [w d]. cbn in *. subst.
    by eapply si_value. }
  destruct (NewStore_inv p' Hok') as [HN _]. exists (NewStore p'). split; [exact Hw|]. split; [done|]. split; [|done].
  apply map_eq. intros k. rewrite lookup_store_view. cbn. destruct (cache s !! k) as [[v d]|] eqn:Ec.
  - destruct d; [by apply (Ha k (mkCValue v true)), Hl|]. rewrite Hb, (si_clean _ Hi _ _ Ec); [done|].
    intros ([k' cv] & -> & [Hc Hd]%Hl)%list_elem_of_fmap. cbn in *. rewrite Ec in Hc. by injection Hc as <-.
  - apply Hb. intros ([k' cv] & -> & [Hc Hd]%Hl)%list_elem_of_fmap. cbn in *. congruence.
Qed.

(** ** Sequences of operations *)

Lemma cache_op_spec op s : store_inv s → valid_op (kv_key (S := S)) op →
  ∃ n s', evolves s s' ∧ store_view s' = (spec_kv_op op (store_view s)).2 ∧
    ∀ fuel, (n <= fuel)%nat → run_kv_op fuel op s = (Ok (spec_kv_op op (store_view s)).1, s').
Proof.
  intros Hi Hop. destruct op as [k|k|k v|k|asc start end_]; cbn [valid_op] in Hop.
  - destruct (Store_Get_spec k s Hi Hop) as (s' & Hg & ? & ?). exists 0%nat, s'. do 2 (split; [done|]). intros fuel _.
    cbn [run_kv_op kv_Get Store_KVStore]. by rewrite (GoM_bind_run _ _ _ _ _ Hg).
  - destruct (Store_Has_spec k s Hi Hop) as (s' & Hg & ? & ?). exists 0%nat, s'. do 2 (split; [done|]). intros fuel _.
    cbn [run_kv_op kv_Has Store_KVStore]. by rewrite (GoM_bind_run _ _ _ _ _ Hg).
  - destruct Hop as [Hk Hv]. destruct (Store_Set_spec k v s Hi Hk Hv) as (s' & Hg & ? & ?).
    exists 0%nat, s'. do 2 (split; [done|]). intros fuel _.
    cbn [run_kv_op kv_Set Store_KVStore]. by rewrite (GoM_bind_run _ _ _ _ _ Hg).
  - destruct (Store_Delete_spec k s Hi Hop) as (s' & Hg & ? & ?). exists 0%nat, s'. do 2 (split; [done|]). intros fuel _.
    cbn [run_kv_op kv_Delete Store_KVStore]. by rewrite (GoM_bind_run _ _ _ _ _ Hg).
  - destruct (Store_iterator_spec asc start end_ s Hi Hop) as (n & s' & ? & ? & Hn).
    set (l := range asc start end_ (Some <$> store_view s)) in *.
    exists (n `max` Datatypes.S (length l))%nat, s'. do 2 (split; [done|]). intros fuel Hf.
    destruct (Hn fuel ltac:(lia)) as (it & Hit & Hy). cbn [run_kv_op].
    assert ((if asc then kv_Iterator fuel start end_ else kv_ReverseIterator fuel start end_) s = (Ok it, s')) as Hit'
      by (by destruct asc).
    rewrite (GoM_bind_run _ _ _ _ _ Hit'). by rewrite (liftM_bind_run _ _ l) by (apply drain_yields; [done|lia]).
Qed.

Lemma cache_ops_spec ops : ∀ s, store_inv s → Forall (valid_op (kv_key (S := S))) ops →
  ∃ n s', evolves s s' ∧ store_view s' = (spec_kv_ops ops (store_view s)).2 ∧
    ∀ fuel, (n <= fuel)%nat → traverse (run_kv_op fuel) ops s = (Ok (spec_kv_ops ops (store_view s)).1, s').
Proof.
  induction ops as [|op ops IH]; intros s Hi Hops; [by exists 0%nat, s|]. apply Forall_cons in Hops as [Hop Hops].
  destruct (cache_op_spec op s Hi Hop) as (n1 & s1 & [Hi1 Hp1] & Hv1 & H1).
  destruct (IH s1 Hi1 Hops) as (n2 & s2 & [Hi2 Hp2] & Hv2 & H2).
  exists (n1 `max` n2)%nat, s2. rewrite Hv1 in Hv2, H2. cbn [spec_kv_ops].
  destruct (spec_kv_op op (store_view s)) as [r m]. cbn [fst snd] in *.
  destruct (spec_kv_ops ops m) as [rs m']. cbn [fst snd] in *. split; [split; [done|congruence]|]. split; [done|].
  intros fuel Hf. cbn [traverse]. rewrite (GoM_bind_run _ _ _ _ _ (H1 fuel ltac:(lia))).
  by rewrite (GoM_bind_run _ _ _ _ _ (H2 fuel ltac:(lia))).
Qed.
End CacheKVFacts.

(** C32. A cache over a lawful store behaves like a finite map, whatever the
    parent and whatever the B-tree: every sequence of reads, writes, deletions and
    iterations in both directions succeeds and returns what the same sequence
    returns on the map of the parent with the cached writes applied.  The
    iterations see the writes made before them, also when the dirty keys are
    only partly sorted.  Until [Write] the contents of the parent stay the same. *)
Theorem cache_store_refines_map {S I T IT} {HKV : KVStore S I} {HI : Iterator I} {HL : KVStoreLaws S I}
    {HB : BTreeG T IT} {HBL : BTreeLaws T IT} (ops : list kv_op) (s : Store S T) :
  store_inv s → Forall (valid_op (kv_key (S := S))) ops →
  ∃ n s', (∀ fuel, (n <= fuel)%nat → traverse (run_kv_op fuel) ops s = (Ok (spec_kv_ops ops (store_view s)).1, s')) ∧
    store_inv s' ∧ store_view s' = (spec_kv_ops ops (store_view s)).2 ∧
    kv_view (parent s') = kv_view (parent s).
Proof.
  intros Hi Hops. destruct (cache_ops_spec ops s Hi Hops) as (n & s' & [Hi' Hp'] & Hv & H). by exists n, s'.
Qed.

Definition kv_ops0 : list kv_op :=
  [OpSet "b" "2"; OpDelete "a"; OpGet "a"; OpRange true None None; OpSet "d" "4"; OpRange false (Some "b") (Some "z")].
Definition base0 : gmap string string := {["a" := "1"; "c" := "3"]}.
Lemma valid_ops0 : Forall (valid_op valid_key) kv_ops0.
Proof. repeat (constructor; [done || (split; done)|]). constructor. Qed.
Lemma cache_store_refines_map_witness :
  ∃ n s', ∀ fuel, (n <= fuel)%nat →
    traverse (run_kv_op fuel) kv_ops0 (NewStore (T := gmap string (option string)) base0) =
    (Ok [RUnit; RUnit; RValue None; RItems [("b", Some "2"); ("c", Some "3")]; RUnit;
         RItems [("d", Some "4"); ("c", Some "3"); ("b", Some "2")]], s').
Proof.
  destruct (cache_store_refines_map kv_ops0 (NewStore (T := gmap string (option string)) base0)) as (n & s' & H & _).
  - apply NewStore_inv. exact Logic.I.
  - exact valid_ops0.
  - exists n, s'. intros fuel Hf. rewrite (H fuel Hf). vm_compute. reflexivity.
Defined.

(** C5. A cache is a transaction on its parent: after any sequence of
    operations on a fresh cache, dropping it leaves the parent as it was, and
    [Write] succeeds, makes the contents of the parent those of the sequence
    run on the parent itself, and empties the caches. *)
Theorem cache_transaction {S I T IT} {HKV : KVStore S I} {HI : Iterator I} {HL : KVStoreLaws S I}
    {HB : BTreeG T IT} {HBL : BTreeLaws T IT} (ops : list kv_op) (p : S) :
  kv_ok p → Forall (valid_op (kv_key (S := S))) ops →
  ∃ n (s1 s2 : Store S T),
    (∀ fuel, (n <= fuel)%nat → traverse (run_kv_op fuel) ops (NewStore p) = (Ok (spec_kv_ops ops (kv_view p)).1, s1)) ∧
    kv_view (parent s1) = kv_view p ∧
    Write s1 = (Ok tt, s2) ∧ kv_ok (parent s2) ∧ kv_view (parent s2) = (spec_kv_ops ops (kv_view p)).2 ∧
    store_inv s2 ∧ store_view s2 = kv_view (parent s2) ∧ cache s2 = ∅ ∧ unsortedCache s2 = ∅.
Proof.
  intros Hp Hops. destruct (NewStore_inv (T := T) (IT := IT) p Hp) as [Hi Hv].
  destruct (cache_ops_spec ops (NewStore p) Hi Hops) as (n & s1 & [Hi1 Hp1] & Hv1 & H). rewrite Hv in *.
  destruct (Write_spec s1 Hi1) as (s2 & Hw & Hi2 & Hv2 & Hc2 & Hu2). exists n, s1, s2. split; [done|]. split; [done|].
  split; [done|]. split; [apply Hi2|]. split; [congruence|]. split; [done|]. split; [|done].
  apply map_eq. intros k. by rewrite lookup_store_view, Hc2.
Qed.
Lemma cache_transaction_witness :
  ∃ s1 s2 : Store (gmap string string) (gmap string (option string)),
    Write s1 = (Ok tt, s2) ∧ parent s1 = base0 ∧ parent s2 = {["b" := "2"; "c" := "3"; "d" := "4"]}.
Proof.
  destruct (cache_transaction (T := gmap string (option string)) kv_ops0 base0)
    as (n & s1 & s2 & _ & H1 & H2 & _ & H3 & _); [exact Logic.I|exact valid_ops0|].
  exists s1, s2. split; [exact H2|]. split; [exact H1|]. etransitivity; [exact H3|]. vm_compute. reflexivity.
Defined.
