(* ===== verification/Gas.v ===== *)
(** * Gas: store/types/gas.go and store/gaskv/store.go

    Gas meters are counters of uint64 shared by reference; the gas store
    charges the meter around every operation of its parent.  The state of the
    gas store is the meter and the parent. *)
From S2P Require Import Prelude KVStore.

(** ** types/gas.go *)

Definition MaxUint64 : Z := 2 ^ 64 - 1.
Definition GasIterNextCostFlatDesc : string := "IterNextFlat".
Definition GasValuePerByteDesc : string := "ValuePerByte".
Definition GasWritePerByteDesc : string := "WritePerByte".
Definition GasReadPerByteDesc : string := "ReadPerByte".
Definition GasWriteCostFlatDesc : string := "WriteFlat".
Definition GasReadCostFlatDesc : string := "ReadFlat".
Definition GasHasDesc : string := "Has".
Definition GasDeleteDesc : string := "Delete".

(** The panic values carry the descriptor. *)
Definition ErrorNegativeGasConsumed (descriptor : string) : string := ("ErrorNegativeGasConsumed: " +:+ descriptor)%string.
Definition ErrorOutOfGas (descriptor : string) : string := ("ErrorOutOfGas: " +:+ descriptor)%string.
Definition ErrorGasOverflow (descriptor : string) : string := ("ErrorGasOverflow: " +:+ descriptor)%string.

(** The interface [GasMeter] with its two implementations. *)
Inductive GasMeter :=
| basicGasMeter (limit consumed : Z)
| infiniteGasMeter (consumed : Z).

Definition NewGasMeter (limit : Z) : GasMeter := basicGasMeter limit 0.
Definition NewInfiniteGasMeter : GasMeter := infiniteGasMeter 0.

Definition GasConsumed (g : GasMeter) : Z :=
  match g with basicGasMeter _ consumed => consumed | infiniteGasMeter consumed => consumed end.
Definition Limit (g : GasMeter) : Z :=
  match g with basicGasMeter limit _ => limit | infiniteGasMeter _ => MaxUint64 end.
Definition IsPastLimit (g : GasMeter) : bool :=
  match g with basicGasMeter limit consumed => limit <? consumed | infiniteGasMeter _ => false end.
Definition IsOutOfGas (g : GasMeter) : bool :=
  match g with basicGasMeter limit consumed => limit <=? consumed | infiniteGasMeter _ => false end.
Definition GasRemaining (g : GasMeter) : Z :=
  match g with
  | basicGasMeter limit consumed => if IsPastLimit g then 0 else limit - consumed
  | infiniteGasMeter _ => MaxUint64
  end.
Definition GasConsumedToLimit (g : GasMeter) : Z :=
  match g with
  | basicGasMeter limit consumed => if IsPastLimit g then limit else consumed
  | infiniteGasMeter consumed => consumed
  end.

Definition addUint64Overflow (a b : Z) : Z * bool :=
  if MaxUint64 - a <? b then (0, true) else (wrap_uint64 (a + b), false).

Definition basic_ConsumeGas (limit consumed amount : Z) (descriptor : string) : outcome unit * GasMeter :=
  let '(consumed, overflow) := addUint64Overflow consumed amount in
  if overflow then (Panic (ErrorGasOverflow descriptor), basicGasMeter limit MaxUint64)
  else if limit <? consumed then (Panic (ErrorOutOfGas descriptor), basicGasMeter limit consumed)
  else (Ok tt, basicGasMeter limit consumed).
Definition infinite_ConsumeGas (consumed amount : Z) (descriptor : string) : outcome unit * GasMeter :=
  let '(consumed, overflow) := addUint64Overflow consumed amount in
  (if overflow then Panic (ErrorGasOverflow descriptor) else Ok tt, infiniteGasMeter consumed).
Definition ConsumeGas (amount : Z) (descriptor : string) : GoM GasMeter unit :=
  λ g, match g with
       | basicGasMeter limit consumed => basic_ConsumeGas limit consumed amount descriptor
       | infiniteGasMeter consumed => infinite_ConsumeGas consumed amount descriptor
       end.

Definition basic_RefundGas (limit consumed amount : Z) (descriptor : string) : outcome unit * GasMeter :=
  if consumed <? amount then (Panic (ErrorNegativeGasConsumed descriptor), basicGasMeter limit consumed)
  else (Ok tt, basicGasMeter limit (consumed - amount)).
Definition infinite_RefundGas (consumed amount : Z) (descriptor : string) : outcome unit * GasMeter :=
  if consumed <? amount then (Panic (ErrorNegativeGasConsumed descriptor), infiniteGasMeter consumed)
  else (Ok tt, infiniteGasMeter (consumed - amount)).
Definition RefundGas (amount : Z) (descriptor : string) : GoM GasMeter unit :=
  λ g, match g with
       | basicGasMeter limit consumed => basic_RefundGas limit consumed amount descriptor
       | infiniteGasMeter consumed => infinite_RefundGas consumed amount descriptor
       end.

Record GasConfig := mkGasConfig {
  HasCost : Z;
  DeleteCost : Z;
  ReadCostFlat : Z;
  ReadCostPerByte : Z;
  WriteCostFlat : Z;
  WriteCostPerByte : Z;
  IterNextCostFlat : Z
}.
Definition KVGasConfig : GasConfig := mkGasConfig 1000 1000 1000 3 2000 30 30.
Definition TransientGasConfig : GasConfig := mkGasConfig 100 100 100 0 200 3 3.

(** ** gaskv/store.go *)

(** [cost*types.Gas(len(bz))] in uint64. *)
Definition per_byte (cost : Z) (bz : option string) : Z := wrap_uint64 (cost * str_len (default "" bz)).

Section GasKV.
Context {S I : Type} {HKV : KVStore S I} {HI : Iterator I}.
Variable gasConfig : GasConfig.

Record GasStore := mkGasStore { gasMeter : GasMeter; gas_parent : S }.

Definition charge (amount : Z) (descriptor : string) : GoM GasStore unit :=
  λ gs, let '(r, g) := ConsumeGas amount descriptor (gasMeter gs) in (r, mkGasStore g (gas_parent gs)).
Definition on_gas_parent {A} (m : GoM S A) : GoM GasStore A :=
  λ gs, let '(r, p) := m (gas_parent gs) in (r, mkGasStore (gasMeter gs) p).

Definition Gas_Get (key : string) : GoM GasStore (option string) :=
  _ ← charge (ReadCostFlat gasConfig) GasReadCostFlatDesc;
  value ← on_gas_parent (kv_Get key);
  _ ← charge (per_byte (ReadCostPerByte gasConfig) (Some key)) GasReadPerByteDesc;
  _ ← charge (per_byte (ReadCostPerByte gasConfig) value) GasReadPerByteDesc;
  mret value.
Definition Gas_Set (key : string) (value : option string) : GoM GasStore unit :=
  _ ← liftM (AssertValidKey key);
  _ ← liftM (AssertValidValue value);
  _ ← charge (WriteCostFlat gasConfig) GasWriteCostFlatDesc;
  _ ← charge (per_byte (WriteCostPerByte gasConfig) (Some key)) GasWritePerByteDesc;
  _ ← charge (per_byte (WriteCostPerByte gasConfig) value) GasWritePerByteDesc;
  on_gas_parent (kv_Set key value).
Definition Gas_Has (key : string) : GoM GasStore bool :=
  _ ← charge (HasCost gasConfig) GasHasDesc;
  on_gas_parent (kv_Has key).
Definition Gas_Delete (key : string) : GoM GasStore unit :=
  _ ← charge (DeleteCost gasConfig) GasDeleteDesc;
  on_gas_parent (kv_Delete key).

(** A [gasIterator] is the iterator of the parent; its moves charge the meter. *)
Definition consumeSeekGas (gi : I) : GoM GasStore unit :=
  _ ← (if it_Valid gi then
         key ← liftM (it_Key gi);
         value ← liftM (it_Value gi);
         _ ← charge (per_byte (ReadCostPerByte gasConfig) (Some key)) GasValuePerByteDesc;
         charge (per_byte (ReadCostPerByte gasConfig) value) GasValuePerByteDesc
       else mret tt);
  charge (IterNextCostFlat gasConfig) GasIterNextCostFlatDesc.
Definition gasIterator_Next (gi : I) : GoM GasStore I :=
  _ ← consumeSeekGas gi;
  liftM (it_Next gi).
Definition Gas_iterator (fuel : nat) (start end_ : option string) (ascending : bool) : GoM GasStore I :=
  gi ← on_gas_parent (if ascending then kv_Iterator fuel start end_ else kv_ReverseIterator fuel start end_);
  _ ← consumeSeekGas gi;
  mret gi.
End GasKV.
Arguments GasStore : clear implicits.

(** ** The basic meter is a saturating counter *)

Definition uint64_range (z : Z) : Prop := 0 <= z <= MaxUint64.

Lemma ConsumeGas_basic limit consumed amount desc :
  uint64_range consumed → uint64_range amount →
  ConsumeGas amount desc (basicGasMeter limit consumed) =
    if MaxUint64 <? consumed + amount then (Panic (ErrorGasOverflow desc), basicGasMeter limit MaxUint64)
    else if limit <? consumed + amount then (Panic (ErrorOutOfGas desc), basicGasMeter limit (consumed + amount))
    else (Ok tt, basicGasMeter limit (consumed + amount)).
Proof.
  unfold uint64_range. intros Hc Ha. cbn [ConsumeGas]. unfold basic_ConsumeGas, addUint64Overflow.
  destruct (Z.ltb_spec (MaxUint64 - consumed) amount) as [H|H], (Z.ltb_spec MaxUint64 (consumed + amount)) as [H'|H']; try lia; [done|].
  rewrite wrap_uint64_id by (unfold MaxUint64 in *; lia). done.
Qed.

(** The meter after a sequence of charges whose panics were recovered. *)
Definition consume_all (amounts : list Z) (g : GasMeter) : GasMeter :=
  foldl (λ g a, (ConsumeGas a "" g).2) g amounts.
Definition zsum (l : list Z) : Z := foldr Z.add 0 l.

Lemma zsum_nonneg l : Forall uint64_range l → 0 <= zsum l.
Proof. unfold zsum. induction 1 as [|x l Hx _ IH]; cbn [foldr]; [lia|]. unfold uint64_range in Hx. lia. Qed.
Lemma consume_all_basic amounts : ∀ limit consumed,
  uint64_range consumed → Forall uint64_range amounts →
  consume_all amounts (basicGasMeter limit consumed) = basicGasMeter limit (Z.min MaxUint64 (consumed + zsum amounts)).
Proof.
  induction amounts as [|a amounts IH]; intros limit consumed Hc Ha.
  { unfold consume_all, zsum. cbn [foldl foldr]. f_equal. unfold uint64_range in Hc. lia. }
  apply Forall_cons in Ha as [Ha Has]. pose proof (zsum_nonneg amounts Has) as Hz.
  change (consume_all (a :: amounts) ?g) with (consume_all amounts (ConsumeGas a "" g).2).
  change (zsum (a :: amounts)) with (a + zsum amounts). rewrite ConsumeGas_basic by done.
  unfold uint64_range in Hc, Ha.
  destruct (Z.ltb_spec MaxUint64 (consumed + a)); [|destruct (limit <? consumed + a)]; cbn [snd];
    rewrite IH by (done || (unfold uint64_range, MaxUint64 in *; lia)); f_equal; lia.
Qed.

(** A basic gas meter is a counter that saturates at the largest uint64:
    after any sequence of charges, recovered panics included, the gas consumed is
    the sum of the amounts or the maximum.  A charge succeeds exactly when the
    total stays within the limit, so a transaction that ran out of gas cannot
    continue; remaining gas and gas consumed up to the limit always add up to the
    limit; and a refund undoes a charge that succeeded, while a refund of more than
    was consumed panics and changes nothing. *)
Theorem basicGasMeter_saturating limit consumed amounts amount desc :
  uint64_range limit → uint64_range consumed → Forall uint64_range amounts → uint64_range amount →
  let g := consume_all amounts (basicGasMeter limit consumed) in
  GasConsumed g = Z.min MaxUint64 (consumed + zsum amounts) ∧
  ((ConsumeGas amount desc g).1 = Ok tt ↔ GasConsumed g + amount <= limit) ∧
  GasConsumedToLimit g + GasRemaining g = limit ∧
  ((ConsumeGas amount desc g).1 = Ok tt → RefundGas amount desc (ConsumeGas amount desc g).2 = (Ok tt, g)) ∧
  (GasConsumed g < amount → RefundGas amount desc g = (Panic (ErrorNegativeGasConsumed desc), g)).
Proof.
  intros Hl Hc Has Ha g. subst g. rewrite consume_all_basic by done.
  pose proof (zsum_nonneg amounts Has) as Hz.
  set (c := Z.min MaxUint64 (consumed + zsum amounts)).
  assert (uint64_range c) as Hc' by (unfold uint64_range, MaxUint64 in *; lia).
  rewrite ConsumeGas_basic by done. unfold uint64_range in *.
  cbn [GasConsumed GasConsumedToLimit GasRemaining IsPastLimit fst snd].
  split; [done|]. split; [|split; [|split]].
  - destruct (Z.ltb_spec MaxUint64 (c + amount)); [|destruct (Z.ltb_spec limit (c + amount))]; cbn; (split; [done || lia|]); lia || done.
  - destruct (Z.ltb_spec limit c); lia.
  - destruct (Z.ltb_spec MaxUint64 (c + amount)); [done|]. destruct (Z.ltb_spec limit (c + amount)); [done|]. intros _.
    cbn [snd RefundGas]. unfold basic_RefundGas. destruct (Z.ltb_spec (c + amount) amount); [lia|]. repeat f_equal. lia.
  - intros H. cbn [RefundGas]. unfold basic_RefundGas. by destruct (Z.ltb_spec c amount); [|lia].
Qed.
Lemma basicGasMeter_saturating_witness :
  GasConsumed (consume_all [60; 30; MaxUint64] (basicGasMeter 100 0)) = MaxUint64.
Proof.
  refine (proj1 (basicGasMeter_saturating 100 0 [60; 30; MaxUint64] 5 "x" _ _ _ _)).
  - done.
  - done.
  - repeat constructor; done.
  - done.
Defined.

(** The infinite meter forgets what was consumed when the counter overflows. *)
Lemma infiniteGasMeter_overflow_resets :
  ConsumeGas 1 "x" (infiniteGasMeter MaxUint64) = (Panic (ErrorGasOverflow "x"), infiniteGasMeter 0).
Proof. reflexivity. Qed.

(** ** The gas store *)

(** Costs small enough that no product with a length wraps. *)
Definition config_ok (cfg : GasConfig) : Prop :=
  Forall (λ z, 0 <= z < 2 ^ 32)
    [HasCost cfg; DeleteCost cfg; ReadCostFlat cfg; ReadCostPerByte cfg; WriteCostFlat cfg; WriteCostPerByte cfg;
     IterNextCostFlat cfg].
Lemma KVGasConfig_ok : config_ok KVGasConfig.
Proof. repeat constructor; cbn; lia. Qed.

Lemma per_byte_exact c bz :
  0 <= c < 2 ^ 32 → str_len (default "" bz) <= MaxValueLength → per_byte c bz = c * str_len (default "" bz).
Proof.
  intros Hc Hl. unfold per_byte. apply wrap_uint64_id.
  assert (0 <= str_len (default "" bz) < 2 ^ 31) as Hn.
  { split; [apply Nat2Z.is_nonneg|]. unfold MaxValueLength in Hl. change (Z.shiftl 1 31) with (2 ^ 31) in Hl. lia. }
  split; [nia|]. apply (Z.lt_le_trans _ (2 ^ 32 * 2 ^ 31)); [|done]. nia.
Qed.
Lemma valid_key_len k : valid_key k → str_len k <= MaxValueLength.
Proof.
  unfold valid_key, AssertValidKey. intros H. apply outcome_bind_Ok in H as (? & _ & H%guard_panic_Ok%Z.ltb_ge).
  transitivity MaxKeyLength; [done|]. vm_compute. discriminate.
Qed.
Lemma valid_value_len v : valid_value v → str_len v <= MaxValueLength.
Proof. intros H%guard_panic_Ok%Z.ltb_ge. exact H. Qed.

Definition read_cost (cfg : GasConfig) (k : string) (v : option string) : Z :=
  ReadCostFlat cfg + ReadCostPerByte cfg * (str_len k + str_len (default "" v)).
Definition write_cost (cfg : GasConfig) (k v : string) : Z :=
  WriteCostFlat cfg + WriteCostPerByte cfg * (str_len k + str_len v).

Lemma cfg_range cfg f : config_ok cfg → f ∈ [HasCost; DeleteCost; ReadCostFlat; ReadCostPerByte; WriteCostFlat; WriteCostPerByte; IterNextCostFlat] →
  0 <= f cfg < 2 ^ 32.
Proof.
  intros Hcfg Hf. unfold config_ok in Hcfg. rewrite Forall_forall in Hcfg. apply Hcfg.
  set_unfold in Hf. set_unfold. naive_solver.
Qed.
Lemma cfg_uint64 cfg f : config_ok cfg → f ∈ [HasCost; DeleteCost; ReadCostFlat; ReadCostPerByte; WriteCostFlat; WriteCostPerByte; IterNextCostFlat] →
  uint64_range (f cfg).
Proof. intros Hcfg Hf. apply (cfg_range cfg f Hcfg) in Hf. unfold uint64_range, MaxUint64. lia. Qed.
Lemma per_byte_range c bz : uint64_range (per_byte c bz).
Proof.
  unfold per_byte, wrap_uint64, uint64_range, MaxUint64. set (x := c * _).
  pose proof (Z.mod_pos_bound x (2 ^ 64) ltac:(done)). lia.
Qed.

Section GasFacts.
Context {S I : Type} {HKV : KVStore S I} {HI : Iterator I} {HL : KVStoreLaws S I}.
Variable limit : Z.
Hypothesis Hlimit : 0 <= limit < MaxUint64.

Definition metered (c : Z) (p : S) : GasStore S := mkGasStore (basicGasMeter limit c) p.

Lemma metered_eq c c' p : c = c' → metered c p = metered c' p.
Proof. by intros ->. Qed.

(** Within the limit the computation ends in [Q]; past it, it panics with the
    contents of the parent as before and the meter past its limit. *)
Definition gas_spec {A} (m : GoM (GasStore S) A) (c cost : Z) (p : S) (Q : outcome A * GasStore S → Prop) : Prop :=
  (c + cost <= limit → Q (m (metered c p))) ∧
  (limit < c + cost → ∃ e c' p', m (metered c p) = (Panic e, metered c' p') ∧ limit < c' ∧ kv_view p' = kv_view p).

Lemma gas_charge {A} a desc (rest : unit → GoM (GasStore S) A) c cost p Q :
  0 <= c <= limit → uint64_range a → 0 <= cost →
  (c + a <= limit → gas_spec (rest tt) (c + a) cost p Q) →
  gas_spec (charge a desc ≫= rest) c (a + cost) p Q.
Proof.
  intros Hc Ha Hcost Hrest. assert (uint64_range c) as Hc' by (unfold uint64_range; lia).
  assert (charge a desc (metered c p) =
    (let '(r, g) := ConsumeGas a desc (basicGasMeter limit c) in (r, mkGasStore g p))) as Hch by done.
  rewrite ConsumeGas_basic in Hch by done. unfold uint64_range in Ha.
  destruct (Z.ltb_spec MaxUint64 (c + a)) as [H1|H1]; [|destruct (Z.ltb_spec limit (c + a)) as [H2|H2]].
  - split; [lia|]. intros _. rewrite (GoM_bind_panic _ _ _ _ _ Hch). eexists _, MaxUint64, p. split; [done|]. split; [lia|done].
  - split; [lia|]. intros _. rewrite (GoM_bind_panic _ _ _ _ _ Hch). eexists _, (c + a), p. done.
  - destruct (Hrest ltac:(lia)) as [HA HB]. split; intros H; rewrite (GoM_bind_run _ _ _ _ _ Hch);
      [apply HA|apply HB]; lia.
Qed.
Lemma gas_parent_step {A B} (m : GoM S A) (f : A → GoM (GasStore S) B) c cost p a p1 Q :
  m p = (Ok a, p1) → kv_view p1 = kv_view p → gas_spec (f a) c cost p1 Q → gas_spec (on_gas_parent m ≫= f) c cost p Q.
Proof.
  intros Hm Hv [HA HB]. assert (on_gas_parent m (metered c p) = (Ok a, metered c p1)) as E.
  { unfold on_gas_parent. cbn. by rewrite Hm. }
  split; intros H; rewrite (GoM_bind_run _ _ _ _ _ E); [by apply HA|]. rewrite <- Hv. by apply HB.
Qed.
Lemma gas_last {A} (m : GoM (GasStore S) A) c p (Q : _ → Prop) : c <= limit → Q (m (metered c p)) → gas_spec m c 0 p Q.
Proof. intros Hc HQ. split; intros; [done|lia]. Qed.
Lemma gas_assert {A B} (m : outcome A) (f : A → GoM (GasStore S) B) c cost p a Q :
  m = Ok a → gas_spec (f a) c cost p Q → gas_spec (liftM m ≫= f) c cost p Q.
Proof. intros Hm [HA HB]. split; intros H; rewrite (liftM_bind_run _ _ _ _ Hm); auto. Qed.

Variable cfg : GasConfig.
Hypothesis Hcfg : config_ok cfg.

Lemma Gas_Set_spec k v c p : 0 <= c <= limit → kv_ok p → kv_key (S := S) k → valid_value v →
  gas_spec (Gas_Set cfg k (Some v)) c (write_cost cfg k v) p
    (λ r, ∃ p', r = (Ok tt, metered (c + write_cost cfg k v) p') ∧ kv_ok p' ∧ kv_view p' = <[k := v]> (kv_view p)).
Proof.
  intros Hc Hok Hk Hv. pose proof (cfg_uint64 cfg WriteCostFlat Hcfg ltac:(set_solver)). pose proof (per_byte_range (WriteCostPerByte cfg) (Some k)) as Rk.
  pose proof (per_byte_range (WriteCostPerByte cfg) (Some v)) as Rv. pose proof (cfg_range cfg WriteCostPerByte Hcfg ltac:(set_solver)) as Hw.
  assert (write_cost cfg k v = WriteCostFlat cfg + (per_byte (WriteCostPerByte cfg) (Some k) + (per_byte (WriteCostPerByte cfg) (Some v) + 0))) as Ew.
  { rewrite (per_byte_exact _ (Some k)) by (done || by apply valid_key_len, (kv_key_valid (S := S))).
    rewrite (per_byte_exact _ (Some v)) by (done || by apply valid_value_len). unfold write_cost. cbn [default from_option id]. lia. }
  rewrite Ew. unfold Gas_Set, uint64_range in *.
  eapply gas_assert; [exact (kv_key_valid _ Hk)|]. eapply gas_assert; [exact Hv|].
  apply gas_charge; [lia|done|lia|intros ?]. apply gas_charge; [lia|done|lia|intros ?]. apply gas_charge; [lia|done|lia|intros ?].
  apply gas_last; [lia|]. destruct (kv_Set_spec k v p Hok Hk Hv) as (p' & Hs & Hok' & Hview). exists p'.
  split; [|done]. unfold on_gas_parent. cbn [gas_parent metered]. rewrite Hs. f_equal. apply metered_eq. lia.
Qed.
Lemma Gas_Delete_spec k c p : 0 <= c <= limit → kv_ok p → kv_key (S := S) k →
  gas_spec (Gas_Delete cfg k) c (DeleteCost cfg) p
    (λ r, ∃ p', r = (Ok tt, metered (c + DeleteCost cfg) p') ∧ kv_ok p' ∧ kv_view p' = delete k (kv_view p)).
Proof.
  intros Hc Hok Hk. pose proof (cfg_uint64 cfg DeleteCost Hcfg ltac:(set_solver)) as Hd.
  rewrite <- (Z.add_0_r (DeleteCost cfg)) at 1. apply gas_charge; [lia|done|lia|intros ?]. apply gas_last; [lia|].
  destruct (kv_Delete_spec k p Hok Hk) as (p' & Hs & Hok' & Hview). exists p'.
  split; [|done]. unfold on_gas_parent. cbn [gas_parent metered]. by rewrite Hs.
Qed.
Lemma Gas_Has_spec k c p : 0 <= c <= limit → kv_ok p → kv_key (S := S) k →
  gas_spec (Gas_Has cfg k) c (HasCost cfg) p
    (λ r, ∃ p', r = (Ok (bool_decide (is_Some (kv_view p !! k))), metered (c + HasCost cfg) p') ∧ kv_ok p' ∧
                kv_view p' = kv_view p).
Proof.
  intros Hc Hok Hk. pose proof (cfg_uint64 cfg HasCost Hcfg ltac:(set_solver)) as Hd.
  rewrite <- (Z.add_0_r (HasCost cfg)) at 1. apply gas_charge; [lia|done|lia|intros ?]. apply gas_last; [lia|].
  destruct (kv_Has_spec k p Hok Hk) as (p' & Hs & Hok' & Hview). exists p'.
  split; [|done]. unfold on_gas_parent. cbn [gas_parent metered]. by rewrite Hs.
Qed.
Lemma Gas_Get_spec k c p : 0 <= c <= limit → kv_ok p → kv_key (S := S) k → (∀ v, kv_view p !! k = Some v → valid_value v) →
  gas_spec (Gas_Get cfg k) c (read_cost cfg k (kv_view p !! k)) p
    (λ r, ∃ p', r = (Ok (kv_view p !! k), metered (c + read_cost cfg k (kv_view p !! k)) p') ∧ kv_ok p' ∧
                kv_view p' = kv_view p).
Proof.
  intros Hc Hok Hk Hv. pose proof (cfg_uint64 cfg ReadCostFlat Hcfg ltac:(set_solver)). set (v := kv_view p !! k).
  pose proof (per_byte_range (ReadCostPerByte cfg) (Some k)) as Rk.
  pose proof (per_byte_range (ReadCostPerByte cfg) v) as Rv. pose proof (cfg_range cfg ReadCostPerByte Hcfg ltac:(set_solver)) as Hw.
  assert (str_len (default "" v) <= MaxValueLength) as Lv.
  { subst v. destruct (kv_view p !! k) as [v|]; [by apply valid_value_len, Hv|]. vm_compute. discriminate. }
  assert (read_cost cfg k v = ReadCostFlat cfg + (per_byte (ReadCostPerByte cfg) (Some k) + (per_byte (ReadCostPerByte cfg) v + 0))) as Ew.
  { rewrite (per_byte_exact _ (Some k)), (per_byte_exact _ v) by (done || by apply valid_key_len, (kv_key_valid (S := S))). unfold read_cost. cbn [default from_option id]. lia. }
  rewrite Ew. unfold Gas_Get, uint64_range in *. apply gas_charge; [lia|done|lia|intros ?].
  destruct (kv_Get_spec k p Hok Hk) as (p1 & Hg & Hok1 & Hview). fold v in Hg.
  eapply gas_parent_step; [exact Hg|done|].
  apply gas_charge; [lia|done|lia|intros ?]. apply gas_charge; [lia|done|lia|intros ?].
  apply gas_last; [lia|]. exists p1. split; [|done]. unfold mret, GoM_ret. f_equal. apply metered_eq. lia.
Qed.
End GasFacts.

(** C38. The gas store charges exactly the configured cost and otherwise acts
    as its parent: if the gas left covers the cost of the operation it succeeds
    with the result and the effect of the parent, and the meter has advanced by
    the cost; if not, it panics with the meter past its limit and the contents of
    the parent unchanged, so nothing is written without being paid for. *)
Theorem gas_store_charges {S I} {HKV : KVStore S I} {HI : Iterator I} {HL : KVStoreLaws S I}
    cfg limit c (p : S) k :
  config_ok cfg → 0 <= limit < MaxUint64 → 0 <= c <= limit → kv_ok p → kv_key (S := S) k →
  (∀ v, valid_value v → gas_spec limit (Gas_Set cfg k (Some v)) c (write_cost cfg k v) p
     (λ r, ∃ p', r = (Ok tt, metered limit (c + write_cost cfg k v) p') ∧ kv_ok p' ∧ kv_view p' = <[k := v]> (kv_view p))) ∧
  ((∀ v, kv_view p !! k = Some v → valid_value v) →
   gas_spec limit (Gas_Get cfg k) c (read_cost cfg k (kv_view p !! k)) p
     (λ r, ∃ p', r = (Ok (kv_view p !! k), metered limit (c + read_cost cfg k (kv_view p !! k)) p') ∧ kv_ok p' ∧
                 kv_view p' = kv_view p)) ∧
  gas_spec limit (Gas_Delete cfg k) c (DeleteCost cfg) p
    (λ r, ∃ p', r = (Ok tt, metered limit (c + DeleteCost cfg) p') ∧ kv_ok p' ∧ kv_view p' = delete k (kv_view p)) ∧
  gas_spec limit (Gas_Has cfg k) c (HasCost cfg) p
    (λ r, ∃ p', r = (Ok (bool_decide (is_Some (kv_view p !! k))), metered limit (c + HasCost cfg) p') ∧ kv_ok p' ∧
                kv_view p' = kv_view p).
Proof.
  intros Hcfg Hl Hc Hok Hk. split; [|split; [|split]].
  - intros v Hv. by apply Gas_Set_spec.
  - intros Hv. by apply Gas_Get_spec.
  - by apply Gas_Delete_spec.
  - by apply Gas_Has_spec.
Qed.
Lemma gas_store_charges_witness :
  ∃ p' : gmap string string,
    Gas_Set KVGasConfig "key" (Some "value") (metered 5000 100 ∅) = (Ok tt, metered 5000 2340 p') ∧
    p' = {["key" := "value"]}.
Proof.
  destruct (gas_store_charges KVGasConfig 5000 100 (∅ : gmap string string) "key") as (Hs & _).
  - exact KVGasConfig_ok.
  - split; [lia|vm_compute; reflexivity].
  - lia.
  - exact Logic.I.
  - reflexivity.
  - destruct (Hs "value" eq_refl) as [Hok _]. destruct Hok as (p' & H1 & _ & H2); [vm_compute; discriminate|].
    exists p'. split; [exact H1|exact H2].
Defined.

(** ** Iterating under gas *)

Section GasIteration.
Context {S I : Type} {HKV : KVStore S I} {HI : Iterator I} {HL : KVStoreLaws S I}.
Variable cfg : GasConfig.

(** [for ; gi.Valid(); gi.Next() { ... gi.Key(), gi.Value() ... }] *)
Fixpoint gas_walk (fuel : nat) (gi : I) : GoM (GasStore S) (list item) :=
  match fuel with
  | O => panicM "out of fuel"
  | Datatypes.S fuel =>
      if it_Valid gi then
        key ← liftM (it_Key gi);
        value ← liftM (it_Value gi);
        gi ← gasIterator_Next cfg gi;
        l ← gas_walk fuel gi;
        mret ((key, value) :: l)
      else mret []
  end.

Definition item_cost (x : item) : Z := ReadCostPerByte cfg * (str_len x.1 + str_len (default "" x.2)).
Definition seek_cost (l : list item) : Z :=
  match l with [] => 0 | x :: _ => item_cost x end + IterNextCostFlat cfg.
(** Creating the iterator charges the first item, and each [Next] charges the
    item it leaves. *)
Fixpoint walk_cost (l : list item) : Z :=
  match l with [] => 0 | x :: l' => seek_cost l + walk_cost l' end.
Definition iteration_cost (l : list item) : Z := seek_cost l + walk_cost l.

Hypothesis Hcfg : config_ok cfg.

Definition item_ok (x : item) : Prop := str_len x.1 <= MaxValueLength ∧ str_len (default "" x.2) <= MaxValueLength.

Lemma item_cost_nonneg x : 0 <= item_cost x.
Proof.
  unfold item_cost, str_len. pose proof (cfg_range cfg ReadCostPerByte Hcfg ltac:(set_solver)). nia.
Qed.
Lemma seek_cost_nonneg l : 0 <= seek_cost l.
Proof.
  unfold seek_cost. pose proof (cfg_range cfg IterNextCostFlat Hcfg ltac:(set_solver)).
  destruct l as [|x l]; [lia|]. pose proof (item_cost_nonneg x). lia.
Qed.
Lemma walk_cost_nonneg l : 0 <= walk_cost l.
Proof. induction l as [|x l IH]; cbn [walk_cost]; [lia|]. pose proof (seek_cost_nonneg (x :: l)). lia. Qed.

Variable limit : Z.
Hypothesis Hlimit : 0 <= limit < MaxUint64.

(** Associativity of binds, to charge one amount at a time. *)
Lemma gas_bind_assoc {A B C} (m : GoM (GasStore S) A) (f : A → GoM (GasStore S) B) (g : B → GoM (GasStore S) C) c cost p Q :
  gas_spec limit (m ≫= (λ a, f a ≫= g)) c cost p Q → gas_spec limit ((m ≫= f) ≫= g) c cost p Q.
Proof.
  assert (((m ≫= f) ≫= g) (metered limit c p) = (m ≫= (λ a, f a ≫= g)) (metered limit c p)) as E.
  { unfold mbind, GoM_bind. by destruct (m (metered limit c p)) as [[a| |] s]. }
  unfold gas_spec. by rewrite E.
Qed.

Lemma consumeSeekGas_spec {A} gi l (rest : unit → GoM (GasStore S) A) c cost p Q :
  0 <= c <= limit → 0 <= cost → yields gi l → Forall item_ok l →
  (c + seek_cost l <= limit → gas_spec limit (rest tt) (c + seek_cost l) cost p Q) →
  gas_spec limit (consumeSeekGas cfg gi ≫= rest) c (seek_cost l + cost) p Q.
Proof.
  intros Hc Hcost Hy Hl Hrest. pose proof (cfg_uint64 cfg IterNextCostFlat Hcfg ltac:(set_solver)) as Hf.
  unfold consumeSeekGas. destruct l as [|[k v] l].
  - assert (it_Valid gi = false) as -> by (by inversion Hy). unfold seek_cost in *.
    apply gas_bind_assoc. change (0 + IterNextCostFlat cfg) with (IterNextCostFlat cfg) in *.
    change (?m ≫= ?f) with (m ≫= f). split; intros H.
    + apply (gas_charge limit Hlimit _ GasIterNextCostFlatDesc rest c cost p Q); [lia|done|lia|done|lia].
    + by apply (gas_charge limit Hlimit _ GasIterNextCostFlatDesc rest c cost p Q).
  - inversion Hy as [|? gi' ? ? ? Hv Hk Hvl Hn Hy']; subst. rewrite Hv. apply Forall_cons in Hl as [[Lk Lv] _]. cbn in Lk, Lv.
    pose proof (cfg_range cfg ReadCostPerByte Hcfg ltac:(set_solver)) as Hr.
    pose proof (per_byte_range (ReadCostPerByte cfg) (Some k)) as Rk. pose proof (per_byte_range (ReadCostPerByte cfg) v) as Rv.
    assert (seek_cost ((k, v) :: l) = per_byte (ReadCostPerByte cfg) (Some k) + (per_byte (ReadCostPerByte cfg) v + IterNextCostFlat cfg)) as Es.
    { rewrite (per_byte_exact _ (Some k)), (per_byte_exact _ v) by done. unfold seek_cost, item_cost. cbn [fst snd default from_option id]. lia. }
    rewrite Es in *. rewrite <- !Z.add_assoc. unfold uint64_range in *.
    apply gas_bind_assoc, gas_bind_assoc. eapply gas_assert; [exact Hk|].
    apply gas_bind_assoc. eapply gas_assert; [exact Hvl|]. apply gas_bind_assoc.
    apply gas_charge; [done|lia|done|lia|intros ?]. apply gas_charge; [done|lia|done|lia|intros ?].
    apply gas_charge; [done|lia|done|lia|intros ?]. rewrite <- !Z.add_assoc. apply Hrest. lia.
Qed.

Lemma gas_walk_spec l : ∀ fuel gi c p,
  0 <= c <= limit → yields gi l → Forall item_ok l → (length l < fuel)%nat →
  gas_spec limit (gas_walk fuel gi) c (walk_cost l) p (λ r, r = (Ok l, metered limit (c + walk_cost l) p)).
Proof.
  induction l as [|[k v] l IH]; intros fuel gi c p Hc Hy Hl Hf; (destruct fuel as [|fuel]; [cbn in Hf; lia|]); cbn [gas_walk walk_cost].
  - assert (it_Valid gi = false) as -> by (by inversion Hy). apply gas_last; [lia|]. unfold mret, GoM_ret. f_equal.
    apply metered_eq. lia.
  - inversion Hy as [|? gi' ? ? ? Hv Hk Hvl Hn Hy']; subst. rewrite Hv. pose proof (walk_cost_nonneg l).
    eapply gas_assert; [exact Hk|]. eapply gas_assert; [exact Hvl|]. apply gas_bind_assoc.
    apply consumeSeekGas_spec; [lia|lia|done|done|]. intros Hs. eapply gas_assert; [exact Hn|].
    apply Forall_cons in Hl as [_ Hl]. pose proof (seek_cost_nonneg ((k, v) :: l)).
    destruct (IH fuel gi' (c + seek_cost ((k, v) :: l)) p) as [HA HB]; [lia|done|done|cbn in Hf; lia|]. split; intros H1.
    + rewrite (GoM_bind_run _ _ _ _ _ (HA H1)). unfold mret, GoM_ret. f_equal. apply metered_eq. lia.
    + destruct (HB H1) as (e & c' & p' & He & Hc' & Hp'). exists e, c', p'. by rewrite (GoM_bind_panic _ _ _ _ _ He).
Qed.
End GasIteration.

(** A complete iteration under gas, in either direction, visits the items
    of the domain in order and costs, beside the flat cost of creating the
    iterator and of each step, the bytes of every item once and those of the first
    item a second time; if the gas left does not cover that, it panics with the
    meter past its limit and the contents of the store unchanged. *)
Theorem gas_iteration_charges {S I} {HKV : KVStore S I} {HI : Iterator I} {HL : KVStoreLaws S I}
    cfg limit c (p : S) asc start end_ :
  config_ok cfg → 0 <= limit < MaxUint64 → 0 <= c <= limit → kv_ok p → valid_bounds start end_ →
  map_Forall (λ k v, valid_key k ∧ valid_value v) (kv_view p) →
  let l := range asc start end_ (Some <$> kv_view p) in
  ∃ n, ∀ fuel, (n <= fuel)%nat →
    gas_spec limit (gi ← Gas_iterator cfg fuel start end_ asc; gas_walk cfg fuel gi) c (iteration_cost cfg l) p
      (λ r, ∃ p', r = (Ok l, metered limit (c + iteration_cost cfg l) p') ∧ kv_ok p' ∧ kv_view p' = kv_view p).
Proof.
  intros Hcfg Hl Hc Hok Hb Hv l.
  assert (∃ n p', kv_ok p' ∧ kv_view p' = kv_view p ∧ ∀ fuel, (n <= fuel)%nat → ∃ it,
    (if asc then kv_Iterator fuel start end_ else kv_ReverseIterator fuel start end_) p = (Ok it, p') ∧ yields it l)
    as (n & p' & Hok' & Hvp & Hn).
  { destruct asc; [by apply kv_Iterator_spec|by apply kv_ReverseIterator_spec]. }
  exists (n `max` Datatypes.S (length l))%nat. intros fuel Hf. destruct (Hn fuel ltac:(lia)) as (it & Hit & Hy).
  assert (Forall item_ok l) as Hil.
  { apply Forall_forall. intros [k v] [Hk _]%elem_of_range. rewrite lookup_fmap in Hk.
    apply fmap_Some in Hk as (w & Hw & ->). destruct (Hv _ _ Hw) as [Vk Vw]. split; [by apply valid_key_len|].
    by apply valid_value_len. }
  pose proof (walk_cost_nonneg cfg Hcfg l). pose proof (seek_cost_nonneg cfg Hcfg l). unfold iteration_cost.
  unfold Gas_iterator. apply gas_bind_assoc. eapply gas_parent_step; [exact Hit|done|]. apply gas_bind_assoc.
  apply (consumeSeekGas_spec cfg Hcfg limit Hl it l); [lia|lia|exact Hy|exact Hil|]. intros Hs.
  destruct (gas_walk_spec cfg Hcfg limit Hl l fuel it (c + seek_cost cfg l) p') as [HA HB]; [lia|done|done|lia|].
  split; [|exact HB]. intros H1. exists p'. split; [|done]. etransitivity; [exact (HA H1)|]. f_equal. apply metered_eq. lia.
Qed.
Lemma gas_iteration_charges_witness :
  ∃ n, ∀ fuel, (n <= fuel)%nat →
    (gi ← Gas_iterator KVGasConfig fuel None None true; gas_walk KVGasConfig fuel gi)
      (metered 1000 0 ({["a" := "xy"; "b" := ""]} : gmap string string)) =
    (Ok [("a", Some "xy"); ("b", Some "")], metered 1000 111 {["a" := "xy"; "b" := ""]}).
Proof.
  destruct (gas_iteration_charges KVGasConfig 1000 0 ({["a" := "xy"; "b" := ""]} : gmap string string) true None None)
    as [n Hn].
  - exact KVGasConfig_ok.
  - split; [lia|vm_compute; reflexivity].
  - lia.
  - exact Logic.I.
  - by split.
  - change (map_Forall (λ k v, valid_key k ∧ valid_value v) ({["a" := "xy"; "b" := ""]} : gmap string string)).
    apply map_Forall_insert_2; [by split|]. apply map_Forall_singleton. by split.
  - exists n. intros fuel Hf. destruct (Hn fuel Hf) as [HA _].
    destruct HA as (p' & H1 & _ & H2); [vm_compute; discriminate|]. rewrite H1. cbn in H2. rewrite H2.
    vm_compute. reflexivity.
Defined.
