(* ===== verification/Validator.v ===== *)
(** * Validators: x/staking/types/validator.go and commission.go

    A validator holds tokens on behalf of its delegators, who own shares of
    them.  The exchange rate between shares and tokens is one at the first
    delegation; slashing lowers it, and rounding moves it.  Tokens are integers
    ([math.Int]), shares decimals ([math.LegacyDec], the raw integer of 10^-18
    units as in LegacyDec.v).  The key of a validator is [None] where its [Any] has
    no cached value.  The fields kept for other modules (unbonding ids and holds)
    are left out. *)
From S2P Require Import Prelude MathInt LegacyDec.

Definition ErrInsufficientShares : string := "insufficient delegation shares".
Definition ErrCommissionNegative : string := "commission must be positive".
Definition ErrCommissionHuge : string := "commission cannot be more than 100%".
Definition ErrCommissionGTMaxRate : string := "commission cannot be more than the max rate".
Definition ErrCommissionUpdateTime : string := "commission cannot be changed more than once in 24h".
Definition ErrCommissionChangeRateNegative : string := "commission change rate must be positive".
Definition ErrCommissionChangeRateGTMaxRate : string := "commission change rate cannot be more than the max rate".
Definition ErrCommissionGTMaxChangeRate : string := "commission cannot be changed more than max change rate".

Inductive BondStatus := Unspecified | Unbonded | Unbonding | Bonded.
#[global] Instance BondStatus_eq_dec : EqDecision BondStatus.
Proof. solve_decision. Defined.

Record Commission := mkCommission { Rate : Z; MaxRate : Z; MaxChangeRate : Z; UpdateTime : Z }.
(** A public key; its address is computed by the crypto package. *)
Record PubKey := mkPubKey { pk_Type : string; pk_Bytes : string }.
#[global] Instance PubKey_eq_dec : EqDecision PubKey.
Proof. solve_decision. Defined.
Record Metadata := mkMetadata { ProfilePicUri : string; SocialHandleUris : list string }.
Record Description := mkDescription {
  Moniker : string;
  Identity : string;
  Website : string;
  SecurityContact : string;
  Details : string;
  Metadata_of : option Metadata
}.
Record Validator := mkValidator {
  OperatorAddress : string;
  ConsensusPubkey : option PubKey;
  Jailed : bool;
  Status : BondStatus;
  Tokens : Z;
  DelegatorShares : Z;
  UnbondingHeight : Z;
  UnbondingTime : Z;
  v_Commission : Commission;
  MinSelfDelegation : Z;
  v_Description : Description
}.

(** ** Descriptions *)

Definition ErrInvalidRequest : string := "invalid request".
Definition MaxMonikerLength : nat := 70.
Definition MaxIdentityLength : nat := 3000.
Definition MaxWebsiteLength : nat := 140.
Definition MaxSecurityContactLength : nat := 140.
Definition MaxDetailsLength : nat := 280.
Definition DoNotModifyDesc : string := "[do-not-modify]".

Definition EnsureLength (d : Description) : outcome Description :=
  if (MaxMonikerLength <? String.length (Moniker d))%nat then Err ErrInvalidRequest
  else if (MaxIdentityLength <? String.length (Identity d))%nat then Err ErrInvalidRequest
  else if (MaxWebsiteLength <? String.length (Website d))%nat then Err ErrInvalidRequest
  else if (MaxSecurityContactLength <? String.length (SecurityContact d))%nat then Err ErrInvalidRequest
  else if (MaxDetailsLength <? String.length (Details d))%nat then Err ErrInvalidRequest
  else Ok d.
(** [uri_ok] says whether [url.ParseRequestURI] of net/url accepts a string. *)
Definition Metadata_Validate (uri_ok : string → bool) (m : Metadata) : outcome unit :=
  _ ← guard_err (negb (str_eq (ProfilePicUri m) "") && negb (uri_ok (ProfilePicUri m))) ErrInvalidRequest;
  guard_err (negb (forallb uri_ok (SocialHandleUris m))) ErrInvalidRequest.
Definition Description_Validate (uri_ok : string → bool) (d : Description) : outcome Description :=
  _ ← (match Metadata_of d with Some m => Metadata_Validate uri_ok m | None => Ok tt end);
  EnsureLength d.
Definition Description_IsEmpty (d : Description) : bool :=
  str_eq (Moniker d) "" && str_eq (Details d) "" && str_eq (Identity d) "" && str_eq (Website d) "" &&
  str_eq (SecurityContact d) "" &&
  match Metadata_of d with
  | None => true
  | Some m => str_eq (ProfilePicUri m) "" && (length (SocialHandleUris m) =? 0)%nat
  end.
Definition keep_or (old new : string) : string := if str_eq new DoNotModifyDesc then old else new.
(** The picture of a description that has no metadata is read through a nil
    pointer. *)
Definition UpdateDescription (uri_ok : string → bool) (d2 d : Description) : outcome Description :=
  metadata ← match Metadata_of d2 with
             | None => Ok None
             | Some m =>
                 if str_eq (ProfilePicUri m) DoNotModifyDesc then
                   match Metadata_of d with
                   | Some m0 => Ok (Some (mkMetadata (ProfilePicUri m0) (SocialHandleUris m)))
                   | None => Panic "invalid memory address or nil pointer dereference"
                   end
                 else Ok (Some m)
             end;
  Description_Validate uri_ok
    (mkDescription (keep_or (Moniker d) (Moniker d2)) (keep_or (Identity d) (Identity d2)) (keep_or (Website d) (Website d2))
       (keep_or (SecurityContact d) (SecurityContact d2)) (keep_or (Details d) (Details d2)) metadata).

(** ** Commission: commission.go *)

Definition NewCommission (rate maxRate maxChangeRate : Z) : Commission := mkCommission rate maxRate maxChangeRate 0.
Definition NewCommissionWithTime (rate maxRate maxChangeRate updatedAt : Z) : Commission :=
  mkCommission rate maxRate maxChangeRate updatedAt.
Definition Commission_Validate (c : Commission) : outcome unit :=
  if Dec_IsNegative (MaxRate c) then Err ErrCommissionNegative
  else if Dec_GT (MaxRate c) LegacyOneDec then Err ErrCommissionHuge
  else if Dec_IsNegative (Rate c) then Err ErrCommissionNegative
  else if Dec_GT (Rate c) (MaxRate c) then Err ErrCommissionGTMaxRate
  else if Dec_IsNegative (MaxChangeRate c) then Err ErrCommissionChangeRateNegative
  else if Dec_GT (MaxChangeRate c) (MaxRate c) then Err ErrCommissionChangeRateGTMaxRate
  else Ok tt.
(** Times are nanoseconds. *)
Definition day : Z := 24 * 3600 * 10 ^ 9.
Definition ValidateNewRate (newRate blockTime : Z) (c : Commission) : outcome unit :=
  if blockTime - UpdateTime c <? day then Err ErrCommissionUpdateTime
  else if Dec_IsNegative newRate then Err ErrCommissionNegative
  else if Dec_GT newRate (MaxRate c) then Err ErrCommissionGTMaxRate
  else change ← Dec_Sub newRate (Rate c);
       if Dec_GT change (MaxChangeRate c) then Err ErrCommissionGTMaxChangeRate else Ok tt.
(** [UpdateValidatorCommission] of keeper/validator.go. *)
Definition UpdateValidatorCommission (minCommissionRate blockTime newRate : Z) (v : Validator) : outcome Commission :=
  let c := v_Commission v in
  _ ← ValidateNewRate newRate blockTime c;
  if Dec_LT newRate minCommissionRate then Err "cannot set validator commission to less than minimum rate"
  else Ok (mkCommission newRate (MaxRate c) (MaxChangeRate c) blockTime).

(** ** Shares and tokens: validator.go *)

Definition NewValidator (operator : string) (pubKey : option PubKey) (description : Description) : Validator :=
  mkValidator operator pubKey false Unbonded ZeroInt LegacyZeroDec 0 0 (NewCommission LegacyZeroDec LegacyZeroDec LegacyZeroDec) OneInt description.
Definition SetInitialCommission (commission : Commission) (v : Validator) : outcome Validator :=
  _ ← Commission_Validate commission;
  Ok (mkValidator (OperatorAddress v) (ConsensusPubkey v) (Jailed v) (Status v) (Tokens v) (DelegatorShares v) (UnbondingHeight v) (UnbondingTime v)
        commission (MinSelfDelegation v) (v_Description v)).

Definition set_tokens_shares (tokens shares : Z) (v : Validator) : Validator :=
  mkValidator (OperatorAddress v) (ConsensusPubkey v) (Jailed v) (Status v) tokens shares (UnbondingHeight v) (UnbondingTime v)
    (v_Commission v) (MinSelfDelegation v) (v_Description v).
Definition UpdateStatus (newStatus : BondStatus) (v : Validator) : Validator :=
  mkValidator (OperatorAddress v) (ConsensusPubkey v) (Jailed v) newStatus (Tokens v) (DelegatorShares v) (UnbondingHeight v) (UnbondingTime v)
    (v_Commission v) (MinSelfDelegation v) (v_Description v).


Definition IsBonded (v : Validator) : bool := bool_decide (Status v = Bonded).
Definition IsUnbonded (v : Validator) : bool := bool_decide (Status v = Unbonded).
Definition IsUnbonding (v : Validator) : bool := bool_decide (Status v = Unbonding).

Definition InvalidExRate (v : Validator) : bool := Int_IsZero (Tokens v) && Dec_IsPositive (DelegatorShares v).
Definition TokensFromShares (shares : Z) (v : Validator) : outcome Z :=
  d ← Dec_MulInt shares (Tokens v); Dec_Quo d (DelegatorShares v).
Definition TokensFromSharesTruncated (shares : Z) (v : Validator) : outcome Z :=
  d ← Dec_MulInt shares (Tokens v); Dec_QuoTruncate d (DelegatorShares v).
Definition TokensFromSharesRoundUp (shares : Z) (v : Validator) : outcome Z :=
  d ← Dec_MulInt shares (Tokens v); Dec_QuoRoundUp d (DelegatorShares v).
Definition SharesFromTokens (amt : Z) (v : Validator) : outcome Z :=
  if Int_IsZero (Tokens v) then Err ErrInsufficientShares
  else d ← Dec_MulInt (DelegatorShares v) amt; Dec_QuoInt d (Tokens v).
Definition SharesFromTokensTruncated (amt : Z) (v : Validator) : outcome Z :=
  if Int_IsZero (Tokens v) then Err ErrInsufficientShares
  else d ← Dec_MulInt (DelegatorShares v) amt; t ← LegacyNewDecFromInt (Tokens v); Dec_QuoTruncate d t.

Definition BondedTokens (v : Validator) : Z := if IsBonded v then Tokens v else ZeroInt.
(** [TokensToConsensusPower] and [TokensFromConsensusPower] of types/staking.go. *)
Definition TokensToConsensusPower (tokens powerReduction : Z) : outcome Z :=
  q ← Int_Quo tokens powerReduction; Int_Int64 q.
Definition TokensFromConsensusPower (power powerReduction : Z) : outcome Z := Int_Mul power powerReduction.
Definition PotentialConsensusPower (r : Z) (v : Validator) : outcome Z := TokensToConsensusPower (Tokens v) r.
Definition ConsensusPower (r : Z) (v : Validator) : outcome Z := if IsBonded v then PotentialConsensusPower r v else Ok 0.

Definition AddTokensFromDel (amount : Z) (v : Validator) : outcome (Validator * Z) :=
  issuedShares ← (if Dec_IsZero (DelegatorShares v) then LegacyNewDecFromInt amount else must (SharesFromTokens amount v));
  tokens ← Int_Add (Tokens v) amount;
  shares ← Dec_Add (DelegatorShares v) issuedShares;
  Ok (set_tokens_shares tokens shares v, issuedShares).
Definition RemoveTokens (tokens : Z) (v : Validator) : outcome Validator :=
  _ ← guard_panic (Int_IsNegative tokens) "should not happen: trying to remove negative tokens";
  _ ← guard_panic (Int_LT (Tokens v) tokens) "should not happen: only have fewer tokens";
  left_ ← Int_Sub (Tokens v) tokens;
  Ok (set_tokens_shares left_ (DelegatorShares v) v).
Definition RemoveDelShares (delShares : Z) (v : Validator) : outcome (Validator * Z) :=
  remainingShares ← Dec_Sub (DelegatorShares v) delShares;
  if Dec_IsZero remainingShares then Ok (set_tokens_shares ZeroInt remainingShares v, Tokens v)
  else worth ← TokensFromShares delShares v;
       issuedTokens ← Dec_TruncateInt worth;
       tokens ← Int_Sub (Tokens v) issuedTokens;
       _ ← guard_panic (Int_IsNegative tokens) "attempting to remove more tokens than available in validator";
       Ok (set_tokens_shares tokens remainingShares v, issuedTokens).

(** The computation of [ValidateUnbondAmount] in keeper/delegation.go, for a
    delegation of [delShares]. *)
Definition unbond_shares (amt delShares : Z) (v : Validator) : outcome Z :=
  shares ← SharesFromTokens amt v;
  sharesTruncated ← SharesFromTokensTruncated amt v;
  if Dec_GT sharesTruncated delShares then Err "invalid request"
  else
    tolerance ← SharesFromTokens OneInt v;
    rest ← Dec_Sub delShares shares;
    Ok (if Dec_LT rest tolerance then delShares else shares).

(** ** The arithmetic *)

(** Tokens and shares are not negative, and there are no tokens without shares. *)
Definition val_ok (v : Validator) : Prop :=
  0 <= Tokens v ∧ 0 <= DelegatorShares v ∧ (DelegatorShares v = 0 → Tokens v = 0) ∧ int_range (Tokens v).
(** The products of shares and tokens stay within the range of decimals. *)
Definition val_small (v : Validator) : Prop :=
  DelegatorShares v * Tokens v <= upperLimit ∧ DelegatorShares v <= upperLimit.

(** A quotient whose exact value is at most an integer rounds to at most it. *)
Lemma Dec_Quo_le d d2 k r : 0 < d2 → 0 <= d → d <= k * d2 → Dec_Quo d d2 = Ok r → 0 <= r <= k * precisionReuse.
Proof.
  intros H2 Hd Hle (-> & _ & _)%Dec_Quo_Ok. pose proof precisionReuse_pos as Hp.
  assert (squaredPrecisionReuse = precisionReuse * precisionReuse) as Es by reflexivity.
  assert (0 <= Z.quot (d * squaredPrecisionReuse) d2) as H0 by (apply Z.quot_pos; nia). split.
  - by apply chopPrecisionAndRound_nonneg_ge.
  - rewrite <- (chopPrecisionAndRound_exact (k * precisionReuse)). apply chopPrecisionAndRound_mono.
    rewrite Es. apply Z.quot_le_upper_bound; nia.
Qed.
Lemma Dec_TruncateInt_Ok d r : Dec_TruncateInt d = Ok r ↔ r = Z.quot d precisionReuse ∧ int_range r.
Proof. unfold Dec_TruncateInt, chopPrecisionAndTruncate. rewrite NewIntFromBigInt_Ok. naive_solver. Qed.
Lemma TokensFromShares_le shares k v r : 0 < DelegatorShares v → 0 <= shares → 0 <= Tokens v →
  shares * Tokens v <= k * DelegatorShares v → TokensFromShares shares v = Ok r → 0 <= r <= k * precisionReuse.
Proof.
  intros HS Hs HT Hle H. unfold TokensFromShares in H. go_inv. apply Dec_MulInt_Ok in H0 as [-> _].
  eapply Dec_Quo_le; [exact HS| |exact Hle|exact H]. nia.
Qed.
Lemma quot_precision d k : 0 <= d <= k * precisionReuse → 0 <= Z.quot d precisionReuse <= k.
Proof. intros H. pose proof precisionReuse_pos. split; [apply Z.quot_pos; lia|apply Z.quot_le_upper_bound; lia]. Qed.

(** What removing shares does. *)
Lemma RemoveDelShares_Ok delShares v v' t : val_ok v → 0 <= delShares <= DelegatorShares v →
  RemoveDelShares delShares v = Ok (v', t) →
  v' = set_tokens_shares (Tokens v - t) (DelegatorShares v - delShares) v ∧ 0 <= t <= Tokens v ∧
  (DelegatorShares v = delShares ∧ t = Tokens v ∨
   delShares < DelegatorShares v ∧ ∃ worth, TokensFromShares delShares v = Ok worth ∧ t = Z.quot worth precisionReuse).
Proof.
  intros (HT & HS & H0 & HR) Hd H. unfold RemoveDelShares in H. go_inv. apply Dec_Sub_Ok in H1 as [-> _].
  rewrite Dec_IsZero_eqb in H. destruct (Z.eqb_spec (DelegatorShares v - delShares) 0) as [E|E].
  - injection H as <- <-. rewrite Z.sub_diag. split; [done|]. split; [lia|]. left. lia.
  - go_inv. apply Dec_TruncateInt_Ok in H2 as [-> _]. apply Int_Sub_Ok in H3 as [-> _].
    pose proof (TokensFromShares_le delShares (Tokens v) v x ltac:(lia) ltac:(lia) HT ltac:(nia) H1) as Hb.
    apply quot_precision in Hb. split; [done|]. split; [done|]. right. split; [lia|]. eauto.
Qed.
Lemma AddTokensFromDel_Ok amount v v' s : val_ok v → 0 <= amount → AddTokensFromDel amount v = Ok (v', s) →
  v' = set_tokens_shares (Tokens v + amount) (DelegatorShares v + s) v ∧ int_range (Tokens v + amount) ∧ 0 <= s ∧
  (DelegatorShares v = 0 ∧ s = amount * precisionReuse ∨
   0 < DelegatorShares v ∧ 0 < Tokens v ∧ s = DelegatorShares v * amount / Tokens v).
Proof.
  intros (HT & HS & H0 & HR) Ha H. unfold AddTokensFromDel in H. go_inv.
  apply Int_Add_Ok in H2 as [-> HR2]. apply Dec_Add_Ok in H3 as [-> _]. split; [done|]. split; [done|].
  rewrite Dec_IsZero_eqb in H1. destruct (Z.eqb_spec (DelegatorShares v) 0) as [E|E].
  - rewrite LegacyNewDecFromInt_Ok in H1. injection H1 as <-. pose proof precisionReuse_pos. split; [nia|]. by left.
  - unfold SharesFromTokens in H1. apply must_Ok in H1. destruct (Int_IsZero (Tokens v)) eqn:Ez; [done|]. go_inv.
    apply Dec_MulInt_Ok in H as [-> _]. unfold Dec_QuoInt, Dec_QuoIntMut in H1. apply big_Quo_Ok in H1 as [-> Hne].
    rewrite Z.quot_div_nonneg by nia. split; [apply Z.div_pos; nia|]. right. split; [lia|]. split; [lia|done].
Qed.

(** ** Properties *)

(** Delegating and at once undelegating the issued shares never pays out
    more than was paid in: the rounding of shares and of tokens is never in
    favour of the delegator. *)
Theorem delegate_undelegate_no_profit amount v v1 s v2 t :
  val_ok v → 0 <= amount → AddTokensFromDel amount v = Ok (v1, s) → RemoveDelShares s v1 = Ok (v2, t) →
  0 <= t <= amount ∧ Tokens v2 = Tokens v + amount - t ∧ DelegatorShares v2 = DelegatorShares v.
Proof.
  intros Hv Ha HA HR. pose proof Hv as (HT & HS & H0 & _). pose proof precisionReuse_pos as Hp.
  apply AddTokensFromDel_Ok in HA as (-> & Hr1 & Hs & Hcase); [|done..].
  assert (val_ok (set_tokens_shares (Tokens v + amount) (DelegatorShares v + s) v)) as Hv1.
  { split; [cbn; lia|]. split; [cbn; lia|]. split; [|done]. cbn. destruct Hcase as [[E ->]|(? & _)]; [|lia].
    intros E2. assert (amount = 0) by nia. rewrite H0 by done. lia. }
  apply RemoveDelShares_Ok in HR as (-> & Ht & Hc); [|done|cbn; lia]. cbn in *.
  split; [|split; [done|lia]]. split; [lia|].
  destruct Hcase as [[E ->]|(HSp & HTp & Es)]; [lia|].
  destruct Hc as [[E _]|(_ & worth & Hw & ->)]; [lia|]. apply quot_precision.
  eapply TokensFromShares_le; [| | | |exact Hw]; cbn; [lia|done|lia|].
  assert (s * Tokens v <= DelegatorShares v * amount) by (rewrite Es; pose proof (Z.mul_div_le (DelegatorShares v * amount) (Tokens v) HTp); lia).
  nia.
Qed.
Definition key0 : PubKey := mkPubKey "ed25519" "cons".
Definition desc0 : Description := mkDescription "moniker" "" "" "" "" None.
Definition val0 : Validator := set_tokens_shares 7 (10 * precisionReuse) (NewValidator "val" (Some key0) desc0).
Lemma val0_ok : val_ok val0.
Proof. pose proof precisionReuse_pos. unfold val_ok, int_range, val0. cbn [Tokens DelegatorShares set_tokens_shares]. lia. Qed.
Lemma delegate_undelegate_no_profit_witness :
  ∃ v1 s v2 t, AddTokensFromDel 5 val0 = Ok (v1, s) ∧ RemoveDelShares s v1 = Ok (v2, t) ∧ 0 <= t <= 5 ∧ t = 5.
Proof.
  destruct (AddTokensFromDel 5 val0) as [[v1 s]| |] eqn:EA; [|by vm_compute in EA..].
  destruct (RemoveDelShares s v1) as [[v2 t]| |] eqn:ER; [|by vm_compute in EA; injection EA as <- <-; vm_compute in ER..].
  exists v1, s, v2, t. split; [done|]. split; [done|]. split.
  - eapply (delegate_undelegate_no_profit 5 val0); [apply val0_ok|done|exact EA|exact ER].
  - vm_compute in EA. injection EA as <- <-. vm_compute in ER. by injection ER.
Defined.

(** The operations on a validator's tokens and shares. *)
Inductive val_step (v : Validator) : Validator → Prop :=
| step_delegate amount v' s : 0 <= amount → AddTokensFromDel amount v = Ok (v', s) → val_step v v'
| step_unbond shares v' t : 0 <= shares <= DelegatorShares v → RemoveDelShares shares v = Ok (v', t) → val_step v v'
| step_slash tokens v' : RemoveTokens tokens v = Ok v' → val_step v v'
| step_status st : val_step v (UpdateStatus st v).

Lemma RemoveTokens_Ok tokens v v' : RemoveTokens tokens v = Ok v' →
  0 <= tokens <= Tokens v ∧ v' = set_tokens_shares (Tokens v - tokens) (DelegatorShares v) v ∧ int_range (Tokens v - tokens).
Proof.
  intros H. unfold RemoveTokens in H. go_inv. apply Int_Sub_Ok in H2 as [-> HR].
  rewrite Int_IsNegative_ltb in *. unfold Int_LT in *. rewrite int_lt_ltb in *. split; [lia|done].
Qed.
Lemma val_step_ok v v' : val_ok v → val_step v v' → val_ok v'.
Proof.
  intros Hv Hst. pose proof precisionReuse_pos. destruct Hst as [amount v' s Ha HA|shares v' t Hs HR|tokens v' HT|st]; [| | |done].
  - pose proof HA as (-> & Hr & Hs & Hc)%AddTokensFromDel_Ok; [|done..]. destruct Hv as (HT & HS & H0 & _).
    split; [cbn; lia|]. split; [cbn; lia|]. split; [|done]. cbn. destruct Hc as [[E ->]|(? & _)]; [|lia].
    intros E2. assert (amount = 0) by nia. rewrite H0 by done. lia.
  - apply RemoveDelShares_Ok in HR as (-> & Ht & Hc); [|done..]. destruct Hv as (HT & HS & H0 & HR).
    split; [cbn; lia|]. split; [cbn; lia|]. split; [|unfold int_range in *; cbn; lia]. cbn. destruct Hc as [[E ->]|[? _]]; lia.
  - apply RemoveTokens_Ok in HT as (Ht & -> & HR). destruct Hv as (HT & HS & H0 & _).
    split; [cbn; lia|]. split; [cbn; lia|]. split; [cbn; lia|done].
Qed.

(** C26. Through any sequence of delegations, unbondings, slashes and status
    changes a validator's tokens and shares stay non-negative, and a validator
    without shares has no tokens left; no unbonding of up to all shares asks for
    more tokens than there are, nor does slashing up to all tokens panic, as long
    as the product of shares and tokens is a decimal. *)
Theorem validator_invariant v v' : val_ok v → rtc val_step v v' →
  val_ok v' ∧
  (val_small v' → ∀ shares, 0 <= shares <= DelegatorShares v' → is_ok (RemoveDelShares shares v') = true) ∧
  (∀ tokens, 0 <= tokens <= Tokens v' → is_ok (RemoveTokens tokens v') = true).
Proof.
  intros Hv Hsteps. assert (val_ok v') as Hv' by (induction Hsteps; eauto using val_step_ok). split; [done|].
  destruct Hv' as (HT & HS & H0 & HR). pose proof precisionReuse_pos as Hp.
  assert (lowerLimit <= 0 <= upperLimit) as HL by (unfold lowerLimit; assert (0 <= upperLimit) by (unfold upperLimit; nia); lia).
  split.
  - intros [Hsm1 Hsm2] shares Hs. unfold RemoveDelShares.
    assert (Dec_Sub (DelegatorShares v') shares = Ok (DelegatorShares v' - shares)) as ->
      by (apply Dec_Sub_Ok; split; [done|]; unfold dec_range; lia). cbn [mbind outcome_bind].
    rewrite Dec_IsZero_eqb. destruct (Z.eqb_spec (DelegatorShares v' - shares) 0) as [|E]; [done|].
    assert (0 <= shares * Tokens v' <= Tokens v' * DelegatorShares v') as Hmul by nia.
    assert (∃ worth, TokensFromShares shares v' = Ok worth) as [worth Hw].
    { unfold TokensFromShares. rewrite (proj2 (Dec_MulInt_Ok shares (Tokens v') (shares * Tokens v'))) by (split; [done|]; unfold dec_range; lia).
      cbn [mbind outcome_bind]. eexists. apply Dec_Quo_Ok. split; [done|]. split; [lia|].
      set (q := chopPrecisionAndRound _). assert (0 <= q <= Tokens v' * precisionReuse) as Hq; [|unfold dec_range].
      { unfold q. split; [apply chopPrecisionAndRound_nonneg_ge, Z.quot_pos; [|lia]; unfold squaredPrecisionReuse; nia|].
        rewrite <- (chopPrecisionAndRound_exact (Tokens v' * precisionReuse)). apply chopPrecisionAndRound_mono.
        unfold squaredPrecisionReuse. apply Z.quot_le_upper_bound; nia. }
      unfold int_range in HR. split; [lia|]. unfold upperLimit. nia. }
    pose proof (TokensFromShares_le shares (Tokens v') v' worth ltac:(lia) ltac:(lia) HT ltac:(lia) Hw) as Hb%quot_precision.
    rewrite Hw. cbn [mbind outcome_bind].
    rewrite (proj2 (Dec_TruncateInt_Ok worth (Z.quot worth precisionReuse))) by (split; [done|]; unfold int_range in *; lia).
    cbn [mbind outcome_bind]. rewrite Int_Sub_run by (unfold int_range in *; lia).
    cbn [mbind outcome_bind]. rewrite Int_IsNegative_ltb, (proj2 (Z.ltb_ge _ _)) by lia. done.
  - intros tokens Ht. unfold RemoveTokens, Int_LT. rewrite Int_IsNegative_ltb, int_lt_ltb.
    rewrite (proj2 (Z.ltb_ge tokens 0)), (proj2 (Z.ltb_ge (Tokens v') tokens)) by lia. cbn [guard_panic mbind outcome_bind].
    by rewrite Int_Sub_run by (unfold int_range in *; lia).
Qed.
Lemma validator_invariant_witness :
  ∃ v1 s, AddTokensFromDel 5 val0 = Ok (v1, s) ∧ val_ok v1.
Proof.
  destruct (AddTokensFromDel 5 val0) as [[v1 s]| |] eqn:EA; [|by vm_compute in EA..].
  exists v1, s. split; [done|]. apply (validator_invariant val0); [apply val0_ok|].
  by apply rtc_once, (step_delegate val0 5 v1 s).
Defined.

(** How the exchange rate moves.  A delegation never lowers what the
    shares of the other delegators are worth.  An unbonding pays out the worth of
    the shares rounded to 18 decimals and then down: at most half a unit of the
    18th decimal (and 10^-18 of it) more than their exact worth.  That half unit
    can be the last token: from a validator with one token for three shares,
    unbonding all but 10^-18 of a share pays out the token, after which the
    exchange rate is invalid and the validator accepts no delegation. *)
Theorem exchange_rate_moves v :
  val_ok v → 0 < DelegatorShares v →
  (∀ amount v1 s, 0 <= amount → AddTokensFromDel amount v = Ok (v1, s) →
     Tokens v * DelegatorShares v1 <= Tokens v1 * DelegatorShares v) ∧
  (∀ shares v1 t, 0 <= shares <= DelegatorShares v → RemoveDelShares shares v = Ok (v1, t) →
     2 * precisionReuse * precisionReuse * (t * DelegatorShares v - shares * Tokens v) <= DelegatorShares v * (precisionReuse + 2)) ∧
  (let w := set_tokens_shares 1 (3 * precisionReuse) (NewValidator "val" (Some key0) desc0) in
   ∃ w1, RemoveDelShares (3 * precisionReuse - 1) w = Ok (w1, 1) ∧ InvalidExRate w1 = true ∧
     AddTokensFromDel 1 w1 = Panic ErrInsufficientShares).
Proof.
  intros Hv HSp. pose proof Hv as (HT & HS & _ & _). pose proof precisionReuse_pos as Hp. split; [|split].
  - intros amount v1 s Ha (-> & _ & Hs & Hc)%AddTokensFromDel_Ok; [|done..]. cbn.
    destruct Hc as [[? _]|(_ & HTp & ->)]; [lia|]. pose proof (Z.mul_div_le (DelegatorShares v * amount) (Tokens v) HTp). nia.
  - intros shares v1 t Hs (-> & Ht & Hc)%RemoveDelShares_Ok; [|done..].
    destruct Hc as [[<- ->]|(_ & worth & Hw & ->)]; [nia|]. unfold TokensFromShares in Hw. go_inv.
    apply Dec_MulInt_Ok in H as [-> _]. pose proof (Dec_Quo_error_bound _ _ _ Hw) as Hb.
    assert (Z.quot worth precisionReuse * precisionReuse <= worth) as Hq.
    { pose proof (Dec_Quo_le (shares * Tokens v) (DelegatorShares v) (Tokens v) worth HSp ltac:(nia) ltac:(nia) Hw). rewrite Z.quot_div_nonneg by lia.
      pose proof (Z.mul_div_le worth precisionReuse Hp). lia. }
    set (t := Z.quot worth precisionReuse) in *. rewrite (Z.abs_eq (DelegatorShares v)) in Hb by lia.
    assert (t * precisionReuse * DelegatorShares v <= worth * DelegatorShares v) as Hm by (apply Z.mul_le_mono_nonneg_r; lia).
    etransitivity; [|exact Hb]. transitivity (2 * precisionReuse * (t * precisionReuse * DelegatorShares v - shares * Tokens v * precisionReuse));
      [lia|]. apply Z.mul_le_mono_nonneg_l; lia.
  - eexists. split; [vm_compute; reflexivity|]. split; by vm_compute.
Qed.
Lemma exchange_rate_moves_witness :
  ∃ v1 s, AddTokensFromDel 5 val0 = Ok (v1, s) ∧ Tokens val0 * DelegatorShares v1 <= Tokens v1 * DelegatorShares val0.
Proof.
  destruct (AddTokensFromDel 5 val0) as [[v1 s]| |] eqn:EA; [|by vm_compute in EA..].
  exists v1, s. split; [done|]. destruct (exchange_rate_moves val0) as (H & _); [apply val0_ok|by vm_compute|].
  by apply (H 5 v1 s).
Defined.

Lemma SharesFromTokens_Ok amt v s : SharesFromTokens amt v = Ok s → s = Z.quot (DelegatorShares v * amt) (Tokens v) ∧ Tokens v ≠ 0.
Proof.
  unfold SharesFromTokens. destruct (Int_IsZero (Tokens v)); [done|]. intros H. go_inv. apply Dec_MulInt_Ok in H0 as [-> _].
  unfold Dec_QuoInt, Dec_QuoIntMut in H. by apply big_Quo_Ok in H.
Qed.
Lemma SharesFromTokensTruncated_Ok amt v s : SharesFromTokensTruncated amt v = Ok s →
  s = Z.quot (DelegatorShares v * amt) (Tokens v).
Proof.
  pose proof precisionReuse_pos. unfold SharesFromTokensTruncated. rewrite Int_IsZero_eqb.
  destruct (Z.eqb_spec (Tokens v) 0); [done|]. intros Hs. go_inv. apply Dec_MulInt_Ok in H0 as [-> _].
  rewrite LegacyNewDecFromInt_Ok in H1. injection H1 as <-. apply Dec_QuoTruncate_Ok in Hs as (-> & _ & _).
  by rewrite Z.quot_mul_cancel_r by lia.
Qed.

(** The shares to unbond for an amount: the two conversions (truncating
    and not) agree; a granted request never takes more than the delegation, is
    worth the amount or the whole delegation, and leaves no dust, either nothing
    or at least the shares of one token. *)
Theorem unbond_shares_exact amt delShares v shares :
  val_ok v → 0 <= amt → 0 <= delShares → unbond_shares amt delShares v = Ok shares →
  SharesFromTokens amt v = SharesFromTokensTruncated amt v ∧
  0 <= shares <= delShares ∧
  (shares = delShares ∨ SharesFromTokens amt v = Ok shares ∧
     ∃ one, SharesFromTokens OneInt v = Ok one ∧ one <= delShares - shares).
Proof.
  intros (HT & HS & _ & _) Ha Hd H. pose proof precisionReuse_pos as Hp. unfold unbond_shares in H. go_inv.
  rename x into s, x0 into st. assert (st = s ∧ 0 <= s) as [-> Hs].
  { apply SharesFromTokens_Ok in H0 as [-> Hz]. apply SharesFromTokensTruncated_Ok in H1 as ->. split; [done|]. apply Z.quot_pos; nia. }
  split; [congruence|]. rewrite Dec_GT_ltb in H. destruct (Z.ltb_spec delShares s); [done|]. go_inv.
  apply Dec_Sub_Ok in H4 as [-> _]. rewrite Dec_LT_ltb in *. destruct (Z.ltb_spec (delShares - s) x); go_inv.
  - split; [lia|]. by left.
  - split; [lia|]. right. split; [done|]. eauto.
Qed.
Lemma unbond_shares_exact_witness :
  ∃ shares, unbond_shares 3 (5 * precisionReuse) val0 = Ok shares ∧ 0 <= shares <= 5 * precisionReuse.
Proof.
  destruct (unbond_shares 3 (5 * precisionReuse) val0) as [shares| |] eqn:E; [|by vm_compute in E..].
  exists shares. split; [done|]. apply (unbond_shares_exact 3 (5 * precisionReuse) val0 shares); [apply val0_ok|done|by vm_compute|exact E].
Defined.
