(* ===== verification/Staking.v ===== *)
(** * The staking keeper: x/staking/keeper

    Delegations, unbonding delegations and redelegations (delegation.go), the
    validator records with their index by power and their unbonding queue
    (validator.go, val_state_change.go), slashing (slash.go), the two token pools
    (pool.go) and the parameters (params.go), with the data of types/delegation.go
    and the power index key of types/keys.go.
    A keeper method is a computation on [StakingState]: the collections of the
    module, as the finite maps that CollMap.v shows them to be, and the state of
    the bank module it calls.  Times are nanoseconds; the header of the block is a
    parameter of the methods.  Hooks of other modules are given the context, so
    they may read and write all of the state. *)
From S2P Require Import Prelude Bytes MathInt LegacyDec Coin CoinFacts Collections Account Vesting AuthKeeper Bank Validator.

Definition ErrNoValidatorFound : string := "validator does not exist".
Definition ErrValidatorJailed : string := "validator for this address is currently jailed".
Definition ErrBadRemoveValidator : string := "failed to remove validator".
Definition ErrNoDelegatorForAddress : string := "delegator does not contain delegation".
Definition ErrNotEnoughDelegationShares : string := "not enough delegation shares".
Definition ErrNoUnbondingDelegation : string := "no unbonding delegation found".
Definition ErrMaxUnbondingDelegationEntries : string := "too many unbonding delegation entries for (delegator, validator) tuple".
Definition ErrSelfRedelegation : string := "cannot redelegate to the same validator".
Definition ErrTinyRedelegationAmount : string := "too few tokens to redelegate (truncates to zero tokens)".
Definition ErrBadRedelegationDst : string := "redelegation destination validator not found".
Definition ErrBadRedelegationSrc : string := "redelegation source validator not found".
Definition ErrTransitiveRedelegation : string :=
  "redelegation to this validator already in progress; first redelegation to this validator must complete before next redelegation".
Definition ErrMaxRedelegationEntries : string := "too many redelegation entries for (delegator, src-validator, dst-validator) tuple".
Definition ErrDelegatorShareExRateInvalid : string := "cannot delegate to validators with invalid (zero) ex-rate".

Definition NotBondedPoolName : string := "not_bonded_tokens_pool".
Definition BondedPoolName : string := "bonded_tokens_pool".

(** ** Data: types/delegation.go and staking.pb.go *)

Record StakingParams := mkStakingParams {
  p_UnbondingTime : Z;
  MaxValidators : Z;
  MaxEntries : Z;
  p_BondDenom : string;
  p_MinCommissionRate : Z;
  KeyRotationFee : Coin;
}.

Record Delegation := mkDelegation { DelegatorAddress : string; ValidatorAddress : string; Shares : Z }.
Definition NewDelegation (delegatorAddr validatorAddr : string) (shares : Z) : Delegation :=
  mkDelegation delegatorAddr validatorAddr shares.

Record UnbondingDelegationEntry := mkUbdEntry {
  CreationHeight : Z;
  CompletionTime : Z;
  InitialBalance : Z;
  Balance : Z;
  UnbondingOnHoldRefCount : Z;
}.
Record UnbondingDelegation := mkUnbondingDelegation {
  ubd_DelegatorAddress : string;
  ubd_ValidatorAddress : string;
  Entries : list UnbondingDelegationEntry;
}.
Definition NewUnbondingDelegationEntry (creationHeight completionTime balance : Z) : UnbondingDelegationEntry :=
  mkUbdEntry creationHeight completionTime balance balance 0.
Definition IsMature (currentTime : Z) (e : UnbondingDelegationEntry) : bool := negb (currentTime <? CompletionTime e).

Record RedelegationEntry := mkRedEntry {
  re_CreationHeight : Z;
  re_CompletionTime : Z;
  re_InitialBalance : Z;
  SharesDst : Z;
  re_UnbondingOnHoldRefCount : Z;
}.
Record Redelegation := mkRedelegation {
  red_DelegatorAddress : string;
  ValidatorSrcAddress : string;
  ValidatorDstAddress : string;
  red_Entries : list RedelegationEntry;
}.
Definition NewRedelegationEntry (creationHeight completionTime balance sharesDst : Z) : RedelegationEntry :=
  mkRedEntry creationHeight completionTime balance sharesDst 0.
Definition red_IsMature (currentTime : Z) (e : RedelegationEntry) : bool := negb (currentTime <? re_CompletionTime e).
Definition OnHold (e : RedelegationEntry) : bool := 0 <? re_UnbondingOnHoldRefCount e.

Record DVPair := mkDVPair { dv_DelegatorAddress : string; dv_ValidatorAddress : string }.
Record DVVTriplet := mkDVVTriplet {
  dvv_DelegatorAddress : string;
  dvv_ValidatorSrcAddress : string;
  dvv_ValidatorDstAddress : string;
}.

(** The index of the entry with this height and time, and the entries with the
    balance added to it, or with a new entry. *)
Fixpoint AddEntry (creationHeight minTime balance : Z) (entries : list UnbondingDelegationEntry)
    : outcome (list UnbondingDelegationEntry) :=
  match entries with
  | [] => Ok [NewUnbondingDelegationEntry creationHeight minTime balance]
  | e :: rest =>
      if (CreationHeight e =? creationHeight) && (CompletionTime e =? minTime) then
        b ← Int_Add (Balance e) balance;
        i ← Int_Add (InitialBalance e) balance;
        Ok (mkUbdEntry (CreationHeight e) (CompletionTime e) i b (UnbondingOnHoldRefCount e) :: rest)
      else rest' ← AddEntry creationHeight minTime balance rest; Ok (e :: rest')
  end.
Definition set_Entries (entries : list UnbondingDelegationEntry) (ubd : UnbondingDelegation) : UnbondingDelegation :=
  mkUnbondingDelegation (ubd_DelegatorAddress ubd) (ubd_ValidatorAddress ubd) entries.
Definition set_Balance (b : Z) (e : UnbondingDelegationEntry) : UnbondingDelegationEntry :=
  mkUbdEntry (CreationHeight e) (CompletionTime e) (InitialBalance e) b (UnbondingOnHoldRefCount e).
Definition set_Shares (shares : Z) (d : Delegation) : Delegation :=
  mkDelegation (DelegatorAddress d) (ValidatorAddress d) shares.
Definition red_AddEntry (creationHeight minTime balance sharesDst : Z) (red : Redelegation) : Redelegation :=
  mkRedelegation (red_DelegatorAddress red) (ValidatorSrcAddress red) (ValidatorDstAddress red)
    (red_Entries red ++ [NewRedelegationEntry creationHeight minTime balance sharesDst]).
Definition set_red_Entries (entries : list RedelegationEntry) (red : Redelegation) : Redelegation :=
  mkRedelegation (red_DelegatorAddress red) (ValidatorSrcAddress red) (ValidatorDstAddress red) entries.

(** The rotation of a consensus key, [None] where no key is cached. *)
Record ConsPubKeyRotationHistory := mkRotationHistory {
  rh_OperatorAddress : string;
  OldConsPubkey : option PubKey;
  NewConsPubkey : option PubKey;
  rh_Height : Z;
  rh_Fee : Coin;
}.

(** ** State *)

Record StakingState := mkStakingState {
  stk_Params : option StakingParams;
  Validators : gmap string Validator;
  ValidatorByConsensusAddress : gmap string string;
  OldToNewConsAddrMap : gmap string string;
  ValidatorsByPowerIndex : gmap string string;
  Delegations : gmap (string * string) Delegation;
  DelegationsByValidator : gset (string * string);
  UnbondingDelegations : gmap (string * string) UnbondingDelegation;
  UnbondingDelegationByValIndex : gset (string * string);
  UnbondingQueue : gmap Z (list DVPair);
  Redelegations : gmap (string * string * string) Redelegation;
  RedelegationsByValSrc : gset (string * string * string);
  RedelegationsByValDst : gset (string * string * string);
  RedelegationQueue : gmap Z (list DVVTriplet);
  ValidatorQueue : gmap (Z * Z) (list string);
  LastValidatorPower : gmap string Z;
  LastTotalPower : option Z;
  ConsAddrToValidatorIdentifierMap : gmap string string;
  ValidatorConsensusKeyRotationRecordIndexKey : gset (string * Z);
  ValidatorConsensusKeyRotationRecordQueue : gmap Z (list string);
  RotationHistory : gmap (string * Z) ConsPubKeyRotationHistory;
  stk_bank : BankState;
}.

(** *** Field updates *)

Definition with_Params (f : option StakingParams → option StakingParams) (s : StakingState) : StakingState :=
  mkStakingState (f (stk_Params s)) (Validators s) (ValidatorByConsensusAddress s) (OldToNewConsAddrMap s)
    (ValidatorsByPowerIndex s) (Delegations s) (DelegationsByValidator s) (UnbondingDelegations s)
    (UnbondingDelegationByValIndex s) (UnbondingQueue s) (Redelegations s) (RedelegationsByValSrc s)
    (RedelegationsByValDst s) (RedelegationQueue s) (ValidatorQueue s) (LastValidatorPower s) (LastTotalPower
    s) (ConsAddrToValidatorIdentifierMap s) (ValidatorConsensusKeyRotationRecordIndexKey s)
    (ValidatorConsensusKeyRotationRecordQueue s) (RotationHistory s) (stk_bank s).
Definition with_Validators (f : gmap string Validator → gmap string Validator) (s : StakingState) : StakingState :=
  mkStakingState (stk_Params s) (f (Validators s)) (ValidatorByConsensusAddress s) (OldToNewConsAddrMap s)
    (ValidatorsByPowerIndex s) (Delegations s) (DelegationsByValidator s) (UnbondingDelegations s)
    (UnbondingDelegationByValIndex s) (UnbondingQueue s) (Redelegations s) (RedelegationsByValSrc s)
    (RedelegationsByValDst s) (RedelegationQueue s) (ValidatorQueue s) (LastValidatorPower s) (LastTotalPower
    s) (ConsAddrToValidatorIdentifierMap s) (ValidatorConsensusKeyRotationRecordIndexKey s)
    (ValidatorConsensusKeyRotationRecordQueue s) (RotationHistory s) (stk_bank s).
Definition with_ValidatorByConsensusAddress (f : gmap string string → gmap string string) (s : StakingState) : StakingState :=
  mkStakingState (stk_Params s) (Validators s) (f (ValidatorByConsensusAddress s)) (OldToNewConsAddrMap s)
    (ValidatorsByPowerIndex s) (Delegations s) (DelegationsByValidator s) (UnbondingDelegations s)
    (UnbondingDelegationByValIndex s) (UnbondingQueue s) (Redelegations s) (RedelegationsByValSrc s)
    (RedelegationsByValDst s) (RedelegationQueue s) (ValidatorQueue s) (LastValidatorPower s) (LastTotalPower
    s) (ConsAddrToValidatorIdentifierMap s) (ValidatorConsensusKeyRotationRecordIndexKey s)
    (ValidatorConsensusKeyRotationRecordQueue s) (RotationHistory s) (stk_bank s).
Definition with_OldToNewConsAddrMap (f : gmap string string → gmap string string) (s : StakingState) : StakingState :=
  mkStakingState (stk_Params s) (Validators s) (ValidatorByConsensusAddress s) (f (OldToNewConsAddrMap s))
    (ValidatorsByPowerIndex s) (Delegations s) (DelegationsByValidator s) (UnbondingDelegations s)
    (UnbondingDelegationByValIndex s) (UnbondingQueue s) (Redelegations s) (RedelegationsByValSrc s)
    (RedelegationsByValDst s) (RedelegationQueue s) (ValidatorQueue s) (LastValidatorPower s) (LastTotalPower
    s) (ConsAddrToValidatorIdentifierMap s) (ValidatorConsensusKeyRotationRecordIndexKey s)
    (ValidatorConsensusKeyRotationRecordQueue s) (RotationHistory s) (stk_bank s).
Definition with_ValidatorsByPowerIndex (f : gmap string string → gmap string string) (s : StakingState) : StakingState :=
  mkStakingState (stk_Params s) (Validators s) (ValidatorByConsensusAddress s) (OldToNewConsAddrMap s) (f
    (ValidatorsByPowerIndex s)) (Delegations s) (DelegationsByValidator s) (UnbondingDelegations s)
    (UnbondingDelegationByValIndex s) (UnbondingQueue s) (Redelegations s) (RedelegationsByValSrc s)
    (RedelegationsByValDst s) (RedelegationQueue s) (ValidatorQueue s) (LastValidatorPower s) (LastTotalPower
    s) (ConsAddrToValidatorIdentifierMap s) (ValidatorConsensusKeyRotationRecordIndexKey s)
    (ValidatorConsensusKeyRotationRecordQueue s) (RotationHistory s) (stk_bank s).
Definition with_Delegations (f : gmap (string * string) Delegation → gmap (string * string) Delegation) (s : StakingState) : StakingState :=
  mkStakingState (stk_Params s) (Validators s) (ValidatorByConsensusAddress s) (OldToNewConsAddrMap s)
    (ValidatorsByPowerIndex s) (f (Delegations s)) (DelegationsByValidator s) (UnbondingDelegations s)
    (UnbondingDelegationByValIndex s) (UnbondingQueue s) (Redelegations s) (RedelegationsByValSrc s)
    (RedelegationsByValDst s) (RedelegationQueue s) (ValidatorQueue s) (LastValidatorPower s) (LastTotalPower
    s) (ConsAddrToValidatorIdentifierMap s) (ValidatorConsensusKeyRotationRecordIndexKey s)
    (ValidatorConsensusKeyRotationRecordQueue s) (RotationHistory s) (stk_bank s).
Definition with_DelegationsByValidator (f : gset (string * string) → gset (string * string)) (s : StakingState) : StakingState :=
  mkStakingState (stk_Params s) (Validators s) (ValidatorByConsensusAddress s) (OldToNewConsAddrMap s)
    (ValidatorsByPowerIndex s) (Delegations s) (f (DelegationsByValidator s)) (UnbondingDelegations s)
    (UnbondingDelegationByValIndex s) (UnbondingQueue s) (Redelegations s) (RedelegationsByValSrc s)
    (RedelegationsByValDst s) (RedelegationQueue s) (ValidatorQueue s) (LastValidatorPower s) (LastTotalPower
    s) (ConsAddrToValidatorIdentifierMap s) (ValidatorConsensusKeyRotationRecordIndexKey s)
    (ValidatorConsensusKeyRotationRecordQueue s) (RotationHistory s) (stk_bank s).
Definition with_UnbondingDelegations (f : gmap (string * string) UnbondingDelegation → gmap (string * string) UnbondingDelegation) (s : StakingState) : StakingState :=
  mkStakingState (stk_Params s) (Validators s) (ValidatorByConsensusAddress s) (OldToNewConsAddrMap s)
    (ValidatorsByPowerIndex s) (Delegations s) (DelegationsByValidator s) (f (UnbondingDelegations s))
    (UnbondingDelegationByValIndex s) (UnbondingQueue s) (Redelegations s) (RedelegationsByValSrc s)
    (RedelegationsByValDst s) (RedelegationQueue s) (ValidatorQueue s) (LastValidatorPower s) (LastTotalPower
    s) (ConsAddrToValidatorIdentifierMap s) (ValidatorConsensusKeyRotationRecordIndexKey s)
    (ValidatorConsensusKeyRotationRecordQueue s) (RotationHistory s) (stk_bank s).
Definition with_UnbondingDelegationByValIndex (f : gset (string * string) → gset (string * string)) (s : StakingState) : StakingState :=
  mkStakingState (stk_Params s) (Validators s) (ValidatorByConsensusAddress s) (OldToNewConsAddrMap s)
    (ValidatorsByPowerIndex s) (Delegations s) (DelegationsByValidator s) (UnbondingDelegations s) (f
    (UnbondingDelegationByValIndex s)) (UnbondingQueue s) (Redelegations s) (RedelegationsByValSrc s)
    (RedelegationsByValDst s) (RedelegationQueue s) (ValidatorQueue s) (LastValidatorPower s) (LastTotalPower
    s) (ConsAddrToValidatorIdentifierMap s) (ValidatorConsensusKeyRotationRecordIndexKey s)
    (ValidatorConsensusKeyRotationRecordQueue s) (RotationHistory s) (stk_bank s).
Definition with_UnbondingQueue (f : gmap Z (list DVPair) → gmap Z (list DVPair)) (s : StakingState) : StakingState :=
  mkStakingState (stk_Params s) (Validators s) (ValidatorByConsensusAddress s) (OldToNewConsAddrMap s)
    (ValidatorsByPowerIndex s) (Delegations s) (DelegationsByValidator s) (UnbondingDelegations s)
    (UnbondingDelegationByValIndex s) (f (UnbondingQueue s)) (Redelegations s) (RedelegationsByValSrc s)
    (RedelegationsByValDst s) (RedelegationQueue s) (ValidatorQueue s) (LastValidatorPower s) (LastTotalPower
    s) (ConsAddrToValidatorIdentifierMap s) (ValidatorConsensusKeyRotationRecordIndexKey s)
    (ValidatorConsensusKeyRotationRecordQueue s) (RotationHistory s) (stk_bank s).
Definition with_Redelegations (f : gmap (string * string * string) Redelegation → gmap (string * string * string) Redelegation) (s : StakingState) : StakingState :=
  mkStakingState (stk_Params s) (Validators s) (ValidatorByConsensusAddress s) (OldToNewConsAddrMap s)
    (ValidatorsByPowerIndex s) (Delegations s) (DelegationsByValidator s) (UnbondingDelegations s)
    (UnbondingDelegationByValIndex s) (UnbondingQueue s) (f (Redelegations s)) (RedelegationsByValSrc s)
    (RedelegationsByValDst s) (RedelegationQueue s) (ValidatorQueue s) (LastValidatorPower s) (LastTotalPower
    s) (ConsAddrToValidatorIdentifierMap s) (ValidatorConsensusKeyRotationRecordIndexKey s)
    (ValidatorConsensusKeyRotationRecordQueue s) (RotationHistory s) (stk_bank s).
Definition with_RedelegationsByValSrc (f : gset (string * string * string) → gset (string * string * string)) (s : StakingState) : StakingState :=
  mkStakingState (stk_Params s) (Validators s) (ValidatorByConsensusAddress s) (OldToNewConsAddrMap s)
    (ValidatorsByPowerIndex s) (Delegations s) (DelegationsByValidator s) (UnbondingDelegations s)
    (UnbondingDelegationByValIndex s) (UnbondingQueue s) (Redelegations s) (f (RedelegationsByValSrc s))
    (RedelegationsByValDst s) (RedelegationQueue s) (ValidatorQueue s) (LastValidatorPower s) (LastTotalPower
    s) (ConsAddrToValidatorIdentifierMap s) (ValidatorConsensusKeyRotationRecordIndexKey s)
    (ValidatorConsensusKeyRotationRecordQueue s) (RotationHistory s) (stk_bank s).
Definition with_RedelegationsByValDst (f : gset (string * string * string) → gset (string * string * string)) (s : StakingState) : StakingState :=
  mkStakingState (stk_Params s) (Validators s) (ValidatorByConsensusAddress s) (OldToNewConsAddrMap s)
    (ValidatorsByPowerIndex s) (Delegations s) (DelegationsByValidator s) (UnbondingDelegations s)
    (UnbondingDelegationByValIndex s) (UnbondingQueue s) (Redelegations s) (RedelegationsByValSrc s) (f
    (RedelegationsByValDst s)) (RedelegationQueue s) (ValidatorQueue s) (LastValidatorPower s) (LastTotalPower
    s) (ConsAddrToValidatorIdentifierMap s) (ValidatorConsensusKeyRotationRecordIndexKey s)
    (ValidatorConsensusKeyRotationRecordQueue s) (RotationHistory s) (stk_bank s).
Definition with_RedelegationQueue (f : gmap Z (list DVVTriplet) → gmap Z (list DVVTriplet)) (s : StakingState) : StakingState :=
  mkStakingState (stk_Params s) (Validators s) (ValidatorByConsensusAddress s) (OldToNewConsAddrMap s)
    (ValidatorsByPowerIndex s) (Delegations s) (DelegationsByValidator s) (UnbondingDelegations s)
    (UnbondingDelegationByValIndex s) (UnbondingQueue s) (Redelegations s) (RedelegationsByValSrc s)
    (RedelegationsByValDst s) (f (RedelegationQueue s)) (ValidatorQueue s) (LastValidatorPower s)
    (LastTotalPower s) (ConsAddrToValidatorIdentifierMap s) (ValidatorConsensusKeyRotationRecordIndexKey s)
    (ValidatorConsensusKeyRotationRecordQueue s) (RotationHistory s) (stk_bank s).
Definition with_ValidatorQueue (f : gmap (Z * Z) (list string) → gmap (Z * Z) (list string)) (s : StakingState) : StakingState :=
  mkStakingState (stk_Params s) (Validators s) (ValidatorByConsensusAddress s) (OldToNewConsAddrMap s)
    (ValidatorsByPowerIndex s) (Delegations s) (DelegationsByValidator s) (UnbondingDelegations s)
    (UnbondingDelegationByValIndex s) (UnbondingQueue s) (Redelegations s) (RedelegationsByValSrc s)
    (RedelegationsByValDst s) (RedelegationQueue s) (f (ValidatorQueue s)) (LastValidatorPower s)
    (LastTotalPower s) (ConsAddrToValidatorIdentifierMap s) (ValidatorConsensusKeyRotationRecordIndexKey s)
    (ValidatorConsensusKeyRotationRecordQueue s) (RotationHistory s) (stk_bank s).
Definition with_LastValidatorPower (f : gmap string Z → gmap string Z) (s : StakingState) : StakingState :=
  mkStakingState (stk_Params s) (Validators s) (ValidatorByConsensusAddress s) (OldToNewConsAddrMap s)
    (ValidatorsByPowerIndex s) (Delegations s) (DelegationsByValidator s) (UnbondingDelegations s)
    (UnbondingDelegationByValIndex s) (UnbondingQueue s) (Redelegations s) (RedelegationsByValSrc s)
    (RedelegationsByValDst s) (RedelegationQueue s) (ValidatorQueue s) (f (LastValidatorPower s))
    (LastTotalPower s) (ConsAddrToValidatorIdentifierMap s) (ValidatorConsensusKeyRotationRecordIndexKey s)
    (ValidatorConsensusKeyRotationRecordQueue s) (RotationHistory s) (stk_bank s).
Definition with_LastTotalPower (f : option Z → option Z) (s : StakingState) : StakingState :=
  mkStakingState (stk_Params s) (Validators s) (ValidatorByConsensusAddress s) (OldToNewConsAddrMap s)
    (ValidatorsByPowerIndex s) (Delegations s) (DelegationsByValidator s) (UnbondingDelegations s)
    (UnbondingDelegationByValIndex s) (UnbondingQueue s) (Redelegations s) (RedelegationsByValSrc s)
    (RedelegationsByValDst s) (RedelegationQueue s) (ValidatorQueue s) (LastValidatorPower s) (f
    (LastTotalPower s)) (ConsAddrToValidatorIdentifierMap s) (ValidatorConsensusKeyRotationRecordIndexKey s)
    (ValidatorConsensusKeyRotationRecordQueue s) (RotationHistory s) (stk_bank s).
Definition with_ConsAddrToValidatorIdentifierMap (f : gmap string string → gmap string string) (s : StakingState) : StakingState :=
  mkStakingState (stk_Params s) (Validators s) (ValidatorByConsensusAddress s) (OldToNewConsAddrMap s)
    (ValidatorsByPowerIndex s) (Delegations s) (DelegationsByValidator s) (UnbondingDelegations s)
    (UnbondingDelegationByValIndex s) (UnbondingQueue s) (Redelegations s) (RedelegationsByValSrc s)
    (RedelegationsByValDst s) (RedelegationQueue s) (ValidatorQueue s) (LastValidatorPower s) (LastTotalPower
    s) (f (ConsAddrToValidatorIdentifierMap s)) (ValidatorConsensusKeyRotationRecordIndexKey s)
    (ValidatorConsensusKeyRotationRecordQueue s) (RotationHistory s) (stk_bank s).
Definition with_ValidatorConsensusKeyRotationRecordIndexKey (f : gset (string * Z) → gset (string * Z)) (s : StakingState) : StakingState :=
  mkStakingState (stk_Params s) (Validators s) (ValidatorByConsensusAddress s) (OldToNewConsAddrMap s)
    (ValidatorsByPowerIndex s) (Delegations s) (DelegationsByValidator s) (UnbondingDelegations s)
    (UnbondingDelegationByValIndex s) (UnbondingQueue s) (Redelegations s) (RedelegationsByValSrc s)
    (RedelegationsByValDst s) (RedelegationQueue s) (ValidatorQueue s) (LastValidatorPower s) (LastTotalPower
    s) (ConsAddrToValidatorIdentifierMap s) (f (ValidatorConsensusKeyRotationRecordIndexKey s))
    (ValidatorConsensusKeyRotationRecordQueue s) (RotationHistory s) (stk_bank s).
Definition with_ValidatorConsensusKeyRotationRecordQueue (f : gmap Z (list string) → gmap Z (list string)) (s : StakingState) : StakingState :=
  mkStakingState (stk_Params s) (Validators s) (ValidatorByConsensusAddress s) (OldToNewConsAddrMap s)
    (ValidatorsByPowerIndex s) (Delegations s) (DelegationsByValidator s) (UnbondingDelegations s)
    (UnbondingDelegationByValIndex s) (UnbondingQueue s) (Redelegations s) (RedelegationsByValSrc s)
    (RedelegationsByValDst s) (RedelegationQueue s) (ValidatorQueue s) (LastValidatorPower s) (LastTotalPower
    s) (ConsAddrToValidatorIdentifierMap s) (ValidatorConsensusKeyRotationRecordIndexKey s) (f
    (ValidatorConsensusKeyRotationRecordQueue s)) (RotationHistory s) (stk_bank s).
Definition with_RotationHistory (f : gmap (string * Z) ConsPubKeyRotationHistory → gmap (string * Z) ConsPubKeyRotationHistory) (s : StakingState) : StakingState :=
  mkStakingState (stk_Params s) (Validators s) (ValidatorByConsensusAddress s) (OldToNewConsAddrMap s)
    (ValidatorsByPowerIndex s) (Delegations s) (DelegationsByValidator s) (UnbondingDelegations s)
    (UnbondingDelegationByValIndex s) (UnbondingQueue s) (Redelegations s) (RedelegationsByValSrc s)
    (RedelegationsByValDst s) (RedelegationQueue s) (ValidatorQueue s) (LastValidatorPower s) (LastTotalPower
    s) (ConsAddrToValidatorIdentifierMap s) (ValidatorConsensusKeyRotationRecordIndexKey s)
    (ValidatorConsensusKeyRotationRecordQueue s) (f (RotationHistory s)) (stk_bank s).
Definition with_bank (f : BankState → BankState) (s : StakingState) : StakingState :=
  mkStakingState (stk_Params s) (Validators s) (ValidatorByConsensusAddress s) (OldToNewConsAddrMap s)
    (ValidatorsByPowerIndex s) (Delegations s) (DelegationsByValidator s) (UnbondingDelegations s)
    (UnbondingDelegationByValIndex s) (UnbondingQueue s) (Redelegations s) (RedelegationsByValSrc s)
    (RedelegationsByValDst s) (RedelegationQueue s) (ValidatorQueue s) (LastValidatorPower s) (LastTotalPower
    s) (ConsAddrToValidatorIdentifierMap s) (ValidatorConsensusKeyRotationRecordIndexKey s)
    (ValidatorConsensusKeyRotationRecordQueue s) (RotationHistory s) (f (stk_bank s)).

(** The header of the block. *)
Record Header := mkHeader { h_Time : Z; h_Height : Z }.

(** The codec of validator addresses, and the address of a consensus key. *)
Class ValAddressConfig := {
  pk_Address : PubKey → string;
  ValStringToBytes : string → outcome string;
  ValBytesToString : string → outcome string;
}.

Record StakingHooks := mkStakingHooks {
  AfterValidatorCreated : string → GoM StakingState unit;
  BeforeValidatorModified : string → GoM StakingState unit;
  AfterValidatorRemoved : string → string → GoM StakingState unit;
  AfterValidatorBonded : string → string → GoM StakingState unit;
  AfterValidatorBeginUnbonding : string → string → GoM StakingState unit;
  BeforeDelegationCreated : string → string → GoM StakingState unit;
  BeforeDelegationSharesModified : string → string → GoM StakingState unit;
  BeforeDelegationRemoved : string → string → GoM StakingState unit;
  AfterDelegationModified : string → string → GoM StakingState unit;
  BeforeValidatorSlashed : string → Z → GoM StakingState unit;
  AfterConsensusPubKeyUpdate : PubKey → PubKey → Coin → GoM StakingState unit;
}.

(** A call to the bank keeper. *)
Definition on_bank {A} (m : GoM BankState A) : GoM StakingState A :=
  λ s, let '(r, b) := m (stk_bank s) in (r, with_bank (λ _, b) s).

Section StakingOps.
Context {cfg : CoinConfig} {acfg : AddressConfig} {vcfg : ValAddressConfig}.
Variable bk : BaseKeeper.
Variable hooks : StakingHooks.
Variable h : Header.

(** ** Parameters: keeper/params.go *)

Definition get_Params : GoM StakingState StakingParams :=
  p ← readM stk_Params; liftM (match p with Some p => Ok p | None => Err ErrNotFound end).
Definition UnbondingTime_param : GoM StakingState Z := p ← get_Params; mret (p_UnbondingTime p).
Definition MaxEntries_param : GoM StakingState Z := p ← get_Params; mret (MaxEntries p).
Definition BondDenom : GoM StakingState string := p ← get_Params; mret (p_BondDenom p).
(** [sdk.DefaultPowerReduction] of types/staking.go. *)
Definition PowerReduction : Z := 1000000.

(** ** The pools: keeper/pool.go *)

(** [blockTime.Unix()], as the bank keeper uses it. *)
Definition Unix : Z := h_Time h / 10 ^ 9.

Definition bond_coins (amt : Z) : GoM StakingState Coins :=
  bondDenom ← BondDenom;
  coin ← liftM (NewCoin bondDenom amt);
  liftM (NewCoins [coin]).
Definition bondedTokensToNotBonded (tokens : Z) : GoM StakingState unit :=
  coins ← bond_coins tokens;
  on_bank (SendCoinsFromModuleToModule bk Unix BondedPoolName NotBondedPoolName coins).
Definition notBondedTokensToBonded (tokens : Z) : GoM StakingState unit :=
  coins ← bond_coins tokens;
  on_bank (SendCoinsFromModuleToModule bk Unix NotBondedPoolName BondedPoolName coins).
(** The address of a pool; without one [GetModuleAddress] returns nil. *)
Definition pool_address (name : string) : string := default "" (GetModuleAddress (k_ak bk) name).
Definition burnBondedTokens (amt : Z) : GoM StakingState unit :=
  if negb (Int_IsPositive amt) then mret tt
  else coins ← bond_coins amt;
       on_bank (BurnCoins Unix (pool_address BondedPoolName) coins).
Definition burnNotBondedTokens (amt : Z) : GoM StakingState unit :=
  if negb (Int_IsPositive amt) then mret tt
  else coins ← bond_coins amt;
       on_bank (BurnCoins Unix (pool_address NotBondedPoolName) coins).
Definition GetBondedPool : GoM StakingState ModuleAccount :=
  acc ← on_bank (on_auth (GetModuleAccount (k_ak bk) BondedPoolName));
  match acc with Some m => mret m | None => panicM "invalid memory address or nil pointer dereference" end.
Definition TotalBondedTokens : GoM StakingState Z :=
  bondedPool ← GetBondedPool;
  bondDenom ← BondDenom;
  c ← on_bank (GetBalance (macc_address bondedPool) bondDenom);
  mret (Amount c).
Definition StakingTokenSupply : GoM StakingState Z :=
  bondDenom ← BondDenom;
  c ← on_bank (GetSupply bondDenom);
  mret (Amount c).
Definition BondedRatio : GoM StakingState Z :=
  stakeSupply ← StakingTokenSupply;
  if Int_IsPositive stakeSupply then
    totalBonded ← TotalBondedTokens;
    d ← liftM (LegacyNewDecFromInt totalBonded);
    liftM (Dec_QuoInt d stakeSupply)
  else mret LegacyZeroDec.

(** ** Validator records: keeper/validator.go *)

Definition GetValidator (addr : string) : GoM StakingState Validator :=
  v ← readM (λ s, Validators s !! addr);
  liftM (match v with Some v => Ok v | None => Err ErrNoValidatorFound end).
Definition ErrInvalidType : string := "invalid type".
Definition GetConsAddr (v : Validator) : outcome string :=
  match ConsensusPubkey v with Some pk => Ok (pk_Address pk) | None => Err ErrInvalidType end.
(** An operator address that was stored is not nil. *)
Definition GetValidatorByConsAddr (consAddr : string) : GoM StakingState Validator :=
  opAddr ← readM (λ s, match ValidatorByConsensusAddress s !! consAddr with
                       | Some a => Some a
                       | None => OldToNewConsAddrMap s !! consAddr ≫= λ new, ValidatorByConsensusAddress s !! new
                       end);
  match opAddr with
  | Some a => GetValidator a
  | None => errM ErrNoValidatorFound
  end.
Definition SetValidator (validator : Validator) : GoM StakingState unit :=
  valBz ← liftM (ValStringToBytes (OperatorAddress validator));
  modifyM (with_Validators <[valBz := validator]>).
Definition SetValidatorByConsAddr (validator : Validator) : GoM StakingState unit :=
  consPk ← liftM (GetConsAddr validator);
  bz ← liftM (ValStringToBytes (OperatorAddress validator));
  modifyM (with_ValidatorByConsensusAddress <[consPk := bz]>).

(** The key of the power index: a prefix byte, the power as 8 big-endian bytes,
    the length of the address and its bitwise complement. *)
Fixpoint invert_bytes (s : string) : string :=
  match s with
  | EmptyString => EmptyString
  | String c rest => String (byte (255 - code c)) (invert_bytes rest)
  end.
Definition GetValidatorsByPowerIndexKey (validator : Validator) : outcome string :=
  consensusPower ← TokensToConsensusPower (Tokens validator) PowerReduction;
  addr ← must (ValStringToBytes (OperatorAddress validator));
  Ok (String (byte 0x23) (be_put 8 (wrap_uint64 consensusPower) +:+
        String (byte (Z.of_nat (String.length addr))) (invert_bytes addr))).
Definition SetNewValidatorByPowerIndex (validator : Validator) : GoM StakingState unit :=
  str ← liftM (ValStringToBytes (OperatorAddress validator));
  key ← liftM (GetValidatorsByPowerIndexKey validator);
  modifyM (with_ValidatorsByPowerIndex <[key := str]>).
Definition SetValidatorByPowerIndex (validator : Validator) : GoM StakingState unit :=
  if Jailed validator then mret tt else SetNewValidatorByPowerIndex validator.
Definition DeleteValidatorByPowerIndex (validator : Validator) : GoM StakingState unit :=
  key ← liftM (GetValidatorsByPowerIndexKey validator);
  modifyM (with_ValidatorsByPowerIndex (delete key)).

Definition AddValidatorTokensAndShares (validator : Validator) (tokensToAdd : Z) : GoM StakingState (Validator * Z) :=
  _ ← DeleteValidatorByPowerIndex validator;
  '(validator, addedShares) ← liftM (AddTokensFromDel tokensToAdd validator);
  _ ← SetValidator validator;
  _ ← SetValidatorByPowerIndex validator;
  mret (validator, addedShares).
Definition RemoveValidatorTokensAndShares (validator : Validator) (sharesToRemove : Z) : GoM StakingState (Validator * Z) :=
  _ ← DeleteValidatorByPowerIndex validator;
  '(validator, removedTokens) ← liftM (RemoveDelShares sharesToRemove validator);
  _ ← SetValidator validator;
  _ ← SetValidatorByPowerIndex validator;
  mret (validator, removedTokens).
Definition RemoveValidatorTokens (validator : Validator) (tokensToRemove : Z) : GoM StakingState Validator :=
  _ ← DeleteValidatorByPowerIndex validator;
  validator ← liftM (RemoveTokens tokensToRemove validator);
  _ ← SetValidator validator;
  _ ← SetValidatorByPowerIndex validator;
  mret validator.

Definition RemoveValidator (address : string) : GoM StakingState unit :=
  v ← readM (λ s, Validators s !! address);
  match v with
  | None => mret tt
  | Some validator =>
      _ ← liftM (guard_err (negb (IsUnbonded validator)) ErrBadRemoveValidator);
      _ ← liftM (guard_err (Int_IsPositive (Tokens validator)) ErrBadRemoveValidator);
      valConsAddr ← liftM (GetConsAddr validator);
      _ ← modifyM (with_Validators (delete address));
      _ ← modifyM (with_ValidatorByConsensusAddress (delete valConsAddr));
      key ← liftM (GetValidatorsByPowerIndexKey validator);
      _ ← modifyM (with_ValidatorsByPowerIndex (delete key));
      str ← liftM (ValStringToBytes (OperatorAddress validator));
      AfterValidatorRemoved hooks valConsAddr str
  end.

(** ** The unbonding queue of validators *)

(** The key is the time and the height as a [uint64]; its length prefix is
    always 29. *)
Definition queue_key (endTime endHeight : Z) : Z * Z := (endTime, wrap_uint64 endHeight).
Definition GetUnbondingValidators (endTime endHeight : Z) : GoM StakingState (list string) :=
  readM (λ s, default [] (ValidatorQueue s !! queue_key endTime endHeight)).
Definition SetUnbondingValidatorsQueue (endTime endHeight : Z) (addrs : list string) : GoM StakingState unit :=
  modifyM (with_ValidatorQueue <[queue_key endTime endHeight := addrs]>).
Definition InsertUnbondingValidatorQueue (val : Validator) : GoM StakingState unit :=
  addrs ← GetUnbondingValidators (UnbondingTime val) (UnbondingHeight val);
  SetUnbondingValidatorsQueue (UnbondingTime val) (UnbondingHeight val) (addrs ++ [OperatorAddress val]).
Definition DeleteValidatorQueueTimeSlice (endTime endHeight : Z) : GoM StakingState unit :=
  modifyM (with_ValidatorQueue (delete (queue_key endTime endHeight))).
(** The addresses other than the deleted one; every one must decode. *)
Definition other_addrs (deletingAddr : string) (addrs : list string) : outcome (list string) :=
  foldM (λ newAddrs addr,
           storedAddr ← ValStringToBytes addr;
           Ok (if str_eq storedAddr deletingAddr then newAddrs else newAddrs ++ [addr])) [] addrs.
Definition DeleteValidatorQueue (val : Validator) : GoM StakingState unit :=
  addrs ← GetUnbondingValidators (UnbondingTime val) (UnbondingHeight val);
  deletingAddr ← liftM (ValStringToBytes (OperatorAddress val));
  newAddrs ← liftM (other_addrs deletingAddr addrs);
  if (length newAddrs =? 0)%nat then DeleteValidatorQueueTimeSlice (UnbondingTime val) (UnbondingHeight val)
  else SetUnbondingValidatorsQueue (UnbondingTime val) (UnbondingHeight val) newAddrs.

(** ** Status transitions: keeper/val_state_change.go *)

Definition set_Jailed (jailed : bool) (v : Validator) : Validator :=
  mkValidator (OperatorAddress v) (ConsensusPubkey v) jailed (Status v) (Tokens v) (DelegatorShares v) (UnbondingHeight v)
    (UnbondingTime v) (v_Commission v) (MinSelfDelegation v) (v_Description v).
Definition set_unbonding (time height : Z) (v : Validator) : Validator :=
  mkValidator (OperatorAddress v) (ConsensusPubkey v) (Jailed v) (Status v) (Tokens v) (DelegatorShares v) height
    time (v_Commission v) (MinSelfDelegation v) (v_Description v).
Definition jailValidator (validator : Validator) : GoM StakingState unit :=
  _ ← liftM (guard_err (Jailed validator) ErrValidatorJailed);
  let validator := set_Jailed true validator in
  _ ← SetValidator validator;
  DeleteValidatorByPowerIndex validator.
Definition unjailValidator (validator : Validator) : GoM StakingState unit :=
  _ ← liftM (guard_err (negb (Jailed validator)) "cannot unjail already unjailed validator");
  let validator := set_Jailed false validator in
  _ ← SetValidator validator;
  SetValidatorByPowerIndex validator.

Definition bondValidator (validator : Validator) : GoM StakingState Validator :=
  _ ← DeleteValidatorByPowerIndex validator;
  let validator := UpdateStatus Bonded validator in
  _ ← SetValidator validator;
  _ ← SetValidatorByPowerIndex validator;
  _ ← DeleteValidatorQueue validator;
  consAddr ← liftM (GetConsAddr validator);
  str ← liftM (ValStringToBytes (OperatorAddress validator));
  _ ← AfterValidatorBonded hooks consAddr str;
  mret validator.
Definition BeginUnbondingValidator (validator : Validator) : GoM StakingState Validator :=
  params ← get_Params;
  _ ← DeleteValidatorByPowerIndex validator;
  _ ← liftM (guard_err (negb (IsBonded validator)) "should not already be unbonded or unbonding");
  let validator := set_unbonding (h_Time h + p_UnbondingTime params) (h_Height h) (UpdateStatus Unbonding validator) in
  _ ← SetValidator validator;
  _ ← SetValidatorByPowerIndex validator;
  _ ← InsertUnbondingValidatorQueue validator;
  consAddr ← liftM (GetConsAddr validator);
  str ← liftM (ValStringToBytes (OperatorAddress validator));
  _ ← AfterValidatorBeginUnbonding hooks consAddr str;
  mret validator.
Definition completeUnbondingValidator (validator : Validator) : GoM StakingState Validator :=
  let validator := UpdateStatus Unbonded validator in
  _ ← SetValidator validator;
  mret validator.
Definition bondedToUnbonding (validator : Validator) : GoM StakingState Validator :=
  _ ← liftM (guard_err (negb (IsBonded validator)) "bad state transition bondedToUnbonding");
  BeginUnbondingValidator validator.
Definition unbondingToBonded (validator : Validator) : GoM StakingState Validator :=
  _ ← liftM (guard_err (negb (IsUnbonding validator)) "bad state transition unbondingToBonded");
  bondValidator validator.
Definition unbondedToBonded (validator : Validator) : GoM StakingState Validator :=
  _ ← liftM (guard_err (negb (IsUnbonded validator)) "bad state transition unbondedToBonded");
  bondValidator validator.
Definition UnbondingToUnbonded (validator : Validator) : GoM StakingState Validator :=
  _ ← liftM (guard_err (negb (IsUnbonding validator)) "bad state transition unbondingToUnbonded");
  completeUnbondingValidator validator.

(** One address of [unbondMatureValidators]. *)
Definition unbond_mature (valAddr : string) : GoM StakingState unit :=
  addr ← liftM (ValStringToBytes valAddr);
  val ← GetValidator addr;
  _ ← liftM (guard_err (negb (IsUnbonding val)) "unexpected validator in unbonding queue; status was not unbonding");
  val ← UnbondingToUnbonded val;
  _ ← (if Dec_IsZero (DelegatorShares val) then
         addr ← liftM (ValStringToBytes (OperatorAddress val)); RemoveValidator addr
       else mret tt);
  DeleteValidatorQueue val.
Definition unbondMatureValidators (key : Z * Z) (addrs : list string) : GoM StakingState unit :=
  if (wrap_uint64 (h_Height h) <? key.2) || (h_Time h <? key.1) then mret tt
  else forM_ unbond_mature addrs.
(** The entries of the queue up to the block's time and height, in key order. *)
Definition queue_key_le (x y : Z * Z) : Prop := x.1 < y.1 ∨ x.1 = y.1 ∧ x.2 <= y.2.
#[global] Instance queue_key_le_dec x y : Decision (queue_key_le x y).
Proof. unfold queue_key_le. apply _. Defined.
Definition mature_validators (s : StakingState) : list ((Z * Z) * list string) :=
  merge_sort (λ x y, queue_key_le x.1 y.1)
    (filter (λ kv, queue_key_le kv.1 (h_Time h, wrap_uint64 (h_Height h))) (map_to_list (ValidatorQueue s))).
Definition UnbondAllMatureValidators : GoM StakingState unit :=
  kvs ← readM mature_validators;
  forM_ (λ kv, unbondMatureValidators kv.1 kv.2) kvs.

(** ** Delegations: keeper/delegation.go *)

Definition get_Delegation (delAddr valAddr : string) : GoM StakingState Delegation :=
  d ← readM (λ s, Delegations s !! (delAddr, valAddr));
  liftM (match d with Some d => Ok d | None => Err ErrNotFound end).
Definition SetDelegation (delegation : Delegation) : GoM StakingState unit :=
  delegatorAddress ← liftM (StringToBytes (DelegatorAddress delegation));
  valAddr ← liftM (ValStringToBytes (ValidatorAddress delegation));
  _ ← modifyM (with_Delegations <[(delegatorAddress, valAddr) := delegation]>);
  modifyM (with_DelegationsByValidator (union {[(valAddr, delegatorAddress)]})).
Definition RemoveDelegation (delegation : Delegation) : GoM StakingState unit :=
  delegatorAddress ← liftM (StringToBytes (DelegatorAddress delegation));
  valAddr ← liftM (ValStringToBytes (ValidatorAddress delegation));
  _ ← BeforeDelegationRemoved hooks delegatorAddress valAddr;
  _ ← modifyM (with_Delegations (delete (delegatorAddress, valAddr)));
  modifyM (with_DelegationsByValidator (λ m, m ∖ {[(valAddr, delegatorAddress)]})).

Definition ValidateUnbondAmount (delAddr valAddr : string) (amt : Z) : GoM StakingState Z :=
  validator ← GetValidator valAddr;
  del ← get_Delegation delAddr valAddr;
  liftM (unbond_shares amt (Shares del) validator).

(** The delegation to change, after the hook that announces it. *)
Definition get_or_create_delegation (delAddr valbz : string) (validator : Validator) : GoM StakingState Delegation :=
  found ← readM (λ s, Delegations s !! (delAddr, valbz));
  match found with
  | Some delegation =>
      _ ← BeforeDelegationSharesModified hooks delAddr valbz;
      mret delegation
  | None =>
      delAddrStr ← liftM (BytesToString delAddr);
      _ ← BeforeDelegationCreated hooks delAddr valbz;
      mret (NewDelegation delAddrStr (OperatorAddress validator) LegacyZeroDec)
  end.
(** The pool the tokens of a validator are in. *)
Definition pool_of (validator : Validator) : outcome string :=
  if IsBonded validator then Ok BondedPoolName
  else if IsUnbonding validator || IsUnbonded validator then Ok NotBondedPoolName
  else Err "invalid validator status".
Definition not_bonded_src (tokenSrc : BondStatus) : bool :=
  bool_decide (tokenSrc = Unbonded) || bool_decide (tokenSrc = Unbonding).
(** How the tokens reach the pool of the validator: from the account of the
    delegator, or between the pools for a redelegation. *)
Definition move_tokens (delAddr : string) (bondAmt : Z) (tokenSrc : BondStatus) (validator : Validator)
    (subtractAccount : bool) : GoM StakingState unit :=
  if subtractAccount then
    _ ← liftM (guard_err (bool_decide (tokenSrc = Bonded)) "delegation token source cannot be bonded");
    sendName ← liftM (pool_of validator);
    coins ← bond_coins bondAmt;
    on_bank (DelegateCoinsFromAccountToModule bk Unix delAddr sendName coins)
  else if bool_decide (tokenSrc = Bonded) && IsBonded validator then mret tt
  else if not_bonded_src tokenSrc && negb (IsBonded validator) then mret tt
  else if not_bonded_src tokenSrc && IsBonded validator then notBondedTokensToBonded bondAmt
  else if bool_decide (tokenSrc = Bonded) && negb (IsBonded validator) then bondedTokensToNotBonded bondAmt
  else errM "unknown token source bond status".
Definition Delegate (delAddr : string) (bondAmt : Z) (tokenSrc : BondStatus) (validator : Validator)
    (subtractAccount : bool) : GoM StakingState Z :=
  _ ← liftM (guard_err (InvalidExRate validator) ErrDelegatorShareExRateInvalid);
  valbz ← liftM (ValStringToBytes (OperatorAddress validator));
  delegation ← get_or_create_delegation delAddr valbz validator;
  _ ← move_tokens delAddr bondAmt tokenSrc validator subtractAccount;
  '(_, newShares) ← AddValidatorTokensAndShares validator bondAmt;
  shares ← liftM (Dec_Add (Shares delegation) newShares);
  _ ← SetDelegation (set_Shares shares delegation);
  _ ← AfterDelegationModified hooks delAddr valbz;
  mret newShares.

(** Jail a validator whose operator's own delegation falls below the minimum. *)
Definition jail_below_minimum (delegatorAddress valbz : string) (delegation : Delegation) (validator : Validator)
    : GoM StakingState Validator :=
  if str_eq delegatorAddress valbz && negb (Jailed validator) then
    worth ← liftM (TokensFromShares (Shares delegation) validator);
    tokens ← liftM (Dec_TruncateInt worth);
    if Int_LT tokens (MinSelfDelegation validator) then
      _ ← jailValidator validator;
      GetValidator valbz
    else mret validator
  else mret validator.
Definition Unbond (delAddr valAddr : string) (shares : Z) : GoM StakingState Z :=
  found ← readM (λ s, Delegations s !! (delAddr, valAddr));
  match found with
  | None => errM ErrNoDelegatorForAddress
  | Some delegation =>
      _ ← BeforeDelegationSharesModified hooks delAddr valAddr;
      _ ← liftM (guard_err (Dec_LT (Shares delegation) shares) ErrNotEnoughDelegationShares);
      validator ← GetValidator valAddr;
      left_ ← liftM (Dec_Sub (Shares delegation) shares);
      let delegation := set_Shares left_ delegation in
      delegatorAddress ← liftM (StringToBytes (DelegatorAddress delegation));
      valbz ← liftM (ValStringToBytes (OperatorAddress validator));
      validator ← jail_below_minimum delegatorAddress valbz delegation validator;
      _ ← (if Dec_IsZero (Shares delegation) then RemoveDelegation delegation
           else _ ← SetDelegation delegation;
                valAddr ← liftM (ValStringToBytes (ValidatorAddress delegation));
                AfterDelegationModified hooks delegatorAddress valAddr);
      '(validator, amount) ← RemoveValidatorTokensAndShares validator shares;
      _ ← (if Dec_IsZero (DelegatorShares validator) && IsUnbonded validator then RemoveValidator valbz else mret tt);
      mret amount
  end.

(** *** Unbonding delegations *)

Definition GetUnbondingDelegation (delAddr valAddr : string) : GoM StakingState UnbondingDelegation :=
  u ← readM (λ s, UnbondingDelegations s !! (delAddr, valAddr));
  liftM (match u with Some u => Ok u | None => Err ErrNoUnbondingDelegation end).
Definition HasMaxUnbondingDelegationEntries (delAddr valAddr : string) : GoM StakingState bool :=
  u ← readM (λ s, UnbondingDelegations s !! (delAddr, valAddr));
  maxEntries ← MaxEntries_param;
  mret (maxEntries <=? Z.of_nat (length (from_option Entries [] u))).
Definition SetUnbondingDelegation (ubd : UnbondingDelegation) : GoM StakingState unit :=
  delAddr ← liftM (StringToBytes (ubd_DelegatorAddress ubd));
  valAddr ← liftM (ValStringToBytes (ubd_ValidatorAddress ubd));
  _ ← modifyM (with_UnbondingDelegations <[(delAddr, valAddr) := ubd]>);
  modifyM (with_UnbondingDelegationByValIndex (union {[(valAddr, delAddr)]})).
Definition RemoveUnbondingDelegation (ubd : UnbondingDelegation) : GoM StakingState unit :=
  delAddr ← liftM (StringToBytes (ubd_DelegatorAddress ubd));
  valAddr ← liftM (ValStringToBytes (ubd_ValidatorAddress ubd));
  _ ← modifyM (with_UnbondingDelegations (delete (delAddr, valAddr)));
  modifyM (with_UnbondingDelegationByValIndex (λ m, m ∖ {[(valAddr, delAddr)]})).
Definition NewUnbondingDelegation (delegatorAddr validatorAddr : string) (creationHeight minTime balance : Z)
    : outcome UnbondingDelegation :=
  valAddr ← must (ValBytesToString validatorAddr);
  delAddr ← must (BytesToString delegatorAddr);
  Ok (mkUnbondingDelegation delAddr valAddr [NewUnbondingDelegationEntry creationHeight minTime balance]).
Definition SetUnbondingDelegationEntry (delegatorAddr validatorAddr : string) (creationHeight minTime balance : Z)
    : GoM StakingState UnbondingDelegation :=
  u ← readM (λ s, UnbondingDelegations s !! (delegatorAddr, validatorAddr));
  ubd ← liftM (match u with
               | Some ubd => entries ← AddEntry creationHeight minTime balance (Entries ubd); Ok (set_Entries entries ubd)
               | None => NewUnbondingDelegation delegatorAddr validatorAddr creationHeight minTime balance
               end);
  _ ← SetUnbondingDelegation ubd;
  mret ubd.

Definition GetUBDQueueTimeSlice (timestamp : Z) : GoM StakingState (list DVPair) :=
  readM (λ s, default [] (UnbondingQueue s !! timestamp)).
Definition SetUBDQueueTimeSlice (timestamp : Z) (keys : list DVPair) : GoM StakingState unit :=
  modifyM (with_UnbondingQueue <[timestamp := keys]>).
Definition InsertUBDQueue (ubd : UnbondingDelegation) (completionTime : Z) : GoM StakingState unit :=
  let dvPair := mkDVPair (ubd_DelegatorAddress ubd) (ubd_ValidatorAddress ubd) in
  timeSlice ← GetUBDQueueTimeSlice completionTime;
  if (length timeSlice =? 0)%nat then SetUBDQueueTimeSlice completionTime [dvPair]
  else SetUBDQueueTimeSlice completionTime (timeSlice ++ [dvPair]).
(** The entries of a queue up to a time, in the order of their times. *)
Definition slice_le {A} (x y : Z * A) : Prop := x.1 <= y.1.
#[global] Instance slice_le_dec {A} (x y : Z * A) : Decision (slice_le x y).
Proof. apply Z_le_dec. Defined.
Definition mature_slices {A} (currTime : Z) (queue : gmap Z A) : list (Z * A) :=
  merge_sort slice_le (filter (λ kv : Z * A, kv.1 <= currTime) (map_to_list queue)).
Definition DequeueAllMatureUBDQueue (currTime : Z) : GoM StakingState (list DVPair) :=
  slices ← readM (λ s, mature_slices currTime (UnbondingQueue s));
  _ ← forM_ (λ kv, modifyM (with_UnbondingQueue (delete kv.1))) slices;
  mret (concat (map snd slices)).

Definition Undelegate (delAddr valAddr : string) (sharesAmount : Z) : GoM StakingState (Z * Z) :=
  validator ← GetValidator valAddr;
  hasMaxEntries ← HasMaxUnbondingDelegationEntries delAddr valAddr;
  _ ← liftM (guard_err hasMaxEntries ErrMaxUnbondingDelegationEntries);
  returnAmount ← Unbond delAddr valAddr sharesAmount;
  _ ← (if IsBonded validator then bondedTokensToNotBonded returnAmount else mret tt);
  unbondingTime ← UnbondingTime_param;
  let completionTime := h_Time h + unbondingTime in
  ubd ← SetUnbondingDelegationEntry delAddr valAddr (h_Height h) completionTime returnAmount;
  _ ← InsertUBDQueue ubd completionTime;
  mret (completionTime, returnAmount).

(** The loop of [CompleteUnbonding]: the mature entries are paid out and
    removed, the others kept in order. *)
Fixpoint complete_entries (bondDenom delegatorAddress : string) (entries : list UnbondingDelegationEntry) (balances : Coins)
    : GoM StakingState (list UnbondingDelegationEntry * Coins) :=
  match entries with
  | [] => mret ([], balances)
  | entry :: rest =>
      if IsMature (h_Time h) entry then
        balances ← (if Int_IsZero (Balance entry) then mret balances
                    else amt ← liftM (NewCoin bondDenom (Balance entry));
                         coins ← liftM (NewCoins [amt]);
                         _ ← on_bank (UndelegateCoinsFromModuleToAccount bk Unix NotBondedPoolName delegatorAddress coins);
                         liftM (Coins_Add balances [amt]));
        complete_entries bondDenom delegatorAddress rest balances
      else '(kept, balances) ← complete_entries bondDenom delegatorAddress rest balances;
           mret (entry :: kept, balances)
  end.
Definition CompleteUnbonding (delAddr valAddr : string) : GoM StakingState Coins :=
  ubd ← GetUnbondingDelegation delAddr valAddr;
  bondDenom ← BondDenom;
  balances ← liftM (NewCoins []);
  delegatorAddress ← liftM (StringToBytes (ubd_DelegatorAddress ubd));
  '(entries, balances) ← complete_entries bondDenom delegatorAddress (Entries ubd) balances;
  let ubd := set_Entries entries ubd in
  _ ← (if (length entries =? 0)%nat then RemoveUnbondingDelegation ubd else SetUnbondingDelegation ubd);
  mret balances.

(** *** Redelegations *)

Definition HasReceivingRedelegation (delAddr valDstAddr : string) : GoM StakingState bool :=
  readM (λ s, existsb (λ key : string * string * string, str_eq key.1.1 valDstAddr && str_eq key.1.2 delAddr)
                      (elements (RedelegationsByValDst s))).
Definition HasMaxRedelegationEntries (delAddr valSrcAddr valDstAddr : string) : GoM StakingState bool :=
  r ← readM (λ s, Redelegations s !! (delAddr, valSrcAddr, valDstAddr));
  match r with
  | None => mret false
  | Some red => maxEntries ← MaxEntries_param; mret (maxEntries <=? Z.of_nat (length (red_Entries red)))
  end.
Definition SetRedelegation (red : Redelegation) : GoM StakingState unit :=
  delegatorAddress ← liftM (StringToBytes (red_DelegatorAddress red));
  valSrcAddr ← liftM (ValStringToBytes (ValidatorSrcAddress red));
  valDestAddr ← liftM (ValStringToBytes (ValidatorDstAddress red));
  _ ← modifyM (with_Redelegations <[(delegatorAddress, valSrcAddr, valDestAddr) := red]>);
  _ ← modifyM (with_RedelegationsByValSrc (union {[(valSrcAddr, delegatorAddress, valDestAddr)]}));
  modifyM (with_RedelegationsByValDst (union {[(valDestAddr, delegatorAddress, valSrcAddr)]})).
Definition RemoveRedelegation (red : Redelegation) : GoM StakingState unit :=
  delegatorAddress ← liftM (StringToBytes (red_DelegatorAddress red));
  valSrcAddr ← liftM (ValStringToBytes (ValidatorSrcAddress red));
  valDestAddr ← liftM (ValStringToBytes (ValidatorDstAddress red));
  _ ← modifyM (with_Redelegations (delete (delegatorAddress, valSrcAddr, valDestAddr)));
  _ ← modifyM (with_RedelegationsByValSrc (λ m, m ∖ {[(valSrcAddr, delegatorAddress, valDestAddr)]}));
  modifyM (with_RedelegationsByValDst (λ m, m ∖ {[(valDestAddr, delegatorAddress, valSrcAddr)]})).
Definition NewRedelegation (delegatorAddr validatorSrcAddr validatorDstAddr : string)
    (creationHeight minTime balance sharesDst : Z) : outcome Redelegation :=
  valSrcAddr ← must (ValBytesToString validatorSrcAddr);
  valDstAddr ← must (ValBytesToString validatorDstAddr);
  delAddr ← must (BytesToString delegatorAddr);
  Ok (mkRedelegation delAddr valSrcAddr valDstAddr [NewRedelegationEntry creationHeight minTime balance sharesDst]).
Definition SetRedelegationEntry (delegatorAddr validatorSrcAddr validatorDstAddr : string)
    (creationHeight minTime balance sharesDst : Z) : GoM StakingState Redelegation :=
  r ← readM (λ s, Redelegations s !! (delegatorAddr, validatorSrcAddr, validatorDstAddr));
  red ← liftM (match r with
               | Some red => Ok (red_AddEntry creationHeight minTime balance sharesDst red)
               | None => NewRedelegation delegatorAddr validatorSrcAddr validatorDstAddr creationHeight minTime balance sharesDst
               end);
  _ ← SetRedelegation red;
  mret red.

Definition GetRedelegationQueueTimeSlice (timestamp : Z) : GoM StakingState (list DVVTriplet) :=
  readM (λ s, default [] (RedelegationQueue s !! timestamp)).
Definition SetRedelegationQueueTimeSlice (timestamp : Z) (keys : list DVVTriplet) : GoM StakingState unit :=
  modifyM (with_RedelegationQueue <[timestamp := keys]>).
Definition InsertRedelegationQueue (red : Redelegation) (completionTime : Z) : GoM StakingState unit :=
  timeSlice ← GetRedelegationQueueTimeSlice completionTime;
  let dvvTriplet := mkDVVTriplet (red_DelegatorAddress red) (ValidatorSrcAddress red) (ValidatorDstAddress red) in
  if (length timeSlice =? 0)%nat then SetRedelegationQueueTimeSlice completionTime [dvvTriplet]
  else SetRedelegationQueueTimeSlice completionTime (timeSlice ++ [dvvTriplet]).
(** The queue is read up to the block time, whatever [currTime] is. *)
Definition DequeueAllMatureRedelegationQueue (currTime : Z) : GoM StakingState (list DVVTriplet) :=
  slices ← readM (λ s, mature_slices (h_Time h) (RedelegationQueue s));
  _ ← forM_ (λ kv, modifyM (with_RedelegationQueue (delete kv.1))) slices;
  mret (concat (map snd slices)).

(** The zero [time.Time]. *)
Definition no_time : Z := -62135596800 * 10 ^ 9.
(** The completion time and height of a redelegation, and whether it completes
    at once.  A source validator that is gone gives the zero values. *)
Definition getBeginInfo (valSrcAddr : string) : GoM StakingState (Z * Z * bool) :=
  v ← readM (λ s, Validators s !! valSrcAddr);
  match v with
  | None => mret (no_time, 0, false)
  | Some validator =>
      unbondingTime ← UnbondingTime_param;
      if IsBonded validator then mret (h_Time h + unbondingTime, h_Height h, false)
      else if IsUnbonded validator then mret (no_time, 0, true)
      else if IsUnbonding validator then mret (UnbondingTime validator, UnbondingHeight validator, false)
      else errM "unknown validator status"
  end.
Definition BeginRedelegation (delAddr valSrcAddr valDstAddr : string) (sharesAmount : Z) : GoM StakingState Z :=
  _ ← liftM (guard_err (str_eq valSrcAddr valDstAddr) ErrSelfRedelegation);
  dst ← readM (λ s, Validators s !! valDstAddr);
  dstValidator ← liftM (match dst with Some v => Ok v | None => Err ErrBadRedelegationDst end);
  src ← readM (λ s, Validators s !! valSrcAddr);
  srcValidator ← liftM (match src with Some v => Ok v | None => Err ErrBadRedelegationSrc end);
  hasRecRedel ← HasReceivingRedelegation delAddr valSrcAddr;
  _ ← liftM (guard_err hasRecRedel ErrTransitiveRedelegation);
  hasMaxRedels ← HasMaxRedelegationEntries delAddr valSrcAddr valDstAddr;
  _ ← liftM (guard_err hasMaxRedels ErrMaxRedelegationEntries);
  returnAmount ← Unbond delAddr valSrcAddr sharesAmount;
  _ ← liftM (guard_err (Int_IsZero returnAmount) ErrTinyRedelegationAmount);
  sharesCreated ← Delegate delAddr returnAmount (Status srcValidator) dstValidator false;
  '(completionTime, height, completeNow) ← getBeginInfo valSrcAddr;
  if completeNow : bool then mret completionTime
  else red ← SetRedelegationEntry delAddr valSrcAddr valDstAddr height completionTime returnAmount sharesCreated;
       _ ← InsertRedelegationQueue red completionTime;
       mret completionTime.

(** The loop of [CompleteRedelegation]. *)
Definition complete_red_entry (bondDenom : string) (balances : Coins) (entry : RedelegationEntry) : outcome Coins :=
  if red_IsMature (h_Time h) entry && negb (Int_IsZero (re_InitialBalance entry)) then
    c ← NewCoin bondDenom (re_InitialBalance entry); Coins_Add balances [c]
  else Ok balances.
Definition CompleteRedelegation (delAddr valSrcAddr valDstAddr : string) : GoM StakingState Coins :=
  r ← readM (λ s, Redelegations s !! (delAddr, valSrcAddr, valDstAddr));
  red ← liftM (match r with Some red => Ok red | None => Err ErrNotFound end);
  bondDenom ← BondDenom;
  balances ← liftM (NewCoins []);
  balances ← liftM (foldM (complete_red_entry bondDenom) balances (red_Entries red));
  let red := set_red_Entries (filter (λ e, red_IsMature (h_Time h) e = false) (red_Entries red)) red in
  _ ← (if (length (red_Entries red) =? 0)%nat then RemoveRedelegation red else SetRedelegation red);
  mret balances.

(** *** The end of a block: the queues part of [BlockValidatorUpdates] *)

(** An error of the completion is skipped; what it wrote before remains. *)
Definition or_continue {A} (m : GoM StakingState A) : GoM StakingState (option A) := λ s,
  match m s with
  | (Ok a, s') => (Ok (Some a), s')
  | (Err _, s') => (Ok None, s')
  | (Panic p, s') => (Panic p, s')
  end.
Definition complete_pair (dvPair : DVPair) : GoM StakingState unit :=
  addr ← liftM (ValStringToBytes (dv_ValidatorAddress dvPair));
  delegatorAddress ← liftM (StringToBytes (dv_DelegatorAddress dvPair));
  _ ← or_continue (CompleteUnbonding delegatorAddress addr);
  mret tt.
Definition complete_triplet (dvvTriplet : DVVTriplet) : GoM StakingState unit :=
  valSrcAddr ← liftM (ValStringToBytes (dvv_ValidatorSrcAddress dvvTriplet));
  valDstAddr ← liftM (ValStringToBytes (dvv_ValidatorDstAddress dvvTriplet));
  delegatorAddress ← liftM (StringToBytes (dvv_DelegatorAddress dvvTriplet));
  _ ← or_continue (CompleteRedelegation delegatorAddress valSrcAddr valDstAddr);
  mret tt.
Definition complete_queues : GoM StakingState unit :=
  _ ← UnbondAllMatureValidators;
  matureUnbonds ← DequeueAllMatureUBDQueue (h_Time h);
  _ ← forM_ complete_pair matureUnbonds;
  matureRedelegations ← DequeueAllMatureRedelegationQueue (h_Time h);
  forM_ complete_triplet matureRedelegations.

(** ** Slashing: keeper/slash.go *)

(** The loop of [SlashUnbondingDelegation]: [done] are the entries already
    visited, with their new balances; every change is stored at once. *)
Fixpoint slash_entries (infractionHeight slashFactor : Z) (ubd : UnbondingDelegation)
    (done entries : list UnbondingDelegationEntry) (totalSlashAmount burnedAmount : Z) : GoM StakingState (Z * Z) :=
  match entries with
  | [] => mret (totalSlashAmount, burnedAmount)
  | entry :: rest =>
      if CreationHeight entry <? infractionHeight then
        slash_entries infractionHeight slashFactor ubd (done ++ [entry]) rest totalSlashAmount burnedAmount
      else if IsMature (h_Time h) entry then
        slash_entries infractionHeight slashFactor ubd (done ++ [entry]) rest totalSlashAmount burnedAmount
      else
        slashAmountDec ← liftM (Dec_MulInt slashFactor (InitialBalance entry));
        slashAmount ← liftM (Dec_TruncateInt slashAmountDec);
        totalSlashAmount ← liftM (Int_Add totalSlashAmount slashAmount);
        let unbondingSlashAmount := MinInt slashAmount (Balance entry) in
        if Int_IsZero unbondingSlashAmount then
          slash_entries infractionHeight slashFactor ubd (done ++ [entry]) rest totalSlashAmount burnedAmount
        else
          burnedAmount ← liftM (Int_Add burnedAmount unbondingSlashAmount);
          balance ← liftM (Int_Sub (Balance entry) unbondingSlashAmount);
          let done := done ++ [set_Balance balance entry] in
          _ ← SetUnbondingDelegation (set_Entries (done ++ rest) ubd);
          slash_entries infractionHeight slashFactor ubd done rest totalSlashAmount burnedAmount
  end.
Definition SlashUnbondingDelegation (ubd : UnbondingDelegation) (infractionHeight slashFactor : Z) : GoM StakingState Z :=
  '(totalSlashAmount, burnedAmount) ← slash_entries infractionHeight slashFactor ubd [] (Entries ubd) ZeroInt ZeroInt;
  _ ← burnNotBondedTokens burnedAmount;
  mret totalSlashAmount.

(** The inner loop of [SlashRedelegation], over the unbonding delegation from the
    destination; the result is what is left to slash and what was burned. *)
Fixpoint slash_unbonding_first (infractionHeight : Z) (ubd : UnbondingDelegation) (done entries : list UnbondingDelegationEntry)
    (slashAmount notBondedBurnedAmount : Z) : GoM StakingState (Z * Z) :=
  match entries with
  | [] => mret (slashAmount, notBondedBurnedAmount)
  | entry :: rest =>
      let unbondingSlashAmount := MinInt slashAmount (Balance entry) in
      if Int_IsZero unbondingSlashAmount || (CreationHeight entry <? infractionHeight) || IsMature (h_Time h) entry then
        slash_unbonding_first infractionHeight ubd (done ++ [entry]) rest slashAmount notBondedBurnedAmount
      else
        slashAmount ← liftM (Int_Sub slashAmount unbondingSlashAmount);
        notBondedBurnedAmount ← liftM (Int_Add notBondedBurnedAmount unbondingSlashAmount);
        balance ← liftM (Int_Sub (Balance entry) unbondingSlashAmount);
        let done := done ++ [set_Balance balance entry] in
        _ ← SetUnbondingDelegation (set_Entries (done ++ rest) ubd);
        slash_unbonding_first infractionHeight ubd done rest slashAmount notBondedBurnedAmount
  end.
(** What is left is unbonded from the destination validator and burned from its
    pool; the burned amounts are (bonded, not bonded). *)
Definition slash_delegation (delegatorAddress valDstAddr : string) (slashAmount : Z) (burned : Z * Z)
    : GoM StakingState (Z * Z) :=
  dstVal ← GetValidator valDstAddr;
  sharesToUnbond ← liftM (match SharesFromTokensTruncated slashAmount dstVal with Err _ => Ok LegacyZeroDec | r => r end);
  if Dec_IsZero sharesToUnbond then mret burned
  else
    found ← readM (λ s, Delegations s !! (delegatorAddress, valDstAddr));
    match found with
    | None => mret burned
    | Some delegation =>
        let sharesToUnbond := if Dec_GT sharesToUnbond (Shares delegation) then Shares delegation else sharesToUnbond in
        tokensToBurn ← Unbond delegatorAddress valDstAddr sharesToUnbond;
        dst ← readM (λ s, Validators s !! valDstAddr);
        match dst with
        | None => n ← liftM (Int_Add burned.2 tokensToBurn); mret (burned.1, n)
        | Some dstValidator =>
            if IsBonded dstValidator then b ← liftM (Int_Add burned.1 tokensToBurn); mret (b, burned.2)
            else if IsUnbonded dstValidator || IsUnbonding dstValidator then
              n ← liftM (Int_Add burned.2 tokensToBurn); mret (burned.1, n)
            else errM "unknown validator status"
        end
    end.
(** One entry of [SlashRedelegation]: the total and the burned amounts. *)
Definition slash_red_entry (delegatorAddress valDstAddr : string) (infractionHeight slashFactor : Z)
    (acc : Z * (Z * Z)) (entry : RedelegationEntry) : GoM StakingState (Z * (Z * Z)) :=
  if re_CreationHeight entry <? infractionHeight then mret acc
  else if red_IsMature (h_Time h) entry && negb (OnHold entry) then mret acc
  else
    slashAmountDec ← liftM (Dec_MulInt slashFactor (re_InitialBalance entry));
    slashAmount ← liftM (Dec_TruncateInt slashAmountDec);
    totalSlashAmount ← liftM (Int_Add acc.1 slashAmount);
    u ← readM (λ s, UnbondingDelegations s !! (delegatorAddress, valDstAddr));
    '(slashAmount, notBonded) ←
      match u with
      | Some ubd => slash_unbonding_first infractionHeight ubd [] (Entries ubd) slashAmount acc.2.2
      | None => mret (slashAmount, acc.2.2)
      end;
    if Int_IsZero slashAmount then mret (totalSlashAmount, (acc.2.1, notBonded))
    else burned ← slash_delegation delegatorAddress valDstAddr slashAmount (acc.2.1, notBonded);
         mret (totalSlashAmount, burned).
Definition SlashRedelegation (redelegation : Redelegation) (infractionHeight slashFactor : Z) : GoM StakingState Z :=
  valDstAddr ← liftM (ValStringToBytes (ValidatorDstAddress redelegation));
  delegatorAddress ← liftM (StringToBytes (red_DelegatorAddress redelegation));
  '(totalSlashAmount, (bonded, notBonded)) ←
    foldM (slash_red_entry delegatorAddress valDstAddr infractionHeight slashFactor) (ZeroInt, (ZeroInt, ZeroInt))
          (red_Entries redelegation);
  _ ← burnBondedTokens bonded;
  _ ← burnNotBondedTokens notBonded;
  mret totalSlashAmount.

(** The unbonding delegations and redelegations from a validator, read through
    their indexes in key order, where addresses are prefixed by their length. *)
Definition len_prefixed (addr : string) : string := String (byte (Z.of_nat (String.length addr))) addr.
Definition prefixed_le (x y : string) : Prop := String.le (len_prefixed x) (len_prefixed y).
Definition prefixed_pair_le (x y : string * string) : Prop :=
  String.le (len_prefixed x.1 +:+ len_prefixed x.2) (len_prefixed y.1 +:+ len_prefixed y.2).
#[global] Instance prefixed_le_dec x y : Decision (prefixed_le x y).
Proof. unfold prefixed_le. apply _. Defined.
#[global] Instance prefixed_pair_le_dec x y : Decision (prefixed_pair_le x y).
Proof. unfold prefixed_pair_le. apply _. Defined.
Definition GetUnbondingDelegationsFromValidator (valAddr : string) : GoM StakingState (list UnbondingDelegation) :=
  delAddrs ← readM (λ s, merge_sort prefixed_le
                           (omap (λ key : string * string, if str_eq key.1 valAddr then Some key.2 else None)
                                 (elements (UnbondingDelegationByValIndex s))));
  traverse (λ delAddr, readM (λ s, default (mkUnbondingDelegation "" "" []) (UnbondingDelegations s !! (delAddr, valAddr))))
           delAddrs.
Definition GetRedelegationsFromSrcValidator (valAddr : string) : GoM StakingState (list Redelegation) :=
  keys ← readM (λ s, merge_sort prefixed_pair_le
                       (omap (λ key : string * string * string,
                                if str_eq key.1.1 valAddr then Some (key.1.2, key.2) else None)
                             (elements (RedelegationsByValSrc s))));
  traverse (λ key : string * string,
              r ← readM (λ s, Redelegations s !! (key.1, valAddr, key.2));
              liftM (match r with Some red => Ok red | None => Err ErrNotFound end)) keys.

Definition slash_unbondings (infractionHeight slashFactor remaining : Z) (ubd : UnbondingDelegation) : GoM StakingState Z :=
  amountSlashed ← SlashUnbondingDelegation ubd infractionHeight slashFactor;
  if Int_IsZero amountSlashed then mret remaining else liftM (Int_Sub remaining amountSlashed).
Definition slash_redelegations (infractionHeight slashFactor remaining : Z) (red : Redelegation) : GoM StakingState Z :=
  amountSlashed ← SlashRedelegation red infractionHeight slashFactor;
  if Int_IsZero amountSlashed then mret remaining else liftM (Int_Sub remaining amountSlashed).
(** The slash amount left for the validator itself. *)
Definition slash_past (operatorAddress : string) (infractionHeight slashFactor slashAmount : Z) : GoM StakingState Z :=
  if h_Height h <? infractionHeight then errM "impossible attempt to slash future infraction"
  else if infractionHeight =? h_Height h then mret slashAmount
  else
    unbondingDelegations ← GetUnbondingDelegationsFromValidator operatorAddress;
    remaining ← foldM (slash_unbondings infractionHeight slashFactor) slashAmount unbondingDelegations;
    redelegations ← GetRedelegationsFromSrcValidator operatorAddress;
    foldM (slash_redelegations infractionHeight slashFactor) remaining redelegations.
Definition effective_fraction (tokensToBurn tokens : Z) : outcome Z :=
  b ← LegacyNewDecFromInt tokensToBurn;
  t ← LegacyNewDecFromInt tokens;
  effectiveFraction ← Dec_QuoRoundUp b t;
  Ok (if Dec_GT effectiveFraction LegacyOneDec then LegacyOneDec else effectiveFraction).
(** Burn what is left of the slash amount from the validator. *)
Definition slash_validator (operatorAddress : string) (validator : Validator) (remainingSlashAmount : Z) : GoM StakingState Z :=
  let tokensToBurn := MaxInt (MinInt remainingSlashAmount (Tokens validator)) ZeroInt in
  if Int_IsZero tokensToBurn then mret 0
  else
    _ ← (if Int_IsPositive (Tokens validator) then
           effectiveFraction ← liftM (effective_fraction tokensToBurn (Tokens validator));
           BeforeValidatorSlashed hooks operatorAddress effectiveFraction
         else mret tt);
    validator ← RemoveValidatorTokens validator tokensToBurn;
    _ ← (if IsBonded validator then burnBondedTokens tokensToBurn
         else if IsUnbonding validator || IsUnbonded validator then burnNotBondedTokens tokensToBurn
         else errM "invalid validator status");
    mret tokensToBurn.
Definition Slash (consBytesToString : string → outcome string) (consAddr : string) (infractionHeight power slashFactor : Z)
    : GoM StakingState Z :=
  _ ← liftM (guard_err (Dec_IsNegative slashFactor) "attempted to slash with a negative slash factor");
  amount ← liftM (TokensFromConsensusPower power PowerReduction);
  amountDec ← liftM (LegacyNewDecFromInt amount);
  slashAmountDec ← liftM (Dec_Mul amountDec slashFactor);
  slashAmount ← liftM (Dec_TruncateInt slashAmountDec);
  found ← (λ s, match GetValidatorByConsAddr consAddr s with
                | (Ok v, s') => (Ok (Some v), s')
                | (Err _, s') => (Ok None, s')
                | (Panic p, s') => (Panic p, s')
                end);
  match found with
  | None => _ ← liftM (consBytesToString consAddr); mret 0
  | Some validator =>
      _ ← liftM (guard_err (IsUnbonded validator) "should not be slashing unbonded validator");
      operatorAddress ← liftM (ValStringToBytes (OperatorAddress validator));
      _ ← BeforeValidatorModified hooks operatorAddress;
      remainingSlashAmount ← slash_past operatorAddress infractionHeight slashFactor slashAmount;
      slash_validator operatorAddress validator remainingSlashAmount
  end.

Definition Jail (consAddr : string) : GoM StakingState unit :=
  validator ← GetValidatorByConsAddr consAddr; jailValidator validator.
Definition Unjail (consAddr : string) : GoM StakingState unit :=
  validator ← GetValidatorByConsAddr consAddr; unjailValidator validator.

(** *** Reading: the entries of a delegator *)

(** [GetUnbondingDelegations] appends the results to a slice of [maxRetrieve]
    blank records and returns its first [i]. *)
Definition GetUnbondingDelegations (delegator : string) (maxRetrieve : nat) : GoM StakingState (list UnbondingDelegation) :=
  all ← readM (λ s, map snd (merge_sort (λ x y : string * UnbondingDelegation, prefixed_le x.1 y.1)
                      (omap (λ '((d, v), u), if str_eq d delegator then Some (v, u) else None)
                            (map_to_list (UnbondingDelegations s)))));
  let visited := take (Nat.max 1 maxRetrieve) all in
  mret (take (length visited) (replicate maxRetrieve (mkUnbondingDelegation "" "" []) ++ visited)).
End StakingOps.
