(* ===== verification/StakingBank.v ===== *)
(** * The two staking pools in the bank

    What the bank operations of the staking keeper do to the balances of the
    bonded and the not bonded pool: [moves].  The accounts of the pools are found
    under their own addresses because the account keeper stores every account
    under the address it carries ([addr_ok]), which each operation keeps. *)
From S2P Require Import Prelude MathInt Coin CoinFacts Collections Account Vesting AuthKeeper AuthProps Bank BankFacts BankProps BankDelegation Validator Staking.

(** ** Accounts are stored under their own address *)

Section AddrOk.
Context {cfg : CoinConfig} {acfg : AddressConfig}.

Definition addr_ok (b : BankState) : Prop := ∀ a acc, accounts b !! a = Some acc → AccountI_GetAddress acc = a.
Definition keeps_addr {A} (m : GoM BankState A) : Prop := ∀ s r s', m s = (r, s') → addr_ok s → addr_ok s'.

Lemma keeps_addr_auth {A} (m : GoM BankState A) : keeps_auth m → keeps_addr m.
Proof. intros Hm s r s' H Hok. unfold addr_ok, accounts. by rewrite (Hm _ _ _ H). Qed.
Lemma keeps_addr_bind {A B} (m : GoM BankState A) (f : A → GoM BankState B) :
  keeps_addr m → (∀ a, keeps_addr (f a)) → keeps_addr (m ≫= f).
Proof.
  intros Hm Hf s r s'. unfold mbind, GoM_bind. destruct (m s) as [o s1] eqn:E.
  intros H Hs. specialize (Hm _ _ _ E Hs). destruct o as [a|e|p]; [|by injection H as <- <-..]. by eapply Hf.
Qed.
Lemma keeps_addr_SetAccount acc : keeps_addr (on_auth (SetAccount acc)).
Proof.
  intros s r s'. unfold on_auth, SetAccount, mustM, on_accounts. rewrite UniqueMap_Set_eq. cbn zeta.
  case_bool_decide; intros [= <- <-] Hs a acc' Ha; cbn in Ha; [by apply Hs|].
  apply lookup_insert_Some in Ha as [[<- <-]|[_ Ha]]; [done|by apply Hs].
Qed.
Lemma keeps_addr_track k a f : keeps_addr (track_account k a f).
Proof.
  unfold track_account. apply keeps_addr_bind; [apply keeps_addr_auth, keeps_auth_GetAccount|].
  intros [[b|m|v]|]; try by intros s r s' [= <- <-].
  - apply keeps_addr_bind; [by intros s r s' [= <- <-]|intros; apply keeps_addr_SetAccount].
  - apply keeps_addr_bind; [by intros [] r s' [= <- <-]|]. by intros [] s r s' [= <- <-].
Qed.
Lemma keeps_addr_module k name : keeps_addr (module_account k name).
Proof.
  unfold module_account. apply keeps_addr_bind; [|by intros [] s r s' [= <- <-]].
  intros s r s'. unfold on_auth, GetModuleAccount, GetModuleAccountAndPermissions.
  destruct (GetModuleAddressAndPermissions (k_ak k) name) as [[addr perms]|]; [|by intros [= <- <-]].
  unfold mbind, GoM_bind, GetAccount, readM, liftM. cbn. destruct (um_map (Accounts (auth s)) !! addr) as [[| |]|];
    try by intros [= <- <-].
  destruct (NewEmptyModuleAccount name perms) as [m|e|p]; [|by intros [= <- <-]..].
  unfold mustM at 1, NextAccountNumber, mbind, GoM_bind, readM, modifyM. cbn.
  set (acc := mkModuleAccount _ _ _).
  destruct (SetAccount (ModuleAcc acc) _) as [o a1] eqn:E. intros H Hs.
  assert (addr_ok (mkBankState (Supply s) (DenomMetadata s) (SendEnabled s) (Balances s) (Params s) a1 (events s))) as Hok.
  { eapply (keeps_addr_SetAccount (ModuleAcc acc)
              (mkBankState (Supply s) (DenomMetadata s) (SendEnabled s) (Balances s) (Params s)
                 (mkAuthState (Accounts (auth s)) (Some (wrap_uint64 (from_option id (LegacyAccountNumber (auth s)) (AccountNumberSeq (auth s)) + 1)))
                    (LegacyAccountNumber (auth s))) (events s))); [|exact Hs].
    unfold on_auth. cbn [auth]. rewrite E. reflexivity. }
  by destruct o; injection H as <- <-.
Qed.

(** The module account of a registered name carries the address of the module. *)
Lemma module_account_address k name perms s m s' :
  bech32_roundtrip → registered (k_ak k) name perms → addr_ok s → module_account k name s = (Ok m, s') →
  macc_address m = address_Module name.
Proof.
  intros Hrt (Hp & Hv & Hva) Hs H. unfold module_account in H. apply GoM_bind_Ok in H as (acc & s1 & H & H2).
  destruct acc as [m'|]; [|done]. injection H2 as -> <-.
  unfold on_auth, GetModuleAccount, GetModuleAccountAndPermissions, GetModuleAddressAndPermissions in H. rewrite Hp in H.
  cbn [fmap option_fmap option_map] in H. unfold mbind, GoM_bind, GetAccount, readM, liftM in H. cbn in H.
  unfold NewModuleAddress in H. destruct (um_map (Accounts (auth s)) !! address_Module name) as [[| |]|] eqn:E; try done.
  - injection H as <- <-. by apply Hs in E.
  - unfold NewEmptyModuleAccount in H. rewrite Hv in H. cbn in H. unfold mustM at 1, NextAccountNumber, mbind, GoM_bind, readM, modifyM in H.
    cbn in H. destruct (SetAccount _ _) as [[[]|e|p] a1]; try done. injection H as <- <-.
    unfold macc_address, BaseAccount_GetAddress. cbn. by rewrite Hrt by done.
Qed.
End AddrOk.
#[export] Hint Resolve keeps_addr_bind keeps_addr_SetAccount keeps_addr_track keeps_addr_module : bank.

(** ** What the staking keeper relies on *)

(** The pools are registered module accounts with different addresses, addresses of
    1 to 255 bytes round trip through bech32, and send restrictions, which change neither
    balances nor supply, do not redirect transfers between the pools and keep the
    accounts under their addresses. *)
Class PoolConfig {acfg : AddressConfig} (k : BaseKeeper) : Prop := {
  pc_quiet :: QuietRestrictions k;
  pc_bech32 : bech32_roundtrip;
  pc_bonded : ∃ perms, registered (k_ak k) BondedPoolName perms;
  pc_not_bonded : ∃ perms, registered (k_ak k) NotBondedPoolName perms;
  pc_distinct : address_Module BondedPoolName ≠ address_Module NotBondedPoolName;
  pc_direct : ∀ from to amt s to' s', from ∈ [address_Module BondedPoolName; address_Module NotBondedPoolName] →
    sendRestriction_apply k from to amt s = (Ok to', s') → to' = to;
  pc_addr : ∀ from to amt, keeps_addr (sendRestriction_apply k from to amt);
}.

Section Moves.
Context {cfg : CoinConfig} {acfg : AddressConfig}.
Context (k : BaseKeeper) {HP : PoolConfig k}.
Variable t : Z.

Definition bonded_addr : string := address_Module BondedPoolName.
Definition not_bonded_addr : string := address_Module NotBondedPoolName.
Definition is_pool (a : string) : Prop := a = bonded_addr ∨ a = not_bonded_addr.
(** Who may delegate: an account other than the pools, with an address that has a
    bech32 form. *)
Definition staker (d : string) : Prop := ¬ is_pool d ∧ valid_address d.
Definition delegation_key (d a : string) : Prop := staker d ∧ valid_address a.

(** The pools gained [fB] and [fN]; supply and accounts stayed consistent. *)
Record moves (fB fN : string → Z) (b b' : BankState) : Prop := {
  mv_bonded d : bal b' bonded_addr d = bal b bonded_addr d + fB d;
  mv_not_bonded d : bal b' not_bonded_addr d = bal b not_bonded_addr d + fN d;
  mv_inv : bank_inv b → bank_inv b';
  mv_addr : addr_ok b → addr_ok b';
}.

Lemma moves_refl b : moves (λ _, 0) (λ _, 0) b b.
Proof. split; try done; intros; lia. Qed.
Lemma moves_trans f1 g1 f2 g2 b b1 b2 :
  moves f1 g1 b b1 → moves f2 g2 b1 b2 → moves (λ d, f1 d + f2 d) (λ d, g1 d + g2 d) b b2.
Proof.
  intros [A1 A2 A3 A4] [B1 B2 B3 B4]. split; [intros d; rewrite B1, A1; lia|intros d; rewrite B2, A2; lia|auto..].
Qed.
Lemma moves_ext f1 g1 f2 g2 b b' :
  (∀ d, f1 d = f2 d) → (∀ d, g1 d = g2 d) → moves f1 g1 b b' → moves f2 g2 b b'.
Proof. intros Hf Hg [H1 H2 H3 H4]. split; try done; intros d; [by rewrite H1, Hf|by rewrite H2, Hg]. Qed.

Lemma transfer_shift_pool from to amt a d :
  transfer_shift from to amt a d = (if decide (from = a) then - amount amt d else 0) + (if decide (to = a) then amount amt d else 0).
Proof. done. Qed.
(** A transfer moves the pools by what leaves and enters them. *)
Lemma moves_shift from to amt b b' :
  shift (transfer_shift from to amt) (λ _, 0) b b' → (addr_ok b → addr_ok b') →
  moves (transfer_shift from to amt bonded_addr) (transfer_shift from to amt not_bonded_addr) b b'.
Proof. intros Hs Ha. split; [apply Hs|apply Hs|by eapply bank_inv_shift|done]. Qed.

Lemma pool_module_address name perms : registered (k_ak k) name perms → GetModuleAddress (k_ak k) name = Some (address_Module name).
Proof. intros [Hp _]. unfold GetModuleAddress. by rewrite Hp. Qed.

Lemma keeps_addr_SendCoins from to amt : keeps_addr (SendCoins k t from to amt).
Proof.
  unfold SendCoins. apply keeps_addr_bind; [apply keeps_addr_auth, keeps_auth_liftM|]. intros _.
  apply keeps_addr_bind; [apply pc_addr|]. intros to'. apply keeps_addr_auth.
  pose proof keeps_auth_subUnlockedCoins. pose proof keeps_auth_addCoins. keeps_auth_solve.
Qed.
Lemma keeps_addr_DelegateCoins from m amt : keeps_addr (DelegateCoins k t from m amt).
Proof.
  unfold DelegateCoins. do 3 (apply keeps_addr_bind; [apply keeps_addr_auth; auto with bank|intros ?]).
  apply keeps_addr_bind; [apply keeps_addr_auth; auto with bank|intros ?].
  apply keeps_addr_bind; [apply keeps_addr_auth, keeps_auth_delegate_loop|intros ?].
  apply keeps_addr_bind; [apply keeps_addr_track|intros ?]. apply keeps_addr_auth.
  pose proof keeps_auth_addCoins. keeps_auth_solve.
Qed.
Lemma keeps_addr_UndelegateCoins m to amt : keeps_addr (UndelegateCoins k t m to amt).
Proof.
  unfold UndelegateCoins. do 3 (apply keeps_addr_bind; [apply keeps_addr_auth; auto with bank|intros ?]).
  apply keeps_addr_bind; [apply keeps_addr_auth, keeps_auth_subUnlockedCoins|intros ?].
  apply keeps_addr_bind; [apply keeps_addr_track|intros ?]. apply keeps_addr_auth, keeps_auth_addCoins.
Qed.
Lemma keeps_auth_burn_supply c : keeps_auth (burn_supply c).
Proof.
  unfold burn_supply, GetSupply, setSupply. apply keeps_auth_bind.
  { apply keeps_auth_bind; [by intros s r s' [= <- <-]|intros; apply keeps_auth_liftM]. }
  intros x. apply keeps_auth_bind; [apply keeps_auth_liftM|]. intros y. case_match; by intros s r s' [= <- <-].
Qed.
Lemma keeps_addr_BurnCoins a amt : keeps_addr (BurnCoins t a amt).
Proof.
  apply keeps_addr_auth. unfold BurnCoins. apply keeps_auth_bind; [apply keeps_auth_GetAccount|]. intros [acc|]; [|by intros s r s' [= <- <-]].
  pose proof keeps_auth_subUnlockedCoins. pose proof keeps_auth_burn_supply. keeps_auth_solve.
Qed.

(** *** Between the pools, from an account, to an account, out of circulation *)

Lemma pool_send_shift from to amt b r b' :
  is_pool from → SendCoins k t from to amt b = (Ok r, b') → shift (transfer_shift from to amt) (λ _, 0) b b'.
Proof.
  intros Hf H. unfold SendCoins in H. apply GoM_bind_Ok in H as (? & s0 & [_ ->]%liftM_Ok & H).
  apply GoM_bind_Ok in H as (to' & s1 & Hr & H). pose proof (quiet_send _ _ _ _ _ _ Hr) as Hq.
  apply pc_direct in Hr as ->; [|destruct Hf as [->| ->]; set_solver].
  apply GoM_bind_Ok in H as (? & s2 & H2%subUnlockedCoins_inv & H).
  apply GoM_bind_Ok in H as (? & s3 & H3%addCoins_inv & H).
  apply GoM_bind_Ok in H as (? & s4 & [_ ->]%liftM_Ok & H).
  apply GoM_bind_Ok in H as (? & s4 & [_ ->]%liftM_Ok & H%EmitKV_quiet).
  eapply shift_quiet_l; [exact Hq|]. eapply shift_quiet_r; [|exact H]. by eapply shift_transfer.
Qed.
Lemma pool_transfer_moves n1 n2 p1 p2 amt b r b' :
  registered (k_ak k) n1 p1 → registered (k_ak k) n2 p2 → is_pool (address_Module n1) → addr_ok b →
  SendCoinsFromModuleToModule k t n1 n2 amt b = (Ok r, b') →
  moves (transfer_shift (address_Module n1) (address_Module n2) amt bonded_addr)
        (transfer_shift (address_Module n1) (address_Module n2) amt not_bonded_addr) b b'.
Proof.
  intros H1 H2 Hpool Hok H. unfold SendCoinsFromModuleToModule in H. rewrite (pool_module_address _ _ H1) in H.
  apply GoM_bind_Ok in H as (m & b1 & Hm & H). pose proof (module_account_quiet _ _ _ _ _ Hm) as Hq.
  pose proof (keeps_addr_module _ _ _ _ _ Hm Hok) as Hok1.
  rewrite (module_account_address _ _ _ _ _ _ pc_bech32 H2 Hok Hm) in H.
  apply moves_shift.
  - eapply shift_quiet_l; [exact Hq|]. by eapply pool_send_shift.
  - intros _. by eapply keeps_addr_SendCoins.
Qed.
Lemma bonded_to_not_bonded_moves amt b r b' :
  addr_ok b → SendCoinsFromModuleToModule k t BondedPoolName NotBondedPoolName amt b = (Ok r, b') →
  moves (λ d, - amount amt d) (amount amt) b b'.
Proof.
  intros Hok H. destruct pc_bonded as [p1 H1], pc_not_bonded as [p2 H2]. pose proof pc_distinct as Hne.
  eapply moves_ext; [| |eapply pool_transfer_moves; [exact H1|exact H2|by left|done|exact H]];
    intros d; rewrite transfer_shift_pool; unfold bonded_addr, not_bonded_addr; repeat case_decide; try congruence; lia.
Qed.
Lemma not_bonded_to_bonded_moves amt b r b' :
  addr_ok b → SendCoinsFromModuleToModule k t NotBondedPoolName BondedPoolName amt b = (Ok r, b') →
  moves (amount amt) (λ d, - amount amt d) b b'.
Proof.
  intros Hok H. destruct pc_bonded as [p1 H1], pc_not_bonded as [p2 H2]. pose proof pc_distinct as Hne.
  eapply moves_ext; [| |eapply pool_transfer_moves; [exact H2|exact H1|by right|done|exact H]];
    intros d; rewrite transfer_shift_pool; unfold bonded_addr, not_bonded_addr; repeat case_decide; try congruence; lia.
Qed.

Lemma delegate_moves del name perms amt b r b' :
  registered (k_ak k) name perms → ¬ is_pool del → addr_ok b →
  DelegateCoinsFromAccountToModule k t del name amt b = (Ok r, b') →
  moves (λ d, if decide (address_Module name = bonded_addr) then amount amt d else 0)
        (λ d, if decide (address_Module name = not_bonded_addr) then amount amt d else 0) b b'.
Proof.
  intros Hr Hdel Hok H. unfold DelegateCoinsFromAccountToModule in H.
  apply GoM_bind_Ok in H as (m & b1 & Hm & H). pose proof (module_account_quiet _ _ _ _ _ Hm) as Hq.
  pose proof (keeps_addr_module _ _ _ _ _ Hm Hok) as Hok1.
  apply GoM_bind_Ok in H as (? & b2 & [_ ->]%liftM_Ok & H).
  rewrite (module_account_address _ _ _ _ _ _ pc_bech32 Hr Hok Hm) in H.
  pose proof (keeps_addr_DelegateCoins _ _ _ _ _ _ H Hok1) as Hok2. apply DelegateCoins_inv in H.
  eapply moves_ext; [| |apply (moves_shift del (address_Module name) amt)];
    [| |by eapply shift_quiet_l|done]; intros d; rewrite transfer_shift_pool;
    rewrite (decide_False (P := del = _)) by (intros ->; apply Hdel; unfold is_pool; auto); lia.
Qed.
Lemma undelegate_moves del amt b r b' :
  ¬ is_pool del → addr_ok b →
  UndelegateCoinsFromModuleToAccount k t NotBondedPoolName del amt b = (Ok r, b') →
  moves (λ _, 0) (λ d, - amount amt d) b b'.
Proof.
  intros Hdel Hok H. destruct pc_not_bonded as [perms Hr]. unfold UndelegateCoinsFromModuleToAccount in H.
  apply GoM_bind_Ok in H as (m & b1 & Hm & H). pose proof (module_account_quiet _ _ _ _ _ Hm) as Hq.
  pose proof (keeps_addr_module _ _ _ _ _ Hm Hok) as Hok1.
  apply GoM_bind_Ok in H as (? & b2 & [_ ->]%liftM_Ok & H).
  rewrite (module_account_address _ _ _ _ _ _ pc_bech32 Hr Hok Hm) in H.
  pose proof (keeps_addr_UndelegateCoins _ _ _ _ _ _ H Hok1) as Hok2. apply UndelegateCoins_inv in H.
  pose proof pc_distinct as Hne.
  eapply moves_ext; [| |apply (moves_shift (address_Module NotBondedPoolName) del amt)];
    [| |by eapply shift_quiet_l|done]; intros d; rewrite transfer_shift_pool;
    rewrite (decide_False (P := del = _)) by (intros ->; apply Hdel; unfold is_pool; auto);
    unfold bonded_addr, not_bonded_addr; case_decide; try congruence; lia.
Qed.
Lemma burn_moves a amt b r b' :
  bank_inv b → addr_ok b → BurnCoins t a amt b = (Ok r, b') →
  moves (λ d, if decide (a = bonded_addr) then - amount amt d else 0)
        (λ d, if decide (a = not_bonded_addr) then - amount amt d else 0) b b'.
Proof.
  intros Hi Hok H. pose proof (keeps_BurnCoins _ _ _ _ _ _ H) as Hi'. pose proof (keeps_addr_BurnCoins _ _ _ _ _ H) as Ha.
  apply BurnCoins_inv in H as (acc & b0 & b1 & Hacc & _ & _ & Hs & Hss); [|apply Hi].
  assert (AccountI_GetAddress acc = a) as Ea.
  { apply Hok. unfold on_auth, GetAccount, readM in Hacc. injection Hacc as Hacc _. exact Hacc. }
  rewrite Ea in Hs. split; [| |done..]; intros d; unfold bal; rewrite (ss_bal _ _ _ Hss); apply (sh_bal _ _ _ _ Hs).
Qed.
End Moves.
