(* ===== verification/StakingFacts.v ===== *)
(** * Sums over the staking stores and the invariant of the keeper

    The part of the state the invariant is about ([core]: parameters, validators,
    delegations, unbonding delegations, redelegations and the bank), the sums over it, and what
    the writes of the keeper do to it. *)
From S2P Require Import Prelude MathInt LegacyDec Coin CoinFacts Collections Account Vesting AuthKeeper AuthProps Bank BankFacts BankProps BankDelegation Validator Staking StakingBank.

(** ** Sums over a finite map *)

Section MSum.
Context {K} `{Countable K} {A : Type}.
Implicit Types (f : K → A → Z) (m : gmap K A).

Definition msum f m : Z := map_fold (λ k a acc, f k a + acc) 0 m.
Lemma msum_empty f : msum f ∅ = 0.
Proof. apply map_fold_empty. Qed.
Lemma msum_insert_new f m k a : m !! k = None → msum f (<[k := a]> m) = f k a + msum f m.
Proof. intros Hk. unfold msum. rewrite map_fold_insert_L; [done| |done]. intros. lia. Qed.
Lemma msum_delete f m k : msum f (delete k m) = msum f m - from_option (f k) 0 (m !! k).
Proof.
  destruct (m !! k) as [a|] eqn:E; cbn.
  - rewrite <- (insert_delete_id m k a) at 2 by done. rewrite msum_insert_new by apply lookup_delete_eq. lia.
  - rewrite delete_id by done. lia.
Qed.
Lemma msum_insert f m k a : msum f (<[k := a]> m) = msum f m - from_option (f k) 0 (m !! k) + f k a.
Proof. rewrite <- insert_delete_eq, msum_insert_new by apply lookup_delete_eq. rewrite msum_delete. lia. Qed.
Lemma msum_nonneg f m : (∀ k a, m !! k = Some a → 0 <= f k a) → 0 <= msum f m.
Proof.
  induction m as [|k a m Hk IH] using map_ind; intros Hf; [by rewrite msum_empty|].
  rewrite msum_insert_new by done. assert (0 <= f k a) by (apply Hf, lookup_insert_eq).
  assert (0 <= msum f m); [|lia]. apply IH. intros k' a' Hk'. apply Hf. rewrite lookup_insert_ne; [done|congruence].
Qed.
Lemma msum_lookup_le f m k a : (∀ k a, m !! k = Some a → 0 <= f k a) → m !! k = Some a → f k a <= msum f m.
Proof.
  intros Hf Hk. pose proof (msum_delete f m k) as E. rewrite Hk in E. cbn in E.
  assert (0 <= msum f (delete k m)); [|lia]. apply msum_nonneg. intros k' a' [_ ?]%lookup_delete_Some. by apply Hf.
Qed.
End MSum.

(** ** The core of the state *)

Record Core := mkCore {
  c_params : option StakingParams;
  c_vals : gmap string Validator;
  c_dels : gmap (string * string) Delegation;
  c_ubds : gmap (string * string) UnbondingDelegation;
  c_reds : gmap (string * string * string) Redelegation;
  c_bank : BankState;
}.
Definition core (s : StakingState) : Core :=
  mkCore (stk_Params s) (Validators s) (Delegations s) (UnbondingDelegations s) (Redelegations s) (stk_bank s).

Definition shares_of (dels : gmap (string * string) Delegation) (valAddr : string) : Z :=
  msum (λ k d, if decide (k.2 = valAddr) then Shares d else 0) dels.
Definition bonded_tokens (vals : gmap string Validator) : Z := msum (λ _ v, if IsBonded v then Tokens v else 0) vals.
Definition not_bonded_tokens (vals : gmap string Validator) : Z := msum (λ _ v, if IsBonded v then 0 else Tokens v) vals.
Definition entries_balance (entries : list UnbondingDelegationEntry) : Z := foldr (λ e acc, Balance e + acc) 0 entries.
Definition unbonding_balance (ubds : gmap (string * string) UnbondingDelegation) : Z :=
  msum (λ _ u, entries_balance (Entries u)) ubds.

Lemma entries_balance_app l1 l2 : entries_balance (l1 ++ l2) = entries_balance l1 + entries_balance l2.
Proof. induction l1 as [|e l1 IH]; cbn; [done|]. fold (entries_balance (l1 ++ l2)) (entries_balance l1). lia. Qed.
Lemma entries_balance_cons e l : entries_balance (e :: l) = Balance e + entries_balance l.
Proof. done. Qed.

Section Inv.
Context {cfg : CoinConfig} {acfg : AddressConfig} {vcfg : ValAddressConfig}.

(** An entry owes at most what it started with. *)
Definition entry_ok (e : UnbondingDelegationEntry) : Prop := 0 <= Balance e <= InitialBalance e.
(** A redelegation is stored under its addresses and joins different validators. *)
Definition red_ok (d a b : string) (r : Redelegation) : Prop :=
  StringToBytes (red_DelegatorAddress r) = Ok d ∧ ValStringToBytes (ValidatorSrcAddress r) = Ok a ∧
  ValStringToBytes (ValidatorDstAddress r) = Ok b ∧ a ≠ b ∧ Forall (λ e, 0 <= re_InitialBalance e) (red_Entries r).

(** The invariant of the keeper, with surplus [xB] and [xN] in the pools:
    - every record is stored under the addresses it carries;
    - validators are well formed ([val_ok]), shares are not negative, unbonding
      entries and redelegations are consistent ([entry_ok], [red_ok]), delegators
      are not the pools themselves, and addresses have 1 to 255 bytes;
    - the shares of a validator are those of its delegations (none, without it);
    - the bonded pool holds the tokens of the bonded validators, the other pool
      those of the other validators and of the unbonding delegations;
    - the bank keeps its supply invariant and its accounts their addresses. *)
Record stk_inv (denom : string) (xB xN : Z) (c : Core) : Prop := {
  si_params : ∃ p, c_params c = Some p ∧ p_BondDenom p = denom;
  si_vals a v : c_vals c !! a = Some v → ValStringToBytes (OperatorAddress v) = Ok a ∧ val_ok v;
  si_dels d a del : c_dels c !! (d, a) = Some del →
    StringToBytes (DelegatorAddress del) = Ok d ∧ ValStringToBytes (ValidatorAddress del) = Ok a ∧ 0 <= Shares del ∧ delegation_key d a;
  si_ubds d a u : c_ubds c !! (d, a) = Some u →
    StringToBytes (ubd_DelegatorAddress u) = Ok d ∧ ValStringToBytes (ubd_ValidatorAddress u) = Ok a ∧
    Forall entry_ok (Entries u) ∧ delegation_key d a;
  si_reds d a b r : c_reds c !! (d, a, b) = Some r → red_ok d a b r;
  si_shares a : from_option DelegatorShares 0 (c_vals c !! a) = shares_of (c_dels c) a;
  si_bonded : bal (c_bank c) bonded_addr denom = bonded_tokens (c_vals c) + xB;
  si_not_bonded : bal (c_bank c) not_bonded_addr denom = not_bonded_tokens (c_vals c) + unbonding_balance (c_ubds c) + xN;
  si_bank : bank_inv (c_bank c);
  si_addr : addr_ok (c_bank c);
  si_keys a v : c_vals c !! a = Some v → valid_address a;
}.

Lemma stk_inv_eq denom xB xN xB' xN' c : stk_inv denom xB xN c → xB' = xB → xN' = xN → stk_inv denom xB' xN' c.
Proof. by intros ? -> ->. Qed.

(** Only the bank changed. *)
Definition bank_only (fB fN : string → Z) (s s' : StakingState) : Prop :=
  ∃ b, core s' = mkCore (stk_Params s) (Validators s) (Delegations s) (UnbondingDelegations s) (Redelegations s) b ∧ moves fB fN (stk_bank s) b.
Definition still : StakingState → StakingState → Prop := bank_only (λ _, 0) (λ _, 0).

Lemma still_core s s' : core s' = core s → still s s'.
Proof. intros E. exists (stk_bank s). split; [exact E|apply moves_refl]. Qed.
Lemma bank_only_trans f1 g1 f2 g2 s s1 s2 :
  bank_only f1 g1 s s1 → bank_only f2 g2 s1 s2 → bank_only (λ d, f1 d + f2 d) (λ d, g1 d + g2 d) s s2.
Proof.
  intros (b1 & E1 & M1) (b2 & E2 & M2). injection E1 as P1 V1 D1 U1 R1 B1. rewrite P1, V1, D1, U1, R1 in E2. rewrite B1 in M2.
  exists b2. split; [done|by eapply moves_trans].
Qed.
Lemma bank_only_ext f1 g1 f2 g2 s s' :
  (∀ d, f1 d = f2 d) → (∀ d, g1 d = g2 d) → bank_only f1 g1 s s' → bank_only f2 g2 s s'.
Proof. intros Hf Hg (b & E & M). exists b. split; [done|by eapply moves_ext]. Qed.
Lemma still_trans s s1 s2 : still s s1 → still s1 s2 → still s s2.
Proof. intros H1 H2. eapply bank_only_ext; [| |by eapply bank_only_trans]; done. Qed.
Lemma bank_only_inv denom xB xN fB fN s s' :
  bank_only fB fN s s' → stk_inv denom xB xN (core s) → stk_inv denom (xB + fB denom) (xN + fN denom) (core s').
Proof.
  intros (b & -> & [M1 M2 M3 M4]) [I1 I2 I3 I4 IR I5 I6 I7 I8 I9 IK]. cbn in *. split; cbn; try done; try lia.
  - rewrite M1. lia.
  - rewrite M2. lia.
  - auto.
  - auto.
Qed.
Lemma still_inv denom xB xN s s' : still s s' → stk_inv denom xB xN (core s) → stk_inv denom xB xN (core s').
Proof. intros H I. pose proof (bank_only_inv _ _ _ _ _ _ _ H I) as I'. by rewrite !Z.add_0_r in I'. Qed.
End Inv.

(** ** Changes of the core *)

Definition set_bank (b : BankState) (c : Core) : Core := mkCore (c_params c) (c_vals c) (c_dels c) (c_ubds c) (c_reds c) b.
Definition upd_vals (f : gmap string Validator → gmap string Validator) (c : Core) : Core :=
  mkCore (c_params c) (f (c_vals c)) (c_dels c) (c_ubds c) (c_reds c) (c_bank c).
Definition upd_dels (f : gmap (string * string) Delegation → gmap (string * string) Delegation) (c : Core) : Core :=
  mkCore (c_params c) (c_vals c) (f (c_dels c)) (c_ubds c) (c_reds c) (c_bank c).
Definition upd_ubds (f : gmap (string * string) UnbondingDelegation → gmap (string * string) UnbondingDelegation) (c : Core) : Core :=
  mkCore (c_params c) (c_vals c) (c_dels c) (f (c_ubds c)) (c_reds c) (c_bank c).
Definition upd_reds (f : gmap (string * string * string) Redelegation → gmap (string * string * string) Redelegation) (c : Core) : Core :=
  mkCore (c_params c) (c_vals c) (c_dels c) (c_ubds c) (f (c_reds c)) (c_bank c).

(** The tokens a validator has in each of the pools. *)
Definition bonded_part (v : Validator) : Z := if IsBonded v then Tokens v else 0.
Definition not_bonded_part (v : Validator) : Z := if IsBonded v then 0 else Tokens v.

Section InvChanges.
Context {cfg : CoinConfig} {acfg : AddressConfig} {vcfg : ValAddressConfig}.
Variable denom : string.

Lemma inv_moves xB xN fB fN c b :
  moves fB fN (c_bank c) b → stk_inv denom xB xN c → stk_inv denom (xB + fB denom) (xN + fN denom) (set_bank b c).
Proof.
  intros [M1 M2 M3 M4] [I1 I2 I3 I4 IR I5 I6 I7 I8 I9 IK]. split; cbn; try done.
  - rewrite M1. lia.
  - rewrite M2. lia.
  - auto.
  - auto.
Qed.

(** A validator and delegations to it change together. *)
Lemma inv_upd xB xN c a v v' dels' :
  stk_inv denom xB xN c → c_vals c !! a = Some v → OperatorAddress v' = OperatorAddress v → val_ok v' →
  (∀ d x del, dels' !! (d, x) = Some del →
     StringToBytes (DelegatorAddress del) = Ok d ∧ ValStringToBytes (ValidatorAddress del) = Ok x ∧ 0 <= Shares del ∧ delegation_key d x) →
  (∀ x, shares_of dels' x = shares_of (c_dels c) x + if decide (a = x) then DelegatorShares v' - DelegatorShares v else 0) →
  stk_inv denom (xB - (bonded_part v' - bonded_part v)) (xN - (not_bonded_part v' - not_bonded_part v))
    (upd_dels (λ _, dels') (upd_vals <[a := v']> c)).
Proof.
  intros [I1 I2 I3 I4 IR I5 I6 I7 I8 I9 IK] Hv Hop Hok Hd Hsh. split; cbn; try done.
  - intros a' w [[<- <-]|[_ Hw]]%lookup_insert_Some; [|by apply I2]. rewrite Hop. split; [by apply (I2 _ _ Hv)|done].
  - intros x. rewrite Hsh, <- I5. destruct (decide (a = x)) as [<-|Hne].
    + rewrite lookup_insert_eq, Hv. cbn. lia.
    + rewrite lookup_insert_ne by done. lia.
  - rewrite I6. unfold bonded_tokens. rewrite msum_insert, Hv. cbn. fold (bonded_part v') (bonded_part v). lia.
  - rewrite I7. unfold not_bonded_tokens. rewrite msum_insert, Hv. cbn. fold (not_bonded_part v') (not_bonded_part v). lia.
  - intros a' w [[<- _]|[_ Hw]]%lookup_insert_Some; eauto.
Qed.
(** A validator changes without its shares. *)
Lemma inv_upd_val xB xN c a v v' :
  stk_inv denom xB xN c → c_vals c !! a = Some v → OperatorAddress v' = OperatorAddress v → val_ok v' →
  DelegatorShares v' = DelegatorShares v →
  stk_inv denom (xB - (bonded_part v' - bonded_part v)) (xN - (not_bonded_part v' - not_bonded_part v)) (upd_vals <[a := v']> c).
Proof.
  intros Hi Hv Hop Hok Hsh. apply (inv_upd _ _ _ a v v' (c_dels c)); try done.
  - intros d x del Hdel. by apply (si_dels _ _ _ _ Hi).
  - intros x. rewrite Hsh. case_decide; lia.
Qed.
(** An empty validator is removed. *)
Lemma inv_remove_val xB xN c a v :
  stk_inv denom xB xN c → c_vals c !! a = Some v → DelegatorShares v = 0 → stk_inv denom xB xN (upd_vals (delete a) c).
Proof.
  intros [I1 I2 I3 I4 IR I5 I6 I7 I8 I9 IK] Hv Hsh. destruct (I2 _ _ Hv) as [_ (_ & _ & HT & _)]. specialize (HT Hsh).
  assert (bonded_part v = 0 ∧ not_bonded_part v = 0) as [Hb Hn] by (unfold bonded_part, not_bonded_part; case_match; lia).
  split; cbn; try done.
  - intros a' w [_ Hw]%lookup_delete_Some. by apply I2.
  - intros x. rewrite <- I5. destruct (decide (a = x)) as [<-|Hne]; [by rewrite lookup_delete_eq, Hv|by rewrite lookup_delete_ne].
  - rewrite I6. unfold bonded_tokens. rewrite msum_delete, Hv. cbn. fold (bonded_part v). lia.
  - rewrite I7. unfold not_bonded_tokens. rewrite msum_delete, Hv. cbn. fold (not_bonded_part v). lia.
  - intros a' w [_ Hw]%lookup_delete_Some. eauto.
Qed.
(** An unbonding delegation is stored or removed. *)
Lemma inv_set_ubd xB xN c d a u :
  stk_inv denom xB xN c → StringToBytes (ubd_DelegatorAddress u) = Ok d → ValStringToBytes (ubd_ValidatorAddress u) = Ok a →
  Forall entry_ok (Entries u) → delegation_key d a →
  stk_inv denom xB (xN - (entries_balance (Entries u) - from_option (λ u, entries_balance (Entries u)) 0 (c_ubds c !! (d, a))))
    (upd_ubds <[(d, a) := u]> c).
Proof.
  intros [I1 I2 I3 I4 IR I5 I6 I7 I8 I9 IK] Hd Ha He Hp. split; cbn; try done.
  - intros d' a' w [[[= <- <-] <-]|[_ Hw]]%lookup_insert_Some; [done|by apply I4].
  - rewrite I7. unfold unbonding_balance. rewrite msum_insert. lia.
Qed.
Lemma inv_remove_ubd xB xN c d a :
  stk_inv denom xB xN c →
  stk_inv denom xB (xN + from_option (λ u, entries_balance (Entries u)) 0 (c_ubds c !! (d, a))) (upd_ubds (delete (d, a)) c).
Proof.
  intros [I1 I2 I3 I4 IR I5 I6 I7 I8 I9 IK]. split; cbn; try done.
  - intros d' a' w [_ Hw]%lookup_delete_Some. by apply I4.
  - rewrite I7. unfold unbonding_balance. rewrite msum_delete. lia.
Qed.

(** A redelegation is stored or removed. *)
Lemma inv_set_red xB xN c d a b r : stk_inv denom xB xN c → red_ok d a b r → stk_inv denom xB xN (upd_reds <[(d, a, b) := r]> c).
Proof.
  intros [I1 I2 I3 I4 IR I5 I6 I7 I8 I9 IK] Hr. split; cbn; try done.
  intros d' a' b' w [[[= <- <- <-] <-]|[_ Hw]]%lookup_insert_Some; [done|by apply IR].
Qed.
Lemma inv_remove_red xB xN c d a b : stk_inv denom xB xN c → stk_inv denom xB xN (upd_reds (delete (d, a, b)) c).
Proof.
  intros [I1 I2 I3 I4 IR I5 I6 I7 I8 I9 IK]. split; cbn; try done.
  intros d' a' b' w [_ Hw]%lookup_delete_Some. by apply IR.
Qed.

(** The shares of a validator after one delegation changed. *)
Lemma shares_of_insert dels d a del x :
  shares_of (<[(d, a) := del]> dels) x =
  shares_of dels x + if decide (a = x) then Shares del - from_option Shares 0 (dels !! (d, a)) else 0.
Proof. unfold shares_of. rewrite msum_insert. cbn. case_decide; destruct (dels !! (d, a)); cbn; lia. Qed.
Lemma shares_of_delete dels d a x :
  shares_of (delete (d, a) dels) x = shares_of dels x + if decide (a = x) then - from_option Shares 0 (dels !! (d, a)) else 0.
Proof. unfold shares_of. rewrite msum_delete. cbn. case_decide; destruct (dels !! (d, a)); cbn; lia. Qed.
Lemma shares_of_ge xB xN c d a del :
  stk_inv denom xB xN c → c_dels c !! (d, a) = Some del → Shares del <= shares_of (c_dels c) a.
Proof.
  intros Hi Hd. unfold shares_of.
  pose proof (msum_lookup_le (λ k d, if decide (k.2 = a) then Shares d else 0) (c_dels c) (d, a) del) as H. cbn in H.
  rewrite decide_True in H by done. apply H; [|done]. intros [d' a'] del' Hd'. cbn. case_decide; [|done].
  by destruct (si_dels _ _ _ _ Hi _ _ _ Hd') as (_ & _ & ? & _).
Qed.
End InvChanges.

(** ** The effect of the writes *)

(** Hooks of other modules leave the staking stores and the pools alone. *)
Class QuietHooks {cfg : CoinConfig} {acfg : AddressConfig} (hooks : StakingHooks) : Prop := {
  qh_validator_created v s r s' : AfterValidatorCreated hooks v s = (Ok r, s') → still s s';
  qh_validator_modified v s r s' : BeforeValidatorModified hooks v s = (Ok r, s') → still s s';
  qh_validator_removed c v s r s' : AfterValidatorRemoved hooks c v s = (Ok r, s') → still s s';
  qh_validator_bonded c v s r s' : AfterValidatorBonded hooks c v s = (Ok r, s') → still s s';
  qh_validator_unbonding c v s r s' : AfterValidatorBeginUnbonding hooks c v s = (Ok r, s') → still s s';
  qh_delegation_created d v s r s' : BeforeDelegationCreated hooks d v s = (Ok r, s') → still s s';
  qh_shares_modified d v s r s' : BeforeDelegationSharesModified hooks d v s = (Ok r, s') → still s s';
  qh_delegation_removed d v s r s' : BeforeDelegationRemoved hooks d v s = (Ok r, s') → still s s';
  qh_delegation_modified d v s r s' : AfterDelegationModified hooks d v s = (Ok r, s') → still s s';
  qh_validator_slashed v f s r s' : BeforeValidatorSlashed hooks v f s = (Ok r, s') → still s s';
  qh_pubkey_update o n fee s r s' : AfterConsensusPubKeyUpdate hooks o n fee s = (Ok r, s') → still s s';
}.

(** [m] does not change the core when it succeeds. *)
Definition idle {A} (m : GoM StakingState A) : Prop := ∀ s r s', m s = (Ok r, s') → core s' = core s.

Lemma idle_bind {A B} (m : GoM StakingState A) (f : A → GoM StakingState B) : idle m → (∀ a, idle (f a)) → idle (m ≫= f).
Proof. intros Hm Hf s r s' (a & s1 & H1%Hm & H2%Hf)%GoM_bind_Ok. congruence. Qed.
Lemma idle_ret {A} (a : A) : idle (mret a).
Proof. by intros s r s' [= <- <-]. Qed.
Lemma idle_liftM {A} (m : outcome A) : idle (liftM m).
Proof. by intros s r s' [_ ->]%liftM_Ok. Qed.
Lemma idle_readM {A} (f : StakingState → A) : idle (readM f).
Proof. by intros s r s' [= <- <-]. Qed.
Lemma idle_modifyM f : (∀ s, core (f s) = core s) → idle (modifyM f).
Proof. by intros Hf s r s' [= <- <-]. Qed.
Lemma idle_errM {A} e : idle (errM (A := A) e).
Proof. by intros s r s'. Qed.
Lemma idle_forM {A} (f : A → GoM StakingState unit) l : (∀ x, idle (f x)) → idle (forM_ f l).
Proof. intros Hf. induction l; cbn [forM_]; [apply idle_ret|by apply idle_bind]. Qed.
Lemma idle_still {cfg : CoinConfig} {acfg : AddressConfig} {A} (m : GoM StakingState A) s r s' : idle m → m s = (Ok r, s') → still s s'.
Proof. intros Hm H%Hm. by apply still_core. Qed.
Create HintDb staking.
#[export] Hint Resolve idle_ret idle_liftM idle_readM idle_errM : staking.
(** Prove that a computation is idle by its structure. *)
Ltac idle_solve :=
  repeat (progress intros || (progress auto with staking) || apply idle_bind || apply idle_forM
          || (apply idle_modifyM; by intros []) || case_match).

Section Effects.
Context {cfg : CoinConfig} {acfg : AddressConfig} {vcfg : ValAddressConfig}.
Context (k : BaseKeeper) {HP : PoolConfig k} (hooks : StakingHooks) {HH : QuietHooks hooks}.
Variable h : Header.

Lemma get_Params_inv s p s' : get_Params s = (Ok p, s') → s' = s ∧ stk_Params s = Some p.
Proof. unfold get_Params. intros (x & s1 & [= <- <-] & [H ->]%liftM_Ok)%GoM_bind_Ok. by destruct (stk_Params s); simplify_eq. Qed.
Lemma BondDenom_inv s d s' : BondDenom s = (Ok d, s') → s' = s ∧ ∃ p, stk_Params s = Some p ∧ p_BondDenom p = d.
Proof. unfold BondDenom. intros (p & s1 & [-> Hp]%get_Params_inv & [= <- <-])%GoM_bind_Ok. eauto. Qed.
Lemma GetValidator_inv a s v s' : GetValidator a s = (Ok v, s') → s' = s ∧ Validators s !! a = Some v.
Proof. unfold GetValidator. intros (x & s1 & [= <- <-] & [H ->]%liftM_Ok)%GoM_bind_Ok. by destruct (Validators s !! a); simplify_eq. Qed.

Lemma idle_SetNewValidatorByPowerIndex v : idle (SetNewValidatorByPowerIndex v).
Proof. unfold SetNewValidatorByPowerIndex. idle_solve. Qed.
Lemma idle_SetValidatorByPowerIndex v : idle (SetValidatorByPowerIndex v).
Proof. unfold SetValidatorByPowerIndex. case_match; [idle_solve|apply idle_SetNewValidatorByPowerIndex]. Qed.
Lemma idle_DeleteValidatorByPowerIndex v : idle (DeleteValidatorByPowerIndex v).
Proof. unfold DeleteValidatorByPowerIndex. idle_solve. Qed.
Lemma idle_DeleteValidatorQueue v : idle (DeleteValidatorQueue v).
Proof. unfold DeleteValidatorQueue, GetUnbondingValidators, DeleteValidatorQueueTimeSlice, SetUnbondingValidatorsQueue. idle_solve. Qed.
Lemma idle_InsertUnbondingValidatorQueue v : idle (InsertUnbondingValidatorQueue v).
Proof. unfold InsertUnbondingValidatorQueue, GetUnbondingValidators, SetUnbondingValidatorsQueue. idle_solve. Qed.

Lemma SetValidator_inv v s r s' :
  SetValidator v s = (Ok r, s') → ∃ a, ValStringToBytes (OperatorAddress v) = Ok a ∧ core s' = upd_vals <[a := v]> (core s).
Proof. unfold SetValidator. intros (a & s1 & [Ha ->]%liftM_Ok & [= <- <-])%GoM_bind_Ok. by exists a. Qed.
(** Writing a validator back with its index. *)
Lemma set_validator_indexed {A} v v' (a : A) s r s' :
  (_ ← SetValidator v'; _ ← SetValidatorByPowerIndex v'; mret a) s = (Ok r, s') → OperatorAddress v' = OperatorAddress v →
  ∀ addr, ValStringToBytes (OperatorAddress v) = Ok addr → r = a ∧ core s' = upd_vals <[addr := v']> (core s).
Proof.
  intros H Hop addr Haddr. apply GoM_bind_Ok in H as (? & s1 & (x & Hx & H1)%SetValidator_inv & H).
  apply GoM_bind_Ok in H as (? & s2 & H2%idle_SetValidatorByPowerIndex & [= <- <-]).
  rewrite Hop, Haddr in Hx. injection Hx as <-. split; [done|congruence].
Qed.

Lemma AddTokensFromDel_operator amt v v' sh : AddTokensFromDel amt v = Ok (v', sh) → OperatorAddress v' = OperatorAddress v ∧ Status v' = Status v.
Proof. unfold AddTokensFromDel. intros H. go_inv. done. Qed.
Lemma RemoveDelShares_operator sh v v' t : RemoveDelShares sh v = Ok (v', t) → OperatorAddress v' = OperatorAddress v ∧ Status v' = Status v.
Proof. unfold RemoveDelShares. intros H. go_inv. case_match; go_inv; done. Qed.
Lemma RemoveTokens_operator t v v' : RemoveTokens t v = Ok v' → OperatorAddress v' = OperatorAddress v ∧ Status v' = Status v.
Proof. unfold RemoveTokens. intros H. go_inv. done. Qed.

Lemma AddValidatorTokensAndShares_inv v amt s v' sh s' a :
  ValStringToBytes (OperatorAddress v) = Ok a → AddValidatorTokensAndShares v amt s = (Ok (v', sh), s') →
  AddTokensFromDel amt v = Ok (v', sh) ∧ core s' = upd_vals <[a := v']> (core s).
Proof.
  intros Ha H. unfold AddValidatorTokensAndShares in H.
  apply GoM_bind_Ok in H as (? & s1 & H1%idle_DeleteValidatorByPowerIndex & H).
  apply GoM_bind_Ok in H as ([w y] & s2 & [HA ->]%liftM_Ok & H).
  destruct (AddTokensFromDel_operator _ _ _ _ HA) as [Hop _].
  eapply set_validator_indexed in H as [[= -> ->] ->]; [|exact Hop|exact Ha]. by rewrite H1.
Qed.
Lemma RemoveValidatorTokensAndShares_inv v sh s v' t s' a :
  ValStringToBytes (OperatorAddress v) = Ok a → RemoveValidatorTokensAndShares v sh s = (Ok (v', t), s') →
  RemoveDelShares sh v = Ok (v', t) ∧ core s' = upd_vals <[a := v']> (core s).
Proof.
  intros Ha H. unfold RemoveValidatorTokensAndShares in H.
  apply GoM_bind_Ok in H as (? & s1 & H1%idle_DeleteValidatorByPowerIndex & H).
  apply GoM_bind_Ok in H as ([w y] & s2 & [HA ->]%liftM_Ok & H).
  destruct (RemoveDelShares_operator _ _ _ _ HA) as [Hop _].
  eapply set_validator_indexed in H as [[= -> ->] ->]; [|exact Hop|exact Ha]. by rewrite H1.
Qed.
Lemma RemoveValidatorTokens_inv v t s v' s' a :
  ValStringToBytes (OperatorAddress v) = Ok a → RemoveValidatorTokens v t s = (Ok v', s') →
  RemoveTokens t v = Ok v' ∧ core s' = upd_vals <[a := v']> (core s).
Proof.
  intros Ha H. unfold RemoveValidatorTokens in H.
  apply GoM_bind_Ok in H as (? & s1 & H1%idle_DeleteValidatorByPowerIndex & H).
  apply GoM_bind_Ok in H as (w & s2 & [HA ->]%liftM_Ok & H).
  destruct (RemoveTokens_operator _ _ _ HA) as [Hop _].
  eapply set_validator_indexed in H as [-> ->]; [|exact Hop|exact Ha]. by rewrite H1.
Qed.
End Effects.
