(* ===== verification/StakingOps.v ===== *)
(** * The operations of the staking keeper keep its invariant

    One lemma per operation: from a state with the invariant, a successful run
    ends in one with the invariant, the surplus of the pools changed by exactly
    the tokens in transit. *)
From S2P Require Import Prelude MathInt LegacyDec Coin CoinFacts Collections Account Vesting AuthKeeper AuthProps Bank BankFacts BankProps BankDelegation Validator Staking StakingBank StakingFacts.

(** The address codecs read back the addresses of 1 to 255 bytes that they wrote, as
    src/codec/address/bech32_codec.go does. *)
Class AddressRoundtrip {acfg : AddressConfig} {vcfg : ValAddressConfig} : Prop := {
  ar_acc a str : valid_address a → BytesToString a = Ok str → StringToBytes str = Ok a;
  ar_val a str : valid_address a → ValBytesToString a = Ok str → ValStringToBytes str = Ok a;
}.

Section Ops.
Context {cfg : CoinConfig} {acfg : AddressConfig} {vcfg : ValAddressConfig} {HR : AddressRoundtrip}.
Context (k : BaseKeeper) {HP : PoolConfig k} (hooks : StakingHooks) {HH : QuietHooks hooks}.
Variable h : Header.
Variable denom : string.

(** ** Bank calls *)

Lemma on_bank_inv {A} (m : GoM BankState A) s r s' :
  on_bank m s = (Ok r, s') → ∃ b, m (stk_bank s) = (Ok r, b) ∧ core s' = set_bank b (core s).
Proof. unfold on_bank. destruct (m (stk_bank s)) as [o b]. intros [= -> <-]. by exists b. Qed.
Lemma bank_only_set fB fN s s' b :
  core s' = set_bank b (core s) → moves fB fN (stk_bank s) b → bank_only fB fN s s'.
Proof. intros E M. by exists b. Qed.

Definition at_bond (p : StakingParams) (x : Z) (d : string) : Z := at_denom (p_BondDenom p) x d.
Lemma bond_coins_inv amt s coins s' :
  bond_coins amt s = (Ok coins, s') →
  s' = s ∧ 0 <= amt ∧ ∃ p, stk_Params s = Some p ∧ ∀ d, amount coins d = at_bond p amt d.
Proof.
  unfold bond_coins. intros H. apply GoM_bind_Ok in H as (d & s1 & (-> & p & Hp & Hd)%BondDenom_inv & H).
  apply GoM_bind_Ok in H as (c & s2 & [(-> & _ & Ha)%NewCoin_inv ->]%liftM_Ok & [H ->]%liftM_Ok).
  split; [done|]. split; [done|]. exists p. split; [done|]. intros d'. rewrite (NewCoins_amount _ _ _ H). cbn.
  unfold at_bond, at_denom. rewrite Hd. case_decide; lia.
Qed.

Lemma bonded_to_not_bonded_inv amt s r s' :
  addr_ok (stk_bank s) → bondedTokensToNotBonded k h amt s = (Ok r, s') →
  0 <= amt ∧ ∃ p, stk_Params s = Some p ∧ bank_only (at_bond p (- amt)) (at_bond p amt) s s'.
Proof.
  intros Hok H. unfold bondedTokensToNotBonded in H.
  apply GoM_bind_Ok in H as (coins & s1 & (-> & Ha & p & Hp & Hc)%bond_coins_inv & (b & Hb & E)%on_bank_inv).
  split; [done|]. exists p. split; [done|]. eapply bank_only_set; [exact E|].
  eapply moves_ext; [| |eapply (bonded_to_not_bonded_moves k); [exact Hok|exact Hb]]; intros d; cbv beta; rewrite Hc; [|done].
  unfold at_bond, at_denom. case_decide; lia.
Qed.
Lemma not_bonded_to_bonded_inv amt s r s' :
  addr_ok (stk_bank s) → notBondedTokensToBonded k h amt s = (Ok r, s') →
  0 <= amt ∧ ∃ p, stk_Params s = Some p ∧ bank_only (at_bond p amt) (at_bond p (- amt)) s s'.
Proof.
  intros Hok H. unfold notBondedTokensToBonded in H.
  apply GoM_bind_Ok in H as (coins & s1 & (-> & Ha & p & Hp & Hc)%bond_coins_inv & (b & Hb & E)%on_bank_inv).
  split; [done|]. exists p. split; [done|]. eapply bank_only_set; [exact E|].
  eapply moves_ext; [| |eapply (not_bonded_to_bonded_moves k); [exact Hok|exact Hb]]; intros d; cbv beta; rewrite Hc; [done|].
  unfold at_bond, at_denom. case_decide; lia.
Qed.

(** The invariant after tokens moved in the bond denomination. *)
Lemma bank_only_bond xB xN p fB fN s s' :
  stk_Params s = Some p → bank_only (at_bond p fB) (at_bond p fN) s s' → stk_inv denom xB xN (core s) →
  stk_inv denom (xB + fB) (xN + fN) (core s').
Proof.
  intros Hp Hb Hi. destruct (si_params _ _ _ _ Hi) as (p' & Hp' & Hd). cbn in Hp'. rewrite Hp in Hp'. injection Hp' as <-.
  pose proof (bank_only_inv _ _ _ _ _ _ _ Hb Hi) as Hi'. unfold at_bond, at_denom in Hi'. by rewrite Hd, !decide_True in Hi'.
Qed.

(** ** Delegations *)

Lemma SetDelegation_inv del s r s' :
  SetDelegation del s = (Ok r, s') →
  ∃ d a, StringToBytes (DelegatorAddress del) = Ok d ∧ ValStringToBytes (ValidatorAddress del) = Ok a ∧
    core s' = upd_dels <[(d, a) := del]> (core s).
Proof.
  unfold SetDelegation. intros H. apply GoM_bind_Ok in H as (d & s1 & [Hd ->]%liftM_Ok & H).
  apply GoM_bind_Ok in H as (a & s1 & [Ha ->]%liftM_Ok & H). apply GoM_bind_Ok in H as (? & s1 & [= <- <-] & [= <- <-]).
  by exists d, a.
Qed.
Lemma RemoveDelegation_inv del s r s' :
  RemoveDelegation hooks del s = (Ok r, s') →
  ∃ d a s1, StringToBytes (DelegatorAddress del) = Ok d ∧ ValStringToBytes (ValidatorAddress del) = Ok a ∧
    still s s1 ∧ core s' = upd_dels (delete (d, a)) (core s1).
Proof.
  unfold RemoveDelegation. intros H. apply GoM_bind_Ok in H as (d & s1 & [Hd ->]%liftM_Ok & H).
  apply GoM_bind_Ok in H as (a & s1 & [Ha ->]%liftM_Ok & H). apply GoM_bind_Ok in H as (? & s1 & Hh%qh_delegation_removed & H).
  apply GoM_bind_Ok in H as (? & s2 & [= <- <-] & [= <- <-]). by exists d, a, s1.
Qed.
Lemma get_or_create_inv d a v s del s' :
  get_or_create_delegation hooks d a v s = (Ok del, s') →
  still s s' ∧ (Delegations s !! (d, a) = Some del ∨
    Delegations s !! (d, a) = None ∧ ∃ str, BytesToString d = Ok str ∧ del = NewDelegation str (OperatorAddress v) 0).
Proof.
  unfold get_or_create_delegation. intros H. apply GoM_bind_Ok in H as (o & s1 & [= <- <-] & H).
  destruct (Delegations s !! (d, a)) as [del0|] eqn:E.
  - apply GoM_bind_Ok in H as (? & s1 & Hh%qh_shares_modified & [= <- <-]). split; [done|by left].
  - apply GoM_bind_Ok in H as (str & s1 & [Hstr ->]%liftM_Ok & H).
    apply GoM_bind_Ok in H as (? & s1 & Hh%qh_delegation_created & [= <- <-]). split; [done|]. right. eauto.
Qed.

(** The part of an amount that goes to, or comes from, each pool. *)
Definition if_bonded (b : bool) (amt : Z) : Z := if b then amt else 0.
Definition src_bonded (src : BondStatus) : bool := bool_decide (src = Bonded).

Lemma bank_only_set_bank fB fN s s' : bank_only fB fN s s' → ∃ b, core s' = set_bank b (core s).
Proof. intros (b & E & _). by exists b. Qed.
Lemma still_set_bank s s' : still s s' → ∃ b, core s' = set_bank b (core s).
Proof. apply bank_only_set_bank. Qed.

(** Tokens reach the pool of the validator, out of the account of the delegator
    or out of the pool they are in. *)
Lemma move_tokens_inv xB xN del amt src v (sub : bool) s r s' :
  ¬ is_pool del → 0 <= amt → move_tokens k h del amt src v sub s = (Ok r, s') →
  stk_inv denom (xB + if_bonded (negb sub && src_bonded src) amt) (xN + if_bonded (negb sub && negb (src_bonded src)) amt) (core s) →
  stk_inv denom (xB + if_bonded (IsBonded v) amt) (xN + if_bonded (negb (IsBonded v)) amt) (core s') ∧
  ∃ b, core s' = set_bank b (core s).
Proof.
  intros Hdel Ha H Hi. pose proof (si_addr _ _ _ _ Hi) as Hok. cbn in Hok. unfold move_tokens in H. destruct sub.
  - apply GoM_bind_Ok in H as (? & s1 & [_ ->]%liftM_Ok & H). apply GoM_bind_Ok in H as (name & s1 & [Hn ->]%liftM_Ok & H).
    apply GoM_bind_Ok in H as (coins & s1 & (-> & _ & p & Hp & Hc)%bond_coins_inv & (b & Hb & E)%on_bank_inv).
    pose proof pc_distinct as Hne. cbn in Hi. rewrite !Z.add_0_r in Hi.
    assert (bank_only (at_bond p (if_bonded (IsBonded v) amt)) (at_bond p (if_bonded (negb (IsBonded v)) amt)) s s') as M.
    { eapply bank_only_set; [exact E|]. unfold pool_of in Hn. destruct (IsBonded v) eqn:Eb.
      - injection Hn as <-. destruct pc_bonded as [perms Hr].
        eapply moves_ext; [| |eapply (delegate_moves k); [exact Hr|done|done|exact Hb]]; intros d; cbv beta; rewrite Hc;
          unfold if_bonded, at_bond, at_denom, bonded_addr, not_bonded_addr; repeat case_decide; cbn; congruence.
      - destruct (IsUnbonding v || IsUnbonded v); [injection Hn as <-|done]. destruct pc_not_bonded as [perms Hr].
        eapply moves_ext; [| |eapply (delegate_moves k); [exact Hr|done|done|exact Hb]]; intros d; cbv beta; rewrite Hc;
          unfold if_bonded, at_bond, at_denom, bonded_addr, not_bonded_addr; repeat case_decide; cbn; congruence. }
    split; [by eapply bank_only_bond|by eapply bank_only_set_bank].
  - unfold src_bonded, not_bonded_src in *. cbn [negb andb] in Hi.
    destruct (bool_decide (src = Bonded)) eqn:Es; destruct (IsBonded v) eqn:Eb; cbn [andb negb if_bonded] in *.
    + injection H as <- <-. split; [done|by exists (stk_bank s)].
    + assert (bool_decide (src = Unbonded) = false ∧ bool_decide (src = Unbonding) = false) as [E1 E2].
      { apply bool_decide_eq_true in Es as ->. by rewrite !bool_decide_false. }
      rewrite E1, E2 in H. cbn in H. apply bonded_to_not_bonded_inv in H as (_ & p & Hp & M); [|done].
      split; [|by eapply bank_only_set_bank]. eapply stk_inv_eq; [exact (bank_only_bond _ _ _ _ _ _ _ Hp M Hi)|lia..].
    + destruct (bool_decide (src = Unbonded) || bool_decide (src = Unbonding)); cbn in H; [|done].
      apply not_bonded_to_bonded_inv in H as (_ & p & Hp & M); [|done].
      split; [|by eapply bank_only_set_bank]. eapply stk_inv_eq; [exact (bank_only_bond _ _ _ _ _ _ _ Hp M Hi)|lia..].
    + destruct (bool_decide (src = Unbonded) || bool_decide (src = Unbonding)); cbn in H; [|done].
      injection H as <- <-. split; [done|by exists (stk_bank s)].
Qed.

Lemma part_set_tokens t sh v :
  bonded_part (set_tokens_shares t sh v) - bonded_part v = if_bonded (IsBonded v) (t - Tokens v) ∧
  not_bonded_part (set_tokens_shares t sh v) - not_bonded_part v = if_bonded (negb (IsBonded v)) (t - Tokens v).
Proof.
  unfold bonded_part, not_bonded_part, if_bonded. change (IsBonded (set_tokens_shares t sh v)) with (IsBonded v).
  destruct (IsBonded v); cbn; lia.
Qed.

Lemma Delegate_inv xB xN del amt src v sub a s sh s' :
  stk_inv denom (xB + if_bonded (negb sub && src_bonded src) amt) (xN + if_bonded (negb sub && negb (src_bonded src)) amt) (core s) →
  Validators s !! a = Some v → 0 <= amt → staker del → Delegate k hooks h del amt src v sub s = (Ok sh, s') →
  stk_inv denom xB xN (core s') ∧ UnbondingDelegations s' = UnbondingDelegations s.
Proof.
  intros Hi Hv Ha Hdel H. pose proof (si_keys _ _ _ _ Hi _ _ Hv) as Hkey. unfold Delegate in H. destruct (si_vals _ _ _ _ Hi _ _ Hv) as [Hop Hvok].
  apply GoM_bind_Ok in H as (? & s1 & [_ ->]%liftM_Ok & H). apply GoM_bind_Ok in H as (a' & s1 & [Ha' ->]%liftM_Ok & H).
  rewrite Hop in Ha'. injection Ha' as <-.
  apply GoM_bind_Ok in H as (dl & s1 & (Hst & Hdl)%get_or_create_inv & H). destruct (still_set_bank _ _ Hst) as [b1 E1].
  apply (still_inv _ _ _ _ _ Hst) in Hi. injection E1 as _ V1 D1 U1 _ _.
  apply GoM_bind_Ok in H as (? & s2 & Hmv & H). apply (move_tokens_inv xB xN) in Hmv as [Hi2 [b2 E2]]; [|by apply Hdel|done..].
  injection E2 as _ V2 D2 U2 _ _.
  apply GoM_bind_Ok in H as ([v' newShares] & s3 & (HA & E3)%(AddValidatorTokensAndShares_inv _ _ _ _ _ _ _ Hop) & H).
  pose proof (val_step_ok _ _ Hvok (step_delegate _ _ _ _ Ha HA)) as Hvok'.
  apply AddTokensFromDel_Ok in HA as (-> & _ & Hsh & _); [|done..].
  apply GoM_bind_Ok in H as (shares & s4 & [[-> _]%Dec_Add_Ok ->]%liftM_Ok & H).
  apply GoM_bind_Ok in H as (? & s4 & (d' & a' & Hd' & Ha' & E4)%SetDelegation_inv & H).
  apply GoM_bind_Ok in H as (? & s5 & Hst5%qh_delegation_modified & [= <- <-]).
  split; [eapply still_inv; [exact Hst5|]; rewrite E4, E3|]; cycle 1.
  { destruct (still_set_bank _ _ Hst5) as [b5 E5]. injection E5 as _ _ _ U5 _ _. injection E4 as _ _ _ U4 _ _.
    injection E3 as _ _ _ U3 _ _. by rewrite U5, U4, U3, U2, U1. }
  assert (d' = del ∧ a' = a ∧ 0 <= Shares dl ∧ Shares dl = from_option Shares 0 (Delegations s2 !! (del, a))) as (-> & -> & H0 & HS).
  { rewrite D2, D1. destruct Hdl as [Hdl|(Hdl & str & Hstr & ->)]; rewrite Hdl; cbn in *.
    - destruct (si_dels _ _ _ _ Hi del a dl) as (Hx & Hy & ? & _); [by rewrite <- D1 in Hdl|].
      rewrite Hx in Hd'. rewrite Hy in Ha'. naive_solver.
    - apply ar_acc in Hstr; [|apply Hdel]. rewrite Hstr in Hd'. rewrite Hop in Ha'. naive_solver. }
  set (dels' := <[(del, a) := set_Shares (Shares dl + newShares) dl]> (Delegations s2)).
  set (v' := set_tokens_shares (Tokens v + amt) (DelegatorShares v + newShares) v) in *.
  destruct (part_set_tokens (Tokens v + amt) (DelegatorShares v + newShares) v) as [P1 P2]. fold v' in P1, P2.
  eapply stk_inv_eq; [apply (inv_upd denom _ _ (core s2) a v v' dels' Hi2); try done| |].
  - cbn. by rewrite V2, V1.
  - intros d0 a0 del0 [[[= <- <-] <-]|[_ Hx]]%lookup_insert_Some; [|by apply (si_dels _ _ _ _ Hi2)]. cbn. do 2 (split; [done|]). split; [lia|done].
  - intros z. cbn. unfold dels'. rewrite shares_of_insert. cbn. rewrite HS. case_decide; lia.
  - rewrite P1. unfold if_bonded. case_match; lia.
  - rewrite P2. unfold if_bonded. case_match; lia.
Qed.

(** ** Unbonding *)

Lemma jailValidator_inv v a s r s' :
  ValStringToBytes (OperatorAddress v) = Ok a → jailValidator v s = (Ok r, s') → core s' = upd_vals <[a := set_Jailed true v]> (core s).
Proof.
  intros Hop H. unfold jailValidator in H. apply GoM_bind_Ok in H as (? & s1 & [_ ->]%liftM_Ok & H).
  apply GoM_bind_Ok in H as (? & s1 & (a' & Ha & E)%SetValidator_inv & H%idle_DeleteValidatorByPowerIndex).
  cbn in Ha. rewrite Hop in Ha. injection Ha as <-. congruence.
Qed.
Lemma jail_inv xB xN b v a c : stk_inv denom xB xN c → c_vals c !! a = Some v → stk_inv denom xB xN (upd_vals <[a := set_Jailed b v]> c).
Proof.
  intros Hi Hv. eapply stk_inv_eq; [apply (inv_upd_val denom xB xN c a v); try done| |].
  - by apply (si_vals _ _ _ _ Hi) in Hv as [_ ?].
  - change (bonded_part (set_Jailed b v)) with (bonded_part v). lia.
  - change (not_bonded_part (set_Jailed b v)) with (not_bonded_part v). lia.
Qed.
Lemma jail_below_minimum_inv xB xN d a del v s v' s' :
  stk_inv denom xB xN (core s) → Validators s !! a = Some v → jail_below_minimum d a del v s = (Ok v', s') →
  stk_inv denom xB xN (core s') ∧ (core s' = core s ∧ v' = v ∨ core s' = upd_vals <[a := v']> (core s) ∧ v' = set_Jailed true v).
Proof.
  intros Hi Hv H. unfold jail_below_minimum in H.
  destruct (str_eq d a && negb (Jailed v)); [|injection H as <- <-; by auto].
  apply GoM_bind_Ok in H as (w & s1 & [_ ->]%liftM_Ok & H). apply GoM_bind_Ok in H as (tk & s1 & [_ ->]%liftM_Ok & H).
  destruct (Int_LT _ _); [|injection H as <- <-; by auto].
  apply GoM_bind_Ok in H as (? & s1 & Hj & (-> & Hv')%GetValidator_inv).
  apply (jailValidator_inv v a) in Hj; [|by apply (si_vals _ _ _ _ Hi) in Hv as [? _]].
  assert (v' = set_Jailed true v) as ->.
  { injection Hj as _ Hvals _ _ _ _. rewrite Hvals in Hv'. cbn in Hv'. rewrite lookup_insert_eq in Hv'. by injection Hv'. }
  split; [|by right]. rewrite Hj. by apply jail_inv.
Qed.

Lemma RemoveValidator_keeps xB xN a v s r s' :
  stk_inv denom xB xN (core s) → Validators s !! a = Some v → DelegatorShares v = 0 → RemoveValidator hooks a s = (Ok r, s') →
  stk_inv denom xB xN (core s') ∧ Validators s' = delete a (Validators s).
Proof.
  intros Hi Hv Hsh H. unfold RemoveValidator in H. apply GoM_bind_Ok in H as (o & s1 & [= <- <-] & H). rewrite Hv in H.
  apply GoM_bind_Ok in H as (? & s1 & [_ ->]%liftM_Ok & H). apply GoM_bind_Ok in H as (? & s1 & [_ ->]%liftM_Ok & H).
  apply GoM_bind_Ok in H as (cons & s1 & [_ ->]%liftM_Ok & H). apply GoM_bind_Ok in H as (? & s1 & H1 & H). injection H1 as _ <-.
  apply GoM_bind_Ok in H as (? & s1 & H1 & H). injection H1 as _ <-.
  apply GoM_bind_Ok in H as (key & s1 & [_ ->]%liftM_Ok & H). apply GoM_bind_Ok in H as (? & s1 & H1 & H). injection H1 as _ <-.
  apply GoM_bind_Ok in H as (str & s1 & [_ ->]%liftM_Ok & H%qh_validator_removed).
  destruct (still_set_bank _ _ H) as [b E]. split; [|by injection E as _ ? _ _ _ _].
  eapply still_inv; [exact H|]. change (stk_inv denom xB xN (upd_vals (delete a) (core s))). by eapply inv_remove_val.
Qed.

(** The delegation after the unbonded shares were taken off. *)
Lemma unbond_delegation_inv d a del (left_ : Z) s r s' :
  StringToBytes (DelegatorAddress del) = Ok d → ValStringToBytes (ValidatorAddress del) = Ok a →
  (if Dec_IsZero left_ then RemoveDelegation hooks (set_Shares left_ del)
   else _ ← SetDelegation (set_Shares left_ del);
        valAddr ← liftM (ValStringToBytes (ValidatorAddress (set_Shares left_ del)));
        AfterDelegationModified hooks d valAddr) s = (Ok r, s') →
  ∃ b f, core s' = upd_dels f (set_bank b (core s)) ∧ moves (λ _, 0) (λ _, 0) (stk_bank s) b ∧
    (f = delete (d, a) ∧ left_ = 0 ∨ f = <[(d, a) := set_Shares left_ del]>).
Proof.
  intros Hd Ha H. rewrite Dec_IsZero_eqb in H. destruct (Z.eqb_spec left_ 0) as [->|Hne].
  - apply RemoveDelegation_inv in H as (d' & a' & s1 & Hd' & Ha' & (b & E1 & M) & E). cbn in Hd', Ha'.
    rewrite Hd in Hd'. rewrite Ha in Ha'. injection Hd' as <-. injection Ha' as <-.
    exists b, (delete (d, a)). split; [by rewrite E, E1|]. auto.
  - apply GoM_bind_Ok in H as (? & s1 & (d' & a' & Hd' & Ha' & E)%SetDelegation_inv & H). cbn in Hd', Ha'.
    rewrite Hd in Hd'. rewrite Ha in Ha'. injection Hd' as <-. injection Ha' as <-.
    apply GoM_bind_Ok in H as (va & s2 & [_ ->]%liftM_Ok & H%qh_delegation_modified). destruct H as (b & E2 & M).
    injection E as P1 V1 D1 U1 R1 B1. exists b, (<[(d, a) := set_Shares left_ del]>). rewrite B1 in M.
    split; [|by auto]. rewrite E2, P1, V1, D1, U1, R1. done.
Qed.

(** Shares leave a delegation and its validator together. *)
Lemma inv_remove_shares xB xN c d a v v2 del sh tk f :
  stk_inv denom xB xN c → c_vals c !! a = Some v → c_dels c !! (d, a) = Some del → 0 <= sh <= Shares del →
  (f = delete (d, a) ∧ Shares del - sh = 0 ∨ f = <[(d, a) := set_Shares (Shares del - sh) del]>) →
  RemoveDelShares sh v = Ok (v2, tk) →
  0 <= tk ∧ stk_inv denom (xB + if_bonded (IsBonded v) tk) (xN + if_bonded (negb (IsBonded v)) tk)
              (upd_dels f (upd_vals <[a := v2]> c)).
Proof.
  intros Hi Hv Hdel Hsh Hf HRm. destruct (si_dels _ _ _ _ Hi _ _ _ Hdel) as (Hd & Ha & HS & Hp).
  destruct (si_vals _ _ _ _ Hi _ _ Hv) as [Hop Hok]. pose proof (shares_of_ge _ _ _ _ _ _ _ Hi Hdel) as Hge.
  rewrite <- (si_shares _ _ _ _ Hi a), Hv in Hge. cbn in Hge. assert (0 <= sh <= DelegatorShares v) as Hb by lia.
  pose proof (val_step_ok _ _ Hok (step_unbond _ _ _ _ Hb HRm)) as Hok2.
  apply RemoveDelShares_Ok in HRm as (-> & Ht & _); [|done..]. split; [lia|].
  destruct (part_set_tokens (Tokens v - tk) (DelegatorShares v - sh) v) as [P1 P2].
  eapply stk_inv_eq; [apply (inv_upd denom xB xN c a v _ (f (c_dels c)) Hi Hv); try done| |].
  - intros d0 a0 del0 H0. destruct Hf as [[-> _]| ->].
    + apply lookup_delete_Some in H0 as [_ H0]. by apply (si_dels _ _ _ _ Hi).
    + apply lookup_insert_Some in H0 as [[[= <- <-] <-]|[_ H0]]; [|by apply (si_dels _ _ _ _ Hi)]. cbn. do 2 (split; [done|]). split; [lia|done].
  - intros z. cbn. destruct Hf as [[-> Hz]| ->].
    + rewrite shares_of_delete, Hdel. cbn. case_decide; lia.
    + rewrite shares_of_insert, Hdel. cbn. case_decide; lia.
  - rewrite P1. unfold if_bonded. destruct (IsBonded v); lia.
  - rewrite P2. unfold if_bonded. destruct (IsBonded v); cbn; lia.
Qed.

(** The validator that is left, or none. *)
Definition same_pool (v : Validator) (left_ : option Validator) : Prop :=
  match left_ with Some v' => IsBonded v' = IsBonded v | None => IsBonded v = false end.
Lemma remove_if_empty_inv xB xN a v s r s' :
  stk_inv denom xB xN (core s) → Validators s !! a = Some v →
  (if Dec_IsZero (DelegatorShares v) && IsUnbonded v then RemoveValidator hooks a else mret tt) s = (Ok r, s') →
  stk_inv denom xB xN (core s') ∧ (∀ x, x ≠ a → Validators s' !! x = Validators s !! x) ∧ same_pool v (Validators s' !! a).
Proof.
  intros Hi Hv H. rewrite Dec_IsZero_eqb in H. destruct (Z.eqb_spec (DelegatorShares v) 0) as [Ez|Ez]; cbn in H;
    [destruct (IsUnbonded v) eqn:Eu|]; [|injection H as _ <-; by rewrite Hv..].
  apply (RemoveValidator_keeps _ _ a v _ _ _ Hi Hv Ez) in H as [Hi' V]. rewrite V, lookup_delete_eq. split; [done|]. split.
  - intros x Hx. by rewrite lookup_delete_ne.
  - unfold same_pool, IsUnbonded, IsBonded in *. apply bool_decide_eq_true in Eu. by rewrite Eu.
Qed.

Lemma Unbond_inv xB xN d a sh s amt s' :
  stk_inv denom xB xN (core s) → 0 <= sh → Unbond hooks d a sh s = (Ok amt, s') →
  ∃ v, Validators s !! a = Some v ∧ 0 <= amt ∧ delegation_key d a ∧ (∀ x, x ≠ a → Validators s' !! x = Validators s !! x) ∧
    same_pool v (Validators s' !! a) ∧
    stk_inv denom (xB + if_bonded (IsBonded v) amt) (xN + if_bonded (negb (IsBonded v)) amt) (core s').
Proof.
  intros Hi Hsh H. unfold Unbond in H. apply GoM_bind_Ok in H as (o & s1 & [= <- <-] & H).
  destruct (Delegations s !! (d, a)) as [del|] eqn:Hdel; [|done].
  destruct (si_dels _ _ _ _ Hi _ _ _ Hdel) as (Hd & Ha & HS & Hp).
  apply GoM_bind_Ok in H as (? & s1 & Hst%qh_shares_modified & H). apply (still_inv _ _ _ _ _ Hst) in Hi.
  destruct (still_set_bank _ _ Hst) as [b1 E1]. injection E1 as _ V1 D1 _ _ _.
  apply GoM_bind_Ok in H as (? & s2 & [Hle%guard_err_Ok ->]%liftM_Ok & H). rewrite Dec_LT_ltb in Hle. apply Z.ltb_ge in Hle.
  apply GoM_bind_Ok in H as (v & s2 & (-> & Hv)%GetValidator_inv & H).
  destruct (si_vals _ _ _ _ Hi _ _ Hv) as [Hop _].
  apply GoM_bind_Ok in H as (left_ & s2 & [[-> _]%Dec_Sub_Ok ->]%liftM_Ok & H). cbn zeta in H.
  apply GoM_bind_Ok in H as (d' & s2 & [Hd' ->]%liftM_Ok & H). cbn in Hd'. rewrite Hd in Hd'. injection Hd' as <-.
  apply GoM_bind_Ok in H as (a' & s2 & [Ha' ->]%liftM_Ok & H). rewrite Hop in Ha'. injection Ha' as <-.
  apply GoM_bind_Ok in H as (v1 & s2 & Hj & H). apply (jail_below_minimum_inv xB xN) in Hj as [Hi2 Hj]; [|done..].
  assert (Validators s2 !! a = Some v1 ∧ Delegations s2 = Delegations s ∧ (∀ x, x ≠ a → Validators s2 !! x = Validators s !! x) ∧
          IsBonded v1 = IsBonded v) as (Hv1 & D2 & V2 & EB).
  { destruct Hj as [[E ->]|[E ->]]; injection E as _ V2 D2 _ _ _; rewrite V2, D2, ?V1, ?D1; cbn.
    - rewrite V1 in Hv. done.
    - rewrite lookup_insert_eq. repeat split; [done..|]. intros z Hx. by rewrite lookup_insert_ne. }
  apply GoM_bind_Ok in H as (? & s3 & (b & f & E3 & M & Hf)%(unbond_delegation_inv d a) & H); [|done..].
  destruct (si_vals _ _ _ _ Hi2 _ _ Hv1) as [Hop1 _].
  apply GoM_bind_Ok in H as ([v2 tk] & s4 & (HRm & E4)%(RemoveValidatorTokensAndShares_inv _ _ _ _ _ _ _ Hop1) & H).
  assert (stk_inv denom xB xN (set_bank b (core s2))) as Hi3.
  { eapply stk_inv_eq; [eapply inv_moves; [exact M|exact Hi2]|cbv beta; lia..]. }
  destruct (RemoveDelShares_operator _ _ _ _ HRm) as [_ HS2].
  destruct (inv_remove_shares xB xN _ d a v1 v2 del sh tk f Hi3) as [Ht Hi4]; try done; [cbn; by rewrite D2|].
  rewrite EB in Hi4.
  assert (core s4 = upd_dels f (upd_vals <[a := v2]> (set_bank b (core s2)))) as E5 by by rewrite E4, E3.
  rewrite <- E5 in Hi4. injection E5 as _ V4 _ _ _ _.
  apply GoM_bind_Ok in H as (? & s5 & (Hi5 & V5 & HP5)%(remove_if_empty_inv _ _ a v2 _ _ _ Hi4) & [= <- <-]);
    [|by rewrite V4; cbn; rewrite lookup_insert_eq].
  exists v. split; [by rewrite V1 in Hv|]. split; [lia|]. split; [done|]. split; [|split; [|done]].
  - intros z Hx. rewrite V5, V4 by done. cbn. by rewrite lookup_insert_ne, V2.
  - assert (IsBonded v2 = IsBonded v) as EB2 by (rewrite <- EB; unfold IsBonded; by rewrite HS2).
    unfold same_pool in *. by rewrite <- EB2.
Qed.

(** ** Unbonding delegations *)

Lemma SetUnbondingDelegation_inv u s r s' :
  SetUnbondingDelegation u s = (Ok r, s') →
  ∃ d a, StringToBytes (ubd_DelegatorAddress u) = Ok d ∧ ValStringToBytes (ubd_ValidatorAddress u) = Ok a ∧
    core s' = upd_ubds <[(d, a) := u]> (core s).
Proof.
  unfold SetUnbondingDelegation. intros H. apply GoM_bind_Ok in H as (d & s1 & [Hd ->]%liftM_Ok & H).
  apply GoM_bind_Ok in H as (a & s1 & [Ha ->]%liftM_Ok & H). apply GoM_bind_Ok in H as (? & s1 & [= <- <-] & [= <- <-]).
  by exists d, a.
Qed.
Lemma RemoveUnbondingDelegation_inv u s r s' :
  RemoveUnbondingDelegation u s = (Ok r, s') →
  ∃ d a, StringToBytes (ubd_DelegatorAddress u) = Ok d ∧ ValStringToBytes (ubd_ValidatorAddress u) = Ok a ∧
    core s' = upd_ubds (delete (d, a)) (core s).
Proof.
  unfold RemoveUnbondingDelegation. intros H. apply GoM_bind_Ok in H as (d & s1 & [Hd ->]%liftM_Ok & H).
  apply GoM_bind_Ok in H as (a & s1 & [Ha ->]%liftM_Ok & H). apply GoM_bind_Ok in H as (? & s1 & [= <- <-] & [= <- <-]).
  by exists d, a.
Qed.

Lemma AddEntry_Ok height time amt es es' :
  AddEntry height time amt es = Ok es' → 0 <= amt →
  entries_balance es' = entries_balance es + amt ∧ (Forall entry_ok es → Forall entry_ok es').
Proof.
  intros H Ha. revert es' H. induction es as [|e es IH]; intros es' H; cbn [AddEntry] in H.
  - injection H as <-. cbn. split; [lia|]. intros _. constructor; [split; cbn; lia|done].
  - destruct ((CreationHeight e =? height) && (CompletionTime e =? time)).
    + go_inv. apply Int_Add_Ok in H0 as [-> _]. apply Int_Add_Ok in H1 as [-> _].
      rewrite !entries_balance_cons. cbn. split; [lia|].
      intros [[? ?] ?]%Forall_cons. constructor; [split; cbn; lia|done].
    + go_inv. destruct (IH _ H0) as [E F]. rewrite !entries_balance_cons, E. split; [lia|].
      intros [? ?]%Forall_cons. constructor; auto.
Qed.
Lemma SetUnbondingDelegationEntry_keeps xB xN d a height time amt s u s' :
  stk_inv denom xB (xN + amt) (core s) → 0 <= amt → delegation_key d a →
  SetUnbondingDelegationEntry d a height time amt s = (Ok u, s') → stk_inv denom xB xN (core s').
Proof.
  intros Hi Ha Hd H. unfold SetUnbondingDelegationEntry in H. apply GoM_bind_Ok in H as (o & s1 & [= <- <-] & H).
  apply GoM_bind_Ok in H as (u' & s1 & [Hu ->]%liftM_Ok & H).
  apply GoM_bind_Ok in H as (? & s1 & (d' & a' & Hd' & Ha' & E)%SetUnbondingDelegation_inv & [= <- <-]). rewrite E.
  assert (d' = d ∧ a' = a ∧ Forall entry_ok (Entries u') ∧
          entries_balance (Entries u') = from_option (λ u, entries_balance (Entries u)) 0 (UnbondingDelegations s !! (d, a)) + amt)
    as (-> & -> & HF & HE).
  { destruct (UnbondingDelegations s !! (d, a)) as [u0|] eqn:Eu.
    - destruct (si_ubds _ _ _ _ Hi _ _ _ Eu) as (Hx & Hy & HF & _). go_inv. cbn in Hd', Ha'.
      rewrite Hx in Hd'. rewrite Hy in Ha'. injection Hd' as <-. injection Ha' as <-.
      apply AddEntry_Ok in H as [HE HF']; [|done]. auto.
    - unfold NewUnbondingDelegation in Hu. go_inv. cbn in Hd', Ha'.
      match goal with H1 : ValBytesToString a = Ok _, H2 : BytesToString d = Ok _ |- _ => apply ar_val in H1; [|apply Hd]; apply ar_acc in H2; [|apply Hd]; rewrite H1 in Ha'; rewrite H2 in Hd' end.
      injection Hd' as <-. injection Ha' as <-. cbn. repeat split; [constructor; [split; cbn; lia|done]|lia]. }
  eapply stk_inv_eq; [by apply (inv_set_ubd denom xB (xN + amt) (core s) d a u')|done|]. cbn. lia.
Qed.

Lemma idle_InsertUBDQueue u t : idle (InsertUBDQueue u t).
Proof. unfold InsertUBDQueue, GetUBDQueueTimeSlice, SetUBDQueueTimeSlice. idle_solve. Qed.
Lemma idle_get_Params : idle get_Params.
Proof. unfold get_Params. idle_solve. Qed.
Lemma idle_HasMax d a : idle (HasMaxUnbondingDelegationEntries d a).
Proof. unfold HasMaxUnbondingDelegationEntries, MaxEntries_param. pose proof idle_get_Params. idle_solve. Qed.
Lemma idle_UnbondingTime : idle UnbondingTime_param.
Proof. unfold UnbondingTime_param. pose proof idle_get_Params. idle_solve. Qed.

Lemma Undelegate_inv xB xN d a sh s r s' :
  stk_inv denom xB xN (core s) → 0 <= sh → Undelegate k hooks h d a sh s = (Ok r, s') → stk_inv denom xB xN (core s').
Proof.
  intros Hi Hsh H. unfold Undelegate in H. apply GoM_bind_Ok in H as (v & s1 & (-> & Hv)%GetValidator_inv & H).
  apply GoM_bind_Ok in H as (? & s1 & E1%idle_HasMax & H). apply GoM_bind_Ok in H as (? & s2 & [_ ->]%liftM_Ok & H).
  apply GoM_bind_Ok in H as (amt & s2 & Hu & H). rewrite <- E1 in Hi.
  apply (Unbond_inv xB xN) in Hu as (v' & Hv' & Ha & Hd & _ & _ & Hi2); [|done..].
  assert (v' = v) as -> by (injection E1 as _ V1 _ _ _ _; congruence).
  apply GoM_bind_Ok in H as (? & s3 & Hmv & H).
  assert (stk_inv denom xB (xN + amt) (core s3)) as Hi3.
  { destruct (IsBonded v); cbn in Hi2.
    - apply bonded_to_not_bonded_inv in Hmv as (_ & p & Hp & M); [|apply (si_addr _ _ _ _ Hi2)].
      eapply stk_inv_eq; [exact (bank_only_bond _ _ _ _ _ _ _ Hp M Hi2)|lia..].
    - injection Hmv as _ <-. by rewrite Z.add_0_r in Hi2. }
  apply GoM_bind_Ok in H as (ut & s4 & E4%idle_UnbondingTime & H). rewrite <- E4 in Hi3. cbn zeta in H.
  apply GoM_bind_Ok in H as (u & s5 & Hi5%(SetUnbondingDelegationEntry_keeps xB xN) & H); [|done..].
  apply GoM_bind_Ok in H as (? & s6 & E6%idle_InsertUBDQueue & [= <- <-]). by rewrite E6.
Qed.

(** What [complete_entries] pays out is what the entries lose. *)
Lemma complete_entries_inv dn d es : ∀ bals s kept bals' s',
  addr_ok (stk_bank s) → ¬ is_pool d → complete_entries k h dn d es bals s = (Ok (kept, bals'), s') →
  ∃ paid, entries_balance es = entries_balance kept + paid ∧ bank_only (λ _, 0) (at_denom dn (- paid)) s s' ∧
    (Forall entry_ok es → Forall entry_ok kept).
Proof.
  induction es as [|e es IH]; intros bals s kept bals' s' Hok Hd H; cbn [complete_entries] in H.
  - injection H as <- <- <-. exists 0. split; [done|]. split; [|done].
    eapply bank_only_ext; [| |by apply (still_core s)]; [done|]. intros dx. unfold at_denom. case_decide; lia.
  - destruct (IsMature (h_Time h) e).
    + apply GoM_bind_Ok in H as (bals1 & s1 & H1 & H).
      assert (bank_only (λ _, 0) (at_denom dn (- Balance e)) s s1) as M1.
      { rewrite Int_IsZero_eqb in H1. destruct (Z.eqb_spec (Balance e) 0) as [E|E].
        - injection H1 as _ <-. eapply bank_only_ext; [| |by apply (still_core s)]; [done|]. intros dx. unfold at_denom. case_decide; lia.
        - apply GoM_bind_Ok in H1 as (c & s2 & [(-> & _ & _)%NewCoin_inv ->]%liftM_Ok & H1).
          apply GoM_bind_Ok in H1 as (coins & s2 & [Hc ->]%liftM_Ok & H1).
          apply GoM_bind_Ok in H1 as (? & s2 & (b & Hb & Eb)%on_bank_inv & [_ ->]%liftM_Ok).
          eapply bank_only_set; [exact Eb|]. eapply moves_ext; [| |eapply (undelegate_moves k); [exact Hd|exact Hok|exact Hb]]; [done|].
          intros dx. cbv beta. rewrite (NewCoins_amount _ _ _ Hc). cbn. unfold at_denom. case_decide; lia. }
      assert (addr_ok (stk_bank s1)) as Hok1.
      { destruct M1 as (b & E & [_ _ _ Ma]). injection E as _ _ _ _ _ E. rewrite E. auto. }
      apply IH in H as (paid & E & M & F); [|done..]. exists (paid + Balance e). rewrite entries_balance_cons, E.
      split; [lia|]. split; [|by intros [_ ?]%Forall_cons; auto].
      eapply bank_only_ext; [| |by eapply bank_only_trans]; [done|]. intros dx. cbv beta. unfold at_denom. case_decide; lia.
    + apply GoM_bind_Ok in H as ([kept1 bals1] & s1 & H1 & H). cbn in H. injection H as <- <- <-.
      apply IH in H1 as (paid & E & M & F); [|done..]. exists paid. rewrite !entries_balance_cons, E.
      split; [lia|]. split; [done|]. intros [? ?]%Forall_cons. constructor; auto.
Qed.
Lemma CompleteUnbonding_inv xB xN d a s r s' :
  stk_inv denom xB xN (core s) → CompleteUnbonding k h d a s = (Ok r, s') → stk_inv denom xB xN (core s').
Proof.
  intros Hi H. unfold CompleteUnbonding, GetUnbondingDelegation in H.
  apply GoM_bind_Ok in H as (u & s1 & Hu & H). apply GoM_bind_Ok in Hu as (o & s0 & [= <- <-] & [Hu ->]%liftM_Ok).
  destruct (UnbondingDelegations s !! (d, a)) as [u0|] eqn:Eu; [injection Hu as ->|done].
  destruct (si_ubds _ _ _ _ Hi _ _ _ Eu) as (Hd & Ha & HF & Hp).
  apply GoM_bind_Ok in H as (dn & s1 & (-> & p & Hpr & Hdn)%BondDenom_inv & H).
  apply GoM_bind_Ok in H as (b0 & s1 & [_ ->]%liftM_Ok & H).
  apply GoM_bind_Ok in H as (d' & s1 & [Hd' ->]%liftM_Ok & H). rewrite Hd in Hd'. injection Hd' as <-.
  apply GoM_bind_Ok in H as ([kept bals] & s1 & Hc & H). cbn zeta in H.
  apply complete_entries_inv in Hc as (paid & E & M & F); [|apply (si_addr _ _ _ _ Hi)|apply Hp].
  apply GoM_bind_Ok in H as (? & s2 & Hset & [= <- <-]).
  assert (stk_inv denom xB (xN - paid) (core s1)) as Hi1.
  { rewrite <- Hdn in M. eapply stk_inv_eq; [apply (bank_only_bond xB xN p 0 (- paid) s s1 Hpr); [|exact Hi]|lia..].
    eapply bank_only_ext; [| |exact M]; [|done]. intros dx. unfold at_bond, at_denom. by case_decide. }
  assert (UnbondingDelegations s1 !! (d, a) = Some u) as Eu1.
  { destruct M as (b & Eb & _). injection Eb as _ _ _ Eb _ _. by rewrite Eb. }
  destruct (length kept =? 0)%nat eqn:El.
  - apply RemoveUnbondingDelegation_inv in Hset as (d' & a' & Hd' & Ha' & E2). cbn in Hd', Ha'.
    rewrite Hd in Hd'. rewrite Ha in Ha'. injection Hd' as <-. injection Ha' as <-. rewrite E2.
    apply Nat.eqb_eq in El. destruct kept; [|done]. cbn in E.
    eapply stk_inv_eq; [by apply (inv_remove_ubd denom xB (xN - paid) (core s1) d a)|done|]. cbn. rewrite Eu1. cbn. lia.
  - apply SetUnbondingDelegation_inv in Hset as (d' & a' & Hd' & Ha' & E2). cbn in Hd', Ha'.
    rewrite Hd in Hd'. rewrite Ha in Ha'. injection Hd' as <-. injection Ha' as <-. rewrite E2.
    eapply stk_inv_eq; [by apply (inv_set_ubd denom xB (xN - paid) (core s1) d a (set_Entries kept u)); auto|done|].
    change (c_ubds (core s1)) with (UnbondingDelegations s1). rewrite Eu1. cbn [from_option set_Entries Entries]. lia.
Qed.
End Ops.
