(* ===== verification/StakingSlash.v ===== *)
(** * Redelegations, status transitions and slashing keep the invariant *)
From S2P Require Import Prelude MathInt LegacyDec Coin CoinFacts Collections Account Vesting AuthKeeper AuthProps Bank BankFacts BankProps BankDelegation Validator Staking StakingBank StakingFacts StakingOps.

Section Redelegations.
Context {cfg : CoinConfig} {acfg : AddressConfig} {vcfg : ValAddressConfig} {HR : AddressRoundtrip}.
Context (k : BaseKeeper) {HP : PoolConfig k} (hooks : StakingHooks) {HH : QuietHooks hooks}.
Variable h : Header.
Variable denom : string.

(** ** Redelegations *)

Lemma SetRedelegation_inv red s r s' :
  SetRedelegation red s = (Ok r, s') →
  ∃ d a b, StringToBytes (red_DelegatorAddress red) = Ok d ∧ ValStringToBytes (ValidatorSrcAddress red) = Ok a ∧
    ValStringToBytes (ValidatorDstAddress red) = Ok b ∧ core s' = upd_reds <[(d, a, b) := red]> (core s).
Proof.
  unfold SetRedelegation. intros H. apply GoM_bind_Ok in H as (d & s1 & [Hd ->]%liftM_Ok & H).
  apply GoM_bind_Ok in H as (a & s1 & [Ha ->]%liftM_Ok & H). apply GoM_bind_Ok in H as (b & s1 & [Hb ->]%liftM_Ok & H).
  apply GoM_bind_Ok in H as (? & s1 & [= <- <-] & H). apply GoM_bind_Ok in H as (? & s1 & [= <- <-] & [= <- <-]).
  by exists d, a, b.
Qed.
Lemma RemoveRedelegation_inv red s r s' :
  RemoveRedelegation red s = (Ok r, s') → ∃ d a b, core s' = upd_reds (delete (d, a, b)) (core s).
Proof.
  unfold RemoveRedelegation. intros H. apply GoM_bind_Ok in H as (d & s1 & [Hd ->]%liftM_Ok & H).
  apply GoM_bind_Ok in H as (a & s1 & [Ha ->]%liftM_Ok & H). apply GoM_bind_Ok in H as (b & s1 & [Hb ->]%liftM_Ok & H).
  apply GoM_bind_Ok in H as (? & s1 & [= <- <-] & H). apply GoM_bind_Ok in H as (? & s1 & [= <- <-] & [= <- <-]).
  by exists d, a, b.
Qed.
Lemma NewRedelegation_ok d a b height time amt sh red :
  NewRedelegation d a b height time amt sh = Ok red → valid_address d → valid_address a → valid_address b → a ≠ b → 0 <= amt → red_ok d a b red.
Proof.
  unfold NewRedelegation. intros H Vd Va Vb Hne Ha. go_inv.
  match goal with
    H1 : ValBytesToString a = Ok _, H2 : ValBytesToString b = Ok _, H3 : BytesToString d = Ok _ |- _ =>
      apply ar_val in H1; [|done]; apply ar_val in H2; [|done]; apply ar_acc in H3; [|done]
  end.
  repeat split; try done. by repeat constructor.
Qed.
Lemma SetRedelegationEntry_keeps xB xN d a b height time amt sh s red s' :
  stk_inv denom xB xN (core s) → valid_address d → valid_address a → valid_address b → a ≠ b → 0 <= amt →
  SetRedelegationEntry d a b height time amt sh s = (Ok red, s') → stk_inv denom xB xN (core s').
Proof.
  intros Hi Vd Va Vb Hne Ha H. unfold SetRedelegationEntry in H. apply GoM_bind_Ok in H as (o & s1 & [= <- <-] & H).
  apply GoM_bind_Ok in H as (r & s1 & [Hr ->]%liftM_Ok & H).
  apply GoM_bind_Ok in H as (? & s1 & (d' & a' & b' & Hd & Hsrc & Hdst & E)%SetRedelegation_inv & [= <- <-]). rewrite E.
  assert (red_ok d a b r) as Hok.
  { destruct (Redelegations s !! (d, a, b)) as [r0|] eqn:Er; [|by eapply NewRedelegation_ok].
    destruct (si_reds _ _ _ _ Hi _ _ _ _ Er) as (? & ? & ? & ? & ?). injection Hr as <-. repeat split; try done. cbn.
    apply Forall_app. by repeat constructor. }
  destruct Hok as (Hd' & Hsrc' & Hdst' & Hok). rewrite Hd' in Hd. rewrite Hsrc' in Hsrc. rewrite Hdst' in Hdst. simplify_eq.
  by apply inv_set_red.
Qed.

Lemma idle_InsertRedelegationQueue red t : idle (InsertRedelegationQueue red t).
Proof. unfold InsertRedelegationQueue, GetRedelegationQueueTimeSlice, SetRedelegationQueueTimeSlice. idle_solve. Qed.
Lemma idle_HasMaxRedelegationEntries d a b : idle (HasMaxRedelegationEntries d a b).
Proof. unfold HasMaxRedelegationEntries, MaxEntries_param. pose proof idle_get_Params. idle_solve. Qed.
Lemma idle_getBeginInfo a : idle (getBeginInfo h a).
Proof. unfold getBeginInfo. pose proof idle_UnbondingTime. idle_solve. Qed.

Lemma BeginRedelegation_inv xB xN d a b sh s r s' :
  stk_inv denom xB xN (core s) → 0 <= sh → BeginRedelegation k hooks h d a b sh s = (Ok r, s') → stk_inv denom xB xN (core s').
Proof.
  intros Hi Hsh H. unfold BeginRedelegation in H. apply GoM_bind_Ok in H as (? & s1 & [Hne%guard_err_Ok ->]%liftM_Ok & H).
  rewrite str_eq_spec in Hne. apply bool_decide_eq_false in Hne.
  apply GoM_bind_Ok in H as (o & s1 & [= <- <-] & H). apply GoM_bind_Ok in H as (dst & s1 & [Hdst ->]%liftM_Ok & H).
  destruct (Validators s !! b) as [v|] eqn:Hv; [injection Hdst as ->|done].
  apply GoM_bind_Ok in H as (o & s1 & [= <- <-] & H). apply GoM_bind_Ok in H as (src & s1 & [Hsrc ->]%liftM_Ok & H).
  destruct (Validators s !! a) as [w|] eqn:Hw; [injection Hsrc as ->|done].
  apply GoM_bind_Ok in H as (o & s1 & [= <- <-] & H). apply GoM_bind_Ok in H as (? & s1 & [_ ->]%liftM_Ok & H).
  apply GoM_bind_Ok in H as (o2 & s1 & E1%idle_HasMaxRedelegationEntries & H).
  apply GoM_bind_Ok in H as (? & s2 & [_ ->]%liftM_Ok & H). rewrite <- E1 in Hi. injection E1 as _ V1 _ _ _ _.
  apply GoM_bind_Ok in H as (amt & s2 & Hu & H).
  apply (Unbond_inv hooks denom xB xN) in Hu as (w' & Hw' & Ha & [Hd Va] & V2 & _ & Hi2); [|done..].
  assert (valid_address b) as Vb by (eapply (si_keys _ _ _ _ Hi); cbn; by rewrite V1).
  rewrite V1, Hw in Hw'. injection Hw' as <-.
  apply GoM_bind_Ok in H as (? & s3 & [_ ->]%liftM_Ok & H). apply GoM_bind_Ok in H as (shc & s3 & Hdel & H).
  apply (Delegate_inv k hooks h denom xB xN d amt (Status src) dst false b) in Hdel as [Hdel _]; [|done|by rewrite V2, V1 by done|done..].
  apply GoM_bind_Ok in H as ([[time height] now] & s4 & E4%idle_getBeginInfo & H). rewrite <- E4 in Hdel.
  destruct now; [by injection H as <- <-|]. apply GoM_bind_Ok in H as (red & s5 & H5 & H).
  apply (SetRedelegationEntry_keeps xB xN) in H5; [|done|by apply Hd|done..].
  apply GoM_bind_Ok in H as (? & s6 & E6%idle_InsertRedelegationQueue & [= <- <-]). by rewrite E6.
Qed.

Lemma CompleteRedelegation_inv xB xN d a b s r s' :
  stk_inv denom xB xN (core s) → CompleteRedelegation h d a b s = (Ok r, s') → stk_inv denom xB xN (core s').
Proof.
  intros Hi H. unfold CompleteRedelegation in H. apply GoM_bind_Ok in H as (o & s1 & [= <- <-] & H).
  apply GoM_bind_Ok in H as (red & s1 & [Hr ->]%liftM_Ok & H).
  destruct (Redelegations s !! (d, a, b)) as [r0|] eqn:Er; [injection Hr as ->|done].
  destruct (si_reds _ _ _ _ Hi _ _ _ _ Er) as (Hd & Ha & Hb & Hne & HF).
  apply GoM_bind_Ok in H as (dn & s1 & (-> & _)%BondDenom_inv & H). apply GoM_bind_Ok in H as (? & s1 & [_ ->]%liftM_Ok & H).
  apply GoM_bind_Ok in H as (bal & s1 & [_ ->]%liftM_Ok & H). cbn zeta in H. apply GoM_bind_Ok in H as (? & s1 & H & [= <- <-]).
  case_match.
  - apply RemoveRedelegation_inv in H as (d' & a' & b' & E). rewrite E. by apply inv_remove_red.
  - apply SetRedelegation_inv in H as (d' & a' & b' & Hd' & Ha' & Hb' & E). cbn in Hd', Ha', Hb'. rewrite E.
    assert (d' = d ∧ a' = a ∧ b' = b) as (-> & -> & ->) by (split_and!; congruence).
    apply inv_set_red; [done|]. repeat split; try done. cbn.
    apply Forall_forall. intros e [_ He]%list_elem_of_filter. by apply (proj1 (Forall_forall _ _) HF).
Qed.
End Redelegations.

(** ** Status transitions *)

Section Transitions.
Context {cfg : CoinConfig} {acfg : AddressConfig} {vcfg : ValAddressConfig} {HR : AddressRoundtrip}.
Context (k : BaseKeeper) {HP : PoolConfig k} (hooks : StakingHooks) {HH : QuietHooks hooks}.
Variable h : Header.
Variable denom : string.

(** A validator is written with another status: its tokens change pools on paper. *)
Lemma inv_upd_status xB xN c a v v' :
  stk_inv denom xB xN c → c_vals c !! a = Some v → OperatorAddress v' = OperatorAddress v → Tokens v' = Tokens v →
  DelegatorShares v' = DelegatorShares v →
  stk_inv denom (xB + if_bonded (IsBonded v) (Tokens v) - if_bonded (IsBonded v') (Tokens v))
    (xN + if_bonded (negb (IsBonded v)) (Tokens v) - if_bonded (negb (IsBonded v')) (Tokens v)) (upd_vals <[a := v']> c).
Proof.
  intros Hi Hv Hop HT HS. eapply stk_inv_eq; [apply (inv_upd_val denom xB xN c a v v' Hi Hv Hop); [|done]| |].
  - apply (si_vals _ _ _ _ Hi) in Hv as [_ Hok]. unfold val_ok in *. by rewrite HT, HS.
  - unfold bonded_part, if_bonded. rewrite HT. destruct (IsBonded v), (IsBonded v'); lia.
  - unfold not_bonded_part, if_bonded. rewrite HT. destruct (IsBonded v), (IsBonded v'); cbn; lia.
Qed.

Lemma bondValidator_inv xB xN v a s v' s' :
  stk_inv denom xB xN (core s) → Validators s !! a = Some v → IsBonded v = false → bondValidator hooks v s = (Ok v', s') →
  Tokens v' = Tokens v ∧ stk_inv denom (xB - Tokens v) (xN + Tokens v) (core s').
Proof.
  intros Hi Hv Hb H. destruct (si_vals _ _ _ _ Hi _ _ Hv) as [Hop _]. unfold bondValidator in H.
  apply GoM_bind_Ok in H as (? & s1 & E1%idle_DeleteValidatorByPowerIndex & H).
  apply GoM_bind_Ok in H as (? & s2 & (a' & Ha' & E2)%SetValidator_inv & H). cbn in Ha'. rewrite Hop in Ha'. injection Ha' as <-.
  apply GoM_bind_Ok in H as (? & s3 & E3%idle_SetValidatorByPowerIndex & H).
  apply GoM_bind_Ok in H as (? & s4 & E4%idle_DeleteValidatorQueue & H).
  apply GoM_bind_Ok in H as (ca & s5 & [_ ->]%liftM_Ok & H). apply GoM_bind_Ok in H as (str & s5 & [_ ->]%liftM_Ok & H).
  apply GoM_bind_Ok in H as (? & s5 & Hh%qh_validator_bonded & [= <- <-]). split; [done|].
  eapply still_inv; [exact Hh|]. rewrite E4, E3, E2, E1.
  eapply stk_inv_eq; [apply (inv_upd_status xB xN _ a v); done| |];
    rewrite Hb; change (IsBonded (UpdateStatus Bonded v)) with true; cbn; lia.
Qed.
Lemma BeginUnbondingValidator_inv xB xN v a s v' s' :
  stk_inv denom xB xN (core s) → Validators s !! a = Some v → BeginUnbondingValidator hooks h v s = (Ok v', s') →
  Tokens v' = Tokens v ∧ stk_inv denom (xB + Tokens v) (xN - Tokens v) (core s').
Proof.
  intros Hi Hv H. destruct (si_vals _ _ _ _ Hi _ _ Hv) as [Hop _]. unfold BeginUnbondingValidator in H.
  apply GoM_bind_Ok in H as (p & s0 & E0%idle_get_Params & H).
  apply GoM_bind_Ok in H as (? & s1 & E1%idle_DeleteValidatorByPowerIndex & H).
  apply GoM_bind_Ok in H as (? & s2 & [Hb%guard_err_Ok ->]%liftM_Ok & H). apply negb_false_iff in Hb. cbn zeta in H.
  apply GoM_bind_Ok in H as (? & s2 & (a' & Ha' & E2)%SetValidator_inv & H). cbn in Ha'. rewrite Hop in Ha'. injection Ha' as <-.
  apply GoM_bind_Ok in H as (? & s3 & E3%idle_SetValidatorByPowerIndex & H).
  apply GoM_bind_Ok in H as (? & s4 & E4%idle_InsertUnbondingValidatorQueue & H).
  apply GoM_bind_Ok in H as (ca & s5 & [_ ->]%liftM_Ok & H). apply GoM_bind_Ok in H as (str & s5 & [_ ->]%liftM_Ok & H).
  apply GoM_bind_Ok in H as (? & s5 & Hh%qh_validator_unbonding & [= <- <-]). split; [done|].
  eapply still_inv; [exact Hh|]. rewrite E4, E3, E2, E1, E0.
  eapply stk_inv_eq; [apply (inv_upd_status xB xN _ a v); done| |]; rewrite Hb;
    change (IsBonded (set_unbonding _ _ _)) with false; cbn; lia.
Qed.

Lemma unbond_mature_inv xB xN str s r s' :
  stk_inv denom xB xN (core s) → unbond_mature hooks str s = (Ok r, s') → stk_inv denom xB xN (core s').
Proof.
  intros Hi H. unfold unbond_mature in H. apply GoM_bind_Ok in H as (a & s1 & [_ ->]%liftM_Ok & H).
  apply GoM_bind_Ok in H as (v & s1 & (-> & Hv)%GetValidator_inv & H). destruct (si_vals _ _ _ _ Hi _ _ Hv) as [Hop _].
  apply GoM_bind_Ok in H as (? & s1 & [Hu%guard_err_Ok ->]%liftM_Ok & H). apply negb_false_iff in Hu.
  assert (IsBonded v = false) as Hb by (unfold IsUnbonding, IsBonded in *; apply bool_decide_eq_true in Hu; by rewrite Hu).
  apply GoM_bind_Ok in H as (v' & s1 & H1 & H). unfold UnbondingToUnbonded in H1.
  apply GoM_bind_Ok in H1 as (? & s2 & [_ ->]%liftM_Ok & H1).
  apply GoM_bind_Ok in H1 as (? & s2 & (a' & Ha' & E2)%SetValidator_inv & [= <- <-]). cbn in Ha'. rewrite Hop in Ha'. injection Ha' as <-.
  assert (stk_inv denom xB xN (core s2)) as Hi2.
  { rewrite E2. eapply stk_inv_eq; [apply (inv_upd_status xB xN _ a v); done| |];
      rewrite Hb; change (IsBonded (UpdateStatus Unbonded v)) with false; cbn; lia. }
  apply GoM_bind_Ok in H as (? & s3 & H3 & E4%idle_DeleteValidatorQueue). rewrite E4.
  rewrite Dec_IsZero_eqb in H3. cbn [DelegatorShares UpdateStatus] in H3.
  destruct (Z.eqb_spec (DelegatorShares v) 0) as [Ez|Ez]; [|by injection H3 as _ <-].
  apply GoM_bind_Ok in H3 as (a' & s4 & [Ha' ->]%liftM_Ok & H3). cbn in Ha'. rewrite Hop in Ha'. injection Ha' as <-.
  injection E2 as _ V2 _ _ _ _.
  eapply (RemoveValidator_keeps hooks denom xB xN a) in H3 as [? _]; [done|exact Hi2|by rewrite V2; cbn; rewrite lookup_insert_eq|done].
Qed.

(** A loop keeps what its body keeps. *)
Lemma forM_keeps {A} (P : StakingState → Prop) (f : A → GoM StakingState unit) l s r s' :
  (∀ x s r s', x ∈ l → P s → f x s = (Ok r, s') → P s') → P s → forM_ f l s = (Ok r, s') → P s'.
Proof.
  revert s r. induction l as [|x l IH]; intros s r Hf Hs H; cbn [forM_] in H; [by injection H as _ <-|].
  apply GoM_bind_Ok in H as (y & s1 & H1 & H). eapply IH; [|by eapply Hf; [left|exact Hs|exact H1]|exact H].
  intros. eapply Hf; [by right|done|done].
Qed.
Lemma UnbondAllMatureValidators_inv xB xN s r s' :
  stk_inv denom xB xN (core s) → UnbondAllMatureValidators hooks h s = (Ok r, s') → stk_inv denom xB xN (core s').
Proof.
  intros Hi H. unfold UnbondAllMatureValidators in H. apply GoM_bind_Ok in H as (kvs & s1 & [= <- <-] & H).
  eapply (forM_keeps (λ s, stk_inv denom xB xN (core s))); [|exact Hi|exact H].
  intros kv s1 r1 s2 _ Hi1 H1. cbv beta in H1. unfold unbondMatureValidators in H1. case_match; [by injection H1 as _ <-|].
  eapply (forM_keeps (λ s, stk_inv denom xB xN (core s))); [|exact Hi1|exact H1].
  intros x s3 r3 s4 _ Hi3 H3. by eapply unbond_mature_inv.
Qed.
End Transitions.

(** ** Slashing *)

Section Slashing.
Context {cfg : CoinConfig} {acfg : AddressConfig} {vcfg : ValAddressConfig} {HR : AddressRoundtrip}.
Context (k : BaseKeeper) {HP : PoolConfig k} (hooks : StakingHooks) {HH : QuietHooks hooks}.
Variable h : Header.
Variable denom : string.

Lemma burn_bank_only xB xN a s s' coins p :
  stk_inv denom xB xN (core s) → stk_Params s = Some p → (∀ d, amount coins d = at_bond p a d) → ∀ addr u,
  on_bank (BurnCoins (Unix h) addr coins) s = (Ok u, s') →
  bank_only (λ d, if decide (addr = bonded_addr) then at_bond p (- a) d else 0)
            (λ d, if decide (addr = not_bonded_addr) then at_bond p (- a) d else 0) s s'.
Proof.
  intros Hi Hp Hc addr u (b & Hb & E)%on_bank_inv. eapply bank_only_set; [exact E|].
  eapply moves_ext; [| |eapply burn_moves; [apply (si_bank _ _ _ _ Hi)|apply (si_addr _ _ _ _ Hi)|exact Hb]];
    intros d; cbv beta; rewrite Hc; unfold at_bond, at_denom; repeat case_decide; lia.
Qed.
Lemma burnBonded_inv xB xN amt s r s' :
  stk_inv denom (xB + amt) xN (core s) → 0 <= amt → burnBondedTokens k h amt s = (Ok r, s') →
  stk_inv denom xB xN (core s') ∧ ∃ b, core s' = set_bank b (core s).
Proof.
  intros Hi Ha H. unfold burnBondedTokens in H. rewrite Int_IsPositive_ltb in H. destruct (Z.ltb_spec 0 amt); cbn in H.
  - apply GoM_bind_Ok in H as (coins & s1 & (-> & _ & p & Hp & Hc)%bond_coins_inv & H).
    destruct pc_bonded as [perms Hr]. unfold pool_address in H. rewrite (pool_module_address k _ _ Hr) in H. cbn in H.
    eapply burn_bank_only in H; [|done..]. split; [|by eapply bank_only_set_bank]. pose proof pc_distinct as Hne.
    assert (bank_only (at_bond p (- amt)) (at_bond p 0) s s') as M.
    { eapply bank_only_ext; [| |exact H]; intros d; cbv beta; [by rewrite decide_True|]. rewrite decide_False by done.
      clear. unfold at_bond, at_denom. case_decide; reflexivity. }
    eapply stk_inv_eq; [exact (bank_only_bond _ _ _ _ _ _ _ _ Hp M Hi)|lia..].
  - injection H as _ <-. split; [|by exists (stk_bank s)]. eapply stk_inv_eq; [exact Hi|lia..].
Qed.
Lemma burnNotBonded_inv xB xN amt s r s' :
  stk_inv denom xB (xN + amt) (core s) → 0 <= amt → burnNotBondedTokens k h amt s = (Ok r, s') →
  stk_inv denom xB xN (core s') ∧ ∃ b, core s' = set_bank b (core s).
Proof.
  intros Hi Ha H. unfold burnNotBondedTokens in H. rewrite Int_IsPositive_ltb in H. destruct (Z.ltb_spec 0 amt); cbn in H.
  - apply GoM_bind_Ok in H as (coins & s1 & (-> & _ & p & Hp & Hc)%bond_coins_inv & H).
    destruct pc_not_bonded as [perms Hr]. unfold pool_address in H. rewrite (pool_module_address k _ _ Hr) in H. cbn in H.
    eapply burn_bank_only in H; [|done..]. split; [|by eapply bank_only_set_bank]. pose proof pc_distinct as Hne.
    assert (bank_only (at_bond p 0) (at_bond p (- amt)) s s') as M.
    { eapply bank_only_ext; [| |exact H]; intros d; cbv beta; [|by rewrite decide_True]. rewrite decide_False by done.
      clear. unfold at_bond, at_denom. case_decide; reflexivity. }
    eapply stk_inv_eq; [exact (bank_only_bond _ _ _ _ _ _ _ _ Hp M Hi)|lia..].
  - injection H as _ <-. split; [|by exists (stk_bank s)]. eapply stk_inv_eq; [exact Hi|lia..].
Qed.

(** Validators and the other unbonding delegations stay. *)
Definition only_ubd (d a : string) (s s' : StakingState) : Prop :=
  Validators s' = Validators s ∧ ∀ key, key ≠ (d, a) → UnbondingDelegations s' !! key = UnbondingDelegations s !! key.
Lemma only_ubd_trans d a s s1 s2 : only_ubd d a s s1 → only_ubd d a s1 s2 → only_ubd d a s s2.
Proof. intros [V1 U1] [V2 U2]. split; [congruence|]. intros key Hk. by rewrite U2, U1. Qed.
Lemma only_ubd_refl d a s : only_ubd d a s s.
Proof. done. Qed.

(** One entry of an unbonding delegation loses [x]. *)
Lemma slash_one xB xN ubd d a dn e rest x s r s' :
  stk_inv denom xB xN (core s) → UnbondingDelegations s !! (d, a) = Some (set_Entries (dn ++ e :: rest) ubd) → 0 <= x <= Balance e →
  SetUnbondingDelegation (set_Entries ((dn ++ [set_Balance (Balance e - x) e]) ++ rest) ubd) s = (Ok r, s') →
  stk_inv denom xB (xN + x) (core s') ∧ only_ubd d a s s' ∧
  UnbondingDelegations s' !! (d, a) = Some (set_Entries ((dn ++ [set_Balance (Balance e - x) e]) ++ rest) ubd).
Proof.
  intros Hi Hu Hx (d' & a' & Hd' & Ha' & E)%SetUnbondingDelegation_inv. destruct (si_ubds _ _ _ _ Hi _ _ _ Hu) as (Hd & Ha & HF & Hp).
  cbn in Hd, Ha, Hd', Ha', HF. assert (d' = d ∧ a' = a) as [-> ->] by (split; congruence).
  apply Forall_app in HF as [HF1 [[He1 He2] HF2]%Forall_cons]. rewrite E. split; [|split].
  - eapply stk_inv_eq; [apply (inv_set_ubd denom xB xN (core s) d a _ Hi); [exact Hd|exact Ha| |done]|done|].
    + cbn. apply Forall_app; split; [|done]. apply Forall_app; split; [done|]. repeat constructor; cbn; lia.
    + change (c_ubds (core s)) with (UnbondingDelegations s). rewrite Hu. cbn [from_option set_Entries Entries].
      rewrite !entries_balance_app, !entries_balance_cons. cbn. lia.
  - injection E as _ V _ U _ _. split; [done|]. intros key Hk. rewrite U. cbn. by rewrite lookup_insert_ne.
  - injection E as _ _ _ U _ _. rewrite U. cbn. by rewrite lookup_insert_eq.
Qed.

Lemma slash_amount_nonneg f i x y : 0 <= f → 0 <= i → Dec_MulInt f i = Ok x → Dec_TruncateInt x = Ok y → 0 <= y.
Proof.
  intros Hf Hi [-> Hr]%Dec_MulInt_Ok H. rewrite Dec_TruncateInt_range in H by done. injection H as <-.
  pose proof precisionReuse_pos. apply Z.quot_pos; nia.
Qed.

Lemma slash_entries_inv xB xN ih f ubd d a es : 0 <= f → ∀ dn total burned s total' burned' s',
  stk_inv denom xB (xN + burned) (core s) → UnbondingDelegations s !! (d, a) = Some (set_Entries (dn ++ es) ubd) → 0 <= burned →
  slash_entries h ih f ubd dn es total burned s = (Ok (total', burned'), s') →
  stk_inv denom xB (xN + burned') (core s') ∧ 0 <= burned' ∧ only_ubd d a s s'.
Proof.
  intros Hf. induction es as [|e es IH]; intros dn total burned s total' burned' s' Hi Hu Hb H; cbn [slash_entries] in H.
  - by injection H as <- <- <-.
  - assert (UnbondingDelegations s !! (d, a) = Some (set_Entries ((dn ++ [e]) ++ es) ubd)) as Hu' by by rewrite <- app_assoc.
    destruct (CreationHeight e <? ih); [by eapply IH|]. destruct (IsMature (h_Time h) e); [by eapply IH|].
    destruct (si_ubds _ _ _ _ Hi _ _ _ Hu) as (_ & _ & HF & _). cbn in HF. apply Forall_app in HF as [_ [[He1 He2] _]%Forall_cons].
    apply GoM_bind_Ok in H as (x & s1 & [Hx ->]%liftM_Ok & H). apply GoM_bind_Ok in H as (y & s1 & [Hy ->]%liftM_Ok & H).
    assert (0 <= y) by (eapply slash_amount_nonneg; [exact Hf| |exact Hx|exact Hy]; lia).
    apply GoM_bind_Ok in H as (tot & s1 & [_ ->]%liftM_Ok & H). cbn zeta in H. rewrite MinInt_min, Int_IsZero_eqb in H.
    destruct (Z.eqb_spec (y `min` Balance e) 0); [by eapply IH|].
    apply GoM_bind_Ok in H as (bu & s1 & [[-> _]%Int_Add_Ok ->]%liftM_Ok & H).
    apply GoM_bind_Ok in H as (ba & s1 & [[-> _]%Int_Sub_Ok ->]%liftM_Ok & H).
    apply GoM_bind_Ok in H as (u & s1 & H1 & H). eapply slash_one in H1 as (Hi1 & Ho & Hu1); [|exact Hi|exact Hu|lia].
    eapply IH in H as (? & ? & Ho2); [| |exact Hu1|lia].
    + split; [done|]. split; [done|]. by eapply only_ubd_trans.
    + by rewrite Z.add_assoc.
Qed.
Lemma SlashUnbondingDelegation_inv xB xN ih f ubd d a s r s' :
  0 <= f → stk_inv denom xB xN (core s) → (Entries ubd = [] ∨ UnbondingDelegations s !! (d, a) = Some ubd) →
  SlashUnbondingDelegation k h ubd ih f s = (Ok r, s') → stk_inv denom xB xN (core s') ∧ only_ubd d a s s'.
Proof.
  intros Hf Hi Hu H. unfold SlashUnbondingDelegation in H. apply GoM_bind_Ok in H as ([total burned] & s1 & H1 & H).
  cbn in H. apply GoM_bind_Ok in H as (? & s2 & H2 & [= <- <-]).
  assert (stk_inv denom xB (xN + burned) (core s1) ∧ 0 <= burned ∧ only_ubd d a s s1) as (Hi1 & Hb & Ho).
  { destruct Hu as [Hu|Hu].
    - rewrite Hu in H1. injection H1 as <- <- <-. rewrite Z.add_0_r. done.
    - eapply slash_entries_inv; [exact Hf| | |reflexivity|exact H1]; [by rewrite Z.add_0_r|]. by destruct ubd. }
  apply (burnNotBonded_inv xB xN) in H2 as [Hi2 [b E]]; [|done..]. split; [done|].
  eapply only_ubd_trans; [exact Ho|]. injection E as _ V _ U _ _. split; [done|]. intros key _. by rewrite U.
Qed.

(** *** Redelegations *)

Lemma slash_unbonding_first_inv xB xN ih ubd d a es : ∀ dn sl nb s sl' nb' s',
  stk_inv denom xB (xN + nb) (core s) → UnbondingDelegations s !! (d, a) = Some (set_Entries (dn ++ es) ubd) → 0 <= sl → 0 <= nb →
  slash_unbonding_first h ih ubd dn es sl nb s = (Ok (sl', nb'), s') →
  stk_inv denom xB (xN + nb') (core s') ∧ 0 <= sl' ∧ 0 <= nb' ∧ Validators s' = Validators s.
Proof.
  induction es as [|e es IH]; intros dn sl nb s sl' nb' s' Hi Hu Hs Hn H; cbn [slash_unbonding_first] in H.
  - by injection H as <- <- <-.
  - assert (UnbondingDelegations s !! (d, a) = Some (set_Entries ((dn ++ [e]) ++ es) ubd)) as Hu' by by rewrite <- app_assoc.
    destruct (si_ubds _ _ _ _ Hi _ _ _ Hu) as (_ & _ & HF & _). cbn in HF. apply Forall_app in HF as [_ [[He1 He2] _]%Forall_cons].
    destruct (_ || _ || _); [by eapply (IH (dn ++ [e]) sl nb)|]. rewrite MinInt_min in H.
    apply GoM_bind_Ok in H as (x & s1 & [[-> _]%Int_Sub_Ok ->]%liftM_Ok & H).
    apply GoM_bind_Ok in H as (y & s1 & [[-> _]%Int_Add_Ok ->]%liftM_Ok & H).
    apply GoM_bind_Ok in H as (z & s1 & [[-> _]%Int_Sub_Ok ->]%liftM_Ok & H). cbn zeta in H.
    apply GoM_bind_Ok in H as (u & s1 & H1 & H). eapply slash_one in H1 as (Hi1 & [Ho _] & Hu1); [|exact Hi|exact Hu|lia].
    eapply IH in H as (? & ? & ? & V); [| |exact Hu1|lia..].
    + rewrite V, Ho. done.
    + by rewrite Z.add_assoc.
Qed.

Lemma SharesFromTokensTruncated_nonneg amt v sh : val_ok v → 0 <= amt → SharesFromTokensTruncated amt v = Ok sh → 0 <= sh.
Proof.
  intros (HT & HS & _ & _) Ha H. pose proof H as H'. apply SharesFromTokensTruncated_Ok in H as ->.
  unfold SharesFromTokensTruncated in H'. rewrite Int_IsZero_eqb in H'. destruct (Z.eqb_spec (Tokens v) 0); [done|].
  apply Z.quot_pos; nia.
Qed.

(** The validators other than [a] stay. *)
Definition others_stay (a : string) (s s' : StakingState) : Prop := ∀ x, x ≠ a → Validators s' !! x = Validators s !! x.
Lemma slash_delegation_inv xB xN d a sl burned s burned' s' :
  stk_inv denom (xB + burned.1) (xN + burned.2) (core s) → 0 <= sl → 0 <= burned.1 → 0 <= burned.2 →
  slash_delegation hooks d a sl burned s = (Ok burned', s') →
  stk_inv denom (xB + burned'.1) (xN + burned'.2) (core s') ∧ 0 <= burned'.1 ∧ 0 <= burned'.2 ∧ others_stay a s s'.
Proof.
  intros Hi Hs H1 H2 H. unfold slash_delegation in H. apply GoM_bind_Ok in H as (v & s1 & (-> & Hv)%GetValidator_inv & H).
  apply GoM_bind_Ok in H as (sh & s1 & [Hsh ->]%liftM_Ok & H). destruct (si_vals _ _ _ _ Hi _ _ Hv) as [_ Hok].
  assert (0 <= sh) as Hsh0.
  { destruct (SharesFromTokensTruncated sl v) as [x|e|q] eqn:Ex; [|by injection Hsh as <-|done].
    injection Hsh as <-. by apply (SharesFromTokensTruncated_nonneg sl v). }
  destruct (Dec_IsZero sh); [by injection H as <- <-|]. apply GoM_bind_Ok in H as (o & s1 & [= <- <-] & H).
  destruct (Delegations s !! (d, a)) as [del|] eqn:Edel; [|by injection H as <- <-]. cbn zeta in H.
  destruct (si_dels _ _ _ _ Hi _ _ _ Edel) as (_ & _ & HSd & _).
  apply GoM_bind_Ok in H as (tk & s1 & Hu & H).
  apply (Unbond_inv hooks denom (xB + burned.1) (xN + burned.2)) in Hu as (v' & Hv' & Htk & _ & Vo & Hsp & Hi1); [|done|by case_match].
  apply GoM_bind_Ok in H as (dst & s2 & [= <- <-] & H).
  assert (∀ b n, (if IsBonded v' then b = burned.1 + tk ∧ n = burned.2 else b = burned.1 ∧ n = burned.2 + tk) →
    stk_inv denom (xB + b) (xN + n) (core s1) ∧ 0 <= b ∧ 0 <= n ∧ others_stay a s s1) as Hgoal.
  { intros b n Hbn. split; [|destruct (IsBonded v'), Hbn as [-> ->]; (split; [lia|split; [lia|done]])].
    eapply stk_inv_eq; [exact Hi1| |]; destruct (IsBonded v'), Hbn as [-> ->]; cbn; lia. }
  destruct (Validators s1 !! a) as [w|]; cbn in Hsp.
  - rewrite Hsp in H. destruct (IsBonded v').
    + apply GoM_bind_Ok in H as (z & s2 & [[-> _]%Int_Add_Ok ->]%liftM_Ok & [= <- <-]). by apply Hgoal.
    + destruct (_ || _); [|done]. apply GoM_bind_Ok in H as (z & s2 & [[-> _]%Int_Add_Ok ->]%liftM_Ok & [= <- <-]). by apply Hgoal.
  - apply GoM_bind_Ok in H as (z & s2 & [[-> _]%Int_Add_Ok ->]%liftM_Ok & [= <- <-]). apply Hgoal. by rewrite Hsp.
Qed.

Lemma slash_red_entry_inv xB xN d a ih f acc e s acc' s' :
  0 <= f → 0 <= re_InitialBalance e → stk_inv denom (xB + acc.2.1) (xN + acc.2.2) (core s) → 0 <= acc.2.1 → 0 <= acc.2.2 →
  slash_red_entry hooks h d a ih f acc e s = (Ok acc', s') →
  stk_inv denom (xB + acc'.2.1) (xN + acc'.2.2) (core s') ∧ 0 <= acc'.2.1 ∧ 0 <= acc'.2.2 ∧ others_stay a s s'.
Proof.
  intros Hf He Hi H1 H2 H. unfold slash_red_entry in H. destruct (_ <? _); [by injection H as <- <-|].
  destruct (_ && _); [by injection H as <- <-|].
  apply GoM_bind_Ok in H as (x & s1 & [Hx ->]%liftM_Ok & H). apply GoM_bind_Ok in H as (y & s1 & [Hy ->]%liftM_Ok & H).
  pose proof (slash_amount_nonneg _ _ _ _ Hf He Hx Hy) as Hy0.
  apply GoM_bind_Ok in H as (tot & s1 & [_ ->]%liftM_Ok & H). apply GoM_bind_Ok in H as (o & s1 & [= <- <-] & H).
  apply GoM_bind_Ok in H as ([sl nb] & s1 & Hu & H). cbn in H.
  assert (stk_inv denom (xB + acc.2.1) (xN + nb) (core s1) ∧ 0 <= sl ∧ 0 <= nb ∧ Validators s1 = Validators s) as (Hi1 & Hsl & Hnb & V).
  { destruct (UnbondingDelegations s !! (d, a)) as [u|] eqn:Eu; [|by injection Hu as <- <- <-].
    eapply slash_unbonding_first_inv; [exact Hi| |exact Hy0|exact H2|exact Hu]. rewrite Eu. by destruct u. }
  destruct (Int_IsZero sl).
  - injection H as <- <-. cbn. split; [done|]. split; [done|]. split; [done|]. intros z _. by rewrite V.
  - apply GoM_bind_Ok in H as (b & s2 & Hd & [= <- <-]).
    apply (slash_delegation_inv xB xN) in Hd as (Hi2 & ? & ? & Ho); [|done..]. cbn. split; [done|]. split; [done|]. split; [done|].
    intros z Hz. by rewrite Ho, V.
Qed.

(** A fold keeps what its body keeps. *)
Lemma foldM_keeps {A B} (P : B → StakingState → Prop) (f : B → A → GoM StakingState B) l b s b' s' :
  (∀ b x s b' s', x ∈ l → P b s → f b x s = (Ok b', s') → P b' s') → P b s → foldM f b l s = (Ok b', s') → P b' s'.
Proof.
  revert b s. induction l as [|x l IH]; intros b s Hf Hs H; cbn [foldM] in H; [by injection H as <- <-|].
  apply GoM_bind_Ok in H as (b1 & s1 & H1 & H). eapply IH; [|by eapply Hf; [left|exact Hs|exact H1]|exact H].
  intros. eapply Hf; [by right|done|done].
Qed.
Lemma SlashRedelegation_inv xB xN ih f red d a b s r s' :
  0 <= f → red_ok d a b red → stk_inv denom xB xN (core s) → SlashRedelegation k hooks h red ih f s = (Ok r, s') →
  stk_inv denom xB xN (core s') ∧ others_stay b s s'.
Proof.
  intros Hf (Hd & Ha & Hb & Hne & HF) Hi H. unfold SlashRedelegation in H.
  apply GoM_bind_Ok in H as (b' & s1 & [Hb' ->]%liftM_Ok & H). rewrite Hb in Hb'. injection Hb' as <-.
  apply GoM_bind_Ok in H as (d' & s1 & [Hd' ->]%liftM_Ok & H). rewrite Hd in Hd'. injection Hd' as <-.
  apply GoM_bind_Ok in H as ([tot [bo nb]] & s1 & H1 & H). cbn in H.
  apply (foldM_keeps (λ acc s1, stk_inv denom (xB + acc.2.1) (xN + acc.2.2) (core s1) ∧ 0 <= acc.2.1 ∧ 0 <= acc.2.2 ∧ others_stay b s s1))
    in H1 as (Hi1 & Hb1 & Hn1 & Ho); cycle 1.
  - intros acc e s0 acc' s2 He (Hi0 & Hb0 & Hn0 & Ho0) H0.
    apply (slash_red_entry_inv xB xN) in H0 as (? & ? & ? & Ho2); [|done|by apply (proj1 (Forall_forall _ _) HF)|done..].
    split; [done|]. split; [done|]. split; [done|]. intros z Hz. by rewrite Ho2, Ho0.
  - cbn. rewrite !Z.add_0_r. done.
  - cbn in *. apply GoM_bind_Ok in H as (? & s2 & H2 & H). apply (burnBonded_inv xB (xN + nb)) in H2 as [Hi2 [b2 E2]]; [|done..].
    apply GoM_bind_Ok in H as (? & s3 & H3 & [= <- <-]). apply (burnNotBonded_inv xB xN) in H3 as [Hi3 [b3 E3]]; [|done..].
    split; [done|]. injection E2 as _ V2 _ _ _ _. injection E3 as _ V3 _ _ _ _. intros z Hz. by rewrite V3, V2, Ho.
Qed.

(** *** The validator and everything that left it *)

Definition blank_ubd : UnbondingDelegation := mkUnbondingDelegation "" "" [].
Lemma omap_snd_NoDup a (l : list (string * string)) :
  NoDup l → NoDup (omap (λ key : string * string, if str_eq key.1 a then Some key.2 else None) l).
Proof.
  induction 1 as [|[x y] l Hn _ IH]; cbn; [constructor|]. rewrite str_eq_spec. case_bool_decide as E; [|done].
  cbn in E. subst x. constructor; [|done]. intros [[x' y'] [Hin Hy]]%list_elem_of_omap. cbn in Hy. rewrite str_eq_spec in Hy.
  case_bool_decide as E; [|done]. cbn in E. injection Hy as ->. by subst.
Qed.
Lemma traverse_readM {A B} (f : A → StakingState → B) l s : traverse (λ x, readM (f x)) l s = (Ok (map (λ x, f x s) l), s).
Proof.
  induction l as [|x l IH]; [done|]. cbn [traverse map].
  transitivity (let '(r, s1) := traverse (λ x, readM (f x)) l s in
                match r with Ok ys => (Ok (f x s :: ys), s1) | Err e => (Err e, s1) | Panic p => (Panic p, s1) end); [done|].
  by rewrite IH.
Qed.
Lemma GetUnbondingDelegationsFromValidator_inv a s us s' :
  GetUnbondingDelegationsFromValidator a s = (Ok us, s') →
  s' = s ∧ ∃ ds, NoDup ds ∧ us = map (λ d, default blank_ubd (UnbondingDelegations s !! (d, a))) ds.
Proof.
  unfold GetUnbondingDelegationsFromValidator. intros H. apply GoM_bind_Ok in H as (ds & s1 & H1 & H).
  injection H1 as Hds <-. rewrite traverse_readM in H. injection H as <- <-. split; [done|]. exists ds. split; [|done].
  rewrite <- Hds, merge_sort_Permutation. apply omap_snd_NoDup, NoDup_elements.
Qed.
Lemma GetRedelegationsFromSrcValidator_inv a s rs s' :
  GetRedelegationsFromSrcValidator a s = (Ok rs, s') → s' = s ∧ Forall (λ r, ∃ d b, Redelegations s !! (d, a, b) = Some r) rs.
Proof.
  unfold GetRedelegationsFromSrcValidator. intros H. apply GoM_bind_Ok in H as (ks & s1 & H1 & H). injection H1 as _ <-.
  revert rs H. induction ks as [|key ks IH]; intros rs H; cbn [traverse] in H; [by injection H as <- <-|].
  apply GoM_bind_Ok in H as (r & s1 & H1 & H). apply GoM_bind_Ok in H1 as (o & s2 & [= <- <-] & [Hr ->]%liftM_Ok).
  apply GoM_bind_Ok in H as (rs' & s2 & H2 & [= <- <-]). apply IH in H2 as [-> HF]. split; [done|]. constructor; [|done].
  destruct (Redelegations s !! (key.1, a, key.2)) eqn:E; [|done]. injection Hr as ->. eauto.
Qed.

Lemma slash_unbondings_inv xB xN a ih f (s0 : StakingState) ds : 0 <= f → NoDup ds → ∀ rem s rem' s',
  stk_inv denom xB xN (core s) → (∀ d, d ∈ ds → UnbondingDelegations s !! (d, a) = UnbondingDelegations s0 !! (d, a)) →
  foldM (slash_unbondings k h ih f) rem (map (λ d, default blank_ubd (UnbondingDelegations s0 !! (d, a))) ds) s = (Ok rem', s') →
  stk_inv denom xB xN (core s') ∧ Validators s' = Validators s.
Proof.
  intros Hf. induction 1 as [|d ds Hn HND IH]; intros rem s rem' s' Hi Hs H; cbn [map foldM] in H; [by injection H as _ <-|].
  apply GoM_bind_Ok in H as (rem1 & s1 & H1 & H). unfold slash_unbondings in H1. apply GoM_bind_Ok in H1 as (am & s2 & H2 & H1).
  assert (s1 = s2) as -> by (case_match; [by injection H1|by apply liftM_Ok in H1 as [_ ->]]).
  apply (SlashUnbondingDelegation_inv xB xN _ _ _ d a) in H2 as [Hi2 [V2 U2]]; [|done|done|].
  - eapply IH in H as [Hi3 V3]; [|done|]; [by rewrite V3|]. intros d' Hd'. rewrite U2, Hs; [done|set_solver|]. intros [= ->]. done.
  - rewrite Hs by set_solver. destruct (UnbondingDelegations s0 !! (d, a)); [by right|by left].
Qed.
Lemma slash_past_inv xB xN a v ih f amt s rem s' :
  0 <= f → stk_inv denom xB xN (core s) → Validators s !! a = Some v →
  slash_past k hooks h a ih f amt s = (Ok rem, s') → stk_inv denom xB xN (core s') ∧ Validators s' !! a = Some v.
Proof.
  intros Hf Hi Hv H. unfold slash_past in H. destruct (_ <? _); [done|]. destruct (_ =? _); [by injection H as _ <-|].
  apply GoM_bind_Ok in H as (us & s1 & (-> & ds & Hnd & ->)%GetUnbondingDelegationsFromValidator_inv & H).
  apply GoM_bind_Ok in H as (rem1 & s1 & H1 & H).
  apply (slash_unbondings_inv xB xN a ih f s ds Hf Hnd) in H1 as [Hi1 V1]; [|done|done].
  apply GoM_bind_Ok in H as (rs & s2 & (-> & HF)%GetRedelegationsFromSrcValidator_inv & H). rewrite <- V1 in Hv.
  assert (∀ r, r ∈ rs → ∃ d b, red_ok d a b r) as Hok.
  { intros r Hr. apply (proj1 (Forall_forall _ _) HF) in Hr as (d & b & Hr). apply (si_reds _ _ _ _ Hi1) in Hr. eauto. }
  eapply (foldM_keeps (λ _ s2, stk_inv denom xB xN (core s2) ∧ Validators s2 !! a = Some v)); [|by split|exact H].
  intros r0 red s2 r1 s3 Hred [Hi2 Hv2] H2. destruct (Hok _ Hred) as (d & b & Hr).
  unfold slash_redelegations in H2. apply GoM_bind_Ok in H2 as (am & s4 & H3 & H2).
  assert (s3 = s4) as -> by (case_match; [by injection H2|by apply liftM_Ok in H2 as [_ ->]]).
  eapply SlashRedelegation_inv in H3 as [Hi3 Ho]; [|done..]. split; [done|]. rewrite Ho; [done|]. by destruct Hr as (_ & _ & _ & ? & _).
Qed.

Lemma slash_validator_inv xB xN a v rem s r s' :
  stk_inv denom xB xN (core s) → Validators s !! a = Some v → slash_validator k hooks h a v rem s = (Ok r, s') → stk_inv denom xB xN (core s').
Proof.
  intros Hi Hv H. unfold slash_validator in H. rewrite MaxInt_max, MinInt_min, Int_IsZero_eqb in H. cbn zeta in H.
  set (x := (rem `min` Tokens v) `max` ZeroInt) in *. assert (0 <= x) by (unfold x, ZeroInt; lia).
  destruct (x =? 0); [by injection H as _ <-|].
  destruct (si_vals _ _ _ _ Hi _ _ Hv) as [Hop Hok].
  apply GoM_bind_Ok in H as (? & s1 & H1 & H). assert (still s s1) as Hst.
  { destruct (Int_IsPositive (Tokens v)); [|injection H1 as _ <-; by apply still_core].
    apply GoM_bind_Ok in H1 as (ef & s2 & [_ ->]%liftM_Ok & H1%qh_validator_slashed). done. }
  apply (still_inv _ _ _ _ _ Hst) in Hi. destruct (still_set_bank _ _ Hst) as [b1 E1]. injection E1 as _ V1 _ _ _ _.
  apply GoM_bind_Ok in H as (v' & s2 & (HRm & E2)%(RemoveValidatorTokens_inv _ _ _ _ _ _ Hop) & H).
  destruct (RemoveTokens_operator _ _ _ HRm) as [Hop' Hst'].
  pose proof (val_step_ok _ _ Hok (step_slash _ _ _ HRm)) as Hok'.
  assert (DelegatorShares v' = DelegatorShares v ∧ Tokens v' = Tokens v - x) as [HS HT].
  { unfold RemoveTokens in HRm. go_inv. match goal with H0 : Int_Sub _ _ = Ok _ |- _ => apply Int_Sub_Ok in H0 as [-> _] end. done. }
  assert (IsBonded v' = IsBonded v) as HB by (unfold IsBonded; by rewrite Hst').
  assert (stk_inv denom (xB + if_bonded (IsBonded v') x) (xN + if_bonded (negb (IsBonded v')) x) (core s2)) as Hi2.
  { rewrite E2. eapply stk_inv_eq; [apply (inv_upd_val denom xB xN _ a v v' Hi); try done; cbn; by rewrite V1| |];
      unfold bonded_part, not_bonded_part, if_bonded; rewrite HB, HT; destruct (IsBonded v); cbn; lia. }
  apply GoM_bind_Ok in H as (? & s3 & H3 & [= <- <-]). destruct (IsBonded v'); cbn in Hi2; rewrite Z.add_0_r in Hi2.
  - by apply (burnBonded_inv xB xN) in H3 as [? _].
  - destruct (_ || _); [|done]. by apply (burnNotBonded_inv xB xN) in H3 as [? _].
Qed.

Lemma GetValidatorByConsAddr_inv c s v s' :
  GetValidatorByConsAddr c s = (Ok v, s') → s' = s ∧ ∃ a, Validators s !! a = Some v.
Proof.
  unfold GetValidatorByConsAddr. intros H. apply GoM_bind_Ok in H as (o & s1 & H1 & H). injection H1 as _ <-.
  destruct o as [a|]; [|done]. apply GetValidator_inv in H as [-> ?]. eauto.
Qed.
Lemma GetValidatorByConsAddr_state c s r s' : GetValidatorByConsAddr c s = (r, s') → s' = s.
Proof.
  unfold GetValidatorByConsAddr. intros H.
  erewrite GoM_bind_run in H by reflexivity. case_match; [|by inversion H].
  unfold GetValidator in H. erewrite GoM_bind_run in H by reflexivity. by inversion H.
Qed.
Lemma Slash_inv xB xN cb c ih pw f s r s' :
  stk_inv denom xB xN (core s) → Slash k hooks h cb c ih pw f s = (Ok r, s') → stk_inv denom xB xN (core s').
Proof.
  intros Hi H. unfold Slash in H. apply GoM_bind_Ok in H as (? & s1 & [Hf%guard_err_Ok ->]%liftM_Ok & H).
  rewrite Dec_IsNegative_ltb in Hf. apply Z.ltb_ge in Hf.
  do 4 apply GoM_bind_Ok in H as (? & s1 & [_ ->]%liftM_Ok & H).
  apply GoM_bind_Ok in H as (o & s1 & Ho & H).
  destruct (GetValidatorByConsAddr c s) as [[v|e|q] s2] eqn:Ev; [|injection Ho as <- <-|done].
  - injection Ho as <- <-. apply GetValidatorByConsAddr_inv in Ev as (-> & a & Hv).
    destruct (si_vals _ _ _ _ Hi _ _ Hv) as [Hop _].
    apply GoM_bind_Ok in H as (? & s1 & [_ ->]%liftM_Ok & H). apply GoM_bind_Ok in H as (a' & s1 & [Ha' ->]%liftM_Ok & H).
    rewrite Hop in Ha'. injection Ha' as <-. apply GoM_bind_Ok in H as (? & s1 & Hst%qh_validator_modified & H).
    apply (still_inv _ _ _ _ _ Hst) in Hi. destruct (still_set_bank _ _ Hst) as [b1 E1]. injection E1 as _ V1 _ _ _ _.
    rewrite <- V1 in Hv. apply GoM_bind_Ok in H as (rem & s2 & H2 & H).
    eapply slash_past_inv in H2 as [Hi2 Hv2]; [|done..]. by eapply slash_validator_inv.
  - apply GoM_bind_Ok in H as (? & s3 & [_ ->]%liftM_Ok & [= <- <-]).
    by apply GetValidatorByConsAddr_state in Ev as ->.
Qed.
Lemma Jail_inv xB xN c s r s' : stk_inv denom xB xN (core s) → Jail c s = (Ok r, s') → stk_inv denom xB xN (core s').
Proof.
  intros Hi H. unfold Jail in H. apply GoM_bind_Ok in H as (v & s1 & (-> & a & Hv)%GetValidatorByConsAddr_inv & H).
  eapply jailValidator_inv in H; [|by apply (si_vals _ _ _ _ Hi) in Hv as [? _]]. rewrite H. by apply jail_inv.
Qed.
Lemma Unjail_inv xB xN c s r s' : stk_inv denom xB xN (core s) → Unjail c s = (Ok r, s') → stk_inv denom xB xN (core s').
Proof.
  intros Hi H. unfold Unjail in H. apply GoM_bind_Ok in H as (v & s1 & (-> & a & Hv)%GetValidatorByConsAddr_inv & H).
  destruct (si_vals _ _ _ _ Hi _ _ Hv) as [Hop _]. unfold unjailValidator in H.
  apply GoM_bind_Ok in H as (? & s1 & [_ ->]%liftM_Ok & H).
  apply GoM_bind_Ok in H as (? & s1 & (a' & Ha & E)%SetValidator_inv & H%idle_SetValidatorByPowerIndex).
  cbn in Ha. rewrite Hop in Ha. injection Ha as <-. rewrite H, E. by apply jail_inv.
Qed.
End Slashing.
