(* ===== verification/StakingPayout.v ===== *)
(** * The payouts of mature unbonding delegations

    The end of a block skips an unbonding delegation whose completion fails and
    keeps what the completion wrote.  These lemmas show that completions do not
    fail: the pool covers every entry, so with accounts for the delegators each
    completion pays exactly the mature entries. *)
From S2P Require Import Prelude MathInt Coin CoinFacts Collections Account Vesting VestingProps AuthKeeper AuthProps Bank BankFacts BankProps BankDelegation Validator Staking StakingBank StakingFacts StakingOps StakingSlash.

Definition matured (t : Z) (es : list UnbondingDelegationEntry) : list UnbondingDelegationEntry := filter (λ e, IsMature t e = true) es.
Definition pending (t : Z) (es : list UnbondingDelegationEntry) : list UnbondingDelegationEntry := filter (λ e, IsMature t e = false) es.
Lemma matured_cons t e es : matured t (e :: es) = if IsMature t e then e :: matured t es else matured t es.
Proof. unfold matured. rewrite filter_cons. by destruct (IsMature t e). Qed.
Lemma pending_cons t e es : pending t (e :: es) = if IsMature t e then pending t es else e :: pending t es.
Proof. unfold pending. rewrite filter_cons. by destruct (IsMature t e). Qed.
Lemma matured_le t es : Forall entry_ok es → 0 <= entries_balance (matured t es) <= entries_balance es.
Proof.
  induction 1 as [|e es [H1 _] _ IH]; [done|]. rewrite matured_cons, (entries_balance_cons e es).
  destruct (IsMature t e); rewrite ?entries_balance_cons; lia.
Qed.

Section Payout.
Context {cfg : CoinConfig} {acfg : AddressConfig} {vcfg : ValAddressConfig} {HR : AddressRoundtrip}.
Context (k : BaseKeeper) {HP : PoolConfig k}.
Variable h : Header.
Variable denom : string.

(** The bank can pay delegators: the pool is a module account that may unstake,
    delegators with unbonding entries have accounts, of any kind, the counters of a
    vesting account are sets of coins, and addresses have a bech32 form. *)
Definition pool_ready (b : BankState) : Prop :=
  ∃ m sm, accounts b !! not_bonded_addr = Some (ModuleAcc m) ∧ ModuleAccount_HasPermission m Account.Staking = true ∧
    BytesToString not_bonded_addr = Ok sm.
Definition can_receive (b : BankState) (d : string) : Prop :=
  ∃ acc sd, accounts b !! d = Some acc ∧ counters_ok acc ∧ BytesToString d = Ok sd.
Record payable (s : StakingState) : Prop := {
  pay_denom : denom_valid denom = true;
  pay_auth : auth_inv (auth (stk_bank s));
  pay_pool : pool_ready (stk_bank s);
  pay_delegator d a u : UnbondingDelegations s !! (d, a) = Some u → can_receive (stk_bank s) d;
}.

(** A payment of [x] to [d]: every balance after it, and the accounts, of which it
    writes only the counters of [d]. *)
Record pays (d : string) (x : Z) (b b' : BankState) : Prop := {
  pays_auth : auth_inv (auth b');
  pays_others a acc : accounts b !! a = Some acc → a ≠ d → accounts b' !! a = Some acc;
  pays_counters acc : accounts b !! d = Some acc → counters_ok acc → ∃ acc', accounts b' !! d = Some acc' ∧ counters_ok acc';
  pays_inv : bank_inv b';
  pays_bal a dn : bal b' a dn = bal b a dn + at_denom denom ((if decide (a = d) then x else 0) - (if decide (a = not_bonded_addr) then x else 0)) dn;
}.
Lemma pays_refl d b : bank_inv b → auth_inv (auth b) → pays d 0 b b.
Proof. intros Hi Ha. split; [done|done|eauto|done|]. intros a dn. unfold at_denom. repeat case_decide; lia. Qed.
Lemma pays_trans d x y b b1 b2 : pays d x b b1 → pays d y b1 b2 → pays d (x + y) b b2.
Proof.
  intros [_ O1 C1 _ B1] [A2 O2 C2 I2 B2]. split; [done|eauto| |done|].
  - intros acc Hacc Hc. destruct (C1 acc Hacc Hc) as (acc1 & H1 & Hc1). eauto.
  - intros a dn. rewrite B2, B1. unfold at_denom. repeat case_decide; lia.
Qed.

Lemma module_account_stored name perms m b :
  registered (k_ak k) name perms → accounts b !! address_Module name = Some (ModuleAcc m) → module_account k name b = (Ok m, b).
Proof.
  intros Hr Hm. unfold module_account. rewrite (GoM_bind_run _ _ (Some m) b b); [done|].
  unfold on_auth. rewrite (GetModuleAccount_stored _ _ perms m) by done. by destruct b.
Qed.
Lemma payout_total t d x b :
  denom_valid denom = true → bank_inv b → auth_inv (auth b) → addr_ok b → pool_ready b → can_receive b d → ¬ is_pool d →
  0 < x <= bal b not_bonded_addr denom →
  ∃ b', UndelegateCoinsFromModuleToAccount k t NotBondedPoolName d [mkCoin denom x] b = (Ok tt, b') ∧ pays d x b b'.
Proof.
  intros Hden Hi Hai Hok (m & sm & Hm & Hperm & Hsm) (acc & sd & Hacc & Hcnt & Hsd) Hpool Hx. destruct pc_not_bonded as [perms Hr].
  assert (good_coins [mkCoin denom x]) as Hg.
  { pose proof (bal_range b not_bonded_addr denom (inv_store _ Hi)) as Hrange. split.
    - split; [|by repeat constructor]. constructor; [|done]. split; [done|cbn; lia].
    - constructor; [|done]. cbn. unfold int_range in *. lia. }
  destruct (UndelegateCoins_total k t not_bonded_addr d [mkCoin denom x] b acc (ModuleAcc m) sd sm Hi Hai Hg Hacc) as (b' & acc' & H & Ha' & Eacc & Hcnt' & _);
    [done|done|by intros [va [=]]|done|done| |].
  { intros dn. cbn. pose proof (bal_nonneg b not_bonded_addr dn (inv_store _ Hi)). case_decide; subst; lia. }
  exists b'. split.
  - unfold UndelegateCoinsFromModuleToAccount.
    rewrite (GoM_bind_run _ _ _ _ _ (module_account_stored _ _ _ _ Hr Hm)).
    rewrite (liftM_bind_run _ _ tt) by by rewrite Hperm.
    change (macc_address m) with (AccountI_GetAddress (ModuleAcc m)). rewrite (Hok _ _ Hm). exact H.
  - pose proof (UndelegateCoins_inv _ _ _ _ _ _ _ _ H) as Hs. split; [done| | |by eapply bank_inv_shift|].
    { intros a acc0 H0 Hne. by rewrite Eacc, lookup_insert_ne. }
    { intros acc0 _ _. exists acc'. by rewrite Eacc, lookup_insert_eq. }
    intros a dn. rewrite (sh_bal _ _ _ _ Hs). unfold transfer_shift, on_addr, at_denom. cbn.
    repeat case_decide; subst; try congruence; lia.
Qed.

(** ** The loop over the entries *)

(** What a payment to [d] needs of the bank; a payment keeps it. *)
Record bank_ready (d : string) (b : BankState) : Prop := {
  br_inv : bank_inv b;
  br_auth : auth_inv (auth b);
  br_addr : addr_ok b;
  br_pool : pool_ready b;
  br_receive : can_receive b d;
}.
Lemma pool_ready_pays d x b b' : ¬ is_pool d → pool_ready b → pays d x b b' → pool_ready b'.
Proof.
  intros Hd (m & sm & Hm & Hp & Hs) P. exists m, sm. split; [|done]. apply (pays_others _ _ _ _ P); [done|]. intros <-. apply Hd. by right.
Qed.
Lemma can_receive_pays d d' x b b' : can_receive b d → pays d' x b b' → can_receive b' d.
Proof.
  intros (acc & sd & Hacc & Hc & Hs) P. destruct (decide (d = d')) as [->|Hne].
  - destruct (pays_counters _ _ _ _ P acc Hacc Hc) as (acc' & H & Hc'). by exists acc', sd.
  - exists acc, sd. split; [|done]. by apply (pays_others _ _ _ _ P).
Qed.
Lemma bank_ready_pays d d' x b b' : ¬ is_pool d' → bank_ready d b → pays d' x b b' → bank_ready d b'.
Proof.
  intros Hd [I1 I2 I3 I4 I5] P. pose proof (pays_auth _ _ _ _ P) as Ha. split; [apply P|done| |by eapply pool_ready_pays|by eapply can_receive_pays].
  intros a acc. by apply (ai_address _ Ha).
Qed.
Lemma good_singleton x : denom_valid denom = true → 0 < x → int_range x → good_coins [mkCoin denom x].
Proof.
  intros Hd Hx Hr. split; [|by constructor]. split; [|by repeat constructor]. constructor; [|done]. by split.
Qed.
Lemma amount_singleton x dn : amount [mkCoin denom x] dn = at_denom denom x dn.
Proof. cbn. unfold at_denom. case_decide; lia. Qed.

(** The payment of one entry. *)
Definition pay_entry (d : string) (x : Z) (bals : Coins) : GoM StakingState Coins :=
  amt ← liftM (NewCoin denom x);
  coins ← liftM (NewCoins [amt]);
  _ ← on_bank (UndelegateCoinsFromModuleToAccount k (Unix h) NotBondedPoolName d coins);
  liftM (Coins_Add bals [amt]).
(** The accumulated coins and the pool fit an integer together. *)
Definition fits (bals : Coins) (b : BankState) : Prop := ∀ dn, int_range (amount bals dn + bal b not_bonded_addr dn).
Lemma pay_entry_run d x bals s :
  denom_valid denom = true → bank_ready d (stk_bank s) → ¬ is_pool d → 0 < x <= bal (stk_bank s) not_bonded_addr denom →
  good_coins bals → fits bals (stk_bank s) →
  ∃ bals' b', pay_entry d x bals s = (Ok bals', with_bank (λ _, b') s) ∧ pays d x (stk_bank s) b' ∧ good_coins bals' ∧ fits bals' b' ∧
    ∀ dn, amount bals' dn = amount bals dn + at_denom denom x dn.
Proof.
  intros Hden Hb Hnp Hx Hg Hfit. destruct Hb as [Hi Hai Hok Hp Hr].
  assert (int_range x) as Hrx by (pose proof (bal_range (stk_bank s) not_bonded_addr denom (inv_store _ Hi)); unfold int_range in *; lia).
  pose proof (good_singleton x Hden ltac:(lia) Hrx) as Hgc.
  destruct (payout_total (Unix h) d x (stk_bank s)) as (b1 & H1 & P1); [done..|]. pose proof (pays_bal _ _ _ _ P1) as B1.
  assert (∀ dn, 0 <= at_denom denom x dn <= bal (stk_bank s) not_bonded_addr dn) as Hle.
  { intros dn. pose proof (bal_nonneg (stk_bank s) not_bonded_addr dn (inv_store _ Hi)). unfold at_denom. case_decide; subst; lia. }
  destruct (Coins_Add_good bals [mkCoin denom x] Hg Hgc) as (bals1 & Hadd & Hg1 & Ham).
  { intros dn. rewrite amount_singleton. specialize (Hfit dn). specialize (Hle dn).
    pose proof (valid_coins_amount_nonneg bals dn (proj1 Hg)). unfold int_range in *. lia. }
  exists bals1, b1. split; [|split; [done|split; [done|split]]].
  - unfold pay_entry. rewrite (liftM_bind_run _ _ (mkCoin denom x)) by (apply NewCoin_Ok; [done|lia]).
    rewrite (liftM_bind_run _ _ [mkCoin denom x]) by apply NewCoins_valid, Hgc.
    rewrite (GoM_bind_run _ _ tt s (with_bank (λ _, b1) s)); [unfold liftM; by rewrite Hadd|]. unfold on_bank. by rewrite H1.
  - intros dn. assert (not_bonded_addr ≠ d) by (intros <-; apply Hnp; by right).
    rewrite B1, Ham, amount_singleton, (decide_False (P := not_bonded_addr = d)), decide_True by done. specialize (Hfit dn).
    unfold at_denom in *. case_decide; unfold int_range in *; lia.
  - intros dn. by rewrite Ham, amount_singleton.
Qed.

Lemma complete_entries_total d es : denom_valid denom = true → ¬ is_pool d → Forall entry_ok es → ∀ bals s,
  bank_ready d (stk_bank s) → entries_balance (matured (h_Time h) es) <= bal (stk_bank s) not_bonded_addr denom →
  good_coins bals → fits bals (stk_bank s) →
  ∃ bals' b', complete_entries k h denom d es bals s = (Ok (pending (h_Time h) es, bals'), with_bank (λ _, b') s) ∧
    pays d (entries_balance (matured (h_Time h) es)) (stk_bank s) b' ∧
    ∀ dn, amount bals' dn = amount bals dn + at_denom denom (entries_balance (matured (h_Time h) es)) dn.
Proof.
  intros Hden Hnp. induction 1 as [|e es [He _] HF IH]; intros bals s Hb Hle Hg Hfit; cbn [complete_entries].
  - exists bals, (stk_bank s). split; [by destruct s|]. split; [apply pays_refl; apply Hb|]. intros dn. unfold at_denom. case_decide; cbn; lia.
  - pose proof (matured_le (h_Time h) es HF) as Hm. rewrite matured_cons in Hle |- *. rewrite pending_cons.
    destruct (IsMature (h_Time h) e).
    + rewrite entries_balance_cons in Hle |- *. rewrite Int_IsZero_eqb. destruct (Z.eqb_spec (Balance e) 0) as [Ez|Ez].
      * rewrite (GoM_bind_run _ _ bals s s) by done. rewrite Ez, Z.add_0_l in *. by apply IH.
      * destruct (pay_entry_run d (Balance e) bals s) as (bals1 & b1 & H1 & P1 & Hg1 & Hfit1 & M1); [done..|lia|done|done|].
        destruct (IH bals1 (with_bank (λ _, b1) s)) as (bals2 & b2 & H2 & P2 & M2); [by eapply bank_ready_pays| |done|done|].
        { pose proof (pays_bal _ _ _ _ P1) as B1. assert (not_bonded_addr ≠ d) by (intros <-; apply Hnp; by right). cbn.
          rewrite B1, (decide_False (P := not_bonded_addr = d)), decide_True by done. unfold at_denom. rewrite decide_True by done. lia. }
        exists bals2, b2. split; [|split; [by eapply pays_trans|]].
        -- change (liftM (NewCoin denom (Balance e)) ≫= _) with (pay_entry d (Balance e) bals). by rewrite (GoM_bind_run _ _ _ _ _ H1).
        -- intros dn. rewrite M2, M1. unfold at_denom. case_decide; lia.
    + destruct (IH bals s) as (bals1 & b1 & H1 & ? & ?); [done..|]. exists bals1, b1. split; [|done].
      by rewrite (GoM_bind_run _ _ _ _ _ H1).
Qed.

(** ** Completing an unbonding delegation *)

Lemma pool_covers xB xN s d a u :
  stk_inv denom xB xN (core s) → 0 <= xN → UnbondingDelegations s !! (d, a) = Some u →
  entries_balance (Entries u) <= bal (stk_bank s) not_bonded_addr denom.
Proof.
  intros Hi Hx Hu. pose proof (si_not_bonded _ _ _ _ Hi) as HB. cbn in HB.
  assert (0 <= not_bonded_tokens (Validators s)) as HV.
  { apply msum_nonneg. intros x v Hv. destruct (si_vals _ _ _ _ Hi _ _ Hv) as [_ (HT & _)]. by case_match. }
  assert (∀ key w, UnbondingDelegations s !! key = Some w → 0 <= entries_balance (Entries w)) as HU.
  { intros [d' a'] w Hw. destruct (si_ubds _ _ _ _ Hi _ _ _ Hw) as (_ & _ & HF & _). destruct (matured_le 0 _ HF) as [? ?]. by etransitivity. }
  pose proof (msum_lookup_le (λ _ u, entries_balance (Entries u)) _ (d, a) u HU Hu) as HL. cbv beta in HL.
  rewrite HB. unfold unbonding_balance. lia.
Qed.

(** The unbonding delegations after a completion. *)
Definition without_matured (d a : string) (u : UnbondingDelegation) : gmap (string * string) UnbondingDelegation → gmap (string * string) UnbondingDelegation :=
  if (length (pending (h_Time h) (Entries u)) =? 0)%nat then delete (d, a)
  else <[(d, a) := set_Entries (pending (h_Time h) (Entries u)) u]>.
Lemma payable_pays d x s s' :
  ¬ is_pool d → payable s → pays d x (stk_bank s) (stk_bank s') →
  (∀ d a u, UnbondingDelegations s' !! (d, a) = Some u → ∃ u0, UnbondingDelegations s !! (d, a) = Some u0) → payable s'.
Proof.
  intros Hd [P1 P2 P3 P4] P HU. split; [done|apply P|by eapply pool_ready_pays|].
  intros d0 a0 u0 H0. apply HU in H0 as [u1 H1]. apply P4 in H1. by eapply can_receive_pays.
Qed.
Lemma CompleteUnbonding_total xB xN d a u s :
  stk_inv denom xB xN (core s) → 0 <= xN → payable s → UnbondingDelegations s !! (d, a) = Some u →
  let paid := entries_balance (matured (h_Time h) (Entries u)) in
  ∃ coins s', CompleteUnbonding k h d a s = (Ok coins, s') ∧ (∀ dn, amount coins dn = at_denom denom paid dn) ∧
    pays d paid (stk_bank s) (stk_bank s') ∧ UnbondingDelegations s' = without_matured d a u (UnbondingDelegations s) ∧
    Validators s' = Validators s ∧ Delegations s' = Delegations s.
Proof.
  intros Hi Hx Hpay Hu paid. destruct (si_ubds _ _ _ _ Hi _ _ _ Hu) as (Hd & Ha & HF & [[Hnp _] _]). destruct Hpay as [P1 P2 P3 P4].
  destruct (si_params _ _ _ _ Hi) as (p & Hp & Hpd). cbn in Hp.
  pose proof (pool_covers _ _ _ _ _ _ Hi Hx Hu) as Hcov. pose proof (matured_le (h_Time h) _ HF) as Hm. fold paid in Hm.
  assert (good_coins []) as Hg by exact (conj valid_coins_nil (Forall_nil_2 _)).
  destruct (complete_entries_total d (Entries u) P1 Hnp HF [] s) as (coins & b & H & P & M); [|lia|exact Hg| |].
  { split; [apply (si_bank _ _ _ _ Hi)|done|apply (si_addr _ _ _ _ Hi)|done|by eapply P4]. }
  { intros dn. cbn. apply bal_range, (si_bank _ _ _ _ Hi). }
  exists coins. eexists. split; [|split; [exact M|]].
  - unfold CompleteUnbonding, GetUnbondingDelegation, BondDenom, get_Params.
    rewrite (GoM_bind_run _ _ u s s); [|by rewrite (GoM_bind_run _ _ (Some u) s s) by (unfold readM; by rewrite Hu)].
    rewrite (GoM_bind_run _ _ denom s s).
    2: { rewrite (GoM_bind_run _ _ p s s); [by rewrite <- Hpd|]. rewrite (GoM_bind_run _ _ (Some p) s s); [done|]. unfold readM. by rewrite Hp. }
    rewrite (liftM_bind_run _ _ []) by by apply NewCoins_valid, Hg. rewrite (liftM_bind_run _ _ d) by done.
    rewrite (GoM_bind_run _ _ _ _ _ H). cbn zeta iota beta.
    rewrite (GoM_bind_run _ _ tt _ (with_UnbondingDelegationByValIndex
      (if (length (pending (h_Time h) (Entries u)) =? 0)%nat then (λ m, m ∖ {[(a, d)]}) else union {[(a, d)]})
      (with_UnbondingDelegations (without_matured d a u) (with_bank (λ _, b) s)))); [reflexivity|].
    unfold without_matured. destruct (length _ =? 0)%nat; unfold RemoveUnbondingDelegation, SetUnbondingDelegation;
      rewrite (liftM_bind_run _ _ d) by done; rewrite (liftM_bind_run _ _ a) by done; reflexivity.
  - split; [exact P|]. done.
Qed.

(** ** The loop at the end of a block *)

(** No mature entry is left. *)
Definition settled (s : StakingState) (d a : string) : Prop :=
  ∀ u, UnbondingDelegations s !! (d, a) = Some u → matured (h_Time h) (Entries u) = [].
Lemma matured_pending t es : matured t (pending t es) = [].
Proof. induction es as [|e es IH]; [done|]. rewrite pending_cons. destruct (IsMature t e) eqn:E; [done|]. by rewrite matured_cons, E. Qed.
Lemma settled_without d a u s s' :
  UnbondingDelegations s !! (d, a) = Some u → UnbondingDelegations s' = without_matured d a u (UnbondingDelegations s) →
  settled s' d a ∧ (∀ d' a', settled s d' a' → settled s' d' a') ∧
  (∀ d' a' w, UnbondingDelegations s' !! (d', a') = Some w → ∃ w0, UnbondingDelegations s !! (d', a') = Some w0).
Proof.
  intros Hu E. unfold settled. rewrite E. unfold without_matured. destruct (length _ =? 0)%nat.
  - split; [by rewrite lookup_delete_eq|]. split; intros d' a'; [intros Hs w|intros w]; intros [_ Hw]%lookup_delete_Some; eauto.
  - split; [rewrite lookup_insert_eq; intros w [= <-]; apply matured_pending|].
    split; intros d' a'; [intros Hs w|intros w]; intros [[[= <- <-] <-]|[_ Hw]]%lookup_insert_Some; eauto. apply matured_pending.
Qed.
Lemma complete_pair_total xB xN pr d a s :
  stk_inv denom xB xN (core s) → 0 <= xN → payable s →
  StringToBytes (dv_DelegatorAddress pr) = Ok d → ValStringToBytes (dv_ValidatorAddress pr) = Ok a →
  ∃ s', complete_pair k h pr s = (Ok tt, s') ∧ stk_inv denom xB xN (core s') ∧ payable s' ∧ settled s' d a ∧
    ∀ d' a', settled s d' a' → settled s' d' a'.
Proof.
  intros Hi Hx Hpay Hd Ha. unfold complete_pair. rewrite (liftM_bind_run _ _ a), (liftM_bind_run _ _ d) by done.
  destruct (UnbondingDelegations s !! (d, a)) as [u|] eqn:Hu.
  - destruct (CompleteUnbonding_total xB xN d a u s) as (coins & s1 & H & _ & P & EU & _ & _); [done..|].
    destruct (settled_without _ _ _ _ _ Hu EU) as (H1 & H2 & H3). exists s1. split; [|split; [|split; [|done]]].
    + rewrite (GoM_bind_run _ _ (Some coins) s s1); [done|]. unfold or_continue. by rewrite H.
    + by eapply (CompleteUnbonding_inv k h denom).
    + eapply payable_pays; [|done..]. apply (si_ubds _ _ _ _ Hi _ _ _ Hu).
  - exists s. split; [|split; [done|split; [done|split; [by intros u [=]; congruence|done]]]].
    rewrite (GoM_bind_run _ _ None s s); [done|]. unfold or_continue, CompleteUnbonding, GetUnbondingDelegation.
    erewrite GoM_bind_err; [done|]. rewrite (GoM_bind_run _ _ None s s) by (unfold readM; by rewrite Hu). done.
Qed.
(** The pairs of the queue name addresses. *)
Definition pair_key (pr : DVPair) (key : string * string) : Prop :=
  StringToBytes (dv_DelegatorAddress pr) = Ok key.1 ∧ ValStringToBytes (dv_ValidatorAddress pr) = Ok key.2.
Lemma complete_pairs_total xB xN prs keys : 0 <= xN → Forall2 pair_key prs keys → ∀ s,
  stk_inv denom xB xN (core s) → payable s →
  ∃ s', forM_ (complete_pair k h) prs s = (Ok tt, s') ∧ stk_inv denom xB xN (core s') ∧ payable s' ∧
    (∀ d' a', settled s d' a' → settled s' d' a') ∧ Forall (λ key, settled s' key.1 key.2) keys.
Proof.
  intros Hx. induction 1 as [|pr [d a] prs keys [Hd Ha] _ IH]; intros s Hi Hpay; cbn [forM_].
  - exists s. split; [done|]. split; [done|]. split; [done|]. split; [done|constructor].
  - destruct (complete_pair_total xB xN pr d a s) as (s1 & H1 & Hi1 & Hp1 & Hs1 & Hk1); [done..|].
    destruct (IH s1 Hi1 Hp1) as (s2 & H2 & Hi2 & Hp2 & Hk2 & Hs2). exists s2. rewrite (GoM_bind_run _ _ _ _ _ H1).
    split; [done|]. split; [done|]. split; [done|]. split; [auto|]. constructor; [by apply Hk2|done].
Qed.
End Payout.
