(* ===== verification/StakingBlock.v ===== *)
(** * Validator set updates and the end of a block

    The rotation of consensus keys (keeper/cons_pubkey.go), the changes of the
    bonded validator set ([ApplyAndReturnValidatorSetUpdates]) and what a block
    ends with ([BlockValidatorUpdates], both in keeper/val_state_change.go). *)
From S2P Require Import Prelude Bytes MathInt LegacyDec Coin CoinFacts Collections Account Vesting AuthKeeper Bank Validator Staking.

Definition ErrExceedingMaxConsPubKeyRotations : string := "exceeding maximum consensus pubkey rotations within unbonding period".
Definition ErrValidatorPubKeyExists : string := "validator already exist for this pubkey; must use new validator pubkey".

Section StakingBlock.
Context {cfg : CoinConfig} {acfg : AddressConfig} {vcfg : ValAddressConfig}.
Variable bk : BaseKeeper.
Variable hooks : StakingHooks.
Variable h : Header.

(** ** Rotation of consensus keys: keeper/cons_pubkey.go *)

Definition maxRotations : nat := 1.

(** The rotations of a block, read through the index by height in the order of
    the primary keys. *)
Definition rotation_le (x y : (string * Z) * ConsPubKeyRotationHistory) : Prop :=
  x.1.1 ≠ y.1.1 ∧ prefixed_le x.1.1 y.1.1 ∨ x.1.1 = y.1.1 ∧ x.1.2 <= y.1.2.
#[global] Instance rotation_le_dec x y : Decision (rotation_le x y).
Proof. unfold rotation_le. apply _. Defined.
Definition GetBlockConsPubKeyRotationHistory : GoM StakingState (list ConsPubKeyRotationHistory) :=
  readM (λ s, map snd (merge_sort rotation_le
                (filter (λ kv, rh_Height kv.2 = wrap_uint64 (h_Height h)) (map_to_list (RotationHistory s))))).

Definition setConsKeyQueue (ts : Z) (valAddr : string) : GoM StakingState unit :=
  addrs ← readM (λ s, default [] (ValidatorConsensusKeyRotationRecordQueue s !! ts));
  let addrs := if existsb (str_eq valAddr) addrs then addrs else addrs ++ [valAddr] in
  modifyM (with_ValidatorConsensusKeyRotationRecordQueue <[ts := addrs]>).
Definition setConsPubKeyRotationHistory (valAddr : string) (oldPubKey newPubKey : option PubKey) (fee : Coin)
    : GoM StakingState unit :=
  let height := wrap_uint64 (h_Height h) in
  allRotations ← GetBlockConsPubKeyRotationHistory;
  _ ← liftM (guard_err (existsb (λ r, bool_decide (NewConsPubkey r = newPubKey)) allRotations) ErrValidatorPubKeyExists);
  _ ← modifyM (with_RotationHistory
                 <[(valAddr, height) := mkRotationHistory valAddr oldPubKey newPubKey height fee]>);
  ubdTime ← UnbondingTime_param;
  let queueTime := h_Time h + ubdTime in
  _ ← modifyM (with_ValidatorConsensusKeyRotationRecordIndexKey (union {[(valAddr, queueTime)]}));
  setConsKeyQueue queueTime valAddr.
Definition setConsAddrToValidatorIdentifierMap (oldConsAddr newConsAddr : string) : GoM StakingState unit :=
  validatorIdentifier ← readM (λ s, ConsAddrToValidatorIdentifierMap s !! oldConsAddr);
  modifyM (with_ConsAddrToValidatorIdentifierMap <[newConsAddr := default oldConsAddr validatorIdentifier]>).

Definition set_ConsensusPubkey (pk : option PubKey) (v : Validator) : Validator :=
  mkValidator (OperatorAddress v) pk (Jailed v) (Status v) (Tokens v) (DelegatorShares v) (UnbondingHeight v)
    (UnbondingTime v) (v_Commission v) (MinSelfDelegation v) (v_Description v).
Definition cached (pk : option PubKey) : outcome PubKey :=
  match pk with Some pk => Ok pk | None => Err ErrInvalidType end.
Definition updateToNewPubkey (val : Validator) (oldPubKey newPubKey : option PubKey) (fee : Coin) : GoM StakingState unit :=
  consAddr ← liftM (GetConsAddr val);
  _ ← modifyM (with_ValidatorByConsensusAddress (delete consAddr));
  _ ← DeleteValidatorByPowerIndex val;
  let val := set_ConsensusPubkey newPubKey val in
  _ ← SetValidator val;
  _ ← SetValidatorByConsAddr val;
  _ ← SetValidatorByPowerIndex val;
  oldPk ← liftM (cached oldPubKey);
  newPk ← liftM (cached newPubKey);
  _ ← modifyM (with_OldToNewConsAddrMap <[pk_Address oldPk := pk_Address newPk]>);
  _ ← setConsAddrToValidatorIdentifierMap (pk_Address oldPk) (pk_Address newPk);
  AfterConsensusPubKeyUpdate hooks oldPk newPk fee.

Definition ValidatorIdentifier (newPk : string) : GoM StakingState (option string) :=
  readM (λ s, ConsAddrToValidatorIdentifierMap s !! newPk).
(** The walk stops as soon as the limit is reached. *)
Definition ExceedsMaxRotations (valAddr : string) : GoM StakingState unit :=
  count ← readM (λ s, Nat.min maxRotations
                        (length (filter (λ key : string * Z, key.1 = valAddr) (elements (ValidatorConsensusKeyRotationRecordIndexKey s)))));
  liftM (guard_err (maxRotations <=? count)%nat ErrExceedingMaxConsPubKeyRotations).
Definition getAndRemoveAllMaturedRotatedKeys (matureTime : Z) : GoM StakingState (list string) :=
  slices ← readM (λ s, mature_slices matureTime (ValidatorConsensusKeyRotationRecordQueue s));
  _ ← forM_ (λ kv, modifyM (with_ValidatorConsensusKeyRotationRecordQueue (delete kv.1))) slices;
  mret (concat (map snd slices)).
(** The range starts at the zero time. *)
Definition deleteConsKeyIndexKey (valAddr : string) (ts : Z) : GoM StakingState unit :=
  modifyM (with_ValidatorConsensusKeyRotationRecordIndexKey
             (filter (λ key : string * Z, ¬ (key.1 = valAddr ∧ no_time <= key.2 <= ts)))).
Definition PurgeAllMaturedConsKeyRotatedKeys (maturedTime : Z) : GoM StakingState unit :=
  maturedRotatedValAddrs ← getAndRemoveAllMaturedRotatedKeys maturedTime;
  forM_ (λ valAddr, deleteConsKeyIndexKey valAddr maturedTime) maturedRotatedValAddrs.

(** ** The bonded validator set: keeper/val_state_change.go *)

Record ValidatorUpdate := mkValidatorUpdate { vu_PubKey : PubKey; vu_Power : Z }.
Definition ModuleValidatorUpdate (r : Z) (v : Validator) : outcome ValidatorUpdate :=
  consPk ← must (cached (ConsensusPubkey v));
  power ← ConsensusPower r v;
  Ok (mkValidatorUpdate consPk power).
Definition ModuleValidatorUpdateZero (v : Validator) : outcome ValidatorUpdate :=
  consPk ← must (cached (ConsensusPubkey v));
  Ok (mkValidatorUpdate consPk 0).

(** The powers of the last set, by bech32 address.  A power stands for the bytes
    the code compares: an [Int64Value] has one encoding. *)
Definition getLastValidatorsByAddr : GoM StakingState (gmap string Z) :=
  kvs ← readM (λ s, map_to_list (LastValidatorPower s));
  foldM (λ last kv, valAddrStr ← liftM (ValBytesToString kv.1); mret (<[valAddrStr := kv.2]> last)) ∅ kvs.
(** The power index from the highest key down; an iterator sees the store as it
    was when it was opened. *)
Definition key_ge (x y : string * string) : Prop := String.le y.1 x.1.
#[global] Instance key_ge_dec x y : Decision (key_ge x y).
Proof. unfold key_ge. apply _. Defined.
Definition ValidatorsPowerStoreIterator : GoM StakingState (list string) :=
  readM (λ s, map snd (merge_sort key_ge (map_to_list (ValidatorsByPowerIndex s)))).
Definition SetLastValidatorPower (operator : string) (power : Z) : GoM StakingState unit :=
  modifyM (with_LastValidatorPower <[operator := power]>).
Definition DeleteLastValidatorPower (operator : string) : GoM StakingState unit :=
  modifyM (with_LastValidatorPower (delete operator)).

(** What the loops carry: the last set without the validators that stay, the
    updates, the total power and the tokens that change pools. *)
Record UpdateAcc := mkUpdateAcc {
  ua_last : gmap string Z;
  ua_updates : list ValidatorUpdate;
  ua_totalPower : Z;
  ua_NotBondedToBonded : Z;
  ua_BondedToNotBonded : Z;
}.
Definition get_recorded (valAddr : string) : GoM StakingState Validator :=
  v ← readM (λ s, Validators s !! valAddr);
  liftM (match v with Some v => Ok v | None => Err "validator record not found for address" end).
(** The switch on the status: the validator afterwards, with the amount to add. *)
Definition make_bonded (validator : Validator) (amt : Z) : GoM StakingState (Validator * Z) :=
  if IsUnbonded validator then
    v ← unbondedToBonded hooks validator; amt ← liftM (Int_Add amt (Tokens v)); mret (v, amt)
  else if IsUnbonding validator then
    v ← unbondingToBonded hooks validator; amt ← liftM (Int_Add amt (Tokens v)); mret (v, amt)
  else if IsBonded validator then mret (validator, amt)
  else errM "unexpected validator status".
(** One turn of the first loop, for a validator with power. *)
Definition keep_validator (valAddr : string) (validator : Validator) (acc : UpdateAcc) : GoM StakingState UpdateAcc :=
  '(validator, amt) ← make_bonded validator (ua_NotBondedToBonded acc);
  valAddrStr ← liftM (ValBytesToString valAddr);
  newPower ← liftM (ConsensusPower PowerReduction validator);
  updates ← (if bool_decide (ua_last acc !! valAddrStr = Some newPower) then mret (ua_updates acc)
             else update ← liftM (ModuleValidatorUpdate PowerReduction validator);
                  _ ← SetLastValidatorPower valAddr newPower;
                  mret (ua_updates acc ++ [update]));
  totalPower ← liftM (Int_Add (ua_totalPower acc) newPower);
  mret (mkUpdateAcc (delete valAddrStr (ua_last acc)) updates totalPower amt (ua_BondedToNotBonded acc)).
(** The first loop, over at most [count] more validators. *)
Fixpoint bond_top (count : nat) (addrs : list string) (acc : UpdateAcc) : GoM StakingState UpdateAcc :=
  match count, addrs with
  | S count, valAddr :: rest =>
      validator ← get_recorded valAddr;
      _ ← liftM (guard_err (Jailed validator) "should never retrieve a jailed validator from the power store");
      power ← liftM (PotentialConsensusPower PowerReduction validator);
      if power =? 0 then mret acc
      else acc ← keep_validator valAddr validator acc; bond_top count rest acc
  | _, _ => mret acc
  end.
Definition bytes_le (x y : string) : Prop := String.le x y.
#[global] Instance bytes_le_dec x y : Decision (bytes_le x y).
Proof. unfold bytes_le. apply _. Defined.
Definition sortNoLongerBonded (last : gmap string Z) : outcome (list string) :=
  noLongerBonded ← traverse (λ kv : string * Z, ValStringToBytes kv.1) (map_to_list last);
  Ok (merge_sort bytes_le noLongerBonded).
(** One turn of the second loop. *)
Definition drop_validator (acc : UpdateAcc) (valAddr : string) : GoM StakingState UpdateAcc :=
  validator ← get_recorded valAddr;
  validator ← bondedToUnbonding hooks h validator;
  str ← liftM (ValStringToBytes (OperatorAddress validator));
  amt ← liftM (Int_Add (ua_BondedToNotBonded acc) (Tokens validator));
  _ ← DeleteLastValidatorPower str;
  update ← liftM (ModuleValidatorUpdateZero validator);
  mret (mkUpdateAcc (ua_last acc) (ua_updates acc ++ [update]) (ua_totalPower acc) (ua_NotBondedToBonded acc) amt).
(** One key rotation. *)
Definition rotate_key (updates : list ValidatorUpdate) (history : ConsPubKeyRotationHistory)
    : GoM StakingState (list ValidatorUpdate) :=
  validator ← GetValidator (rh_OperatorAddress history);
  oldPk ← liftM (cached (OldConsPubkey history));
  newPk ← liftM (cached (NewConsPubkey history));
  if Jailed validator || negb (IsBonded validator) then mret updates
  else
    power ← liftM (ConsensusPower PowerReduction validator);
    _ ← updateToNewPubkey validator (OldConsPubkey history) (NewConsPubkey history) (rh_Fee history);
    mret (updates ++ [mkValidatorUpdate oldPk 0; mkValidatorUpdate newPk power]).
(** One transfer settles the difference. *)
Definition settle_pools (toBonded toNotBonded : Z) : GoM StakingState unit :=
  if Int_GT toBonded toNotBonded then
    d ← liftM (Int_Sub toBonded toNotBonded); notBondedTokensToBonded bk h d
  else if Int_LT toBonded toNotBonded then
    d ← liftM (Int_Sub toNotBonded toBonded); bondedTokensToNotBonded bk h d
  else mret tt.
Definition ApplyAndReturnValidatorSetUpdates : GoM StakingState (list ValidatorUpdate) :=
  params ← get_Params;
  last ← getLastValidatorsByAddr;
  addrs ← ValidatorsPowerStoreIterator;
  acc ← bond_top (Z.to_nat (MaxValidators params)) addrs (mkUpdateAcc last [] ZeroInt ZeroInt ZeroInt);
  noLongerBonded ← liftM (sortNoLongerBonded (ua_last acc));
  acc ← foldM drop_validator acc noLongerBonded;
  historyObjects ← GetBlockConsPubKeyRotationHistory;
  updates ← foldM rotate_key (ua_updates acc) historyObjects;
  _ ← settle_pools (ua_NotBondedToBonded acc) (ua_BondedToNotBonded acc);
  _ ← (if (0 <? length updates)%nat then modifyM (with_LastTotalPower (λ _, Some (ua_totalPower acc))) else mret tt);
  mret updates.

(** ** The end of a block *)

Definition BlockValidatorUpdates : GoM StakingState (list ValidatorUpdate) :=
  validatorUpdates ← ApplyAndReturnValidatorSetUpdates;
  _ ← complete_queues bk hooks h;
  _ ← PurgeAllMaturedConsKeyRotatedKeys (h_Time h);
  mret validatorUpdates.
Definition EndBlocker : GoM StakingState (list ValidatorUpdate) := BlockValidatorUpdates.
End StakingBlock.
