(* ===== verification/StakingMsg.v ===== *)
(** * The staking message server: x/staking/keeper/msg_server.go *)
From S2P Require Import Prelude Bytes MathInt LegacyDec Coin CoinFacts Collections Account Vesting AuthKeeper Bank Validator Staking StakingBlock.

Definition ErrValidatorOwnerExists : string := "validator already exist for this operator address; must use new validator operator address".
Definition ErrValidatorPubKeyTypeNotSupported : string := "validator pubkey type is not supported".
Definition ErrConsensusPubKeyLenInvalid : string := "consensus pubkey len is invalid".
Definition ErrEmptyValidatorPubKey : string := "empty validator public key".
Definition ErrSelfDelegationBelowMinimum : string := "validator's self delegation must be greater than their minimum self delegation".
Definition ErrMinSelfDelegationDecreased : string := "minimum self delegation cannot be decrease".
Definition ErrCommissionLTMinRate : string := "commission cannot be less than min rate".
Definition ErrInvalidSigner : string := "expected authority account as only signer for proposal message".
Definition ErrInvalidAddress : string := "invalid address".
Definition PubKeyEd25519Type : string := "ed25519".
Definition PubKeySize : nat := 32.
(** The module that receives the fee of a key rotation. *)
Definition PoolModuleName : string := "protocolpool".

(** ** Messages *)

Record CommissionRates := mkCommissionRates { cr_Rate : Z; cr_MaxRate : Z; cr_MaxChangeRate : Z }.
(** [msg_Pubkey] is the key in the [Any] of the message: no [Any], an [Any] without
    a cached value, or a key. *)
Record MsgCreateValidator := mkMsgCreateValidator {
  mc_Description : Description;
  mc_Commission : CommissionRates;
  mc_MinSelfDelegation : Z;
  mc_ValidatorAddress : string;
  mc_Pubkey : option (option PubKey);
  mc_Value : Coin;
}.
Record MsgEditValidator := mkMsgEditValidator {
  me_Description : Description;
  me_ValidatorAddress : string;
  me_CommissionRate : option Z;
  me_MinSelfDelegation : option Z;
}.
Record MsgDelegate := mkMsgDelegate { md_DelegatorAddress : string; md_ValidatorAddress : string; md_Amount : Coin }.
Record MsgBeginRedelegate := mkMsgBeginRedelegate {
  mb_DelegatorAddress : string;
  mb_ValidatorSrcAddress : string;
  mb_ValidatorDstAddress : string;
  mb_Amount : Coin;
}.
Record MsgUndelegate := mkMsgUndelegate { mu_DelegatorAddress : string; mu_ValidatorAddress : string; mu_Amount : Coin }.
Record MsgCancelUnbondingDelegation := mkMsgCancel {
  mx_DelegatorAddress : string;
  mx_ValidatorAddress : string;
  mx_Amount : Coin;
  mx_CreationHeight : Z;
}.
Record MsgUpdateParams := mkMsgUpdateParams { mp_Authority : string; mp_Params : StakingParams }.
Record MsgRotateConsPubKey := mkMsgRotate { mr_ValidatorAddress : string; mr_NewPubkey : option PubKey }.

Section StakingMsg.
Context {cfg : CoinConfig} {acfg : AddressConfig} {vcfg : ValAddressConfig}.
Variable bk : BaseKeeper.
Variable hooks : StakingHooks.
Variable h : Header.
(** [url.ParseRequestURI] accepts a string. *)
Variable uri_ok : string → bool.
(** The key types the consensus parameters allow. *)
Variable pubkeyTypes : outcome (option (list string)).
Variable authority : string.

(** An address of a message. *)
Definition msg_val_address (str : string) : outcome string :=
  match ValStringToBytes str with Err _ => Err ErrInvalidAddress | r => r end.
Definition msg_acc_address (str : string) : outcome string :=
  match StringToBytes str with Err _ => Err ErrInvalidAddress | r => r end.
(** A valid and positive amount. *)
Definition check_amount (c : Coin) : outcome unit :=
  guard_err (negb (Coin_IsValid c) || negb (Int_IsPositive (Amount c))) ErrInvalidRequest.
Definition check_denom (c : Coin) : GoM StakingState unit :=
  bondDenom ← BondDenom;
  liftM (guard_err (negb (str_eq (Denom c) bondDenom)) ErrInvalidRequest).

(** ** Keys *)

Definition validatePubKey (pk : PubKey) (knownPubKeyTypes : list string) : outcome unit :=
  _ ← guard_err (negb (existsb (str_eq (pk_Type pk)) knownPubKeyTypes)) ErrValidatorPubKeyTypeNotSupported;
  guard_err (str_eq (pk_Type pk) PubKeyEd25519Type && negb (String.length (pk_Bytes pk) =? PubKeySize)%nat)
    ErrConsensusPubKeyLenInvalid.
Definition no_validator_with (consAddr : string) : GoM StakingState unit := λ s,
  match GetValidatorByConsAddr consAddr s with
  | (Ok _, s') => (Err ErrValidatorPubKeyExists, s')
  | (Err _, s') => (Ok tt, s')
  | (Panic p, s') => (Panic p, s')
  end.
Definition checkConsKeyAlreadyUsed (newConsPubKey : PubKey) : GoM StakingState unit :=
  let newConsAddr := pk_Address newConsPubKey in
  rotatedTo ← readM (λ s, ConsAddrToValidatorIdentifierMap s !! newConsAddr);
  _ ← liftM (guard_err (bool_decide (is_Some rotatedTo)) ErrInvalidAddress);
  rotationHistory ← GetBlockConsPubKeyRotationHistory h;
  _ ← forM_ (λ rotation, match NewConsPubkey rotation with
                         | None => errM ErrInvalidAddress
                         | Some pk => liftM (guard_err (str_eq (pk_Address pk) newConsAddr) ErrInvalidAddress)
                         end) rotationHistory;
  no_validator_with newConsAddr.

(** ** Validators *)

Definition rates_Validate (r : CommissionRates) : outcome unit :=
  Commission_Validate (NewCommission (cr_Rate r) (cr_MaxRate r) (cr_MaxChangeRate r)).
(** [MsgCreateValidator.Validate]; rates that are set differ from the empty ones. *)
Definition MsgCreateValidator_Validate (msg : MsgCreateValidator) : outcome unit :=
  _ ← msg_val_address (mc_ValidatorAddress msg);
  _ ← guard_err (bool_decide (mc_Pubkey msg = None)) ErrEmptyValidatorPubKey;
  _ ← check_amount (mc_Value msg);
  _ ← guard_err (Description_IsEmpty (mc_Description msg)) ErrInvalidRequest;
  _ ← rates_Validate (mc_Commission msg);
  _ ← guard_err (negb (Int_IsPositive (mc_MinSelfDelegation msg))) ErrInvalidRequest;
  guard_err (Int_LT (Amount (mc_Value msg)) (mc_MinSelfDelegation msg)) ErrSelfDelegationBelowMinimum.
Definition set_MinSelfDelegation (m : Z) (v : Validator) : Validator :=
  mkValidator (OperatorAddress v) (ConsensusPubkey v) (Jailed v) (Status v) (Tokens v) (DelegatorShares v) (UnbondingHeight v)
    (UnbondingTime v) (v_Commission v) m (v_Description v).
Definition CreateValidator (msg : MsgCreateValidator) : GoM StakingState unit :=
  valAddr ← liftM (msg_val_address (mc_ValidatorAddress msg));
  _ ← liftM (MsgCreateValidator_Validate msg);
  params ← get_Params;
  let rates := mc_Commission msg in
  _ ← liftM (guard_err (Dec_LT (cr_Rate rates) (p_MinCommissionRate params)) ErrCommissionLTMinRate);
  found ← readM (λ s, Validators s !! valAddr);
  _ ← liftM (guard_err (bool_decide (is_Some found)) ErrValidatorOwnerExists);
  pk ← liftM (match mc_Pubkey msg with Some (Some pk) => Ok pk | _ => Err ErrInvalidType end);
  types ← liftM (match pubkeyTypes with Err _ => Err ErrInvalidRequest | r => r end);
  _ ← liftM (guard_err (negb (existsb (str_eq (pk_Type pk)) (default [] types))) ErrValidatorPubKeyTypeNotSupported);
  types ← liftM (match types with Some types => Ok types | None => Err ErrInvalidRequest end);
  _ ← liftM (validatePubKey pk types);
  _ ← checkConsKeyAlreadyUsed pk;
  _ ← check_denom (mc_Value msg);
  _ ← liftM (Description_Validate uri_ok (mc_Description msg));
  let validator := NewValidator (mc_ValidatorAddress msg) (Some pk) (mc_Description msg) in
  validator ← liftM (SetInitialCommission
                       (NewCommissionWithTime (cr_Rate rates) (cr_MaxRate rates) (cr_MaxChangeRate rates) (h_Time h)) validator);
  let validator := set_MinSelfDelegation (mc_MinSelfDelegation msg) validator in
  _ ← SetValidator validator;
  _ ← SetValidatorByConsAddr validator;
  _ ← SetNewValidatorByPowerIndex validator;
  _ ← AfterValidatorCreated hooks valAddr;
  _ ← Delegate bk hooks h valAddr (Amount (mc_Value msg)) Unbonded validator true;
  mret tt.

Definition set_edited (d : Description) (c : Commission) (m : Z) (v : Validator) : Validator :=
  mkValidator (OperatorAddress v) (ConsensusPubkey v) (Jailed v) (Status v) (Tokens v) (DelegatorShares v) (UnbondingHeight v)
    (UnbondingTime v) c m d.
Definition check_rate (rate : Z) : GoM StakingState unit :=
  _ ← liftM (guard_err (Dec_GT rate LegacyOneDec || Dec_IsNegative rate) ErrInvalidRequest);
  params ← get_Params;
  liftM (guard_err (Dec_LT rate (p_MinCommissionRate params)) ErrInvalidRequest).
Definition new_min_self (m : option Z) (v : Validator) : outcome Z :=
  match m with
  | None => Ok (MinSelfDelegation v)
  | Some m =>
      _ ← guard_err (negb (Int_GT m (MinSelfDelegation v))) ErrMinSelfDelegationDecreased;
      _ ← guard_err (Int_GT m (Tokens v)) ErrSelfDelegationBelowMinimum;
      Ok m
  end.
Definition EditValidator (msg : MsgEditValidator) : GoM StakingState unit :=
  valAddr ← liftM (msg_val_address (me_ValidatorAddress msg));
  _ ← liftM (guard_err (Description_IsEmpty (me_Description msg)) ErrInvalidRequest);
  _ ← liftM (match me_MinSelfDelegation msg with
             | Some m => guard_err (negb (Int_IsPositive m)) ErrInvalidRequest
             | None => Ok tt
             end);
  _ ← (match me_CommissionRate msg with Some rate => check_rate rate | None => mret tt end);
  validator ← GetValidator valAddr;
  description ← liftM (UpdateDescription uri_ok (me_Description msg) (v_Description validator));
  commission ← match me_CommissionRate msg with
               | None => mret (v_Commission validator)
               | Some rate =>
                   params ← get_Params;
                   c ← liftM (UpdateValidatorCommission (p_MinCommissionRate params) (h_Time h) rate validator);
                   _ ← BeforeValidatorModified hooks valAddr;
                   mret c
               end;
  minSelf ← liftM (new_min_self (me_MinSelfDelegation msg) validator);
  SetValidator (set_edited description commission minSelf validator).

(** ** Delegations *)

Definition Msg_Delegate (msg : MsgDelegate) : GoM StakingState unit :=
  valAddr ← liftM (msg_val_address (md_ValidatorAddress msg));
  delegatorAddress ← liftM (msg_acc_address (md_DelegatorAddress msg));
  _ ← liftM (check_amount (md_Amount msg));
  validator ← GetValidator valAddr;
  _ ← check_denom (md_Amount msg);
  _ ← Delegate bk hooks h delegatorAddress (Amount (md_Amount msg)) Unbonded validator true;
  mret tt.
Definition Msg_BeginRedelegate (msg : MsgBeginRedelegate) : GoM StakingState Z :=
  valSrcAddr ← liftM (msg_val_address (mb_ValidatorSrcAddress msg));
  valDstAddr ← liftM (msg_val_address (mb_ValidatorDstAddress msg));
  delegatorAddress ← liftM (msg_acc_address (mb_DelegatorAddress msg));
  _ ← liftM (check_amount (mb_Amount msg));
  shares ← ValidateUnbondAmount delegatorAddress valSrcAddr (Amount (mb_Amount msg));
  _ ← check_denom (mb_Amount msg);
  BeginRedelegation bk hooks h delegatorAddress valSrcAddr valDstAddr shares.
Definition Msg_Undelegate (msg : MsgUndelegate) : GoM StakingState (Z * Coin) :=
  addr ← liftM (msg_val_address (mu_ValidatorAddress msg));
  delegatorAddress ← liftM (msg_acc_address (mu_DelegatorAddress msg));
  _ ← liftM (check_amount (mu_Amount msg));
  shares ← ValidateUnbondAmount delegatorAddress addr (Amount (mu_Amount msg));
  _ ← check_denom (mu_Amount msg);
  '(completionTime, undelegatedAmt) ← Undelegate bk hooks h delegatorAddress addr shares;
  undelegatedCoin ← liftM (NewCoin (Denom (mu_Amount msg)) undelegatedAmt);
  mret (completionTime, undelegatedCoin).

(** The first entry of a height, with what comes before and after it. *)
Fixpoint find_entry (height : Z) (entries : list UnbondingDelegationEntry)
    : option (list UnbondingDelegationEntry * UnbondingDelegationEntry * list UnbondingDelegationEntry) :=
  match entries with
  | [] => None
  | e :: rest =>
      if CreationHeight e =? height then Some ([], e, rest)
      else '(before, x, after) ← find_entry height rest; Some (e :: before, x, after)
  end.
Definition CancelUnbondingDelegation (msg : MsgCancelUnbondingDelegation) : GoM StakingState unit :=
  valAddr ← liftM (msg_val_address (mx_ValidatorAddress msg));
  delegatorAddress ← liftM (msg_acc_address (mx_DelegatorAddress msg));
  let amt := Amount (mx_Amount msg) in
  _ ← liftM (check_amount (mx_Amount msg));
  _ ← liftM (guard_err (mx_CreationHeight msg <=? 0) ErrInvalidRequest);
  _ ← check_denom (mx_Amount msg);
  validator ← GetValidator valAddr;
  _ ← liftM (guard_err (InvalidExRate validator) ErrDelegatorShareExRateInvalid);
  _ ← liftM (guard_err (Jailed validator) ErrValidatorJailed);
  u ← readM (λ s, UnbondingDelegations s !! (delegatorAddress, valAddr));
  ubd ← liftM (match u with Some u => Ok u | None => Err ErrNotFound end);
  '(before, unbondEntry, after) ←
    liftM (match find_entry (mx_CreationHeight msg) (Entries ubd) with Some x => Ok x | None => Err ErrNotFound end);
  _ ← liftM (guard_err (Int_LT (Balance unbondEntry) amt) ErrInvalidRequest);
  _ ← liftM (guard_err (CompletionTime unbondEntry <? h_Time h) ErrInvalidRequest);
  _ ← Delegate bk hooks h delegatorAddress amt Unbonding validator false;
  amount ← liftM (Int_Sub (Balance unbondEntry) amt);
  entries ← (if Int_IsZero amount then mret (before ++ after)
             else initial ← liftM (Int_Sub (InitialBalance unbondEntry) amt);
                  mret (before ++ mkUbdEntry (CreationHeight unbondEntry) (CompletionTime unbondEntry) initial amount
                                    (UnbondingOnHoldRefCount unbondEntry) :: after));
  let ubd := set_Entries entries ubd in
  if (length entries =? 0)%nat then RemoveUnbondingDelegation ubd else SetUnbondingDelegation ubd.

(** ** Parameters *)

(** A denomination the pattern accepts is not blank. *)
Definition Params_Validate (p : StakingParams) : outcome unit :=
  _ ← guard_err (p_UnbondingTime p <? 0) "unbonding time must not be negative";
  _ ← guard_err (MaxValidators p =? 0) "max validators must be positive";
  _ ← guard_err (MaxEntries p =? 0) "max entries must be positive";
  _ ← ValidateDenom (p_BondDenom p);
  _ ← guard_err (Dec_IsNegative (p_MinCommissionRate p)) "minimum commission rate cannot be negative";
  _ ← guard_err (Dec_GT (p_MinCommissionRate p) LegacyOneDec) "minimum commission rate cannot be greater than 100%";
  zero ← NewCoin (p_BondDenom p) 0;
  none ← Coin_IsLTE (KeyRotationFee p) zero;
  guard_err none "cons pubkey rotation fee cannot be negative or zero".
Definition raise_commission (minRate : Z) (val : Validator) : GoM StakingState unit :=
  let c := v_Commission val in
  if Dec_LT (Rate c) minRate then
    SetValidator (set_edited (v_Description val)
                    (mkCommission minRate (if Dec_LT (MaxRate c) minRate then minRate else MaxRate c) (MaxChangeRate c) (h_Time h))
                    (MinSelfDelegation val) val)
  else mret tt.
(** All the validators, in key order. *)
Definition validators_le (x y : string * Validator) : Prop := prefixed_le x.1 y.1.
#[global] Instance validators_le_dec x y : Decision (validators_le x y).
Proof. unfold validators_le. apply _. Defined.
Definition GetAllValidators : GoM StakingState (list Validator) :=
  readM (λ s, map snd (merge_sort validators_le (map_to_list (Validators s)))).
Definition UpdateParams (msg : MsgUpdateParams) : GoM StakingState unit :=
  _ ← liftM (guard_err (negb (str_eq authority (mp_Authority msg))) ErrInvalidSigner);
  _ ← liftM (Params_Validate (mp_Params msg));
  previousParams ← get_Params;
  _ ← modifyM (with_Params (λ _, Some (mp_Params msg)));
  if p_MinCommissionRate previousParams =? p_MinCommissionRate (mp_Params msg) then mret tt
  else vals ← GetAllValidators;
       forM_ (raise_commission (p_MinCommissionRate (mp_Params msg))) vals.

(** ** Key rotation *)

Definition RotateConsPubKey (msg : MsgRotateConsPubKey) : GoM StakingState unit :=
  pk ← liftM (cached (mr_NewPubkey msg));
  types ← liftM pubkeyTypes;
  types ← liftM (match types with Some types => Ok types | None => Err ErrInvalidRequest end);
  _ ← liftM (validatePubKey pk types);
  _ ← checkConsKeyAlreadyUsed pk;
  valAddr ← liftM (ValStringToBytes (mr_ValidatorAddress msg));
  validator ← GetValidator valAddr;
  _ ← liftM (guard_err (str_eq (OperatorAddress validator) "") ErrNoValidatorFound);
  _ ← liftM (guard_err (negb (IsBonded validator)) ErrInvalidType);
  _ ← ExceedsMaxRotations valAddr;
  params ← get_Params;
  coins ← liftM (NewCoins [KeyRotationFee params]);
  _ ← on_bank (SendCoinsFromAccountToModule bk (Unix h) valAddr PoolModuleName coins);
  setConsPubKeyRotationHistory h valAddr (ConsensusPubkey validator) (mr_NewPubkey msg) (KeyRotationFee params).
End StakingMsg.
