(* ===== verification/StakingProps.v ===== *)
(** * The invariant of the staking module

    Every handler of the module keeps it: the messages, slashing and jailing, and
    the parts of the end of a block. *)
From S2P Require Import Prelude Bytes MathInt LegacyDec Coin CoinFacts Collections Account Vesting AuthKeeper AuthProps Bank BankFacts BankProps BankDelegation Validator Staking StakingBank StakingFacts StakingOps StakingSlash StakingPayout StakingBlock StakingMsg.

Section BlockInv.
Context {cfg : CoinConfig} {acfg : AddressConfig} {vcfg : ValAddressConfig} {HR : AddressRoundtrip}.
Context (k : BaseKeeper) {HP : PoolConfig k} (hooks : StakingHooks) {HH : QuietHooks hooks}.
Variable h : Header.
Variable denom : string.

(** ** Validator set updates *)

Lemma get_recorded_inv a s v s' : get_recorded a s = (Ok v, s') → s' = s ∧ Validators s !! a = Some v.
Proof. unfold get_recorded. intros (x & s1 & [= <- <-] & [H ->]%liftM_Ok)%GoM_bind_Ok. by destruct (Validators s !! a); simplify_eq. Qed.

Lemma bond_and_add_inv xB xN a v amt (g : outcome unit) s v' amt' s' :
  stk_inv denom (xB - amt) (xN + amt) (core s) → Validators s !! a = Some v → IsBonded v = false →
  (w ← (_ ← liftM g; bondValidator hooks v); amt ← liftM (Int_Add amt (Tokens w)); mret (w, amt)) s = (Ok (v', amt'), s') →
  stk_inv denom (xB - amt') (xN + amt') (core s').
Proof.
  intros Hi Hv Hb H. apply GoM_bind_Ok in H as (w & s1 & H1 & H2).
  apply GoM_bind_Ok in H1 as (? & s2 & [_ ->]%liftM_Ok & H1).
  apply GoM_bind_Ok in H2 as (z & s2 & [[-> _]%Int_Add_Ok ->]%liftM_Ok & [= <- <- <-]).
  eapply bondValidator_inv in H1 as [-> Hi1]; [|done..]. eapply stk_inv_eq; [exact Hi1|lia..].
Qed.
Lemma make_bonded_inv xB xN a v amt s v' amt' s' :
  stk_inv denom (xB - amt) (xN + amt) (core s) → Validators s !! a = Some v → make_bonded hooks v amt s = (Ok (v', amt'), s') →
  stk_inv denom (xB - amt') (xN + amt') (core s').
Proof.
  intros Hi Hv H. unfold make_bonded, unbondedToBonded, unbondingToBonded in H.
  destruct (IsUnbonded v) eqn:E1.
  { eapply bond_and_add_inv; [exact Hi|exact Hv| |exact H]. unfold IsUnbonded, IsBonded in *. apply bool_decide_eq_true in E1. by rewrite E1. }
  destruct (IsUnbonding v) eqn:E2.
  { eapply bond_and_add_inv; [exact Hi|exact Hv| |exact H]. unfold IsUnbonding, IsBonded in *. apply bool_decide_eq_true in E2. by rewrite E2. }
  destruct (IsBonded v); [|done]. by injection H as <- <- <-.
Qed.
Lemma idle_SetLastValidatorPower a p : idle (SetLastValidatorPower a p).
Proof. unfold SetLastValidatorPower. idle_solve. Qed.

(** The tokens that wait to change pools. *)
Definition acc_inv (xB xN : Z) (acc : UpdateAcc) (s : StakingState) : Prop :=
  let d := ua_NotBondedToBonded acc - ua_BondedToNotBonded acc in stk_inv denom (xB - d) (xN + d) (core s).
Lemma keep_validator_inv xB xN a v acc s acc' s' :
  acc_inv xB xN acc s → Validators s !! a = Some v → keep_validator hooks a v acc s = (Ok acc', s') → acc_inv xB xN acc' s'.
Proof.
  intros Hi Hv H. unfold keep_validator in H. apply GoM_bind_Ok in H as ([w amt] & s1 & H1 & H). cbn in H.
  apply (make_bonded_inv (xB + ua_BondedToNotBonded acc) (xN - ua_BondedToNotBonded acc) a) in H1;
    [|eapply stk_inv_eq; [exact Hi|lia..]|done].
  apply GoM_bind_Ok in H as (str & s2 & [_ ->]%liftM_Ok & H). apply GoM_bind_Ok in H as (pw & s2 & [_ ->]%liftM_Ok & H).
  apply GoM_bind_Ok in H as (ups & s2 & H2 & H). apply GoM_bind_Ok in H as (tp & s3 & [_ ->]%liftM_Ok & [= <- <-]).
  assert (core s2 = core s1) as E.
  { destruct (bool_decide _); [by injection H2 as _ <-|]. apply GoM_bind_Ok in H2 as (u & s3 & [_ ->]%liftM_Ok & H2).
    apply GoM_bind_Ok in H2 as (? & s3 & E%idle_SetLastValidatorPower & [= <- <-]). done. }
  unfold acc_inv. cbn. rewrite E. eapply stk_inv_eq; [exact H1|lia..].
Qed.
Lemma bond_top_inv xB xN n addrs : ∀ acc s acc' s',
  acc_inv xB xN acc s → bond_top hooks n addrs acc s = (Ok acc', s') → acc_inv xB xN acc' s'.
Proof.
  revert n. induction addrs as [|a addrs IH]; intros [|n] acc s acc' s' Hi H; cbn [bond_top] in H; try by injection H as <- <-.
  apply GoM_bind_Ok in H as (v & s1 & (-> & Hv)%get_recorded_inv & H). apply GoM_bind_Ok in H as (? & s1 & [_ ->]%liftM_Ok & H).
  apply GoM_bind_Ok in H as (pw & s1 & [_ ->]%liftM_Ok & H). destruct (pw =? 0); [by injection H as <- <-|].
  apply GoM_bind_Ok in H as (acc1 & s1 & H1 & H). eapply IH; [|exact H]. by eapply keep_validator_inv.
Qed.
Lemma drop_validator_inv xB xN acc a s acc' s' :
  acc_inv xB xN acc s → drop_validator hooks h acc a s = (Ok acc', s') → acc_inv xB xN acc' s'.
Proof.
  unfold acc_inv. intros Hi H. unfold drop_validator, bondedToUnbonding in H. apply GoM_bind_Ok in H as (v & s1 & (-> & Hv)%get_recorded_inv & H).
  apply GoM_bind_Ok in H as (w & s1 & H1 & H). apply GoM_bind_Ok in H1 as (? & s2 & [_ ->]%liftM_Ok & H1).
  destruct (BeginUnbondingValidator_inv hooks h denom _ _ _ _ _ _ _ Hi Hv H1) as [HT Hi1].
  apply GoM_bind_Ok in H as (str & s2 & [_ ->]%liftM_Ok & H). apply GoM_bind_Ok in H as (amt & s2 & [[-> _]%Int_Add_Ok ->]%liftM_Ok & H).
  apply GoM_bind_Ok in H as (? & s2 & H2 & H). injection H2 as _ <-. apply GoM_bind_Ok in H as (u & s3 & [_ ->]%liftM_Ok & [= <- <-]).
  cbn. rewrite HT. change (core (with_LastValidatorPower _ s1)) with (core s1). eapply stk_inv_eq; [exact Hi1|lia..].
Qed.

(** A validator keeps its operator, tokens, shares and status. *)
Definition same_stake (v w : Validator) : Prop :=
  OperatorAddress w = OperatorAddress v ∧ Tokens w = Tokens v ∧ DelegatorShares w = DelegatorShares v ∧ Status w = Status v.
Lemma inv_same_stake xB xN c a v v' :
  stk_inv denom xB xN c → c_vals c !! a = Some v → same_stake v v' → stk_inv denom xB xN (upd_vals <[a := v']> c).
Proof.
  intros Hi Hv (Hop & HT & HS & Hst). eapply stk_inv_eq; [by apply (inv_upd_status denom xB xN c a v)| |];
    unfold IsBonded; rewrite Hst; lia.
Qed.
Lemma SetValidator_keeps xB xN a v v' s r s' :
  stk_inv denom xB xN (core s) → Validators s !! a = Some v → same_stake v v' → SetValidator v' s = (Ok r, s') →
  stk_inv denom xB xN (core s') ∧ Validators s' = <[a := v']> (Validators s).
Proof.
  intros Hi Hv Hsame (a' & Ha & E)%SetValidator_inv. destruct (si_vals _ _ _ _ Hi _ _ Hv) as [Hop _].
  pose proof Hsame as (Hop' & _). rewrite Hop', Hop in Ha. injection Ha as <-. rewrite E. split; [by eapply inv_same_stake|].
  by injection E as _ ? _ _ _ _.
Qed.
Lemma idle_SetValidatorByConsAddr v : idle (SetValidatorByConsAddr v).
Proof. unfold SetValidatorByConsAddr. idle_solve. Qed.
Lemma updateToNewPubkey_inv xB xN a v o n fee s r s' :
  stk_inv denom xB xN (core s) → Validators s !! a = Some v → updateToNewPubkey hooks v o n fee s = (Ok r, s') → stk_inv denom xB xN (core s').
Proof.
  intros Hi Hv H. unfold updateToNewPubkey in H. apply GoM_bind_Ok in H as (ca & s1 & [_ ->]%liftM_Ok & H).
  apply GoM_bind_Ok in H as (? & s1 & H1 & H). injection H1 as _ <-.
  apply GoM_bind_Ok in H as (? & s1 & E1%idle_DeleteValidatorByPowerIndex & H). cbn zeta in H.
  change (core (with_ValidatorByConsensusAddress _ s)) with (core s) in E1.
  apply GoM_bind_Ok in H as (? & s2 & H2 & H). rewrite <- E1 in Hi. injection E1 as _ V1 _ _ _ _.
  eapply (SetValidator_keeps xB xN a v) in H2 as [Hi2 _]; [|done|by rewrite V1|done].
  apply GoM_bind_Ok in H as (? & s3 & E3%idle_SetValidatorByConsAddr & H).
  apply GoM_bind_Ok in H as (? & s4 & E4%idle_SetValidatorByPowerIndex & H).
  apply GoM_bind_Ok in H as (op & s5 & [_ ->]%liftM_Ok & H). apply GoM_bind_Ok in H as (np & s5 & [_ ->]%liftM_Ok & H).
  apply GoM_bind_Ok in H as (? & s5 & H5 & H). injection H5 as _ <-.
  apply GoM_bind_Ok in H as (? & s5 & H5 & H%qh_pubkey_update). unfold setConsAddrToValidatorIdentifierMap in H5.
  apply GoM_bind_Ok in H5 as (vi & s6 & [= <- <-] & H5). injection H5 as _ <-.
  eapply still_inv; [exact H|]. change (stk_inv denom xB xN (core s4)). by rewrite E4, E3.
Qed.
Lemma rotate_key_inv xB xN ups hist s ups' s' :
  stk_inv denom xB xN (core s) → rotate_key hooks ups hist s = (Ok ups', s') → stk_inv denom xB xN (core s').
Proof.
  intros Hi H. unfold rotate_key in H. apply GoM_bind_Ok in H as (v & s1 & (-> & Hv)%GetValidator_inv & H).
  apply GoM_bind_Ok in H as (op & s1 & [_ ->]%liftM_Ok & H). apply GoM_bind_Ok in H as (np & s1 & [_ ->]%liftM_Ok & H).
  destruct (_ || _); [by injection H as <- <-|]. apply GoM_bind_Ok in H as (pw & s1 & [_ ->]%liftM_Ok & H).
  apply GoM_bind_Ok in H as (? & s1 & H1 & [= <- <-]). by eapply updateToNewPubkey_inv.
Qed.
Lemma settle_pools_inv xB xN tb tn s r s' :
  stk_inv denom (xB - (tb - tn)) (xN + (tb - tn)) (core s) → settle_pools k h tb tn s = (Ok r, s') → stk_inv denom xB xN (core s').
Proof.
  intros Hi H. pose proof (si_addr _ _ _ _ Hi) as Hok. unfold settle_pools in H.
  pose proof (Int_GT_ltb tb tn) as EG. pose proof (Int_LT_ltb tb tn) as EL.
  destruct (Int_GT tb tn), (Int_LT tb tn); symmetry in EG, EL; rewrite ?Z.ltb_lt, ?Z.ltb_ge in EG, EL; [lia| | |].
  - apply GoM_bind_Ok in H as (d & s1 & [[-> _]%Int_Sub_Ok ->]%liftM_Ok & H).
    apply (not_bonded_to_bonded_inv k) in H as (_ & p & Hp & M); [|done].
    eapply stk_inv_eq; [exact (bank_only_bond _ _ _ _ _ _ _ _ Hp M Hi)|lia..].
  - apply GoM_bind_Ok in H as (d & s1 & [[-> _]%Int_Sub_Ok ->]%liftM_Ok & H).
    apply (bonded_to_not_bonded_inv k) in H as (_ & p & Hp & M); [|done].
    eapply stk_inv_eq; [exact (bank_only_bond _ _ _ _ _ _ _ _ Hp M Hi)|lia..].
  - injection H as _ <-. eapply stk_inv_eq; [exact Hi|lia..].
Qed.
Lemma getLastValidatorsByAddr_idle : idle getLastValidatorsByAddr.
Proof.
  unfold getLastValidatorsByAddr. apply idle_bind; [apply idle_readM|]. intros kvs. generalize (∅ : gmap string Z).
  induction kvs as [|kv kvs IH]; intros last; cbn [foldM]; [apply idle_ret|]. apply idle_bind; [|done].
  apply idle_bind; [apply idle_liftM|]. intros; apply idle_ret.
Qed.
Lemma ApplyAndReturnValidatorSetUpdates_inv xB xN s u s' :
  stk_inv denom xB xN (core s) → ApplyAndReturnValidatorSetUpdates k hooks h s = (Ok u, s') → stk_inv denom xB xN (core s').
Proof.
  intros Hi H. unfold ApplyAndReturnValidatorSetUpdates in H. apply GoM_bind_Ok in H as (p & s1 & E1%idle_get_Params & H).
  apply GoM_bind_Ok in H as (last & s2 & E2%getLastValidatorsByAddr_idle & H). rewrite <- E1, <- E2 in Hi.
  apply GoM_bind_Ok in H as (addrs & s3 & H3 & H). injection H3 as _ <-.
  apply GoM_bind_Ok in H as (acc & s3 & H3 & H). apply (bond_top_inv xB xN) in H3; [|eapply stk_inv_eq; [exact Hi|cbn; lia..]].
  apply GoM_bind_Ok in H as (dropped & s4 & [_ ->]%liftM_Ok & H). apply GoM_bind_Ok in H as (acc1 & s4 & H4 & H).
  eapply (foldM_keeps (acc_inv xB xN)) in H4; [|intros; by eapply drop_validator_inv|done].
  apply GoM_bind_Ok in H as (hist & s5 & H5 & H). injection H5 as _ <-. apply GoM_bind_Ok in H as (ups & s5 & H5 & H).
  eapply (foldM_keeps (λ _ s, acc_inv xB xN acc1 s)) in H5; [|intros; by eapply rotate_key_inv|done].
  apply GoM_bind_Ok in H as (? & s6 & H6%(settle_pools_inv xB xN) & H); [|done].
  apply GoM_bind_Ok in H as (? & s7 & H7 & [= <- <-]). by destruct (_ <? _)%nat; injection H7 as _ <-.
Qed.
Lemma idle_Purge t : idle (PurgeAllMaturedConsKeyRotatedKeys t).
Proof. unfold PurgeAllMaturedConsKeyRotatedKeys, getAndRemoveAllMaturedRotatedKeys, deleteConsKeyIndexKey. idle_solve. Qed.
Lemma idle_DequeueUBD t : idle (DequeueAllMatureUBDQueue t).
Proof. unfold DequeueAllMatureUBDQueue. idle_solve. Qed.
Lemma idle_DequeueRed t : idle (DequeueAllMatureRedelegationQueue h t).
Proof. unfold DequeueAllMatureRedelegationQueue. idle_solve. Qed.
End BlockInv.

(** ** Messages *)

Section MsgInv.
Context {cfg : CoinConfig} {acfg : AddressConfig} {vcfg : ValAddressConfig} {HR : AddressRoundtrip}.
Context (k : BaseKeeper) {HP : PoolConfig k} (hooks : StakingHooks) {HH : QuietHooks hooks}.
Variable h : Header.
Variable uri_ok : string → bool.
Variable pubkeyTypes : outcome (option (list string)).
Variable authority : string.
Variable denom : string.

Lemma msg_val_address_Ok str a : msg_val_address str = Ok a → ValStringToBytes str = Ok a.
Proof. unfold msg_val_address. by destruct (ValStringToBytes str). Qed.
Lemma check_amount_Ok c r : check_amount c = Ok r → 0 < Amount c.
Proof.
  unfold check_amount. intros [_ H]%guard_err_Ok%orb_false_iff. rewrite Int_IsPositive_ltb in H.
  apply negb_false_iff, Z.ltb_lt in H. done.
Qed.
Lemma idle_check_denom c : idle (check_denom c).
Proof. unfold check_denom, BondDenom. pose proof idle_get_Params. idle_solve. Qed.

(** A new validator without stake. *)
Lemma inv_new_val xB xN c a v :
  stk_inv denom xB xN c → valid_address a → c_vals c !! a = None → ValStringToBytes (OperatorAddress v) = Ok a → Tokens v = 0 → DelegatorShares v = 0 →
  stk_inv denom xB xN (upd_vals <[a := v]> c).
Proof.
  intros [I1 I2 I3 I4 IR I5 I6 I7 I8 I9 IK] Hkey Hn Hop HT HS. split; cbn; try done.
  - intros a' w [[<- <-]|[_ Hw]]%lookup_insert_Some; [|by apply I2]. split; [done|]. unfold val_ok, int_range. rewrite HT, HS. lia.
  - intros x. rewrite <- I5. destruct (decide (a = x)) as [<-|Hne]; [by rewrite lookup_insert_eq, Hn|by rewrite lookup_insert_ne].
  - rewrite I6. unfold bonded_tokens. rewrite msum_insert, Hn, HT. cbn. destruct (IsBonded v); lia.
  - rewrite I7. unfold not_bonded_tokens. rewrite msum_insert, Hn, HT. cbn. destruct (IsBonded v); lia.
  - intros a' w [[<- _]|[_ Hw]]%lookup_insert_Some; eauto.
Qed.
Lemma Delegate_keeps xB xN d amt v a s sh s' :
  stk_inv denom xB xN (core s) → Validators s !! a = Some v → 0 <= amt → staker d →
  Delegate k hooks h d amt Unbonded v true s = (Ok sh, s') → stk_inv denom xB xN (core s').
Proof.
  intros Hi Hv Ha Hd H. eapply (Delegate_inv k hooks h denom xB xN) in H as [? _]; [done| |exact Hv|exact Ha|exact Hd].
  cbn. by rewrite !Z.add_0_r.
Qed.

Lemma idle_checkConsKeyAlreadyUsed pk : idle (checkConsKeyAlreadyUsed h pk).
Proof.
  unfold checkConsKeyAlreadyUsed, GetBlockConsPubKeyRotationHistory.
  assert (∀ a, idle (no_validator_with a)).
  { intros a s r s'. unfold no_validator_with. destruct (GetValidatorByConsAddr a s) as [[]] eqn:E; [done| |done].
    apply GetValidatorByConsAddr_state in E as ->. by intros [= <- <-]. }
  idle_solve.
Qed.
Lemma CreateValidator_inv xB xN msg s r s' :
  stk_inv denom xB xN (core s) → (∀ a, ValStringToBytes (mc_ValidatorAddress msg) = Ok a → staker a) →
  CreateValidator k hooks h uri_ok pubkeyTypes msg s = (Ok r, s') → stk_inv denom xB xN (core s').
Proof.
  intros Hi Hpool H. unfold CreateValidator in H.
  apply GoM_bind_Ok in H as (a & s1 & [Ha%msg_val_address_Ok ->]%liftM_Ok & H).
  apply GoM_bind_Ok in H as (? & s1 & [Hval ->]%liftM_Ok & H).
  assert (0 < Amount (mc_Value msg)) as Hpos.
  { unfold MsgCreateValidator_Validate in Hval. go_inv.
    match goal with H0 : check_amount _ = Ok _ |- _ => by apply check_amount_Ok in H0 end. }
  apply GoM_bind_Ok in H as (p & s1 & E1%idle_get_Params & H). cbn zeta in H.
  apply GoM_bind_Ok in H as (? & s2 & [_ ->]%liftM_Ok & H). apply GoM_bind_Ok in H as (o & s2 & [= <- <-] & H).
  apply GoM_bind_Ok in H as (? & s2 & [Hn%guard_err_Ok ->]%liftM_Ok & H).
  assert (Validators s1 !! a = None) as Hnone by (apply bool_decide_eq_false in Hn; by apply eq_None_not_Some).
  rewrite <- E1 in Hi. clear E1.
  apply GoM_bind_Ok in H as (pk & s2 & [_ ->]%liftM_Ok & H). do 4 apply GoM_bind_Ok in H as (? & s2 & [_ ->]%liftM_Ok & H).
  apply GoM_bind_Ok in H as (? & s2 & E2%idle_checkConsKeyAlreadyUsed & H).
  apply GoM_bind_Ok in H as (? & s3 & E3%idle_check_denom & H). rewrite E2 in E3. clear E2.
  apply GoM_bind_Ok in H as (? & s4 & [_ ->]%liftM_Ok & H). apply GoM_bind_Ok in H as (v & s4 & [Hv ->]%liftM_Ok & H).
  assert (OperatorAddress v = mc_ValidatorAddress msg ∧ Tokens v = 0 ∧ DelegatorShares v = 0) as (Hop & HT & HS)
    by (clear H; unfold SetInitialCommission in Hv; go_inv; done).
  rewrite <- E3 in Hi. injection E3 as _ V3 _ _ _ _. rewrite <- V3 in Hnone.
  apply GoM_bind_Ok in H as (? & s4 & (a' & Ha' & E4)%SetValidator_inv & H). cbn in Ha'.
  rewrite Hop, Ha in Ha'. injection Ha' as <-.
  apply GoM_bind_Ok in H as (? & s5 & E5%idle_SetValidatorByConsAddr & H).
  apply GoM_bind_Ok in H as (? & s6 & E6%idle_SetNewValidatorByPowerIndex & H). rewrite E5, E4 in E6.
  apply GoM_bind_Ok in H as (? & s7 & Hst%qh_validator_created & H). apply GoM_bind_Ok in H as (sh & s8 & H8 & [= <- <-]).
  destruct (still_set_bank _ _ Hst) as [b E7]. injection E7 as _ V7 _ _ _ _.
  eapply (Delegate_keeps xB xN a (Amount (mc_Value msg)) _ a); [|by rewrite V7; injection E6 as _ -> _ _ _ _; cbn; rewrite lookup_insert_eq|lia|by apply Hpool|exact H8].
  eapply still_inv; [exact Hst|]. rewrite E6. apply inv_new_val; try done; [by apply Hpool|]. cbn. by rewrite Hop.
Qed.
Lemma idle_check_rate z : idle (check_rate z).
Proof. unfold check_rate. pose proof idle_get_Params. idle_solve. Qed.
Lemma EditValidator_inv xB xN msg s r s' :
  stk_inv denom xB xN (core s) → EditValidator hooks h uri_ok msg s = (Ok r, s') → stk_inv denom xB xN (core s').
Proof.
  intros Hi H. unfold EditValidator in H. apply GoM_bind_Ok in H as (a & s1 & [_ ->]%liftM_Ok & H).
  do 2 apply GoM_bind_Ok in H as (? & s1 & [_ ->]%liftM_Ok & H). apply GoM_bind_Ok in H as (? & s1 & H1 & H).
  assert (core s1 = core s) as E1.
  { destruct (me_CommissionRate msg); [|by injection H1 as _ <-]. by apply idle_check_rate in H1. }
  rewrite <- E1 in Hi. clear E1. apply GoM_bind_Ok in H as (v & s2 & (-> & Hv)%GetValidator_inv & H).
  apply GoM_bind_Ok in H as (de & s2 & [_ ->]%liftM_Ok & H). apply GoM_bind_Ok in H as (c & s2 & H2 & H).
  assert (still s1 s2) as Hst.
  { destruct (me_CommissionRate msg); [|injection H2 as _ <-; by apply still_core].
    apply GoM_bind_Ok in H2 as (p & s3 & E3%idle_get_Params & H2). apply GoM_bind_Ok in H2 as (c' & s4 & [_ ->]%liftM_Ok & H2).
    apply GoM_bind_Ok in H2 as (? & s4 & Hh%qh_validator_modified & [= <- <-]). eapply still_trans; [by apply still_core|done]. }
  apply (still_inv _ _ _ _ _ Hst) in Hi. destruct (still_set_bank _ _ Hst) as [b E2]. injection E2 as _ V2 _ _ _ _.
  apply GoM_bind_Ok in H as (m & s3 & [_ ->]%liftM_Ok & H).
  eapply (SetValidator_keeps denom xB xN a v) in H as [? _]; [done|done|by rewrite V2|done].
Qed.

Lemma Msg_Delegate_inv xB xN msg s r s' :
  stk_inv denom xB xN (core s) → (∀ d, StringToBytes (md_DelegatorAddress msg) = Ok d → staker d) →
  Msg_Delegate k hooks h msg s = (Ok r, s') → stk_inv denom xB xN (core s').
Proof.
  intros Hi Hpool H. unfold Msg_Delegate in H. apply GoM_bind_Ok in H as (a & s1 & [_ ->]%liftM_Ok & H).
  apply GoM_bind_Ok in H as (d & s1 & [Hd ->]%liftM_Ok & H). apply GoM_bind_Ok in H as (? & s1 & [Ha%check_amount_Ok ->]%liftM_Ok & H).
  apply GoM_bind_Ok in H as (v & s1 & (-> & Hv)%GetValidator_inv & H).
  apply GoM_bind_Ok in H as (? & s1 & E1%idle_check_denom & H). rewrite <- E1 in Hi. injection E1 as _ V1 _ _ _ _. rewrite <- V1 in Hv.
  apply GoM_bind_Ok in H as (sh & s2 & H2 & [= <- <-]). eapply (Delegate_keeps xB xN d (Amount (md_Amount msg)) v a); [exact Hi|exact Hv|lia| |exact H2].
  apply Hpool. unfold msg_acc_address in Hd. by destruct (StringToBytes _).
Qed.

Lemma ValidateUnbondAmount_inv xB xN d a amt s sh s' :
  stk_inv denom xB xN (core s) → 0 < amt → ValidateUnbondAmount d a amt s = (Ok sh, s') → s' = s ∧ 0 <= sh.
Proof.
  intros Hi Ha H. unfold ValidateUnbondAmount, get_Delegation in H.
  apply GoM_bind_Ok in H as (v & s1 & (-> & Hv)%GetValidator_inv & H). apply GoM_bind_Ok in H as (del & s1 & Hdel & [H ->]%liftM_Ok).
  apply GoM_bind_Ok in Hdel as (o & s2 & [= <- <-] & [Hdel ->]%liftM_Ok). split; [done|].
  destruct (Delegations s !! (d, a)) as [del'|] eqn:Ed; [injection Hdel as ->|done].
  destruct (si_dels _ _ _ _ Hi _ _ _ Ed) as (_ & _ & HS & _). destruct (si_vals _ _ _ _ Hi _ _ Hv) as [_ (HT & HD & _)].
  unfold unbond_shares in H. go_inv. case_match; [done|]. go_inv. case_match; [done|].
  match goal with H0 : SharesFromTokens amt v = Ok _ |- _ => apply SharesFromTokens_Ok in H0 as [-> ?] end. apply Z.quot_pos; nia.
Qed.
Lemma Msg_Undelegate_inv xB xN msg s r s' :
  stk_inv denom xB xN (core s) → Msg_Undelegate k hooks h msg s = (Ok r, s') → stk_inv denom xB xN (core s').
Proof.
  intros Hi H. unfold Msg_Undelegate in H. apply GoM_bind_Ok in H as (a & s1 & [_ ->]%liftM_Ok & H).
  apply GoM_bind_Ok in H as (d & s1 & [_ ->]%liftM_Ok & H). apply GoM_bind_Ok in H as (? & s1 & [Ha%check_amount_Ok ->]%liftM_Ok & H).
  apply GoM_bind_Ok in H as (sh & s1 & H1 & H). eapply ValidateUnbondAmount_inv in H1 as [-> Hsh]; [|done..].
  apply GoM_bind_Ok in H as (? & s1 & E1%idle_check_denom & H). rewrite <- E1 in Hi.
  apply GoM_bind_Ok in H as ([t amt] & s2 & H2 & H). cbn in H. apply GoM_bind_Ok in H as (c & s3 & [_ ->]%liftM_Ok & [= <- <-]).
  by eapply Undelegate_inv.
Qed.
Lemma Msg_BeginRedelegate_inv xB xN msg s r s' :
  stk_inv denom xB xN (core s) → Msg_BeginRedelegate k hooks h msg s = (Ok r, s') → stk_inv denom xB xN (core s').
Proof.
  intros Hi H. unfold Msg_BeginRedelegate in H. do 3 apply GoM_bind_Ok in H as (? & s1 & [_ ->]%liftM_Ok & H).
  apply GoM_bind_Ok in H as (? & s1 & [Ha%check_amount_Ok ->]%liftM_Ok & H).
  apply GoM_bind_Ok in H as (sh & s1 & H1 & H). eapply ValidateUnbondAmount_inv in H1 as [-> Hsh]; [|done..].
  apply GoM_bind_Ok in H as (? & s1 & E1%idle_check_denom & H). rewrite <- E1 in Hi. by eapply BeginRedelegation_inv.
Qed.

Lemma find_entry_Some height es bf e af : find_entry height es = Some (bf, e, af) → es = bf ++ e :: af ∧ CreationHeight e = height.
Proof.
  revert bf. induction es as [|x es IH]; intros bf H; cbn in H; [done|]. destruct (Z.eqb_spec (CreationHeight x) height).
  - by injection H as <- <- <-.
  - destruct (find_entry height es) as [[[b0 y] a0]|]; [|done]. injection H as <- -> ->. destruct (IH b0 eq_refl) as [-> ?]. done.
Qed.

(** The entry that is cancelled, in part or in full. *)
Lemma cancel_entry_inv xB xN u d a bf e af amt es s r s' :
  stk_inv denom xB (xN - amt) (core s) → UnbondingDelegations s !! (d, a) = Some u → Entries u = bf ++ e :: af → 0 < amt <= Balance e →
  (es = bf ++ af ∧ Balance e = amt ∨ ∃ e', es = bf ++ e' :: af ∧ Balance e' = Balance e - amt ∧ InitialBalance e' = InitialBalance e - amt) →
  (if (length es =? 0)%nat then RemoveUnbondingDelegation (set_Entries es u) else SetUnbondingDelegation (set_Entries es u)) s = (Ok r, s') →
  stk_inv denom xB xN (core s').
Proof.
  intros Hi Hu HE Ha Hes H. destruct (si_ubds _ _ _ _ Hi _ _ _ Hu) as (Hd & Hv & HF & Hp). rewrite HE in HF.
  apply Forall_app in HF as [HF1 [[He1 He2] HF2]%Forall_cons].
  assert (entries_balance es = entries_balance (Entries u) - amt ∧ Forall entry_ok es) as [HB HF].
  { rewrite HE. destruct Hes as [[-> <-]|(e' & -> & HB' & HI')]; rewrite !entries_balance_app, ?entries_balance_cons.
    - split; [lia|]. by apply Forall_app.
    - split; [lia|]. apply Forall_app. split; [done|]. constructor; [split; lia|done]. }
  destruct (length es =? 0)%nat eqn:El.
  - apply RemoveUnbondingDelegation_inv in H as (d' & a' & Hd' & Ha' & E). cbn in Hd', Ha'.
    assert (d' = d ∧ a' = a) as [-> ->] by (split; congruence). rewrite E. apply Nat.eqb_eq in El. destruct es; [|done]. cbn in HB.
    eapply stk_inv_eq; [by apply (inv_remove_ubd denom xB (xN - amt) (core s) d a)|done|].
    change (c_ubds (core s)) with (UnbondingDelegations s). rewrite Hu. cbn [from_option]. lia.
  - apply SetUnbondingDelegation_inv in H as (d' & a' & Hd' & Ha' & E). cbn in Hd', Ha'.
    assert (d' = d ∧ a' = a) as [-> ->] by (split; congruence). rewrite E.
    eapply stk_inv_eq; [by apply (inv_set_ubd denom xB (xN - amt) (core s) d a (set_Entries es u))|done|].
    change (c_ubds (core s)) with (UnbondingDelegations s). rewrite Hu. cbn [from_option set_Entries Entries]. lia.
Qed.
Lemma CancelUnbondingDelegation_inv xB xN msg s r s' :
  stk_inv denom xB xN (core s) → CancelUnbondingDelegation k hooks h msg s = (Ok r, s') → stk_inv denom xB xN (core s').
Proof.
  intros Hi H. unfold CancelUnbondingDelegation in H. apply GoM_bind_Ok in H as (a & s1 & [_ ->]%liftM_Ok & H).
  apply GoM_bind_Ok in H as (d & s1 & [_ ->]%liftM_Ok & H). cbn zeta in H.
  apply GoM_bind_Ok in H as (? & s1 & [Ha%check_amount_Ok ->]%liftM_Ok & H). apply GoM_bind_Ok in H as (? & s1 & [_ ->]%liftM_Ok & H).
  apply GoM_bind_Ok in H as (? & s1 & E1%idle_check_denom & H). rewrite <- E1 in Hi. clear E1.
  apply GoM_bind_Ok in H as (v & s2 & (-> & Hv)%GetValidator_inv & H). do 2 apply GoM_bind_Ok in H as (? & s2 & [_ ->]%liftM_Ok & H).
  apply GoM_bind_Ok in H as (o & s2 & [= <- <-] & H). apply GoM_bind_Ok in H as (u & s2 & [Hu ->]%liftM_Ok & H).
  destruct (UnbondingDelegations s1 !! (d, a)) as [u'|] eqn:Eu; [injection Hu as ->|done].
  apply GoM_bind_Ok in H as ([[bf e] af] & s2 & [Hf ->]%liftM_Ok & H). cbn in H.
  destruct (find_entry (mx_CreationHeight msg) (Entries u)) as [[[bf' e'] af']|] eqn:Ef; [injection Hf as -> -> ->|done].
  apply find_entry_Some in Ef as [HE _]. destruct (si_ubds _ _ _ _ Hi _ _ _ Eu) as (_ & _ & _ & Hpool).
  apply GoM_bind_Ok in H as (? & s2 & [Hlt%guard_err_Ok ->]%liftM_Ok & H). rewrite Int_LT_ltb in Hlt. apply Z.ltb_ge in Hlt.
  apply GoM_bind_Ok in H as (? & s2 & [_ ->]%liftM_Ok & H). apply GoM_bind_Ok in H as (sh & s2 & H2 & H).
  set (amt := Amount (mx_Amount msg)) in *.
  apply (Delegate_inv k hooks h denom xB (xN - amt) d amt Unbonding v false a) in H2 as [Hi2 U2];
    [|eapply stk_inv_eq; [exact Hi|change (src_bonded Unbonding) with false; cbn; lia..]|done|lia|apply Hpool]. rewrite <- U2 in Eu.
  apply GoM_bind_Ok in H as (left_ & s3 & [[-> _]%Int_Sub_Ok ->]%liftM_Ok & H). apply GoM_bind_Ok in H as (es & s3 & H3 & H).
  rewrite Int_IsZero_eqb in H3. destruct (Z.eqb_spec (Balance e - amt) 0).
  - injection H3 as <- <-. eapply cancel_entry_inv; [exact Hi2|exact Eu|exact HE| |left; split; [reflexivity|]|exact H]; lia.
  - apply GoM_bind_Ok in H3 as (ini & s4 & [[-> _]%Int_Sub_Ok ->]%liftM_Ok & [= <- <-]).
    eapply cancel_entry_inv; [exact Hi2|exact Eu|exact HE| |right; eexists; split; [reflexivity|]|exact H]; [lia|done].
Qed.

(** ** Parameters and keys *)

Lemma inv_set_params xB xN s p :
  stk_inv denom xB xN (core s) → p_BondDenom p = denom → stk_inv denom xB xN (core (with_Params (λ _, Some p) s)).
Proof. intros [I1 I2 I3 I4 IR I5 I6 I7 I8 I9] Hp. split; cbn; try done. by exists p. Qed.
Lemma raise_commission_inv xB xN minRate vals s r s' :
  stk_inv denom xB xN (core s) → (∀ y, y ∈ vals → ∃ a w, Validators s !! a = Some w ∧ same_stake w y) →
  forM_ (raise_commission h minRate) vals s = (Ok r, s') → stk_inv denom xB xN (core s').
Proof.
  intros Hi Hin H. pose (P := λ s, stk_inv denom xB xN (core s) ∧ ∀ y, y ∈ vals → ∃ a w, Validators s !! a = Some w ∧ same_stake w y).
  eapply (forM_keeps P) in H as [? _]; [done| |by split]. clear s r s' Hi Hin H. intros y s r s' Hy [Hi Hin] H.
  unfold raise_commission in H. destruct (Dec_LT _ _); [|by injection H as _ <-]. destruct (Hin y Hy) as (a & w & Hw & Hsame).
  eapply (SetValidator_keeps denom xB xN a w) in H as [Hi' V]; [|done..]. split; [done|]. intros z Hz.
  destruct (Hin z Hz) as (b & w' & Hw' & Hs'). rewrite V. destruct (decide (a = b)) as [<-|Hne].
  - rewrite Hw in Hw'. injection Hw' as <-. exists a. rewrite lookup_insert_eq. eexists. split; [done|].
    destruct Hsame as (? & ? & ? & ?), Hs' as (? & ? & ? & ?). repeat split; cbn; congruence.
  - exists b, w'. by rewrite lookup_insert_ne.
Qed.
Lemma UpdateParams_inv xB xN msg s r s' :
  stk_inv denom xB xN (core s) → p_BondDenom (mp_Params msg) = denom →
  UpdateParams h authority msg s = (Ok r, s') → stk_inv denom xB xN (core s').
Proof.
  intros Hi Hp H. unfold UpdateParams in H. do 2 apply GoM_bind_Ok in H as (? & s1 & [_ ->]%liftM_Ok & H).
  apply GoM_bind_Ok in H as (p & s1 & E1%idle_get_Params & H). rewrite <- E1 in Hi. clear E1.
  apply GoM_bind_Ok in H as (? & s2 & H2 & H). injection H2 as _ <-. apply (inv_set_params _ _ _ (mp_Params msg)) in Hi; [|done].
  destruct (_ =? _); [by injection H as _ <-|]. apply GoM_bind_Ok in H as (vals & s2 & H2 & H). injection H2 as Hvals <-.
  eapply raise_commission_inv; [exact Hi| |exact H]. intros y Hy. rewrite <- Hvals in Hy.
  apply list_elem_of_fmap in Hy as ([a w] & -> & Hy). rewrite merge_sort_Permutation in Hy. apply elem_of_map_to_list in Hy.
  by exists a, w.
Qed.
Lemma RotateConsPubKey_inv xB xN msg s r s' :
  stk_inv denom xB xN (core s) →
  (∀ a coins s r s', on_bank (SendCoinsFromAccountToModule k (Unix h) a PoolModuleName coins) s = (Ok r, s') →
     ValStringToBytes (mr_ValidatorAddress msg) = Ok a → still s s') →
  RotateConsPubKey k h pubkeyTypes msg s = (Ok r, s') → stk_inv denom xB xN (core s').
Proof.
  intros Hi Hfee H. unfold RotateConsPubKey in H. do 4 apply GoM_bind_Ok in H as (? & s1 & [_ ->]%liftM_Ok & H).
  apply GoM_bind_Ok in H as (? & s1 & E1%idle_checkConsKeyAlreadyUsed & H). rewrite <- E1 in Hi. clear E1.
  apply GoM_bind_Ok in H as (a & s2 & [Ha ->]%liftM_Ok & H). apply GoM_bind_Ok in H as (v & s2 & (-> & Hv)%GetValidator_inv & H).
  do 2 apply GoM_bind_Ok in H as (? & s2 & [_ ->]%liftM_Ok & H). apply GoM_bind_Ok in H as (? & s2 & H2 & H).
  unfold ExceedsMaxRotations in H2. apply GoM_bind_Ok in H2 as (n & s3 & H3 & [_ ->]%liftM_Ok). injection H3 as _ <-.
  apply GoM_bind_Ok in H as (p & s2 & E2%idle_get_Params & H). rewrite <- E2 in Hi. clear E2.
  apply GoM_bind_Ok in H as (coins & s3 & [_ ->]%liftM_Ok & H). apply GoM_bind_Ok in H as (? & s3 & H3 & H).
  apply Hfee in H3; [|done]. apply (still_inv _ _ _ _ _ H3) in Hi. clear H3. revert H.
  assert (idle (setConsPubKeyRotationHistory h a (ConsensusPubkey v) (mr_NewPubkey msg) (KeyRotationFee p))) as Hidle.
  { unfold setConsPubKeyRotationHistory, GetBlockConsPubKeyRotationHistory, setConsKeyQueue. pose proof idle_UnbondingTime. idle_solve. }
  intros ->%Hidle. done.
Qed.
End MsgInv.

(** ** The end of a block *)

Section BlockEnd.
Context {cfg : CoinConfig} {acfg : AddressConfig} {vcfg : ValAddressConfig} {HR : AddressRoundtrip}.
Context (k : BaseKeeper) {HP : PoolConfig k} (hooks : StakingHooks) {HH : QuietHooks hooks}.
Variable h : Header.
Variable denom : string.

(** An error of [CompleteRedelegation] comes before its writes. *)
Definition err_quiet {A} (m : GoM StakingState A) : Prop := ∀ s e s', m s = (Err e, s') → s' = s.
Definition read_only {A} (m : GoM StakingState A) : Prop := ∀ s r s', m s = (r, s') → s' = s.
Definition no_error {A} (m : GoM StakingState A) : Prop := ∀ s e s', m s ≠ (Err e, s').
Lemma err_quiet_read {A B} (m : GoM StakingState A) (f : A → GoM StakingState B) :
  read_only m → (∀ a, err_quiet (f a)) → err_quiet (m ≫= f).
Proof.
  intros Hm Hf s e s' H. unfold mbind, GoM_bind in H. destruct (m s) as [[a|e1|p] s1] eqn:E; apply Hm in E as ->.
  - by eapply Hf.
  - by injection H as _ <-.
  - done.
Qed.
Lemma err_quiet_last {A B} (m : GoM StakingState A) (f : A → GoM StakingState B) :
  err_quiet m → (∀ a, no_error (f a)) → err_quiet (m ≫= f).
Proof.
  intros Hm Hf s e s' H. unfold mbind, GoM_bind in H. destruct (m s) as [[a|e1|p] s1] eqn:E; [by apply Hf in H| |done].
  injection H as _ <-. by eapply Hm.
Qed.
Lemma read_only_liftM {A} (m : outcome A) : read_only (liftM m).
Proof. by intros s r s' [= _ <-]. Qed.
Lemma read_only_readM {A} (f : StakingState → A) : read_only (readM f).
Proof. by intros s r s' [= _ <-]. Qed.
Lemma read_only_bind {A B} (m : GoM StakingState A) (f : A → GoM StakingState B) :
  read_only m → (∀ a, read_only (f a)) → read_only (m ≫= f).
Proof.
  intros Hm Hf s r s' H. unfold mbind, GoM_bind in H. destruct (m s) as [[a|e1|p] s1] eqn:E; apply Hm in E as ->;
    [by eapply Hf|by injection H as _ <-..].
Qed.
Lemma no_error_ret {A} (a : A) : no_error (mret a).
Proof. by intros s e s' [=]. Qed.
Lemma no_error_modify2 f g : no_error (_ ← modifyM f; modifyM g).
Proof. by intros s e s' [=]. Qed.
Lemma err_quiet_modify f : err_quiet (modifyM f).
Proof. by intros s e s' [=]. Qed.
Lemma err_quiet_CompleteRedelegation d a b : err_quiet (CompleteRedelegation h d a b).
Proof.
  unfold CompleteRedelegation, BondDenom, get_Params.
  apply err_quiet_read; [apply read_only_readM|]. intros o. apply err_quiet_read; [apply read_only_liftM|]. intros red.
  apply err_quiet_read.
  { apply read_only_bind; [apply read_only_bind; [apply read_only_readM|intros; apply read_only_liftM]|]. by intros p s r s' [= _ <-]. }
  intros dn. do 2 (apply err_quiet_read; [apply read_only_liftM|]; intros ?).
  apply err_quiet_last; [|intros; apply no_error_ret].
  case_match; unfold RemoveRedelegation, SetRedelegation; do 3 (apply err_quiet_read; [apply read_only_liftM|]; intros ?);
    apply err_quiet_last; [apply err_quiet_modify|intros; apply no_error_modify2|apply err_quiet_modify|intros; apply no_error_modify2].
Qed.
Lemma complete_triplet_inv xB xN tr s r s' :
  stk_inv denom xB xN (core s) → complete_triplet h tr s = (Ok r, s') → stk_inv denom xB xN (core s').
Proof.
  intros Hi H. unfold complete_triplet in H. do 3 apply GoM_bind_Ok in H as (? & s1 & [_ ->]%liftM_Ok & H).
  apply GoM_bind_Ok in H as (o & s1 & H1 & [= <- <-]). unfold or_continue in H1.
  destruct (CompleteRedelegation _ _ _ _ s) as [[c|e|p] s2] eqn:E; [| |done]; injection H1 as <- <-.
  - by eapply CompleteRedelegation_inv.
  - by apply err_quiet_CompleteRedelegation in E as ->.
Qed.
Lemma complete_pairs_inv xB xN prs s r s' :
  stk_inv denom xB xN (core s) → 0 <= xN → payable denom s → forM_ (complete_pair k h) prs s = (Ok r, s') →
  stk_inv denom xB xN (core s').
Proof.
  intros Hi Hx Hpay H. eapply (forM_keeps (λ s, stk_inv denom xB xN (core s) ∧ payable denom s)) in H as [? _]; [done| |done].
  clear s r s' Hi Hpay H. intros pr s r s' _ [Hi Hpay] H. pose proof H as H'. unfold complete_pair in H'.
  apply GoM_bind_Ok in H' as (a & s1 & [Ha ->]%liftM_Ok & H'). apply GoM_bind_Ok in H' as (d & s1 & [Hd ->]%liftM_Ok & _).
  destruct (complete_pair_total k h denom xB xN pr d a s) as (s1 & H1 & Hi1 & Hp1 & _); [done..|].
  rewrite H in H1. by injection H1 as _ ->.
Qed.

(** What a block does before the payouts; the result is the mature pairs. *)
Definition before_payouts : GoM StakingState (list DVPair) :=
  _ ← ApplyAndReturnValidatorSetUpdates k hooks h;
  _ ← UnbondAllMatureValidators hooks h;
  DequeueAllMatureUBDQueue (h_Time h).
Lemma BlockValidatorUpdates_inv xB xN s u s' prs sp :
  stk_inv denom xB xN (core s) → 0 <= xN → before_payouts s = (Ok prs, sp) → payable denom sp →
  BlockValidatorUpdates k hooks h s = (Ok u, s') → stk_inv denom xB xN (core s').
Proof.
  intros Hi Hx Hb Hpay H. unfold BlockValidatorUpdates, complete_queues in H.
  apply GoM_bind_Ok in H as (ups & s1 & H1 & H). apply GoM_bind_Ok in H as (? & s6 & Hq & H).
  apply GoM_bind_Ok in H as (? & s7 & E7%idle_Purge & [= <- <-]). rewrite E7. clear E7.
  apply GoM_bind_Ok in Hq as (? & s2 & H2 & Hq). apply GoM_bind_Ok in Hq as (prs' & s3 & H3 & Hq).
  unfold before_payouts in Hb. apply GoM_bind_Ok in Hb as (w1 & y1 & B1 & Hb). rewrite H1 in B1. injection B1 as <- <-.
  apply GoM_bind_Ok in Hb as (w2 & y2 & B2 & Hb). rewrite H2 in B2. injection B2 as <- <-. rewrite H3 in Hb. injection Hb as -> ->.
  eapply (ApplyAndReturnValidatorSetUpdates_inv k hooks h denom) in H1; [|exact Hi].
  eapply (UnbondAllMatureValidators_inv hooks h denom) in H2; [|exact H1]. apply idle_DequeueUBD in H3. rewrite <- H3 in H2.
  apply GoM_bind_Ok in Hq as (? & s4 & H4 & Hq). eapply complete_pairs_inv in H4; [|done..].
  apply GoM_bind_Ok in Hq as (trs & s5 & E5%idle_DequeueRed & Hq). rewrite <- E5 in H4.
  eapply (forM_keeps (λ s, stk_inv denom xB xN (core s))) in Hq; [done| |exact H4]. intros; by eapply complete_triplet_inv.
Qed.
End BlockEnd.
