(* ===== verification/StakingTheorems.v ===== *)
(** * Theorems of the staking module *)
From S2P Require Import Prelude Bytes MathInt LegacyDec Coin CoinFacts Collections Account Vesting AuthKeeper AuthProps Bank BankFacts BankProps BankDelegation Validator Staking StakingBank StakingFacts StakingOps StakingSlash StakingPayout StakingBlock StakingMsg StakingProps.

Section Steps.
Context {cfg : CoinConfig} {acfg : AddressConfig} {vcfg : ValAddressConfig}.
Variable k : BaseKeeper.
Variable hooks : StakingHooks.
Variable uri_ok : string → bool.
Variable pubkeyTypes : outcome (option (list string)).
Variable authority : string.
Variable denom : string.

(** What happens to the module: a message of the server, slashing and jailing by
    the evidence and slashing modules, the end of a block, or anything elsewhere in
    the application that leaves the staking stores and the pools alone.  Every step
    has its own block header.  Messages of the pools themselves do not exist (they
    have no key); parameters keep the bond denomination; the fee of a key rotation
    does not go to a pool; at the payouts the delegators have accounts. *)
Inductive stk_step (s : StakingState) : StakingState → Prop :=
| step_create_validator h msg r s' :
    (∀ a, ValStringToBytes (mc_ValidatorAddress msg) = Ok a → staker a) →
    CreateValidator k hooks h uri_ok pubkeyTypes msg s = (Ok r, s') → stk_step s s'
| step_edit_validator h msg r s' : EditValidator hooks h uri_ok msg s = (Ok r, s') → stk_step s s'
| step_delegate h msg r s' :
    (∀ d, StringToBytes (md_DelegatorAddress msg) = Ok d → staker d) →
    Msg_Delegate k hooks h msg s = (Ok r, s') → stk_step s s'
| step_undelegate h msg r s' : Msg_Undelegate k hooks h msg s = (Ok r, s') → stk_step s s'
| step_redelegate h msg r s' : Msg_BeginRedelegate k hooks h msg s = (Ok r, s') → stk_step s s'
| step_cancel h msg r s' : CancelUnbondingDelegation k hooks h msg s = (Ok r, s') → stk_step s s'
| step_update_params h msg r s' :
    p_BondDenom (mp_Params msg) = denom → UpdateParams h authority msg s = (Ok r, s') → stk_step s s'
| step_rotate_key h msg r s' :
    (∀ a coins s r s', on_bank (SendCoinsFromAccountToModule k (Unix h) a PoolModuleName coins) s = (Ok r, s') →
       ValStringToBytes (mr_ValidatorAddress msg) = Ok a → still s s') →
    RotateConsPubKey k h pubkeyTypes msg s = (Ok r, s') → stk_step s s'
| step_slash_validator h cons_string consAddr height power factor r s' :
    Slash k hooks h cons_string consAddr height power factor s = (Ok r, s') → stk_step s s'
| step_jail consAddr r s' : Jail consAddr s = (Ok r, s') → stk_step s s'
| step_unjail consAddr r s' : Unjail consAddr s = (Ok r, s') → stk_step s s'
| step_end_block h prs sp u s' :
    before_payouts k hooks h s = (Ok prs, sp) → payable denom sp → EndBlocker k hooks h s = (Ok u, s') → stk_step s s'
| step_elsewhere s' : still s s' → stk_step s s'.

Lemma stk_step_inv {HR : AddressRoundtrip} {HP : PoolConfig k} {HH : QuietHooks hooks} xB xN s s' :
  stk_step s s' → 0 <= xN → stk_inv denom xB xN (core s) → stk_inv denom xB xN (core s').
Proof.
  intros Hs Hx Hi. destruct Hs.
  - by eapply (CreateValidator_inv k hooks).
  - by eapply (EditValidator_inv hooks).
  - by eapply (Msg_Delegate_inv k hooks).
  - by eapply (Msg_Undelegate_inv k hooks).
  - by eapply (Msg_BeginRedelegate_inv k hooks).
  - by eapply (CancelUnbondingDelegation_inv k hooks).
  - by eapply (UpdateParams_inv _ authority).
  - by eapply (RotateConsPubKey_inv k).
  - by eapply (Slash_inv k hooks).
  - by eapply Jail_inv.
  - by eapply Unjail_inv.
  - by eapply (BlockValidatorUpdates_inv k hooks h).
  - by eapply still_inv.
Qed.
End Steps.

(** C2. The invariant of the staking module.  Start from a state where each
    validator's shares are the shares of its delegations, the bonded pool holds the
    tokens of the bonded validators and the other pool those of all the others and
    of the unbonding delegations, up to a surplus, and the bank's supply is the sum
    of its balances.  After any sequence of messages, slashes, jailings, key
    rotations, parameter changes and ends of blocks the same holds with the same
    surplus: the pools gain and lose exactly what the module owes.  Stakers are
    accounts other than the pools with addresses of 1 to 255 bytes, which the codec
    reads back; at the end of a block every delegator that waits for tokens has a
    stored account, vesting or not ([payable]), without which the payout would lose
    coins ([skipped_completion_loses_supply]); the fee of a key rotation moves no coins
    of the pools. *)
Theorem staking_invariant {cfg : CoinConfig} {acfg : AddressConfig} {vcfg : ValAddressConfig} {HR : AddressRoundtrip}
    (k : BaseKeeper) {HP : PoolConfig k} (hooks : StakingHooks) {HH : QuietHooks hooks}
    uri_ok pubkeyTypes authority denom xB xN s s' :
  stk_inv denom xB xN (core s) → 0 <= xN → rtc (stk_step k hooks uri_ok pubkeyTypes authority denom) s s' →
  stk_inv denom xB xN (core s').
Proof. intros Hi Hx Hs. induction Hs as [s|s s1 s2 H1 _ IH]; [done|]. by eapply IH, stk_step_inv. Qed.

(** ** A chain with one validator *)

#[local] Existing Instance default_config.
#[local] Existing Instance acfg_id.
Definition vcfg_id : ValAddressConfig :=
  {| pk_Address := pk_Bytes; ValStringToBytes := Ok; ValBytesToString := Ok |}.
#[local] Existing Instance vcfg_id.
#[local] Instance roundtrip_id : AddressRoundtrip.
Proof. split; cbn; congruence. Qed.
Definition pool_perms : list string := [Burner; Account.Staking].
Definition stk_keeper : BaseKeeper :=
  mkBaseKeeper
    (mkAccountKeeper {[BondedPoolName := mkPermissionsForAddress pool_perms (address_Module BondedPoolName);
                       NotBondedPoolName := mkPermissionsForAddress pool_perms (address_Module NotBondedPoolName)]} (λ _, false))
    ∅ "gov" None (Some NoOpMintingRestrictionFn).
Definition no_hooks : StakingHooks :=
  mkStakingHooks (λ _, mret tt) (λ _, mret tt) (λ _ _, mret tt) (λ _ _, mret tt) (λ _ _, mret tt) (λ _ _, mret tt)
    (λ _ _, mret tt) (λ _ _, mret tt) (λ _ _, mret tt) (λ _ _, mret tt) (λ _ _ _, mret tt).
#[local] Instance no_hooks_quiet : QuietHooks no_hooks.
Proof. split; intros; match goal with H : _ = (Ok _, _) |- _ => inversion H; subst end; by apply still_core. Qed.
#[local] Instance stk_keeper_pools : PoolConfig stk_keeper.
Proof.
  split.
  - split; [intros from to amt s r s' [= <- <-]|intros amt s r s' [= <- <-]]; done.
  - done.
  - exists pool_perms. do 2 (split; [done|]). solve_address.
  - exists pool_perms. do 2 (split; [done|]). solve_address.
  - done.
  - by intros from to amt s to' s' _ [= <- _].
  - by intros from to amt s r s' [= _ <-].
Qed.
Definition params0 : StakingParams := mkStakingParams 1000 100 7 "stake" 0 (mkCoin "stake" 1).
Definition auth_alice : AuthState :=
  mkAuthState (mkUniqueMap {["alice" := BaseAcc (mkBaseAccount "alice" None 0 0)]} {[0 := "alice"]}) (Some 1) 0.
Definition bank_alice : BankState :=
  mkBankState {["stake" := 9000000]} ∅ ∅
    (mkReversePairMap {[("alice", "stake") := 9000000]} {[("stake", "alice")]}) (Some DefaultParams) auth_alice [].
Definition empty_staking (p : StakingParams) (b : BankState) : StakingState :=
  mkStakingState (Some p) ∅ ∅ ∅ ∅ ∅ ∅ ∅ ∅ ∅ ∅ ∅ ∅ ∅ ∅ ∅ None ∅ ∅ ∅ ∅ b.
Lemma stk0_inv : stk_inv "stake" 0 0 (core (empty_staking params0 bank_alice)).
Proof.
  split; cbn; try (intros; done).
  - by exists params0.
  - apply (bank_inv_sample bank_alice "alice" "stake" 9000000); done || (unfold int_range; lia).
  - intros a acc H. unfold accounts in H. cbn in H. apply lookup_singleton_Some in H as [<- <-]. reflexivity.
Qed.
Definition create_alice : MsgCreateValidator :=
  mkMsgCreateValidator desc0 (mkCommissionRates 0 0 0) 1 "alice"
    (Some (Some (mkPubKey "secp256k1" "alice-key"))) (mkCoin "stake" 5000000).
Definition header0 (t n : Z) : Header := mkHeader t n.
Definition keys_allowed : outcome (option (list string)) := Ok (Some ["secp256k1"]).
(** Alice becomes a validator with a power of 5, is bonded at the end of the block,
    unbonds 2000000, and loses a tenth of her earlier power. *)
Definition stk0 : StakingState := empty_staking params0 bank_alice.
Definition stk1 : StakingState := (CreateValidator stk_keeper no_hooks (header0 10 1) (λ _, true) keys_allowed create_alice stk0).2.
Definition stk2 : StakingState := (EndBlocker stk_keeper no_hooks (header0 10 1) stk1).2.
Definition undelegate_alice : MsgUndelegate := mkMsgUndelegate "alice" "alice" (mkCoin "stake" 2000000).
Definition stk3 : StakingState := (Msg_Undelegate stk_keeper no_hooks (header0 20 2) undelegate_alice stk2).2.
Definition stk4 : StakingState := (Slash stk_keeper no_hooks (header0 30 3) Ok "alice-key" 1 5 (10 ^ 17) stk3).2.

(** The accounts of a delegator and of the pools. *)
Definition pool_account (name : string) (n : Z) : AccountI :=
  ModuleAcc (mkModuleAccount (mkBaseAccount (address_Module name) None n 0) name pool_perms).
Section Pools.
Variable alice : AccountI.
Hypothesis alice_base : base_of alice = mkBaseAccount "alice" None 0 0.
Hypothesis alice_counters : counters_ok alice.
Definition auth_pools : AuthState :=
  mkAuthState
    (mkUniqueMap {["alice" := alice;
                   address_Module NotBondedPoolName := pool_account NotBondedPoolName 1;
                   address_Module BondedPoolName := pool_account BondedPoolName 2]}
                 {[0 := "alice"; 1 := address_Module NotBondedPoolName; 2 := address_Module BondedPoolName]}) (Some 3) 0.
Lemma auth_pools_accounts a acc :
  um_map (Accounts auth_pools) !! a = Some acc ↔
  a = "alice" ∧ acc = alice ∨
  a = address_Module NotBondedPoolName ∧ acc = pool_account NotBondedPoolName 1 ∨
  a = address_Module BondedPoolName ∧ acc = pool_account BondedPoolName 2.
Proof.
  cbn [um_map Accounts auth_pools]. rewrite !lookup_insert_Some, lookup_singleton_Some. split; [naive_solver|].
  intros [[-> ->]|[[-> ->]|[-> ->]]]; [by left|right; split; [done|by left]|right; split; [done|right; done]].
Qed.
Lemma auth_pools_inv : auth_inv auth_pools.
Proof.
  assert (AccountI_GetAddress alice = "alice" ∧ AccountI_GetAccountNumber alice = 0) as [Ha Hn]
    by (unfold AccountI_GetAddress, AccountI_GetAccountNumber; by rewrite alice_base).
  split.
  - intros r pk. setoid_rewrite auth_pools_accounts. cbn [um_refKeys Accounts auth_pools].
    rewrite !lookup_insert_Some, lookup_singleton_Some. split.
    + intros [[<- <-]|[_ [[<- <-]|[_ [<- <-]]]]]; eexists; (split; [by auto|by unfold account_ref_key; rewrite ?Hn]).
    + intros (v & [[-> ->]|[[-> ->]|[-> ->]]] & <-); unfold account_ref_key; rewrite ?Hn;
        [by left|right; split; [done|by left]|right; split; [done|right; done]].
  - intros a acc [[-> ->]|[[-> ->]|[-> ->]]]%auth_pools_accounts; [done|reflexivity..].
  - intros a acc [[-> ->]|[[-> ->]|[-> ->]]]%auth_pools_accounts; [rewrite Hn|..]; vm_compute; split; congruence.
Qed.
Lemma payable_pools s : auth (stk_bank s) = auth_pools →
  (∀ d a u, UnbondingDelegations s !! (d, a) = Some u → d = "alice") → payable "stake" s.
Proof.
  intros Ha Hu. split; [done|rewrite Ha; exact auth_pools_inv|..].
  - exists (mkModuleAccount (mkBaseAccount (address_Module NotBondedPoolName) None 1 0) NotBondedPoolName pool_perms), not_bonded_addr.
    unfold accounts. by rewrite Ha.
  - intros d a u ->%Hu. exists alice, "alice". unfold accounts. by rewrite Ha.
Qed.
End Pools.
Definition alice_plain : AccountI := BaseAcc (mkBaseAccount "alice" None 0 0).
(** A vesting account that delegated 20 of its free and 25 of its vesting coins. *)
Definition alice_vesting : AccountI :=
  VestingAcc (DelayedVA (mkDelayed (mkBaseVestingAccount (mkBaseAccount "alice" None 0 0) [mkCoin "stake" 100] [mkCoin "stake" 20] [mkCoin "stake" 25] 1000))).
Lemma alice_vesting_counters : counters_ok alice_vesting.
Proof. split; apply good_singleton; done || (unfold int_range; lia). Qed.
Lemma alice_is_no_pool : ¬ is_pool "alice".
Proof. intros [[=]|[=]]. Qed.
Lemma alice_stakes : staker "alice".
Proof. split; [exact alice_is_no_pool|solve_address]. Qed.

Lemma staking_invariant_witness :
  rtc (stk_step stk_keeper no_hooks (λ _, true) keys_allowed "gov" "stake") stk0 stk4 ∧
  stk_inv "stake" 0 0 (core stk4) ∧ bal (stk_bank stk4) bonded_addr "stake" = 2700000 ∧
  bal (stk_bank stk4) not_bonded_addr "stake" = 1800000.
Proof.
  assert (rtc (stk_step stk_keeper no_hooks (λ _, true) keys_allowed "gov" "stake") stk0 stk4) as Hsteps.
  { apply rtc_l with stk1; [|apply rtc_l with stk2; [|apply rtc_l with stk3; [|apply rtc_once]]].
    - apply (step_create_validator _ _ _ _ _ _ _ (header0 10 1) create_alice tt).
      + intros a [= <-]. exact alice_stakes.
      + vm_compute. reflexivity.
    - eapply (step_end_block _ _ _ _ _ _ _ (header0 10 1) [] (before_payouts stk_keeper no_hooks (header0 10 1) stk1).2).
      + vm_compute. reflexivity.
      + apply (payable_pools alice_plain eq_refl I); [vm_compute; reflexivity|]. intros d a u H. exfalso. vm_compute in H. discriminate H.
      + vm_compute. reflexivity.
    - eapply (step_undelegate _ _ _ _ _ _ _ (header0 20 2) undelegate_alice). vm_compute. reflexivity.
    - eapply (step_slash_validator _ _ _ _ _ _ _ (header0 30 3) Ok "alice-key" 1 5 (10 ^ 17)). vm_compute. reflexivity. }
  split; [exact Hsteps|]. split; [|vm_compute; done].
  apply (staking_invariant stk_keeper no_hooks (λ _, true) keys_allowed "gov" "stake" 0 0 stk0 stk4 stk0_inv); [lia|exact Hsteps].
Defined.

(** ** Payouts *)

(** C24. Completing an unbonding delegation always succeeds with the invariant, no
    deficit in the pool, a pool that is a module account with the permission to
    unstake, and for every delegator that waits for tokens a stored account, of any
    kind, vesting ones included ([payable]; addresses have 1 to 255 bytes, by the
    invariant).  It returns and pays the delegator exactly the balances of the mature
    entries, out of the pool of tokens that are not bonded, changes no other
    balance, and keeps exactly the entries that are not mature, in their order,
    removing the record with its last entry; the invariant is kept. *)
Theorem complete_unbonding_pays {cfg : CoinConfig} {acfg : AddressConfig} {vcfg : ValAddressConfig} {HR : AddressRoundtrip}
    (k : BaseKeeper) {HP : PoolConfig k} (h : Header) denom xB xN d a u s :
  stk_inv denom xB xN (core s) → 0 <= xN → payable denom s → UnbondingDelegations s !! (d, a) = Some u →
  let paid := entries_balance (matured (h_Time h) (Entries u)) in
  ∃ coins s', CompleteUnbonding k h d a s = (Ok coins, s') ∧ (∀ dn, amount coins dn = at_denom denom paid dn) ∧
    (∀ dn, bal (stk_bank s') d dn = bal (stk_bank s) d dn + at_denom denom paid dn) ∧
    (∀ dn, bal (stk_bank s') not_bonded_addr dn = bal (stk_bank s) not_bonded_addr dn - at_denom denom paid dn) ∧
    (∀ x dn, x ≠ d → x ≠ not_bonded_addr → bal (stk_bank s') x dn = bal (stk_bank s) x dn) ∧
    UnbondingDelegations s' = without_matured h d a u (UnbondingDelegations s) ∧
    stk_inv denom xB xN (core s') ∧ payable denom s'.
Proof.
  intros Hi Hx Hpay Hu paid. destruct (si_ubds _ _ _ _ Hi _ _ _ Hu) as (_ & _ & _ & [[Hnp _] _]).
  assert (not_bonded_addr ≠ d) as Hne by (intros <-; apply Hnp; by right).
  destruct (CompleteUnbonding_total k h denom xB xN d a u s Hi Hx Hpay Hu) as (coins & s' & H & Hc & P & EU & _ & _).
  pose proof (pays_bal _ _ _ _ _ P) as B. exists coins, s'. split; [done|]. split; [done|]. split_and!.
  - intros dn. rewrite B, decide_True, decide_False by done. unfold at_denom. case_decide; lia.
  - intros dn. rewrite B, decide_False, decide_True by done. unfold at_denom. case_decide; lia.
  - intros x dn H1 H2. rewrite B, !decide_False by done. unfold at_denom. case_decide; lia.
  - done.
  - by eapply (CompleteUnbonding_inv k h denom).
  - destruct (settled_without h _ _ _ _ _ Hu EU) as (_ & _ & HK). by eapply payable_pays.
Qed.

(** C25. The payouts at the end of a block: for any list of queued pairs whose
    addresses decode, with the invariant, no deficit, and a stored account, of any
    kind, for every waiting delegator and for the pool ([payable]), the loop runs to
    its end without skipping a completion that has started.  Afterwards no unbonding delegation of the list has a mature
    entry, none that had no mature entry has got one, and the invariant still
    holds. *)
Theorem payouts_complete {cfg : CoinConfig} {acfg : AddressConfig} {vcfg : ValAddressConfig} {HR : AddressRoundtrip}
    (k : BaseKeeper) {HP : PoolConfig k} (h : Header) denom xB xN prs keys s :
  stk_inv denom xB xN (core s) → 0 <= xN → payable denom s → Forall2 pair_key prs keys →
  ∃ s', forM_ (complete_pair k h) prs s = (Ok tt, s') ∧
    Forall (λ key, settled h s' key.1 key.2) keys ∧ (∀ d a, settled h s d a → settled h s' d a) ∧
    stk_inv denom xB xN (core s') ∧ payable denom s'.
Proof.
  intros Hi Hx Hpay HF. destruct (complete_pairs_total k h denom xB xN prs keys Hx HF s Hi Hpay) as (s' & ? & ? & ? & ? & ?).
  by exists s'.
Qed.

(** Alice, who has a vesting account, waits for 10 and 20 tokens, the first of them
    mature at time 5. *)
Definition entries_alice : list UnbondingDelegationEntry := [NewUnbondingDelegationEntry 1 4 10; NewUnbondingDelegationEntry 2 9 20].
Definition bank_pool : BankState :=
  mkBankState {["stake" := 30]} ∅ ∅
    (mkReversePairMap {[(address_Module NotBondedPoolName, "stake") := 30]} {[("stake", address_Module NotBondedPoolName)]})
    (Some DefaultParams) (auth_pools alice_vesting) [].
Definition waiting (b : BankState) : StakingState :=
  with_UnbondingDelegations <[("alice", "val") := mkUnbondingDelegation "alice" "val" entries_alice]> (empty_staking params0 b).
Lemma waiting_inv : stk_inv "stake" 0 0 (core (waiting bank_pool)).
Proof.
  split; cbn; try (intros; done).
  - by exists params0.
  - intros d a u [[= <- <-] <-]%lookup_singleton_Some. split; [done|]. split; [done|]. split; [|split; [exact alice_stakes|solve_address]].
    repeat constructor; cbn; lia.
  - apply (bank_inv_sample bank_pool (address_Module NotBondedPoolName) "stake" 30); done || (unfold int_range; lia).
  - intros a acc H. by apply (ai_address _ (auth_pools_inv alice_vesting eq_refl alice_vesting_counters)).
Qed.
Lemma waiting_payable : payable "stake" (waiting bank_pool).
Proof. apply (payable_pools alice_vesting eq_refl alice_vesting_counters); [done|]. intros d a u H. cbn in H. by apply lookup_singleton_Some in H as [[= <- <-] _]. Qed.
Lemma complete_unbonding_pays_witness :
  ∃ coins s', CompleteUnbonding stk_keeper (header0 5 3) "alice" "val" (waiting bank_pool) = (Ok coins, s') ∧
    bal (stk_bank s') "alice" "stake" = 10 ∧ bal (stk_bank s') not_bonded_addr "stake" = 20.
Proof.
  destruct (complete_unbonding_pays stk_keeper (header0 5 3) "stake" 0 0 "alice" "val" (mkUnbondingDelegation "alice" "val" entries_alice)
              (waiting bank_pool) waiting_inv (Z.le_refl 0) waiting_payable eq_refl) as (coins & s' & H & _ & B1 & B2 & _).
  exists coins, s'. split; [exact H|]. split; [exact (B1 "stake")|exact (B2 "stake")].
Defined.
Lemma payouts_complete_witness :
  ∃ s', forM_ (complete_pair stk_keeper (header0 5 3)) [mkDVPair "alice" "val"; mkDVPair "bob" "val"] (waiting bank_pool) = (Ok tt, s') ∧
    settled (header0 5 3) s' "alice" "val".
Proof.
  destruct (payouts_complete stk_keeper (header0 5 3) "stake" 0 0 [mkDVPair "alice" "val"; mkDVPair "bob" "val"]
              [("alice", "val"); ("bob", "val")] (waiting bank_pool) waiting_inv (Z.le_refl 0) waiting_payable) as (s' & H & HF & _).
  - repeat constructor.
  - exists s'. split; [exact H|]. by apply Forall_cons in HF as [HF _].
Defined.

(** Without an account for the delegator a completion fails after the pool was
    debited; the loop goes on and keeps the debit, and the supply no longer is the
    sum of the balances. *)
Definition bank_no_account : BankState :=
  mkBankState {["stake" := 30]} ∅ ∅
    (mkReversePairMap {[(address_Module NotBondedPoolName, "stake") := 30]} {[("stake", address_Module NotBondedPoolName)]})
    (Some DefaultParams)
    (mkAuthState (mkUniqueMap {[address_Module NotBondedPoolName := pool_account NotBondedPoolName 1]}
                              {[1 := address_Module NotBondedPoolName]}) (Some 3) 0) [].
Theorem skipped_completion_loses_supply :
  let '(r, s') := forM_ (complete_pair stk_keeper (header0 5 3)) [mkDVPair "alice" "val"] (waiting bank_no_account) in
  r = Ok tt ∧ Supply (stk_bank s') !! "stake" = Some 30 ∧ map_to_list (rp_map (Balances (stk_bank s'))) = [((not_bonded_addr, "stake"), 20)] ∧
  UnbondingDelegations s' !! ("alice", "val") = Some (mkUnbondingDelegation "alice" "val" entries_alice).
Proof. vm_compute. done. Qed.

(** ** Reads, validation and descriptions *)

(** [GetUnbondingDelegations] returns blank records in place of the stored ones. *)
Theorem unbonding_delegations_blank :
  ∃ u, (GetUnbondingDelegations "alice" 5 (waiting bank_pool)).1 = Ok [u] ∧ ubd_DelegatorAddress u = "" ∧ Entries u = [].
Proof. eexists. vm_compute. done. Qed.
(** Parameters whose rotation fee is in another denomination make the validation
    panic instead of returning an error. *)
Theorem params_fee_denom_panics : ∃ p, Params_Validate (mkStakingParams 1000 100 7 "stake" 0 (mkCoin "other" 1)) = Panic p.
Proof. eexists. vm_compute. reflexivity. Qed.
(** Keeping the picture of a description without metadata dereferences nil. *)
Theorem keep_picture_without_metadata_panics uri_ok d d2 m :
  Metadata_of d = None → Metadata_of d2 = Some m → ProfilePicUri m = DoNotModifyDesc → ∃ p, UpdateDescription uri_ok d2 d = Panic p.
Proof. intros H1 H2 H3. unfold UpdateDescription. rewrite H2, H3, H1. cbn. eauto. Qed.
