(* ===== verification/Slashing.v ===== *)
(** * The slashing module: x/slashing

    Tracks which blocks each validator signed, in a bitmap over a sliding window of
    heights, and slashes and jails validators that miss too many of them.  Models
    the keeper (infractions.go, signing_info.go, unjail.go, hooks.go, params.go,
    genesis.go, msg_server.go, keeper.go), the begin blocker (abci.go) and the data
    and validation of types.

    The module reaches the staking module through an interface
    (types/expected_keepers.go), the class [SlashingStakingKeeper] here; its state is
    the four collections of the module and the state behind that interface.  A
    chunk of the bitmap is a set of the library bits-and-blooms/bitset, the class
    [BitSet].  Times are nanoseconds, heights [int64]. *)
From S2P Require Import Prelude Bytes MathInt LegacyDec Coin CoinFacts Collections Account Vesting AuthKeeper Bank Validator Staking StakingBlock.

Definition ErrValidatorStillJailed : string := "validator still jailed; cannot be unjailed".
Definition ErrValidatorNotJailed : string := "validator not jailed; cannot be unjailed".
Definition ErrSelfDelegationTooLowToUnjail : string := "validator's self delegation less than minimum; cannot be unjailed".
Definition ErrNoSigningInfoFound : string := "no validator signing info found".
Definition ErrValidatorTombstoned : string := "validator already tombstoned".
Definition ErrInvalidSigner : string := "expected authority account as only signer for proposal message".
Definition ErrInvalidConsPubKey : string := "invalid consensus pubkey".

(** ** Data *)

Record SlashingParams := mkSlashingParams {
  SignedBlocksWindow : Z;
  MinSignedPerWindow : Z;
  DowntimeJailDuration : Z;
  SlashFractionDoubleSign : Z;
  SlashFractionDowntime : Z;
}.
(** The deprecated offset is left out. *)
Record ValidatorSigningInfo := mkSigningInfo {
  si_Address : string;
  StartHeight : Z;
  JailedUntil : Z;
  Tombstoned : bool;
  MissedBlocksCounter : Z;
}.
Definition NewValidatorSigningInfo (consAddr : string) (startHeight jailedUntil : Z) (tombstoned : bool)
    (missedBlocksCounter : Z) : ValidatorSigningInfo :=
  mkSigningInfo consAddr startHeight jailedUntil tombstoned missedBlocksCounter.
Definition set_StartHeight (z : Z) (i : ValidatorSigningInfo) : ValidatorSigningInfo :=
  mkSigningInfo (si_Address i) z (JailedUntil i) (Tombstoned i) (MissedBlocksCounter i).
Definition set_JailedUntil (z : Z) (i : ValidatorSigningInfo) : ValidatorSigningInfo :=
  mkSigningInfo (si_Address i) (StartHeight i) z (Tombstoned i) (MissedBlocksCounter i).
Definition set_Tombstoned (b : bool) (i : ValidatorSigningInfo) : ValidatorSigningInfo :=
  mkSigningInfo (si_Address i) (StartHeight i) (JailedUntil i) b (MissedBlocksCounter i).
Definition set_MissedBlocksCounter (z : Z) (i : ValidatorSigningInfo) : ValidatorSigningInfo :=
  mkSigningInfo (si_Address i) (StartHeight i) (JailedUntil i) (Tombstoned i) z.
Definition set_si_Address (a : string) (i : ValidatorSigningInfo) : ValidatorSigningInfo :=
  mkSigningInfo a (StartHeight i) (JailedUntil i) (Tombstoned i) (MissedBlocksCounter i).

Inductive BlockIDFlag := BlockIDFlagUnknown | BlockIDFlagAbsent | BlockIDFlagCommit | BlockIDFlagNil.
Definition is_absent (f : BlockIDFlag) : bool := match f with BlockIDFlagAbsent => true | _ => false end.
Record VoteInfo := mkVoteInfo { vote_Address : string; vote_Power : Z; vote_BlockIDFlag : BlockIDFlag }.

(** ** Parameters: types/params.go *)

Definition validateSignedBlocksWindow (v : Z) : outcome unit := guard_err (v <=? 0) "signed blocks window must be positive".
(** The checks of the three fractions differ only in the message. *)
Definition validate_fraction (name : string) (v : Z) : outcome unit :=
  _ ← guard_err (Dec_IsNegative v) (name +:+ " cannot be negative");
  guard_err (Dec_GT v LegacyOneDec) (name +:+ " too large").
Definition validateDowntimeJailDuration (v : Z) : outcome unit := guard_err (v <=? 0) "downtime jail duration must be positive".
Definition SlashingParams_Validate (p : SlashingParams) : outcome unit :=
  _ ← validateSignedBlocksWindow (SignedBlocksWindow p);
  _ ← validate_fraction "min signed per window" (MinSignedPerWindow p);
  _ ← validateDowntimeJailDuration (DowntimeJailDuration p);
  _ ← validate_fraction "double sign slash fraction" (SlashFractionDoubleSign p);
  validate_fraction "downtime slash fraction" (SlashFractionDowntime p).
Definition MinSignedPerWindowInt (p : SlashingParams) : outcome Z :=
  m ← Dec_MulInt64 (MinSignedPerWindow p) (SignedBlocksWindow p);
  Dec_RoundInt64 m.

(** ** Interfaces *)

(** bits-and-blooms/bitset: the calls of the source. *)
Class BitSet := {
  bitset : Type;
  bs_New : Z → bitset;
  bs_Test : bitset → Z → bool;
  bs_Set : bitset → Z → bitset;
  bs_Clear : bitset → Z → bitset;
  bs_MarshalBinary : bitset → outcome string;
  bs_UnmarshalBinary : string → outcome bitset;
}.

(** types/expected_keepers.go, the methods the module calls.  The header of the
    block is in the context the methods are given; [IterateValidators] is the list
    its callback sees. *)
Class SlashingStakingKeeper (S : Type) := {
  sk_Validator : string → GoM S Validator;
  sk_ValidatorByConsAddr : string → GoM S Validator;
  sk_Delegation : string → string → GoM S Delegation;
  sk_IterateValidators : GoM S (list Validator);
  sk_SlashWithInfractionReason : Header → string → Z → Z → Z → GoM S Z;
  sk_Jail : string → GoM S unit;
  sk_Unjail : string → GoM S unit;
  sk_ValidatorIdentifier : string → GoM S (option string);
}.

(** The codec of consensus addresses. *)
Class ConsAddressConfig := {
  ConsBytesToString : string → outcome string;
  ConsStringToBytes : string → outcome string;
}.

(** The keeper of [Staking] behind the interface. *)
Section StakingInstance.
Context {cfg : CoinConfig} {acfg : AddressConfig} {vcfg : ValAddressConfig} {ccfg : ConsAddressConfig}.
Definition staking_keeper (bk : BaseKeeper) (hooks : StakingHooks) : SlashingStakingKeeper StakingState := {|
  sk_Validator := GetValidator;
  sk_ValidatorByConsAddr := GetValidatorByConsAddr;
  sk_Delegation delAddr valAddr :=
    d ← readM (λ s, Delegations s !! (delAddr, valAddr));
    liftM (match d with Some d => Ok d | None => Err ErrNotFound end);
  sk_IterateValidators :=
    readM (λ s, map snd (merge_sort (λ x y : string * Validator, prefixed_le x.1 y.1) (map_to_list (Validators s))));
  sk_SlashWithInfractionReason h consAddr infractionHeight power slashFactor :=
    Slash bk hooks h ConsBytesToString consAddr infractionHeight power slashFactor;
  sk_Jail := Jail;
  sk_Unjail := Unjail;
  sk_ValidatorIdentifier := ValidatorIdentifier;
|}.
End StakingInstance.

(** ** State *)

Section SlashingKeeper.
Context {S : Type} {sk : SlashingStakingKeeper S} {bitlib : BitSet} {vcfg : ValAddressConfig} {ccfg : ConsAddressConfig}.

Record SlashingState := mkSlashingState {
  sl_Params : option SlashingParams;
  SigningInfos : gmap string ValidatorSigningInfo;
  AddrPubkeyRelation : gmap string PubKey;
  ValidatorMissedBlockBitmap : gmap (string * Z) string;
  sl_staking : S;
}.
Definition with_sl_Params (p : SlashingParams) (s : SlashingState) : SlashingState :=
  mkSlashingState (Some p) (SigningInfos s) (AddrPubkeyRelation s) (ValidatorMissedBlockBitmap s) (sl_staking s).
Definition with_SigningInfos (f : gmap string ValidatorSigningInfo → gmap string ValidatorSigningInfo) (s : SlashingState)
    : SlashingState :=
  mkSlashingState (sl_Params s) (f (SigningInfos s)) (AddrPubkeyRelation s) (ValidatorMissedBlockBitmap s) (sl_staking s).
Definition with_AddrPubkeyRelation (f : gmap string PubKey → gmap string PubKey) (s : SlashingState) : SlashingState :=
  mkSlashingState (sl_Params s) (SigningInfos s) (f (AddrPubkeyRelation s)) (ValidatorMissedBlockBitmap s) (sl_staking s).
Definition with_Bitmap (f : gmap (string * Z) string → gmap (string * Z) string) (s : SlashingState) : SlashingState :=
  mkSlashingState (sl_Params s) (SigningInfos s) (AddrPubkeyRelation s) (f (ValidatorMissedBlockBitmap s)) (sl_staking s).
Definition with_staking (x : S) (s : SlashingState) : SlashingState :=
  mkSlashingState (sl_Params s) (SigningInfos s) (AddrPubkeyRelation s) (ValidatorMissedBlockBitmap s) x.

(** A call to the staking keeper. *)
Definition on_staking {A} (m : GoM S A) : GoM SlashingState A :=
  λ s, let '(r, x) := m (sl_staking s) in (r, with_staking x s).

(** ** keeper/params.go *)

Definition get_sl_Params : GoM SlashingState SlashingParams :=
  p ← readM sl_Params; liftM (match p with Some p => Ok p | None => Err ErrNotFound end).
Definition get_DowntimeJailDuration : GoM SlashingState Z := p ← get_sl_Params; mret (DowntimeJailDuration p).
Definition get_SlashFractionDoubleSign : GoM SlashingState Z := p ← get_sl_Params; mret (SlashFractionDoubleSign p).
Definition get_SlashFractionDowntime : GoM SlashingState Z := p ← get_sl_Params; mret (SlashFractionDowntime p).

(** ** keeper/signing_info.go *)

Definition get_SigningInfo (consAddr : string) : GoM SlashingState ValidatorSigningInfo :=
  i ← readM (λ s, SigningInfos s !! consAddr); liftM (match i with Some i => Ok i | None => Err ErrNotFound end).
Definition set_SigningInfo (consAddr : string) (i : ValidatorSigningInfo) : GoM SlashingState unit :=
  modifyM (with_SigningInfos <[consAddr := i]>).
Definition HasValidatorSigningInfo (consAddr : string) : GoM SlashingState bool :=
  readM (λ s, bool_decide (is_Some (SigningInfos s !! consAddr))).
Definition JailUntil (consAddr : string) (jailTime : Z) : GoM SlashingState unit :=
  i ← readM (λ s, SigningInfos s !! consAddr);
  match i with
  | None => errM ErrNoSigningInfoFound
  | Some signInfo => set_SigningInfo consAddr (set_JailedUntil jailTime signInfo)
  end.
Definition Tombstone (consAddr : string) : GoM SlashingState unit :=
  i ← readM (λ s, SigningInfos s !! consAddr);
  match i with
  | None => errM ErrNoSigningInfoFound
  | Some signInfo =>
      _ ← liftM (guard_err (Tombstoned signInfo) ErrValidatorTombstoned);
      set_SigningInfo consAddr (set_Tombstoned true signInfo)
  end.
Definition IsTombstoned (consAddr : string) : GoM SlashingState bool :=
  readM (λ s, match SigningInfos s !! consAddr with Some i => Tombstoned i | None => false end).

Definition MissedBlockBitmapChunkSize : Z := 1024.
Definition getPreviousConsKey (addr : string) : GoM SlashingState string :=
  oldPk ← on_staking (sk_ValidatorIdentifier addr);
  mret (default addr oldPk).
Definition getMissedBlockBitmapChunk (addr : string) (chunkIndex : Z) : GoM SlashingState (option string) :=
  readM (λ s, ValidatorMissedBlockBitmap s !! (addr, wrap_uint64 chunkIndex)).
Definition SetMissedBlockBitmapChunk (addr : string) (chunkIndex : Z) (chunk : string) : GoM SlashingState unit :=
  modifyM (with_Bitmap <[(addr, wrap_uint64 chunkIndex) := chunk]>).
(** The chunk, decoded; a new set where there is none. *)
Definition load_chunk (addr : string) (chunkIndex : Z) : GoM SlashingState bitset :=
  chunk ← getMissedBlockBitmapChunk addr chunkIndex;
  match chunk with
  | Some c => liftM (bs_UnmarshalBinary c)
  | None => mret (bs_New MissedBlockBitmapChunkSize)
  end.
Definition GetMissedBlockBitmapValue (addr : string) (index : Z) : GoM SlashingState bool :=
  addr ← getPreviousConsKey addr;
  bs ← load_chunk addr (Z.quot index MissedBlockBitmapChunkSize);
  mret (bs_Test bs (wrap_uint64 (Z.rem index MissedBlockBitmapChunkSize))).
Definition SetMissedBlockBitmapValue (addr : string) (index : Z) (missed : bool) : GoM SlashingState unit :=
  addr ← getPreviousConsKey addr;
  let chunkIndex := Z.quot index MissedBlockBitmapChunkSize in
  bs ← load_chunk addr chunkIndex;
  let bitIndex := wrap_uint64 (Z.rem index MissedBlockBitmapChunkSize) in
  let bs := if missed then bs_Set bs bitIndex else bs_Clear bs bitIndex in
  updatedChunk ← liftM (bs_MarshalBinary bs);
  SetMissedBlockBitmapChunk addr chunkIndex updatedChunk.
Definition DeleteMissedBlockBitmap (addr : string) : GoM SlashingState unit :=
  addr ← getPreviousConsKey addr;
  modifyM (with_Bitmap (filter (λ kv : (string * Z) * string, kv.1.1 ≠ addr))).

(** The chunks of an address in the order of their index. *)
Definition chunks_of (addr : string) (m : gmap (string * Z) string) : list (Z * string) :=
  merge_sort (λ x y : Z * string, x.1 <= y.1)
    (omap (λ '((a, i), c), if str_eq a addr then Some (i, c) else None) (map_to_list m)).
(** The loop over the bits of a chunk from bit [i] on, [n] bits left; the callback
    returns its new state and whether to stop.  The index counts the bits seen. *)
Fixpoint iterate_chunk {A} (cb : A → Z → bool → A * bool) (bs : bitset) (n : nat) (i index : Z) (acc : A) : A * Z :=
  match n with
  | O => (acc, index)
  | Datatypes.S n =>
      let '(acc, stop) := cb acc index (bs_Test bs i) in
      if stop then (acc, index) else iterate_chunk cb bs n (i + 1) (index + 1) acc
  end.
Definition IterateMissedBlockBitmap {A} (addr : string) (cb : A → Z → bool → A * bool) (acc : A) : GoM SlashingState A :=
  chunks ← readM (λ s, chunks_of addr (ValidatorMissedBlockBitmap s));
  res ← liftM (foldM (λ '(acc, index) kv,
      bs ← bs_UnmarshalBinary kv.2;
      Ok (iterate_chunk cb bs (Z.to_nat MissedBlockBitmapChunkSize) 0 index acc)) (acc, 0) chunks);
  mret res.1.
Record MissedBlock := mkMissedBlock { mb_Index : Z; mb_Missed : bool }.
Definition NewMissedBlock (index : Z) (missed : bool) : MissedBlock := mkMissedBlock index missed.
Definition GetValidatorMissedBlocks (addr : string) : GoM SlashingState (list MissedBlock) :=
  _ ← get_sl_Params;
  IterateMissedBlockBitmap addr
    (λ missedBlocks index missed, (if missed then missedBlocks ++ [NewMissedBlock index missed] else missedBlocks, false)) [].
Definition performConsensusPubKeyUpdate (oldPubKey newPubKey : PubKey) : GoM SlashingState unit :=
  _ ← modifyM (with_AddrPubkeyRelation <[pk_Address newPubKey := newPubKey]>);
  i ← readM (λ s, SigningInfos s !! pk_Address oldPubKey);
  match i with
  | None => errM ErrInvalidConsPubKey
  | Some signingInfo =>
      consAddr ← liftM (ConsBytesToString (pk_Address newPubKey));
      _ ← set_SigningInfo (pk_Address newPubKey) (set_si_Address consAddr signingInfo);
      modifyM (with_SigningInfos (delete (pk_Address oldPubKey)))
  end.

(** ** keeper/keeper.go *)

Definition GetPubkey (a : string) : GoM SlashingState PubKey :=
  p ← readM (λ s, AddrPubkeyRelation s !! a); liftM (match p with Some p => Ok p | None => Err ErrNotFound end).
Definition Keeper_SlashWithInfractionReason (h : Header) (consAddr : string) (fraction power distributionHeight : Z)
    : GoM SlashingState unit :=
  _ ← on_staking (sk_SlashWithInfractionReason h consAddr distributionHeight power fraction);
  _ ← liftM (ConsBytesToString consAddr);
  mret tt.
Definition Keeper_Jail (consAddr : string) : GoM SlashingState unit :=
  _ ← on_staking (sk_Jail consAddr);
  _ ← liftM (ConsBytesToString consAddr);
  mret tt.

(** ** keeper/infractions.go *)

(** [sdk.ValidatorUpdateDelay] of types/staking.go. *)
Definition ValidatorUpdateDelay : Z := 1.
(** The operator [%] on [int64]. *)
Definition int64_rem (a b : Z) : outcome Z :=
  if b =? 0 then Panic "runtime error: integer divide by zero" else Ok (Z.rem a b).

(** The bit of the height and the counter; the flag says whether the record was
    changed. *)
Definition record_vote (consAddr : string) (index : Z) (missed : bool) (signInfo : ValidatorSigningInfo)
    : GoM SlashingState (ValidatorSigningInfo * bool) :=
  previous ← GetMissedBlockBitmapValue consAddr index;
  if negb previous && missed then
    _ ← SetMissedBlockBitmapValue consAddr index true;
    mret (set_MissedBlocksCounter (wrap_int64 (MissedBlocksCounter signInfo + 1)) signInfo, true)
  else if previous && negb missed then
    _ ← SetMissedBlockBitmapValue consAddr index false;
    mret (set_MissedBlocksCounter (wrap_int64 (MissedBlocksCounter signInfo - 1)) signInfo, true)
  else mret (signInfo, false).
(** Slashing and jailing for downtime. *)
Definition punish_downtime (h : Header) (consAddr : string) (power : Z) (signInfo : ValidatorSigningInfo) : GoM SlashingState unit :=
  let distributionHeight := wrap_int64 (h_Height h - ValidatorUpdateDelay - 1) in
  slashFractionDowntime ← get_SlashFractionDowntime;
  coinsBurned ← on_staking (sk_SlashWithInfractionReason h consAddr distributionHeight power slashFractionDowntime);
  _ ← on_staking (sk_Jail consAddr);
  downtimeJailDur ← get_DowntimeJailDuration;
  let signInfo := set_MissedBlocksCounter 0 (set_JailedUntil (h_Time h + downtimeJailDur) signInfo) in
  _ ← DeleteMissedBlockBitmap consAddr;
  set_SigningInfo consAddr signInfo.
Definition HandleValidatorSignatureWithParams (h : Header) (params : SlashingParams) (addr : string) (power : Z)
    (signed : BlockIDFlag) : GoM SlashingState unit :=
  let height := h_Height h in
  val ← on_staking (sk_ValidatorByConsAddr addr);
  if Jailed val then mret tt else
  consAddr ← liftM (GetConsAddr val);
  signInfo ← get_SigningInfo consAddr;
  let signedBlocksWindow := SignedBlocksWindow params in
  index ← liftM (int64_rem (wrap_int64 (height - StartHeight signInfo)) signedBlocksWindow);
  _ ← liftM (guard_err (height <? StartHeight signInfo) "invalid state: start height greater than the current height");
  let missed := is_absent signed in
  '(signInfo, modifiedSignInfo) ← record_vote consAddr index missed signInfo;
  minSignedPerWindow ← liftM (MinSignedPerWindowInt params);
  _ ← liftM (ConsBytesToString consAddr);
  let minHeight := wrap_int64 (StartHeight signInfo + signedBlocksWindow) in
  let maxMissed := wrap_int64 (signedBlocksWindow - minSignedPerWindow) in
  if (minHeight <? height) && (maxMissed <? MissedBlocksCounter signInfo) then punish_downtime h consAddr power signInfo
  else if (modifiedSignInfo : bool) then set_SigningInfo consAddr signInfo
  else mret tt.
Definition HandleValidatorSignature (h : Header) (addr : string) (power : Z) (signed : BlockIDFlag) : GoM SlashingState unit :=
  params ← get_sl_Params; HandleValidatorSignatureWithParams h params addr power signed.

(** ** abci.go *)

Definition BeginBlocker (h : Header) (votes : list VoteInfo) : GoM SlashingState unit :=
  params ← get_sl_Params;
  forM_ (λ vote, HandleValidatorSignatureWithParams h params (vote_Address vote) (vote_Power vote) (vote_BlockIDFlag vote)) votes.

(** ** keeper/unjail.go *)

(** The validator and the delegation that were found are not nil. *)
Definition Keeper_Unjail (h : Header) (validatorAddr : string) : GoM SlashingState unit :=
  validator ← on_staking (sk_Validator validatorAddr);
  selfDel ← on_staking (sk_Delegation validatorAddr validatorAddr);
  dec ← liftM (TokensFromShares (Shares selfDel) validator);
  tokens ← liftM (Dec_TruncateInt dec);
  _ ← liftM (guard_err (Int_LT tokens (MinSelfDelegation validator)) ErrSelfDelegationTooLowToUnjail);
  _ ← liftM (guard_err (negb (Jailed validator)) ErrValidatorNotJailed);
  consAddr ← liftM (GetConsAddr validator);
  info ← readM (λ s, SigningInfos s !! consAddr);
  _ ← liftM (match info with
             | Some info =>
                 _ ← guard_err (Tombstoned info) ErrValidatorStillJailed;
                 guard_err (h_Time h <? JailedUntil info) ErrValidatorStillJailed
             | None => Ok tt
             end);
  on_staking (sk_Unjail consAddr).

(** ** keeper/hooks.go: the hooks with an effect *)

Definition Hooks_AfterValidatorBonded (h : Header) (consAddr : string) : GoM SlashingState unit :=
  i ← readM (λ s, SigningInfos s !! consAddr);
  signingInfo ← (match i with
                 | Some signingInfo => mret (set_StartHeight (h_Height h) signingInfo)
                 | None =>
                     consStr ← liftM (ConsBytesToString consAddr);
                     mret (NewValidatorSigningInfo consStr (h_Height h) 0 false 0)
                 end);
  set_SigningInfo consAddr signingInfo.
Definition Hooks_AfterValidatorRemoved (consAddr : string) : GoM SlashingState unit :=
  modifyM (with_AddrPubkeyRelation (delete consAddr)).
Definition Hooks_AfterValidatorCreated (valAddr : string) : GoM SlashingState unit :=
  validator ← on_staking (sk_Validator valAddr);
  consPk ← liftM (cached (ConsensusPubkey validator));
  modifyM (with_AddrPubkeyRelation <[pk_Address consPk := consPk]>).
Definition Hooks_AfterConsensusPubKeyUpdate (oldPubKey newPubKey : PubKey) : GoM SlashingState unit :=
  _ ← performConsensusPubKeyUpdate oldPubKey newPubKey;
  modifyM (with_AddrPubkeyRelation (delete (pk_Address oldPubKey))).

(** ** keeper/msg_server.go *)

Definition Slashing_UpdateParams (authority : string) (msg_Authority : string) (params : SlashingParams) : GoM SlashingState unit :=
  _ ← liftM (guard_err (negb (str_eq authority msg_Authority)) ErrInvalidSigner);
  _ ← liftM (SlashingParams_Validate params);
  modifyM (with_sl_Params params).
Definition ErrInvalidAddress : string := "invalid address".
Definition Msg_Unjail (h : Header) (msg_ValidatorAddr : string) : GoM SlashingState unit :=
  valAddr ← liftM (match ValStringToBytes msg_ValidatorAddr with Err _ => Err ErrInvalidAddress | r => r end);
  Keeper_Unjail h valAddr.

(** ** keeper/genesis.go and types/genesis.go *)

Record SlashingGenesis := mkSlashingGenesis {
  gs_Params : SlashingParams;
  gs_SigningInfos : list (string * ValidatorSigningInfo);
  gs_MissedBlocks : list (string * list MissedBlock);
}.
Definition ValidateGenesis (data : SlashingGenesis) : outcome unit :=
  let p := gs_Params data in
  let bad d := Dec_IsNegative d || Dec_GT d LegacyOneDec in
  _ ← guard_err (bad (SlashFractionDowntime p)) "slashing fraction downtime should be less than or equal to one and greater than zero";
  _ ← guard_err (bad (SlashFractionDoubleSign p)) "slashing fraction double sign should be less than or equal to one and greater than zero";
  _ ← guard_err (bad (MinSignedPerWindow p)) "min signed per window should be less than or equal to one and greater than zero";
  _ ← guard_err (DowntimeJailDuration p <? 60 * 10 ^ 9) "downtime unjail duration must be at least 1 minute";
  guard_err (SignedBlocksWindow p <? 10) "signed blocks window must be at least 10".
Definition Slashing_InitGenesis (data : SlashingGenesis) : GoM SlashingState unit :=
  validators ← on_staking sk_IterateValidators;
  _ ← forM_ (λ validator : Validator,
        consPk ← liftM (cached (ConsensusPubkey validator));
        modifyM (with_AddrPubkeyRelation <[pk_Address consPk := consPk]>)) validators;
  _ ← forM_ (λ info : string * ValidatorSigningInfo,
        address ← liftM (ConsStringToBytes info.1);
        set_SigningInfo address info.2) (gs_SigningInfos data);
  _ ← forM_ (λ array : string * list MissedBlock,
        address ← liftM (ConsStringToBytes array.1);
        forM_ (λ missed, SetMissedBlockBitmapValue address (mb_Index missed) (mb_Missed missed)) array.2) (gs_MissedBlocks data);
  modifyM (with_sl_Params (gs_Params data)).
Definition Slashing_ExportGenesis : GoM SlashingState SlashingGenesis :=
  params ← get_sl_Params;
  infos ← readM (λ s, merge_sort (λ x y : string * ValidatorSigningInfo, prefixed_le x.1 y.1) (map_to_list (SigningInfos s)));
  lists ← traverse (λ kv : string * ValidatorSigningInfo,
      bechAddr ← liftM (ConsBytesToString kv.1);
      localMissedBlocks ← GetValidatorMissedBlocks kv.1;
      mret ((bechAddr, kv.2), (bechAddr, localMissedBlocks))) infos;
  mret (mkSlashingGenesis params (map fst lists) (map snd lists)).
End SlashingKeeper.
#[global] Arguments SlashingState : clear implicits.
