(* ===== verification/Hoare.v ===== *)
(** * Postconditions of stateful computations

    [wlp m Q s]: if [m] started in [s] succeeds, then its result and state satisfy
    [Q]; failures satisfy every postcondition, as a failing operation is rolled back
    by its caller.  [wp m Q s]: [m] started in [s] succeeds and [Q] holds.  The rules
    follow the structure of a program; the tactics [wlp] and [wp] apply them. *)
From S2P Require Import Prelude.

Section Rules.
Context {S : Type}.

Definition wlp {A} (m : GoM S A) (Q : A → S → Prop) (s : S) : Prop := ∀ r s', m s = (Ok r, s') → Q r s'.
Definition wp {A} (m : GoM S A) (Q : A → S → Prop) (s : S) : Prop := ∃ r s', m s = (Ok r, s') ∧ Q r s'.

Lemma wlp_run {A} (m : GoM S A) Q s r s' : m s = (Ok r, s') → wlp m Q s → Q r s'.
Proof. intros H HQ. by apply HQ. Qed.
Lemma wlp_mono {A} (m : GoM S A) (P Q : A → S → Prop) s : wlp m P s → (∀ r s', P r s' → Q r s') → wlp m Q s.
Proof. intros H HPQ r s' E. by apply HPQ, H. Qed.
Lemma wlp_ret {A} (a : A) (Q : A → S → Prop) s : Q a s → wlp (mret a) Q s.
Proof. intros H r s' [= <- <-]. done. Qed.
Lemma wlp_bind {A B} (m : GoM S A) (k : A → GoM S B) Q s : wlp m (λ a, wlp (k a) Q) s → wlp (m ≫= k) Q s.
Proof. intros H r s' (a & s1 & H1 & H2)%GoM_bind_Ok. by apply (H a s1). Qed.
Lemma wlp_liftM {A} (m : outcome A) (Q : A → S → Prop) s : (∀ a, m = Ok a → Q a s) → wlp (liftM m) Q s.
Proof. intros H r s' [H1 ->]%liftM_Ok. by apply H. Qed.
Lemma wlp_readM {A} (f : S → A) (Q : A → S → Prop) s : Q (f s) s → wlp (readM f) Q s.
Proof. intros H r s' [= <- <-]. done. Qed.
Lemma wlp_modifyM f (Q : unit → S → Prop) s : Q tt (f s) → wlp (modifyM f) Q s.
Proof. intros H r s' [= <- <-]. done. Qed.
Lemma wlp_errM {A} e (Q : A → S → Prop) s : wlp (errM e) Q s.
Proof. intros r s' [=]. Qed.
Lemma wlp_panicM {A} e (Q : A → S → Prop) s : wlp (panicM e) Q s.
Proof. intros r s' [=]. Qed.
Lemma wlp_foldM {A B} (f : B → A → GoM S B) (I : B → S → Prop) l : (∀ b x s, x ∈ l → I b s → wlp (f b x) I s) →
  ∀ b s, I b s → wlp (foldM f b l) I s.
Proof.
  induction l as [|x l IH]; intros Hf b s HI; [by apply wlp_ret|]. cbn [foldM]. apply wlp_bind.
  eapply wlp_mono; [apply Hf; [by left|done]|]. intros b' s' HI'. apply IH; [|done]. intros b2 y s2 Hy. apply Hf. by right.
Qed.
Lemma wlp_forM {A} (f : A → GoM S unit) (I : S → Prop) l : (∀ x s, x ∈ l → I s → wlp (f x) (λ _, I) s) →
  ∀ s, I s → wlp (forM_ f l) (λ _, I) s.
Proof.
  induction l as [|x l IH]; intros Hf s HI; [by apply wlp_ret|]. cbn [forM_]. apply wlp_bind.
  eapply wlp_mono; [apply Hf; [by left|done]|]. intros u s' HI'. apply IH; [|done]. intros y s2 Hy. apply Hf. by right.
Qed.

Lemma wp_mono {A} (m : GoM S A) (P Q : A → S → Prop) s : wp m P s → (∀ r s', P r s' → Q r s') → wp m Q s.
Proof. intros (r & s' & E & H) HPQ. exists r, s'. eauto. Qed.
Lemma wp_ret {A} (a : A) (Q : A → S → Prop) s : Q a s → wp (mret a) Q s.
Proof. intros H. by exists a, s. Qed.
Lemma wp_bind {A B} (m : GoM S A) (k : A → GoM S B) Q s : wp m (λ a, wp (k a) Q) s → wp (m ≫= k) Q s.
Proof. intros (a & s1 & H1 & r & s' & H2 & H). exists r, s'. split; [|done]. by rewrite (GoM_bind_run _ _ _ _ _ H1). Qed.
Lemma wp_liftM {A} (m : outcome A) a (Q : A → S → Prop) s : m = Ok a → Q a s → wp (liftM m) Q s.
Proof. intros -> H. by exists a, s. Qed.
Lemma wp_readM {A} (f : S → A) (Q : A → S → Prop) s : Q (f s) s → wp (readM f) Q s.
Proof. intros H. by exists (f s), s. Qed.
Lemma wp_modifyM f (Q : unit → S → Prop) s : Q tt (f s) → wp (modifyM f) Q s.
Proof. intros H. by exists tt, (f s). Qed.
Lemma wp_foldM {A B} (f : B → A → GoM S B) (I : list A → B → S → Prop) l :
  (∀ x l' b s, I (x :: l') b s → wp (f b x) (I l') s) → ∀ b s, I l b s → wp (foldM f b l) (I []) s.
Proof.
  intros Hf. induction l as [|x l IH]; intros b s HI; [by apply wp_ret|]. cbn [foldM]. apply wp_bind.
  eapply wp_mono; [by apply Hf|]. intros b' s' HI'. by apply IH.
Qed.
End Rules.

(** One step of the program; a call is left for its lemma. *)
Ltac wlp_step :=
  lazymatch goal with
  | |- wlp (mbind _ _) _ _ => apply wlp_bind
  | |- wlp (mret _) _ _ => apply wlp_ret
  | |- wlp (liftM _) _ _ => let E := fresh "E" in apply wlp_liftM; intros ? E
  | |- wlp (readM _) _ _ => apply wlp_readM
  | |- wlp (modifyM _) _ _ => apply wlp_modifyM
  | |- wlp (errM _) _ _ => apply wlp_errM
  | |- wlp (panicM _) _ _ => apply wlp_panicM
  | |- wlp (let '(_, _) := ?x in _) _ _ => destruct x eqn:?
  | |- wlp (if ?b then _ else _) _ _ => destruct b eqn:?
  | |- wlp (match ?o with Some _ => _ | None => _ end) _ _ => destruct o eqn:?
  end.
Ltac wlp := repeat (wlp_step; cbv beta).
(** Applies the lemma of a called operation. *)
Ltac wlp_call H := eapply wlp_mono; [H|cbv beta].

(** ** Frames: relations that computations keep

    [frame R m] says that the state after [m], however it ends, is related to the
    state before by the preorder [R]; with [R] the equality of some field, that [m]
    does not write the field.  The rules compose it along the structure of a
    program; the tactic [frame] applies them, with the lemmas of called operations
    in the hint database [frame]. *)

Create HintDb frame.

Section Frame.
Context {S : Type} (R : S → S → Prop) `{!PreOrder R}.

Definition frame {A} (m : GoM S A) : Prop := ∀ s, R s (m s).2.

Lemma frame_ret {A} (a : A) : frame (mret a).
Proof. intros s. reflexivity. Qed.
Lemma frame_liftM {A} (m : outcome A) : frame (liftM m).
Proof. intros s. reflexivity. Qed.
Lemma frame_readM {A} (f : S → A) : frame (readM f).
Proof. intros s. reflexivity. Qed.
Lemma frame_errM {A} e : frame (errM (A := A) e).
Proof. intros s. reflexivity. Qed.
Lemma frame_panicM {A} e : frame (panicM (A := A) e).
Proof. intros s. reflexivity. Qed.
Lemma frame_modifyM f : (∀ s, R s (f s)) → frame (modifyM f).
Proof. intros H s. apply H. Qed.
Lemma frame_bind {A B} (m : GoM S A) (k : A → GoM S B) : frame m → (∀ a, frame (k a)) → frame (m ≫= k).
Proof.
  intros Hm Hk s. unfold mbind, GoM_bind. specialize (Hm s). destruct (m s) as [[a|e|p] s1]; cbn in *; [|done..].
  by transitivity s1; [|apply Hk].
Qed.
Lemma frame_forM {A} (f : A → GoM S unit) l : (∀ x, frame (f x)) → frame (forM_ f l).
Proof. intros H. induction l; [apply frame_ret|]. by apply frame_bind. Qed.
Lemma frame_foldM {A B} (f : B → A → GoM S B) l : (∀ b x, frame (f b x)) → ∀ b, frame (foldM f b l).
Proof. intros H. induction l; intros b; [apply frame_ret|]. by apply frame_bind. Qed.
Lemma frame_traverse {A B} (f : A → GoM S B) l : (∀ x, frame (f x)) → frame (traverse f l).
Proof.
  intros H. induction l; [apply frame_ret|]. apply frame_bind; [done|]. intros b. apply frame_bind; [done|].
  intros bs. apply frame_ret.
Qed.
Lemma frame_run {A} (m : GoM S A) s r s' : frame m → m s = (r, s') → R s s'.
Proof. intros H E. specialize (H s). by rewrite E in H. Qed.
End Frame.

Ltac frame_step :=
  match goal with
  | |- frame _ (mbind _ _) => apply frame_bind
  | |- frame _ (mret _) => apply frame_ret
  | |- frame _ (liftM _) => apply frame_liftM
  | |- frame _ (readM _) => apply frame_readM
  | |- frame _ (errM _) => apply frame_errM
  | |- frame _ (panicM _) => apply frame_panicM
  | |- frame _ (modifyM _) => apply frame_modifyM; intros []; solve [done | cbn; eauto with frame]
  | |- frame _ (forM_ _ _) => apply frame_forM
  | |- frame _ (foldM _ _ _) => apply frame_foldM
  | |- frame _ (traverse _ _) => apply frame_traverse
  | |- frame _ (match ?x with _ => _ end) => destruct x
  | |- frame _ (let _ := _ in _) => cbv zeta
  | |- frame _ _ => solve [eauto with frame]
  | |- PreOrder _ => apply _
  | |- ∀ _, _ => intro
  end.
Ltac frame := repeat frame_step.
