(* ===== verification/SlashingStaking.v ===== *)
(** * The staking keeper behind the interface of the slashing module

    What the slashing module needs from the staking keeper ([SlashingStakingLaws])
    and that the keeper of Staking.v gives it: slashing and jailing do not touch the
    map from consensus addresses to validator identifiers, and lookups do not
    write. *)
From S2P Require Import Prelude Bytes MathInt LegacyDec Coin CoinFacts Collections Account Vesting AuthKeeper Bank Validator Staking StakingBlock Hoare Slashing.

(** [identifier x a] is the address under which the blocks missed by the validator
    with consensus address [a] are recorded. *)
Class SlashingStakingLaws (S : Type) (sk : SlashingStakingKeeper S) := {
  identifier : S → string → string;
  ssl_identifier a x : ∃ o, sk_ValidatorIdentifier a x = (Ok o, x) ∧ default a o = identifier x a;
  ssl_Validator a x : (sk_Validator a x).2 = x;
  ssl_ValidatorByConsAddr a x : (sk_ValidatorByConsAddr a x).2 = x;
  ssl_Delegation d v x : (sk_Delegation d v x).2 = x;
  ssl_IterateValidators x : (sk_IterateValidators x).2 = x;
  ssl_Slash h c height power fraction x a :
    identifier (sk_SlashWithInfractionReason h c height power fraction x).2 a = identifier x a;
  ssl_Jail c x a : identifier (sk_Jail c x).2 a = identifier x a;
  ssl_Unjail c x a : identifier (sk_Unjail c x).2 a = identifier x a;
}.

Definition same_ids (s s' : StakingState) : Prop :=
  ConsAddrToValidatorIdentifierMap s' = ConsAddrToValidatorIdentifierMap s.
#[global] Instance same_ids_preorder : PreOrder same_ids.
Proof. split; [done|]. intros ??? H1 H2. by unfold same_ids; rewrite H2. Qed.

(** Hooks of other modules do not write the map. *)
Class HooksKeepIds (hooks : StakingHooks) : Prop := {
  hk_validator_modified v : frame same_ids (BeforeValidatorModified hooks v);
  hk_validator_removed c v : frame same_ids (AfterValidatorRemoved hooks c v);
  hk_shares_modified d v : frame same_ids (BeforeDelegationSharesModified hooks d v);
  hk_delegation_removed d v : frame same_ids (BeforeDelegationRemoved hooks d v);
  hk_delegation_modified d v : frame same_ids (AfterDelegationModified hooks d v);
  hk_validator_slashed v f : frame same_ids (BeforeValidatorSlashed hooks v f);
}.
#[export] Hint Resolve hk_validator_modified hk_validator_removed hk_shares_modified hk_delegation_removed
  hk_delegation_modified hk_validator_slashed : frame.

Section Frames.
Context {cfg : CoinConfig} {acfg : AddressConfig} {vcfg : ValAddressConfig}.
Context (bk : BaseKeeper) (hooks : StakingHooks) {HK : HooksKeepIds hooks} (h : Header).

Lemma on_bank_ids {A} (m : GoM BankState A) : frame same_ids (on_bank m).
Proof. intros s. unfold on_bank. by destruct (m (stk_bank s)). Qed.
#[local] Hint Resolve on_bank_ids : frame.

Lemma bond_coins_ids amt : frame same_ids (bond_coins amt).
Proof. unfold bond_coins, BondDenom, get_Params. frame. Qed.
#[local] Hint Resolve bond_coins_ids : frame.
Lemma burnBonded_ids amt : frame same_ids (burnBondedTokens bk h amt).
Proof. unfold burnBondedTokens. frame. Qed.
Lemma burnNotBonded_ids amt : frame same_ids (burnNotBondedTokens bk h amt).
Proof. unfold burnNotBondedTokens. frame. Qed.
Lemma GetValidator_ids a : frame same_ids (GetValidator a).
Proof. unfold GetValidator. frame. Qed.
Lemma SetValidator_ids v : frame same_ids (SetValidator v).
Proof. unfold SetValidator. frame. Qed.
#[local] Hint Resolve burnBonded_ids burnNotBonded_ids GetValidator_ids SetValidator_ids : frame.
Lemma DeletePower_ids v : frame same_ids (DeleteValidatorByPowerIndex v).
Proof. unfold DeleteValidatorByPowerIndex. frame. Qed.
Lemma SetPower_ids v : frame same_ids (SetValidatorByPowerIndex v).
Proof. unfold SetValidatorByPowerIndex, SetNewValidatorByPowerIndex. frame. Qed.
Lemma GetByConsAddr_ids c : frame same_ids (GetValidatorByConsAddr c).
Proof. unfold GetValidatorByConsAddr. frame. Qed.
#[local] Hint Resolve DeletePower_ids SetPower_ids GetByConsAddr_ids : frame.
Lemma jail_ids v : frame same_ids (jailValidator v).
Proof. unfold jailValidator. frame. Qed.
Lemma unjail_ids v : frame same_ids (unjailValidator v).
Proof. unfold unjailValidator. frame. Qed.
Lemma RemoveValidatorTokens_ids v t : frame same_ids (RemoveValidatorTokens v t).
Proof. unfold RemoveValidatorTokens. frame. Qed.
Lemma RemoveValidatorTokensAndShares_ids v t : frame same_ids (RemoveValidatorTokensAndShares v t).
Proof. unfold RemoveValidatorTokensAndShares. frame. Qed.
Lemma RemoveValidator_ids a : frame same_ids (RemoveValidator hooks a).
Proof. unfold RemoveValidator. frame. Qed.
#[local] Hint Resolve jail_ids unjail_ids RemoveValidatorTokens_ids RemoveValidatorTokensAndShares_ids RemoveValidator_ids : frame.
Lemma SetUnbondingDelegation_ids u : frame same_ids (SetUnbondingDelegation u).
Proof. unfold SetUnbondingDelegation. frame. Qed.
#[local] Hint Resolve SetUnbondingDelegation_ids : frame.
Lemma Unbond_ids d a sh : frame same_ids (Unbond hooks d a sh).
Proof. unfold Unbond, jail_below_minimum, RemoveDelegation, SetDelegation. frame. Qed.
#[local] Hint Resolve Unbond_ids : frame.

Lemma slash_entries_ids height f u done es tot burned : frame same_ids (slash_entries h height f u done es tot burned).
Proof. revert done tot burned. induction es; intros; cbn; frame. Qed.
Lemma slash_unbonding_first_ids height u done es amt nb : frame same_ids (slash_unbonding_first h height u done es amt nb).
Proof. revert done amt nb. induction es; intros; cbn; frame. Qed.
#[local] Hint Resolve slash_entries_ids slash_unbonding_first_ids : frame.
Lemma SlashUnbonding_ids u height f : frame same_ids (SlashUnbondingDelegation bk h u height f).
Proof. unfold SlashUnbondingDelegation. frame. Qed.
Lemma SlashRedelegation_ids r height f : frame same_ids (SlashRedelegation bk hooks h r height f).
Proof. unfold SlashRedelegation, slash_red_entry, slash_delegation. frame. Qed.
#[local] Hint Resolve SlashUnbonding_ids SlashRedelegation_ids : frame.
Lemma slash_past_ids a height f amt : frame same_ids (slash_past bk hooks h a height f amt).
Proof.
  unfold slash_past, GetUnbondingDelegationsFromValidator, GetRedelegationsFromSrcValidator, slash_unbondings,
    slash_redelegations. frame.
Qed.
Lemma slash_validator_ids a v amt : frame same_ids (slash_validator bk hooks h a v amt).
Proof. unfold slash_validator. frame. Qed.
#[local] Hint Resolve slash_past_ids slash_validator_ids : frame.
Lemma try_ids {A} (m : GoM StakingState A) :
  frame same_ids m →
  frame same_ids (λ s, match m s with (Ok v, s') => (Ok (Some v), s') | (Err _, s') => (Ok None, s') | (Panic p, s') => (Panic p, s') end).
Proof. intros H s. specialize (H s). by destruct (m s) as [[] ?]. Qed.
#[local] Hint Resolve try_ids : frame.
Lemma Slash_ids f c height power factor : frame same_ids (Slash bk hooks h f c height power factor).
Proof. unfold Slash. frame. Qed.
End Frames.

Lemma Jail_ids {vcfg : ValAddressConfig} c : frame same_ids (Jail c).
Proof. unfold Jail. apply frame_bind; [apply _|apply GetByConsAddr_ids|intros v; apply jail_ids]. Qed.
Lemma Unjail_ids {vcfg : ValAddressConfig} c : frame same_ids (Unjail c).
Proof. unfold Unjail. apply frame_bind; [apply _|apply GetByConsAddr_ids|intros v; apply unjail_ids]. Qed.

(** Lookups do not write: they keep equality. *)
Lemma GetValidator_read a : frame eq (GetValidator a).
Proof. unfold GetValidator. frame. Qed.
Lemma GetByConsAddr_read c : frame eq (GetValidatorByConsAddr c).
Proof.
  unfold GetValidatorByConsAddr. apply frame_bind; [apply _|frame|].
  intros [a|]; [apply GetValidator_read|frame].
Qed.

#[global] Instance staking_laws {cfg : CoinConfig} {acfg : AddressConfig} {vcfg : ValAddressConfig} {ccfg : ConsAddressConfig}
  (bk : BaseKeeper) (hooks : StakingHooks) {HK : HooksKeepIds hooks} : SlashingStakingLaws StakingState (staking_keeper bk hooks).
Proof.
  refine {| identifier x a := default a (ConsAddrToValidatorIdentifierMap x !! a) |}; cbn.
  - intros a x. by eexists.
  - intros a x. symmetry. apply (GetValidator_read a x).
  - intros a x. symmetry. apply (GetByConsAddr_read a x).
  - intros d v x. done.
  - done.
  - intros h c height power fraction x a. by rewrite (Slash_ids bk hooks h _ c height power fraction x).
  - intros c x a. by rewrite (Jail_ids c x).
  - intros c x a. by rewrite (Unjail_ids c x).
Defined.
