(* ===== verification/SlashingFacts.v ===== *)
(** * The missed-block bitmap and the effect of a vote

    The bitmap of a validator as a set of indices, over any bitset library that
    behaves as documented; what recording a vote does to it, and the run of
    [HandleValidatorSignatureWithParams] as an equation. *)
From S2P Require Import Prelude Bytes MathInt LegacyDec Coin CoinFacts Collections Account Vesting AuthKeeper Bank Validator Staking StakingBlock Hoare Slashing SlashingStaking.

(** bits-and-blooms/bitset, as its documentation describes it. *)
Class BitSetLaws (B : BitSet) : Prop := {
  bsl_New n i : bs_Test (bs_New n) i = false;
  bsl_Set b i j : 0 <= i → 0 <= j → bs_Test (bs_Set b i) j = (i =? j) || bs_Test b j;
  bsl_Clear b i j : 0 <= i → 0 <= j → bs_Test (bs_Clear b i) j = negb (i =? j) && bs_Test b j;
  bsl_Marshal b : ∃ c b', bs_MarshalBinary b = Ok c ∧ bs_UnmarshalBinary c = Ok b' ∧ ∀ j, 0 <= j → bs_Test b' j = bs_Test b j;
}.

(** Recording a vote in a set of indices. *)
Definition flip (missed : bool) (i : Z) (M : gset Z) : gset Z := if missed then {[i]} ∪ M else M ∖ {[i]}.
Lemma elem_of_flip missed i M j : j ∈ flip missed i M ↔ (j = i ∧ missed = true) ∨ (j ≠ i ∧ j ∈ M).
Proof. unfold flip. destruct missed; set_unfold; destruct (decide (j = i)); naive_solver. Qed.
Lemma size_flip missed i M b : (i ∈ M ↔ b = true) →
  Z.of_nat (size (flip missed i M)) = Z.of_nat (size M) + (if missed then 1 else 0) - (if b then 1 else 0).
Proof.
  intros Hb. unfold flip. destruct missed, b.
  - replace ({[i]} ∪ M) with M by set_solver. lia.
  - rewrite size_union by set_solver. rewrite size_singleton. lia.
  - assert (i ∈ M) by naive_solver. rewrite size_difference by set_solver. rewrite size_singleton.
    assert (size M ≠ 0%nat); [|lia]. intros E%size_empty_inv. set_solver.
  - assert (i ∉ M) by (intros ?%Hb; done). replace (M ∖ {[i]}) with M by set_solver. lia.
Qed.
(** A set of indices is smaller than their bound. *)
Lemma size_indices (M : gset Z) n : 0 <= n → (∀ i, i ∈ M → 0 <= i < n) → Z.of_nat (size M) <= n.
Proof.
  intros Hn HM. assert (size M ≤ size (list_to_set (seqZ 0 n) : gset Z))%nat as H.
  { apply subseteq_size. intros i Hi. apply elem_of_list_to_set, elem_of_seqZ. specialize (HM i Hi). lia. }
  rewrite size_list_to_set in H by apply NoDup_seqZ. rewrite length_seqZ in H. lia.
Qed.

Section Bitmap.
Context {bitlib : BitSet} {BL : BitSetLaws bitlib}.

(** The indices a block can have. *)
Definition index_ok (i : Z) : Prop := 0 <= i < 2 ^ 63 - 1.
(** The bit of an index in the stored chunks of an address. *)
Definition bit (m : gmap (string * Z) string) (a : string) (i : Z) : bool :=
  match m !! (a, Z.quot i MissedBlockBitmapChunkSize) with
  | Some c => match bs_UnmarshalBinary c with Ok bs => bs_Test bs (Z.rem i MissedBlockBitmapChunkSize) | _ => false end
  | None => false
  end.
Definition chunks_ok (m : gmap (string * Z) string) : Prop := map_Forall (λ _ c, ∃ bs, bs_UnmarshalBinary c = Ok bs) m.
(** [M] is the set of the indices of missed blocks. *)
Definition missed_set (m : gmap (string * Z) string) (a : string) (M : gset Z) : Prop :=
  ∀ i, i ∈ M ↔ index_ok i ∧ bit m a i = true.
(** [m'] is [m] with the bit of [a] at [i] set to [missed]. *)
Definition bit_set (m m' : gmap (string * Z) string) (a : string) (i : Z) (missed : bool) : Prop :=
  chunks_ok m' ∧ (∀ a' j, index_ok j → bit m' a' j = if decide (a' = a ∧ j = i) then missed else bit m a' j) ∧
  (∀ a' k, a' ≠ a → m' !! (a', k) = m !! (a', k)).

Lemma bit_set_missed m m' a i missed M :
  index_ok i → bit_set m m' a i missed → missed_set m a M → missed_set m' a (flip missed i M).
Proof.
  intros Hi (_ & Hb & _) HM j. rewrite elem_of_flip, (HM j). clear HM. destruct (decide (j = i)) as [->|Hji].
  - rewrite Hb, decide_True by done. naive_solver.
  - split.
    + intros [[??]|[? [??]]]; [congruence|]. split; [done|]. rewrite Hb, decide_False; naive_solver.
    + intros [? E]. rewrite Hb, decide_False in E by naive_solver. naive_solver.
Qed.
Lemma bit_set_other m m' a i missed a' M : a' ≠ a → bit_set m m' a i missed → missed_set m a' M → missed_set m' a' M.
Proof.
  intros Ha (_ & Hb & _) HM j. rewrite (HM j). split; intros [Hj E]; (split; [done|]); specialize (Hb a' j Hj);
    rewrite decide_False in Hb by naive_solver; congruence.
Qed.
Lemma missed_set_size m a M : missed_set m a M → 0 <= Z.of_nat (size M) <= 2 ^ 63 - 1.
Proof. intros HM. split; [lia|]. apply size_indices; [lia|]. intros i Hi. apply HM in Hi as [? _]. unfold index_ok in *. lia. Qed.
Lemma missed_set_unique m a M M' : missed_set m a M → missed_set m a M' → M = M'.
Proof. intros H H'. apply set_eq. intros i. by rewrite (H i), (H' i). Qed.
Lemma missed_set_none m a : (∀ k, m !! (a, k) = None) → missed_set m a ∅.
Proof. intros Hm i. unfold bit. rewrite Hm. set_solver. Qed.

Lemma index_quot i : index_ok i → 0 <= Z.quot i MissedBlockBitmapChunkSize < 2 ^ 63 ∧ 0 <= Z.rem i MissedBlockBitmapChunkSize < MissedBlockBitmapChunkSize.
Proof.
  unfold index_ok, MissedBlockBitmapChunkSize. intros Hi. rewrite Z.quot_div_nonneg, Z.rem_mod_nonneg by lia.
  pose proof (Z.mod_pos_bound i 1024). pose proof (Z.div_pos i 1024). pose proof (Z.div_le_upper_bound i 1024 (2 ^ 53)). lia.
Qed.
Lemma index_eq i j : Z.quot i MissedBlockBitmapChunkSize = Z.quot j MissedBlockBitmapChunkSize → Z.rem i MissedBlockBitmapChunkSize = Z.rem j MissedBlockBitmapChunkSize → i = j.
Proof. intros Hq Hr. rewrite (Z.quot_rem' i MissedBlockBitmapChunkSize), (Z.quot_rem' j MissedBlockBitmapChunkSize). congruence. Qed.
End Bitmap.

Section Votes.
Context {S : Type} {sk : SlashingStakingKeeper S} {SL : SlashingStakingLaws S sk} {bitlib : BitSet} {BL : BitSetLaws bitlib}.
Context {vcfg : ValAddressConfig} {ccfg : ConsAddressConfig}.
Implicit Types s : SlashingState S.

(** The identifier of an address in a state of the module. *)
Definition ident s (c : string) : string := identifier (sl_staking s) c.
Definition counter_of (i : ValidatorSigningInfo) : Z := MissedBlocksCounter i.

Lemma on_staking_read {A} (m : GoM S A) s : (m (sl_staking s)).2 = sl_staking s → on_staking m s = ((m (sl_staking s)).1, s).
Proof. intros H. unfold on_staking. destruct (m (sl_staking s)) as [r x]. cbn in *. subst x. by destruct s. Qed.

Lemma getPreviousConsKey_run c s : getPreviousConsKey c s = (Ok (ident s c), s).
Proof.
  unfold getPreviousConsKey, mbind, GoM_bind. destruct (ssl_identifier c (sl_staking s)) as (o & E & E').
  rewrite on_staking_read by (by rewrite E). rewrite E. cbn. by rewrite E'.
Qed.
Lemma load_chunk_run a k s : chunks_ok (ValidatorMissedBlockBitmap s) →
  ∃ bs, load_chunk a k s = (Ok bs, s) ∧
    ∀ j, bs_Test bs j = match ValidatorMissedBlockBitmap s !! (a, wrap_uint64 k) with
                        | Some c => match bs_UnmarshalBinary c with Ok bs => bs_Test bs j | _ => false end
                        | None => false
                        end.
Proof.
  intros Hc. unfold load_chunk, getMissedBlockBitmapChunk, mbind, GoM_bind, readM.
  destruct (_ !! _) as [c|] eqn:E.
  - destruct (Hc _ _ E) as [bs Hbs]. exists bs. unfold liftM. rewrite Hbs. done.
  - exists (bs_New MissedBlockBitmapChunkSize). split; [done|]. intros j. apply bsl_New.
Qed.
Lemma chunk_wrap i : index_ok i →
  wrap_uint64 (Z.quot i MissedBlockBitmapChunkSize) = Z.quot i MissedBlockBitmapChunkSize ∧ wrap_uint64 (Z.rem i MissedBlockBitmapChunkSize) = Z.rem i MissedBlockBitmapChunkSize.
Proof. intros Hi. destruct (index_quot i Hi). unfold MissedBlockBitmapChunkSize in *. split; apply wrap_uint64_id; lia. Qed.
Lemma GetMissed_run c i s : chunks_ok (ValidatorMissedBlockBitmap s) → index_ok i →
  GetMissedBlockBitmapValue c i s = (Ok (bit (ValidatorMissedBlockBitmap s) (ident s c) i), s).
Proof.
  intros Hc Hi. unfold GetMissedBlockBitmapValue. rewrite (GoM_bind_run _ _ _ _ _ (getPreviousConsKey_run c s)).
  destruct (load_chunk_run (ident s c) (Z.quot i MissedBlockBitmapChunkSize) s Hc) as (bs & E & Hbs).
  rewrite (GoM_bind_run _ _ _ _ _ E). destruct (chunk_wrap i Hi) as [E1 E2]. rewrite E1 in Hbs. rewrite E2.
  cbn. by rewrite Hbs.
Qed.
Lemma SetMissed_run c i b s : chunks_ok (ValidatorMissedBlockBitmap s) → index_ok i →
  ∃ m', SetMissedBlockBitmapValue c i b s = (Ok tt, with_Bitmap (λ _, m') s) ∧
    bit_set (ValidatorMissedBlockBitmap s) m' (ident s c) i b.
Proof.
  intros Hc Hi. unfold SetMissedBlockBitmapValue. rewrite (GoM_bind_run _ _ _ _ _ (getPreviousConsKey_run c s)).
  destruct (load_chunk_run (ident s c) (Z.quot i MissedBlockBitmapChunkSize) s Hc) as (bs & E & Hbs).
  rewrite (GoM_bind_run _ _ _ _ _ E). destruct (chunk_wrap i Hi) as [E1 E2]. rewrite E1 in Hbs. rewrite E2.
  set (bs1 := if b then _ else _). destruct (bsl_Marshal bs1) as (ch & bs2 & Em & Eu & Ht).
  rewrite (liftM_bind_run _ _ _ _ Em). unfold SetMissedBlockBitmapChunk, modifyM. rewrite E1.
  eexists. split; [done|]. cbn. destruct (index_quot i Hi) as [Hq Hr]. split; [|split].
  - intros k c'. rewrite lookup_insert. case_decide; [|by intros ?%Hc]. intros [= <-]. by eexists.
  - intros a' j Hj. destruct (index_quot j Hj) as [Hqj Hrj]. unfold bit. rewrite lookup_insert.
    case_decide as D1; [injection D1 as <- Eq|].
    + rewrite Eu, Ht, <- Eq by lia.
      assert (bs_Test bs1 (Z.rem j MissedBlockBitmapChunkSize) = if decide (i = j) then b else bs_Test bs (Z.rem j MissedBlockBitmapChunkSize)) as ->.
      { subst bs1. destruct (decide (i = j)) as [<-|Hij].
        - destruct b; rewrite ?bsl_Set, ?bsl_Clear, ?Z.eqb_refl by lia; done.
        - assert (Z.rem i MissedBlockBitmapChunkSize ≠ Z.rem j MissedBlockBitmapChunkSize) by (intros ?; by apply Hij, index_eq).
          destruct b; rewrite ?bsl_Set, ?bsl_Clear by lia; rewrite (proj2 (Z.eqb_neq _ _)) by done; done. }
      rewrite Hbs. destruct (decide (i = j)) as [<-|]; [by rewrite decide_True|by rewrite decide_False by naive_solver].
    + rewrite decide_False; [done|]. intros [-> ->]. done.
  - intros a' k Ha. by rewrite lookup_insert_ne by naive_solver.
Qed.
Lemma bit_set_same m a i : chunks_ok m → bit_set m m a i (bit m a i).
Proof. intros Hc. split_and!; [done| |done]. intros a' j _. case_decide as D; [by destruct D as [-> ->]|done]. Qed.

(** The counter follows the bit. *)
Definition moved_counter (previous missed : bool) (z : Z) : Z := z + (if missed then 1 else 0) - (if previous then 1 else 0).
Lemma record_vote_run c i missed info s :
  chunks_ok (ValidatorMissedBlockBitmap s) → index_ok i →
  - 2 ^ 63 <= moved_counter (bit (ValidatorMissedBlockBitmap s) (ident s c) i) missed (counter_of info) < 2 ^ 63 →
  ∃ m' modified, bit_set (ValidatorMissedBlockBitmap s) m' (ident s c) i missed ∧
    let info' := set_MissedBlocksCounter (moved_counter (bit (ValidatorMissedBlockBitmap s) (ident s c) i) missed (counter_of info)) info in
    record_vote c i missed info s = (Ok (info', modified), with_Bitmap (λ _, m') s) ∧ (modified = false → info' = info).
Proof.
  intros Hc Hi. unfold record_vote. rewrite (GoM_bind_run _ _ _ _ _ (GetMissed_run c i s Hc Hi)).
  unfold moved_counter. set (b := bit _ _ _). intros Hr. destruct b eqn:Eb, missed; cbn [negb andb].
  - exists (ValidatorMissedBlockBitmap s), false. split; [rewrite <- Eb; by apply bit_set_same|].
    unfold with_Bitmap. replace (counter_of info + 1 - 1) with (counter_of info) by lia. destruct info, s. done.
  - destruct (SetMissed_run c i false s Hc Hi) as (m' & E & Hb). exists m', true. split; [done|].
    rewrite (GoM_bind_run _ _ _ _ _ E). rewrite wrap_int64_id by (unfold counter_of in *; lia).
    replace (counter_of info + 0 - 1) with (counter_of info - 1) by lia. done.
  - destruct (SetMissed_run c i true s Hc Hi) as (m' & E & Hb). exists m', true. split; [done|].
    rewrite (GoM_bind_run _ _ _ _ _ E). rewrite wrap_int64_id by (unfold counter_of in *; lia).
    replace (counter_of info + 1 - 0) with (counter_of info + 1) by lia. done.
  - exists (ValidatorMissedBlockBitmap s), false. split; [rewrite <- Eb; by apply bit_set_same|].
    unfold with_Bitmap. replace (counter_of info + 0 - 0) with (counter_of info) by lia. destruct info, s. done.
Qed.

(** The index of a height in the window. *)
Definition window_index (start w height : Z) : Z := (height - start) mod w.
Lemma int64_index start w height : 0 <= start → start <= height < 2 ^ 63 → 0 < w < 2 ^ 63 →
  int64_rem (wrap_int64 (height - start)) w = Ok (window_index start w height) ∧ index_ok (window_index start w height).
Proof.
  intros Hs Hh Hw. unfold int64_rem, window_index. rewrite wrap_int64_id by lia.
  rewrite (proj2 (Z.eqb_neq w 0)) by lia. rewrite Z.rem_mod_nonneg by lia. split; [done|].
  pose proof (Z.mod_pos_bound (height - start) w). unfold index_ok. lia.
Qed.

(** What the decision of [HandleValidatorSignatureWithParams] does. *)
Definition after_vote (h : Header) (params : SlashingParams) (c : string) (power : Z) (info : ValidatorSigningInfo)
    : GoM (SlashingState S) unit :=
  minSigned ← liftM (MinSignedPerWindowInt params);
  _ ← liftM (ConsBytesToString c);
  if (wrap_int64 (StartHeight info + SignedBlocksWindow params) <? h_Height h) &&
     (wrap_int64 (SignedBlocksWindow params - minSigned) <? MissedBlocksCounter info)
  then punish_downtime h c power info
  else set_SigningInfo c info.

Lemma handle_run h params addr power signed s v c info :
  sk_ValidatorByConsAddr addr (sl_staking s) = (Ok v, sl_staking s) → Jailed v = false → GetConsAddr v = Ok c →
  SigningInfos s !! c = Some info → chunks_ok (ValidatorMissedBlockBitmap s) →
  0 <= StartHeight info <= h_Height h → h_Height h < 2 ^ 63 → 0 < SignedBlocksWindow params < 2 ^ 63 →
  let i := window_index (StartHeight info) (SignedBlocksWindow params) (h_Height h) in
  let z := moved_counter (bit (ValidatorMissedBlockBitmap s) (ident s c) i) (is_absent signed) (counter_of info) in
  - 2 ^ 63 <= z < 2 ^ 63 →
  ∃ m', bit_set (ValidatorMissedBlockBitmap s) m' (ident s c) i (is_absent signed) ∧
    HandleValidatorSignatureWithParams h params addr power signed s =
    after_vote h params c power (set_MissedBlocksCounter z info) (with_Bitmap (λ _, m') s).
Proof.
  intros Hv Hj Hc Hinfo Hch Hst Hh Hw i z Hz.
  destruct (int64_index (StartHeight info) (SignedBlocksWindow params) (h_Height h)) as [Ei Hi]; [lia..|]. fold i in Ei, Hi.
  destruct (record_vote_run c i (is_absent signed) info s Hch Hi Hz) as (m' & md & Hb & E & Hmd). fold z in E, Hmd.
  exists m'. split; [done|]. unfold HandleValidatorSignatureWithParams.
  rewrite (GoM_bind_run _ _ v s s) by (rewrite on_staking_read; by rewrite Hv). rewrite Hj.
  rewrite (liftM_bind_run _ _ c) by done.
  rewrite (GoM_bind_run _ _ info s s) by (unfold get_SigningInfo, mbind, GoM_bind, readM, liftM; by rewrite Hinfo).
  rewrite (liftM_bind_run _ _ i) by done.
  rewrite (liftM_bind_run _ _ tt) by (unfold guard_err; by rewrite (proj2 (Z.ltb_ge _ _)) by lia).
  rewrite (GoM_bind_run _ _ _ _ _ E). unfold after_vote, mbind, GoM_bind, liftM.
  destruct (MinSignedPerWindowInt params) as [ms|e|p]; [|done..]. destruct (ConsBytesToString c); [|done..].
  case_match; [done|]. destruct md; [done|]. rewrite (Hmd eq_refl).
  unfold set_SigningInfo, modifyM, with_SigningInfos, with_Bitmap, mret, GoM_ret. cbn. by rewrite insert_id.
Qed.
End Votes.
