(* ===== verification/SlashingProps.v ===== *)
(** * Properties of the slashing module

    The counter of missed blocks is the number of bits set in the bitmap, in every
    reachable state and across key rotations; a tombstone stays; the window of the
    last blocks decides exactly when a validator is punished for downtime. *)
From S2P Require Import Prelude Bytes MathInt LegacyDec Coin CoinFacts Collections Account Vesting AuthKeeper Bank Validator Staking StakingBlock Hoare Slashing SlashingStaking SlashingFacts.

Section Invariant.
Context {S : Type} {sk : SlashingStakingKeeper S} {SL : SlashingStakingLaws S sk} {bitlib : BitSet} {BL : BitSetLaws bitlib}.
Context {vcfg : ValAddressConfig} {ccfg : ConsAddressConfig}.
Implicit Types s : SlashingState S.
(** The records that a key rotation may overwrite.  The staking module lets a
    validator rotate to the key of a validator that was removed, and the record of
    that key is then replaced. *)
Context (overwritable : ValidatorSigningInfo → Prop).

(** If rotations overwrite records, the bitmaps of these are left behind. *)
Record sl_inv s : Prop := {
  inv_chunks : chunks_ok (ValidatorMissedBlockBitmap s);
  inv_params p : sl_Params s = Some p → 0 < SignedBlocksWindow p < 2 ^ 63;
  inv_start c i : SigningInfos s !! c = Some i → 0 <= StartHeight i;
  inv_counter c i : SigningInfos s !! c = Some i →
    ∃ M, missed_set (ValidatorMissedBlockBitmap s) (ident s c) M ∧ MissedBlocksCounter i = Z.of_nat (size M);
  inv_ident c1 c2 : is_Some (SigningInfos s !! c1) → is_Some (SigningInfos s !! c2) → ident s c1 = ident s c2 → c1 = c2;
  inv_bitmap a k c : (∀ j, ¬ overwritable j) → ValidatorMissedBlockBitmap s !! (a, k) = Some c → ∃ c1, is_Some (SigningInfos s !! c1) ∧ ident s c1 = a;
}.

(** Steps that change one record and the chunks of its validator. *)
Definition same_chunks_but (a : string) (m m' : gmap (string * Z) string) : Prop := ∀ a' k, a' ≠ a → m' !! (a', k) = m !! (a', k).
Lemma missed_set_same_chunks a m m' a' M : same_chunks_but a m m' → a' ≠ a → missed_set m a' M → missed_set m' a' M.
Proof. intros Hs Ha HM i. rewrite (HM i). unfold bit. by rewrite Hs. Qed.

Definition with_record (c : string) (i : ValidatorSigningInfo) (m : gmap (string * Z) string) (x : S) s : SlashingState S :=
  mkSlashingState (sl_Params s) (<[c := i]> (SigningInfos s)) (AddrPubkeyRelation s) m x.
Lemma sl_inv_record s c i i' m' M' x :
  sl_inv s → SigningInfos s !! c = Some i → (∀ a, identifier x a = ident s a) →
  chunks_ok m' → same_chunks_but (ident s c) (ValidatorMissedBlockBitmap s) m' → missed_set m' (ident s c) M' →
  MissedBlocksCounter i' = Z.of_nat (size M') → 0 <= StartHeight i' → sl_inv (with_record c i' m' x s).
Proof.
  intros [HC HP HS HN HI HB] Hc Hx Hch Hsame HM Hcount Hst.
  assert (∀ c0, is_Some (<[c := i']> (SigningInfos s) !! c0) → is_Some (SigningInfos s !! c0)) as Hdom.
  { intros c0 [i0 H0]. destruct (decide (c0 = c)) as [->|]; [by rewrite Hc|]. rewrite lookup_insert_ne in H0 by done. by exists i0. }
  split; cbn; try done.
  - intros c0 i0. destruct (decide (c0 = c)) as [->|]; [rewrite lookup_insert_eq; by intros [= <-]|].
    rewrite lookup_insert_ne by done. apply HS.
  - intros c0 i0. unfold ident at 1. cbn. rewrite Hx. destruct (decide (c0 = c)) as [->|Hne].
    + rewrite lookup_insert_eq. intros [= <-]. by exists M'.
    + rewrite lookup_insert_ne by done. intros H0. destruct (HN _ _ H0) as (M & HM0 & E). exists M. split; [|done].
      eapply missed_set_same_chunks; [done| |done]. intros E1. apply Hne, HI; [by exists i0|by exists i|done].
  - intros c1 c2 H1 H2. unfold ident. cbn. rewrite !Hx. apply HI; by apply Hdom.
  - intros a k ch Hno H. destruct (decide (a = ident s c)) as [->|Ha].
    + exists c. unfold ident at 1. cbn. by rewrite lookup_insert_eq, Hx.
    + rewrite Hsame in H by done. destruct (HB _ _ _ Hno H) as (c1 & H1 & <-). exists c1. unfold ident. cbn. rewrite Hx.
      split; [|done]. rewrite lookup_insert. by case_decide.
Qed.
Lemma sl_inv_staking s x : sl_inv s → (∀ a, identifier x a = ident s a) → sl_inv (with_staking x s).
Proof.
  intros [HC HP HS HN HI HB] Hx. split; cbn; try done; unfold ident in *; cbn.
  - intros c i H. rewrite Hx. by apply HN.
  - intros c1 c2. rewrite !Hx. apply HI.
  - intros a k c Hno H. destruct (HB _ _ _ Hno H) as (c1 & ? & ?). exists c1. by rewrite Hx.
Qed.
Lemma sl_inv_keys s f : sl_inv s → sl_inv (with_AddrPubkeyRelation f s).
Proof. intros [????? HB]. split; cbn; try done. Qed.

(** ** The effect of a vote *)

(** Jailing and slashing leave the identifiers. *)
Lemma on_staking_ids {A} (m : GoM S A) s r s' : (∀ x a, identifier (m x).2 a = identifier x a) →
  on_staking m s = (r, s') → ∃ x, s' = with_staking x s ∧ ∀ a, identifier x a = ident s a.
Proof.
  intros Hm. unfold on_staking. specialize (Hm (sl_staking s)). destruct (m (sl_staking s)) as [r1 x]. intros [= _ <-]. by exists x.
Qed.
Lemma missed_set_filter m a : missed_set (filter (λ kv : (string * Z) * string, kv.1.1 ≠ a) m) a ∅.
Proof. apply missed_set_none. intros k. apply map_lookup_filter_None. right. intros c _. cbn. tauto. Qed.
Lemma punish_downtime_Ok h c power info s s' :
  punish_downtime h c power info s = (Ok tt, s') →
  ∃ x dur, (∀ a, identifier x a = ident s a) ∧
    s' = with_record c (set_MissedBlocksCounter 0 (set_JailedUntil (h_Time h + dur) info))
           (filter (λ kv : (string * Z) * string, kv.1.1 ≠ ident s c) (ValidatorMissedBlockBitmap s)) x s.
Proof.
  unfold punish_downtime, get_SlashFractionDowntime, get_DowntimeJailDuration, get_sl_Params, DeleteMissedBlockBitmap.
  intros H. apply GoM_bind_Ok in H as (fr & s1 & H1 & H). apply GoM_bind_Ok in H as (burned & s2 & H2 & H).
  apply GoM_bind_Ok in H as (u & s3 & H3 & H). apply GoM_bind_Ok in H as (dur & s4 & H4 & H).
  assert (s1 = s) as -> by (go_inv; done).
  apply on_staking_ids in H2 as (x1 & -> & Hx1); [|intros; apply ssl_Slash].
  apply on_staking_ids in H3 as (x2 & -> & Hx2); [|intros; apply ssl_Jail].
  assert (s4 = with_staking x2 (with_staking x1 s)) as -> by (go_inv; done).
  apply GoM_bind_Ok in H as (v & s5 & H5 & H). unfold set_SigningInfo, modifyM in H. injection H as <-.
  rewrite (GoM_bind_run _ _ _ _ _ (getPreviousConsKey_run c _)) in H5. unfold modifyM in H5. injection H5 as <- <-.
  exists x2, dur. assert (∀ a, identifier x2 a = ident s a) as Hx. { intros a. rewrite Hx2. unfold ident. cbn. apply Hx1. }
  split; [done|]. unfold with_record, with_SigningInfos, with_Bitmap, with_staking, ident in *. cbn in *. by rewrite Hx.
Qed.

(** A vote that goes through: nothing happens, or the record and the bitmap of the
    validator change. *)
Definition vote_step s s' : Prop :=
  s' = s ∨ ∃ c i i' m' M' x, SigningInfos s !! c = Some i ∧ (∀ a, identifier x a = ident s a) ∧
    chunks_ok m' ∧ same_chunks_but (ident s c) (ValidatorMissedBlockBitmap s) m' ∧ missed_set m' (ident s c) M' ∧
    MissedBlocksCounter i' = Z.of_nat (size M') ∧ 0 <= StartHeight i' ∧ Tombstoned i' = Tombstoned i ∧
    s' = with_record c i' m' x s.
Lemma vote_step_inv s s' : sl_inv s → vote_step s s' → sl_inv s'.
Proof. intros Hi [->|(c & i & i' & m' & M' & x & H)]; [done|]. destruct_and! H. subst s'. by eapply sl_inv_record. Qed.

Lemma after_vote_Ok h params c power i' m' M' i s s' :
  SigningInfos s !! c = Some i → chunks_ok m' → same_chunks_but (ident s c) (ValidatorMissedBlockBitmap s) m' →
  missed_set m' (ident s c) M' → MissedBlocksCounter i' = Z.of_nat (size M') → 0 <= StartHeight i' → Tombstoned i' = Tombstoned i →
  after_vote h params c power i' (with_Bitmap (λ _, m') s) = (Ok tt, s') → vote_step s s'.
Proof.
  intros Hc Hch Hs HM Hn Hst Ht H. unfold after_vote in H. apply GoM_bind_Ok in H as (ms & s1 & H1 & H).
  apply GoM_bind_Ok in H as (str & s2 & H2 & H). go_inv. right. case_match.
  - apply punish_downtime_Ok in H as (x & dur & Hx & ->).
    exists c, i, (set_MissedBlocksCounter 0 (set_JailedUntil (h_Time h + dur) i')),
      (filter (λ kv : (string * Z) * string, kv.1.1 ≠ ident s c) m'), ∅, x.
    split_and!; try done; cbn.
    + intros k ch Hk. apply map_lookup_filter_Some in Hk as [Hk _]. by eapply Hch.
    + intros a' k Ha. rewrite <- Hs by done. apply option_eq. intros ch. rewrite map_lookup_filter_Some. cbn. naive_solver.
    + apply missed_set_filter.
  - unfold set_SigningInfo, modifyM in H. injection H as <-. exists c, i, i', m', M', (sl_staking s). split_and!; try done.
Qed.
Lemma get_SigningInfo_Ok c s i s' : get_SigningInfo c s = (Ok i, s') → SigningInfos s !! c = Some i ∧ s' = s.
Proof. unfold get_SigningInfo, mbind, GoM_bind, readM, liftM. destruct (_ !! c); [|done]. by intros [= <- <-]. Qed.
Lemma handle_Ok h params addr power signed s s' :
  sl_inv s → 0 < SignedBlocksWindow params < 2 ^ 63 → h_Height h < 2 ^ 63 →
  HandleValidatorSignatureWithParams h params addr power signed s = (Ok tt, s') → vote_step s s'.
Proof.
  intros Hi Hw Hh H. pose proof H as H0. unfold HandleValidatorSignatureWithParams in H0.
  apply GoM_bind_Ok in H0 as (v & s1 & H1 & H0).
  pose proof (ssl_ValidatorByConsAddr addr (sl_staking s)) as Hr.
  rewrite on_staking_read in H1 by done. injection H1 as Hv <-.
  destruct (Jailed v) eqn:Hj; [unfold mret, GoM_ret in H0; injection H0 as <-; by left|].
  apply GoM_bind_Ok in H0 as (c & s1 & H1 & H0). apply liftM_Ok in H1 as [Hc ->].
  apply GoM_bind_Ok in H0 as (i & s1 & H1 & H0). apply get_SigningInfo_Ok in H1 as [Hs ->].
  apply GoM_bind_Ok in H0 as (ix & s1 & H1 & H0). apply liftM_Ok in H1 as [_ ->].
  apply GoM_bind_Ok in H0 as (u & s1 & H1 & _). apply liftM_Ok in H1 as [H0%guard_err_Ok ->]. apply Z.ltb_ge in H0.
  pose proof (inv_start _ Hi _ _ Hs) as Hst. destruct (inv_counter _ Hi _ _ Hs) as (M & HM & HN).
  set (ix0 := window_index (StartHeight i) (SignedBlocksWindow params) (h_Height h)).
  destruct (int64_index (StartHeight i) (SignedBlocksWindow params) (h_Height h)) as [_ Hix]; [lia..|]. fold ix0 in Hix.
  set (b := bit (ValidatorMissedBlockBitmap s) (ident s c) ix0).
  assert (moved_counter b (is_absent signed) (counter_of i) = Z.of_nat (size (flip (is_absent signed) ix0 M))) as HZ.
  { rewrite (size_flip _ _ _ b); [unfold moved_counter, counter_of; lia|]. rewrite (HM ix0). unfold b. tauto. }
  assert (0 <= Z.of_nat (size (flip (is_absent signed) ix0 M)) <= 2 ^ 63 - 1) as HB.
  { split; [lia|]. apply size_indices; [lia|]. intros y Hy. apply elem_of_flip in Hy as [[-> _]|[_ Hy]]; [done|].
    by apply HM in Hy as [Hy _]. }
  destruct (handle_run h params addr power signed s v c i) as (m' & Hb & E);
    [|done..|apply Hi|lia|lia|lia|fold ix0 b; lia|].
  { by rewrite (surjective_pairing (sk_ValidatorByConsAddr addr (sl_staking s))), Hv, Hr. }
  fold ix0 b in E, Hb. rewrite E in H. pose proof Hb as (Hb1 & _ & Hb3).
  eapply (after_vote_Ok h params c power (set_MissedBlocksCounter (moved_counter b (is_absent signed) (counter_of i)) i)); [exact Hs|exact Hb1|exact Hb3|exact (bit_set_missed _ _ _ _ _ M Hix Hb HM)|exact HZ|done|done|exact H].
Qed.

(** ** Steps *)

Lemma vote_steps_inv h params votes s s' :
  sl_inv s → 0 < SignedBlocksWindow params < 2 ^ 63 → h_Height h < 2 ^ 63 →
  forM_ (λ vote, HandleValidatorSignatureWithParams h params (vote_Address vote) (vote_Power vote) (vote_BlockIDFlag vote)) votes s
    = (Ok tt, s') → rtc vote_step s s' ∧ sl_inv s'.
Proof.
  intros Hi Hw Hh. revert s Hi. induction votes as [|v votes IH]; intros s Hi H; [injection H as <-; by split|].
  apply GoM_bind_Ok in H as ([] & s1 & H1 & H). apply handle_Ok in H1; [|done..].
  destruct (IH s1) as [? ?]; [by eapply vote_step_inv|done|]. split; [by eapply rtc_l|done].
Qed.
Lemma get_sl_Params_Ok s p s' : get_sl_Params s = (Ok p, s') → sl_Params s = Some p ∧ s' = s.
Proof. unfold get_sl_Params, mbind, GoM_bind, readM, liftM. destruct (sl_Params s); [|done]. by intros [= <- <-]. Qed.
Lemma BeginBlocker_inv h votes s s' : sl_inv s → h_Height h < 2 ^ 63 → BeginBlocker h votes s = (Ok tt, s') →
  rtc vote_step s s' ∧ sl_inv s'.
Proof.
  intros Hi Hh H. apply GoM_bind_Ok in H as (p & s1 & [Hp ->]%get_sl_Params_Ok & H).
  eapply vote_steps_inv; [done|by eapply inv_params|done|exact H].
Qed.

(** The staking keeper calls the hook after it has recorded that the new address
    has the identifier of the old one ([setConsAddrToValidatorIdentifierMap]). *)
Definition rotated (old new : string) (x x' : S) : Prop :=
  identifier x' new = identifier x old ∧ ∀ a, a ≠ new → identifier x' a = identifier x a.

Definition unused_identifier s (c : string) : Prop :=
  (∀ c', is_Some (SigningInfos s !! c') → ident s c' ≠ ident s c) ∧
  ((∀ j, ¬ overwritable j) ∨ ∀ k, ValidatorMissedBlockBitmap s !! (ident s c, k) = None).
(** What happens to the module: the begin blocker, its messages, the hooks of the
    staking module, the calls of the evidence module, and anything else in the
    application that leaves the identifiers alone.  Every step has its own header.
    A rotation may go to a key with a record only if that record may be overwritten.
    The identifier of a validator that bonds for the first time is not the one of
    another record nor of a bitmap that was left behind; [bonded_on_misses] in
    SlashingTheorems.v shows what happens otherwise. *)
Inductive sl_step s : SlashingState S → Prop :=
| step_begin_block h votes s' : h_Height h < 2 ^ 63 → BeginBlocker h votes s = (Ok tt, s') → sl_step s s'
| step_msg_unjail h addr s' : Msg_Unjail h addr s = (Ok tt, s') → sl_step s s'
| step_update_params authority signer params s' : SignedBlocksWindow params < 2 ^ 63 →
    Slashing_UpdateParams authority signer params s = (Ok tt, s') → sl_step s s'
| step_bonded h c s' : 0 <= h_Height h →
    (SigningInfos s !! c = None → unused_identifier s c) →
    Hooks_AfterValidatorBonded h c s = (Ok tt, s') → sl_step s s'
| step_removed c s' : Hooks_AfterValidatorRemoved c s = (Ok tt, s') → sl_step s s'
| step_created a s' : Hooks_AfterValidatorCreated a s = (Ok tt, s') → sl_step s s'
| step_rotated old new x s' : rotated (pk_Address old) (pk_Address new) (sl_staking s) x →
    pk_Address old ≠ pk_Address new → (∀ j, SigningInfos s !! pk_Address new = Some j → overwritable j) →
    Hooks_AfterConsensusPubKeyUpdate old new (with_staking x s) = (Ok tt, s') → sl_step s s'
| step_slash h c fraction power height s' : Keeper_SlashWithInfractionReason h c fraction power height s = (Ok tt, s') → sl_step s s'
| step_jail c s' : Keeper_Jail c s = (Ok tt, s') → sl_step s s'
| step_jail_until c z s' : JailUntil c z s = (Ok tt, s') → sl_step s s'
| step_tombstone c s' : Tombstone c s = (Ok tt, s') → sl_step s s'
| step_elsewhere x : (∀ a, identifier x a = ident s a) → sl_step s (with_staking x s).

(** A record changed without its counter. *)
Lemma sl_inv_set s c i i' : sl_inv s → SigningInfos s !! c = Some i → MissedBlocksCounter i' = MissedBlocksCounter i →
  0 <= StartHeight i' → sl_inv (with_SigningInfos <[c := i']> s).
Proof.
  intros Hi Hc Hn Hst. destruct (inv_counter _ Hi _ _ Hc) as (M & HM & E).
  apply (sl_inv_record s c i i' (ValidatorMissedBlockBitmap s) M (sl_staking s)); try done; [apply Hi|congruence].
Qed.
Lemma sl_inv_new s c i : sl_inv s → SigningInfos s !! c = None → unused_identifier s c →
  MissedBlocksCounter i = 0 → 0 <= StartHeight i → sl_inv (with_SigningInfos <[c := i]> s).
Proof.
  intros [HC HP HS HN HI HB] Hc [Hfresh Hmap] Hn Hst.
  assert (∀ k, ValidatorMissedBlockBitmap s !! (ident s c, k) = None) as Hnone.
  { destruct Hmap as [Hno|Hmap]; [|done].
    intros k. apply eq_None_not_Some. intros [ch H]. destruct (HB _ _ _ Hno H) as (c1 & H1 & E). by eapply Hfresh. }
  split; cbn; try done; unfold ident in *; cbn.
  - intros c0 i0. rewrite lookup_insert. case_decide; [by intros [= <-]|apply HS].
  - intros c0 i0. rewrite lookup_insert. case_decide; [|apply HN]. subst c0. intros [= <-]. exists ∅.
    split; [by apply missed_set_none|]. by rewrite Hn, size_empty.
  - intros c1 c2 H1 H2 E. rewrite lookup_insert in H1, H2. do 2 case_decide; subst; try done; [|exfalso; naive_solver|by apply HI].
    exfalso. by eapply Hfresh.
  - intros a k ch Hno H. destruct (HB _ _ _ Hno H) as (c1 & ? & <-). exists c1. split; [|done]. rewrite lookup_insert. by case_decide.
Qed.
(** The record moves to the new address, the bitmap stays under the identifier. *)
Lemma sl_inv_rotate s old new i i' x : sl_inv s → SigningInfos s !! old = Some i →
  (∀ j, SigningInfos s !! new = Some j → overwritable j) → old ≠ new →
  rotated old new (sl_staking s) x → MissedBlocksCounter i' = MissedBlocksCounter i → StartHeight i' = StartHeight i →
  sl_inv (with_SigningInfos (delete old) (with_SigningInfos <[new := i']> (with_staking x s))).
Proof.
  intros [HC HP HS HN HI HB] Ho Hnew Hne [Hx1 Hx2] Hn Hst.
  assert (∀ c i0, delete old (<[new := i']> (SigningInfos s)) !! c = Some i0 →
            (c = new ∧ i0 = i') ∨ (c ≠ new ∧ c ≠ old ∧ SigningInfos s !! c = Some i0)) as Hdom.
  { intros c i0 [? H]%lookup_delete_Some. rewrite lookup_insert in H. case_decide; naive_solver. }
  assert (∀ c, is_Some (delete old (<[new := i']> (SigningInfos s)) !! c) →
            ∃ c0, is_Some (SigningInfos s !! c0) ∧ identifier x c = identifier (sl_staking s) c0 ∧
                  ((c = new ∧ c0 = old) ∨ (c ≠ old ∧ c0 = c))) as Hback.
  { intros c [i0 [[-> ->]|(?&?&?)]%Hdom]; [exists old|exists c]; rewrite ?Hx1, ?Hx2 by done; naive_solver. }
  split; cbn; try done; unfold ident in *; cbn.
  - intros c i0 [[-> ->]|(?&?&?)]%Hdom; [rewrite Hst|]; eauto.
  - intros c i0 [[-> ->]|(?&?&?)]%Hdom.
    + destruct (HN _ _ Ho) as (M & ? & ?). exists M. rewrite Hx1. split; [done|congruence].
    + rewrite Hx2 by done. eauto.
  - intros c1 c2 (d1 & S1 & E1 & D1)%Hback (d2 & S2 & E2 & D2)%Hback E. rewrite E1, E2 in E.
    assert (d1 = d2) by (by apply HI). naive_solver.
  - intros a k ch Hno H. destruct (HB _ _ _ Hno H) as (c1 & H1 & <-). destruct (decide (c1 = old)) as [->|].
    + exists new. rewrite lookup_delete_ne, lookup_insert_eq by done. by eauto.
    + assert (c1 ≠ new) by (intros ->; destruct H1 as [j Hj]; by apply (Hno j), Hnew). exists c1.
      rewrite lookup_delete_ne, lookup_insert_ne by done. rewrite Hx2 by done. done.
Qed.

(** What a step does to the records that exist: none loses its tombstone, and a
    record follows its identifier. *)
Definition stones_stay s s' : Prop := ∀ c i, SigningInfos s !! c = Some i → Tombstoned i = true →
  ∃ c' i', SigningInfos s' !! c' = Some i' ∧ Tombstoned i' = true ∧ ident s' c' = ident s c.
#[global] Instance stones_stay_preorder : PreOrder stones_stay.
Proof.
  split; [intros s c i ??; by exists c, i|]. intros s1 s2 s3 H1 H2 c i Hc Hi.
  destruct (H1 c i Hc Hi) as (c1 & i1 & ? & ? & <-). by apply (H2 c1 i1).
Qed.
Lemma stones_stay_record s s' c i i' :
  SigningInfos s' = <[c := i']> (SigningInfos s) → (∀ a, ident s' a = ident s a) →
  SigningInfos s !! c = Some i → (Tombstoned i = true → Tombstoned i' = true) → stones_stay s s'.
Proof.
  clear overwritable.
  intros E Hid Hc Hi c1 i1 H1 Ht. rewrite E. destruct (decide (c1 = c)) as [->|].
  - exists c, i'. rewrite lookup_insert_eq. naive_solver.
  - exists c1, i1. by rewrite lookup_insert_ne.
Qed.
Lemma stones_stay_same s s' : SigningInfos s' = SigningInfos s → (∀ a, ident s' a = ident s a) → stones_stay s s'.
Proof. intros E Hid c i ??. exists c, i. by rewrite E, Hid. Qed.
Lemma vote_step_stones s s' : vote_step s s' → stones_stay s s'.
Proof.
  intros [->|(c & i & i' & m' & M' & x & H)]; [reflexivity|]. destruct_and! H. subst s'.
  eapply (stones_stay_record _ _ c i i'); try done. congruence.
Qed.

Lemma on_staking_bind_Ok {A B} (m : GoM S A) (k : A → GoM (SlashingState S) B) s r s' :
  (∀ x a, identifier (m x).2 a = identifier x a) → (on_staking m ≫= k) s = (Ok r, s') →
  ∃ b x, (∀ a, identifier x a = ident s a) ∧ k b (with_staking x s) = (Ok r, s').
Proof.
  intros Hm H. apply GoM_bind_Ok in H as (b & s1 & H1 & H). apply on_staking_ids in H1 as (x & -> & Hx); [|done]. by exists b, x.
Qed.
(** A run that only calls the staking keeper. *)
Definition only_staking s s' : Prop := ∃ x, s' = with_staking x s ∧ ∀ a, identifier x a = ident s a.
Lemma only_staking_trans s1 s2 s3 : only_staking s1 s2 → only_staking s2 s3 → only_staking s1 s3.
Proof. intros (x & -> & Hx) (y & -> & Hy). exists y. split; [done|]. intros a. rewrite Hy. apply Hx. Qed.
#[global] Instance only_staking_preorder : PreOrder only_staking.
Proof. split; [intros s; exists (sl_staking s); by destruct s|exact only_staking_trans]. Qed.
Lemma only_staking_call {A} (m : GoM S A) : (∀ x a, identifier (m x).2 a = identifier x a) → frame only_staking (on_staking m).
Proof. intros Hm s. unfold on_staking. specialize (Hm (sl_staking s)). destruct (m (sl_staking s)) as [r x]. by exists x. Qed.
Lemma only_staking_read {A} (m : GoM S A) : (∀ x, (m x).2 = x) → frame only_staking (on_staking m).
Proof. intros Hm. apply only_staking_call. intros x a. by rewrite Hm. Qed.
#[local] Hint Resolve only_staking_call only_staking_read ssl_Validator ssl_Delegation ssl_Slash ssl_Jail ssl_Unjail : frame.
Lemma Msg_Unjail_frame h a : frame only_staking (Msg_Unjail h a).
Proof. unfold Msg_Unjail, Keeper_Unjail. frame. Qed.
Lemma Keeper_Slash_frame h c fraction power height : frame only_staking (Keeper_SlashWithInfractionReason h c fraction power height).
Proof. unfold Keeper_SlashWithInfractionReason. frame. Qed.
Lemma Keeper_Jail_frame c : frame only_staking (Keeper_Jail c).
Proof. unfold Keeper_Jail. frame. Qed.

Lemma bonded_step_inv s h c s' : sl_inv s → 0 <= h_Height h →
  (SigningInfos s !! c = None → unused_identifier s c) →
  Hooks_AfterValidatorBonded h c s = (Ok tt, s') → sl_inv s' ∧ stones_stay s s'.
Proof.
  intros Hi Hh Hf H. unfold Hooks_AfterValidatorBonded in H. apply GoM_bind_Ok in H as (o & s1 & H1 & H). injection H1 as <- <-.
  destruct (SigningInfos s !! c) as [i|] eqn:Ec.
  - injection H as <-. split; [by eapply sl_inv_set|]. by eapply stones_stay_record.
  - apply GoM_bind_Ok in H as (i & s1 & H1 & H). apply GoM_bind_Ok in H1 as (str & s2 & H1 & H2).
    apply liftM_Ok in H1 as [_ ->]. injection H2 as <- <-. injection H as <-. split; [apply sl_inv_new; auto|].
    intros c1 i1 H1 ?. exists c1, i1. cbn. rewrite lookup_insert_ne by congruence. done.
Qed.
Lemma rotate_step_inv s old new x s' : sl_inv s → rotated (pk_Address old) (pk_Address new) (sl_staking s) x →
  pk_Address old ≠ pk_Address new → (∀ j, SigningInfos s !! pk_Address new = Some j → overwritable j) →
  Hooks_AfterConsensusPubKeyUpdate old new (with_staking x s) = (Ok tt, s') →
  sl_inv s' ∧ ((∀ j, overwritable j → Tombstoned j = false) → stones_stay s s').
Proof.
  intros Hi Hrot Hne Hnew H. unfold Hooks_AfterConsensusPubKeyUpdate, performConsensusPubKeyUpdate in H.
  apply GoM_bind_Ok in H as (u & s1 & H & H1). injection H1 as <-. apply GoM_bind_Ok in H as (u1 & s2 & H1 & H). injection H1 as <- <-.
  apply GoM_bind_Ok in H as (o & s2 & H1 & H). injection H1 as <- <-. cbn in H.
  destruct (SigningInfos s !! pk_Address old) as [i|] eqn:Eo; [|done].
  apply GoM_bind_Ok in H as (str & s2 & H1 & H). apply liftM_Ok in H1 as [_ ->]. injection H as _ <-.
  split.
  - apply sl_inv_keys. unshelve epose proof (sl_inv_rotate s (pk_Address old) (pk_Address new) i (set_si_Address str i) x _ _ _ _ _ _ _) as Hr;
      try done. exact (sl_inv_keys _ <[pk_Address new := new]> Hr).
  - intros Hlive c1 i1 H1 Ht. cbn. unfold ident. cbn. destruct Hrot as [Hx1 Hx2]. destruct (decide (c1 = pk_Address old)) as [->|].
    + exists (pk_Address new), (set_si_Address str i). rewrite lookup_delete_ne, lookup_insert_eq by done. rewrite Hx1. naive_solver.
    + assert (c1 ≠ pk_Address new) by (intros ->; specialize (Hlive i1 (Hnew i1 H1)); congruence). exists c1, i1. rewrite lookup_delete_ne, lookup_insert_ne, Hx2 by done. done.
Qed.
Lemma sl_step_inv s s' : sl_inv s → sl_step s s' → sl_inv s' ∧ ((∀ j, overwritable j → Tombstoned j = false) → stones_stay s s').
Proof.
  assert (∀ s s', sl_inv s → only_staking s s' → sl_inv s' ∧ stones_stay s s') as Hstk.
  { intros s1 s2 Hi (x & -> & Hx). split; [by apply sl_inv_staking|by apply stones_stay_same]. }
  assert (∀ f s, sl_inv s → sl_inv (with_AddrPubkeyRelation f s) ∧ stones_stay s (with_AddrPubkeyRelation f s)) as Hkeys.
  { intros f s1 Hi. split; [by apply sl_inv_keys|by apply stones_stay_same]. }
  intros Hi Hs. assert (∀ P : Prop, sl_inv s' ∧ stones_stay s s' → sl_inv s' ∧ (P → stones_stay s s')) as Hw by tauto.
  destruct Hs; [apply Hw..| |apply Hw|apply Hw|apply Hw|apply Hw|apply Hw].
  - destruct (BeginBlocker_inv h votes s s') as [Hr ?]; [done..|]. split; [done|].
    clear -Hr. induction Hr; [reflexivity|]. etransitivity; [by apply vote_step_stones|done].
  - apply Hstk; [done|]. by eapply frame_run; [apply Msg_Unjail_frame|].
  - unfold Slashing_UpdateParams in H0. apply GoM_bind_Ok in H0 as (u & s1 & H1 & H2). apply liftM_Ok in H1 as [_ ->].
    apply GoM_bind_Ok in H2 as (u1 & s1 & H1 & H2). apply liftM_Ok in H1 as [H1 ->]. injection H2 as <-.
    split; [|by apply stones_stay_same]. destruct Hi. split; try done. intros p [= <-].
    unfold SlashingParams_Validate, validateSignedBlocksWindow in H1. apply outcome_bind_Ok in H1 as (? & H1%guard_err_Ok & _). lia.
  - by eapply (bonded_step_inv s h c).
  - injection H as <-. by apply Hkeys.
  - unfold Hooks_AfterValidatorCreated in H. apply on_staking_bind_Ok in H as (v & x & Hx & H); [|intros; by rewrite ssl_Validator].
    apply GoM_bind_Ok in H as (pk & s1 & H1 & H). apply liftM_Ok in H1 as [_ ->]. injection H as <-.
    destruct (Hstk s (with_staking x s)) as [Hi1 Hr1]; [done|by exists x|]. destruct (Hkeys <[pk_Address pk := pk]> _ Hi1). split; [done|].
    by transitivity (with_staking x s).
  - by eapply (rotate_step_inv s old new x).
  - apply Hstk; [done|]. by eapply frame_run; [apply Keeper_Slash_frame|].
  - apply Hstk; [done|]. by eapply frame_run; [apply Keeper_Jail_frame|].
  - unfold JailUntil in H. apply GoM_bind_Ok in H as (o & s1 & H1 & H2). injection H1 as <- <-.
    destruct (SigningInfos s !! c) as [i|] eqn:Ec; [|done]. injection H2 as <-.
    split; [by eapply sl_inv_set; [..|cbn; eapply inv_start]|]. by eapply stones_stay_record.
  - unfold Tombstone in H. apply GoM_bind_Ok in H as (o & s1 & H1 & H2). injection H1 as <- <-.
    destruct (SigningInfos s !! c) as [i|] eqn:Ec; [|done]. apply GoM_bind_Ok in H2 as (u & s1 & H1 & H2).
    apply liftM_Ok in H1 as [_ ->]. injection H2 as <-.
    split; [by eapply sl_inv_set; [..|cbn; eapply inv_start]|]. by eapply stones_stay_record.
  - apply Hstk; [done|]. by exists x.
Qed.
Lemma sl_steps_inv s s' : sl_inv s → rtc sl_step s s' → sl_inv s' ∧ ((∀ j, overwritable j → Tombstoned j = false) → stones_stay s s').
Proof.
  intros Hi Hs. induction Hs as [|s s1 s2 H1 _ IH]; [done|]. destruct (sl_step_inv s s1 Hi H1) as [Hi1 Hr].
  destruct (IH Hi1) as [Hi2 Hr2]. split; [done|]. intros Hlive. transitivity s1; auto.
Qed.
End Invariant.
