(* ===== verification/SlashingWindow.v ===== *)
(** * Downtime: the bitmap decides like the list of the last blocks

    The bitmap with its counter is an optimised form of the list of a validator's
    last votes.  The reference is the list itself: a validator is punished at the
    first block at which it has been bonded for more than the window and has missed
    more than the allowed number of the last blocks of the window. *)
From S2P Require Import Prelude Bytes MathInt LegacyDec Coin CoinFacts Collections Account Vesting AuthKeeper Bank Validator Staking StakingBlock Hoare Slashing SlashingStaking SlashingFacts SlashingProps.

(** The votes of a validator since it was bonded, the last one first; [true] for a
    missed block. *)
Definition missed_in_window (w : Z) (votes : list bool) : Z := Z.of_nat (length (filter (λ b, b = true) (take (Z.to_nat w) votes))).
Definition should_punish (w maxMissed : Z) (votes : list bool) : bool :=
  (w <? Z.of_nat (length votes)) && (maxMissed <? missed_in_window w votes).

(** ** Counting a window of residues *)

Lemma count_zip (xs : list Z) (bs : list bool) (M : gset Z) :
  NoDup xs → length xs = length bs → (∀ k x b, xs !! k = Some x → bs !! k = Some b → (x ∈ M ↔ b = true)) →
  (∀ x, x ∈ M → x ∈ xs) → size M = length (filter (λ b, b = true) bs).
Proof.
  revert bs M. induction xs as [|x xs IH]; intros [|b bs] M Hnd Hl Hm Hin; try done.
  - cbn. apply size_empty_iff. intros x. split; [intros Hx%Hin; by apply elem_of_nil in Hx|set_solver].
  - apply NoDup_cons in Hnd as [Hx Hnd]. assert (size (M ∖ {[x]}) = length (filter (λ b, b = true) bs)) as E.
    { apply (IH bs (M ∖ {[x]})); [done|by injection Hl| |].
      - intros k y b' Hk Hb. pose proof (Hm (Datatypes.S k) y b' Hk Hb) as Hy. assert (y ≠ x); [|set_solver].
        intros ->. by apply Hx, (list_elem_of_lookup_2 _ k).
      - intros y Hy. apply elem_of_difference in Hy as [Hy Hne]. apply Hin, elem_of_cons in Hy. set_solver. }
    pose proof (Hm 0%nat x b eq_refl eq_refl) as Hb. rewrite filter_cons. destruct (decide (b = true)) as [->|Hnb].
    + cbn. rewrite <- E. assert ({[x]} ⊆ M) as Hs by set_solver. rewrite size_difference by done. rewrite size_singleton.
      pose proof (subseteq_size _ _ Hs) as Hsz. rewrite size_singleton in Hsz. lia.
    + rewrite <- E. f_equal. set_solver.
Qed.
Lemma mod_window_inj w n j k : 0 < w → 0 <= j < w → 0 <= k < w → (n - j) mod w = (n - k) mod w → j = k.
Proof.
  intros Hw Hj Hk E. pose proof (Z.div_mod (n - j) w ltac:(lia)) as E1. pose proof (Z.div_mod (n - k) w ltac:(lia)) as E2.
  rewrite E in E1. destruct (Z.lt_trichotomy ((n - j) / w) ((n - k) / w)) as [|[Eq|]]; [nia|rewrite Eq in E1; lia|nia].
Qed.
(** When the bits of the last [w] heights are the votes, the set of bits has as
    many elements as votes were missed. *)
Definition window_bits (w : Z) (votes : list bool) (M : gset Z) : Prop :=
  (∀ i, i ∈ M → 0 <= i < w) ∧
  ∀ j b, Z.of_nat j < w → votes !! j = Some b → ((Z.of_nat (length votes) - Z.of_nat j) mod w ∈ M ↔ b = true).
Lemma window_bits_count w votes M : 0 < w <= Z.of_nat (length votes) → window_bits w votes M →
  Z.of_nat (size M) = missed_in_window w votes.
Proof.
  intros Hw [HM Hb]. unfold missed_in_window. set (n := Z.of_nat (length votes)) in *.
  set (f := λ j : nat, (n - Z.of_nat j) mod w). f_equal. apply (count_zip (f <$> seq 0 (Z.to_nat w))).
  - apply NoDup_fmap_2_strong; [|apply NoDup_seq]. intros j k Hj Hk E. apply elem_of_seq in Hj, Hk.
    apply Nat2Z.inj, (mod_window_inj w n); [lia..|exact E].
  - rewrite length_fmap, length_seq, length_take. lia.
  - intros k x b Hk Hv. rewrite list_lookup_fmap in Hk. destruct (seq 0 (Z.to_nat w) !! k) as [j|] eqn:Ej; [|done].
    injection Hk as <-. apply lookup_seq in Ej as [-> Hlt]. rewrite lookup_take_lt in Hv by done. apply Hb; [lia|done].
  - intros x Hx. specialize (HM x Hx). apply list_elem_of_fmap. exists (Z.to_nat ((n - x) mod w)).
    pose proof (Z.mod_pos_bound (n - x) w ltac:(lia)). split; [|apply elem_of_seq; lia]. unfold f.
    rewrite Z2Nat.id by lia. rewrite Zminus_mod_idemp_r. replace (n - (n - x)) with x by lia. rewrite Z.mod_small; lia.
Qed.
(** A vote sets the bit of its height. *)
Lemma window_bits_vote w votes M b : 0 < w → window_bits w votes M →
  window_bits w (b :: votes) (flip b ((Z.of_nat (length votes) + 1) mod w) M).
Proof.
  intros Hw [HM Hb]. split.
  - intros i Hi. apply elem_of_flip in Hi as [[-> _]|[_ Hi]]; [|by apply HM]. apply Z.mod_pos_bound. lia.
  - intros [|j] b' Hj Hv; rewrite elem_of_flip.
    + injection Hv as <-. cbn [length]. replace (Z.of_nat (Datatypes.S (length votes)) - Z.of_nat 0) with (Z.of_nat (length votes) + 1) by lia.
      naive_solver.
    + cbn in Hv. specialize (Hb j b' ltac:(lia) Hv). cbn [length].
      replace (Z.of_nat (Datatypes.S (length votes)) - Z.of_nat (Datatypes.S j)) with (Z.of_nat (length votes) - Z.of_nat j) by lia.
      assert ((Z.of_nat (length votes) - Z.of_nat j) mod w ≠ (Z.of_nat (length votes) + 1) mod w) as Hne.
      { intros E. replace (Z.of_nat (length votes) - Z.of_nat j) with (Z.of_nat (length votes) + 1 - (Z.of_nat j + 1)) in E by lia.
        rewrite <- (Z.sub_0_r (Z.of_nat (length votes) + 1)) in E at 2. apply mod_window_inj in E; lia. }
      naive_solver.
Qed.

(** ** The parameters *)

Lemma MinSigned_valid p : SlashingParams_Validate p = Ok tt → SignedBlocksWindow p < 2 ^ 63 →
  0 < SignedBlocksWindow p ∧ ∃ ms, MinSignedPerWindowInt p = Ok ms ∧ 0 <= ms <= SignedBlocksWindow p.
Proof.
  intros Hv Hw. unfold SlashingParams_Validate, validateSignedBlocksWindow, validate_fraction in Hv.
  apply outcome_bind_Ok in Hv as (u & H1%guard_err_Ok & Hv). apply outcome_bind_Ok in Hv as (u1 & H2 & _).
  apply outcome_bind_Ok in H2 as (u2 & H2%guard_err_Ok & H3%guard_err_Ok).
  split; [lia|]. dec_simpl. pose proof precisionReuse_pos. apply Z.ltb_ge in H2, H3. apply Z.leb_gt in H1.
  unfold LegacyOneDec in H3.
  assert (MinSignedPerWindow p * SignedBlocksWindow p <= SignedBlocksWindow p * precisionReuse) as Hle by nia.
  pose proof (chopPrecisionAndRound_nonneg_ge (MinSignedPerWindow p * SignedBlocksWindow p) ltac:(nia)) as Hge.
  apply chopPrecisionAndRound_mono in Hle. rewrite chopPrecisionAndRound_exact in Hle.
  exists (chopPrecisionAndRound (MinSignedPerWindow p * SignedBlocksWindow p)). split; [|done].
  unfold MinSignedPerWindowInt, Dec_MulInt64, Dec_MulInt64Mut.
  assert (in_valid_range (MinSignedPerWindow p * SignedBlocksWindow p) = Ok (MinSignedPerWindow p * SignedBlocksWindow p)) as ->.
  { apply in_valid_range_Ok. split; [done|]. unfold dec_range, lowerLimit, upperLimit, LegacyOneDec in *. nia. }
  cbn. unfold Dec_RoundInt64, big_IsInt64. rewrite (proj2 (Z.leb_le _ _)), (proj2 (Z.ltb_lt _ _)) by lia. done.
Qed.

(** ** The votes of one validator *)

Section Downtime.
Context {S : Type} {sk : SlashingStakingKeeper S} {SL : SlashingStakingLaws S sk} {bitlib : BitSet} {BL : BitSetLaws bitlib}.
Context {vcfg : ValAddressConfig} {ccfg : ConsAddressConfig}.
Variable c : string.
Variable start : Z.
Variable params : SlashingParams.
Implicit Types s : SlashingState S.

(** The number of blocks a validator may miss in a window. *)
Definition max_missed : Z := match MinSignedPerWindowInt params with Ok ms => SignedBlocksWindow params - ms | _ => 0 end.

(** The vote address [addr] belongs to the validator with consensus address [c],
    which is not jailed. *)
Definition voter s (addr : string) : Prop :=
  ∃ v, sk_ValidatorByConsAddr addr (sl_staking s) = (Ok v, sl_staking s) ∧ Jailed v = false ∧ GetConsAddr v = Ok c.
(** What happens between two blocks leaves the record and the bitmap of [c]. *)
Definition quiet s s' : Prop :=
  SigningInfos s' !! c = SigningInfos s !! c ∧ ident s' c = ident s c ∧ chunks_ok (ValidatorMissedBlockBitmap s') ∧
  ∀ k, ValidatorMissedBlockBitmap s' !! (ident s c, k) = ValidatorMissedBlockBitmap s !! (ident s c, k).

(** [signed_blocks votes s]: the validator was bonded at height [start], has since
    voted at each height as in [votes] and was not punished.  At the beginning the
    bitmap may hold the misses of an earlier period. *)
Inductive signed_blocks : list bool → SlashingState S → Prop :=
| sb_bonded s i M : chunks_ok (ValidatorMissedBlockBitmap s) → SigningInfos s !! c = Some i → StartHeight i = start →
    missed_set (ValidatorMissedBlockBitmap s) (ident s c) M → MissedBlocksCounter i = Z.of_nat (size M) →
    (∀ j, j ∈ M → j < SignedBlocksWindow params) → signed_blocks [] s
| sb_quiet votes s s' : signed_blocks votes s → quiet s s' → signed_blocks votes s'
| sb_vote votes s h addr power signed s' : signed_blocks votes s → voter s addr →
    h_Height h = start + Z.of_nat (length votes) + 1 → h_Height h < 2 ^ 63 →
    should_punish (SignedBlocksWindow params) max_missed (is_absent signed :: votes) = false →
    HandleValidatorSignatureWithParams h params addr power signed s = (Ok tt, s') → signed_blocks (is_absent signed :: votes) s'.

(** The state between two blocks, as far as the validator is concerned. *)
Definition tracks (votes : list bool) s : Prop :=
  ∃ i M, chunks_ok (ValidatorMissedBlockBitmap s) ∧ SigningInfos s !! c = Some i ∧ StartHeight i = start ∧
    missed_set (ValidatorMissedBlockBitmap s) (ident s c) M ∧ MissedBlocksCounter i = Z.of_nat (size M) ∧
    window_bits (SignedBlocksWindow params) votes M.

Hypothesis Hparams : SlashingParams_Validate params = Ok tt.
Hypothesis Hw : SignedBlocksWindow params < 2 ^ 63.
Hypothesis Hstart : 0 <= start ∧ start + SignedBlocksWindow params < 2 ^ 63.
Hypothesis Hcons : ∃ str, ConsBytesToString c = Ok str.

Lemma max_missed_spec : 0 < SignedBlocksWindow params ∧ ∃ ms, MinSignedPerWindowInt params = Ok ms ∧
  max_missed = SignedBlocksWindow params - ms ∧ 0 <= ms <= SignedBlocksWindow params.
Proof.
  destruct (MinSigned_valid params Hparams Hw) as (? & ms & E & ?). split; [done|]. exists ms. unfold max_missed. by rewrite E.
Qed.

(** The votes lead to the decision of the reference. *)
Lemma tracks_vote votes s h addr power signed : tracks votes s → voter s addr →
  h_Height h = start + Z.of_nat (length votes) + 1 → h_Height h < 2 ^ 63 →
  ∃ i' m' M', chunks_ok m' ∧ missed_set m' (ident s c) M' ∧ MissedBlocksCounter i' = Z.of_nat (size M') ∧ StartHeight i' = start ∧
    (∀ a k, a ≠ ident s c → m' !! (a, k) = ValidatorMissedBlockBitmap s !! (a, k)) ∧
    (∃ i, SigningInfos s !! c = Some i ∧ i' = set_MissedBlocksCounter (MissedBlocksCounter i') i) ∧
    window_bits (SignedBlocksWindow params) (is_absent signed :: votes) M' ∧
    HandleValidatorSignatureWithParams h params addr power signed s =
    (if should_punish (SignedBlocksWindow params) max_missed (is_absent signed :: votes)
     then punish_downtime h c power i' else set_SigningInfo c i') (with_Bitmap (λ _, m') s).
Proof.
  intros (i & M & Hch & Hi & Hs & HM & HN & HW) (v & Hv & Hj & Hc) Hh Hh63.
  destruct max_missed_spec as (Hw0 & ms & Ems & Emax & Hms).
  set (b := is_absent signed). set (ix := window_index (StartHeight i) (SignedBlocksWindow params) (h_Height h)).
  destruct (int64_index (StartHeight i) (SignedBlocksWindow params) (h_Height h)) as [_ Hix]; [lia..|]. fold ix in Hix.
  assert (ix = (Z.of_nat (length votes) + 1) mod SignedBlocksWindow params) as Eix by (unfold ix, window_index; f_equal; lia).
  set (M' := flip b ix M). pose proof (size_flip b ix M (bit (ValidatorMissedBlockBitmap s) (ident s c) ix)) as HZ.
  rewrite (HM ix) in HZ. specialize (HZ ltac:(tauto)). fold M' in HZ.
  assert (window_bits (SignedBlocksWindow params) (b :: votes) M') as HW' by (unfold M'; rewrite Eix; by apply window_bits_vote).
  assert (0 <= Z.of_nat (size M') <= SignedBlocksWindow params) as HB by (split; [lia|]; apply size_indices; [lia|apply HW']).
  destruct (handle_run h params addr power signed s v c i) as (m' & Hb & E); try done; [lia|unfold moved_counter, counter_of; fold ix; fold b; lia|].
  fold ix in Hb, E. fold b in Hb, E. unfold moved_counter, counter_of in E.
  replace (MissedBlocksCounter i + _ - _) with (Z.of_nat (size M')) in E by lia.
  exists (set_MissedBlocksCounter (Z.of_nat (size M')) i), m', M'.
  pose proof Hb as (Hch' & _ & Hother). split; [done|]. split; [by apply (bit_set_missed _ _ _ _ _ M Hix Hb)|]. split; [done|].
  split; [done|]. split; [by intros; apply Hother|]. split; [by exists i|]. split; [done|]. rewrite E. unfold after_vote.
  rewrite (liftM_bind_run _ _ _ _ Ems). destruct Hcons as [str Hstr]. rewrite (liftM_bind_run _ _ _ _ Hstr).
  cbn [StartHeight set_MissedBlocksCounter MissedBlocksCounter]. rewrite !wrap_int64_id by lia. unfold should_punish. rewrite <- Emax.
  replace (StartHeight i + SignedBlocksWindow params <? h_Height h) with (SignedBlocksWindow params <? Z.of_nat (length (b :: votes)))
    by (apply eq_true_iff_eq; rewrite !Z.ltb_lt; cbn [length]; lia).
  destruct (Z.ltb_spec (SignedBlocksWindow params) (Z.of_nat (length (b :: votes)))) as [Hlen|]; [|done]. cbn [andb].
  rewrite (window_bits_count (SignedBlocksWindow params) (b :: votes) M'); [done|lia|done].
Qed.
Lemma signed_blocks_tracks votes s : signed_blocks votes s → tracks votes s.
Proof.
  induction 1 as [s i M Hch Hi Hs HM HN Hlt|votes s s' _ (i & M & Hch & Hi & Hs & HM & HN & HW) (Q1 & Q2 & Q3 & Q4)|
    votes s h addr power signed s' _ IH Hv Hh Hh63 Hnp H].
  - exists i, M. split_and!; try done. split; [|done]. intros j Hj. split; [by apply HM in Hj as [[? _] _]|by apply Hlt].
  - exists i, M. rewrite Q1. split_and!; try done. intros j. rewrite Q2, (HM j). unfold bit. by rewrite Q4.
  - destruct (tracks_vote votes s h addr power signed IH Hv Hh Hh63) as (i' & m' & M' & Hch & HM & HN & Hst & _ & _ & HW & E).
    rewrite E, Hnp in H. injection H as <-. exists i', M'. cbn. rewrite lookup_insert_eq. split_and!; done.
Qed.
End Downtime.
