(* ===== verification/SlashingTheorems.v ===== *)
(** * Theorems of the slashing module *)
From S2P Require Import Prelude Bytes MathInt LegacyDec Coin CoinFacts Collections Account Vesting AuthKeeper Bank Validator Staking StakingBlock StakingTheorems Hoare Slashing SlashingStaking SlashingFacts SlashingProps SlashingWindow.

(** The records that rotations may overwrite: all, none, or those without a
    tombstone. *)
Definition any_record (j : ValidatorSigningInfo) : Prop := True.
Definition no_record (j : ValidatorSigningInfo) : Prop := False.
Definition live_record (j : ValidatorSigningInfo) : Prop := Tombstoned j = false.

(** C19. The invariant of the slashing module.  Start from a state in which, for
    every record, the counter of missed blocks is the number of bits set in the
    bitmap of the validator and different records have different identifiers.  The
    same holds after any sequence of blocks, messages, hooks of the staking module,
    slashes, jailings and tombstonings: the counter that decides about punishments is
    never out of step with the bitmap, and a rotated key takes its missed blocks
    along, also when the rotation goes to the key of a removed validator and
    overwrites its record.  No bitmap is without a record as long as rotations go
    only to keys without one ([no_record]).  A validator that bonds for the first
    time must have an identifier that no other record and no left-over bitmap uses,
    which the code does not check; [bonded_on_misses] shows what happens otherwise. *)
Theorem missed_counter_exact {S : Type} {sk : SlashingStakingKeeper S} {SL : SlashingStakingLaws S sk} {bitlib : BitSet}
    {BL : BitSetLaws bitlib} {vcfg : ValAddressConfig} {ccfg : ConsAddressConfig} overwritable (s s' : SlashingState S) :
  sl_inv overwritable s → rtc (sl_step overwritable) s s' → sl_inv overwritable s'.
Proof. intros Hi Hs. by eapply sl_steps_inv. Qed.

(** C22. A tombstone stays unless a key rotation overwrites it.  Whatever happens
    after a validator was tombstoned, as long as no validator rotates to a key whose
    record is tombstoned, the record with its identifier, which moves with a rotated
    key, stays tombstoned, and no unjail message of that validator succeeds.  Such a
    rotation is possible once the tombstoned validator was removed, and
    [rotation_revives_tombstone] shows that it does remove the tombstone. *)
Theorem tombstone_permanent {S : Type} {sk : SlashingStakingKeeper S} {SL : SlashingStakingLaws S sk} {bitlib : BitSet}
    {BL : BitSetLaws bitlib} {vcfg : ValAddressConfig} {ccfg : ConsAddressConfig} (s s' : SlashingState S) c i :
  sl_inv live_record s → SigningInfos s !! c = Some i → Tombstoned i = true → rtc (sl_step live_record) s s' →
  ∃ c' i', SigningInfos s' !! c' = Some i' ∧ Tombstoned i' = true ∧ ident s' c' = ident s c ∧
    ∀ h addr a v r s'', ValStringToBytes addr = Ok a → (sk_Validator a (sl_staking s')).1 = Ok v → GetConsAddr v = Ok c' →
      Msg_Unjail h addr s' ≠ (Ok r, s'').
Proof.
  intros Hi Hc Ht Hs. destruct (sl_steps_inv live_record s s' Hi Hs) as [_ Hstay]. specialize (Hstay (λ j Hj, Hj)).
  destruct (Hstay c i Hc Ht) as (c' & i' & Hc' & Ht' & Hid). exists c', i'. split_and!; [done..|].
  intros h addr a v r s'' Ha Hv Hcons H. unfold Msg_Unjail in H. rewrite Ha in H. rewrite (liftM_bind_run _ _ a) in H by done.
  unfold Keeper_Unjail in H. rewrite (GoM_bind_run _ _ v s' s') in H by (rewrite on_staking_read, Hv by apply ssl_Validator; done).
  apply GoM_bind_Ok in H as (d & s1 & H1 & H). rewrite on_staking_read in H1 by apply ssl_Delegation. injection H1 as _ <-.
  do 4 (apply GoM_bind_Ok in H as (? & s1 & H1 & H); apply liftM_Ok in H1 as [_ ->]).
  rewrite (liftM_bind_run _ _ c') in H by done. apply GoM_bind_Ok in H as (o & s1 & H1 & H). injection H1 as <- <-.
  rewrite Hc' in H. apply GoM_bind_Ok in H as (? & s1 & H1 & H). apply liftM_Ok in H1 as [H1 _]. cbn in H1. by rewrite Ht' in H1.
Qed.

(** C20. Downtime is decided as by the list of the last votes.  Let a validator be
    bonded at height [start], vote at each height since, and not have been punished.
    At the next block the begin blocker slashes and jails it, for the height two
    blocks earlier, exactly if it has been bonded for more than the window and has
    missed more than the allowed number of the last blocks of the window, however
    many it had missed in earlier periods.  Then it is jailed for the configured
    time, its counter is zero and its bitmap empty.  Otherwise the staking module is
    not touched and, once the window is full, the counter is the number of missed
    blocks in it. *)
Theorem downtime_decision {S : Type} {sk : SlashingStakingKeeper S} {SL : SlashingStakingLaws S sk} {bitlib : BitSet}
    {BL : BitSetLaws bitlib} {vcfg : ValAddressConfig} {ccfg : ConsAddressConfig} c start params votes (s : SlashingState S)
    h addr power signed :
  SlashingParams_Validate params = Ok tt → 0 <= start → start + SignedBlocksWindow params < 2 ^ 63 → is_ok (ConsBytesToString c) = true →
  signed_blocks c start params votes s → voter c s addr → h_Height h = start + Z.of_nat (length votes) + 1 → h_Height h < 2 ^ 63 →
  let votes' := is_absent signed :: votes in
  let w := SignedBlocksWindow params in
  if should_punish w (max_missed params) votes' then
    ∀ burned x1 x2, sl_Params s = Some params →
      sk_SlashWithInfractionReason h c (h_Height h - 2) power (SlashFractionDowntime params) (sl_staking s) = (Ok burned, x1) →
      sk_Jail c x1 = (Ok tt, x2) →
      ∃ s' i', HandleValidatorSignatureWithParams h params addr power signed s = (Ok tt, s') ∧ sl_staking s' = x2 ∧
        SigningInfos s' !! c = Some i' ∧ JailedUntil i' = h_Time h + DowntimeJailDuration params ∧ MissedBlocksCounter i' = 0 ∧
        ∀ k, ValidatorMissedBlockBitmap s' !! (ident s c, k) = None
  else ∃ s' i', HandleValidatorSignatureWithParams h params addr power signed s = (Ok tt, s') ∧ sl_staking s' = sl_staking s ∧
    SigningInfos s' !! c = Some i' ∧ (w <= Z.of_nat (length votes') → MissedBlocksCounter i' = missed_in_window w votes').
Proof.
  intros Hp Hst Hw Hc Hb Hv Hh Hh63. assert (∃ str, ConsBytesToString c = Ok str) as Hcons.
  { destruct (ConsBytesToString c) as [str| |]; [by exists str|done..]. }
  destruct (signed_blocks_tracks c start params Hp ltac:(lia) ltac:(lia) Hcons votes s Hb) as (i & M & Ht).
  destruct (tracks_vote c start params Hp ltac:(lia) ltac:(lia) Hcons votes s h addr power signed) as
    (i' & m' & M' & _ & _ & Hn & _ & _ & _ & HW & E); [by exists i, M|done..|].
  destruct (max_missed_spec params Hp ltac:(lia)) as [Hw0 _]. cbv zeta. destruct (should_punish _ _ _).
  - intros burned x1 x2 Hpar H1 H2. rewrite E. unfold punish_downtime.
    rewrite wrap_int64_id by (unfold ValidatorUpdateDelay; lia).
    replace (h_Height h - ValidatorUpdateDelay - 1) with (h_Height h - 2) by (unfold ValidatorUpdateDelay; lia).
    set (s1 := with_Bitmap (λ _, m') s).
    assert (∀ x, get_sl_Params (with_staking x s1) = (Ok params, with_staking x s1)) as Hget.
    { intros x. unfold get_sl_Params, mbind, GoM_bind, readM, liftM. cbn. by rewrite Hpar. }
    assert (get_SlashFractionDowntime s1 = (Ok (SlashFractionDowntime params), s1)) as E1.
    { unfold get_SlashFractionDowntime, get_sl_Params, mbind, GoM_bind, readM, liftM. cbn. by rewrite Hpar. }
    rewrite (GoM_bind_run _ _ _ _ _ E1). rewrite (GoM_bind_run _ _ burned s1 (with_staking x1 s1)) by (unfold on_staking; cbn; by rewrite H1).
    rewrite (GoM_bind_run _ _ tt (with_staking x1 s1) (with_staking x2 s1)) by (unfold on_staking; cbn; by rewrite H2).
    rewrite (GoM_bind_run _ _ (DowntimeJailDuration params) (with_staking x2 s1) (with_staking x2 s1))
      by (unfold get_DowntimeJailDuration; by rewrite (GoM_bind_run _ _ _ _ _ (Hget x2))).
    unfold DeleteMissedBlockBitmap. assert (identifier x2 c = ident s c) as Hx2.
    { pose proof (ssl_Jail c x1 c) as J. rewrite H2 in J. pose proof (ssl_Slash h c (h_Height h - 2) power (SlashFractionDowntime params) (sl_staking s) c) as K.
      rewrite H1 in K. cbn in J, K. by rewrite J, K. }
    eexists _, _. split; [|split_and!].
    + unfold mbind at 1, GoM_bind at 1. rewrite (GoM_bind_run _ _ _ _ _ (getPreviousConsKey_run c _)). reflexivity.
    + done.
    + cbn. by rewrite lookup_insert_eq.
    + done.
    + done.
    + intros k. cbn. apply map_lookup_filter_None. right. intros ch _ Hn1. apply Hn1. cbn. unfold ident in *. cbn. congruence.
  - rewrite E. eexists _, _. split; [reflexivity|]. cbn. rewrite lookup_insert_eq. split_and!; [done..|]. intros Hlen.
    rewrite Hn. apply window_bits_count; [|done]. cbn [length]. lia.
Qed.

(** ** A chain with one validator *)

#[local] Existing Instance default_config.
#[local] Existing Instance acfg_id.
#[local] Existing Instance vcfg_id.
Definition ccfg_id : ConsAddressConfig := {| ConsBytesToString := Ok; ConsStringToBytes := Ok |}.
#[local] Existing Instance ccfg_id.
(** Sets of bits as strings of the characters 0 and 1, which are their own binary
    form. *)
Definition zero_char : Ascii.ascii := Ascii.ascii_of_nat 48.
Definition one_char : Ascii.ascii := Ascii.ascii_of_nat 49.
Fixpoint put_bit (n : nat) (c : Ascii.ascii) (s : string) : string :=
  match n, s with
  | O, EmptyString => String c EmptyString
  | O, String _ rest => String c rest
  | Datatypes.S n, EmptyString => String zero_char (put_bit n c EmptyString)
  | Datatypes.S n, String x rest => String x (put_bit n c rest)
  end.
Definition bits01 : BitSet := {|
  bitset := string;
  bs_New _ := "";
  bs_Test b i := match String.get (Z.to_nat i) b with Some c => Ascii.eqb c one_char | None => false end;
  bs_Set b i := put_bit (Z.to_nat i) one_char b;
  bs_Clear b i := put_bit (Z.to_nat i) zero_char b;
  bs_MarshalBinary := Ok;
  bs_UnmarshalBinary := Ok;
|}.
#[local] Existing Instance bits01.
Lemma get_put_bit n m c s : String.get m (put_bit n c s) = if decide (n = m) then Some c else
  match String.get m s with Some x => Some x | None => if decide (m < n)%nat then Some zero_char else None end.
Proof.
  revert m s. induction n as [|n IH]; intros [|m] [|x s]; cbn; try done.
  - by destruct (String.get m s).
  - by rewrite IH; repeat case_decide; try lia; subst; destruct m.
  - rewrite IH. repeat case_decide; try lia; done.
Qed.
#[local] Instance bits01_laws : BitSetLaws bits01.
Proof.
  split; cbn.
  - by intros n i; destruct (Z.to_nat i).
  - intros b i j Hi Hj. rewrite get_put_bit. destruct (Z.eqb_spec i j) as [->|]; [by rewrite decide_True|].
    rewrite decide_False by lia. destruct (String.get (Z.to_nat j) b); [done|by case_decide].
  - intros b i j Hi Hj. rewrite get_put_bit. destruct (Z.eqb_spec i j) as [->|]; [by rewrite decide_True|].
    rewrite decide_False by lia. destruct (String.get (Z.to_nat j) b); [done|by case_decide].
  - intros b. by exists b, b.
Qed.
#[local] Instance no_hooks_ids : HooksKeepIds no_hooks.
Proof. split; intros; intros s; done. Qed.
#[local] Instance sk0 : SlashingStakingKeeper StakingState := staking_keeper stk_keeper no_hooks.

(** Alice is bonded at height 1; the window is of one block, none of which may be
    missed. *)
Definition sl_params0 : SlashingParams := mkSlashingParams 1 (10 ^ 18) (600 * 10 ^ 9) (5 * 10 ^ 16) (10 ^ 16).
Definition info_alice : ValidatorSigningInfo := NewValidatorSigningInfo "alice-key" 1 0 false 0.
Definition sl0 : SlashingState StakingState := mkSlashingState (Some sl_params0) ∅ ∅ ∅ stk2.
Definition sl1 : SlashingState StakingState := (Hooks_AfterValidatorBonded (header0 10 1) "alice-key" sl0).2.
Definition run_vote (h : Header) (flag : BlockIDFlag) (s : SlashingState StakingState) : SlashingState StakingState :=
  (HandleValidatorSignatureWithParams h sl_params0 "alice-key" 5 flag s).2.
Definition sl2 : SlashingState StakingState := run_vote (header0 20 2) BlockIDFlagCommit sl1.
Definition vote_alice : VoteInfo := mkVoteInfo "alice-key" 5 BlockIDFlagCommit.
Definition sl_block : SlashingState StakingState := (BeginBlocker (header0 20 2) [vote_alice] sl1).2.

Lemma run_ok {A} (m : GoM (SlashingState StakingState) A) s r : (m s).1 = Ok r → m s = (Ok r, (m s).2).
Proof. destruct (m s). by intros [= ->]. Qed.
Lemma sl0_inv overwritable : sl_inv overwritable sl0.
Proof. split; cbn; try done. intros p [= <-]. done. Qed.
Lemma sl1_step overwritable : sl_step overwritable sl0 sl1.
Proof.
  eapply (step_bonded _ _ (header0 10 1) "alice-key"); [done| |].
  - intros _. split; [|right; intros k; apply lookup_empty]. intros c' [x H]. cbn in H. rewrite lookup_empty in H. discriminate H.
  - apply run_ok. vm_compute. reflexivity.
Qed.

(** Alice and Carol are bonded, Alice votes, and rotates to Carol's key, whose record
    is replaced. *)
Definition alice_key : PubKey := mkPubKey "secp256k1" "alice-key".
Definition carol_key : PubKey := mkPubKey "secp256k1" "carol-key".
Definition sl_carol : SlashingState StakingState := (Hooks_AfterValidatorBonded (header0 20 2) "carol-key" sl_block).2.
Definition stk_rotated : StakingState := with_ConsAddrToValidatorIdentifierMap (λ _, {["carol-key" := "alice-key"]}) (sl_staking sl_carol).
Definition sl_rotated : SlashingState StakingState :=
  (Hooks_AfterConsensusPubKeyUpdate alice_key carol_key (with_staking stk_rotated sl_carol)).2.
Lemma sl_block_steps overwritable : rtc (sl_step overwritable) sl0 sl_block.
Proof.
  eapply rtc_l; [apply sl1_step|]. apply rtc_once. apply (step_begin_block _ _ (header0 20 2) [vote_alice]); [done|].
  apply (run_ok (BeginBlocker (header0 20 2) [vote_alice]) sl1). vm_compute. reflexivity.
Qed.
Lemma ident_unrotated (s : SlashingState StakingState) c : ConsAddrToValidatorIdentifierMap (sl_staking s) !! c = None → ident s c = c.
Proof. intros E. unfold ident, identifier. cbn. by rewrite E. Qed.
Lemma missed_counter_exact_witness :
  rtc (sl_step any_record) sl0 sl_rotated ∧ sl_inv any_record sl_rotated ∧
  SigningInfos sl_carol !! "carol-key" ≠ None ∧ SigningInfos sl_rotated !! "alice-key" = None.
Proof.
  assert (rtc (sl_step any_record) sl0 sl_rotated) as Hs.
  { etransitivity; [apply sl_block_steps|]. apply (rtc_l _ _ sl_carol).
    - eapply (step_bonded _ _ (header0 20 2) "carol-key"); [done| |].
      + intros _. split; [|right; intros k; by vm_compute].
        intros c' [x H]. rewrite !ident_unrotated; [|by vm_compute|].
        * intros ->. by vm_compute in H.
        * assert (ConsAddrToValidatorIdentifierMap (sl_staking sl_block) = ∅) as -> by (vm_compute; reflexivity). apply lookup_empty.
      + apply (run_ok (Hooks_AfterValidatorBonded (header0 20 2) "carol-key") sl_block). vm_compute. reflexivity.
    - apply rtc_once, (step_rotated _ _ alice_key carol_key stk_rotated); [|done|done|].
      + assert (ConsAddrToValidatorIdentifierMap (sl_staking sl_carol) = ∅) as E by (vm_compute; reflexivity).
        split; [unfold identifier; cbn; by rewrite E|]. intros a Ha. unfold identifier. cbn. rewrite E, lookup_empty. by rewrite lookup_singleton_ne.
      + apply (run_ok (Hooks_AfterConsensusPubKeyUpdate alice_key carol_key) (with_staking stk_rotated sl_carol)). vm_compute. reflexivity. }
  split; [exact Hs|]. split; [exact (missed_counter_exact any_record sl0 sl_rotated (sl0_inv _) Hs)|].
  split; [vm_compute; discriminate|vm_compute; reflexivity].
Defined.

Definition sl_stone : SlashingState StakingState := (Tombstone "alice-key" sl_block).2.
Lemma sl_stone_step overwritable : sl_step overwritable sl_block sl_stone.
Proof. eapply (step_tombstone _ _ "alice-key"). apply (run_ok (Tombstone "alice-key") sl_block). vm_compute. reflexivity. Qed.
(** A block after the tombstone. *)
Definition sl_later : SlashingState StakingState := (BeginBlocker (header0 30 3) [vote_alice] sl_stone).2.
Lemma tombstone_permanent_witness :
  rtc (sl_step live_record) sl_stone sl_later ∧
  ∃ c' i', SigningInfos sl_later !! c' = Some i' ∧ Tombstoned i' = true ∧ ident sl_later c' = ident sl_stone "alice-key" ∧
    ∀ h addr a v r s'', ValStringToBytes addr = Ok a → (sk_Validator a (sl_staking sl_later)).1 = Ok v → GetConsAddr v = Ok c' →
      Msg_Unjail h addr sl_later ≠ (Ok r, s'').
Proof.
  assert (rtc (sl_step live_record) sl_stone sl_later) as Hl.
  { apply rtc_once. apply (step_begin_block _ _ (header0 30 3) [vote_alice]); [done|].
    apply (run_ok (BeginBlocker (header0 30 3) [vote_alice]) sl_stone). vm_compute. reflexivity. }
  split; [exact Hl|]. assert (rtc (sl_step live_record) sl0 sl_stone) as Hs by (eapply rtc_r; [apply sl_block_steps|apply sl_stone_step]).
  destruct (sl_steps_inv live_record sl0 sl_stone (sl0_inv _) Hs) as [Hi _].
  eapply (tombstone_permanent sl_stone sl_later "alice-key"); [exact Hi|by vm_compute|done|exact Hl].
Defined.

Lemma sl1_blocks : signed_blocks "alice-key" 1 sl_params0 [] sl1.
Proof. eapply (sb_bonded _ _ _ sl1 info_alice ∅); [done|by vm_compute|done|by apply missed_set_none|done|set_solver]. Qed.
Definition alice_val : Validator :=
  mkValidator "alice" (Some (mkPubKey "secp256k1" "alice-key")) false Bonded 5000000 (5000000 * 10 ^ 18) 0 0
    (mkCommission 0 0 0 10) 1 desc0.
Lemma alice_votes s : (sk_ValidatorByConsAddr "alice-key" (sl_staking s)).1 = Ok alice_val → voter "alice-key" s "alice-key".
Proof.
  intros H. exists alice_val. split; [|split; reflexivity].
  pose proof (ssl_ValidatorByConsAddr "alice-key" (sl_staking s)) as Hs.
  rewrite (surjective_pairing (sk_ValidatorByConsAddr "alice-key" (sl_staking s))). by rewrite H, Hs.
Qed.
Lemma sl1_voter : voter "alice-key" sl1 "alice-key".
Proof. apply alice_votes. vm_compute. reflexivity. Qed.
Lemma sl2_voter : voter "alice-key" sl2 "alice-key".
Proof. apply alice_votes. vm_compute. reflexivity. Qed.
Lemma sl2_blocks : signed_blocks "alice-key" 1 sl_params0 [false] sl2.
Proof.
  apply (sb_vote "alice-key" 1 sl_params0 [] sl1 (header0 20 2) "alice-key" 5 BlockIDFlagCommit sl2 sl1_blocks sl1_voter);
    [reflexivity|reflexivity|vm_compute; reflexivity|].
  apply (run_ok (HandleValidatorSignatureWithParams (header0 20 2) sl_params0 "alice-key" 5 BlockIDFlagCommit) sl1).
  vm_compute. reflexivity.
Qed.
(** Alice misses the block at height 3. *)
Lemma downtime_decision_witness :
  ∃ s' i', HandleValidatorSignatureWithParams (header0 30 3) sl_params0 "alice-key" 5 BlockIDFlagAbsent sl2 = (Ok tt, s') ∧
    SigningInfos s' !! "alice-key" = Some i' ∧ JailedUntil i' = 30 + 600 * 10 ^ 9 ∧ MissedBlocksCounter i' = 0.
Proof.
  pose proof (downtime_decision "alice-key" 1 sl_params0 [false] sl2 (header0 30 3) "alice-key" 5 BlockIDFlagAbsent
    eq_refl ltac:(lia) ltac:(done) eq_refl sl2_blocks sl2_voter eq_refl ltac:(done)) as H.
  cbv zeta in H. change (should_punish _ _ _) with true in H.
  change (h_Height (header0 30 3) - 2) with 1 in H. change (SlashFractionDowntime sl_params0) with (10 ^ 16) in H.
  assert (sl_Params sl2 = Some sl_params0) as Hp by (vm_compute; reflexivity).
  destruct (sk_SlashWithInfractionReason (header0 30 3) "alice-key" 1 5 (10 ^ 16) (sl_staking sl2)) as [r x1] eqn:E1.
  assert (r = Ok 50000) as -> by (revert E1; vm_compute; congruence).
  destruct (sk_Jail "alice-key" x1) as [r x2] eqn:E2.
  assert (r = Ok tt) as ->.
  { assert (x1 = (sk_SlashWithInfractionReason (header0 30 3) "alice-key" 1 5 (10 ^ 16) (sl_staking sl2)).2) as -> by (by rewrite E1).
    revert E2. vm_compute. congruence. }
  destruct (H 50000 x1 x2 Hp eq_refl E2) as (s' & i' & Hh & _ & Hi & Hj & Hm & _). exists s', i'. split; [exact Hh|]. split; [exact Hi|]. split; [exact Hj|exact Hm].
Defined.

(** ** What the code does not do *)

(** A rotation to a key with a tombstoned record overwrites the record: the key is no
    longer tombstoned. *)
Theorem rotation_revives_tombstone (s : SlashingState StakingState) old new i j :
  SigningInfos s !! pk_Address old = Some i → Tombstoned i = false → SigningInfos s !! pk_Address new = Some j → Tombstoned j = true →
  pk_Address old ≠ pk_Address new →
  ∃ s' i', Hooks_AfterConsensusPubKeyUpdate old new s = (Ok tt, s') ∧ SigningInfos s' !! pk_Address new = Some i' ∧ Tombstoned i' = false.
Proof.
  intros Ho Hi _ _ Hne. unfold Hooks_AfterConsensusPubKeyUpdate, performConsensusPubKeyUpdate, mbind, GoM_bind, readM, modifyM, with_AddrPubkeyRelation.
  cbn [SigningInfos]. rewrite Ho. eexists _, _. split; [reflexivity|]. cbn. rewrite lookup_delete_ne, lookup_insert_eq by done. done.
Qed.
(** A rotation to a key with a record replaces the record but not the bitmap of its
    identifier, which then belongs to nobody. *)
Theorem rotation_orphans_bitmap :
  let s := mkSlashingState (Some sl_params0) {["alice-key" := info_alice; "carol-key" := set_MissedBlocksCounter 1 info_alice]} ∅
             {[("carol-key", 0) := "1"]} stk_rotated in
  let s' := (Hooks_AfterConsensusPubKeyUpdate alice_key carol_key s).2 in
  MissedBlocksCounter <$> SigningInfos s' !! "carol-key" = Some 0 ∧ ident s' "carol-key" = "alice-key" ∧
  ValidatorMissedBlockBitmap s' !! ("carol-key", 0) = Some "1".
Proof. vm_compute. done. Qed.
(** A validator that bonds for the first time starts with a counter of zero, also if
    bits are set under its identifier: the counter is then less than the number of
    bits.  The bits are those of a removed validator that had rotated away from this
    key, which the staking module accepts again. *)
Theorem bonded_on_misses (s : SlashingState StakingState) h c M :
  is_ok (ConsBytesToString c) = true → SigningInfos s !! c = None → missed_set (ValidatorMissedBlockBitmap s) (ident s c) M → M ≠ ∅ →
  ∃ s' i, Hooks_AfterValidatorBonded h c s = (Ok tt, s') ∧ SigningInfos s' !! c = Some i ∧ MissedBlocksCounter i = 0 ∧
    missed_set (ValidatorMissedBlockBitmap s') (ident s' c) M ∧ MissedBlocksCounter i < Z.of_nat (size M).
Proof.
  intros Hc Hn HM Hne. unfold Hooks_AfterValidatorBonded, mbind, GoM_bind, readM, liftM. rewrite Hn.
  destruct (ConsBytesToString c) as [str| |]; [|done|done]. eexists _, _. split; [reflexivity|]. cbn. rewrite lookup_insert_eq.
  split; [done|]. split; [done|]. split; [done|]. assert (size M ≠ 0%nat) by (by apply size_non_empty_iff; fold_leibniz). cbn. lia.
Qed.
(** The export counts the bits of the chunks that exist: the only missed block, of
    index 1024, is exported with index 0. *)
Theorem exported_index_shifts :
  let s := mkSlashingState (Some sl_params0) {["alice-key" := info_alice]} ∅ {[("alice-key", 1) := "1"]} stk0 in
  bit (ValidatorMissedBlockBitmap s) "alice-key" 1024 = true ∧
  (GetValidatorMissedBlocks "alice-key" s).1 = Ok [NewMissedBlock 0 true].
Proof. vm_compute. done. Qed.
(** The export reads the bitmap of the current address, not of the identifier: the
    missed blocks of a validator that rotated its key are left out. *)
Theorem export_omits_rotated :
  let s := mkSlashingState (Some sl_params0) {["new-key" := info_alice]} ∅ {[("alice-key", 0) := "1"]}
             (with_ConsAddrToValidatorIdentifierMap (λ _, {["new-key" := "alice-key"]}) stk0) in
  (GetMissedBlockBitmapValue "new-key" 0 s).1 = Ok true ∧ (GetValidatorMissedBlocks "new-key" s).1 = Ok [].
Proof. vm_compute. done. Qed.
(** The window is halved while the bits of the upper half are set.  They stay and
    count: the validator has signed the last five blocks, signs two more, and is
    jailed at the second. *)
Definition params_window (w : Z) : SlashingParams := mkSlashingParams w (5 * 10 ^ 17) (600 * 10 ^ 9) 0 0.
Theorem smaller_window_keeps_misses :
  let s := mkSlashingState (Some (params_window 10)) {["alice-key" := NewValidatorSigningInfo "alice-key" 1 0 false 5]} ∅
             {[("alice-key", 0) := "0000011111"]} stk2 in
  let run := (_ ← HandleValidatorSignature (header0 160 16) "alice-key" 5 BlockIDFlagCommit;
              _ ← Slashing_UpdateParams "gov" "gov" (params_window 5);
              HandleValidatorSignature (header0 170 17) "alice-key" 5 BlockIDFlagCommit) s in
  run.1 = Ok tt ∧ match Validators (sl_staking run.2) !! "alice" with Some v => Jailed v | None => false end = true.
Proof. vm_compute. done. Qed.
