(* ===== verification/Evidence.v ===== *)
(** * The evidence module: x/evidence

    Misbehaviour of validators: submitted by anyone through a router of handlers
    (keeper.go, msg_server.go, types/router.go), or found by the consensus engine,
    which is handled at the beginning of a block (abci.go, infraction.go).  The state
    is the evidence by hash and the state of the slashing module, which includes that
    of the staking module.  The wire form and the hash of an equivocation are
    parameters. *)
From S2P Require Import Prelude Bytes MathInt LegacyDec Coin CoinFacts Collections Account Vesting AuthKeeper Bank Validator Staking StakingBlock StakingTheorems Hoare Slashing SlashingStaking SlashingFacts SlashingProps SlashingTheorems.

Definition ErrNoEvidenceHandlerExists : string := "unregistered handler for evidence type".
Definition ErrInvalidEvidence : string := "invalid evidence".
Definition ErrEvidenceExists : string := "evidence already exists".
(** December 31, 9999, in nanoseconds. *)
Definition DoubleSignJailEndTime : Z := 253402300799 * 10 ^ 9.

(** ** Data: types/evidence.go *)

Record Equivocation := mkEquivocation { e_Height : Z; e_Time : Z; e_Power : Z; e_ConsensusAddress : string }.
(** An evidence: an equivocation, or evidence of an application's own type given by
    the values of its methods. *)
Inductive Evidence :=
| EquivocationEvidence (e : Equivocation)
| OtherEvidence (route hash : string) (valid : outcome unit).
Definition RouteEquivocation : string := "equivocation".
Definition Route (e : Evidence) : string := match e with EquivocationEvidence _ => RouteEquivocation | OtherEvidence r _ _ => r end.
Definition Equivocation_ValidateBasic (e : Equivocation) : outcome unit :=
  _ ← guard_err (e_Time e / 10 ^ 9 <=? 0) "invalid equivocation time";
  _ ← guard_err (e_Height e <? 1) "invalid equivocation height";
  _ ← guard_err (e_Power e <? 1) "invalid equivocation validator power";
  guard_err (str_eq (e_ConsensusAddress e) "") "invalid equivocation validator consensus address".
Definition ValidateBasic (e : Evidence) : outcome unit :=
  match e with EquivocationEvidence e => Equivocation_ValidateBasic e | OtherEvidence _ _ v => v end.

Inductive MisbehaviorType := Unknown | DuplicateVote | LightClientAttack.
Record CometEvidence := mkCometEvidence { ce_Type : MisbehaviorType; ce_Address : string; ce_Power : Z; ce_Height : Z; ce_Time : Z }.

(** [Time.Sub], which saturates. *)
Definition time_Sub (t u : Z) : Z := Z.max (- 2 ^ 63) (Z.min (2 ^ 63 - 1) (t - u)).

Section EvidenceKeeper.
Context {S : Type} {sk : SlashingStakingKeeper S} {bitlib : BitSet} {acfg : AddressConfig} {vcfg : ValAddressConfig} {ccfg : ConsAddressConfig}.
(** The hash of the encoded equivocation. *)
Variable equivocation_Hash : Equivocation → string.
(** The consensus keeper's parameters: the maximal age in blocks and in time. *)
Variable EvidenceParams : outcome (Z * Z).

Definition Hash (e : Evidence) : string := match e with EquivocationEvidence e => equivocation_Hash e | OtherEvidence _ h _ => h end.
Definition GetConsensusAddress (e : Equivocation) : string :=
  match ConsStringToBytes (e_ConsensusAddress e) with Ok a => a | _ => "" end.
Definition FromABCIEvidence (e : CometEvidence) : outcome Equivocation :=
  consAddr ← must (ConsBytesToString (ce_Address e));
  Ok (mkEquivocation (ce_Height e) (ce_Time e) (ce_Power e) consAddr).

(** ** State *)

Record EvidenceState := mkEvidenceState { Evidences : gmap string Evidence; ev_slashing : SlashingState S }.
Definition with_Evidences (f : gmap string Evidence → gmap string Evidence) (s : EvidenceState) : EvidenceState :=
  mkEvidenceState (f (Evidences s)) (ev_slashing s).
Definition on_slashing {A} (m : GoM (SlashingState S) A) : GoM EvidenceState A :=
  λ s, let '(r, x) := m (ev_slashing s) in (r, mkEvidenceState (Evidences s) x).

(** ** The router: types/router.go *)

Definition Handler : Type := Evidence → GoM EvidenceState unit.
Record Router := mkRouter { routes : gmap string Handler; sealed : bool }.
Definition NewRouter : Router := mkRouter ∅ false.
Definition Seal (r : Router) : outcome Router :=
  _ ← guard_panic (sealed r) "router already sealed"; Ok (mkRouter (routes r) true).
Definition HasRoute (r : Router) (path : string) : bool := bool_decide (is_Some (routes r !! path)).
Definition GetRoute (r : Router) (path : string) : outcome Handler :=
  match routes r !! path with Some h => Ok h | None => Panic "route does not exist" end.
(** [sdk.IsAlphaNumeric] of types/router.go: the expression ^[a-zA-Z0-9]+$. *)
Definition IsAlphaNumeric (s : string) : bool :=
  negb (str_eq s "") && forallb (λ b, in_range 97 122 b || in_range 65 90 b || in_range 48 57 b) (string_bytes s).
Definition AddRoute (path : string) (h : Handler) (r : Router) : outcome Router :=
  _ ← guard_panic (sealed r) "router sealed; cannot register route handler";
  _ ← guard_panic (negb (IsAlphaNumeric path)) "route expressions can only contain alphanumeric characters";
  _ ← guard_panic (HasRoute r path) "route has already been registered";
  Ok (mkRouter (<[path := h]> (routes r)) (sealed r)).
(** [SetRouter]: the router that is set, sealed. *)
Definition SetRouter (rtr : Router) (current : option Router) : outcome Router :=
  rtr ← (if sealed rtr then Ok rtr else Seal rtr);
  _ ← guard_panic (match current with Some _ => true | None => false end) "attempting to reset router on x/evidence";
  Ok rtr.

(** ** keeper/keeper.go *)

Definition GetEvidenceHandler (r : Router) (evidenceRoute : string) : outcome Handler :=
  _ ← guard_err (negb (HasRoute r evidenceRoute)) ErrNoEvidenceHandlerExists;
  GetRoute r evidenceRoute.
Definition wrap_invalid (m : GoM EvidenceState unit) : GoM EvidenceState unit :=
  λ s, match m s with (Err _, s') => (Err ErrInvalidEvidence, s') | r => r end.
Definition SubmitEvidence (r : Router) (evidence : Evidence) : GoM EvidenceState unit :=
  found ← readM (λ s, Evidences s !! Hash evidence);
  _ ← liftM (guard_err (match found with Some _ => true | None => false end) ErrEvidenceExists);
  _ ← liftM (guard_err (negb (HasRoute r (Route evidence))) ErrNoEvidenceHandlerExists);
  handler ← liftM (GetRoute r (Route evidence));
  _ ← wrap_invalid (handler evidence);
  modifyM (with_Evidences <[Hash evidence := evidence]>).

(** ** keeper/infraction.go *)

(** The consensus address the validator has now, and whether its key is known. *)
Definition current_consAddr (validator : Validator) (consAddr : string) : GoM EvidenceState (option string) :=
  if str_eq (OperatorAddress validator) "" then mret (Some consAddr)
  else
    valConsAddr ← liftM (GetConsAddr validator);
    pk ← readM (λ s, AddrPubkeyRelation (ev_slashing s) !! valConsAddr);
    mret (match pk with Some _ => Some valConsAddr | None => None end).
(** The evidence is too old in time and in blocks. *)
Definition too_old (h : Header) (e : Equivocation) : bool :=
  match EvidenceParams with
  | Ok (eviAgeBlocks, eviAgeDuration) =>
      (eviAgeDuration <? time_Sub (h_Time h) (e_Time e)) && (eviAgeBlocks <? wrap_int64 (h_Height h - e_Height e))
  | _ => false
  end.
(** Slashing, jailing and tombstoning of a confirmed equivocation. *)
Definition punish_equivocation (h : Header) (validator : Validator) (consAddr : string) (evidence : Equivocation) : GoM EvidenceState unit :=
  let distributionHeight := wrap_int64 (e_Height evidence - ValidatorUpdateDelay) in
  slashFractionDoubleSign ← on_slashing get_SlashFractionDoubleSign;
  _ ← on_slashing (Keeper_SlashWithInfractionReason h consAddr slashFractionDoubleSign (e_Power evidence) distributionHeight);
  _ ← (if negb (Jailed validator) then on_slashing (Keeper_Jail consAddr) else mret tt);
  _ ← on_slashing (JailUntil consAddr DoubleSignJailEndTime);
  _ ← on_slashing (Tombstone consAddr);
  modifyM (with_Evidences <[Hash (EquivocationEvidence evidence) := EquivocationEvidence evidence]>).
Definition handleEquivocationEvidence (h : Header) (evidence : Equivocation) : GoM EvidenceState unit :=
  let consAddr := GetConsensusAddress evidence in
  validator ← on_slashing (on_staking (sk_ValidatorByConsAddr consAddr));
  if IsUnbonded validator then mret tt
  else
    known ← current_consAddr validator consAddr;
    match known with
    | None => mret tt
    | Some consAddr =>
        if too_old h evidence then mret tt
        else
          ok ← on_slashing (HasValidatorSigningInfo consAddr);
          _ ← liftM (guard_panic (negb ok) "expected signing info for validator but not found");
          stone ← on_slashing (IsTombstoned consAddr);
          if (stone : bool) then mret tt else punish_equivocation h validator consAddr evidence
    end.

(** ** keeper/abci.go and keeper/msg_server.go *)

Definition Evidence_BeginBlocker (h : Header) (evidences : list CometEvidence) : GoM EvidenceState unit :=
  forM_ (λ evidence,
    match ce_Type evidence with
    | LightClientAttack | DuplicateVote =>
        evidence ← liftM (FromABCIEvidence evidence); handleEquivocationEvidence h evidence
    | Unknown => mret tt
    end) evidences.
(** The evidence of the message is [None] when its [Any] holds none. *)
Definition Msg_SubmitEvidence (r : Router) (submitter : string) (evidence : option Evidence) : GoM EvidenceState string :=
  _ ← liftM (match StringToBytes submitter with Err _ => Err ErrInvalidAddress | r => r end);
  match evidence with
  | None => errM ErrInvalidEvidence
  | Some evidence =>
      _ ← liftM (match ValidateBasic evidence with Err _ => Err ErrInvalidEvidence | r => r end);
      _ ← SubmitEvidence r evidence;
      mret (Hash evidence)
  end.

(** ** genesis.go *)

Definition EvidenceGenesis_Validate (evidence : list (option Evidence)) : outcome unit :=
  forM_ (λ e, match e with Some e => ValidateBasic e | None => Err "expected evidence" end) evidence.
Definition Evidence_InitGenesis (evidence : list (option Evidence)) : GoM EvidenceState unit :=
  _ ← liftM (EvidenceGenesis_Validate evidence);
  forM_ (λ e, match e with
              | None => errM "expected evidence"
              | Some evi =>
                  found ← readM (λ s, Evidences s !! Hash evi);
                  _ ← liftM (guard_err (match found with Some _ => true | None => false end) "evidence already exists");
                  modifyM (with_Evidences <[Hash evi := evi]>)
              end) evidence.
Definition Evidence_ExportGenesis : GoM EvidenceState (list Evidence) :=
  readM (λ s, map snd (merge_sort (λ x y : string * Evidence, String.le x.1 y.1) (map_to_list (Evidences s)))).
End EvidenceKeeper.
#[global] Arguments EvidenceState : clear implicits.
#[global] Arguments Handler : clear implicits.
#[global] Arguments Router : clear implicits.
