(* ===== verification/EvidenceProps.v ===== *)
(** * Properties of the evidence module *)
From S2P Require Import Prelude Bytes MathInt LegacyDec Coin CoinFacts Collections Account Vesting AuthKeeper Bank Validator Staking StakingBlock StakingTheorems Hoare Slashing SlashingStaking SlashingFacts SlashingProps SlashingTheorems Evidence.

Section EvidenceProps.
Context {S : Type} {sk : SlashingStakingKeeper S} {SL : SlashingStakingLaws S sk} {bitlib : BitSet} {BL : BitSetLaws bitlib}.
Context {acfg : AddressConfig} {vcfg : ValAddressConfig} {ccfg : ConsAddressConfig}.
Variable equivocation_Hash : Equivocation → string.
Variable EvidenceParams : outcome (Z * Z).
Implicit Types s : EvidenceState S.

Lemma on_slashing_Ok {A} (m : GoM (SlashingState S) A) s r s' : on_slashing m s = (Ok r, s') →
  ∃ x, m (ev_slashing s) = (Ok r, x) ∧ s' = mkEvidenceState (Evidences s) x.
Proof. unfold on_slashing. destruct (m (ev_slashing s)) as [r1 x]. intros [= -> <-]. by exists x. Qed.
Lemma on_slashing_run {A} (m : GoM (SlashingState S) A) s r x : m (ev_slashing s) = (r, x) →
  on_slashing m s = (r, mkEvidenceState (Evidences s) x).
Proof. unfold on_slashing. by intros ->. Qed.
Lemma evidence_state_eta s : mkEvidenceState (Evidences s) (ev_slashing s) = s.
Proof. by destruct s. Qed.

(** The validator an evidence is about, with its consensus address of today; its key
    is known. *)
Definition accused (e : Equivocation) s (v : Validator) (c : string) : Prop :=
  (sk_ValidatorByConsAddr (GetConsensusAddress e) (sl_staking (ev_slashing s))).1 = Ok v ∧ OperatorAddress v ≠ "" ∧ GetConsAddr v = Ok c ∧
  is_Some (AddrPubkeyRelation (ev_slashing s) !! c).
(** The decision of the handler once the validator is found. *)
Lemma handle_accused h e s v c : accused e s v c →
  handleEquivocationEvidence equivocation_Hash EvidenceParams h e s =
  if IsUnbonded v || too_old EvidenceParams h e then (Ok tt, s)
  else match SigningInfos (ev_slashing s) !! c with
       | None => (Panic "expected signing info for validator but not found", s)
       | Some i => if Tombstoned i then (Ok tt, s) else punish_equivocation equivocation_Hash h v c e s
       end.
Proof.
  intros (Hv & Hop & Hc & [pk Hpk]). unfold handleEquivocationEvidence.
  rewrite (GoM_bind_run _ _ v s s).
  2:{ rewrite (on_slashing_run _ _ (Ok v) (ev_slashing s)); [by rewrite evidence_state_eta|].
      rewrite on_staking_read by apply ssl_ValidatorByConsAddr. by rewrite Hv. }
  destruct (IsUnbonded v); [done|]. cbn [orb]. unfold current_consAddr.
  assert (str_eq (OperatorAddress v) "" = false) as -> by (rewrite str_eq_spec; by apply bool_decide_eq_false).
  rewrite (GoM_bind_run _ _ (Some c) s s).
  2:{ rewrite (liftM_bind_run _ _ c) by done. unfold mbind, GoM_bind, readM. by rewrite Hpk. }
  destruct (too_old _ _ _); [done|].
  rewrite (GoM_bind_run _ _ (bool_decide (is_Some (SigningInfos (ev_slashing s) !! c))) s s)
    by (unfold on_slashing, HasValidatorSigningInfo, readM; by rewrite evidence_state_eta).
  destruct (SigningInfos (ev_slashing s) !! c) as [i|] eqn:Ei; [|done]. rewrite (liftM_bind_run _ _ tt) by done.
  rewrite (GoM_bind_run _ _ (Tombstoned i) s s).
  - by destruct (Tombstoned i).
  - unfold on_slashing, IsTombstoned, readM. rewrite Ei. by rewrite evidence_state_eta.
Qed.

(** What the staking module is told to do: slash the validator by the fraction for
    double signing of the power it had, for the height of the stake that signed, and
    jail it if it is not jailed; nothing else changes its state. *)
Definition slashed_and_jailed (h : Header) (v : Validator) (c : string) (e : Equivocation) (x x' : SlashingState S) : Prop :=
  ∃ params burned y, sl_Params x = Some params ∧
    sk_SlashWithInfractionReason h c (wrap_int64 (e_Height e - ValidatorUpdateDelay)) (e_Power e) (SlashFractionDoubleSign params)
      (sl_staking x) = (Ok burned, y) ∧
    (if Jailed v then sl_staking x' = y else sk_Jail c y = (Ok tt, sl_staking x')).
Lemma Keeper_Slash_Ok h c fraction power height x x' : Keeper_SlashWithInfractionReason h c fraction power height x = (Ok tt, x') →
  ∃ burned y, sk_SlashWithInfractionReason h c height power fraction (sl_staking x) = (Ok burned, y) ∧ x' = with_staking y x.
Proof.
  intros H. apply GoM_bind_Ok in H as (burned & x1 & H1 & H). apply GoM_bind_Ok in H as (str & x2 & [_ ->]%liftM_Ok & [= <-]).
  unfold on_staking in H1. destruct (sk_SlashWithInfractionReason _ _ _ _ _ _) as [r y]. injection H1 as -> <-. by exists burned, y.
Qed.
Lemma Keeper_Jail_Ok c x x' : Keeper_Jail c x = (Ok tt, x') → ∃ y, sk_Jail c (sl_staking x) = (Ok tt, y) ∧ x' = with_staking y x.
Proof.
  intros H. apply GoM_bind_Ok in H as ([] & x1 & H1 & H). apply GoM_bind_Ok in H as (str & x2 & [_ ->]%liftM_Ok & [= <-]).
  unfold on_staking in H1. destruct (sk_Jail c _) as [r y]. injection H1 as -> <-. by exists y.
Qed.
(** A confirmed equivocation: slashed, jailed for ever, tombstoned and recorded. *)
Lemma punish_equivocation_Ok overwritable h v c e s s' i :
  SigningInfos (ev_slashing s) !! c = Some i →
  punish_equivocation equivocation_Hash h v c e s = (Ok tt, s') →
  slashed_and_jailed h v c e (ev_slashing s) (ev_slashing s') ∧ rtc (sl_step overwritable) (ev_slashing s) (ev_slashing s') ∧
  ident (ev_slashing s') c = ident (ev_slashing s) c ∧
  SigningInfos (ev_slashing s') !! c = Some (set_Tombstoned true (set_JailedUntil DoubleSignJailEndTime i)) ∧
  Evidences s' = <[equivocation_Hash e := EquivocationEvidence e]> (Evidences s).
Proof.
  intros Hc H. unfold punish_equivocation in H.
  apply GoM_bind_Ok in H as (f & s1 & H1 & H). apply on_slashing_Ok in H1 as (x1 & H1 & ->).
  apply GoM_bind_Ok in H1 as (params & y & [Hpar ->]%get_sl_Params_Ok & H1). injection H1 as <- <-.
  apply GoM_bind_Ok in H as ([] & s2 & H2 & H). apply on_slashing_Ok in H2 as (x2 & H2 & ->). cbn in H2.
  apply GoM_bind_Ok in H as ([] & s3 & H3 & H).
  apply GoM_bind_Ok in H as ([] & s4 & H4 & H). apply on_slashing_Ok in H4 as (x4 & H4 & ->).
  apply GoM_bind_Ok in H as ([] & s5 & H5 & H). apply on_slashing_Ok in H5 as (x5 & H5 & ->). injection H as <-. cbn in *.
  assert (only_staking (ev_slashing s) x2) as O2 by (by eapply frame_run; [apply Keeper_Slash_frame|]).
  pose proof (Keeper_Slash_Ok _ _ _ _ _ _ _ H2) as (burned & y2 & Hslash & E2).
  assert (Evidences s3 = Evidences s ∧ only_staking x2 (ev_slashing s3) ∧ rtc (sl_step overwritable) x2 (ev_slashing s3) ∧
    (if Jailed v then sl_staking (ev_slashing s3) = y2 else sk_Jail c y2 = (Ok tt, sl_staking (ev_slashing s3)))) as (E3 & O3 & R3 & J3).
  { destruct (Jailed v); cbn in H3; [injection H3 as <-; split_and!; [done|reflexivity|reflexivity|by subst x2]|].
    apply on_slashing_Ok in H3 as (x3 & H3 & ->). cbn in *. split; [done|].
    split; [by eapply frame_run; [apply Keeper_Jail_frame|]|]. split; [apply rtc_once; by eapply step_jail|].
    apply Keeper_Jail_Ok in H3 as (y3 & H3 & ->). by subst x2. }
  destruct O3 as (y3 & E3' & Hy3). destruct O2 as (y2' & E2' & Hy2). rewrite E2' in E3', Hy3, H2, R3.
  assert (SigningInfos (ev_slashing s3) = SigningInfos (ev_slashing s)) as E3i by (by rewrite E3').
  pose proof H4 as H4'. unfold JailUntil in H4. apply GoM_bind_Ok in H4 as (o & z & H4a & H4). injection H4a as <- <-.
  rewrite E3i, Hc in H4. injection H4 as <-.
  pose proof H5 as H5'. unfold Tombstone in H5. apply GoM_bind_Ok in H5 as (o & z & H5a & H5). injection H5a as <- <-. cbn in H5.
  rewrite lookup_insert_eq in H5. apply GoM_bind_Ok in H5 as (u & z & H5a & H5). apply liftM_Ok in H5a as [H5a%guard_err_Ok ->].
  injection H5 as <-. cbn in *. rewrite lookup_insert_eq.
  split_and!; [by exists params, burned, y2| |by unfold ident at 1; cbn; rewrite E3'; cbn; rewrite Hy3; apply Hy2|done|by rewrite E3].
  eapply rtc_l; [by eapply step_slash|]. etransitivity; [exact R3|].
  eapply rtc_l; [by eapply step_jail_until|]. apply rtc_once. by eapply step_tombstone.
Qed.
End EvidenceProps.

(** C21. A validator is punished for double signing, and at most once.  When the
    handler confirms the evidence, the staking module has slashed the validator by
    the fraction for double signing of the power in the evidence, for the height
    before the infraction, and jailed it unless it was jailed, and that is all that
    happened to its state; the record of the validator is tombstoned until the end of
    time and the evidence is stored.  In every later state of the slashing module,
    whatever happened in between, and even if the validator rotated its key, evidence
    against it, the same or another, changes nothing; excepted are runs in which a
    rotation goes to a key with a tombstoned record, which it overwrites
    ([rotation_revives_tombstone]). *)
Theorem equivocation_slashes_once {S : Type} {sk : SlashingStakingKeeper S} {SL : SlashingStakingLaws S sk} {bitlib : BitSet}
    {BL : BitSetLaws bitlib} {acfg : AddressConfig} {vcfg : ValAddressConfig} {ccfg : ConsAddressConfig}
    equivocation_Hash EvidenceParams h e (s s' : EvidenceState S) v c i :
  sl_inv live_record (ev_slashing s) → accused e s v c → IsUnbonded v = false → too_old EvidenceParams h e = false →
  SigningInfos (ev_slashing s) !! c = Some i → Tombstoned i = false →
  handleEquivocationEvidence equivocation_Hash EvidenceParams h e s = (Ok tt, s') →
  slashed_and_jailed h v c e (ev_slashing s) (ev_slashing s') ∧
  SigningInfos (ev_slashing s') !! c = Some (set_Tombstoned true (set_JailedUntil DoubleSignJailEndTime i)) ∧
  Evidences s' = <[equivocation_Hash e := EquivocationEvidence e]> (Evidences s) ∧
  ∀ (s2 : EvidenceState S) h2 e2 v2 c2, rtc (sl_step live_record) (ev_slashing s') (ev_slashing s2) → accused e2 s2 v2 c2 →
    ident (ev_slashing s2) c2 = ident (ev_slashing s) c → is_Some (SigningInfos (ev_slashing s2) !! c2) →
    handleEquivocationEvidence equivocation_Hash EvidenceParams h2 e2 s2 = (Ok tt, s2).
Proof.
  intros Hi Hacc Hu Ho Hc Ht H. rewrite (handle_accused equivocation_Hash EvidenceParams h e s v c Hacc), Hu, Ho, Hc, Ht in H. cbn in H.
  destruct (punish_equivocation_Ok equivocation_Hash live_record h v c e s s' i Hc H) as (Hp & Hs & Hid & Hc' & He).
  split; [done|]. split; [done|]. split; [done|]. intros s2 h2 e2 v2 c2 Hs2 Hacc2 Hid2 Hc2.
  destruct (sl_steps_inv live_record _ _ Hi Hs) as [Hi' _]. destruct (sl_steps_inv live_record _ _ Hi' Hs2) as [Hi2 Hst].
  destruct (Hst (λ j Hj, Hj) c _ Hc' eq_refl) as (c3 & i3 & H3 & Ht3 & Hid3).
  assert (c3 = c2) as -> by (apply (inv_ident _ _ Hi2); [by exists i3|done|congruence]).
  rewrite (handle_accused equivocation_Hash EvidenceParams h2 e2 s2 v2 c2 Hacc2), H3, Ht3. by destruct (_ || _).
Qed.

(** ** Alice signs twice *)

#[local] Existing Instance default_config.
#[local] Existing Instance acfg_id.
#[local] Existing Instance vcfg_id.
#[local] Existing Instance ccfg_id.
#[local] Existing Instance bits01.
#[local] Existing Instance bits01_laws.
#[local] Existing Instance sk0.
#[local] Existing Instance no_hooks_ids.
Definition ev1 : EvidenceState StakingState := mkEvidenceState ∅ (with_AddrPubkeyRelation <["alice-key" := mkPubKey "secp256k1" "alice-key"]> sl1).
Definition double_sign : Equivocation := mkEquivocation 1 (10 * 10 ^ 9) 5 "alice-key".
Definition hash0 (e : Equivocation) : string := "hash".
Definition eparams0 : outcome (Z * Z) := Ok (100, 1000).
Definition ev2 : EvidenceState StakingState := (handleEquivocationEvidence hash0 eparams0 (header0 30 3) double_sign ev1).2.
Lemma ev1_accused : accused double_sign ev1 alice_val "alice-key".
Proof. split; [vm_compute; reflexivity|]. split; [discriminate|]. split; [reflexivity|]. eexists. vm_compute. reflexivity. Qed.
(** A twentieth of her tokens is burned, and she is jailed. *)
Lemma equivocation_slashes_once_witness :
  slashed_and_jailed (header0 30 3) alice_val "alice-key" double_sign (ev_slashing ev1) (ev_slashing ev2) ∧
  (λ v, (Jailed v, Tokens v)) <$> Validators (sl_staking (ev_slashing ev1)) !! "alice" = Some (false, 5000000) ∧
  (λ v, (Jailed v, Tokens v)) <$> Validators (sl_staking (ev_slashing ev2)) !! "alice" = Some (true, 4750000) ∧
  SigningInfos (ev_slashing ev2) !! "alice-key" = Some (set_Tombstoned true (set_JailedUntil DoubleSignJailEndTime info_alice)).
Proof.
  destruct (sl_step_inv live_record sl0 sl1 (sl0_inv _) (sl1_step _)) as [Hi _].
  assert ((handleEquivocationEvidence hash0 eparams0 (header0 30 3) double_sign ev1).1 = Ok tt) as E by (vm_compute; reflexivity).
  destruct (equivocation_slashes_once hash0 eparams0 (header0 30 3) double_sign ev1 ev2 alice_val "alice-key" info_alice
    (sl_inv_keys live_record sl1 _ Hi) ev1_accused eq_refl eq_refl ltac:(vm_compute; reflexivity) eq_refl) as (Hp & Hc & _).
  - rewrite (surjective_pairing (handleEquivocationEvidence hash0 eparams0 (header0 30 3) double_sign ev1)), E. reflexivity.
  - split; [exact Hp|]. split; [vm_compute; reflexivity|]. split; [vm_compute; reflexivity|exact Hc].
Defined.
