(* ===== verification/DecCoinOk.v ===== *)
(** * What a successful operation on decimal coins returned

    The operations of types/dec_coin.go panic outside their range.  These lemmas
    start from a result and give its amounts, denomination by denomination; the
    sets are good: accepted by [Validate], with amounts a decimal can hold. *)
From S2P Require Import Prelude MathInt LegacyDec Coin CoinFacts DecCoin.

Section DecCoinOk.
Context {cfg : CoinConfig}.
Implicit Types a b r cs : DecCoins.

Lemma good_dec_sorted a : good_dec_coins a → denoms_sorted a.
Proof. intros [[_ H] _]. done. Qed.
Lemma good_dec_nonneg a d : good_dec_coins a → 0 <= amount a d.
Proof. intros [H _]. by apply valid_coins_amount_nonneg. Qed.
Lemma dec_range_opp x : dec_range x → dec_range (- x).
Proof. unfold dec_range, lowerLimit. lia. Qed.

Lemma removeZero_ranged cs : dec_ranged cs → dec_ranged (removeZeroCoins cs).
Proof. intros H. unfold dec_ranged in *. by apply removeZero_Forall. Qed.
Lemma safeAdd_ranged a : ∀ b r, dec_ranged a → dec_ranged b → DecCoins_safeAdd a b = Ok r → dec_ranged r.
Proof.
  unfold dec_ranged. induction a as [|ca a IHa]; intros b r Ha Hb H.
  { rewrite safeAdd_nil_l in H. injection H as <-. by apply removeZero_ranged. }
  revert r H. induction b as [|cb b IHb]; intros r H.
  { rewrite safeAdd_nil_r in H. injection H as <-. by apply removeZero_ranged. }
  rewrite safeAdd_cons in H.
  pose proof Ha as [Hca Ha']%Forall_cons. pose proof Hb as [Hcb Hb']%Forall_cons.
  destruct (String.compare (Denom ca) (Denom cb)); go_inv.
  - match goal with E : DecCoin_Add _ _ = Ok _ |- _ => apply DecCoin_Add_Ok in E as (_ & ? & ->) end.
    apply Forall_cons_opt; [done|]. eapply IHa; [done|exact Hb'|done].
  - apply Forall_cons_opt; [done|]. eapply IHa; [done|exact Hb|done].
  - apply Forall_cons_opt; [done|]. by apply IHb.
Qed.

(** A canonical set in range whose amounts are not negative and that has amounts only
    where good sets have them is good. *)
Lemma canonical_good r :
  canonical r → dec_ranged r → (∀ d, 0 <= amount r d) → (∀ d, amount r d ≠ 0 → denom_valid d = true) → good_dec_coins r.
Proof. intros Hc Hr Hn Hd. split; [by apply canonical_valid|done]. Qed.
Lemma good_dec_denom a d : good_dec_coins a → amount a d ≠ 0 → denom_valid d = true.
Proof. intros [[H _] _]. by apply valid_denom_of_amount. Qed.

Lemma DecCoins_Add_Ok a b r : good_dec_coins a → good_dec_coins b → DecCoins_Add a b = Ok r →
  good_dec_coins r ∧ ∀ d, amount r d = amount a d + amount b d.
Proof.
  intros Ha Hb H. destruct (dec_safeAdd_Ok a b r (good_dec_sorted a Ha) (good_dec_sorted b Hb) H) as [Hc Hm]. split; [|done].
  apply (canonical_good r); [done|by apply (safeAdd_ranged a b); [apply Ha|apply Hb|]| |]; intros d; rewrite Hm.
  - pose proof (good_dec_nonneg a d Ha). pose proof (good_dec_nonneg b d Hb). lia.
  - intros Hne. destruct (decide (amount a d = 0)); [apply (good_dec_denom b); [done|lia]|by apply (good_dec_denom a)].
Qed.
Lemma DecCoins_Sub_Ok a b r : good_dec_coins a → good_dec_coins b → DecCoins_Sub a b = Ok r →
  good_dec_coins r ∧ ∀ d, amount r d = amount a d - amount b d.
Proof.
  intros Ha Hb H. unfold DecCoins_Sub, DecCoins_SafeSub in H.
  apply outcome_bind_Ok in H as ([diff neg] & H1 & H). apply outcome_bind_Ok in H1 as (x & H1 & [= -> <-]).
  apply outcome_bind_Ok in H as (u & Hn%guard_panic_Ok & [= ->]).
  assert (denoms_sorted (DecCoins_negative b)) as Hs.
  { unfold denoms_sorted. change (DecCoins_negative b) with (Coins_negative b). rewrite negative_denoms. apply Hb. }
  assert (dec_ranged (DecCoins_negative b)) as Hrg.
  { destruct Hb as [_ Hb]. unfold dec_ranged, DecCoins_negative in *. rewrite Forall_map. eapply Forall_impl; [exact Hb|].
    intros c. apply dec_range_opp. }
  destruct (dec_safeAdd_Ok _ _ _ (good_dec_sorted a Ha) Hs H1) as [Hc Hm].
  assert (∀ d, amount r d = amount a d - amount b d) as Hm'.
  { intros d. rewrite Hm. change (DecCoins_negative b) with (Coins_negative b). rewrite negative_amount. lia. }
  split; [|done]. apply (canonical_good r); [done|by apply (safeAdd_ranged a (DecCoins_negative b)); [apply Ha| |]| |].
  - by apply (proj1 (IsAnyNegative_false r Hc)).
  - intros d. rewrite Hm'. intros Hne.
    destruct (decide (amount a d = 0)); [apply (good_dec_denom b); [done|lia]|by apply (good_dec_denom a)].
Qed.

(** *** Scaling *)

Lemma scale_fold_Ok op g cs : (∀ x, op x = in_valid_range (g x)) → (∀ x, 0 <= x → 0 <= g x) → ∀ res r,
  good_dec_coins res → Forall valid_coin cs → foldM (scale_step op) res cs = Ok r →
  good_dec_coins r ∧ ∀ d, amount r d = amount res d + amount (map_amounts g cs) d.
Proof.
  intros Hop Hg. induction cs as [|c cs IH]; intros res r Hres Hv H.
  { injection H as <-. split; [done|]. intros d. cbn. lia. }
  apply Forall_cons in Hv as [[Hd Hp] Hv]. cbn [foldM] in H. apply outcome_bind_Ok in H as (res' & Hs & H).
  unfold scale_step in Hs. rewrite Hop in Hs. apply outcome_bind_Ok in Hs as (amt & Ha & Hs). apply in_valid_range_Ok in Ha as [-> Hr].
  rewrite DecCoin_IsZero_eqb in Hs. cbn [Amount] in Hs.
  assert (good_dec_coins res' ∧ ∀ d, amount res' d = amount res d + amount [mkDecCoin (Denom c) (g (Amount c))] d) as [Hg' Hm'].
  { destruct (Z.eqb_spec (g (Amount c)) 0) as [E|E]; cbn [negb] in Hs.
    - injection Hs as <-. split; [done|]. intros d. cbn. rewrite E. case_decide; lia.
    - apply DecCoins_Add_Ok in Hs; [done|done|]. apply good_dec_coins_single; [done| |done]. specialize (Hg (Amount c)). lia. }
  destruct (IH res' r Hg' Hv H) as [Hgr Hm]. split; [done|]. intros d.
  change (map_amounts g (c :: cs)) with (map_amounts g [c] ++ map_amounts g cs). rewrite Hm, Hm', amount_app. cbn. lia.
Qed.
Lemma scale_loop_Ok op g cs r : (∀ x, op x = in_valid_range (g x)) → (∀ x, 0 <= x → 0 <= g x) → g 0 = 0 →
  good_dec_coins cs → scale_loop op cs = Ok r → good_dec_coins r ∧ ∀ d, amount r d = g (amount cs d).
Proof.
  intros Hop Hg H0 Hcs H. destruct (scale_fold_Ok op g cs Hop Hg [] r good_dec_coins_nil) as [Hr Hm]; [apply Hcs|done|].
  split; [done|]. intros d. rewrite Hm. cbn. apply amount_map_amounts; [|done]. apply denoms_sorted_nodup, Hcs.
Qed.

Lemma DecCoins_MulDec_Ok cs k r : 0 <= k → good_dec_coins cs → DecCoins_MulDec cs k = Ok r →
  good_dec_coins r ∧ ∀ d, amount r d = chopPrecisionAndRound (amount cs d * k).
Proof.
  intros Hk Hcs H. apply (scale_loop_Ok (λ z, Dec_Mul z k) (λ x, chopPrecisionAndRound (x * k)) cs r); [done| |done|done|done].
  intros x Hx. apply chopPrecisionAndRound_nonneg_ge. nia.
Qed.
Lemma DecCoins_MulDecTruncate_Ok cs k r : 0 <= k → good_dec_coins cs → DecCoins_MulDecTruncate cs k = Ok r →
  good_dec_coins r ∧ ∀ d, amount r d = Z.quot (amount cs d * k) precisionReuse.
Proof.
  intros Hk Hcs H. unfold DecCoins_MulDecTruncate in H. rewrite Dec_IsZero_eqb in H.
  destruct (Z.eqb_spec k 0) as [->|Hne].
  - injection H as <-. split; [apply good_dec_coins_nil|]. intros d. by rewrite Z.mul_0_r.
  - apply (scale_loop_Ok (λ z, Dec_MulTruncate z k) (λ x, Z.quot (x * k) precisionReuse) cs r); [done| |done|done|done].
    intros x Hx. apply Z.quot_pos; [nia|apply precisionReuse_pos].
Qed.
Lemma DecCoins_QuoDecTruncate_Ok cs k r : 0 < k → good_dec_coins cs → DecCoins_QuoDecTruncate cs k = Ok r →
  good_dec_coins r ∧ ∀ d, amount r d = Z.quot (amount cs d * precisionReuse) k.
Proof.
  intros Hk Hcs H. unfold DecCoins_QuoDecTruncate in H. rewrite Dec_IsZero_eqb, (proj2 (Z.eqb_neq k 0)) in H by lia.
  cbn [guard_panic mbind outcome_bind] in H.
  apply (scale_loop_Ok (λ z, Dec_QuoTruncate z k) (λ x, Z.quot (x * precisionReuse) k) cs r); [| |done|done|done].
  - intros x. unfold Dec_QuoTruncate, Dec_QuoTruncateMut, big_Quo. by rewrite (proj2 (Z.eqb_neq k 0)) by lia.
  - intros x Hx. pose proof precisionReuse_pos. apply Z.quot_pos; nia.
Qed.

(** *** Truncation, intersection, conversion *)

Lemma DecCoins_TruncateDecimal_Ok cs t c : good_dec_coins cs → DecCoins_TruncateDecimal cs = Ok (t, c) →
  good_coins t ∧ good_dec_coins c ∧ ∀ d, amount cs d = amount t d * precisionReuse + amount c d ∧ 0 <= amount c d < precisionReuse.
Proof.
  intros [[Hv Hs] Hr] H. pose proof (denoms_sorted_nodup _ Hs) as Hn.
  destruct (truncate_fold_good cs [] []) as (t' & c' & Hf & Ht & Hc & M);
    [split; [apply valid_coins_nil|constructor]|apply good_dec_coins_nil|done|done|done|done|].
  unfold DecCoins_TruncateDecimal in H. rewrite Hf in H. injection H as -> ->. split; [done|]. split; [done|].
  intros d. destruct (M d) as [-> ->]. rewrite !amount_map_amounts by done. cbn [amount].
  destruct (trunc_change_range (amount cs d)) as (H1 & H2 & H3 & _); [|lia]. by apply valid_coins_amount_nonneg.
Qed.

Lemma DecAmountOf_fuel_Find fuel : ∀ cs d,
  DecAmountOf_fuel fuel cs d = match Find_fuel fuel cs d with Some c => Amount c | None => 0 end.
Proof.
  induction fuel as [|fuel IH]; intros cs d; [done|]. destruct cs as [|c0 [|c1 cs]]; [done| |].
  - cbn. by destruct (str_eq (Denom c0) d).
  - set (l := c0 :: c1 :: cs) in *.
    change (DecAmountOf_fuel (S fuel) l d) with
      (match l !! (length l / 2)%nat with
       | None => 0
       | Some coin => if str_lt d (Denom coin) then DecAmountOf_fuel fuel (take (length l / 2) l) d
                      else if str_eq d (Denom coin) then Amount coin else DecAmountOf_fuel fuel (drop (length l / 2 + 1) l) d
       end).
    change (Find_fuel (S fuel) l d) with
      (match l !! (length l / 2)%nat with
       | None => None
       | Some coin => match String.compare d (Denom coin) with
                      | Lt => Find_fuel fuel (take (length l / 2) l) d
                      | Eq => Some coin
                      | Gt => Find_fuel fuel (drop (length l / 2 + 1) l) d
                      end
       end).
    destruct (l !! (length l / 2)%nat) as [c|]; [|done]. unfold str_lt, String.ltb. rewrite str_eq_spec.
    destruct (str_compare_spec d (Denom c)) as [Heq|Hlt|Hgt]; [by rewrite bool_decide_true|by apply IH|].
    rewrite bool_decide_false by (intros ->; by apply slt_irrefl in Hgt). apply IH.
Qed.
Lemma DecCoins_AmountOf_amount cs d : denoms_sorted cs → denom_valid d = true → DecCoins_AmountOf cs d = Ok (amount cs d).
Proof.
  intros Hs Hd. unfold DecCoins_AmountOf, mustValidateDenom, ValidateDenom. rewrite Hd. cbn. f_equal.
  unfold DecCoins_AmountOfNoValidation. rewrite DecAmountOf_fuel_Find. by apply AmountOfNoDenomValidation_amount.
Qed.

Lemma min_amounts b cs d : NoDup (map Denom cs) →
  amount (map (λ c, mkDecCoin (Denom c) (Z.min (Amount c) (amount b (Denom c)))) cs) d =
  if decide (d ∈ map Denom cs) then Z.min (amount cs d) (amount b d) else 0.
Proof.
  induction cs as [|c cs IH]; intros Hn; [done|]. cbn in Hn. apply NoDup_cons in Hn as [Hni Hn]. cbn [map amount Denom Amount].
  rewrite IH by done. destruct (decide (Denom c = d)) as [<-|Hne].
  - rewrite (decide_False (P := Denom c ∈ map Denom cs)) by done. rewrite decide_True by left. rewrite (amount_not_in cs) by done. lia.
  - destruct (decide (d ∈ map Denom cs)).
    + rewrite decide_True by (by right). lia.
    + rewrite decide_False by (by intros [->|?]%elem_of_cons). lia.
Qed.
Lemma DecCoins_Intersect_Ok a b r : good_dec_coins a → good_dec_coins b → DecCoins_Intersect a b = Ok r →
  good_dec_coins r ∧ ∀ d, amount r d = Z.min (amount a d) (amount b d).
Proof.
  intros Ha Hb H. pose proof Ha as [[Hv Hs] Hr]. pose proof (denoms_sorted_nodup _ Hs) as Hn.
  unfold DecCoins_Intersect in H.
  rewrite (traverse_Ok _ (λ c, mkDecCoin (Denom c) (Z.min (Amount c) (amount b (Denom c))))) in H.
  2:{ intros c Hc. rewrite DecCoins_AmountOf_amount; [|by apply good_dec_sorted|].
      - cbn. unfold LegacyMinDec, Dec_LT. rewrite ?Z.ltb_compare. do 2 f_equal. destruct (Z.compare_spec (Amount c) (amount b (Denom c))); lia.
      - rewrite Forall_forall in Hv. by apply Hv. }
  injection H as <-. rewrite removeZeroDecCoins_eq.
  set (m := map _ a). assert (map Denom m = map Denom a) as Hmd by (unfold m; rewrite map_map; done).
  assert (∀ d, amount (removeZeroCoins m) d = Z.min (amount a d) (amount b d)) as Hm.
  { intros d. rewrite removeZeroCoins_amount. unfold m. rewrite min_amounts by done. case_decide; [done|].
    rewrite (amount_not_in a) by done. pose proof (good_dec_nonneg b d Hb). lia. }
  split; [|done]. apply (canonical_good _).
  - apply removeZero_canonical. unfold denoms_sorted. by rewrite Hmd.
  - apply removeZero_ranged. unfold m, dec_ranged. rewrite Forall_map. eapply Forall_impl; [exact Hr|]. intros c Hc. cbn.
    pose proof (good_dec_amount_range b (Denom c) Hb) as Hb'. unfold dec_range in *. lia.
  - intros d. rewrite Hm. pose proof (good_dec_nonneg a d Ha). pose proof (good_dec_nonneg b d Hb). lia.
  - intros d. rewrite Hm. intros Hne. apply (good_dec_denom a); [done|]. pose proof (good_dec_nonneg b d Hb). lia.
Qed.

Lemma NewDecCoinsFromCoins_good cs : good_coins cs →
  ∃ r, NewDecCoinsFromCoins cs = Ok r ∧ good_dec_coins r ∧ ∀ d, amount r d = amount cs d * precisionReuse.
Proof.
  intros [Hv Hr]. set (r := map_amounts (λ x, x * precisionReuse) cs).
  exists r. split; [|split].
  - unfold NewDecCoinsFromCoins. destruct cs as [|c cs]; [done|]. change (length (c :: cs) =? 0)%nat with false. cbn iota.
    rewrite NewCoins_valid by done. change (traverse NewDecCoinFromCoin (c :: cs) = Ok r).
    rewrite (traverse_Ok _ (λ c, mkDecCoin (Denom c) (Amount c * precisionReuse))); [done|].
    intros x Hx. destruct Hv as [Hv _]. rewrite Forall_forall in Hv. destruct (Hv x Hx) as [Hd Hp].
    unfold NewDecCoinFromCoin, Coin_Validate, ValidateDenom. rewrite Hd. cbn. rewrite Int_IsNegative_ltb.
    rewrite (proj2 (Z.ltb_ge _ _)) by lia. cbn. by rewrite LegacyNewDecFromInt_Ok.
  - assert (map Denom r = map Denom cs) as Hd by (unfold r, map_amounts; rewrite map_map; done).
    split; [split|].
    + unfold r, map_amounts. rewrite Forall_map. eapply Forall_impl; [apply Hv|]. intros c [? ?]. split; [done|].
      cbn. pose proof precisionReuse_pos. nia.
    + unfold denoms_sorted. rewrite Hd. apply Hv.
    + unfold r, map_amounts, dec_ranged. rewrite Forall_map. eapply Forall_impl; [exact Hr|]. intros c Hc. cbn.
      unfold int_range in Hc. unfold dec_range, lowerLimit, upperLimit. pose proof precisionReuse_pos. nia.
  - intros d. unfold r. apply (amount_map_amounts (λ x, x * precisionReuse)); [|done]. by apply denoms_sorted_nodup, Hv.
Qed.
Lemma NewDecCoinsFromCoins_Ok cs r : good_coins cs → NewDecCoinsFromCoins cs = Ok r →
  good_dec_coins r ∧ ∀ d, amount r d = amount cs d * precisionReuse.
Proof. intros Hc H. destruct (NewDecCoinsFromCoins_good cs Hc) as (r' & H' & Hg). by rewrite H in H'; injection H' as <-. Qed.
Lemma DecCoins_IsZero_amount a d : good_dec_coins a → DecCoins_IsZero a = true → amount a d = 0.
Proof.
  intros [[Hv _] _] H. induction a as [|c a IH]; [done|]. apply Forall_cons in Hv as [[_ Hp] Hv].
  cbn in H. rewrite Dec_IsZero_eqb in H. apply andb_prop in H as [H _]. lia.
Qed.
End DecCoinOk.
