(* ===== verification/Distribution.v ===== *)
(** * The distribution module: x/distribution

    Distributes the fees of each block among the community pool, the validators and
    their delegators.  A validator's rewards are counted in periods, which end
    whenever a delegation to it changes or it is slashed; a record per period keeps
    the cumulative rewards per unit of stake, with a count of the delegations and
    slashes that refer to it.  A delegator is paid the difference of two records
    times its stake, slash by slash.

    Models the keeper (validator.go, delegation.go, store.go, allocation.go,
    keeper.go, hooks.go, abci.go, msg_server.go, genesis.go, params.go,
    alias_functions.go) and the data and validation of types.  The module reaches
    the staking, bank and account modules through the interfaces of
    types/expected_keepers.go, the class [DistrKeepers]; its state is its nine
    collections and the state behind that interface. *)
From S2P Require Import Prelude Bytes MathInt LegacyDec Coin CoinFacts DecCoin Collections Account Vesting AuthKeeper Bank CollMap Validator Staking.

Definition ErrEmptyDelegationDistInfo : string := "no delegation distribution info".
Definition ErrNoValidatorDistInfo : string := "no validator distribution info".
Definition ErrNoValidatorCommission : string := "no validator commission to withdraw".
Definition ErrSetWithdrawAddrDisabled : string := "set withdraw address disabled".
Definition ErrNoValidatorExists : string := "validator does not exist".
Definition ErrInvalidSigner : string := "expected authority account as only signer for proposal message".
Definition ErrInvalidAddress : string := "invalid address".
Definition DistributionName : string := "distribution".
Definition ProtocolPoolDistrAccount : string := "protocolpool_distr".
Definition ProtocolPoolModuleName : string := "protocolpool".

(** ** Data

    The records with one field of coins, for outstanding rewards and accumulated
    commission, are that field.  The deprecated proposer rewards are nil or a
    decimal. *)
Record DistrParams := mkDistrParams {
  CommunityTax : Z;
  BaseProposerReward : option Z;
  BonusProposerReward : option Z;
  WithdrawAddrEnabled : bool;
}.
Record FeePool := mkFeePool { DecimalPool : DecCoins; CommunityPool : DecCoins }.
Record ValidatorHistoricalRewards := NewValidatorHistoricalRewards { CumulativeRewardRatio : DecCoins; ReferenceCount : Z }.
Record ValidatorCurrentRewards := NewValidatorCurrentRewards { Rewards : DecCoins; Period : Z }.
Record ValidatorSlashEvent := NewValidatorSlashEvent { ValidatorPeriod : Z; Fraction : Z }.
Record DelegatorStartingInfo := NewDelegatorStartingInfo { PreviousPeriod : Z; Stake : Z; si_Height : Z }.
(** A vote in the last commit: the consensus address and the power. *)
Record BondedVote := mkBondedVote { bv_Address : string; bv_Power : Z }.

Definition InitialValidatorAccumulatedCommission : DecCoins := [].
Definition InitialFeePool : FeePool := mkFeePool [] [].
Definition DefaultDistrParams : DistrParams := mkDistrParams (2 * 10 ^ 16) (Some 0) (Some 0) true.
Definition validateCommunityTax (v : Z) : outcome unit :=
  _ ← guard_err (Dec_IsNegative v) "community tax must be positive";
  guard_err (Dec_GT v LegacyOneDec) "community tax too large".
Definition DistrParams_ValidateBasic (p : DistrParams) : outcome unit := validateCommunityTax (CommunityTax p).
Definition FeePool_ValidateGenesis (f : FeePool) : outcome unit :=
  _ ← guard_err (DecCoins_IsAnyNegative (DecimalPool f)) "negative DecimalPool in distribution fee pool";
  guard_err (DecCoins_IsAnyNegative (CommunityPool f)) "negative CommunityPool in distribution fee pool".

(** types/expected_keepers.go, the methods the module calls; [None] is nil.  The
    account keeper gives the address of a module account. *)
Class DistrKeepers (S : Type) := {
  dk_Validator : string → GoM S (option Validator);
  dk_ValidatorByConsAddr : string → GoM S (option Validator);
  dk_Delegation : string → string → GoM S (option Delegation);
  dk_BondDenom : GoM S string;
  dk_ModuleAddress : string → GoM S (option string);
  dk_GetAllBalances : string → GoM S Coins;
  dk_SendModuleToModule : string → string → Coins → GoM S unit;
  dk_SendModuleToAccount : string → string → Coins → GoM S unit;
  dk_SendAccountToModule : string → string → Coins → GoM S unit;
  dk_BlockedAddr : string → outcome bool;
}.

Definition non_nil {A} (o : option A) : outcome A :=
  match o with Some a => Ok a | None => Panic "nil pointer dereference" end.

(** ** State *)

Section DistributionKeeper.
Context {S : Type} {dk : DistrKeepers S} {cfg : CoinConfig} {acfg : AddressConfig} {vcfg : ValAddressConfig}.

Record DistrState := mkDistrState {
  di_Params : option DistrParams;
  di_FeePool : option FeePool;
  DelegatorsWithdrawAddress : gmap string string;
  CurrentRewards : gmap string ValidatorCurrentRewards;
  StartingInfos : gmap (string * string) DelegatorStartingInfo;
  AccumulatedCommission : gmap string DecCoins;
  OutstandingRewards : gmap string DecCoins;
  HistoricalRewards : gmap (string * Z) ValidatorHistoricalRewards;
  SlashEvents : gmap (string * Z * Z) ValidatorSlashEvent;
  di_keepers : S;
}.
Definition with_di_Params (p : DistrParams) (s : DistrState) : DistrState :=
  mkDistrState (Some p) (di_FeePool s) (DelegatorsWithdrawAddress s) (CurrentRewards s) (StartingInfos s)
    (AccumulatedCommission s) (OutstandingRewards s) (HistoricalRewards s) (SlashEvents s) (di_keepers s).
Definition with_FeePool (p : FeePool) (s : DistrState) : DistrState :=
  mkDistrState (di_Params s) (Some p) (DelegatorsWithdrawAddress s) (CurrentRewards s) (StartingInfos s)
    (AccumulatedCommission s) (OutstandingRewards s) (HistoricalRewards s) (SlashEvents s) (di_keepers s).
Definition with_WithdrawAddress (f : gmap string string → gmap string string) (s : DistrState) : DistrState :=
  mkDistrState (di_Params s) (di_FeePool s) (f (DelegatorsWithdrawAddress s)) (CurrentRewards s) (StartingInfos s)
    (AccumulatedCommission s) (OutstandingRewards s) (HistoricalRewards s) (SlashEvents s) (di_keepers s).
Definition with_Current (f : gmap string ValidatorCurrentRewards → gmap string ValidatorCurrentRewards) (s : DistrState) : DistrState :=
  mkDistrState (di_Params s) (di_FeePool s) (DelegatorsWithdrawAddress s) (f (CurrentRewards s)) (StartingInfos s)
    (AccumulatedCommission s) (OutstandingRewards s) (HistoricalRewards s) (SlashEvents s) (di_keepers s).
Definition with_Starting (f : gmap (string * string) DelegatorStartingInfo → gmap (string * string) DelegatorStartingInfo)
    (s : DistrState) : DistrState :=
  mkDistrState (di_Params s) (di_FeePool s) (DelegatorsWithdrawAddress s) (CurrentRewards s) (f (StartingInfos s))
    (AccumulatedCommission s) (OutstandingRewards s) (HistoricalRewards s) (SlashEvents s) (di_keepers s).
Definition with_Commission (f : gmap string DecCoins → gmap string DecCoins) (s : DistrState) : DistrState :=
  mkDistrState (di_Params s) (di_FeePool s) (DelegatorsWithdrawAddress s) (CurrentRewards s) (StartingInfos s)
    (f (AccumulatedCommission s)) (OutstandingRewards s) (HistoricalRewards s) (SlashEvents s) (di_keepers s).
Definition with_Outstanding (f : gmap string DecCoins → gmap string DecCoins) (s : DistrState) : DistrState :=
  mkDistrState (di_Params s) (di_FeePool s) (DelegatorsWithdrawAddress s) (CurrentRewards s) (StartingInfos s)
    (AccumulatedCommission s) (f (OutstandingRewards s)) (HistoricalRewards s) (SlashEvents s) (di_keepers s).
Definition with_Historical (f : gmap (string * Z) ValidatorHistoricalRewards → gmap (string * Z) ValidatorHistoricalRewards)
    (s : DistrState) : DistrState :=
  mkDistrState (di_Params s) (di_FeePool s) (DelegatorsWithdrawAddress s) (CurrentRewards s) (StartingInfos s)
    (AccumulatedCommission s) (OutstandingRewards s) (f (HistoricalRewards s)) (SlashEvents s) (di_keepers s).
Definition with_SlashEvents (f : gmap (string * Z * Z) ValidatorSlashEvent → gmap (string * Z * Z) ValidatorSlashEvent)
    (s : DistrState) : DistrState :=
  mkDistrState (di_Params s) (di_FeePool s) (DelegatorsWithdrawAddress s) (CurrentRewards s) (StartingInfos s)
    (AccumulatedCommission s) (OutstandingRewards s) (HistoricalRewards s) (f (SlashEvents s)) (di_keepers s).
Definition with_keepers (x : S) (s : DistrState) : DistrState :=
  mkDistrState (di_Params s) (di_FeePool s) (DelegatorsWithdrawAddress s) (CurrentRewards s) (StartingInfos s)
    (AccumulatedCommission s) (OutstandingRewards s) (HistoricalRewards s) (SlashEvents s) x.

(** A call to another keeper. *)
Definition on_keepers {A} (m : GoM S A) : GoM DistrState A :=
  λ s, let '(r, x) := m (di_keepers s) in (r, with_keepers x s).
Definition di_get {A} (f : DistrState → option A) : GoM DistrState A :=
  o ← readM f; liftM (match o with Some a => Ok a | None => Err ErrNotFound end).

(** ** keeper/params.go, alias_functions.go and store.go *)

Definition GetCommunityTax : GoM DistrState Z := p ← di_get di_Params; mret (CommunityTax p).
Definition GetWithdrawAddrEnabled : GoM DistrState bool := p ← di_get di_Params; mret (WithdrawAddrEnabled p).
Definition GetValidatorOutstandingRewardsCoins (val : string) : GoM DistrState DecCoins :=
  readM (λ s, default [] (OutstandingRewards s !! val)).
Definition GetDelegatorWithdrawAddr (delAddr : string) : GoM DistrState string :=
  readM (λ s, default delAddr (DelegatorsWithdrawAddress s !! delAddr)).
(** The slash events of a validator from the key (height, 0) to the key
    (last height + 1, maximum), exclusive, in the order of the keys. *)
Definition event_key_le (x y : (Z * Z) * ValidatorSlashEvent) : Prop := x.1.1 < y.1.1 ∨ (x.1.1 = y.1.1 ∧ x.1.2 <= y.1.2).
#[global] Instance event_key_le_dec x y : Decision (event_key_le x y).
Proof. unfold event_key_le. apply _. Defined.
Definition event_in_range (startingHeight endingHeight : Z) (k : Z * Z) : bool :=
  (startingHeight <=? k.1) &&
  ((k.1 <? wrap_uint64 (endingHeight + 1)) || ((k.1 =? wrap_uint64 (endingHeight + 1)) && (k.2 <? 2 ^ 64 - 1))).
Definition events_between (val : string) (startingHeight endingHeight : Z) (m : gmap (string * Z * Z) ValidatorSlashEvent)
    : list ((Z * Z) * ValidatorSlashEvent) :=
  merge_sort event_key_le
    (omap (λ '((v, height, period), ev),
             if str_eq v val && event_in_range startingHeight endingHeight (height, period) then Some ((height, period), ev) else None)
          (map_to_list m)).
(** The loop passes the events to the handler, whose variables are the state of the
    fold and which stops the loop by failing. *)
Definition IterateValidatorSlashEventsBetween {B} (val : string) (startingHeight endingHeight : Z)
    (handler : B → ValidatorSlashEvent → GoM DistrState B) (b : B) : GoM DistrState B :=
  _ ← liftM (guard_err (wrap_uint64 (endingHeight + 1) <? startingHeight) ErrInvalidIterator);
  events ← readM (λ s, events_between val startingHeight endingHeight (SlashEvents s));
  foldM (λ b kv, handler b kv.2) b events.

(** ** keeper/validator.go *)

Definition maxReferenceCount : Z := 2.
Definition initializeValidator (val : Validator) : GoM DistrState unit :=
  valBz ← liftM (ValStringToBytes (OperatorAddress val));
  _ ← modifyM (with_Historical <[(valBz, 0) := NewValidatorHistoricalRewards [] 1]>);
  _ ← modifyM (with_Current <[valBz := NewValidatorCurrentRewards [] 1]>);
  _ ← modifyM (with_Commission <[valBz := InitialValidatorAccumulatedCommission]>);
  modifyM (with_Outstanding <[valBz := []]>).
Definition incrementReferenceCount (valAddr : string) (period : Z) : GoM DistrState unit :=
  historical ← di_get (λ s, HistoricalRewards s !! (valAddr, period));
  let count := (ReferenceCount historical + 1) mod 2 ^ 32 in
  _ ← liftM (guard_err (maxReferenceCount <? count) "reference count should never exceed 2");
  modifyM (with_Historical <[(valAddr, period) := NewValidatorHistoricalRewards (CumulativeRewardRatio historical) count]>).
Definition decrementReferenceCount (valAddr : string) (period : Z) : GoM DistrState unit :=
  historical ← di_get (λ s, HistoricalRewards s !! (valAddr, period));
  _ ← liftM (guard_err (ReferenceCount historical =? 0) "cannot set negative reference count");
  let count := ReferenceCount historical - 1 in
  if count =? 0 then modifyM (with_Historical (delete (valAddr, period)))
  else modifyM (with_Historical <[(valAddr, period) := NewValidatorHistoricalRewards (CumulativeRewardRatio historical) count]>).
(** The rewards of a period in which the validator has no tokens go to the decimal
    pool. *)
Definition period_without_tokens (valBz : string) (rewards : DecCoins) : GoM DistrState DecCoins :=
  feePool ← di_get di_FeePool;
  outstanding ← GetValidatorOutstandingRewardsCoins valBz;
  pool ← liftM (DecCoins_Add (DecimalPool feePool) rewards);
  outstanding ← liftM (DecCoins_Sub outstanding rewards);
  _ ← modifyM (with_FeePool (mkFeePool pool (CommunityPool feePool)));
  _ ← modifyM (with_Outstanding <[valBz := outstanding]>);
  mret [].
Definition IncrementValidatorPeriod (val : Validator) : GoM DistrState Z :=
  valBz ← liftM (ValStringToBytes (OperatorAddress val));
  rewards ← readM (λ s, default (NewValidatorCurrentRewards [] 0) (CurrentRewards s !! valBz));
  current ← (if Int_IsZero (Tokens val) then period_without_tokens valBz (Rewards rewards)
             else liftM (t ← LegacyNewDecFromInt (Tokens val); DecCoins_QuoDecTruncate (Rewards rewards) t));
  let previous := wrap_uint64 (Period rewards - 1) in
  historical ← di_get (λ s, HistoricalRewards s !! (valBz, previous));
  let cumRewardRatio := CumulativeRewardRatio historical in
  _ ← decrementReferenceCount valBz previous;
  ratio ← liftM (DecCoins_Add cumRewardRatio current);
  _ ← modifyM (with_Historical <[(valBz, Period rewards) := NewValidatorHistoricalRewards ratio 1]>);
  _ ← modifyM (with_Current <[valBz := NewValidatorCurrentRewards [] (wrap_uint64 (Period rewards + 1))]>);
  mret (Period rewards).
Definition updateValidatorSlashFraction (h : Header) (valAddr : string) (fraction : Z) : GoM DistrState unit :=
  _ ← liftM (guard_err (Dec_GT fraction LegacyOneDec || Dec_IsNegative fraction) "fraction must be >=0 and <=1");
  val ← on_keepers (dk_Validator valAddr);
  val ← liftM (non_nil val);
  newPeriod ← IncrementValidatorPeriod val;
  _ ← incrementReferenceCount valAddr newPeriod;
  modifyM (with_SlashEvents <[(valAddr, wrap_uint64 (h_Height h), newPeriod) := NewValidatorSlashEvent newPeriod fraction]>).

(** ** keeper/delegation.go *)

Definition initializeDelegation (h : Header) (val del : string) : GoM DistrState unit :=
  valCurrentRewards ← di_get (λ s, CurrentRewards s !! val);
  let previousPeriod := wrap_uint64 (Period valCurrentRewards - 1) in
  _ ← incrementReferenceCount val previousPeriod;
  validator ← on_keepers (dk_Validator val);
  delegation ← on_keepers (dk_Delegation del val);
  validator ← liftM (non_nil validator);
  delegation ← liftM (non_nil delegation);
  stake ← liftM (TokensFromSharesTruncated (Shares delegation) validator);
  modifyM (with_Starting <[(val, del) := NewDelegatorStartingInfo previousPeriod stake (wrap_uint64 (h_Height h))]>).
Definition calculateDelegationRewardsBetween (val : Validator) (startingPeriod endingPeriod stake : Z) : GoM DistrState DecCoins :=
  _ ← liftM (guard_err (endingPeriod <? startingPeriod) "startingPeriod cannot be greater than endingPeriod");
  _ ← liftM (guard_err (Dec_IsNegative stake) "stake should not be negative");
  valBz ← liftM (ValStringToBytes (OperatorAddress val));
  starting ← di_get (λ s, HistoricalRewards s !! (valBz, startingPeriod));
  ending ← di_get (λ s, HistoricalRewards s !! (valBz, endingPeriod));
  difference ← liftM (DecCoins_Sub (CumulativeRewardRatio ending) (CumulativeRewardRatio starting));
  _ ← liftM (guard_err (DecCoins_IsAnyNegative difference) "negative rewards should not be possible");
  liftM (DecCoins_MulDecTruncate difference stake).
(** The variables of the loop over slashes: the rewards, the stake and the starting
    period. *)
Definition slash_period (val : Validator) (acc : DecCoins * Z * Z) (event : ValidatorSlashEvent) : GoM DistrState (DecCoins * Z * Z) :=
  let '(rewards, stake, startingPeriod) := acc in
  let endingPeriod := ValidatorPeriod event in
  if startingPeriod <? endingPeriod then
    delRewards ← calculateDelegationRewardsBetween val startingPeriod endingPeriod stake;
    rewards ← liftM (DecCoins_Add rewards delRewards);
    kept ← liftM (Dec_Sub LegacyOneDec (Fraction event));
    stake ← liftM (Dec_MulTruncate stake kept);
    mret (rewards, stake, endingPeriod)
  else mret (rewards, stake, startingPeriod).
(** The sanity check of the final stake, with its margin of error. *)
Definition check_stake (stake currentStake : Z) : outcome Z :=
  if Dec_GT stake currentStake then
    marginOfErr ← Dec_MulInt64 LegacySmallestDec 3;
    bound ← Dec_Add currentStake marginOfErr;
    if Dec_LTE stake bound then Ok currentStake
    else Err "calculated final stake for delegator greater than current stake"
  else Ok stake.
(** Without a starting info its stake is nil, and the first use of it panics. *)
Definition CalculateDelegationRewards (h : Header) (val : Validator) (del : Delegation) (endingPeriod : Z) : GoM DistrState DecCoins :=
  delAddr ← liftM (StringToBytes (DelegatorAddress del));
  valAddr ← liftM (ValStringToBytes (ValidatorAddress del));
  info ← readM (λ s, StartingInfos s !! (valAddr, delAddr));
  let endingHeight := wrap_uint64 (h_Height h) in
  if default 0 (si_Height <$> info) =? endingHeight then mret []
  else
    startingInfo ← liftM (non_nil info);
    let startingHeight := si_Height startingInfo in
    '(rewards, stake, startingPeriod) ←
      (if startingHeight <? endingHeight then
         IterateValidatorSlashEventsBetween valAddr startingHeight endingHeight (slash_period val)
           ([], Stake startingInfo, PreviousPeriod startingInfo)
       else mret ([], Stake startingInfo, PreviousPeriod startingInfo));
    currentStake ← liftM (TokensFromShares (Shares del) val);
    stake ← liftM (check_stake stake currentStake);
    delRewards ← calculateDelegationRewardsBetween val startingPeriod endingPeriod stake;
    liftM (DecCoins_Add rewards delRewards).
(** The payment of the rewards of a delegation, rounded down to whole coins; the
    rest goes to the decimal pool. *)
Definition pay_rewards (delAddr valAddr : string) (rewardsRaw : DecCoins) : GoM DistrState Coins :=
  outstanding ← GetValidatorOutstandingRewardsCoins valAddr;
  rewards ← liftM (DecCoins_Intersect rewardsRaw outstanding);
  '(finalRewards, remainder) ← liftM (DecCoins_TruncateDecimal rewards);
  _ ← (if negb (Coins_IsZero finalRewards) then
         withdrawAddr ← GetDelegatorWithdrawAddr delAddr;
         on_keepers (dk_SendModuleToAccount DistributionName withdrawAddr finalRewards)
       else mret tt);
  outstanding ← liftM (DecCoins_Sub outstanding rewards);
  _ ← modifyM (with_Outstanding <[valAddr := outstanding]>);
  feePool ← di_get di_FeePool;
  pool ← liftM (DecCoins_Add (DecimalPool feePool) remainder);
  _ ← modifyM (with_FeePool (mkFeePool pool (CommunityPool feePool)));
  mret finalRewards.
Definition withdrawDelegationRewards (h : Header) (val : Validator) (del : Delegation) : GoM DistrState Coins :=
  delAddr ← liftM (StringToBytes (DelegatorAddress del));
  valAddr ← liftM (ValStringToBytes (ValidatorAddress del));
  hasInfo ← readM (λ s, bool_decide (is_Some (StartingInfos s !! (valAddr, delAddr))));
  _ ← liftM (guard_err (negb hasInfo) ErrEmptyDelegationDistInfo);
  endingPeriod ← IncrementValidatorPeriod val;
  rewardsRaw ← CalculateDelegationRewards h val del endingPeriod;
  finalRewards ← pay_rewards delAddr valAddr rewardsRaw;
  startingPeriod ← readM (λ s, default 0 (PreviousPeriod <$> StartingInfos s !! (valAddr, delAddr)));
  _ ← decrementReferenceCount valAddr startingPeriod;
  _ ← modifyM (with_Starting (delete (valAddr, delAddr)));
  if Coins_IsZero finalRewards then
    baseDenom ← on_keepers dk_BondDenom;
    c ← liftM (NewCoin baseDenom ZeroInt);
    mret [c]
  else mret finalRewards.

(** ** keeper/allocation.go and keeper/abci.go *)

Definition AllocateTokensToValidator (val : option Validator) (tokens : DecCoins) : GoM DistrState unit :=
  val ← liftM (non_nil val);
  commission ← liftM (DecCoins_MulDec tokens (Rate (v_Commission val)));
  shared ← liftM (DecCoins_Sub tokens commission);
  valBz ← liftM (ValStringToBytes (OperatorAddress val));
  currentCommission ← readM (λ s, default [] (AccumulatedCommission s !! valBz));
  currentCommission ← liftM (DecCoins_Add currentCommission commission);
  _ ← modifyM (with_Commission <[valBz := currentCommission]>);
  currentRewards ← readM (λ s, default (NewValidatorCurrentRewards [] 0) (CurrentRewards s !! valBz));
  rewards ← liftM (DecCoins_Add (Rewards currentRewards) shared);
  _ ← modifyM (with_Current <[valBz := NewValidatorCurrentRewards rewards (Period currentRewards)]>);
  outstanding ← GetValidatorOutstandingRewardsCoins valBz;
  outstanding ← liftM (DecCoins_Add outstanding tokens);
  modifyM (with_Outstanding <[valBz := outstanding]>).
(** The body of the loop over the votes; returns what remains. *)
Definition allocate_vote (feeMultiplier : DecCoins) (totalPreviousPower : Z) (remaining : DecCoins) (vote : BondedVote)
    : GoM DistrState DecCoins :=
  validator ← on_keepers (dk_ValidatorByConsAddr (bv_Address vote));
  powerFraction ← liftM (p ← LegacyNewDec (bv_Power vote); t ← LegacyNewDec totalPreviousPower; Dec_QuoTruncate p t);
  reward ← liftM (DecCoins_MulDecTruncate feeMultiplier powerFraction);
  _ ← AllocateTokensToValidator validator reward;
  liftM (DecCoins_Sub remaining reward).
Definition AllocateTokens (feeCollectorName : string) (totalPreviousPower : Z) (bondedVotes : list BondedVote) : GoM DistrState unit :=
  feeCollector ← on_keepers (dk_ModuleAddress feeCollectorName);
  feeCollector ← liftM (non_nil feeCollector);
  feesCollectedInt ← on_keepers (dk_GetAllBalances feeCollector);
  if Coins_Empty feesCollectedInt then mret tt
  else
    feesCollected ← liftM (NewDecCoinsFromCoins feesCollectedInt);
    _ ← on_keepers (dk_SendModuleToModule feeCollectorName DistributionName feesCollectedInt);
    feePool ← di_get di_FeePool;
    _ ← (if totalPreviousPower =? 0 then
           pool ← liftM (DecCoins_Add (DecimalPool feePool) feesCollected);
           modifyM (with_FeePool (mkFeePool pool []))
         else mret tt);
    communityTax ← GetCommunityTax;
    voteMultiplier ← liftM (Dec_Sub LegacyOneDec communityTax);
    feeMultiplier ← liftM (DecCoins_MulDecTruncate feesCollected voteMultiplier);
    remaining ← foldM (allocate_vote feeMultiplier totalPreviousPower) feesCollected bondedVotes;
    '(amt, re) ← liftM (DecCoins_TruncateDecimal remaining);
    _ ← on_keepers (dk_SendModuleToModule DistributionName ProtocolPoolDistrAccount amt);
    pool ← liftM (DecCoins_Add (DecimalPool feePool) re);
    modifyM (with_FeePool (mkFeePool pool [])).
Definition sendDecimalPoolToCommunityPool : GoM DistrState unit :=
  feePool ← di_get di_FeePool;
  if DecCoins_IsZero (DecimalPool feePool) then mret tt
  else
    '(amt, re) ← liftM (DecCoins_TruncateDecimal (DecimalPool feePool));
    _ ← on_keepers (dk_SendModuleToModule DistributionName ProtocolPoolDistrAccount amt);
    modifyM (with_FeePool (mkFeePool re [])).
Definition Distr_BeginBlocker (h : Header) (feeCollectorName : string) (votes : list BondedVote) : GoM DistrState unit :=
  let previousTotalPower := foldl (λ p vote, wrap_int64 (p + bv_Power vote)) 0 votes in
  if 1 <? h_Height h then
    _ ← AllocateTokens feeCollectorName previousTotalPower votes;
    if Z.rem (h_Height h) 1000 =? 0 then sendDecimalPoolToCommunityPool else mret tt
  else mret tt.

(** ** keeper/keeper.go *)

Definition SetWithdrawAddr (delegatorAddr withdrawAddr : string) : GoM DistrState unit :=
  blocked ← liftM (dk_BlockedAddr withdrawAddr);
  _ ← liftM (guard_err blocked ErrUnauthorized);
  withdrawAddrEnabled ← GetWithdrawAddrEnabled;
  _ ← liftM (guard_err (negb withdrawAddrEnabled) ErrSetWithdrawAddrDisabled);
  _ ← liftM (BytesToString withdrawAddr);
  modifyM (with_WithdrawAddress <[delegatorAddr := withdrawAddr]>).
Definition WithdrawDelegationRewards (h : Header) (delAddr valAddr : string) : GoM DistrState Coins :=
  val ← on_keepers (dk_Validator valAddr);
  val ← liftM (match val with Some v => Ok v | None => Err ErrNoValidatorDistInfo end);
  del ← on_keepers (dk_Delegation delAddr valAddr);
  del ← liftM (match del with Some d => Ok d | None => Err ErrEmptyDelegationDistInfo end);
  rewards ← withdrawDelegationRewards h val del;
  _ ← initializeDelegation h valAddr delAddr;
  mret rewards.
Definition WithdrawValidatorCommission (valAddr : string) : GoM DistrState Coins :=
  accumCommission ← readM (λ s, default [] (AccumulatedCommission s !! valAddr));
  _ ← liftM (guard_err (DecCoins_IsZero accumCommission) ErrNoValidatorCommission);
  '(commission, remainder) ← liftM (DecCoins_TruncateDecimal accumCommission);
  _ ← modifyM (with_Commission <[valAddr := remainder]>);
  outstanding ← di_get (λ s, OutstandingRewards s !! valAddr);
  dec ← liftM (NewDecCoinsFromCoins commission);
  outstanding ← liftM (DecCoins_Sub outstanding dec);
  _ ← modifyM (with_Outstanding <[valAddr := outstanding]>);
  _ ← (if negb (Coins_IsZero commission) then
         withdrawAddr ← GetDelegatorWithdrawAddr valAddr;
         on_keepers (dk_SendModuleToAccount DistributionName withdrawAddr commission)
       else mret tt);
  mret commission.
Definition in_key_order {A} (m : gmap string A) : list (string * A) :=
  merge_sort (λ x y : string * A, prefixed_le x.1 y.1) (map_to_list m).
Definition GetTotalRewards : GoM DistrState DecCoins :=
  all ← readM (λ s, in_key_order (OutstandingRewards s));
  liftM (foldM (λ total kv, DecCoins_Add total kv.2) [] all).

(** ** keeper/hooks.go: the hooks with an effect *)

Definition Distr_AfterValidatorCreated (valAddr : string) : GoM DistrState unit :=
  val ← on_keepers (dk_Validator valAddr);
  val ← liftM (non_nil val);
  initializeValidator val.
(** The accumulated commission of a validator that is removed is paid to it. *)
Definition pay_removed (valAddr : string) (outstanding commission : DecCoins) : GoM DistrState DecCoins :=
  outstanding ← liftM (DecCoins_Sub outstanding commission);
  '(coins, remainder) ← liftM (DecCoins_TruncateDecimal commission);
  feePool ← di_get di_FeePool;
  pool ← liftM (DecCoins_Add (DecimalPool feePool) remainder);
  _ ← modifyM (with_FeePool (mkFeePool pool (CommunityPool feePool)));
  _ ← (if negb (Coins_IsZero coins) then
         withdrawAddr ← GetDelegatorWithdrawAddr valAddr;
         on_keepers (dk_SendModuleToAccount DistributionName withdrawAddr coins)
       else mret tt);
  mret outstanding.
Definition Distr_AfterValidatorRemoved (valAddr : string) : GoM DistrState unit :=
  outstanding ← GetValidatorOutstandingRewardsCoins valAddr;
  commission ← readM (λ s, default [] (AccumulatedCommission s !! valAddr));
  outstanding ← (if negb (DecCoins_IsZero commission) then pay_removed valAddr outstanding commission else mret outstanding);
  feePool ← di_get di_FeePool;
  pool ← liftM (DecCoins_Add (DecimalPool feePool) outstanding);
  _ ← modifyM (with_FeePool (mkFeePool pool (CommunityPool feePool)));
  _ ← modifyM (with_Outstanding (delete valAddr));
  _ ← modifyM (with_Commission (delete valAddr));
  _ ← modifyM (with_SlashEvents (filter (λ kv, kv.1.1.1 ≠ valAddr)));
  _ ← modifyM (with_Historical (filter (λ kv, kv.1.1 ≠ valAddr)));
  modifyM (with_Current (delete valAddr)).
Definition Distr_BeforeDelegationCreated (valAddr : string) : GoM DistrState unit :=
  val ← on_keepers (dk_Validator valAddr);
  val ← liftM (non_nil val);
  _ ← IncrementValidatorPeriod val;
  mret tt.
Definition Distr_BeforeDelegationSharesModified (h : Header) (delAddr valAddr : string) : GoM DistrState unit :=
  val ← on_keepers (dk_Validator valAddr);
  del ← on_keepers (dk_Delegation delAddr valAddr);
  del ← liftM (non_nil del);
  val ← liftM (non_nil val);
  _ ← withdrawDelegationRewards h val del;
  mret tt.
Definition Distr_AfterDelegationModified (h : Header) (delAddr valAddr : string) : GoM DistrState unit :=
  initializeDelegation h valAddr delAddr.
Definition Distr_BeforeValidatorSlashed (h : Header) (valAddr : string) (fraction : Z) : GoM DistrState unit :=
  updateValidatorSlashFraction h valAddr fraction.

(** ** keeper/msg_server.go *)

Definition Msg_SetWithdrawAddress (delegatorAddress withdrawAddress : string) : GoM DistrState unit :=
  d ← liftM (match StringToBytes delegatorAddress with Err _ => Err ErrInvalidAddress | r => r end);
  w ← liftM (match StringToBytes withdrawAddress with Err _ => Err ErrInvalidAddress | r => r end);
  SetWithdrawAddr d w.
Definition Msg_WithdrawDelegatorReward (h : Header) (delegatorAddress validatorAddress : string) : GoM DistrState Coins :=
  v ← liftM (match ValStringToBytes validatorAddress with Err _ => Err ErrInvalidAddress | r => r end);
  d ← liftM (match StringToBytes delegatorAddress with Err _ => Err ErrInvalidAddress | r => r end);
  WithdrawDelegationRewards h d v.
Definition Msg_WithdrawValidatorCommission (validatorAddress : string) : GoM DistrState Coins :=
  v ← liftM (match ValStringToBytes validatorAddress with Err _ => Err ErrInvalidAddress | r => r end);
  WithdrawValidatorCommission v.
Definition validateAuthority (k_authority authority : string) : outcome unit :=
  _ ← (match StringToBytes authority with Err _ => Err ErrInvalidAddress | r => r end);
  guard_err (negb (str_eq k_authority authority)) ErrInvalidSigner.
(** The amount is [None] when it is nil. *)
Definition validateAmount (amount : option Coins) : outcome Coins :=
  match amount with
  | None => Err ErrInvalidCoins
  | Some c => match Coins_Validate c with Err _ => Err ErrInvalidCoins | Ok _ => Ok c | Panic p => Panic p end
  end.
Definition Msg_FundCommunityPool (depositor : string) (amount : option Coins) : GoM DistrState unit :=
  d ← liftM (match StringToBytes depositor with Err _ => Err ErrInvalidAddress | r => r end);
  amt ← liftM (validateAmount amount);
  on_keepers (dk_SendAccountToModule d ProtocolPoolModuleName amt).
Definition nonzero_dec (d : option Z) : bool := match d with Some d => negb (Dec_IsZero d) | None => false end.
Definition Distr_UpdateParams (k_authority authority : string) (params : DistrParams) : GoM DistrState unit :=
  _ ← liftM (validateAuthority k_authority authority);
  _ ← liftM (guard_err (nonzero_dec (BaseProposerReward params) || nonzero_dec (BonusProposerReward params)) ErrInvalidRequest);
  _ ← liftM (DistrParams_ValidateBasic params);
  modifyM (with_di_Params params).
Definition Msg_CommunityPoolSpend (k_authority authority recipient : string) (amount : option Coins) : GoM DistrState unit :=
  _ ← liftM (validateAuthority k_authority authority);
  amt ← liftM (validateAmount amount);
  r ← liftM (match StringToBytes recipient with Err _ => Err "invalid recipient address" | r => r end);
  on_keepers (dk_SendModuleToAccount ProtocolPoolModuleName r amt).
Definition Msg_DepositValidatorRewardsPool (depositor validatorAddress : string) (amount : Coins) : GoM DistrState unit :=
  d ← liftM (match StringToBytes depositor with Err _ => Err "invalid depositor address" | r => r end);
  _ ← on_keepers (dk_SendAccountToModule d DistributionName amount);
  valAddr ← liftM (ValStringToBytes validatorAddress);
  validator ← on_keepers (dk_Validator valAddr);
  validator ← liftM (match validator with Some v => Ok v | None => Err ErrNoValidatorExists end);
  reward ← liftM (NewDecCoinsFromCoins amount);
  AllocateTokensToValidator (Some validator) reward.

(** ** keeper/genesis.go and types/genesis.go *)

Record DistrGenesis := mkDistrGenesis {
  dg_Params : DistrParams;
  dg_FeePool : FeePool;
  dg_WithdrawInfos : list (string * string);
  dg_Outstanding : list (string * DecCoins);
  dg_Commissions : list (string * DecCoins);
  dg_Historical : list (string * Z * ValidatorHistoricalRewards);
  dg_Current : list (string * ValidatorCurrentRewards);
  dg_Starting : list (string * string * DelegatorStartingInfo);
  dg_Slashes : list (string * Z * Z * ValidatorSlashEvent);
}.
Definition DistrGenesis_Validate (gs : DistrGenesis) : outcome unit :=
  _ ← DistrParams_ValidateBasic (dg_Params gs);
  FeePool_ValidateGenesis (dg_FeePool gs).
Definition init_outstanding (moduleHoldings : DecCoins) (rew : string * DecCoins) : GoM DistrState DecCoins :=
  valAddr ← liftM (ValStringToBytes rew.1);
  _ ← modifyM (with_Outstanding <[valAddr := rew.2]>);
  liftM (DecCoins_Add moduleHoldings rew.2).
Definition init_validators (data : DistrGenesis) : GoM DistrState unit :=
  _ ← forM_ (λ acc : string * DecCoins, v ← liftM (ValStringToBytes acc.1); modifyM (with_Commission <[v := acc.2]>)) (dg_Commissions data);
  _ ← forM_ (λ his : string * Z * ValidatorHistoricalRewards,
        v ← liftM (ValStringToBytes his.1.1); modifyM (with_Historical <[(v, his.1.2) := his.2]>)) (dg_Historical data);
  _ ← forM_ (λ cur : string * ValidatorCurrentRewards, v ← liftM (ValStringToBytes cur.1); modifyM (with_Current <[v := cur.2]>)) (dg_Current data);
  _ ← forM_ (λ del : string * string * DelegatorStartingInfo,
        v ← liftM (ValStringToBytes del.1.1); d ← liftM (StringToBytes del.1.2);
        modifyM (with_Starting <[(v, d) := del.2]>)) (dg_Starting data);
  forM_ (λ evt : string * Z * Z * ValidatorSlashEvent,
    v ← liftM (ValStringToBytes evt.1.1.1); modifyM (with_SlashEvents <[(v, evt.1.1.2, evt.1.2) := evt.2]>)) (dg_Slashes data).
Definition Distr_InitGenesis (data : DistrGenesis) : GoM DistrState unit :=
  _ ← modifyM (with_FeePool (dg_FeePool data));
  _ ← modifyM (with_di_Params (dg_Params data));
  _ ← forM_ (λ dwi : string * string, d ← liftM (StringToBytes dwi.1); w ← liftM (StringToBytes dwi.2);
        modifyM (with_WithdrawAddress <[d := w]>)) (dg_WithdrawInfos data);
  moduleHoldings ← foldM init_outstanding [] (dg_Outstanding data);
  _ ← init_validators data;
  moduleHoldings ← liftM (DecCoins_Add moduleHoldings (DecimalPool (dg_FeePool data)));
  '(moduleHoldingsInt, _) ← liftM (DecCoins_TruncateDecimal moduleHoldings);
  moduleAcc ← on_keepers (dk_ModuleAddress DistributionName);
  moduleAcc ← liftM (match moduleAcc with Some a => Ok a | None => Err "module account has not been set" end);
  balances ← on_keepers (dk_GetAllBalances moduleAcc);
  less ← liftM (Coins_IsAllLT balances moduleHoldingsInt);
  liftM (guard_err less "distribution module balance is less than module holdings").
End DistributionKeeper.
#[global] Arguments DistrState : clear implicits.
