(* ===== verification/DistrFacts.v ===== *)
(** * What the distribution module owes and holds

    The interface laws of the keepers the distribution module calls ([DistrLaws]),
    and the effect of every operation on the difference between the coins the module
    account holds and the outstanding rewards with the decimal pool. *)
From S2P Require Import Prelude Bytes MathInt LegacyDec Coin CoinFacts DecCoin Collections Account Vesting AuthKeeper Bank Validator Staking StakingFacts Hoare DecCoinOk Distribution.

Definition named {vcfg : ValAddressConfig} (a : string) (v : Validator) : Prop := ValStringToBytes (OperatorAddress v) = Ok a.
Definition delegation_named {acfg : AddressConfig} {vcfg : ValAddressConfig} (d v : string) (del : Delegation) : Prop :=
  StringToBytes (DelegatorAddress del) = Ok d ∧ ValStringToBytes (ValidatorAddress del) = Ok v.
Definition validator_sane (v : Validator) : Prop := 0 <= Rate (v_Commission v) ∧ 0 <= Tokens v.

(** The keepers hold the coins of the module: [dl_holdings x d] is the balance of its
    account, at [dl_address], in the denomination [d].  Lookups do not write and find
    validators with sane commission and tokens, and validators and delegations with the
    addresses they were looked up by; a transfer out lowers the holdings by
    at most its amount, one into the module account raises them by it, and the
    others leave them.  [dl_ok] is whatever the keepers need for that. *)
Class DistrLaws {cfg : CoinConfig} {acfg : AddressConfig} {vcfg : ValAddressConfig} (S : Type) (dk : DistrKeepers S) := {
  dl_ok : S → Prop;
  dl_address : string;
  dl_holdings : S → string → Z;
  dl_Validator a x : dl_ok x → wlp (dk_Validator a) (λ o x', x' = x ∧ from_option (λ v, validator_sane v ∧ named a v) True o) x;
  dl_ValidatorByConsAddr a x : dl_ok x → wlp (dk_ValidatorByConsAddr a) (λ o x', x' = x ∧ from_option validator_sane True o) x;
  dl_Delegation d v x : dl_ok x → wlp (dk_Delegation d v) (λ o x', x' = x ∧ from_option (delegation_named d v) True o) x;
  dl_BondDenom x : wlp dk_BondDenom (λ _ x', x' = x) x;
  dl_ModuleAddress n x : dl_ok x → wlp (dk_ModuleAddress n) (λ _ x', dl_ok x' ∧ ∀ d, dl_holdings x d <= dl_holdings x' d) x;
  dl_GetAllBalances a x : dl_ok x → wlp (dk_GetAllBalances a) (λ c x', x' = x ∧ good_coins c) x;
  dl_pay to amt x : dl_ok x → good_coins amt →
    wlp (dk_SendModuleToAccount DistributionName to amt) (λ _ x', dl_ok x' ∧ ∀ d, dl_holdings x d - amount amt d <= dl_holdings x' d) x;
  dl_pay_module to amt x : dl_ok x → good_coins amt →
    wlp (dk_SendModuleToModule DistributionName to amt) (λ _ x', dl_ok x' ∧ ∀ d, dl_holdings x d - amount amt d <= dl_holdings x' d) x;
  dl_collect from amt x : dl_ok x → from ≠ DistributionName → good_coins amt →
    wlp (dk_SendModuleToModule from DistributionName amt) (λ _ x', dl_ok x' ∧ ∀ d, dl_holdings x d + amount amt d <= dl_holdings x' d) x;
  dl_deposit from amt x : dl_ok x → from ≠ dl_address → in_int_range amt →
    wlp (dk_SendAccountToModule from DistributionName amt)
      (λ _ x', good_coins amt ∧ dl_ok x' ∧ ∀ d, dl_holdings x d + amount amt d <= dl_holdings x' d) x;
  dl_fund_pool from amt x : dl_ok x → from ≠ dl_address →
    wlp (dk_SendAccountToModule from ProtocolPoolModuleName amt) (λ _ x', dl_ok x' ∧ ∀ d, dl_holdings x d <= dl_holdings x' d) x;
  dl_spend_pool to amt x : dl_ok x →
    wlp (dk_SendModuleToAccount ProtocolPoolModuleName to amt) (λ _ x', dl_ok x' ∧ ∀ d, dl_holdings x d <= dl_holdings x' d) x;
}.

Section Solvency.
Context {S : Type} {dk : DistrKeepers S} {cfg : CoinConfig} {acfg : AddressConfig} {vcfg : ValAddressConfig} {DL : DistrLaws S dk}.
Implicit Types (s : DistrState S) (f g : string → Z).

Definition pool_of s (d : string) : Z := amount (from_option DecimalPool [] (di_FeePool s)) d.
Definition outstanding_total s (d : string) : Z := msum (λ _ c, amount c d) (OutstandingRewards s).

(** The stored coins are good, the tax is a fraction, and the coins held are worth at
    least what is owed and [f] more. *)
Record covered f s : Prop := {
  cv_keepers : dl_ok (di_keepers s);
  cv_params p : di_Params s = Some p → 0 <= CommunityTax p <= LegacyOneDec;
  cv_pool p : di_FeePool s = Some p → good_dec_coins (DecimalPool p);
  cv_outstanding : map_Forall (λ _ c, good_dec_coins c) (OutstandingRewards s);
  cv_commission : map_Forall (λ _ c, good_dec_coins c) (AccumulatedCommission s);
  cv_current : map_Forall (λ _ r, good_dec_coins (Rewards r)) (CurrentRewards s);
  cv_historical : map_Forall (λ _ r, good_dec_coins (CumulativeRewardRatio r)) (HistoricalRewards s);
  cv_solvent d : outstanding_total s d + pool_of s d + f d <= dl_holdings (di_keepers s) d * precisionReuse;
}.
Lemma covered_mono f g s : covered f s → (∀ d, g d <= f d) → covered g s.
Proof. intros [] H. split; try done. intros d. specialize (H d). specialize (cv_solvent0 d). lia. Qed.

Lemma covered_out f s v : covered f s → good_dec_coins (default [] (OutstandingRewards s !! v)).
Proof. intros Hc. destruct (OutstandingRewards s !! v) as [c|] eqn:E; cbn; [by apply (cv_outstanding f s Hc v)|apply good_dec_coins_nil]. Qed.
Lemma covered_com f s v : covered f s → good_dec_coins (default [] (AccumulatedCommission s !! v)).
Proof. intros Hc. destruct (AccumulatedCommission s !! v) as [c|] eqn:E; cbn; [by apply (cv_commission f s Hc v)|apply good_dec_coins_nil]. Qed.
Lemma covered_cur f s v r0 : covered f s → good_dec_coins (Rewards r0) → good_dec_coins (Rewards (default r0 (CurrentRewards s !! v))).
Proof. intros Hc H0. destruct (CurrentRewards s !! v) as [c|] eqn:E; cbn; [by apply (cv_current f s Hc v)|done]. Qed.
Lemma covered_hist f s k r : covered f s → HistoricalRewards s !! k = Some r → good_dec_coins (CumulativeRewardRatio r).
Proof. intros Hc. apply (cv_historical f s Hc k). Qed.

(** ** Writes *)

Lemma covered_FeePool f s p c : covered f s → good_dec_coins p →
  covered (λ d, f d + pool_of s d - amount p d) (with_FeePool (mkFeePool p c) s).
Proof.
  intros [] Hp. split; try done; cbn.
  - by intros q [= <-].
  - intros d. specialize (cv_solvent0 d). unfold pool_of, outstanding_total in *. cbn. lia.
Qed.
Lemma covered_Outstanding f s v c : covered f s → good_dec_coins c →
  covered (λ d, f d + amount (default [] (OutstandingRewards s !! v)) d - amount c d) (with_Outstanding <[v := c]> s).
Proof.
  intros [] Hc. split; try done; cbn.
  - by apply map_Forall_insert_2.
  - intros d. specialize (cv_solvent0 d). unfold pool_of, outstanding_total in *. cbn. rewrite msum_insert.
    destruct (OutstandingRewards s !! v); cbn; lia.
Qed.
Lemma covered_Outstanding_delete f s v : covered f s →
  covered (λ d, f d + amount (default [] (OutstandingRewards s !! v)) d) (with_Outstanding (delete v) s).
Proof.
  intros []. split; try done; cbn.
  - by apply map_Forall_delete.
  - intros d. specialize (cv_solvent0 d). unfold pool_of, outstanding_total in *. cbn. rewrite msum_delete.
    destruct (OutstandingRewards s !! v); cbn; lia.
Qed.
Lemma covered_Commission f s v c : covered f s → good_dec_coins c → covered f (with_Commission <[v := c]> s).
Proof. intros [] Hc. split; try done. by apply map_Forall_insert_2. Qed.
Lemma covered_Commission_delete f s v : covered f s → covered f (with_Commission (delete v) s).
Proof. intros []. split; try done. by apply map_Forall_delete. Qed.
Lemma covered_Current f s v r : covered f s → good_dec_coins (Rewards r) → covered f (with_Current <[v := r]> s).
Proof. intros [] Hc. split; try done. by apply map_Forall_insert_2. Qed.
Lemma covered_Current_delete f s v : covered f s → covered f (with_Current (delete v) s).
Proof. intros []. split; try done. by apply map_Forall_delete. Qed.
Lemma covered_Historical f s k r : covered f s → good_dec_coins (CumulativeRewardRatio r) → covered f (with_Historical <[k := r]> s).
Proof. intros [] Hc. split; try done. by apply map_Forall_insert_2. Qed.
Lemma covered_Historical_delete f s k : covered f s → covered f (with_Historical (delete k) s).
Proof. intros []. split; try done. by apply map_Forall_delete. Qed.
Lemma covered_Historical_filter f s v : covered f s → covered f (with_Historical (filter (λ kv : _ * _, kv.1.1 ≠ v)) s).
Proof. intros []. split; try done. cbn. intros k r [H _]%map_lookup_filter_Some. by apply (cv_historical0 k). Qed.
Lemma covered_Starting f s u : covered f s → covered f (with_Starting u s).
Proof. intros []. by split. Qed.
Lemma covered_Slash f s u : covered f s → covered f (with_SlashEvents u s).
Proof. intros []. by split. Qed.
Lemma covered_WithdrawAddress f s u : covered f s → covered f (with_WithdrawAddress u s).
Proof. intros []. by split. Qed.
Lemma covered_Params f s p : covered f s → DistrParams_ValidateBasic p = Ok tt → covered f (with_di_Params p s).
Proof.
  intros [] H. split; try done. cbn. intros q [= <-]. unfold DistrParams_ValidateBasic, validateCommunityTax in H. go_inv.
  rewrite Dec_IsNegative_ltb in *. match goal with H : Dec_GT _ _ = false |- _ => rewrite Dec_GT_ltb in H end. lia.
Qed.
Lemma covered_keepers f g s x : covered f s → dl_ok x →
  (∀ d, dl_holdings (di_keepers s) d + g d <= dl_holdings x d) → covered (λ d, f d + g d * precisionReuse) (with_keepers x s).
Proof.
  intros [] Hx H. split; try done. intros d. specialize (cv_solvent0 d). specialize (H d). unfold pool_of, outstanding_total in *. cbn.
  pose proof precisionReuse_pos. nia.
Qed.

(** ** Calls of the other keepers *)

Lemma with_keepers_id s : with_keepers (di_keepers s) s = s.
Proof. by destruct s. Qed.
Lemma wlp_on_keepers {A} (m : GoM S A) (Q : A → DistrState S → Prop) s :
  wlp m (λ r x, Q r (with_keepers x s)) (di_keepers s) → wlp (on_keepers m) Q s.
Proof. intros H r s' E. unfold on_keepers in E. destruct (m (di_keepers s)) as [r1 x] eqn:E1. injection E as -> <-. by apply H. Qed.
Lemma wlp_di_get {A} (u : DistrState S → option A) (Q : A → DistrState S → Prop) s :
  (∀ a, u s = Some a → Q a s) → wlp (di_get u) Q s.
Proof. intros H. unfold di_get. wlp. destruct (u s); [|done]. apply H. by injection E as ->. Qed.
Lemma wlp_read_call {A} (m : GoM S A) (P : A → Prop) (Q : A → DistrState S → Prop) s :
  wlp m (λ r x', x' = di_keepers s ∧ P r) (di_keepers s) → (∀ r, P r → Q r s) → wlp (on_keepers m) Q s.
Proof. intros H HQ. apply wlp_on_keepers. eapply wlp_mono; [exact H|]. intros r x [-> HP]. rewrite with_keepers_id. by apply HQ. Qed.
Lemma wlp_Validator f a (Q : option Validator → DistrState S → Prop) s :
  covered f s → (∀ o, from_option validator_sane True o → Q o s) → wlp (on_keepers (dk_Validator a)) Q s.
Proof. intros Hc HQ. eapply wlp_read_call; [apply dl_Validator, Hc|]. intros [v|] H; apply HQ; [apply H|done]. Qed.
Lemma wlp_ValidatorByConsAddr f a (Q : option Validator → DistrState S → Prop) s :
  covered f s → (∀ o, from_option validator_sane True o → Q o s) → wlp (on_keepers (dk_ValidatorByConsAddr a)) Q s.
Proof. intros Hc. apply wlp_read_call, dl_ValidatorByConsAddr, Hc. Qed.
Lemma wlp_Delegation f d v (Q : option Delegation → DistrState S → Prop) s :
  covered f s → (∀ o, from_option (delegation_named d v) True o → Q o s) → wlp (on_keepers (dk_Delegation d v)) Q s.
Proof. intros Hc. apply wlp_read_call, dl_Delegation, Hc. Qed.
Lemma wlp_BondDenom (Q : string → DistrState S → Prop) s : (∀ o, Q o s) → wlp (on_keepers dk_BondDenom) Q s.
Proof.
  intros HQ. apply (wlp_read_call _ (λ _, True)); [|by intros; apply HQ].
  eapply wlp_mono; [apply dl_BondDenom|]. intros r x ->. done.
Qed.
Lemma wlp_pay f to amt s : covered f s → good_coins amt →
  wlp (on_keepers (dk_SendModuleToAccount DistributionName to amt)) 
    (λ _ s', (∃ x, s' = with_keepers x s) ∧ covered (λ d, f d - amount amt d * precisionReuse) s') s.
Proof.
  intros Hc Ha. apply wlp_on_keepers. eapply wlp_mono; [apply dl_pay; [apply Hc|done]|]. intros r x [Hx H]. split; [by exists x|].
  eapply covered_mono; [apply (covered_keepers f (λ d, - amount amt d)); [done..|]|]; intros d; [specialize (H d); lia|cbn; lia].
Qed.
Lemma wlp_pay_module f to amt s : covered f s → good_coins amt →
  wlp (on_keepers (dk_SendModuleToModule DistributionName to amt)) 
    (λ _ s', (∃ x, s' = with_keepers x s) ∧ covered (λ d, f d - amount amt d * precisionReuse) s') s.
Proof.
  intros Hc Ha. apply wlp_on_keepers. eapply wlp_mono; [apply dl_pay_module; [apply Hc|done]|]. intros r x [Hx H]. split; [by exists x|].
  eapply covered_mono; [apply (covered_keepers f (λ d, - amount amt d)); [done..|]|]; intros d; [specialize (H d); lia|cbn; lia].
Qed.
End Solvency.
