(* ===== verification/DistrSolvency.v ===== *)
(** * The distribution module stays solvent

    Every operation of x/distribution keeps the module account's coins worth at least
    the outstanding rewards of the validators and the decimal pool. *)
From S2P Require Import Prelude Bytes MathInt LegacyDec Coin CoinFacts DecCoin Collections Account Vesting AuthKeeper Bank Validator Staking StakingFacts Hoare DecCoinOk Distribution DistrFacts.

Section Operations.
Context {S : Type} {dk : DistrKeepers S} {cfg : CoinConfig} {acfg : AddressConfig} {vcfg : ValAddressConfig} {DL : DistrLaws S dk}.
Implicit Types (s : DistrState S) (f g : string → Z).

(** ** Validators: keeper/validator.go *)

Lemma wlp_initializeValidator f v s : covered f s →
  wlp (initializeValidator v) (λ _ s', covered (λ d, f d) s') s.
Proof.
  intros Hc. unfold initializeValidator. wlp. eapply covered_mono.
  - apply covered_Outstanding; [|exact good_dec_coins_nil]. apply covered_Commission; [|exact good_dec_coins_nil].
    apply covered_Current; [|exact good_dec_coins_nil]. apply covered_Historical; [exact Hc|exact good_dec_coins_nil].
  - intros d. cbn. pose proof (good_dec_nonneg _ d (covered_out f s a Hc)). lia.
Qed.
Lemma wlp_incrementReferenceCount f v p s : covered f s → wlp (incrementReferenceCount v p) (λ _, covered f) s.
Proof.
  intros Hc. unfold incrementReferenceCount. apply wlp_bind, wlp_di_get. intros r Hr. wlp.
  apply covered_Historical; [done|]. exact (covered_hist f s _ _ Hc Hr).
Qed.
Lemma wlp_decrementReferenceCount f v p s : covered f s → wlp (decrementReferenceCount v p) (λ _, covered f) s.
Proof.
  intros Hc. unfold decrementReferenceCount. apply wlp_bind, wlp_di_get. intros r Hr. wlp.
  - by apply covered_Historical_delete.
  - apply covered_Historical; [done|]. exact (covered_hist f s _ _ Hc Hr).
Qed.
Lemma wlp_period_without_tokens f v r s : covered f s → good_dec_coins r →
  wlp (period_without_tokens v r) (λ c s', covered f s' ∧ good_dec_coins c) s.
Proof.
  intros Hc Hr. unfold period_without_tokens. apply wlp_bind, wlp_di_get. intros p Hp.
  unfold GetValidatorOutstandingRewardsCoins. wlp. split; [|apply good_dec_coins_nil].
  destruct (DecCoins_Add_Ok _ _ _ (cv_pool f s Hc p Hp) Hr E) as [Ga Ma].
  destruct (DecCoins_Sub_Ok _ _ _ (covered_out f s v Hc) Hr E0) as [Gs Ms].
  eapply covered_mono; [apply covered_Outstanding; [by apply covered_FeePool|done]|]. intros d. cbn.
  unfold pool_of. rewrite Hp. cbn. rewrite Ma, Ms. lia.
Qed.
Lemma wlp_IncrementValidatorPeriod f v s : covered f s → validator_sane v → wlp (IncrementValidatorPeriod v) (λ _, covered f) s.
Proof.
  intros Hc [_ Hv]. unfold IncrementValidatorPeriod. apply wlp_bind, wlp_liftM. intros val _. apply wlp_bind, wlp_readM.
  set (rewards := default _ _). assert (good_dec_coins (Rewards rewards)) as Hr by (by eapply covered_cur; [|apply good_dec_coins_nil]).
  apply wlp_bind. eapply (wlp_mono _ (λ c s', covered f s' ∧ good_dec_coins c)).
  { destruct (Int_IsZero (Tokens v)) eqn:Ez; [by apply wlp_period_without_tokens|]. apply wlp_liftM. intros c E. split; [done|].
    apply outcome_bind_Ok in E as (t & Et & E). rewrite LegacyNewDecFromInt_Ok in Et. injection Et as <-.
    rewrite Int_IsZero_eqb in Ez. eapply DecCoins_QuoDecTruncate_Ok; [|exact Hr|exact E]. pose proof precisionReuse_pos. nia. }
  intros current s1 [Hc1 Hcur]. apply wlp_bind, wlp_di_get. intros r Hh. apply wlp_bind.
  wlp_call ltac:(by apply wlp_decrementReferenceCount). intros _ s2 Hc2. wlp.
  destruct (DecCoins_Add_Ok _ _ _ (covered_hist f s1 _ _ Hc1 Hh) Hcur E) as [Ga _].
  apply covered_Current; [|apply good_dec_coins_nil]. by apply covered_Historical.
Qed.
Lemma wlp_updateValidatorSlashFraction f h v fr s : covered f s → wlp (updateValidatorSlashFraction h v fr) (λ _, covered f) s.
Proof.
  intros Hc. unfold updateValidatorSlashFraction. apply wlp_bind, wlp_liftM. intros _ _.
  apply wlp_bind. eapply wlp_Validator; [exact Hc|]. intros o Ho. apply wlp_bind, wlp_liftM. intros val E.
  destruct o; [injection E as ->|done]. apply wlp_bind. wlp_call ltac:(by apply wlp_IncrementValidatorPeriod).
  intros p s1 Hc1. apply wlp_bind. wlp_call ltac:(by apply wlp_incrementReferenceCount). intros _ s2 Hc2. wlp. by apply covered_Slash.
Qed.

(** ** Delegations: keeper/delegation.go *)

Lemma wlp_initializeDelegation f h v d s : covered f s → wlp (initializeDelegation h v d) (λ _, covered f) s.
Proof.
  intros Hc. unfold initializeDelegation. apply wlp_bind, wlp_di_get. intros r _. apply wlp_bind.
  wlp_call ltac:(by apply wlp_incrementReferenceCount). intros _ s1 Hc1. apply wlp_bind. eapply wlp_Validator; [exact Hc1|].
  intros o _. apply wlp_bind. eapply wlp_Delegation; [eassumption|]. intros o2 _. wlp. by apply covered_Starting.
Qed.
(** The calculation reads the state and returns good coins. *)
Lemma wlp_calculateBetween f v p q stake s : covered f s →
  wlp (calculateDelegationRewardsBetween v p q stake) (λ c s', s' = s ∧ good_dec_coins c) s.
Proof.
  intros Hc. unfold calculateDelegationRewardsBetween. apply wlp_bind, wlp_liftM. intros _ _. apply wlp_bind, wlp_liftM.
  intros _ E%guard_err_Ok. rewrite Dec_IsNegative_ltb in E. apply wlp_bind, wlp_liftM. intros val _.
  apply wlp_bind, wlp_di_get. intros r Hr. apply wlp_bind, wlp_di_get. intros r' Hr'. wlp. split; [done|].
  destruct (DecCoins_Sub_Ok _ _ _ (covered_hist f s _ _ Hc Hr') (covered_hist f s _ _ Hc Hr) E0) as [Gs _].
  eapply DecCoins_MulDecTruncate_Ok; [|exact Gs|eassumption]. lia.
Qed.
Lemma wlp_slash_period f v acc ev s : covered f s → good_dec_coins acc.1.1 →
  wlp (slash_period v acc ev) (λ acc' s', s' = s ∧ good_dec_coins acc'.1.1) s.
Proof.
  intros Hc. destruct acc as [[rewards stake] p]. cbn. intros Hr. unfold slash_period. destruct (_ <? _); [|by apply wlp_ret].
  apply wlp_bind. wlp_call ltac:(by eapply wlp_calculateBetween). intros c s1 [-> Gc]. wlp. split; [done|].
  match goal with E : DecCoins_Add _ _ = Ok _ |- _ => exact (proj1 (DecCoins_Add_Ok _ _ _ Hr Gc E)) end.
Qed.
Lemma wlp_CalculateDelegationRewards f h v del p s : covered f s →
  wlp (CalculateDelegationRewards h v del p) (λ c s', s' = s ∧ good_dec_coins c) s.
Proof.
  intros Hc. unfold CalculateDelegationRewards. apply wlp_bind, wlp_liftM. intros d _. apply wlp_bind, wlp_liftM. intros val _.
  apply wlp_bind, wlp_readM. destruct (_ =? _); [apply wlp_ret; split; [done|apply good_dec_coins_nil]|].
  apply wlp_bind, wlp_liftM. intros info _. apply wlp_bind.
  eapply (wlp_mono _ (λ acc s', s' = s ∧ good_dec_coins acc.1.1)).
  { destruct (_ <? _); [|apply wlp_ret; split; [done|apply good_dec_coins_nil]].
    unfold IterateValidatorSlashEventsBetween. apply wlp_bind, wlp_liftM. intros _ _. apply wlp_bind, wlp_readM.
    apply (wlp_foldM _ (λ acc s', s' = s ∧ good_dec_coins acc.1.1)); [|split; [done|apply good_dec_coins_nil]].
    intros acc x s1 _ [-> Ha]. by eapply wlp_slash_period. }
  intros [[rewards stake] q] s1 [-> Hr]. cbn in Hr. apply wlp_bind, wlp_liftM. intros cur _. apply wlp_bind, wlp_liftM.
  intros st _. apply wlp_bind. wlp_call ltac:(by eapply wlp_calculateBetween). intros c s1 [-> Gc]. wlp. split; [done|].
  match goal with E : DecCoins_Add _ _ = Ok _ |- _ => exact (proj1 (DecCoins_Add_Ok _ _ _ Hr Gc E)) end.
Qed.
Lemma wlp_optional_pay f to amt s : covered f s → good_coins amt →
  wlp (if negb (Coins_IsZero amt) then a ← GetDelegatorWithdrawAddr to; on_keepers (dk_SendModuleToAccount DistributionName a amt)
       else mret tt) (λ _ s', (∃ x, s' = with_keepers x s) ∧ covered (λ d, f d - amount amt d * precisionReuse) s') s.
Proof.
  intros Hc Ha. destruct (Coins_IsZero amt) eqn:E; cbn [negb].
  - apply wlp_ret. split; [exists (di_keepers s); by rewrite with_keepers_id|]. eapply covered_mono; [exact Hc|]. intros d. cbn. pose proof (valid_coins_amount_nonneg amt d (proj1 Ha)).
    pose proof precisionReuse_pos. nia.
  - unfold GetDelegatorWithdrawAddr. apply wlp_bind, wlp_readM. by apply wlp_pay.
Qed.
Lemma wlp_pay_rewards f d v raw s : covered f s → good_dec_coins raw →
  wlp (pay_rewards d v raw) (λ _, covered f) s.
Proof.
  intros Hc Hraw. unfold pay_rewards, GetValidatorOutstandingRewardsCoins. apply wlp_bind, wlp_readM.
  apply wlp_bind, wlp_liftM. intros rewards E.
  destruct (DecCoins_Intersect_Ok _ _ _ Hraw (covered_out f s v Hc) E) as [Gr _].
  apply wlp_bind, wlp_liftM. intros [final rem] Et. destruct (DecCoins_TruncateDecimal_Ok _ _ _ Gr Et) as (Gf & Grem & Hsum).
  apply wlp_bind. wlp_call ltac:(by apply wlp_optional_pay). intros _ s1 [[x ->] Hc1].
  apply wlp_bind, wlp_liftM. intros out Eo. apply wlp_bind, wlp_modifyM. apply wlp_bind, wlp_di_get. intros p Hp. wlp.
  set (out0 := default [] (OutstandingRewards s !! v)) in *.
  destruct (DecCoins_Sub_Ok _ _ _ (covered_out f s v Hc) Gr Eo) as [Go Mo]. cbn in Hp.
  destruct (DecCoins_Add_Ok _ _ _ (cv_pool f s Hc p Hp) Grem E0) as [Gp Mp].
  eapply covered_mono; [apply covered_FeePool; [apply covered_Outstanding; [exact Hc1|done]|done]|].
  intros d0. destruct (Hsum d0) as [Hs _]. unfold pool_of. cbn. rewrite Hp. cbn. rewrite Mp, Mo. fold out0. lia.
Qed.
Lemma wlp_withdrawDelegationRewards f h v del s : covered f s → validator_sane v →
  wlp (withdrawDelegationRewards h v del) (λ _, covered f) s.
Proof.
  intros Hc Hv. unfold withdrawDelegationRewards. apply wlp_bind, wlp_liftM. intros d _. apply wlp_bind, wlp_liftM. intros val _.
  apply wlp_bind, wlp_readM. apply wlp_bind, wlp_liftM. intros _ _. apply wlp_bind.
  wlp_call ltac:(by apply wlp_IncrementValidatorPeriod). intros p s1 Hc1. apply wlp_bind.
  wlp_call ltac:(by eapply wlp_CalculateDelegationRewards). intros raw s2 [-> Graw]. apply wlp_bind.
  wlp_call ltac:(by apply wlp_pay_rewards). intros final s2 Hc2. apply wlp_bind, wlp_readM. apply wlp_bind.
  wlp_call ltac:(by apply wlp_decrementReferenceCount). intros _ s3 Hc3. apply wlp_bind, wlp_modifyM.
  destruct (Coins_IsZero final); [|by apply wlp_ret, covered_Starting].
  apply wlp_bind, wlp_BondDenom. intros base. wlp. by apply covered_Starting.
Qed.

(** ** Allocation: keeper/allocation.go *)

Lemma wlp_AllocateTokensToValidator f o tokens s : covered f s → from_option validator_sane True o → good_dec_coins tokens →
  wlp (AllocateTokensToValidator o tokens)
    (λ _ s', covered (λ d, f d - amount tokens d) s' ∧ di_FeePool s' = di_FeePool s ∧ di_keepers s' = di_keepers s) s.
Proof.
  intros Hc Ho Gt. unfold AllocateTokensToValidator, GetValidatorOutstandingRewardsCoins. apply wlp_bind, wlp_liftM.
  intros v E. destruct o; [injection E as ->|done]. destruct Ho as [Hrate _].
  apply wlp_bind, wlp_liftM. intros com Ec. destruct (DecCoins_MulDec_Ok _ _ _ Hrate Gt Ec) as [Gc _].
  apply wlp_bind, wlp_liftM. intros shared Es. destruct (DecCoins_Sub_Ok _ _ _ Gt Gc Es) as [Gs _]. wlp. cbn in *.
  match goal with E : DecCoins_Add (default [] (AccumulatedCommission _ !! _)) _ = Ok _ |- _ =>
    destruct (DecCoins_Add_Ok _ _ _ (covered_com f s _ Hc) Gc E) as [Gcom _] end.
  match goal with E : DecCoins_Add (Rewards _) _ = Ok _ |- _ =>
    destruct (DecCoins_Add_Ok _ _ _ (covered_cur f s _ (NewValidatorCurrentRewards [] 0) Hc good_dec_coins_nil) Gs E) as [Gcur _] end.
  match goal with E : DecCoins_Add (default [] (OutstandingRewards _ !! _)) _ = Ok _ |- _ =>
    destruct (DecCoins_Add_Ok _ _ _ (covered_out f s _ Hc) Gt E) as [Gout Mout] end.
  split; [|done]. eapply covered_mono.
  - apply covered_Outstanding; [|exact Gout]. apply covered_Current; [|exact Gcur]. apply covered_Commission; [exact Hc|exact Gcom].
  - intros d. cbn. rewrite Mout. lia.
Qed.
Lemma wlp_allocate_vote f fees total vote rem s : covered f s → good_dec_coins fees → good_dec_coins rem → 0 <= bv_Power vote → 0 <= total →
  wlp (allocate_vote fees total rem vote)
    (λ rem' s', good_dec_coins rem' ∧ covered (λ d, f d - (amount rem d - amount rem' d)) s' ∧ di_FeePool s' = di_FeePool s) s.
Proof.
  intros Hc Gf Gr Hp Ht. unfold allocate_vote. apply wlp_bind. eapply wlp_ValidatorByConsAddr; [exact Hc|]. intros o Ho.
  apply wlp_bind, wlp_liftM. intros frac Ef. apply outcome_bind_Ok in Ef as (x & Ex & Ef). apply outcome_bind_Ok in Ef as (y & Ey & Ef).
  rewrite LegacyNewDec_Ok in Ex, Ey. injection Ex as <-. injection Ey as <-.
  assert (0 <= frac) as Hfrac.
  { unfold Dec_QuoTruncate, Dec_QuoTruncateMut, big_Quo in Ef. destruct (Z.eqb_spec (total * precisionReuse) 0); [discriminate|].
    apply outcome_bind_Ok in Ef as (q & [= <-] & Ef). apply in_valid_range_Ok in Ef as [-> _].
    pose proof precisionReuse_pos. apply Z.quot_pos; nia. }
  apply wlp_bind, wlp_liftM. intros reward Er. destruct (DecCoins_MulDecTruncate_Ok _ _ _ Hfrac Gf Er) as [Grew _].
  apply wlp_bind. wlp_call ltac:(by apply wlp_AllocateTokensToValidator). intros _ s1 (Hc1 & Hfp & _). wlp.
  match goal with E : DecCoins_Sub _ _ = Ok _ |- _ => destruct (DecCoins_Sub_Ok _ _ _ Gr Grew E) as [Gs Ms] end.
  split; [done|]. split; [|done]. eapply covered_mono; [exact Hc1|]. intros d. cbn. rewrite Ms. lia.
Qed.
Lemma wlp_allocate_votes f fees total votes rem s : covered f s → good_dec_coins fees → good_dec_coins rem → 0 <= total →
  Forall (λ v, 0 <= bv_Power v) votes →
  wlp (foldM (allocate_vote fees total) rem votes)
    (λ rem' s', good_dec_coins rem' ∧ covered (λ d, f d - (amount rem d - amount rem' d)) s' ∧ di_FeePool s' = di_FeePool s) s.
Proof.
  intros Hc Gf Gr Ht Hv. rewrite Forall_forall in Hv.
  apply (wlp_foldM _ (λ rem' s', good_dec_coins rem' ∧ covered (λ d, f d - (amount rem d - amount rem' d)) s' ∧ di_FeePool s' = di_FeePool s)).
  - intros rem' vote s1 Hin (Gr' & Hc1 & Hfp). wlp_call ltac:(apply wlp_allocate_vote; [exact Hc1|exact Gf|exact Gr'|by apply Hv|exact Ht]).
    intros rem2 s2 (G2 & Hc2 & Hfp2). split; [done|]. split; [|by rewrite Hfp2]. eapply covered_mono; [exact Hc2|]. intros d. cbn. lia.
  - split; [done|]. split; [|done]. eapply covered_mono; [exact Hc|]. intros d. lia.
Qed.
Lemma wlp_collect f fc amt s : covered f s → fc ≠ DistributionName → good_coins amt →
  wlp (on_keepers (dk_SendModuleToModule fc DistributionName amt)) (λ _ s', (∃ x, s' = with_keepers x s) ∧ covered (λ d, f d + amount amt d * precisionReuse) s') s.
Proof.
  intros Hc Hne Ha. apply wlp_on_keepers. eapply wlp_mono; [apply dl_collect; [apply Hc|done..]|]. intros r x [Hx H].
  split; [by exists x|]. by apply covered_keepers.
Qed.
(** The fees that came in are what the validators were given and what remains. *)
Lemma wlp_AllocateTokens f fc total votes s : covered f s → fc ≠ DistributionName → 0 <= total →
  Forall (λ v, 0 <= bv_Power v) votes → wlp (AllocateTokens fc total votes) (λ _, covered f) s.
Proof.
  intros Hc Hne Ht Hv. unfold AllocateTokens. apply wlp_bind, wlp_on_keepers. eapply wlp_mono; [apply dl_ModuleAddress, Hc|].
  intros o x [Hx Hh]. assert (covered f (with_keepers x s)) as Hc0.
  { eapply covered_mono; [apply (covered_keepers f (λ _, 0)); [done|done|]|]; intros d; [specialize (Hh d); lia|cbn; lia]. }
  clear Hc. revert Hc0. generalize (with_keepers x s). clear s x Hx Hh. intros s Hc. apply wlp_bind, wlp_liftM. intros addr _.
  apply wlp_bind. apply (wlp_read_call _ good_coins); [apply dl_GetAllBalances, Hc|]. intros fees Gfees.
  destruct (Coins_Empty fees); [by apply wlp_ret|]. apply wlp_bind, wlp_liftM. intros decs Ed.
  destruct (NewDecCoinsFromCoins_Ok _ _ Gfees Ed) as [Gd Md].
  apply wlp_bind. wlp_call ltac:(by apply wlp_collect). intros _ s1 [[x ->] Hc1]. apply wlp_bind, wlp_di_get. intros p Hp.
  set (s1 := with_keepers x s) in *. pose proof (cv_pool _ _ Hc1 p Hp) as Gp. apply wlp_bind.
  apply (wlp_mono _ (λ _ s', covered (λ d, f d + amount decs d - (pool_of s' d - amount (DecimalPool p) d)) s')).
  { destruct (total =? 0).
    - apply wlp_bind, wlp_liftM. intros pool Ep. destruct (DecCoins_Add_Ok _ _ _ Gp Gd Ep) as [Ga _]. apply wlp_modifyM.
      eapply covered_mono; [by apply covered_FeePool|]. intros d. rewrite Md. unfold pool_of at 2. rewrite Hp. cbn. unfold pool_of. cbn. lia.
    - apply wlp_ret. eapply covered_mono; [exact Hc1|]. intros d. rewrite Md. unfold pool_of. rewrite Hp. cbn. lia. }
  intros _ s2 Hc2. apply wlp_bind. unfold GetCommunityTax. apply wlp_bind, wlp_di_get. intros q Hq. apply wlp_ret.
  apply wlp_bind, wlp_liftM. intros mult Em. apply Dec_Sub_Ok in Em as [-> _].
  pose proof (cv_params _ _ Hc2 q Hq) as Htax. apply wlp_bind, wlp_liftM. intros feesm Ef.
  destruct (DecCoins_MulDecTruncate_Ok decs (LegacyOneDec - CommunityTax q) feesm ltac:(lia) Gd Ef) as [Gfm _]. apply wlp_bind.
  wlp_call ltac:(apply wlp_allocate_votes; [exact Hc2|exact Gfm|exact Gd|exact Ht|exact Hv]).
  intros rem s3 (Grem & Hc3 & Hfp3). apply wlp_bind, wlp_liftM. intros [amt re] Et.
  destruct (DecCoins_TruncateDecimal_Ok _ _ _ Grem Et) as (Gamt & Gre & Hsum).
  apply wlp_bind. wlp_call ltac:(by apply wlp_pay_module). intros _ s4 [[y ->] Hc4].
  apply wlp_bind, wlp_liftM. intros pool Ep. destruct (DecCoins_Add_Ok _ _ _ Gp Gre Ep) as [Ga Ma]. apply wlp_modifyM.
  eapply covered_mono; [by apply covered_FeePool|]. intros d. cbn. rewrite Ma. destruct (Hsum d) as [Hd _].
  unfold pool_of. cbn. rewrite Hfp3. lia.
Qed.
Lemma wlp_sendDecimalPool f s : covered f s → wlp sendDecimalPoolToCommunityPool (λ _, covered f) s.
Proof.
  intros Hc. unfold sendDecimalPoolToCommunityPool. apply wlp_bind, wlp_di_get. intros p Hp. destruct (DecCoins_IsZero _); [by apply wlp_ret|].
  apply wlp_bind, wlp_liftM. intros [amt re] Et. destruct (DecCoins_TruncateDecimal_Ok _ _ _ (cv_pool f s Hc p Hp) Et) as (Gamt & Gre & Hsum).
  apply wlp_bind. wlp_call ltac:(by apply wlp_pay_module). intros _ s1 [[y ->] Hc1]. apply wlp_modifyM.
  eapply covered_mono; [by apply covered_FeePool|]. intros d. cbn. destruct (Hsum d) as [Hd _]. unfold pool_of. cbn. rewrite Hp. cbn. lia.
Qed.
Definition powers (votes : list BondedVote) : Z := foldr (λ v p, bv_Power v + p) 0 votes.
Lemma powers_sum votes : ∀ p, 0 <= p → Forall (λ v, 0 <= bv_Power v) votes → p + powers votes < 2 ^ 63 →
  foldl (λ p vote, wrap_int64 (p + bv_Power vote)) p votes = p + powers votes ∧ 0 <= powers votes.
Proof.
  induction votes as [|v votes IH]; intros p Hp Hv Hb; [cbn; lia|]. apply Forall_cons in Hv as [Hv1 Hv].
  assert (0 <= powers votes) as Hn by (clear -Hv; induction Hv as [|??? _ IH]; [done|]; change (0 <= bv_Power x + powers l); lia).
  change (powers (v :: votes)) with (bv_Power v + powers votes) in *. cbn [foldl].
  rewrite wrap_int64_id by lia. destruct (IH (p + bv_Power v)) as [-> _]; [lia|done|lia|]. lia.
Qed.
Lemma wlp_BeginBlocker f h fc votes s : covered f s → fc ≠ DistributionName → Forall (λ v, 0 <= bv_Power v) votes → powers votes < 2 ^ 63 →
  wlp (Distr_BeginBlocker h fc votes) (λ _, covered f) s.
Proof.
  intros Hc Hne Hv Hb. unfold Distr_BeginBlocker. destruct (powers_sum votes 0) as [-> Hn]; [lia|done|lia|].
  cbv zeta. destruct (1 <? h_Height h); [|by apply wlp_ret]. apply wlp_bind.
  wlp_call ltac:(by apply wlp_AllocateTokens). intros _ s1 Hc1. destruct (_ =? _); [by apply wlp_sendDecimalPool|by apply wlp_ret].
Qed.

(** ** Messages: keeper/keeper.go and keeper/msg_server.go *)

Lemma wlp_WithdrawDelegationRewards f h d v s : covered f s → wlp (WithdrawDelegationRewards h d v) (λ _, covered f) s.
Proof.
  intros Hc. unfold WithdrawDelegationRewards. apply wlp_bind. eapply wlp_Validator; [exact Hc|]. intros o Ho.
  apply wlp_bind, wlp_liftM. intros val E. destruct o; [injection E as ->|done]. apply wlp_bind. eapply wlp_Delegation; [eassumption|]. intros o2 _.
  apply wlp_bind, wlp_liftM. intros del _. apply wlp_bind. wlp_call ltac:(by apply wlp_withdrawDelegationRewards).
  intros c s1 Hc1. apply wlp_bind. wlp_call ltac:(by apply wlp_initializeDelegation). intros _ s2 Hc2. by apply wlp_ret.
Qed.
Lemma wlp_WithdrawValidatorCommission f v s : covered f s → wlp (WithdrawValidatorCommission v) (λ _, covered f) s.
Proof.
  intros Hc. unfold WithdrawValidatorCommission. apply wlp_bind, wlp_readM, wlp_bind, wlp_liftM. intros _ _.
  apply wlp_bind, wlp_liftM. intros [com rem] Et. destruct (DecCoins_TruncateDecimal_Ok _ _ _ (covered_com f s v Hc) Et) as (Gcom & Grem & _).
  apply wlp_bind, wlp_modifyM, wlp_bind, wlp_di_get. intros out Hout. cbn in Hout. apply wlp_bind, wlp_liftM. intros dec Ed.
  destruct (NewDecCoinsFromCoins_Ok _ _ Gcom Ed) as [Gd Md]. apply wlp_bind, wlp_liftM. intros out' Es.
  destruct (DecCoins_Sub_Ok out dec out') as [Go Mo]; [by apply (cv_outstanding f s Hc v)|done|done|].
  apply wlp_bind, wlp_modifyM, wlp_bind.
  assert (covered (λ d, f d + amount com d * precisionReuse) (with_Outstanding <[v := out']> (with_Commission <[v := rem]> s))) as Hc1.
  { eapply covered_mono; [apply covered_Outstanding; [by apply covered_Commission|done]|]. intros d. cbn. rewrite Hout. cbn.
    rewrite Mo, Md. lia. }
  wlp_call ltac:(by apply wlp_optional_pay). intros _ s1 [_ Hc2]. apply wlp_ret.
  eapply covered_mono; [exact Hc2|]. intros d. cbn. lia.
Qed.
Lemma wlp_SetWithdrawAddr f d w s : covered f s → wlp (SetWithdrawAddr d w) (λ _, covered f) s.
Proof.
  intros Hc. unfold SetWithdrawAddr, GetWithdrawAddrEnabled. apply wlp_bind, wlp_liftM. intros b _. apply wlp_bind, wlp_liftM. intros _ _.
  apply wlp_bind, wlp_bind, wlp_di_get. intros p _. wlp. by apply covered_WithdrawAddress.
Qed.
Lemma wlp_Deposit f from v amt s : covered f s → (∀ d, StringToBytes from = Ok d → d ≠ dl_address) → in_int_range amt →
  wlp (Msg_DepositValidatorRewardsPool from v amt) (λ _, covered f) s.
Proof.
  intros Hc Hne Hr. unfold Msg_DepositValidatorRewardsPool. apply wlp_bind, wlp_liftM. intros d E.
  destruct (StringToBytes from) as [d'| |] eqn:Ed; [injection E as ->|done..]. apply wlp_bind, wlp_on_keepers.
  eapply wlp_mono; [apply dl_deposit; [apply Hc|by apply Hne|done]|]. intros _ x (Ga & Hx & Hh).
  assert (covered (λ d, f d + amount amt d * precisionReuse) (with_keepers x s)) as Hc1 by (by apply covered_keepers).
  apply wlp_bind, wlp_liftM. intros val _. apply wlp_bind. eapply wlp_Validator; [exact Hc1|]. intros o Ho.
  apply wlp_bind, wlp_liftM. intros w Ew. destruct o; [injection Ew as ->|done]. apply wlp_bind, wlp_liftM. intros decs E2.
  destruct (NewDecCoinsFromCoins_Ok _ _ Ga E2) as [Gd Md]. wlp_call ltac:(by apply wlp_AllocateTokensToValidator).
  intros _ s2 [Hc2 _]. eapply covered_mono; [exact Hc2|]. intros d0. cbn. rewrite Md. lia.
Qed.

(** ** Hooks: keeper/hooks.go *)

Lemma wlp_pay_removed f v out com s : covered f s → good_dec_coins out → good_dec_coins com →
  wlp (pay_removed v out com)
    (λ out' s', good_dec_coins out' ∧ covered (λ d, f d - (amount out d - amount out' d)) s' ∧ OutstandingRewards s' = OutstandingRewards s) s.
Proof.
  intros Hc Go Gc. unfold pay_removed. apply wlp_bind, wlp_liftM. intros out' Es. destruct (DecCoins_Sub_Ok _ _ _ Go Gc Es) as [Gs Ms].
  apply wlp_bind, wlp_liftM. intros [coins rem] Et. destruct (DecCoins_TruncateDecimal_Ok _ _ _ Gc Et) as (Gcoins & Grem & Hsum).
  apply wlp_bind, wlp_di_get. intros p Hp. apply wlp_bind, wlp_liftM. intros pool Ep.
  destruct (DecCoins_Add_Ok _ _ _ (cv_pool f s Hc p Hp) Grem Ep) as [Ga Ma]. apply wlp_bind, wlp_modifyM, wlp_bind.
  wlp_call ltac:(by apply wlp_optional_pay; [apply covered_FeePool|]). intros _ s1 [[x ->] Hc1]. apply wlp_ret.
  split; [done|]. split; [|done]. eapply covered_mono; [exact Hc1|]. intros d. cbn. destruct (Hsum d) as [Hd _].
  unfold pool_of. rewrite Hp. cbn. rewrite Ma, Ms. lia.
Qed.
Lemma wlp_AfterValidatorRemoved f v s : covered f s → wlp (Distr_AfterValidatorRemoved v) (λ _, covered f) s.
Proof.
  intros Hc. unfold Distr_AfterValidatorRemoved, GetValidatorOutstandingRewardsCoins. apply wlp_bind, wlp_readM, wlp_bind, wlp_readM, wlp_bind.
  set (out := default [] (OutstandingRewards s !! v)). set (com := default [] (AccumulatedCommission s !! v)).
  apply (wlp_mono _ (λ out' s', good_dec_coins out' ∧ covered (λ d, f d - (amount out d - amount out' d)) s' ∧ OutstandingRewards s' = OutstandingRewards s)).
  { destruct (DecCoins_IsZero com); cbn [negb].
    - apply wlp_ret. split; [by apply (covered_out f)|]. split; [|done]. eapply covered_mono; [exact Hc|]. intros d. lia.
    - apply wlp_pay_removed; [done|by apply (covered_out f)|by apply (covered_com f)]. }
  intros out' s1 (Go & Hc1 & Hout). apply wlp_bind, wlp_di_get. intros p Hp. apply wlp_bind, wlp_liftM. intros pool Ep.
  destruct (DecCoins_Add_Ok _ _ _ (cv_pool _ _ Hc1 p Hp) Go Ep) as [Ga Ma]. wlp.
  apply covered_Current_delete, covered_Historical_filter, covered_Slash, covered_Commission_delete.
  eapply covered_mono; [apply covered_Outstanding_delete; by apply covered_FeePool|]. intros d. cbn. rewrite Hout. fold out.
  unfold pool_of. rewrite Hp. cbn. rewrite Ma. lia.
Qed.
Lemma wlp_BeforeDelegationCreated f v s : covered f s → wlp (Distr_BeforeDelegationCreated v) (λ _, covered f) s.
Proof.
  intros Hc. unfold Distr_BeforeDelegationCreated. apply wlp_bind. eapply wlp_Validator; [exact Hc|]. intros o Ho.
  apply wlp_bind, wlp_liftM. intros val E. destruct o; [injection E as ->|done]. apply wlp_bind.
  wlp_call ltac:(by apply wlp_IncrementValidatorPeriod). intros p s1 Hc1. by apply wlp_ret.
Qed.
Lemma wlp_BeforeDelegationSharesModified f h d v s : covered f s → wlp (Distr_BeforeDelegationSharesModified h d v) (λ _, covered f) s.
Proof.
  intros Hc. unfold Distr_BeforeDelegationSharesModified. apply wlp_bind. eapply wlp_Validator; [exact Hc|]. intros o Ho.
  apply wlp_bind. eapply wlp_Delegation; [eassumption|]. intros o2 _. apply wlp_bind, wlp_liftM. intros del _. apply wlp_bind, wlp_liftM. intros val E.
  destruct o; [injection E as ->|done]. apply wlp_bind. wlp_call ltac:(by apply wlp_withdrawDelegationRewards). intros c s1 Hc1. by apply wlp_ret.
Qed.
Lemma wlp_AfterValidatorCreated f v s : covered f s → wlp (Distr_AfterValidatorCreated v) (λ _, covered f) s.
Proof.
  intros Hc. unfold Distr_AfterValidatorCreated. apply wlp_bind. eapply wlp_Validator; [exact Hc|]. intros o Ho. apply wlp_bind, wlp_liftM.
  intros val _. by apply wlp_initializeValidator.
Qed.
End Operations.

(** ** Runs of the distribution module

    The steps of the module as other modules see them ([di_step]): blocks, messages,
    the hooks in the order in which the staking module calls them, and whatever the
    other modules do that does not take coins from the module account.  Along every
    run the module stays solvent, and the reference count of each historical record
    is the number of its references. *)

Section Runs.
Context {S : Type} {dk : DistrKeepers S} {cfg : CoinConfig} {acfg : AddressConfig} {vcfg : ValAddressConfig} {DL : DistrLaws S dk}.
Implicit Types s : DistrState S.

(** The period of a validator, 0 for one the module does not know. *)
Definition period_of s (v : string) : Z := from_option Period 0 (CurrentRewards s !! v).

(** A step that succeeds; the ones that fail are rolled back.  A validator is created
    when the module does not know it and removed when nobody delegates to it; after a
    delegation changed it has no starting info, as the hook called before has
    removed it; the module account signs no message. *)
Inductive di_step : DistrState S → DistrState S → Prop :=
| step_begin_block h fc votes s s' : fc ≠ DistributionName → Forall (λ v, 0 <= bv_Power v) votes → powers votes < 2 ^ 63 →
    Distr_BeginBlocker h fc votes s = (Ok tt, s') → di_step s s'
| step_withdraw h d v r s s' : Msg_WithdrawDelegatorReward h d v s = (Ok r, s') → di_step s s'
| step_commission v r s s' : Msg_WithdrawValidatorCommission v s = (Ok r, s') → di_step s s'
| step_withdraw_address d w s s' : Msg_SetWithdrawAddress d w s = (Ok tt, s') → di_step s s'
| step_params k a p s s' : Distr_UpdateParams k a p s = (Ok tt, s') → di_step s s'
| step_deposit d v amt s s' : (∀ a, StringToBytes d = Ok a → a ≠ dl_address) → in_int_range amt →
    Msg_DepositValidatorRewardsPool d v amt s = (Ok tt, s') → di_step s s'
| step_fund d amt s s' : (∀ a, StringToBytes d = Ok a → a ≠ dl_address) → Msg_FundCommunityPool d amt s = (Ok tt, s') → di_step s s'
| step_spend k a r amt s s' : Msg_CommunityPoolSpend k a r amt s = (Ok tt, s') → di_step s s'
| step_created v s s' : period_of s v = 0 → Distr_AfterValidatorCreated v s = (Ok tt, s') → di_step s s'
| step_removed v s s' : (∀ d, StartingInfos s !! (v, d) = None) → Distr_AfterValidatorRemoved v s = (Ok tt, s') → di_step s s'
| step_before_created v s s' : Distr_BeforeDelegationCreated v s = (Ok tt, s') → di_step s s'
| step_before_modified h d v s s' : Distr_BeforeDelegationSharesModified h d v s = (Ok tt, s') → di_step s s'
| step_after_modified h d v s s' : StartingInfos s !! (v, d) = None → Distr_AfterDelegationModified h d v s = (Ok tt, s') → di_step s s'
| step_slashed h v f s s' : Distr_BeforeValidatorSlashed h v f s = (Ok tt, s') → di_step s s'
| step_other x s : dl_ok x → (∀ d, dl_holdings (di_keepers s) d <= dl_holdings x d) → di_step s (with_keepers x s).

Definition solvent s : Prop := covered (λ _, 0) s.

Lemma covered_same_coins s x : solvent s → dl_ok x → (∀ d, dl_holdings (di_keepers s) d <= dl_holdings x d) → solvent (with_keepers x s).
Proof.
  intros Hc Hx H. eapply covered_mono; [apply (covered_keepers (λ _, 0) (λ _, 0)); [done|done|]|]; intros d; [specialize (H d); lia|cbn; lia].
Qed.
Lemma di_step_solvent s s' : solvent s → di_step s s' → solvent s'.
Proof.
  intros Hc Hs. destruct Hs as [h fc votes s s' Hne Hv Hb H|h d v r s s' H|v r s s' H|d w s s' H|k a p s s' H|d v amt s s' Hne Hr H|d amt s s' Hne H
    |k a r amt s s' H|v s s' _ H|v s s' _ H|v s s' H|h d v s s' H|h d v s s' _ H|h v f s s' H|x s Hx Hh];
    try (eapply (wlp_run _ (λ _, solvent)); [exact H|clear H]).
  - by apply wlp_BeginBlocker.
  - apply wlp_bind, wlp_liftM. intros v' _. apply wlp_bind, wlp_liftM. intros d' _. by apply wlp_WithdrawDelegationRewards.
  - apply wlp_bind, wlp_liftM. intros v' _. by apply wlp_WithdrawValidatorCommission.
  - apply wlp_bind, wlp_liftM. intros d' _. apply wlp_bind, wlp_liftM. intros w' _. by apply wlp_SetWithdrawAddr.
  - unfold Distr_UpdateParams. wlp. apply covered_Params; [done|]. by destruct a2.
  - by apply wlp_Deposit.
  - apply wlp_bind, wlp_liftM. intros d' E. destruct (StringToBytes d) as [d2| |]; [injection E as ->|done..].
    apply wlp_bind, wlp_liftM. intros c _. apply wlp_on_keepers. eapply wlp_mono; [apply dl_fund_pool; [apply Hc|by apply Hne]|].
    intros _ x [Hx Hh]. by apply covered_same_coins.
  - unfold Msg_CommunityPoolSpend. apply wlp_bind, wlp_liftM. intros _ _. apply wlp_bind, wlp_liftM. intros c _.
    apply wlp_bind, wlp_liftM. intros r' _. apply wlp_on_keepers. eapply wlp_mono; [apply dl_spend_pool, Hc|].
    intros _ x [Hx Hh]. by apply covered_same_coins.
  - by apply wlp_AfterValidatorCreated.
  - by apply wlp_AfterValidatorRemoved.
  - by apply wlp_BeforeDelegationCreated.
  - by apply wlp_BeforeDelegationSharesModified.
  - by apply wlp_initializeDelegation.
  - by apply wlp_updateValidatorSlashFraction.
  - by apply covered_same_coins.
Qed.
End Runs.
