(* ===== verification/DistrRefs.v ===== *)
(** * The reference counts of the historical records

    A record of a validator and a period is referred to by the current period, if it
    is the one before it, by each delegation whose starting info names it, and by each
    slash event that ended it.  The count of a record is always the number of its
    references, and exactly the records that are referred to are kept. *)
From S2P Require Import Prelude Bytes MathInt LegacyDec Coin CoinFacts DecCoin Collections Account Vesting AuthKeeper Bank Validator Staking StakingFacts Hoare DecCoinOk Distribution DistrFacts DistrSolvency.

Section References.
Context {S : Type} {dk : DistrKeepers S} {cfg : CoinConfig} {acfg : AddressConfig} {vcfg : ValAddressConfig}.
Implicit Types (s : DistrState S) (e : string → Z → Z).

Definition current_ref (period p : Z) : Z := if decide (0 <= p ∧ period = p + 1) then 1 else 0.
Definition starting_refs (m : gmap (string * string) DelegatorStartingInfo) (v : string) (p : Z) : Z :=
  msum (λ k i, if decide (k.1 = v ∧ PreviousPeriod i = p) then 1 else 0) m.
Definition slash_refs (m : gmap (string * Z * Z) ValidatorSlashEvent) (v : string) (p : Z) : Z :=
  msum (λ k ev, if decide (k.1.1 = v ∧ ValidatorPeriod ev = p) then 1 else 0) m.
Definition refs s (v : string) (p : Z) : Z :=
  current_ref (period_of s v) p + starting_refs (StartingInfos s) v p + slash_refs (SlashEvents s) v p.
Definition count_of s (v : string) (p : Z) : Z := from_option ReferenceCount 0 (HistoricalRewards s !! (v, p)).

(** The counts are the references and [e] more; no period is above [N]. *)
Record counted e (N : Z) s : Prop := {
  ct_count v p : count_of s v p = refs s v p + e v p;
  ct_positive v p r : HistoricalRewards s !! (v, p) = Some r → 0 < ReferenceCount r <= 2;
  ct_period v : 0 <= period_of s v <= N;
  ct_starting v d i : StartingInfos s !! (v, d) = Some i → 0 <= PreviousPeriod i < period_of s v;
  ct_slash v h p ev : SlashEvents s !! (v, h, p) = Some ev → ValidatorPeriod ev = p ∧ 0 <= p < period_of s v;
}.
Definition zero_extra (v : string) (p : Z) : Z := 0.
Definition at_record (v : string) (p : Z) (v' : string) (p' : Z) : Z := if decide (v = v' ∧ p = p') then 1 else 0.
Lemma at_record_eq v p : at_record v p v p = 1.
Proof. unfold at_record. by rewrite decide_True. Qed.
Lemma counted_ext e e' N N' s : counted e N s → (∀ v p, e v p = e' v p) → N <= N' → counted e' N' s.
Proof. intros [] He HN. split; try done; [intros v p; rewrite ct_count0; by rewrite He|]. intros v. specialize (ct_period0 v). lia. Qed.

Lemma msum_zero {K A} `{Countable K} (f : K → A → Z) (m : gmap K A) : (∀ k a, m !! k = Some a → f k a = 0) → msum f m = 0.
Proof.
  induction m as [|k a m Hk IH] using map_ind; intros Hf; [apply msum_empty|]. rewrite msum_insert_new by done.
  rewrite (Hf k a) by apply lookup_insert_eq. rewrite IH; [done|]. intros k' a' Hk'. apply Hf. rewrite lookup_insert_ne; [done|congruence].
Qed.
(** Nothing refers to the current period or a later one. *)
Lemma refs_beyond e N s v p : counted e N s → period_of s v <= p → refs s v p = 0.
Proof.
  intros Hc Hp. unfold refs, current_ref. rewrite decide_False by lia. unfold starting_refs, slash_refs. rewrite !msum_zero; [done|..].
  - intros [[v' h] q] ev Hev. cbn. rewrite decide_False; [done|]. intros [-> E]. destruct (ct_slash e N s Hc _ _ _ _ Hev). lia.
  - intros [v' d] i Hi. cbn. rewrite decide_False; [done|]. intros [-> E]. destruct (ct_starting e N s Hc _ _ _ Hi). lia.
Qed.
Lemma counted_beyond N s v p : counted zero_extra N s → period_of s v <= p → HistoricalRewards s !! (v, p) = None.
Proof.
  intros Hc Hp. pose proof (ct_count _ _ _ Hc v p) as H. rewrite (refs_beyond _ _ _ _ _ Hc Hp) in H. unfold count_of, zero_extra in H.
  destruct (HistoricalRewards s !! (v, p)) as [r|] eqn:E; [|done]. cbn in H. destruct (ct_positive _ _ _ Hc _ _ _ E). lia.
Qed.
Lemma counted_negative N s v p : counted zero_extra N s → p < 0 → HistoricalRewards s !! (v, p) = None.
Proof.
  intros Hc Hp. assert (refs s v p = 0) as Hr.
  { unfold refs, current_ref. rewrite decide_False by lia. unfold starting_refs, slash_refs. rewrite !msum_zero; [done|..].
    - intros [[v' h] q] ev Hev. cbn. rewrite decide_False; [done|]. intros [-> E]. destruct (ct_slash _ N s Hc _ _ _ _ Hev). lia.
    - intros [v' d] i Hi. cbn. rewrite decide_False; [done|]. intros [-> E]. destruct (ct_starting _ N s Hc _ _ _ Hi). lia. }
  pose proof (ct_count _ _ _ Hc v p) as H. rewrite Hr in H. unfold count_of, zero_extra in H.
  destruct (HistoricalRewards s !! (v, p)) as [r|] eqn:E; [|done]. cbn in H. destruct (ct_positive _ _ _ Hc _ _ _ E). lia.
Qed.

(** ** Writes *)

Lemma counted_Historical e N s v p r : counted e N s → 0 < ReferenceCount r <= 2 →
  counted (λ v' p', e v' p' + at_record v p v' p' * (ReferenceCount r - count_of s v p)) N (with_Historical <[(v, p) := r]> s).
Proof.
  intros Hc Hr. pose proof Hc as []. split; try done; cbn.
  - intros v' p'. specialize (ct_count0 v' p'). unfold count_of, refs, at_record in *. cbn. case_decide as E.
    + destruct E as [-> ->]. rewrite lookup_insert_eq. cbn. change (period_of _ v') with (period_of s v'). lia.
    + rewrite lookup_insert_ne by naive_solver. change (period_of _ v') with (period_of s v'). lia.
  - intros v' p' r'. destruct (decide ((v, p) = (v', p'))) as [[= <- <-]|Hne]; [rewrite lookup_insert_eq; by intros [= <-]|].
    rewrite lookup_insert_ne by done. apply ct_positive0.
Qed.
Lemma counted_Historical_delete e N s v p : counted e N s →
  counted (λ v' p', e v' p' - at_record v p v' p' * count_of s v p) N (with_Historical (delete (v, p)) s).
Proof.
  intros Hc. pose proof Hc as []. split; try done; cbn.
  - intros v' p'. specialize (ct_count0 v' p'). unfold count_of, refs, at_record in *. cbn. case_decide as E.
    + destruct E as [-> ->]. rewrite lookup_delete_eq. cbn. change (period_of _ v') with (period_of s v'). lia.
    + rewrite lookup_delete_ne by naive_solver. change (period_of _ v') with (period_of s v'). lia.
  - intros v' p' r' [_ H]%lookup_delete_Some. by apply (ct_positive0 v' p').
Qed.
Lemma period_of_insert s v r v' : period_of (with_Current <[v := r]> s) v' = if decide (v = v') then Period r else period_of s v'.
Proof. unfold period_of. cbn. case_decide as E; [subst; by rewrite lookup_insert_eq|by rewrite lookup_insert_ne]. Qed.
Lemma counted_Current e N N' s v r : counted e N s → period_of s v <= Period r <= N' → N <= N' →
  counted (λ v' p', e v' p' + if decide (v = v') then current_ref (period_of s v) p' - current_ref (Period r) p' else 0) N'
    (with_Current <[v := r]> s).
Proof.
  intros Hc Hr HN. pose proof Hc as []. split; try done; cbn.
  - intros v' p'. specialize (ct_count0 v' p'). unfold refs in *. rewrite period_of_insert. change (count_of _ v' p') with (count_of s v' p').
    cbn. case_decide; subst; lia.
  - intros v'. rewrite period_of_insert. specialize (ct_period0 v'). case_decide; subst; lia.
  - intros v' d i Hi. rewrite period_of_insert. specialize (ct_starting0 v' d i Hi). case_decide; subst; lia.
  - intros v' h p ev Hev. rewrite period_of_insert. destruct (ct_slash0 v' h p ev Hev). split; [done|]. case_decide; subst; lia.
Qed.
Lemma starting_refs_insert m v d i v' p' : m !! (v, d) = None →
  starting_refs (<[(v, d) := i]> m) v' p' = starting_refs m v' p' + at_record v (PreviousPeriod i) v' p'.
Proof. intros H. unfold starting_refs. rewrite msum_insert_new by done. unfold at_record. cbn. lia. Qed.
Lemma counted_Starting e N s v d i : counted e N s → StartingInfos s !! (v, d) = None → 0 <= PreviousPeriod i < period_of s v →
  counted (λ v' p', e v' p' - at_record v (PreviousPeriod i) v' p') N (with_Starting <[(v, d) := i]> s).
Proof.
  intros Hc Hn Hi. pose proof Hc as []. split; try done; cbn.
  - intros v' p'. specialize (ct_count0 v' p'). unfold refs in *. change (count_of _ v' p') with (count_of s v' p').
    change (period_of (with_Starting _ s) v') with (period_of s v'). cbn. rewrite starting_refs_insert by done. lia.
  - intros v' d' i' H'. change (period_of _ v') with (period_of s v').
    destruct (decide ((v, d) = (v', d'))) as [[= <- <-]|Hne]; [rewrite lookup_insert_eq in H'; by injection H' as <-|].
    rewrite lookup_insert_ne in H' by done. by apply (ct_starting0 v' d').
Qed.
Lemma counted_Starting_delete e N s v d i : counted e N s → StartingInfos s !! (v, d) = Some i →
  counted (λ v' p', e v' p' + at_record v (PreviousPeriod i) v' p') N (with_Starting (delete (v, d)) s).
Proof.
  intros Hc Hi. pose proof Hc as []. split; try done; cbn.
  - intros v' p'. specialize (ct_count0 v' p'). unfold refs, starting_refs in *. change (count_of _ v' p') with (count_of s v' p').
    change (period_of (with_Starting _ s) v') with (period_of s v'). cbn. rewrite msum_delete, Hi. unfold at_record. cbn. lia.
  - intros v' d' i' [_ H']%lookup_delete_Some. by apply (ct_starting0 v' d').
Qed.
Lemma counted_Slash e N s v h p ev : counted e N s → SlashEvents s !! (v, h, p) = None → ValidatorPeriod ev = p → 0 <= p < period_of s v →
  counted (λ v' p', e v' p' - at_record v p v' p') N (with_SlashEvents <[(v, h, p) := ev]> s).
Proof.
  intros Hc Hn Hp Hlt. pose proof Hc as []. split; try done; cbn.
  - intros v' p'. specialize (ct_count0 v' p'). unfold refs, slash_refs in *. change (count_of _ v' p') with (count_of s v' p').
    change (period_of (with_SlashEvents _ s) v') with (period_of s v'). cbn. rewrite msum_insert_new by done. unfold at_record. cbn. rewrite Hp. lia.
  - intros v' h' p' ev' H'. change (period_of _ v') with (period_of s v').
    destruct (decide ((v, h, p) = (v', h', p'))) as [[= <- <- <-]|Hne]; [rewrite lookup_insert_eq in H'; by injection H' as <-|].
    rewrite lookup_insert_ne in H' by done. by apply (ct_slash0 v' h' p').
Qed.

(** ** Operations that leave the periods *)

Definition same_periods s s' : Prop :=
  StartingInfos s' = StartingInfos s ∧ HistoricalRewards s' = HistoricalRewards s ∧ SlashEvents s' = SlashEvents s ∧
  ∀ v, period_of s' v = period_of s v.
#[global] Instance same_periods_preorder : PreOrder same_periods.
Proof. split; [done|]. intros x y z (A1 & A2 & A3 & A4) (B1 & B2 & B3 & B4). split_and!; [congruence..|]. intros v. by rewrite B4. Qed.
Lemma counted_same e N s s' : counted e N s → same_periods s s' → counted e N s'.
Proof.
  intros [] (E1 & E2 & E3 & E4). split; unfold count_of, refs in *; rewrite ?E1, ?E2, ?E3; try done; setoid_rewrite E4; try done.
Qed.
Lemma wlp_frame {A} (m : GoM (DistrState S) A) s : frame same_periods m → wlp m (λ _, same_periods s) s.
Proof. intros H r s' E. specialize (H s). by rewrite E in H. Qed.
Lemma frame_on_keepers {A} (m : GoM S A) : frame same_periods (on_keepers m).
Proof. intros s. unfold on_keepers. by destruct (m (di_keepers s)). Qed.
Lemma frame_di_get {A} (u : DistrState S → option A) : frame same_periods (di_get u).
Proof. unfold di_get. frame. Qed.
End References.
#[export] Hint Resolve frame_on_keepers frame_di_get : frame.

Section Operations.
Context {S : Type} {dk : DistrKeepers S} {cfg : CoinConfig} {acfg : AddressConfig} {vcfg : ValAddressConfig}.
Implicit Types (s : DistrState S) (e : string → Z → Z).

(** ** The counter of one record *)

Definition only_record s (v : string) (p : Z) s' : Prop :=
  is_Some (HistoricalRewards s !! (v, p)) ∧ ∃ m, s' = with_Historical (λ _, m) s ∧ ∀ k, k ≠ (v, p) → m !! k = HistoricalRewards s !! k.
Lemma wlp_refs_increment_count e N v p s : counted e N s →
  wlp (incrementReferenceCount v p) (λ _ s', only_record s v p s' ∧ counted (λ v' p', e v' p' + at_record v p v' p') N s') s.
Proof.
  intros Hc. unfold incrementReferenceCount. apply wlp_bind, wlp_di_get. intros r Hr. wlp. apply guard_err_Ok in E.
  pose proof (ct_positive _ _ _ Hc _ _ _ Hr) as Hp. unfold maxReferenceCount in E. rewrite Z.mod_small in * by lia. split.
  - split; [by exists r|]. eexists. split; [reflexivity|]. intros k Hk. by rewrite lookup_insert_ne.
  - eapply counted_ext; [apply counted_Historical; [exact Hc|cbn; lia]| |reflexivity]. intros v' p'. cbn. unfold count_of. rewrite Hr. cbn. lia.
Qed.
Lemma wlp_refs_decrement_count e N v p s : counted e N s →
  wlp (decrementReferenceCount v p) (λ _ s', only_record s v p s' ∧ counted (λ v' p', e v' p' - at_record v p v' p') N s') s.
Proof.
  intros Hc. unfold decrementReferenceCount. apply wlp_bind, wlp_di_get. intros r Hr. wlp;
    pose proof (ct_positive _ _ _ Hc _ _ _ Hr) as Hp; (split; [split; [by exists r|]; eexists; split; [reflexivity|]; intros k Hk; by rewrite ?lookup_delete_ne, ?lookup_insert_ne|]).
  - eapply counted_ext; [by apply counted_Historical_delete| |reflexivity]. intros v' p'. cbn. unfold count_of. rewrite Hr. cbn. nia.
  - eapply counted_ext; [apply counted_Historical; [exact Hc|cbn; lia]| |reflexivity]. intros v' p'. cbn. unfold count_of. rewrite Hr. cbn. lia.
Qed.

(** ** The end of a period *)

Lemma frame_without_tokens v r : frame same_periods (period_without_tokens (S := S) v r).
Proof. unfold period_without_tokens, GetValidatorOutstandingRewardsCoins. frame. Qed.
#[local] Hint Resolve frame_without_tokens : frame.
Lemma Period_default (o : option ValidatorCurrentRewards) : Period (default (NewValidatorCurrentRewards [] 0) o) = from_option Period 0 o.
Proof. by destruct o. Qed.

(** The period of the validator has ended: it was [P]. *)
Definition period_ended (N : Z) (v : string) (P : Z) s s' : Prop :=
  P = period_of s v ∧ 0 < P ∧ StartingInfos s' = StartingInfos s ∧ SlashEvents s' = SlashEvents s ∧
  (∀ v', period_of s' v' = if decide (v = v') then P + 1 else period_of s v') ∧ counted zero_extra (N + 1) s'.
Lemma wlp_refs_IncrementValidatorPeriod N val s : counted zero_extra N s → N + 1 < 2 ^ 64 →
  wlp (IncrementValidatorPeriod val) (λ P s', ∃ v, ValStringToBytes (OperatorAddress val) = Ok v ∧ period_ended N v P s s') s.
Proof.
  intros Hc HN. unfold IncrementValidatorPeriod. apply wlp_bind, wlp_liftM. intros v Hv. apply wlp_bind, wlp_readM. rewrite Period_default.
  fold (period_of s v). set (rewards := default _ _). apply wlp_bind.
  eapply (wlp_mono _ (λ _, same_periods s)); [apply wlp_frame; frame|]. intros current s1 Hs1.
  pose proof (counted_same _ _ _ _ Hc Hs1) as Hc1. destruct Hs1 as (E1 & E2 & E3 & E4). pose proof (ct_period _ _ _ Hc v) as HP.
  apply wlp_bind, wlp_di_get. intros r Hr. assert (0 < period_of s v) as Hpos.
  { destruct (decide (0 < period_of s v)); [done|]. exfalso. rewrite (counted_beyond N) in Hr; [done|done|].
    rewrite E4. replace (period_of s v) with 0 by lia. by vm_compute. }
  rewrite (wrap_uint64_id (period_of s v - 1)) in * by lia. apply wlp_bind. wlp_call ltac:(by apply wlp_refs_decrement_count).
  intros _ s2 [(_ & m & -> & Hm) Hc2]. wlp. exists v. split; [done|]. rewrite (wrap_uint64_id (period_of s v + 1)) by lia.
  set (s2 := with_Historical (λ _, m) s1) in *. assert (∀ v', period_of s2 v' = period_of s v') as Ep by (intros v'; exact (E4 v')).
  assert (count_of s2 v (period_of s v) = 0) as Hz.
  { unfold count_of. cbn. rewrite Hm by (intros [=]; lia). rewrite (counted_beyond N); [done|exact Hc1|]. rewrite E4. lia. }
  assert (∀ u, period_of (with_Historical u s2) v = period_of s v) as Hp2 by (intros u; exact (E4 v)).
  unfold period_ended. split_and!; [done|done|done|done| |].
  - intros v'. rewrite period_of_insert. case_decide; [done|]. exact (E4 v').
  - eapply counted_ext; [eapply counted_Current; [apply counted_Historical; [exact Hc2|cbn; lia]| |]| |reflexivity].
    + rewrite Hp2. cbn [Period]. lia.
    + lia.
    + intros v' p'. cbn beta. cbn [ReferenceCount Period]. rewrite Hz, Hp2.
      unfold at_record, zero_extra, current_ref. repeat case_decide; lia || naive_solver lia.
Qed.

(** ** Delegations *)

Lemma wlp_refs_initializeDelegation N h v d s : counted zero_extra N s → N < 2 ^ 64 → StartingInfos s !! (v, d) = None →
  wlp (initializeDelegation h v d) (λ _, counted zero_extra N) s.
Proof.
  intros Hc HN Hn. unfold initializeDelegation. apply wlp_bind, wlp_di_get. intros r Hr. pose proof (ct_period _ _ _ Hc v) as HP.
  assert (Period r = period_of s v) as -> by (unfold period_of; by rewrite Hr). apply wlp_bind.
  wlp_call ltac:(by apply wlp_refs_increment_count). intros _ s1 [(Hsome & m & -> & Hm) Hc1].
  destruct (decide (0 < period_of s v)) as [Hpos|Hz].
  - rewrite (wrap_uint64_id (period_of s v - 1)) in * by lia. apply wlp_bind, (wlp_mono _ (λ _, same_periods (with_Historical (λ _, m) s))); [apply wlp_frame; frame|].
    intros o s2 H2. apply wlp_bind, (wlp_mono _ (λ _, same_periods s2)); [apply wlp_frame; frame|]. intros o2 s3 H3. wlp.
    assert (same_periods (with_Historical (λ _, m) s) s3) as H by (by transitivity s2). pose proof (counted_same _ _ _ _ Hc1 H) as Hc3.
    destruct H as (F1 & _ & _ & F4). eapply counted_ext; [eapply counted_Starting; [exact Hc3| |]| |reflexivity].
    + by rewrite F1.
    + cbn. rewrite F4. change (period_of _ v) with (period_of s v). lia.
    + intros v' p'. cbn. unfold zero_extra. lia.
  - exfalso. destruct Hsome as [x Hx]. rewrite (counted_beyond N) in Hx; [done|done|].
    replace (period_of s v) with 0 by lia. by vm_compute.
Qed.
Lemma frame_pay_rewards d v raw : frame same_periods (pay_rewards (S := S) d v raw).
Proof. unfold pay_rewards, GetValidatorOutstandingRewardsCoins, GetDelegatorWithdrawAddr. frame. Qed.
Lemma frame_calculateBetween v p q stake : frame eq (calculateDelegationRewardsBetween (S := S) v p q stake).
Proof. unfold calculateDelegationRewardsBetween, di_get. frame. Qed.
#[local] Hint Resolve frame_pay_rewards frame_calculateBetween : frame.
Lemma frame_slash_period v acc ev : frame eq (slash_period (S := S) v acc ev).
Proof. unfold slash_period. frame. Qed.
#[local] Hint Resolve frame_slash_period : frame.
(** The calculation of rewards only reads. *)
Lemma frame_CalculateDelegationRewards h v del p : frame eq (CalculateDelegationRewards (S := S) h v del p).
Proof. unfold CalculateDelegationRewards, IterateValidatorSlashEventsBetween. frame. Qed.
#[local] Hint Resolve frame_CalculateDelegationRewards : frame.
Lemma wlp_read_only {A} (m : GoM (DistrState S) A) s : frame eq m → wlp m (λ _ s', s' = s) s.
Proof. intros H r s' E. specialize (H s). rewrite E in H. by symmetry. Qed.

(** The starting info of the delegation is gone. *)
Lemma wlp_refs_withdrawDelegationRewards N h val del s : counted zero_extra N s → N + 1 < 2 ^ 64 →
  wlp (withdrawDelegationRewards h val del)
    (λ _ s', counted zero_extra (N + 1) s' ∧
       ∃ d v, StringToBytes (DelegatorAddress del) = Ok d ∧ ValStringToBytes (ValidatorAddress del) = Ok v ∧ StartingInfos s' !! (v, d) = None) s.
Proof.
  intros Hc HN. unfold withdrawDelegationRewards. apply wlp_bind, wlp_liftM. intros d Hd. apply wlp_bind, wlp_liftM. intros v Hv.
  apply wlp_bind, wlp_readM, wlp_bind, wlp_liftM. intros _ Hinfo%guard_err_Ok. apply wlp_bind.
  wlp_call ltac:(by apply wlp_refs_IncrementValidatorPeriod). intros P s1 (v1 & _ & _ & _ & HSI & _ & _ & Hc1).
  apply wlp_bind. wlp_call ltac:(apply wlp_read_only; frame). intros raw s2 ->. apply wlp_bind.
  eapply (wlp_mono _ (λ _, same_periods s1)); [apply wlp_frame; frame|]. intros final s2 H2.
  pose proof (counted_same _ _ _ _ Hc1 H2) as Hc2. destruct H2 as (F1 & _). apply wlp_bind, wlp_readM.
  apply negb_false_iff, bool_decide_eq_true in Hinfo as [i Hi]. assert (StartingInfos s2 !! (v, d) = Some i) as Hi2 by (by rewrite F1, HSI).
  rewrite Hi2. cbn [fmap option_fmap option_map default from_option]. apply wlp_bind.
  wlp_call ltac:(by apply wlp_refs_decrement_count). intros _ s3 [(_ & m & -> & Hm) Hc3]. apply wlp_bind, wlp_modifyM.
  set (s4 := with_Starting _ _). assert (counted zero_extra (N + 1) s4 ∧ StartingInfos s4 !! (v, d) = None) as [Hc4 Hn].
  { split; [|by apply lookup_delete_eq]. eapply counted_ext; [eapply counted_Starting_delete; [exact Hc3|exact Hi2]| |reflexivity].
    intros v' p'. cbn. unfold zero_extra. lia. }
  assert (∀ x, same_periods s4 x → counted zero_extra (N + 1) x ∧ ∃ d0 v0, StringToBytes (DelegatorAddress del) = Ok d0 ∧
    ValStringToBytes (ValidatorAddress del) = Ok v0 ∧ StartingInfos x !! (v0, d0) = None) as Hend.
  { intros x Hx. split; [by eapply counted_same|]. exists d, v. split_and!; [done|done|]. destruct Hx as (-> & _). done. }
  eapply wlp_mono; [apply wlp_frame; frame|]. intros c x Hx. by apply Hend.
Qed.
End Operations.

Section Steps.
Context {S : Type} {dk : DistrKeepers S} {cfg : CoinConfig} {acfg : AddressConfig} {vcfg : ValAddressConfig} {DL : DistrLaws S dk}.
Implicit Types (s : DistrState S) (e : string → Z → Z).

Lemma wlp_named f a (Q : option Validator → DistrState S → Prop) s :
  covered f s → (∀ o, from_option (named a) True o → Q o s) → wlp (on_keepers (dk_Validator a)) Q s.
Proof. intros Hc HQ. eapply wlp_read_call; [apply dl_Validator, Hc|]. intros [v|] H; apply HQ; [apply H|done]. Qed.

Lemma wlp_refs_slash N h v f s : solvent s → counted zero_extra N s → N + 1 < 2 ^ 64 →
  wlp (updateValidatorSlashFraction h v f) (λ _, counted zero_extra (N + 1)) s.
Proof.
  intros Hsol Hc HN. unfold updateValidatorSlashFraction. apply wlp_bind, wlp_liftM. intros _ _. apply wlp_bind.
  eapply wlp_named; [exact Hsol|]. intros o Ho. apply wlp_bind, wlp_liftM. intros w E. destruct o as [w'|]; [injection E as ->|done].
  apply wlp_bind. wlp_call ltac:(by apply wlp_refs_IncrementValidatorPeriod).
  intros P s1 (v1 & Hv1 & HP & Hpos & HSI & HSE & Hper & Hc1). cbn in Ho. unfold named in Ho. rewrite Ho in Hv1. injection Hv1 as <-.
  apply wlp_bind. wlp_call ltac:(by apply wlp_refs_increment_count). intros _ s2 [(_ & m & -> & Hm) Hc2]. apply wlp_modifyM.
  eapply counted_ext; [eapply counted_Slash; [exact Hc2| |reflexivity|]| |reflexivity].
  - cbn. rewrite HSE. destruct (SlashEvents s !! _) as [ev|] eqn:Eev; [|done]. destruct (ct_slash _ _ _ Hc _ _ _ _ Eev). lia.
  - change (period_of _ v) with (period_of s1 v). rewrite Hper, decide_True by done. lia.
  - intros v' p'. cbn. unfold zero_extra. lia.
Qed.
Lemma wlp_refs_withdraw_again N h d v s : solvent s → counted zero_extra N s → N + 1 < 2 ^ 64 →
  wlp (WithdrawDelegationRewards h d v) (λ _, counted zero_extra (N + 1)) s.
Proof.
  intros Hsol Hc HN. unfold WithdrawDelegationRewards. apply wlp_bind. eapply wlp_named; [exact Hsol|]. intros o _.
  apply wlp_bind, wlp_liftM. intros w _. apply wlp_bind. eapply wlp_Delegation; [exact Hsol|]. intros o2 Ho2.
  apply wlp_bind, wlp_liftM. intros del E. destruct o2 as [del'|]; [injection E as ->|done]. destruct Ho2 as [Hd Hv]. apply wlp_bind.
  wlp_call ltac:(by apply wlp_refs_withdrawDelegationRewards). intros c s1 (Hc1 & d1 & v1 & Hd1 & Hv1 & Hn).
  rewrite Hd in Hd1. rewrite Hv in Hv1. injection Hd1 as <-. injection Hv1 as <-. apply wlp_bind.
  wlp_call ltac:(apply wlp_refs_initializeDelegation; [exact Hc1|lia|exact Hn]). intros _ s2 Hc2. by apply wlp_ret.
Qed.

Lemma wlp_same_AllocateTokensToValidator o t s : wlp (AllocateTokensToValidator (S := S) o t) (λ _, same_periods s) s.
Proof.
  unfold AllocateTokensToValidator, GetValidatorOutstandingRewardsCoins. wlp. split_and!; [done..|]. intros v.
  unfold period_of. cbn [CurrentRewards with_Outstanding with_Current with_Commission]. rewrite lookup_insert.
  case_decide; [subst; apply Period_default|done].
Qed.
(** A computation that leaves the periods, followed by one. *)
Lemma wlp_same_bind {A B} (m : GoM (DistrState S) A) (k : A → GoM (DistrState S) B) s :
  wlp m (λ _, same_periods s) s → (∀ a s1, wlp (k a) (λ _, same_periods s1) s1) → wlp (m ≫= k) (λ _, same_periods s) s.
Proof.
  intros Hm Hk. apply wlp_bind. eapply wlp_mono; [exact Hm|]. intros a s1 H1. eapply wlp_mono; [apply Hk|]. intros b s2 H2. by transitivity s1.
Qed.
Lemma wlp_same_BeginBlocker h fc votes s : wlp (Distr_BeginBlocker (S := S) h fc votes) (λ _, same_periods s) s.
Proof.
  unfold Distr_BeginBlocker. cbv zeta. destruct (1 <? _); [|by apply wlp_ret]. apply wlp_same_bind.
  2:{ intros _ s1. unfold sendDecimalPoolToCommunityPool. apply wlp_frame. frame. }
  unfold AllocateTokens. repeat (apply wlp_same_bind; [solve [apply wlp_frame; frame]|intros ? ?]).
  destruct (Coins_Empty _); [by apply wlp_ret|]. repeat (apply wlp_same_bind; [solve [apply wlp_frame; unfold GetCommunityTax; frame]|intros ? ?]).
  apply wlp_same_bind.
  - match goal with |- wlp (foldM ?f ?b ?l) _ ?s0 => apply (wlp_foldM f (λ _, same_periods s0) l); [|done] end.
    intros rem vote st _ H1. apply (wlp_mono _ (λ _, same_periods st)); [|intros r st' H2; etransitivity; [exact H1|exact H2]].
    unfold allocate_vote. repeat (apply wlp_same_bind; [first [apply wlp_same_AllocateTokensToValidator | solve [apply wlp_frame; frame]]|intros ? ?]).
    apply wlp_frame. frame.
  - intros rem st. apply wlp_frame. frame.
Qed.
Lemma refs_created N v val s : counted zero_extra N s → 1 <= N → period_of s v = 0 → ValStringToBytes (OperatorAddress val) = Ok v →
  wlp (initializeValidator val) (λ _, counted zero_extra N) s.
Proof.
  intros Hc HN Hp Hv. unfold initializeValidator. apply wlp_bind, wlp_liftM. intros v' Hv'. rewrite Hv in Hv'. injection Hv' as <-. wlp.
  set (s1 := with_Historical <[(v, 0) := NewValidatorHistoricalRewards [] 1]> s).
  assert (count_of s v 0 = 0) as Hz by (unfold count_of; by rewrite (counted_beyond N) by (done || lia)).
  assert (period_of s1 v = 0) as Hp1 by exact Hp.
  assert (counted zero_extra N (with_Current <[v := NewValidatorCurrentRewards [] 1]> s1)) as H.
  { eapply counted_ext; [eapply counted_Current; [apply counted_Historical; [exact Hc|cbn; lia]| |reflexivity]| |reflexivity].
    - fold s1. rewrite Hp1. cbn [Period]. lia.
    - intros v' p'. fold s1. cbn [ReferenceCount Period]. rewrite Hz, Hp1.
      unfold at_record, zero_extra, current_ref. repeat case_decide; lia || naive_solver lia. }
  eapply counted_same; [exact H|]. done.
Qed.
Lemma msum_filter_none {K A} `{Countable K} (f : K → A → Z) (P : K * A → Prop) `{∀ x, Decision (P x)} (m : gmap K A) :
  (∀ k a, m !! k = Some a → ¬ P (k, a) → f k a = 0) → msum f (filter P m) = msum f m.
Proof.
  induction m as [|k a m Hk IH] using map_ind; intros Hf; [by rewrite map_filter_empty|].
  assert (msum f (filter P m) = msum f m) as IH'.
  { apply IH. intros k' a' Hk'. apply Hf. rewrite lookup_insert_ne; [done|congruence]. }
  rewrite (msum_insert_new f m) by done. destruct (decide (P (k, a))) as [HP|HP].
  - rewrite map_filter_insert_True by done. rewrite msum_insert_new by (apply map_lookup_filter_None; left; done). lia.
  - rewrite map_filter_insert_not' by (done || naive_solver). rewrite (Hf k a) by (done || apply lookup_insert_eq). lia.
Qed.
(** What is left after everything of a validator was removed. *)
Lemma counted_removed N v s s' : counted zero_extra N s → (∀ d, StartingInfos s !! (v, d) = None) → 0 <= N →
  (∀ v', period_of s' v' = if decide (v = v') then 0 else period_of s v') → StartingInfos s' = StartingInfos s →
  SlashEvents s' = filter (λ kv : _ * _, kv.1.1.1 ≠ v) (SlashEvents s) →
  HistoricalRewards s' = filter (λ kv : _ * _, kv.1.1 ≠ v) (HistoricalRewards s) → counted zero_extra N s'.
Proof.
  intros Hc Hn HN Hp HS HE HH. pose proof Hc as []. split.
  - intros v' p'. specialize (ct_count0 v' p'). unfold count_of, refs, zero_extra in *. rewrite HS, HE, HH, Hp.
    destruct (decide (v = v')) as [<-|Hne].
    + rewrite (proj2 (map_lookup_filter_None _ _ _)) by (right; intros r _ H; by apply H). cbn. unfold current_ref.
      rewrite decide_False by lia. unfold starting_refs, slash_refs. rewrite !msum_zero; [done|..].
      * intros [[v' h] q] ev [_ Hev]%map_lookup_filter_Some. cbn in *. by rewrite decide_False by naive_solver.
      * intros [v' d] i Hi. cbn. rewrite decide_False; [done|]. intros [-> _]. by rewrite Hn in Hi.
    + assert (∀ m : gmap (string * Z) ValidatorHistoricalRewards, filter (λ kv : _ * _, kv.1.1 ≠ v) m !! (v', p') = m !! (v', p')) as ->.
      { intros m. destruct (m !! (v', p')) as [r|] eqn:E; [|apply map_lookup_filter_None; by left].
        apply map_lookup_filter_Some. split; [done|]. cbn. congruence. }
      unfold slash_refs in *. rewrite msum_filter_none; [done|]. intros [[v2 h] q] ev _ Hnot. cbn in *. rewrite decide_False; [done|].
      intros [-> _]. apply Hnot. congruence.
  - intros v' p r. rewrite HH. intros [H _]%map_lookup_filter_Some. by apply (ct_positive0 v' p).
  - intros v'. rewrite Hp. specialize (ct_period0 v'). case_decide; lia.
  - intros v' d i Hi. rewrite HS in Hi. rewrite Hp, decide_False; [by apply (ct_starting0 v' d)|]. intros ->. by rewrite Hn in Hi.
  - intros v' h p ev. rewrite HE. intros [Hev Hne]%map_lookup_filter_Some. cbn in Hne. rewrite Hp, decide_False by congruence.
    by apply (ct_slash0 v' h p).
Qed.
Lemma refs_removed N v s : counted zero_extra N s → (∀ d, StartingInfos s !! (v, d) = None) → 0 <= N →
  wlp (Distr_AfterValidatorRemoved v) (λ _, counted zero_extra N) s.
Proof.
  intros Hc Hn HN. unfold Distr_AfterValidatorRemoved, GetValidatorOutstandingRewardsCoins. apply wlp_bind, wlp_readM, wlp_bind, wlp_readM.
  apply wlp_bind, (wlp_mono _ (λ _, same_periods s)); [apply wlp_frame; unfold pay_removed, GetDelegatorWithdrawAddr; frame|].
  intros out s1 H1. apply wlp_bind, wlp_di_get. intros p _. apply wlp_bind, wlp_liftM. intros pool _. wlp.
  pose proof (counted_same _ _ _ _ Hc H1) as Hc1. destruct H1 as (E1 & E2 & E3 & E4).
  eapply (counted_removed N v s1); [done|by rewrite E1|done| |done..]. intros v'. unfold period_of. cbn [CurrentRewards with_Current]. rewrite lookup_delete.
  by case_decide.
Qed.

(** Every step keeps the counts exact; the bound on the periods grows by one. *)
Lemma di_step_counted N s s' : solvent s → counted zero_extra N s → 0 <= N → N + 1 < 2 ^ 64 → di_step s s' → counted zero_extra (N + 1) s'.
Proof.
  intros Hsol Hc H0 HN Hs.
  assert (∀ s x, counted zero_extra N s → same_periods s x → counted zero_extra (N + 1) x) as Hgrow.
  { intros st x Hst Hx. eapply counted_ext; [by eapply counted_same|done|lia]. }
  destruct Hs as [h fc votes s s' Hne Hv Hb H|h d v r s s' H|v r s s' H|d w s s' H|k a p s s' H|d v amt s s' Hne Hr H|d amt s s' Hne H
    |k a r amt s s' H|v s s' Hp H|v s s' Hn H|v s s' H|h d v s s' H|h d v s s' Hn H|h v f s s' H|x s Hx Hh];
    pose proof (λ x, Hgrow s x Hc) as Hsame; try (eapply (wlp_run _ (λ _, counted zero_extra (N + 1))); [exact H|clear H]).
  - eapply wlp_mono; [apply wlp_same_BeginBlocker|]. intros ?; exact Hsame.
  - apply wlp_bind, wlp_liftM. intros v' _. apply wlp_bind, wlp_liftM. intros d' _. by apply wlp_refs_withdraw_again.
  - eapply wlp_mono; [apply wlp_frame|intros ?; exact Hsame]. unfold Msg_WithdrawValidatorCommission, WithdrawValidatorCommission, GetDelegatorWithdrawAddr. frame.
  - eapply wlp_mono; [apply wlp_frame|intros ?; exact Hsame]. unfold Msg_SetWithdrawAddress, SetWithdrawAddr, GetWithdrawAddrEnabled. frame.
  - eapply wlp_mono; [apply wlp_frame|intros ?; exact Hsame]. unfold Distr_UpdateParams. frame.
  - eapply wlp_mono; [|intros ?; exact Hsame]. unfold Msg_DepositValidatorRewardsPool.
    do 6 (apply wlp_same_bind; [solve [apply wlp_frame; frame]|intros ? ?]). apply wlp_same_AllocateTokensToValidator.
  - eapply wlp_mono; [apply wlp_frame|intros ?; exact Hsame]. unfold Msg_FundCommunityPool. frame.
  - eapply wlp_mono; [apply wlp_frame|intros ?; exact Hsame]. unfold Msg_CommunityPoolSpend. frame.
  - unfold Distr_AfterValidatorCreated. apply wlp_bind. eapply wlp_named; [exact Hsol|]. intros o Ho. apply wlp_bind, wlp_liftM.
    intros w E. destruct o as [w'|]; [injection E as ->|done]. eapply (refs_created (N + 1)); [|lia|done|exact Ho]. apply Hsame. reflexivity.
  - apply refs_removed; [|done|lia]. apply Hsame. reflexivity.
  - unfold Distr_BeforeDelegationCreated. apply wlp_bind. eapply wlp_named; [exact Hsol|]. intros o _. apply wlp_bind, wlp_liftM. intros w _.
    apply wlp_bind. wlp_call ltac:(by apply wlp_refs_IncrementValidatorPeriod). intros P s1 (v1 & _ & _ & _ & _ & _ & _ & Hc1). by apply wlp_ret.
  - unfold Distr_BeforeDelegationSharesModified. apply wlp_bind. eapply wlp_named; [exact Hsol|]. intros o _. apply wlp_bind.
    eapply wlp_Delegation; [exact Hsol|]. intros o2 _. apply wlp_bind, wlp_liftM. intros del _. apply wlp_bind, wlp_liftM. intros w _.
    apply wlp_bind. wlp_call ltac:(by apply wlp_refs_withdrawDelegationRewards). intros c s1 [Hc1 _]. by apply wlp_ret.
  - apply wlp_refs_initializeDelegation; [|lia|done]. apply Hsame. reflexivity.
  - by apply wlp_refs_slash.
  - apply Hsame. done.
Qed.
End Steps.
