(* ===== verification/DistrHistory.v ===== *)
(** * The rewards of a delegation are its share of each period

    A run of the module ends the periods of a validator one by one; the ghost list
    [runs v s L] remembers, for each, the rewards it had and the tokens of the
    validator at its end.  The historical record of a period holds the sum of the
    rewards per token of all periods up to it, so the difference of two records is
    the sum over the periods between, and [CalculateDelegationRewards] returns what a
    loop over all periods would. *)
From S2P Require Import Prelude Bytes MathInt LegacyDec Coin CoinFacts DecCoin Collections Account Vesting AuthKeeper Bank CollMap Validator Staking StakingFacts Hoare DecCoinOk Distribution DistrFacts DistrSolvency DistrRefs.

(** A period that has ended. *)
Record ended := mkEnded { en_rewards : DecCoins; en_tokens : Z }.
Lemma quot_zero a : Z.quot a 0 = 0.
Proof. by destruct a. Qed.
(** The rewards per token, rounded down; a validator without tokens distributes
    nothing. *)
Definition ratio (e : ended) (d : string) : Z := Z.quot (amount (en_rewards e) d) (en_tokens e).
Fixpoint ratio_sum (L : list ended) (d : string) : Z :=
  match L with [] => 0 | e :: L' => ratio e d + ratio_sum L' d end.
Lemma ratio_sum_app L1 L2 d : ratio_sum (L1 ++ L2) d = ratio_sum L1 d + ratio_sum L2 d.
Proof. induction L1 as [|e L1 IH]; cbn; lia. Qed.

Section History.
Context {S : Type} {dk : DistrKeepers S} {cfg : CoinConfig} {acfg : AddressConfig} {vcfg : ValAddressConfig} {DL : DistrLaws S dk}.
Implicit Types (s : DistrState S) (v : string).

Definition fraction_ok (ev : ValidatorSlashEvent) : Prop := 0 <= Fraction ev <= LegacyOneDec.
Definition old_record v s (p : Z) (r' : ValidatorHistoricalRewards) : Prop :=
  ∃ r, HistoricalRewards s !! (v, p) = Some r ∧ CumulativeRewardRatio r' = CumulativeRewardRatio r.
Definition slashes_ok s s' : Prop :=
  ∀ k ev, SlashEvents s' !! k = Some ev → SlashEvents s !! k = Some ev ∨ fraction_ok ev.
(** Nothing new in the history of the validator. *)
Definition history_kept v s s' : Prop :=
  period_of s' v = period_of s v ∧ (∀ p r', HistoricalRewards s' !! (v, p) = Some r' → old_record v s p r') ∧ slashes_ok s s'.
(** The current period has ended as [e]. *)
Definition history_ended v (e : ended) s s' : Prop :=
  period_of s' v = period_of s v + 1 ∧ slashes_ok s s' ∧
  ∀ p r', HistoricalRewards s' !! (v, p) = Some r' → old_record v s p r' ∨
    (p = period_of s v ∧ ∃ r0, HistoricalRewards s !! (v, p - 1) = Some r0 ∧
       ∀ d, amount (CumulativeRewardRatio r') d = amount (CumulativeRewardRatio r0) d + ratio e d).

Lemma slashes_ok_trans s1 s2 s3 : slashes_ok s1 s2 → slashes_ok s2 s3 → slashes_ok s1 s3.
Proof. intros H1 H2 k ev H. destruct (H2 k ev H) as [H'|?]; [by apply H1|by right]. Qed.
#[export] Instance history_kept_preorder v : PreOrder (history_kept v).
Proof.
  split.
  - intros s. split; [done|]. split; [intros p r' H; by exists r'|intros k ev H; by left].
  - intros s1 s2 s3 (P1 & H1 & F1) (P2 & H2 & F2). split; [congruence|]. split; [|by eapply slashes_ok_trans].
    intros p r3 Hr3. destruct (H2 p r3 Hr3) as (r2 & Hr2 & E2). destruct (H1 p r2 Hr2) as (r1 & Hr1 & E1). exists r1. split; [done|congruence].
Qed.
Lemma history_ended_kept v e s1 s2 s3 : history_ended v e s1 s2 → history_kept v s2 s3 → history_ended v e s1 s3.
Proof.
  intros (P1 & F1 & H1) (P2 & H2 & F2). split; [congruence|]. split; [by eapply slashes_ok_trans|].
  intros p r3 Hr3. destruct (H2 p r3 Hr3) as (r2 & Hr2 & E2). destruct (H1 p r2 Hr2) as [(r1 & Hr1 & E1)|(Hp & r0 & Hr0 & Hm)].
  - left. exists r1. split; [done|congruence].
  - right. split; [done|]. exists r0. split; [done|]. intros d. by rewrite E2.
Qed.
Lemma same_periods_kept v s s' : same_periods s s' → history_kept v s s'.
Proof.
  intros (_ & E2 & E3 & E4). split; [done|]. rewrite E2. split; [intros p r H; by exists r|]. intros k ev H. left. by rewrite <- E3.
Qed.
Lemma kept_Starting v f s : history_kept v s (with_Starting f s).
Proof. split; [done|]. split; [intros p r' H; by exists r'|intros k ev H; by left]. Qed.

(** Changing a counter. *)
Lemma wlp_kept_increment v v0 p s : wlp (incrementReferenceCount (S := S) v0 p) (λ _ s', history_kept v s s') s.
Proof.
  unfold incrementReferenceCount. apply wlp_bind, wlp_di_get. intros r Hr. wlp. split; [done|]. split; [|intros k ev H; by left].
  intros q r' H. cbn in H. apply lookup_insert_Some in H as [[[= <- <-] <-]|[_ H]]; [by exists r|by exists r'].
Qed.
Lemma wlp_kept_decrement v v0 p s : wlp (decrementReferenceCount (S := S) v0 p) (λ _ s', history_kept v s s') s.
Proof.
  unfold decrementReferenceCount. apply wlp_bind, wlp_di_get. intros r Hr.
  wlp; (split; [done|]; split; [|intros k ev H; by left]); intros q r' H; cbn in H.
  - apply lookup_delete_Some in H as [_ H]. by exists r'.
  - apply lookup_insert_Some in H as [[[= <- <-] <-]|[_ H]]; [by exists r|by exists r'].
Qed.
Lemma wlp_kept_bind {A B} v (m : GoM (DistrState S) A) (k : A → GoM (DistrState S) B) s :
  wlp m (λ _, history_kept v s) s → (∀ a s1, wlp (k a) (λ _, history_kept v s1) s1) → wlp (m ≫= k) (λ _, history_kept v s) s.
Proof.
  intros Hm Hk. apply wlp_bind. eapply wlp_mono; [exact Hm|]. intros a s1 H1. eapply wlp_mono; [apply Hk|]. intros b s2 H2. by transitivity s1.
Qed.
Lemma wlp_kept_same {A} v (m : GoM (DistrState S) A) s : wlp m (λ _, same_periods s) s → wlp m (λ _, history_kept v s) s.
Proof. intros H. eapply wlp_mono; [exact H|]. intros ? s'. apply same_periods_kept. Qed.
Lemma wlp_kept_initializeDelegation v h v0 d s : wlp (initializeDelegation h v0 d) (λ _, history_kept v s) s.
Proof.
  unfold initializeDelegation. apply wlp_kept_bind; [apply wlp_kept_same, wlp_frame; frame|]. intros r s1.
  apply wlp_kept_bind; [apply wlp_kept_increment|]. intros _ s2. do 5 (apply wlp_kept_bind; [apply wlp_kept_same, wlp_frame; frame|intros ? ?]).
  apply wlp_modifyM, kept_Starting.
Qed.

(** The end of a period. *)
Lemma wlp_history_increment N val s : solvent s → validator_sane val → counted zero_extra N s → N + 1 < 2 ^ 64 →
  wlp (IncrementValidatorPeriod val) (λ _ s', ∃ v0, ValStringToBytes (OperatorAddress val) = Ok v0 ∧
    history_ended v0 (mkEnded (Rewards (default (NewValidatorCurrentRewards [] 0) (CurrentRewards s !! v0))) (Tokens val)) s s' ∧
    ∀ v, v ≠ v0 → history_kept v s s') s.
Proof.
  intros Hsol [_ Hv] Hc HN. unfold IncrementValidatorPeriod. apply wlp_bind, wlp_liftM. intros v0 Hv0. apply wlp_bind, wlp_readM.
  set (rewards := default _ _). assert (Period rewards = period_of s v0) as HPer by apply Period_default. rewrite HPer.
  assert (good_dec_coins (Rewards rewards)) as Hr by (by apply (covered_cur (λ _, 0) s v0 (NewValidatorCurrentRewards [] 0) Hsol good_dec_coins_nil)).
  set (e := mkEnded (Rewards rewards) (Tokens val)). apply wlp_bind.
  apply (wlp_mono _ (λ c s', same_periods s s' ∧ solvent s' ∧ good_dec_coins c ∧ ∀ d, amount c d = ratio e d)).
  { unfold ratio. cbn. destruct (Int_IsZero (Tokens val)) eqn:Ez; rewrite Int_IsZero_eqb in Ez.
    - apply Z.eqb_eq in Ez. intros c s' E. destruct (wlp_period_without_tokens (λ _, 0) v0 _ s Hsol Hr c s' E) as [H1 H2].
      split; [exact (wlp_frame _ s (frame_without_tokens _ _) c s' E)|]. split; [done|]. split; [done|]. intros d. rewrite Ez, quot_zero.
      unfold period_without_tokens in E. go_inv. done.
    - apply wlp_liftM. intros c E. apply outcome_bind_Ok in E as (t & Et & E). rewrite LegacyNewDecFromInt_Ok in Et. injection Et as <-.
      pose proof precisionReuse_pos as HPp. apply Z.eqb_neq in Ez.
      destruct (DecCoins_QuoDecTruncate_Ok (Rewards rewards) (Tokens val * precisionReuse) c ltac:(nia) Hr E) as [G M].
      split; [reflexivity|]. split; [done|]. split; [done|]. intros d. rewrite M. apply Z.quot_mul_cancel_r; lia. }
  intros c s1 (H1 & Hsol1 & Gc & Mc). pose proof (counted_same _ _ _ _ Hc H1) as Hc1. pose proof (ct_period _ _ _ Hc v0) as HP.
  apply wlp_bind, wlp_di_get. intros r0 Hr0. destruct H1 as (E1 & E2 & E3 & E4). assert (0 < period_of s v0) as Hpos.
  { destruct (decide (0 < period_of s v0)); [done|]. exfalso. rewrite (counted_beyond N) in Hr0; [done|done|].
    rewrite E4. replace (period_of s v0) with 0 by lia. by vm_compute. }
  rewrite (wrap_uint64_id (period_of s v0 - 1)) in * by lia. apply wlp_bind.
  apply (wlp_mono _ (λ _ s2, ∀ v, history_kept v s s2)).
  { intros u s2 E v. transitivity s1; [by apply same_periods_kept|]. by eapply wlp_kept_decrement. }
  intros _ s2 H2. wlp. rewrite (wrap_uint64_id (period_of s v0 + 1)) by lia. exists v0. split; [done|].
  destruct (DecCoins_Add_Ok _ _ _ (covered_hist _ s1 _ _ Hsol1 Hr0) Gc E) as [_ Ma]. split.
  - split; [by rewrite period_of_insert, decide_True|]. split; [apply (H2 v0)|].
    intros p r' H. cbn in H. apply lookup_insert_Some in H as [[[= <-] <-]|[Hne H]].
    + right. split; [done|]. exists r0. rewrite <- E2. split; [done|]. intros d. cbn. by rewrite Ma, Mc.
    + left. by apply (H2 v0).
  - intros v Hne. split; [rewrite period_of_insert, decide_False by congruence; apply (H2 v)|]. split; [|apply (H2 v)].
    intros p r' H. cbn in H. rewrite lookup_insert_ne in H by congruence. by apply (H2 v).
Qed.

(** What a step does to the history of a validator [v]: nothing, the end of the period
    with the tokens the staking module gives, a new history, or its removal. *)
Definition history_step v s s' : Prop :=
  history_kept v s s' ∨
  (∃ w, (dk_Validator v (di_keepers s)).1 = Ok (Some w) ∧
        history_ended v (mkEnded (Rewards (default (NewValidatorCurrentRewards [] 0) (CurrentRewards s !! v))) (Tokens w)) s s') ∨
  period_of s v = 0 ∨ period_of s' v = 0.
Lemma history_step_kept v s s1 s' : history_step v s s1 → history_kept v s1 s' → history_step v s s'.
Proof.
  intros [H|[(w & Hw & H)|[H|H]]] H'.
  - left. by transitivity s1.
  - right. left. exists w. split; [done|]. by eapply history_ended_kept.
  - right. right. by left.
  - right. right. right. by rewrite (proj1 H').
Qed.
Lemma wlp_lookup f a (Q : option Validator → DistrState S → Prop) s :
  covered f s → (∀ o, (dk_Validator a (di_keepers s)).1 = Ok o → from_option (λ w : Validator, validator_sane w ∧ named a w) True o → Q o s) →
  wlp (on_keepers (dk_Validator a)) Q s.
Proof.
  intros Hc HQ r s' E. pose proof (dl_Validator a (di_keepers s) (cv_keepers f s Hc)) as Hl. unfold on_keepers in E.
  destruct (dk_Validator a (di_keepers s)) as [r1 x] eqn:E1. injection E as -> <-. destruct (Hl r x E1) as [-> Ho].
  rewrite with_keepers_id. by apply HQ.
Qed.
(** The history after the end of a period that a call for the validator [a] caused. *)
Lemma wlp_step_increment N a w v s : solvent s → counted zero_extra N s → N + 1 < 2 ^ 64 →
  (dk_Validator a (di_keepers s)).1 = Ok (Some w) → validator_sane w → named a w →
  wlp (IncrementValidatorPeriod w) (λ _ s', history_step v s s') s.
Proof.
  intros Hsol Hc HN Hw Hs Hn. eapply wlp_mono; [by eapply wlp_history_increment|]. intros P s' (v0 & Hv0 & He & Hk).
  unfold named in Hn. rewrite Hn in Hv0. injection Hv0 as <-. destruct (decide (v = a)) as [->|Hne]; [|left; by apply Hk].
  right. left. by exists w.
Qed.
Lemma wlp_history_withdraw N h a w del v s : solvent s → counted zero_extra N s → N + 1 < 2 ^ 64 →
  (dk_Validator a (di_keepers s)).1 = Ok (Some w) → validator_sane w → named a w →
  wlp (withdrawDelegationRewards h w del) (λ _ s', history_step v s s') s.
Proof.
  intros Hsol Hc HN Hw Hs Hn. unfold withdrawDelegationRewards. apply wlp_bind, wlp_liftM. intros d _. apply wlp_bind, wlp_liftM. intros v1 _.
  apply wlp_bind, wlp_readM, wlp_bind, wlp_liftM. intros _ _. apply wlp_bind. wlp_call ltac:(by eapply (wlp_step_increment N a w v)).
  intros P s1 H1. eapply (wlp_mono _ (λ _, history_kept v s1)); [|intros ? s2; by apply history_step_kept].
  apply wlp_kept_bind; [apply wlp_kept_same, wlp_frame|]; [|intros raw s2].
  { intros x. rewrite (frame_CalculateDelegationRewards h w del P x) at 1. reflexivity. }
  apply wlp_kept_bind; [apply wlp_kept_same, wlp_frame, frame_pay_rewards|]. intros c s3.
  apply wlp_kept_bind; [apply wlp_kept_same, wlp_frame; frame|]. intros p s4.
  apply wlp_kept_bind; [apply wlp_kept_decrement|]. intros _ s5.
  apply wlp_kept_bind; [apply wlp_modifyM, kept_Starting|]. intros _ s6. apply wlp_kept_same, wlp_frame. frame.
Qed.

Lemma wlp_history_removed a s : wlp (Distr_AfterValidatorRemoved a) (λ _ s', period_of s' a = 0 ∧ ∀ v, v ≠ a → history_kept v s s') s.
Proof.
  unfold Distr_AfterValidatorRemoved, GetValidatorOutstandingRewardsCoins. apply wlp_bind, wlp_readM, wlp_bind, wlp_readM.
  apply wlp_bind, (wlp_mono _ (λ _, same_periods s)); [apply wlp_frame; unfold pay_removed, GetDelegatorWithdrawAddr; frame|].
  intros out s1 H1. apply wlp_bind, wlp_di_get. intros p _. apply wlp_bind, wlp_liftM. intros pool _. wlp.
  destruct H1 as (E1 & E2 & E3 & E4). split; [unfold period_of; cbn; by rewrite lookup_delete_eq|]. intros v Hne. split; [|split].
  - rewrite <- E4. unfold period_of. cbn [CurrentRewards with_Current]. by rewrite lookup_delete_ne.
  - intros q r' H. cbn in H. apply map_lookup_filter_Some in H as [H _]. exists r'. by rewrite <- E2.
  - intros k ev H. cbn in H. apply map_lookup_filter_Some in H as [H _]. left. by rewrite <- E3.
Qed.
Lemma wlp_history_slash N h a f v s : solvent s → counted zero_extra N s → N + 1 < 2 ^ 64 →
  wlp (updateValidatorSlashFraction h a f) (λ _ s', history_step v s s') s.
Proof.
  intros Hsol Hc HN. unfold updateValidatorSlashFraction. apply wlp_bind, wlp_liftM. intros _ Hf%guard_err_Ok.
  apply wlp_bind. eapply wlp_lookup; [exact Hsol|]. intros o Ho Hsane. apply wlp_bind, wlp_liftM. intros w E.
  destruct o as [w'|]; [injection E as ->|done]. destruct Hsane as [Hs1 Hs2]. apply wlp_bind.
  wlp_call ltac:(by eapply (wlp_step_increment N a w v)). intros P s1 H1.
  apply (wlp_mono _ (λ _, history_kept v s1)); [|intros ? s2; by apply history_step_kept].
  apply wlp_kept_bind; [apply wlp_kept_increment|]. intros _ s2. apply wlp_modifyM. split; [done|]. split; [intros p r' H; by exists r'|].
  intros k ev H. cbn in H. apply lookup_insert_Some in H as [[<- <-]|[_ H]]; [right|by left]. unfold fraction_ok. cbn.
  apply orb_false_iff in Hf as [Hf1 Hf2]. rewrite Dec_GT_ltb in Hf1. rewrite Dec_IsNegative_ltb in Hf2. lia.
Qed.
Lemma di_step_history N v s s' : solvent s → counted zero_extra N s → N + 1 < 2 ^ 64 → di_step s s' → history_step v s s'.
Proof.
  intros Hsol Hc HN Hs. pose proof (λ s x, λ H : same_periods s x, or_introl (same_periods_kept v s x H) : history_step v s x) as Hsame.
  destruct Hs as [h fc votes s s' Hne Hv Hb H|h d a r s s' H|a r s s' H|d w s s' H|k a p s s' H|d a amt s s' Hne Hr H|d amt s s' Hne H
    |k a r amt s s' H|a s s' Hp H|a s s' Hn H|a s s' H|h d a s s' H|h d a s s' Hn H|h a f s s' H|x s Hx Hh];
    try (eapply (wlp_run _ (λ _, history_step v s)); [exact H|clear H]).
  - eapply wlp_mono; [apply wlp_same_BeginBlocker|]. intros ?; apply Hsame.
  - apply wlp_bind, wlp_liftM. intros a' _. apply wlp_bind, wlp_liftM. intros d' _. unfold WithdrawDelegationRewards.
    apply wlp_bind. eapply wlp_lookup; [exact Hsol|]. intros o Ho Hsane. apply wlp_bind, wlp_liftM. intros w E.
    destruct o as [w'|]; [injection E as ->|done]. destruct Hsane as [Hs1 Hs2]. apply wlp_bind. eapply wlp_Delegation; [exact Hsol|]. intros o2 _.
    apply wlp_bind, wlp_liftM. intros del _. apply wlp_bind. wlp_call ltac:(by eapply (wlp_history_withdraw N h a' w del v)).
    intros c s1 H1. eapply (wlp_mono _ (λ _, history_kept v s1)); [|intros ? s2; by apply history_step_kept].
    apply wlp_kept_bind; [apply wlp_kept_initializeDelegation|]. intros _ s2. by apply wlp_ret.
  - eapply wlp_mono; [apply wlp_frame|intros ?; apply Hsame]. unfold Msg_WithdrawValidatorCommission, WithdrawValidatorCommission, GetDelegatorWithdrawAddr. frame.
  - eapply wlp_mono; [apply wlp_frame|intros ?; apply Hsame]. unfold Msg_SetWithdrawAddress, SetWithdrawAddr, GetWithdrawAddrEnabled. frame.
  - eapply wlp_mono; [apply wlp_frame|intros ?; apply Hsame]. unfold Distr_UpdateParams. frame.
  - eapply wlp_mono; [|intros ?; apply Hsame]. unfold Msg_DepositValidatorRewardsPool.
    do 6 (apply wlp_same_bind; [solve [apply wlp_frame; frame]|intros ? ?]). apply wlp_same_AllocateTokensToValidator.
  - eapply wlp_mono; [apply wlp_frame|intros ?; apply Hsame]. unfold Msg_FundCommunityPool. frame.
  - eapply wlp_mono; [apply wlp_frame|intros ?; apply Hsame]. unfold Msg_CommunityPoolSpend. frame.
  - unfold Distr_AfterValidatorCreated. apply wlp_bind. eapply wlp_lookup; [exact Hsol|]. intros o Ho Hsane. apply wlp_bind, wlp_liftM. intros w E.
    destruct o as [w'|]; [injection E as ->|done]. destruct Hsane as [_ Hnm]. unfold named in Hnm.
    destruct (decide (v = a)) as [->|Hne]; [intros ? ? _; right; right; by left|].
    unfold initializeValidator. apply wlp_bind, wlp_liftM. intros a' Ha'. rewrite Hnm in Ha'. injection Ha' as <-. wlp. left.
    split; [unfold period_of; cbn; by rewrite lookup_insert_ne|]. split; [|intros k ev Hev; by left].
    intros p r' H. cbn in H. rewrite lookup_insert_ne in H by congruence. by exists r'.
  - eapply wlp_mono; [apply wlp_history_removed|]. intros ? s2 [H1 H2].
    destruct (decide (v = a)) as [->|Hne]; [right; right; by right|left; by apply H2].
  - unfold Distr_BeforeDelegationCreated. apply wlp_bind. eapply wlp_lookup; [exact Hsol|]. intros o Ho Hsane. apply wlp_bind, wlp_liftM.
    intros w E. destruct o as [w'|]; [injection E as ->|done]. destruct Hsane as [Hs1 Hs2]. apply wlp_bind.
    wlp_call ltac:(by eapply (wlp_step_increment N a w v)). intros P s1 H1. by apply wlp_ret.
  - unfold Distr_BeforeDelegationSharesModified. apply wlp_bind. eapply wlp_lookup; [exact Hsol|]. intros o Ho Hsane.
    apply wlp_bind. eapply wlp_Delegation; [exact Hsol|]. intros o2 _. apply wlp_bind, wlp_liftM. intros del _. apply wlp_bind, wlp_liftM.
    intros w E. destruct o as [w'|]; [injection E as ->|done]. destruct Hsane as [Hs1 Hs2]. apply wlp_bind.
    wlp_call ltac:(by eapply (wlp_history_withdraw N h a w del v)). intros c s1 H1. by apply wlp_ret.
  - eapply wlp_mono; [apply (wlp_kept_initializeDelegation v)|]. intros ? s1 H1. by left.
  - by eapply (wlp_history_slash N).
  - by apply Hsame.
Qed.

(** ** Runs with the periods of one validator *)

Definition fractions_ok s : Prop := ∀ k ev, SlashEvents s !! k = Some ev → fraction_ok ev.
(** [runs v N s L]: since the validator [v] was created, its periods ended as [L]; no
    period is above [N]. *)
Inductive runs v : Z → DistrState S → list ended → Prop :=
| runs_created N s s' : solvent s → counted zero_extra N s → fractions_ok s → 1 <= N → N + 1 < 2 ^ 64 → period_of s v = 0 →
    Distr_AfterValidatorCreated v s = (Ok tt, s') → runs v (N + 1) s' []
| runs_step N s L s' : runs v N s L → di_step s s' → N + 1 < 2 ^ 64 → period_of s' v = period_of s v → runs v (N + 1) s' L
| runs_period N s L s' w : runs v N s L → di_step s s' → N + 1 < 2 ^ 64 → period_of s' v = period_of s v + 1 →
    (dk_Validator v (di_keepers s)).1 = Ok (Some w) →
    runs v (N + 1) s' (L ++ [mkEnded (Rewards (default (NewValidatorCurrentRewards [] 0) (CurrentRewards s !! v))) (Tokens w)]).

Definition ended_ok (e : ended) : Prop := (∀ d, 0 <= amount (en_rewards e) d) ∧ 0 <= en_tokens e.
Record history_ok v N s (L : list ended) : Prop := {
  ho_solvent : solvent s;
  ho_counted : counted zero_extra N s;
  ho_bound : 1 <= N;
  ho_fractions : fractions_ok s;
  ho_period : period_of s v = Z.of_nat (length L) + 1;
  ho_periods : Forall ended_ok L;
  ho_records p r d : HistoricalRewards s !! (v, p) = Some r →
    amount (CumulativeRewardRatio r) d = ratio_sum (take (Z.to_nat p) L) d;
}.
Lemma record_period N s v p r : counted zero_extra N s → HistoricalRewards s !! (v, p) = Some r → 0 <= p < period_of s v.
Proof.
  intros Hc Hr. split.
  - destruct (decide (0 <= p)); [done|]. rewrite (counted_negative N) in Hr; [done|done|lia].
  - destruct (decide (p < period_of s v)); [done|]. rewrite (counted_beyond N) in Hr; [done|done|lia].
Qed.
Lemma fractions_step s s' : fractions_ok s → slashes_ok s s' → fractions_ok s'.
Proof. intros H H' k ev Hev. destruct (H' k ev Hev) as [E|]; [by apply (H k)|done]. Qed.
Lemma wlp_created_history v s : solvent s →
  wlp (Distr_AfterValidatorCreated v) (λ _ s', period_of s' v = 1 ∧ SlashEvents s' = SlashEvents s ∧
    ∀ p r, HistoricalRewards s' !! (v, p) = Some r → CumulativeRewardRatio r = [] ∨ HistoricalRewards s !! (v, p) = Some r) s.
Proof.
  intros Hsol. unfold Distr_AfterValidatorCreated. apply wlp_bind. eapply wlp_lookup; [exact Hsol|]. intros o _ Hsane. apply wlp_bind, wlp_liftM.
  intros w E. destruct o as [w'|]; [injection E as ->|done]. destruct Hsane as [_ Hnm]. unfold named in Hnm.
  unfold initializeValidator. apply wlp_bind, wlp_liftM. intros a Ha. rewrite Hnm in Ha. injection Ha as <-. wlp.
  split; [unfold period_of; cbn; by rewrite lookup_insert_eq|]. split; [done|]. intros p r H. cbn in H.
  apply lookup_insert_Some in H as [[_ <-]|[_ H]]; [by left|by right].
Qed.
Lemma runs_created_ok v N s s' : solvent s → counted zero_extra N s → fractions_ok s → 1 <= N → N + 1 < 2 ^ 64 → period_of s v = 0 →
  Distr_AfterValidatorCreated v s = (Ok tt, s') → history_ok v (N + 1) s' [].
Proof.
  intros Hsol Hc Hf H1 HN Hp H. pose proof (step_created v s s' Hp H) as Hstep.
  destruct (wlp_created_history v s Hsol tt s' H) as (Hp' & Hse & Hrec).
  split; [by eapply di_step_solvent|eapply di_step_counted; [exact Hsol|done|lia|done|done]|lia| |done|done|].
  - intros k ev. rewrite Hse. apply Hf.
  - intros p r d Hr. rewrite take_nil. cbn. destruct (Hrec p r Hr) as [->|Hr0]; [done|]. destruct (record_period N s v p r Hc Hr0). lia.
Qed.
Lemma runs_step_ok v N s L s' : history_ok v N s L → di_step s s' → N + 1 < 2 ^ 64 → period_of s' v = period_of s v → history_ok v (N + 1) s' L.
Proof.
  intros [] Hstep HN Hp. destruct (di_step_history N v s s') as [H|[(w & _ & He & _)|[H|H]]]; try done; [|lia..].
  destruct H as (_ & Hrec & Hsl).
  split; [by eapply di_step_solvent|eapply di_step_counted; [done|done|lia|done|done]|lia|by eapply fractions_step|congruence|done|].
  intros p r d Hr. destruct (Hrec p r Hr) as (r0 & Hr0 & ->). by apply ho_records0.
Qed.
Lemma runs_period_ok v N s L s' w : history_ok v N s L → di_step s s' → N + 1 < 2 ^ 64 → period_of s' v = period_of s v + 1 →
  (dk_Validator v (di_keepers s)).1 = Ok (Some w) →
  history_ok v (N + 1) s' (L ++ [mkEnded (Rewards (default (NewValidatorCurrentRewards [] 0) (CurrentRewards s !! v))) (Tokens w)]).
Proof.
  intros [] Hstep HN Hp Hw. destruct (di_step_history N v s s') as [H|[(w' & Hw' & _ & Hsl & Hrec)|[H|H]]]; try done; [destruct H; lia| |lia..].
  rewrite Hw in Hw'. injection Hw' as <-. set (e := mkEnded _ _) in *.
  split; [by eapply di_step_solvent|eapply di_step_counted; [done|done|lia|done|done]|lia|by eapply fractions_step|rewrite length_app; cbn; lia| |].
  - apply Forall_app. split; [done|]. apply Forall_singleton. split.
    + intros d. apply good_dec_nonneg. by apply (covered_cur (λ _, 0) s v (NewValidatorCurrentRewards [] 0) ho_solvent0 good_dec_coins_nil).
    + pose proof (dl_Validator v (di_keepers s) (cv_keepers _ s ho_solvent0)) as Hl.
      destruct (dk_Validator v (di_keepers s)) as [r x] eqn:E1. cbn in Hw. subst r. by destruct (Hl _ _ E1) as [_ [[_ ?] _]].
  - intros p r d Hr. destruct (Hrec p r Hr) as [(r0 & Hr0 & ->)|(-> & r0 & Hr0 & Hm)].
    + pose proof (record_period _ _ _ _ _ ho_counted0 Hr0). rewrite (ho_records0 p r0 d Hr0), take_app_le by lia. done.
    + rewrite Hm, (ho_records0 _ r0 d Hr0), ho_period0. rewrite !take_ge by (rewrite ?length_app; cbn; lia).
      rewrite ratio_sum_app. cbn. lia.
Qed.
Lemma runs_ok v N s L : runs v N s L → history_ok v N s L.
Proof.
  induction 1; [by eapply runs_created_ok|by eapply runs_step_ok|by eapply runs_period_ok].
Qed.
End History.
