(* ===== verification/DistrF1.v ===== *)
(** * The payment of a delegation

    [CalculateDelegationRewards] against a loop over the periods: the slashes split the
    time of a delegation into segments with a stake each, and each segment earns the
    sum of the rewards per token of its periods times its stake, rounded down. *)
From S2P Require Import Prelude Bytes MathInt LegacyDec Coin CoinFacts DecCoin Collections Account Vesting AuthKeeper Bank CollMap Validator Staking StakingFacts Hoare DecCoinOk Distribution DistrFacts DistrSolvency DistrRefs DistrHistory.

(** The periods from [sg_from] to before [sg_to], with the stake in them. *)
Record segment := mkSegment { sg_from : Z; sg_to : Z; sg_stake : Z }.
(** What is kept of a stake after a slash, rounded down. *)
Definition slashed (stake : Z) (ev : ValidatorSlashEvent) : Z := Z.quot (stake * (LegacyOneDec - Fraction ev)) precisionReuse.
(** The segments that slashes end, and the first period and the stake after them. *)
Fixpoint split_at_slashes (evs : list ValidatorSlashEvent) (p stake : Z) : list segment * (Z * Z) :=
  match evs with
  | [] => ([], (p, stake))
  | ev :: evs =>
      if p <? ValidatorPeriod ev then
        let '(segs, last) := split_at_slashes evs (ValidatorPeriod ev) (slashed stake ev) in
        (mkSegment p (ValidatorPeriod ev) stake :: segs, last)
      else split_at_slashes evs p stake
  end.
(** All segments up to the period [to]; the last stake is not above what the shares
    are worth now. *)
Definition segments (evs : list ValidatorSlashEvent) (p stake to current : Z) : list segment :=
  let '(segs, (q, last)) := split_at_slashes evs p stake in segs ++ [mkSegment q to (Z.min last current)].
Definition final_stake (evs : list ValidatorSlashEvent) (p stake : Z) : Z := (split_at_slashes evs p stake).2.2.

(** The rewards per token of the periods of a segment, and its payment. *)
Definition periods (L : list ended) (sg : segment) : list ended := take (Z.to_nat (sg_to sg - sg_from sg)) (drop (Z.to_nat (sg_from sg)) L).
Definition payment (L : list ended) (d : string) (sg : segment) : Z := Z.quot (ratio_sum (periods L sg) d * sg_stake sg) precisionReuse.
Fixpoint payments (L : list ended) (d : string) (segs : list segment) : Z :=
  match segs with [] => 0 | sg :: segs' => payment L d sg + payments L d segs' end.
Lemma payments_app L d s1 s2 : payments L d (s1 ++ s2) = payments L d s1 + payments L d s2.
Proof. induction s1 as [|sg s1 IH]; cbn; lia. Qed.

Section F1.
Context {S : Type} {dk : DistrKeepers S} {cfg : CoinConfig} {acfg : AddressConfig} {vcfg : ValAddressConfig} {DL : DistrLaws S dk}.
Implicit Types (s : DistrState S) (v : string).

Lemma ratio_nonneg e d : ended_ok e → 0 <= ratio e d.
Proof.
  intros [Hr Ht]. unfold ratio. destruct (Z.eq_dec (en_tokens e) 0) as [->|]; [by rewrite quot_zero|]. apply Z.quot_pos; [apply Hr|lia].
Qed.
Lemma ratio_sum_nonneg L d : Forall ended_ok L → 0 <= ratio_sum L d.
Proof. induction 1 as [|e L He _ IH]; cbn; [lia|]. pose proof (ratio_nonneg e d He). lia. Qed.
Lemma ratio_sum_periods L d a b stake : 0 <= a <= b →
  ratio_sum (take (Z.to_nat b) L) d - ratio_sum (take (Z.to_nat a) L) d = ratio_sum (periods L (mkSegment a b stake)) d.
Proof.
  intros H. unfold periods. cbn. rewrite <- (take_drop (Z.to_nat a) L) at 1.
  destruct (decide (Z.to_nat a <= length L)%nat).
  - rewrite take_app_ge by (rewrite length_take; lia). rewrite ratio_sum_app, length_take, Nat.min_l by lia.
    replace (Z.to_nat b - Z.to_nat a)%nat with (Z.to_nat (b - a)) by lia. lia.
  - rewrite (drop_ge L) by lia. rewrite app_nil_r, take_nil. rewrite !take_take. cbn.
    rewrite !(take_ge L) by lia. lia.
Qed.
Lemma periods_ok L sg : Forall ended_ok L → Forall ended_ok (periods L sg).
Proof. intros H. by apply Forall_take, Forall_drop. Qed.
Lemma payment_nonneg L d sg : Forall ended_ok L → 0 <= sg_stake sg → 0 <= payment L d sg.
Proof.
  intros HL Hs. apply Z.quot_pos; [|apply precisionReuse_pos]. pose proof (ratio_sum_nonneg _ d (periods_ok L sg HL)). nia.
Qed.
Lemma payments_nonneg L d segs : Forall ended_ok L → Forall (λ sg, 0 <= sg_stake sg) segs → 0 <= payments L d segs.
Proof. intros HL. induction 1 as [|sg segs Hs _ IH]; cbn; [lia|]. pose proof (payment_nonneg L d sg HL Hs). lia. Qed.

(** ** One segment *)

Lemma DecCoins_Sub_good a b : good_dec_coins a → good_dec_coins b → (∀ d, amount b d <= amount a d) →
  ∃ r, DecCoins_Sub a b = Ok r ∧ good_dec_coins r ∧ ∀ d, amount r d = amount a d - amount b d.
Proof.
  intros Ha Hb Hle. assert (denoms_sorted (DecCoins_negative b)) as Hs.
  { unfold denoms_sorted. change (DecCoins_negative b) with (Coins_negative b). rewrite negative_denoms. by apply good_dec_sorted. }
  assert (∀ d, amount a d + amount (DecCoins_negative b) d = amount a d - amount b d) as Hd.
  { intros d. change (DecCoins_negative b) with (Coins_negative b). rewrite negative_amount. lia. }
  destruct (dec_safeAdd_total a (DecCoins_negative b)) as [r Hr]; [by apply good_dec_sorted|done| |].
  { intros d. rewrite Hd. apply (dec_range_between _ (amount a d)); [|by apply good_dec_amount_range].
    specialize (Hle d). pose proof (good_dec_nonneg b d Hb). lia. }
  destruct (dec_safeAdd_Ok _ _ _ (good_dec_sorted a Ha) Hs Hr) as [Hc Hm].
  assert (DecCoins_Sub a b = Ok r) as HS.
  { unfold DecCoins_Sub, DecCoins_SafeSub. rewrite Hr. cbn. change (DecCoins_IsAnyNegative r) with (Coins_IsAnyNegative r).
    rewrite (proj2 (IsAnyNegative_false r Hc)); [done|]. intros d. rewrite Hm, Hd. specialize (Hle d). lia. }
  exists r. split; [done|]. by apply DecCoins_Sub_Ok.
Qed.
Lemma DecCoins_MulDecTruncate_good a k : good_dec_coins a → 0 <= k → (∀ d, dec_range (Z.quot (amount a d * k) precisionReuse)) →
  ∃ r, DecCoins_MulDecTruncate a k = Ok r ∧ good_dec_coins r ∧ ∀ d, amount r d = Z.quot (amount a d * k) precisionReuse.
Proof.
  intros Ha Hk Hr. assert (∃ r, DecCoins_MulDecTruncate a k = Ok r) as [r H].
  { unfold DecCoins_MulDecTruncate. rewrite Dec_IsZero_eqb. destruct (Z.eqb_spec k 0); [by eexists|].
    destruct (scale_loop_good (λ z, Dec_MulTruncate z k) (λ z, Z.quot (z * k) precisionReuse)) with (cs := a) as (r & H & _); [done| |done|done|done|by eexists].
    intros z Hz. apply Z.quot_pos; [nia|apply precisionReuse_pos]. }
  exists r. split; [done|]. by apply DecCoins_MulDecTruncate_Ok.
Qed.
Lemma wp_calculateBetween v N s L w a b stake ra rb : history_ok v N s L → named v w →
  HistoricalRewards s !! (v, a) = Some ra → HistoricalRewards s !! (v, b) = Some rb → a <= b → 0 <= stake →
  (∀ d, dec_range (payment L d (mkSegment a b stake))) →
  wp (calculateDelegationRewardsBetween w a b stake)
    (λ c s', s' = s ∧ good_dec_coins c ∧ ∀ d, amount c d = payment L d (mkSegment a b stake)) s.
Proof.
  intros Ho Hn Ha Hb Hab Hst Hr. unfold calculateDelegationRewardsBetween. pose proof (record_period _ _ _ _ _ (ho_counted _ _ _ _ Ho) Ha) as Hpa.
  apply wp_bind, (wp_liftM _ tt); [unfold guard_err; by rewrite (proj2 (Z.ltb_ge _ _)) by lia|].
  apply wp_bind, (wp_liftM _ tt); [unfold guard_err; rewrite Dec_IsNegative_ltb; by rewrite (proj2 (Z.ltb_ge _ _)) by lia|].
  apply wp_bind, (wp_liftM _ v); [exact Hn|]. unfold di_get. apply wp_bind, wp_bind, wp_readM, (wp_liftM _ ra); [by rewrite Ha|].
  apply wp_bind, wp_bind, wp_readM, (wp_liftM _ rb); [by rewrite Hb|].
  destruct (DecCoins_Sub_good (CumulativeRewardRatio rb) (CumulativeRewardRatio ra)) as (diff & Hd & Gd & Md).
  { exact (covered_hist _ _ _ _ (ho_solvent _ _ _ _ Ho) Hb). } { exact (covered_hist _ _ _ _ (ho_solvent _ _ _ _ Ho) Ha). }
  { intros d. rewrite (ho_records _ _ _ _ Ho _ _ d Ha), (ho_records _ _ _ _ Ho _ _ d Hb).
    pose proof (ratio_sum_periods L d a b stake ltac:(lia)). pose proof (ratio_sum_nonneg _ d (periods_ok L (mkSegment a b stake) (ho_periods _ _ _ _ Ho))). lia. }
  apply wp_bind, (wp_liftM _ diff); [exact Hd|].
  assert (∀ d, amount diff d = ratio_sum (periods L (mkSegment a b stake)) d) as Md'.
  { intros d. rewrite Md, (ho_records _ _ _ _ Ho _ _ d Ha), (ho_records _ _ _ _ Ho _ _ d Hb). apply ratio_sum_periods. lia. }
  apply wp_bind, (wp_liftM _ tt).
  { change (DecCoins_IsAnyNegative diff) with (Coins_IsAnyNegative diff). rewrite (proj2 (IsAnyNegative_false diff (valid_coins_canonical _ (proj1 Gd)))); [done|].
    intros d. by apply good_dec_nonneg. }
  destruct (DecCoins_MulDecTruncate_good diff stake Gd Hst) as (c & Hc & Gc & Mc); [intros d; rewrite Md'; apply Hr|].
  apply (wp_liftM _ c); [exact Hc|]. split; [done|]. split; [done|]. intros d. by rewrite Mc, Md'.
Qed.

(** ** The loop over the slashes *)

Lemma slashed_bounds stake ev : 0 <= stake → fraction_ok ev → 0 <= slashed stake ev <= stake.
Proof.
  intros Hs [Hf1 Hf2]. unfold slashed. pose proof precisionReuse_pos as HP. unfold LegacyOneDec in *. split; [apply Z.quot_pos; nia|].
  rewrite Z.quot_div_nonneg by nia. apply Z.div_le_upper_bound; nia.
Qed.
Lemma split_at_slashes_nonneg evs : Forall fraction_ok evs → ∀ p stake, 0 <= stake →
  Forall (λ sg, 0 <= sg_stake sg) (split_at_slashes evs p stake).1 ∧ 0 <= final_stake evs p stake <= stake.
Proof.
  unfold final_stake. induction 1 as [|ev evs Hev _ IH]; intros p stake Hs; cbn; [split; [constructor|lia]|].
  pose proof (slashed_bounds stake ev Hs Hev). case_match; [|by apply IH].
  destruct (IH (ValidatorPeriod ev) (slashed stake ev)) as [H1 H2]; [lia|].
  destruct (split_at_slashes evs _ _) as [segs [q last]]. cbn in *. split; [by constructor|lia].
Qed.
Lemma kept_Ok f : 0 <= f <= LegacyOneDec → Dec_Sub LegacyOneDec f = Ok (LegacyOneDec - f).
Proof. intros H. apply Dec_Sub_Ok. split; [done|]. apply (dec_range_between _ LegacyOneDec); [lia|]. split; vm_compute; discriminate. Qed.
(** What the loop returns: the payments so far, and the last stake and period. *)
Definition slashes_paid (L : list ended) (evs : list ValidatorSlashEvent) (rewards : DecCoins) (stake p : Z) (s : DistrState S)
    (out : DecCoins * Z * Z) (s' : DistrState S) : Prop :=
  s' = s ∧ good_dec_coins out.1.1 ∧ (out.2, out.1.2) = (split_at_slashes evs p stake).2 ∧
  ∀ d, amount out.1.1 d = amount rewards d + payments L d (split_at_slashes evs p stake).1.
Definition recorded v s (p : Z) : Prop := is_Some (HistoricalRewards s !! (v, p)).
Lemma wp_slash_period v N s L w rewards stake p ev : history_ok v N s L → named v w → good_dec_coins rewards → 0 <= stake → dec_range stake →
  fraction_ok ev → recorded v s p → recorded v s (ValidatorPeriod ev) → p < ValidatorPeriod ev →
  (∀ d, dec_range (amount rewards d + payment L d (mkSegment p (ValidatorPeriod ev) stake))) →
  wp (slash_period w (rewards, stake, p) ev) (λ out s', s' = s ∧ ∃ r, out = (r, slashed stake ev, ValidatorPeriod ev) ∧ good_dec_coins r ∧
    ∀ d, amount r d = amount rewards d + payment L d (mkSegment p (ValidatorPeriod ev) stake)) s.
Proof.
  intros Ho Hn Hr Hs Hsr Hf [ra Hra] [rb Hrb] Hp Hd. unfold slash_period. rewrite (proj2 (Z.ltb_lt _ _) Hp). apply wp_bind.
  assert (∀ d, 0 <= payment L d (mkSegment p (ValidatorPeriod ev) stake)) as Hpos by (intros d; apply payment_nonneg; [apply Ho|done]).
  eapply wp_mono; [eapply wp_calculateBetween; [exact Ho|done|exact Hra|exact Hrb|lia|done|]|].
  { intros d. eapply dec_range_between, (Hd d). specialize (Hpos d). pose proof (good_dec_nonneg _ d Hr). lia. }
  intros c ? (-> & Gc & Mc). destruct (DecCoins_Add_good rewards c) as (r & Er & Gr & Mr); [done|done|intros d; rewrite Mc; apply Hd|].
  apply wp_bind, (wp_liftM _ r); [exact Er|]. apply wp_bind, (wp_liftM _ (LegacyOneDec - Fraction ev)); [by apply kept_Ok|].
  apply wp_bind, (wp_liftM _ (slashed stake ev)).
  { apply Dec_MulTruncate_Ok. split; [done|]. apply (dec_range_between _ stake); [by apply slashed_bounds|done]. }
  apply wp_ret. split; [done|]. exists r. split; [done|]. split; [done|]. intros d. by rewrite Mr, Mc.
Qed.
Lemma wp_slash_periods v N s L w : history_ok v N s L → named v w →
  ∀ events, Forall (λ kv : (Z * Z) * ValidatorSlashEvent, fraction_ok kv.2 ∧ recorded v s (ValidatorPeriod kv.2)) events →
  ∀ rewards stake p, good_dec_coins rewards → 0 <= stake → dec_range stake → recorded v s p →
  (∀ d, dec_range (amount rewards d + payments L d (split_at_slashes events.*2 p stake).1)) →
  wp (foldM (λ b kv, slash_period w b kv.2) (rewards, stake, p) events)
    (λ out s', slashes_paid L events.*2 rewards stake p s out s' ∧ recorded v s out.2) s.
Proof.
  intros Ho Hn. induction 1 as [|[k ev] events [Hf Hrec] Hevs IH]; intros rewards stake p Hr Hs Hsr Hp Hd; cbn [foldM].
  { apply wp_ret. split; [|done]. split; [done|]. split; [done|]. split; [done|]. intros d. cbn. lia. }
  cbn in Hf, Hrec. cbn [fmap list_fmap split_at_slashes snd] in Hd |- *. apply wp_bind. destruct (Z.ltb_spec p (ValidatorPeriod ev)) as [Hlt|Hge].
  - pose proof (slashed_bounds stake ev Hs Hf) as Hsl.
    destruct (split_at_slashes_nonneg (events.*2)) with (p := ValidatorPeriod ev) (stake := slashed stake ev) as [Hnn _]; [|lia|].
    { apply Forall_fmap. eapply Forall_impl; [exact Hevs|]. by intros ? []. }
    unfold slashes_paid. cbn [split_at_slashes fmap list_fmap snd]. rewrite (proj2 (Z.ltb_lt _ _) Hlt).
    destruct (split_at_slashes events.*2 (ValidatorPeriod ev) (slashed stake ev)) as [segs last] eqn:E. cbn [fst snd payments] in *.
    assert (∀ d, 0 <= payment L d (mkSegment p (ValidatorPeriod ev) stake)) as Hpos by (intros d; apply payment_nonneg; [apply Ho|done]).
    eapply wp_mono; [eapply (wp_slash_period v N s L); try done|].
    { intros d. apply (dec_range_between _ (amount rewards d + (payment L d (mkSegment p (ValidatorPeriod ev) stake) + payments L d segs))); [|apply Hd].
      pose proof (good_dec_nonneg _ d Hr). pose proof (payments_nonneg L d segs (ho_periods _ _ _ _ Ho) Hnn). specialize (Hpos d). lia. }
    intros out ? (-> & r & -> & Gr & Mr). eapply wp_mono; [apply IH; [done|lia|by apply (dec_range_between _ stake)|done|]|].
    { intros d. rewrite Mr, E. cbn. rewrite <- Z.add_assoc. apply Hd. }
    intros out s' [(-> & Go & Ho2 & Mo) Hrec']. split; [|done]. rewrite E in Ho2, Mo. cbn in *. split; [done|]. split; [done|]. split; [done|].
    intros d. rewrite Mo, Mr. lia.
  - unfold slash_period at 1. rewrite (proj2 (Z.ltb_ge _ _) Hge). apply wp_ret. unfold slashes_paid. cbn [fmap list_fmap split_at_slashes snd].
    rewrite (proj2 (Z.ltb_ge _ _) Hge). by apply IH.
Qed.

(** ** The rewards of a delegation *)

Lemma segments_nonneg evs p stake to current : Forall fraction_ok evs → 0 <= stake → 0 <= current →
  Forall (λ sg, 0 <= sg_stake sg) (segments evs p stake to current).
Proof.
  intros Hf Hs Hc. destruct (split_at_slashes_nonneg evs Hf p stake Hs) as [H1 H2]. unfold segments, final_stake in *.
  destruct (split_at_slashes evs p stake) as [segs [q last]]. cbn in *. apply Forall_app. split; [done|]. apply Forall_singleton. cbn. lia.
Qed.
Lemma check_stake_spec stake current : 0 <= current → dec_range (current + 3) →
  check_stake stake current = if stake <=? current + 3 then Ok (Z.min stake current)
    else Err "calculated final stake for delegator greater than current stake".
Proof.
  intros Hc Hr. unfold check_stake. rewrite Dec_GT_ltb. destruct (Z.ltb_spec current stake).
  - change (Dec_MulInt64 LegacySmallestDec 3) with (Ok 3 : outcome Z). cbn. rewrite (proj2 (Dec_Add_Ok _ _ _) (conj eq_refl Hr)). cbn.
    rewrite Dec_LTE_leb. case_match; [f_equal; lia|done].
  - rewrite (proj2 (Z.leb_le _ _)) by lia. f_equal. lia.
Qed.
(** The records that a delegation refers to. *)
Lemma recorded_referenced N s v p : counted zero_extra N s → 0 < refs s v p → recorded v s p.
Proof.
  intros Hc Hr. pose proof (ct_count _ _ _ Hc v p) as H. unfold recorded, count_of, zero_extra in *.
  destruct (HistoricalRewards s !! (v, p)); [by eexists|cbn in H; lia].
Qed.
Lemma starting_refs_nonneg m v p : 0 <= starting_refs m v p.
Proof. apply msum_nonneg. intros. case_decide; lia. Qed.
Lemma slash_refs_nonneg m v p : 0 <= slash_refs m v p.
Proof. apply msum_nonneg. intros. case_decide; lia. Qed.
Lemma recorded_current N s v : counted zero_extra N s → 1 <= period_of s v → recorded v s (period_of s v - 1).
Proof.
  intros Hc Hp. apply (recorded_referenced N); [done|]. unfold refs, current_ref. rewrite decide_True by lia.
  pose proof (starting_refs_nonneg (StartingInfos s) v (period_of s v - 1)). pose proof (slash_refs_nonneg (SlashEvents s) v (period_of s v - 1)). lia.
Qed.
Lemma starting_refs_lookup m v d (i : DelegatorStartingInfo) : m !! (v, d) = Some i → 1 <= starting_refs m v (PreviousPeriod i).
Proof.
  intros Hi. pose proof (msum_lookup_le (λ (k : string * string) i', if decide (k.1 = v ∧ PreviousPeriod i' = PreviousPeriod i) then 1 else 0) m (v, d) i) as H.
  cbn in H. rewrite decide_True in H by done. apply H; [|done]. intros. case_decide; lia.
Qed.
Lemma slash_refs_lookup m v h p (ev : ValidatorSlashEvent) : m !! (v, h, p) = Some ev → 1 <= slash_refs m v (ValidatorPeriod ev).
Proof.
  intros Hi. pose proof (msum_lookup_le (λ (k : string * Z * Z) ev', if decide (k.1.1 = v ∧ ValidatorPeriod ev' = ValidatorPeriod ev) then 1 else 0) m (v, h, p) ev) as H.
  cbn in H. rewrite decide_True in H by done. apply H; [|done]. intros. case_decide; lia.
Qed.
Lemma recorded_starting N s v d i : counted zero_extra N s → StartingInfos s !! (v, d) = Some i → recorded v s (PreviousPeriod i).
Proof.
  intros Hc Hi. apply (recorded_referenced N); [done|]. unfold refs, current_ref. pose proof (slash_refs_nonneg (SlashEvents s) v (PreviousPeriod i)).
  pose proof (starting_refs_lookup _ _ _ _ Hi). case_decide; lia.
Qed.
Lemma recorded_slash N s v h p ev : counted zero_extra N s → SlashEvents s !! (v, h, p) = Some ev → recorded v s (ValidatorPeriod ev).
Proof.
  intros Hc Hev. apply (recorded_referenced N); [done|]. unfold refs, current_ref. pose proof (starting_refs_nonneg (StartingInfos s) v (ValidatorPeriod ev)).
  pose proof (slash_refs_lookup _ _ _ _ _ Hev). case_decide; lia.
Qed.
Lemma events_between_In v a b m k ev : (k, ev) ∈ events_between v a b m → m !! (v, k.1, k.2) = Some ev.
Proof.
  unfold events_between. rewrite merge_sort_Permutation. intros ([[[v' h] p] ev'] & Hin & E)%list_elem_of_omap.
  rewrite str_eq_spec in E. case_bool_decide as Ev; [|done]. subst v'. cbn in E. case_match; [|done]. injection E as <- <-. by apply elem_of_map_to_list in Hin.
Qed.
Lemma events_good v N s L a b : history_ok v N s L →
  Forall (λ kv : (Z * Z) * ValidatorSlashEvent, fraction_ok kv.2 ∧ recorded v s (ValidatorPeriod kv.2)) (events_between v a b (SlashEvents s)).
Proof.
  intros Ho. apply Forall_forall. intros [k ev] Hin%events_between_In. cbn. split.
  - exact (ho_fractions _ _ _ _ Ho _ _ Hin).
  - eapply recorded_slash, Hin. apply (ho_counted _ _ _ _ Ho).
Qed.
(** The slashes of a validator since a delegation started. *)
Definition slashes_since v (start now : Z) s : list ValidatorSlashEvent := (events_between v start now (SlashEvents s)).*2.

(** The heights at which the rewards are calculated, and the values of the stake. *)
Record well_started s v d w del (now : Z) (info : DelegatorStartingInfo) (current : Z) : Prop := {
  ws_validator : named v w;
  ws_delegation : delegation_named d v del;
  ws_info : StartingInfos s !! (v, d) = Some info;
  ws_heights : 0 <= si_Height info < now;
  ws_now : now < 2 ^ 63;
  ws_stake : 0 <= Stake info;
  ws_stake_range : dec_range (Stake info);
  ws_current : TokensFromShares (Shares del) w = Ok current;
  ws_current_pos : 0 <= current;
  ws_current_range : dec_range (current + 3);
}.
(** The calculation reaches the check of the stake after the payments of the
    segments that slashes ended. *)
Lemma rewards_until_check v N s L d w del h info current sl q last : history_ok v N s L → well_started s v d w del (h_Height h) info current →
  split_at_slashes (slashes_since v (si_Height info) (h_Height h) s) (PreviousPeriod info) (Stake info) = (sl, (q, last)) →
  (∀ x, dec_range (payments L x sl)) →
  ∃ rs, good_dec_coins rs ∧ (∀ x, amount rs x = payments L x sl) ∧ recorded v s q ∧
    CalculateDelegationRewards h w del (Z.of_nat (length L)) s =
      (stake ← liftM (check_stake last current);
       delRewards ← calculateDelegationRewardsBetween w q (Z.of_nat (length L)) stake;
       liftM (DecCoins_Add rs delRewards)) s.
Proof.
  intros Ho [] Esl Hr. destruct ws_delegation0 as [Hd Hv]. unfold CalculateDelegationRewards.
  rewrite (liftM_bind_run _ _ d) by exact Hd. rewrite (liftM_bind_run _ _ v) by exact Hv.
  unfold mbind at 1, GoM_bind at 1. cbn [readM]. rewrite ws_info0. cbn [default from_option fmap option_fmap option_map non_nil].
  rewrite (wrap_uint64_id (h_Height h)) by lia. rewrite (proj2 (Z.eqb_neq _ _)) by (cbn; lia).
  rewrite (liftM_bind_run _ _ info) by done. cbv zeta. cbn [id]. rewrite (proj2 (Z.ltb_lt _ _)) by lia.
  pose proof (events_good v N s L (si_Height info) (h_Height h) Ho) as Hev.
  assert (wp (IterateValidatorSlashEventsBetween v (si_Height info) (h_Height h) (slash_period w) ([], Stake info, PreviousPeriod info))
    (λ out s', slashes_paid L (slashes_since v (si_Height info) (h_Height h) s) [] (Stake info) (PreviousPeriod info) s out s' ∧ recorded v s out.2) s)
    as (out & s' & Eit & (-> & Gr & Eq & Mr) & Hq).
  { unfold IterateValidatorSlashEventsBetween. apply wp_bind, (wp_liftM _ tt).
    - unfold guard_err. rewrite wrap_uint64_id by lia. by rewrite (proj2 (Z.ltb_ge _ _)) by lia.
    - apply wp_bind, wp_readM. eapply wp_slash_periods; try done; [apply good_dec_coins_nil|eapply recorded_starting, ws_info0; apply Ho|].
      intros x. fold (slashes_since v (si_Height info) (h_Height h) s). rewrite Esl. cbn. apply Hr. }
  rewrite (GoM_bind_run _ _ _ _ _ Eit). destruct out as [[rs stake] q']. rewrite Esl in Eq, Mr. cbn [fst snd] in *. injection Eq as -> ->.
  rewrite (liftM_bind_run _ _ current) by done. exists rs. split; [done|]. split; [done|]. by split.
Qed.
Lemma rewards_of_history v N s L d w del h info current : history_ok v N s L → well_started s v d w del (h_Height h) info current →
  let evs := slashes_since v (si_Height info) (h_Height h) s in
  let segs := segments evs (PreviousPeriod info) (Stake info) (Z.of_nat (length L)) current in
  (∀ x, dec_range (payments L x segs)) →
  if final_stake evs (PreviousPeriod info) (Stake info) <=? current + 3 then
    ∃ rewards, CalculateDelegationRewards h w del (Z.of_nat (length L)) s = (Ok rewards, s) ∧ ∀ x, amount rewards x = payments L x segs
  else CalculateDelegationRewards h w del (Z.of_nat (length L)) s = (Err "calculated final stake for delegator greater than current stake", s).
Proof.
  intros Ho Hw evs segs Hr. pose proof (events_good v N s L (si_Height info) (h_Height h) Ho) as Hev.
  assert (Forall fraction_ok evs) as Hfr by (apply Forall_fmap; eapply Forall_impl; [exact Hev|]; by intros ? []).
  destruct (split_at_slashes_nonneg evs Hfr (PreviousPeriod info) (Stake info) (ws_stake _ _ _ _ _ _ _ _ Hw)) as [Hnn1 Hfin1].
  pose proof (ws_current_pos _ _ _ _ _ _ _ _ Hw) as Hcur.
  unfold segs, segments, final_stake in *. destruct (split_at_slashes evs (PreviousPeriod info) (Stake info)) as [sl [q last]] eqn:Esl. cbn [fst snd] in *.
  assert (∀ x, payments L x (sl ++ [mkSegment q (Z.of_nat (length L)) (Z.min last current)]) = payments L x sl + payment L x (mkSegment q (Z.of_nat (length L)) (Z.min last current))) as Hsplit
    by (intros x; rewrite payments_app; cbn [payments]; lia).
  assert (∀ x, 0 <= payment L x (mkSegment q (Z.of_nat (length L)) (Z.min last current))) as Hlast by (intros x; apply payment_nonneg; [apply Ho|cbn; lia]).
  assert (∀ x, 0 <= payments L x sl) as Hfirst by (intros x; apply payments_nonneg; [apply Ho|done]).
  destruct (rewards_until_check v N s L d w del h info current sl q last Ho Hw Esl) as (rs & Gr & Mr & [rq Hq] & ->).
  { intros x. eapply dec_range_between, (Hr x). rewrite Hsplit. specialize (Hlast x). specialize (Hfirst x). lia. }
  pose proof (check_stake_spec last current Hcur (ws_current_range _ _ _ _ _ _ _ _ Hw)) as Hcheck.
  destruct (last <=? current + 3); [|unfold mbind, GoM_bind, liftM; by rewrite Hcheck].
  rewrite (liftM_bind_run _ _ _ _ Hcheck).
  destruct (recorded_current N s v) as [rL HL]; [apply Ho|rewrite (ho_period _ _ _ _ Ho); lia|]. rewrite (ho_period _ _ _ _ Ho), Z.add_simpl_r in HL.
  pose proof (record_period _ _ _ _ _ (ho_counted _ _ _ _ Ho) Hq) as Hq2. rewrite (ho_period _ _ _ _ Ho) in Hq2.
  assert (wp (calculateDelegationRewardsBetween w q (Z.of_nat (length L)) (Z.min last current))
    (λ c s', s' = s ∧ good_dec_coins c ∧ ∀ x, amount c x = payment L x (mkSegment q (Z.of_nat (length L)) (Z.min last current))) s)
    as (c & s' & Ec & -> & Gc & Mc).
  { eapply wp_mono; [eapply wp_calculateBetween; [exact Ho|exact (ws_validator _ _ _ _ _ _ _ _ Hw)|exact Hq|exact HL|lia|lia|]|done].
    intros x. eapply dec_range_between, (Hr x). rewrite Hsplit. specialize (Hlast x). specialize (Hfirst x). lia. }
  rewrite (GoM_bind_run _ _ _ _ _ Ec). destruct (DecCoins_Add_good rs c) as (r & Er & Grr & Mrr); [done|done| |].
  { intros x. rewrite Mr, Mc, <- Hsplit. apply Hr. }
  exists r. split; [unfold liftM; by rewrite Er|]. intros x. rewrite Mrr, Mr, Mc, Hsplit. done.
Qed.
End F1.

(** ** The delegators of a validator share the rewards of its periods

    If in every period the stakes of some delegations together are at most the tokens
    of the validator, then their rewards together are at most the rewards of the
    periods, and each of them is small enough to be calculated without overflow. *)

(** The stake that segments have in the period after the record [k]. *)
Definition in_segment (sg : segment) (k : Z) : bool := (sg_from sg <=? k) && (k <? sg_to sg).
Fixpoint stake_in (segs : list segment) (k : Z) : Z :=
  match segs with [] => 0 | sg :: segs' => (if in_segment sg k then sg_stake sg else 0) + stake_in segs' k end.
(** What stakes [f] earn in the periods [L] from the record [k] on, before rounding. *)
Fixpoint earned (L : list ended) (d : string) (k : Z) (f : Z → Z) : Z :=
  match L with [] => 0 | e :: L' => ratio e d * f k + earned L' d (k + 1) f end.
Fixpoint rewards_total (L : list ended) (d : string) : Z :=
  match L with [] => 0 | e :: L' => amount (en_rewards e) d + rewards_total L' d end.

Lemma earned_add L d f g : ∀ k, earned L d k (λ i, f i + g i) = earned L d k f + earned L d k g.
Proof. induction L as [|e L IH]; intros k; cbn; [done|]. rewrite IH. lia. Qed.
Lemma earned_zero L d : ∀ k, earned L d k (λ _, 0) = 0.
Proof. induction L as [|e L IH]; intros k; cbn; [done|]. rewrite IH. lia. Qed.
Lemma earned_segment L d sg : ∀ k, earned L d k (λ i, if in_segment sg i then sg_stake sg else 0) =
  ratio_sum (take (Z.to_nat (sg_to sg - Z.max (sg_from sg) k)) (drop (Z.to_nat (sg_from sg - k)) L)) d * sg_stake sg.
Proof.
  destruct sg as [a b stake]. unfold in_segment. cbn. induction L as [|e L IH]; intros k; cbn [earned].
  { by rewrite drop_nil, take_nil. }
  rewrite IH. destruct (Z.leb_spec a k); cbn [andb].
  - replace (Z.to_nat (a - k)) with 0%nat by lia. replace (Z.to_nat (a - (k + 1))) with 0%nat by lia. rewrite !drop_0.
    rewrite (Z.max_r a k), (Z.max_r a (k + 1)) by lia. destruct (Z.ltb_spec k b).
    + replace (Z.to_nat (b - k)) with (Datatypes.S (Z.to_nat (b - (k + 1)))) by lia. cbn [take ratio_sum]. lia.
    + replace (Z.to_nat (b - k)) with 0%nat by lia. replace (Z.to_nat (b - (k + 1))) with 0%nat by lia. cbn [take]. rewrite !take_0. cbn. lia.
  - replace (Z.to_nat (a - k)) with (Datatypes.S (Z.to_nat (a - (k + 1)))) by lia. cbn [skipn]. rewrite (Z.max_l a k), (Z.max_l a (k + 1)) by lia. lia.
Qed.
Lemma earned_bound d f : ∀ L k, Forall ended_ok L → (∀ i e, L !! i = Some e → f (k + Z.of_nat i) <= en_tokens e * precisionReuse) →
  earned L d k f <= rewards_total L d * precisionReuse.
Proof.
  pose proof precisionReuse_pos as HP. induction L as [|e L IH]; intros k HL Hf; cbn; [lia|]. apply Forall_cons in HL as [He HL].
  specialize (IH (k + 1) HL). assert (earned L d (k + 1) f <= rewards_total L d * precisionReuse) as Hrest.
  { apply IH. intros i e' Hi. specialize (Hf (Datatypes.S i) e' Hi). replace (k + 1 + Z.of_nat i) with (k + Z.of_nat (Datatypes.S i)) by lia. done. }
  specialize (Hf 0%nat e eq_refl). replace (k + Z.of_nat 0) with k in Hf by lia.
  assert (0 <= ratio e d) as Hr by (apply ratio_nonneg, He). destruct He as [Hr0 Ht]. specialize (Hr0 d).
  assert (ratio e d * en_tokens e <= amount (en_rewards e) d) as Hq.
  { unfold ratio in *. destruct (Z.eq_dec (en_tokens e) 0) as [->|]; [lia|]. rewrite Z.quot_div_nonneg by lia. rewrite Z.mul_comm. apply Z.mul_div_le. lia. }
  nia.
Qed.

Lemma payment_earned L d sg : Forall ended_ok L → 0 <= sg_from sg → 0 <= sg_stake sg →
  payment L d sg * precisionReuse <= earned L d 0 (λ i, if in_segment sg i then sg_stake sg else 0).
Proof.
  intros HL Hf Hs. pose proof precisionReuse_pos as HP. rewrite earned_segment, Z.sub_0_r, Z.max_l by lia. fold (periods L sg).
  pose proof (ratio_sum_nonneg _ d (periods_ok L sg HL)). unfold payment. rewrite Z.quot_div_nonneg by nia. rewrite Z.mul_comm. apply Z.mul_div_le. lia.
Qed.
Lemma payments_earned L d segs : Forall ended_ok L → Forall (λ sg, 0 <= sg_from sg ∧ 0 <= sg_stake sg) segs →
  payments L d segs * precisionReuse <= earned L d 0 (stake_in segs).
Proof.
  intros HL. induction 1 as [|sg segs [Hf Hs] _ IH]; cbn [payments stake_in]; [by rewrite earned_zero|].
  rewrite earned_add.
  pose proof (payment_earned L d sg HL Hf Hs). lia.
Qed.
(** Of a list of delegations, each with its segments. *)
Fixpoint stakes_in (all : list (list segment)) (k : Z) : Z :=
  match all with [] => 0 | segs :: all' => stake_in segs k + stakes_in all' k end.
Fixpoint payments_total (L : list ended) (d : string) (all : list (list segment)) : Z :=
  match all with [] => 0 | segs :: all' => payments L d segs + payments_total L d all' end.
(** No period has more stake than the validator has tokens. *)
Definition within_tokens (L : list ended) (all : list (list segment)) : Prop :=
  ∀ i e, L !! i = Some e → stakes_in all (Z.of_nat i) <= en_tokens e * precisionReuse.
Definition good_segments (segs : list segment) : Prop := Forall (λ sg, 0 <= sg_from sg ∧ 0 <= sg_stake sg) segs.
Lemma payments_total_bound L d all : Forall ended_ok L → Forall good_segments all → within_tokens L all →
  payments_total L d all <= rewards_total L d.
Proof.
  intros HL Hall Hw. pose proof precisionReuse_pos as HP.
  assert (payments_total L d all * precisionReuse <= earned L d 0 (stakes_in all)) as H1.
  { clear Hw. induction Hall as [|segs all Hs _ IH]; cbn [payments_total stakes_in]; [by rewrite earned_zero|].
    rewrite earned_add.
    pose proof (payments_earned L d segs HL Hs). lia. }
  pose proof (earned_bound d (stakes_in all) L 0 HL) as H2. assert (earned L d 0 (stakes_in all) <= rewards_total L d * precisionReuse); [|nia].
  apply H2. intros i e Hi. rewrite Z.add_0_l. by apply Hw.
Qed.
Lemma payments_total_nonneg L d all : Forall ended_ok L → Forall good_segments all → 0 <= payments_total L d all.
Proof.
  intros HL. induction 1 as [|segs all Hs _ IH]; cbn; [lia|]. assert (0 <= payments L d segs); [|lia].
  apply payments_nonneg; [done|]. eapply Forall_impl; [exact Hs|]. by intros ? [].
Qed.
Lemma payments_each_bound L d all segs : Forall ended_ok L → Forall good_segments all → segs ∈ all → 0 <= payments L d segs <= payments_total L d all.
Proof.
  intros HL Hall Hin. revert Hall. induction Hin as [segs all|segs s2 all Hin IH]; intros [Hs Hall]%Forall_cons; cbn.
  - pose proof (payments_total_nonneg L d all HL Hall). assert (0 <= payments L d segs); [|lia].
    apply payments_nonneg; [done|]. eapply Forall_impl; [exact Hs|]. by intros ? [].
  - specialize (IH Hall). assert (0 <= payments L d s2); [|lia].
    apply payments_nonneg; [done|]. eapply Forall_impl; [exact Hs|]. by intros ? [].
Qed.
Lemma split_from evs : ∀ p stake, 0 <= p → Forall (λ sg, 0 <= sg_from sg) (split_at_slashes evs p stake).1 ∧ 0 <= (split_at_slashes evs p stake).2.1.
Proof.
  induction evs as [|ev evs IH]; intros p stake Hp; cbn; [split; [constructor|done]|]. case_match eqn:E; [|by apply IH].
  destruct (IH (ValidatorPeriod ev) (slashed stake ev)) as [H1 H2]; [lia|].
  destruct (split_at_slashes evs _ _) as [segs [q last]]. cbn in *. split; [by constructor|done].
Qed.
Lemma segments_good evs p stake to current : Forall fraction_ok evs → 0 <= p → 0 <= stake → 0 <= current →
  good_segments (segments evs p stake to current).
Proof.
  intros Hf Hp Hs Hc. pose proof (segments_nonneg evs p stake to current Hf Hs Hc) as H1. destruct (split_from evs p stake Hp) as [H2 H3].
  unfold good_segments. apply Forall_and. split; [|done]. unfold segments in *. destruct (split_at_slashes evs p stake) as [segs [q last]].
  cbn in *. apply Forall_app. split; [done|]. by apply Forall_singleton.
Qed.
