(* ===== verification/DistrStaking.v ===== *)
(** * The staking, bank and account keepers behind the distribution module

    The keepers of Staking.v, Bank.v and AuthKeeper.v as the ones that the
    distribution module calls ([distr_keepers]), and a proof that they satisfy the
    laws of [DistrLaws]: the holdings of the module are the balances of its account in
    the bank. *)
From S2P Require Import Prelude Bytes MathInt LegacyDec Coin CoinFacts DecCoin Collections Account Vesting AuthKeeper AuthProps Bank BankFacts BankProps BankDelegation Validator Staking StakingBank StakingFacts Hoare DecCoinOk Distribution DistrFacts.

(** The keepers, and the time of the block, which the context of a call carries. *)
Record ChainState := mkChainState { ch_time : Z; ch_staking : StakingState }.
Definition with_chain_staking (x : StakingState) (c : ChainState) : ChainState := mkChainState (ch_time c) x.
Definition on_staking {A} (m : GoM StakingState A) : GoM ChainState A :=
  λ c, let '(r, x) := m (ch_staking c) in (r, with_chain_staking x c).
(** A call to the bank keeper, which is given the time of the block. *)
Definition on_chain_bank {A} (m : Z → GoM BankState A) : GoM ChainState A :=
  λ c, on_staking (on_bank (m (ch_time c))) c.

Section Keepers.
Context {cfg : CoinConfig} {acfg : AddressConfig} {vcfg : ValAddressConfig}.
Definition Staking_Delegation (addrDel addrVal : string) : GoM StakingState Delegation :=
  d ← readM (λ s, Delegations s !! (addrDel, addrVal));
  liftM (match d with Some d => Ok d | None => Err ErrNotFound end).
Definition distr_keepers (bk : BaseKeeper) : DistrKeepers ChainState := {|
  dk_Validator a := v ← on_staking (GetValidator a); mret (Some v);
  dk_ValidatorByConsAddr a := v ← on_staking (GetValidatorByConsAddr a); mret (Some v);
  dk_Delegation d v := del ← on_staking (Staking_Delegation d v); mret (Some del);
  dk_BondDenom := on_staking BondDenom;
  dk_ModuleAddress n := m ← on_chain_bank (λ _, on_auth (GetModuleAccount (k_ak bk) n)); mret (macc_address <$> m);
  dk_GetAllBalances a := on_chain_bank (λ _, GetAllBalances a);
  dk_SendModuleToModule m1 m2 amt := on_chain_bank (λ t, SendCoinsFromModuleToModule bk t m1 m2 amt);
  dk_SendModuleToAccount m a amt := on_chain_bank (λ t, SendCoinsFromModuleToAccount bk t m a amt);
  dk_SendAccountToModule a m amt := on_chain_bank (λ t, SendCoinsFromAccountToModule bk t a m amt);
  dk_BlockedAddr := BlockedAddr bk;
|}.

(** The account of the module is registered, no other module has its address, and
    restrictions neither change balances nor redirect what is sent to it. *)
Class DistrBankConfig (k : BaseKeeper) : Prop := {
  db_quiet :: QuietRestrictions k;
  db_bech32 : bech32_roundtrip;
  db_registered : ∃ perms, registered (k_ak k) DistributionName perms;
  db_distinct n pa : permAddrs (k_ak k) !! n = Some pa → pa_address pa = address_Module DistributionName → n = DistributionName;
  db_direct from amt s to' s' : sendRestriction_apply k from (address_Module DistributionName) amt s = (Ok to', s') → to' = address_Module DistributionName;
  db_addr from to amt : keeps_addr (sendRestriction_apply k from to amt);
}.
End Keepers.

Section Laws.
Context {cfg : CoinConfig} {acfg : AddressConfig} {vcfg : ValAddressConfig} (k : BaseKeeper) {DB : DistrBankConfig k}.
Definition distr_addr : string := address_Module DistributionName.
Definition distr_holdings (b : BankState) (d : string) : Z := bal b distr_addr d.
Definition bank_sane (b : BankState) : Prop := store_ok b ∧ addr_ok b.
Record staking_sane (x : StakingState) : Prop := {
  ss_bank : bank_sane (stk_bank x);
  ss_validators a v : Validators x !! a = Some v → validator_sane v ∧ named a v;
  ss_delegations d a del : Delegations x !! (d, a) = Some del → delegation_named d a del;
}.
Definition chain_sane (c : ChainState) : Prop := staking_sane (ch_staking c).
Definition chain_holdings (c : ChainState) : string → Z := distr_holdings (stk_bank (ch_staking c)).

(** *** The bank *)

(** The bank is well formed and the module holds at least [f] more coins. *)
Definition holds_more (f : string → Z) (b b' : BankState) : Prop := bank_sane b' ∧ ∀ d, distr_holdings b d + f d <= distr_holdings b' d.
Lemma quiet_sane b b' : quiet b b' → addr_ok b' → bank_sane b → bank_sane b'.
Proof. intros Hq Ha [Hs _]. split; [|done]. by apply (sh_ok _ _ _ _ (quiet_shift _ _ Hq)). Qed.
Lemma quiet_holdings b b' d : quiet b b' → distr_holdings b' d = distr_holdings b d.
Proof. intros [H _]. unfold distr_holdings, bal. by rewrite H. Qed.
Lemma SendCoins_run t from to amt b r b' : SendCoins k t from to amt b = (Ok r, b') →
  ∃ to' b1, sendRestriction_apply k from to amt b = (Ok to', b1) ∧ shift (transfer_shift from to' amt) (λ _, 0) b b' ∧ valid_coins amt.
Proof.
  intros H. unfold SendCoins in H. apply GoM_bind_Ok in H as (? & s0 & [Hv%guard_err_Ok ->]%liftM_Ok & H).
  apply GoM_bind_Ok in H as (to' & s1 & Hr & H). pose proof (quiet_send _ _ _ _ _ _ Hr) as Hq.
  apply GoM_bind_Ok in H as (? & s2 & H2%subUnlockedCoins_inv & H).
  apply GoM_bind_Ok in H as (? & s3 & H3%addCoins_inv & H).
  apply GoM_bind_Ok in H as (? & s4 & [_ ->]%liftM_Ok & H).
  apply GoM_bind_Ok in H as (? & s4 & [_ ->]%liftM_Ok & H%EmitKV_quiet).
  exists to', s1. split; [done|]. split; [|by apply Coins_IsValid_spec, Bool.negb_false_iff].
  eapply shift_quiet_l; [exact Hq|]. eapply shift_quiet_r; [|exact H]. by eapply shift_transfer.
Qed.
Lemma wlp_keeps_addr {A} (m : GoM BankState A) b : keeps_addr m → addr_ok b → wlp m (λ _ b', addr_ok b') b.
Proof. intros Hm Hb r b' E. by eapply Hm. Qed.
Lemma keeps_addr_Send t from to amt : keeps_addr (SendCoins k t from to amt).
Proof.
  unfold SendCoins. apply keeps_addr_bind; [apply keeps_addr_auth, keeps_auth_liftM|]. intros _.
  apply keeps_addr_bind; [apply db_addr|]. intros to'. apply keeps_addr_auth.
  pose proof keeps_auth_subUnlockedCoins. pose proof keeps_auth_addCoins. keeps_auth_solve.
Qed.
(** A transfer lowers the holdings by the amount if it is sent by the module. *)
Lemma wlp_SendCoins t from to amt b : bank_sane b →
  wlp (SendCoins k t from to amt) (λ _ b', valid_coins amt ∧ holds_more (λ d, if decide (from = distr_addr) then - amount amt d else 0) b b') b.
Proof.
  intros [Hs Ha] r b' H. pose proof (keeps_addr_Send _ _ _ _ _ _ _ H Ha) as Ha'.
  apply SendCoins_run in H as (to' & b1 & _ & Hsh & Hv). split; [done|]. split; [by split; [eapply sh_ok|]|].
  intros d. unfold distr_holdings. rewrite (sh_bal _ _ _ _ Hsh), transfer_shift_pool. pose proof (valid_coins_amount_nonneg _ d Hv).
  repeat case_decide; lia.
Qed.
Lemma wlp_SendCoins_in t from amt b : bank_sane b → from ≠ distr_addr →
  wlp (SendCoins k t from distr_addr amt) (λ _ b', valid_coins amt ∧ holds_more (amount amt) b b') b.
Proof.
  intros [Hs Ha] Hne r b' H. pose proof (keeps_addr_Send _ _ _ _ _ _ _ H Ha) as Ha'.
  apply SendCoins_run in H as (to' & b1 & ->%db_direct & Hsh & Hv). split; [done|]. split; [by split; [eapply sh_ok|]|].
  intros d. unfold distr_holdings. rewrite (sh_bal _ _ _ _ Hsh), transfer_shift_pool. fold distr_addr.
  rewrite decide_False by done. rewrite decide_True by done. lia.
Qed.
Lemma wlp_module_account n b : bank_sane b → wlp (module_account k n)
  (λ m b', bank_sane b' ∧ quiet b b' ∧ (n = DistributionName → macc_address m = distr_addr)) b.
Proof.
  intros Hb m b' H. pose proof (module_account_quiet _ _ _ _ _ H) as Hq. pose proof (keeps_addr_module _ _ _ _ _ H (proj2 Hb)) as Ha.
  split; [by eapply quiet_sane|]. split; [done|]. intros ->. destruct db_registered as [perms Hr].
  exact (module_account_address _ _ _ _ _ _ db_bech32 Hr (proj2 Hb) H).
Qed.
Lemma module_address_distinct n a : GetModuleAddress (k_ak k) n = Some a → n ≠ DistributionName → a ≠ distr_addr.
Proof.
  unfold GetModuleAddress. intros H Hn ->. destruct (permAddrs (k_ak k) !! n) as [pa|] eqn:E; [|done]. injection H as H.
  by apply Hn, (db_distinct n pa).
Qed.
Lemma holds_more_quiet f b b1 b2 : quiet b b1 → holds_more f b1 b2 → holds_more f b b2.
Proof. intros Hq [H1 H2]. split; [done|]. intros d. rewrite <- (quiet_holdings b b1 d Hq). apply H2. Qed.
Lemma holds_more_ext f g b b' : holds_more f b b' → (∀ d, g d = f d) → holds_more g b b'.
Proof. intros [H1 H2] E. split; [done|]. intros d. by rewrite E. Qed.
Lemma wlp_ModuleToModule t n1 n2 amt b : bank_sane b →
  wlp (SendCoinsFromModuleToModule k t n1 n2 amt)
    (λ _ b', valid_coins amt ∧ holds_more (λ d, if decide (n1 = DistributionName) then - amount amt d
                                                else if decide (n2 = DistributionName) then amount amt d else 0) b b') b.
Proof.
  intros Hb. unfold SendCoinsFromModuleToModule. destruct (GetModuleAddress (k_ak k) n1) as [a|] eqn:Ea; [|by apply wlp_errM].
  apply wlp_bind. wlp_call ltac:(by apply wlp_module_account). intros m b1 (Hb1 & Hq & Hm).
  destruct (decide (n1 = DistributionName)) as [->|Hne].
  - wlp_call ltac:(by apply (wlp_SendCoins t a (macc_address m) amt b1)). intros _ b2 [Hv [Hb2 Hh]]. split; [done|].
    eapply holds_more_quiet; [exact Hq|]. split; [done|]. intros d. specialize (Hh d). pose proof (valid_coins_amount_nonneg _ d Hv).
    case_decide; lia.
  - pose proof (module_address_distinct _ _ Ea Hne) as Hna. destruct (decide (n2 = DistributionName)) as [->|Hn2].
    + rewrite Hm by done. wlp_call ltac:(by apply (wlp_SendCoins_in t a amt b1)). intros _ b2 [Hv Hh]. split; [done|].
      by eapply holds_more_quiet.
    + wlp_call ltac:(by apply (wlp_SendCoins t a (macc_address m) amt b1)). intros _ b2 [Hv [Hb2 Hh]]. split; [done|].
      eapply holds_more_quiet; [exact Hq|]. split; [done|]. intros d. specialize (Hh d). cbv beta in Hh. by rewrite decide_False in Hh.
Qed.
Lemma wlp_ModuleToAccount t n to amt b : bank_sane b →
  wlp (SendCoinsFromModuleToAccount k t n to amt)
    (λ _ b', valid_coins amt ∧ holds_more (λ d, if decide (n = DistributionName) then - amount amt d else 0) b b') b.
Proof.
  intros Hb. unfold SendCoinsFromModuleToAccount. destruct (GetModuleAddress (k_ak k) n) as [a|] eqn:Ea; [|by apply wlp_errM].
  apply wlp_bind, wlp_liftM. intros bl _. apply wlp_bind, wlp_liftM. intros _ _.
  wlp_call ltac:(by apply (wlp_SendCoins t a to amt b)). intros _ b2 [Hv [Hb2 Hh]]. split; [done|]. split; [done|].
  intros d. specialize (Hh d). pose proof (valid_coins_amount_nonneg _ d Hv). destruct (decide (n = DistributionName)) as [|Hne].
  - case_decide; lia.
  - rewrite decide_False in Hh by (by eapply module_address_distinct). lia.
Qed.
Lemma wlp_AccountToModule t from n amt b : bank_sane b → from ≠ distr_addr →
  wlp (SendCoinsFromAccountToModule k t from n amt)
    (λ _ b', valid_coins amt ∧ holds_more (λ d, if decide (n = DistributionName) then amount amt d else 0) b b') b.
Proof.
  intros Hb Hne. unfold SendCoinsFromAccountToModule. apply wlp_bind. wlp_call ltac:(by apply wlp_module_account).
  intros m b1 (Hb1 & Hq & Hm). destruct (decide (n = DistributionName)) as [->|Hn].
  - rewrite Hm by done. wlp_call ltac:(by apply (wlp_SendCoins_in t from amt b1)). intros _ b2 [Hv Hh]. split; [done|]. by eapply holds_more_quiet.
  - wlp_call ltac:(by apply (wlp_SendCoins t from (macc_address m) amt b1)). intros _ b2 [Hv [Hb2 Hh]]. split; [done|].
    eapply holds_more_quiet; [exact Hq|]. split; [done|]. intros d. specialize (Hh d). cbv beta in Hh. by rewrite decide_False in Hh.
Qed.

Lemma Coins_Add_Ok_good a b r : good_coins a → good_coins b → Coins_Add a b = Ok r → good_coins r.
Proof.
  intros Ha Hb H. destruct (Coins_Add_good a b Ha Hb) as (r' & H' & Hg & _); [|by rewrite H' in H; injection H as <-].
  intros d. destruct (safeAdd_Ok _ _ _ H) as [_ Hm]. rewrite <- Hm. eapply Coins_Add_range, H; [apply Ha|apply Hb].
Qed.
Lemma fold_balances_good entries : Forall (λ kv : string * Z, 0 < kv.2 ∧ int_range kv.2 ∧ denom_valid kv.1 = true) entries →
  ∀ cs r, good_coins cs → foldM (λ balances '(d, v), c ← NewCoin d v; Coins_Add balances [c]) cs entries = Ok r → good_coins r.
Proof.
  induction 1 as [|[d v] entries (Hv & Hr & Hd) _ IH]; intros cs r Hcs H; [by injection H as <-|].
  cbn [foldM] in H. apply outcome_bind_Ok in H as (cs' & H1 & H2). apply outcome_bind_Ok in H1 as (c & Hc & H1).
  apply NewCoin_inv in Hc as (-> & _ & _). apply (IH cs'); [|done]. apply Coins_Add_Ok_good in H1; [done|done|].
  split; [split; [by apply Forall_singleton|apply singleton_sorted]|by apply Forall_singleton].
Qed.
Lemma wlp_GetAllBalances a b : store_ok b → wlp (GetAllBalances a) (λ c b', b' = b ∧ good_coins c) b.
Proof.
  intros [Hb _]. unfold GetAllBalances. wlp. injection E as <-. split; [done|]. assert (good_coins a1) as Hg.
  { eapply fold_balances_good; [|by split; [split; constructor|constructor]|exact E0]. apply Forall_forall. intros [d v] Hin.
    unfold account_balances in Hin. rewrite merge_sort_Permutation in Hin. apply list_elem_of_omap in Hin as ([[a' d'] v'] & Hin & Hc).
    case_decide; [|done]. injection Hc as -> ->. apply elem_of_map_to_list in Hin. exact (Hb _ _ Hin). }
  rewrite Coins_Sort_id; [done|apply Hg].
Qed.

(** *** The laws *)

Lemma wlp_on_chain_bank {A} (m : Z → GoM BankState A) (Q : A → ChainState → Prop) c :
  wlp (m (ch_time c)) (λ r b, Q r (with_chain_staking (with_bank (λ _, b) (ch_staking c)) c)) (stk_bank (ch_staking c)) → wlp (on_chain_bank m) Q c.
Proof.
  intros H r c' E. unfold on_chain_bank, on_staking, on_bank in E.
  destruct (m (ch_time c) (stk_bank (ch_staking c))) as [r1 b] eqn:E1. injection E as -> <-. by apply H.
Qed.
Lemma sane_with_bank b c : chain_sane c → bank_sane b → chain_sane (with_chain_staking (with_bank (λ _, b) (ch_staking c)) c).
Proof. intros [] Hb. by split. Qed.
(** A call to the bank that keeps it well formed. *)
Lemma wlp_bank_call {A} (m : Z → GoM BankState A) (P : A → Prop) f c : chain_sane c →
  (∀ t b, bank_sane b → wlp (m t) (λ r b', P r ∧ holds_more f b b') b) →
  wlp (on_chain_bank m) (λ r c', P r ∧ chain_sane c' ∧ ∀ d, chain_holdings c d + f d <= chain_holdings c' d) c.
Proof.
  intros Hc Hm. apply wlp_on_chain_bank. wlp_call ltac:(by apply (Hm (ch_time c)), Hc). intros r b [Hr [Hb Hh]]. split; [done|].
  split; [by apply sane_with_bank|done].
Qed.
Lemma wlp_staking_read {A} (m : GoM StakingState A) (P : A → Prop) c :
  wlp m (λ r x, x = ch_staking c ∧ P r) (ch_staking c) → wlp (v ← on_staking m; mret (Some v)) (λ o c', c' = c ∧ from_option P True o) c.
Proof.
  intros H r c' E. unfold on_staking, mbind, GoM_bind in E. destruct (m (ch_staking c)) as [r1 x] eqn:E1. unfold mret, GoM_ret in E.
  destruct r1 as [v|e|p]; [|done..]. injection E as <- <-. destruct (H _ _ E1) as [-> HP]. split; [by destruct c|done].
Qed.
Lemma wlp_GetValidator a x : staking_sane x → wlp (GetValidator a) (λ v x', x' = x ∧ validator_sane v ∧ named a v) x.
Proof.
  intros Hx. unfold GetValidator. wlp. split; [done|]. destruct (Validators x !! a) as [v|] eqn:Ev; [|done]. injection E as <-. by apply Hx.
Qed.
Lemma wlp_GetValidatorByConsAddr a x : staking_sane x → wlp (GetValidatorByConsAddr a) (λ v x', x' = x ∧ validator_sane v) x.
Proof.
  intros Hx. unfold GetValidatorByConsAddr. apply wlp_bind, wlp_readM. case_match; [|apply wlp_errM].
  wlp_call ltac:(by apply wlp_GetValidator). intros v x' [-> [Hv _]]. done.
Qed.
Lemma wlp_Staking_Delegation d a x : staking_sane x → wlp (Staking_Delegation d a) (λ del x', x' = x ∧ delegation_named d a del) x.
Proof.
  intros Hx. unfold Staking_Delegation. wlp. split; [done|]. destruct (Delegations x !! (d, a)) as [del|] eqn:Ev; [|done]. injection E as <-. by apply Hx.
Qed.
Lemma wlp_chain_module_address n c : chain_sane c →
  wlp (dk_ModuleAddress (DistrKeepers := distr_keepers k) n) (λ _ c', chain_sane c' ∧ ∀ d, chain_holdings c d <= chain_holdings c' d) c.
Proof.
  intros Hc. apply wlp_bind. apply (wlp_on_chain_bank (λ _, on_auth (GetModuleAccount (k_ak k) n))). intros m b H.
  assert (bank_sane b ∧ quiet (stk_bank (ch_staking c)) b) as [Hb Hq].
  { pose proof (on_auth_quiet _ _ _ _ H) as Hq. split; [|done]. destruct Hc as [Hbank _ _]. eapply quiet_sane; [exact Hq| |exact Hbank].
    destruct m; (eapply (keeps_addr_module k n); [|apply Hbank]; unfold module_account, mbind, GoM_bind; by rewrite H). }
  apply wlp_ret. split; [by apply sane_with_bank|]. intros d. unfold chain_holdings. cbn. by rewrite (quiet_holdings _ _ _ Hq).
Qed.

#[global] Instance chain_laws : DistrLaws ChainState (distr_keepers k).
Proof.
  refine {| dl_ok := chain_sane; dl_address := distr_addr; dl_holdings := chain_holdings |}.
  - intros a x Hx. apply (wlp_staking_read (GetValidator a) (λ v, validator_sane v ∧ named a v)). by apply wlp_GetValidator.
  - intros a x Hx. apply (wlp_staking_read (GetValidatorByConsAddr a) validator_sane). by apply wlp_GetValidatorByConsAddr.
  - intros d v x Hx. apply (wlp_staking_read (Staking_Delegation d v) (delegation_named d v)). by apply wlp_Staking_Delegation.
  - intros x r x' E. cbn in E. unfold on_staking in E. destruct (BondDenom (ch_staking x)) as [r1 y] eqn:E1. injection E as -> <-.
    apply BondDenom_inv in E1 as [-> _]. by destruct x.
  - intros n x. apply wlp_chain_module_address.
  - intros a x Hx. apply wlp_on_chain_bank. wlp_call ltac:(apply wlp_GetAllBalances, Hx). intros r b [-> Hr]. split; [|done]. by destruct x as [t []].
  - intros to amt x Hx Ha. eapply wlp_mono; [apply (wlp_bank_call _ (λ _, True) (λ d, - amount amt d)); [done|]|].
    + intros t b Hb. wlp_call ltac:(by apply wlp_ModuleToAccount). intros _ b' [_ H]. split; [done|]. apply (holds_more_ext _ _ _ _ H). intros d. by rewrite decide_True.
    + intros _ c' [_ [H1 H2]]. split; [done|]. intros d. specialize (H2 d). lia.
  - intros to amt x Hx Ha. eapply wlp_mono; [apply (wlp_bank_call _ (λ _, True) (λ d, - amount amt d)); [done|]|].
    + intros t b Hb. wlp_call ltac:(by apply wlp_ModuleToModule). intros _ b' [_ H]. split; [done|]. apply (holds_more_ext _ _ _ _ H). intros d. by rewrite decide_True.
    + intros _ c' [_ [H1 H2]]. split; [done|]. intros d. specialize (H2 d). lia.
  - intros from amt x Hx Hf Ha. eapply wlp_mono; [apply (wlp_bank_call _ (λ _, True) (amount amt)); [done|]|].
    + intros t b Hb. wlp_call ltac:(by apply wlp_ModuleToModule). intros _ b' [_ H]. split; [done|]. apply (holds_more_ext _ _ _ _ H). intros d. by rewrite decide_False, decide_True.
    + by intros _ c' [_ ?].
  - intros from amt x Hx Hf Ha. eapply wlp_mono; [apply (wlp_bank_call _ (λ _, valid_coins amt) (amount amt)); [done|]|].
    + intros t b Hb. wlp_call ltac:(by apply wlp_AccountToModule). intros _ b' [Hv H]. split; [done|]. apply (holds_more_ext _ _ _ _ H). intros d. by rewrite decide_True.
    + by intros _ c' [? ?].
  - intros from amt x Hx Hf. eapply wlp_mono; [apply (wlp_bank_call _ (λ _, True) (λ _, 0)); [done|]|].
    + intros t b Hb. wlp_call ltac:(by apply wlp_AccountToModule). intros _ b' [_ H]. split; [done|]. apply (holds_more_ext _ _ _ _ H). intros d. by rewrite decide_False.
    + intros _ c' [_ [H1 H2]]. split; [done|]. intros d. specialize (H2 d). lia.
  - intros to amt x Hx. eapply wlp_mono; [apply (wlp_bank_call _ (λ _, True) (λ _, 0)); [done|]|].
    + intros t b Hb. wlp_call ltac:(by apply wlp_ModuleToAccount). intros _ b' [_ H]. split; [done|]. apply (holds_more_ext _ _ _ _ H). intros d. by rewrite decide_False.
    + intros _ c' [_ [H1 H2]]. split; [done|]. intros d. specialize (H2 d). lia.
Defined.
End Laws.
