(* ===== verification/DistrExample.v ===== *)
(** * A chain with one validator and two delegators

    A run of the distribution module over the keepers of Staking.v and Bank.v: a
    validator is created, two delegators join, fees are distributed, the validator is
    slashed, and more fees follow. *)
From stdpp Require Import relations.
From S2P Require Import Prelude Bytes MathInt LegacyDec Coin CoinFacts DecCoin Collections Account Vesting AuthKeeper AuthProps Bank BankFacts BankProps BankDelegation Validator Staking StakingBank StakingFacts StakingTheorems Hoare DecCoinOk Distribution DistrFacts DistrSolvency DistrRefs DistrHistory DistrStaking.

#[local] Existing Instance default_config.
#[local] Existing Instance acfg_id.
#[local] Existing Instance vcfg_id.
Definition FeeCollectorName : string := "fee_collector".
Definition module_permissions (name : string) : PermissionsForAddress := mkPermissionsForAddress [] (address_Module name).
Definition distr_bank : BaseKeeper :=
  mkBaseKeeper
    (mkAccountKeeper {[FeeCollectorName := module_permissions FeeCollectorName; DistributionName := module_permissions DistributionName;
                       ProtocolPoolDistrAccount := module_permissions ProtocolPoolDistrAccount]} (λ _, false))
    ∅ "gov" None (Some NoOpMintingRestrictionFn).
#[global] Instance distr_bank_config : DistrBankConfig distr_bank.
Proof.
  split.
  - split; [intros from to amt s r s' [= <- <-]|intros amt s r s' [= <- <-]]; done.
  - done.
  - exists []. do 2 (split; [done|]). solve_address.
  - intros n pa H E. cbn [permAddrs k_ak distr_bank] in H. rewrite !lookup_insert_Some, lookup_singleton_Some in H.
    destruct H as [[<- <-]|[_ [[<- <-]|[_ [<- <-]]]]]; done.
  - by intros from amt s to' s' [= <- _].
  - by intros from to amt s r s' [= _ <-].
Qed.
#[global] Instance example_keepers : DistrKeepers ChainState := distr_keepers distr_bank.
#[global] Instance example_laws : DistrLaws ChainState example_keepers := chain_laws distr_bank.

Definition val_with (tokens : Z) : Validator :=
  mkValidator "val" (Some (mkPubKey "ed25519" "val-key")) false Bonded tokens (10000000 * 10 ^ 18) 0 0 (mkCommission (10 ^ 17) 0 0 10) 1 desc0.
Definition fee_address : string := "module/fee_collector".
Definition no_accounts : AuthState := mkAuthState (mkUniqueMap ∅ ∅) (Some 0) 0.
Definition bank_fees : BankState :=
  mkBankState {["stake" := 1000]} ∅ ∅ (mkReversePairMap {[(fee_address, "stake") := 1000]} {[("stake", fee_address)]})
    (Some DefaultParams) no_accounts [].
Definition delegations0 : gmap (string * string) Delegation :=
  {[("alice", "val") := mkDelegation "alice" "val" (6000000 * 10 ^ 18); ("bob", "val") := mkDelegation "bob" "val" (4000000 * 10 ^ 18)]}.
Definition staking_with (tokens : Z) (b : BankState) : StakingState :=
  with_Delegations (λ _, delegations0) (with_ValidatorByConsensusAddress (λ _, {["cons" := "val"]})
    (with_Validators (λ _, {["val" := val_with tokens]}) (empty_staking params0 b))).
Definition chain0 : ChainState := mkChainState 0 (staking_with 10000000 bank_fees).
Lemma staking_with_sane tokens b : 0 <= tokens → bank_sane b → staking_sane (staking_with tokens b).
Proof.
  intros Ht Hb. split; [done|..]; cbn.
  - intros a v [<- <-]%lookup_singleton_Some. split; [split; cbn; lia|done].
  - intros d a del H. unfold delegations0 in H. rewrite lookup_insert_Some, lookup_singleton_Some in H.
    destruct H as [[[= <- <-] <-]|[_ [[= <- <-] <-]]]; done.
Qed.
Lemma bank_fees_sane : bank_sane bank_fees.
Proof.
  split; [|by intros a acc]. apply (bank_inv_sample bank_fees fee_address "stake" 1000); done || (unfold int_range; lia).
Qed.

Definition distr0 : DistrState ChainState := mkDistrState (Some DefaultDistrParams) (Some InitialFeePool) ∅ ∅ ∅ ∅ ∅ ∅ ∅ chain0.
Lemma distr0_solvent : solvent distr0.
Proof.
  split; try apply map_Forall_empty.
  - apply (staking_with_sane 10000000 bank_fees); [lia|apply bank_fees_sane].
  - intros p [= <-]. cbn. unfold LegacyOneDec. split; vm_compute; discriminate.
  - intros p [= <-]. apply good_dec_coins_nil.
  - intros d. unfold outstanding_total, pool_of. cbn [OutstandingRewards distr0 di_FeePool from_option]. rewrite msum_empty.
    assert (0 <= dl_holdings (di_keepers distr0) d) as H by exact (bal_nonneg bank_fees distr_addr d (proj1 bank_fees_sane)).
    change (amount (DecimalPool InitialFeePool) d) with 0. pose proof precisionReuse_pos. nia.
Qed.
Lemma distr0_counted N : 0 <= N → counted zero_extra N distr0.
Proof.
  intros HN. split; cbn; try done.
  intros v p. unfold count_of, refs, starting_refs, slash_refs, current_ref, period_of, zero_extra. cbn. rewrite !msum_empty.
  rewrite !lookup_empty. cbn. rewrite decide_False by lia. done.
Qed.

(** ** The run *)

Definition header_at (n : Z) : Header := mkHeader (n * 10 ^ 9) n.
Definition votes0 : list BondedVote := [mkBondedVote "cons" 10].
Definition distr1 := (Distr_AfterValidatorCreated "val" distr0).2.
Definition distr2 := (Distr_BeforeDelegationCreated "val" distr1).2.
Definition distr3 := (Distr_AfterDelegationModified (header_at 1) "alice" "val" distr2).2.
Definition distr4 := (Distr_BeforeDelegationCreated "val" distr3).2.
Definition distr5 := (Distr_AfterDelegationModified (header_at 1) "bob" "val" distr4).2.
Definition distr6 := (Distr_BeginBlocker (header_at 2) FeeCollectorName votes0 distr5).2.
Definition distr7 := (Distr_BeforeValidatorSlashed (header_at 2) "val" (10 ^ 17) distr6).2.
(** The staking module takes the slashed tokens, and there are more fees. *)
Definition slash_chain (c : ChainState) : ChainState :=
  mkChainState 2 (staking_with 9000000 (put_bal fee_address "stake" 500 (stk_bank (ch_staking c)))).
Definition distr8 := with_keepers (slash_chain (di_keepers distr7)) distr7.
Definition distr9 := (Distr_BeginBlocker (header_at 3) FeeCollectorName votes0 distr8).2.
Definition distr10 := (Distr_BeforeDelegationCreated "val" distr9).2.
Lemma run_eq {A} (m : GoM (DistrState ChainState) A) s r : (m s).1 = r → m s = (r, (m s).2).
Proof. intros <-. by destruct (m s). Qed.
Lemma slash_chain_sane c : chain_sane c → chain_sane (slash_chain c).
Proof.
  intros [[Hs Ha] _ _]. apply (staking_with_sane 9000000); [lia|]. split; [|exact Ha].
  eapply sh_ok; [apply put_bal_shift|exact Hs]; [lia|unfold int_range; lia|done].
Qed.
Lemma ran1 : Distr_AfterValidatorCreated "val" distr0 = (Ok tt, distr1).
Proof. unfold distr1. apply run_eq. vm_compute. reflexivity. Qed.
Lemma step1 : di_step distr0 distr1.
Proof. apply (step_created "val"); [reflexivity|exact ran1]. Qed.
Lemma ran2 : Distr_BeforeDelegationCreated "val" distr1 = (Ok tt, distr2).
Proof. unfold distr2. apply run_eq. vm_compute. reflexivity. Qed.
Lemma step2 : di_step distr1 distr2.
Proof. exact (step_before_created "val" _ _ ran2). Qed.
Lemma ran3 : Distr_AfterDelegationModified (header_at 1) "alice" "val" distr2 = (Ok tt, distr3).
Proof. unfold distr3. apply run_eq. vm_compute. reflexivity. Qed.
Lemma step3 : di_step distr2 distr3.
Proof. apply (step_after_modified (header_at 1) "alice" "val"); [vm_compute; reflexivity|exact ran3]. Qed.
Lemma ran4 : Distr_BeforeDelegationCreated "val" distr3 = (Ok tt, distr4).
Proof. unfold distr4. apply run_eq. vm_compute. reflexivity. Qed.
Lemma step4 : di_step distr3 distr4.
Proof. exact (step_before_created "val" _ _ ran4). Qed.
Lemma ran5 : Distr_AfterDelegationModified (header_at 1) "bob" "val" distr4 = (Ok tt, distr5).
Proof. unfold distr5. apply run_eq. vm_compute. reflexivity. Qed.
Lemma step5 : di_step distr4 distr5.
Proof. apply (step_after_modified (header_at 1) "bob" "val"); [vm_compute; reflexivity|exact ran5]. Qed.
Lemma votes0_good : Forall (λ v, 0 <= bv_Power v) votes0 ∧ powers votes0 < 2 ^ 63.
Proof. split; [|done]. apply Forall_singleton. cbn. lia. Qed.
Lemma fee_not_distribution : FeeCollectorName ≠ DistributionName.
Proof. done. Qed.
Lemma ran6 : Distr_BeginBlocker (header_at 2) FeeCollectorName votes0 distr5 = (Ok tt, distr6).
Proof. unfold distr6. apply run_eq. vm_compute. reflexivity. Qed.
Lemma step6 : di_step distr5 distr6.
Proof. exact (step_begin_block _ _ _ _ _ fee_not_distribution (proj1 votes0_good) (proj2 votes0_good) ran6). Qed.
Lemma ran7 : Distr_BeforeValidatorSlashed (header_at 2) "val" (10 ^ 17) distr6 = (Ok tt, distr7).
Proof. unfold distr7. apply run_eq. vm_compute. reflexivity. Qed.
Lemma step7 : di_step distr6 distr7.
Proof. exact (step_slashed _ _ _ _ _ ran7). Qed.
Lemma distr7_solvent : solvent distr7.
Proof.
  apply (di_step_solvent distr6); [|exact step7]. apply (di_step_solvent distr5); [|exact step6]. apply (di_step_solvent distr4); [|exact step5].
  apply (di_step_solvent distr3); [|exact step4]. apply (di_step_solvent distr2); [|exact step3]. apply (di_step_solvent distr1); [|exact step2].
  apply (di_step_solvent distr0); [exact distr0_solvent|exact step1].
Qed.
Lemma step8 : di_step distr7 distr8.
Proof.
  apply step_other; [apply slash_chain_sane, distr7_solvent|]. intros d. unfold dl_holdings. cbn. unfold chain_holdings, distr_holdings. cbn.
  assert (Hsh := put_bal_shift fee_address "stake" 500 (stk_bank (ch_staking (di_keepers distr7))) ltac:(lia) ltac:(unfold int_range; lia) eq_refl).
  rewrite (sh_bal _ _ _ _ Hsh). unfold at_key. rewrite decide_False by done. lia.
Qed.
Lemma ran9 : Distr_BeginBlocker (header_at 3) FeeCollectorName votes0 distr8 = (Ok tt, distr9).
Proof. unfold distr9. apply run_eq. vm_compute. reflexivity. Qed.
Lemma step9 : di_step distr8 distr9.
Proof. exact (step_begin_block _ _ _ _ _ fee_not_distribution (proj1 votes0_good) (proj2 votes0_good) ran9). Qed.
Lemma ran10 : Distr_BeforeDelegationCreated "val" distr9 = (Ok tt, distr10).
Proof. unfold distr10. apply run_eq. vm_compute. reflexivity. Qed.
Lemma step10 : di_step distr9 distr10.
Proof. exact (step_before_created "val" _ _ ran10). Qed.

(** The periods of the validator. *)
Definition period_list : list ended :=
  [mkEnded [] 10000000; mkEnded [] 10000000; mkEnded [mkDecCoin "stake" (882 * 10 ^ 18)] 10000000; mkEnded [mkDecCoin "stake" (441 * 10 ^ 18)] 9000000].
Lemma runs_same {s L s'} N M : runs "val" N s L → di_step s s' → N + 1 = M → M < 2 ^ 64 → period_of s' "val" = period_of s "val" → runs "val" M s' L.
Proof. intros H1 H2 <- H3 H4. by eapply runs_step. Qed.
Lemma runs_next {s L s'} N M w L' : runs "val" N s L → di_step s s' → N + 1 = M → M < 2 ^ 64 → period_of s' "val" = period_of s "val" + 1 →
  (dk_Validator "val" (di_keepers s)).1 = Ok (Some w) →
  L' = L ++ [mkEnded (Rewards (default (NewValidatorCurrentRewards [] 0) (CurrentRewards s !! "val"))) (Tokens w)] → runs "val" M s' L'.
Proof. intros H1 H2 <- H3 H4 H5 ->. by eapply runs_period. Qed.
Lemma run1 : runs "val" 2 distr1 [].
Proof.
  apply (runs_created "val" 1 distr0); [apply distr0_solvent|by apply distr0_counted|by intros k ev|lia|lia|reflexivity|exact ran1].
Qed.
Lemma run4 : runs "val" 5 distr4 (take 2 period_list).
Proof.
  eapply (runs_next (L := take 1 period_list) 4); [|exact step4|reflexivity|lia|vm_compute; reflexivity|vm_compute; reflexivity|vm_compute; reflexivity].
  eapply (runs_same 3); [|exact step3|reflexivity|lia|vm_compute; reflexivity].
  eapply (runs_next (L := []) 2); [exact run1|exact step2|reflexivity|lia|vm_compute; reflexivity|vm_compute; reflexivity|vm_compute; reflexivity].
Qed.
Lemma run7 : runs "val" 8 distr7 (take 3 period_list).
Proof.
  eapply (runs_next (L := take 2 period_list) 7); [|exact step7|reflexivity|lia|vm_compute; reflexivity|vm_compute; reflexivity|vm_compute; reflexivity].
  eapply (runs_same 6); [|exact step6|reflexivity|lia|vm_compute; reflexivity].
  eapply (runs_same 5); [exact run4|exact step5|reflexivity|lia|vm_compute; reflexivity].
Qed.
Lemma run10 : runs "val" 11 distr10 period_list.
Proof.
  eapply (runs_next (L := take 3 period_list) 10); [|exact step10|reflexivity|lia|vm_compute; reflexivity|vm_compute; reflexivity|vm_compute; reflexivity].
  eapply (runs_same 9); [|exact step9|reflexivity|lia|vm_compute; reflexivity].
  eapply (runs_same 8); [exact run7|exact step8|reflexivity|lia|vm_compute; reflexivity].
Qed.
Lemma distr_run : nsteps di_step 10 distr0 distr10.
Proof.
  eapply nsteps_l; [exact step1|]. eapply nsteps_l; [exact step2|]. eapply nsteps_l; [exact step3|]. eapply nsteps_l; [exact step4|].
  eapply nsteps_l; [exact step5|]. eapply nsteps_l; [exact step6|]. eapply nsteps_l; [exact step7|]. eapply nsteps_l; [exact step8|].
  eapply nsteps_l; [exact step9|]. eapply nsteps_l; [exact step10|]. apply nsteps_O.
Qed.
