(* ===== verification/DistrTheorems.v ===== *)
(** * The main theorems on the distribution module

    Its account covers what it owes, the historical records are counted exactly, the
    rewards of a delegation are those of a loop over the periods, and the delegators
    of a validator never get more than its rewards. *)
From stdpp Require Import relations.
From S2P Require Import Prelude Bytes MathInt LegacyDec Coin CoinFacts DecCoin Collections Account Vesting AuthKeeper Bank CollMap Validator Staking StakingFacts StakingTheorems Hoare DecCoinOk Distribution DistrFacts DistrSolvency DistrRefs DistrHistory DistrF1 DistrStaking DistrExample.

Section Theorems.
Context {S : Type} {dk : DistrKeepers S} {cfg : CoinConfig} {acfg : AddressConfig} {vcfg : ValAddressConfig} {DL : DistrLaws S dk}.
Implicit Types (s : DistrState S).

(** C11. The account of the distribution module always holds the coins that it owes:
    after any sequence of blocks, messages and hooks of the staking module, the
    outstanding rewards of all validators and the decimal pool together are, in every
    denomination, at most the balance of the module account. *)
Theorem module_account_solvent s s' :
  solvent s → rtc di_step s s' →
  solvent s' ∧ ∀ d, outstanding_total s' d + pool_of s' d <= dl_holdings (di_keepers s') d * precisionReuse.
Proof.
  intros Hs Hr. assert (solvent s') as Hs'.
  { revert Hs. induction Hr as [|s s1 s2 H1 _ IH]; intros Hs; [done|]. by eapply IH, di_step_solvent. }
  split; [done|]. intros d. pose proof (cv_solvent _ _ Hs' d) as H. cbv beta in H. lia.
Qed.

Lemma nsteps_counted n : ∀ N s s', solvent s → counted zero_extra N s → 0 <= N → N + Z.of_nat n < 2 ^ 64 → nsteps di_step n s s' →
  solvent s' ∧ counted zero_extra (N + Z.of_nat n) s'.
Proof.
  induction n as [|n IH]; intros N s s' Hs Hc HN Hb Hn.
  - inversion Hn; subst. split; [done|]. by replace (N + Z.of_nat 0) with N by lia.
  - inversion Hn as [|? ? s1 ? H1 H2]; subst. replace (N + Z.of_nat (Datatypes.S n)) with (N + 1 + Z.of_nat n) in * by lia.
    eapply (IH (N + 1) s1); [by eapply di_step_solvent|eapply di_step_counted; [exact Hs|done|lia|lia|done]|lia|lia|done].
Qed.
(** C14. The historical records are counted and kept exactly: along every sequence of
    steps that is too short for a period to overflow, the reference count of the
    record of a validator and a period is the number of its references by the current
    period, by starting infos and by slash events, it is at most 2, and a record
    exists exactly when something refers to it. *)
Theorem historical_records_exact n N s s' v p :
  solvent s → counted zero_extra N s → 0 <= N → N + Z.of_nat n < 2 ^ 64 → nsteps di_step n s s' →
  count_of s' v p = refs s' v p ∧ count_of s' v p <= 2 ∧ (is_Some (HistoricalRewards s' !! (v, p)) ↔ 0 < refs s' v p).
Proof.
  intros Hs Hc HN Hb Hn. destruct (nsteps_counted n N s s' Hs Hc HN Hb Hn) as [_ Hc'].
  pose proof (ct_count _ _ _ Hc' v p) as Hcount. unfold zero_extra in Hcount. split; [lia|]. unfold count_of in *.
  destruct (HistoricalRewards s' !! (v, p)) as [r|] eqn:E; cbn in Hcount |- *.
  - pose proof (ct_positive _ _ _ Hc' v p r E). split; [lia|]. split; [intros; lia|by eexists].
  - split; [lia|]. split; [by intros []|lia].
Qed.

(** C12. The rewards of a delegation are those of a loop over the periods: when the
    module has ended the periods [L] of a validator, [CalculateDelegationRewards]
    succeeds without writing and returns, for every denomination, the sum over the
    segments between the slashes of the rewards per token of their periods times the
    stake in them, the last stake being capped at what the shares are worth now; the
    stake after all slashes may exceed that worth by the 3 units of the code, and the
    amounts have to fit a decimal. *)
Theorem f1_rewards_exact h v d N s L w del info current :
  runs v N s L → well_started s v d w del (h_Height h) info current →
  let evs := slashes_since v (si_Height info) (h_Height h) s in
  let segs := segments evs (PreviousPeriod info) (Stake info) (Z.of_nat (length L)) current in
  final_stake evs (PreviousPeriod info) (Stake info) <= current + 3 → (∀ x, dec_range (payments L x segs)) →
  ∃ rewards, CalculateDelegationRewards h w del (Z.of_nat (length L)) s = (Ok rewards, s) ∧
    ∀ x, amount rewards x = payments L x segs.
Proof.
  intros Hr Hw evs segs Hf Hd. pose proof (rewards_of_history v N s L d w del h info current (runs_ok _ _ _ _ Hr) Hw Hd) as Hc.
  cbv zeta in Hc. fold evs in Hc. by rewrite (proj2 (Z.leb_le _ _) Hf) in Hc.
Qed.

(** A delegation to the validator, with what its shares are worth and the stake
    that its slashes left of the recorded one. *)
Record delegator := mkDelegator { dg_address : string; dg_delegation : Delegation; dg_info : DelegatorStartingInfo; dg_current : Z }.
Definition delegator_ok v w (h : Header) s (g : delegator) : Prop :=
  well_started s v (dg_address g) w (dg_delegation g) (h_Height h) (dg_info g) (dg_current g).
Definition slashed_stake v (h : Header) s (g : delegator) : Z :=
  final_stake (slashes_since v (si_Height (dg_info g)) (h_Height h) s) (PreviousPeriod (dg_info g)) (Stake (dg_info g)).
(** The result of the calculation for a delegation: rewards, or the error of the
    stake check, exactly when the stake left by the slashes is more than 3 units
    above what the shares are worth. *)
Definition calculation v w (h : Header) s (L : list ended) (g : delegator) (res : outcome DecCoins) : Prop :=
  CalculateDelegationRewards h w (dg_delegation g) (Z.of_nat (length L)) s = (res, s) ∧
  match res with
  | Ok _ => slashed_stake v h s g <= dg_current g + 3
  | Err e => dg_current g + 3 < slashed_stake v h s g ∧ e = "calculated final stake for delegator greater than current stake"
  | Panic _ => False
  end.
Definition delegator_segments v (h : Header) s (L : list ended) (g : delegator) : list segment :=
  segments (slashes_since v (si_Height (dg_info g)) (h_Height h) s) (PreviousPeriod (dg_info g)) (Stake (dg_info g)) (Z.of_nat (length L)) (dg_current g).
Fixpoint amounts (results : list (outcome DecCoins)) (x : string) : Z :=
  match results with [] => 0 | res :: results' => match res with Ok r => amount r x | _ => 0 end + amounts results' x end.
Lemma delegator_segments_good v N w h s L g : history_ok v N s L → delegator_ok v w h s g → good_segments (delegator_segments v h s L g).
Proof.
  intros Ho Hw. apply segments_good; [|exact (proj1 (ct_starting _ _ _ (ho_counted _ _ _ _ Ho) _ _ _ (ws_info _ _ _ _ _ _ _ _ Hw)))|apply Hw|apply Hw].
  apply Forall_fmap. eapply Forall_impl; [by eapply events_good|]. by intros ? [].
Qed.
Lemma delegators_rewards v N w h s L gs : history_ok v N s L → Forall (delegator_ok v w h s) gs →
  (∀ g x, g ∈ gs → dec_range (payments L x (delegator_segments v h s L g)) ∧ 0 <= payments L x (delegator_segments v h s L g)) →
  ∃ results, Forall2 (calculation v w h s L) gs results ∧
    ∀ x, amounts results x <= payments_total L x (delegator_segments v h s L <$> gs).
Proof.
  intros Ho. induction 1 as [|g gs Hw _ IH]; intros Hr; [by exists []|].
  pose proof (rewards_of_history v N s L _ w _ h _ _ Ho Hw (λ x, proj1 (Hr g x ltac:(by left)))) as Hc. cbv zeta in Hc.
  fold (slashed_stake v h s g) in Hc. fold (delegator_segments v h s L g) in Hc.
  destruct IH as (results & H2 & Hms); [intros g' x Hg; apply Hr; by right|].
  destruct (Z.leb_spec (slashed_stake v h s g) (dg_current g + 3)) as [Hle|Hgt].
  - destruct Hc as (r & E & Hm). exists (Ok r :: results). split; [by constructor|]. intros x. cbn. rewrite Hm. specialize (Hms x). lia.
  - eexists (Err _ :: results). split; [by constructor|]. intros x. cbn. specialize (Hms x). pose proof (proj2 (Hr g x ltac:(by left))). lia.
Qed.
(** C13. The delegators of a validator are never promised more than it earned.  Take
    delegations to a validator whose stakes in each period are together at most the
    tokens of the validator, and let the rewards of all periods fit a decimal: each
    calculation returns without writing, with rewards if the stake that the slashes
    left is at most 3 units above what the shares are worth and otherwise with the
    error of the stake check, and the rewards of the calculations that succeed
    together are at most the rewards of the periods, in every denomination. *)
Theorem delegators_never_overpaid h v N s L w gs :
  runs v N s L → Forall (delegator_ok v w h s) gs → within_tokens L (delegator_segments v h s L <$> gs) →
  (∀ x, dec_range (rewards_total L x)) →
  ∃ results, Forall2 (calculation v w h s L) gs results ∧ ∀ x, amounts results x <= rewards_total L x.
Proof.
  intros Hr Hgs Hw Hd. pose proof (runs_ok _ _ _ _ Hr) as Ho.
  assert (Forall good_segments (delegator_segments v h s L <$> gs)) as Hgood.
  { apply Forall_fmap. eapply Forall_impl; [exact Hgs|]. intros g Hg. by eapply delegator_segments_good. }
  pose proof (λ x, payments_total_bound L x _ (ho_periods _ _ _ _ Ho) Hgood Hw) as Hb.
  destruct (delegators_rewards v N w h s L gs Ho Hgs) as (rs & H2 & Hm).
  - intros g x Hg. specialize (Hb x).
    pose proof (payments_each_bound L x _ (delegator_segments v h s L g) (ho_periods _ _ _ _ Ho) Hgood ltac:(by apply list_elem_of_fmap_2)).
    split; [|lia]. eapply dec_range_between, (Hd x). lia.
  - exists rs. split; [done|]. intros x. specialize (Hm x). specialize (Hb x). lia.
Qed.
End Theorems.

(** ** The run of DistrExample.v *)

#[local] Existing Instance default_config.
#[local] Existing Instance acfg_id.
#[local] Existing Instance vcfg_id.

Lemma module_account_solvent_witness :
  rtc di_step distr0 distr10 ∧ outstanding_total distr10 "stake" = 1470 * 10 ^ 18 ∧
  solvent distr10 ∧ ∀ d, outstanding_total distr10 d + pool_of distr10 d <= dl_holdings (di_keepers distr10) d * precisionReuse.
Proof.
  assert (rtc di_step distr0 distr10) as Hr by (eapply rtc_nsteps_2, distr_run).
  split; [exact Hr|]. split; [vm_compute; reflexivity|]. exact (module_account_solvent distr0 distr10 distr0_solvent Hr).
Defined.
(** The record of the period that the slash ended is referred to by the slash. *)
Lemma historical_records_exact_witness :
  refs distr10 "val" 3 = 1 ∧
  count_of distr10 "val" 3 = refs distr10 "val" 3 ∧ count_of distr10 "val" 3 <= 2 ∧
  (is_Some (HistoricalRewards distr10 !! ("val", 3)) ↔ 0 < refs distr10 "val" 3).
Proof.
  split; [vm_compute; reflexivity|].
  apply (historical_records_exact 10 0 distr0 distr10); [exact distr0_solvent|apply distr0_counted; lia|lia|lia|exact distr_run].
Defined.

Definition alice_delegator : delegator :=
  mkDelegator "alice" (mkDelegation "alice" "val" (6000000 * 10 ^ 18)) (NewDelegatorStartingInfo 1 (6000000 * 10 ^ 18) 1) (5400000 * 10 ^ 18).
Definition bob_delegator : delegator :=
  mkDelegator "bob" (mkDelegation "bob" "val" (4000000 * 10 ^ 18)) (NewDelegatorStartingInfo 2 (4000000 * 10 ^ 18) 1) (3600000 * 10 ^ 18).
Lemma delegators_ok : Forall (delegator_ok "val" (val_with 9000000) (header_at 4) distr10) [alice_delegator; bob_delegator].
Proof.
  repeat constructor; cbn [dg_info dg_current dg_delegation dg_address alice_delegator bob_delegator]; try (vm_compute; reflexivity || discriminate);
    try (cbn; lia); apply dec_range_small; cbn; lia.
Qed.
Lemma alice_segments : delegator_segments "val" (header_at 4) distr10 period_list alice_delegator =
  [mkSegment 1 3 (6000000 * 10 ^ 18); mkSegment 3 4 (5400000 * 10 ^ 18)].
Proof. vm_compute. reflexivity. Qed.
Lemma bob_segments : delegator_segments "val" (header_at 4) distr10 period_list bob_delegator =
  [mkSegment 2 3 (4000000 * 10 ^ 18); mkSegment 3 4 (3600000 * 10 ^ 18)].
Proof. vm_compute. reflexivity. Qed.
Lemma delegators_within : within_tokens period_list (delegator_segments "val" (header_at 4) distr10 period_list <$> [alice_delegator; bob_delegator]).
Proof.
  cbn [fmap list_fmap]. rewrite alice_segments, bob_segments. intros i e Hi.
  do 4 (destruct i as [|i]; [injection Hi as <-; vm_compute; discriminate|]). done.
Qed.
Lemma period_list_range x : dec_range (rewards_total period_list x).
Proof. unfold rewards_total, period_list. cbn. repeat case_decide; apply dec_range_small; lia. Qed.
Lemma alice_range x : dec_range (payments period_list x (delegator_segments "val" (header_at 4) distr10 period_list alice_delegator)).
Proof.
  pose proof (runs_ok _ _ _ _ run10) as Ho. pose proof delegators_ok as Hd. pose proof delegators_within as Hw.
  assert (Forall good_segments (delegator_segments "val" (header_at 4) distr10 period_list <$> [alice_delegator; bob_delegator])) as Hg.
  { apply Forall_fmap. eapply Forall_impl; [exact Hd|]. intros g. by apply delegator_segments_good with (1 := Ho). }
  eapply dec_range_between, (period_list_range x). pose proof (payments_total_bound period_list x _ (ho_periods _ _ _ _ Ho) Hg Hw).
  pose proof (payments_each_bound period_list x _ (delegator_segments "val" (header_at 4) distr10 period_list alice_delegator) (ho_periods _ _ _ _ Ho) Hg ltac:(by left)). lia.
Qed.
(** Alice gets 6/10 of 882 and 5.4/9 of 441. *)
Lemma f1_rewards_exact_witness :
  ∃ rewards, CalculateDelegationRewards (header_at 4) (val_with 9000000) (dg_delegation alice_delegator) 4 distr10 = (Ok rewards, distr10) ∧
    amount rewards "stake" = 793800000000000000000.
Proof.
  destruct (f1_rewards_exact (header_at 4) "val" "alice" 11 distr10 period_list (val_with 9000000)
    (dg_delegation alice_delegator) (dg_info alice_delegator) (dg_current alice_delegator)) as (rewards & E & Hm).
  - exact run10.
  - exact (Forall_inv delegators_ok).
  - vm_compute. discriminate.
  - exact alice_range.
  - exists rewards. split; [exact E|]. rewrite Hm. vm_compute. reflexivity.
Defined.
Lemma delegators_never_overpaid_witness :
  ∃ results, Forall2 (calculation "val" (val_with 9000000) (header_at 4) distr10 period_list) [alice_delegator; bob_delegator] results ∧
    is_ok <$> results = [true; true] ∧ ∀ x, amounts results x <= rewards_total period_list x.
Proof.
  destruct (delegators_never_overpaid (header_at 4) "val" 11 distr10 period_list (val_with 9000000) [alice_delegator; bob_delegator]
    run10 delegators_ok delegators_within period_list_range) as (results & H2 & Hb).
  exists results. split; [exact H2|]. split; [|exact Hb].
  inversion_clear H2 as [|? ra ? ? [_ Ha] H2']. inversion_clear H2' as [|? rb ? ? [_ Hb'] H2'']. inversion_clear H2''.
  destruct ra as [ra|ea|pa]; [|destruct Ha as [Ha _]; exfalso; revert Ha; vm_compute; discriminate|destruct Ha].
  destruct rb as [rb|eb|pb]; [|destruct Hb' as [Hb' _]; exfalso; revert Hb'; vm_compute; discriminate|destruct Hb']. reflexivity.
Defined.

(** ** A genesis state that is not solvent *)

(** The check of [InitGenesis] compares the balances and what is owed with
    [IsAllLT], which only holds if every denomination is short: a module that owes
    10 atom and 10 stake and holds 20 stake passes. *)
Definition bank_short : BankState :=
  mkBankState {["stake" := 20]} ∅ ∅ (mkReversePairMap {[("module/distribution", "stake") := 20]} {[("stake", "module/distribution")]})
    (Some DefaultParams) no_accounts [].
Definition short0 : DistrState ChainState := mkDistrState None None ∅ ∅ ∅ ∅ ∅ ∅ ∅ (mkChainState 0 (staking_with 10000000 bank_short)).
Definition short_genesis : DistrGenesis :=
  mkDistrGenesis DefaultDistrParams InitialFeePool []
    [("val", [mkDecCoin "atom" (10 * 10 ^ 18); mkDecCoin "stake" (10 * 10 ^ 18)])] [] [] [] [] [].
Lemma insolvent_genesis_accepted :
  DistrGenesis_Validate short_genesis = Ok tt ∧
  ∃ s', Distr_InitGenesis short_genesis short0 = (Ok tt, s') ∧ ¬ solvent s'.
Proof.
  split; [reflexivity|]. exists (Distr_InitGenesis short_genesis short0).2. split; [apply run_eq; vm_compute; reflexivity|].
  intros Hs. pose proof (cv_solvent _ _ Hs "atom") as H. revert H. vm_compute. intros H. by apply H.
Qed.
