(* ===== verification/Gov.v ===== *)
(** * Gov: proposals, deposits and votes (x/gov)

    A proposal collects deposits; with enough of them its voting period starts,
    and at its end the votes are tallied by stake, the deposits are refunded or
    burned and the messages of a proposal that passed are executed.  Models the data
    and validation of types/v1 and the keeper (proposal.go, deposit.go, vote.go,
    keeper.go, config.go); the tally is in GovTally.v, the end of a block, the
    message server and the import of a genesis state in GovBlock.v.

    The state is the collections of the module and the state behind the interfaces
    of types/expected_keepers.go ([GovKeepers]).  The messages of proposals belong to
    the application ([GovMessages]), as do their execution, the hooks and the
    legacy handlers ([GovApp]).  Decoding a stored proposal does not fail, events
    are always emitted, and gas is counted by [ga_out_of_gas] only. *)
From S2P Require Import Prelude MathInt LegacyDec DecString Coin Collections Account Bank Validator Staking.

Definition GovName : string := "gov".
Definition PoolModuleName : string := "protocolpool".
Definition ErrInactiveProposal : string := "inactive proposal".
Definition ErrInvalidProposalContent : string := "invalid proposal content".
Definition ErrInvalidProposalType : string := "invalid proposal type".
Definition ErrInvalidVote : string := "invalid vote option".
Definition ErrNoProposalHandlerExists : string := "no handler exists for proposal type".
Definition ErrUnroutableProposalMsg : string := "proposal message not recognized by router".
Definition ErrNoProposalMsgs : string := "no messages proposed".
Definition ErrInvalidProposalMsg : string := "invalid proposal message".
Definition ErrInvalidSigner : string := "expected authority account as only signer for proposal message".
Definition ErrMetadataTooLong : string := "metadata too long".
Definition ErrMinDepositTooSmall : string := "minimum deposit is too small".
Definition ErrInvalidProposer : string := "invalid proposer".
Definition ErrVotingPeriodEnded : string := "voting period already ended".
Definition ErrInvalidProposal : string := "invalid proposal".
Definition ErrSummaryTooLong : string := "summary too long".
Definition ErrInvalidDepositDenom : string := "invalid deposit denom".
Definition ErrTitleTooLong : string := "title too long".
Definition ErrTooLateToCancel : string := "too late to cancel proposal".
Definition ErrTooManyVoteOptions : string := "too many weighted vote options".
Definition nil_pointer : string := "nil pointer dereference".

(** ** Data: types/v1 *)

Inductive ProposalStatus := StatusNil | StatusDepositPeriod | StatusVotingPeriod | StatusPassed | StatusRejected | StatusFailed.
#[global] Instance ProposalStatus_eq_dec : EqDecision ProposalStatus.
Proof. solve_decision. Defined.
Inductive ProposalType :=
| PROPOSAL_TYPE_UNSPECIFIED | PROPOSAL_TYPE_STANDARD | PROPOSAL_TYPE_MULTIPLE_CHOICE | PROPOSAL_TYPE_OPTIMISTIC | PROPOSAL_TYPE_EXPEDITED.
#[global] Instance ProposalType_eq_dec : EqDecision ProposalType.
Proof. solve_decision. Defined.
(** [OptionYes], [OptionAbstain], [OptionNo] and [OptionNoWithVeto] are the other
    names of the four options. *)
Inductive VoteOption := OptionEmpty | OptionOne | OptionTwo | OptionThree | OptionFour | OptionSpam.
#[global] Instance VoteOption_eq_dec : EqDecision VoteOption.
Proof. solve_decision. Defined.
Definition VoteOption_number (o : VoteOption) : nat :=
  match o with OptionEmpty => 0 | OptionOne => 1 | OptionTwo => 2 | OptionThree => 3 | OptionFour => 4 | OptionSpam => 5 end.
Definition VoteOption_of (n : nat) : option VoteOption :=
  [OptionEmpty; OptionOne; OptionTwo; OptionThree; OptionFour; OptionSpam] !! n.
#[global] Instance VoteOption_countable : Countable VoteOption :=
  inj_countable VoteOption_number VoteOption_of ltac:(by intros []).
Definition OptionYes : VoteOption := OptionOne.
Definition OptionAbstain : VoteOption := OptionTwo.
Definition OptionNo : VoteOption := OptionThree.
Definition OptionNoWithVeto : VoteOption := OptionFour.
Definition ValidVoteOption (o : VoteOption) : bool := negb (bool_decide (o = OptionEmpty)).

(** The weight is a decimal string. *)
Record WeightedVoteOption := mkWeighted { wo_Option : VoteOption; wo_Weight : string }.
Definition ValidWeightedVoteOption (option : WeightedVoteOption) : bool :=
  match LegacyNewDecFromStr (wo_Weight option) with
  | Ok weight => if negb (Dec_IsPositive weight) || Dec_GT weight LegacyOneDec then false else ValidVoteOption (wo_Option option)
  | _ => false
  end.
Definition NewNonSplitVoteOption (o : VoteOption) : list WeightedVoteOption := [mkWeighted o (Dec_String LegacyOneDec)].

Record Vote := NewVote { v_ProposalId : Z; v_Voter : string; v_Options : list WeightedVoteOption; v_Metadata : string }.
Record Deposit := NewDeposit { d_ProposalId : Z; d_Depositor : string; d_Amount : Coins }.
Record ProposalVoteOptions := mkVoteOptions { po_One : string; po_Two : string; po_Three : string; po_Four : string; po_Spam : string }.
(** The counts of the options; the fields with the former names repeat them. *)
Record TallyResult := NewTallyResult { tr_One : Z; tr_Two : Z; tr_Three : Z; tr_Four : Z; tr_Spam : Z }.
Definition EmptyTallyResult : TallyResult := NewTallyResult 0 0 0 0 0.

(** Periods are durations in nanoseconds, nil or given. *)
Record GovParams := mkGovParams {
  gp_MinDeposit : Coins;
  gp_ExpeditedMinDeposit : Coins;
  gp_MaxDepositPeriod : option Z;
  gp_VotingPeriod : option Z;
  gp_ExpeditedVotingPeriod : option Z;
  gp_Quorum : string;
  gp_YesQuorum : string;
  gp_ExpeditedQuorum : string;
  gp_Threshold : string;
  gp_ExpeditedThreshold : string;
  gp_VetoThreshold : string;
  gp_MinInitialDepositRatio : string;
  gp_ProposalCancelRatio : string;
  gp_ProposalCancelDest : string;
  gp_ProposalCancelMaxPeriod : string;
  gp_BurnProposalDepositPrevote : bool;
  gp_BurnVoteQuorum : bool;
  gp_BurnVoteVeto : bool;
  gp_MinDepositRatio : string;
  gp_OptimisticRejectedThreshold : string;
  gp_OptimisticAuthorizedAddresses : list string;
  gp_ProposalExecutionGas : Z
}.
Record MessageBasedParams := mkMessageBasedParams {
  mp_VotingPeriod : option Z;
  mp_Quorum : string;
  mp_YesQuorum : string;
  mp_Threshold : string;
  mp_VetoThreshold : string
}.
#[global] Instance MessageBasedParams_eq_dec : EqDecision MessageBasedParams.
Proof. solve_decision. Defined.

(** ** types/v1/params.go *)

(** A decimal string between zero and one; zero is allowed or not. *)
Definition check_fraction (zero_ok : bool) (str what : string) : outcome Z :=
  x ← LegacyNewDecFromStr str;
  _ ← guard_err (if zero_ok then Dec_IsNegative x else negb (Dec_IsPositive x)) (what +:+ " must be positive")%string;
  _ ← guard_err (Dec_GT x LegacyOneDec) (what +:+ " too large")%string;
  Ok x.
Definition check_period (period : option Z) (what : string) : outcome Z :=
  match period with
  | None => Err (what +:+ " must not be nil")%string
  | Some p => _ ← guard_err (p <=? 0) (what +:+ " must be positive")%string; Ok p
  end.
Section Params.
Context {cfg : CoinConfig} {acfg : AddressConfig}.
Definition GovParams_ValidateBasic (p : GovParams) : outcome unit :=
  _ ← guard_err (Coins_Empty (gp_MinDeposit p) || negb (Coins_IsValid (gp_MinDeposit p))) "invalid minimum deposit";
  _ ← guard_err (Coins_Empty (gp_ExpeditedMinDeposit p) || negb (Coins_IsValid (gp_ExpeditedMinDeposit p))) "invalid expedited minimum deposit";
  le ← Coins_IsAllLTE (gp_ExpeditedMinDeposit p) (gp_MinDeposit p);
  _ ← guard_err le "expedited minimum deposit must be greater than minimum deposit";
  _ ← check_period (gp_MaxDepositPeriod p) "maximum deposit period";
  _ ← check_fraction true (gp_Quorum p) "quorum";
  _ ← check_fraction true (gp_YesQuorum p) "yes_quorum";
  _ ← check_fraction true (gp_ExpeditedQuorum p) "expedited_quorum";
  threshold ← check_fraction false (gp_Threshold p) "vote threshold";
  expeditedThreshold ← check_fraction false (gp_ExpeditedThreshold p) "expedited vote threshold";
  _ ← guard_err (Dec_LTE expeditedThreshold threshold) "expedited vote threshold must be greater than the regular threshold";
  _ ← check_fraction false (gp_VetoThreshold p) "veto threshold";
  _ ← check_fraction false (gp_OptimisticRejectedThreshold p) "optimistic rejected threshold";
  votingPeriod ← check_period (gp_VotingPeriod p) "voting period";
  expeditedPeriod ← check_period (gp_ExpeditedVotingPeriod p) "expedited voting period";
  _ ← guard_err (votingPeriod <=? expeditedPeriod) "expedited voting period must be strictly less than the regular voting period";
  _ ← forM_ (λ addr, match StringToBytes addr with Err _ => Err "invalid optimistic authorized address" | Panic x => Panic x | Ok _ => Ok tt end)
        (gp_OptimisticAuthorizedAddresses p);
  _ ← check_fraction true (gp_MinInitialDepositRatio p) "minimum initial deposit ratio of proposal";
  _ ← check_fraction true (gp_ProposalCancelRatio p) "burn rate of cancel proposal";
  _ ← check_fraction true (gp_ProposalCancelMaxPeriod p) "max cancel period of cancel proposal";
  _ ← (if str_eq (gp_ProposalCancelDest p) "" then Ok tt
       else match StringToBytes (gp_ProposalCancelDest p) with Err _ => Err "deposits destination address is invalid" | Panic x => Panic x | Ok _ => Ok tt end);
  guard_err (gp_ProposalExecutionGas p =? 0) "proposal execution gas must be positive".
End Params.
Definition MessageBasedParams_ValidateBasic (p : MessageBasedParams) : outcome unit :=
  _ ← check_period (mp_VotingPeriod p) "voting period";
  _ ← check_fraction true (mp_Quorum p) "quorum";
  _ ← check_fraction true (mp_YesQuorum p) "yes_quorum";
  _ ← check_fraction false (mp_VetoThreshold p) "veto threshold";
  _ ← check_fraction false (mp_Threshold p) "vote threshold";
  Ok tt.
(** An empty string counts as zero. *)
Definition dec_or_zero (str what : string) : outcome Z :=
  match LegacyNewDecFromStr str with
  | Err e => if str_eq e ErrLegacyEmptyDecimalStr then Ok LegacyZeroDec else Err (what +:+ " string is invalid")%string
  | r => r
  end.
(** The code compares the voting periods as seconds in floating point. *)
Definition MessageBasedParams_Equal (p params : MessageBasedParams) : outcome bool :=
  if negb (bool_decide (mp_VotingPeriod p = mp_VotingPeriod params)) then Ok false
  else
    forallM (λ x : (MessageBasedParams → string) * string,
               a ← dec_or_zero (x.1 p) x.2; b ← dec_or_zero (x.1 params) x.2; Ok (Dec_Equal a b))
      [(mp_Quorum, "quorum"); (mp_YesQuorum, "yes quorum"); (mp_Threshold, "vote threshold"); (mp_VetoThreshold, "veto threshold")].

(** ** The messages of proposals

    What the module asks of a message: its type URL, its own validation (a message
    without the method is valid), its signers and, of a [MsgExecLegacyContent], its
    authority and content.  Of the content of a legacy proposal it asks the type,
    which has to be registered, the title, the description and its validation.
    [ParseMetadata] is the JSON object of a metadata string: its title and
    summary. *)
Class GovMessages := {
  gMsg : Type;
  gContent : Type;
  MsgTypeURL : gMsg → string;
  Msg_ValidateBasic : gMsg → outcome unit;
  GetMsgSigners : gMsg → outcome (list string);
  as_ExecLegacyContent : gMsg → option (string * option gContent);
  ProposalRoute : gContent → string;
  Content_valid_type : gContent → bool;
  Content_ValidateBasic : gContent → outcome unit;
  Content_Title : gContent → string;
  Content_Description : gContent → string;
  NewLegacyContent : gContent → string → outcome gMsg;
  ParseMetadata : string → option (string * string);
}.

(** Times are nanoseconds; nil is [None]. *)
Record Proposal `{GovMessages} := mkProposal {
  p_Id : Z;
  p_Messages : list gMsg;
  p_Status : ProposalStatus;
  p_FinalTallyResult : TallyResult;
  p_SubmitTime : option Z;
  p_DepositEndTime : option Z;
  p_TotalDeposit : Coins;
  p_VotingStartTime : option Z;
  p_VotingEndTime : option Z;
  p_Metadata : string;
  p_Title : string;
  p_Summary : string;
  p_Proposer : string;
  p_Expedited : bool;
  p_FailedReason : string;
  p_ProposalType : ProposalType
}.
Arguments mkProposal {_}.

Section ProposalData.
Context {GM : GovMessages}.
Definition set_TotalDeposit (c : Coins) (p : Proposal) : Proposal :=
  mkProposal (p_Id p) (p_Messages p) (p_Status p) (p_FinalTallyResult p) (p_SubmitTime p) (p_DepositEndTime p) c (p_VotingStartTime p)
    (p_VotingEndTime p) (p_Metadata p) (p_Title p) (p_Summary p) (p_Proposer p) (p_Expedited p) (p_FailedReason p) (p_ProposalType p).
Definition set_VotingPeriod (startTime endTime : Z) (p : Proposal) : Proposal :=
  mkProposal (p_Id p) (p_Messages p) StatusVotingPeriod (p_FinalTallyResult p) (p_SubmitTime p) (p_DepositEndTime p) (p_TotalDeposit p)
    (Some startTime) (Some endTime) (p_Metadata p) (p_Title p) (p_Summary p) (p_Proposer p) (p_Expedited p) (p_FailedReason p)
    (p_ProposalType p).
Definition set_Closed (st : ProposalStatus) (reason : string) (p : Proposal) : Proposal :=
  mkProposal (p_Id p) (p_Messages p) st (p_FinalTallyResult p) (p_SubmitTime p) (p_DepositEndTime p) (p_TotalDeposit p)
    (p_VotingStartTime p) (p_VotingEndTime p) (p_Metadata p) (p_Title p) (p_Summary p) (p_Proposer p) (p_Expedited p) reason
    (p_ProposalType p).
(** The proposal becomes a standard one, with a new end of its voting period. *)
Definition set_Standard (endTime : Z) (p : Proposal) : Proposal :=
  mkProposal (p_Id p) (p_Messages p) (p_Status p) (p_FinalTallyResult p) (p_SubmitTime p) (p_DepositEndTime p) (p_TotalDeposit p)
    (p_VotingStartTime p) (Some endTime) (p_Metadata p) (p_Title p) (p_Summary p) (p_Proposer p) (p_Expedited p) (p_FailedReason p)
    PROPOSAL_TYPE_STANDARD.
Definition set_FinalTallyResult (t : TallyResult) (p : Proposal) : Proposal :=
  mkProposal (p_Id p) (p_Messages p) (p_Status p) t (p_SubmitTime p) (p_DepositEndTime p) (p_TotalDeposit p) (p_VotingStartTime p)
    (p_VotingEndTime p) (p_Metadata p) (p_Title p) (p_Summary p) (p_Proposer p) (p_Expedited p) (p_FailedReason p) (p_ProposalType p).

(** Packing the messages does not fail. *)
Definition NewProposal (messages : list gMsg) (id submitTime depositEndTime : Z) (metadata title summary proposer : string)
    (proposalType : ProposalType) : Proposal :=
  let proposalType := match proposalType with PROPOSAL_TYPE_UNSPECIFIED => PROPOSAL_TYPE_STANDARD | t => t end in
  mkProposal id messages StatusDepositPeriod EmptyTallyResult (Some submitTime) (Some depositEndTime) [] None None metadata title summary
    proposer (bool_decide (proposalType = PROPOSAL_TYPE_EXPEDITED)) "" proposalType.
Definition GetMinDepositFromParams (p : Proposal) (params : GovParams) : Coins :=
  if decide (p_ProposalType p = PROPOSAL_TYPE_EXPEDITED) then gp_ExpeditedMinDeposit params else gp_MinDeposit params.
Definition is_open (p : Proposal) : bool :=
  bool_decide (p_Status p = StatusDepositPeriod) || bool_decide (p_Status p = StatusVotingPeriod).
End ProposalData.

(** ** State *)

(** types/expected_keepers.go, the methods the module calls, and the time of the
    block.  [None] is nil; an iteration that never stops is the list of what it
    visits. *)
Class GovKeepers (S : Type) := {
  gk_Time : S → Z;
  gk_GovAccount : GoM S (option string);
  gk_SetModuleAccount : GoM S unit;
  gk_ModuleAddress : string → option string;
  gk_GetAllBalances : string → GoM S Coins;
  gk_SendModuleToAccount : string → string → Coins → GoM S unit;
  gk_SendAccountToModule : string → string → Coins → GoM S unit;
  gk_BurnCoins : string → Coins → GoM S unit;
  gk_FundCommunityPool : Coins → string → GoM S unit;
  gk_BondedValidators : GoM S (list Validator);
  gk_Delegations : string → GoM S (list Delegation);
  gk_TotalBondedTokens : GoM S Z;
}.

(** The queues are maps whose value repeats the proposal of the key.  The sequence
    of proposals starts at zero unless it was set. *)
Record GovState `{GovMessages} {S : Type} := mkGovState {
  gs_Constitution : option string;
  gs_Params : option GovParams;
  gs_MessageBasedParams : gmap string MessageBasedParams;
  gs_Deposits : gmap (Z * string) Deposit;
  gs_Votes : gmap (Z * string) Vote;
  gs_ProposalID : Z;
  gs_Proposals : gmap Z Proposal;
  gs_ProposalVoteOptions : gmap Z ProposalVoteOptions;
  gs_Active : gset (Z * Z);
  gs_Inactive : gset (Z * Z);
  gs_keepers : S
}.
Arguments GovState {_} S.
Arguments mkGovState {_ _}.

Section StateUpdates.
Context {GM : GovMessages} {S : Type}.
Implicit Types s : GovState S.
Definition with_Constitution (x : string) s : GovState S :=
  mkGovState (Some x) (gs_Params s) (gs_MessageBasedParams s) (gs_Deposits s) (gs_Votes s) (gs_ProposalID s) (gs_Proposals s)
    (gs_ProposalVoteOptions s) (gs_Active s) (gs_Inactive s) (gs_keepers s).
Definition with_Params (x : GovParams) s : GovState S :=
  mkGovState (gs_Constitution s) (Some x) (gs_MessageBasedParams s) (gs_Deposits s) (gs_Votes s) (gs_ProposalID s) (gs_Proposals s)
    (gs_ProposalVoteOptions s) (gs_Active s) (gs_Inactive s) (gs_keepers s).
Definition with_MessageBasedParams (f : gmap string MessageBasedParams → gmap string MessageBasedParams) s : GovState S :=
  mkGovState (gs_Constitution s) (gs_Params s) (f (gs_MessageBasedParams s)) (gs_Deposits s) (gs_Votes s) (gs_ProposalID s)
    (gs_Proposals s) (gs_ProposalVoteOptions s) (gs_Active s) (gs_Inactive s) (gs_keepers s).
Definition with_Deposits (f : gmap (Z * string) Deposit → gmap (Z * string) Deposit) s : GovState S :=
  mkGovState (gs_Constitution s) (gs_Params s) (gs_MessageBasedParams s) (f (gs_Deposits s)) (gs_Votes s) (gs_ProposalID s)
    (gs_Proposals s) (gs_ProposalVoteOptions s) (gs_Active s) (gs_Inactive s) (gs_keepers s).
Definition with_Votes (f : gmap (Z * string) Vote → gmap (Z * string) Vote) s : GovState S :=
  mkGovState (gs_Constitution s) (gs_Params s) (gs_MessageBasedParams s) (gs_Deposits s) (f (gs_Votes s)) (gs_ProposalID s)
    (gs_Proposals s) (gs_ProposalVoteOptions s) (gs_Active s) (gs_Inactive s) (gs_keepers s).
Definition with_ProposalID (x : Z) s : GovState S :=
  mkGovState (gs_Constitution s) (gs_Params s) (gs_MessageBasedParams s) (gs_Deposits s) (gs_Votes s) x (gs_Proposals s)
    (gs_ProposalVoteOptions s) (gs_Active s) (gs_Inactive s) (gs_keepers s).
Definition with_Proposals (f : gmap Z Proposal → gmap Z Proposal) s : GovState S :=
  mkGovState (gs_Constitution s) (gs_Params s) (gs_MessageBasedParams s) (gs_Deposits s) (gs_Votes s) (gs_ProposalID s)
    (f (gs_Proposals s)) (gs_ProposalVoteOptions s) (gs_Active s) (gs_Inactive s) (gs_keepers s).
Definition with_VoteOptions (f : gmap Z ProposalVoteOptions → gmap Z ProposalVoteOptions) s : GovState S :=
  mkGovState (gs_Constitution s) (gs_Params s) (gs_MessageBasedParams s) (gs_Deposits s) (gs_Votes s) (gs_ProposalID s) (gs_Proposals s)
    (f (gs_ProposalVoteOptions s)) (gs_Active s) (gs_Inactive s) (gs_keepers s).
Definition with_Active (f : gset (Z * Z) → gset (Z * Z)) s : GovState S :=
  mkGovState (gs_Constitution s) (gs_Params s) (gs_MessageBasedParams s) (gs_Deposits s) (gs_Votes s) (gs_ProposalID s) (gs_Proposals s)
    (gs_ProposalVoteOptions s) (f (gs_Active s)) (gs_Inactive s) (gs_keepers s).
Definition with_Inactive (f : gset (Z * Z) → gset (Z * Z)) s : GovState S :=
  mkGovState (gs_Constitution s) (gs_Params s) (gs_MessageBasedParams s) (gs_Deposits s) (gs_Votes s) (gs_ProposalID s) (gs_Proposals s)
    (gs_ProposalVoteOptions s) (gs_Active s) (f (gs_Inactive s)) (gs_keepers s).
Definition with_gov_keepers (x : S) s : GovState S :=
  mkGovState (gs_Constitution s) (gs_Params s) (gs_MessageBasedParams s) (gs_Deposits s) (gs_Votes s) (gs_ProposalID s) (gs_Proposals s)
    (gs_ProposalVoteOptions s) (gs_Active s) (gs_Inactive s) x.
(** A call to another keeper. *)
Definition on_gov_keepers {A} (m : GoM S A) : GoM (GovState S) A :=
  λ s, let '(r, x) := m (gs_keepers s) in (r, with_gov_keepers x s).
Definition gs_get {A} (f : GovState S → option A) : GoM (GovState S) A :=
  o ← readM f; liftM (match o with Some a => Ok a | None => Err ErrNotFound end).
(** [*p] of a pointer. *)
Definition deref {A} (p : option A) : GoM (GovState S) A :=
  liftM (match p with Some a => Ok a | None => Panic nil_pointer end).
(** runtime/branch.go: the writes of a call that fails are dropped. *)
Definition BranchService_Execute {A} (f : GoM (GovState S) A) : GoM (GovState S) A :=
  λ s, match f s with (Ok a, s') => (Ok a, s') | (r, _) => (r, s) end.
End StateUpdates.

(** ** The application *)

Record GovHooks `{GovMessages} {S : Type} := mkGovHooks {
  AfterProposalSubmission : Z → GoM (GovState S) unit;
  AfterProposalDeposit : Z → string → GoM (GovState S) unit;
  AfterProposalVote : Z → string → GoM (GovState S) unit;
  AfterProposalFailedMinDeposit : Z → GoM (GovState S) unit;
  AfterProposalVotingPeriodEnded : Z → GoM (GovState S) unit
}.
Arguments GovHooks {_} S.
(** keeper/config.go; the calculation of the votes is the default one. *)
Record GovConfig := mkGovConfig { MaxTitleLen : Z; MaxMetadataLen : Z; MaxSummaryLen : Z; MaxVoteOptionsLen : Z }.
Definition DefaultGovConfig : GovConfig := mkGovConfig 255 255 10200 0.
(** [NewKeeper]: a length that is not set gets its default. *)
Definition config_with_defaults (c : GovConfig) : GovConfig :=
  let set (f : GovConfig → Z) := if f c =? 0 then f DefaultGovConfig else f c in
  mkGovConfig (set MaxTitleLen) (set MaxMetadataLen) (set MaxSummaryLen) (set MaxVoteOptionsLen).

(** What the application gives the keeper: the message router, with the response
    of a message as its JSON encoding, the legacy router, the hooks in their order,
    the authority and the configuration.  [ga_out_of_gas limit messages s]: executing
    the messages in [s] takes more gas than the limit.  [ga_range] is the order in
    which the runtime visits the keys of a map. *)
Class GovApp `{GovMessages} (S : Type) := {
  ga_CanInvoke : string → outcome unit;
  ga_Invoke : gMsg → GoM (GovState S) string;
  ga_legacyRouter : gmap string (gContent → GoM (GovState S) unit);
  ga_hooks : list (GovHooks S);
  ga_authority : string;
  ga_config : GovConfig;
  ga_out_of_gas : Z → list gMsg → GovState S → bool;
  ga_range : ∀ {V}, gmap string V → list (string * V);
}.

Section Hooks.
Context {GM : GovMessages} {S : Type}.
(** types/hooks.go: every hook is called, also after one failed; the errors are
    joined. *)
Fixpoint join_errors (calls : list (GoM (GovState S) unit)) : GoM (GovState S) unit :=
  match calls with
  | [] => mret tt
  | f :: fs => λ s,
      match f s with
      | (Ok _, s1) => join_errors fs s1
      | (Panic p, s1) => (Panic p, s1)
      | (Err e, s1) =>
          match join_errors fs s1 with
          | (Ok _, s2) => (Err e, s2)
          | (Err e2, s2) => (Err (e +:+ String (Ascii.ascii_of_N 10) e2)%string, s2)
          | r => r
          end
      end
  end.
End Hooks.

Section GovKeeper.
Context {GM : GovMessages} {S : Type} {gk : GovKeepers S} {ga : GovApp S} {cfg : CoinConfig} {acfg : AddressConfig}.
#[local] Abbreviation M := (GoM (GovState S)).

Definition Time : M Z := readM (λ s, gk_Time (gs_keepers s)).
Definition GetGovernanceAccount : M string := a ← on_gov_keepers gk_GovAccount; deref a.
(** [types.ModuleName]'s address; nil bytes are the empty string. *)
Definition ModuleAccountAddress : string := default "" (gk_ModuleAddress GovName).

(** ** keeper/keeper.go *)

Definition str_len (s : string) : Z := Z.of_nat (String.length s).
Definition assertTitleLength (title : string) : outcome unit :=
  _ ← guard_err (str_len title =? 0) "proposal title cannot be empty";
  guard_err (MaxTitleLen ga_config <? str_len title) ErrTitleTooLong.
Definition assertMetadataLength (metadata : string) : outcome unit :=
  guard_err (MaxMetadataLen ga_config <? str_len metadata) ErrMetadataTooLong.
Definition assertSummaryLength (summary : string) : outcome unit :=
  _ ← guard_err (str_len summary =? 0) "proposal summary cannot be empty";
  guard_err (MaxSummaryLen ga_config <? str_len summary) ErrSummaryTooLong.
Definition assertVoteOptionsLen (options : list WeightedVoteOption) : outcome unit :=
  let max := MaxVoteOptionsLen ga_config in
  guard_err ((0 <? max) && (max <? Z.of_nat (length options))) ErrTooManyVoteOptions.
Definition validateProposalLengths (metadata title summary : string) : outcome unit :=
  _ ← assertMetadataLength metadata;
  _ ← assertSummaryLength summary;
  assertTitleLength title.

(** ** keeper/deposit.go *)

Definition SetDeposit (deposit : Deposit) : M unit :=
  depositor ← liftM (StringToBytes (d_Depositor deposit));
  modifyM (with_Deposits <[(d_ProposalId deposit, depositor) := deposit]>).
(** The entries of a proposal in the order of their keys: the address is preceded
    by its length. *)
Definition addr_key_le {V} (x y : string * V) : Prop :=
  (String.length x.1 < String.length y.1)%nat ∨ (String.length x.1 = String.length y.1 ∧ String.le x.1 y.1).
#[global] Instance addr_key_le_dec {V} (x y : string * V) : Decision (addr_key_le x y).
Proof. unfold addr_key_le. apply _. Defined.
Definition entries_of {V} (proposalID : Z) (m : gmap (Z * string) V) : list (string * V) :=
  merge_sort addr_key_le (omap (λ '((id, addr), v), if id =? proposalID then Some (addr, v) else None) (map_to_list m)).
Definition GetDeposits (proposalID : Z) : M (list (string * Deposit)) := readM (λ s, entries_of proposalID (gs_Deposits s)).
Definition DeleteAndBurnDeposits (proposalID : Z) : M unit :=
  deposits ← GetDeposits proposalID;
  coinsToBurn ← foldM (λ (coinsToBurn : Coins) (kd : string * Deposit),
                         coinsToBurn ← liftM (Coins_Add coinsToBurn (d_Amount kd.2));
                         _ ← modifyM (with_Deposits (delete (proposalID, kd.1)));
                         mret coinsToBurn) [] deposits;
  on_gov_keepers (gk_BurnCoins ModuleAccountAddress coinsToBurn).
Definition RefundAndDeleteDeposits (proposalID : Z) : M unit :=
  deposits ← GetDeposits proposalID;
  forM_ (λ kd : string * Deposit,
           _ ← on_gov_keepers (gk_SendModuleToAccount GovName kd.1 (d_Amount kd.2));
           modifyM (with_Deposits (delete (proposalID, kd.1)))) deposits.

Definition validateDepositDenom (params : GovParams) (depositAmount : Coins) : outcome unit :=
  let acceptedDenoms := Coins_Denoms (gp_MinDeposit params) in
  guard_err (existsb (λ coin, negb (existsb (str_eq (Denom coin)) acceptedDenoms)) depositAmount) ErrInvalidDepositDenom.
(** [minDepositCoins] is the slice of the parameters, whose amounts the source
    overwrites; its caller reads only the denominations afterwards. *)
Definition validateInitialDeposit (params : GovParams) (initialDeposit : Coins) (proposalType : ProposalType) : outcome unit :=
  _ ← guard_err (negb (Coins_IsValid initialDeposit) || Coins_IsAnyNegative initialDeposit) ErrInvalidCoins;
  minInitialDepositRatio ← LegacyNewDecFromStr (gp_MinInitialDepositRatio params);
  if Dec_IsZero minInitialDepositRatio then Ok tt
  else
    let minDepositCoins :=
      match proposalType with PROPOSAL_TYPE_EXPEDITED => gp_ExpeditedMinDeposit params | _ => gp_MinDeposit params end in
    minDepositCoins ← traverse (λ c, d ← LegacyNewDecFromInt (Amount c);
                                     d ← Dec_Mul d minInitialDepositRatio;
                                     n ← Dec_RoundInt d; Ok (mkCoin (Denom c) n)) minDepositCoins;
    enough ← Coins_IsAllGTE initialDeposit minDepositCoins;
    guard_err (negb enough) ErrMinDepositTooSmall.
(** The loop over the minimal deposits; it stops at the first threshold that is
    met. *)
Fixpoint deposit_threshold_met (minDepositRatio : Z) (depositAmount minDepositAmount : Coins) : outcome bool :=
  match minDepositAmount with
  | [] => Ok false
  | minDep :: rest =>
      d ← LegacyNewDecFromInt (Amount minDep);
      d ← Dec_Mul d minDepositRatio;
      n ← Dec_TruncateInt d;
      threshold ← NewCoin (Denom minDep) n;
      match Coins_Find depositAmount (Denom minDep) with
      | None => deposit_threshold_met minDepositRatio depositAmount rest
      | Some deposit =>
          met ← Coin_IsGTE deposit threshold;
          if (met : bool) then Ok true else deposit_threshold_met minDepositRatio depositAmount rest
      end
  end.

Definition ActivateVotingPeriod (proposal : Proposal) : M unit :=
  startTime ← Time;
  params ← gs_get gs_Params;
  custom ← readM (λ s, match p_Messages proposal with
                       | [] => None
                       | m :: _ => gs_MessageBasedParams s !! MsgTypeURL m
                       end);
  let votingPeriod := match p_ProposalType proposal, custom with
                      | PROPOSAL_TYPE_EXPEDITED, _ => gp_ExpeditedVotingPeriod params
                      | _, Some customMessageParams => mp_VotingPeriod customMessageParams
                      | _, None => gp_VotingPeriod params
                      end in
  votingPeriod ← deref votingPeriod;
  let endTime := startTime + votingPeriod in
  _ ← modifyM (with_Proposals <[p_Id proposal := set_VotingPeriod startTime endTime proposal]>);
  depositEndTime ← deref (p_DepositEndTime proposal);
  _ ← modifyM (with_Inactive (.∖ {[ (depositEndTime, p_Id proposal) ]}));
  modifyM (with_Active ({[ (endTime, p_Id proposal) ]} ∪.)).
Definition AddDeposit (proposalID : Z) (depositorAddr : string) (depositAmount : Coins) : M bool :=
  proposal ← gs_get (λ s, gs_Proposals s !! proposalID);
  _ ← liftM (guard_err (negb (is_open proposal)) ErrInactiveProposal);
  params ← gs_get gs_Params;
  let minDepositAmount := GetMinDepositFromParams proposal params in
  minDepositRatio ← liftM (LegacyNewDecFromStr (gp_MinDepositRatio params));
  _ ← liftM (validateDepositDenom params depositAmount);
  _ ← (if Dec_IsZero minDepositRatio then mret tt
       else
         met ← liftM (deposit_threshold_met minDepositRatio depositAmount minDepositAmount);
         liftM (guard_err (negb met) ErrMinDepositTooSmall));
  _ ← on_gov_keepers (gk_SendAccountToModule depositorAddr GovName depositAmount);
  total ← liftM (c ← NewCoins (p_TotalDeposit proposal); Coins_Add c depositAmount);
  let proposal := set_TotalDeposit total proposal in
  _ ← modifyM (with_Proposals <[p_Id proposal := proposal]>);
  enough ← (if decide (p_Status proposal = StatusDepositPeriod)
            then liftM (c ← NewCoins (p_TotalDeposit proposal); Coins_IsAllGTE c minDepositAmount)
            else mret false);
  _ ← (if (enough : bool) then ActivateVotingPeriod proposal else mret tt);
  addr ← liftM (BytesToString depositorAddr);
  existing ← readM (λ s, gs_Deposits s !! (proposalID, depositorAddr));
  deposit ← liftM (match existing with
                   | Some deposit => c ← NewCoins (d_Amount deposit); c ← Coins_Add c depositAmount;
                                     Ok (NewDeposit (d_ProposalId deposit) (d_Depositor deposit) c)
                   | None => Ok (NewDeposit proposalID addr depositAmount)
                   end);
  _ ← join_errors ((λ h, AfterProposalDeposit h proposalID depositorAddr) <$> ga_hooks);
  _ ← SetDeposit deposit;
  mret enough.

(** The charge on one deposit, coin by coin: what remains for the depositor, and
    the charges so far. *)
Definition charge_coin (rate : Z) (acc : Coins * Coins) (coin : Coin) : outcome (Coins * Coins) :=
  let '(remainingAmount, cancellationCharges) := acc in
  d ← LegacyNewDecFromInt (Amount coin);
  d ← Dec_Mul d rate;
  burnAmount ← Dec_TruncateInt d;
  n ← Int_Sub (Amount coin) burnAmount;
  c ← NewCoin (Denom coin) n;
  remainingAmount ← Coins_Add remainingAmount [c];
  c ← NewCoin (Denom coin) burnAmount;
  cancellationCharges ← Coins_Add cancellationCharges [c];
  Ok (remainingAmount, cancellationCharges).
Definition charge_one (rate : Z) (cancellationCharges : Coins) (kd : string * Deposit) : M Coins :=
  let deposit := kd.2 in
  depositorAddress ← liftM (StringToBytes (d_Depositor deposit));
  r ← liftM (foldM (charge_coin rate) ([], cancellationCharges) (d_Amount deposit));
  _ ← (if Coins_IsZero r.1 then mret tt else on_gov_keepers (gk_SendModuleToAccount GovName depositorAddress r.1));
  _ ← modifyM (with_Deposits (delete (d_ProposalId deposit, depositorAddress)));
  mret r.2.
Definition settle_charges (destAddress : string) (cancellationCharges : Coins) : M unit :=
  if Coins_IsZero cancellationCharges then mret tt
  else
    poolAddress ← liftM (BytesToString (default "" (gk_ModuleAddress PoolModuleName)));
    if str_eq destAddress "" then on_gov_keepers (gk_BurnCoins ModuleAccountAddress cancellationCharges)
    else if str_eq poolAddress destAddress then on_gov_keepers (gk_FundCommunityPool cancellationCharges ModuleAccountAddress)
    else
      destAccAddress ← liftM (StringToBytes destAddress);
      on_gov_keepers (gk_SendModuleToAccount GovName destAccAddress cancellationCharges).
Definition ChargeDeposit (proposalID : Z) (destAddress proposalCancelRate : string) : M unit :=
  rate ← liftM (LegacyMustNewDecFromStr proposalCancelRate);
  deposits ← GetDeposits proposalID;
  cancellationCharges ← foldM (charge_one rate) [] deposits;
  settle_charges destAddress cancellationCharges.

(** ** keeper/vote.go *)

(** The option is one that the proposal offers. *)
Definition check_option (proposalID : Z) (proposal : Proposal) (option : WeightedVoteOption) : M unit :=
  _ ← match p_ProposalType proposal with
      | PROPOSAL_TYPE_OPTIMISTIC => liftM (guard_err (negb (bool_decide (wo_Option option = OptionNo))) ErrInvalidVote)
      | PROPOSAL_TYPE_MULTIPLE_CHOICE =>
          o ← readM (λ s, gs_ProposalVoteOptions s !! proposalID);
          match o with
          | None => errM ErrInvalidProposal
          | Some opts =>
              let text := match wo_Option option with
                          | OptionOne => Some (po_One opts) | OptionTwo => Some (po_Two opts)
                          | OptionThree => Some (po_Three opts) | OptionFour => Some (po_Four opts)
                          | _ => None
                          end in
              liftM (guard_err (bool_decide (text = Some "")) ErrInvalidVote)
          end
      | _ => mret tt
      end;
  liftM (guard_err (negb (ValidWeightedVoteOption option)) ErrInvalidVote).
Definition AddVote (proposalID : Z) (voterAddr : string) (options : list WeightedVoteOption) (metadata : string) : M unit :=
  proposal ← readM (λ s, gs_Proposals s !! proposalID);
  match proposal with
  | None => errM ErrInactiveProposal
  | Some proposal =>
      _ ← liftM (guard_err (negb (bool_decide (p_Status proposal = StatusVotingPeriod))) ErrInactiveProposal);
      _ ← liftM (assertMetadataLength metadata);
      _ ← liftM (assertVoteOptionsLen options);
      _ ← forM_ (check_option proposalID proposal) options;
      voterStrAddr ← liftM (BytesToString voterAddr);
      _ ← modifyM (with_Votes <[(proposalID, voterAddr) := NewVote proposalID voterStrAddr options metadata]>);
      join_errors ((λ h, AfterProposalVote h proposalID voterAddr) <$> ga_hooks)
  end.
Definition deleteVotes (proposalID : Z) : M unit := modifyM (with_Votes (filter (λ kv, kv.1.1 ≠ proposalID))).

(** ** keeper/proposal.go *)

Definition HasRoute (path : string) : bool := bool_decide (is_Some (ga_legacyRouter !! path)).
Definition GetRoute (path : string) : M (gContent → M unit) :=
  liftM (match ga_legacyRouter !! path with Some h => Ok h | None => Panic "route does not exist" end).
Definition LegacyContentFromMessage (content : option gContent) : outcome gContent :=
  match content with Some c => Ok c | None => Err ErrInvalidProposalContent end.
(** The handler of a legacy proposal is tried in a branch that is never written. *)
Definition try_handler (content : gContent) : M unit := λ s,
  match (handler ← GetRoute (ProposalRoute content); handler content) s with
  | (Ok _, _) => (Ok tt, s)
  | (Err _, _) => (Err ErrInvalidProposalContent, s)
  | (Panic p, _) => (Panic p, s)
  end.
Definition try_legacy_content (msg : gMsg) : M unit :=
  match as_ExecLegacyContent msg with
  | None => mret tt
  | Some (_, content) =>
      content ← liftM (LegacyContentFromMessage content);
      _ ← liftM (guard_err (negb (HasRoute (ProposalRoute content))) ErrNoProposalHandlerExists);
      try_handler content
  end.
(** One message of a new proposal; the accumulator is
    [currentMessagedBasedParams]. *)
Definition check_msg (several : bool) (proposalType : ProposalType) (current : option MessageBasedParams) (msg : gMsg)
    : M (option MessageBasedParams) :=
  messagedBasedParams ← readM (λ s, gs_MessageBasedParams s !! MsgTypeURL msg);
  current ← match messagedBasedParams with
            | None => mret current
            | Some params =>
                let current := default params current in
                isEqual ← liftM (MessageBasedParams_Equal current params);
                _ ← liftM (guard_err (several && negb isEqual) ErrInvalidProposalMsg);
                _ ← liftM (guard_err (negb (bool_decide (proposalType = PROPOSAL_TYPE_STANDARD))) ErrInvalidProposalType);
                mret (Some current)
            end;
  _ ← liftM (match Msg_ValidateBasic msg with Err _ => Err ErrInvalidProposalMsg | r => r end);
  signers ← liftM (GetMsgSigners msg);
  match signers with
  | [signer] =>
      govAcct ← GetGovernanceAccount;
      _ ← liftM (guard_err (negb (str_eq signer govAcct)) ErrInvalidSigner);
      _ ← liftM (match ga_CanInvoke (MsgTypeURL msg) with Err _ => Err ErrUnroutableProposalMsg | r => r end);
      _ ← try_legacy_content msg;
      mret current
  | _ => errM ErrInvalidSigner
  end.
Definition SubmitProposal (messages : list gMsg) (metadata title summary proposer : string) (proposalType : ProposalType)
    : M Proposal :=
  params ← gs_get gs_Params;
  proposerAddr ← liftM (BytesToString proposer);
  _ ← liftM (match proposalType with
             | PROPOSAL_TYPE_OPTIMISTIC =>
                 let authorized := gp_OptimisticAuthorizedAddresses params in
                 guard_err ((0 <? length authorized)%nat && negb (existsb (str_eq proposerAddr) authorized)) ErrInvalidProposer
             | PROPOSAL_TYPE_MULTIPLE_CHOICE => guard_err (0 <? length messages)%nat ErrInvalidProposalMsg
             | _ => Ok tt
             end);
  _ ← foldM (check_msg (1 <? length messages)%nat proposalType) None messages;
  proposalID ← readM gs_ProposalID;
  _ ← modifyM (with_ProposalID (wrap_uint64 (proposalID + 1)));
  submitTime ← Time;
  maxDepositPeriod ← deref (gp_MaxDepositPeriod params);
  let depositEndTime := submitTime + maxDepositPeriod in
  let proposal := NewProposal messages proposalID submitTime depositEndTime metadata title summary proposerAddr proposalType in
  _ ← modifyM (with_Proposals <[proposalID := proposal]>);
  _ ← modifyM (with_Inactive ({[ (depositEndTime, proposalID) ]} ∪.));
  _ ← join_errors ((λ h, AfterProposalSubmission h proposalID) <$> ga_hooks);
  mret proposal.

Definition DeleteProposal (proposalID : Z) : M unit :=
  proposal ← gs_get (λ s, gs_Proposals s !! proposalID);
  _ ← match p_DepositEndTime proposal with
      | Some t => modifyM (with_Inactive (.∖ {[ (t, proposalID) ]}))
      | None => mret tt
      end;
  _ ← match p_VotingEndTime proposal with
      | Some t => modifyM (with_Active (.∖ {[ (t, proposalID) ]}))
      | None => mret tt
      end;
  modifyM (with_Proposals (delete proposalID)).

(** [time.Time.Sub] saturates; [time.Duration.Round] rounds halves away from zero. *)
Definition Time_Sub (t u : Z) : Z := Z.max (- 2 ^ 63) (Z.min (2 ^ 63 - 1) (t - u)).
Definition Duration_Round (d m : Z) : Z :=
  if m <=? 0 then d
  else
    let r := Z.rem d m in
    if d <? 0 then
      let r := - r in
      if 2 * r <? m then d + r
      else let d1 := wrap_int64 (d - m + r) in if d1 <? d then d1 else - 2 ^ 63
    else if 2 * r <? m then d - r
    else let d1 := wrap_int64 (d + m - r) in if d <? d1 then d1 else 2 ^ 63 - 1.
Definition Second : Z := 10 ^ 9.
(** The product is a float64; it fits an int64 for a rate of at most one. *)
Definition max_cancel_period (votingStart votingEnd rate : Z) : Z :=
  Duration_Round (float_trunc (float_mul (float_of_Z (Time_Sub votingEnd votingStart)) (Dec_MustFloat64 rate))) Second.
Definition check_cancel_time (params : GovParams) (proposal : Proposal) : M unit :=
  match p_VotingEndTime proposal with
  | None => mret tt
  | Some votingEnd =>
      currentTime ← Time;
      maxCancelPeriodRate ← liftM (LegacyMustNewDecFromStr (gp_ProposalCancelMaxPeriod params));
      votingStart ← deref (p_VotingStartTime proposal);
      let maxCancelPeriod := max_cancel_period votingStart votingEnd maxCancelPeriodRate in
      if votingEnd <? currentTime then errM ErrVotingPeriodEnded
      else liftM (guard_err (votingEnd - maxCancelPeriod <? currentTime) ErrTooLateToCancel)
  end.
Definition CancelProposal (proposalID : Z) (proposer : string) : M unit :=
  proposal ← readM (λ s, gs_Proposals s !! proposalID);
  match proposal with
  | None => errM ErrInvalidProposal
  | Some proposal =>
      params ← gs_get gs_Params;
      _ ← liftM (guard_err (str_eq (p_Proposer proposal) "") ErrInvalidProposal);
      _ ← liftM (guard_err (negb (str_eq (p_Proposer proposal) proposer)) ErrInvalidProposer);
      _ ← liftM (guard_err (negb (is_open proposal)) ErrInvalidProposal);
      _ ← check_cancel_time params proposal;
      _ ← ChargeDeposit (p_Id proposal) (gp_ProposalCancelDest params) (gp_ProposalCancelRatio params);
      _ ← (if decide (p_VotingStartTime proposal = None) then mret tt else deleteVotes (p_Id proposal));
      DeleteProposal (p_Id proposal)
  end.
End GovKeeper.
