(* ===== verification/GovTally.v ===== *)
(** * GovTally: counting the votes on a proposal (x/gov/keeper/tally.go)

    Every voter votes with the stake of its delegations to bonded validators; a
    validator that votes does so with the stake of its delegators that did not.
    The counts then decide, by the rules of the type of the proposal, whether it
    passes and whether its deposits are burned. *)
From S2P Require Import Prelude MathInt LegacyDec DecString Coin Collections Account Bank Validator Staking Gov.

(** types/v1/tally.go *)
Record ValidatorGovInfo := NewValidatorGovInfo {
  vg_Address : string;
  vg_BondedTokens : Z;
  vg_DelegatorShares : Z;
  vg_DelegatorDeductions : Z;
  vg_Vote : list WeightedVoteOption
}.
Definition set_gov_Vote (vote : list WeightedVoteOption) (v : ValidatorGovInfo) : ValidatorGovInfo :=
  NewValidatorGovInfo (vg_Address v) (vg_BondedTokens v) (vg_DelegatorShares v) (vg_DelegatorDeductions v) vote.
Definition set_Deductions (x : Z) (v : ValidatorGovInfo) : ValidatorGovInfo :=
  NewValidatorGovInfo (vg_Address v) (vg_BondedTokens v) (vg_DelegatorShares v) x (vg_Vote v).

(** The counts by option.  Reading an option that is not in the map gives a decimal
    without a value, as does parsing a string with an error that is ignored; every
    operation on it panics. *)
Abbreviation Results := (gmap VoteOption Z).
Definition result_of (results : Results) (o : VoteOption) : outcome Z :=
  match results !! o with Some r => Ok r | None => Panic nil_pointer end.
Definition parse_ignoring (str : string) : outcome Z :=
  match LegacyNewDecFromStr str with Err _ => Panic nil_pointer | r => r end.
Definition createEmptyResults : Results :=
  <[OptionYes := LegacyZeroDec]> (<[OptionAbstain := LegacyZeroDec]> (<[OptionNo := LegacyZeroDec]>
  (<[OptionNoWithVeto := LegacyZeroDec]> {[OptionSpam := LegacyZeroDec]}))).
Definition NewTallyResultFromMap (results : Results) : outcome TallyResult :=
  let count o := r ← result_of results o; Dec_TruncateInt r in
  one ← count OptionYes; two ← count OptionAbstain; three ← count OptionNo; four ← count OptionNoWithVeto; spam ← count OptionSpam;
  Ok (NewTallyResult one two three four spam).

(** ** Counting *)

(** [shares * bonded / total shares] *)
Definition voting_power (shares : Z) (val : ValidatorGovInfo) : outcome Z :=
  x ← Dec_MulInt shares (vg_BondedTokens val); Dec_Quo x (vg_DelegatorShares val).
Definition count_option (votingPower : Z) (results : Results) (option : WeightedVoteOption) : outcome Results :=
  weight ← parse_ignoring (wo_Weight option);
  subPower ← Dec_Mul votingPower weight;
  r ← result_of results (wo_Option option);
  r ← Dec_Add r subPower;
  Ok (<[wo_Option option := r]> results).
Definition count_options (votingPower : Z) (results : Results) (options : list WeightedVoteOption) : outcome Results :=
  foldM (count_option votingPower) results options.

(** The validators, the counts and the voting power so far. *)
Record Count := mkCount { ct_validators : gmap string ValidatorGovInfo; ct_results : Results; ct_totalVP : Z }.
Definition count_delegation (options : list WeightedVoteOption) (c : Count) (delegation : Delegation) : outcome Count :=
  let valAddrStr := ValidatorAddress delegation in
  match ct_validators c !! valAddrStr with
  | None => Ok c
  | Some val =>
      deductions ← Dec_Add (vg_DelegatorDeductions val) (Shares delegation);
      let val := set_Deductions deductions val in
      votingPower ← voting_power (Shares delegation) val;
      results ← count_options votingPower (ct_results c) options;
      totalVP ← Dec_Add (ct_totalVP c) votingPower;
      Ok (mkCount (<[valAddrStr := val]> (ct_validators c)) results totalVP)
  end.
(** The vote of a validator is recorded for later. *)
Definition record_vote (valAddrStr : string) (options : list WeightedVoteOption) (c : Count) : Count :=
  match ct_validators c !! valAddrStr with
  | None => c
  | Some val => mkCount (<[valAddrStr := set_gov_Vote options val]> (ct_validators c)) (ct_results c) (ct_totalVP c)
  end.
(** The stake of a validator that is left to it. *)
Definition count_validator (acc : Z * Results) (kv : string * ValidatorGovInfo) : outcome (Z * Results) :=
  let val := kv.2 in
  match vg_Vote val with
  | [] => Ok acc
  | _ =>
      sharesAfterDeductions ← Dec_Sub (vg_DelegatorShares val) (vg_DelegatorDeductions val);
      votingPower ← voting_power sharesAfterDeductions val;
      results ← count_options votingPower acc.2 (vg_Vote val);
      totalVP ← Dec_Add acc.1 votingPower;
      Ok (totalVP, results)
  end.

Section Tally.
Context {GM : GovMessages} {S : Type} {gk : GovKeepers S} {ga : GovApp S}.
Context {cfg : CoinConfig} {acfg : AddressConfig} {vcfg : ValAddressConfig}.
#[local] Abbreviation M := (GoM (GovState S)).

(** A validator whose address does not decode is left out. *)
Definition gov_info (m : gmap string ValidatorGovInfo) (validator : Validator) : gmap string ValidatorGovInfo :=
  match ValStringToBytes (OperatorAddress validator) with
  | Ok valBz =>
      <[OperatorAddress validator :=
          NewValidatorGovInfo valBz (BondedTokens validator) (DelegatorShares validator) LegacyZeroDec []]> m
  | _ => m
  end.
Definition getCurrentValidators : M (gmap string ValidatorGovInfo) :=
  validators ← on_gov_keepers gk_BondedValidators;
  mret (foldl gov_info ∅ validators).

Definition count_vote (c : Count) (kv : string * Vote) : M Count :=
  let vote := kv.2 in
  voter ← liftM (StringToBytes (v_Voter vote));
  valAddrStr ← liftM (ValBytesToString voter);
  let c := record_vote valAddrStr (v_Options vote) c in
  delegations ← on_gov_keepers (gk_Delegations voter);
  liftM (foldM (count_delegation (v_Options vote)) c delegations).
Definition defaultCalculateVoteResultsAndVotingPower (proposalID : Z) (validators : gmap string ValidatorGovInfo)
    : M (Z * Results) :=
  votes ← readM (λ s, entries_of proposalID (gs_Votes s));
  c ← foldM count_vote (mkCount validators createEmptyResults LegacyZeroDec) votes;
  _ ← forM_ (λ kv : string * Vote, modifyM (with_Votes (delete (proposalID, kv.1)))) votes;
  liftM (foldM count_validator (ct_totalVP c, ct_results c) (ga_range (ct_validators c))).

(** ** Deciding

    The result is: passes, burn the deposits. *)

(** The rules shared by standard and expedited proposals. *)
Definition tally_yes_no (quorumStr yesQuorumStr vetoThresholdStr thresholdStr : string) (totalVoterPower totalBonded : Z)
    (results : Results) (params : GovParams) : outcome (bool * bool) :=
  bonded ← LegacyNewDecFromInt totalBonded;
  percentVoting ← Dec_Quo totalVoterPower bonded;
  quorum ← parse_ignoring quorumStr;
  if Dec_LT percentVoting quorum then Ok (false, gp_BurnVoteQuorum params)
  else
    abstain ← result_of results OptionAbstain;
    if Dec_Equal totalVoterPower abstain then Ok (false, false)
    else
      yes ← result_of results OptionYes;
      yesQuorum ← parse_ignoring yesQuorumStr;
      yesTooLow ← (if Dec_GT yesQuorum LegacyZeroDec then r ← Dec_Quo yes totalVoterPower; Ok (Dec_LT r yesQuorum) else Ok false);
      if (yesTooLow : bool) then Ok (false, false)
      else
        veto ← result_of results OptionNoWithVeto;
        vetoShare ← Dec_Quo veto totalVoterPower;
        vetoThreshold ← parse_ignoring vetoThresholdStr;
        if Dec_GT vetoShare vetoThreshold then Ok (false, gp_BurnVoteVeto params)
        else
          voting ← Dec_Sub totalVoterPower abstain;
          yesShare ← Dec_Quo yes voting;
          threshold ← parse_ignoring thresholdStr;
          Ok (Dec_GT yesShare threshold, false).
Definition tallyStandard (proposal : Proposal) (totalVoterPower totalBonded : Z) (results : Results) (params : GovParams)
    : M (bool * bool) :=
  custom ← readM (λ s, match p_Messages proposal with
                       | [] => None
                       | m :: _ => gs_MessageBasedParams s !! MsgTypeURL m
                       end);
  liftM (match custom with
         | Some p => tally_yes_no (mp_Quorum p) (mp_YesQuorum p) (mp_VetoThreshold p) (mp_Threshold p) totalVoterPower totalBonded results params
         | None => tally_yes_no (gp_Quorum params) (gp_YesQuorum params) (gp_VetoThreshold params) (gp_Threshold params)
                     totalVoterPower totalBonded results params
         end).
Definition tallyExpedited (totalVoterPower totalBonded : Z) (results : Results) (params : GovParams) : outcome (bool * bool) :=
  tally_yes_no (gp_ExpeditedQuorum params) (gp_YesQuorum params) (gp_VetoThreshold params) (gp_ExpeditedThreshold params)
    totalVoterPower totalBonded results params.
Definition tallyOptimistic (totalVoterPower totalBonded : Z) (results : Results) (params : GovParams) : outcome (bool * bool) :=
  if Dec_Equal totalVoterPower LegacyZeroDec then Ok (true, false)
  else
    no ← result_of results OptionNo;
    bonded ← LegacyNewDecFromInt totalBonded;
    share ← Dec_Quo no bonded;
    optimisticNoThreshold ← parse_ignoring (gp_OptimisticRejectedThreshold params);
    Ok (negb (Dec_GT share optimisticNoThreshold), false).
Definition tallyMultipleChoice (totalVoterPower totalBonded : Z) (results : Results) (params : GovParams) : outcome (bool * bool) :=
  bonded ← LegacyNewDecFromInt totalBonded;
  percentVoting ← Dec_Quo totalVoterPower bonded;
  quorum ← parse_ignoring (gp_Quorum params);
  if Dec_LT percentVoting quorum then Ok (false, gp_BurnVoteQuorum params) else Ok (true, false).

(** Votes for spam against all the others. *)
Definition is_spam (results : Results) : outcome bool :=
  spam ← result_of results OptionSpam;
  one ← result_of results OptionOne; two ← result_of results OptionTwo;
  three ← result_of results OptionThree; four ← result_of results OptionFour;
  sum ← Dec_Add three four; sum ← Dec_Add two sum; sum ← Dec_Add one sum;
  Ok (Dec_GTE spam sum).
Definition Tally (proposal : Proposal) : M (bool * bool * TallyResult) :=
  validators ← getCurrentValidators;
  r ← defaultCalculateVoteResultsAndVotingPower (p_Id proposal) validators;
  let '(totalVoterPower, results) := r in
  params ← gs_get gs_Params;
  tallyResults ← liftM (NewTallyResultFromMap results);
  totalBonded ← on_gov_keepers gk_TotalBondedTokens;
  if Int_IsZero totalBonded then mret (false, false, tallyResults)
  else
    spam ← (if Dec_Equal totalVoterPower LegacyZeroDec then mret false else liftM (is_spam results));
    if (spam : bool) then mret (false, true, tallyResults)
    else
      r ← match p_ProposalType proposal with
          | PROPOSAL_TYPE_OPTIMISTIC => liftM (tallyOptimistic totalVoterPower totalBonded results params)
          | PROPOSAL_TYPE_EXPEDITED => liftM (tallyExpedited totalVoterPower totalBonded results params)
          | PROPOSAL_TYPE_MULTIPLE_CHOICE => liftM (tallyMultipleChoice totalVoterPower totalBonded results params)
          | _ => tallyStandard proposal totalVoterPower totalBonded results params
          end;
      mret (r, tallyResults).
End Tally.
