(* ===== verification/GovBlock.v ===== *)
(** * GovBlock: the end of a block, the message server and genesis (x/gov)

    Models keeper/abci.go, keeper/msg_server.go, with the server of the former
    version of the messages, and genesis.go with types/v1/genesis.go. *)
From S2P Require Import Prelude MathInt LegacyDec DecString Coin Collections Account Bank Validator Staking Gov GovTally.

Section GovBlock.
Context {GM : GovMessages} {S : Type} {gk : GovKeepers S} {ga : GovApp S}.
Context {cfg : CoinConfig} {acfg : AddressConfig} {vcfg : ValAddressConfig}.
#[local] Abbreviation M := (GoM (GovState S)).

(** ** keeper/abci.go *)

Definition queue_le (x y : Z * Z) : Prop := x.1 < y.1 ∨ (x.1 = y.1 ∧ x.2 <= y.2).
#[global] Instance queue_le_dec x y : Decision (queue_le x y).
Proof. unfold queue_le. apply _. Defined.
(** The entries up to the time, in their order. *)
Definition due (now : Z) (queue : gset (Z * Z)) : list (Z * Z) :=
  merge_sort queue_le (elements (filter (λ k, k.1 <= now) queue)).
(** An error is logged and dropped; the writes made before it stay. *)
Definition log_error (m : M unit) : M unit := λ s, match m s with (Err _, s') => (Ok tt, s') | r => r end.

(** A proposal whose deposit period ended. *)
Definition drop_inactive (params : GovParams) (key : Z * Z) : M unit :=
  proposal ← gs_get (λ s, gs_Proposals s !! key.2);
  _ ← DeleteProposal (p_Id proposal);
  _ ← (if gp_BurnProposalDepositPrevote params then DeleteAndBurnDeposits (p_Id proposal) else RefundAndDeleteDeposits (p_Id proposal));
  log_error (BranchService_Execute (join_errors ((λ h, AfterProposalFailedMinDeposit h (p_Id proposal)) <$> ga_hooks))).

Definition safeExecuteHandler (msg : gMsg) : M unit := λ s,
  match ga_Invoke msg s with
  | (Ok _, s') => (Ok tt, s')
  | (Err e, s') => (Err e, s')
  | (Panic p, s') => (Err p, s')
  end.
(** The messages are executed in a branch with a limit of gas; the proposal gets
    its status. *)
Definition execute_messages (params : GovParams) (proposal : Proposal) : M Proposal := λ s,
  if ga_out_of_gas (gp_ProposalExecutionGas params) (p_Messages proposal) s then (Ok (set_Closed StatusFailed "out of gas" proposal), s)
  else
    match BranchService_Execute (forM_ safeExecuteHandler (p_Messages proposal)) s with
    | (Ok _, s') => (Ok (set_Closed StatusPassed (p_FailedReason proposal) proposal), s')
    | (Err e, s') => (Ok (set_Closed StatusFailed e proposal), s')
    | (Panic p, s') => (Panic p, s')
    end.
Definition is_fast (proposal : Proposal) : bool :=
  bool_decide (p_ProposalType proposal = PROPOSAL_TYPE_EXPEDITED) || bool_decide (p_ProposalType proposal = PROPOSAL_TYPE_OPTIMISTIC).
Definition convert_to_standard (params : GovParams) (proposal : Proposal) : M Proposal :=
  votingStart ← deref (p_VotingStartTime proposal);
  votingPeriod ← deref (gp_VotingPeriod params);
  let endTime := votingStart + votingPeriod in
  _ ← modifyM (with_Active ({[ (endTime, p_Id proposal) ]} ∪.));
  mret (set_Standard endTime proposal).
(** What the tally said is done with the deposits. *)
Definition settle_deposits (passes burnDeposits : bool) (proposal : Proposal) : M unit :=
  if burnDeposits then DeleteAndBurnDeposits (p_Id proposal)
  else if passes || negb (is_fast proposal) then RefundAndDeleteDeposits (p_Id proposal)
  else mret tt.
Definition decide_proposal (params : GovParams) (passes burnDeposits : bool) (proposal : Proposal) : M Proposal :=
  if passes then execute_messages params proposal
  else if negb burnDeposits && is_fast proposal then convert_to_standard params proposal
  else mret (set_Closed StatusRejected "proposal did not get enough votes to pass" proposal).
(** A proposal whose voting period ended. *)
Definition close_active (params : GovParams) (key : Z * Z) : M unit :=
  proposal ← gs_get (λ s, gs_Proposals s !! key.2);
  r ← Tally proposal;
  let '(passes, burnDeposits, tallyResults) := r in
  _ ← log_error (settle_deposits passes burnDeposits proposal);
  votingEnd ← deref (p_VotingEndTime proposal);
  _ ← modifyM (with_Active (.∖ {[ (votingEnd, p_Id proposal) ]}));
  proposal ← decide_proposal params passes burnDeposits proposal;
  _ ← modifyM (with_Proposals <[p_Id proposal := set_FinalTallyResult tallyResults proposal]>);
  log_error (BranchService_Execute (join_errors ((λ h, AfterProposalVotingPeriodEnded h (p_Id proposal)) <$> ga_hooks))).
Definition EndBlocker : M unit :=
  now ← Time;
  inactiveProps ← readM (λ s, due now (gs_Inactive s));
  params ← gs_get gs_Params;
  _ ← forM_ (drop_inactive params) inactiveProps;
  now ← Time;
  activeProps ← readM (λ s, due now (gs_Active s));
  forM_ (close_active params) activeProps.

(** ** keeper/msg_server.go *)

Record MsgSubmitProposal := mkMsgSubmitProposal {
  sp_Messages : list gMsg;
  sp_InitialDeposit : Coins;
  sp_Proposer : string;
  sp_Metadata : string;
  sp_Title : string;
  sp_Summary : string;
  sp_Expedited : bool;
  sp_ProposalType : ProposalType
}.
Record MsgSubmitMultipleChoiceProposal := mkMsgMultipleChoice {
  mc_InitialDeposit : Coins;
  mc_Proposer : string;
  mc_Metadata : string;
  mc_Title : string;
  mc_Summary : string;
  mc_VoteOptions : option ProposalVoteOptions
}.
Definition invalid_address {A} (r : outcome A) : M A := liftM (match r with Err _ => Err ErrInvalidAddress | r => r end).
Definition check_metadata (metadata title summary : string) : outcome unit :=
  match ParseMetadata metadata with
  | Some (t, su) =>
      _ ← guard_err (negb (str_eq t title)) ErrInvalidProposalContent;
      guard_err (negb (str_eq su summary)) ErrInvalidProposalContent
  | None => Ok tt
  end.
Definition GovMsg_SubmitProposal (msg : MsgSubmitProposal) : M Z :=
  proposer ← invalid_address (StringToBytes (sp_Proposer msg));
  _ ← liftM (guard_err ((length (sp_Messages msg) =? 0)%nat && (str_len (sp_Metadata msg) =? 0)) ErrNoProposalMsgs);
  _ ← (if str_len (sp_Metadata msg) =? 0 then mret tt
       else liftM (check_metadata (sp_Metadata msg) (sp_Title msg) (sp_Summary msg)));
  _ ← liftM (validateProposalLengths (sp_Metadata msg) (sp_Title msg) (sp_Summary msg));
  params ← gs_get gs_Params;
  let proposalType := if sp_Expedited msg then PROPOSAL_TYPE_EXPEDITED else sp_ProposalType msg in
  _ ← liftM (validateInitialDeposit params (sp_InitialDeposit msg) proposalType);
  _ ← liftM (validateDepositDenom params (sp_InitialDeposit msg));
  proposal ← SubmitProposal (sp_Messages msg) (sp_Metadata msg) (sp_Title msg) (sp_Summary msg) proposer proposalType;
  _ ← AddDeposit (p_Id proposal) proposer (sp_InitialDeposit msg);
  mret (p_Id proposal).
Definition GovMsg_SubmitMultipleChoiceProposal (msg : MsgSubmitMultipleChoiceProposal) : M Z :=
  id ← GovMsg_SubmitProposal (mkMsgSubmitProposal [] (mc_InitialDeposit msg) (mc_Proposer msg) (mc_Metadata msg) (mc_Title msg)
                               (mc_Summary msg) false PROPOSAL_TYPE_MULTIPLE_CHOICE);
  match mc_VoteOptions msg with
  | None => errM ErrInvalidRequest
  | Some o =>
      let set (f : ProposalVoteOptions → string) := negb (str_eq (f o) "") in
      _ ← liftM (guard_err ((set po_Two && negb (set po_One)) || (set po_Three && negb (set po_Two)) || (set po_Four && negb (set po_Three)))
                   ErrInvalidRequest);
      _ ← liftM (guard_err (negb (set po_One) && negb (set po_Two)) ErrInvalidRequest);
      _ ← modifyM (with_VoteOptions <[id := o]>);
      mret id
  end.
Definition GovMsg_CancelProposal (proposalID : Z) (proposer : string) : M unit :=
  _ ← invalid_address (StringToBytes proposer);
  CancelProposal proposalID proposer.
Definition wrap_error {A} (e : string) (m : M A) : M A := λ s, match m s with (Err _, s') => (Err e, s') | r => r end.
Definition GovMsg_ExecLegacyContent (authority : string) (content : option gContent) : M unit :=
  govAcct ← GetGovernanceAccount;
  govAcct ← invalid_address (BytesToString govAcct);
  _ ← liftM (guard_err (negb (str_eq govAcct authority)) ErrInvalidSigner);
  content ← liftM (LegacyContentFromMessage content);
  _ ← liftM (guard_err (negb (HasRoute (ProposalRoute content))) ErrNoProposalHandlerExists);
  handler ← GetRoute (ProposalRoute content);
  wrap_error ErrInvalidProposalContent (handler content).
Definition GovMsg_Vote (proposalID : Z) (voter : string) (option : VoteOption) (metadata : string) : M unit :=
  accAddr ← invalid_address (StringToBytes voter);
  _ ← liftM (guard_err (negb (ValidVoteOption option)) ErrInvalidVote);
  AddVote proposalID accAddr (NewNonSplitVoteOption option) metadata.
(** The weights so far and the options used. *)
Definition add_weight (acc : Z * gset VoteOption) (option : WeightedVoteOption) : outcome (Z * gset VoteOption) :=
  let '(totalWeight, usedOptions) := acc in
  _ ← guard_err (negb (ValidWeightedVoteOption option)) ErrInvalidVote;
  weight ← match LegacyNewDecFromStr (wo_Weight option) with Err _ => Err ErrInvalidVote | r => r end;
  totalWeight ← Dec_Add totalWeight weight;
  _ ← guard_err (bool_decide (wo_Option option ∈ usedOptions)) ErrInvalidVote;
  Ok (totalWeight, {[ wo_Option option ]} ∪ usedOptions).
Definition GovMsg_VoteWeighted (proposalID : Z) (voter : string) (options : list WeightedVoteOption) (metadata : string) : M unit :=
  accAddr ← invalid_address (StringToBytes voter);
  _ ← liftM (guard_err (length options =? 0)%nat ErrInvalidRequest);
  r ← liftM (foldM add_weight (LegacyZeroDec, ∅) options);
  _ ← liftM (guard_err (Dec_GT r.1 LegacyOneDec) ErrInvalidVote);
  _ ← liftM (guard_err (Dec_LT r.1 LegacyOneDec) ErrInvalidVote);
  AddVote proposalID accAddr options metadata.
Definition validateDeposit (amount : Coins) : outcome unit :=
  guard_err (negb (Coins_IsValid amount) || negb (Coins_IsAllPositive amount)) ErrInvalidCoins.
Definition GovMsg_Deposit (proposalID : Z) (depositor : string) (amount : Coins) : M unit :=
  accAddr ← invalid_address (StringToBytes depositor);
  _ ← liftM (validateDeposit amount);
  _ ← AddDeposit proposalID accAddr amount;
  mret tt.
Definition GovMsg_UpdateParams (authority : string) (params : GovParams) : M unit :=
  _ ← liftM (guard_err (negb (str_eq ga_authority authority)) ErrInvalidSigner);
  _ ← liftM (GovParams_ValidateBasic params);
  modifyM (with_Params params).
Definition GovMsg_UpdateMessageParams (authority msgUrl : string) (params : option MessageBasedParams) : M unit :=
  _ ← liftM (guard_err (negb (str_eq ga_authority authority)) ErrInvalidSigner);
  match params with
  | None => modifyM (with_MessageBasedParams (delete msgUrl))
  | Some p =>
      if decide (p = mkMessageBasedParams None "" "" "" "") then modifyM (with_MessageBasedParams (delete msgUrl))
      else
        _ ← liftM (MessageBasedParams_ValidateBasic p);
        modifyM (with_MessageBasedParams <[msgUrl := p]>)
  end.
Definition GovMsg_SudoExec (authority : string) (msg : option gMsg) : M string :=
  match msg with
  | None => errM ErrInvalidProposal
  | Some sudoedMsg =>
      _ ← liftM (guard_err (negb (str_eq ga_authority authority)) ErrInvalidSigner);
      _ ← liftM (match Msg_ValidateBasic sudoedMsg with Err _ => Err ErrInvalidProposal | r => r end);
      BranchService_Execute
        (_ ← liftM (match ga_CanInvoke (MsgTypeURL sudoedMsg) with Err _ => Err ErrInvalidProposal | r => r end);
         ga_Invoke sudoedMsg)
  end.

(** The server of the former messages ([legacyMsgServer]). *)
Definition NewMsgSubmitProposal (messages : list gMsg) (initialDeposit : Coins) (proposer metadata title summary : string)
    (proposalType : ProposalType) : MsgSubmitProposal :=
  mkMsgSubmitProposal messages initialDeposit proposer metadata title summary
    false proposalType.
Definition Legacy_SubmitProposal (govAcct : string) (content : option gContent) (initialDeposit : Coins) (proposer : string) : M Z :=
  match content with
  | None => errM ErrInvalidProposalContent
  | Some content =>
      _ ← liftM (guard_err (negb (Content_valid_type content)) ErrInvalidProposalType);
      _ ← liftM (Content_ValidateBasic content);
      contentMsg ← liftM (NewLegacyContent content govAcct);
      GovMsg_SubmitProposal (NewMsgSubmitProposal [contentMsg] initialDeposit proposer "" (Content_Title content) (Content_Description content)
                               PROPOSAL_TYPE_STANDARD)
  end.
Definition Legacy_Vote (proposalID : Z) (voter : string) (option : VoteOption) : M unit := GovMsg_Vote proposalID voter option "".
(** The weights of the former message are decimals. *)
Definition Legacy_VoteWeighted (proposalID : Z) (voter : string) (options : list (VoteOption * Z)) : M unit :=
  GovMsg_VoteWeighted proposalID voter ((λ o, mkWeighted o.1 (Dec_String o.2)) <$> options) "".
Definition Legacy_Deposit (proposalID : Z) (depositor : string) (amount : Coins) : M unit := GovMsg_Deposit proposalID depositor amount.

(** ** genesis.go and types/v1/genesis.go *)

Record GovGenesis := mkGovGenesis {
  gg_StartingProposalId : Z;
  gg_Deposits : list Deposit;
  gg_Votes : list Vote;
  gg_Proposals : list Proposal;
  gg_Params : option GovParams;
  gg_Constitution : string
}.
(** A key that was seen is an error, and so is one of a proposal that does not
    exist. *)
Definition unique_key {K} `{Countable K} (e : string) (seen : gset K) (k : K) : outcome (gset K) :=
  _ ← guard_err (bool_decide (k ∈ seen)) e; Ok ({[ k ]} ∪ seen).
Definition record_key (what : string) (proposalIds : gset Z) (seen : gset (Z * string)) (k : Z * string) : outcome (gset (Z * string)) :=
  _ ← guard_err (negb (bool_decide (k.1 ∈ proposalIds))) (what +:+ " has non-existent proposal id")%string;
  unique_key ("duplicate " +:+ what)%string seen k.
(** The three checks run concurrently; the error of one of those that fail is
    returned, here of the first. *)
Definition ValidateGenesis (data : GovGenesis) : outcome unit :=
  _ ← guard_err (gg_StartingProposalId data =? 0) "starting proposal id must be greater than 0";
  proposalIds ← foldM (unique_key "duplicate proposal id") ∅ (p_Id <$> gg_Proposals data);
  _ ← foldM (record_key "deposit" proposalIds) ∅ ((λ d, (d_ProposalId d, d_Depositor d)) <$> gg_Deposits data);
  _ ← foldM (record_key "vote" proposalIds) ∅ ((λ v, (v_ProposalId v, v_Voter v)) <$> gg_Votes data);
  match gg_Params data with Some p => GovParams_ValidateBasic p | None => Panic nil_pointer end.

Definition import_deposit (totalDeposits : Coins) (deposit : Deposit) : M Coins :=
  _ ← SetDeposit deposit;
  liftM (Coins_Add totalDeposits (d_Amount deposit)).
Definition import_vote (vote : Vote) : M unit :=
  addr ← liftM (StringToBytes (v_Voter vote));
  modifyM (with_Votes <[(v_ProposalId vote, addr) := vote]>).
Definition import_proposal (proposal : Proposal) : M unit :=
  _ ← match p_Status proposal with
      | StatusDepositPeriod => t ← deref (p_DepositEndTime proposal); modifyM (with_Inactive ({[ (t, p_Id proposal) ]} ∪.))
      | StatusVotingPeriod => t ← deref (p_VotingEndTime proposal); modifyM (with_Active ({[ (t, p_Id proposal) ]} ∪.))
      | _ => mret tt
      end;
  modifyM (with_Proposals <[p_Id proposal := proposal]>).
Definition GovInitGenesis (data : GovGenesis) : M unit :=
  _ ← modifyM (with_ProposalID (gg_StartingProposalId data));
  params ← deref (gg_Params data);
  _ ← modifyM (with_Params params);
  _ ← modifyM (with_Constitution (gg_Constitution data));
  moduleAcc ← on_gov_keepers gk_GovAccount;
  match moduleAcc with
  | None => errM "gov module account has not been set"
  | Some moduleAcc =>
      totalDeposits ← foldM import_deposit [] (gg_Deposits data);
      _ ← forM_ import_vote (gg_Votes data);
      _ ← forM_ import_proposal (gg_Proposals data);
      balance ← on_gov_keepers (gk_GetAllBalances moduleAcc);
      _ ← (if Coins_IsZero balance then on_gov_keepers gk_SetModuleAccount else mret tt);
      enough ← liftM (Coins_IsAllGTE balance totalDeposits);
      liftM (guard_err (negb enough) "expected gov module to hold at least the deposits")
  end.
(** The collections in the order of their keys. *)
Definition walk_le {V} (x y : (Z * string) * V) : Prop :=
  x.1.1 < y.1.1 ∨ (x.1.1 = y.1.1 ∧ addr_key_le (x.1.2, x.2) (y.1.2, y.2)).
#[global] Instance walk_le_dec {V} (x y : (Z * string) * V) : Decision (walk_le x y).
Proof. unfold walk_le. apply _. Defined.
Definition id_le (x y : Z * Proposal) : Prop := x.1 <= y.1.
#[global] Instance id_le_dec x y : Decision (id_le x y).
Proof. unfold id_le. apply _. Defined.
Definition GovExportGenesis : M GovGenesis :=
  startingProposalID ← readM gs_ProposalID;
  proposals ← readM (λ s, snd <$> merge_sort id_le (map_to_list (gs_Proposals s)));
  constitution ← gs_get gs_Constitution;
  params ← gs_get gs_Params;
  deposits ← readM (λ s, snd <$> merge_sort walk_le (map_to_list (gs_Deposits s)));
  votes ← readM (λ s, snd <$> merge_sort walk_le (map_to_list (gs_Votes s)));
  mret (mkGovGenesis startingProposalID deposits votes proposals (Some params) constitution).
End GovBlock.
