(* ===== verification/GovFacts.v ===== *)
(** * GovFacts: the invariant of the governance state and the life of a proposal

    The invariant ([gov_inv]) ties the proposals to the two queues, the votes and the
    deposits.  While the messages of a proposal are executed, its own record is
    not up to date; the invariant has the identifier of that proposal as an
    argument and asks less of it.  [later] is how the state of the proposals may
    change by the messages of users.  The lemmas are on the part of the state
    that the two speak of ([gov_core]). *)
From S2P Require Import Prelude MathInt LegacyDec DecString Coin CoinFacts Collections Account Bank Validator Staking StakingFacts Hoare Gov GovTally GovBlock.

(** Sums with the same terms. *)
Lemma msum_ext {K} `{Countable K} {A B} (f : K → A → Z) (g : K → B → Z) (m : gmap K A) (m' : gmap K B) :
  (∀ k, from_option (f k) 0 (m !! k) = from_option (g k) 0 (m' !! k)) → msum f m = msum g m'.
Proof.
  revert m'. induction m as [|k a m Hk IH] using map_ind; intros m' E.
  - rewrite msum_empty. induction m' as [|k' a' m' Hk' IH'] using map_ind; [by rewrite msum_empty|].
    rewrite msum_insert_new by done. rewrite <- IH'; [|intros k2].
    + specialize (E k'). rewrite lookup_insert_eq, lookup_empty in E. cbn in E. lia.
    + specialize (E k2). destruct (decide (k2 = k')) as [->|]; [by rewrite Hk'|]. by rewrite lookup_insert_ne in E.
  - rewrite msum_insert_new by done. rewrite (IH (delete k m')).
    + rewrite msum_delete. specialize (E k). rewrite lookup_insert_eq in E. cbn in E. lia.
    + intros k2. specialize (E k2). destruct (decide (k2 = k)) as [->|]; [by rewrite Hk, lookup_delete_eq|].
      rewrite lookup_insert_ne in E by done. by rewrite lookup_delete_ne by done.
Qed.

Lemma Coins_Add_valid {cfg : CoinConfig} a b r : Coins_Add a b = Ok r → valid_coins a → valid_coins b →
  valid_coins r ∧ ∀ d, amount r d = amount a d + amount b d.
Proof.
  intros [Hcan Hamt]%safeAdd_Ok Ha Hb. split; [|done]. apply canonical_valid; [done|..]; intros d; rewrite Hamt.
  - pose proof (valid_coins_amount_nonneg a d Ha). pose proof (valid_coins_amount_nonneg b d Hb). lia.
  - intros Hne. destruct (Z.eq_dec (amount a d) 0) as [E|E]; [|by eapply valid_denom_of_amount, E; apply Ha].
    eapply valid_denom_of_amount; [apply Hb|lia].
Qed.
(** [NewCoins(coins...).Add(amount...)] *)
Lemma add_to_coins {cfg : CoinConfig} cs amt c r : NewCoins cs = Ok c → Coins_Add c amt = Ok r → valid_coins amt →
  valid_coins r ∧ ∀ d, amount r d = amount cs d + amount amt d.
Proof.
  intros Hn Hadd Ha. pose proof (proj1 (NewCoins_Ok _ _) Hn) as [_ Hc]. destruct (Coins_Add_valid _ _ _ Hadd Hc Ha) as [Hr Hamt].
  split; [done|]. intros d. by rewrite Hamt, (NewCoins_amount _ _ _ Hn).
Qed.

Section Core.
Context {GM : GovMessages} {S : Type} {cfg : CoinConfig} {acfg : AddressConfig}.

Record gov_core := mkGovCore {
  c_deposits : gmap (Z * string) Deposit;
  c_votes : gmap (Z * string) Vote;
  c_next : Z;
  c_proposals : gmap Z Proposal;
  c_active : gset (Z * Z);
  c_inactive : gset (Z * Z)
}.
Definition core_of (s : GovState S) : gov_core :=
  mkGovCore (gs_Deposits s) (gs_Votes s) (gs_ProposalID s) (gs_Proposals s) (gs_Active s) (gs_Inactive s).
Implicit Types c : gov_core.

(** The coins deposited on a proposal. *)
Definition deposited (id : Z) (D : gmap (Z * string) Deposit) (d : string) : Z :=
  msum (λ k (v : Deposit), if decide (k.1 = id) then amount (d_Amount v) d else 0) D.

Definition closed (p : Proposal) : Prop := p_Status p = StatusPassed ∨ p_Status p = StatusRejected ∨ p_Status p = StatusFailed.
(** In a voting period: the times are set. *)
Definition voting (p : Proposal) : Prop :=
  p_Status p = StatusVotingPeriod ∧ is_Some (p_DepositEndTime p) ∧ is_Some (p_VotingStartTime p) ∧ is_Some (p_VotingEndTime p).
Definition depositing (p : Proposal) : Prop :=
  p_Status p = StatusDepositPeriod ∧ is_Some (p_DepositEndTime p) ∧ p_VotingStartTime p = None ∧ p_VotingEndTime p = None.
(** The deposits add up to the total of the proposal. *)
Definition total_ok c (id : Z) (p : Proposal) : Prop :=
  valid_coins (p_TotalDeposit p) ∧ ∀ d, amount (p_TotalDeposit p) d = deposited id (c_deposits c) d.
Definition vote_ok (id : Z) (a : string) (v : Vote) : Prop :=
  v_ProposalId v = id ∧ StringToBytes (v_Voter v) = Ok a ∧ Forall (λ o, ValidWeightedVoteOption o = true) (v_Options v).
Definition deposit_ok (id : Z) (a : string) (d : Deposit) : Prop :=
  d_ProposalId d = id ∧ StringToBytes (d_Depositor d) = Ok a ∧ valid_coins (d_Amount d).

(** The invariant at one proposal; [x] is the proposal whose messages are being
    executed. *)
Definition phase_ok (x : option Z) c (id : Z) (p : Proposal) : Prop :=
  if decide (x = Some id) then voting p
  else
    (depositing p ∧ total_ok c id p ∧ ∀ t, p_DepositEndTime p = Some t → (t, id) ∈ c_inactive c) ∨
    (voting p ∧ total_ok c id p ∧ ∀ t, p_VotingEndTime p = Some t → (t, id) ∈ c_active c) ∨
    closed p.
Record inv_at (x : option Z) c (id : Z) : Prop := {
  ia_prop p : c_proposals c !! id = Some p → p_Id p = id ∧ 0 <= id < c_next c ∧ phase_ok x c id p;
  ia_inactive t : (t, id) ∈ c_inactive c → ∃ p, c_proposals c !! id = Some p ∧ depositing p ∧ p_DepositEndTime p = Some t;
  ia_active t : (t, id) ∈ c_active c → x ≠ Some id ∧ ∃ p, c_proposals c !! id = Some p ∧ voting p ∧ p_VotingEndTime p = Some t;
  ia_votes a v : c_votes c !! (id, a) = Some v → vote_ok id a v ∧ ∃ p, c_proposals c !! id = Some p ∧ ¬ depositing p;
  ia_deposits a d : c_deposits c !! (id, a) = Some d → deposit_ok id a d ∧ is_Some (c_proposals c !! id);
  ia_exempt : x = Some id → id < c_next c;
}.
Definition gov_inv (x : option Z) c : Prop := 0 <= c_next c < 2 ^ 64 ∧ ∀ id, inv_at x c id.

(** What messages may do to a proposal: nothing to one that does not exist or is
    closed; delete an open one; add deposits; start the voting period.  The
    messages of the proposal stay. *)
Definition evolves (o o' : option Proposal) : Prop :=
  match o, o' with
  | None, o' => o' = None
  | Some p, None => ¬ closed p
  | Some p, Some p' =>
      p' = p ∨
      (p_Messages p' = p_Messages p ∧ p_Proposer p' = p_Proposer p ∧
       ((voting p ∧ voting p' ∧ p_VotingEndTime p' = p_VotingEndTime p) ∨ (depositing p ∧ (depositing p' ∨ voting p'))))
  end.
Definition later c c' : Prop :=
  c_next c <= c_next c' ∧ ∀ id, id < c_next c → evolves (c_proposals c !! id) (c_proposals c' !! id).

Lemma phases_apart p : (depositing p → ¬ voting p) ∧ (depositing p → ¬ closed p) ∧ (voting p → ¬ closed p).
Proof. unfold depositing, voting, closed. naive_solver congruence. Qed.
Lemma evolves_refl o : evolves o o.
Proof. destruct o; cbn; [by left|done]. Qed.
Lemma evolves_trans o1 o2 o3 : evolves o1 o2 → evolves o2 o3 → evolves o1 o3.
Proof.
  destruct o1 as [p|], o2 as [q|], o3 as [r|]; cbn; try done; try congruence.
  - pose proof (phases_apart q). intros [->|(Hm & Hp & H1)]; [done|]. intros [->|(Hm' & Hp' & H2)]; [by right|].
    right. split_and!; [congruence..|]. naive_solver congruence.
  - pose proof (phases_apart p). pose proof (phases_apart q). naive_solver.
Qed.
#[export] Instance later_preorder : PreOrder later.
Proof.
  split; [intros c; split; [done|intros; apply evolves_refl]|].
  intros c1 c2 c3 [H1 E1] [H2 E2]. split; [lia|]. intros id Hid. eapply evolves_trans; [by apply E1|apply E2; lia].
Qed.

(** ** Updates *)

Lemma deposited_insert id id' a v D d : deposited id (<[(id', a) := v]> D) d =
  deposited id D d - (if decide (id' = id) then from_option (λ v, amount (d_Amount v) d) 0 (D !! (id', a)) else 0)
    + (if decide (id' = id) then amount (d_Amount v) d else 0).
Proof. unfold deposited. rewrite msum_insert. cbn. case_decide; destruct (D !! (id', a)); cbn; lia. Qed.
Lemma deposited_ext id D D' d : (∀ a, D !! (id, a) = D' !! (id, a)) → deposited id D d = deposited id D' d.
Proof. intros E. apply msum_ext. intros [id' a]. cbn. case_decide; [subst; by rewrite E|by destruct (D !! _), (D' !! _)]. Qed.
Lemma deposited_none id D d : (∀ a, D !! (id, a) = None) → deposited id D d = 0.
Proof. intros E. rewrite (deposited_ext id D ∅) by (intros a; by rewrite E, lookup_empty). apply msum_empty. Qed.

(** Two states with the same records of a proposal. *)
Definition same_at (id : Z) c c' : Prop :=
  c_proposals c' !! id = c_proposals c !! id ∧
  (∀ t, (t, id) ∈ c_active c' ↔ (t, id) ∈ c_active c) ∧
  (∀ t, (t, id) ∈ c_inactive c' ↔ (t, id) ∈ c_inactive c) ∧
  (∀ a, c_votes c' !! (id, a) = c_votes c !! (id, a)) ∧
  (∀ a, c_deposits c' !! (id, a) = c_deposits c !! (id, a)).
Lemma total_ok_same id c c' p : (∀ a, c_deposits c' !! (id, a) = c_deposits c !! (id, a)) → total_ok c id p → total_ok c' id p.
Proof. intros E [Hv H]. split; [done|]. intros d. rewrite H. by apply deposited_ext. Qed.
Lemma inv_at_same x x' id c c' : c_next c <= c_next c' → (x = Some id ↔ x' = Some id) → same_at id c c' → inv_at x c id → inv_at x' c' id.
Proof.
  intros Hn Hx (Ep & Ea & Ei & Ev & Ed) []. split.
  - intros p Hp. rewrite Ep in Hp. destruct (ia_prop0 p Hp) as (H1 & H2 & H3). split; [done|]. split; [lia|].
    revert H3. unfold phase_ok. repeat case_decide; try tauto. intros [(H3 & H4 & H5)|[(H3 & H4 & H5)|H3]]; [left|right; left|by right; right].
    + split_and!; [done|by eapply total_ok_same|intros t Ht; by apply Ei, H5].
    + split_and!; [done|by eapply total_ok_same|intros t Ht; by apply Ea, H5].
  - intros t Ht%Ei. rewrite Ep. by apply ia_inactive0.
  - intros t Ht%Ea. rewrite Ep, <- Hx. by apply ia_active0.
  - intros a v. rewrite Ev, Ep. apply ia_votes0.
  - intros a d. rewrite Ed, Ep. apply ia_deposits0.
  - intros Hx'%Hx. specialize (ia_exempt0 Hx'). lia.
Qed.
(** A step that writes the records of one proposal. *)
Lemma inv_update id x x' c c' : gov_inv x c → c_next c <= c_next c' < 2 ^ 64 →
  (∀ id', id' ≠ id → (x = Some id' ↔ x' = Some id') ∧ same_at id' c c') → inv_at x' c' id → gov_inv x' c'.
Proof.
  intros [Hn H] Hn' Hs Hid. split; [lia|]. intros id'. destruct (decide (id' = id)) as [->|Hne]; [done|].
  destruct (Hs id' Hne) as [Hx Hsame]. by apply (inv_at_same x x' id' c c'); [lia|..].
Qed.
Lemma later_update id c c' : c_next c <= c_next c' → (∀ id', id' ≠ id → same_at id' c c') →
  (id < c_next c → evolves (c_proposals c !! id) (c_proposals c' !! id)) → later c c'.
Proof.
  intros Hn Hs Hid. split; [done|]. intros id' Hlt. destruct (decide (id' = id)) as [->|Hne]; [by apply Hid|].
  destruct (Hs id' Hne) as [-> _]. apply evolves_refl.
Qed.
Lemma inv_fresh x c : gov_inv x c → c_proposals c !! c_next c = None ∧
  (∀ t, (t, c_next c) ∉ c_active c) ∧ (∀ t, (t, c_next c) ∉ c_inactive c) ∧
  (∀ a, c_votes c !! (c_next c, a) = None) ∧ (∀ a, c_deposits c !! (c_next c, a) = None).
Proof.
  intros [_ H]. specialize (H (c_next c)). destruct H.
  assert (c_proposals c !! c_next c = None) as E.
  { destruct (c_proposals c !! c_next c) as [p|] eqn:E; [|done]. destruct (ia_prop0 p eq_refl) as (_ & ? & _). lia. }
  split_and!; [done| | | |].
  - intros t Ht. destruct (ia_active0 t Ht) as (_ & p & Hp & _). congruence.
  - intros t Ht. destruct (ia_inactive0 t Ht) as (p & Hp & _). congruence.
  - intros a. destruct (c_votes c !! (c_next c, a)) as [v|] eqn:Ev; [|done]. destruct (ia_votes0 a v Ev) as (_ & p & Hp & _). congruence.
  - intros a. destruct (c_deposits c !! (c_next c, a)) as [v|] eqn:Ed; [|done]. destruct (ia_deposits0 a v Ed) as (_ & p & Hp). congruence.
Qed.
End Core.

(** The records of the other proposals. *)
Ltac same_at_tac :=
  split_and!; cbn; intros;
  rewrite ?lookup_insert_ne, ?lookup_delete_ne, ?map_lookup_filter by congruence;
  try solve [done | set_solver | tauto].


Section Updates.
Context {GM : GovMessages} {S : Type} {cfg : CoinConfig} {acfg : AddressConfig}.
Implicit Types c : gov_core.

Lemma inv_at_some x c id p : c_proposals c !! id = Some p → p_Id p = id → 0 <= id < c_next c → phase_ok x c id p →
  (∀ t, (t, id) ∈ c_inactive c → depositing p ∧ p_DepositEndTime p = Some t) →
  (∀ t, (t, id) ∈ c_active c → x ≠ Some id ∧ voting p ∧ p_VotingEndTime p = Some t) →
  (∀ a v, c_votes c !! (id, a) = Some v → vote_ok id a v ∧ ¬ depositing p) →
  (∀ a d, c_deposits c !! (id, a) = Some d → deposit_ok id a d) → inv_at x c id.
Proof.
  intros Hp Hid Hr Hph Hi Ha Hv Hd. split.
  - intros q Hq. rewrite Hp in Hq. by injection Hq as <-.
  - intros t Ht. exists p. split; [done|]. by apply Hi.
  - intros t Ht. destruct (Ha t Ht) as (? & ? & ?). eauto.
  - intros a v E. destruct (Hv a v E). eauto.
  - intros a d E. rewrite Hp. eauto.
  - intros _. lia.
Qed.
Lemma inv_at_none x c id : c_proposals c !! id = None → (∀ t, (t, id) ∉ c_inactive c) → (∀ t, (t, id) ∉ c_active c) →
  (∀ a, c_votes c !! (id, a) = None) → (∀ a, c_deposits c !! (id, a) = None) → (x = Some id → id < c_next c) → inv_at x c id.
Proof.
  intros Hp Hi Ha Hv Hd Hx. split; [congruence|by intros ? ?%Hi|by intros ? ?%Ha|..|done].
  - intros a v. by rewrite Hv.
  - intros a d. by rewrite Hd.
Qed.

Lemma inv_submit x c p t : gov_inv x c → c_next c < 2 ^ 64 - 1 → p_Id p = c_next c → depositing p → p_DepositEndTime p = Some t →
  p_TotalDeposit p = [] →
  let c' := mkGovCore (c_deposits c) (c_votes c) (c_next c + 1) (<[c_next c := p]> (c_proposals c)) (c_active c)
              ({[ (t, c_next c) ]} ∪ c_inactive c) in
  gov_inv x c' ∧ later c c'.
Proof.
  intros Hinv Hlt Hid Hdep Ht Htot c'. destruct (inv_fresh x c Hinv) as (Hp & Ha & Hi & Hv & Hd). pose proof Hinv as [Hn Hat].
  assert (x ≠ Some (c_next c)) as Hx. { intros E. pose proof (ia_exempt _ _ _ (Hat _) E). lia. }
  split.
  - apply (inv_update (c_next c) x x c); [done|cbn; lia|intros id' Hne; split; [done|same_at_tac]|].
    apply (inv_at_some x c' _ p); cbn; [apply lookup_insert_eq|done|lia|..].
    + unfold phase_ok. rewrite decide_False by done. left. split; [done|]. split; [|intros t'; set_solver].
      unfold total_ok. rewrite Htot. split; [apply valid_coins_nil|]. intros d. by rewrite deposited_none.
    + set_solver.
    + intros t' []%Ha.
    + intros a v. by rewrite Hv.
    + intros a v. by rewrite Hd.
  - apply (later_update (c_next c)); [cbn; lia|intros id' Hne; same_at_tac|lia].
Qed.

(** A proposal is deleted with its deposits and votes. *)
Lemma inv_remove x c id p D V A I : gov_inv x c → c_proposals c !! id = Some p → depositing p ∨ voting p →
  let c' := mkGovCore D V (c_next c) (delete id (c_proposals c)) A I in
  (∀ id', id' ≠ id → same_at id' c c') →
  (∀ a, D !! (id, a) = None) → (∀ a, V !! (id, a) = None) →
  (∀ t, (t, id) ∈ A → (t, id) ∈ c_active c ∧ p_VotingEndTime p ≠ Some t) →
  (∀ t, (t, id) ∈ I → (t, id) ∈ c_inactive c ∧ p_DepositEndTime p ≠ Some t) → gov_inv x c' ∧ later c c'.
Proof.
  intros Hinv Hp Hopen c' Hsame HD HV HA HI. pose proof Hinv as [Hn Hat]. split.
  - apply (inv_update id x x c); [done|cbn; lia|auto|].
    apply inv_at_none; cbn; [apply lookup_delete_eq|..|done|done|apply (ia_exempt _ _ _ (Hat id))].
    + intros t [H1 H2]%HI. destruct (ia_inactive _ _ _ (Hat id) t H1) as (q & Hq & _ & Et). congruence.
    + intros t [H1 H2]%HA. destruct (ia_active _ _ _ (Hat id) t H1) as (_ & q & Hq & _ & Et). congruence.
  - apply (later_update id); [cbn; lia|done|]. intros _. cbn. rewrite Hp, lookup_delete_eq. cbn. pose proof (phases_apart p). tauto.
Qed.

(** The phase of the proposal after a deposit, with the queues. *)
Definition deposit_phase c (id : Z) (p p' : Proposal) (A I : gset (Z * Z)) : Prop :=
  (depositing p ∧ depositing p' ∧ p_DepositEndTime p' = p_DepositEndTime p ∧ A = c_active c ∧ I = c_inactive c) ∨
  (voting p ∧ voting p' ∧ p_VotingEndTime p' = p_VotingEndTime p ∧ A = c_active c ∧ I = c_inactive c) ∨
  (depositing p ∧ voting p' ∧ ∃ t0 t, p_DepositEndTime p = Some t0 ∧ p_VotingEndTime p' = Some t ∧
     A = {[ (t, id) ]} ∪ c_active c ∧ I = c_inactive c ∖ {[ (t0, id) ]}).
Lemma inv_deposit x c id p p' a dep amt A I : gov_inv x c → c_proposals c !! id = Some p → deposit_phase c id p p' A I →
  p_Id p' = id → p_Messages p' = p_Messages p → p_Proposer p' = p_Proposer p →
  deposit_ok id a dep → (∀ d, amount (d_Amount dep) d = from_option (λ v, amount (d_Amount v) d) 0 (c_deposits c !! (id, a)) + amount amt d) →
  valid_coins (p_TotalDeposit p') → (∀ d, amount (p_TotalDeposit p') d = amount (p_TotalDeposit p) d + amount amt d) →
  let c' := mkGovCore (<[(id, a) := dep]> (c_deposits c)) (c_votes c) (c_next c) (<[id := p']> (c_proposals c)) A I in
  gov_inv x c' ∧ later c c'.
Proof.
  intros Hinv Hp Hph Hid Hm Hpr Hdep Hamt Hval Htot c'. pose proof Hinv as [Hn Hat].
  destruct (ia_prop _ _ _ (Hat id) p Hp) as (_ & Hrange & Hphase).
  assert (∀ id', id' ≠ id → same_at id' c c') as Hsame.
  { intros id' Hne. destruct Hph as [(_ & _ & _ & -> & ->)|[(_ & _ & _ & -> & ->)|(_ & _ & t0 & t & _ & _ & -> & ->)]]; same_at_tac. }
  assert (total_ok c id p → total_ok c' id p') as Htotal.
  { intros [_ Ht]. split; [done|]. intros d. cbn. rewrite Htot, deposited_insert, !decide_True, Ht, Hamt by done. lia. }
  pose proof (phases_apart p) as Hap. pose proof (phases_apart p') as Hap'. split.
  - apply (inv_update id x x c); [done|cbn; lia|auto|].
    apply (inv_at_some x c' _ p'); cbn; [apply lookup_insert_eq|done|lia|..].
    + revert Hphase. unfold phase_ok. case_decide; [unfold deposit_phase in Hph; naive_solver|].
      destruct Hph as [(Hd & Hd' & Ee & -> & ->)|[(Hv & Hv' & Ee & -> & ->)|(Hd & Hv' & t0 & t & E0 & Et & -> & ->)]]; intros Hphase.
      * left. split; [done|]. rewrite Ee. naive_solver.
      * right; left. split; [done|]. rewrite Ee. naive_solver.
      * right; left. split; [done|]. split; [naive_solver|]. intros t'. rewrite Et. set_solver.
    + intros t Ht. assert ((t, id) ∈ c_inactive c) as Hin by (unfold deposit_phase in Hph; set_solver).
      destruct (ia_inactive _ _ _ (Hat id) t Hin) as (q & Hq & Hqd & Hqt). rewrite Hp in Hq. injection Hq as <-.
      destruct Hph as [(Hd & Hd' & Ee & -> & ->)|[(Hv & _)|(Hd & Hv' & t0 & t' & E0 & Et & -> & ->)]];
        [split; congruence|naive_solver|set_solver].
    + intros t Ht. destruct (decide ((t, id) ∈ c_active c)) as [Hin|Hnin].
      * destruct (ia_active _ _ _ (Hat id) t Hin) as (Hx & q & Hq & Hqv & Hqt). rewrite Hp in Hq. injection Hq as <-.
        unfold deposit_phase in Hph. naive_solver congruence.
      * destruct Hph as [(_ & _ & _ & -> & _)|[(_ & _ & _ & -> & _)|(Hd & Hv' & t0 & t' & E0 & Et & -> & ->)]]; [done..|].
        assert (t = t') as -> by set_solver. split; [|done]. intros ->. unfold phase_ok in Hphase. rewrite decide_True in Hphase by done. naive_solver.
    + intros a' v Hv. destruct (ia_votes _ _ _ (Hat id) a' v Hv) as (Hok & q & Hq & Hnd). split; [done|]. simplify_eq.
      unfold deposit_phase in Hph. naive_solver.
    + intros a' d. destruct (decide (a' = a)) as [->|]; [rewrite lookup_insert_eq; congruence|].
      rewrite lookup_insert_ne by congruence. intros E. by apply (ia_deposits _ _ _ (Hat id) a' d).
  - apply (later_update id); [cbn; lia|done|]. intros _. cbn. rewrite Hp, lookup_insert_eq. cbn. right. split_and!; [done..|].
    unfold deposit_phase in Hph. naive_solver.
Qed.

Lemma inv_vote x c id p a v : gov_inv x c → c_proposals c !! id = Some p → p_Status p = StatusVotingPeriod → vote_ok id a v →
  let c' := mkGovCore (c_deposits c) (<[(id, a) := v]> (c_votes c)) (c_next c) (c_proposals c) (c_active c) (c_inactive c) in
  gov_inv x c' ∧ later c c'.
Proof.
  intros Hinv Hp Hst Hv c'. pose proof Hinv as [Hn Hat]. assert (∀ id', id' ≠ id → same_at id' c c') as Hsame by (intros; same_at_tac).
  split; [|apply (later_update id); [cbn; lia|done|intros; apply evolves_refl]].
  apply (inv_update id x x c); [done|cbn; lia|auto|]. destruct (Hat id) as [H1 H2 H3 H4 H5 H6]. split; cbn; [exact H1|exact H2|exact H3| |exact H5|exact H6].
  intros a' v'. destruct (decide (a' = a)) as [->|]; [|rewrite lookup_insert_ne by congruence; apply H4].
  rewrite lookup_insert_eq. intros [= <-]. split; [done|]. exists p. split; [done|]. intros [E _]. congruence.
Qed.

(** The end of a voting period: first the votes, the deposits that could be
    settled and the entry of the queue go. *)
Lemma inv_begin_close c id p t D V : gov_inv None c → c_proposals c !! id = Some p → voting p → p_VotingEndTime p = Some t →
  (∀ id' a, id' ≠ id → D !! (id', a) = c_deposits c !! (id', a)) → (∀ a, D !! (id, a) = None ∨ D !! (id, a) = c_deposits c !! (id, a)) →
  (∀ id' a, id' ≠ id → V !! (id', a) = c_votes c !! (id', a)) → (∀ a, V !! (id, a) = None) →
  gov_inv (Some id) (mkGovCore D V (c_next c) (c_proposals c) (c_active c ∖ {[ (t, id) ]}) (c_inactive c)).
Proof.
  intros Hinv Hp Hv Ht HD HDid HV HVid. pose proof Hinv as [Hn Hat]. destruct (ia_prop _ _ _ (Hat id) p Hp) as (Hid & Hr & _).
  apply (inv_update id None (Some id) c); [done|cbn; lia| |].
  - intros id' Hne. split; [naive_solver congruence|]. split_and!; cbn; [done|set_solver|done|auto..].
  - apply (inv_at_some _ _ _ p); cbn; [done|done|lia|by unfold phase_ok; rewrite decide_True| | | |].
    + intros t' Hi. destruct (ia_inactive _ _ _ (Hat id) t' Hi) as (q & Hq & Hd & _). pose proof (phases_apart p). naive_solver congruence.
    + intros t' [Ha Hne]%elem_of_difference. destruct (ia_active _ _ _ (Hat id) t' Ha) as (_ & q & Hq & _ & Et). set_solver.
    + intros a v. by rewrite HVid.
    + intros a d E. destruct (HDid a) as [E'|E']; [congruence|]. rewrite E' in E. by apply (ia_deposits _ _ _ (Hat id) a d).
Qed.
Lemma inv_close c id p' : gov_inv (Some id) c → 0 <= id → closed p' → p_Id p' = id →
  gov_inv None (mkGovCore (c_deposits c) (c_votes c) (c_next c) (<[id := p']> (c_proposals c)) (c_active c) (c_inactive c)).
Proof.
  intros Hinv H0 Hc Hid. pose proof Hinv as [Hn Hat]. pose proof (ia_exempt _ _ _ (Hat id) eq_refl). pose proof (phases_apart p').
  apply (inv_update id (Some id) None c); [done|cbn; lia| |].
  - intros id' Hne. split; [naive_solver congruence|]. same_at_tac.
  - apply (inv_at_some _ _ _ p'); cbn; [apply lookup_insert_eq|done|lia|by unfold phase_ok; rewrite decide_False by done; auto| | | |].
    + intros t Ht. destruct (ia_inactive _ _ _ (Hat id) t Ht) as (q & Hq & Hd & _). exfalso.
      destruct (ia_prop _ _ _ (Hat id) q Hq) as (_ & _ & Hph). unfold phase_ok in Hph. rewrite decide_True in Hph by done.
      pose proof (phases_apart q). naive_solver.
    + intros t Ht. by destruct (ia_active _ _ _ (Hat id) t Ht) as [[] _].
    + intros a v Hv. destruct (ia_votes _ _ _ (Hat id) a v Hv) as [? _]. naive_solver.
    + intros a d Hd. by apply (ia_deposits _ _ _ (Hat id) a d).
Qed.
Lemma inv_convert c id p p' t t' V : gov_inv None c → c_proposals c !! id = Some p → voting p → p_VotingEndTime p = Some t →
  voting p' → p_VotingEndTime p' = Some t' → p_TotalDeposit p' = p_TotalDeposit p → p_Id p' = p_Id p →
  (∀ id' a, id' ≠ id → V !! (id', a) = c_votes c !! (id', a)) → (∀ a, V !! (id, a) = None) →
  gov_inv None (mkGovCore (c_deposits c) V (c_next c) (<[id := p']> (c_proposals c)) ({[ (t', id) ]} ∪ c_active c ∖ {[ (t, id) ]}) (c_inactive c)).
Proof.
  intros Hinv Hp Hv Ht Hv' Ht' Etot Eid HV HVid. pose proof Hinv as [Hn Hat]. destruct (ia_prop _ _ _ (Hat id) p Hp) as (Hid & Hr & Hph).
  pose proof (phases_apart p). apply (inv_update id None None c); [done|cbn; lia| |].
  - intros id' Hne. split; [done|]. split_and!; cbn; [by rewrite lookup_insert_ne|set_solver|done|auto..].
  - apply (inv_at_some _ _ _ p'); cbn; [apply lookup_insert_eq|congruence|lia| | | | |].
    + unfold phase_ok in Hph |- *. rewrite decide_False in Hph by done. rewrite decide_False by done. right; left. split; [done|]. split; [|intros t2 E; rewrite Ht' in E; injection E as <-; cbn; apply elem_of_union; left; by apply elem_of_singleton].
      unfold total_ok in Hph |- *. rewrite Etot. destruct Hph as [(? & _)|[(_ & Hph & _)|?]]; [tauto|exact Hph|tauto].
    + intros t2 Hi. destruct (ia_inactive _ _ _ (Hat id) t2 Hi) as (q & Hq & Hd & _). naive_solver congruence.
    + intros t2 Ha. split; [done|]. split; [done|]. destruct (decide (t2 = t')) as [->|Hne]; [done|].
      apply elem_of_union in Ha as [[=]%elem_of_singleton|[Ha Hnt]%elem_of_difference]; [done|].
      destruct (ia_active _ _ _ (Hat id) t2 Ha) as (_ & q & Hq & _ & Et). destruct Hnt. apply elem_of_singleton. congruence.
    + intros a v. by rewrite HVid.
    + intros a d. by apply (ia_deposits _ _ _ (Hat id) a d).
Qed.
End Updates.

(** ** The core after a write *)

Section CoreWrites.
Context {GM : GovMessages} {S : Type}.
Implicit Types s : GovState S.
Lemma core_with_Deposits f s : core_of (with_Deposits f s) =
  mkGovCore (f (c_deposits (core_of s))) (c_votes (core_of s)) (c_next (core_of s)) (c_proposals (core_of s)) (c_active (core_of s)) (c_inactive (core_of s)).
Proof. done. Qed.
Lemma core_with_Votes f s : core_of (with_Votes f s) =
  mkGovCore (c_deposits (core_of s)) (f (c_votes (core_of s))) (c_next (core_of s)) (c_proposals (core_of s)) (c_active (core_of s)) (c_inactive (core_of s)).
Proof. done. Qed.
Lemma core_with_ProposalID n s : core_of (with_ProposalID n s) =
  mkGovCore (c_deposits (core_of s)) (c_votes (core_of s)) n (c_proposals (core_of s)) (c_active (core_of s)) (c_inactive (core_of s)).
Proof. done. Qed.
Lemma core_with_Proposals f s : core_of (with_Proposals f s) =
  mkGovCore (c_deposits (core_of s)) (c_votes (core_of s)) (c_next (core_of s)) (f (c_proposals (core_of s))) (c_active (core_of s)) (c_inactive (core_of s)).
Proof. done. Qed.
Lemma core_with_Active f s : core_of (with_Active f s) =
  mkGovCore (c_deposits (core_of s)) (c_votes (core_of s)) (c_next (core_of s)) (c_proposals (core_of s)) (f (c_active (core_of s))) (c_inactive (core_of s)).
Proof. done. Qed.
Lemma core_with_Inactive f s : core_of (with_Inactive f s) =
  mkGovCore (c_deposits (core_of s)) (c_votes (core_of s)) (c_next (core_of s)) (c_proposals (core_of s)) (c_active (core_of s)) (f (c_inactive (core_of s))).
Proof. done. Qed.
(** A field of the state by the core. *)
Lemma core_Proposals s : gs_Proposals s = c_proposals (core_of s).
Proof. done. Qed.
Lemma core_Deposits s : gs_Deposits s = c_deposits (core_of s).
Proof. done. Qed.
Lemma core_Votes s : gs_Votes s = c_votes (core_of s).
Proof. done. Qed.
Lemma core_next s : gs_ProposalID s = c_next (core_of s).
Proof. done. Qed.
End CoreWrites.
Create Rewrite HintDb gov_core.
#[export] Hint Rewrite @core_with_Deposits @core_with_Votes @core_with_ProposalID @core_with_Proposals @core_with_Active @core_with_Inactive : gov_core.
