(* ===== verification/GovOps.v ===== *)
(** * GovOps: the operations of the governance keeper keep the invariant

    The requests that the module serves as one type ([GovRequest]), what the
    application may do with the state of the module ([GovAppLaws]), and for each
    operation that it keeps the invariant and changes proposals only as [later]
    says. *)
From S2P Require Import Prelude MathInt LegacyDec DecString Coin CoinFacts Collections Account Bank Validator Staking StakingFacts Hoare Gov GovTally GovBlock GovFacts.

Section Steps.
Context {GM : GovMessages} {S : Type} {gk : GovKeepers S} {ga : GovApp S}.
Context {cfg : CoinConfig} {acfg : AddressConfig} {vcfg : ValAddressConfig}.
#[local] Abbreviation M := (GoM (GovState S)).

(** The messages whose handlers run no other message. *)
Inductive GovRequest :=
| ReqSubmitProposal (msg : MsgSubmitProposal)
| ReqSubmitMultipleChoiceProposal (msg : MsgSubmitMultipleChoiceProposal)
| ReqCancelProposal (proposalID : Z) (proposer : string)
| ReqVote (proposalID : Z) (voter : string) (option : VoteOption) (metadata : string)
| ReqVoteWeighted (proposalID : Z) (voter : string) (options : list WeightedVoteOption) (metadata : string)
| ReqDeposit (proposalID : Z) (depositor : string) (amount : Coins)
| ReqUpdateParams (authority : string) (params : GovParams)
| ReqUpdateMessageParams (authority msgUrl : string) (params : option MessageBasedParams)
| ReqLegacySubmitProposal (govAcct : string) (content : option gContent) (initialDeposit : Coins) (proposer : string)
| ReqLegacyVote (proposalID : Z) (voter : string) (option : VoteOption)
| ReqLegacyVoteWeighted (proposalID : Z) (voter : string) (options : list (VoteOption * Z))
| ReqLegacyDeposit (proposalID : Z) (depositor : string) (amount : Coins).
Definition handle (r : GovRequest) : M unit :=
  match r with
  | ReqSubmitProposal msg => _ ← GovMsg_SubmitProposal msg; mret tt
  | ReqSubmitMultipleChoiceProposal msg => _ ← GovMsg_SubmitMultipleChoiceProposal msg; mret tt
  | ReqCancelProposal id proposer => GovMsg_CancelProposal id proposer
  | ReqVote id voter option metadata => GovMsg_Vote id voter option metadata
  | ReqVoteWeighted id voter options metadata => GovMsg_VoteWeighted id voter options metadata
  | ReqDeposit id depositor amount => GovMsg_Deposit id depositor amount
  | ReqUpdateParams authority params => GovMsg_UpdateParams authority params
  | ReqUpdateMessageParams authority url params => GovMsg_UpdateMessageParams authority url params
  | ReqLegacySubmitProposal govAcct content deposit proposer => _ ← Legacy_SubmitProposal govAcct content deposit proposer; mret tt
  | ReqLegacyVote id voter option => Legacy_Vote id voter option
  | ReqLegacyVoteWeighted id voter options => Legacy_VoteWeighted id voter options
  | ReqLegacyDeposit id depositor amount => Legacy_Deposit id depositor amount
  end.

Definition submits (r : GovRequest) : bool :=
  match r with ReqSubmitProposal _ | ReqSubmitMultipleChoiceProposal _ | ReqLegacySubmitProposal _ _ _ _ => true | _ => false end.
Definition numbers_left (r : GovRequest) (s : GovState S) : Prop := submits r = true → gs_ProposalID s < 2 ^ 64 - 1.
(** A request that succeeds, with numbers for proposals left, or a change of the
    state of other modules that [other] allows. *)
Inductive op_step (other : S → S → Prop) : GovState S → GovState S → Prop :=
| step_request r s s' : numbers_left r s → handle r s = (Ok tt, s') → op_step other s s'
| step_other s x : other (gs_keepers s) x → op_step other s (with_gov_keepers x s).

(** What the application does: hooks write only to other modules; executing a
    message or the content of a legacy proposal reaches the store of this module only
    through its messages; and addresses that were decoded from strings are
    encoded to strings with the same address. *)
Definition hook_law (other : S → S → Prop) (m : M unit) : Prop :=
  ∀ s s', m s = (Ok tt, s') → ∃ x, s' = with_gov_keepers x s ∧ other (gs_keepers s) x.
Class GovAppLaws (other : S → S → Prop) : Prop := {
  gl_address str a str' : StringToBytes str = Ok a → BytesToString a = Ok str' → StringToBytes str' = Ok a;
  gl_hooks h : h ∈ ga_hooks →
    (∀ id, hook_law other (AfterProposalSubmission h id)) ∧
    (∀ id a, hook_law other (AfterProposalDeposit h id a)) ∧
    (∀ id a, hook_law other (AfterProposalVote h id a)) ∧
    (∀ id, hook_law other (AfterProposalFailedMinDeposit h id)) ∧
    (∀ id, hook_law other (AfterProposalVotingPeriodEnded h id));
  gl_invoke m s r s' : ga_Invoke m s = (Ok r, s') → rtc (op_step other) s s';
  gl_legacy path h content s s' : ga_legacyRouter !! path = Some h → h content s = (Ok tt, s') → rtc (op_step other) s s';
}.
End Steps.

Section Quiet.
Context {GM : GovMessages} {S : Type} {gk : GovKeepers S} {ga : GovApp S}.
Context {cfg : CoinConfig} {acfg : AddressConfig} {vcfg : ValAddressConfig} (other : S → S → Prop) {GL : GovAppLaws other}.
#[local] Abbreviation M := (GoM (GovState S)).
Implicit Types s : GovState S.

(** ** Calls that leave the core alone *)

Definition same_core s s' : Prop := core_of s' = core_of s.
#[export] Instance same_core_preorder : PreOrder same_core.
Proof. split; [done|]. unfold same_core. intros ???. congruence. Qed.
Lemma quiet_keepers {A} (m : GoM S A) : frame same_core (on_gov_keepers m).
Proof. intros s. unfold on_gov_keepers. by destruct (m (gs_keepers s)). Qed.
Lemma quiet_get {A} (f : GovState S → option A) : frame same_core (gs_get f).
Proof. unfold gs_get. frame. Qed.
Lemma quiet_deref {A} (p : option A) : frame same_core (deref (S := S) p).
Proof. unfold deref. frame. Qed.
#[local] Hint Resolve quiet_keepers quiet_get quiet_deref : frame.
Lemma quiet_govacct : frame same_core GetGovernanceAccount.
Proof. unfold GetGovernanceAccount. frame. Qed.
Lemma quiet_try_handler content : frame same_core (try_handler content).
Proof. intros s. unfold try_handler. case_match. by case_match. Qed.
#[local] Hint Resolve quiet_govacct quiet_try_handler : frame.
Lemma quiet_try_legacy msg : frame same_core (try_legacy_content msg).
Proof. unfold try_legacy_content. frame. Qed.
#[local] Hint Resolve quiet_try_legacy : frame.
Lemma quiet_check_msg several ty current msg : frame same_core (check_msg several ty current msg).
Proof. unfold check_msg. frame. Qed.
Lemma quiet_check_option id p o : frame same_core (check_option id p o).
Proof. unfold check_option. frame. Qed.
Lemma quiet_cancel_time params p : frame same_core (check_cancel_time params p).
Proof. unfold check_cancel_time, Time. frame. Qed.
Lemma quiet_settle_charges dest charges : frame same_core (settle_charges dest charges).
Proof. unfold settle_charges. frame. Qed.
#[local] Hint Resolve quiet_check_msg quiet_check_option quiet_cancel_time quiet_settle_charges : frame.

Lemma wlp_quiet {A} (m : M A) (P : gov_core → Prop) s : frame same_core m → P (core_of s) → wlp m (λ _ s', P (core_of s')) s.
Proof. intros Hm HP r s' E. pose proof (frame_run _ _ _ _ _ Hm E) as H. unfold same_core in H. by rewrite H. Qed.
Lemma wlp_core {A} (m : M A) s : frame same_core m → wlp m (λ _ s', core_of s' = core_of s) s.
Proof. intros Hm. by apply (wlp_quiet m (λ c, c = core_of s)). Qed.

(** Hooks that succeed. *)
Lemma join_errors_law (calls : list (M unit)) : Forall (hook_law other) calls → ∀ s, wlp (join_errors calls) (λ _ s', core_of s' = core_of s) s.
Proof.
  induction 1 as [|m calls Hm _ IH]; intros s; [by apply wlp_ret|]. intros [] s' E. cbn in E.
  destruct (m s) as [[[]|e|e] s1] eqn:E1.
  - destruct (Hm _ _ E1) as (x & -> & _). by apply IH in E.
  - by destruct (join_errors calls s1) as [[]].
  - done.
Qed.
Lemma hooks_law (f : GovHooks S → M unit) : (∀ h, h ∈ ga_hooks → hook_law other (f h)) → Forall (hook_law other) (f <$> ga_hooks).
Proof. intros H. apply Forall_fmap, Forall_forall. exact H. Qed.
Lemma wlp_hooks (f : GovHooks S → M unit) s : (∀ h, h ∈ ga_hooks → hook_law other (f h)) →
  wlp (join_errors (f <$> ga_hooks)) (λ _ s', core_of s' = core_of s) s.
Proof. intros H. by apply join_errors_law, hooks_law. Qed.
End Quiet.
#[export] Hint Resolve quiet_keepers quiet_get quiet_deref quiet_govacct quiet_check_msg quiet_check_option quiet_cancel_time quiet_settle_charges : frame.

Section Operations.
Context {GM : GovMessages} {S : Type} {gk : GovKeepers S} {ga : GovApp S}.
Context {cfg : CoinConfig} {acfg : AddressConfig} {vcfg : ValAddressConfig} (other : S → S → Prop) {GL : GovAppLaws other}.
#[local] Abbreviation M := (GoM (GovState S)).
Implicit Types s : GovState S.

(** The invariant holds after, and the proposals changed as they may. *)
Definition keeps (x : option Z) s s' : Prop := gov_inv x (core_of s') ∧ later (core_of s) (core_of s').
Lemma keeps_core x s s' : gov_inv x (core_of s) → core_of s' = core_of s → keeps x s s'.
Proof. intros Hi E. unfold keeps. rewrite E. by split. Qed.
Lemma keeps_trans x s1 s2 s3 : keeps x s1 s2 → keeps x s2 s3 → keeps x s1 s3.
Proof. intros [_ H1] [H2 H3]. split; [done|]. by etrans. Qed.

(** *** New proposals *)

Lemma wlp_SubmitProposal x s messages metadata title summary proposer ty : gov_inv x (core_of s) → gs_ProposalID s < 2 ^ 64 - 1 →
  wlp (SubmitProposal messages metadata title summary proposer ty)
    (λ p s', keeps x s s' ∧ p_Id p = gs_ProposalID s ∧ gs_Proposals s' !! p_Id p = Some p ∧ gs_ProposalID s' < 2 ^ 64) s.
Proof.
  intros Hinv Hn. unfold SubmitProposal. apply wlp_bind. wlp_call ltac:(apply wlp_core; frame). intros params s1 E1.
  do 2 (apply wlp_bind, wlp_liftM; intros ? ?). apply wlp_bind.
  wlp_call ltac:(apply wlp_core, frame_foldM; [apply _|intros; frame]). intros _ s2 E2. unfold Time.
  apply wlp_bind, wlp_readM, wlp_bind, wlp_modifyM, wlp_bind, wlp_readM, wlp_bind. cbv beta.
  wlp_call ltac:(apply wlp_core; frame). intros period s3 E3.
  apply wlp_bind, wlp_modifyM, wlp_bind, wlp_modifyM, wlp_bind.
  wlp_call ltac:(apply (wlp_hooks other); intros h Hh; by apply (gl_hooks (other := other) h Hh)). intros _ s4 E4. apply wlp_ret.
  assert (gs_ProposalID s2 = gs_ProposalID s) as En by (injection E2; injection E1; congruence).
  assert (core_of s2 = core_of s) as E by congruence.
  rewrite wrap_uint64_id in E3 by (pose proof (proj1 Hinv); cbn in *; lia).
  set (p := NewProposal _ _ _ _ _ _ _ _ _) in *. set (t := _ + period) in *.
  autorewrite with gov_core in *. rewrite E3, E in E4. cbn [c_deposits c_votes c_next c_proposals c_active c_inactive] in E4.
  destruct (inv_submit x (core_of s) p t Hinv) as [H1 H2]; [done|by rewrite <- core_next, <- En|by unfold depositing|done|done|].
  unfold keeps. rewrite core_Proposals, (core_next s4), E4. cbn [p p_Id NewProposal c_proposals c_next]. rewrite En, lookup_insert_eq.
  split_and!; [done..|]. change (gs_ProposalID s + 1 < 2 ^ 64). lia.
Qed.

(** *** Deposits *)

Lemma wlp_Activate s p t0 : p_DepositEndTime p = Some t0 →
  wlp (ActivateVotingPeriod p) (λ _ s', ∃ st en, core_of s' =
    mkGovCore (gs_Deposits s) (gs_Votes s) (gs_ProposalID s) (<[p_Id p := set_VotingPeriod st en p]> (gs_Proposals s))
      ({[ (en, p_Id p) ]} ∪ gs_Active s) (gs_Inactive s ∖ {[ (t0, p_Id p) ]})) s.
Proof.
  intros Ht. unfold ActivateVotingPeriod, Time. apply wlp_bind, wlp_readM, wlp_bind. wlp_call ltac:(apply wlp_core; frame).
  intros params s1 E1. apply wlp_bind, wlp_readM, wlp_bind. wlp_call ltac:(apply wlp_core; frame). intros period s2 E2.
  apply wlp_bind, wlp_modifyM, wlp_bind. rewrite Ht. apply wlp_liftM. intros ? [= <-]. apply wlp_bind, wlp_modifyM, wlp_modifyM.
  eexists _, _. autorewrite with gov_core. by rewrite E2, E1.
Qed.
Lemma wlp_SetDeposit s dep a : StringToBytes (d_Depositor dep) = Ok a →
  wlp (SetDeposit dep) (λ _ s', s' = with_Deposits <[(d_ProposalId dep, a) := dep]> s) s.
Proof. intros Ha. unfold SetDeposit. apply wlp_bind, wlp_liftM. intros b Hb. apply wlp_modifyM. congruence. Qed.
(** The proposal of a deposit, which starts its voting period if the total is
    enough. *)
Definition deposit_state s id (p : Proposal) (total : Coins) s' : Prop := ∃ p' A I,
  core_of s' = mkGovCore (gs_Deposits s) (gs_Votes s) (gs_ProposalID s) (<[id := p']> (gs_Proposals s)) A I ∧
  deposit_phase (core_of s) id p p' A I ∧ p_Id p' = id ∧ p_Messages p' = p_Messages p ∧ p_Proposer p' = p_Proposer p ∧
  p_TotalDeposit p' = total.
Lemma wlp_deposit_phase s p total (enough : bool) s1 : depositing p ∨ voting p → (enough = true → p_Status p = StatusDepositPeriod) →
  core_of s1 = core_of (with_Proposals <[p_Id p := set_TotalDeposit total p]> s) →
  wlp (if enough then ActivateVotingPeriod (set_TotalDeposit total p) else mret tt) (λ _ s', deposit_state s (p_Id p) p total s') s1.
Proof.
  intros Hph Henough E1. autorewrite with gov_core in E1. destruct enough.
  - assert (depositing p) as Hd. { destruct Hph as [?|[Hv _]]; [done|]. specialize (Henough eq_refl). congruence. }
    pose proof Hd as (_ & [t0 Ht0] & _ & _). wlp_call ltac:(by apply (wlp_Activate s1 (set_TotalDeposit total p) t0)).
    intros _ s2 (st & en & E2). exists (set_VotingPeriod st en (set_TotalDeposit total p)), ({[ (en, p_Id p) ]} ∪ gs_Active s), (gs_Inactive s ∖ {[ (t0, p_Id p) ]}).
    split; [|split_and!; try done; right; right; split; [done|]; split; [split_and!; cbn; eauto|exists t0, en; done]].
    rewrite E2. injection E1 as -> -> -> -> -> ->. cbn. by rewrite insert_insert_eq.
  - apply wlp_ret. exists (set_TotalDeposit total p), (gs_Active s), (gs_Inactive s). split; [done|]. split_and!; try done.
    destruct Hph as [Hd|Hv]; [left|right; left]; done.
Qed.
Lemma open_phase x s id p : gov_inv x (core_of s) → gs_Proposals s !! id = Some p → negb (is_open p) = false → p_Id p = id ∧ (depositing p ∨ voting p).
Proof.
  intros [_ Hat] Hp Hopen. destruct (ia_prop _ _ _ (Hat id) p Hp) as (Hid & _ & Hph). split; [done|].
  unfold phase_ok in Hph. case_decide; [by right|]. destruct Hph as [(? & _)|[(? & _)|Hc]]; [by left|by right|].
  unfold is_open in Hopen. destruct Hc as [E|[E|E]]; by rewrite E in Hopen.
Qed.
Lemma wlp_AddDeposit x s id a amt str : gov_inv x (core_of s) → valid_coins amt → StringToBytes str = Ok a →
  wlp (AddDeposit id a amt) (λ _ s', keeps x s s') s.
Proof.
  intros Hinv Hamt Hstr. unfold AddDeposit. apply wlp_bind. unfold gs_get at 1. apply wlp_bind, wlp_readM, wlp_liftM.
  intros p Hp. destruct (gs_Proposals s !! id) as [p0|] eqn:Hlook; [|done]. injection Hp as ->.
  apply wlp_bind, wlp_liftM. intros _ Hopen%guard_err_Ok. apply wlp_bind. wlp_call ltac:(apply wlp_core; frame). intros params s1 E1.
  do 2 (apply wlp_bind, wlp_liftM; intros ? ?). apply wlp_bind. wlp_call ltac:(apply wlp_core; frame). intros _ s2 E2.
  apply wlp_bind. wlp_call ltac:(apply wlp_core; frame). intros _ s3 E3. apply wlp_bind, wlp_liftM. intros total Htotal.
  destruct (open_phase x s id p Hinv Hlook Hopen) as [Hid Hphase].
  assert (core_of s3 = core_of s) as E by congruence. clear s1 s2 E1 E2 E3. subst id.
  apply wlp_bind, wlp_modifyM, wlp_bind.
  apply wlp_mono with (P := λ enough s', core_of s' = core_of (with_Proposals <[p_Id p := set_TotalDeposit total p]> s) ∧
                                         (enough = true → p_Status p = StatusDepositPeriod)).
  { cbn. assert (core_of (with_Proposals <[p_Id p := set_TotalDeposit total p]> s3) = core_of (with_Proposals <[p_Id p := set_TotalDeposit total p]> s))
      as E' by (autorewrite with gov_core; by rewrite E).
    case_decide; [apply wlp_liftM; by intros|by apply wlp_ret]. }
  intros enough s4 [E4 Hst]. apply wlp_bind. wlp_call ltac:(by apply (wlp_deposit_phase s p total)).
  intros _ s5 (p' & A & I & E5 & Hdp & Hid & Hm & Hpr & Htot). apply wlp_bind, wlp_liftM. intros addr Haddr.
  apply wlp_bind, wlp_readM. rewrite core_Deposits, E5. cbn [c_deposits]. apply wlp_bind, wlp_liftM. intros dep Hdep.
  apply wlp_bind. wlp_call ltac:(apply (wlp_hooks other); intros h Hh; by apply (gl_hooks (other := other) h Hh)). intros _ s6 E6.
  apply outcome_bind_Ok in Htotal as (c & Hnew & Hadd). destruct (add_to_coins _ _ _ _ Hnew Hadd Hamt) as [Htv Hta].
  assert (deposit_ok (p_Id p) a dep ∧ ∀ d, amount (d_Amount dep) d =
    from_option (λ v, amount (d_Amount v) d) 0 (gs_Deposits s !! (p_Id p, a)) + amount amt d) as [Hok Hda].
  { destruct (gs_Deposits s !! (p_Id p, a)) as [d0|] eqn:Ed.
    - destruct (ia_deposits _ _ _ (proj2 Hinv (p_Id p)) a d0 Ed) as [(H1 & H2 & _) _].
      apply outcome_bind_Ok in Hdep as (c1 & Hn1 & (c2 & Ha2 & [= <-])%outcome_bind_Ok). by destruct (add_to_coins _ _ _ _ Hn1 Ha2 Hamt).
    - injection Hdep as <-. split; [|done]. split_and!; [done| |done]. cbn. by eapply gl_address. }
  apply wlp_bind. wlp_call ltac:(by apply (wlp_SetDeposit s6 dep a), Hok). intros _ s7 ->. apply wlp_ret. unfold keeps.
  rewrite core_with_Deposits, E6, E5. cbn [c_deposits c_votes c_next c_proposals c_active c_inactive]. rewrite (proj1 Hok).
  apply (inv_deposit x (core_of s) (p_Id p) p p' a dep amt A I); try done; by rewrite Htot.
Qed.

(** *** Removing the deposits of a proposal *)

Lemma entries_of_elem {V} (id : Z) (m : gmap (Z * string) V) (a : string) (v : V) : (a, v) ∈ entries_of id m ↔ m !! (id, a) = Some v.
Proof.
  unfold entries_of. rewrite merge_sort_Permutation, list_elem_of_omap. split.
  - intros ([[id' a'] v'] & Hin & E). apply elem_of_map_to_list in Hin. destruct (Z.eqb_spec id' id) as [->|]; naive_solver.
  - intros H. exists ((id, a), v). rewrite elem_of_map_to_list. split; [done|]. by rewrite Z.eqb_refl.
Qed.
Definition removes {V} (id : Z) (keys : list string) (D D' : gmap (Z * string) V) : Prop :=
  ∀ k, D' !! k = if decide (k.1 = id ∧ k.2 ∈ keys) then None else D !! k.
Lemma removes_cons {V} (id : Z) (a : string) (keys : list string) (D D' : gmap (Z * string) V) : removes id keys (delete (id, a) D) D' → removes id (a :: keys) D D'.
Proof.
  intros H [id' a']. rewrite H. cbn. destruct (decide ((id', a') = (id, a))) as [[= -> ->]|Hne].
  - rewrite lookup_delete_eq. destruct (decide (id = id ∧ a ∈ a :: keys)) as [|[]]; [by case_decide|split; [done|by left]].
  - rewrite lookup_delete_ne by congruence. destruct (decide (id' = id ∧ a' ∈ keys)) as [[? ?]|Hn], (decide (id' = id ∧ a' ∈ a :: keys)) as [[? Hin]|Hn']; try done.
    + destruct Hn'. split; [done|by right].
    + apply elem_of_cons in Hin as [->|?]; [congruence|]. by destruct Hn.
Qed.
Lemma removes_nil {V} (id : Z) (D : gmap (Z * string) V) : removes id [] D D.
Proof. intros k. case_decide as H; [|done]. by destruct H as [_ ?%not_elem_of_nil]. Qed.
(** All the entries of the proposal are gone, and no others. *)
Definition emptied {V} (id : Z) (D D' : gmap (Z * string) V) : Prop :=
  (∀ id' a, id' ≠ id → D' !! (id', a) = D !! (id', a)) ∧ ∀ a, D' !! (id, a) = None.
Lemma removes_emptied {V} (id : Z) (D D' : gmap (Z * string) V) : removes id (entries_of id D).*1 D D' → emptied id D D'.
Proof.
  intros H. split.
  - intros id' a Hne. rewrite H. cbn. by rewrite decide_False by tauto.
  - intros a. rewrite H. cbn. case_decide as Hd; [done|]. destruct (D !! (id, a)) as [v|] eqn:E; [|done].
    destruct Hd. split; [done|]. apply list_elem_of_fmap. exists (a, v). by rewrite entries_of_elem.
Qed.
Definition removed_deposits id keys s s' : Prop :=
  ∃ D', core_of s' = core_of (with_Deposits (λ _, D') s) ∧ removes id keys (gs_Deposits s) D'.
Definition cleared id s s' : Prop := ∃ D', core_of s' = core_of (with_Deposits (λ _, D') s) ∧ emptied id (gs_Deposits s) D'.
Lemma removed_cons id a keys s s1 s' : core_of s1 = core_of (with_Deposits (delete (id, a)) s) → removed_deposits id keys s1 s' →
  removed_deposits id (a :: keys) s s'.
Proof.
  intros E (D' & E' & HR). exists D'. autorewrite with gov_core in *. rewrite core_Deposits, E in HR. rewrite E in E'. split; [done|].
  by apply removes_cons.
Qed.
Lemma removed_nil id s : removed_deposits id [] s s.
Proof. exists (gs_Deposits s). split; [done|apply removes_nil]. Qed.
Lemma removed_cleared id s s' : removed_deposits id (entries_of id (gs_Deposits s)).*1 s s' → cleared id s s'.
Proof. intros (D' & E & HR). exists D'. split; [done|]. by apply removes_emptied. Qed.
Lemma wlp_remove_fold {B} (f : B → string * Deposit → M B) id l :
  (∀ b kd s, kd ∈ l → wlp (f b kd) (λ _ s', core_of s' = core_of (with_Deposits (delete (id, kd.1)) s)) s) →
  ∀ b s, wlp (foldM f b l) (λ _ s', removed_deposits id l.*1 s s') s.
Proof.
  induction l as [|kd l IH]; intros Hf b s; [apply wlp_ret, removed_nil|]. cbn [foldM]. apply wlp_bind.
  wlp_call ltac:(apply Hf; by left). intros b1 s1 E1. wlp_call ltac:(apply IH; intros; apply Hf; by right).
  intros b2 s2 H2. by eapply removed_cons.
Qed.
Lemma wlp_remove_for (f : string * Deposit → M unit) id l :
  (∀ kd s, wlp (f kd) (λ _ s', core_of s' = core_of (with_Deposits (delete (id, kd.1)) s)) s) →
  ∀ s, wlp (forM_ f l) (λ _ s', removed_deposits id l.*1 s s') s.
Proof.
  intros Hf. induction l as [|kd l IH]; intros s; [apply wlp_ret, removed_nil|]. cbn [forM_]. apply wlp_bind.
  wlp_call ltac:(apply Hf). intros [] s1 E1. wlp_call ltac:(apply IH). intros [] s2 H2. by eapply removed_cons.
Qed.
Lemma wlp_Refund id s : wlp (RefundAndDeleteDeposits id) (λ _ s', cleared id s s') s.
Proof.
  unfold RefundAndDeleteDeposits, GetDeposits. apply wlp_bind, wlp_readM. eapply wlp_mono; [|intros ??; apply removed_cleared].
  apply wlp_remove_for. intros kd s1. apply wlp_bind. wlp_call ltac:(apply wlp_core; frame). intros _ s2 E. apply wlp_modifyM.
  autorewrite with gov_core. by rewrite E.
Qed.
Lemma wlp_Burn id s : wlp (DeleteAndBurnDeposits id) (λ _ s', cleared id s s') s.
Proof.
  unfold DeleteAndBurnDeposits, GetDeposits. apply wlp_bind, wlp_readM, wlp_bind. eapply wlp_mono.
  - apply (wlp_remove_fold _ id). intros b kd s1 _. apply wlp_bind, wlp_liftM. intros ? _. by apply wlp_bind, wlp_modifyM, wlp_ret.
  - intros coins s1 H%removed_cleared. wlp_call ltac:(apply wlp_core; frame). intros _ s2 E. unfold cleared. by rewrite E.
Qed.
Lemma wlp_Charge x id dest rate s : gov_inv x (core_of s) → wlp (ChargeDeposit id dest rate) (λ _ s', cleared id s s') s.
Proof.
  intros [_ Hat]. unfold ChargeDeposit, GetDeposits. apply wlp_bind, wlp_liftM. intros r _. apply wlp_bind, wlp_readM, wlp_bind. eapply wlp_mono.
  - apply (wlp_remove_fold _ id). intros ch [a dep] s1 Hin. apply entries_of_elem in Hin.
    destruct (ia_deposits _ _ _ (Hat id) a dep Hin) as [(Hid & Ha & _) _]. unfold charge_one.
    apply wlp_bind, wlp_liftM. intros a' Ha'. cbn in Ha'. assert (a' = a) as -> by congruence. apply wlp_bind, wlp_liftM. intros res _.
    apply wlp_bind. wlp_call ltac:(apply wlp_core; frame). intros _ s2 E. apply wlp_bind, wlp_modifyM, wlp_ret.
    autorewrite with gov_core. cbn [snd fst]. by rewrite E, Hid.
  - intros coins s1 H%removed_cleared. wlp_call ltac:(apply wlp_core; frame). intros _ s2 E. unfold cleared. by rewrite E.
Qed.

(** *** Deleting a proposal *)

Definition queue_without (t : option Z) (id : Z) (q : gset (Z * Z)) : gset (Z * Z) :=
  match t with Some t => q ∖ {[ (t, id) ]} | None => q end.
Lemma wlp_DeleteProposal s id p : gs_Proposals s !! id = Some p →
  wlp (DeleteProposal id) (λ _ s', core_of s' = mkGovCore (gs_Deposits s) (gs_Votes s) (gs_ProposalID s) (delete id (gs_Proposals s))
    (queue_without (p_VotingEndTime p) id (gs_Active s)) (queue_without (p_DepositEndTime p) id (gs_Inactive s))) s.
Proof.
  intros Hp. unfold DeleteProposal. apply wlp_bind. unfold gs_get. apply wlp_bind, wlp_readM, wlp_liftM. rewrite Hp. intros q [= <-].
  apply wlp_bind. destruct (p_DepositEndTime p) as [t|]; [apply wlp_modifyM|apply wlp_ret];
    apply wlp_bind; (destruct (p_VotingEndTime p) as [t'|]; [apply wlp_modifyM|apply wlp_ret]); by apply wlp_modifyM.
Qed.
Lemma filter_emptied {V} (id : Z) (m : gmap (Z * string) V) : emptied id m (filter (λ kv, kv.1.1 ≠ id) m).
Proof.
  split.
  - intros id' a Hne. destruct (m !! (id', a)) as [v|] eqn:E; [by apply map_lookup_filter_Some_2|].
    apply map_lookup_filter_None_2. by left.
  - intros a. apply map_lookup_filter_None_2. right. intros v _ H. by apply H.
Qed.
(** Nothing is left of a proposal that is removed. *)
Lemma keeps_remove x s s' id p D V : gov_inv x (core_of s) → gs_Proposals s !! id = Some p → depositing p ∨ voting p →
  emptied id (gs_Deposits s) D → emptied id (gs_Votes s) V →
  core_of s' = mkGovCore D V (gs_ProposalID s) (delete id (gs_Proposals s)) (queue_without (p_VotingEndTime p) id (gs_Active s))
    (queue_without (p_DepositEndTime p) id (gs_Inactive s)) → keeps x s s'.
Proof.
  intros Hinv Hp Hph [HD1 HD2] [HV1 HV2] E. unfold keeps. rewrite E.
  apply (inv_remove x (core_of s) id p); [done..| |done|done| |].
  - intros id' Hne. split_and!; cbn; [by rewrite lookup_delete_ne| | |auto|auto]; unfold queue_without; case_match; set_solver.
  - unfold queue_without. cbn. case_match; set_solver.
  - unfold queue_without. cbn. case_match; set_solver.
Qed.
Lemma votes_of_depositing x s id p : gov_inv x (core_of s) → gs_Proposals s !! id = Some p → depositing p → emptied id (gs_Votes s) (gs_Votes s).
Proof.
  intros [_ Hat] Hp Hd. split; [done|]. intros a. destruct (gs_Votes s !! (id, a)) as [v|] eqn:E; [|done].
  destruct (ia_votes _ _ _ (Hat id) a v E) as (_ & q & Hq & Hnd). cbn in Hq. congruence.
Qed.
Lemma wlp_Cancel x s id proposer : gov_inv x (core_of s) → wlp (CancelProposal id proposer) (λ _ s', keeps x s s') s.
Proof.
  intros Hinv. unfold CancelProposal. apply wlp_bind, wlp_readM. destruct (gs_Proposals s !! id) as [p|] eqn:Hp; [|apply wlp_errM].
  apply wlp_bind. wlp_call ltac:(apply wlp_core; frame). intros params s1 E1. do 2 (apply wlp_bind, wlp_liftM; intros _ _).
  apply wlp_bind, wlp_liftM. intros _ Hopen%guard_err_Ok. destruct (open_phase x s id p Hinv Hp Hopen) as [<- Hph].
  apply wlp_bind. wlp_call ltac:(apply wlp_core; frame). intros _ s2 E2. assert (core_of s2 = core_of s) as E by congruence.
  apply wlp_bind. wlp_call ltac:(apply (wlp_Charge x); by rewrite E). intros _ s3 (D & E3 & HD). rewrite core_Deposits, E in HD.
  autorewrite with gov_core in E3. rewrite E in E3. cbn [c_deposits c_votes c_next c_proposals c_active c_inactive core_of] in *.
  apply wlp_bind. apply wlp_mono with (P := λ _ s', ∃ V, core_of s' = core_of (with_Votes (λ _, V) s3) ∧ emptied (p_Id p) (gs_Votes s) V).
  { case_decide as Hn.
    - apply wlp_ret. exists (gs_Votes s3). split; [done|]. injection E3 as _ -> _ _ _ _. apply (votes_of_depositing x s _ p); [done..|].
      destruct Hph as [?|(_ & _ & [t Ht] & _)]; [done|congruence].
    - apply wlp_modifyM. exists (filter (λ kv, kv.1.1 ≠ p_Id p) (gs_Votes s)). split; [|apply filter_emptied].
      autorewrite with gov_core. by rewrite E3. }
  intros _ s4 (V & E4 & HV). autorewrite with gov_core in E4. rewrite E3 in E4. cbn [c_deposits c_votes c_next c_proposals c_active c_inactive] in *.
  wlp_call ltac:(apply (wlp_DeleteProposal s4 _ p); by rewrite core_Proposals, E4). intros _ s5 E5. injection E4 as EA EB EC ED EE EF.
  rewrite EA, EB, EC, ED, EE, EF in E5. by eapply keeps_remove.
Qed.

(** *** Votes *)

Lemma check_option_valid id p o s : wlp (check_option id p o) (λ _ s', core_of s' = core_of s ∧ ValidWeightedVoteOption o = true) s.
Proof.
  intros [] s' E. split; [by eapply (frame_run same_core), E; frame|]. unfold check_option in E.
  apply GoM_bind_Ok in E as (? & s1 & _ & [H%guard_err_Ok _]%liftM_Ok). by apply Bool.negb_false_iff in H.
Qed.
Lemma wlp_check_options id p options s : wlp (forM_ (check_option id p) options)
  (λ _ s', core_of s' = core_of s ∧ Forall (λ o, ValidWeightedVoteOption o = true) options) s.
Proof.
  revert s. induction options as [|o options IH]; intros s; [by apply wlp_ret|]. cbn [forM_]. apply wlp_bind.
  wlp_call ltac:(apply check_option_valid). intros _ s1 [E1 Ho]. wlp_call ltac:(apply IH). intros _ s2 [E2 Hos].
  split; [congruence|by constructor].
Qed.
Lemma wlp_AddVote x s id a options metadata str : gov_inv x (core_of s) → StringToBytes str = Ok a → wlp (AddVote id a options metadata) (λ _ s', keeps x s s') s.
Proof.
  intros Hinv Hstr. unfold AddVote. apply wlp_bind, wlp_readM. destruct (gs_Proposals s !! id) as [p|] eqn:Hp; [|apply wlp_errM].
  apply wlp_bind, wlp_liftM. intros _ Hst%guard_err_Ok. apply Bool.negb_false_iff, bool_decide_eq_true in Hst.
  do 2 (apply wlp_bind, wlp_liftM; intros ? _). apply wlp_bind. wlp_call ltac:(apply wlp_check_options). intros _ s1 [E1 Hos].
  apply wlp_bind, wlp_liftM. intros voter Hvoter. apply wlp_bind, wlp_modifyM.
  wlp_call ltac:(apply (wlp_hooks other); intros h Hh; by apply (gl_hooks (other := other) h Hh)). intros _ s2 E2.
  unfold keeps. rewrite E2. autorewrite with gov_core. rewrite E1.
  apply (inv_vote x (core_of s) id p); [done..|]. split_and!; [done|by eapply gl_address|done].
Qed.

(** *** Requests *)

Lemma wlp_invalid_address {A} (r : outcome A) (Q : A → GovState S → Prop) s : (∀ a, r = Ok a → Q a s) → wlp (invalid_address r) Q s.
Proof. intros H. unfold invalid_address. apply wlp_liftM. intros a. destruct r; try done. intros [= <-]. by apply H. Qed.
Lemma validateInitialDeposit_valid params deposit ty u : validateInitialDeposit params deposit ty = Ok u → valid_coins deposit.
Proof.
  unfold validateInitialDeposit. intros (? & H%guard_err_Ok & _)%outcome_bind_Ok.
  apply Bool.orb_false_iff in H as [H%Bool.negb_false_iff _]. by apply Coins_IsValid_spec.
Qed.
Lemma wlp_Msg_Submit x s msg : gov_inv x (core_of s) → gs_ProposalID s < 2 ^ 64 - 1 → wlp (GovMsg_SubmitProposal msg) (λ _ s', keeps x s s') s.
Proof.
  intros Hinv Hn. unfold GovMsg_SubmitProposal. apply wlp_bind, wlp_invalid_address. intros proposer Hpr.
  apply wlp_bind, wlp_liftM. intros _ _. apply wlp_bind. wlp_call ltac:(apply wlp_core; frame). intros _ s1 E1.
  apply wlp_bind, wlp_liftM. intros _ _. apply wlp_bind. wlp_call ltac:(apply wlp_core; frame). intros params s2 E2.
  assert (core_of s2 = core_of s) as E by congruence.
  apply wlp_bind, wlp_liftM. intros _ Hdep%validateInitialDeposit_valid. apply wlp_bind, wlp_liftM. intros _ _.
  apply wlp_bind. wlp_call ltac:(apply (wlp_SubmitProposal x); [by rewrite E|by rewrite core_next, E]). intros p s3 (Hk & _).
  unfold keeps in Hk. rewrite E in Hk. apply wlp_bind. wlp_call ltac:(by apply (wlp_AddDeposit x _ _ _ _ (sp_Proposer msg)); [apply Hk|..]).
  intros _ s4 Hk2. apply wlp_ret. by eapply keeps_trans.
Qed.
Lemma wlp_Msg_Multiple x s msg : gov_inv x (core_of s) → gs_ProposalID s < 2 ^ 64 - 1 →
  wlp (GovMsg_SubmitMultipleChoiceProposal msg) (λ _ s', keeps x s s') s.
Proof.
  intros Hinv Hn. unfold GovMsg_SubmitMultipleChoiceProposal. apply wlp_bind. wlp_call ltac:(by apply wlp_Msg_Submit). intros id s1 Hk.
  destruct (mc_VoteOptions msg); [|apply wlp_errM]. do 2 (apply wlp_bind, wlp_liftM; intros ? _). by apply wlp_bind, wlp_modifyM, wlp_ret.
Qed.
Lemma wlp_Msg_Vote x s id voter option metadata : gov_inv x (core_of s) → wlp (GovMsg_Vote id voter option metadata) (λ _ s', keeps x s s') s.
Proof.
  intros Hinv. unfold GovMsg_Vote. apply wlp_bind, wlp_invalid_address. intros a Ha. apply wlp_bind, wlp_liftM. intros _ _. by eapply wlp_AddVote.
Qed.
Lemma wlp_Msg_VoteWeighted x s id voter options metadata : gov_inv x (core_of s) →
  wlp (GovMsg_VoteWeighted id voter options metadata) (λ _ s', keeps x s s') s.
Proof.
  intros Hinv. unfold GovMsg_VoteWeighted. apply wlp_bind, wlp_invalid_address. intros a Ha.
  do 4 (apply wlp_bind, wlp_liftM; intros ? _). by eapply wlp_AddVote.
Qed.
Lemma wlp_Msg_Deposit x s id depositor amt : gov_inv x (core_of s) → wlp (GovMsg_Deposit id depositor amt) (λ _ s', keeps x s s') s.
Proof.
  intros Hinv. unfold GovMsg_Deposit. apply wlp_bind, wlp_invalid_address. intros a Ha. apply wlp_bind, wlp_liftM.
  intros _ Hv%guard_err_Ok. apply Bool.orb_false_iff in Hv as [Hv%Bool.negb_false_iff _]. apply Coins_IsValid_spec in Hv.
  apply wlp_bind. wlp_call ltac:(by apply (wlp_AddDeposit x _ _ _ _ depositor)). intros _ s1 Hk. by apply wlp_ret.
Qed.
Lemma wlp_Legacy_Submit x s govAcct content deposit proposer : gov_inv x (core_of s) → gs_ProposalID s < 2 ^ 64 - 1 →
  wlp (Legacy_SubmitProposal govAcct content deposit proposer) (λ _ s', keeps x s s') s.
Proof.
  intros Hinv Hn. unfold Legacy_SubmitProposal. destruct content as [content|]; [|apply wlp_errM].
  do 3 (apply wlp_bind, wlp_liftM; intros ? _). by apply wlp_Msg_Submit.
Qed.
Lemma wlp_handle x s r : gov_inv x (core_of s) → numbers_left r s → wlp (handle r) (λ _ s', keeps x s s') s.
Proof.
  intros Hinv Hn.
  assert (∀ {A} (m : M A), wlp m (λ _ s', keeps x s s') s → wlp (_ ← m; mret tt) (λ _ s', keeps x s s') s) as Hunit.
  { intros A m Hm. apply wlp_bind. wlp_call ltac:(exact Hm). intros _ s1 H. by apply wlp_ret. }
  destruct r; cbn [handle].
  - by apply Hunit, wlp_Msg_Submit; [|apply Hn].
  - by apply Hunit, wlp_Msg_Multiple; [|apply Hn].
  - unfold GovMsg_CancelProposal. apply wlp_bind, wlp_invalid_address. intros _ _. by apply wlp_Cancel.
  - by apply wlp_Msg_Vote.
  - by apply wlp_Msg_VoteWeighted.
  - by apply wlp_Msg_Deposit.
  - unfold GovMsg_UpdateParams. do 2 (apply wlp_bind, wlp_liftM; intros ? _). apply wlp_modifyM. by apply keeps_core.
  - unfold GovMsg_UpdateMessageParams. apply wlp_bind, wlp_liftM. intros _ _. destruct params as [p|]; [|apply wlp_modifyM; by apply keeps_core].
    case_decide; [apply wlp_modifyM; by apply keeps_core|]. apply wlp_bind, wlp_liftM. intros _ _. apply wlp_modifyM. by apply keeps_core.
  - by apply Hunit, wlp_Legacy_Submit; [|apply Hn].
  - by apply wlp_Msg_Vote.
  - by apply wlp_Msg_VoteWeighted.
  - by apply wlp_Msg_Deposit.
Qed.
Lemma op_step_keeps x s s' : op_step other s s' → gov_inv x (core_of s) → keeps x s s'.
Proof.
  intros [r s0 s1 Hn E|s0 y Hy] Hinv; [|by apply keeps_core]. by apply (wlp_handle x s0 r) in E.
Qed.
Lemma op_steps_keep x s s' : rtc (op_step other) s s' → gov_inv x (core_of s) → keeps x s s'.
Proof.
  induction 1 as [s|s1 s2 s3 H _ IH]; intros Hinv; [by apply keeps_core|].
  apply (op_step_keeps x) in H as Hk; [|done]. eapply keeps_trans; [done|apply IH, Hk].
Qed.
End Operations.
