(* ===== verification/GovProps.v ===== *)
(** * GovProps: properties of governance

    The steps of the module on a chain ([gov_step]): requests, executed messages,
    the end of a block, and what other modules do.  From a fresh genesis on the
    invariant holds, and a proposal only moves forward. *)
From S2P Require Import Prelude MathInt LegacyDec DecString Coin CoinFacts Collections Account Bank Validator Staking StakingFacts Hoare Gov GovTally GovBlock GovFacts GovOps.

(** ** The end of a block keeps the governance invariant

    Dropping proposals whose deposit period ended, tallying and closing those whose
    voting period ended, with the execution of their messages. *)

Section EndBlock.
Context {GM : GovMessages} {S : Type} {gk : GovKeepers S} {ga : GovApp S}.
Context {cfg : CoinConfig} {acfg : AddressConfig} {vcfg : ValAddressConfig} (other : S → S → Prop) {GL : GovAppLaws other}.
#[local] Abbreviation M := (GoM (GovState S)).
Implicit Types s : GovState S.
#[local] Existing Instance same_core_preorder.

(** *** The tally takes the votes away *)

Definition votes_taken id s s' : Prop := ∃ V, core_of s' = core_of (with_Votes (λ _, V) s) ∧ emptied id (gs_Votes s) V.
Lemma quiet_validators : frame same_core getCurrentValidators.
Proof. unfold getCurrentValidators. frame. Qed.
Lemma quiet_count_vote c kv : frame same_core (count_vote c kv).
Proof. unfold count_vote. frame. Qed.
Lemma quiet_standard p power bonded results params : frame (same_core (S := S)) (tallyStandard p power bonded results params).
Proof. unfold tallyStandard. frame. Qed.
#[local] Hint Resolve quiet_validators quiet_count_vote quiet_standard : frame.
Lemma wlp_delete_votes id (l : list (string * Vote)) s :
  wlp (forM_ (λ kv : string * Vote, modifyM (with_Votes (delete (id, kv.1)))) l)
    (λ _ s', ∃ V, core_of s' = core_of (with_Votes (λ _, V) s) ∧ removes id l.*1 (gs_Votes s) V) s.
Proof.
  revert s. induction l as [|kv l IH]; intros s; [apply wlp_ret; exists (gs_Votes s); split; [done|apply removes_nil]|]. cbn [forM_].
  apply wlp_bind, wlp_modifyM. wlp_call ltac:(apply IH). intros _ s2 (V & E & HR). exists V. split; [done|]. by apply removes_cons.
Qed.
Lemma wlp_calculate id validators s : wlp (defaultCalculateVoteResultsAndVotingPower id validators) (λ _ s', votes_taken id s s') s.
Proof.
  unfold defaultCalculateVoteResultsAndVotingPower. apply wlp_bind, wlp_readM, wlp_bind.
  wlp_call ltac:(apply wlp_core, frame_foldM; [apply _|intros; frame]). intros c s1 E1. apply wlp_bind.
  wlp_call ltac:(apply wlp_delete_votes). intros _ s2 (V & E2 & HR). apply wlp_liftM. intros r _.
  exists V. autorewrite with gov_core in *. rewrite (core_Votes s1), E1 in HR. rewrite E1 in E2. split; [done|]. by apply removes_emptied.
Qed.
Lemma wlp_Tally p s : wlp (Tally p) (λ _ s', votes_taken (p_Id p) s s') s.
Proof.
  unfold Tally. apply wlp_bind. wlp_call ltac:(apply wlp_core; frame). intros validators s1 E1. apply wlp_bind.
  wlp_call ltac:(apply wlp_calculate). intros [power results] s2 (V & E2 & HV).
  assert (votes_taken (p_Id p) s s2) as Hvt.
  { exists V. autorewrite with gov_core in *. rewrite (core_Votes s1), E1 in HV. by rewrite E1 in E2. }
  eapply wlp_mono; [apply wlp_core; frame|]. cbn. intros r s3 E3. unfold votes_taken. by rewrite E3.
Qed.

(** *** Settling the deposits, also when it fails *)

Definition trimmed id s s' : Prop := ∃ D, core_of s' = core_of (with_Deposits (λ _, D) s) ∧
  (∀ id' a, id' ≠ id → D !! (id', a) = gs_Deposits s !! (id', a)) ∧ ∀ a, D !! (id, a) = None ∨ D !! (id, a) = gs_Deposits s !! (id, a).
#[local] Instance trimmed_preorder id : PreOrder (trimmed id).
Proof.
  split; [intros s; exists (gs_Deposits s); by auto|]. intros s1 s2 s3 (D & E & H1 & H2) (D' & E' & H1' & H2'). exists D'.
  autorewrite with gov_core in *. rewrite (core_Deposits s2), E in H1', H2'. rewrite E in E'. split; [done|]. cbn in *. split.
  - intros id' a Hne. by rewrite H1', H1.
  - intros a. destruct (H2' a) as [Hn|Hn]; rewrite Hn; auto.
Qed.
Lemma trimmed_core id s s' : core_of s' = core_of s → trimmed id s s'.
Proof. intros E. exists (gs_Deposits s). autorewrite with gov_core. by auto. Qed.
Lemma trimmed_keepers {A} id (m : GoM S A) : frame (trimmed id) (on_gov_keepers m).
Proof. intros s. apply trimmed_core. apply (quiet_keepers m s). Qed.
Lemma trimmed_delete id a : frame (trimmed id) (modifyM (with_Deposits (S := S) (delete (id, a)))).
Proof.
  intros s. exists (delete (id, a) (gs_Deposits s)). split; [done|]. split; [intros; by rewrite lookup_delete_ne by congruence|].
  intros a'. destruct (decide (a' = a)) as [->|]; [left; apply lookup_delete_eq|right; by rewrite lookup_delete_ne by congruence].
Qed.
Lemma frame_log_error (R : GovState S → GovState S → Prop) (m : M unit) : frame R m → frame R (log_error m).
Proof. intros H s. unfold log_error. specialize (H s). by destruct (m s) as [[] ?]. Qed.
#[local] Hint Resolve trimmed_keepers trimmed_delete : frame.
Lemma trimmed_settle passes burn p : frame (trimmed (p_Id p)) (settle_deposits passes burn p).
Proof.
  unfold settle_deposits, DeleteAndBurnDeposits, RefundAndDeleteDeposits, GetDeposits.
  destruct burn; [|destruct (passes || negb (is_fast p))]; repeat first [apply trimmed_delete|frame_step].
Qed.

(** *** Hooks and messages in a branch *)

Lemma wlp_log_branch (f : GovHooks S → M unit) s : (∀ h, h ∈ ga_hooks → hook_law other (f h)) →
  wlp (log_error (BranchService_Execute (join_errors (f <$> ga_hooks)))) (λ _ s', core_of s' = core_of s) s.
Proof.
  intros Hf [] s' E. unfold log_error, BranchService_Execute in E. destruct (join_errors (f <$> ga_hooks) s) as [[[]|e|e] s1] eqn:E1.
  - injection E as <-. by apply (wlp_hooks other f s Hf) in E1.
  - by injection E as <-.
  - done.
Qed.
Lemma execute_steps msgs : ∀ s s', forM_ safeExecuteHandler msgs s = (Ok tt, s') → rtc (op_step other) s s'.
Proof.
  induction msgs as [|m msgs IH]; intros s s' E; [by injection E as <-|]. cbn [forM_] in E.
  apply GoM_bind_Ok in E as ([] & s1 & E1 & E2). etrans; [|by apply IH]. unfold safeExecuteHandler in E1.
  destruct (ga_Invoke m s) as [[r|e|e] s2] eqn:Ei; try done. injection E1 as <-. by eapply gl_invoke.
Qed.
(** Executing the messages closes the proposal. *)
Lemma wlp_execute params p s id : gov_inv (Some id) (core_of s) →
  wlp (execute_messages params p) (λ p' s', keeps (Some id) s s' ∧ ∃ st reason, p' = set_Closed st reason p ∧ (st = StatusPassed ∨ st = StatusFailed)) s.
Proof.
  intros Hinv p' s' E. unfold execute_messages, BranchService_Execute in E. destruct (ga_out_of_gas _ _ _).
  { injection E as <- <-. split; [by apply keeps_core|eauto]. }
  destruct (forM_ safeExecuteHandler (p_Messages p) s) as [[[]|e|e] s1] eqn:E1; [revert E; intros [= <- <-]..|done].
  - split; [|eauto]. apply execute_steps in E1. by apply (op_steps_keep other).
  - split; [by apply keeps_core|eauto].
Qed.

(** *** Closing a proposal *)

(** The outcome of a vote: the proposal is closed, or an expedited or optimistic one
    becomes a standard one. *)
Definition concludes (p p' : Proposal) : Prop :=
  voting p ∧ p_Messages p' = p_Messages p ∧ p_Proposer p' = p_Proposer p ∧
  (closed p' ∨ (voting p' ∧ is_fast p = true ∧ p_ProposalType p' = PROPOSAL_TYPE_STANDARD)).
Definition closes id c c' : Prop :=
  gov_inv None c' ∧ c_next c <= c_next c' ∧ (∀ id', id' ≠ id → id' < c_next c → evolves (c_proposals c !! id') (c_proposals c' !! id')) ∧
  ∃ p p', c_proposals c !! id = Some p ∧ c_proposals c' !! id = Some p' ∧ concludes p p'.
Lemma closes_by_status s s1 s2 id p st reason tally : gov_inv None (core_of s) → gs_Proposals s !! id = Some p → p_Id p = id → voting p →
  gs_Proposals s1 = gs_Proposals s → gs_ProposalID s1 = gs_ProposalID s → keeps (Some id) s1 s2 →
  st = StatusPassed ∨ st = StatusRejected ∨ st = StatusFailed →
  closes id (core_of s) (core_of (with_Proposals <[id := set_FinalTallyResult tally (set_Closed st reason p)]> s2)).
Proof.
  intros Hinv Hp Hid Hv EP EN [Hk1 [Hk2 Hk3]] Hst. set (p' := set_FinalTallyResult _ _).
  assert (closed p') as Hc by (destruct Hst as [->|[->| ->]]; unfold closed; auto). cbn in Hk2, Hk3.
  destruct (ia_prop _ _ _ (proj2 Hinv id) p Hp) as (_ & Hr & _). unfold closes. autorewrite with gov_core. split.
  { apply inv_close; [done|lia|done|done]. }
  split; [cbn in *; lia|]. split.
  - intros id' Hne Hlt. cbn in *. rewrite lookup_insert_ne by done. rewrite <- EP. apply Hk3. lia.
  - exists p, p'. cbn. rewrite lookup_insert_eq. unfold concludes. split_and!; [done..|by left].
Qed.
Lemma closes_by_conversion s s2 id p t t' V tally : gov_inv None (core_of s) → gs_Proposals s !! id = Some p → voting p → is_fast p = true →
  p_VotingEndTime p = Some t → emptied id (gs_Votes s) V →
  core_of s2 = mkGovCore (gs_Deposits s) V (gs_ProposalID s) (<[id := set_FinalTallyResult tally (set_Standard t' p)]> (gs_Proposals s))
    ({[ (t', id) ]} ∪ gs_Active s ∖ {[ (t, id) ]}) (gs_Inactive s) → closes id (core_of s) (core_of s2).
Proof.
  intros Hinv Hp Hv Hf Ht [HV1 HV2] E. unfold closes. rewrite E. set (p' := set_FinalTallyResult _ _).
  assert (voting p') as Hv'. { destruct Hv as (? & ? & ? & _). split_and!; cbn; [done..|by eexists]. } split.
  { by apply (inv_convert (core_of s) id p p' t t'). }
  split; [done|]. split.
  - intros id' Hne _. cbn. rewrite lookup_insert_ne by done. apply evolves_refl.
  - exists p, p'. cbn. rewrite lookup_insert_eq. unfold concludes. split_and!; [done..|]. by right.
Qed.

(** The state in which a proposal is decided: its votes are gone, and its deposits
    unless it may be converted. *)
Definition deciding s id t (convert : bool) s3 : Prop := ∃ D V,
  core_of s3 = mkGovCore D V (gs_ProposalID s) (gs_Proposals s) (gs_Active s ∖ {[ (t, id) ]}) (gs_Inactive s) ∧
  emptied id (gs_Votes s) V ∧ (∀ id' a, id' ≠ id → D !! (id', a) = gs_Deposits s !! (id', a)) ∧
  (∀ a, D !! (id, a) = None ∨ D !! (id, a) = gs_Deposits s !! (id, a)) ∧ (convert = true → D = gs_Deposits s).
Lemma wlp_settle s s1 p t passes burn : p_VotingEndTime p = Some t → votes_taken (p_Id p) s s1 →
  wlp (log_error (settle_deposits passes burn p))
    (λ _ s2, deciding s (p_Id p) t (negb passes && negb burn && is_fast p) (with_Active (.∖ {[ (t, p_Id p) ]}) s2)) s1.
Proof.
  intros Ht (V & E1 & HV).
  apply wlp_mono with (P := λ _ s2, trimmed (p_Id p) s1 s2 ∧ (negb passes && negb burn && is_fast p = true → s2 = s1)).
  { intros [] s2 E. split; [eapply (frame_run (trimmed (p_Id p))), E; apply frame_log_error, trimmed_settle|].
    intros [[Hp Hb]%andb_prop Hf]%andb_prop. apply Bool.negb_true_iff in Hp as ->, Hb as ->. unfold log_error, settle_deposits in E.
    rewrite Hf in E. cbn in E. by injection E. }
  intros _ s2 [(D & E2 & HD1 & HD2) Hconv].
  autorewrite with gov_core in *. rewrite E1 in E2. rewrite (core_Deposits s1), E1 in HD1, HD2. exists D, V. autorewrite with gov_core. rewrite E2.
  split_and!; try done. intros Hc. specialize (Hconv Hc). subst s2. rewrite E1 in E2. by injection E2 as <-.
Qed.
Lemma wlp_decide s s3 p t params passes burn tally : gov_inv None (core_of s) → gs_Proposals s !! p_Id p = Some p → voting p →
  p_VotingEndTime p = Some t → deciding s (p_Id p) t (negb passes && negb burn && is_fast p) s3 →
  wlp (decide_proposal params passes burn p)
    (λ p' s4, closes (p_Id p) (core_of s) (core_of (with_Proposals <[p_Id p' := set_FinalTallyResult tally p']> s4))) s3.
Proof.
  intros Hinv Hp Hv Ht (D & V & E3 & HV & HD1 & HD2 & Hconv).
  assert (gov_inv (Some (p_Id p)) (core_of s3)) as Hinv3.
  { rewrite E3. apply (inv_begin_close (core_of s) (p_Id p) p t); [done..|apply HV|apply HV]. }
  injection E3 as EA EB EC ED EE EF. unfold decide_proposal. destruct passes; [|destruct (negb burn && is_fast p) eqn:Hfast].
  - wlp_call ltac:(by apply (wlp_execute params p s3 (p_Id p))). intros p' s4 (Hk & st & reason & -> & Hst).
    apply (closes_by_status s s3 s4); try done. tauto.
  - unfold convert_to_standard. apply wlp_bind, wlp_liftM. intros start _. apply wlp_bind, wlp_liftM. intros period _.
    apply wlp_bind, wlp_modifyM, wlp_ret. apply andb_prop in Hfast as [Hb Hf]. rewrite Hb, Hf in Hconv. specialize (Hconv eq_refl).
    apply (closes_by_conversion s _ _ p t (start + period) V tally); try done.
    autorewrite with gov_core. unfold core_of. cbn. by rewrite EA, EB, EC, ED, EE, EF, Hconv.
  - apply wlp_ret. apply (closes_by_status s s3 s3); [done..|by apply keeps_core|tauto].
Qed.
Lemma wlp_close_active s params key : gov_inv None (core_of s) →
  (∀ p, gs_Proposals s !! key.2 = Some p → voting p ∧ p_VotingEndTime p = Some key.1) →
  wlp (close_active params key) (λ _ s', closes key.2 (core_of s) (core_of s')) s.
Proof.
  intros Hinv Hkey. unfold close_active. apply wlp_bind. unfold gs_get. apply wlp_bind, wlp_readM, wlp_liftM. intros p Hp.
  destruct (gs_Proposals s !! key.2) as [p0|] eqn:Hlook; [|done]. injection Hp as ->. destruct (Hkey p eq_refl) as [Hv Ht].
  destruct (ia_prop _ _ _ (proj2 Hinv key.2) p Hlook) as (Hid & _). rewrite <- Hid in *. apply wlp_bind.
  wlp_call ltac:(apply wlp_Tally). intros [[passes burn] tally] s1 Hvt.
  apply wlp_bind. wlp_call ltac:(by apply (wlp_settle s s1 p key.1)). intros _ s2 Hdec.
  apply wlp_bind, wlp_liftM. rewrite Ht. intros ? [= <-]. apply wlp_bind, wlp_modifyM, wlp_bind.
  wlp_call ltac:(by apply (wlp_decide s _ p key.1)). intros p' s4 Hc. apply wlp_bind, wlp_modifyM.
  wlp_call ltac:(apply wlp_log_branch; intros h Hh; by apply (gl_hooks (other := other) h Hh)). intros _ s5 E5. by rewrite E5.
Qed.

(** *** Dropping a proposal *)

Lemma wlp_drop_inactive s params key : gov_inv None (core_of s) → (∀ p, gs_Proposals s !! key.2 = Some p → depositing p) →
  wlp (drop_inactive params key) (λ _ s', keeps None s s' ∧ gs_Proposals s' = delete key.2 (gs_Proposals s)) s.
Proof.
  intros Hinv Hkey. unfold drop_inactive. apply wlp_bind. unfold gs_get. apply wlp_bind, wlp_readM, wlp_liftM. intros p Hp.
  destruct (gs_Proposals s !! key.2) as [p0|] eqn:Hlook; [|done]. injection Hp as ->. pose proof (Hkey p eq_refl) as Hd.
  destruct (ia_prop _ _ _ (proj2 Hinv key.2) p Hlook) as (Hid & _). rewrite <- Hid in *. apply wlp_bind.
  wlp_call ltac:(by apply wlp_DeleteProposal). intros _ s1 E1. apply wlp_bind.
  apply wlp_mono with (P := λ _ s2, cleared (p_Id p) s1 s2); [destruct (gp_BurnProposalDepositPrevote params); [apply wlp_Burn|apply wlp_Refund]|].
  intros _ s2 (D & E2 & HD). wlp_call ltac:(apply wlp_log_branch; intros h Hh; by apply (gl_hooks (other := other) h Hh)). intros _ s3 E3.
  autorewrite with gov_core in *. rewrite (core_Deposits s1), E1 in HD. rewrite E1 in E2. rewrite E2 in E3. split; [|by rewrite (core_Proposals s3), E3].
  apply (keeps_remove other None s s3 (p_Id p) p D (gs_Votes s)); [done|done|by left|done| |done]. by eapply votes_of_depositing.
Qed.
Definition pending_drop (l : list (Z * Z)) s : Prop :=
  NoDup l.*2 ∧ ∀ key p, key ∈ l → gs_Proposals s !! key.2 = Some p → depositing p.
Lemma wlp_drops params l s : gov_inv None (core_of s) → pending_drop l s → wlp (forM_ (drop_inactive params) l) (λ _ s', keeps None s s') s.
Proof.
  revert s. induction l as [|key l IH]; intros s Hinv [Hnd Hl]; [by apply wlp_ret, keeps_core|]. cbn [forM_]. apply wlp_bind.
  cbn in Hnd. apply NoDup_cons in Hnd as [Hk Hnd].
  wlp_call ltac:(apply wlp_drop_inactive; [done|intros p; apply Hl; by left]). intros _ s1 [Hk1 E1].
  wlp_call ltac:(apply IH; [apply Hk1|split; [done|]]).
  - intros key' p Hin. rewrite E1. intros [_ Hp]%lookup_delete_Some. apply (Hl key' p); [by right|done].
  - intros _ s2 Hk2. by eapply keeps_trans.
Qed.

(** *** The life of a proposal over whole blocks *)

Definition lifecycle (o o' : option Proposal) : Prop :=
  match o, o' with
  | None, o' => o' = None
  | Some p, None => ¬ closed p
  | Some p, Some p' =>
      p' = p ∨ (p_Messages p' = p_Messages p ∧ p_Proposer p' = p_Proposer p ∧ ¬ closed p ∧ (voting p → ¬ depositing p'))
  end.
Definition progress c c' : Prop := c_next c <= c_next c' ∧ ∀ id, id < c_next c → lifecycle (c_proposals c !! id) (c_proposals c' !! id).
Lemma evolves_lifecycle o o' : evolves o o' → lifecycle o o'.
Proof.
  destruct o as [p|], o' as [p'|]; cbn; try done. intros [->|(Hm & Hpr & H)]; [by left|]. right.
  pose proof (phases_apart p). pose proof (phases_apart p'). naive_solver.
Qed.
Lemma later_progress c c' : later c c' → progress c c'.
Proof. intros [Hn H]. split; [done|]. intros id Hid. by apply evolves_lifecycle, H. Qed.
Lemma closes_progress id c c' : closes id c c' → progress c c'.
Proof.
  intros (_ & Hn & Hothers & p & p' & Hp & Hp' & Hv & Hm & Hpr & Hc). split; [done|]. intros id' Hid.
  destruct (decide (id' = id)) as [->|Hne]; [|by apply evolves_lifecycle, Hothers]. rewrite Hp, Hp'. cbn. right.
  pose proof (phases_apart p). pose proof (phases_apart p'). naive_solver.
Qed.
Definition pending_close (l : list (Z * Z)) c : Prop :=
  NoDup l.*2 ∧ ∀ key, key ∈ l → key.2 < c_next c ∧ ∀ p, c_proposals c !! key.2 = Some p → voting p ∧ p_VotingEndTime p = Some key.1.
Lemma evolves_pending o o' t : evolves o o' → (∀ p, o = Some p → voting p ∧ p_VotingEndTime p = Some t) →
  ∀ p, o' = Some p → voting p ∧ p_VotingEndTime p = Some t.
Proof.
  intros He Ho p ->. destruct o as [q|]; [|done]. destruct (Ho q eq_refl) as [Hv Ht]. pose proof (phases_apart q).
  destruct He as [->|(_ & _ & [(_ & Hv' & Et)|[Hd _]])]; [done|split; [done|congruence]|naive_solver].
Qed.
Lemma pending_close_tail key l c c' : pending_close (key :: l) c → closes key.2 c c' → pending_close l c'.
Proof.
  intros [Hnd Hl] (_ & Hn & Hothers & _). cbn in Hnd. apply NoDup_cons in Hnd as [Hk Hnd]. split; [done|]. intros key' Hin.
  destruct (Hl key' ltac:(by right)) as [Hlt Hp]. split; [lia|]. apply (evolves_pending (c_proposals c !! key'.2)); [|done].
  apply Hothers; [|done]. intros E. apply Hk. rewrite <- E. by apply list_elem_of_fmap_2.
Qed.

Lemma lifecycle_refl o : lifecycle o o.
Proof. destruct o; cbn; [by left|done]. Qed.
(** With well-formed states between, phases do not go back. *)
Lemma lifecycle_trans o1 o2 o3 : (∀ p, o2 = Some p → depositing p ∨ voting p ∨ closed p) →
  lifecycle o1 o2 → lifecycle o2 o3 → lifecycle o1 o3.
Proof.
  intros Hok. destruct o1 as [p|], o2 as [q|], o3 as [r|]; cbn; try done; try congruence.
  - pose proof (phases_apart q). specialize (Hok q eq_refl). intros [->|(Hm & Hp & Hc & Hd)]; [done|]. intros [->|(Hm' & Hp' & Hc' & Hd')]; [by right|].
    right. split_and!; [congruence..|done|]. intros Hv. specialize (Hd Hv). tauto.
  - intros [->|(_ & _ & Hc & _)]; [done|]. done.
Qed.
Lemma inv_phases x c id p : gov_inv x c → c_proposals c !! id = Some p → depositing p ∨ voting p ∨ closed p.
Proof.
  intros [_ Hat] Hp. destruct (ia_prop _ _ _ (Hat id) p Hp) as (_ & _ & Hph). unfold phase_ok in Hph. case_decide; [by right; left|]. tauto.
Qed.
Lemma progress_refl c : progress c c.
Proof. split; [done|]. intros. apply lifecycle_refl. Qed.
Lemma progress_trans x c1 c2 c3 : gov_inv x c2 → progress c1 c2 → progress c2 c3 → progress c1 c3.
Proof.
  intros Hinv [Hn1 H1] [Hn2 H2]. split; [lia|]. intros id Hid. eapply lifecycle_trans; [|by apply H1|apply H2; lia].
  intros p Hp. by eapply inv_phases.
Qed.

Lemma wlp_closes params l s : gov_inv None (core_of s) → pending_close l (core_of s) →
  wlp (forM_ (close_active params) l) (λ _ s', gov_inv None (core_of s') ∧ progress (core_of s) (core_of s')) s.
Proof.
  revert s. induction l as [|key l IH]; intros s Hinv Hl; [apply wlp_ret; split; [done|apply progress_refl]|]. cbn [forM_]. apply wlp_bind.
  wlp_call ltac:(apply wlp_close_active; [done|intros p; by apply (proj2 Hl key); left]). intros _ s1 Hc.
  wlp_call ltac:(apply IH; [apply Hc|by eapply pending_close_tail]). intros _ s2 [H1 H2]. split; [done|].
  eapply progress_trans; [apply Hc|by eapply closes_progress|done].
Qed.

(** *** The end of a block *)

Lemma due_elem now q key : key ∈ due now q → key ∈ q.
Proof. unfold due. rewrite merge_sort_Permutation, elem_of_elements. set_solver. Qed.
Lemma due_nodup now q : (∀ t t' id, (t, id) ∈ q → (t', id) ∈ q → t = t') → NoDup (due now q).*2.
Proof.
  intros H. apply NoDup_fmap_2_strong.
  - intros [t id] [t' id'] H1%due_elem H2%due_elem E. cbn in E. subst id'. f_equal. by eapply H.
  - unfold due. rewrite merge_sort_Permutation. apply NoDup_elements.
Qed.
Lemma pending_drop_due now s : gov_inv None (core_of s) → pending_drop (due now (gs_Inactive s)) s.
Proof.
  intros [_ Hat]. split.
  - apply due_nodup. intros t t' id H1 H2. destruct (ia_inactive _ _ _ (Hat id) t H1) as (p & Hp & _ & E).
    destruct (ia_inactive _ _ _ (Hat id) t' H2) as (p' & Hp' & _ & E'). congruence.
  - intros [t id] p Hin%due_elem Hp. destruct (ia_inactive _ _ _ (Hat id) t Hin) as (p' & Hp' & Hd & _). cbn in *. congruence.
Qed.
Lemma pending_close_due now s : gov_inv None (core_of s) → pending_close (due now (gs_Active s)) (core_of s).
Proof.
  intros [_ Hat]. split.
  - apply due_nodup. intros t t' id H1 H2. destruct (ia_active _ _ _ (Hat id) t H1) as (_ & p & Hp & _ & E).
    destruct (ia_active _ _ _ (Hat id) t' H2) as (_ & p' & Hp' & _ & E'). congruence.
  - intros [t id] Hin%due_elem. destruct (ia_active _ _ _ (Hat id) t Hin) as (_ & p & Hp & Hv & E). cbn [fst snd].
    destruct (ia_prop _ _ _ (Hat id) p Hp) as (_ & Hr & _). split; [lia|]. intros p' Hp'. rewrite Hp in Hp'. by injection Hp' as <-.
Qed.
Lemma wlp_EndBlocker s : gov_inv None (core_of s) →
  wlp EndBlocker (λ _ s', gov_inv None (core_of s') ∧ progress (core_of s) (core_of s')) s.
Proof.
  intros Hinv. unfold EndBlocker, Time. apply wlp_bind, wlp_readM, wlp_bind, wlp_readM, wlp_bind.
  wlp_call ltac:(apply wlp_core; frame). intros params s1 E1. apply wlp_bind.
  assert (gov_inv None (core_of s1)) as Hinv1 by (by rewrite E1).
  wlp_call ltac:(apply wlp_drops; [done|]).
  - assert (gs_Inactive s = gs_Inactive s1) as -> by (by injection E1). by apply pending_drop_due.
  - intros _ s2 [Hinv2 Hl]. rewrite E1 in Hl. apply wlp_bind, wlp_readM, wlp_bind, wlp_readM.
    wlp_call ltac:(apply wlp_closes; [done|by apply pending_close_due]). intros _ s3 [Hinv3 Hp]. split; [done|].
    eapply progress_trans; [exact Hinv2|by apply later_progress|done].
Qed.
End EndBlock.

(** ** Runs *)

Section GovSteps.
Context {GM : GovMessages} {S : Type} {gk : GovKeepers S} {ga : GovApp S}.
Context {cfg : CoinConfig} {acfg : AddressConfig} {vcfg : ValAddressConfig} (other : S → S → Prop).

Inductive gov_step : GovState S → GovState S → Prop :=
| gov_step_request r s s' : numbers_left r s → handle r s = (Ok tt, s') → gov_step s s'
| gov_step_sudo authority msg s resp s' : GovMsg_SudoExec authority msg s = (Ok resp, s') → gov_step s s'
| gov_step_legacy authority content s s' : GovMsg_ExecLegacyContent authority content s = (Ok tt, s') → gov_step s s'
| gov_step_end_block s s' : EndBlocker s = (Ok tt, s') → gov_step s s'
| gov_step_other s x : other (gs_keepers s) x → gov_step s (with_gov_keepers x s).

(** A genesis state without proposals, on an empty store. *)
Definition fresh_genesis (data : GovGenesis) (s : GovState S) : Prop :=
  gg_Deposits data = [] ∧ gg_Votes data = [] ∧ gg_Proposals data = [] ∧ 0 <= gg_StartingProposalId data < 2 ^ 64 ∧
  gs_Deposits s = ∅ ∧ gs_Votes s = ∅ ∧ gs_Proposals s = ∅ ∧ gs_Active s = ∅ ∧ gs_Inactive s = ∅.

Context {GL : GovAppLaws other}.
#[local] Existing Instance same_core_preorder.

Lemma genesis_inv data s s' : fresh_genesis data s → GovInitGenesis data s = (Ok tt, s') → gov_inv None (core_of s').
Proof.
  intros (Ed & Ev & Ep & Hn & Hd & Hv & Hp & Ha & Hi) E. refine (wlp_run _ (λ _ s', gov_inv None (core_of s')) _ _ _ E _). unfold GovInitGenesis.
  apply wlp_bind, wlp_modifyM, wlp_bind. wlp_call ltac:(apply wlp_core; frame). intros params s1 E1.
  apply wlp_bind, wlp_modifyM, wlp_bind, wlp_modifyM, wlp_bind. wlp_call ltac:(apply wlp_core; frame). intros acc s2 E2.
  destruct acc as [acc|]; [|apply wlp_errM]. rewrite Ed, Ev, Ep. cbn [foldM forM_].
  wlp_call ltac:(apply wlp_core; frame). intros _ s3 E3. rewrite E3, E2.
  change (core_of (with_Constitution _ (with_Params _ s1))) with (core_of s1). rewrite E1. unfold core_of. cbn. rewrite Hd, Hv, Hp, Ha, Hi.
  split; [done|]. intros id. by apply inv_at_none.
Qed.
Lemma gov_step_inv s s' : gov_step s s' → gov_inv None (core_of s) → gov_inv None (core_of s') ∧ progress (core_of s) (core_of s').
Proof.
  intros [r s0 s1 Hn E|authority msg s0 resp s1 E|authority content s0 s1 E|s0 s1 E|s0 x Hx] Hinv.
  - apply (wlp_handle other None s0 r Hinv Hn) in E as [H1 H2]. split; [done|by apply later_progress].
  - unfold GovMsg_SudoExec in E. destruct msg as [m|]; [|done]. apply GoM_bind_Ok in E as (? & s2 & [_ ->]%liftM_Ok & E).
    apply GoM_bind_Ok in E as (? & s2 & [_ ->]%liftM_Ok & E). unfold BranchService_Execute in E. case_match eqn:Eb. case_match; try done.
    injection E as <- <-. apply GoM_bind_Ok in Eb as (? & s3 & [_ ->]%liftM_Ok & Ei).
    apply gl_invoke in Ei. destruct (op_steps_keep other None _ _ Ei Hinv) as [H1 H2]. split; [done|by apply later_progress].
  - refine (wlp_run _ (λ _ s', gov_inv None (core_of s') ∧ progress (core_of s0) (core_of s')) _ _ _ E _). clear E. unfold GovMsg_ExecLegacyContent. apply wlp_bind. wlp_call ltac:(apply wlp_core; frame). intros acct s2 E2.
    apply wlp_bind, wlp_invalid_address. intros ? _. apply wlp_bind, wlp_liftM. intros ? _. apply wlp_bind, wlp_liftM. intros c _.
    apply wlp_bind, wlp_liftM. intros ? _. apply wlp_bind, wlp_liftM. intros h Hh. intros [] s3 E. unfold wrap_error in E.
    destruct (ga_legacyRouter !! ProposalRoute c) as [h'|] eqn:Er; [|done]. injection Hh as ->.
    destruct (h c s2) as [[[]|e|e] s4] eqn:Eh; try done. injection E as <-.
    pose proof (gl_legacy _ _ _ _ _ Er Eh) as Hs. rewrite <- E2 in Hinv |- *.
    destruct (op_steps_keep other None _ _ Hs Hinv) as [H1 H2]. split; [done|by apply later_progress].
  - by apply (wlp_EndBlocker other s0 Hinv) in E.
  - split; [done|apply progress_refl].
Qed.
Lemma gov_steps_inv s s' : rtc gov_step s s' → gov_inv None (core_of s) → gov_inv None (core_of s') ∧ progress (core_of s) (core_of s').
Proof.
  induction 1 as [s|s1 s2 s3 H _ IH]; intros Hinv; [split; [done|apply progress_refl]|].
  destruct (gov_step_inv _ _ H Hinv) as [H1 H2]. destruct (IH H1) as [H3 H4]. split; [done|]. exact (progress_trans None _ _ _ H1 H2 H4).
Qed.

(** C15. The state of governance stays consistent.  In every state that the module
    reaches from the import of a genesis state without proposals, by any requests,
    executed messages, ends of blocks and changes in other modules: the two queues
    hold exactly the proposals in their deposit and voting period with their end
    times, identifiers are below the counter, the total deposit of an open
    proposal is the sum of the deposits on it, deposits and votes belong to
    proposals that exist, no vote to one in its deposit period, and all votes have
    valid weights. *)
Theorem gov_state_invariant data s0 s1 s : fresh_genesis data s0 → GovInitGenesis data s0 = (Ok tt, s1) → rtc gov_step s1 s →
  gov_inv None (core_of s).
Proof. intros Hf Hg Hs. by apply (gov_steps_inv s1 s), (genesis_inv data s0 s1). Qed.

(** C16. A proposal only moves forward.  Once it passed, failed or was rejected it
    never changes and is never deleted; a deleted proposal does not come back and
    its identifier is not used again; in its voting period it does not return to
    the deposit period; and its messages and its proposer, and so what will be
    executed, stay as submitted. *)
Theorem proposal_lifecycle data s0 s1 s s' id : fresh_genesis data s0 → GovInitGenesis data s0 = (Ok tt, s1) → rtc gov_step s1 s →
  rtc gov_step s s' → id < gs_ProposalID s →
  match gs_Proposals s !! id, gs_Proposals s' !! id with
  | None, o => o = None
  | Some p, None => ¬ closed p
  | Some p, Some p' =>
      p' = p ∨ (p_Messages p' = p_Messages p ∧ p_Proposer p' = p_Proposer p ∧ ¬ closed p ∧ (voting p → ¬ depositing p'))
  end.
Proof.
  intros Hf Hg Hs Hs' Hid. destruct (gov_steps_inv s1 s Hs) as [Hinv _]; [by eapply genesis_inv|].
  destruct (gov_steps_inv s s' Hs' Hinv) as [_ [_ Hp]]. exact (Hp id Hid).
Qed.
End GovSteps.
