(* ===== verification/GovTallyProps.v ===== *)
(** * GovTallyProps: the count of the votes does not depend on the order of maps, and
    counts no stake twice *)
From S2P Require Import Prelude MathInt LegacyDec DecString Coin CoinFacts Collections Account Bank Validator Staking StakingFacts Gov GovTally GovBlock GovFacts.

(** ** The order of the validators

    What one validator adds: to the power ([None]) and to the counts of options. *)
Abbreviation Contribution := (option VoteOption * Z)%type.
Definition option_contribution (votingPower : Z) (option : WeightedVoteOption) : outcome Contribution :=
  weight ← parse_ignoring (wo_Weight option);
  subPower ← Dec_Mul votingPower weight;
  Ok (Some (wo_Option option), subPower).
Definition contributions (val : ValidatorGovInfo) : outcome (list Contribution) :=
  match vg_Vote val with
  | [] => Ok []
  | _ =>
      sharesAfterDeductions ← Dec_Sub (vg_DelegatorShares val) (vg_DelegatorDeductions val);
      votingPower ← voting_power sharesAfterDeductions val;
      l ← traverse (option_contribution votingPower) (vg_Vote val);
      Ok (l ++ [(None, votingPower)])
  end.
Definition add_contribution (acc : Z * Results) (c : Contribution) : outcome (Z * Results) :=
  match c.1 with
  | None => t ← Dec_Add acc.1 c.2; Ok (t, acc.2)
  | Some o => r ← result_of acc.2 o; r ← Dec_Add r c.2; Ok (acc.1, <[o := r]> acc.2)
  end.

Lemma foldM_app {A B} (f : B → A → outcome B) b l1 l2 : foldM f b (l1 ++ l2) = (b' ← foldM f b l1; foldM f b' l2).
Proof. revert b. induction l1 as [|x l1 IH]; intros b; [done|]. cbn. destruct (f b x); cbn; [apply IH|done..]. Qed.
Lemma count_options_contributions vp opts : ∀ total results results',
  count_options vp results opts = Ok results' ↔
  ∃ l, traverse (option_contribution vp) opts = Ok l ∧ foldM add_contribution (total, results) l = Ok (total, results').
Proof.
  unfold count_options. induction opts as [|o opts IH]; intros total results results'; cbn [foldM traverse].
  - split; [intros [= <-]; by exists []|intros (l & [= <-] & [= <-]); done].
  - split.
    + intros (results1 & H1 & H2)%outcome_bind_Ok. unfold count_option in H1.
      apply outcome_bind_Ok in H1 as (w & Hw & (x & Hx & (r & Hr & (r' & Hr' & [= <-])%outcome_bind_Ok)%outcome_bind_Ok)%outcome_bind_Ok).
      apply (IH total) in H2 as (l & Hl & Hf). exists ((Some (wo_Option o), x) :: l). split.
      * assert (option_contribution vp o = Ok (Some (wo_Option o), x)) as -> by (unfold option_contribution; rewrite Hw; cbn; by rewrite Hx).
        cbn. by rewrite Hl.
      * cbn. rewrite Hr. cbn. by rewrite Hr'.
    + intros (l & Hl & Hf). apply outcome_bind_Ok in Hl as (c & Hc & (l' & Hl & [= <-])%outcome_bind_Ok).
      unfold option_contribution in Hc. apply outcome_bind_Ok in Hc as (w & Hw & (x & Hx & [= <-])%outcome_bind_Ok).
      cbn in Hf. apply outcome_bind_Ok in Hf as (acc & H1 & Hf). apply outcome_bind_Ok in H1 as (r & Hr & (r' & Hr' & [= <-])%outcome_bind_Ok).
      cbn in Hr.
      assert (count_option vp results o = Ok (<[wo_Option o := r']> results)) as ->
        by (unfold count_option; rewrite Hw; cbn; rewrite Hx; cbn; rewrite Hr; cbn; by rewrite Hr').
      cbn. apply (IH total). eauto.
Qed.
Lemma options_keep_total vp opts l : traverse (option_contribution vp) opts = Ok l →
  ∀ total results total' results', foldM add_contribution (total, results) l = Ok (total', results') → total' = total.
Proof.
  revert l. induction opts as [|o opts IH]; intros l Hl total results total' results' Hf; cbn in Hl; [injection Hl as <-; by injection Hf|].
  apply outcome_bind_Ok in Hl as (c & Hc & (l' & Hl & [= <-])%outcome_bind_Ok). unfold option_contribution in Hc.
  apply outcome_bind_Ok in Hc as (w & _ & (x & _ & [= <-])%outcome_bind_Ok). cbn in Hf.
  apply outcome_bind_Ok in Hf as (acc & H1 & Hf). apply outcome_bind_Ok in H1 as (r & _ & (r' & _ & [= <-])%outcome_bind_Ok). by eapply IH.
Qed.
Lemma count_validator_contributions acc kv r :
  count_validator acc kv = Ok r ↔ ∃ l, contributions kv.2 = Ok l ∧ foldM add_contribution acc l = Ok r.
Proof.
  destruct acc as [total results], kv as [a val]. unfold count_validator, contributions. cbn [fst snd].
  destruct (vg_Vote val) as [|o opts] eqn:Ev; [split; [intros H; by exists []|by intros (l & [= <-] & H)]|]. rewrite <- Ev. clear Ev. split.
  - intros (sh & Hsh & (vp & Hvp & (results' & H1 & (t & Ht & [= <-])%outcome_bind_Ok)%outcome_bind_Ok)%outcome_bind_Ok)%outcome_bind_Ok.
    apply (count_options_contributions _ _ total) in H1 as (l & Hl & Hf). exists (l ++ [(None, vp)]). split.
    + rewrite Hsh. cbn. rewrite Hvp. cbn. by rewrite Hl.
    + rewrite foldM_app, Hf. cbn in *. by rewrite Ht.
  - intros (l & (sh & Hsh & (vp & Hvp & (l' & Hl & [= <-])%outcome_bind_Ok)%outcome_bind_Ok)%outcome_bind_Ok & Hf).
    rewrite foldM_app in Hf. apply outcome_bind_Ok in Hf as ([t results'] & H1 & H2). cbn in H2.
    apply outcome_bind_Ok in H2 as (r1 & (t' & Ht' & [= <-])%outcome_bind_Ok & [= <-]). cbn in *.
    assert (t = total) as -> by (by eapply options_keep_total). rewrite Hsh. cbn. rewrite Hvp. cbn. apply outcome_bind_Ok. exists results'.
    split; [by apply (count_options_contributions _ _ total); eauto|]. by rewrite Ht'.
Qed.
Lemma count_validators_contributions l acc r : foldM count_validator acc l = Ok r ↔
  ∃ ls, traverse contributions l.*2 = Ok ls ∧ foldM add_contribution acc (concat ls) = Ok r.
Proof.
  revert acc. induction l as [|kv l IH]; intros acc; cbn [foldM fmap list_fmap traverse].
  - split; [intros H; by exists []|by intros (ls & [= <-] & H)].
  - split.
    + intros (acc1 & (c & Hc & Hf)%count_validator_contributions & (ls & Hls & Hfs)%IH)%outcome_bind_Ok. exists (c :: ls). rewrite Hc. cbn.
      rewrite Hls. split; [done|]. cbn. by rewrite foldM_app, Hf.
    + intros (ls & (c & Hc & (ls' & Hls & [= <-])%outcome_bind_Ok)%outcome_bind_Ok & Hf). cbn in Hf. rewrite foldM_app in Hf.
      apply outcome_bind_Ok in Hf as (acc1 & H1 & H2). apply outcome_bind_Ok. exists acc1. split; [|by apply IH; eauto].
      apply count_validator_contributions. eauto.
Qed.

(** The sums are within the range of decimals. *)
Definition ranged (acc : Z * Results) : Prop := dec_range acc.1 ∧ ∀ o r, acc.2 !! o = Some r → dec_range r.
Lemma add_contribution_ranged acc c acc' : ranged acc → add_contribution acc c = Ok acc' → ranged acc'.
Proof.
  intros [H1 H2] H. unfold add_contribution in H. destruct c.1 as [o|].
  - apply outcome_bind_Ok in H as (r & Hr & (r' & [-> Hr']%Dec_Add_Ok & [= <-])%outcome_bind_Ok). split; [done|]. cbn [snd].
    intros o' x [[<- <-]|[_ ?]]%lookup_insert_Some; [done|]. by eapply H2.
  - apply outcome_bind_Ok in H as (t & [-> Ht]%Dec_Add_Ok & [= <-]). by split.
Qed.
Lemma dec_between x a b : 0 <= a → 0 <= b → dec_range x → dec_range (x + a + b) → dec_range (x + b).
Proof. unfold dec_range. lia. Qed.
Lemma result_of_Ok results o r : result_of results o = Ok r ↔ results !! o = Some r.
Proof. unfold result_of. destruct (results !! o); naive_solver. Qed.
Lemma Dec_Add_run a b : dec_range (a + b) → Dec_Add a b = Ok (a + b).
Proof. intros H. by apply Dec_Add_Ok. Qed.
Lemma add_contribution_swap acc c1 c2 r : ranged acc → 0 <= c1.2 → 0 <= c2.2 →
  (a ← add_contribution acc c1; add_contribution a c2) = Ok r → (a ← add_contribution acc c2; add_contribution a c1) = Ok r.
Proof.
  destruct acc as [t rs], c1 as [[o1|] x1], c2 as [[o2|] x2]; intros [Ht Hrs] H1 H2 H; cbn [fst snd] in *;
    apply outcome_bind_Ok in H as (acc1 & H & H'); unfold add_contribution in *; cbn [fst snd] in *.
  - apply outcome_bind_Ok in H as (r1 & Hr1%result_of_Ok & (r1' & [-> Hx1]%Dec_Add_Ok & [= <-])%outcome_bind_Ok). cbn [fst snd] in H'.
    apply outcome_bind_Ok in H' as (r2 & Hr2%result_of_Ok & (r2' & [-> Hx2]%Dec_Add_Ok & [= <-])%outcome_bind_Ok).
    cbn [fst snd] in *. destruct (decide (o1 = o2)) as [->|Hne].
    + rewrite lookup_insert_eq in Hr2. injection Hr2 as <-. rewrite (proj2 (result_of_Ok rs o2 r1) Hr1). cbn.
      assert (dec_range (r1 + x2)) by (eapply (dec_between r1 x1); eauto). rewrite Dec_Add_run by done. cbn.
      rewrite (proj2 (result_of_Ok _ o2 (r1 + x2)) (lookup_insert_eq _ _ _)). cbn.
      replace (r1 + x1 + x2) with (r1 + x2 + x1) in * by lia. rewrite Dec_Add_run by done. cbn. by rewrite !insert_insert_eq.
    + rewrite lookup_insert_ne in Hr2 by done. rewrite (proj2 (result_of_Ok rs o2 r2) Hr2). cbn. rewrite Dec_Add_run by done. cbn.
      rewrite (proj2 (result_of_Ok _ o1 r1)) by (by rewrite lookup_insert_ne). cbn. rewrite Dec_Add_run by done. cbn.
      by rewrite insert_insert_ne.
  - apply outcome_bind_Ok in H as (r1 & Hr1 & (r1' & Hx1 & [= <-])%outcome_bind_Ok). cbn [fst snd] in H'.
    apply outcome_bind_Ok in H' as (t' & Ht' & [= <-]). rewrite Ht'. cbn. rewrite Hr1. cbn. by rewrite Hx1.
  - apply outcome_bind_Ok in H as (t' & Ht' & [= <-]). cbn [fst snd] in H'.
    apply outcome_bind_Ok in H' as (r1 & Hr1 & (r1' & Hx1 & [= <-])%outcome_bind_Ok). rewrite Hr1. cbn. rewrite Hx1. cbn. by rewrite Ht'.
  - apply outcome_bind_Ok in H as (t' & [-> Hx1]%Dec_Add_Ok & [= <-]). cbn [fst snd] in H'.
    apply outcome_bind_Ok in H' as (t2 & [-> Hx2]%Dec_Add_Ok & [= <-]).
    assert (dec_range (t + x2)) by (by eapply (dec_between t x1)). rewrite Dec_Add_run by done. cbn.
    replace (t + x1 + x2) with (t + x2 + x1) in * by lia. by rewrite Dec_Add_run by done.
Qed.
Lemma add_contributions_perm l1 l2 : l1 ≡ₚ l2 → Forall (λ c : Contribution, 0 <= c.2) l1 → ∀ acc r, ranged acc →
  foldM add_contribution acc l1 = Ok r → foldM add_contribution acc l2 = Ok r.
Proof.
  induction 1 as [|c l1 l2 _ IH|c2 c1 l|l1 l2 l3 H1 IH1 H2 IH2]; intros Hpos acc r Hr Hf; [done|..].
  - apply Forall_cons in Hpos as [_ Hpos]. cbn in *. apply outcome_bind_Ok in Hf as (acc1 & Ha & Hf). rewrite Ha. cbn.
    apply IH; [done| |done]. by eapply add_contribution_ranged.
  - apply Forall_cons in Hpos as [Hc1 [Hc2 _]%Forall_cons]. cbn in *. apply outcome_bind_Ok in Hf as (a1 & Ha1 & (a2 & Ha2 & Hf)%outcome_bind_Ok).
    assert ((a ← add_contribution acc c2; add_contribution a c1) = Ok a2) as Hswap.
    { apply add_contribution_swap; [done..|]. by rewrite Ha1. }
    apply outcome_bind_Ok in Hswap as (b1 & Hb1 & Hb2). rewrite Hb1. cbn. by rewrite Hb2.
  - apply IH2; [by rewrite <- H1|done|]. by apply IH1.
Qed.

(** ** The power of a vote *)

Lemma voting_power_bound shares val vp : voting_power shares val = Ok vp → 0 <= shares → 0 <= vg_BondedTokens val → 0 < vg_DelegatorShares val →
  0 <= vp ∧ vg_DelegatorShares val * (2 * vp - 1) <= 2 * shares * vg_BondedTokens val * precisionReuse.
Proof.
  intros (x & [-> _]%Dec_MulInt_Ok & (-> & _ & _)%Dec_Quo_Ok)%outcome_bind_Ok Hs Hb Hd.
  set (D := vg_DelegatorShares val) in *. set (X := shares * vg_BondedTokens val). assert (0 <= X) by (unfold X; nia).
  assert (0 < precisionReuse) as HP by done. unfold squaredPrecisionReuse. set (P := precisionReuse) in *.
  rewrite Z.quot_div_nonneg by nia. set (Q := X * (P * P) / D). assert (0 <= Q) by (apply Z.div_pos; nia).
  split; [by apply chopPrecisionAndRound_nonneg_ge|].
  pose proof (chopPrecisionAndRound_nearest Q) as Hn. destruct Hn as [Hn _]. fold P in Hn. set (v := chopPrecisionAndRound Q) in *.
  assert (D * Q <= X * (P * P)) by (apply Z.mul_div_le; lia). assert (P * (2 * v - 1) <= 2 * Q) by lia.
  assert (P * (D * (2 * v - 1)) <= P * (2 * X * P)) by nia. unfold X in *. nia.
Qed.
Lemma valid_weight o : ValidWeightedVoteOption o = true → ∃ w, parse_ignoring (wo_Weight o) = Ok w ∧ 0 < w <= precisionReuse.
Proof.
  unfold ValidWeightedVoteOption, parse_ignoring. destruct (LegacyNewDecFromStr (wo_Weight o)) as [w| |]; [|done..]. intros H.
  exists w. split; [done|]. destruct (negb (Dec_IsPositive w) || Dec_GT w LegacyOneDec) eqn:E; [done|].
  apply Bool.orb_false_iff in E as [E1%Bool.negb_false_iff E2]. unfold Dec_IsPositive, Dec_GT, LegacyOneDec in *.
  destruct (Z.compare_spec w precisionReuse); try done; lia.
Qed.
Lemma option_contribution_nonneg vp o c : ValidWeightedVoteOption o = true → 0 <= vp → option_contribution vp o = Ok c → 0 <= c.2.
Proof.
  intros (w & Hw & Hr)%valid_weight Hv H. unfold option_contribution in H. rewrite Hw in H. cbn in H.
  apply outcome_bind_Ok in H as (x & [-> _]%Dec_Mul_Ok & [= <-]). cbn. apply chopPrecisionAndRound_nonneg_ge. nia.
Qed.
Lemma contributions_nonneg val l : contributions val = Ok l → 0 < vg_DelegatorShares val → 0 <= vg_BondedTokens val →
  vg_DelegatorDeductions val <= vg_DelegatorShares val → Forall (λ o, ValidWeightedVoteOption o = true) (vg_Vote val) →
  Forall (λ c : Contribution, 0 <= c.2) l.
Proof.
  intros H Hd Hb Hded Hvalid. unfold contributions in H. destruct (vg_Vote val) as [|o opts] eqn:Ev; [by injection H as <-|].
  apply outcome_bind_Ok in H as (sh & [-> _]%Dec_Sub_Ok & (vp & Hvp & (l' & Hl & [= <-])%outcome_bind_Ok)%outcome_bind_Ok).
  apply voting_power_bound in Hvp as [Hvp _]; [|lia..]. apply Forall_app. split; [|by repeat constructor].
  clear Ev. revert l' Hl. induction Hvalid as [|o' opts' Ho _ IH]; intros l' Hl; [by injection Hl as <-|].
  cbn in Hl. apply outcome_bind_Ok in Hl as (c & Hc & (l2 & Hl2 & [= <-])%outcome_bind_Ok).
  constructor; [exact (option_contribution_nonneg vp o' c Ho Hvp Hc)|by apply IH].
Qed.

(** ** Counting the delegations of the voters *)

(** The shares of a validator in a list of delegations, and their number. *)
Definition to_validator (v : string) (l : list Delegation) : list Delegation := filter (λ d, ValidatorAddress d = v) l.
Definition shares_to (v : string) (l : list Delegation) : Z := foldr (λ d acc, Shares d + acc) 0 (to_validator v l).
Definition number_to (v : string) (l : list Delegation) : Z := Z.of_nat (length (to_validator v l)).
Lemma shares_to_snoc v l d : shares_to v (l ++ [d]) = shares_to v l + if decide (ValidatorAddress d = v) then Shares d else 0.
Proof.
  unfold shares_to, to_validator. rewrite filter_app, filter_cons, filter_nil. case_decide; cbn; [|rewrite app_nil_r; lia].
  induction (filter _ l) as [|d' l' IH]; cbn; lia.
Qed.
Lemma number_to_snoc v l d : number_to v (l ++ [d]) = number_to v l + if decide (ValidatorAddress d = v) then 1 else 0.
Proof. unfold number_to, to_validator. rewrite filter_app, filter_cons, filter_nil, length_app. case_decide; cbn; lia. Qed.
Section Sums.
Context {K A : Type} `{Countable K}.
Implicit Types (m : gmap K A) (f g : K → A → Z).
Lemma msum_le f g m : (∀ k a, m !! k = Some a → f k a <= g k a) → msum f m <= msum g m.
Proof.
  induction m as [|k a m Hk IH] using map_ind; intros Hfg; [by rewrite !msum_empty|]. rewrite !msum_insert_new by done.
  assert (f k a <= g k a) by (apply Hfg, lookup_insert_eq). assert (msum f m <= msum g m); [|lia].
  apply IH. intros k' a' Hk'. apply Hfg. rewrite lookup_insert_ne; [done|congruence].
Qed.
Lemma msum_fext f g m : (∀ k a, m !! k = Some a → f k a = g k a) → msum f m = msum g m.
Proof. intros Hfg. apply Z.le_antisymm; apply msum_le; intros k a Hk; by rewrite Hfg. Qed.
Lemma msum_plus f g m : msum (λ k a, f k a + g k a) m = msum f m + msum g m.
Proof. induction m as [|k a m Hk IH] using map_ind; [by rewrite !msum_empty|]. rewrite !msum_insert_new, IH by done. lia. Qed.
Lemma msum_scale z f m : msum (λ k a, z * f k a) m = z * msum f m.
Proof. induction m as [|k a m Hk IH] using map_ind; [by rewrite !msum_empty, Z.mul_0_r|]. rewrite !msum_insert_new, IH by done. lia. Qed.
Lemma msum_at k0 x m : msum (λ k _, if decide (k0 = k) then x else 0) m = if decide (is_Some (m !! k0)) then x else 0.
Proof.
  induction m as [|k a m Hk IH] using map_ind; [rewrite msum_empty, lookup_empty; by rewrite decide_False by (by intros [])|].
  rewrite msum_insert_new, IH by done. destruct (decide (k0 = k)) as [->|Hne].
  - rewrite lookup_insert_eq. rewrite (decide_False (P := is_Some (m !! k))) by (rewrite Hk; by intros []). rewrite decide_True by eauto. lia.
  - by rewrite lookup_insert_ne by done.
Qed.
Lemma msum_const z m : msum (λ _ _, z) m = z * Z.of_nat (size m).
Proof.
  induction m as [|k a m Hk IH] using map_ind; [by rewrite msum_empty, map_size_empty, Z.mul_0_r|].
  rewrite msum_insert_new, map_size_insert_None, IH by done. lia.
Qed.
End Sums.
Lemma number_to_sum {A} (m : gmap string A) l : msum (λ v _, number_to v l) m <= Z.of_nat (length l).
Proof.
  induction l as [|d l IH] using rev_ind; [rewrite (msum_fext _ (λ _ _, 0)), msum_const by done; cbn; lia|]. rewrite length_app. cbn.
  rewrite (msum_fext _ (λ v _, number_to v l + if decide (ValidatorAddress d = v) then 1 else 0)) by (intros; apply number_to_snoc).
  rewrite msum_plus, (msum_at (A := A) (ValidatorAddress d) 1 m). case_decide; lia.
Qed.

(** The validators before the count. *)
Definition unvoted (val : ValidatorGovInfo) : Prop :=
  0 < vg_DelegatorShares val ∧ 0 <= vg_BondedTokens val ∧ vg_DelegatorDeductions val = 0 ∧ vg_Vote val = [].
Definition same_validator (l : list Delegation) (v : string) (a b : ValidatorGovInfo) : Prop :=
  vg_BondedTokens b = vg_BondedTokens a ∧ vg_DelegatorShares b = vg_DelegatorShares a ∧
  vg_DelegatorDeductions b = shares_to v l ∧ Forall (λ o, ValidWeightedVoteOption o = true) (vg_Vote b).
(** After the delegations [l]: the power is the sum of what was counted on each
    validator, which its deducted shares bound. *)
Record counted (vals : gmap string ValidatorGovInfo) (l : list Delegation) (c : Count) : Prop := {
  cn_same v : match vals !! v, ct_validators c !! v with
              | Some a, Some b => same_validator l v a b | None, None => True | _, _ => False end;
  cn_range : ranged (ct_totalVP c, ct_results c);
  cn_power : ∃ T : string → Z, ct_totalVP c = msum (λ v _, T v) vals ∧
    ∀ v a, vals !! v = Some a →
      vg_DelegatorShares a * (2 * T v - number_to v l) <= 2 * shares_to v l * vg_BondedTokens a * precisionReuse;
}.
Lemma count_options_ranged vp opts t results results' : ranged (t, results) → count_options vp results opts = Ok results' → ranged (t, results').
Proof.
  intros Hr (l & _ & Hf)%(count_options_contributions _ _ t). revert Hr Hf. generalize (t, results). induction l as [|x l IH]; intros acc Hr Hf.
  - by injection Hf as ->.
  - cbn in Hf. apply outcome_bind_Ok in Hf as (acc1 & H1 & Hf). eapply IH, Hf. by eapply add_contribution_ranged.
Qed.
Lemma record_vote_counted vals l v opts c : Forall (λ o, ValidWeightedVoteOption o = true) opts → counted vals l c → counted vals l (record_vote v opts c).
Proof.
  intros Ho [H1 H2 H3]. unfold record_vote. destruct (ct_validators c !! v) as [val|] eqn:E; [|done]. split; [|done|done].
  intros v'. cbn. specialize (H1 v'). destruct (decide (v' = v)) as [->|Hne]; [|by rewrite lookup_insert_ne].
  rewrite lookup_insert_eq. rewrite E in H1. destruct (vals !! v) as [a|]; [|done]. destruct H1 as (? & ? & ? & _). done.
Qed.
Lemma same_validator_other l d v a b : ValidatorAddress d ≠ v → same_validator l v a b → same_validator (l ++ [d]) v a b.
Proof. intros Hne (H1 & H2 & H3 & H4). split_and!; [done..| |done]. rewrite shares_to_snoc, decide_False by done. lia. Qed.
Lemma count_delegation_counted vals l c opts d c' : (∀ v a, vals !! v = Some a → unvoted a) → counted vals l c → 0 <= Shares d →
  Forall (λ o, ValidWeightedVoteOption o = true) opts → count_delegation opts c d = Ok c' → counted vals (l ++ [d]) c'.
Proof.
  intros Hvals [H1 H2 (T & HT & HB)] Hs Ho H. unfold count_delegation in H. set (v := ValidatorAddress d) in *.
  pose proof (H1 v) as Hv. destruct (ct_validators c !! v) as [val|] eqn:Eval.
  - destruct (vals !! v) as [a|] eqn:Ea; [|done]. destruct Hv as (Hb & Hds & Hded & Hvote). destruct (Hvals v a Ea) as (Hpos & Hbonded & _ & _).
    apply outcome_bind_Ok in H as (ded & [-> _]%Dec_Add_Ok & H). apply outcome_bind_Ok in H as (vp & Hvp & H).
    apply outcome_bind_Ok in H as (rs & Hrs & H). apply outcome_bind_Ok in H as (t & [-> Ht]%Dec_Add_Ok & [= <-]).
    apply voting_power_bound in Hvp as [_ Hvp]; cbn; [|done|by rewrite Hb|by rewrite Hds]. cbn in Hvp. rewrite Hds, Hb in Hvp. split; cbn.
    + intros v'. destruct (decide (v' = v)) as [->|Hne].
      * rewrite lookup_insert_eq, Ea. split_and!; cbn; [done..| |done]. rewrite shares_to_snoc, decide_True by done. lia.
      * rewrite lookup_insert_ne by done. specialize (H1 v'). destruct (vals !! v') as [a'|], (ct_validators c !! v') as [b'|]; try done.
        apply same_validator_other; [done|exact H1].
    + eapply count_options_ranged in Hrs; [|exact H2]. destruct Hrs as [_ Hrs]. by split.
    + exists (λ v', T v' + if decide (v = v') then vp else 0). split.
      * rewrite msum_plus, (msum_at v vp vals), decide_True by (rewrite Ea; eauto). by rewrite HT.
      * intros v' a' Ea'. rewrite shares_to_snoc, number_to_snoc. fold v. pose proof (HB v' a' Ea') as HB'. destruct (decide (v = v')) as [<-|Hne]; [|lia].
        rewrite Ea in Ea'. injection Ea' as <-. lia.
  - injection H as <-. destruct (vals !! v) as [a|] eqn:Ea; [done|].
    assert (∀ v' a', vals !! v' = Some a' → v ≠ v') as Hne by congruence. split; [|done|].
    + intros v'. specialize (H1 v'). destruct (vals !! v') as [a'|] eqn:Ea', (ct_validators c !! v') as [b'|]; try done.
      apply same_validator_other; [by eapply Hne|exact H1].
    + exists T. split; [done|]. intros v' a' Ea'. rewrite shares_to_snoc, number_to_snoc. fold v. rewrite !decide_False by (by eapply Hne).
      pose proof (HB v' a' Ea'). lia.
Qed.
Lemma count_delegations_counted vals opts ds l c c' : (∀ v a, vals !! v = Some a → unvoted a) → Forall (λ o, ValidWeightedVoteOption o = true) opts →
  Forall (λ d, 0 <= Shares d) ds → counted vals l c → foldM (count_delegation opts) c ds = Ok c' → counted vals (l ++ ds) c'.
Proof.
  intros Hvals Ho. revert l c. induction ds as [|d ds IH]; intros l c Hs Hc H; [injection H as <-; by rewrite app_nil_r|].
  apply Forall_cons in Hs as [Hd Hs]. cbn in H. apply outcome_bind_Ok in H as (c1 & H1 & H). rewrite (cons_middle d l ds), app_assoc.
  eapply IH; [done| |done]. by eapply count_delegation_counted.
Qed.

(** ** The validators' own votes *)

Definition own_power (val : ValidatorGovInfo) : Z :=
  match vg_Vote val with
  | [] => 0
  | _ => match voting_power (vg_DelegatorShares val - vg_DelegatorDeductions val) val with Ok vp => vp | _ => 0 end
  end.
Lemma count_validators_total l t rs t' rs' : foldM count_validator (t, rs) l = Ok (t', rs') → t' = t + foldr (λ kv acc, own_power kv.2 + acc) 0 l.
Proof.
  revert t rs. induction l as [|kv l IH]; intros t rs H; [injection H as <- <-; cbn; lia|]. cbn in H.
  apply outcome_bind_Ok in H as ([t1 rs1] & H1 & H). apply IH in H. cbn. assert (t1 = t + own_power kv.2); [|lia].
  unfold count_validator, own_power in *. cbn in H1. destruct (vg_Vote kv.2) as [|o opts]; [injection H1 as <- <-; lia|].
  apply outcome_bind_Ok in H1 as (sh & [-> _]%Dec_Sub_Ok & (vp & Hvp & (rs2 & _ & (t2 & [-> _]%Dec_Add_Ok & [= <- <-])%outcome_bind_Ok)%outcome_bind_Ok)%outcome_bind_Ok).
  by rewrite Hvp.
Qed.
Lemma msum_list {K A} `{Countable K} (f : K → A → Z) (m : gmap K A) l : l ≡ₚ map_to_list m → foldr (λ kv acc, f kv.1 kv.2 + acc) 0 l = msum f m.
Proof.
  revert l. induction m as [|k a m Hk IH] using map_ind; intros l Hl.
  - rewrite map_to_list_empty in Hl. apply Permutation_nil_r in Hl as ->. by rewrite msum_empty.
  - rewrite map_to_list_insert in Hl by done. rewrite msum_insert_new by done.
    transitivity (foldr (λ kv acc, f kv.1 kv.2 + acc) 0 ((k, a) :: map_to_list m)); [|cbn; by rewrite IH].
    clear -Hl. induction Hl; cbn in *; lia.
Qed.
Lemma traverse_perm {A B} (f : A → outcome B) l1 l2 : l1 ≡ₚ l2 → ∀ r1, traverse f l1 = Ok r1 → ∃ r2, traverse f l2 = Ok r2 ∧ r1 ≡ₚ r2.
Proof.
  induction 1 as [|x l1 l2 _ IH|y x l|l1 l2 l3 _ IH1 _ IH2]; intros r1 H; [by exists r1|..].
  - cbn in H. apply outcome_bind_Ok in H as (b & Hb & (bs & Hbs & [= <-])%outcome_bind_Ok). destruct (IH bs Hbs) as (bs' & Hbs' & Hp).
    exists (b :: bs'). cbn. rewrite Hb. cbn. rewrite Hbs'. split; [done|by constructor].
  - cbn in H. apply outcome_bind_Ok in H as (b & Hb & (bs & H & [= <-])%outcome_bind_Ok). apply outcome_bind_Ok in H as (b' & Hb' & (bs' & Hbs & [= <-])%outcome_bind_Ok).
    exists (b' :: b :: bs'). cbn. rewrite Hb'. cbn. rewrite Hb. cbn. rewrite Hbs. split; [done|constructor].
  - destruct (IH1 r1 H) as (r2 & H2 & P1). destruct (IH2 r2 H2) as (r3 & H3 & P2). exists r3. split; [done|by etrans].
Qed.
Lemma traverse_Forall {A B} (f : A → outcome B) (P : B → Prop) l r : traverse f l = Ok r → (∀ x y, x ∈ l → f x = Ok y → P y) → Forall P r.
Proof.
  revert r. induction l as [|x l IH]; intros r H Hf; [by injection H as <-|]. cbn in H.
  apply outcome_bind_Ok in H as (b & Hb & (bs & Hbs & [= <-])%outcome_bind_Ok). constructor; [eapply Hf; [by left|done]|].
  apply IH; [done|]. intros x' y Hin. apply Hf. by right.
Qed.
Lemma concat_perm {A} (l1 l2 : list (list A)) : l1 ≡ₚ l2 → concat l1 ≡ₚ concat l2.
Proof.
  induction 1 as [|x l1 l2 _ IH|y x l|]; cbn; [done|by rewrite IH| |by etrans]. rewrite !app_assoc. by rewrite (Permutation_app_comm y x).
Qed.
(** The last loop gives the same in every order. *)
Lemma count_validators_perm acc l1 l2 r : l1 ≡ₚ l2 → ranged acc →
  (∀ v val, (v, val) ∈ l1 → 0 < vg_DelegatorShares val ∧ 0 <= vg_BondedTokens val ∧ vg_DelegatorDeductions val <= vg_DelegatorShares val ∧
    Forall (λ o, ValidWeightedVoteOption o = true) (vg_Vote val)) →
  foldM count_validator acc l1 = Ok r → foldM count_validator acc l2 = Ok r.
Proof.
  intros Hp Hr Hok (ls & Hls & Hf)%count_validators_contributions. apply count_validators_contributions.
  destruct (traverse_perm contributions l1.*2 l2.*2 (fmap_Permutation _ _ _ Hp) ls Hls) as (ls' & Hls' & Hpl). exists ls'. split; [done|].
  eapply add_contributions_perm; [by apply concat_perm| |done|done]. apply Forall_concat. eapply traverse_Forall; [exact Hls|].
  intros val c Hin Hc. apply list_elem_of_fmap in Hin as ([v val'] & -> & Hin). destruct (Hok v val' Hin) as (H1 & H2 & H3 & H4).
  by eapply contributions_nonneg.
Qed.

(** ** The count as a whole *)

Section Calculate.
Context {GM : GovMessages} {S : Type} {gk : GovKeepers S} {cfg : CoinConfig} {acfg : AddressConfig} {vcfg : ValAddressConfig}.
Implicit Types s : GovState S.

(** The delegations of a voter in the state of the staking module. *)
Definition delegations_of (x : S) (a : string) (l : list Delegation) : Prop := gk_Delegations a x = (Ok l, x).
(** What the count relies on: reading delegations writes nothing; no delegation has
    negative shares; and different voters have together no more shares of a
    validator than it has. *)
Record tally_inputs (proposalID : Z) (vals : gmap string ValidatorGovInfo) s : Prop := {
  ti_votes a v : gs_Votes s !! (proposalID, a) = Some v → StringToBytes (v_Voter v) = Ok a ∧ Forall (λ o, ValidWeightedVoteOption o = true) (v_Options v);
  ti_validators v val : vals !! v = Some val → unvoted val;
  ti_reading a : ∃ r, gk_Delegations a (gs_keepers s) = (r, gs_keepers s);
  ti_shares a l : delegations_of (gs_keepers s) a l → Forall (λ d, 0 <= Shares d) l;
  ti_backed voters ls v val : NoDup voters → Forall2 (delegations_of (gs_keepers s)) voters ls → vals !! v = Some val →
    shares_to v (concat ls) <= vg_DelegatorShares val;
}.
Lemma with_gov_keepers_id s : with_gov_keepers (gs_keepers s) s = s.
Proof. by destruct s. Qed.
Lemma count_votes_counted id vals s votes : tally_inputs id vals s →
  Forall (λ kv : string * Vote, StringToBytes (v_Voter kv.2) = Ok kv.1 ∧ Forall (λ o, ValidWeightedVoteOption o = true) (v_Options kv.2)) votes →
  ∀ l c c' s', counted vals l c → foldM count_vote c votes s = (Ok c', s') →
  s' = s ∧ ∃ ls, Forall2 (delegations_of (gs_keepers s)) votes.*1 ls ∧ counted vals (l ++ concat ls) c'.
Proof.
  intros Hin Hvotes. induction Hvotes as [|[a vote] votes [Ha Ho] _ IH]; intros l c c' s' Hc H.
  - injection H as <- <-. split; [done|]. exists []. split; [constructor|]. cbn. by rewrite app_nil_r.
  - cbn [foldM] in H. apply GoM_bind_Ok in H as (c1 & s1 & H1 & H). unfold count_vote in H1. cbn [snd fst] in *.
    apply GoM_bind_Ok in H1 as (voter & s2 & [Hv ->]%liftM_Ok & H1). rewrite Ha in Hv. injection Hv as <-.
    apply GoM_bind_Ok in H1 as (addr & s2 & [_ ->]%liftM_Ok & H1). apply GoM_bind_Ok in H1 as (ds & s2 & Hds & [Hf ->]%liftM_Ok).
    destruct (ti_reading _ _ _ Hin a) as [r Hread]. unfold on_gov_keepers in Hds. rewrite Hread, with_gov_keepers_id in Hds.
    injection Hds as -> <-. eapply count_delegations_counted in Hf; [|apply (ti_validators _ _ _ Hin)|done|by apply (ti_shares _ _ _ Hin a)|by apply record_vote_counted].
    destruct (IH _ _ _ _ Hf H) as (-> & ls & Hls & Hcc). split; [done|]. exists (ds :: ls). split; [by constructor|].
    cbn. by rewrite app_assoc.
Qed.
Lemma counted_nil vals : (∀ v val, vals !! v = Some val → unvoted val) → counted vals [] (mkCount vals createEmptyResults LegacyZeroDec).
Proof.
  intros Hv. split; cbn.
  - intros v. destruct (vals !! v) as [a|] eqn:E; [|done]. destruct (Hv v a E) as (_ & _ & Hd & Hvote). by split_and!; [..|rewrite Hvote].
  - split; [done|]. cbn. intros o r Hr.
    repeat (apply lookup_insert_Some in Hr as [[_ <-]|[_ Hr]]; [done|]). by apply lookup_singleton_Some in Hr as [_ <-].
  - exists (λ _, 0). split; [by rewrite msum_const|]. intros v a _. unfold number_to, shares_to. cbn. lia.
Qed.

Lemma entries_nodup {V} (id : Z) (m : gmap (Z * string) V) : NoDup (entries_of id m).*1.
Proof.
  unfold entries_of. rewrite merge_sort_Permutation. pose proof (NoDup_fst_map_to_list m) as Hnd. induction (map_to_list m) as [|[[id' a] v] l IH]; [constructor|].
  cbn in *. apply NoDup_cons in Hnd as [Hni Hnd]. specialize (IH Hnd). destruct (Z.eqb_spec id' id) as [->|]; [|done]. cbn. apply NoDup_cons. split; [|done].
  intros ([a' v'] & -> & Hin)%list_elem_of_fmap. apply list_elem_of_omap in Hin as ([[id2 a2] v2] & Hin & E). cbn in *.
  destruct (Z.eqb_spec id2 id) as [->|]; [|done]. injection E as -> ->. apply Hni. apply list_elem_of_fmap. by exists ((id, a'), v').
Qed.
Lemma entries_elem {V} (id : Z) (m : gmap (Z * string) V) a v : (a, v) ∈ entries_of id m → m !! (id, a) = Some v.
Proof.
  unfold entries_of. rewrite merge_sort_Permutation, list_elem_of_omap. intros ([[id' a'] v'] & Hin & E). apply elem_of_map_to_list in Hin.
  destruct (Z.eqb_spec id' id) as [->|]; naive_solver.
Qed.
(** The steps of the calculation. *)
Lemma calculate_run {ga : GovApp S} id vals s r s' : tally_inputs id vals s → defaultCalculateVoteResultsAndVotingPower id vals s = (Ok r, s') →
  ∃ c ls, let votes := entries_of id (gs_Votes s) in
    foldM count_vote (mkCount vals createEmptyResults LegacyZeroDec) votes s = (Ok c, s) ∧
    forM_ (λ kv : string * Vote, modifyM (with_Votes (delete (id, kv.1)))) votes s = (Ok tt, s') ∧
    foldM count_validator (ct_totalVP c, ct_results c) (ga_range (ct_validators c)) = Ok r ∧
    Forall2 (delegations_of (gs_keepers s)) votes.*1 ls ∧ counted vals (concat ls) c.
Proof.
  intros Hin H. unfold defaultCalculateVoteResultsAndVotingPower in H. apply GoM_bind_Ok in H as (votes & s1 & [= <- <-] & H).
  apply GoM_bind_Ok in H as (c & s2 & Hc & H). apply GoM_bind_Ok in H as ([] & s3 & Hd & [Hv ->]%liftM_Ok).
  destruct (count_votes_counted id vals s (entries_of id (gs_Votes s)) Hin) with (l := @nil Delegation) (c := mkCount vals createEmptyResults LegacyZeroDec) (c' := c) (s' := s2)
    as (-> & ls & Hls & Hcounted); [|apply counted_nil, (ti_validators _ _ _ Hin)|done|].
  { apply Forall_forall. intros [a v] Hav%entries_elem. by apply (ti_votes _ _ _ Hin). }
  exists c, ls. by split_and!.
Qed.
Lemma counted_validators vals l c v val : (∀ v val, vals !! v = Some val → unvoted val ∧ shares_to v l <= vg_DelegatorShares val) → counted vals l c →
  ct_validators c !! v = Some val → ∃ a, vals !! v = Some a ∧ same_validator l v a val ∧ 0 < vg_DelegatorShares val ∧ 0 <= vg_BondedTokens val ∧
    vg_DelegatorDeductions val <= vg_DelegatorShares val.
Proof.
  intros Hvals Hc Hv. pose proof (cn_same _ _ _ Hc v) as Hsame. rewrite Hv in Hsame. destruct (vals !! v) as [a|] eqn:Ea; [|done].
  exists a. destruct (Hvals v a Ea) as [(H1 & H2 & _) H3]. pose proof Hsame as (E1 & E2 & E3 & _). split; [done|]. split; [done|]. rewrite E1, E2, E3. lia.
Qed.

(** The power counted on one validator. *)
Lemma power_of_validator l v a val T : unvoted a → same_validator l v a val →
  vg_DelegatorShares a * (2 * T - number_to v l) <= 2 * shares_to v l * vg_BondedTokens a * precisionReuse → shares_to v l <= vg_DelegatorShares a →
  2 * (T + own_power val) <= 2 * precisionReuse * vg_BondedTokens a + (number_to v l + 1).
Proof.
  intros (Hpos & Hb & _ & _) (E1 & E2 & E3 & _) HB Hle. pose proof precisionReuse_pos as HP. set (P := precisionReuse) in *.
  set (D := vg_DelegatorShares a) in *. set (B := vg_BondedTokens a) in *. set (n := number_to v l) in *. set (sh := shares_to v l) in *.
  assert (own_power val = 0 ∨ D * (2 * own_power val - 1) <= 2 * (D - sh) * B * P) as Hown.
  { unfold own_power. destruct (vg_Vote val); [by left|]. destruct (voting_power _ val) as [vp| |] eqn:Evp; [|by left..]. right.
    apply voting_power_bound in Evp as [_ Hvp]; [|rewrite ?E1, ?E2, ?E3; fold D B sh; lia..]. rewrite E1, E2, E3 in Hvp. exact Hvp. }
  assert (0 <= 2 * (D - sh) * B * P) by (repeat apply Z.mul_nonneg_nonneg; lia).
  assert (D * (2 * (T + own_power val) - n - 1) <= D * (2 * B * P)) as Hfinal by (destruct Hown as [-> | Hown]; nia).
  apply Z.mul_le_mono_pos_l in Hfinal; [lia|done].
Qed.

(** The result of a vote does not depend on the order in which the runtime
    visits a map.  Two nodes that count the same votes, each visiting the map of
    validators in an order of its own, get the same voting power and the same
    count of every option. *)
Lemma calculate_order_irrelevant (ga1 ga2 : GovApp S) proposalID validators s r s' :
  (∀ V (m : gmap string V), ga_range (GovApp := ga1) m ≡ₚ map_to_list m) →
  (∀ V (m : gmap string V), ga_range (GovApp := ga2) m ≡ₚ map_to_list m) →
  tally_inputs proposalID validators s →
  defaultCalculateVoteResultsAndVotingPower (ga := ga1) proposalID validators s = (Ok r, s') →
  defaultCalculateVoteResultsAndVotingPower (ga := ga2) proposalID validators s = (Ok r, s').
Proof.
  intros H1 H2 Hin H. destruct (calculate_run _ _ _ _ _ Hin H) as (c & ls & Hc & Hd & Hf & Hls & Hcounted).
  assert (foldM count_validator (ct_totalVP c, ct_results c) (ga_range (GovApp := ga2) (ct_validators c)) = Ok r) as Hf2.
  { eapply count_validators_perm, Hf; [by rewrite H1, H2|apply Hcounted|]. intros v val Hv. rewrite H1 in Hv. apply elem_of_map_to_list in Hv.
    destruct (counted_validators validators (concat ls) c v val) as (a & _ & (_ & _ & _ & Ho) & ? & ? & ?); [|done..|].
    - intros v' a Ha. split; [by eapply ti_validators|]. exact (ti_backed _ _ _ Hin _ _ v' a (entries_nodup _ _) Hls Ha).
    - done. }
  unfold defaultCalculateVoteResultsAndVotingPower. erewrite GoM_bind_run; [|reflexivity]. cbv beta. rewrite (GoM_bind_run _ _ _ _ _ Hc).
  rewrite (GoM_bind_run _ _ _ _ _ Hd). unfold liftM. by rewrite Hf2.
Qed.

(** No stake is counted twice.  The voting power of a proposal is at most the
    bonded tokens of the validators, plus half of the smallest decimal for every
    delegation of a voter and every validator, from rounding: a delegator that votes
    is deducted from its validators, and no two voters share a delegation. *)
Lemma calculate_power_bounded (ga : GovApp S) proposalID validators s power results s' :
  (∀ V (m : gmap string V), ga_range m ≡ₚ map_to_list m) → tally_inputs proposalID validators s →
  defaultCalculateVoteResultsAndVotingPower proposalID validators s = (Ok (power, results), s') →
  ∃ ls, Forall2 (delegations_of (gs_keepers s)) (entries_of proposalID (gs_Votes s)).*1 ls ∧
    2 * power <= 2 * precisionReuse * msum (λ _, vg_BondedTokens) validators + Z.of_nat (length (concat ls)) + Z.of_nat (size validators).
Proof.
  intros H1 Hin H. destruct (calculate_run _ _ _ _ _ Hin H) as (c & ls & Hc & Hd & Hf & Hls & Hcounted). exists ls. split; [done|].
  set (l := concat ls) in *. apply count_validators_total in Hf. rewrite (msum_list (λ _, own_power) (ct_validators c)) in Hf by apply H1.
  destruct (cn_power _ _ _ Hcounted) as (T & HT & HB). rewrite HT in Hf.
  set (own v := match ct_validators c !! v with Some val => own_power val | None => 0 end).
  assert (msum (λ _, own_power) (ct_validators c) = msum (λ v _, own v) validators) as Hown.
  { apply msum_ext. intros v. unfold own. pose proof (cn_same _ _ _ Hcounted v) as Hs.
    destruct (validators !! v), (ct_validators c !! v); done. }
  rewrite Hown, <- msum_plus in Hf. pose proof (number_to_sum validators l) as Hnum.
  assert (msum (λ v a, 2 * (T v + own v)) validators <= msum (λ v a, 2 * precisionReuse * vg_BondedTokens a + (number_to v l + 1)) validators) as Hle.
  { apply msum_le. intros v a Ha. pose proof (cn_same _ _ _ Hcounted v) as Hs. rewrite Ha in Hs. unfold own.
    destruct (ct_validators c !! v) as [val|]; [|done]. apply (power_of_validator l v a val); [by eapply ti_validators|done|by apply HB|].
    exact (ti_backed _ _ _ Hin _ _ v a (entries_nodup _ _) Hls Ha). }
  pose proof (msum_scale 2 (λ v (_ : ValidatorGovInfo), T v + own v) validators) as E1.
  pose proof (msum_plus (λ _ a, 2 * precisionReuse * vg_BondedTokens a) (λ v _, number_to v l + 1) validators) as E2.
  pose proof (msum_scale (2 * precisionReuse) (λ _, vg_BondedTokens) validators) as E3.
  pose proof (msum_plus (λ v _, number_to v l) (λ _ _, 1) validators) as E4. pose proof (msum_const 1 validators) as E5. cbv beta in *. lia.
Qed.
End Calculate.
