(* ===== verification/GovStaking.v ===== *)
(** * GovStaking: the keepers behind governance

    The staking, bank and account keepers of Staking.v, Bank.v and AuthKeeper.v as
    the ones that the governance module calls ([gov_keepers]; the time of the chain
    is in seconds), with the iterations of x/staking/keeper/alias_functions.go and
    the community pool of x/protocolpool/keeper/keeper.go.  They give the count of the votes what it
    relies on, from the invariants of staking and of governance. *)
From S2P Require Import Prelude Bytes MathInt LegacyDec DecString Coin CoinFacts DecCoin Collections Account Vesting AuthKeeper AuthProps Bank BankFacts BankProps Validator Staking StakingFacts StakingBlock StakingTheorems Hoare Distribution DistrStaking DistrExample Gov GovTally GovBlock GovFacts GovOps GovProps GovTallyProps.

Section Keepers.
Context {cfg : CoinConfig} {acfg : AddressConfig} {vcfg : ValAddressConfig}.

(** Bonded validators by falling power, up to the maximum. *)
Fixpoint bonded_by_power (n : nat) (addrs : list string) : GoM StakingState (list Validator) :=
  match n, addrs with
  | O, _ | _, [] => mret []
  | Datatypes.S n', addr :: rest => λ s,
      match GetValidator addr s with
      | (Ok validator, s') =>
          (if IsBonded validator then vs ← bonded_by_power n' rest; mret (validator :: vs) else bonded_by_power n rest) s'
      | (Err _, s') => (Err "validator record not found for address", s')
      | (Panic p, s') => (Panic p, s')
      end
  end.
Definition IterateBondedValidatorsByPower : GoM StakingState (list Validator) :=
  params ← get_Params;
  addrs ← ValidatorsPowerStoreIterator;
  bonded_by_power (Z.to_nat (MaxValidators params)) addrs.
(** The delegations of a delegator in the order of the validators' addresses. *)
Definition IterateDelegations (delAddr : string) : GoM StakingState (list Delegation) :=
  readM (λ s, snd <$> merge_sort addr_key_le
    (omap (λ '((del, val), d), if str_eq del delAddr then Some (val, d) else None) (map_to_list (Delegations s)))).
(** x/protocolpool/keeper/keeper.go *)
Definition Pool_FundCommunityPool (bk : BaseKeeper) (amount : Coins) (sender : string) : GoM ChainState unit :=
  on_chain_bank (λ t, SendCoinsFromAccountToModule bk t sender PoolModuleName amount).
Definition gov_keepers (bk : BaseKeeper) : GovKeepers ChainState := {|
  gk_Time c := ch_time c * 10 ^ 9;
  gk_GovAccount := m ← on_chain_bank (λ _, on_auth (GetModuleAccount (k_ak bk) GovName)); mret (macc_address <$> m);
  gk_SetModuleAccount := m ← on_chain_bank (λ _, on_auth (GetModuleAccount (k_ak bk) GovName));
                         match m with Some m => on_chain_bank (λ _, on_auth (SetAccount (ModuleAcc m))) | None => mret tt end;
  gk_ModuleAddress := GetModuleAddress (k_ak bk);
  gk_GetAllBalances a := on_chain_bank (λ _, GetAllBalances a);
  gk_SendModuleToAccount m a amt := on_chain_bank (λ t, SendCoinsFromModuleToAccount bk t m a amt);
  gk_SendAccountToModule a m amt := on_chain_bank (λ t, SendCoinsFromAccountToModule bk t a m amt);
  gk_BurnCoins a amt := on_chain_bank (λ t, BurnCoins t a amt);
  gk_FundCommunityPool := Pool_FundCommunityPool bk;
  gk_BondedValidators := on_staking IterateBondedValidatorsByPower;
  gk_Delegations a := on_staking (IterateDelegations a);
  gk_TotalBondedTokens := on_staking (TotalBondedTokens bk);
|}.
End Keepers.

(** ** What the count relies on *)

(** The part of the invariant of staking about validators and delegations. *)
Section Inputs.
Context {cfg : CoinConfig} {acfg : AddressConfig} {vcfg : ValAddressConfig}.
Record staking_counted (st : StakingState) : Prop := {
  sc_vals a v : Validators st !! a = Some v → ValStringToBytes (OperatorAddress v) = Ok a ∧ 0 <= Tokens v;
  sc_dels d a del : Delegations st !! (d, a) = Some del → ValStringToBytes (ValidatorAddress del) = Ok a ∧ 0 <= Shares del;
  sc_shares a : from_option DelegatorShares 0 (Validators st !! a) = shares_of (Delegations st) a;
}.
Lemma staking_inv_counted denom xB xN st : stk_inv denom xB xN (core st) → staking_counted st.
Proof.
  intros Hi. split.
  - intros a v Hv. destruct (si_vals _ _ _ _ Hi a v Hv) as [H1 [H2 _]]. done.
  - intros d a del Hd. by destruct (si_dels _ _ _ _ Hi d a del Hd) as (_ & ? & ? & _).
  - exact (si_shares _ _ _ _ Hi).
Qed.

(** The sum of a weight over delegations. *)
Definition dsum (w : Delegation → Z) (l : list Delegation) : Z := foldr (λ d acc, w d + acc) 0 l.
Lemma dsum_app w l1 l2 : dsum w (l1 ++ l2) = dsum w l1 + dsum w l2.
Proof. induction l1 as [|d l1 IH]; cbn; [done|]. fold (dsum w (l1 ++ l2)) (dsum w l1). lia. Qed.
Lemma dsum_perm w l1 l2 : l1 ≡ₚ l2 → dsum w l1 = dsum w l2.
Proof. unfold dsum. induction 1; cbn; lia. Qed.
Lemma dsum_shares v l : shares_to v l = dsum (λ d, if decide (ValidatorAddress d = v) then Shares d else 0) l.
Proof.
  induction l as [|d l IH]; [done|]. unfold shares_to, to_validator in *. rewrite filter_cons. cbn. case_decide; cbn; rewrite IH; done.
Qed.
Lemma dsum_length l : Z.of_nat (length l) = dsum (λ _, 1) l.
Proof. induction l as [|d l IH]; [done|]. cbn [length dsum foldr]. fold (dsum (λ _, 1) l). lia. Qed.
Definition delegations_in (m : gmap (string * string) Delegation) (a : string) : list Delegation :=
  snd <$> merge_sort addr_key_le (omap (λ '((del, val), d), if str_eq del a then Some (val, d) else None) (map_to_list m)).
Lemma dsum_delegations w m a : dsum w (delegations_in m a) = msum (λ k d, if decide (k.1 = a) then w d else 0) m.
Proof.
  unfold delegations_in. rewrite (dsum_perm w _ _ (fmap_Permutation snd _ _ (merge_sort_Permutation addr_key_le _))).
  rewrite <- (msum_list _ m (map_to_list m)) by done. induction (map_to_list m) as [|[[del val] d] l IH]; [done|].
  cbn. unfold str_eq at 1. destruct (String.eqb_spec del a); [rewrite decide_True by done|rewrite decide_False by done]; cbn; unfold dsum in *; cbn in *; lia.
Qed.
Lemma dsum_voters w m voters : NoDup voters →
  dsum w (concat (delegations_in m <$> voters)) = msum (λ k d, if decide (k.1 ∈ voters) then w d else 0) m.
Proof.
  induction 1 as [|a voters Ha _ IH]; cbn [fmap list_fmap concat].
  - rewrite (msum_fext _ (λ _ _, 0)), msum_const by (intros; by rewrite decide_False by apply not_elem_of_nil). done.
  - rewrite dsum_app, dsum_delegations, IH, <- msum_plus. apply msum_fext. intros [del v] d _. cbn. destruct (decide (del = a)) as [->|Hne].
    + rewrite decide_False by done. rewrite decide_True by (by left). lia.
    + rewrite (decide_ext (del ∈ a :: voters) (del ∈ voters)) by set_solver. done.
Qed.
(** Different voters have different delegations: of a validator, no more than it
    has, and altogether no more than there are. *)
Lemma voters_shares st voters v a V : staking_counted st → NoDup voters → Validators st !! a = Some V → OperatorAddress V = v →
  shares_to v (concat (delegations_in (Delegations st) <$> voters)) <= DelegatorShares V.
Proof.
  intros Hst Hnd HV Hv. rewrite dsum_shares, dsum_voters by done. pose proof (sc_shares _ Hst a) as Hs. rewrite HV in Hs. cbn in Hs. rewrite Hs.
  apply msum_le. intros [d' a'] del Hd. cbn. destruct (sc_dels _ Hst _ _ _ Hd) as [Hb Hn].
  destruct (decide (ValidatorAddress del = v)) as [E|]; [|repeat case_decide; lia].
  destruct (sc_vals _ Hst a V HV) as [Hop _]. assert (a' = a) as -> by congruence. rewrite (decide_True (P := a = a)) by done. case_decide; lia.
Qed.
Lemma voters_delegations m voters : NoDup voters → Z.of_nat (length (concat (delegations_in m <$> voters))) <= Z.of_nat (size m).
Proof.
  intros Hnd. rewrite dsum_length, dsum_voters by done. rewrite <- (Z.mul_1_l (Z.of_nat (size m))), <- (msum_const 1 m).
  apply msum_le. intros k d _. case_decide; lia.
Qed.
(** The entries of a map counted once each in another map. *)
Lemma msum_inj_le {A B} (f : A → Z) (g : B → Z) (back : B → string) (m1 : gmap string A) : ∀ m2 : gmap string B,
  (∀ k x, m1 !! k = Some x → ∃ k' y, m2 !! k' = Some y ∧ back y = k ∧ f x = g y) → (∀ k y, m2 !! k = Some y → 0 <= g y) →
  msum (λ _, f) m1 <= msum (λ _, g) m2.
Proof.
  induction m1 as [|k x m1 Hk IH] using map_ind; intros m2 Hm Hg; [rewrite msum_empty; by apply msum_nonneg|].
  rewrite msum_insert_new by done. destruct (Hm k x (lookup_insert_eq _ _ _)) as (k' & y & Hy & Hb & Hf).
  pose proof (msum_delete (λ _, g) m2 k') as E. rewrite Hy in E. cbn in E. enough (msum (λ _, f) m1 <= msum (λ _, g) (delete k' m2)) by lia. apply IH.
  - intros k2 x2 Hx2. assert (k2 ≠ k) as Hne by congruence. destruct (Hm k2 x2) as (k2' & y2 & Hy2 & Hb2 & Hf2); [by rewrite lookup_insert_ne|].
    exists k2', y2. split_and!; [|done..]. rewrite lookup_delete_ne; [done|]. intros <-. congruence.
  - intros k2 y2 [_ Hy2]%lookup_delete_Some. by eapply Hg.
Qed.
End Inputs.

(** ** The count on a chain *)

Section Chain.
Context {cfg : CoinConfig} {acfg : AddressConfig} {vcfg : ValAddressConfig} {GM : GovMessages} (bk : BaseKeeper).
#[local] Instance chain_keepers : GovKeepers ChainState := gov_keepers bk.
Implicit Types s : GovState ChainState.
#[local] Abbreviation staking_of s := (ch_staking (gs_keepers s)).

Lemma bonded_by_power_run addrs : ∀ n st vs st', bonded_by_power n addrs st = (Ok vs, st') →
  st' = st ∧ Forall (λ V, ∃ a, Validators st !! a = Some V ∧ IsBonded V = true) vs.
Proof.
  induction addrs as [|a addrs IH]; intros [|n] st vs st' H; try (injection H as <- <-; split; [done|constructor]).
  cbn in H. destruct (GetValidator a st) as [[V|e|e] st1] eqn:E; try done. unfold GetValidator in E.
  apply GoM_bind_Ok in E as (o & st2 & [= <- <-] & [Ho ->]%liftM_Ok). destruct (Validators st !! a) as [V'|] eqn:Ea; [|done]. injection Ho as ->.
  destruct (IsBonded V) eqn:Eb; [|exact (IH _ _ _ _ H)].
  apply GoM_bind_Ok in H as (vs' & st3 & H & [= <- <-]). destruct (IH _ _ _ _ H) as [-> Hvs]. split; [done|]. constructor; [eauto|done].
Qed.
Lemma gov_infos vs : ∀ m v val, foldl gov_info m vs !! v = Some val → m !! v = Some val ∨
  ∃ V, V ∈ vs ∧ OperatorAddress V = v ∧ vg_BondedTokens val = BondedTokens V ∧ vg_DelegatorShares val = DelegatorShares V ∧
    vg_DelegatorDeductions val = 0 ∧ vg_Vote val = [].
Proof.
  induction vs as [|V vs IH]; intros m v val H; [by left|]. cbn in H. apply IH in H as [H|(V' & Hin & H)].
  - unfold gov_info in H. destruct (ValStringToBytes (OperatorAddress V)); [|by left..].
    apply lookup_insert_Some in H as [[<- <-]|[_ H]]; [right; exists V; split; [by left|done]|by left].
  - right. exists V'. split; [by right|done].
Qed.
Lemma getCurrentValidators_run s vals s1 : getCurrentValidators s = (Ok vals, s1) →
  s1 = s ∧ ∀ v val, vals !! v = Some val → ∃ a V, Validators (staking_of s) !! a = Some V ∧ IsBonded V = true ∧ OperatorAddress V = v ∧
    vg_BondedTokens val = Tokens V ∧ vg_DelegatorShares val = DelegatorShares V ∧ vg_DelegatorDeductions val = 0 ∧ vg_Vote val = [].
Proof.
  intros H. apply GoM_bind_Ok in H as (vs & s2 & H & [= <- <-]). unfold on_gov_keepers in H. cbn in H. unfold on_staking in H.
  destruct (IterateBondedValidatorsByPower (staking_of s)) as [r st'] eqn:E. injection H as -> <-.
  assert (st' = staking_of s ∧ Forall (λ V, ∃ a, Validators (staking_of s) !! a = Some V ∧ IsBonded V = true) vs) as [-> Hvs].
  { apply GoM_bind_Ok in E as (p & st1 & Hp & E). apply GoM_bind_Ok in E as (addrs & st2 & [= <- <-] & E).
    apply GoM_bind_Ok in Hp as (o & st2 & [= <- <-] & [_ ->]%liftM_Ok). by apply bonded_by_power_run in E. }
  split; [by destruct s as [? ? ? ? ? ? ? ? ? ? []]|]. intros v val Hv. apply gov_infos in Hv as [Hv|(V & Hin & Ho & Hb & Hs & Hd & Hn)]; [by rewrite lookup_empty in Hv|].
  rewrite Forall_forall in Hvs. destruct (Hvs V Hin) as (a & Ha & Hbonded). exists a, V. split_and!; try done.
  rewrite Hb. unfold BondedTokens. by rewrite Hbonded.
Qed.
Lemma delegations_of_chain x a l : delegations_of (S := ChainState) x a l ↔ l = delegations_in (Delegations (ch_staking x)) a.
Proof. unfold delegations_of. destruct x as [t st]. split; [by intros [= <-]|by intros ->]. Qed.
Lemma delegations_of_voters x voters ls : Forall2 (delegations_of (S := ChainState) x) voters ls → ls = delegations_in (Delegations (ch_staking x)) <$> voters.
Proof. induction 1 as [|a l voters ls H%delegations_of_chain _ IH]; [done|]. cbn. by rewrite <- H, <- IH. Qed.
(** The keepers give the count what it relies on. *)
Lemma chain_tally_inputs id s vals s1 : staking_counted (staking_of s) → gov_inv None (core_of s) → getCurrentValidators s = (Ok vals, s1) →
  (∀ v val, vals !! v = Some val → 0 < vg_DelegatorShares val) → s1 = s ∧ tally_inputs id vals s.
Proof.
  intros Hst [_ Hinv] [-> Hvals]%getCurrentValidators_run Hpos. split; [done|]. split.
  - intros a v Hv. by destruct (ia_votes _ _ _ (Hinv id) a v Hv) as [(_ & ? & ?) _].
  - intros v val Hv. destruct (Hvals v val Hv) as (a & V & HV & _ & _ & Hb & _ & Hd & Ho). split_and!; [by eapply Hpos| |done..].
    rewrite Hb. by destruct (sc_vals _ Hst a V HV).
  - intros a. exists (Ok (delegations_in (Delegations (staking_of s)) a)). by apply delegations_of_chain.
  - intros a l ->%delegations_of_chain. apply Forall_forall. intros d Hd. unfold delegations_in in Hd.
    apply list_elem_of_fmap in Hd as ([v d'] & -> & Hd). rewrite merge_sort_Permutation, list_elem_of_omap in Hd.
    destruct Hd as ([[del v'] d2] & Hin%elem_of_map_to_list & E). destruct (str_eq del a); [|done]. injection E as -> ->.
    by destruct (sc_dels _ Hst _ _ _ Hin).
  - intros voters ls v val Hnd ->%delegations_of_voters Hv. destruct (Hvals v val Hv) as (a & V & HV & _ & Ho & _ & Hs & _).
    rewrite Hs. by eapply voters_shares.
Qed.

(** C18. The outcome of a vote does not depend on the order in which a node visits a
    map.  On a chain that satisfies the invariants of staking and governance, two
    nodes that each visit the map of validators in an order of their own decide a
    proposal alike: if one finds whether it passes, whether the deposits burn, and
    the final counts, so does the other, and they leave the same state. *)
Theorem tally_order_irrelevant (ga1 ga2 : GovApp ChainState) proposal s vals s1 r s' :
  (∀ V (m : gmap string V), ga_range (GovApp := ga1) m ≡ₚ map_to_list m) →
  (∀ V (m : gmap string V), ga_range (GovApp := ga2) m ≡ₚ map_to_list m) →
  staking_counted (staking_of s) → gov_inv None (core_of s) →
  getCurrentValidators s = (Ok vals, s1) → (∀ v val, vals !! v = Some val → 0 < vg_DelegatorShares val) →
  Tally (ga := ga1) proposal s = (Ok r, s') → Tally (ga := ga2) proposal s = (Ok r, s').
Proof.
  intros H1 H2 Hst Hinv Hvals Hpos H. destruct (chain_tally_inputs (p_Id proposal) s vals s1 Hst Hinv Hvals Hpos) as [-> Hin].
  unfold Tally in *. rewrite (GoM_bind_run _ _ _ _ _ Hvals) in H. rewrite (GoM_bind_run _ _ _ _ _ Hvals).
  apply GoM_bind_Ok in H as (counts & s2 & Hc & H). rewrite (GoM_bind_run _ _ _ _ _ (calculate_order_irrelevant ga1 ga2 _ _ _ _ _ H1 H2 Hin Hc)).
  exact H.
Qed.

(** C17. Turnout is at most the bonded stake.  Whatever the votes, and whether a
    validator, its delegators or both vote, the voting power counted for a proposal
    is at most the tokens of the bonded validators, plus half of the smallest
    decimal, from rounding, for every delegation and every bonded validator: a
    delegator that votes is deducted from its validators, and no stake counts
    twice. *)
Theorem turnout_bounded (ga : GovApp ChainState) proposalID s vals s1 power results s' :
  (∀ V (m : gmap string V), ga_range m ≡ₚ map_to_list m) → staking_counted (staking_of s) → gov_inv None (core_of s) →
  getCurrentValidators s = (Ok vals, s1) → (∀ v val, vals !! v = Some val → 0 < vg_DelegatorShares val) →
  defaultCalculateVoteResultsAndVotingPower proposalID vals s1 = (Ok (power, results), s') →
  2 * power <= 2 * precisionReuse * bonded_tokens (Validators (staking_of s)) +
    Z.of_nat (size (Delegations (staking_of s))) + Z.of_nat (size vals).
Proof.
  intros H1 Hst Hinv Hvals Hpos H. destruct (chain_tally_inputs proposalID s vals s1 Hst Hinv Hvals Hpos) as [-> Hin].
  destruct (calculate_power_bounded ga proposalID vals s power results s' H1 Hin H) as (ls & ->%delegations_of_voters & Hle).
  pose proof (voters_delegations (Delegations (staking_of s)) _ (entries_nodup proposalID (gs_Votes s))) as Hn.
  assert (msum (λ _, vg_BondedTokens) vals <= bonded_tokens (Validators (staking_of s))) as Hb; [|pose proof precisionReuse_pos; nia].
  apply (msum_inj_le _ (λ V, if IsBonded V then Tokens V else 0) OperatorAddress).
  - intros v val Hv. destruct (getCurrentValidators_run s vals s Hvals) as [_ Hvs]. destruct (Hvs v val Hv) as (a & V & HV & HB & Ho & Ht & _).
    exists a, V. by rewrite HB.
  - intros a V HV. destruct (sc_vals _ Hst a V HV) as [_ ?]. by case_match.
Qed.
End Chain.
