(* ===== verification/GovExample.v ===== *)
(** * GovExample: an application with governance

    A validator, two delegators, and a proposal that is submitted, voted on and
    executed; the hypotheses of the theorems on governance hold in it. *)
From stdpp Require Import relations.
From S2P Require Import Prelude Bytes MathInt LegacyDec DecString Coin CoinFacts DecCoin Collections Account Vesting AuthKeeper AuthProps Bank BankFacts BankProps Validator Staking StakingFacts StakingBlock StakingTheorems Hoare Distribution DistrStaking DistrExample Gov GovTally GovBlock GovFacts GovOps GovProps GovTallyProps GovStaking.

#[local] Existing Instance default_config.
#[local] Existing Instance acfg_id.
#[local] Existing Instance vcfg_id.

(** Messages: a payment of the governance account, a deposit by it, and one that
    fails. *)
Inductive ex_msg := ExPay (to : string) (amt : Coins) | ExDeposit (id : Z) (amt : Coins) | ExFail.
Definition gov_address : string := "module/gov".
#[global] Instance ex_messages : GovMessages := {|
  gMsg := ex_msg;
  gContent := unit;
  MsgTypeURL m := match m with ExPay _ _ => "/pay" | ExDeposit _ _ => "/deposit" | ExFail => "/fail" end;
  Msg_ValidateBasic _ := Ok tt;
  GetMsgSigners _ := Ok [gov_address];
  as_ExecLegacyContent _ := None;
  ProposalRoute _ := "";
  Content_valid_type _ := false;
  Content_ValidateBasic _ := Ok tt;
  Content_Title _ := "";
  Content_Description _ := "";
  NewLegacyContent _ _ := Err "no legacy content";
  ParseMetadata _ := None;
|}.
Definition gov_permissions (perms : list string) (name : string) : PermissionsForAddress := mkPermissionsForAddress perms (address_Module name).
Definition gov_bank : BaseKeeper :=
  mkBaseKeeper
    (mkAccountKeeper {[GovName := gov_permissions [Burner] GovName; BondedPoolName := gov_permissions [] BondedPoolName;
                       PoolModuleName := gov_permissions [] PoolModuleName]} (λ _, false))
    ∅ gov_address None (Some NoOpMintingRestrictionFn).
#[global] Instance ex_gov_keepers : GovKeepers ChainState := gov_keepers gov_bank.
(** The deposit message is served by this module, a payment by the bank. *)
Definition ex_invoke (range : ∀ V, gmap string V → list (string * V)) : ex_msg → GoM (GovState ChainState) string :=
  let deposit : Z → Coins → GoM (GovState ChainState) unit :=
    let _ : GovApp ChainState := {|
      ga_CanInvoke _ := Ok tt; ga_Invoke _ := errM "no messages"; ga_legacyRouter := ∅; ga_hooks := [];
      ga_authority := gov_address; ga_config := DefaultGovConfig; ga_out_of_gas _ _ _ := false; ga_range := range |} in
    λ id amt, GovMsg_Deposit id gov_address amt in
  λ m, match m with
       | ExPay to amt => _ ← on_gov_keepers (gk_SendModuleToAccount GovName to amt); mret ""
       | ExDeposit id amt => _ ← deposit id amt; mret ""
       | ExFail => errM "failing message"
       end.
Definition ex_app (range : ∀ V, gmap string V → list (string * V)) : GovApp ChainState := {|
  ga_CanInvoke _ := Ok tt;
  ga_Invoke := ex_invoke range;
  ga_legacyRouter := ∅;
  ga_hooks := [];
  ga_authority := gov_address;
  ga_config := DefaultGovConfig;
  ga_out_of_gas _ _ _ := false;
  ga_range := range;
|}.
#[global] Instance ex_gov_app : GovApp ChainState := ex_app (λ V m, map_to_list m).

(** One validator with the stake of alice and bob; alice has 1000 coins to
    spend, the governance account 50. *)
Definition pool_address0 : string := "module/bonded_tokens_pool".
Definition gov_balances : gmap (string * string) Z := {[("alice", "stake") := 1000; (gov_address, "stake") := 50; (pool_address0, "stake") := 10000000]}.
Definition gov_bank_state : BankState :=
  mkBankState {["stake" := 10001050]} ∅ ∅
    (mkReversePairMap gov_balances {[("stake", "alice"); ("stake", gov_address); ("stake", pool_address0)]})
    (Some DefaultParams) no_accounts [].
Definition gov_chain : ChainState :=
  mkChainState 0 (with_ValidatorsByPowerIndex (λ _, {["10val" := "val"]}) (staking_with 10000000 gov_bank_state)).
Definition gov_params : GovParams :=
  mkGovParams [mkCoin "stake" 100] [mkCoin "stake" 500] (Some (20 * Second)) (Some (20 * Second)) (Some (10 * Second)) "0.334" "0" "0.5" "0.5"
    "0.667" "0.334" "0" "0.5" "" "0.5" false false true "0.01" "0.1" [] 10000000.
Definition gov_genesis : GovGenesis := mkGovGenesis 1 [] [] [] (Some gov_params) "".
Definition gov0 : GovState ChainState := mkGovState None None ∅ ∅ ∅ 0 ∅ ∅ ∅ ∅ gov_chain.
Definition gov1 := (GovInitGenesis gov_genesis gov0).2.
Definition submit0 : MsgSubmitProposal :=
  mkMsgSubmitProposal [ExPay "bob" [mkCoin "stake" 30]] [mkCoin "stake" 100] "alice" "" "title" "summary" false PROPOSAL_TYPE_STANDARD.
Definition gov2 := (handle (ReqSubmitProposal submit0) gov1).2.
Definition gov3 := (handle (ReqVote 1 "bob" OptionYes "") gov2).2.
Definition gov4 := (handle (ReqVote 1 "alice" OptionYes "") gov3).2.
Definition gov5 := with_gov_keepers (mkChainState 20 (ch_staking (gs_keepers gov4))) gov4.
Definition gov6 := (EndBlocker gov5).2.
Example gov6_closed : p_Status <$> gs_Proposals gov6 !! 1 = Some StatusPassed ∧ p_FinalTallyResult <$> gs_Proposals gov6 !! 1 = Some (NewTallyResult 10000000 0 0 0 0).
Proof. vm_compute. done. Qed.
Example gov6_balances : (λ a, bal (stk_bank (ch_staking (gs_keepers gov6))) a "stake") <$> ["alice"; "bob"; gov_address] = [1000; 30; 20].
Proof. vm_compute. reflexivity. Qed.

Definition any_change (x x' : ChainState) : Prop := True.
#[global] Instance ex_app_laws : GovAppLaws any_change.
Proof.
  split.
  - by intros str a str' [= <-] [= <-].
  - intros h []%not_elem_of_nil.
  - intros m s r s' E. destruct m as [to amt|id amt|]; [| |done].
    + cbn in E. apply GoM_bind_Ok in E as ([] & s1 & E1 & [= _ <-]). unfold on_gov_keepers in E1.
      destruct (on_chain_bank _ _) as [r0 x]. injection E1 as _ <-. apply rtc_once. by apply step_other.
    + apply GoM_bind_Ok in E as ([] & s1 & E1 & [= _ <-]). apply rtc_once. apply (step_request _ (ReqDeposit id gov_address amt)); [done|exact E1].
  - intros path h content s s' H. cbn in H. exfalso. clear -H. set_solver.
Qed.
Lemma gov_run_eq {A} (m : GoM (GovState ChainState) A) s r : (m s).1 = r → m s = (r, (m s).2).
Proof. intros <-. by destruct (m s). Qed.
Lemma gov_genesis_fresh : fresh_genesis gov_genesis gov0.
Proof. split_and!; done. Qed.
Lemma gov_ran1 : GovInitGenesis gov_genesis gov0 = (Ok tt, gov1).
Proof. apply (gov_run_eq (GovInitGenesis gov_genesis) gov0). vm_compute. reflexivity. Qed.
Lemma gov_ran2 : gov_step any_change gov1 gov2.
Proof. apply (gov_step_request _ (ReqSubmitProposal submit0)); [intros _; vm_compute; reflexivity|]. apply (gov_run_eq (handle (ReqSubmitProposal submit0)) gov1). vm_compute. reflexivity. Qed.
Lemma gov_ran3 : gov_step any_change gov2 gov3.
Proof. apply (gov_step_request _ (ReqVote 1 "bob" OptionYes "")); [done|]. apply (gov_run_eq (handle (ReqVote 1 "bob" OptionYes "")) gov2). vm_compute. reflexivity. Qed.
Lemma gov_ran4 : gov_step any_change gov3 gov4.
Proof. apply (gov_step_request _ (ReqVote 1 "alice" OptionYes "")); [done|]. apply (gov_run_eq (handle (ReqVote 1 "alice" OptionYes "")) gov3). vm_compute. reflexivity. Qed.
Lemma gov_ran5 : gov_step any_change gov4 gov5.
Proof. by apply gov_step_other. Qed.
Lemma gov_ran6 : gov_step any_change gov5 gov6.
Proof. apply gov_step_end_block, (gov_run_eq EndBlocker gov5). vm_compute. reflexivity. Qed.
Lemma gov_run_open : rtc (gov_step any_change) gov1 gov5.
Proof. eapply rtc_l, rtc_l, rtc_l, rtc_once; [exact gov_ran2|exact gov_ran3|exact gov_ran4|exact gov_ran5]. Qed.

Lemma gov_state_invariant_witness : p_Status <$> gs_Proposals gov5 !! 1 = Some StatusVotingPeriod ∧ gov_inv None (core_of gov5).
Proof. split; [vm_compute; reflexivity|]. exact (gov_state_invariant any_change gov_genesis gov0 gov1 gov5 gov_genesis_fresh gov_ran1 gov_run_open). Defined.
Lemma proposal_lifecycle_witness :
  match gs_Proposals gov5 !! 1, gs_Proposals gov6 !! 1 with
  | Some p, Some p' => p_Messages p' = [ExPay "bob" [mkCoin "stake" 30]] ∧
      (p' = p ∨ (p_Messages p' = p_Messages p ∧ p_Proposer p' = p_Proposer p ∧ ¬ closed p ∧ (voting p → ¬ depositing p')))
  | _, _ => False
  end.
Proof.
  pose proof (proposal_lifecycle any_change gov_genesis gov0 gov1 gov5 gov6 1 gov_genesis_fresh gov_ran1 gov_run_open (rtc_once _ _ gov_ran6)) as H.
  assert (1 < gs_ProposalID gov5) as Hid by (vm_compute; reflexivity). specialize (H Hid). revert H. vm_compute. intros H. split; [done|exact H].
Defined.

(** The votes of [gov4] counted on the stake of the beginning. *)
Definition gov_count := with_gov_keepers (mkChainState 20 (ch_staking gov_chain)) gov4.
Lemma gov_chain_counted : staking_counted (ch_staking gov_chain).
Proof.
  split.
  - intros a v H. change (({["val" := val_with 10000000]} : gmap string Validator) !! a = Some v) in H.
    apply lookup_singleton_Some in H as [<- <-]. split; [done|cbn; lia].
  - intros d a del H. cbn in H. unfold delegations0 in H. rewrite lookup_insert_Some, lookup_singleton_Some in H.
    destruct H as [[[= <- <-] <-]|[_ [[= <- <-] <-]]]; (split; [reflexivity|cbn; lia]).
  - intros a. cbn. destruct (decide (a = "val")) as [->|Hne]; [vm_compute; reflexivity|]. rewrite lookup_singleton_ne by done.
    unfold shares_of, delegations0. rewrite msum_insert. rewrite lookup_singleton_ne by done. unfold msum. rewrite map_fold_singleton. cbn.
    by rewrite !decide_False by done.
Qed.
Lemma gov_count_inv : gov_inv None (core_of gov_count).
Proof.
  refine (proj1 (gov_steps_inv any_change gov1 gov_count _ (genesis_inv gov_genesis gov0 gov1 gov_genesis_fresh gov_ran1))).
  eapply rtc_l, rtc_l, rtc_l, rtc_once; [exact gov_ran2|exact gov_ran3|exact gov_ran4|]. by apply gov_step_other.
Qed.
Definition count_vals : gmap string ValidatorGovInfo := match getCurrentValidators gov_count with (Ok vals, _) => vals | _ => ∅ end.
Definition gov_counted := (getCurrentValidators gov_count).2.
Lemma count_vals_run : getCurrentValidators gov_count = (Ok count_vals, gov_counted).
Proof. apply (gov_run_eq getCurrentValidators gov_count). vm_compute. reflexivity. Qed.
Lemma count_vals_positive : map_Forall (λ _ val, 0 < vg_DelegatorShares val) count_vals.
Proof. apply (bool_decide_unpack _). vm_compute. exact I. Qed.
Definition backwards V (m : gmap string V) : list (string * V) := reverse (map_to_list m).

Lemma range_in_order V (m : gmap string V) : ga_range (GovApp := ex_app (λ V m, map_to_list m)) m ≡ₚ map_to_list m.
Proof. done. Qed.
Lemma range_backwards V (m : gmap string V) : ga_range (GovApp := ex_app backwards) m ≡ₚ map_to_list m.
Proof. cbn. unfold backwards. apply reverse_Permutation. Qed.
Definition proposal_one : Proposal := NewProposal (sp_Messages submit0) 1 0 20 "" "title" "summary" "alice" PROPOSAL_TYPE_STANDARD.
Lemma tally_order_irrelevant_witness :
  (Tally (ga := ex_app backwards) proposal_one gov_count).1 = Ok (true, false, NewTallyResult 10000000 0 0 0 0).
Proof.
  assert (Tally (ga := ex_app (λ V m, map_to_list m)) proposal_one gov_count =
    (Ok (true, false, NewTallyResult 10000000 0 0 0 0), (Tally (ga := ex_app (λ V m, map_to_list m)) proposal_one gov_count).2)) as E
    by (apply (gov_run_eq (Tally (ga := ex_app (λ V m, map_to_list m)) proposal_one) gov_count); vm_compute; reflexivity).
  apply (tally_order_irrelevant gov_bank (ex_app (λ V m, map_to_list m)) (ex_app backwards) proposal_one gov_count count_vals gov_counted _ _
    range_in_order range_backwards gov_chain_counted gov_count_inv count_vals_run count_vals_positive) in E.
  exact (f_equal fst E).
Defined.
Definition count_one := defaultCalculateVoteResultsAndVotingPower (ga := ex_app backwards) 1 count_vals gov_counted.
Lemma turnout_bounded_witness :
  match count_one with
  | (Ok (power, _), _) => power = 10000000 * 10 ^ 18 ∧
      2 * power <= 2 * precisionReuse * bonded_tokens (Validators (ch_staking gov_chain)) +
        Z.of_nat (size (Delegations (ch_staking gov_chain))) + Z.of_nat (size count_vals)
  | _ => False
  end.
Proof.
  assert (match count_one.1 with Ok (power, _) => power = 10000000 * 10 ^ 18 | _ => False end) as Hp by (vm_compute; reflexivity).
  destruct count_one as [[[power results]|e|e] s'] eqn:E; [|destruct Hp..]. split; [exact Hp|].
  exact (turnout_bounded gov_bank (ex_app backwards) 1 gov_count count_vals gov_counted power results s'
    range_backwards gov_chain_counted gov_count_inv count_vals_run count_vals_positive E).
Defined.

(** A proposal that deposits on itself: its messages run while it is still stored
    in its voting period, so the deposit is accepted after all deposits were paid
    back, and stays on the closed proposal.  The depositor is the governance account
    itself, whose balance does not change. *)
Definition run_proposal (msg : ex_msg) : GovState ChainState :=
  let submit := mkMsgSubmitProposal [msg] [mkCoin "stake" 100] "alice" "" "title" "summary" false PROPOSAL_TYPE_STANDARD in
  let s := (handle (ReqVote 1 "alice" OptionYes "") (handle (ReqSubmitProposal submit) gov1).2).2 in
  (EndBlocker (with_gov_keepers (mkChainState 20 (ch_staking (gs_keepers s))) s)).2.
Example deposit_left_behind : let s := run_proposal (ExDeposit 1 [mkCoin "stake" 10]) in
  p_Status <$> gs_Proposals s !! 1 = Some StatusPassed ∧ gs_Active s = ∅ ∧
  d_Amount <$> gs_Deposits s !! (1, gov_address) = Some [mkCoin "stake" 10] ∧
  bal (stk_bank (ch_staking (gs_keepers s))) gov_address "stake" = 50.
Proof. vm_compute. split_and!; reflexivity. Qed.
(** A failing message: the proposal fails and what its messages wrote is undone. *)
Example failed_proposal : let s := run_proposal ExFail in
  p_Status <$> gs_Proposals s !! 1 = Some StatusFailed ∧ gs_Deposits s = ∅ ∧ bal (stk_bank (ch_staking (gs_keepers s))) "alice" "stake" = 1000.
Proof. vm_compute. split_and!; reflexivity. Qed.

(** A refund that fails.  The first proposal pays out of the governance account what
    was deposited on the second one, so the refund of the second fails at its second
    denomination.  The error is only logged, and what the bank wrote before it
    stays: the first denomination has left the account and reached nobody, while the
    deposit is still recorded. *)
Definition gold_balances : gmap (string * string) Z := {[("alice", "gold") := 20; ("alice", "stake") := 1000; (gov_address, "stake") := 50; (pool_address0, "stake") := 10000000]}.
Definition gold_bank : BankState :=
  mkBankState {["stake" := 10001050; "gold" := 20]} ∅ ∅
    (mkReversePairMap gold_balances {[("gold", "alice"); ("stake", "alice"); ("stake", gov_address); ("stake", pool_address0)]})
    (Some DefaultParams) no_accounts [].
Definition gold_params : GovParams :=
  mkGovParams [mkCoin "gold" 10; mkCoin "stake" 100] [mkCoin "gold" 50; mkCoin "stake" 500] (Some (20 * Second)) (Some (20 * Second)) (Some (10 * Second))
    "0.334" "0" "0.5" "0.5" "0.667" "0.334" "0" "0.5" "" "0.5" false false true "0.01" "0.1" [] 10000000.
Definition gold_deposit : Coins := [mkCoin "gold" 10; mkCoin "stake" 100].
Definition gold_run : GovState ChainState :=
  let chain := mkChainState 0 (with_ValidatorsByPowerIndex (λ _, {["10val" := "val"]}) (staking_with 10000000 gold_bank)) in
  let s := (GovInitGenesis (mkGovGenesis 1 [] [] [] (Some gold_params) "") (with_gov_keepers chain gov0)).2 in
  let submit msg := mkMsgSubmitProposal [msg] gold_deposit "alice" "" "title" "summary" false PROPOSAL_TYPE_STANDARD in
  let s := (handle (ReqSubmitProposal (submit (ExPay "bob" [mkCoin "stake" 150]))) s).2 in
  let s := (handle (ReqSubmitProposal (submit ExFail)) s).2 in
  let s := (handle (ReqVote 1 "alice" OptionYes "") s).2 in
  (EndBlocker (with_gov_keepers (mkChainState 20 (ch_staking (gs_keepers s))) s)).2.
Example failed_refund_loses_coins : let s := gold_run in let b := stk_bank (ch_staking (gs_keepers s)) in
  p_Status <$> gs_Proposals s !! 1 = Some StatusPassed ∧ p_Status <$> gs_Proposals s !! 2 = Some StatusRejected ∧
  bal b "bob" "stake" = 150 ∧
  d_Amount <$> gs_Deposits s !! (2, "alice") = Some gold_deposit ∧
  Supply b !! "gold" = Some 20 ∧ bal b "alice" "gold" = 10 ∧ bal b gov_address "gold" = 0.
Proof. vm_compute. split_and!; reflexivity. Qed.
