(* ===== verification/Feegrant.v ===== *)
(** * Fee allowances: x/feegrant

    A granter lets a grantee pay transaction fees from the granter's account,
    within an allowance: a spend limit and an expiration (basic_fee.go), with a
    limit per period on top (periodic_fee.go), restricted to message types
    (filtered_fee.go).  The keeper (keeper/keeper.go) stores the allowances by
    grantee and granter, and the expiring ones in a queue by time.

    Times and durations are integers of nanoseconds.  The environment the keeper
    passes in the context gives the block time and the gas meter.  An allowance
    is modelled by what is stored: the [Any] of a filtered allowance keeps the
    bytes packed last, so a change to its unpacked value counts when it is packed
    again.  Events are left_ out. *)
From S2P Require Import Prelude MathInt Coin Account Bank Gas.

Definition ErrFeeLimitExceeded : string := "fee limit exceeded".
Definition ErrFeeLimitExpired : string := "fee allowance expired".
Definition ErrInvalidDuration : string := "invalid duration".
Definition ErrNoAllowance : string := "no allowance".
Definition ErrNoMessages : string := "allowed messages are empty".
Definition ErrMessageNotAllowed : string := "message not allowed".

(** A nil spend limit is no limit. *)
Record BasicAllowance := mkBasicAllowance { SpendLimit : option Coins; Expiration : option Z }.
Record PeriodicAllowance := mkPeriodicAllowance {
  Basic : BasicAllowance;
  Period : Z;
  PeriodSpendLimit : Coins;
  PeriodCanSpend : Coins;
  PeriodReset : Z
}.
(** The interface [FeeAllowanceI] with its implementations.  The allowance in a
    filtered one is [None] when its [Any] does not unpack to an allowance; the
    [Any] itself is not nil. *)
Unset Elimination Schemes.
Inductive FeeAllowanceI :=
| IBasic (a : BasicAllowance)
| IPeriodic (a : PeriodicAllowance)
| IAllowedMsg (Allowance : option FeeAllowanceI) (AllowedMessages : list string).
Set Elimination Schemes.
Definition FeeAllowanceI_ind (P : FeeAllowanceI → Prop) (HB : ∀ b, P (IBasic b)) (HP : ∀ p, P (IPeriodic p))
    (HA : ∀ msgs, P (IAllowedMsg None msgs)) (HI : ∀ inner msgs, P inner → P (IAllowedMsg (Some inner) msgs)) : ∀ a, P a :=
  fix go a := match a with
              | IBasic b => HB b
              | IPeriodic p => HP p
              | IAllowedMsg None msgs => HA msgs
              | IAllowedMsg (Some inner) msgs => HI inner msgs (go inner)
              end.

Section Allowances.
Context {cfg : CoinConfig}.

(** What [Accept] returns, the flag and the error, with the updated receiver. *)
Abbreviation accepted A := (bool * option string * A)%type.

(** ** Basic allowances: basic_fee.go *)

Definition expired (now : Z) (exp : option Z) : bool := match exp with Some e => e <? now | None => false end.
Definition Basic_Accept (now : Z) (fee : Coins) (a : BasicAllowance) : outcome (accepted BasicAllowance) :=
  if expired now (Expiration a) then Ok (true, Some ErrFeeLimitExpired, a)
  else match SpendLimit a with
       | None => Ok (false, None, a)
       | Some limit =>
           '(left_, invalid) ← Coins_SafeSub limit fee;
           if invalid : bool then Ok (false, Some ErrFeeLimitExceeded, a)
           else Ok (Coins_IsZero left_, None, mkBasicAllowance (Some left_) (Expiration a))
       end.
Definition Basic_ValidateBasic (a : BasicAllowance) : outcome unit :=
  _ ← match SpendLimit a with
      | None => Ok tt
      | Some limit =>
          _ ← guard_err (negb (Coins_IsValid limit)) ErrInvalidCoins;
          guard_err (negb (Coins_IsAllPositive limit)) ErrInvalidCoins
      end;
  guard_err (match Expiration a with Some e => e / 10 ^ 9 <? 0 | None => false end) ErrInvalidDuration.

(** ** Periodic allowances: periodic_fee.go *)

Definition Periodic_UpdatePeriodReset (validTime : Z) (a : PeriodicAllowance) : PeriodicAllowance :=
  mkPeriodicAllowance (Basic a) (Period a) (PeriodSpendLimit a) (PeriodCanSpend a) (validTime + Period a).
Definition set_PeriodCanSpend (can : Coins) (a : PeriodicAllowance) : PeriodicAllowance :=
  mkPeriodicAllowance (Basic a) (Period a) (PeriodSpendLimit a) can (PeriodReset a).
Definition set_SpendLimit (limit : Coins) (a : PeriodicAllowance) : PeriodicAllowance :=
  mkPeriodicAllowance (mkBasicAllowance (Some limit) (Expiration (Basic a))) (Period a) (PeriodSpendLimit a)
    (PeriodCanSpend a) (PeriodReset a).

Definition tryResetPeriod (blockTime : Z) (a : PeriodicAllowance) : outcome PeriodicAllowance :=
  if blockTime <? PeriodReset a then Ok a
  else
    let limit := default [] (SpendLimit (Basic a)) in
    '(_, isNeg) ← Coins_SafeSub limit (PeriodSpendLimit a);
    let a := set_PeriodCanSpend (if isNeg && negb (Coins_Empty limit) then limit else PeriodSpendLimit a) a in
    let a := Periodic_UpdatePeriodReset (PeriodReset a) a in
    Ok (if PeriodReset a <? blockTime then Periodic_UpdatePeriodReset blockTime a else a).
Definition Periodic_Accept (blockTime : Z) (fee : Coins) (a : PeriodicAllowance) : outcome (accepted PeriodicAllowance) :=
  if expired blockTime (Expiration (Basic a)) then Ok (true, Some ErrFeeLimitExpired, a)
  else
    a ← tryResetPeriod blockTime a;
    '(can, isNeg) ← Coins_SafeSub (PeriodCanSpend a) fee;
    let a := set_PeriodCanSpend can a in
    if isNeg : bool then Ok (false, Some ErrFeeLimitExceeded, a)
    else match SpendLimit (Basic a) with
         | None => Ok (false, None, a)
         | Some limit =>
             '(left_, isNeg) ← Coins_SafeSub limit fee;
             let a := set_SpendLimit left_ a in
             if isNeg : bool then Ok (false, Some ErrFeeLimitExceeded, a) else Ok (Coins_IsZero left_, None, a)
         end.
Definition Periodic_ValidateBasic (a : PeriodicAllowance) : outcome unit :=
  _ ← Basic_ValidateBasic (Basic a);
  _ ← guard_err (negb (Coins_IsValid (PeriodSpendLimit a))) ErrInvalidCoins;
  _ ← guard_err (negb (Coins_IsAllPositive (PeriodSpendLimit a))) ErrInvalidCoins;
  _ ← guard_err (negb (Coins_IsValid (PeriodCanSpend a))) ErrInvalidCoins;
  _ ← guard_err (Coins_IsAnyNegative (PeriodCanSpend a)) ErrInvalidCoins;
  _ ← match SpendLimit (Basic a) with
      | None => Ok tt
      | Some limit => sub ← Coins_DenomsSubsetOf (PeriodSpendLimit a) limit; guard_err (negb sub) ErrInvalidCoins
      end;
  guard_err (Period a <? 0) ErrInvalidDuration.

(** ** Filtered allowances: filtered_fee.go *)

Definition gasCostPerIteration : Z := 10.
Definition consume_check : GoM GasMeter unit := ConsumeGas gasCostPerIteration "check msg".
Definition allowedMsgsToMap (AllowedMessages : list string) : GoM GasMeter (gset string) :=
  foldM (λ msgsMap msg, _ ← consume_check; mret ({[msg]} ∪ msgsMap)) ∅ AllowedMessages.
(** Messages are given by their type URLs. *)
Fixpoint check_msgs (msgsMap : gset string) (msgs : list string) : GoM GasMeter bool :=
  match msgs with
  | [] => mret true
  | msg :: msgs =>
      _ ← consume_check;
      if bool_decide (msg ∈ msgsMap) then check_msgs msgsMap msgs else mret false
  end.
Definition allMsgTypesAllowed (AllowedMessages msgs : list string) : GoM GasMeter bool :=
  msgsMap ← allowedMsgsToMap AllowedMessages;
  check_msgs msgsMap msgs.

Fixpoint Accept (now : Z) (fee : Coins) (msgs : list string) (a : FeeAllowanceI) : GoM GasMeter (accepted FeeAllowanceI) :=
  match a with
  | IBasic b => '(remove, err, b) ← liftM (Basic_Accept now fee b); mret (remove, err, IBasic b)
  | IPeriodic p => '(remove, err, p) ← liftM (Periodic_Accept now fee p); mret (remove, err, IPeriodic p)
  | IAllowedMsg allowance allowedMessages =>
      allowed ← allMsgTypesAllowed allowedMessages msgs;
      if negb allowed then mret (false, Some ErrMessageNotAllowed, a)
      else match allowance with
           | None => mret (false, Some ErrNoAllowance, a)
           | Some inner =>
               '(remove, err, inner) ← Accept now fee msgs inner;
               (* SetAllowance packs the updated value again *)
               let repack := match err with None => negb remove | Some _ => false end in
               mret (remove, err, if repack then IAllowedMsg (Some inner) allowedMessages else a)
           end
  end.
Fixpoint ValidateBasic (a : FeeAllowanceI) : outcome unit :=
  match a with
  | IBasic b => Basic_ValidateBasic b
  | IPeriodic p => Periodic_ValidateBasic p
  | IAllowedMsg allowance allowedMessages =>
      _ ← guard_err (length allowedMessages =? 0)%nat ErrNoMessages;
      match allowance with None => Err ErrNoAllowance | Some inner => ValidateBasic inner end
  end.
Fixpoint ExpiresAt (a : FeeAllowanceI) : outcome (option Z) :=
  match a with
  | IBasic b => Ok (Expiration b)
  | IPeriodic p => Ok (Expiration (Basic p))
  | IAllowedMsg None _ => Err ErrNoAllowance
  | IAllowedMsg (Some inner) _ => ExpiresAt inner
  end.
(** On a filtered allowance the reset changes the unpacked value only. *)
Fixpoint UpdatePeriodReset (validTime : Z) (a : FeeAllowanceI) : outcome FeeAllowanceI :=
  match a with
  | IBasic b => Ok (IBasic b)
  | IPeriodic p => Ok (IPeriodic (Periodic_UpdatePeriodReset validTime p))
  | IAllowedMsg None _ => Err ErrNoAllowance
  | IAllowedMsg (Some inner) _ => _ ← UpdatePeriodReset validTime inner; Ok a
  end.
End Allowances.

(** ** The keeper: keeper/keeper.go *)

Record Grant := mkGrant { Granter : string; Grantee : string; Grant_Allowance : option FeeAllowanceI }.
Definition GetGrant (g : Grant) : outcome FeeAllowanceI :=
  match Grant_Allowance g with Some a => Ok a | None => Err ErrNoAllowance end.
Definition Grant_ValidateBasic {cfg : CoinConfig} (g : Grant) : outcome unit :=
  _ ← guard_err (str_eq (Granter g) "") ErrInvalidAddress;
  _ ← guard_err (str_eq (Grantee g) "") ErrInvalidAddress;
  _ ← guard_err (str_eq (Grantee g) (Granter g)) ErrInvalidAddress;
  f ← GetGrant g;
  ValidateBasic f.
Definition ValidateGenesis {cfg : CoinConfig} (allowances : list Grant) : outcome unit :=
  forM_ (λ f, grant ← GetGrant f; ValidateBasic grant) allowances.

(** The two collections, keyed by (grantee, granter) and by (expiration,
    grantee, granter), and the gas meter of the context. *)
Record FeegrantState := mkFeegrantState {
  FeeAllowance : gmap (string * string) Grant;
  FeeAllowanceQueue : gset (Z * string * string);
  fg_gas : GasMeter
}.
Definition set_FeeAllowance (f : gmap (string * string) Grant → gmap (string * string) Grant) : GoM FeegrantState unit :=
  modifyM (λ s, mkFeegrantState (f (FeeAllowance s)) (FeeAllowanceQueue s) (fg_gas s)).
Definition set_Queue (f : gset (Z * string * string) → gset (Z * string * string)) : GoM FeegrantState unit :=
  modifyM (λ s, mkFeegrantState (FeeAllowance s) (f (FeeAllowanceQueue s)) (fg_gas s)).
Definition on_gas {A} (m : GoM GasMeter A) : GoM FeegrantState A := λ s,
  let '(r, g) := m (fg_gas s) in (r, mkFeegrantState (FeeAllowance s) (FeeAllowanceQueue s) g).

(** The zero value of time.Time, midnight of January 1st of the year 1. *)
Definition zero_time : Z := -62135596800 * 10 ^ 9.

(** The queue is stored in the order of its encoded keys: by time, then by
    the length-prefixed addresses. *)
Definition prefixed (addr : string) : string := String (Ascii.ascii_of_nat (String.length addr)) addr.
Definition queue_le (x y : Z * string * string) : Prop :=
  x.1.1 < y.1.1 ∨ x.1.1 = y.1.1 ∧
  (str_lt (prefixed x.1.2) (prefixed y.1.2) = true ∨ x.1.2 = y.1.2 ∧ String.le (prefixed x.2) (prefixed y.2)).
#[global] Instance queue_le_dec x y : Decision (queue_le x y).
Proof. unfold queue_le. apply _. Defined.

Section Keeper.
Context {cfg : CoinConfig} {acfg : AddressConfig}.

Definition GetAllowance (granter grantee : string) : GoM FeegrantState FeeAllowanceI :=
  grant ← readM (λ s, FeeAllowance s !! (grantee, granter));
  match grant with
  | None => errM "collections: not found"
  | Some grant => liftM (GetGrant grant)
  end.
(** [if f, _ := k.GetAllowance(ctx, granter, grantee); f != nil] *)
Definition has_allowance (granter grantee : string) : GoM FeegrantState bool :=
  readM (λ s, match FeeAllowance s !! (grantee, granter) with Some g => is_ok (GetGrant g) | None => false end).

Definition GrantAllowance (now : Z) (granter grantee : string) (feeAllowance : FeeAllowanceI) : GoM FeegrantState unit :=
  exists_ ← has_allowance granter grantee;
  _ ← liftM (guard_err exists_ ErrInvalidRequest);
  exp ← liftM (ExpiresAt feeAllowance);
  _ ← liftM (guard_err (expired now exp) ErrInvalidRequest);
  _ ← match exp with
      | None => mret tt
      | Some e => set_Queue (λ q, {[(e, grantee, granter)]} ∪ q)
      end;
  granterStr ← liftM (BytesToString granter);
  granteeStr ← liftM (BytesToString grantee);
  feeAllowance ← liftM (if now =? zero_time then Ok feeAllowance else UpdatePeriodReset now feeAllowance);
  set_FeeAllowance (<[(grantee, granter) := mkGrant granterStr granteeStr (Some feeAllowance)]>).

Definition UpdateAllowance (granter grantee : string) (feeAllowance : FeeAllowanceI) : GoM FeegrantState unit :=
  _ ← GetAllowance granter grantee;
  granterStr ← liftM (BytesToString granter);
  granteeStr ← liftM (BytesToString grantee);
  set_FeeAllowance (<[(grantee, granter) := mkGrant granterStr granteeStr (Some feeAllowance)]>).

Definition revokeAllowance (granter grantee : string) : GoM FeegrantState unit :=
  grant ← GetAllowance granter grantee;
  _ ← set_FeeAllowance (delete (grantee, granter));
  exp ← liftM (ExpiresAt grant);
  _ ← match exp with
      | None => mret tt
      | Some e => set_Queue (λ q, q ∖ {[(e, grantee, granter)]})
      end;
  _ ← liftM (BytesToString granter);
  _ ← liftM (BytesToString grantee);
  mret tt.

(** [_ = f()] *)
Definition ignore_err {S} (m : GoM S unit) : GoM S unit := λ s,
  match m s with
  | (Err _, s') => (Ok tt, s')
  | r => r
  end.

Definition UseGrantedFees (now : Z) (granter grantee : string) (fee : Coins) (msgs : list string) : GoM FeegrantState unit :=
  grant ← GetAllowance granter grantee;
  _ ← liftM (BytesToString granter);
  _ ← liftM (BytesToString grantee);
  '(remove, err, grant) ← on_gas (Accept now fee msgs grant);
  match err with
  | Some e => errM e
  | None => if remove : bool then ignore_err (revokeAllowance granter grantee)
            else UpdateAllowance granter grantee grant
  end.

(** The keys of the queue with a time up to [now], in order; the walk stops
    when [count == limit]. *)
Definition expired_queue (now : Z) (q : gset (Z * string * string)) : list (Z * string * string) :=
  merge_sort queue_le (filter (λ key, key.1.1 <= now) (elements q)).
Definition walk_limit {A} (limit : Z) (l : list A) : list A := if 0 <? limit then take (Z.to_nat limit) l else l.
Definition RemoveExpiredAllowances (now limit : Z) : GoM FeegrantState unit :=
  keysToRemove ← readM (λ s, walk_limit limit (expired_queue now (FeeAllowanceQueue s)));
  _ ← forM_ (λ key, set_FeeAllowance (delete (key.1.2, key.2))) keysToRemove;
  forM_ (λ key, set_Queue (λ q, q ∖ {[key]})) keysToRemove.

Definition InitGenesis (now : Z) (allowances : list Grant) : GoM FeegrantState unit :=
  forM_ (λ f, granter ← liftM (StringToBytes (Granter f));
              grantee ← liftM (StringToBytes (Grantee f));
              grant ← liftM (GetGrant f);
              GrantAllowance now granter grantee grant) allowances.

(** ** Messages: keeper/msg_server.go *)

(** [strings.EqualFold]: runes are compared up to case; outside ASCII the
    folding orbits come from the tables of package unicode, [fold]. *)
Definition ascii_lower (r : Z) : Z := if in_range 0x41 0x5A r then r + 32 else r.
Fixpoint runes_fold (fold : Z → Z → bool) (l1 l2 : list Z) : bool :=
  match l1, l2 with
  | [], [] => true
  | r1 :: l1, r2 :: l2 =>
      ((r1 =? r2) || (if (r1 <? 0x80) && (r2 <? 0x80) then ascii_lower r1 =? ascii_lower r2 else fold r1 r2))
      && runes_fold fold l1 l2
  | _, _ => false
  end.
Definition EqualFold (fold : Z → Z → bool) (s1 s2 : string) : bool :=
  runes_fold fold (utf8_runes (string_bytes s1)) (utf8_runes (string_bytes s2)).

Definition Msg_GrantAllowance (fold : Z → Z → bool) (now : Z) (Granter Grantee : string) (Allowance : option FeeAllowanceI)
    : GoM FeegrantState unit :=
  _ ← liftM (guard_err (EqualFold fold Grantee Granter) ErrInvalidAddress);
  grantee ← liftM (StringToBytes Grantee);
  granter ← liftM (StringToBytes Granter);
  exists_ ← has_allowance granter grantee;
  _ ← liftM (guard_err exists_ ErrInvalidRequest);
  allowance ← liftM (match Allowance with Some a => Ok a | None => Err ErrNoAllowance end);
  _ ← liftM (ValidateBasic allowance);
  GrantAllowance now granter grantee allowance.
Definition Msg_RevokeAllowance (Granter Grantee : string) : GoM FeegrantState unit :=
  _ ← liftM (guard_err (str_eq Grantee Granter) ErrInvalidAddress);
  grantee ← liftM (StringToBytes Grantee);
  granter ← liftM (StringToBytes Granter);
  revokeAllowance granter grantee.
Definition Msg_PruneAllowances (now : Z) : GoM FeegrantState unit := RemoveExpiredAllowances now 75.
(** ** module/abci.go *)
Definition Feegrant_EndBlocker (now : Z) : GoM FeegrantState unit := RemoveExpiredAllowances now 200.
End Keeper.
