(* ===== verification/FeegrantProps.v ===== *)
(** * What fee allowances guarantee

    An accepted fee is within the limits and is deducted from them; however
    often an allowance is used, the fees accepted never exceed its spend limit;
    the expiration queue lists exactly the expiring allowances; pruning removes
    all that expired.  Two properties show where the period limit is not kept. *)
From S2P Require Import Prelude MathInt Coin CoinFacts Account Bank Gas Feegrant.

Section Accept.
Context {cfg : CoinConfig}.

Lemma IsZero_amount cs d : Coins_IsZero cs = true → amount cs d = 0.
Proof.
  unfold Coins_IsZero. induction cs as [|c cs IH]; [done|]. cbn. intros [Hc Hcs]%andb_prop.
  rewrite IH by done. rewrite Coin_IsZero_eqb in Hc. case_decide; lia.
Qed.
(** The fee a [SafeSub] accepts has no negative amount. *)
Lemma SafeSub_nonneg a b diff neg d : Coins_SafeSub a b = Ok (diff, neg) → 0 <= amount b d.
Proof.
  intros H. unfold Coins_SafeSub in H. go_inv. match goal with H : NewCoins _ = Ok _ |- _ => rename H into Hn end.
  rewrite <- (NewCoins_amount _ _ d Hn). apply NewCoins_Ok in Hn as [_ Hv]. by apply valid_coins_amount_nonneg.
Qed.

(** The absolute limit of an allowance. *)
Fixpoint spend_limit (a : FeeAllowanceI) : option Coins :=
  match a with
  | IBasic b => SpendLimit b
  | IPeriodic p => SpendLimit (Basic p)
  | IAllowedMsg None _ => None
  | IAllowedMsg (Some inner) _ => spend_limit inner
  end.
(** How an accepted fee changes a limit; a removed allowance is used up. *)
Definition deducted (fee : Coins) (remove : bool) (limit limit' : option Coins) : Prop :=
  match limit with
  | None => remove = false ∧ limit' = None
  | Some L =>
      (∀ d, 0 <= amount fee d <= amount L d) ∧
      if remove then ∀ d, amount fee d = amount L d
      else ∃ L', limit' = Some L' ∧ ∀ d, amount L' d = amount L d - amount fee d
  end.

Lemma SafeSub_deducted L fee diff : Coins_SafeSub L fee = Ok (diff, false) →
  (∀ d, 0 <= amount fee d <= amount L d) ∧ (∀ d, amount diff d = amount L d - amount fee d) ∧
  (Coins_IsZero diff = true → ∀ d, amount fee d = amount L d).
Proof.
  intros HS. pose proof HS as (_ & Hd & Hn)%Coins_SafeSub_Ok. pose proof (proj1 Hn eq_refl) as Hle. split.
  { intros d. split; [by eapply SafeSub_nonneg|apply Hle]. }
  split; [done|]. intros Hz d. pose proof (IsZero_amount diff d Hz) as H0. rewrite Hd in H0. lia.
Qed.
Lemma Basic_Accept_Ok now fee b remove b' : Basic_Accept now fee b = Ok (remove, None, b') →
  expired now (Expiration b) = false ∧ Expiration b' = Expiration b ∧
  deducted fee remove (SpendLimit b) (SpendLimit b').
Proof.
  unfold Basic_Accept. destruct (expired now (Expiration b)) eqn:Ex; [done|]. intros Hacc. split; [done|].
  destruct (SpendLimit b) as [L|] eqn:EL; [|injection Hacc as <- <-; rewrite EL; done].
  destruct (Coins_SafeSub L fee) as [[diff neg]| |] eqn:HS; [|done..]. cbn in Hacc.
  destruct neg; [done|]. injection Hacc as <- <-. split; [done|]. cbn.
  apply SafeSub_deducted in HS as (Hle & Hd & Hz). split; [done|].
  destruct (Coins_IsZero diff) eqn:E0; [by apply Hz|by exists diff].
Qed.

Lemma tryResetPeriod_frame now p p' : tryResetPeriod now p = Ok p' →
  Basic p' = Basic p ∧ Period p' = Period p ∧ PeriodSpendLimit p' = PeriodSpendLimit p.
Proof.
  unfold tryResetPeriod. destruct (now <? PeriodReset p); [by intros [= <-]|].
  destruct (Coins_SafeSub _ _) as [[d isNeg]| |]; [|done..]. cbn. intros [= <-]. by case_match.
Qed.
Lemma Periodic_Accept_Ok now fee p remove p' : Periodic_Accept now fee p = Ok (remove, None, p') →
  expired now (Expiration (Basic p)) = false ∧ Expiration (Basic p') = Expiration (Basic p) ∧
  deducted fee remove (SpendLimit (Basic p)) (SpendLimit (Basic p')) ∧
  ∃ p1, tryResetPeriod now p = Ok p1 ∧ PeriodReset p' = PeriodReset p1 ∧
    ∀ d, amount fee d <= amount (PeriodCanSpend p1) d ∧ amount (PeriodCanSpend p') d = amount (PeriodCanSpend p1) d - amount fee d.
Proof.
  unfold Periodic_Accept. destruct (expired now _) eqn:Ex; [done|]. intros Hacc. split; [done|].
  destruct (tryResetPeriod now p) as [p1| |] eqn:Hr; [|done..]. cbn [mbind outcome_bind] in Hacc.
  apply tryResetPeriod_frame in Hr as Hf. destruct Hf as (Hb & _).
  destruct (Coins_SafeSub (PeriodCanSpend p1) fee) as [[can neg]| |] eqn:HS; [|done..]. cbn in Hacc. destruct neg; [done|].
  apply SafeSub_deducted in HS as (Hle1 & Hd1 & _). rewrite Hb in Hacc.
  destruct (SpendLimit (Basic p)) as [L|] eqn:EL.
  - destruct (Coins_SafeSub L fee) as [[diff neg]| |] eqn:HS; [|done..]. cbn in Hacc.
    destruct neg; [done|]. injection Hacc as <- <-. cbn. rewrite Hb. split; [done|]. split; [|exists p1; naive_solver].
    apply SafeSub_deducted in HS as (Hle & Hd & Hz). split; [done|].
    destruct (Coins_IsZero diff) eqn:E0; [by apply Hz|by exists diff].
  - injection Hacc as <- <-. cbn. rewrite Hb, EL. split; [done|]. split; [done|]. exists p1. naive_solver.
Qed.

(** The expiration of an allowance does not change, and its limit is charged. *)
Lemma Accept_Ok now fee msgs a : ∀ g remove a' g', Accept now fee msgs a g = (Ok (remove, None, a'), g') →
  (∃ exp, ExpiresAt a = Ok exp ∧ ExpiresAt a' = Ok exp ∧ expired now exp = false) ∧
  deducted fee remove (spend_limit a) (spend_limit a').
Proof.
  induction a as [b|p|ms|inner ms IH] using FeeAllowanceI_ind; intros g remove a' g' Hacc; cbn [Accept] in Hacc.
  - go_inv. destruct x as [[r e] b']. go_inv. apply Basic_Accept_Ok in H as (Hx & He & Hd). cbn. rewrite He. split; [by eauto|done].
  - go_inv. destruct x as [[r e] p']. go_inv. apply Periodic_Accept_Ok in H as (Hx & He & Hd & _). cbn. rewrite He. split; [by eauto|done].
  - go_inv. by destruct x.
  - go_inv. destruct x; cbn in Hacc; [|done]. go_inv. destruct x as [[r e] inner']. go_inv.
    apply IH in H0 as [(exp & E1 & E2 & Hx) Hd].
    destruct remove; cbn; (split; [by eauto|]); [|done]. unfold deducted in *. by destruct (spend_limit inner); [|destruct Hd].
Qed.
End Accept.

(** ** Using a grant *)

Section Uses.
Context {cfg : CoinConfig} {acfg : AddressConfig}.
Variables granter grantee : string.

Definition queue_without (exp : option Z) (q : gset (Z * string * string)) : gset (Z * string * string) :=
  match exp with Some e => q ∖ {[(e, grantee, granter)]} | None => q end.

Lemma GetAllowance_Ok s a s' : GetAllowance granter grantee s = (Ok a, s') →
  s' = s ∧ ∃ gr, FeeAllowance s !! (grantee, granter) = Some gr ∧ Grant_Allowance gr = Some a.
Proof.
  unfold GetAllowance, mbind, GoM_bind, readM, liftM, GetGrant. destruct (FeeAllowance s !! _) as [gr|] eqn:Hl; [|done].
  destruct (Grant_Allowance gr) eqn:E; [|done]. intros [= <- <-]. eauto.
Qed.
Lemma GetAllowance_run s gr a : FeeAllowance s !! (grantee, granter) = Some gr → Grant_Allowance gr = Some a →
  GetAllowance granter grantee s = (Ok a, s).
Proof.
  intros Hl Ha. unfold GetAllowance. rewrite (GoM_bind_run _ _ (Some gr) s s) by (unfold readM; by rewrite Hl).
  unfold liftM, GetGrant. by rewrite Ha.
Qed.

(** What an accepted use does to the store. *)
Lemma UseGrantedFees_Ok now fee msgs s s' : UseGrantedFees now granter grantee fee msgs s = (Ok tt, s') →
  ∃ gr a g remove a' g' exp, FeeAllowance s !! (grantee, granter) = Some gr ∧ Grant_Allowance gr = Some a ∧
    Accept now fee msgs a g = (Ok (remove, None, a'), g') ∧ ExpiresAt a = Ok exp ∧
    if remove : bool
    then FeeAllowance s' = delete (grantee, granter) (FeeAllowance s) ∧
         FeeAllowanceQueue s' = queue_without exp (FeeAllowanceQueue s)
    else FeeAllowanceQueue s' = FeeAllowanceQueue s ∧ ∃ gr', Grant_Allowance gr' = Some a' ∧
         FeeAllowance s' = <[(grantee, granter) := gr']> (FeeAllowance s).
Proof.
  unfold UseGrantedFees. intros H. go_inv. apply GetAllowance_Ok in H0 as (-> & gr & Hl & Ha).
  destruct x5 as [[remove err] a']. rename x into a. destruct err as [e|]; [go_inv|]. unfold on_gas in H3.
  destruct (Accept now fee msgs a (fg_gas s)) as [r g'] eqn:Hacc. injection H3 as -> <-.
  pose proof (Accept_Ok _ _ _ _ _ _ _ _ Hacc) as [(exp & He & _) _].
  exists gr, a, (fg_gas s), remove, a', g', exp. split; [done|]. split; [done|]. split; [done|]. split; [done|].
  set (s1 := mkFeegrantState (FeeAllowance s) (FeeAllowanceQueue s) g') in *.
  assert (GetAllowance granter grantee s1 = (Ok a, s1)) as Hget by (by apply (GetAllowance_run s1 gr a)).
  destruct remove.
  - assert (revokeAllowance granter grantee s1 = (Ok tt, mkFeegrantState (delete (grantee, granter) (FeeAllowance s))
      (queue_without exp (FeeAllowanceQueue s)) g')) as Hrev.
    { unfold revokeAllowance. rewrite (GoM_bind_run _ _ _ _ _ Hget). unfold set_FeeAllowance, mbind, GoM_bind, modifyM, liftM.
      rewrite He. destruct exp; cbn; rewrite H1, H2; done. }
    unfold ignore_err in H. rewrite Hrev in H. by injection H as <-.
  - unfold UpdateAllowance in H. rewrite (GoM_bind_run _ _ _ _ _ Hget) in H. unfold set_FeeAllowance in H. go_inv. injection H as <-. split; [done|]. eexists. by split; [|reflexivity].
Qed.

(** The fees accepted by a sequence of transactions; a transaction that fails
    is rolled back. *)
Fixpoint fees_accepted (uses : list (Z * Coins * list string)) (s : FeegrantState) (d : string) : Z :=
  match uses with
  | [] => 0
  | (now, fee, msgs) :: uses =>
      match UseGrantedFees now granter grantee fee msgs s with
      | (Ok _, s') => amount fee d + fees_accepted uses s' d
      | _ => fees_accepted uses s d
      end
  end.
Lemma not_granted uses : ∀ s d, FeeAllowance s !! (grantee, granter) = None → fees_accepted uses s d = 0.
Proof.
  induction uses as [|[[now fee] msgs] uses IH]; intros s d Hs; [done|]. cbn.
  destruct (UseGrantedFees now granter grantee fee msgs s) as [[[]| |] s'] eqn:E; [|by apply IH..].
  apply UseGrantedFees_Ok in E as (gr & a & g & r & a' & g' & exp & Hl & _). congruence.
Qed.
Lemma fees_bounded uses : ∀ s gr a L, FeeAllowance s !! (grantee, granter) = Some gr → Grant_Allowance gr = Some a →
  spend_limit a = Some L → (∀ d, 0 <= amount L d) → ∀ d, 0 <= fees_accepted uses s d <= amount L d.
Proof.
  induction uses as [|[[now fee] msgs] uses IH]; intros s gr a L Hl Ha HL Hpos d; [cbn; specialize (Hpos d); lia|]. cbn.
  destruct (UseGrantedFees now granter grantee fee msgs s) as [[[]| |] s'] eqn:E; [|by eapply IH..].
  apply UseGrantedFees_Ok in E as (gr0 & a0 & g & remove & a' & g' & exp & Hl0 & Ha0 & Hacc & _ & Hst).
  rewrite Hl in Hl0. injection Hl0 as <-. rewrite Ha in Ha0. injection Ha0 as <-.
  apply Accept_Ok in Hacc as [_ Hd]. rewrite HL in Hd. destruct Hd as [Hle Hd]. specialize (Hle d) as Hled. destruct remove.
  - destruct Hst as [Hst _]. rewrite not_granted by (rewrite Hst; apply lookup_delete_eq). lia.
  - destruct Hd as (L' & HL' & Hd), Hst as (_ & gr' & Ha' & Hst).
    assert (∀ d, 0 <= amount L' d) as Hpos' by (intros d'; rewrite Hd; specialize (Hle d'); lia).
    pose proof (IH s' gr' a' L' ltac:(rewrite Hst; apply lookup_insert_eq) Ha' HL' Hpos' d) as Hr. rewrite Hd in Hr. lia.
Qed.
End Uses.

(** ** The expiration queue *)

Section Queue.
Context {cfg : CoinConfig} {acfg : AddressConfig}.
Implicit Types (m : gmap (string * string) Grant) (q : gset (Z * string * string)) (s : FeegrantState).

Definition grant_expiry (gr : Grant) : outcome (option Z) := a ← GetGrant gr; ExpiresAt a.
(** Every stored grant unpacks, and the queue lists exactly the grants that expire. *)
Definition queue_ok m q : Prop :=
  (∀ k gr, m !! k = Some gr → is_ok (grant_expiry gr) = true) ∧
  ∀ e g r, (e, g, r) ∈ q ↔ ∃ gr, m !! (g, r) = Some gr ∧ grant_expiry gr = Ok (Some e).

Lemma queue_ok_empty : queue_ok ∅ ∅.
Proof. split; [by intros k gr Hk; rewrite lookup_empty in Hk|]. intros e g r. split; [set_solver|]. intros (gr & Hk & _). by rewrite lookup_empty in Hk. Qed.

(** Storing a grant with the expiration of the one before it, or a new one. *)
Lemma queue_ok_insert m q g r gr exp : queue_ok m q → grant_expiry gr = Ok exp →
  (∀ gr0, m !! (g, r) = Some gr0 → grant_expiry gr0 = Ok exp) →
  queue_ok (<[(g, r) := gr]> m) (match exp with Some e => {[(e, g, r)]} ∪ q | None => q end).
Proof.
  intros [Hw Hq] He Hold. split.
  { intros k gr' [[<- <-]|[_ ?]]%lookup_insert_Some; [by rewrite He|by eapply Hw]. }
  intros e g' r'. transitivity ((exp = Some e ∧ (g', r') = (g, r)) ∨ (e, g', r') ∈ q).
  { destruct exp as [e'|]; [rewrite elem_of_union, elem_of_singleton|]; naive_solver. }
  rewrite Hq. setoid_rewrite lookup_insert_Some. split.
  - intros [[-> [= -> ->]]|(gr' & Hl & Hx)]; [exists gr; naive_solver|].
    destruct (decide ((g, r) = (g', r'))) as [[= -> ->]|Hne]; [|exists gr'; naive_solver].
    exists gr. rewrite (Hold gr' Hl) in Hx. injection Hx as ->. naive_solver.
  - intros (gr' & [[[= -> ->] <-]|[Hne Hl]] & Hx); [left|right; naive_solver]. rewrite He in Hx. naive_solver.
Qed.
Lemma queue_ok_delete m q g r exp : queue_ok m q →
  (∀ gr, m !! (g, r) = Some gr → grant_expiry gr = Ok exp) →
  queue_ok (delete (g, r) m) (queue_without r g exp q).
Proof.
  intros [Hw Hq] Hold. split.
  { intros k gr' [_ ?]%lookup_delete_Some. by eapply Hw. }
  intros e g' r'. transitivity ((e, g', r') ∈ q ∧ (g', r') ≠ (g, r)).
  { unfold queue_without. destruct exp as [e'|].
    - rewrite elem_of_difference, elem_of_singleton. split; intros [Hin Hne]; (split; [done|]); [|naive_solver].
      intros [= -> ->]. apply Hq in Hin as (gr & Hl & Hx). rewrite (Hold gr Hl) in Hx. naive_solver.
    - split; [|naive_solver]. intros Hin. split; [done|]. intros [= -> ->]. apply Hq in Hin as (gr & Hl & Hx). rewrite (Hold gr Hl) in Hx. done. }
  rewrite Hq. setoid_rewrite lookup_delete_Some. naive_solver.
Qed.

Lemma UpdatePeriodReset_expiry now a a' : UpdatePeriodReset now a = Ok a' → ExpiresAt a' = ExpiresAt a.
Proof. destruct a as [b|p|[inner|] ms]; cbn; intros H; go_inv; done. Qed.

Lemma GrantAllowance_queue now granter grantee a s s' : queue_ok (FeeAllowance s) (FeeAllowanceQueue s) →
  GrantAllowance now granter grantee a s = (Ok tt, s') →
  queue_ok (FeeAllowance s') (FeeAllowanceQueue s') ∧ FeeAllowance s !! (grantee, granter) = None ∧
  ∃ gr, FeeAllowance s' = <[(grantee, granter) := gr]> (FeeAllowance s).
Proof.
  intros Hok H. unfold GrantAllowance in H. apply GoM_bind_Ok in H as (has & s0 & Hhas & H). injection Hhas as <- <-. go_inv.
  assert (FeeAllowance s !! (grantee, granter) = None) as Hnone.
  { destruct (FeeAllowance s !! (grantee, granter)) as [gr|] eqn:Hl; [|done]. pose proof (proj1 Hok _ _ Hl) as Hgr.
    unfold grant_expiry in Hgr. by destruct (GetGrant gr). }
  injection H as <-. assert (ExpiresAt x11 = Ok x1) as Hexp.
  { rewrite <- H1. destruct (now =? zero_time); [by injection H6 as <-|]. by eapply UpdatePeriodReset_expiry. }
  assert (x6 = mkFeegrantState (FeeAllowance s)
    (match x1 with Some e => {[(e, grantee, granter)]} ∪ FeeAllowanceQueue s | None => FeeAllowanceQueue s end) (fg_gas s)) as ->.
  { destruct x1; injection H3 as _ <-; [done|by destruct s]. }
  cbn. split; [|split; [done|by eauto]]. apply queue_ok_insert; [done|done|]. intros gr0 Hl. congruence.
Qed.
Lemma UseGrantedFees_queue now granter grantee fee msgs s s' : queue_ok (FeeAllowance s) (FeeAllowanceQueue s) →
  UseGrantedFees now granter grantee fee msgs s = (Ok tt, s') → queue_ok (FeeAllowance s') (FeeAllowanceQueue s').
Proof.
  intros Hok (gr & a & g & remove & a' & g' & exp & Hl & Ha & Hacc & He & Hst)%UseGrantedFees_Ok.
  assert (grant_expiry gr = Ok exp) as Hgr by (unfold grant_expiry, GetGrant; by rewrite Ha).
  destruct remove.
  - destruct Hst as [-> ->]. apply queue_ok_delete; [done|]. congruence.
  - destruct Hst as (-> & gr' & Ha' & ->). apply Accept_Ok in Hacc as [(exp' & E1 & E2 & _) _].
    rewrite He in E1. injection E1 as <-.
    assert (queue_ok (<[(grantee, granter) := gr']> (FeeAllowance s))
      (match exp with Some e => {[(e, grantee, granter)]} ∪ FeeAllowanceQueue s | None => FeeAllowanceQueue s end)) as Hins.
    { apply queue_ok_insert; [done| |congruence]. unfold grant_expiry, GetGrant. by rewrite Ha'. }
    destruct exp as [e|]; [|done]. replace ({[(e, grantee, granter)]} ∪ FeeAllowanceQueue s) with (FeeAllowanceQueue s) in Hins; [done|].
    assert ((e, grantee, granter) ∈ FeeAllowanceQueue s) by (apply Hok; eauto). set_solver.
Qed.
Lemma revokeAllowance_queue granter grantee s s' : queue_ok (FeeAllowance s) (FeeAllowanceQueue s) →
  revokeAllowance granter grantee s = (Ok tt, s') →
  queue_ok (FeeAllowance s') (FeeAllowanceQueue s') ∧ FeeAllowance s' = delete (grantee, granter) (FeeAllowance s).
Proof.
  intros Hok H. unfold revokeAllowance in H. apply GoM_bind_Ok in H as (a & s0 & Hget & H).
  apply GetAllowance_Ok in Hget as (-> & gr & Hl & Ha). unfold set_FeeAllowance, mbind, GoM_bind, modifyM, liftM in H.
  destruct (ExpiresAt a) as [exp| |] eqn:He; [|done..].
  assert (grant_expiry gr = Ok exp) as Hgr by (unfold grant_expiry, GetGrant; by rewrite Ha).
  assert (FeeAllowance s' = delete (grantee, granter) (FeeAllowance s) ∧
          FeeAllowanceQueue s' = queue_without granter grantee exp (FeeAllowanceQueue s)) as [Em Eq].
  { destruct exp as [e|]; cbn in H; destruct (BytesToString granter); try done; destruct (BytesToString grantee); try done; by injection H as <-. }
  rewrite Em, Eq. split; [|done]. apply queue_ok_delete; [done|]. congruence.
Qed.

(** *** Pruning *)

Lemma forM_modify {A} (f : A → FeegrantState → FeegrantState) l : ∀ s,
  forM_ (λ x, modifyM (f x)) l s = (Ok tt, foldl (λ s x, f x s) s l).
Proof. induction l as [|x l IH]; intros s; [done|]. cbn [forM_ foldl]. by rewrite (GoM_bind_run _ _ tt s (f x s)). Qed.

Definition pruned_allowances (keys : list (Z * string * string)) m := foldl (λ m key, delete (key.1.2, key.2) m) m keys.
Lemma RemoveExpired_run now limit s : let keys := walk_limit limit (expired_queue now (FeeAllowanceQueue s)) in
  RemoveExpiredAllowances now limit s =
  (Ok tt, mkFeegrantState (pruned_allowances keys (FeeAllowance s)) (FeeAllowanceQueue s ∖ list_to_set keys) (fg_gas s)).
Proof.
  intros keys. unfold RemoveExpiredAllowances. rewrite (GoM_bind_run _ _ keys s s) by done.
  unfold set_FeeAllowance, set_Queue. rewrite (GoM_bind_run _ _ tt s _ (forM_modify _ keys s)), forM_modify. f_equal.
  clearbody keys. destruct s as [m q g]. cbn.
  assert (∀ m, foldl (λ s key, mkFeegrantState (delete (key.1.2, key.2) (FeeAllowance s)) (FeeAllowanceQueue s) (fg_gas s))
    (mkFeegrantState m q g) keys = mkFeegrantState (pruned_allowances keys m) q g) as ->.
  { unfold pruned_allowances. induction keys as [|k keys IH]; intros m'; [done|]. cbn. apply IH. }
  generalize (pruned_allowances keys m) as m'. intros m'. revert q. induction keys as [|k keys IH]; intros q; cbn.
  - f_equal. set_solver.
  - rewrite IH. f_equal. set_solver.
Qed.
Lemma lookup_pruned keys : ∀ m g r gr,
  pruned_allowances keys m !! (g, r) = Some gr ↔ m !! (g, r) = Some gr ∧ ∀ e, (e, g, r) ∉ keys.
Proof.
  induction keys as [|[[e0 g0] r0] keys IH]; intros m g r gr; cbn.
  - split; [|by intros [? _]]. intros. split; [done|]. intros e. apply not_elem_of_nil.
  - unfold pruned_allowances in IH. rewrite IH, lookup_delete_Some. setoid_rewrite not_elem_of_cons. cbn. split.
    + intros [[Hne Hl] Hni]. split; [done|]. intros e. split; [|apply Hni]. by intros [= -> -> ->].
    + intros [Hl Hni]. split; [split; [|done]|intros e; apply Hni]. intros [= <- <-]. by destruct (Hni e0).
Qed.
Lemma elem_of_expired now q key : key ∈ expired_queue now q ↔ key ∈ q ∧ key.1.1 <= now.
Proof. unfold expired_queue. rewrite (merge_sort_Permutation queue_le), list_elem_of_filter, elem_of_elements. naive_solver. Qed.
Lemma expired_NoDup now q : NoDup (expired_queue now q).
Proof. unfold expired_queue. rewrite (merge_sort_Permutation queue_le). apply NoDup_filter, NoDup_elements. Qed.

Lemma prune_queue_ok keys m q : queue_ok m q → (∀ key, key ∈ keys → key ∈ q) →
  queue_ok (pruned_allowances keys m) (q ∖ list_to_set keys).
Proof.
  intros [Hw Hq] Hsub. split.
  { intros [g r] gr [? _]%lookup_pruned. by eapply Hw. }
  intros e g r. rewrite elem_of_difference, elem_of_list_to_set, Hq. setoid_rewrite lookup_pruned. split.
  - intros [(gr & Hl & He) Hni]. exists gr. split; [|done]. split; [done|]. intros e' Hin.
    pose proof (Hsub _ Hin) as (gr' & Hl' & He')%Hq. rewrite Hl in Hl'. injection Hl' as <-.
    rewrite He in He'. injection He' as <-. done.
  - intros (gr & [Hl Hni] & He). split; [by eauto|apply Hni].
Qed.
(** After a round, what was not pruned of the expired queue is left of it. *)
Lemma expired_after now q n :
  expired_queue now (q ∖ list_to_set (take n (expired_queue now q))) ≡ₚ drop n (expired_queue now q).
Proof.
  pose proof (expired_NoDup now q) as Hn. apply NoDup_Permutation.
  - apply expired_NoDup.
  - eapply sublist_NoDup; [exact Hn|apply sublist_drop].
  - intros key. rewrite elem_of_expired, elem_of_difference, elem_of_list_to_set.
    transitivity (key ∈ expired_queue now q ∧ key ∉ take n (expired_queue now q)).
    { rewrite elem_of_expired. naive_solver. }
    rewrite <- (take_drop n (expired_queue now q)) in Hn |- * at 1. apply NoDup_app in Hn as (_ & Hd & _).
    rewrite elem_of_app. naive_solver.
Qed.

Lemma prune_rounds now : ∀ (k : nat) s, queue_ok (FeeAllowance s) (FeeAllowanceQueue s) →
  (length (expired_queue now (FeeAllowanceQueue s)) <= 75 * k)%nat → ∃ s',
  forM_ (λ _, Msg_PruneAllowances now) (replicate k tt) s = (Ok tt, s') ∧
  queue_ok (FeeAllowance s') (FeeAllowanceQueue s') ∧
  (∀ key, key ∈ FeeAllowanceQueue s' ↔ key ∈ FeeAllowanceQueue s ∧ now < key.1.1) ∧
  (∀ g r gr, FeeAllowance s' !! (g, r) = Some gr ↔
     FeeAllowance s !! (g, r) = Some gr ∧ ∀ e, grant_expiry gr = Ok (Some e) → now < e).
Proof.
  induction k as [|k IH]; intros s Hok Hlen.
  - exists s. split; [done|]. split; [done|]. assert (expired_queue now (FeeAllowanceQueue s) = []) as E by (apply length_zero_iff_nil; lia).
    assert (∀ key, key ∈ FeeAllowanceQueue s → now < key.1.1) as Hno.
    { intros key Hin. apply Z.nle_gt. intros Hle. assert (key ∈ expired_queue now (FeeAllowanceQueue s)) as Hx by (by apply elem_of_expired).
      rewrite E in Hx. by apply elem_of_nil in Hx. }
    split; [naive_solver|]. intros g r gr. split; [|naive_solver]. intros Hl. split; [done|]. intros e He.
    apply (Hno (e, g, r)). apply Hok. eauto.
  - set (keys := take 75 (expired_queue now (FeeAllowanceQueue s))).
    set (s1 := mkFeegrantState (pruned_allowances keys (FeeAllowance s)) (FeeAllowanceQueue s ∖ list_to_set keys) (fg_gas s)).
    assert (Msg_PruneAllowances now s = (Ok tt, s1)) as H1 by apply RemoveExpired_run.
    assert (∀ key, key ∈ keys → key ∈ FeeAllowanceQueue s ∧ key.1.1 <= now) as Hkeys.
    { intros key Hk. apply elem_of_expired. by eapply subseteq_take. }
    destruct (IH s1) as (s' & Hrun & Hok' & HQ & HM).
    { apply prune_queue_ok; [done|]. intros key Hk. by apply Hkeys. }
    { unfold s1, keys. cbn [FeeAllowanceQueue]. rewrite (expired_after now _ 75), length_drop. lia. }
    exists s'. split; [cbn [replicate forM_]; by rewrite (GoM_bind_run _ _ _ _ _ H1)|]. split; [done|]. split.
    + intros key. rewrite HQ. unfold s1. cbn. rewrite elem_of_difference, elem_of_list_to_set.
      split; [naive_solver|]. intros [Hin Hlt]. split; [split; [done|]|done]. intros [_ ?]%Hkeys. lia.
    + intros g r gr. rewrite HM. unfold s1. cbn. rewrite lookup_pruned. split; [naive_solver|].
      intros [Hl Hx]. split; [split; [done|]|done]. intros e [(gr' & Hl' & He)%Hok Hle]%Hkeys. cbn in Hle.
      rewrite Hl in Hl'. injection Hl' as <-. specialize (Hx e He). lia.
Qed.
End Queue.

(** ** Periods *)

Section Periods.
Context {cfg : CoinConfig}.

(** The fees a periodic allowance accepts, the object updated by each [Accept]. *)
Fixpoint period_accepted (uses : list (Z * Coins)) (p : PeriodicAllowance) (d : string) : Z :=
  match uses with
  | [] => 0
  | (now, fee) :: uses =>
      match Periodic_Accept now fee p with
      | Ok (false, None, p') => amount fee d + period_accepted uses p' d
      | Ok (true, None, _) => amount fee d
      | _ => period_accepted uses p d
      end
  end.
Lemma before_reset now p : now < PeriodReset p → tryResetPeriod now p = Ok p.
Proof. intros H. unfold tryResetPeriod. by rewrite (proj2 (Z.ltb_lt _ _) H). Qed.
Lemma period_bounded uses : ∀ p, Forall (λ u, u.1 < PeriodReset p) uses → (∀ d, 0 <= amount (PeriodCanSpend p) d) →
  ∀ d, period_accepted uses p d <= amount (PeriodCanSpend p) d.
Proof.
  induction uses as [|[now fee] uses IH]; intros p Huses Hpos d; [apply Hpos|]. apply Forall_cons in Huses as [Hnow Huses]. cbn.
  destruct (Periodic_Accept now fee p) as [[[remove err] p']| |] eqn:E; [|by apply IH..].
  destruct err as [e|]; [destruct remove; by apply IH|].
  apply Periodic_Accept_Ok in E as (_ & _ & _ & p1 & Hr & Hreset & Hcan). rewrite before_reset in Hr by done. injection Hr as <-.
  destruct remove; [apply Hcan|]. destruct (Hcan d) as [_ Ed].
  enough (period_accepted uses p' d <= amount (PeriodCanSpend p') d) by lia. apply IH; [by rewrite Hreset|].
  intros d'. destruct (Hcan d') as [? ->]. lia.
Qed.
(** What a reset puts into the period. *)
Lemma reset_spec now p p' : PeriodReset p <= now → tryResetPeriod now p = Ok p' →
  (PeriodCanSpend p' = PeriodSpendLimit p ∨
   ∃ L d, SpendLimit (Basic p) = Some L ∧ PeriodCanSpend p' = L ∧ amount L d < amount (PeriodSpendLimit p) d) ∧
  PeriodReset p' = (if PeriodReset p + Period p <? now then now + Period p else PeriodReset p + Period p).
Proof.
  intros Hge H. unfold tryResetPeriod in H. rewrite (proj2 (Z.ltb_ge _ _) Hge) in H.
  destruct (Coins_SafeSub _ _) as [[diff isNeg]| |] eqn:HS; [|done..]. cbn [mbind outcome_bind] in H. injection H as <-. split.
  - destruct (isNeg && negb (Coins_Empty (default [] (SpendLimit (Basic p))))) eqn:E; [right|left; by case_match].
    apply andb_prop in E as [En Ee]. subst isNeg. destruct (SpendLimit (Basic p)) as [L|]; [|done]. cbn in *.
    apply Coins_SafeSub_Ok in HS as (_ & Hd & Hn). exists L.
    assert (¬ ∀ d, amount (PeriodSpendLimit p) d <= amount L d) as Hnot by (intros Hle; by apply Hn in Hle).
    assert (∃ d, ¬ amount (PeriodSpendLimit p) d <= amount L d) as [d Hdn].
    { destruct (decide (Forall (λ c, amount (PeriodSpendLimit p) (Denom c) <= amount L (Denom c)) (PeriodSpendLimit p ++ L))) as [Hf|Hf].
      - destruct Hnot. intros d. destruct (decide (d ∈ map Denom (PeriodSpendLimit p ++ L))) as [Hin|Hni].
        + apply list_elem_of_fmap in Hin as (c & -> & Hc). rewrite Forall_forall in Hf. by apply Hf.
        + rewrite map_app, elem_of_app in Hni. rewrite !amount_not_in by tauto. done.
      - apply not_Forall_Exists in Hf; [|apply _]. apply Exists_exists in Hf as (c & _ & Hc). eauto. }
    exists d. split; [done|]. split; [by case_match|lia].
  - by case_match.
Qed.
End Periods.

(** ** Sequences of keeper operations *)

Inductive fg_op :=
| OpGrant (now : Z) (granter grantee : string) (a : FeeAllowanceI)
| OpUse (now : Z) (granter grantee : string) (fee : Coins) (msgs : list string)
| OpRevoke (granter grantee : string)
| OpPrune (now : Z)
| OpEndBlock (now : Z)
| OpInit (now : Z) (allowances : list Grant).

Section FgOps.
Context {cfg : CoinConfig} {acfg : AddressConfig}.

Definition run_fg_op (op : fg_op) : GoM FeegrantState unit :=
  match op with
  | OpGrant now granter grantee a => GrantAllowance now granter grantee a
  | OpUse now granter grantee fee msgs => UseGrantedFees now granter grantee fee msgs
  | OpRevoke granter grantee => revokeAllowance granter grantee
  | OpPrune now => Msg_PruneAllowances now
  | OpEndBlock now => Feegrant_EndBlocker now
  | OpInit now allowances => InitGenesis now allowances
  end.
(** Reachable by transactions that commit when they succeed and are rolled back
    otherwise. *)
Inductive fg_reachable : FeegrantState → Prop :=
| fg_start g : fg_reachable (mkFeegrantState ∅ ∅ g)
| fg_step op s s' : fg_reachable s → run_fg_op op s = (Ok tt, s') → fg_reachable s'
| fg_gas_meter s g : fg_reachable s → fg_reachable (mkFeegrantState (FeeAllowance s) (FeeAllowanceQueue s) g).

Lemma InitGenesis_queue now allowances : ∀ s s', queue_ok (FeeAllowance s) (FeeAllowanceQueue s) →
  InitGenesis now allowances s = (Ok tt, s') → queue_ok (FeeAllowance s') (FeeAllowanceQueue s').
Proof.
  unfold InitGenesis. induction allowances as [|f l IH]; intros s s' Hok H; [by injection H as <-|]. cbn [forM_] in H.
  apply GoM_bind_Ok in H as ([] & s1 & H1 & H). eapply IH; [|exact H].
  apply GoM_bind_Ok in H1 as (granter & s2 & H2 & H1). apply liftM_Ok in H2 as [_ ->].
  apply GoM_bind_Ok in H1 as (grantee & s2 & H2 & H1). apply liftM_Ok in H2 as [_ ->].
  apply GoM_bind_Ok in H1 as (grant & s2 & H2 & H1). apply liftM_Ok in H2 as [_ ->].
  by apply GrantAllowance_queue in H1 as [? _].
Qed.
Lemma RemoveExpired_queue now limit s s' : queue_ok (FeeAllowance s) (FeeAllowanceQueue s) →
  RemoveExpiredAllowances now limit s = (Ok tt, s') → queue_ok (FeeAllowance s') (FeeAllowanceQueue s').
Proof.
  intros Hok H. rewrite RemoveExpired_run in H. injection H as <-. cbn. apply prune_queue_ok; [done|].
  intros key Hk. apply (elem_of_expired now). unfold walk_limit in Hk. destruct (0 <? limit); [by apply subseteq_take in Hk|done].
Qed.
Lemma run_fg_op_queue op s s' : queue_ok (FeeAllowance s) (FeeAllowanceQueue s) → run_fg_op op s = (Ok tt, s') →
  queue_ok (FeeAllowance s') (FeeAllowanceQueue s').
Proof.
  intros Hok H. destruct op; cbn in H.
  - by apply GrantAllowance_queue in H as [? _].
  - by eapply UseGrantedFees_queue.
  - by apply revokeAllowance_queue in H as [? _].
  - by eapply RemoveExpired_queue.
  - by eapply RemoveExpired_queue.
  - by eapply InitGenesis_queue.
Qed.
Lemma fg_reachable_queue s : fg_reachable s → queue_ok (FeeAllowance s) (FeeAllowanceQueue s).
Proof. induction 1; [apply queue_ok_empty|by eapply run_fg_op_queue|done]. Qed.
End FgOps.

(** ** Properties *)

(** C30. However often the grantee uses an allowance with a spend limit, over
    any sequence of transactions at any times (basic, periodic or filtered
    allowances alike), the fees accepted are within the limit, denomination by
    denomination. *)
Theorem fee_spending_bounded {cfg : CoinConfig} {acfg : AddressConfig} granter grantee uses s gr a L :
  FeeAllowance s !! (grantee, granter) = Some gr → Grant_Allowance gr = Some a → spend_limit a = Some L → valid_coins L →
  ∀ d, 0 <= fees_accepted granter grantee uses s d <= amount L d.
Proof. intros Hl Ha HL Hv. eapply fees_bounded; try done. intros d. by apply valid_coins_amount_nonneg. Qed.
Definition fg_basic0 : FeeAllowanceI := IAllowedMsg (Some (IBasic (mkBasicAllowance (Some [mkCoin "aaa" 10]) (Some 100)))) ["/send"].
Definition fg_state0 : FeegrantState :=
  mkFeegrantState {[("bob", "alice") := mkGrant "alice" "bob" (Some fg_basic0)]} {[(100, "bob", "alice")]} NewInfiniteGasMeter.
Definition fg_uses0 : list (Z * Coins * list string) :=
  [(5, [mkCoin "aaa" 7], ["/send"]); (6, [mkCoin "aaa" 7], ["/send"]); (7, [mkCoin "aaa" 1], ["/vote"]); (8, [mkCoin "aaa" 3], ["/send"]);
   (9, [mkCoin "aaa" 1], ["/send"])].
Lemma fee_spending_bounded_witness :
  fees_accepted (cfg := default_config) (acfg := acfg_id) "alice" "bob" fg_uses0 fg_state0 "aaa" = 10 ∧
  0 <= fees_accepted (cfg := default_config) (acfg := acfg_id) "alice" "bob" fg_uses0 fg_state0 "aaa" <= 10.
Proof.
  split; [by vm_compute|].
  apply (fee_spending_bounded (cfg := default_config) (acfg := acfg_id) "alice" "bob" fg_uses0 fg_state0
    (mkGrant "alice" "bob" (Some fg_basic0)) fg_basic0 [mkCoin "aaa" 10]); [by vm_compute|done|done|].
  by apply (Coins_IsValid_spec (cfg := default_config)).
Defined.

(** C23. In every reachable state of the fee grant keeper every stored grant
    unpacks, and the expiration queue holds exactly one entry for each grant
    that expires, at its expiration; genesis, granting, use, revocation and
    pruning keep it so. *)
Theorem feegrant_queue_invariant {cfg : CoinConfig} {acfg : AddressConfig} s :
  fg_reachable s → queue_ok (FeeAllowance s) (FeeAllowanceQueue s).
Proof. apply fg_reachable_queue. Qed.
Lemma feegrant_queue_invariant_witness :
  ∃ s, (100, "bob", "alice") ∈ FeeAllowanceQueue s ∧ queue_ok (FeeAllowance s) (FeeAllowanceQueue s).
Proof.
  eexists. split; [|apply (feegrant_queue_invariant (cfg := default_config) (acfg := acfg_id));
    eapply (fg_step (OpGrant 5 "alice" "bob" fg_basic0)); [apply (fg_start NewInfiniteGasMeter)|reflexivity]].
  cbn. by apply elem_of_union_l, elem_of_singleton.
Defined.

(** C31. Pruning makes progress: with at most 75 removals per message, enough
    messages (one per 75 expired entries) remove every grant whose expiration is
    not after the block time, together with its queue entry, and no other grant.
    A grant that expires exactly at the block time is removed although [Accept]
    would still accept it. *)
Theorem prune_removes_all_expired {cfg : CoinConfig} {acfg : AddressConfig} now s (messages : nat) :
  fg_reachable s → (length (expired_queue now (FeeAllowanceQueue s)) <= 75 * messages)%nat →
  ∃ s', forM_ (λ _, Msg_PruneAllowances now) (replicate messages tt) s = (Ok tt, s') ∧
    (∀ key, key ∈ FeeAllowanceQueue s' ↔ key ∈ FeeAllowanceQueue s ∧ now < key.1.1) ∧
    (∀ g r gr, FeeAllowance s' !! (g, r) = Some gr ↔
       FeeAllowance s !! (g, r) = Some gr ∧ ∀ e, grant_expiry gr = Ok (Some e) → now < e) ∧
    expired now (Some now) = false.
Proof.
  intros Hok%fg_reachable_queue Hlen. destruct (prune_rounds now messages s Hok Hlen) as (s' & H1 & _ & H3 & H4).
  exists s'. do 3 (split; [done|]). apply Z.ltb_irrefl.
Qed.
Lemma prune_removes_all_expired_witness :
  ∃ s s', forM_ (λ _, Msg_PruneAllowances 100) [tt] s = (Ok tt, s') ∧
    FeeAllowance s !! ("bob", "alice") ≠ None ∧ FeeAllowance s' !! ("bob", "alice") = None.
Proof.
  set (s := snd (GrantAllowance (acfg := acfg_id) 5 "alice" "bob" fg_basic0 (mkFeegrantState ∅ ∅ NewInfiniteGasMeter))).
  destruct (prune_removes_all_expired (cfg := default_config) (acfg := acfg_id) 100 s 1) as (s' & Hrun & _ & HM & _).
  - eapply (fg_step (OpGrant 5 "alice" "bob" fg_basic0)); [apply (fg_start NewInfiniteGasMeter)|reflexivity].
  - apply Nat.leb_le; by vm_compute.
  - exists s, s'. split; [exact Hrun|]. split; [by vm_compute|].
    destruct (FeeAllowance s' !! ("bob", "alice")) as [gr|] eqn:E; [|done]. apply HM in E as [Hl Hx].
    vm_compute in Hl. injection Hl as <-. by specialize (Hx 100 eq_refl).
Defined.

(** A periodic allowance keeps its period: until the reset time the fees
    accepted are within what the period can still spend; a reset refills the
    period with the period limit, or with the whole remaining spend limit if that
    is below the period limit in some denomination; and it puts the next reset
    strictly after the block time unless the block is exactly one period after
    the last reset. *)
Theorem periodic_limits {cfg : CoinConfig} p :
  valid_coins (PeriodCanSpend p) → 0 < Period p →
  (∀ uses, Forall (λ u, u.1 < PeriodReset p) uses → ∀ d, period_accepted uses p d <= amount (PeriodCanSpend p) d) ∧
  (∀ now p', PeriodReset p <= now → tryResetPeriod now p = Ok p' →
    (PeriodCanSpend p' = PeriodSpendLimit p ∨
     ∃ L d, SpendLimit (Basic p) = Some L ∧ PeriodCanSpend p' = L ∧ amount L d < amount (PeriodSpendLimit p) d) ∧
    now <= PeriodReset p' ∧ (now ≠ PeriodReset p + Period p → now < PeriodReset p')).
Proof.
  intros Hv Hp. split.
  - intros uses Hu. apply period_bounded; [done|]. intros d. by apply valid_coins_amount_nonneg.
  - intros now p' Hge Hr. destruct (reset_spec now p p' Hge Hr) as [H1 H2]. split; [done|]. rewrite H2.
    destruct (Z.ltb_spec (PeriodReset p + Period p) now); lia.
Qed.
Definition fg_periodic0 : PeriodicAllowance :=
  mkPeriodicAllowance (mkBasicAllowance None None) 10 [mkCoin "aaa" 10] [mkCoin "aaa" 10] 10.
Lemma periodic_limits_witness :
  period_accepted (cfg := default_config) [(8, [mkCoin "aaa" 6]); (9, [mkCoin "aaa" 6])] fg_periodic0 "aaa" = 6 ∧
  period_accepted (cfg := default_config) [(8, [mkCoin "aaa" 6]); (9, [mkCoin "aaa" 6])] fg_periodic0 "aaa" <= 10.
Proof.
  split; [by vm_compute|]. apply (periodic_limits (cfg := default_config) fg_periodic0).
  - by apply (Coins_IsValid_spec (cfg := default_config)).
  - done.
  - by repeat constructor.
Defined.

(** Where the limits of a period are not kept.  An allowance that passes
    validation accepts in one period 60 of a denomination whose period limit is
    10, because another denomination of its spend limit is nearly used up.  In a
    block exactly one period after the reset time, the period limit can be spent
    twice.  And the reset time set when a filtered allowance is granted is not
    stored. *)
Theorem period_limits_not_kept :
  let p := mkPeriodicAllowance (mkBasicAllowance (Some [mkCoin "aaa" 5; mkCoin "bbb" 100]) None) 10
             [mkCoin "aaa" 10; mkCoin "bbb" 10] [mkCoin "bbb" 10] 0 in
  ValidateBasic (cfg := default_config) (IPeriodic p) = Ok tt ∧
  period_accepted (cfg := default_config) [(0, [mkCoin "bbb" 60])] p "bbb" = 60 ∧
  period_accepted (cfg := default_config) [(20, [mkCoin "aaa" 10]); (20, [mkCoin "aaa" 10])] fg_periodic0 "aaa" = 20 ∧
  (∀ now inner msgs a', UpdatePeriodReset now (IAllowedMsg (Some inner) msgs) = Ok a' → a' = IAllowedMsg (Some inner) msgs).
Proof.
  intros p. do 3 (split; [by vm_compute|]). intros now inner msgs a'. cbn. destruct (UpdatePeriodReset now inner); by intros [= <-].
Qed.
