(* ===== verification/SdkContext.v ===== *)
(** * SdkContext: types/context.go, types/events.go and the requests of ABCI

    A [Context] is passed by value; what it refers to (the multistore branch,
    the gas meter and the block gas meter) is shared by every copy.  Here the
    multistore and the gas meter are the state [Exec] that handlers
    transform, and the context keeps the values.  The logger, the tracing
    and streaming managers, the gas price tables and the chain id, which do
    not change while [baseapp] runs, are left out. *)
From S2P Require Import Prelude KVStore Gas Coin DecCoin.
From stdpp Require Import pretty.
From Stdlib Require Import Ascii.

(** ** types/events.go *)

Record EventAttribute := mkAttribute { attr_Key : string; attr_Value : string; attr_Index : bool }.
Record Event := mkEvent { ev_Type : string; ev_Attributes : list EventAttribute }.
#[global] Instance EventAttribute_eq_dec : EqDecision EventAttribute.
Proof. solve_decision. Defined.
#[global] Instance Event_eq_dec : EqDecision Event.
Proof. solve_decision. Defined.

Definition NewAttribute (k v : string) : EventAttribute := mkAttribute k v false.
Definition NewEvent (ty : string) (attrs : list EventAttribute) : Event := mkEvent ty attrs.
Definition AppendAttributes (e : Event) (attrs : list EventAttribute) : Event :=
  mkEvent (ev_Type e) (ev_Attributes e ++ attrs).
Definition GetAttribute (e : Event) (key : string) : option EventAttribute :=
  list_find (λ attr, attr_Key attr = key) (ev_Attributes e) ≫= λ p, Some (p.2).
Definition GetAttributes (events : list Event) (key : string) : list EventAttribute * bool :=
  let attrs := omap (λ e, GetAttribute e key) events in (attrs, negb (bool_decide (attrs = []))).

(** [strconv.Itoa] of an index. *)
Definition Itoa (n : nat) : string := pretty n.

(** The loop of [preBlock], [beginBlock] and [endBlock] over the events of a hook. *)
Definition mark_mode (mode : string) (events : list Event) : list Event :=
  imap (λ i e, AppendAttributes e [NewAttribute "mode" mode; NewAttribute "event_index" (Itoa i)]) events.

Definition index_attribute (indexSet : gset string) (ty : string) (attr : EventAttribute) : EventAttribute :=
  mkAttribute (attr_Key attr) (attr_Value attr)
    (bool_decide ((ty +:+ "." +:+ attr_Key attr)%string ∈ indexSet) || bool_decide (indexSet = ∅)).
Definition MarkEventsToIndex (events : list Event) (indexSet : gset string) : list Event :=
  (λ e, mkEvent (ev_Type e) (index_attribute indexSet (ev_Type e) <$> ev_Attributes e)) <$> events.

(** [strings.Split(s, ".")]: at least one part. *)
Fixpoint split_dots (s : string) : list string :=
  match s with
  | EmptyString => [EmptyString]
  | String c s' =>
      if Ascii.eqb c "."%char then EmptyString :: split_dots s'
      else match split_dots s' with
           | [] => [String c EmptyString]
           | p :: ps => String c p :: ps
           end
  end.
Definition GetModuleNameFromTypeURL (input : string) : string :=
  match split_dots input with _ :: m :: _ => m | _ => EmptyString end.

(** ** CometBFT values

    Times are nanoseconds since 1970.  The abci and the comet types of votes
    and evidence have the same fields, so the conversions copy. *)

Record Header := mkHeader {
  hd_ChainID : string;
  hd_Height : Z;
  hd_Time : Z;
  hd_ProposerAddress : string;
  hd_NextValidatorsHash : string;
  hd_AppHash : string
}.
Record HeaderInfo := mkHeaderInfo {
  hi_Height : Z;
  hi_Hash : string;
  hi_Time : Z;
  hi_ChainID : string;
  hi_AppHash : string
}.
Record CometValidator := mkCometValidator { val_Address : string; val_Power : Z }.
Record VoteInfo := mkVoteInfo { vote_Validator : CometValidator; vote_BlockIdFlag : Z }.
Record ExtendedVoteInfo := mkExtendedVoteInfo {
  ext_Validator : CometValidator;
  ext_VoteExtension : string;
  ext_ExtensionSignature : string;
  ext_BlockIdFlag : Z
}.
Record CommitInfo := mkCommitInfo { ci_Round : Z; ci_Votes : list VoteInfo }.
Record ExtendedCommitInfo := mkExtendedCommitInfo { eci_Round : Z; eci_Votes : list ExtendedVoteInfo }.
Record Misbehavior := mkMisbehavior {
  mb_Type : Z;
  mb_Validator : CometValidator;
  mb_Height : Z;
  mb_Time : Z;
  mb_TotalVotingPower : Z
}.
Record CometInfo := mkCometInfo {
  comet_Evidence : list Misbehavior;
  comet_ValidatorsHash : string;
  comet_ProposerAddress : string;
  comet_LastCommit : CommitInfo
}.

Definition zero_Header : Header := mkHeader "" 0 0 "" "" "".
Definition zero_HeaderInfo : HeaderInfo := mkHeaderInfo 0 "" 0 "" "".
Definition zero_CommitInfo : CommitInfo := mkCommitInfo 0 [].
Definition zero_CometInfo : CometInfo := mkCometInfo [] "" "" zero_CommitInfo.

Definition ToSDKEvidence (ev : list Misbehavior) : list Misbehavior :=
  (λ e, mkMisbehavior (mb_Type e) (mkCometValidator (val_Address (mb_Validator e)) (val_Power (mb_Validator e)))
          (mb_Height e) (mb_Time e) (mb_TotalVotingPower e)) <$> ev.
Definition ToSDKCommitInfo (commit : CommitInfo) : CommitInfo :=
  mkCommitInfo (ci_Round commit)
    ((λ v, mkVoteInfo (mkCometValidator (val_Address (vote_Validator v)) (val_Power (vote_Validator v))) (vote_BlockIdFlag v))
       <$> ci_Votes commit).
(** [toVoteInfo] of abci.go drops the extensions. *)
Definition toVoteInfo (votes : list ExtendedVoteInfo) : list VoteInfo :=
  (λ v, mkVoteInfo (mkCometValidator (val_Address (ext_Validator v)) (val_Power (ext_Validator v))) (ext_BlockIdFlag v)) <$> votes.
Definition ToSDKExtendedCommitInfo (commit : ExtendedCommitInfo) : CommitInfo :=
  mkCommitInfo (eci_Round commit)
    ((λ v, mkVoteInfo (mkCometValidator (val_Address (ext_Validator v)) (val_Power (ext_Validator v))) (ext_BlockIdFlag v))
       <$> eci_Votes commit).

(** The consensus parameters [baseapp] reads. *)
Record BlockParams := mkBlockParams { bp_MaxBytes : Z; bp_MaxGas : Z }.
Record EvidenceParams := mkEvidenceParams { ep_MaxAgeNumBlocks : Z; ep_MaxAgeDuration : Z; ep_MaxBytes : Z }.
Record ConsensusParams := mkConsensusParams { cp_Block : option BlockParams; cp_Evidence : option EvidenceParams }.
Definition zero_ConsensusParams : ConsensusParams := mkConsensusParams None None.

(** ** types/context.go *)

(** The modes of baseapp.go in which transactions are processed, apart from
    simulation. *)
Inductive execMode :=
| execModeCheck
| execModeReCheck
| execModePrepareProposal
| execModeProcessProposal
| execModeFinalize.
#[global] Instance execMode_eq_dec : EqDecision execMode.
Proof. solve_decision. Defined.

Record Context := mkContext {
  ctx_header : Header;
  ctx_headerHash : string;
  ctx_txBytes : string;
  ctx_voteInfo : list VoteInfo;
  ctx_blockGasMeter : option GasMeter;
  ctx_checkTx : bool;
  ctx_recheckTx : bool;
  ctx_sigverifyTx : bool;
  ctx_execMode : execMode;
  ctx_minGasPrice : DecCoins;
  ctx_consParams : ConsensusParams;
  ctx_events : list Event;
  ctx_priority : Z;
  ctx_cometInfo : CometInfo;
  ctx_headerInfo : HeaderInfo
}.

(** [ExecModeCheck] is the zero value of the mode; a nil interface is [None]. *)
Definition NewContext (isCheckTx : bool) : Context :=
  mkContext zero_Header "" "" [] None isCheckTx false true execModeCheck [] zero_ConsensusParams [] 0
    zero_CometInfo zero_HeaderInfo.

Definition WithBlockHeader (x : Header) (c : Context) : Context :=
  mkContext x (ctx_headerHash c) (ctx_txBytes c) (ctx_voteInfo c) (ctx_blockGasMeter c) (ctx_checkTx c)
    (ctx_recheckTx c) (ctx_sigverifyTx c) (ctx_execMode c) (ctx_minGasPrice c) (ctx_consParams c) (ctx_events c)
    (ctx_priority c) (ctx_cometInfo c) (ctx_headerInfo c).
Definition WithHeaderHash (x : string) (c : Context) : Context :=
  mkContext (ctx_header c) x (ctx_txBytes c) (ctx_voteInfo c) (ctx_blockGasMeter c) (ctx_checkTx c)
    (ctx_recheckTx c) (ctx_sigverifyTx c) (ctx_execMode c) (ctx_minGasPrice c) (ctx_consParams c) (ctx_events c)
    (ctx_priority c) (ctx_cometInfo c) (ctx_headerInfo c).
Definition WithTxBytes (x : string) (c : Context) : Context :=
  mkContext (ctx_header c) (ctx_headerHash c) x (ctx_voteInfo c) (ctx_blockGasMeter c) (ctx_checkTx c)
    (ctx_recheckTx c) (ctx_sigverifyTx c) (ctx_execMode c) (ctx_minGasPrice c) (ctx_consParams c) (ctx_events c)
    (ctx_priority c) (ctx_cometInfo c) (ctx_headerInfo c).
Definition WithVoteInfos (x : list VoteInfo) (c : Context) : Context :=
  mkContext (ctx_header c) (ctx_headerHash c) (ctx_txBytes c) x (ctx_blockGasMeter c) (ctx_checkTx c)
    (ctx_recheckTx c) (ctx_sigverifyTx c) (ctx_execMode c) (ctx_minGasPrice c) (ctx_consParams c) (ctx_events c)
    (ctx_priority c) (ctx_cometInfo c) (ctx_headerInfo c).
Definition WithBlockGasMeter (x : option GasMeter) (c : Context) : Context :=
  mkContext (ctx_header c) (ctx_headerHash c) (ctx_txBytes c) (ctx_voteInfo c) x (ctx_checkTx c)
    (ctx_recheckTx c) (ctx_sigverifyTx c) (ctx_execMode c) (ctx_minGasPrice c) (ctx_consParams c) (ctx_events c)
    (ctx_priority c) (ctx_cometInfo c) (ctx_headerInfo c).
Definition set_checkTx (x : bool) (c : Context) : Context :=
  mkContext (ctx_header c) (ctx_headerHash c) (ctx_txBytes c) (ctx_voteInfo c) (ctx_blockGasMeter c) x
    (ctx_recheckTx c) (ctx_sigverifyTx c) (ctx_execMode c) (ctx_minGasPrice c) (ctx_consParams c) (ctx_events c)
    (ctx_priority c) (ctx_cometInfo c) (ctx_headerInfo c).
Definition set_recheckTx (x : bool) (c : Context) : Context :=
  mkContext (ctx_header c) (ctx_headerHash c) (ctx_txBytes c) (ctx_voteInfo c) (ctx_blockGasMeter c)
    (ctx_checkTx c) x (ctx_sigverifyTx c) (ctx_execMode c) (ctx_minGasPrice c) (ctx_consParams c) (ctx_events c)
    (ctx_priority c) (ctx_cometInfo c) (ctx_headerInfo c).
Definition WithIsSigverifyTx (x : bool) (c : Context) : Context :=
  mkContext (ctx_header c) (ctx_headerHash c) (ctx_txBytes c) (ctx_voteInfo c) (ctx_blockGasMeter c)
    (ctx_checkTx c) (ctx_recheckTx c) x (ctx_execMode c) (ctx_minGasPrice c) (ctx_consParams c) (ctx_events c)
    (ctx_priority c) (ctx_cometInfo c) (ctx_headerInfo c).
Definition WithExecMode (x : execMode) (c : Context) : Context :=
  mkContext (ctx_header c) (ctx_headerHash c) (ctx_txBytes c) (ctx_voteInfo c) (ctx_blockGasMeter c)
    (ctx_checkTx c) (ctx_recheckTx c) (ctx_sigverifyTx c) x (ctx_minGasPrice c) (ctx_consParams c)
    (ctx_events c) (ctx_priority c) (ctx_cometInfo c) (ctx_headerInfo c).
Definition WithMinGasPrices (x : DecCoins) (c : Context) : Context :=
  mkContext (ctx_header c) (ctx_headerHash c) (ctx_txBytes c) (ctx_voteInfo c) (ctx_blockGasMeter c)
    (ctx_checkTx c) (ctx_recheckTx c) (ctx_sigverifyTx c) (ctx_execMode c) x (ctx_consParams c) (ctx_events c)
    (ctx_priority c) (ctx_cometInfo c) (ctx_headerInfo c).
Definition WithConsensusParams (x : ConsensusParams) (c : Context) : Context :=
  mkContext (ctx_header c) (ctx_headerHash c) (ctx_txBytes c) (ctx_voteInfo c) (ctx_blockGasMeter c)
    (ctx_checkTx c) (ctx_recheckTx c) (ctx_sigverifyTx c) (ctx_execMode c) (ctx_minGasPrice c) x (ctx_events c)
    (ctx_priority c) (ctx_cometInfo c) (ctx_headerInfo c).
Definition WithEventManager (x : list Event) (c : Context) : Context :=
  mkContext (ctx_header c) (ctx_headerHash c) (ctx_txBytes c) (ctx_voteInfo c) (ctx_blockGasMeter c)
    (ctx_checkTx c) (ctx_recheckTx c) (ctx_sigverifyTx c) (ctx_execMode c) (ctx_minGasPrice c)
    (ctx_consParams c) x (ctx_priority c) (ctx_cometInfo c) (ctx_headerInfo c).
Definition WithPriority (x : Z) (c : Context) : Context :=
  mkContext (ctx_header c) (ctx_headerHash c) (ctx_txBytes c) (ctx_voteInfo c) (ctx_blockGasMeter c)
    (ctx_checkTx c) (ctx_recheckTx c) (ctx_sigverifyTx c) (ctx_execMode c) (ctx_minGasPrice c)
    (ctx_consParams c) (ctx_events c) x (ctx_cometInfo c) (ctx_headerInfo c).
Definition WithCometInfo (x : CometInfo) (c : Context) : Context :=
  mkContext (ctx_header c) (ctx_headerHash c) (ctx_txBytes c) (ctx_voteInfo c) (ctx_blockGasMeter c)
    (ctx_checkTx c) (ctx_recheckTx c) (ctx_sigverifyTx c) (ctx_execMode c) (ctx_minGasPrice c)
    (ctx_consParams c) (ctx_events c) (ctx_priority c) x (ctx_headerInfo c).
Definition WithHeaderInfo (x : HeaderInfo) (c : Context) : Context :=
  mkContext (ctx_header c) (ctx_headerHash c) (ctx_txBytes c) (ctx_voteInfo c) (ctx_blockGasMeter c)
    (ctx_checkTx c) (ctx_recheckTx c) (ctx_sigverifyTx c) (ctx_execMode c) (ctx_minGasPrice c)
    (ctx_consParams c) (ctx_events c) (ctx_priority c) (ctx_cometInfo c) x.
Definition WithProposer (addr : string) (c : Context) : Context :=
  let h := ctx_header c in
  WithBlockHeader (mkHeader (hd_ChainID h) (hd_Height h) (hd_Time h) addr (hd_NextValidatorsHash h) (hd_AppHash h)) c.
Definition WithBlockHeight (height : Z) (c : Context) : Context :=
  let h := ctx_header c in
  WithBlockHeader (mkHeader (hd_ChainID h) height (hd_Time h) (hd_ProposerAddress h) (hd_NextValidatorsHash h) (hd_AppHash h)) c.
Definition WithIsCheckTx (isCheckTx : bool) (c : Context) : Context :=
  WithExecMode execModeCheck (set_checkTx isCheckTx c).
Definition WithIsReCheckTx (isRecheckTx : bool) (c : Context) : Context :=
  let c := if isRecheckTx then set_checkTx true c else c in
  WithExecMode execModeReCheck (set_recheckTx isRecheckTx c).
