(* ===== verification/BaseApp.v ===== *)
(** * BaseApp: processing of transactions (baseapp.go, recovery.go, msg_service_router.go)

    What an application plugs into [baseapp] is the class [AppConfig] over the
    types of [AppTypes]; the application-side mempool is the interface
    [MempoolOps].  A branch of the multistore is a copy of its contents and
    writing a branch replaces the contents of its parent, which
    [cache_transaction] of CacheKVProps shows of a cache on a store.

    Handlers receive the context by value and transform the branch and the gas
    meter.  The context an ante handler returns is adopted, except for its
    block gas meter, which ante handlers leave alone. *)
From S2P Require Import Prelude KVStore Gas Coin DecCoin SdkContext.

Definition ErrTxDecode : string := "tx parse error".
Definition ErrInvalidRequest : string := "invalid request".
Definition ErrUnknownRequest : string := "unknown request".
Definition ErrOutOfGas : string := "out of gas".
Definition ErrPanic : string := "panic".
Definition ErrLogic : string := "internal logic error".
Definition ErrTxNotFound : string := "tx not found in mempool".
Definition nil_dereference : string := "invalid memory address or nil pointer dereference".
Definition index_out_of_range : string := "index out of range".

(** [errors.Join] *)
Definition errors_Join (err1 : option string) (err2 : string) : string :=
  match err1 with Some e => (e +:+ "; " +:+ err2)%string | None => err2 end.

(** ** recovery.go *)

Definition RecoveryHandler : Type := string → option string.

Inductive recoveryMiddleware :=
| nil_middleware
| newRecoveryMiddleware (handler : RecoveryHandler) (next : recoveryMiddleware).

(** The middleware returns the next one, or the error of its handler. *)
Fixpoint processRecovery (recoveryObj : string) (middleware : recoveryMiddleware) : option string :=
  match middleware with
  | nil_middleware => None
  | newRecoveryMiddleware handler next =>
      match handler recoveryObj with Some err => Some err | None => processRecovery recoveryObj next end
  end.

(** The type assertion to [ErrorOutOfGas] looks at the constructor of the
    panic value. *)
Definition is_ErrorOutOfGas (recoveryObj : string) : bool := String.prefix "ErrorOutOfGas: " recoveryObj.
Definition newOutOfGasRecoveryMiddleware (next : recoveryMiddleware) : recoveryMiddleware :=
  newRecoveryMiddleware (λ recoveryObj, if is_ErrorOutOfGas recoveryObj then Some ErrOutOfGas else None) next.
Definition newDefaultRecoveryMiddleware : recoveryMiddleware := newRecoveryMiddleware (λ _, Some ErrPanic) nil_middleware.
(** [NewBaseApp] installs the default middleware; every added handler comes
    before the ones added earlier. *)
Definition AddRunTxRecoveryHandler (m : recoveryMiddleware) (handlers : list RecoveryHandler) : recoveryMiddleware :=
  foldl (λ m h, newRecoveryMiddleware h m) m handlers.

(** ** The types and the handlers of an application *)

Class AppTypes := {
  MultiStore : Type;
  Mempool : Type;
  Tx : Type;
  Msg : Type;
  ReflectMsg : Type;
  Response : Type;
  AnyMsg : Type
}.

Definition Exec `{AppTypes} : Type := MultiStore * GasMeter.

Record GasInfo := mkGasInfo { gi_GasWanted : Z; gi_GasUsed : Z }.
Record Result `{AppTypes} := mkResult {
  res_Data : string;
  res_Events : list Event;
  res_MsgResponses : list (option AnyMsg)
}.

Arguments mkResult {_}.

(** What an ante handler returns: the new context with its gas meter, unless
    it is the zero context, and its error. *)
Record AnteResult := mkAnteResult { ante_newCtx : option (Context * GasMeter); ante_err : option string }.

Definition MsgServiceHandler `{AppTypes} : Type := Context → Msg → GoM Exec Result.
(** A method of a message service: its response and the events it emitted on
    the event manager of its context. *)
Definition MethodHandler `{AppTypes} : Type := Context → Msg → GoM Exec (Response * list Event).

Record MsgServiceRouter `{AppTypes} := mkMsgServiceRouter {
  routes : gmap string MethodHandler;
  circuitBreaker : option (Context → string → GoM Exec bool)
}.
Arguments mkMsgServiceRouter {_}.
Record ParamStore `{AppTypes} := mkParamStore {
  ps_Get : MultiStore → GoM GasMeter ConsensusParams;
  ps_Set : ConsensusParams → GoM Exec unit
}.

Arguments mkParamStore {_}.

(** types/mempool/mempool.go; [Select] is the order of the iteration. *)
Class MempoolOps `{AppTypes} := {
  mp_Insert : Context → Tx → GoM Mempool unit;
  mp_Remove : Tx → GoM Mempool unit;
  mp_Select : Mempool → Context → list Tx → list Tx;
  mp_isNoOp : bool
}.

Class AppConfig `{AppTypes} := {
  chainID : string;
  minGasPrices : DecCoins;
  sigverifyTx : bool;
  haltHeight : Z;
  haltTime : Z;
  minRetainBlocks : Z;
  indexEvents : gset string;
  msgServiceRouter : MsgServiceRouter;
  paramStore : option ParamStore;
  runTxRecoveryMiddleware : recoveryMiddleware;
  txDecoder : string → outcome Tx;
  txEncoder : Tx → outcome string;
  GetMsgs : Tx → list Msg;
  GetReflectMessages : Tx → outcome (list ReflectMsg);
  GetGas : Tx → option Z;
  MsgTypeURL : Msg → string;
  HasValidateBasic : Msg → option (outcome unit);
  GetReflectMsgSigners : ReflectMsg → outcome (list (option string));
  AddressBytesToString : string → outcome string;
  NewAnyWithValue : Response → outcome AnyMsg;
  MarshalTxMsgData : list (option AnyMsg) → outcome string;
  anteHandler : option (Context → Tx → GoM Exec AnteResult);
  postHandler : option (Context → Tx → bool → GoM Exec (list Event))
}.

(** ** msg_service_router.go *)

Section Router.
Context `{AppConfig}.

(** The handler stored for a message type by [registerMsgServiceHandler]. *)
Definition call_method (cb : option (Context → string → GoM Exec bool)) (methodHandler : MethodHandler) : MsgServiceHandler :=
  λ ctx msg,
    let ctx := WithEventManager [] ctx in
    _ ← liftM (default (Ok tt) (HasValidateBasic msg));
    _ ← match cb with
        | None => mret tt
        | Some IsAllowed =>
            isAllowed ← IsAllowed ctx (MsgTypeURL msg);
            liftM (guard_err (negb isAllowed) ("circuit breaker disables execution of this message: " +:+ MsgTypeURL msg)%string)
        end;
    r ← methodHandler ctx msg;
    let '(res, events) := r in
    anyResp ← liftM (NewAnyWithValue res);
    mret (mkResult "" events [Some anyResp]).

Definition HandlerByTypeURL (msr : MsgServiceRouter) (typeURL : string) : option MsgServiceHandler :=
  call_method (circuitBreaker msr) <$> routes msr !! typeURL.
Definition Handler (msr : MsgServiceRouter) (msg : Msg) : option MsgServiceHandler :=
  HandlerByTypeURL msr (MsgTypeURL msg).
Definition SetCircuit (cb : option (Context → string → GoM Exec bool)) (msr : MsgServiceRouter) : MsgServiceRouter :=
  mkMsgServiceRouter (routes msr) cb.
Definition NewMsgServiceRouter : MsgServiceRouter := mkMsgServiceRouter ∅ None.

(** [Resolve]: whether the request type is registered, and then whether it is
    the type of the handler. *)
Definition registerMsgServiceHandler (resolve : string → option bool) (msr : MsgServiceRouter)
    (method : string * MethodHandler) : outcome MsgServiceRouter :=
  let '(requestTypeName, methodHandler) := method in
  match resolve requestTypeName with
  | None => Err ("type_url has not been registered yet: " +:+ requestTypeName)%string
  | Some false => Err "the type registered with the interface registry does not match the type in the handler"
  | Some true =>
      match routes msr !! requestTypeName with
      | Some _ => Err ("msg service has already been registered: " +:+ requestTypeName)%string
      | None => Ok (mkMsgServiceRouter (<[requestTypeName := methodHandler]> (routes msr)) (circuitBreaker msr))
      end
  end.
Definition RegisterService (resolve : string → option bool) (msr : MsgServiceRouter)
    (methods : list (string * MethodHandler)) : outcome MsgServiceRouter :=
  foldM (λ msr method, must (registerMsgServiceHandler resolve msr method)) msr methods.

(** ** baseapp.go: consensus parameters *)

Definition GetConsensusParams (ms : MultiStore) : GoM GasMeter ConsensusParams :=
  match paramStore with
  | None => mret zero_ConsensusParams
  | Some ps => λ g, match ps_Get ps ms g with
                    | (Err _, g') => (Ok zero_ConsensusParams, g')
                    | r => r
                    end
  end.
Definition StoreConsensusParams (cp : ConsensusParams) : GoM Exec unit :=
  match paramStore with
  | None => errM "cannot store consensus params with no params store set"
  | Some ps => ps_Set ps cp
  end.

Definition GetMaximumBlockGas (ms : MultiStore) : GoM GasMeter Z :=
  cp ← GetConsensusParams ms;
  match cp_Block cp with
  | None => mret 0
  | Some b =>
      if bp_MaxGas b <? -1 then panicM "invalid maximum block gas"
      else if bp_MaxGas b =? -1 then mret 0
      else mret (bp_MaxGas b)
  end.
Definition getBlockGasMeter (ms : MultiStore) : GoM GasMeter GasMeter :=
  maxGas ← GetMaximumBlockGas ms;
  mret (if 0 <? maxGas then NewGasMeter maxGas else NewInfiniteGasMeter).

(** ** baseapp.go: messages *)

Definition validate_msg (msr : MsgServiceRouter) (msg : Msg) : outcome unit :=
  _ ← default (Ok tt) (HasValidateBasic msg);
  guard_err (negb (bool_decide (is_Some (routes msr !! MsgTypeURL msg)))) ErrUnknownRequest.
Definition validateBasicTxMsgs (msr : MsgServiceRouter) (msgs : list Msg) : outcome unit :=
  match msgs with
  | [] => Err ErrInvalidRequest
  | _ => forM_ (validate_msg msr) msgs
  end.

Definition createEvents (events : list Event) (msg : Msg) (reflectMsg : ReflectMsg) : outcome (list Event) :=
  let eventMsgName := MsgTypeURL msg in
  let msgEvent := NewEvent "message" [NewAttribute "action" eventMsgName] in
  signers ← GetReflectMsgSigners reflectMsg;
  msgEvent ← match signers with
             | Some signer :: _ =>
                 addrStr ← AddressBytesToString signer;
                 mret (AppendAttributes msgEvent [NewAttribute "sender" addrStr])
             | _ => mret msgEvent
             end;
  let moduleName := GetModuleNameFromTypeURL eventMsgName in
  let msgEvent :=
    if (GetAttributes events "module").2 || str_eq moduleName "" then msgEvent
    else AppendAttributes msgEvent [NewAttribute "module" moduleName] in
  let msgEvent := AppendAttributes msgEvent [NewAttribute "event_index" "0"] in
  mret (msgEvent :: imap (λ i event, AppendAttributes event [NewAttribute "event_index" (Itoa (i + 1))]) events).

(** One message of the loop of [runMsgs], at index [i]. *)
Definition run_msg (ctx : Context) (reflectMsgs : list ReflectMsg) (i : nat) (msg : Msg) : GoM Exec (list Event * list (option AnyMsg)) :=
  match Handler msgServiceRouter msg with
  | None => errM ErrUnknownRequest
  | Some handler =>
      msgResult ← handler ctx msg;
      reflectMsg ← liftM (match reflectMsgs !! i with Some m => Ok m | None => Panic index_out_of_range end);
      msgEvents ← liftM (createEvents (res_Events msgResult) msg reflectMsg);
      let msgEvents := (λ e, AppendAttributes e [NewAttribute "msg_index" (Itoa i)]) <$> msgEvents in
      match res_MsgResponses msgResult with
      | [] => mret (msgEvents, [])
      | None :: _ => errM ErrLogic
      | Some msgResponse :: _ => mret (msgEvents, [Some msgResponse])
      end
  end.
Fixpoint run_msgs_from (ctx : Context) (reflectMsgs : list ReflectMsg) (i : nat) (msgs : list Msg)
    (events : list Event) (msgResponses : list (option AnyMsg)) : GoM Exec (list Event * list (option AnyMsg)) :=
  match msgs with
  | [] => mret (events, msgResponses)
  | msg :: msgs' =>
      r ← run_msg ctx reflectMsgs i msg;
      run_msgs_from ctx reflectMsgs (S i) msgs' (events ++ r.1) (msgResponses ++ r.2)
  end.
(** Messages are executed in [execModeFinalize] only. *)
Definition runMsgs (ctx : Context) (msgs : list Msg) (reflectMsgs : list ReflectMsg) (mode : execMode) : GoM Exec Result :=
  r ← (if decide (mode = execModeFinalize) then run_msgs_from ctx reflectMsgs 0 msgs [] [] else mret ([], []));
  let '(events, msgResponses) := r in
  data ← liftM (MarshalTxMsgData msgResponses);
  mret (mkResult data events msgResponses).
End Router.

(** ** baseapp.go: runTx *)

(** [state]: the branch of a mode and its context. *)
Record ModeState `{AppTypes} := mkModeState { st_ms : MultiStore; st_ctx : Context }.
Arguments mkModeState {_}.

(** The variables of [runTx]: the multistore of the mode, [ctx] with its gas
    meter, the block gas meter, the mempool, [gasWanted], [anteEvents] and
    [blockGasConsumed]. *)
Record TxRun `{AppTypes} := mkTxRun {
  run_ms : MultiStore;
  run_ctx : Context;
  run_meter : GasMeter;
  run_blockMeter : option GasMeter;
  run_mempool : Mempool;
  run_gasWanted : Z;
  run_anteEvents : list Event;
  run_blockGasConsumed : bool
}.
Arguments mkTxRun {_}.

Record TxReturn `{AppTypes} := mkTxReturn {
  tx_gInfo : GasInfo;
  tx_result : option Result;
  tx_anteEvents : list Event;
  tx_err : option string
}.
Arguments mkTxReturn {_}.

(** What [deliverTx] reports; the code, codespace and log are a function of
    the error. *)
Record ExecTxResult := mkExecTxResult {
  er_err : option string;
  er_Data : string;
  er_Events : list Event;
  er_GasWanted : Z;
  er_GasUsed : Z
}.

Section RunTx.
Context `{AppConfig} {HM : MempoolOps}.

Definition set_run_ms (x : MultiStore) (r : TxRun) : TxRun :=
  mkTxRun x (run_ctx r) (run_meter r) (run_blockMeter r) (run_mempool r) (run_gasWanted r) (run_anteEvents r) (run_blockGasConsumed r).
Definition set_run_ctx (x : Context) (g : GasMeter) (r : TxRun) : TxRun :=
  mkTxRun (run_ms r) x g (run_blockMeter r) (run_mempool r) (run_gasWanted r) (run_anteEvents r) (run_blockGasConsumed r).
Definition set_run_meter (x : GasMeter) (r : TxRun) : TxRun := set_run_ctx (run_ctx r) x r.
Definition set_run_blockMeter (x : option GasMeter) (b : bool) (r : TxRun) : TxRun :=
  mkTxRun (run_ms r) (run_ctx r) (run_meter r) x (run_mempool r) (run_gasWanted r) (run_anteEvents r) b.
Definition set_run_mempool (x : Mempool) (r : TxRun) : TxRun :=
  mkTxRun (run_ms r) (run_ctx r) (run_meter r) (run_blockMeter r) x (run_gasWanted r) (run_anteEvents r) (run_blockGasConsumed r).
Definition set_run_gasWanted (x : Z) (r : TxRun) : TxRun :=
  mkTxRun (run_ms r) (run_ctx r) (run_meter r) (run_blockMeter r) (run_mempool r) x (run_anteEvents r) (run_blockGasConsumed r).
Definition set_run_anteEvents (x : list Event) (r : TxRun) : TxRun :=
  mkTxRun (run_ms r) (run_ctx r) (run_meter r) (run_blockMeter r) (run_mempool r) (run_gasWanted r) x (run_blockGasConsumed r).

Definition getContextForTx (mode : execMode) (txBytes : string) (modeState : option ModeState) : outcome (Context * GasMeter) :=
  match modeState with
  | None => Panic "state is nil for mode"
  | Some st =>
      let ctx := WithIsSigverifyTx sigverifyTx (WithTxBytes txBytes (st_ctx st)) in
      let '(r, g) := GetConsensusParams (st_ms st) NewInfiniteGasMeter in
      cp ← r;
      let ctx := WithConsensusParams cp ctx in
      mret (if decide (mode = execModeReCheck) then WithIsReCheckTx true ctx else ctx, g)
  end.

Definition consumeBlockGas : GoM TxRun unit :=
  λ r,
    if run_blockGasConsumed r then (Ok tt, r)
    else match run_blockMeter r with
         | None => (Panic nil_dereference, set_run_blockMeter None true r)
         | Some bm =>
             let '(x, bm) := ConsumeGas (GasConsumedToLimit (run_meter r)) "block gas meter" bm in
             (x, set_run_blockMeter (Some bm) true r)
         end.

Definition on_mempool (m : GoM Mempool unit) : GoM TxRun unit :=
  λ r, let '(x, mp) := m (run_mempool r) in (x, set_run_mempool mp r).

(** The context an ante handler returned, on the multistore and the block gas
    meter of the transaction. *)
Definition adopt_ctx (newCtx : option (Context * GasMeter)) (given : GasMeter) (r : TxRun) : TxRun :=
  match newCtx with
  | None => set_run_meter given r
  | Some (c, g) => set_run_ctx (WithBlockGasMeter (run_blockMeter r) c) g r
  end.
(** The ante handler on a branch, which is written when it succeeds. *)
Definition run_ante (mode : execMode) (tx : Tx) : GoM TxRun unit :=
  match anteHandler with
  | None => mret tt
  | Some ante => λ r,
      let '(res, (msCache, g)) := ante (WithEventManager [] (run_ctx r)) tx (run_ms r, run_meter r) in
      match res with
      | Panic p => (Panic p, set_run_meter g r)
      | _ =>
          let a := match res with Ok a => a | Err e => mkAnteResult None (Some e) | Panic _ => mkAnteResult None None end in
          let r := adopt_ctx (ante_newCtx a) g r in
          let r := set_run_gasWanted (Limit (run_meter r)) r in
          match ante_err a with
          | Some err =>
              if decide (mode = execModeReCheck) then
                match on_mempool (mp_Remove tx) r with
                | (Err mempoolErr, r) => (Err (errors_Join (Some err) mempoolErr), r)
                | (Panic p, r) => (Panic p, r)
                | (Ok _, r) => (Err err, r)
                end
              else (Err err, r)
          | None => (Ok tt, set_run_anteEvents (ctx_events (run_ctx r)) (set_run_ms msCache r))
          end
      end
  end.

Definition update_mempool (mode : execMode) (tx : Tx) : GoM TxRun unit :=
  match mode with
  | execModeCheck => λ r, on_mempool (mp_Insert (run_ctx r) tx) r
  | execModeFinalize => λ r,
      match on_mempool (mp_Remove tx) r with
      | (Err e, r) => (if str_eq e ErrTxNotFound then Ok tt else Err ("failed to remove tx from mempool: " +:+ e)%string, r)
      | x => x
      end
  | _ => mret tt
  end.

(** The messages on a further branch: the branch, the result and the error. *)
Definition run_messages (mode : execMode) (tx : Tx) (msgs : list Msg) : GoM TxRun (MultiStore * option Result * option string) :=
  λ r,
    let '(res, (msCache, g)) :=
      (reflectMsgs ← liftM (GetReflectMessages tx);
       runMsgs (run_ctx r) msgs reflectMsgs mode) (run_ms r, run_meter r) in
    let r := set_run_meter g r in
    match res with
    | Ok result => (Ok (msCache, Some result, None), r)
    | Err err => (Ok (msCache, None, Some err), r)
    | Panic p => (Panic p, r)
    end.

Definition add_events (result : option Result) (events : list Event) : option Result :=
  Some (match result with
        | None => mkResult "" events []
        | Some res => mkResult (res_Data res) (res_Events res ++ events) (res_MsgResponses res)
        end).
(** The post handler runs on the branch of the messages, whatever their result. *)
Definition run_post (tx : Tx) (x : MultiStore * option Result * option string) : GoM TxRun (MultiStore * option Result * option string) :=
  match postHandler with
  | None => mret x
  | Some post => λ r,
      let '(msCache, result, err) := x in
      let '(res, (msCache, g)) := post (WithEventManager [] (run_ctx r)) tx (bool_decide (err = None)) (msCache, run_meter r) in
      let r := set_run_meter g r in
      match res with
      | Panic p => (Panic p, r)
      | Err errPostHandler => (Err (errors_Join err errPostHandler), r)
      | Ok events => (Ok (msCache, add_events result events, err), r)
      end
  end.

(** The branch of the messages is written after the block gas is consumed. *)
Definition commit_tx (mode : execMode) (x : MultiStore * option Result * option string) : GoM TxRun (option Result * option string) :=
  let '(msCache, result, err) := x in
  match err with
  | Some _ => mret (result, err)
  | None =>
      if decide (mode = execModeFinalize) then
        _ ← consumeBlockGas;
        _ ← modifyM (set_run_ms msCache);
        anteEvents ← readM run_anteEvents;
        mret ((λ res, mkResult (res_Data res) (anteEvents ++ res_Events res) (res_MsgResponses res)) <$> result, err)
      else mret (result, err)
  end.

(** The body of [runTx] after its deferred calls are set up; an error is an
    early return without a result. *)
Definition tx_body (mode : execMode) (txBytes : string) (tx : option Tx) : GoM TxRun (option Result * option string) :=
  tx ← liftM (match tx with
              | Some tx => Ok tx
              | None => match txDecoder txBytes with Err _ => Err ErrTxDecode | x => x end
              end);
  let msgs := GetMsgs tx in
  _ ← liftM (if decide (mode = execModeReCheck) then Ok tt else validateBasicTxMsgs msgServiceRouter msgs);
  _ ← run_ante mode tx;
  _ ← update_mempool mode tx;
  x ← run_messages mode tx msgs;
  x ← run_post tx x;
  commit_tx mode x.

(** The deferred [consumeBlockGas]: its panic replaces the outcome. *)
Definition defer_consumeBlockGas {A} (mode : execMode) (x : outcome A * TxRun) : outcome A * TxRun :=
  if decide (mode = execModeFinalize) then
    match consumeBlockGas x.2 with
    | (Panic p, r) => (Panic p, r)
    | (_, r) => (x.1, r)
    end
  else x.
(** The deferred recovery, which also reads the gas. *)
Definition defer_recover (x : outcome (option Result * option string) * TxRun) : TxReturn :=
  let '(res, r) := x in
  let '(result, err) :=
    match res with
    | Ok x => x
    | Err e => (None, Some e)
    | Panic p => (None, processRecovery p (newOutOfGasRecoveryMiddleware runTxRecoveryMiddleware))
    end in
  mkTxReturn (mkGasInfo (run_gasWanted r) (GasConsumed (run_meter r))) result (run_anteEvents r) err.

Definition runTx (mode : execMode) (txBytes : string) (tx : option Tx) : GoM (option ModeState * Mempool) TxReturn :=
  λ s,
    let '(modeState, mp) := s in
    match getContextForTx mode txBytes modeState, modeState with
    | Ok (ctx, g), Some st =>
        let run :=
          let x := defer_consumeBlockGas mode
                     (tx_body mode txBytes tx (mkTxRun (st_ms st) ctx g (ctx_blockGasMeter ctx) mp 0 [] false)) in
          (Ok (defer_recover x),
           (Some (mkModeState (run_ms x.2) (WithBlockGasMeter (run_blockMeter x.2) (st_ctx st))), run_mempool x.2)) in
        if decide (mode = execModeFinalize) then
          match ctx_blockGasMeter ctx with
          | None => (Panic nil_dereference, s)
          | Some bm =>
              if IsOutOfGas bm then (Ok (mkTxReturn (mkGasInfo 0 0) None [] (Some ErrOutOfGas)), s) else run
          end
        else run
    | Panic p, _ => (Panic p, s)
    | _, _ => (Panic "state is nil for mode", s)
    end.

Definition deliverTx (tx : string) : GoM (option ModeState * Mempool) ExecTxResult :=
  ret ← runTx execModeFinalize tx None;
  let gInfo := tx_gInfo ret in
  let gasWanted := wrap_int64 (gi_GasWanted gInfo) in
  let gasUsed := wrap_int64 (gi_GasUsed gInfo) in
  match tx_err ret, tx_result ret with
  | Some err, _ => mret (mkExecTxResult (Some err) "" (MarkEventsToIndex (tx_anteEvents ret) indexEvents) gasWanted gasUsed)
  | None, Some result =>
      mret (mkExecTxResult None (res_Data result) (MarkEventsToIndex (res_Events result) indexEvents) gasWanted gasUsed)
  | None, None => panicM nil_dereference
  end.

Definition PrepareProposalVerifyTx (tx : Tx) : GoM (option ModeState * Mempool) string :=
  bz ← liftM (txEncoder tx);
  ret ← runTx execModePrepareProposal bz (Some tx);
  match tx_err ret with Some err => errM err | None => mret bz end.
Definition ProcessProposalVerifyTx (txBz : string) : GoM (option ModeState * Mempool) Tx :=
  tx ← liftM (txDecoder txBz);
  ret ← runTx execModeProcessProposal txBz (Some tx);
  match tx_err ret with Some err => errM err | None => mret tx end.
End RunTx.
