(* ===== verification/ABCI.v ===== *)
(** * ABCI: the application interface of baseapp (abci.go, baseapp.go, state.go)

    The state of an application is its root multistore, the branches of the
    four modes with their contexts, the initial height and the mempool.  The
    handlers of blocks and proposals are the class [BlockConfig].  Not
    modelled: optimistic execution, vote extensions, queries, snapshots and
    streaming.

    The root multistore keeps its working contents and every committed
    version; the hash of a version, which IAVL computes from the versions
    before it, is a parameter.  The infinite gas meter of the contexts of
    blocks only counts and is not kept. *)
From S2P Require Import Prelude KVStore Gas Coin DecCoin SdkContext BaseApp.

(** ** Requests and responses *)

Record ValidatorUpdate := mkValidatorUpdate { vu_PubKeyBytes : string; vu_PubKeyType : string; vu_Power : Z }.
#[global] Instance ValidatorUpdate_eq_dec : EqDecision ValidatorUpdate.
Proof. solve_decision. Defined.

Record InitChainRequest := mkInitChainRequest {
  ic_Time : Z;
  ic_ChainId : string;
  ic_ConsensusParams : option ConsensusParams;
  ic_Validators : list ValidatorUpdate;
  ic_AppStateBytes : string;
  ic_InitialHeight : Z
}.
Record InitChainResponse := mkInitChainResponse {
  icr_ConsensusParams : option ConsensusParams;
  icr_Validators : list ValidatorUpdate;
  icr_AppHash : string
}.
Record PrepareProposalRequest := mkPrepareProposalRequest {
  pp_MaxTxBytes : Z;
  pp_Txs : list string;
  pp_LocalLastCommit : ExtendedCommitInfo;
  pp_Misbehavior : list Misbehavior;
  pp_Height : Z;
  pp_Time : Z;
  pp_NextValidatorsHash : string;
  pp_ProposerAddress : string
}.
Record ProcessProposalRequest := mkProcessProposalRequest {
  pr_Txs : list string;
  pr_ProposedLastCommit : CommitInfo;
  pr_Misbehavior : list Misbehavior;
  pr_Hash : string;
  pr_Height : Z;
  pr_Time : Z;
  pr_NextValidatorsHash : string;
  pr_ProposerAddress : string
}.
Inductive ProposalStatus := PROCESS_PROPOSAL_STATUS_ACCEPT | PROCESS_PROPOSAL_STATUS_REJECT.
Record FinalizeBlockRequest := mkFinalizeBlockRequest {
  fb_Txs : list string;
  fb_DecidedLastCommit : CommitInfo;
  fb_Misbehavior : list Misbehavior;
  fb_Hash : string;
  fb_Height : Z;
  fb_Time : Z;
  fb_NextValidatorsHash : string;
  fb_ProposerAddress : string
}.
Record FinalizeBlockResponse := mkFinalizeBlockResponse {
  fbr_Events : list Event;
  fbr_TxResults : list ExecTxResult;
  fbr_ValidatorUpdates : list ValidatorUpdate;
  fbr_ConsensusParamUpdates : ConsensusParams;
  fbr_AppHash : string
}.
Inductive CheckTxType := CHECK_TX_TYPE_UNKNOWN | CHECK_TX_TYPE_CHECK | CHECK_TX_TYPE_RECHECK.

(** ** The root multistore: store/rootmulti/store.go *)

Record CommitMultiStore `{AppTypes} := mkCommitMultiStore {
  cms_working : MultiStore;
  cms_version : Z;
  cms_initialVersion : Z;
  cms_hash : string;
  cms_committed : list (Z * MultiStore)
}.
Arguments mkCommitMultiStore {_}.

(** [state] of each mode and the fields of [BaseApp] that change. *)
Record BaseApp `{AppTypes} := mkBaseApp {
  app_cms : CommitMultiStore;
  app_initialHeight : Z;
  app_checkState : option ModeState;
  app_prepareProposalState : option ModeState;
  app_processProposalState : option ModeState;
  app_finalizeBlockState : option ModeState;
  app_mempool : Mempool
}.
Arguments mkBaseApp {_}.

Class BlockConfig `{AppTypes} := {
  (** [CommitInfo.Hash] of the version that holds the contents *)
  WorkingHash_of : list (Z * MultiStore) → MultiStore → string;
  sort_ValidatorUpdates : list ValidatorUpdate → list ValidatorUpdate;
  snapshotRetention : option Z;
  initChainer : option (Context → InitChainRequest → GoM MultiStore (option ConsensusParams * list ValidatorUpdate));
  preBlocker : option (Context → FinalizeBlockRequest → GoM MultiStore (list Event));
  beginBlocker : option (Context → GoM MultiStore (list Event));
  endBlocker : option (Context → GoM MultiStore (list Event * list ValidatorUpdate));
  precommiter : option (Context → GoM MultiStore unit);
  prepareCheckStater : option (Context → GoM MultiStore unit);
  prepareProposal : option (Context → PrepareProposalRequest → GoM (option ModeState * Mempool) (list string));
  processProposal : option (Context → ProcessProposalRequest → GoM (option ModeState * Mempool) ProposalStatus)
}.

Section ABCI.
Context `{AppConfig} {HM : MempoolOps} {HB : BlockConfig}.

Definition set_cms (x : CommitMultiStore) (app : BaseApp) : BaseApp :=
  mkBaseApp x (app_initialHeight app) (app_checkState app) (app_prepareProposalState app) (app_processProposalState app)
    (app_finalizeBlockState app) (app_mempool app).
Definition set_initialHeight (x : Z) (app : BaseApp) : BaseApp :=
  mkBaseApp (app_cms app) x (app_checkState app) (app_prepareProposalState app) (app_processProposalState app)
    (app_finalizeBlockState app) (app_mempool app).
Definition set_mempool (x : Mempool) (app : BaseApp) : BaseApp :=
  mkBaseApp (app_cms app) (app_initialHeight app) (app_checkState app) (app_prepareProposalState app)
    (app_processProposalState app) (app_finalizeBlockState app) x.

Definition getState (mode : execMode) (app : BaseApp) : option ModeState :=
  match mode with
  | execModeFinalize => app_finalizeBlockState app
  | execModePrepareProposal => app_prepareProposalState app
  | execModeProcessProposal => app_processProposalState app
  | _ => app_checkState app
  end.
(** Assignment of the state of a mode; recheck shares the one of check. *)
Definition put_state (mode : execMode) (x : option ModeState) (app : BaseApp) : BaseApp :=
  match mode with
  | execModeFinalize =>
      mkBaseApp (app_cms app) (app_initialHeight app) (app_checkState app) (app_prepareProposalState app)
        (app_processProposalState app) x (app_mempool app)
  | execModePrepareProposal =>
      mkBaseApp (app_cms app) (app_initialHeight app) (app_checkState app) x (app_processProposalState app)
        (app_finalizeBlockState app) (app_mempool app)
  | execModeProcessProposal =>
      mkBaseApp (app_cms app) (app_initialHeight app) (app_checkState app) (app_prepareProposalState app) x
        (app_finalizeBlockState app) (app_mempool app)
  | _ =>
      mkBaseApp (app_cms app) (app_initialHeight app) x (app_prepareProposalState app) (app_processProposalState app)
        (app_finalizeBlockState app) (app_mempool app)
  end.

Definition cms_SetInitialVersion (version : Z) (cms : CommitMultiStore) : CommitMultiStore :=
  mkCommitMultiStore (cms_working cms) (cms_version cms) version (cms_hash cms) (cms_committed cms).
(** Writing a branch of the root multistore. *)
Definition cms_Write (ms : MultiStore) (cms : CommitMultiStore) : CommitMultiStore :=
  mkCommitMultiStore ms (cms_version cms) (cms_initialVersion cms) (cms_hash cms) (cms_committed cms).
Definition cms_WorkingHash (cms : CommitMultiStore) : string := WorkingHash_of (cms_committed cms) (cms_working cms).
Definition cms_Commit (cms : CommitMultiStore) : CommitMultiStore :=
  let version := if (cms_version cms =? 0) && (1 <? cms_initialVersion cms) then cms_initialVersion cms
                 else wrap_int64 (cms_version cms + 1) in
  mkCommitMultiStore (cms_working cms) version (cms_initialVersion cms) (cms_WorkingHash cms)
    ((version, cms_working cms) :: cms_committed cms).
Definition LastBlockHeight (app : BaseApp) : Z := cms_version (app_cms app).

(** ** baseapp.go *)

Definition setState (mode : execMode) (h : Header) (app : BaseApp) : BaseApp :=
  let headerInfo := mkHeaderInfo (hd_Height h) "" (hd_Time h) (hd_ChainID h) (hd_AppHash h) in
  let ctx := WithHeaderInfo headerInfo (WithBlockHeader h (NewContext false)) in
  let ctx := match mode with
             | execModeCheck => WithMinGasPrices minGasPrices (WithIsCheckTx true ctx)
             | _ => ctx
             end in
  put_state mode (Some (mkModeState (cms_working (app_cms app)) ctx)) app.

(** [state.Context] and [state.SetContext] of a mode. *)
Definition state_of (mode : execMode) : GoM BaseApp ModeState :=
  λ app, match getState mode app with Some st => (Ok st, app) | None => (Panic nil_dereference, app) end.
Definition SetContext (mode : execMode) (f : Context → Context) : GoM BaseApp unit :=
  st ← state_of mode;
  modifyM (put_state mode (Some (mkModeState (st_ms st) (f (st_ctx st))))).
(** A hook that runs in the context of a mode on its branch. *)
Definition on_state {A} (mode : execMode) (m : Context → GoM MultiStore A) : GoM BaseApp A :=
  λ app, match getState mode app with
         | None => (Panic nil_dereference, app)
         | Some st => let '(r, ms) := m (st_ctx st) (st_ms st) in
                      (r, put_state mode (Some (mkModeState ms (st_ctx st))) app)
         end.
(** A call that runs transactions of a mode. *)
Definition on_txs {A} (mode : execMode) (m : GoM (option ModeState * Mempool) A) : GoM BaseApp A :=
  λ app, let '(r, (st, mp)) := m (getState mode app, app_mempool app) in
         (r, set_mempool mp (put_state mode st app)).

(** Reading the parameters in the context of a block. *)
Definition block_params (ms : MultiStore) : outcome ConsensusParams := (GetConsensusParams ms NewInfiniteGasMeter).1.
Definition block_gas_meter (ms : MultiStore) : outcome GasMeter := (getBlockGasMeter ms NewInfiniteGasMeter).1.

Definition validateFinalizeBlockHeight (height : Z) (app : BaseApp) : outcome unit :=
  if height <? 1 then Err "invalid height"
  else
    let lastBlockHeight := LastBlockHeight app in
    let expectedHeight := if (lastBlockHeight =? 0) && (1 <? app_initialHeight app) then app_initialHeight app
                          else wrap_int64 (lastBlockHeight + 1) in
    guard_err (negb (height =? expectedHeight)) "invalid height; expected other".

(** [time.Unix] is the floor in seconds. *)
Definition checkHalt (height time : Z) : outcome unit :=
  guard_err (((0 <? haltHeight) && (haltHeight <=? wrap_uint64 height))
             || ((0 <? haltTime) && (wrap_int64 haltTime <=? time / 10 ^ 9))) "halt per configuration".

Definition preBlock (req : FinalizeBlockRequest) : GoM BaseApp (list Event) :=
  match preBlocker with
  | None => mret []
  | Some f =>
      events ← on_state execModeFinalize (λ ctx, f (WithEventManager [] ctx) req);
      st ← state_of execModeFinalize;
      cp ← liftM (block_params (st_ms st));
      gasMeter ← liftM (block_gas_meter (st_ms st));
      _ ← SetContext execModeFinalize
            (λ ctx, WithBlockGasMeter (Some gasMeter) (WithConsensusParams cp (WithEventManager events ctx)));
      mret (mark_mode "PreBlock" events)
  end.
Definition beginBlock : GoM BaseApp (list Event) :=
  match beginBlocker with
  | None => mret []
  | Some f =>
      events ← on_state execModeFinalize f;
      mret (MarkEventsToIndex (mark_mode "BeginBlock" events) indexEvents)
  end.
Definition endBlock : GoM BaseApp (list Event * list ValidatorUpdate) :=
  match endBlocker with
  | None => mret ([], [])
  | Some f =>
      eb ← on_state execModeFinalize f;
      mret (MarkEventsToIndex (mark_mode "EndBlock" (fst eb)) indexEvents, snd eb)
  end.

(** ** abci.go *)

Definition block_header (height time : Z) (proposer nextValidatorsHash : string) (app : BaseApp) : Header :=
  mkHeader chainID height time proposer nextValidatorsHash (cms_hash (app_cms app)).

(** The transactions of a block from index [i] on. *)
Fixpoint deliver_txs (i : nat) (txs : list string) : GoM BaseApp (list ExecTxResult) :=
  match txs with
  | [] => mret []
  | rawTx :: txs' =>
      response ← on_txs execModeFinalize (deliverTx rawTx);
      let response := mkExecTxResult (er_err response) (er_Data response)
                        ((λ e, AppendAttributes e [NewAttribute "tx_index" (Itoa i)]) <$> er_Events response)
                        (er_GasWanted response) (er_GasUsed response) in
      rest ← deliver_txs (S i) txs';
      mret (response :: rest)
  end.

(** The context [internalFinalizeBlock] sets before the block runs. *)
Definition finalize_ctx (req : FinalizeBlockRequest) (header : Header) (cp : ConsensusParams) (ctx : Context) : Context :=
  WithCometInfo (mkCometInfo (ToSDKEvidence (fb_Misbehavior req)) (fb_NextValidatorsHash req) (fb_ProposerAddress req)
                   (ToSDKCommitInfo (fb_DecidedLastCommit req)))
    (WithExecMode execModeFinalize
      (WithVoteInfos (ci_Votes (fb_DecidedLastCommit req))
        (WithConsensusParams cp
          (WithHeaderInfo (mkHeaderInfo (fb_Height req) (fb_Hash req) (fb_Time req) chainID (hd_AppHash header))
            (WithHeaderHash (fb_Hash req) (WithBlockHeader header ctx)))))).

Definition ensure_finalize_state (header : Header) : GoM BaseApp unit :=
  λ app, match app_finalizeBlockState app with
         | None => (Ok tt, setState execModeFinalize header app)
         | Some _ => (Ok tt, app)
         end.
(** The block gas meter is also put in the context of [CheckTx]. *)
Definition share_block_meter (req : FinalizeBlockRequest) (gasMeter : GasMeter) : GoM BaseApp unit :=
  λ app, match app_checkState app with
         | None => (Ok tt, app)
         | Some _ => SetContext execModeCheck (λ ctx, WithHeaderHash (fb_Hash req) (WithBlockGasMeter (Some gasMeter) ctx)) app
         end.
Definition reset_block_meter : GoM BaseApp GasMeter :=
  st ← state_of execModeFinalize;
  gasMeter ← liftM (block_gas_meter (st_ms st));
  _ ← SetContext execModeFinalize (WithBlockGasMeter (Some gasMeter));
  mret gasMeter.

(** The first part of [internalFinalizeBlock]: the state of the block and its
    context. *)
Definition enter_block (req : FinalizeBlockRequest) (header : Header) : GoM BaseApp unit :=
  _ ← ensure_finalize_state header;
  st ← state_of execModeFinalize;
  cp ← liftM (block_params (st_ms st));
  SetContext execModeFinalize (finalize_ctx req header cp).
(** The rest: the hooks and the transactions. *)
Definition execute_block (req : FinalizeBlockRequest) : GoM BaseApp FinalizeBlockResponse :=
  gasMeter ← reset_block_meter;
  _ ← share_block_meter req gasMeter;
  preblockEvents ← preBlock req;
  beginEvents ← beginBlock;
  _ ← reset_block_meter;
  txResults ← deliver_txs 0 (fb_Txs req);
  eb ← endBlock;
  st ← state_of execModeFinalize;
  cp ← liftM (block_params (st_ms st));
  mret (mkFinalizeBlockResponse (preblockEvents ++ beginEvents ++ fst eb) txResults (snd eb) cp "").
Definition internalFinalizeBlock (req : FinalizeBlockRequest) : GoM BaseApp FinalizeBlockResponse :=
  _ ← liftM (checkHalt (fb_Height req) (fb_Time req));
  app ← getM;
  _ ← liftM (validateFinalizeBlockHeight (fb_Height req) app);
  _ ← enter_block req (block_header (fb_Height req) (fb_Time req) (fb_ProposerAddress req) (fb_NextValidatorsHash req) app);
  execute_block req.

(** The branch of the block is written to the root multistore. *)
Definition workingHash : GoM BaseApp string :=
  st ← state_of execModeFinalize;
  _ ← modifyM (λ app, set_cms (cms_Write (st_ms st) (app_cms app)) app);
  readM (λ app, cms_WorkingHash (app_cms app)).

Definition FinalizeBlock (req : FinalizeBlockRequest) : GoM BaseApp FinalizeBlockResponse :=
  res ← internalFinalizeBlock req;
  appHash ← workingHash;
  mret (mkFinalizeBlockResponse (fbr_Events res) (fbr_TxResults res) (fbr_ValidatorUpdates res)
          (fbr_ConsensusParamUpdates res) appHash).

Definition minNonZero (x y : Z) : Z :=
  if x =? 0 then y else if y =? 0 then x else if x <? y then x else y.
Definition GetBlockRetentionHeight (commitHeight : Z) : GoM BaseApp Z :=
  if minRetainBlocks =? 0 then mret 0
  else
    st ← state_of execModeFinalize;
    cp ← liftM (block_params (st_ms st));
    let retentionHeight :=
      match cp_Evidence cp with
      | Some ev => if 0 <? ep_MaxAgeNumBlocks ev then wrap_int64 (commitHeight - ep_MaxAgeNumBlocks ev) else 0
      | None => 0
      end in
    let retentionHeight :=
      match snapshotRetention with
      | Some h => if 0 <? h then minNonZero retentionHeight (wrap_int64 (commitHeight - h)) else retentionHeight
      | None => retentionHeight
      end in
    let retentionHeight := minNonZero retentionHeight (wrap_int64 (commitHeight - wrap_int64 minRetainBlocks)) in
    mret (if retentionHeight <=? 0 then 0 else retentionHeight).

Definition run_hook (mode : execMode) (h : option (Context → GoM MultiStore unit)) : GoM BaseApp unit :=
  match h with None => mret tt | Some f => on_state mode f end.

(** The retain height of the response. *)
Definition Commit : GoM BaseApp Z :=
  st ← state_of execModeFinalize;
  let header := ctx_header (st_ctx st) in
  retainHeight ← GetBlockRetentionHeight (hd_Height header);
  _ ← run_hook execModeFinalize precommiter;
  _ ← modifyM (λ app, set_cms (cms_Commit (app_cms app)) app);
  _ ← modifyM (setState execModeCheck header);
  _ ← modifyM (put_state execModeFinalize None);
  _ ← run_hook execModeCheck prepareCheckStater;
  mret retainHeight.

(** The deferred function of [InitChain], for one of the two modes. *)
Definition genesis_header (req : InitChainRequest) (ctx : Context) : Context :=
  WithHeaderInfo (mkHeaderInfo (ic_InitialHeight req) "" (ic_Time req) (ic_ChainId req) "")
    (WithBlockHeader (mkHeader (ic_ChainId req) (ic_InitialHeight req) (ic_Time req) "" "" "") ctx).
Definition check_validators (req : InitChainRequest) (vals : list ValidatorUpdate) : outcome unit :=
  match ic_Validators req with
  | [] => Ok tt
  | _ =>
      _ ← guard_err (negb (bool_decide (length (ic_Validators req) = length vals))) "len(RequestInitChain.Validators) != len(GenesisValidators)";
      guard_err (negb (bool_decide (sort_ValidatorUpdates vals = sort_ValidatorUpdates (ic_Validators req)))) "genesisValidators != req.Validators"
  end.
Definition init_chain (req : InitChainRequest) : GoM BaseApp InitChainResponse :=
  match initChainer with
  | None => mret (mkInitChainResponse None [] "")
  | Some f =>
      _ ← SetContext execModeFinalize (WithBlockGasMeter (Some NewInfiniteGasMeter));
      res ← on_state execModeFinalize (λ ctx, f ctx req);
      _ ← liftM (check_validators req (snd res));
      appHash ← readM (λ app, cms_hash (app_cms app));
      mret (mkInitChainResponse (fst res)
              (match ic_Validators req with [] => snd res | _ => sort_ValidatorUpdates (snd res) end) appHash)
  end.
(** A deferred call runs on every outcome; its own panic would replace it. *)
Definition with_defer {S A} (m : GoM S A) (d : GoM S unit) : GoM S A :=
  λ s, let '(r, s1) := m s in match d s1 with (Panic p, s2) => (Panic p, s2) | (_, s2) => (r, s2) end.

Definition InitChain (req : InitChainRequest) : GoM BaseApp InitChainResponse :=
  _ ← liftM (guard_err (negb (str_eq (ic_ChainId req) chainID)) "invalid chain-id on InitChain");
  _ ← modifyM (set_initialHeight (if ic_InitialHeight req =? 0 then 1 else ic_InitialHeight req));
  let initial := 1 <? ic_InitialHeight req in
  let initHeader := mkHeader (ic_ChainId req) (if initial then ic_InitialHeight req else 0) (ic_Time req) "" "" "" in
  _ ← modifyM (λ app, if initial then set_cms (cms_SetInitialVersion (ic_InitialHeight req) (app_cms app)) app else app);
  _ ← modifyM (setState execModeFinalize initHeader);
  _ ← modifyM (setState execModeCheck initHeader);
  _ ← match ic_ConsensusParams req with
      | None => mret tt
      | Some cp => on_state execModeFinalize
                     (λ _ ms, let '(r, (ms, _)) := StoreConsensusParams cp (ms, NewInfiniteGasMeter) in (r, ms))
      end;
  with_defer (init_chain req)
    (_ ← SetContext execModeCheck (genesis_header req); SetContext execModeFinalize (genesis_header req)).

Record CheckTxResponse := mkCheckTxResponse {
  ctr_err : option string;
  ctr_Data : string;
  ctr_Events : list Event;
  ctr_GasWanted : Z;
  ctr_GasUsed : Z
}.
(** Without a custom [checkTxHandler]. *)
Definition CheckTx (ty : CheckTxType) (txBytes : string) : GoM BaseApp CheckTxResponse :=
  mode ← liftM (match ty with
                | CHECK_TX_TYPE_CHECK => Ok execModeCheck
                | CHECK_TX_TYPE_RECHECK => Ok execModeReCheck
                | CHECK_TX_TYPE_UNKNOWN => Err "unknown RequestCheckTx type"
                end);
  ret ← on_txs mode (runTx mode txBytes None);
  let gasWanted := wrap_int64 (gi_GasWanted (tx_gInfo ret)) in
  let gasUsed := wrap_int64 (gi_GasUsed (tx_gInfo ret)) in
  match tx_err ret, tx_result ret with
  | Some err, _ => mret (mkCheckTxResponse (Some err) "" (tx_anteEvents ret) gasWanted gasUsed)
  | None, Some result => mret (mkCheckTxResponse None (res_Data result) (MarkEventsToIndex (res_Events result) indexEvents) gasWanted gasUsed)
  | None, None => panicM nil_dereference
  end.

(** ** Proposals *)

(** At the initial height proposals start from a branch of the state that
    [InitChain] left. *)
Definition getContextForProposal (height : Z) (st : ModeState) : GoM BaseApp ModeState :=
  app ← getM;
  if height =? app_initialHeight app then
    fin ← state_of execModeFinalize;
    mret (mkModeState (st_ms fin)
            (WithBlockHeader zero_Header (WithHeaderInfo zero_HeaderInfo (WithEventManager [] (st_ctx fin)))))
  else mret st.
(** The context of a proposal; only [ProcessProposal] knows the hash. *)
Definition proposal_ctx (mode : execMode) (height time : Z) (hash : option string) (proposer : string)
    (votes : list VoteInfo) (comet : CometInfo) (ctx : Context) : Context :=
  let ctx := WithBlockHeight height (WithVoteInfos votes ctx) in
  let ctx := match hash with Some h => WithHeaderHash h ctx | None => ctx end in
  WithHeaderInfo (mkHeaderInfo height "" time chainID "")
    (WithCometInfo comet (WithExecMode mode (WithProposer proposer ctx))).
Definition enter_proposal (mode : execMode) (height time : Z) (hash : option string) (proposer : string)
    (votes : list VoteInfo) (comet : CometInfo) : GoM BaseApp Context :=
  st ← state_of mode;
  st ← getContextForProposal height st;
  let ctx := proposal_ctx mode height time hash proposer votes comet (st_ctx st) in
  _ ← modifyM (put_state mode (Some (mkModeState (st_ms st) ctx)));
  cp ← liftM (block_params (st_ms st));
  gasMeter ← liftM (block_gas_meter (st_ms st));
  let ctx := WithBlockGasMeter (Some gasMeter) (WithConsensusParams cp ctx) in
  _ ← modifyM (put_state mode (Some (mkModeState (st_ms st) ctx)));
  mret ctx.
(** Neither an error nor a panic of a proposal handler gets out. *)
Definition recover_with {S A} (fallback : A) (m : GoM S A) : GoM S A :=
  λ s, match m s with (Ok a, s1) => (Ok a, s1) | (_, s1) => (Ok fallback, s1) end.

Definition PrepareProposal (req : PrepareProposalRequest) : GoM BaseApp (list string) :=
  match prepareProposal with
  | None => errM "PrepareProposal handler not set"
  | Some handler =>
      app ← getM;
      let header := block_header (pp_Height req) (pp_Time req) (pp_ProposerAddress req) (pp_NextValidatorsHash req) app in
      _ ← modifyM (setState execModePrepareProposal header);
      _ ← liftM (guard_err (pp_Height req <? 1) "PrepareProposal called with invalid height");
      ctx ← enter_proposal execModePrepareProposal (pp_Height req) (pp_Time req) None (pp_ProposerAddress req)
              (toVoteInfo (eci_Votes (pp_LocalLastCommit req)))
              (mkCometInfo (ToSDKEvidence (pp_Misbehavior req)) (pp_NextValidatorsHash req) (pp_ProposerAddress req)
                 (ToSDKExtendedCommitInfo (pp_LocalLastCommit req)));
      recover_with (pp_Txs req) (on_txs execModePrepareProposal (handler ctx req))
  end.

Definition ProcessProposal (req : ProcessProposalRequest) : GoM BaseApp ProposalStatus :=
  match processProposal with
  | None => errM "ProcessProposal handler not set"
  | Some handler =>
      _ ← liftM (guard_err (pr_Height req <? 1) "ProcessProposal called with invalid height");
      app ← getM;
      let header := block_header (pr_Height req) (pr_Time req) (pr_ProposerAddress req) (pr_NextValidatorsHash req) app in
      _ ← modifyM (setState execModeProcessProposal header);
      _ ← modifyM (λ app, if app_initialHeight app <? pr_Height req then setState execModeFinalize header app else app);
      ctx ← enter_proposal execModeProcessProposal (pr_Height req) (pr_Time req) (Some (pr_Hash req)) (pr_ProposerAddress req)
              (ci_Votes (pr_ProposedLastCommit req))
              (mkCometInfo (ToSDKEvidence (pr_Misbehavior req)) (pr_NextValidatorsHash req) (pr_ProposerAddress req)
                 (ToSDKCommitInfo (pr_ProposedLastCommit req)));
      recover_with PROCESS_PROPOSAL_STATUS_REJECT (on_txs execModeProcessProposal (handler ctx req))
  end.
End ABCI.
