(* ===== verification/Proposals.v ===== *)
(** * Proposals: the default proposal handlers (baseapp/abci_utils.go)

    [DefaultProposalHandler] verifies transactions through [runTx] in the mode
    of the proposal.  Its transaction selector is cleared when a call returns,
    so each call starts from the empty one.  The size of an encoded
    transaction in a block and the signers of a transaction are parameters
    ([ProposalConfig]). *)
From S2P Require Import Prelude KVStore Gas Coin DecCoin SdkContext BaseApp ABCI.

(** types/mempool/signer_extraction_adapter.go *)
Record SignerData := mkSignerData { sd_Signer : string; sd_Sequence : Z }.

Class ProposalConfig `{AppTypes} := {
  ComputeProtoSizeForTx : string → Z;
  GetSigners : Tx → outcome (list SignerData);
  GetUnordered : Tx → bool
}.

(** ** TxSelector *)

Record defaultTxSelector := mkTxSelector { totalTxBytes : Z; totalTxGas : Z; selectedTxs : list string }.
Definition NewDefaultTxSelector : defaultTxSelector := mkTxSelector 0 0 [].

Section Proposals.
Context `{AppConfig} {HM : MempoolOps} {HP : ProposalConfig}.

(** All sums are uint64. *)
Definition SelectTxForProposal (maxTxBytes maxBlockGas : Z) (memTx : Tx) (txBz : string) (ts : defaultTxSelector) : bool * defaultTxSelector :=
  let txSize := ComputeProtoSizeForTx txBz in
  let txGasLimit := default 0 (GetGas memTx) in
  let ts :=
    if wrap_uint64 (txSize + totalTxBytes ts) <=? maxTxBytes then
      if 0 <? maxBlockGas then
        if wrap_uint64 (txGasLimit + totalTxGas ts) <=? maxBlockGas then
          mkTxSelector (wrap_uint64 (totalTxBytes ts + txSize)) (wrap_uint64 (totalTxGas ts + txGasLimit)) (selectedTxs ts ++ [txBz])
        else ts
      else mkTxSelector (wrap_uint64 (totalTxBytes ts + txSize)) (totalTxGas ts) (selectedTxs ts ++ [txBz])
    else ts in
  ((maxTxBytes <=? totalTxBytes ts) || ((0 <? maxBlockGas) && (maxBlockGas <=? totalTxGas ts)), ts).

(** ** PrepareProposalHandler *)

(** Without a mempool the requested transactions are selected in order. *)
Fixpoint select_requested (maxTxBytes maxBlockGas : Z) (txs : list (Tx * string)) (ts : defaultTxSelector) : defaultTxSelector :=
  match txs with
  | [] => ts
  | (tx, bz) :: txs' =>
      let '(stop, ts) := SelectTxForProposal maxTxBytes maxBlockGas tx bz ts in
      if stop then ts else select_requested maxTxBytes maxBlockGas txs' ts
  end.

(** The sequences of the signers of a transaction, if each follows the one
    last selected. *)
Definition check_signer (selected : gmap string Z) (seqs : option (gmap string Z)) (signer : SignerData) : option (gmap string Z) :=
  seqs ← seqs;
  match selected !! sd_Signer signer with
  | None => Some (<[sd_Signer signer := sd_Sequence signer]> seqs)
  | Some seq =>
      if wrap_uint64 (seq + 1) =? sd_Sequence signer then Some (<[sd_Signer signer := sd_Sequence signer]> seqs) else None
  end.
Definition tx_signers_seqs (selected : gmap string Z) (signerData : list SignerData) : option (gmap string Z) :=
  foldl (check_signer selected) (Some ∅) signerData.
(** After a verified transaction: its sequences if it was selected, and else
    the ones before them for signers not seen yet. *)
Definition update_seqs (added : bool) (txSeqs selected : gmap string Z) : gmap string Z :=
  if added then txSeqs ∪ selected else selected ∪ ((λ seq, wrap_uint64 (seq - 1)) <$> txSeqs).

(** The variables of the enumeration of the mempool. *)
Record Enumeration := mkEnumeration {
  en_selector : defaultTxSelector;
  en_seqs : gmap string Z;
  en_nums : nat;
  en_invalid : list Tx;
  en_resError : option string
}.
Definition NewEnumeration : Enumeration := mkEnumeration NewDefaultTxSelector ∅ 0 [] None.

(** A verified transaction is offered to the selector. *)
Definition offer_tx (maxTxBytes maxBlockGas : Z) (memTx : Tx) (txBz : string) (isUnordered : bool) (txSeqs : gmap string Z)
    (en : Enumeration) : bool * Enumeration :=
  let '(stop, ts) := SelectTxForProposal maxTxBytes maxBlockGas memTx txBz (en_selector en) in
  if stop then (false, mkEnumeration ts (en_seqs en) (en_nums en) (en_invalid en) (en_resError en))
  else
    let txsLen := length (selectedTxs ts) in
    let seqs := if isUnordered then en_seqs en
                else update_seqs (negb (bool_decide (txsLen = en_nums en))) txSeqs (en_seqs en) in
    (true, mkEnumeration ts seqs txsLen (en_invalid en) (en_resError en)).
(** The callback of [SelectBy]: whether to continue. *)
Definition prepare_tx (maxTxBytes maxBlockGas : Z) (memTx : Tx) (en : Enumeration) : GoM (option ModeState * Mempool) (bool * Enumeration) :=
  let isUnordered := GetUnordered memTx in
  let signers := if isUnordered then Ok (Some ∅) else tx_signers_seqs (en_seqs en) <$> GetSigners memTx in
  match signers with
  | Err err => mret (false, mkEnumeration (en_selector en) (en_seqs en) (en_nums en) (en_invalid en) (Some err))
  | Panic p => panicM p
  | Ok None => mret (true, en)
  | Ok (Some txSeqs) => λ s,
      match PrepareProposalVerifyTx memTx s with
      | (Ok txBz, s) => (Ok (offer_tx maxTxBytes maxBlockGas memTx txBz isUnordered txSeqs en), s)
      | (Err _, s) => (Ok (true, mkEnumeration (en_selector en) (en_seqs en) (en_nums en) (en_invalid en ++ [memTx]) (en_resError en)), s)
      | (Panic p, s) => (Panic p, s)
      end
  end.
Fixpoint enumerate_mempool (maxTxBytes maxBlockGas : Z) (txs : list Tx) (en : Enumeration) : GoM (option ModeState * Mempool) Enumeration :=
  match txs with
  | [] => mret en
  | memTx :: txs' =>
      r ← prepare_tx maxTxBytes maxBlockGas memTx en;
      if (fst r : bool) then enumerate_mempool maxTxBytes maxBlockGas txs' (snd r) else mret (snd r)
  end.
Definition remove_invalid (tx : Tx) : GoM (option ModeState * Mempool) unit :=
  λ s, match mp_Remove tx (s.2) with
       | (Err e, mp) => (if str_eq e ErrTxNotFound then Ok tt else Err e, (s.1, mp))
       | (r, mp) => (r, (s.1, mp))
       end.

Definition PrepareProposalHandler (ctx : Context) (req : PrepareProposalRequest) : GoM (option ModeState * Mempool) (list string) :=
  let maxBlockGas := match cp_Block (ctx_consParams ctx) with Some b => wrap_uint64 (bp_MaxGas b) | None => 0 end in
  let maxTxBytes := wrap_uint64 (pp_MaxTxBytes req) in
  decodedTxs ← liftM (traverse txDecoder (pp_Txs req));
  if mp_isNoOp then
    mret (selectedTxs (select_requested maxTxBytes maxBlockGas (zip decodedTxs (pp_Txs req)) NewDefaultTxSelector))
  else
    s ← getM;
    en ← enumerate_mempool maxTxBytes maxBlockGas (mp_Select (snd s) ctx decodedTxs) NewEnumeration;
    match en_resError en with
    | Some err => errM err
    | None =>
        _ ← forM_ remove_invalid (en_invalid en);
        mret (selectedTxs (en_selector en))
    end.

(** ** ProcessProposalHandler *)

(** The loop over the transactions, with the gas counted so far. *)
Fixpoint process_txs (maxBlockGas : Z) (txs : list string) (totalTxGas : Z) : GoM (option ModeState * Mempool) ProposalStatus :=
  match txs with
  | [] => mret PROCESS_PROPOSAL_STATUS_ACCEPT
  | txBytes :: txs' => λ s,
      match ProcessProposalVerifyTx txBytes s with
      | (Ok tx, s) =>
          if 0 <? maxBlockGas then
            let totalTxGas := match GetGas tx with Some gas => wrap_uint64 (totalTxGas + gas) | None => totalTxGas end in
            if wrap_uint64 maxBlockGas <? totalTxGas then (Ok PROCESS_PROPOSAL_STATUS_REJECT, s)
            else process_txs maxBlockGas txs' totalTxGas s
          else process_txs maxBlockGas txs' totalTxGas s
      | (Err _, s) => (Ok PROCESS_PROPOSAL_STATUS_REJECT, s)
      | (Panic p, s) => (Panic p, s)
      end
  end.
Definition ProcessProposalHandler (ctx : Context) (req : ProcessProposalRequest) : GoM (option ModeState * Mempool) ProposalStatus :=
  if mp_isNoOp then mret PROCESS_PROPOSAL_STATUS_ACCEPT
  else
    let maxBlockGas := match cp_Block (ctx_consParams ctx) with Some b => bp_MaxGas b | None => 0 end in
    process_txs maxBlockGas (pr_Txs req) 0.

Definition NoOpPrepareProposal (ctx : Context) (req : PrepareProposalRequest) : GoM (option ModeState * Mempool) (list string) :=
  mret (pp_Txs req).
Definition NoOpProcessProposal (ctx : Context) (req : ProcessProposalRequest) : GoM (option ModeState * Mempool) ProposalStatus :=
  mret PROCESS_PROPOSAL_STATUS_ACCEPT.
End Proposals.
