(* ===== verification/BaseAppExample.v ===== *)
(** * BaseAppExample: a small application on baseapp

    Accounts with sequences and balances in one store, a message that sends,
    refuses or panics, an ante handler that checks the sequence and sets the
    gas meter, a mempool that is a list and the default proposal handlers.  The
    witnesses of the theorems on [baseapp] run it. *)
From S2P Require Import Prelude KVStore Gas Coin DecCoin SdkContext BaseApp ABCI Proposals.
From stdpp Require Import pretty.
#[local] Open Scope Z_scope.

Record ExTx := mkExTx { ex_name : string; ex_from : string; ex_seq : Z; ex_gas : Z; ex_msgs : list (string * Z) }.
#[global] Instance ExTx_eq_dec : EqDecision ExTx.
Proof. solve_decision. Defined.

#[export] Instance ex_types : AppTypes := {|
  MultiStore := gmap string Z;
  Mempool := list ExTx;
  Tx := ExTx;
  Msg := string * (string * Z);
  ReflectMsg := string;
  Response := Z;
  AnyMsg := Z
|}.

#[export] Instance ex_mempool : MempoolOps := {|
  mp_Insert := λ _ tx mp, (Ok tt, mp ++ [tx]);
  mp_Remove := λ tx mp, (if decide (tx ∈ mp) then Ok tt else Err ErrTxNotFound, filter (.≠ tx) mp);
  mp_Select := λ mp _ _, mp;
  mp_isNoOp := false
|}.

(** The transactions that have an encoding. *)
Definition ex_decode (bz : string) : outcome ExTx :=
  match list_find (λ tx, ex_name tx = bz)
    [mkExTx "pay" "alice" 0 60 [("bob", 5)];
     mkExTx "pay2" "alice" 2 60 [("bob", 5); ("carol", 7)];
     mkExTx "panic" "alice" 1 40 [("bob", 13)];
     mkExTx "broke" "bob" 0 40 [("bob", 1); ("carol", 1000)];
     mkExTx "late" "alice" 7 40 [("bob", 5)]] with
  | Some (_, tx) => Ok tx
  | None => Err "unknown transaction"
  end.
Definition ex_encode (tx : ExTx) : outcome string :=
  if decide (ex_decode (ex_name tx) = Ok tx) then Ok (ex_name tx) else Err "no encoding".

Definition ex_seq_key (a : string) : string := ("seq/" +:+ a)%string.
Definition ex_balance (a : string) (ms : gmap string Z) : Z := default 0 (ms !! a).
(** The gas meter is set from the limit of the transaction. *)
Definition ex_ante (ctx : Context) (tx : ExTx) : GoM (gmap string Z * GasMeter) AnteResult :=
  λ s,
    if default 0 (s.1 !! ex_seq_key (ex_from tx)) =? ex_seq tx then
      (Ok (mkAnteResult (Some (ctx, basicGasMeter (Z.abs (ex_gas tx) mod 2 ^ 64) 10)) None),
       (<[ex_seq_key (ex_from tx) := ex_seq tx + 1]> (s.1), s.2))
    else (Ok (mkAnteResult None (Some "account sequence mismatch")), s).
Definition ex_send (ctx : Context) (msg : string * (string * Z)) : GoM (gmap string Z * GasMeter) (Z * list Event) :=
  λ s,
    let '(from, (to, amt)) := msg in
    match ConsumeGas 20 "send" (s.2) with
    | (Panic p, g) => (Panic p, (s.1, g))
    | (_, g) =>
        if amt =? 13 then (Panic "unlucky", (∅, g))
        else if ex_balance from (s.1) <? amt then (Err "insufficient funds", (s.1, g))
        else (Ok (amt, [NewEvent "transfer" [NewAttribute "amount" (pretty amt)]]),
              (<[to := ex_balance to (s.1) + amt]> (<[from := ex_balance from (s.1) - amt]> (s.1)), g))
    end.

Definition ex_params : ConsensusParams := mkConsensusParams (Some (mkBlockParams 1000 100)) None.
#[export] Instance ex_config : AppConfig := {|
  chainID := "example";
  minGasPrices := [];
  sigverifyTx := true;
  haltHeight := 0;
  haltTime := 0;
  minRetainBlocks := 0;
  indexEvents := ∅;
  msgServiceRouter := mkMsgServiceRouter {["/example.bank.MsgSend" := ex_send]} None;
  paramStore := Some (mkParamStore (λ _ g, (Ok ex_params, g)) (λ _ s, (Ok tt, s)));
  runTxRecoveryMiddleware := AddRunTxRecoveryHandler newDefaultRecoveryMiddleware [];
  txDecoder := ex_decode;
  txEncoder := ex_encode;
  GetMsgs := λ tx, (λ m, (ex_from tx, m)) <$> ex_msgs tx;
  GetReflectMessages := λ tx, Ok ((λ _, ex_from tx) <$> ex_msgs tx);
  GetGas := λ tx, Some (Z.abs (ex_gas tx) mod 2 ^ 64);
  MsgTypeURL := λ _, "/example.bank.MsgSend";
  HasValidateBasic := λ msg, Some (guard_err (msg.2.2 <? 0) "negative amount");
  GetReflectMsgSigners := λ m, Ok [Some m];
  AddressBytesToString := Ok;
  NewAnyWithValue := Ok;
  MarshalTxMsgData := λ l, Ok (pretty (length l));
  anteHandler := Some ex_ante;
  postHandler := None
|}.
#[export] Instance ex_proposals : ProposalConfig := {|
  ComputeProtoSizeForTx := λ bz, Z.of_nat (String.length bz);
  GetSigners := λ tx, Ok [mkSignerData (ex_from tx) (ex_seq tx)];
  GetUnordered := λ _, false
|}.
#[export] Instance ex_blocks : BlockConfig := {|
  WorkingHash_of := λ h ms, pretty (length h * 1000 + size ms)%nat;
  sort_ValidatorUpdates := id;
  snapshotRetention := None;
  initChainer := Some (λ _ _ ms, (Ok (None, []), <["alice" := 100]> ms));
  preBlocker := None;
  beginBlocker := Some (λ _ ms, (Ok [NewEvent "mint" []], <["minted" := ex_balance "minted" ms + 1]> ms));
  endBlocker := None;
  precommiter := None;
  prepareCheckStater := None;
  prepareProposal := Some PrepareProposalHandler;
  processProposal := Some ProcessProposalHandler
|}.

Definition ex_node (mp : list ExTx) : BaseApp := mkBaseApp (mkCommitMultiStore ∅ 0 0 "" []) 0 None None None None mp.
Definition ex_init : InitChainRequest := mkInitChainRequest 0 "example" None [] "" 5.
Definition ex_block (height : Z) (txs : list string) : FinalizeBlockRequest :=
  mkFinalizeBlockRequest txs zero_CommitInfo [] "h" height (height * 10 ^ 9) "v" "p".
Definition ex_process (height : Z) (txs : list string) : ProcessProposalRequest :=
  mkProcessProposalRequest txs zero_CommitInfo [] "h" height (height * 10 ^ 9) "v" "p".
Definition ex_prepare (height : Z) (txs : list string) : PrepareProposalRequest :=
  mkPrepareProposalRequest 100 txs (mkExtendedCommitInfo 0 []) [] height (height * 10 ^ 9) "v" "p".

(** The results of the transactions of a block, and balances after it. *)
Definition tx_errors (r : outcome (FinalizeBlockResponse * Z * CommitMultiStore)) : option (list (option string)) :=
  match r with Ok (res, _, _) => Some (er_err <$> fbr_TxResults res) | _ => None end.
