(* ===== verification/BaseAppProps.v ===== *)
(** * BaseAppProps: a transaction is all or nothing, and pays for its block gas

    The reference [tx_reference] runs the stages of a transaction on plain
    values; [deliver_tx_reference] shows that [runTx], with its deferred calls
    and its recovery, ends in the store of the reference. *)
From S2P Require Import Prelude KVStore Gas Coin DecCoin SdkContext BaseApp ABCI Proposals BaseAppExample.

(** ** Recovery *)

Lemma process_default_reports m : ∀ hs p, (∀ q, is_Some (processRecovery q m)) → is_Some (processRecovery p (AddRunTxRecoveryHandler m hs)).
Proof.
  intros hs. revert m. induction hs as [|h hs IH]; intros m p Hm; [apply Hm|]. apply IH. intros q. cbn [processRecovery].
  destruct (h q); [by eexists|apply Hm].
Qed.
(** Whatever handlers are added, a panic becomes an error; running out of gas
    becomes [ErrOutOfGas] before any added handler sees it. *)
Lemma recovery_reports hs p :
  is_Some (processRecovery p (newOutOfGasRecoveryMiddleware (AddRunTxRecoveryHandler newDefaultRecoveryMiddleware hs))).
Proof.
  cbn [processRecovery newOutOfGasRecoveryMiddleware]. destruct (is_ErrorOutOfGas p); [by eexists|].
  apply process_default_reports. intros q. by eexists.
Qed.
Lemma recovery_out_of_gas desc m :
  processRecovery (ErrorOutOfGas desc) (newOutOfGasRecoveryMiddleware m) = Some ErrOutOfGas.
Proof. by destruct desc. Qed.

Section Reference.
Context `{AppConfig} {HM : MempoolOps}.
Implicit Types (ctx : Context) (g : GasMeter) (ms : MultiStore) (tx : Tx) (r : TxRun).

(** ** The stages of a transaction *)

Definition decode_tx (txBytes : string) : option Tx :=
  match txDecoder txBytes with Ok tx => Some tx | _ => None end.
(** The context, the gas meter and the store the ante handler leaves. *)
Definition ante_stage tx ctx g ms : option (Context * GasMeter * MultiStore) :=
  match anteHandler with
  | None => Some (ctx, g, ms)
  | Some ante =>
      match ante (WithEventManager [] ctx) tx (ms, g) with
      | (Ok a, (ms1, g1)) =>
          match ante_err a, ante_newCtx a with
          | None, None => Some (ctx, g1, ms1)
          | None, Some (c, g2) => Some (WithBlockGasMeter (ctx_blockGasMeter ctx) c, g2, ms1)
          | Some _, _ => None
          end
      | _ => None
      end
  end.
Definition mempool_stage tx (mp : Mempool) : bool :=
  match (mp_Remove tx mp).1 with Ok _ => true | Err e => str_eq e ErrTxNotFound | Panic _ => false end.
Definition messages_stage tx ctx g ms : option (GasMeter * MultiStore) :=
  match GetReflectMessages tx with
  | Ok reflectMsgs =>
      match runMsgs ctx (GetMsgs tx) reflectMsgs execModeFinalize (ms, g) with
      | (Ok _, (ms1, g1)) => Some (g1, ms1)
      | _ => None
      end
  | _ => None
  end.
Definition post_stage tx ctx g ms : option (GasMeter * MultiStore) :=
  match postHandler with
  | None => Some (g, ms)
  | Some post =>
      match post (WithEventManager [] ctx) tx true (ms, g) with
      | (Ok _, (ms1, g1)) => Some (g1, ms1)
      | _ => None
      end
  end.
Definition gas_stage (bm : GasMeter) g : bool := is_ok (ConsumeGas (GasConsumedToLimit g) "block gas meter" bm).1.

(** The store after the stages that follow the ante handler, if all succeed. *)
Definition after_ante tx ctx g ms (mp : Mempool) (bm : GasMeter) : option MultiStore :=
  if mempool_stage tx mp then
    '(g, ms) ← messages_stage tx ctx g ms;
    '(g, ms) ← post_stage tx ctx g ms;
    if gas_stage bm g then Some ms else None
  else None.
(** Whether the transaction commits, and the store it leaves. *)
Definition tx_reference (txBytes : string) ctx g ms (mp : Mempool) (bm : GasMeter) : bool * MultiStore :=
  match decode_tx txBytes with
  | Some tx =>
      if is_ok (validateBasicTxMsgs msgServiceRouter (GetMsgs tx)) then
        match ante_stage tx ctx g ms with
        | Some (ctx1, g1, ms1) =>
            match after_ante tx ctx1 g1 ms1 mp bm with Some ms2 => (true, ms2) | None => (false, ms1) end
        | None => (false, ms)
        end
      else (false, ms)
  | None => (false, ms)
  end.

(** ** The stages of the program *)

(** What the later stages rely on. *)
Definition pending (bm : GasMeter) r : Prop :=
  run_blockMeter r = Some bm ∧ run_blockGasConsumed r = false.
(** A stage that failed in [r'] and had not touched store and block gas. *)
Definition failed {A} (bm : GasMeter) ms (x : outcome A * TxRun) : Prop :=
  is_ok x.1 = false ∧ run_ms x.2 = ms ∧ pending bm x.2.

Lemma adopt_ctx_frame bm newCtx g r : pending bm r →
  pending bm (adopt_ctx newCtx g r) ∧ run_ms (adopt_ctx newCtx g r) = run_ms r ∧ run_mempool (adopt_ctx newCtx g r) = run_mempool r.
Proof. intros [Hb Hc]. by destruct newCtx as [[c g']|]. Qed.

Lemma run_ante_stage tx bm r : pending bm r → ctx_blockGasMeter (run_ctx r) = Some bm →
  match ante_stage tx (run_ctx r) (run_meter r) (run_ms r) with
  | Some (ctx1, g1, ms1) => ∃ r', run_ante execModeFinalize tx r = (Ok tt, r') ∧ pending bm r' ∧ run_ctx r' = ctx1 ∧
      run_meter r' = g1 ∧ run_ms r' = ms1 ∧ run_mempool r' = run_mempool r
  | None => failed bm (run_ms r) (run_ante execModeFinalize tx r)
  end.
Proof.
  intros Hp Hbm. unfold ante_stage, run_ante. destruct anteHandler as [ante|]; [|by exists r].
  destruct (ante (WithEventManager [] (run_ctx r)) tx (run_ms r, run_meter r)) as [res [ms1 g1]].
  destruct res as [a|e|p]; [|by repeat split; apply Hp|by repeat split; apply Hp].
  destruct (adopt_ctx_frame bm (ante_newCtx a) g1 r Hp) as ([Hb Hc] & Hms & Hmp).
  destruct (ante_err a) as [err|]; [by repeat split|].
  destruct (ante_newCtx a) as [[c g2]|]; eexists; (split; [reflexivity|]); cbn in *; repeat split; try done; congruence.
Qed.

Lemma update_mempool_stage tx bm r : pending bm r →
  if mempool_stage tx (run_mempool r)
  then ∃ r', update_mempool execModeFinalize tx r = (Ok tt, r') ∧ pending bm r' ∧ run_ctx r' = run_ctx r ∧
    run_meter r' = run_meter r ∧ run_ms r' = run_ms r
  else failed bm (run_ms r) (update_mempool execModeFinalize tx r).
Proof.
  intros [Hb Hc]. unfold mempool_stage, update_mempool, on_mempool. destruct (mp_Remove tx (run_mempool r)) as [[u|e|p] mp']; cbn [fst].
  - destruct u. eexists. by repeat split.
  - destruct (str_eq e ErrTxNotFound); [eexists; by repeat split|by repeat split].
  - by repeat split.
Qed.

Lemma run_messages_stage tx bm r : pending bm r →
  let x := run_messages execModeFinalize tx (GetMsgs tx) r in
  match messages_stage tx (run_ctx r) (run_meter r) (run_ms r) with
  | Some (g1, ms1) => ∃ result r', x = (Ok (ms1, Some result, None), r') ∧ pending bm r' ∧ run_ctx r' = run_ctx r ∧
      run_meter r' = g1 ∧ run_ms r' = run_ms r
  | None => failed bm (run_ms r) x ∨
      ∃ ms1 err r', x = (Ok (ms1, None, Some err), r') ∧ pending bm r' ∧ run_ms r' = run_ms r
  end.
Proof.
  intros [Hb Hc]. unfold messages_stage, run_messages. cbn zeta. unfold mbind, GoM_bind, liftM.
  destruct (GetReflectMessages tx) as [refl|e|p]; [|right; by repeat eexists|left; by repeat split].
  destruct (runMsgs (run_ctx r) (GetMsgs tx) refl execModeFinalize (run_ms r, run_meter r)) as [[result|e|p] [ms1 g1]].
  - eexists _, _. by repeat split.
  - right. by repeat eexists.
  - left. by repeat split.
Qed.

Lemma run_post_failed tx bm r ms1 err : pending bm r →
  let x := run_post tx (ms1, None, Some err) r in
  failed bm (run_ms r) x ∨ ∃ ms2 result r', x = (Ok (ms2, result, Some err), r') ∧ pending bm r' ∧ run_ms r' = run_ms r.
Proof.
  intros [Hb Hc]. unfold run_post. destruct postHandler as [post|]; [|right; by repeat eexists].
  destruct (post _ tx _ (ms1, run_meter r)) as [[ev|e|p] [ms2 g2]]; [right; by repeat eexists|left; by repeat split|left; by repeat split].
Qed.
Lemma run_post_stage tx bm r ms1 result : pending bm r →
  let x := run_post tx (ms1, Some result, None) r in
  match post_stage tx (run_ctx r) (run_meter r) ms1 with
  | Some (g2, ms2) => ∃ result' r', x = (Ok (ms2, Some result', None), r') ∧ pending bm r' ∧ run_meter r' = g2 ∧ run_ms r' = run_ms r
  | None => failed bm (run_ms r) x
  end.
Proof.
  intros [Hb Hc]. unfold run_post, post_stage. destruct postHandler as [post|]; [|by repeat eexists].
  rewrite bool_decide_true by done.
  destruct (post _ tx true (ms1, run_meter r)) as [[ev|e|p] [ms2 g2]]; [by repeat eexists|by repeat split|by repeat split].
Qed.
Lemma consumeBlockGas_pending bm r : pending bm r →
  consumeBlockGas r = ((ConsumeGas (GasConsumedToLimit (run_meter r)) "block gas meter" bm).1,
    set_run_blockMeter (Some (ConsumeGas (GasConsumedToLimit (run_meter r)) "block gas meter" bm).2) true r).
Proof. intros [Hb Hc]. unfold consumeBlockGas. rewrite Hc, Hb. by destruct (ConsumeGas _ _ bm). Qed.

(** ** The deferred calls *)

Lemma failed_bind {A B} bm ms (m : GoM TxRun A) (k : A → GoM TxRun B) r : failed bm ms (m r) → failed bm ms ((m ≫= k) r).
Proof. unfold failed, mbind, GoM_bind. intros (Hok & ? & ?). by destruct (m r) as [[a|e|p] r']. Qed.
Lemma failed_liftM {A} bm r (m : outcome A) : pending bm r → is_ok m = false → failed bm (run_ms r) (liftM m r).
Proof. intros Hp Hm. by split. Qed.

(** The outcome of [runTx] before recovery: the store, the block gas consumed
    once from the final gas meter, and whether it is a success. *)
Definition settled (bm : GasMeter) (committed : bool) ms (x : outcome (option Result * option string) * TxRun) : Prop :=
  let y := defer_consumeBlockGas execModeFinalize x in
  let gas := ConsumeGas (GasConsumedToLimit (run_meter y.2)) "block gas meter" bm in
  run_ms y.2 = ms ∧ run_blockMeter y.2 = Some (gas.2) ∧
  if committed then is_ok (gas.1) = true ∧ ∃ result, y.1 = Ok (Some result, None) else ∀ result, y.1 ≠ Ok (result, None).

Lemma pending_settled bm x : pending bm x.2 → (∀ result, x.1 ≠ Ok (result, None)) → settled bm false (run_ms x.2) x.
Proof.
  intros Hp Hx. destruct x as [res r]. unfold settled, defer_consumeBlockGas. rewrite decide_True by done. cbn [fst snd] in *.
  rewrite (consumeBlockGas_pending _ _ Hp). destruct (ConsumeGas _ _ bm) as [[u|e|p] bm'] eqn:E; cbn [fst snd]; cbn; rewrite E; by repeat split.
Qed.
Lemma failed_settled bm ms x : failed bm ms x → settled bm false ms x.
Proof.
  intros (Hok & <- & Hp). apply pending_settled; [done|]. intros result E. rewrite E in Hok. done.
Qed.
Lemma commit_settled bm r ms1 result : pending bm r →
  let ok := gas_stage bm (run_meter r) in
  settled bm ok (if ok then ms1 else run_ms r) (commit_tx execModeFinalize (ms1, Some result, None) r).
Proof.
  intros Hp. unfold gas_stage, commit_tx. rewrite decide_True by done. cbn zeta. unfold mbind, GoM_bind.
  rewrite (consumeBlockGas_pending _ _ Hp). destruct (ConsumeGas _ _ bm) as [[u|e|p] bm'] eqn:E; cbn [fst snd is_ok];
    unfold settled, defer_consumeBlockGas; rewrite decide_True by done; cbn; rewrite E; repeat split; try done.
  by eexists.
Qed.

Lemma tx_body_settled txBytes bm r : pending bm r → ctx_blockGasMeter (run_ctx r) = Some bm →
  let ref := tx_reference txBytes (run_ctx r) (run_meter r) (run_ms r) (run_mempool r) bm in
  settled bm (ref.1) (ref.2) (tx_body execModeFinalize txBytes None r).
Proof.
  intros Hp Hbm. unfold tx_reference, decode_tx, tx_body. cbn zeta.
  destruct (txDecoder txBytes) as [tx|e|p]; [|by apply failed_settled, failed_bind, failed_liftM|by apply failed_settled, failed_bind, failed_liftM].
  change (liftM (Ok tx) ≫= ?k) with (λ s, k tx s) || rewrite (liftM_bind_run _ _ tx) by done. cbn beta.
  rewrite decide_False by done.
  destruct (validateBasicTxMsgs msgServiceRouter (GetMsgs tx)) as [u|e|p] eqn:Ev; cbn [is_ok];
    [|by apply failed_settled, failed_bind, failed_liftM|by apply failed_settled, failed_bind, failed_liftM].
  rewrite (liftM_bind_run _ _ u) by done.
  pose proof (run_ante_stage tx bm r Hp Hbm) as Ha. destruct (ante_stage tx _ _ _) as [[[ctx1 g1] ms1]|]; [|by apply failed_settled, failed_bind].
  destruct Ha as (r1 & Ea & Hp1 & <- & <- & <- & Hmp1). rewrite (GoM_bind_run _ _ _ _ _ Ea). unfold after_ante. rewrite <- Hmp1.
  pose proof (update_mempool_stage tx bm r1 Hp1) as Hm. destruct (mempool_stage tx _); [|by apply failed_settled, failed_bind].
  destruct Hm as (r2 & Em & Hp2 & <- & <- & <-). rewrite (GoM_bind_run _ _ _ _ _ Em).
  pose proof (run_messages_stage tx bm r2 Hp2) as Hr. cbn zeta in Hr. destruct (messages_stage tx _ _ _) as [[g3 ms3]|].
  2: { destruct Hr as [Hr|(ms3 & err & r3 & Er & Hp3 & <-)]; [by apply failed_settled, failed_bind|].
       rewrite (GoM_bind_run _ _ _ _ _ Er). destruct (run_post_failed tx bm r3 ms3 err Hp3) as [Hf|(ms4 & result & r4 & E4 & Hp4 & <-)];
         [by apply failed_settled, failed_bind|]. rewrite (GoM_bind_run _ _ _ _ _ E4). by apply pending_settled. }
  destruct Hr as (result & r3 & Er & Hp3 & Hctx & <- & Hms). rewrite (GoM_bind_run _ _ _ _ _ Er). cbn [mbind option_bind].
  pose proof (run_post_stage tx bm r3 ms3 result Hp3) as Hpost. cbn zeta in Hpost. rewrite Hctx in Hpost.
  destruct (post_stage tx _ _ ms3) as [[g4 ms4]|]; [|rewrite <- Hms; by apply failed_settled, failed_bind].
  destruct Hpost as (result' & r4 & E4 & Hp4 & <- & Hms4). rewrite (GoM_bind_run _ _ _ _ _ E4).
  pose proof (commit_settled bm r4 ms4 result' Hp4) as Hc. cbn zeta in Hc. rewrite <- Hms, <- Hms4.
  cbn [mbind option_bind]. destruct (gas_stage bm (run_meter r4)); exact Hc.
Qed.

(** ** Recovery and the result *)

(** The middleware [NewBaseApp] and [AddRunTxRecoveryHandler] build. *)
Definition standard_recovery : Prop :=
  ∃ hs, runTxRecoveryMiddleware = AddRunTxRecoveryHandler newDefaultRecoveryMiddleware hs.

Lemma defer_recover_err x : standard_recovery →
  (tx_err (defer_recover x) = None ↔ ∃ result, x.1 = Ok (result, None)) ∧
  (∀ result, x.1 = Ok (result, None) → tx_result (defer_recover x) = result).
Proof.
  intros [hs Hrec]. destruct x as [[[result err]|e|p] r]; cbn [fst defer_recover tx_err tx_result].
  - split; [|by intros ? [= ->]]. split; [intros ->; by eexists|by intros (? & [=])].
  - split; [|done]. split; [done|by intros (? & [=])].
  - unfold defer_recover. rewrite Hrec. destruct (recovery_reports hs p) as [e ->]. cbn [tx_err]. split; [|done].
    split; [done|by intros (? & [=])].
Qed.
Lemma defer_recover_gas x : tx_gInfo (defer_recover x) = mkGasInfo (run_gasWanted x.2) (GasConsumed (run_meter x.2)).
Proof. destruct x as [res r]. unfold defer_recover. by destruct res as [[result err]|e|p]. Qed.

(** [runTx] of a transaction, for which there is block gas left. *)
Lemma runTx_settled txBytes st mp ctx g bm :
  standard_recovery →
  getContextForTx execModeFinalize txBytes (Some st) = Ok (ctx, g) →
  ctx_blockGasMeter ctx = Some bm → IsOutOfGas bm = false →
  let ref := tx_reference txBytes ctx g (st_ms st) mp bm in
  ∃ ret st' mp' gtx, runTx execModeFinalize txBytes None (Some st, mp) = (Ok ret, (Some st', mp')) ∧
    let gas := ConsumeGas (GasConsumedToLimit gtx) "block gas meter" bm in
    st_ms st' = ref.2 ∧ (tx_err ret = None ↔ ref.1 = true) ∧
    gi_GasUsed (tx_gInfo ret) = GasConsumed gtx ∧ st_ctx st' = WithBlockGasMeter (Some (gas.2)) (st_ctx st) ∧
    (tx_err ret = None → is_Some (tx_result ret) ∧ is_ok (gas.1) = true) ∧
    gtx = run_meter (defer_consumeBlockGas execModeFinalize
            (tx_body execModeFinalize txBytes None (mkTxRun (st_ms st) ctx g (ctx_blockGasMeter ctx) mp 0 [] false))).2.
Proof.
  intros Hrec Hctx Hbm Hgas. cbn zeta. unfold runTx. rewrite Hctx, decide_True by done. rewrite Hbm, Hgas.
  set (x := defer_consumeBlockGas _ _). set (r0 := mkTxRun _ _ _ _ _ _ _ _) in x.
  assert (settled bm (tx_reference txBytes ctx g (st_ms st) mp bm).1 (tx_reference txBytes ctx g (st_ms st) mp bm).2
            (tx_body execModeFinalize txBytes None r0)) as (Hms & Hb & Hres) by (by apply tx_body_settled).
  fold x in Hms, Hb, Hres. destruct (defer_recover_err x Hrec) as [Herr Hresult].
  eexists _, _, _, (run_meter x.2). split; [reflexivity|]. cbn [st_ms st_ctx]. rewrite Hb, defer_recover_gas.
  split; [done|]. destruct (tx_reference txBytes ctx g (st_ms st) mp bm).1.
  - destruct Hres as [Hok [result Ex]]. split; [split; [done|]; intros _; apply Herr; by eexists|].
    do 2 (split; [done|]). split; [|done]. intros _. split; [|done]. rewrite (Hresult _ Ex). by eexists.
  - assert (tx_err (defer_recover x) ≠ None) as Hne by (intros [result Ex]%Herr; by apply (Hres result)).
    split; [by split; [intros ?%Hne|]|]. do 2 (split; [done|]). split; [by intros ?%Hne|done].
Qed.

(** C6. Delivering a transaction in a block is all or nothing.  [runTx] never
    fails itself: it agrees with the stages of [tx_reference], whether they
    return an error or panic.  The store is the one before the transaction if
    decoding, validation or the ante handler refuses it, the one the ante
    handler left if anything later goes wrong, and the one after all messages
    and the post handler exactly when no error is reported, in which case the
    gas fits in the block.  The gas used is reported and charged to the block
    gas meter once in all of these cases. *)
Theorem deliver_tx_all_or_nothing txBytes st mp ctx g bm :
  standard_recovery →
  getContextForTx execModeFinalize txBytes (Some st) = Ok (ctx, g) →
  ctx_blockGasMeter ctx = Some bm → IsOutOfGas bm = false →
  let ref := tx_reference txBytes ctx g (st_ms st) mp bm in
  ∃ ret st' mp' gtx, runTx execModeFinalize txBytes None (Some st, mp) = (Ok ret, (Some st', mp')) ∧
    let gas := ConsumeGas (GasConsumedToLimit gtx) "block gas meter" bm in
    st_ms st' = ref.2 ∧ (tx_err ret = None ↔ ref.1 = true) ∧
    gi_GasUsed (tx_gInfo ret) = GasConsumed gtx ∧ st_ctx st' = WithBlockGasMeter (Some (gas.2)) (st_ctx st) ∧
    (tx_err ret = None → is_Some (tx_result ret) ∧ is_ok (gas.1) = true).
Proof.
  intros Hrec Hctx Hbm Hgas. destruct (runTx_settled txBytes st mp ctx g bm Hrec Hctx Hbm Hgas) as (ret & st' & mp' & gtx & H1 & H2 & H3 & H4 & H5 & H6 & _).
  by exists ret, st', mp', gtx.
Qed.
End Reference.

(** A payment in the example application commits; a panicking message leaves
    what the ante handler wrote. *)
Definition ex_state : ModeState :=
  mkModeState {["alice" := 100]} (WithBlockGasMeter (Some (NewGasMeter 100)) (NewContext false)).
Lemma ex_standard_recovery : standard_recovery.
Proof. by exists []. Qed.
Lemma deliver_tx_all_or_nothing_witness :
  ∃ ret st' mp', runTx execModeFinalize "pay" None (Some ex_state, []) = (Ok ret, (Some st', mp')) ∧
    tx_err ret = None ∧ ex_balance "bob" (st_ms st') = 5.
Proof.
  destruct (deliver_tx_all_or_nothing "pay" ex_state [] _ _ _ ex_standard_recovery eq_refl eq_refl eq_refl)
    as (ret & st' & mp' & gtx & E & Hms & Herr & Hgas & Hctx & _).
  exists ret, st', mp'. split; [exact E|]. split; [apply Herr; vm_compute; reflexivity|].
  rewrite Hms. vm_compute. reflexivity.
Defined.
Example panic_keeps_ante :
  match runTx execModeFinalize "panic" None (Some (mkModeState (<["seq/alice" := 1]> (st_ms ex_state)) (st_ctx ex_state)), []) with
  | (Ok ret, (Some st', _)) => tx_err ret = Some ErrPanic ∧ st_ms st' !! "seq/alice" = Some 2 ∧ st_ms st' !! "alice" = Some 100
  | _ => False
  end.
Proof. vm_compute. repeat split. Qed.
