(* ===== verification/ABCIProps.v ===== *)
(** * ABCIProps: what a node does locally does not reach the committed state

    Two nodes that got the same [InitChain], [FinalizeBlock] and [Commit] calls
    commit the same states and give the same responses, whatever [CheckTx],
    [PrepareProposal] and [ProcessProposal] calls each of them got in
    between and whatever is in their mempools.  The proof is by an
    equivalence of nodes, coarser than equality, that the calls respect. *)
From S2P Require Import Prelude KVStore Gas Coin DecCoin SdkContext BaseApp ABCI Proposals BaseAppExample BaseAppProps Hoare.

(** ** Computations that respect an equivalence of states *)

Section Respects.
Context {S : Type} (R : S → S → Prop) {HR : Equivalence R}.

Definition res_eq {A} (x y : outcome A * S) : Prop := x.1 = y.1 ∧ R x.2 y.2.
Definition respects {A} (m : GoM S A) : Prop := ∀ s1 s2, R s1 s2 → res_eq (m s1) (m s2).

Lemma respects_ret {A} (a : A) : respects (mret a).
Proof. by split. Qed.
Lemma respects_liftM {A} (m : outcome A) : respects (liftM m).
Proof. by split. Qed.
Lemma respects_errM {A} e : respects (errM (A:=A) e).
Proof. by split. Qed.
Lemma respects_panicM {A} e : respects (panicM (A:=A) e).
Proof. by split. Qed.
Lemma respects_modifyM f : (∀ s1 s2, R s1 s2 → R (f s1) (f s2)) → respects (modifyM f).
Proof. intros Hf s1 s2 H. split; [done|]. by apply Hf. Qed.
Lemma respects_readM {A} (f : S → A) : (∀ s1 s2, R s1 s2 → f s1 = f s2) → respects (readM f).
Proof. intros Hf s1 s2 H. split; [|done]. cbn. by rewrite (Hf s1 s2). Qed.
Lemma respects_bind {A B} (m : GoM S A) (k : A → GoM S B) : respects m → (∀ a, respects (k a)) → respects (m ≫= k).
Proof.
  intros Hm Hk s1 s2 H. destruct (Hm s1 s2 H) as [E HR']. unfold mbind, GoM_bind.
  destruct (m s1) as [x1 t1], (m s2) as [x2 t2]. cbn [fst snd] in *. subst x2. destruct x1; [by apply Hk|by split|by split].
Qed.
Lemma respects_with_defer {A} (m : GoM S A) (d : GoM S unit) : respects m → respects d → respects (with_defer m d).
Proof.
  intros Hm Hd s1 s2 H. destruct (Hm s1 s2 H) as [E HR']. unfold with_defer. destruct (m s1) as [x1 t1], (m s2) as [x2 t2].
  cbn [fst snd] in *. destruct (Hd t1 t2 HR') as [E' HR'']. destruct (d t1) as [y1 u1], (d t2) as [y2 u2]. cbn [fst snd] in *.
  subst. destruct y2; by split.
Qed.
End Respects.

Create HintDb respects discriminated.
#[export] Hint Resolve respects_ret respects_liftM respects_errM respects_panicM : respects.
#[export] Hint Extern 1 (respects _ (_ ≫= _)) => (apply respects_bind; [|intros ?]) : respects.
#[export] Hint Extern 1 (respects _ (match ?x with _ => _ end)) => destruct x : respects.
#[export] Hint Extern 1 (respects _ (if ?x then _ else _)) => destruct x : respects.

(** A mempool may refuse to remove a transaction only for reasons that do not
    depend on what it holds; [Finalize] would otherwise give different results
    on different nodes. *)
Definition removal_outcome {A} (x : outcome A) : outcome unit :=
  match x with Ok _ => Ok tt | Err e => if str_eq e ErrTxNotFound then Ok tt else Err e | Panic p => Panic p end.
Class MempoolLaws `{HM : MempoolOps} : Prop :=
  removal_agrees : ∀ tx mp1 mp2, removal_outcome (mp_Remove tx mp1).1 = removal_outcome (mp_Remove tx mp2).1.

(** ** Transactions do not look into the mempool *)

Section Mempool.
Context `{AppConfig} {HM : MempoolOps} {ML : MempoolLaws}.

(** Equal up to the mempool. *)
Definition mp_eq (r1 r2 : TxRun) : Prop := ∃ mp, r2 = set_run_mempool mp r1.
#[global] Instance mp_eq_equivalence : Equivalence mp_eq.
Proof.
  split.
  - intros r. exists (run_mempool r). by destruct r.
  - intros r1 r2 [mp ->]. exists (run_mempool r1). by destruct r1.
  - intros r1 r2 r3 [mp ->] [mp' ->]. by exists mp'.
Qed.

Lemma consumeBlockGas_respects : respects mp_eq consumeBlockGas.
Proof.
  intros r1 r2 [mp ->]. unfold consumeBlockGas. cbn. destruct (run_blockGasConsumed r1); [by repeat split; exists mp|].
  destruct (run_blockMeter r1) as [bm|]; [|by repeat split; exists mp].
  destruct (ConsumeGas _ _ bm) as [x bm']. split; [done|]. by exists mp.
Qed.
Lemma run_ante_respects tx : respects mp_eq (run_ante execModeFinalize tx).
Proof.
  intros r1 r2 [mp ->]. unfold run_ante. destruct anteHandler as [ante|]; [|by split; [|exists mp]]. cbn [run_ctx run_ms run_meter set_run_mempool].
  destruct (ante _ tx _) as [[a|e|p] [ms g]]; [|by split; [|exists mp]|by split; [|exists mp]].
  destruct (ante_newCtx a) as [[c g']|]; destruct (ante_err a); by split; [|exists mp].
Qed.
Lemma update_mempool_respects tx : respects mp_eq (update_mempool execModeFinalize tx).
Proof.
  intros r1 r2 [mp ->]. unfold update_mempool, on_mempool. cbn [run_mempool set_run_mempool].
  pose proof (removal_agrees tx (run_mempool r1) mp) as Hagree.
  destruct (mp_Remove tx (run_mempool r1)) as [[[]|e1|p1] mp1], (mp_Remove tx mp) as [[[]|e2|p2] mp2]; cbn in Hagree |- *;
    repeat case_match; simplify_eq; (split; [done|by exists mp2]).
Qed.
Lemma run_messages_respects tx msgs : respects mp_eq (run_messages execModeFinalize tx msgs).
Proof.
  intros r1 r2 [mp ->]. unfold run_messages. cbn [run_ctx run_ms run_meter set_run_mempool].
  match goal with |- context [let '(_, _) := ?m in _] => destruct m as [[result|e|p] [ms g]] end; by split; [|exists mp].
Qed.
Lemma run_post_respects tx x : respects mp_eq (run_post tx x).
Proof.
  intros r1 r2 [mp ->]. unfold run_post. destruct postHandler as [post|]; [|by split; [|exists mp]].
  destruct x as [[ms result] err]. cbn [run_ctx run_meter set_run_mempool].
  destruct (post _ tx _ _) as [[ev|e|p] [ms' g]]; by split; [|exists mp].
Qed.
Lemma commit_tx_respects x : respects mp_eq (commit_tx execModeFinalize x).
Proof.
  destruct x as [[ms result] [err|]]; unfold commit_tx; [eauto using respects_ret|]. rewrite decide_True by done.
  apply respects_bind; [apply consumeBlockGas_respects|]. intros _. apply respects_bind.
  { apply respects_modifyM. intros r1 r2 [mp ->]. by exists mp. }
  intros _. apply respects_bind; [|eauto using respects_ret]. apply respects_readM. by intros r1 r2 [mp ->].
Qed.
Lemma tx_body_respects txBytes : respects mp_eq (tx_body execModeFinalize txBytes None).
Proof.
  unfold tx_body. apply respects_bind; [apply respects_liftM; apply _|]. intros tx. apply respects_bind; [apply respects_liftM; apply _|].
  intros _. apply respects_bind; [apply run_ante_respects|]. intros _. apply respects_bind; [apply update_mempool_respects|].
  intros _. apply respects_bind; [apply run_messages_respects|]. intros x. apply respects_bind; [apply run_post_respects|apply commit_tx_respects].
Qed.

(** Equal states of the mode. *)
Definition st_eq (s1 s2 : option ModeState * Mempool) : Prop := s1.1 = s2.1.
#[global] Instance st_eq_equivalence : Equivalence st_eq.
Proof. unfold st_eq. split; congruence. Qed.

Lemma defer_consumeBlockGas_respects {A} (x1 x2 : outcome A * TxRun) :
  res_eq mp_eq x1 x2 → res_eq mp_eq (defer_consumeBlockGas execModeFinalize x1) (defer_consumeBlockGas execModeFinalize x2).
Proof.
  intros [E HR]. unfold defer_consumeBlockGas. rewrite !decide_True by done.
  destruct (consumeBlockGas_respects _ _ HR) as [E' HR']. destruct (consumeBlockGas x1.2) as [y1 t1], (consumeBlockGas x2.2) as [y2 t2].
  cbn [fst snd] in *. subst y2. by destruct y1.
Qed.
Lemma defer_recover_respects x1 x2 : res_eq mp_eq x1 x2 → defer_recover x1 = defer_recover x2.
Proof. intros [E [mp HR]]. destruct x1 as [y1 t1], x2 as [y2 t2]. cbn [fst snd] in *. by subst. Qed.

Lemma runTx_respects txBytes : respects st_eq (runTx execModeFinalize txBytes None).
Proof.
  intros [st mp1] [st' mp2] E. cbv [st_eq fst] in E. subst st'. unfold runTx.
  destruct (getContextForTx execModeFinalize txBytes st) as [[ctx g]|e|p]; [|by destruct st|by destruct st].
  destruct st as [st|]; [|by split]. rewrite !decide_True by done. destruct (ctx_blockGasMeter ctx) as [bm|]; [|by split].
  destruct (IsOutOfGas bm); [by split|]. set (r1 := mkTxRun _ _ _ _ mp1 _ _ _). set (r2 := mkTxRun _ _ _ _ mp2 _ _ _).
  assert (mp_eq r1 r2) as Hr by (by exists mp2).
  pose proof (defer_consumeBlockGas_respects _ _ (tx_body_respects txBytes r1 r2 Hr)) as Hx.
  split; cbn [fst snd]; [f_equal; by apply defer_recover_respects|]. unfold st_eq. cbn [fst].
  destruct Hx as [_ [mp Hx]]. by rewrite Hx.
Qed.
Lemma deliverTx_respects txBytes : respects st_eq (deliverTx txBytes).
Proof.
  apply respects_bind; [apply runTx_respects|]. intros ret. cbn zeta. pose proof st_eq_equivalence as HE.
  destruct (tx_err ret) as [err|]; [eauto with respects|]. destruct (tx_result ret); eauto with respects.
Qed.
End Mempool.

(** ** Nodes that agree on the consensus state *)

Section Nodes.
Context `{AppConfig} {HM : MempoolOps} {HB : BlockConfig} {ML : MempoolLaws}.

(** Agreement on the committed versions and on the block being executed. *)
Definition agree (app1 app2 : BaseApp) : Prop :=
  app_cms app1 = app_cms app2 ∧ app_initialHeight app1 = app_initialHeight app2 ∧
  app_finalizeBlockState app1 = app_finalizeBlockState app2.
#[global] Instance agree_equivalence : Equivalence agree.
Proof.
  split.
  - by repeat split.
  - intros a1 a2 (? & ? & ?). by repeat split.
  - intros a1 a2 a3 (? & ? & ?) (? & ? & ?). repeat split; congruence.
Qed.

Lemma agree_setState app1 app2 h : agree app1 app2 → agree (setState execModeFinalize h app1) (setState execModeFinalize h app2).
Proof. intros (E1 & E2 & E3). unfold setState, agree. cbn. by rewrite E1, E2. Qed.
Lemma agree_put_state app1 app2 st : agree app1 app2 → agree (put_state execModeFinalize st app1) (put_state execModeFinalize st app2).
Proof. intros (E1 & E2 & E3). by repeat split. Qed.
Lemma agree_set_cms app1 app2 f : agree app1 app2 → agree (set_cms (f (app_cms app1)) app1) (set_cms (f (app_cms app2)) app2).
Proof. intros (E1 & E2 & E3). unfold agree. cbn. by rewrite E1, E2. Qed.

Lemma state_of_respects : respects agree (state_of execModeFinalize).
Proof. intros app1 app2 Ha. pose proof Ha as (E1 & E2 & E3). unfold state_of. cbn. rewrite E3. by destruct (app_finalizeBlockState app2). Qed.
Lemma SetContext_respects f : respects agree (SetContext execModeFinalize f).
Proof.
  apply respects_bind; [apply state_of_respects|]. intros st. apply respects_modifyM. intros app1 app2. apply agree_put_state.
Qed.
Lemma on_state_respects {A} (m : Context → GoM MultiStore A) : respects agree (on_state execModeFinalize m).
Proof.
  intros app1 app2 Ha. pose proof Ha as (E1 & E2 & E3). unfold on_state. cbn [getState]. rewrite E3.
  destruct (app_finalizeBlockState app2) as [st|]; [|by split]. destruct (m (st_ctx st) (st_ms st)) as [r ms].
  split; [done|]. by apply agree_put_state.
Qed.
Lemma on_txs_respects {A} (m : GoM (option ModeState * Mempool) A) : respects st_eq m → respects agree (on_txs execModeFinalize m).
Proof.
  intros Hm app1 app2 (E1 & E2 & E3). unfold on_txs. cbn [getState].
  destruct (Hm (app_finalizeBlockState app1, app_mempool app1) (app_finalizeBlockState app2, app_mempool app2)) as [E HR]; [done|].
  destruct (m _) as [x1 [st1 mp1]], (m (app_finalizeBlockState app2, _)) as [x2 [st2 mp2]]. unfold st_eq in HR. cbn [fst snd] in *.
  split; [done|]. unfold agree. cbn. by rewrite HR.
Qed.
(** What a node does to its other states. *)
Lemma silent_respects {A} (m : GoM BaseApp A) (a : A) : (∀ app, (m app).1 = Ok a ∧ agree app (m app).2) → respects agree m.
Proof.
  intros Hm app1 app2 Ha. destruct (Hm app1) as [E1 Ha1], (Hm app2) as [E2 Ha2]. split; [congruence|].
  by rewrite <- Ha1, <- Ha2.
Qed.
#[local] Hint Resolve state_of_respects SetContext_respects on_state_respects on_txs_respects deliverTx_respects agree_equivalence : respects.

Lemma deliver_txs_respects txs : ∀ i, respects agree (deliver_txs i txs).
Proof. induction txs as [|tx txs IH]; intros i; cbn [deliver_txs]; eauto 8 with respects. Qed.
Lemma preBlock_respects req : respects agree (preBlock req).
Proof. unfold preBlock. destruct preBlocker; eauto 12 with respects. Qed.
Lemma beginBlock_respects : respects agree beginBlock.
Proof. unfold beginBlock. destruct beginBlocker; eauto 8 with respects. Qed.
Lemma endBlock_respects : respects agree endBlock.
Proof. unfold endBlock. destruct endBlocker; eauto 8 with respects. Qed.
Lemma reset_block_meter_respects : respects agree reset_block_meter.
Proof. unfold reset_block_meter. eauto 8 with respects. Qed.
Lemma share_block_meter_respects req g : respects agree (share_block_meter req g).
Proof.
  apply (silent_respects _ tt). intros app. unfold share_block_meter. destruct (app_checkState app) as [st|] eqn:E; [|done].
  unfold SetContext, state_of, mbind, GoM_bind. cbn [getState]. rewrite E. by repeat split.
Qed.
Lemma workingHash_respects : respects agree workingHash.
Proof.
  unfold workingHash. apply respects_bind; [apply state_of_respects|]. intros st. apply respects_bind.
  - apply respects_modifyM. intros app1 app2. apply (agree_set_cms _ _ (cms_Write (st_ms st))).
  - intros _. apply respects_readM. by intros app1 app2 (-> & _).
Qed.
#[local] Hint Resolve deliver_txs_respects preBlock_respects beginBlock_respects endBlock_respects reset_block_meter_respects
  share_block_meter_respects workingHash_respects : respects.

(** ** Blocks *)

(** Same outcome, and related states after a success. *)
Definition yields {S A} (R : S → S → Prop) (x y : outcome A * S) : Prop := x.1 = y.1 ∧ (is_ok x.1 = true → R x.2 y.2).
Lemma yields_bind {S A B} (R1 R2 : S → S → Prop) (m : GoM S A) (k : A → GoM S B) s1 s2 :
  yields R1 (m s1) (m s2) → (∀ a t1 t2, R1 t1 t2 → yields R2 (k a t1) (k a t2)) → yields R2 ((m ≫= k) s1) ((m ≫= k) s2).
Proof.
  intros [E HR] Hk. unfold mbind, GoM_bind. destruct (m s1) as [x1 t1], (m s2) as [x2 t2]. cbn [fst snd] in *. subst x2.
  destruct x1; [apply Hk; by apply HR|by split|by split].
Qed.
Lemma yields_res_eq {S A} (R : S → S → Prop) (x y : outcome A * S) : res_eq R x y → yields R x y.
Proof. by intros [E HR]. Qed.
Lemma yields_liftM {S A} (R : S → S → Prop) (m : outcome A) s1 s2 : R s1 s2 → yields R (liftM m s1) (liftM m s2).
Proof. by split. Qed.

Lemma yields_getM {S A} (R : S → S → Prop) (k : S → GoM S A) s1 s2 :
  yields R (k s1 s1) (k s2 s2) → yields R ((getM ≫= k) s1) ((getM ≫= k) s2).
Proof. done. Qed.
Lemma respects_yields {S A} (R : S → S → Prop) (m : GoM S A) s1 s2 : respects R m → R s1 s2 → yields R (m s1) (m s2).
Proof. intros Hm HR. by apply yields_res_eq, Hm. Qed.

(** The state for the next block is not set, or a branch of the last commit
    that a proposal left. *)
Definition fresh_state (h : Header) (cms : CommitMultiStore) : ModeState :=
  mkModeState (cms_working cms)
    (WithHeaderInfo (mkHeaderInfo (hd_Height h) "" (hd_Time h) (hd_ChainID h) (hd_AppHash h)) (WithBlockHeader h (NewContext false))).
Definition fresh (app : BaseApp) : Prop :=
  app_finalizeBlockState app = None ∨ ∃ h, app_finalizeBlockState app = Some (fresh_state h (app_cms app)).
(** Nodes about to decide the block at [height]: in the first block both hold
    what [InitChain] left. *)
Definition ready (height : Z) (app1 app2 : BaseApp) : Prop :=
  app_cms app1 = app_cms app2 ∧ app_initialHeight app1 = app_initialHeight app2 ∧
  ((app_initialHeight app1 = height ∧ app_finalizeBlockState app1 = app_finalizeBlockState app2) ∨ (fresh app1 ∧ fresh app2)).

Lemma enter_block_present req header app st : app_finalizeBlockState app = Some st →
  enter_block req header app =
    match block_params (st_ms st) with
    | Ok cp => (Ok tt, put_state execModeFinalize (Some (mkModeState (st_ms st) (finalize_ctx req header cp (st_ctx st)))) app)
    | Err e => (Err e, app)
    | Panic p => (Panic p, app)
    end.
Proof.
  intros E. unfold enter_block, ensure_finalize_state, SetContext, state_of, liftM, modifyM, mbind, GoM_bind. cbn [getState].
  rewrite E, E. destruct (block_params (st_ms st)); [|done|done]. by rewrite E.
Qed.
Lemma enter_block_fresh req header app : fresh app → ∃ app',
  enter_block req header app =
    match block_params (cms_working (app_cms app)) with
    | Ok cp => (Ok tt, put_state execModeFinalize (Some (mkModeState (cms_working (app_cms app)) (finalize_ctx req header cp (NewContext false)))) app)
    | Err e => (Err e, app')
    | Panic p => (Panic p, app')
    end.
Proof.
  intros [Efin|[h Efin]].
  - exists (setState execModeFinalize header app).
    assert (enter_block req header app = enter_block req header (setState execModeFinalize header app)) as ->.
    { unfold enter_block at 1. unfold ensure_finalize_state, mbind at 1, GoM_bind at 1. by rewrite Efin. }
    rewrite (enter_block_present _ _ _ (fresh_state header (app_cms app))) by done. cbn [st_ms fresh_state].
    by destruct (block_params _).
  - exists app. rewrite (enter_block_present _ _ _ _ Efin). cbn [st_ms fresh_state]. by destruct (block_params _).
Qed.
Lemma enter_block_ready req header height app1 app2 : ready height app1 app2 → 
  yields agree (enter_block req header app1) (enter_block req header app2).
Proof.
  intros (E1 & E2 & [[_ E3]|[Hf1 Hf2]]).
  - apply yields_res_eq. assert (agree app1 app2) as Ha by done. clear E1 E2 E3. revert app1 app2 Ha. fold (respects agree (enter_block req header)).
    unfold enter_block. apply respects_bind; [|eauto 8 with respects]. intros app1 app2 Ha. pose proof Ha as (E1 & E2 & E3).
    unfold ensure_finalize_state. rewrite E3. destruct (app_finalizeBlockState app2); [done|]. split; [done|]. by apply agree_setState.
  - destruct (enter_block_fresh req header app1 Hf1) as [app1' ->], (enter_block_fresh req header app2 Hf2) as [app2' ->]. rewrite E1.
    destruct (block_params _); [|done|done]. split; [done|]. intros _. by repeat split.
Qed.

Lemma execute_block_respects req : respects agree (execute_block req).
Proof. unfold execute_block. eauto 24 with respects. Qed.
Lemma validate_agree height app1 app2 : app_cms app1 = app_cms app2 → app_initialHeight app1 = app_initialHeight app2 →
  validateFinalizeBlockHeight height app1 = validateFinalizeBlockHeight height app2.
Proof. intros E1 E2. unfold validateFinalizeBlockHeight, LastBlockHeight. by rewrite E1, E2. Qed.
Lemma FinalizeBlock_ready req height app1 app2 : ready height app1 app2 →
  yields agree (FinalizeBlock req app1) (FinalizeBlock req app2).
Proof.
  intros Hr. pose proof Hr as (E1 & E2 & _). unfold FinalizeBlock. apply (yields_bind agree).
  - unfold internalFinalizeBlock. apply (yields_bind (ready height)); [by apply yields_liftM|]. intros _ app3 app4 Hr'.
    clear dependent app1 app2. pose proof Hr' as (E1 & E2 & _). apply yields_getM.
    rewrite (validate_agree _ app3 app4) by done. unfold block_header. rewrite E1. apply (yields_bind (λ a1 a2, a1 = app3 ∧ a2 = app4)); [by apply yields_liftM|].
    intros _ ? ? [-> ->]. apply (yields_bind agree); [by apply (enter_block_ready _ _ height)|].
    intros _ t1 t2. apply respects_yields, execute_block_respects.
  - intros res t1 t2. apply respects_yields. eauto 8 with respects.
Qed.


(** After a commit the nodes also agree on the state of [CheckTx], and the
    state of the next block is not set. *)
Definition committed_alike (app1 app2 : BaseApp) : Prop :=
  agree app1 app2 ∧ app_checkState app1 = app_checkState app2 ∧ app_finalizeBlockState app1 = None.
Lemma Commit_agree app1 app2 : agree app1 app2 → yields committed_alike (Commit app1) (Commit app2).
Proof.
  intros Ha. unfold Commit. eapply (yields_bind agree); [by apply respects_yields, Ha; apply state_of_respects|]. intros st t1 t2 Ht.
  cbn zeta. eapply (yields_bind agree); [apply respects_yields, Ht|].
  { unfold GetBlockRetentionHeight. destruct (minRetainBlocks =? 0); eauto 8 with respects. }
  clear dependent app1 app2 t1 t2. intros retainHeight t1 t2 Ht. eapply (yields_bind agree); [apply respects_yields, Ht|].
  { unfold run_hook. destruct precommiter; eauto with respects. }
  clear dependent t1 t2. intros _ t1 t2 Ht. eapply (yields_bind agree); [apply respects_yields, Ht|].
  { apply respects_modifyM. intros a1 a2. apply agree_set_cms. }
  clear dependent t1 t2. intros _ t1 t2 (E1 & E2 & E3). set (h := ctx_header (st_ctx st)).
  eapply (yields_bind (λ a1 a2, agree a1 a2 ∧ app_checkState a1 = app_checkState a2)).
  { split; [done|]. intros _. unfold agree, setState. cbn. by rewrite E1, E2, E3. }
  clear dependent t1 t2. intros _ t1 t2 [(E1 & E2 & E3) E4]. eapply (yields_bind committed_alike).
  { split; [done|]. intros _. unfold committed_alike, agree. cbn. by rewrite E1, E2, E4. }
  clear dependent t1 t2. intros _ t1 t2 Hc. apply (yields_bind committed_alike); [|by split].
  unfold run_hook. destruct prepareCheckStater as [f|]; [|by split]. destruct Hc as ((E1 & E2 & E3) & E4 & E5).
  unfold on_state. cbn [getState]. rewrite <- E4. destruct (app_checkState t1) as [cs|]; [|split; [done|]; by repeat split].
  destruct (f _ _) as [r ms]. split; [done|]. intros _. unfold committed_alike, agree. cbn. by rewrite E1, E2, E3, E5 in *.
Qed.

(** ** What a node does on its own *)

Inductive local_call :=
| LocalCheckTx (ty : CheckTxType) (txBytes : string)
| LocalPrepareProposal (req : PrepareProposalRequest)
| LocalProcessProposal (req : ProcessProposalRequest).
Definition exec_local (app : BaseApp) (c : local_call) : BaseApp :=
  match c with
  | LocalCheckTx ty txBytes => (CheckTx ty txBytes app).2
  | LocalPrepareProposal req => (PrepareProposal req app).2
  | LocalProcessProposal req => (ProcessProposal req app).2
  end.
(** Proposals are for the block being decided; between [FinalizeBlock] and
    [Commit] there are only transactions to check. *)
Definition local_at (height : Z) (c : local_call) : Prop :=
  match c with LocalProcessProposal req => pr_Height req = height | _ => True end.
Definition only_check (c : local_call) : Prop := match c with LocalCheckTx _ _ => True | _ => False end.

(** Computations that only move the state along a preorder [R], which allows
    the states of the modes in [ok] and the mempool to change. *)
Section Keeps.
Context (R : BaseApp → BaseApp → Prop) {HR : PreOrder R} (ok : execMode → Prop).
Hypothesis R_put_state : ∀ mode st app, ok mode → R app (put_state mode st app).
Hypothesis R_set_mempool : ∀ mp app, R app (set_mempool mp app).

Lemma keeps_liftM_bind {A B} (m : outcome A) (k : A → GoM BaseApp B) : (∀ a, m = Ok a → frame R (k a)) → frame R (liftM m ≫= k).
Proof. intros Hk app. unfold mbind, GoM_bind, liftM. destruct m as [a|e|p]; [by apply Hk|done|done]. Qed.
Lemma keeps_getM : frame R getM.
Proof. intros app. reflexivity. Qed.
Lemma keeps_state_of mode : frame R (state_of mode).
Proof. intros app. unfold state_of. by destruct (getState mode app). Qed.
Lemma keeps_put mode st : ok mode → frame R (modifyM (put_state mode st)).
Proof. intros Hm app. by apply R_put_state. Qed.
Lemma keeps_setState mode h : ok mode → frame R (modifyM (setState mode h)).
Proof. intros Hm app. by apply R_put_state. Qed.
Lemma keeps_on_txs {A} mode (m : GoM (option ModeState * Mempool) A) : ok mode → frame R (on_txs mode m).
Proof.
  intros Hm app. unfold on_txs. destruct (m _) as [r [st mp]]. cbn [snd]. etransitivity; [by apply R_put_state|apply R_set_mempool].
Qed.
Lemma keeps_on_state {A} mode (m : Context → GoM MultiStore A) : ok mode → frame R (on_state mode m).
Proof.
  intros Hm app. unfold on_state. destruct (getState mode app) as [st|]; [|done]. destruct (m _ _). by apply R_put_state.
Qed.
Lemma keeps_recover_with {A} (a : A) (m : GoM BaseApp A) : frame R m → frame R (recover_with a m).
Proof. intros Hm app. specialize (Hm app). unfold recover_with. by destruct (m app) as [[]]. Qed.
End Keeps.
Create HintDb keeps discriminated.
#[local] Hint Resolve frame_liftM frame_ret keeps_getM frame_errM frame_panicM keeps_state_of keeps_put keeps_setState
  keeps_on_txs keeps_on_state keeps_recover_with : keeps.
#[local] Hint Extern 1 (PreOrder _) => (exact _) : keeps.
#[local] Hint Extern 1 (frame _ (_ ≫= _)) => (apply frame_bind; [exact _| |intros ?]) : keeps.
#[local] Hint Extern 1 (frame _ (match ?x with _ => _ end)) => destruct x : keeps.
#[local] Hint Extern 1 (frame _ (let _ := _ in _)) => cbv zeta : keeps.
#[local] Hint Extern 1 (_ ≠ _) => discriminate : keeps.

Section Calls.
Context (R : BaseApp → BaseApp → Prop) {HR : PreOrder R} (ok : execMode → Prop).
Hypothesis R_put_state : ∀ mode st app, ok mode → R app (put_state mode st app).
Hypothesis R_set_mempool : ∀ mp app, R app (set_mempool mp app).

Lemma keeps_getContextForProposal height st : frame R (getContextForProposal height st).
Proof. unfold getContextForProposal. eauto 8 with keeps. Qed.
Lemma keeps_enter_proposal mode height time hash proposer votes comet : ok mode →
  frame R (enter_proposal mode height time hash proposer votes comet).
Proof. intros Hm. unfold enter_proposal. pose proof keeps_getContextForProposal. eauto 20 with keeps. Qed.
Lemma keeps_CheckTx ty txBytes : ok execModeCheck → ok execModeReCheck → frame R (CheckTx ty txBytes).
Proof.
  intros H1 H2. unfold CheckTx. apply keeps_liftM_bind; [done|]. intros mode Hmode.
  assert (ok mode) by (destruct ty; by simplify_eq). eauto 12 with keeps.
Qed.
Lemma keeps_PrepareProposal req : ok execModePrepareProposal → frame R (PrepareProposal req).
Proof. intros Hm. unfold PrepareProposal. pose proof keeps_enter_proposal. destruct prepareProposal; eauto 14 with keeps. Qed.
Lemma keeps_SetContext mode f : ok mode → frame R (SetContext mode f).
Proof. intros Hm. unfold SetContext. eauto 8 with keeps. Qed.
End Calls.

Definition not_finalize (mode : execMode) : Prop := mode ≠ execModeFinalize.
Lemma agree_put_other mode st app : not_finalize mode → agree app (put_state mode st app).
Proof. by destruct mode. Qed.
Lemma agree_set_mempool mp app : agree app (set_mempool mp app).
Proof. done. Qed.
#[local] Hint Resolve agree_put_other agree_set_mempool : keeps.
#[local] Hint Extern 1 (not_finalize _) => discriminate : keeps.

(** A proposal for the block being decided leaves the state of that block to
    be set, or sets it to a branch of the last commit. *)
Lemma ready_sym height app1 app2 : ready height app1 app2 → ready height app2 app1.
Proof. intros (E1 & E2 & Hf). split; [done|]. split; [done|]. destruct Hf as [[<- ->]|[? ?]]; [left; by split|by right]. Qed.
Lemma agree_ready height app1 app2 app1' : agree app1 app1' → ready height app1 app2 → ready height app1' app2.
Proof.
  intros (E1 & E2 & E3) (E1' & E2' & Hf). unfold ready, fresh in *. rewrite <- E1, <- E2, <- E3. done.
Qed.
Lemma set_finalize_ready height h app1 app2 : ready height app1 app2 →
  ready height (if app_initialHeight app1 <? height then setState execModeFinalize h app1 else app1) app2.
Proof.
  intros (E1 & E2 & Hf). destruct (Z.ltb_spec (app_initialHeight app1) height); [|done].
  split; [done|]. split; [done|]. destruct Hf as [[? ?]|[_ Hf]]; [lia|]. right. split; [|done]. right. by exists h.
Qed.
Lemma ProcessProposal_ready req app1 app2 :
  ready (pr_Height req) app1 app2 → ready (pr_Height req) (ProcessProposal req app1).2 app2.
Proof.
  intros Hr. unfold ProcessProposal. destruct processProposal as [handler|]; [|done].
  destruct (pr_Height req <? 1); [done|]. rewrite (liftM_bind_run _ _ tt) by done. rename app1 into t.
  unfold mbind at 1, GoM_bind at 1. cbn [getM]. set (header := block_header _ _ _ _ t).
  unfold mbind at 1, GoM_bind at 1. cbn [modifyM]. unfold mbind at 1, GoM_bind at 1. cbn [modifyM].
  match goal with |- ready _ (?m ?a).2 _ => assert (agree a (m a).2) as Hk; [|eapply (agree_ready _ a); [exact Hk|]] end.
  { apply frame_bind; [apply _|by apply (keeps_enter_proposal _ not_finalize); eauto with keeps|]. intros ctx.
    apply keeps_recover_with, (keeps_on_txs _ not_finalize); eauto with keeps. }
  apply set_finalize_ready, (agree_ready _ t); [by apply agree_put_other|done].
Qed.
Lemma local_ready height c app1 app2 : local_at height c → ready height app1 app2 → ready height (exec_local app1 c) app2.
Proof.
  intros Hc Hr. destruct c as [ty tx|req|req]; cbn [exec_local].
  - apply (agree_ready _ app1); [apply (keeps_CheckTx _ not_finalize); eauto with keeps|done].
  - apply (agree_ready _ app1); [apply (keeps_PrepareProposal _ not_finalize); eauto with keeps|done].
  - cbn in Hc. subst. by apply ProcessProposal_ready.
Qed.
Lemma locals_ready height cs : ∀ app1 app2, Forall (local_at height) cs → ready height app1 app2 → ready height (foldl exec_local app1 cs) app2.
Proof. induction cs as [|c cs IH]; intros app1 app2 Hc Hr; [done|]. apply Forall_cons in Hc as [Hc Hcs]. by apply IH, local_ready. Qed.
Lemma locals_agree cs : ∀ app, Forall only_check cs → agree app (foldl exec_local app cs).
Proof.
  induction cs as [|c cs IH]; intros app Hc; [done|]. apply Forall_cons in Hc as [Hc Hcs]. cbn [foldl].
  etransitivity; [|by apply IH]. destruct c; [|done|done]. apply (keeps_CheckTx _ not_finalize); eauto with keeps.
Qed.

(** ** Chains *)

(** One height as a node sees it: its own calls until the block is decided,
    the block, and transactions it checks before the commit. *)
Record Height := mkHeight {
  ht_before : list local_call;
  ht_block : FinalizeBlockRequest;
  ht_between : list local_call
}.
(** What can be compared between nodes: the response, the retain height and
    the root multistore after the commit. *)
Definition run_height (b : Height) : GoM BaseApp (FinalizeBlockResponse * Z * CommitMultiStore) :=
  _ ← modifyM (λ app, foldl exec_local app (ht_before b));
  res ← FinalizeBlock (ht_block b);
  _ ← modifyM (λ app, foldl exec_local app (ht_between b));
  retainHeight ← Commit;
  readM (λ app, (res, retainHeight, app_cms app)).
(** A failure stops the node. *)
Fixpoint run_heights (bs : list Height) (app : BaseApp) : list (outcome (FinalizeBlockResponse * Z * CommitMultiStore)) * BaseApp :=
  match bs with
  | [] => ([], app)
  | b :: bs' =>
      let '(r, app1) := run_height b app in
      if is_ok r then let '(rs, app2) := run_heights bs' app1 in (r :: rs, app2) else ([r], app1)
  end.
Definition run_chain (ic : InitChainRequest) (bs : list Height) (app : BaseApp) :
    outcome InitChainResponse * list (outcome (FinalizeBlockResponse * Z * CommitMultiStore)) * BaseApp :=
  let '(r, app1) := InitChain ic app in
  if is_ok r then let '(rs, app2) := run_heights bs app1 in (r, rs, app2) else (r, [], app1).

(** Consensus decides consecutive heights and proposals are for the height
    being decided. *)
Fixpoint heights_from (height : Z) (bs : list Height) : Prop :=
  match bs with
  | [] => True
  | b :: bs' =>
      fb_Height (ht_block b) = height ∧ Forall (local_at height) (ht_before b) ∧ Forall only_check (ht_between b) ∧
      heights_from (height + 1) bs'
  end.

(** After a height the nodes are ready for the next one. *)
Lemma run_height_ready height b1 b2 app1 app2 : ht_block b1 = ht_block b2 →
  Forall (local_at height) (ht_before b1) → Forall (local_at height) (ht_before b2) →
  Forall only_check (ht_between b1) → Forall only_check (ht_between b2) →
  ready height app1 app2 → yields (ready (height + 1)) (run_height b1 app1) (run_height b2 app2).
Proof.
  intros Eb Hl1 Hl2 Hm1 Hm2 Hr.
  pose proof (locals_ready _ _ _ _ Hl2 (ready_sym _ _ _ (locals_ready _ _ _ _ Hl1 Hr))) as Hr'. apply ready_sym in Hr'.
  pose proof (FinalizeBlock_ready (ht_block b1) _ _ _ Hr') as [Hx Ha].
  unfold run_height, modifyM, mbind, GoM_bind. rewrite <- Eb.
  destruct (FinalizeBlock (ht_block b1) (foldl exec_local app1 (ht_before b1))) as [x1 t1].
  destruct (FinalizeBlock (ht_block b1) (foldl exec_local app2 (ht_before b2))) as [x2 t2]. cbn [fst snd] in *. subst x2.
  destruct x1 as [res|e|p]; [|by split|by split]. specialize (Ha eq_refl).
  assert (agree (foldl exec_local t1 (ht_between b1)) (foldl exec_local t2 (ht_between b2))) as Ha'.
  { etransitivity; [symmetry; by apply locals_agree|]. etransitivity; [exact Ha|by apply locals_agree]. }
  pose proof (Commit_agree _ _ Ha') as [Hy Hc].
  destruct (Commit (foldl exec_local t1 _)) as [y1 u1], (Commit (foldl exec_local t2 _)) as [y2 u2]. cbn [fst snd] in *. subst y2.
  destruct y1 as [rh|e|p]; [|by split|by split]. destruct (Hc eq_refl) as ((E1 & E2 & E3) & _ & E4). unfold readM. cbn.
  split; [cbn; by rewrite E1|]. intros _. cbn. split; [done|]. split; [done|]. right. split; left; congruence.
Qed.
Lemma run_heights_ready bs1 : ∀ bs2 height app1 app2, ht_block <$> bs1 = ht_block <$> bs2 →
  heights_from height bs1 → heights_from height bs2 → ready height app1 app2 →
  (run_heights bs1 app1).1 = (run_heights bs2 app2).1.
Proof.
  induction bs1 as [|b1 bs1 IH]; intros [|b2 bs2] height app1 app2 E H1 H2 Hr; [done|done|done|].
  cbn in E. injection E as Eb Ebs. destruct H1 as (_ & Hl1 & Hm1 & H1), H2 as (_ & Hl2 & Hm2 & H2). cbn [run_heights].
  destruct (run_height_ready height b1 b2 app1 app2 Eb Hl1 Hl2 Hm1 Hm2 Hr) as [Ex Hn].
  destruct (run_height b1 app1) as [x1 t1], (run_height b2 app2) as [x2 t2]. cbn [fst snd] in *. subst x2.
  destruct (is_ok x1); [|done]. specialize (IH bs2 _ _ _ Ebs H1 H2 (Hn eq_refl)).
  destruct (run_heights bs1 t1), (run_heights bs2 t2). cbn in *. by subst.
Qed.

(** ** InitChain *)

(** Nodes that also agree on the state of [CheckTx]; [h] is the initial height. *)
Definition alike (h : Z) (app1 app2 : BaseApp) : Prop :=
  agree app1 app2 ∧ app_checkState app1 = app_checkState app2 ∧ app_initialHeight app1 = h.
Definition transfers {A} (h : Z) (m : GoM BaseApp A) : Prop :=
  ∀ app1 app2, alike h app1 app2 → res_eq (alike h) (m app1) (m app2).
Lemma transfers_bind {A B} h (m : GoM BaseApp A) (k : A → GoM BaseApp B) :
  transfers h m → (∀ a, transfers h (k a)) → transfers h (m ≫= k).
Proof.
  intros Hm Hk s1 s2 Hs. destruct (Hm s1 s2 Hs) as [E HR]. unfold mbind, GoM_bind.
  destruct (m s1) as [x1 t1], (m s2) as [x2 t2]. cbn [fst snd] in *. subst x2. destruct x1; [by apply Hk|by split|by split].
Qed.
Lemma transfers_pure {A} h (f : BaseApp → outcome A) : (∀ a1 a2, agree a1 a2 → f a1 = f a2) → transfers h (λ app, (f app, app)).
Proof. intros Hf a1 a2 Ha. split; [|done]. apply Hf, Ha. Qed.
Lemma transfers_liftM {A} h (x : outcome A) : transfers h (liftM x).
Proof. by split. Qed.
Lemma transfers_on_state {A} h (m : Context → GoM MultiStore A) : transfers h (on_state execModeFinalize m).
Proof.
  intros a1 a2 ((E1 & E2 & E3) & E4 & E5). unfold on_state. cbn [getState]. rewrite E3.
  destruct (app_finalizeBlockState a2) as [st|] eqn:Efin; [|by repeat split; cbn; congruence]. destruct (m _ _) as [r ms]. by repeat split; cbn; congruence.
Qed.
Lemma transfers_SetContext h mode f : mode = execModeFinalize ∨ mode = execModeCheck → transfers h (SetContext mode f).
Proof.
  intros Hm a1 a2 ((E1 & E2 & E3) & E4 & E5). unfold SetContext, state_of, mbind, GoM_bind, modifyM.
  destruct Hm as [-> | ->]; cbn [getState].
  - rewrite E3. destruct (app_finalizeBlockState a2) eqn:Efin; by repeat split; cbn; congruence.
  - rewrite E4. destruct (app_checkState a2) eqn:Echeck; by repeat split; cbn; congruence.
Qed.
Lemma transfers_with_defer {A} h (m : GoM BaseApp A) d : transfers h m → transfers h d → transfers h (with_defer m d).
Proof.
  intros Hm Hd s1 s2 Hs. destruct (Hm s1 s2 Hs) as [E HR]. unfold with_defer.
  destruct (m s1) as [x1 t1], (m s2) as [x2 t2]. cbn [fst snd] in *. destruct (Hd t1 t2 HR) as [E' HR'].
  destruct (d t1) as [y1 u1], (d t2) as [y2 u2]. cbn [fst snd] in *. subst. destruct y2; by split.
Qed.
Lemma init_chain_transfers h req : transfers h (init_chain req).
Proof.
  unfold init_chain. destruct initChainer as [f|]; [|apply (transfers_liftM h (Ok _))].
  apply transfers_bind; [apply transfers_SetContext; by left|]. intros _. apply transfers_bind; [apply transfers_on_state|].
  intros res. apply transfers_bind; [apply transfers_liftM|]. intros _.
  apply transfers_bind; [|intros appHash; apply (transfers_liftM h (Ok _))]. apply (transfers_pure _ (λ app, Ok (cms_hash (app_cms app)))). by intros a1 a2 (-> & _).
Qed.

Definition initial_height (ic : InitChainRequest) : Z := if ic_InitialHeight ic =? 0 then 1 else ic_InitialHeight ic.
Lemma InitChain_alike ic app1 app2 : app_cms app1 = app_cms app2 →
  yields (alike (initial_height ic)) (InitChain ic app1) (InitChain ic app2).
Proof.
  intros E. unfold InitChain. apply (yields_bind (λ a1 a2, app_cms a1 = app_cms a2)); [by apply yields_liftM|]. intros _ a1 a2 Ha.
  clear dependent app1 app2. fold (initial_height ic).
  apply (yields_bind (λ a1 a2, app_cms a1 = app_cms a2 ∧ app_initialHeight a1 = initial_height ic ∧ app_initialHeight a2 = initial_height ic)); [by split|].
  intros _ t1 t2 (E1 & E2 & E3). clear dependent a1 a2. cbn zeta. destruct (1 <? ic_InitialHeight ic).
  all: apply (yields_bind (λ a1 a2, app_cms a1 = app_cms a2 ∧ app_initialHeight a1 = initial_height ic ∧ app_initialHeight a2 = initial_height ic));
    [split; [done|]; intros _; cbn; by rewrite E1|].
  all: intros _ u1 u2 (F1 & F2 & F3); clear dependent t1 t2.
  all: apply (yields_bind (λ a1 a2, agree a1 a2 ∧ app_initialHeight a1 = initial_height ic));
    [split; [done|]; intros _; unfold agree, setState; cbn; by rewrite F1, F2, F3|].
  all: intros _ t1 t2 [(E1 & E2 & E3) E4]; clear dependent u1 u2.
  all: apply (yields_bind (alike (initial_height ic)));
    [split; [done|]; intros _; unfold alike, agree, setState; cbn; rewrite E1; by repeat split|].
  all: intros _ u1 u2 Hu; clear dependent t1 t2.
  all: apply (yields_bind (alike (initial_height ic))); [apply yields_res_eq; destruct (ic_ConsensusParams ic); [by apply transfers_on_state|by split]|].
  all: intros _ t1 t2 Ht.
  all: apply yields_res_eq; apply transfers_with_defer; [apply init_chain_transfers| |done].
  all: apply transfers_bind; [apply transfers_SetContext; by right|intros _; apply transfers_SetContext; by left].
Qed.

(** C7. Two nodes with the same root multistore that get the same [InitChain] and
    the same blocks give the same responses and commit the same versions,
    whatever transactions each checked, proposals it made or processed in
    between, and whatever is in the mempools. *)
Theorem nodes_commit_the_same ic bs1 bs2 app1 app2 :
  app_cms app1 = app_cms app2 → ht_block <$> bs1 = ht_block <$> bs2 →
  heights_from (initial_height ic) bs1 → heights_from (initial_height ic) bs2 →
  (run_chain ic bs1 app1).1 = (run_chain ic bs2 app2).1.
Proof.
  intros E Eb H1 H2. unfold run_chain. destruct (InitChain_alike ic app1 app2 E) as [Ex Ha].
  destruct (InitChain ic app1) as [x1 t1], (InitChain ic app2) as [x2 t2]. cbn [fst snd] in *. subst x2.
  destruct (is_ok x1); [|done]. destruct (Ha eq_refl) as ((E1 & E2 & E3) & _ & E5).
  assert (ready (initial_height ic) t1 t2) as Hr by (split; [done|]; split; [done|]; by left).
  pose proof (run_heights_ready bs1 bs2 _ t1 t2 Eb H1 H2 Hr) as Hrun.
  destruct (run_heights bs1 t1), (run_heights bs2 t2). cbn in *. by subst.
Qed.

(** ** Heights *)

(** The root multistore and the initial height do not change. *)
Definition same_chain (app1 app2 : BaseApp) : Prop :=
  app_cms app1 = app_cms app2 ∧ app_initialHeight app1 = app_initialHeight app2.
#[local] Instance same_chain_preorder : PreOrder same_chain.
Proof. unfold same_chain. split; [by split|]. intros a1 a2 a3 [-> ->] [-> ->]. done. Qed.
Definition any_mode (mode : execMode) : Prop := True.
Lemma same_chain_put mode st app : any_mode mode → same_chain app (put_state mode st app).
Proof. by destruct mode. Qed.
Lemma same_chain_mempool mp app : same_chain app (set_mempool mp app).
Proof. done. Qed.
#[local] Hint Resolve same_chain_put same_chain_mempool : keeps.
#[local] Hint Extern 1 (any_mode _) => exact I : keeps.
#[local] Hint Extern 1 (frame same_chain (SetContext _ _)) => eapply (keeps_SetContext _ any_mode) : keeps.
#[local] Hint Extern 1 (frame same_chain (modifyM (setState _ _))) => eapply (keeps_setState _ any_mode) : keeps.
#[local] Hint Extern 1 (frame same_chain (modifyM (put_state _ _))) => eapply (keeps_put _ any_mode) : keeps.
#[local] Hint Extern 1 (frame same_chain (on_txs _ _)) => eapply (keeps_on_txs _ any_mode) : keeps.
#[local] Hint Extern 1 (frame same_chain (on_state _ _)) => eapply (keeps_on_state _ any_mode) : keeps.

Lemma deliver_txs_chain txs : ∀ i, frame same_chain (deliver_txs i txs).
Proof. induction txs as [|tx txs IH]; intros i; cbn [deliver_txs]; eauto 12 with keeps. Qed.
Lemma reset_block_meter_chain : frame same_chain reset_block_meter.
Proof. unfold reset_block_meter. eauto 12 with keeps. Qed.
Lemma share_block_meter_chain req g : frame same_chain (share_block_meter req g).
Proof.
  intros app. unfold share_block_meter. destruct (app_checkState app); [|done].
  apply (keeps_SetContext same_chain any_mode); eauto with keeps.
Qed.
Lemma preBlock_chain req : frame same_chain (preBlock req).
Proof. unfold preBlock. destruct preBlocker; eauto 16 with keeps. Qed.
Lemma beginBlock_chain : frame same_chain beginBlock.
Proof. unfold beginBlock. destruct beginBlocker; eauto 16 with keeps. Qed.
Lemma endBlock_chain : frame same_chain endBlock.
Proof. unfold endBlock. destruct endBlocker; eauto 16 with keeps. Qed.
Lemma enter_block_chain req header : frame same_chain (enter_block req header).
Proof.
  unfold enter_block. apply frame_bind; [exact _| |intros; eauto 12 with keeps]. intros app. unfold ensure_finalize_state.
  by destruct (app_finalizeBlockState app).
Qed.
#[local] Hint Resolve deliver_txs_chain reset_block_meter_chain share_block_meter_chain preBlock_chain beginBlock_chain endBlock_chain : keeps.
Lemma execute_block_chain req : frame same_chain (execute_block req).
Proof. unfold execute_block. eauto 30 with keeps. Qed.
Lemma ProcessProposal_chain req : frame same_chain (ProcessProposal req).
Proof.
  unfold ProcessProposal. destruct processProposal as [handler|]; [|eauto with keeps].
  do 3 (apply frame_bind; [exact _|by eauto with keeps|intros ?]). apply frame_bind; [exact _| |intros ?].
  - intros app. cbn. by destruct (app_initialHeight app <? pr_Height req); split.
  - apply frame_bind; [exact _| |intros ?]; [|eauto 12 with keeps]. apply (keeps_enter_proposal _ any_mode); eauto with keeps.
Qed.
Lemma locals_chain cs : ∀ app, same_chain app (foldl exec_local app cs).
Proof.
  induction cs as [|c cs IH]; intros app; [done|]. cbn [foldl]. etransitivity; [|apply IH]. destruct c; cbn [exec_local].
  - apply (keeps_CheckTx _ any_mode); eauto with keeps.
  - apply (keeps_PrepareProposal _ any_mode); eauto with keeps.
  - apply ProcessProposal_chain.
Qed.

(** The next height of a chain. *)
Definition next_height (app : BaseApp) : Z :=
  if (cms_version (app_cms app) =? 0) && (1 <? app_initialHeight app) then app_initialHeight app
  else wrap_int64 (cms_version (app_cms app) + 1).
Lemma FinalizeBlock_chain req app res app' : FinalizeBlock req app = (Ok res, app') →
  fb_Height req = next_height app ∧ app_initialHeight app' = app_initialHeight app ∧
  fbr_AppHash res = cms_WorkingHash (app_cms app') ∧
  ∃ ires app1 st, internalFinalizeBlock req app = (Ok ires, app1) ∧ app_finalizeBlockState app1 = Some st ∧
    app_cms app' = cms_Write (st_ms st) (app_cms app).
Proof.
  unfold FinalizeBlock. intros (ires & app1 & H1 & H2)%GoM_bind_Ok. pose proof H1 as Hint. unfold internalFinalizeBlock in H1.
  apply GoM_bind_Ok in H2 as (hash & app2 & H2 & [= <- <-]). cbn [fbr_AppHash]. unfold workingHash in H2.
  apply GoM_bind_Ok in H2 as (st & app3 & Hst & H2). apply GoM_bind_Ok in H2 as (u & app4 & [= _ <-] & [= <- <-]).
  assert (app_finalizeBlockState app1 = Some st) as Hfin.
  { unfold state_of in Hst. cbn [getState] in Hst. destruct (app_finalizeBlockState app1); by simplify_eq. }
  pose proof (keeps_state_of same_chain execModeFinalize app1) as [E1 E2]. rewrite Hst in E1, E2. cbn [snd] in *.
  apply GoM_bind_Ok in H1 as (u1 & app4 & [_ ->]%liftM_Ok & H1). apply GoM_bind_Ok in H1 as (a & app5 & [= <- <-] & H1).
  apply GoM_bind_Ok in H1 as (u2 & app6 & [Hv ->]%liftM_Ok & H1). apply GoM_bind_Ok in H1 as (u3 & app7 & H7 & H1).
  pose proof (enter_block_chain req (block_header (fb_Height req) (fb_Time req) (fb_ProposerAddress req) (fb_NextValidatorsHash req) app) app) as [F1 F2].
  rewrite H7 in F1, F2. pose proof (execute_block_chain req app7) as [G1 G2]. rewrite H1 in G1, G2. cbn [snd] in *.
  unfold validateFinalizeBlockHeight in Hv. destruct (fb_Height req <? 1); [done|]. apply guard_err_Ok, negb_false_iff, Z.eqb_eq in Hv.
  split; [exact Hv|]. cbn. split; [congruence|]. split; [done|]. exists ires, app1, st. split; [done|]. split; [done|]. congruence.
Qed.
Lemma Commit_chain app rh app' : Commit app = (Ok rh, app') →
  app_cms app' = cms_Commit (app_cms app) ∧ app_initialHeight app' = app_initialHeight app.
Proof.
  unfold Commit. intros (st & app1 & H1 & H2)%GoM_bind_Ok. cbn zeta in H2. apply GoM_bind_Ok in H2 as (h & app2 & H3 & H2).
  apply GoM_bind_Ok in H2 as (u & app3 & H4 & H2). apply GoM_bind_Ok in H2 as (u1 & app4 & [= _ <-] & H2).
  apply GoM_bind_Ok in H2 as (u2 & app5 & [= _ <-] & H2). apply GoM_bind_Ok in H2 as (u3 & app6 & [= _ <-] & H2).
  apply GoM_bind_Ok in H2 as (u4 & app7 & H5 & [= <- <-]).
  pose proof (keeps_state_of same_chain execModeFinalize app) as [E1 E2]. rewrite H1 in E1, E2.
  assert (∀ mode hook, frame same_chain (run_hook mode hook)) as Hhook by (intros mode hook; unfold run_hook; eauto with keeps).
  assert (frame same_chain (GetBlockRetentionHeight (hd_Height (ctx_header (st_ctx st))))) as Hret.
  { unfold GetBlockRetentionHeight. eauto 12 with keeps. }
  destruct (Hret app1) as [F1 F2]. rewrite H3 in F1, F2. destruct (Hhook execModeFinalize precommiter app2) as [G1 G2]. rewrite H4 in G1, G2.
  pose proof (Hhook execModeCheck prepareCheckStater) as Hk. match type of H5 with _ ?a = _ => destruct (Hk a) as [K1 K2] end.
  rewrite H5 in K1, K2. cbn in *. split; congruence.
Qed.

#[local] Coercion Z.of_nat : nat >-> Z.

(** [n] blocks were committed since the initial height [h]. *)
Definition chain_at (h : Z) (n : nat) (app : BaseApp) : Prop :=
  app_initialHeight app = h ∧ cms_initialVersion (app_cms app) = (if 1 <? h then h else 0) ∧
  cms_version (app_cms app) = (if decide (n = 0%nat) then 0 else h + n - 1) ∧
  fst <$> cms_committed (app_cms app) = reverse (seqZ h n).

Lemma chain_at_next h (n : nat) app : 1 <= h → h + n < 2 ^ 63 → chain_at h n app → next_height app = h + n.
Proof.
  intros Hh Hb (E1 & _ & E3 & _). unfold next_height. rewrite E1, E3. destruct (decide (n = 0%nat)) as [-> | Hn].
  - cbn [Z.eqb andb]. destruct (Z.ltb_spec 1 h); [lia|]. rewrite wrap_int64_id; lia.
  - rewrite (proj2 (Z.eqb_neq _ _)) by lia. cbn [andb]. rewrite wrap_int64_id; lia.
Qed.
Lemma chain_at_commit h (n : nat) app ms app' : 1 <= h → h + n < 2 ^ 63 → chain_at h n app →
  app_cms app' = cms_Commit (cms_Write ms (app_cms app)) → app_initialHeight app' = app_initialHeight app →
  chain_at h (S n) app' ∧ cms_version (app_cms app') = h + n.
Proof.
  intros Hh Hb (E1 & E2 & E3 & E4) Ec Ei.
  assert (cms_version (app_cms app') = h + n) as Ev.
  { rewrite Ec. cbn [cms_Commit cms_Write cms_version cms_initialVersion]. rewrite E2, E3. destruct (decide (n = 0%nat)) as [-> | Hn].
    - cbn [Z.eqb andb]. destruct (Z.ltb_spec 1 h) as [Hlt|Hle].
      + destruct (Z.ltb_spec 1 h); lia.
      + cbn [Z.ltb Z.compare]. rewrite wrap_int64_id; lia.
    - rewrite (proj2 (Z.eqb_neq _ _)) by lia. cbn [andb]. rewrite wrap_int64_id; lia. }
  split; [|done]. split; [congruence|]. split; [by rewrite Ec|]. split; [rewrite decide_False by lia; lia|].
  assert (cms_committed (app_cms app') = (cms_version (app_cms app'), ms) :: cms_committed (app_cms app)) as -> by (by rewrite Ec).
  rewrite Ev. cbn [fmap list_fmap fst]. rewrite E4. replace (Z.of_nat (S n)) with (n + 1) by lia.
  rewrite seqZ_app, reverse_app by lia. done.
Qed.

(** The store that the block leaves on its branch: the node makes its own
    calls, then pre-blocker, begin blocker, transactions and end blocker run. *)
Definition block_store (b : Height) (app : BaseApp) : option MultiStore :=
  st_ms <$> app_finalizeBlockState (internalFinalizeBlock (ht_block b) (foldl exec_local app (ht_before b))).2.
(** What the block at [height], run by a node in state [app], and its commit
    leave. *)
Definition committed_at (h height : Z) (b : Height) (app : BaseApp) (x : FinalizeBlockResponse * Z * CommitMultiStore) : Prop :=
  let '(res, _, cms) := x in
  fb_Height (ht_block b) = height ∧ cms_version cms = height ∧
  fst <$> cms_committed cms = reverse (seqZ h (height + 1 - h)) ∧
  (∃ ms, block_store b app = Some ms ∧ cms_working cms = ms ∧ cms_committed cms = (height, ms) :: cms_committed (app_cms app) ∧
    fbr_AppHash res = WorkingHash_of (cms_committed (app_cms app)) ms) ∧
  fbr_AppHash res = cms_hash cms.

Lemma run_height_chain h (n : nat) b app x app' : 1 <= h → h + n < 2 ^ 63 → chain_at h n app →
  run_height b app = (Ok x, app') → chain_at h (S n) app' ∧ committed_at h (h + n) b app x.
Proof.
  intros Hh Hb Hc H1. unfold run_height in H1.
  apply GoM_bind_Ok in H1 as (u & app1 & [= _ <-] & H1). apply GoM_bind_Ok in H1 as (res & app2 & Hf & H1).
  apply GoM_bind_Ok in H1 as (u1 & app3 & [= _ <-] & H1). apply GoM_bind_Ok in H1 as (rh & app4 & Hcommit & [= <- <-]).
  pose proof (locals_chain (ht_before b) app) as [L1 L2]. pose proof (locals_chain (ht_between b) app2) as [M1 M2].
  apply FinalizeBlock_chain in Hf as (F1 & F2 & F3 & ires & app5 & st & F5 & F6 & F4). apply Commit_chain in Hcommit as [C1 C2].
  assert (next_height (foldl exec_local app (ht_before b)) = next_height app) as En by (unfold next_height; by rewrite <- L1, <- L2).
  rewrite <- M1, F4, <- L1 in C1. destruct (chain_at_commit h n app (st_ms st) app4 Hh Hb Hc C1) as [Hc' Ev]; [congruence|].
  split; [done|]. unfold committed_at. rewrite F1, En. split; [by apply chain_at_next|]. split; [done|].
  split; [|split]; [| |by rewrite F3, C1, F4, <- L1].
  { destruct Hc' as (_ & _ & _ & ->). do 2 f_equal. lia. }
  exists (st_ms st). split; [unfold block_store; by rewrite F5; cbn [snd]; rewrite F6|].
  split; [by rewrite C1|]. split; [rewrite <- Ev; by rewrite C1|]. by rewrite F3, F4, <- L1.
Qed.
Lemma run_heights_chain h bs : ∀ (n : nat) app rs app', 1 <= h → h + n + length bs < 2 ^ 63 → chain_at h n app →
  run_heights bs app = (rs, app') →
  ∀ (i : nat) b x, bs !! i = Some b → rs !! i = Some (Ok x) → committed_at h (h + n + i) b (run_heights (take i bs) app).2 x.
Proof.
  induction bs as [|b bs IH]; intros n app rs app' Hh Hb Hc Hrun i b' x Hi Hx; [done|]. cbn [run_heights length] in *.
  destruct (run_height b app) as [r app1] eqn:Er. destruct r as [y|e|p]; cbn [is_ok] in Hrun.
  2,3: injection Hrun as <- <-; destruct i; discriminate.
  destruct (run_height_chain h n b app y app1 Hh ltac:(lia) Hc Er) as [Hc' Hcommit].
  destruct (run_heights bs app1) as [rs' app2] eqn:Ers. injection Hrun as <- <-. destruct i as [|i]; cbn in Hi, Hx; simplify_eq.
  - by rewrite Z.add_0_r.
  - replace (h + n + S i) with (h + (S n) + i) by lia. cbn [take run_heights]. rewrite Er. cbn [is_ok].
    assert (committed_at h (h + S n + i) b' (run_heights (take i bs) app1).2 x) as Hi'.
    { eapply IH; [done| |done|done|done|done]. lia. }
    by destruct (run_heights (take i bs) app1).
Qed.
Lemma InitChain_chain ic app res app' : cms_version (app_cms app) = 0 → cms_initialVersion (app_cms app) = 0 →
  cms_committed (app_cms app) = [] → 0 <= ic_InitialHeight ic → InitChain ic app = (Ok res, app') → chain_at (initial_height ic) 0 app'.
Proof.
  intros E1 E2 E3 Hi H1. unfold InitChain in H1. apply GoM_bind_Ok in H1 as (u & app1 & [_ ->]%liftM_Ok & H1).
  apply GoM_bind_Ok in H1 as (u1 & app2 & [= _ <-] & H1). fold (initial_height ic) in H1. cbn zeta in H1.
  apply GoM_bind_Ok in H1 as (u2 & app3 & [= _ H3] & H1). apply GoM_bind_Ok in H1 as (u3 & app4 & [= _ H4] & H1).
  apply GoM_bind_Ok in H1 as (u4 & app5 & [= _ H5] & H1). apply GoM_bind_Ok in H1 as (u5 & app6 & H6 & H1).
  assert (frame same_chain (init_chain ic)) as Hk.
  { unfold init_chain. destruct initChainer; [|eauto with keeps]. eauto 16 with keeps. }
  assert (same_chain app6 app') as [S1 S2].
  { pose proof (Hk app6) as Hs. unfold with_defer in H1. destruct (init_chain ic app6) as [r t] eqn:Er. cbn [snd] in Hs.
    assert (frame same_chain (_ ← SetContext execModeCheck (genesis_header ic); SetContext execModeFinalize (genesis_header ic))) as Hd by eauto 12 with keeps.
    specialize (Hd t). destruct ((_ ← SetContext execModeCheck (genesis_header ic); SetContext execModeFinalize (genesis_header ic)) t) as [d t'].
    cbn [snd] in Hd. assert (app' = t') as -> by (by destruct d; simplify_eq). by transitivity t. }
  assert (same_chain app5 app6) as [S3 S4].
  { destruct (ic_ConsensusParams ic) as [cp|]; [|by injection H6 as _ <-].
    match type of H6 with ?m _ = _ => assert (frame same_chain m) as Hp by eauto with keeps end. specialize (Hp app5). by rewrite H6 in Hp. }
  assert (app_cms app5 = app_cms app3 ∧ app_initialHeight app5 = app_initialHeight app3) as [S5 S6] by (by subst).
  unfold chain_at. rewrite <- S1, <- S3, S5, <- S2, <- S4, S6. subst app3. unfold initial_height.
  destruct (Z.ltb_spec 1 (ic_InitialHeight ic)); cbn.
  - rewrite (proj2 (Z.eqb_neq _ _)) by lia. destruct (Z.ltb_spec 1 (ic_InitialHeight ic)); [|lia]. by rewrite E1, E3.
  - rewrite E1, E2, E3. split; [done|]. split; [|done].
    assert (ic_InitialHeight ic = 0 ∨ ic_InitialHeight ic = 1) as [-> | ->] by lia; done.
Qed.

(** C8. From an empty store, the blocks a node commits have consecutive heights
    that start at the initial height of the genesis.  Committing a block adds
    exactly one version to the committed ones: its height, with the store that
    executing that block ([internalFinalizeBlock]) left on the block's branch.
    That store is the working store the next block starts from, and its hash
    is both the application hash in the response of [FinalizeBlock] and the
    hash that [Commit] records. *)
Theorem committed_heights_consecutive ic bs app r rs app' :
  cms_version (app_cms app) = 0 → cms_initialVersion (app_cms app) = 0 → cms_committed (app_cms app) = [] →
  0 <= ic_InitialHeight ic → initial_height ic + length bs < 2 ^ 63 →
  run_chain ic bs app = (r, rs, app') →
  ∀ (i : nat) b x, bs !! i = Some b → rs !! i = Some (Ok x) →
    committed_at (initial_height ic) (initial_height ic + i) b (run_chain ic (take i bs) app).2 x.
Proof.
  intros E1 E2 E3 Hi Hb Hrun i b x Hib Hx. unfold run_chain in *. destruct (InitChain ic app) as [[res|e|p] app1] eqn:Ei; cbn [is_ok] in *; [|by simplify_eq|by simplify_eq].
  destruct (run_heights bs app1) as [rs1 app2] eqn:Er. simplify_eq.
  replace (initial_height ic + i) with (initial_height ic + 0%nat + i) by lia.
  assert (1 <= initial_height ic) as Hh by (unfold initial_height; destruct (Z.eqb_spec (ic_InitialHeight ic) 0); lia).
  assert (committed_at (initial_height ic) (initial_height ic + 0%nat + i) b (run_heights (take i bs) app1).2 x) as Hc.
  { eapply run_heights_chain; [exact Hh| |by eapply InitChain_chain|exact Er|exact Hib|exact Hx]. lia. }
  by destruct (run_heights (take i bs) app1).
Qed.
End Nodes.

(** ** The example application *)

#[export] Instance ex_mempool_laws : MempoolLaws.
Proof.
  intros tx mp1 mp2. cbn [mp_Remove ex_mempool fst].
  destruct (decide (tx ∈ mp1)), (decide (tx ∈ mp2)); reflexivity.
Qed.

(** A proposer and a node that replays the blocks. *)
Definition ex_proposer : list Height :=
  [mkHeight [LocalCheckTx CHECK_TX_TYPE_CHECK "pay"; LocalPrepareProposal (ex_prepare 5 [])]
     (ex_block 5 ["pay"; "panic"; "broke"; "unknown"]) [LocalCheckTx CHECK_TX_TYPE_RECHECK "late"];
   mkHeight [LocalProcessProposal (ex_process 6 ["pay2"]); LocalProcessProposal (ex_process 6 [])] (ex_block 6 ["pay2"; "late"]) []].
Definition ex_replayer : list Height := [mkHeight [] (ex_block 5 ["pay"; "panic"; "broke"; "unknown"]) []; mkHeight [] (ex_block 6 ["pay2"; "late"]) []].
Lemma nodes_commit_the_same_witness :
  (run_chain ex_init ex_proposer (ex_node [])).1 = (run_chain ex_init ex_replayer (ex_node [mkExTx "late" "alice" 7 40 [("bob", 5)]])).1 ∧
  tx_errors <$> (run_chain ex_init ex_replayer (ex_node [])).1.2 =
    [Some [None; Some ErrPanic; Some ErrOutOfGas; Some ErrOutOfGas]; Some [None; Some "account sequence mismatch"]].
Proof.
  split; [|vm_compute; reflexivity]. apply nodes_commit_the_same; [reflexivity|reflexivity| |].
  - cbn. repeat split; repeat constructor.
  - cbn. repeat split; repeat constructor.
Defined.
Lemma committed_heights_consecutive_witness :
  ∃ x, (run_chain ex_init ex_replayer (ex_node [])).1.2 !! 1%nat = Some (Ok x) ∧
    committed_at 5 6 (mkHeight [] (ex_block 6 ["pay2"; "late"]) []) (run_chain ex_init (take 1 ex_replayer) (ex_node [])).2 x.
Proof.
  destruct (run_chain ex_init ex_replayer (ex_node [])) as [[r rs] app'] eqn:E.
  assert (is_ok <$> rs !! 1%nat = Some true) as Hok.
  { change rs with ((r, rs, app').1.2). rewrite <- E. vm_compute. reflexivity. }
  destruct (rs !! 1%nat) as [[x|e|p]|] eqn:Hx; [|discriminate Hok|discriminate Hok|discriminate Hok].
  exists x. split; [exact Hx|].
  refine (committed_heights_consecutive ex_init ex_replayer (ex_node []) r rs app' _ _ _ _ _ E 1 _ x _ Hx);
    [reflexivity|reflexivity|reflexivity|vm_compute; discriminate|vm_compute; reflexivity|reflexivity].
Defined.
