(* ===== verification/ABCIGas.v ===== *)
(** * ABCIGas: a block never stops at a transaction and keeps its gas limit

    Under the laws that handlers keep gas meters within uint64, all
    transactions of a block are processed, whatever they do, and the gas of
    those that commit is within the block gas limit. *)
From S2P Require Import Prelude KVStore Gas Coin DecCoin SdkContext BaseApp ABCI Proposals BaseAppExample BaseAppProps Hoare.

(** A gas meter whose counters are uint64. *)
Definition meter_wf (g : GasMeter) : Prop :=
  match g with
  | basicGasMeter limit consumed => uint64_range limit ∧ uint64_range consumed
  | infiniteGasMeter consumed => uint64_range consumed
  end.
Lemma meter_wf_toLimit g : meter_wf g → uint64_range (GasConsumedToLimit g).
Proof.
  destruct g as [limit consumed|consumed]; cbn; [|done]. intros [Hl Hc]. by destruct (limit <? consumed).
Qed.

(** Computations after which an invariant still holds, on every outcome. *)
Definition invariant {S} (P : S → Prop) (s s' : S) : Prop := P s → P s'.
#[export] Instance invariant_preorder {S} (P : S → Prop) : PreOrder (invariant P).
Proof. unfold invariant. split; [by intros s|]. intros s1 s2 s3. tauto. Qed.
Abbreviation stays P := (frame (invariant P)).
Lemma stays_bind {S} (P : S → Prop) {A B} (m : GoM S A) (k : A → GoM S B) : stays P m → (∀ a, stays P (k a)) → stays P (m ≫= k).
Proof. by apply frame_bind; [apply _|..]. Qed.
Lemma stays_liftM {S} (P : S → Prop) {A} (m : outcome A) : stays P (liftM m).
Proof. by intros s. Qed.
Lemma stays_ret {S} (P : S → Prop) {A} (a : A) : stays P (mret a).
Proof. by intros s. Qed.

Section Gas.
Context `{AppConfig} {HM : MempoolOps}.

Definition exec_wf (s : Exec) : Prop := meter_wf (s.2).
(** The handlers of the application keep gas meters well formed, and reading
    the consensus parameters does not panic. *)
Class MeterLaws : Prop := {
  ml_ante : ∀ ante ctx tx, anteHandler = Some ante → stays exec_wf (ante ctx tx);
  ml_ante_ctx : ∀ ante ctx tx s a c g, anteHandler = Some ante → exec_wf s →
    (ante ctx tx s).1 = Ok a → ante_newCtx a = Some (c, g) → meter_wf g;
  ml_method : ∀ url method ctx msg, routes msgServiceRouter !! url = Some method → stays exec_wf (method ctx msg);
  ml_circuit : ∀ cb ctx url, circuitBreaker msgServiceRouter = Some cb → stays exec_wf (cb ctx url);
  ml_post : ∀ post ctx tx success, postHandler = Some post → stays exec_wf (post ctx tx success);
  ml_params : ∀ ms, ∃ cp g, GetConsensusParams ms NewInfiniteGasMeter = (Ok cp, g) ∧ meter_wf g
}.
Context {ML : MeterLaws}.

Lemma call_method_wf url method ctx msg : routes msgServiceRouter !! url = Some method →
  stays exec_wf (call_method (circuitBreaker msgServiceRouter) method ctx msg).
Proof.
  intros Hm. unfold call_method. pose proof ml_circuit as Hc. pose proof (ml_method url method) as Hmethod.
  apply stays_bind; [apply stays_liftM|]. intros _. apply stays_bind.
  - destruct (circuitBreaker msgServiceRouter) as [cb|]; [|apply stays_ret]. apply stays_bind; [by apply Hc|]. intros b. apply stays_liftM.
  - intros _. apply stays_bind; [by apply Hmethod|]. intros [res ev]. frame.
Qed.
Lemma run_msg_wf ctx refl i msg : stays exec_wf (run_msg ctx refl i msg).
Proof.
  unfold run_msg, Handler, HandlerByTypeURL. destruct (routes msgServiceRouter !! MsgTypeURL msg) as [method|] eqn:E; cbn [fmap option_fmap option_map]; [|frame].
  apply stays_bind; [by eapply call_method_wf|]. intros res. frame.
Qed.
Lemma run_msgs_from_wf ctx refl msgs : ∀ i ev resp, stays exec_wf (run_msgs_from ctx refl i msgs ev resp).
Proof.
  induction msgs as [|msg msgs IH]; intros i ev resp; cbn [run_msgs_from]; [apply stays_ret|].
  apply stays_bind; [apply run_msg_wf|]. intros r. apply IH.
Qed.
Lemma runMsgs_wf ctx msgs refl mode : stays exec_wf (runMsgs ctx msgs refl mode).
Proof.
  unfold runMsgs. apply stays_bind; [|intros [ev resp]; frame]. destruct (decide _); [apply run_msgs_from_wf|apply stays_ret].
Qed.

Definition run_wf (r : TxRun) : Prop := meter_wf (run_meter r).
Lemma consumeBlockGas_wf : stays run_wf consumeBlockGas.
Proof.
  intros r Hr. unfold consumeBlockGas. destruct (run_blockGasConsumed r); [done|]. destruct (run_blockMeter r); [|done]. by destruct (ConsumeGas _ _ _).
Qed.
Lemma run_ante_wf tx : stays run_wf (run_ante execModeFinalize tx).
Proof.
  intros r Hr. unfold run_ante. destruct anteHandler as [ante|] eqn:Ea; [|done].
  pose proof (ml_ante ante (WithEventManager [] (run_ctx r)) tx Ea (run_ms r, run_meter r) Hr) as H1.
  pose proof (ml_ante_ctx ante (WithEventManager [] (run_ctx r)) tx (run_ms r, run_meter r)) as H2.
  destruct (ante _ tx _) as [[a|e|p] [ms g]]; cbn [fst snd] in *; [|done|done].
  assert (run_wf (adopt_ctx (ante_newCtx a) g r)) as H3.
  { destruct (ante_newCtx a) as [[c g2]|] eqn:En; [|exact H1]. by apply (H2 a c g2). }
  by destruct (ante_err a).
Qed.
Lemma update_mempool_wf tx : stays run_wf (update_mempool execModeFinalize tx).
Proof. intros r Hr. unfold update_mempool, on_mempool. by destruct (mp_Remove tx (run_mempool r)) as [[]]. Qed.
Lemma run_messages_wf tx msgs : stays run_wf (run_messages execModeFinalize tx msgs).
Proof.
  intros r Hr. unfold run_messages.
  assert (stays exec_wf (reflectMsgs ← liftM (GetReflectMessages tx); runMsgs (run_ctx r) msgs reflectMsgs execModeFinalize)) as Hm.
  { apply stays_bind; [apply stays_liftM|]. intros refl. apply runMsgs_wf. }
  specialize (Hm (run_ms r, run_meter r) Hr). match goal with |- context [let '(_, _) := ?m in _] => destruct m as [[result|e|p] [ms g]] end; exact Hm.
Qed.
Lemma run_post_wf tx x : stays run_wf (run_post tx x).
Proof.
  intros r Hr. unfold run_post. destruct postHandler as [post|] eqn:Ep; [|done]. destruct x as [[ms result] err].
  pose proof (ml_post post (WithEventManager [] (run_ctx r)) tx (bool_decide (err = None)) Ep (ms, run_meter r) Hr) as H1.
  destruct (post _ tx _ _) as [[ev|e|p] [ms' g]]; exact H1.
Qed.
Lemma commit_tx_wf x : stays run_wf (commit_tx execModeFinalize x).
Proof.
  destruct x as [[ms result] [err|]]; unfold commit_tx; [apply stays_ret|]. rewrite decide_True by done.
  apply stays_bind; [apply consumeBlockGas_wf|]. intros _. apply stays_bind; [by intros r Hr|]. intros _.
  apply stays_bind; [by intros r Hr|]. intros ev. apply stays_ret.
Qed.
Lemma tx_body_wf txBytes : stays run_wf (tx_body execModeFinalize txBytes None).
Proof.
  unfold tx_body. apply stays_bind; [apply stays_liftM|]. intros tx. apply stays_bind; [apply stays_liftM|]. intros _.
  apply stays_bind; [apply run_ante_wf|]. intros _. apply stays_bind; [apply update_mempool_wf|]. intros _.
  apply stays_bind; [apply run_messages_wf|]. intros x. apply stays_bind; [apply run_post_wf|]. intros y. apply commit_tx_wf.
Qed.
Lemma defer_consumeBlockGas_wf {A} (x : outcome A * TxRun) : run_wf x.2 → run_wf (defer_consumeBlockGas execModeFinalize x).2.
Proof.
  intros Hx. unfold defer_consumeBlockGas. rewrite decide_True by done. pose proof (consumeBlockGas_wf _ Hx) as H1.
  by destruct (consumeBlockGas x.2) as [[]].
Qed.

(** ** One transaction of a block *)

Lemma getContextForTx_ok txBytes st : ∃ ctx g, getContextForTx execModeFinalize txBytes (Some st) = Ok (ctx, g) ∧
  ctx_blockGasMeter ctx = ctx_blockGasMeter (st_ctx st) ∧ meter_wf g.
Proof.
  destruct (ml_params (st_ms st)) as (cp & g & E & Hg). unfold getContextForTx. rewrite E. cbn [mbind outcome_bind].
  rewrite decide_False by done. by eexists _, _.
Qed.

(** The gas of a transaction moves the block gas meter, and stays within the
    limit if the transaction commits. *)
Definition charged (M c : Z) (committed : bool) (gtx : GasMeter) (c' : Z) : Prop :=
  c <= c' ∧ uint64_range c' ∧ (committed = true → c' = c + GasConsumedToLimit gtx ∧ c' <= M).
Lemma ConsumeGas_charged M c gtx committed : uint64_range M → uint64_range c → meter_wf gtx →
  (committed = true → is_ok (ConsumeGas (GasConsumedToLimit gtx) "block gas meter" (basicGasMeter M c)).1 = true) →
  ∃ c', (ConsumeGas (GasConsumedToLimit gtx) "block gas meter" (basicGasMeter M c)).2 = basicGasMeter M c' ∧ charged M c committed gtx c'.
Proof.
  intros HM' Hc Hg Hok. apply meter_wf_toLimit in Hg. unfold uint64_range, charged in *. rewrite ConsumeGas_basic in * by done.
  destruct (Z.ltb_spec MaxUint64 (c + GasConsumedToLimit gtx)).
  - eexists. split; [done|]. repeat split; try (unfold MaxUint64 in *; lia); by discriminate Hok.
  - destruct (Z.ltb_spec M (c + GasConsumedToLimit gtx)); eexists; (split; [done|]); repeat split; try lia; by discriminate Hok.
Qed.

(** The gas meter a transaction of a block ends with; one that finds the block
    out of gas is not run. *)
Definition tx_meter (txBytes : string) (st : ModeState) (mp : Mempool) : GasMeter :=
  match getContextForTx execModeFinalize txBytes (Some st) with
  | Ok (ctx, g) =>
      if match ctx_blockGasMeter ctx with Some bm => IsOutOfGas bm | None => true end then NewInfiniteGasMeter
      else run_meter (defer_consumeBlockGas execModeFinalize
             (tx_body execModeFinalize txBytes None (mkTxRun (st_ms st) ctx g (ctx_blockGasMeter ctx) mp 0 [] false))).2
  | _ => NewInfiniteGasMeter
  end.
Definition committed (res : ExecTxResult) : bool := bool_decide (er_err res = None).
Lemma deliverTx_charged txBytes st mp M c : standard_recovery → uint64_range M → uint64_range c →
  ctx_blockGasMeter (st_ctx st) = Some (basicGasMeter M c) →
  let gtx := tx_meter txBytes st mp in
  ∃ res st' mp' c', deliverTx txBytes (Some st, mp) = (Ok res, (Some st', mp')) ∧
    ctx_blockGasMeter (st_ctx st') = Some (basicGasMeter M c') ∧ meter_wf gtx ∧
    er_GasUsed res = wrap_int64 (GasConsumed gtx) ∧ charged M c (committed res) gtx c'.
Proof.
  intros Hrec HM' Hc Hbm. destruct (getContextForTx_ok txBytes st) as (ctx & g & Hctx & Eb & Hg). rewrite Hbm in Eb.
  unfold tx_meter. rewrite Hctx, Eb. cbn zeta. destruct (IsOutOfGas (basicGasMeter M c)) eqn:Eo.
  - exists (mkExecTxResult (Some ErrOutOfGas) "" (MarkEventsToIndex [] indexEvents) 0 0), st, mp, c.
    split; [|split; [done|]]; [|split; [done|]; split; [done|]; unfold charged; split; [lia|]; by split].
    unfold deliverTx, mbind, GoM_bind, runTx. rewrite Hctx, !decide_True by done. by rewrite Eb, Eo.
  - destruct (runTx_settled txBytes st mp ctx g _ Hrec Hctx Eb Eo) as (ret & st' & mp' & gtx & E & _ & _ & Hgas & Hst & Hok & Hwf).
    rewrite Eb in Hwf. rewrite <- Hwf. assert (meter_wf gtx) as Hgtx.
    { rewrite Hwf. by apply defer_consumeBlockGas_wf, tx_body_wf. }
    destruct (ConsumeGas_charged M c gtx (bool_decide (tx_err ret = None)) HM' Hc Hgtx) as (c' & Ec & Hch).
    { intros He%bool_decide_eq_true. by apply Hok. }
    unfold deliverTx, mbind, GoM_bind. rewrite E. rewrite Ec in Hst. unfold committed.
    destruct (tx_err ret) as [err|] eqn:Eerr.
    + eexists _, st', mp', c'. split; [reflexivity|]. rewrite Hst. cbn [er_GasUsed er_err]. by rewrite Hgas.
    + destruct Hok as [[result Er] _]; [done|]. rewrite Er. eexists _, st', mp', c'. split; [reflexivity|]. rewrite Hst. cbn [er_GasUsed er_err]. by rewrite Hgas.
Qed.

(** ** The transactions of a block *)

(** The gas meters of the transactions. *)
Fixpoint tx_meters (i : nat) (txs : list string) (app : BaseApp) : list GasMeter :=
  match txs, app_finalizeBlockState app with
  | tx :: txs', Some st => tx_meter tx st (app_mempool app) :: tx_meters (S i) txs' (deliver_txs i [tx] app).2
  | _, _ => []
  end.
(** The gas the committed transactions were charged. *)
Definition committed_gas (rs : list ExecTxResult) (meters : list GasMeter) : Z :=
  zsum (zip_with (λ res g, if committed res then GasConsumedToLimit g else 0) rs meters).

Lemma deliver_txs_charged txs : ∀ i app st M c, standard_recovery → uint64_range M → uint64_range c →
  app_finalizeBlockState app = Some st → ctx_blockGasMeter (st_ctx st) = Some (basicGasMeter M c) →
  let meters := tx_meters i txs app in
  ∃ rs app', deliver_txs i txs app = (Ok rs, app') ∧ length rs = length txs ∧
    Forall2 (λ res g, er_GasUsed res = wrap_int64 (GasConsumed g)) rs meters ∧ committed_gas rs meters <= Z.max 0 (M - c).
Proof.
  induction txs as [|tx txs IH]; intros i app st M c Hrec HM' Hc Efin Hbm.
  { exists [], app. split; [done|]. split; [done|]. split; [constructor|]. unfold committed_gas. cbn. lia. }
  destruct (deliverTx_charged tx st (app_mempool app) M c Hrec HM' Hc Hbm) as (res & st' & mp' & c' & E & Hbm' & Hwf & Hgas & Hle & Hc' & Hch).
  set (app1 := set_mempool mp' (put_state execModeFinalize (Some st') app)).
  destruct (IH (S i) app1 st' M c' Hrec HM' Hc' eq_refl Hbm') as (rs & app' & Ers & Hlen & Hmeters & Hsum).
  cbn zeta. assert ((deliver_txs i [tx] app).2 = app1) as E1.
  { cbn [deliver_txs]. unfold mbind, GoM_bind, on_txs. cbn [getState]. by rewrite Efin, E. }
  cbn [tx_meters]. rewrite Efin, E1. eexists (_ :: rs), app'. split.
  { cbn [deliver_txs]. unfold mbind, GoM_bind, on_txs. cbn [getState]. rewrite Efin, E. fold app1. rewrite Ers. reflexivity. }
  split; [cbn; by rewrite Hlen|]. split; [by constructor|]. apply meter_wf_toLimit in Hwf. unfold uint64_range in *.
  unfold committed_gas, zsum in *. cbn [zip_with foldr]. unfold committed in *. cbn [er_err] in *.
  destruct (bool_decide (er_err res = None)); [specialize (Hch eq_refl) as [-> Hle']; lia|lia].
Qed.

(** C9. After the block gas meter is set, all transactions of a block are
    processed, one result each, whatever they do; each result reports the gas
    of its own meter, and the gas of those that commit sums to at most the
    block gas limit. *)
Theorem block_gas_limit_kept app M app1 txs :
  standard_recovery → uint64_range M → reset_block_meter app = (Ok (NewGasMeter M), app1) →
  let meters := tx_meters 0 txs app1 in
  ∃ rs app', deliver_txs 0 txs app1 = (Ok rs, app') ∧ length rs = length txs ∧
    Forall2 (λ res g, er_GasUsed res = wrap_int64 (GasConsumed g)) rs meters ∧
    committed_gas rs meters <= M.
Proof.
  intros Hrec HM' Hreset.
  apply GoM_bind_Ok in Hreset as (st & a1 & H1 & Hreset). apply GoM_bind_Ok in Hreset as (g & a2 & [_ ->]%liftM_Ok & Hreset).
  apply GoM_bind_Ok in Hreset as (u & a3 & Hset & [= -> <-]).
  assert (∃ st', app_finalizeBlockState a3 = Some st' ∧ ctx_blockGasMeter (st_ctx st') = Some (basicGasMeter M 0)) as (st' & Efin & Ebm).
  { unfold SetContext in Hset. apply GoM_bind_Ok in Hset as (st1 & a4 & H2 & [= _ <-]). by eexists. }
  destruct (deliver_txs_charged txs 0 a3 st' M 0 Hrec HM') as (rs & app' & E & Hlen & Hm & Hsum); [by unfold uint64_range|done|done|].
  exists rs, app'. split; [done|]. split; [done|]. split; [done|]. unfold uint64_range in *. lia.
Qed.
End Gas.

(** ** The example application *)

Lemma ConsumeGas_wf amount desc g : uint64_range amount → meter_wf g → meter_wf (ConsumeGas amount desc g).2.
Proof.
  intros Ha. destruct g as [limit consumed|consumed]; cbn [meter_wf].
  - intros [Hl Hc]. rewrite ConsumeGas_basic by done. unfold uint64_range, MaxUint64 in *. repeat case_match; cbn; rewrite ?Z.ltb_lt, ?Z.ltb_ge in *; unfold uint64_range, MaxUint64; lia.
  - intros Hc. unfold ConsumeGas, infinite_ConsumeGas, addUint64Overflow. unfold uint64_range, MaxUint64 in *.
    destruct (Z.ltb_spec (2 ^ 64 - 1 - consumed) amount); cbn; unfold uint64_range, MaxUint64; [lia|]. rewrite wrap_uint64_id; lia.
Qed.
Lemma gas_limit_range z : uint64_range (Z.abs z mod 2 ^ 64).
Proof. unfold uint64_range, MaxUint64. pose proof (Z.mod_pos_bound (Z.abs z) (2 ^ 64)). lia. Qed.
#[export] Instance ex_meter_laws : MeterLaws.
Proof.
  split; try done.
  - intros ante ctx tx [= <-] s Hs. unfold ex_ante. by destruct (_ =? _).
  - intros ante ctx tx s a c g [= <-] Hs Ha. cbn in Ha. unfold ex_ante in Ha. destruct (_ =? _); injection Ha as <-; [|done].
    intros [= <- <-]. split; [apply gas_limit_range|by unfold uint64_range].
  - intros url method ctx [from [to amt]] Hm [ms g] Hg. cbn in Hm. apply lookup_singleton_Some in Hm as [_ <-].
    assert (meter_wf (ConsumeGas 20 "send" g).2) as Hw by (apply ConsumeGas_wf; [by unfold uint64_range|exact Hg]).
    unfold exec_wf, ex_send. cbn [snd fst]. destruct (ConsumeGas 20 "send" g) as [[u|e|p] g']; repeat case_match; exact Hw.
  - intros ms. by exists ex_params, NewInfiniteGasMeter.
Qed.

(** A node in the middle of a block. *)
Definition ex_app_in_block : BaseApp :=
  mkBaseApp (mkCommitMultiStore {["alice" := 100]} 0 0 "" []) 1 None None None (Some ex_state) [].
Lemma block_gas_limit_kept_witness :
  let app1 := (reset_block_meter ex_app_in_block).2 in
  let txs := ["pay"; "panic"; "late"; "pay2"] in
  ∃ rs app', deliver_txs 0 txs app1 = (Ok rs, app') ∧ length rs = 4%nat ∧
    Forall2 (λ res g, er_GasUsed res = wrap_int64 (GasConsumed g)) rs (tx_meters 0 txs app1) ∧
    committed_gas rs (tx_meters 0 txs app1) <= 100.
Proof.
  cbn zeta. apply (block_gas_limit_kept ex_app_in_block 100 _ ["pay"; "panic"; "late"; "pay2"] ex_standard_recovery); [by unfold uint64_range|].
  transitivity ((reset_block_meter ex_app_in_block).1, (reset_block_meter ex_app_in_block).2); [by destruct (reset_block_meter _)|].
  by replace (reset_block_meter ex_app_in_block).1 with (Ok (NewGasMeter 100)) by reflexivity.
Defined.
(** With a limit of 100, a panicking transaction is charged, the third one goes
    past the limit and does not commit, and the last one is not run. *)
Example ex_block_gas :
  let app1 := (reset_block_meter ex_app_in_block).2 in
  let txs := ["pay"; "panic"; "pay2"; "broke"] in
  match (deliver_txs 0 txs app1).1 with
  | Ok rs => (committed <$> rs, GasConsumedToLimit <$> tx_meters 0 txs app1) = ([true; false; false; false], [30; 30; 50; 0])
  | _ => False
  end.
Proof. vm_compute. reflexivity. Qed.
