(* ===== verification/ProposalProps.v ===== *)
(** * ProposalProps: honest proposals are accepted and respect the limits

    If everything in the mempool of the proposer fits in a block, the default
    [ProcessProposal] handler accepts what the default [PrepareProposal]
    handler made, at every node with the same committed state. *)
From S2P Require Import Prelude KVStore Gas Coin DecCoin SdkContext BaseApp ABCI Proposals BaseAppExample BaseAppProps.

(** ** The transaction selector *)

Section Selector.
Context `{AppConfig} {HP : ProposalConfig}.

Definition gas_of (tx : Tx) : Z := default 0 (GetGas tx).
Class ProposalLaws : Prop := {
  pl_gas : ∀ tx, 0 <= gas_of tx;
  pl_size : ∀ bz, 0 <= ComputeProtoSizeForTx bz;
  pl_codec : ∀ tx bz, txEncoder tx = Ok bz → txDecoder bz = Ok tx
}.
Context {PL : ProposalLaws}.

(** A transaction that fits is selected. *)
Lemma SelectTxForProposal_fits maxTxBytes maxBlockGas tx bz ts :
  0 <= totalTxBytes ts → 0 <= totalTxGas ts → maxTxBytes < 2 ^ 64 → maxBlockGas < 2 ^ 64 →
  totalTxBytes ts + ComputeProtoSizeForTx bz <= maxTxBytes →
  (0 < maxBlockGas → totalTxGas ts + gas_of tx <= maxBlockGas) →
  (SelectTxForProposal maxTxBytes maxBlockGas tx bz ts).2 =
    mkTxSelector (totalTxBytes ts + ComputeProtoSizeForTx bz) (totalTxGas ts + (if 0 <? maxBlockGas then gas_of tx else 0))
      (selectedTxs ts ++ [bz]).
Proof.
  intros Hb Hg HB HG Hfit Hgas. pose proof (pl_gas tx). pose proof (pl_size bz). unfold SelectTxForProposal. fold (gas_of tx).
  rewrite (wrap_uint64_id (ComputeProtoSizeForTx bz + totalTxBytes ts)), (wrap_uint64_id (totalTxBytes ts + _)) by lia.
  destruct (Z.leb_spec (ComputeProtoSizeForTx bz + totalTxBytes ts) maxTxBytes); [|lia].
  destruct (Z.ltb_spec 0 maxBlockGas) as [Hpos|]; [|cbn; f_equal; lia]. specialize (Hgas Hpos).
  rewrite (wrap_uint64_id (gas_of tx + totalTxGas ts)), (wrap_uint64_id (totalTxGas ts + _)) by lia.
  destruct (Z.leb_spec (gas_of tx + totalTxGas ts) maxBlockGas); [done|lia].
Qed.
End Selector.

(** ** Verification of a transaction *)

Section Verify.
Context `{AppConfig} {HM : MempoolOps} {HP : ProposalConfig}.

Definition verifying (mode : execMode) : Prop := mode = execModePrepareProposal ∨ mode = execModeProcessProposal.
(** The context in which the other nodes check a proposal made in [ctx]. *)
Definition process_ctx (h : string) (ctx : Context) : Context := WithExecMode execModeProcessProposal (WithHeaderHash h ctx).
(** What the ante handler does in [PrepareProposal] it also does in
    [ProcessProposal], where the context also has the hash of the proposed
    block, and the context it returns has the mode it was given (other modes
    may be treated differently); in these two modes, where the messages are not
    executed, the post handler, if there is one, does not refuse a transaction;
    reading the parameters does not panic and reading the messages of a
    transaction does not fail. *)
Class VerifyLaws : Prop := {
  vl_ante : ∀ ante ctx h tx s, anteHandler = Some ante → ctx_execMode ctx = execModePrepareProposal →
    let x := ante ctx tx s in let y := ante (process_ctx h ctx) tx s in
    x.2 = y.2 ∧ ante_err <$> x.1 = ante_err <$> y.1;
  vl_ante_mode : ∀ ante ctx tx s a s' c g, anteHandler = Some ante → verifying (ctx_execMode ctx) →
    ante ctx tx s = (Ok a, s') → ante_newCtx a = Some (c, g) → ctx_execMode c = ctx_execMode ctx;
  vl_post : ∀ post ctx tx s, postHandler = Some post → verifying (ctx_execMode ctx) → is_ok (post ctx tx true s).1 = true;
  vl_reflect : ∀ tx, is_ok (GetReflectMessages tx) = true;
  vl_marshal : is_ok (MarshalTxMsgData []) = true;
  vl_params : ∀ ms, is_ok (GetConsensusParams ms NewInfiniteGasMeter).1 = true
}.
Context {VL : VerifyLaws}.

(** The store after a transaction that is valid in the context of a proposal. *)
Definition verify_spec (mode : execMode) (bz : string) (tx : Tx) (ctx : Context) (ms : MultiStore) : option MultiStore :=
  match getContextForTx mode bz (Some (mkModeState ms ctx)) with
  | Ok (ctx', g) =>
      if is_ok (validateBasicTxMsgs msgServiceRouter (GetMsgs tx)) then snd <$> ante_stage tx ctx' g ms else None
  | _ => None
  end.

Lemma run_ante_verify mode tx r : verifying mode → ctx_execMode (run_ctx r) = mode → run_blockMeter r = ctx_blockGasMeter (run_ctx r) →
  match ante_stage tx (run_ctx r) (run_meter r) (run_ms r) with
  | Some (_, _, ms1) => ∃ r', run_ante mode tx r = (Ok tt, r') ∧ run_ms r' = ms1 ∧ run_blockMeter r' = run_blockMeter r ∧ run_mempool r' = run_mempool r ∧
      ctx_execMode (run_ctx r') = mode
  | None => let x := run_ante mode tx r in is_ok x.1 = false ∧ run_ms x.2 = run_ms r ∧ run_blockMeter x.2 = run_blockMeter r ∧ run_mempool x.2 = run_mempool r
  end.
Proof.
  intros Hmode Hm Hb. unfold ante_stage, run_ante. destruct anteHandler as [ante|] eqn:Eante; [|by exists r].
  pose proof (λ a s' c g, vl_ante_mode ante (WithEventManager [] (run_ctx r)) tx (run_ms r, run_meter r) a s' c g Eante) as Hnew.
  change (ctx_execMode (WithEventManager [] (run_ctx r))) with (ctx_execMode (run_ctx r)) in Hnew. rewrite Hm in Hnew.
  destruct (ante (WithEventManager [] (run_ctx r)) tx (run_ms r, run_meter r)) as [[a|e|p] [ms1 g1]].
  - assert (∀ nc, run_ms (adopt_ctx nc g1 r) = run_ms r ∧ run_blockMeter (adopt_ctx nc g1 r) = run_blockMeter r ∧
      run_mempool (adopt_ctx nc g1 r) = run_mempool r) as Ha by (by intros [[c g]|]).
    destruct (Ha (ante_newCtx a)) as (H1 & H2 & H3). destruct (ante_err a) as [err|].
    + rewrite decide_False by (destruct Hmode; congruence). by destruct (ante_newCtx a).
    + destruct (ante_newCtx a) as [[c g2]|] eqn:En; (eexists; split; [done|]; split; [done|]; split; [done|]; split; [done|]); [|done].
      exact (Hnew a _ c g2 Hmode eq_refl En).
  - cbn [ante_err ante_newCtx]. rewrite decide_False by (destruct Hmode; congruence). done.
  - done.
Qed.

Lemma bind_stops {S A B} (m : GoM S A) (k : A → GoM S B) s : is_ok (m s).1 = false →
  ((m ≫= k) s).2 = (m s).2 ∧ is_ok ((m ≫= k) s).1 = false.
Proof. unfold mbind, GoM_bind. by destruct (m s) as [[]]. Qed.

Lemma run_post_verify tx ms result r : verifying (ctx_execMode (run_ctx r)) → ∃ ms2 result2 g,
  run_post tx (ms, Some result, None) r = (Ok (ms2, Some result2, None), set_run_meter g r).
Proof.
  intros Hm. unfold run_post. destruct postHandler as [post|] eqn:Epost.
  - pose proof (vl_post post (WithEventManager [] (run_ctx r)) tx (ms, run_meter r) Epost Hm) as Hok.
    rewrite bool_decide_true by done. destruct (post _ tx true _) as [[ev|e|p] [ms2 g]]; [|done|done].
    exists ms2, (mkResult (res_Data result) (res_Events result ++ ev) (res_MsgResponses result)), g. done.
  - exists ms, result, (run_meter r). by destruct r.
Qed.
(** In the modes of proposals [runTx] keeps only what the ante handler wrote. *)
Lemma tx_body_verify mode bz tx r : verifying mode → ctx_execMode (run_ctx r) = mode → run_blockMeter r = ctx_blockGasMeter (run_ctx r) →
  let x := tx_body mode bz (Some tx) r in
  run_blockMeter x.2 = run_blockMeter r ∧ run_mempool x.2 = run_mempool r ∧
  match (if is_ok (validateBasicTxMsgs msgServiceRouter (GetMsgs tx)) then snd <$> ante_stage tx (run_ctx r) (run_meter r) (run_ms r) else None) with
  | Some ms1 => (∃ result, x.1 = Ok (Some result, None)) ∧ run_ms x.2 = ms1
  | None => is_ok x.1 = false ∧ run_ms x.2 = run_ms r
  end.
Proof.
  intros Hmode Hm Hb. unfold tx_body. cbn zeta. rewrite (liftM_bind_run _ _ tx) by done.
  rewrite decide_False by (destruct Hmode; congruence).
  destruct (validateBasicTxMsgs msgServiceRouter (GetMsgs tx)) as [u|e|p]; [|done|done]. rewrite (liftM_bind_run _ _ u) by done. cbn [is_ok].
  pose proof (run_ante_verify mode tx r Hmode Hm Hb) as Ha. destruct (ante_stage tx _ _ _) as [[[c g] ms1]|]; cbn [fmap option_fmap option_map snd].
  - destruct Ha as (r1 & Ea & Hms & Hb1 & Hmp & Hm1). rewrite (GoM_bind_run _ _ _ _ _ Ea).
    assert (update_mempool mode tx r1 = (Ok tt, r1)) as Eu by (by destruct Hmode as [-> | ->]). rewrite (GoM_bind_run _ _ _ _ _ Eu).
    assert (∃ result, run_messages mode tx (GetMsgs tx) r1 = (Ok (run_ms r1, Some result, None), set_run_meter (run_meter r1) r1)) as [result Em].
    { unfold run_messages. pose proof (vl_reflect tx) as Hr. pose proof vl_marshal as Hmar. destruct (GetReflectMessages tx) as [refl| |]; [|done|done].
      rewrite (liftM_bind_run _ _ refl) by done. unfold runMsgs. rewrite decide_False by (destruct Hmode; congruence).
      destruct (MarshalTxMsgData []) as [d| |] eqn:Ed; [|done|done]. unfold mbind, GoM_bind, mret, GoM_ret, liftM. rewrite Ed. by eexists. }
    rewrite (GoM_bind_run _ _ _ _ _ Em).
    destruct (run_post_verify tx (run_ms r1) result (set_run_meter (run_meter r1) r1)) as (ms2 & result' & g2 & Ep);
      [cbn; by rewrite Hm1|].
    rewrite (GoM_bind_run _ _ _ _ _ Ep).
    unfold commit_tx, mbind, GoM_bind, mret, GoM_ret. rewrite decide_False by (destruct Hmode; congruence). cbn.
    split; [done|]. split; [done|]. split; [by eexists|done].
  - destruct Ha as (Hok & Hms & Hb1 & Hmp).
    match goal with |- context [(run_ante mode tx ≫= ?k) r] => destruct (bind_stops _ k r Hok) as [-> ->] end. done.
Qed.

Lemma runTx_verify mode bz tx ms ctx mp : verifying mode → ctx_execMode ctx = mode → standard_recovery → ∃ ret ms',
  runTx mode bz (Some tx) (Some (mkModeState ms ctx), mp) = (Ok ret, (Some (mkModeState ms' ctx), mp)) ∧
  match verify_spec mode bz tx ctx ms with
  | Some ms1 => tx_err ret = None ∧ ms' = ms1
  | None => is_Some (tx_err ret) ∧ ms' = ms
  end.
Proof.
  intros Hmode Hm Hrec. unfold verify_spec, runTx. pose proof (vl_params ms) as Hp. unfold getContextForTx. cbn [st_ms st_ctx].
  destruct (GetConsensusParams ms NewInfiniteGasMeter) as [[cp|e|p] g]; [|done|done]. cbn [mbind outcome_bind].
  rewrite decide_False by (destruct Hmode; congruence). cbn [mret outcome_ret]. rewrite decide_False by (destruct Hmode; congruence).
  unfold defer_consumeBlockGas. rewrite decide_False by (destruct Hmode; congruence).
  set (c := WithConsensusParams cp _). set (r := mkTxRun _ _ _ _ _ _ _ _).
  destruct (tx_body_verify mode bz tx r Hmode Hm eq_refl) as (Hb & Hmp & Hx).
  pose proof (defer_recover_err (tx_body mode bz (Some tx) r) Hrec) as [Herr _].
  eexists _, (run_ms (tx_body mode bz (Some tx) r).2). rewrite Hb, Hmp. split; [by destruct ctx|].
  change (run_ctx r) with c in Hx. change (run_meter r) with g in Hx. change (run_ms r) with ms in Hx.
  destruct (if is_ok _ then _ else None) as [ms1|].
  - destruct Hx as [[result Hx] Hms]. split; [apply Herr; by eexists|done].
  - destruct Hx as [Hx Hms]. split; [|done]. apply not_eq_None_Some. intros [result E]%Herr. by rewrite E in Hx.
Qed.

(** Both modes verify alike. *)
Lemma verify_spec_modes bz tx ctx h ms : ctx_execMode ctx = execModePrepareProposal →
  verify_spec execModeProcessProposal bz tx (process_ctx h ctx) ms = verify_spec execModePrepareProposal bz tx ctx ms.
Proof.
  intros Hm. unfold verify_spec, getContextForTx. cbn [st_ms st_ctx].
  destruct (GetConsensusParams ms NewInfiniteGasMeter) as [[cp|e|p] g]; [|done|done].
  cbn [mbind outcome_bind]. rewrite !decide_False by done. cbn [mret outcome_ret]. destruct (is_ok _); [|done].
  unfold ante_stage. destruct anteHandler as [ante|] eqn:Ea; [|done].
  set (c := WithEventManager [] (WithConsensusParams cp (WithIsSigverifyTx sigverifyTx (WithTxBytes bz ctx)))).
  change (WithEventManager [] (WithConsensusParams cp (WithIsSigverifyTx sigverifyTx (WithTxBytes bz (process_ctx h ctx))))) with (process_ctx h c).
  pose proof (vl_ante ante c h tx (ms, g) Ea Hm) as [H1 H2]. clearbody c.
  destruct (ante c tx (ms, g)) as [x [ms1 g1]]. destruct (ante (process_ctx h c) tx (ms, g)) as [y [ms2 g2]].
  cbn [fst snd] in H1, H2. injection H1 as <- <-. destruct x as [a| |], y as [b| |]; try done. cbn in H2. injection H2 as H2. rewrite <- H2.
  destruct (ante_err a); [done|]. by destruct (ante_newCtx a) as [[? ?]|], (ante_newCtx b) as [[? ?]|].
Qed.

(** ** The two handlers *)

Context {PL : ProposalLaws} (Hrec : standard_recovery).

Lemma PrepareProposalVerifyTx_spec tx ms ctx mp : ctx_execMode ctx = execModePrepareProposal → ∃ ms',
  (PrepareProposalVerifyTx tx (Some (mkModeState ms ctx), mp)).2 = (Some (mkModeState ms' ctx), mp) ∧
  match (PrepareProposalVerifyTx tx (Some (mkModeState ms ctx), mp)).1 with
  | Ok bz => txEncoder tx = Ok bz ∧ verify_spec execModePrepareProposal bz tx ctx ms = Some ms'
  | _ => ms' = ms
  end.
Proof.
  intros Hm. unfold PrepareProposalVerifyTx. destruct (txEncoder tx) as [bz|e|p]; [|by exists ms|by exists ms].
  rewrite (liftM_bind_run _ _ bz) by done.
  destruct (runTx_verify execModePrepareProposal bz tx ms ctx mp) as (ret & ms' & E & Hx); [by left|done|done|].
  rewrite (GoM_bind_run _ _ _ _ _ E). exists ms'. destruct (verify_spec _ bz tx ctx ms) as [ms1|] eqn:Ev.
  - by destruct Hx as [-> ->].
  - by destruct Hx as [[err ->] ->].
Qed.
Lemma ProcessProposalVerifyTx_spec bz tx ms ms1 ctx h mp : ctx_execMode ctx = execModePrepareProposal → txDecoder bz = Ok tx →
  verify_spec execModePrepareProposal bz tx ctx ms = Some ms1 →
  let ctx' := process_ctx h ctx in
  ProcessProposalVerifyTx bz (Some (mkModeState ms ctx'), mp) = (Ok tx, (Some (mkModeState ms1 ctx'), mp)).
Proof.
  intros Hm Hd Hv ctx'. unfold ProcessProposalVerifyTx. rewrite Hd, (liftM_bind_run _ _ tx) by done.
  destruct (runTx_verify execModeProcessProposal bz tx ms ctx' mp) as (ret & ms' & E & Hx); [by right|done|done|].
  rewrite (GoM_bind_run _ _ _ _ _ E). unfold ctx' in Hx. rewrite verify_spec_modes, Hv in Hx by done. by destruct Hx as [-> ->].
Qed.

(** The selected transactions with their encodings, verified in this order. *)
Inductive verified (ctx : Context) : MultiStore → list (Tx * string) → MultiStore → Prop :=
| verified_nil ms : verified ctx ms [] ms
| verified_cons ms tx bz ms1 l ms2 : txDecoder bz = Ok tx → verify_spec execModePrepareProposal bz tx ctx ms = Some ms1 →
    verified ctx ms1 l ms2 → verified ctx ms ((tx, bz) :: l) ms2.
Lemma verified_snoc ctx ms l ms1 tx bz ms2 : verified ctx ms l ms1 → txDecoder bz = Ok tx →
  verify_spec execModePrepareProposal bz tx ctx ms1 = Some ms2 → verified ctx ms (l ++ [(tx, bz)]) ms2.
Proof.
  intros Hl Hd Hv. induction Hl as [ms|ms tx' bz' ms' l ms1 Hd' Hv' Hl IH]; cbn.
  - eapply verified_cons; [done|done|constructor].
  - eapply verified_cons; [done|done|by apply IH].
Qed.

Definition sizes (l : list (Tx * string)) : Z := zsum ((λ p, ComputeProtoSizeForTx (p.2)) <$> l).
Definition gases (l : list (Tx * string)) : Z := zsum ((λ p, gas_of (p.1)) <$> l).
Lemma zsum_app l1 l2 : zsum (l1 ++ l2) = zsum l1 + zsum l2.
Proof. unfold zsum. induction l1 as [|x l1 IH]; cbn; lia. Qed.
Lemma gases_nonneg l : 0 <= gases l.
Proof. unfold gases, zsum. induction l as [|[tx bz] l IH]; cbn [fmap list_fmap foldr fst]; [lia|]. pose proof (pl_gas tx). lia. Qed.
Lemma sizes_nonneg l : 0 <= sizes l.
Proof. unfold sizes, zsum. induction l as [|[tx bz] l IH]; cbn [fmap list_fmap foldr snd]; [lia|]. pose proof (pl_size bz). lia. Qed.

(** What of the pool is still to come, encoded. *)
Definition pool_size (txs : list Tx) : Z :=
  zsum ((λ tx, match txEncoder tx with Ok bz => ComputeProtoSizeForTx bz | _ => 0 end) <$> txs).
Definition pool_gas (txs : list Tx) : Z := zsum (gas_of <$> txs).
Lemma pool_cons tx txs : pool_size (tx :: txs) = match txEncoder tx with Ok bz => ComputeProtoSizeForTx bz | _ => 0 end + pool_size txs ∧
  pool_gas (tx :: txs) = gas_of tx + pool_gas txs.
Proof. done. Qed.
Lemma pool_nonneg txs : 0 <= pool_size txs ∧ 0 <= pool_gas txs.
Proof.
  induction txs as [|tx txs [IH1 IH2]]; [done|]. destruct (pool_cons tx txs) as [-> ->]. pose proof (pl_gas tx).
  destruct (txEncoder tx) as [bz| |]; [pose proof (pl_size bz)|..]; lia.
Qed.

(** The state of the enumeration: what is selected was verified in order, the
    totals are exact, and the rest of the pool still fits. *)
Definition enumerating (maxTxBytes maxBlockGas : Z) (ctx : Context) (ms0 : MultiStore) (rest : list Tx) (en : Enumeration)
    (s : option ModeState * Mempool) : Prop :=
  ctx_execMode ctx = execModePrepareProposal ∧
  ∃ l ms, selectedTxs (en_selector en) = snd <$> l ∧ verified ctx ms0 l ms ∧ s.1 = Some (mkModeState ms ctx) ∧
    totalTxBytes (en_selector en) = sizes l ∧ totalTxGas (en_selector en) = (if 0 <? maxBlockGas then gases l else 0) ∧
    sizes l + pool_size rest <= maxTxBytes ∧ (0 < maxBlockGas → gases l + pool_gas rest <= maxBlockGas).

Lemma enumerating_skip maxTxBytes maxBlockGas ctx ms0 tx rest en s :
  enumerating maxTxBytes maxBlockGas ctx ms0 (tx :: rest) en s → enumerating maxTxBytes maxBlockGas ctx ms0 rest en s.
Proof.
  intros (Hm & l & ms & H1 & H2 & H3 & H4 & H5 & H6 & H7). split; [done|]. exists l, ms. destruct (pool_cons tx rest) as [E1 E2]. rewrite E1 in H6. rewrite E2 in H7.
  pose proof (pl_gas tx). repeat split; try done; [|intros Hpos; specialize (H7 Hpos); lia].
  destruct (txEncoder tx) as [bz| |]; [pose proof (pl_size bz)|..]; lia.
Qed.

Lemma enumerating_all maxTxBytes maxBlockGas ctx ms0 rest en s :
  enumerating maxTxBytes maxBlockGas ctx ms0 rest en s → enumerating maxTxBytes maxBlockGas ctx ms0 [] en s.
Proof. induction rest as [|tx rest IH]; [done|]. intros He. by apply IH, (enumerating_skip _ _ _ _ tx). Qed.

Context (maxTxBytes maxBlockGas : Z) (HB : maxTxBytes < 2 ^ 64) (HG : maxBlockGas < 2 ^ 64).

Lemma prepare_tx_step ctx ms0 tx rest en s r s' : enumerating maxTxBytes maxBlockGas ctx ms0 (tx :: rest) en s →
  prepare_tx maxTxBytes maxBlockGas tx en s = (Ok r, s') → enumerating maxTxBytes maxBlockGas ctx ms0 rest r.2 s'.
Proof.
  intros He Hp. unfold prepare_tx in Hp. destruct (if GetUnordered tx then _ else _) as [[txSeqs|]|e|p]; [| | |done].
  2, 3: injection Hp as <- <-; by apply enumerating_skip in He.
  destruct He as (Hm & l & ms & H1 & H2 & H3 & H4 & H5 & H6 & H7). destruct s as [st mp]. cbn [fst] in H3. subst st.
  destruct (PrepareProposalVerifyTx_spec tx ms ctx mp Hm) as (ms' & Es & Hx).
  destruct (PrepareProposalVerifyTx tx (Some (mkModeState ms ctx), mp)) as [[bz|e|p] s1]; cbn [fst snd] in *; subst s1; [| |done].
  - destruct Hx as [Henc Hv]. injection Hp as <- <-. destruct (pool_cons tx rest) as [E1 E2]. rewrite E1, Henc in H6. rewrite E2 in H7.
    pose proof (pool_nonneg rest) as [P1 P2]. pose proof (gases_nonneg l). pose proof (sizes_nonneg l).
    pose proof (SelectTxForProposal_fits maxTxBytes maxBlockGas tx bz (en_selector en)) as Hsel. unfold offer_tx.
    destruct (SelectTxForProposal maxTxBytes maxBlockGas tx bz (en_selector en)) as [stop ts]. cbn [snd] in Hsel.
    rewrite Hsel in *; [|lia|destruct (0 <? maxBlockGas); lia|done|done|lia|intros Hpos; specialize (H7 Hpos); destruct (0 <? maxBlockGas); lia].
    assert (∀ en', en_selector en' = mkTxSelector (totalTxBytes (en_selector en) + ComputeProtoSizeForTx bz)
      (totalTxGas (en_selector en) + (if 0 <? maxBlockGas then gas_of tx else 0)) (selectedTxs (en_selector en) ++ [bz]) →
      enumerating maxTxBytes maxBlockGas ctx ms0 rest en' (Some (mkModeState ms' ctx), mp)) as Hdone.
    { intros en' Een. split; [done|]. exists (l ++ [(tx, bz)]), ms'. rewrite Een. cbn [selectedTxs totalTxBytes totalTxGas].
      unfold sizes, gases in *. rewrite !fmap_app, !zsum_app, H1, H4, H5. cbn [fmap list_fmap fst snd].
      split; [done|]. split; [eapply verified_snoc; [done|by apply pl_codec|done]|]. split; [done|].
      change (zsum [?x]) with (x + 0). split; [lia|]. split; [destruct (0 <? maxBlockGas); lia|]. split; [lia|]. intros Hpos. specialize (H7 Hpos). lia. }
    destruct stop; by apply Hdone.
  - injection Hp as <- <-. subst ms'. apply (enumerating_skip _ _ _ _ tx). split; [done|]. by exists l, ms.
Qed.
Lemma enumerate_mempool_spec ctx ms0 txs : ∀ en s en' s', enumerating maxTxBytes maxBlockGas ctx ms0 txs en s →
  enumerate_mempool maxTxBytes maxBlockGas txs en s = (Ok en', s') → enumerating maxTxBytes maxBlockGas ctx ms0 [] en' s'.
Proof.
  induction txs as [|tx txs IH]; intros en s en' s' He Hrun; cbn [enumerate_mempool] in Hrun; [by injection Hrun as <- <-|].
  apply GoM_bind_Ok in Hrun as ([b en1] & s1 & Hp & Hrun). apply (prepare_tx_step ctx ms0 tx txs) in Hp; [|done]. cbn [fst snd] in *.
  destruct b; [by eapply IH|]. injection Hrun as <- <-.
  clear IH. by apply enumerating_all in Hp.
Qed.

Lemma process_txs_accepts maxGas ctx h mp ms l ms' : ctx_execMode ctx = execModePrepareProposal → verified ctx ms l ms' → ∀ gas, 0 <= gas → maxGas < 2 ^ 64 →
  (0 < maxGas → gas + gases l <= maxGas) →
  let ctx' := process_ctx h ctx in
  process_txs maxGas (snd <$> l) gas (Some (mkModeState ms ctx'), mp) = (Ok PROCESS_PROPOSAL_STATUS_ACCEPT, (Some (mkModeState ms' ctx'), mp)).
Proof.
  intros Hm Hl. induction Hl as [ms|ms tx bz ms1 l ms2 Hd Hv Hl IH]; intros gas Hgas Hmax Hfit ctx'; [done|].
  cbn [fmap list_fmap snd process_txs]. unfold ctx'. rewrite (ProcessProposalVerifyTx_spec bz tx ms ms1 ctx h mp Hm Hd Hv).
  assert (gases ((tx, bz) :: l) = gas_of tx + gases l) as Eg by done. rewrite Eg in Hfit. pose proof (pl_gas tx) as Hg. pose proof (gases_nonneg l).
  destruct (Z.ltb_spec 0 maxGas) as [Hpos|]; [|apply IH; [done|done|lia]]. specialize (Hfit Hpos). unfold gas_of in *.
  rewrite (wrap_uint64_id maxGas) by lia. destruct (GetGas tx) as [g|]; cbn [default] in *.
  - rewrite wrap_uint64_id by (cbn in *; lia). destruct (Z.ltb_spec maxGas (gas + g)); [cbn in *; lia|]. apply IH; cbn in *; lia.
  - destruct (Z.ltb_spec maxGas gas); [cbn in *; lia|]. apply IH; cbn in *; lia.
Qed.
End Verify.

(** The contexts of a proposal at the proposer and at another node, for the
    same commit, differ in the mode and the hash only. *)
Lemma proposal_ctx_modes `{AppConfig} height time hash proposer votes comet ctx :
  proposal_ctx execModeProcessProposal height time (Some hash) proposer votes comet ctx =
  process_ctx hash (proposal_ctx execModePrepareProposal height time None proposer votes comet ctx) ∧
  ctx_execMode (proposal_ctx execModePrepareProposal height time None proposer votes comet ctx) = execModePrepareProposal.
Proof. done. Qed.

Section Accepted.
Context `{AppConfig} {HM : MempoolOps} {HP : ProposalConfig} {VL : VerifyLaws} {PL : ProposalLaws}.

Definition proposal_max_gas (ctx : Context) : Z := match cp_Block (ctx_consParams ctx) with Some b => bp_MaxGas b | None => 0 end.
(** Everything the mempool offers fits in the block. *)
Definition pool_fits (ctx : Context) (req : PrepareProposalRequest) (mp : Mempool) : Prop :=
  ∀ decoded, traverse txDecoder (pp_Txs req) = Ok decoded →
    pool_size (mp_Select mp ctx decoded) <= wrap_uint64 (pp_MaxTxBytes req) ∧
    (proposal_max_gas ctx ≠ 0 → pool_gas (mp_Select mp ctx decoded) <= wrap_uint64 (proposal_max_gas ctx)).

(** C10. If everything the mempool offers fits in the block, the transactions that
    the default [PrepareProposal] handler selects are accepted by the default
    [ProcessProposal] handler of every node with the same committed state,
    whatever is in its mempool.  Of the application ([VerifyLaws],
    [ProposalLaws], [standard_recovery]) this needs: the ante handler accepts
    and writes in [ProcessProposal] what it does in [PrepareProposal] (it may
    behave differently in every other mode, but not depend on the hash of the
    proposed block); a post handler, if there is one, does not refuse a
    transaction in these two modes, where the messages are not executed; the
    encoding of a transaction decodes to it; reading parameters and messages
    does not fail; and no panic is recovered as a success. *)
Theorem honest_proposal_accepted ctx ms mp req txs s' h mp' req' :
  standard_recovery → ctx_execMode ctx = execModePrepareProposal → pool_fits ctx req mp → - 2 ^ 63 <= proposal_max_gas ctx < 2 ^ 63 →
  PrepareProposalHandler ctx req (Some (mkModeState ms ctx), mp) = (Ok txs, s') → pr_Txs req' = txs →
  let ctx' := process_ctx h ctx in
  (ProcessProposalHandler ctx' req' (Some (mkModeState ms ctx'), mp')).1 = Ok PROCESS_PROPOSAL_STATUS_ACCEPT.
Proof.
  intros Hrec Hm Hfits Hgas Hp Etxs ctx'. unfold ProcessProposalHandler. destruct mp_isNoOp eqn:En; [done|].
  unfold PrepareProposalHandler in Hp. rewrite En in Hp. apply GoM_bind_Ok in Hp as (decoded & s1 & [Hd ->]%liftM_Ok & Hp).
  apply GoM_bind_Ok in Hp as (s2 & s3 & [= <- <-] & Hp). apply GoM_bind_Ok in Hp as (en & s4 & Hen & Hp). cbn [snd] in Hen.
  destruct (en_resError en); [done|]. apply GoM_bind_Ok in Hp as (u & s5 & _ & [= <- _]). destruct (Hfits decoded Hd) as [Hb Hg].
  replace (match cp_Block (ctx_consParams ctx) with Some b => wrap_uint64 (bp_MaxGas b) | None => 0 end)
    with (wrap_uint64 (proposal_max_gas ctx)) in Hen by (unfold proposal_max_gas; by destruct (cp_Block _)).
  assert (∀ z, 0 <= wrap_uint64 z < 2 ^ 64) as Hw by (intros z; apply Z.mod_pos_bound; lia).
  apply (enumerate_mempool_spec Hrec _ _ (proj2 (Hw _)) (proj2 (Hw _)) ctx ms) in Hen.
  2: { split; [done|]. exists [], ms. split; [done|]. split; [constructor|]. split; [done|]. split; [done|]. split; [by destruct (0 <? _)|].
       cbn. split; [done|]. intros Hpos. apply Hg. intros E. rewrite E in Hpos. done. }
  destruct Hen as (_ & l & ms1 & Hsel & Hver & _ & _ & _ & _ & Hfit). rewrite Etxs, Hsel.
  fold (proposal_max_gas ctx'). change (proposal_max_gas ctx') with (proposal_max_gas ctx).
  rewrite (process_txs_accepts Hrec (proposal_max_gas ctx) ctx h mp' ms l ms1 Hm Hver 0); [done|done|lia|].
  intros Hpos. cbn in Hfit. rewrite wrap_uint64_id in Hfit by lia. specialize (Hfit Hpos). lia.
Qed.
End Accepted.

(** ** The example application *)

Lemma ex_encode_Ok tx bz : ex_encode tx = Ok bz → ex_decode bz = Ok tx.
Proof. unfold ex_encode. by case_decide; intros [= <-]. Qed.
#[export] Instance ex_proposal_laws : ProposalLaws.
Proof.
  split.
  - intros tx. unfold gas_of. cbn. pose proof (Z.mod_pos_bound (Z.abs (ex_gas tx)) (2 ^ 64)). lia.
  - intros bz. cbn. lia.
  - apply ex_encode_Ok.
Qed.
#[export] Instance ex_verify_laws : VerifyLaws.
Proof.
  split; try done.
  - intros ante ctx h tx s [= <-] _. unfold ex_ante. by destruct (_ =? _).
  - intros ante ctx tx s a s' c g [= <-] _. unfold ex_ante. destruct (_ =? _); intros [= <- <-]; [by intros [= <- <-]|done].
Qed.
Definition ex_pay : ExTx := mkExTx "pay" "alice" 0 60 [("bob", 5)].
Definition ex_ctx : Context := WithExecMode execModePrepareProposal (WithConsensusParams ex_params (NewContext false)).
Definition ex_proposed : outcome (list string) * (option ModeState * Mempool) :=
  PrepareProposalHandler ex_ctx (ex_prepare 6 []) (Some (mkModeState {["alice" := 100]} ex_ctx), [ex_pay]).
Lemma honest_proposal_accepted_witness :
  let ctx' := process_ctx "h" ex_ctx in
  ex_proposed.1 = Ok ["pay"] ∧
  (ProcessProposalHandler ctx' (ex_process 6 ["pay"]) (Some (mkModeState {["alice" := 100]} ctx'), [])).1
    = Ok PROCESS_PROPOSAL_STATUS_ACCEPT.
Proof.
  assert (ex_proposed.1 = Ok ["pay"]) as E by (vm_compute; reflexivity). split; [exact E|].
  assert (ex_proposed = (Ok ["pay"], ex_proposed.2)) as Ep by (rewrite <- E; by destruct ex_proposed).
  refine (honest_proposal_accepted ex_ctx {["alice" := 100]} [ex_pay] (ex_prepare 6 []) ["pay"] ex_proposed.2 "h" [] (ex_process 6 ["pay"])
    ex_standard_recovery eq_refl _ _ Ep eq_refl).
  - intros decoded [= <-]. split; [vm_compute; discriminate|]. intros _. vm_compute. discriminate.
  - vm_compute. split; [discriminate|reflexivity].
Defined.
